(* ===== verification/_CoqProject ===== *)
-Q . S2P
Prelude.v
Buffer.v
Resp.v
Hashtable.v
HashMap.v
Scan.v
Avl.v
StdString.v
Deque.v
Heap.v
Score.v
ZSet.v
HashSet.v
State.v
World.v
Args.v
Strings.v
Lists.v
Glob.v
Keys.v
Containers.v
Hashes.v
Sets.v
SetCommands.v
CText.v
CFloat.v
ZCommands.v
ZSetCommands.v
FloatCmd.v
CmdTable.v
Handlers.v
Acl.v
Config.v
ConfigFile.v
Double.v
Crc32.v
Rdb.v
RdbSpec.v
RdbRound.v
Txn.v
Backlog.v
Aof.v
AofFile.v
ReplicaLink.v
Loop.v
Handover.v
DList.v
Timers.v
PubSub.v
ThreadPool.v
Evict.v
Dispatch.v
Session.v
Auth.v
Sha256Spec.v
Cred.v
SaveFile.v
Client.v
Admin.v
AuditLog.v
Accept.v
Mailbox.v
Startup.v
ReplCron.v
Info.v
