(* ===== verification/Prelude.v ===== *)
(** * MYRED, a Redis-like server: verification library

    MYRED (src/src/) is an in-memory data-structure server that speaks RESP: one
    thread runs the event loop (server/server.cpp) over the connections, a pool
    of workers checks passwords and syncs files.  Bytes arrive through the
    transport (server/transport.cpp) in a connection's [Buffer],
    [parse_resp_request] (protocol/resp.cpp) cuts them into an argument vector,
    the dispatcher of commands/commands.cpp checks access, renames, memory and
    role, a handler runs against the keyspace of core/state.cpp and appends its
    reply to the output [Buffer]; what it changed goes to the append-only file
    (persistence/aof.cpp), to the replicas, to watchers and subscribers.  Timers
    expire keys, close idle connections, start snapshots (persistence/rdb.cpp)
    and keep replication alive.  client/client.cpp is a console client.

    ** How the program is modelled

    A C++ object is a record, a pointer to a node a position in the container
    (a heap index, a path in a tree, a key), a fixed-width integer a [Z] whose
    wrap-around is written out ([u8] ... [i64] below).  A container operation
    takes the container and returns it with its result; a handler runs in a
    state monad over [World.World]: the keyspace, the counter of writes, the
    draws of the random generator, the output buffer, and the read-only
    environment (the clock at the command's start, the memory policy, the
    protocol version of the connection).  Entries are records in a finite map
    [ents] addressed by the key, beside the hashtable [db] that holds the links;
    [State.ks_ok] says that the two agree.

    ** Files and the sources they translate

    - Prelude: bytes, machine words, the state monad, list and integer lemmas,
      the hint database [myred].
    - Buffer (protocol/buffer.cpp), Resp (protocol/resp.cpp and [aof_emit_vec] of
      persistence/aof.cpp): the byte queue, the request parser, the replies.
    - Hashtable, HashMap, Scan (ds/hashtable.cpp): the progressively rehashing
      table, its refinement of a finite map, the scan cursor.
    - Avl (ds/avl.cpp), Score (doubles as the order sees them), ZSet
      (types/zset.cpp): the tree and the sorted set on it.
    - StdString (what the code uses of [std::string], capacities included),
      Deque (ds/deque.cpp), Heap (ds/heap.cpp), HashSet (types/hash.cpp,
      types/set.cpp).
    - State (core/state.cpp: entries, time to live, memory accounting) and World
      (the context of a handler, [lookup_entry], access statistics, the choice
      of an eviction victim, the timer pass of server.cpp).
    - Args, Strings, Lists, Glob, Keys, Containers, Hashes, Sets, SetCommands
      (commands/commands.cpp): argument parsing and the handlers by type.
    - CText (what the code uses of the C library on text: tokens, quoting,
      strict integers, lines of a file), CFloat (numbers as text), ZCommands,
      ZSetCommands, FloatCmd (the sorted-set handlers and INCRBYFLOAT).
    - CmdTable (the command table, its categories, key positions and the
      dispatch map of commands.cpp), Handlers (the table's handlers; those that
      need more than the keyspace are a parameter), Dispatch (the gates of
      [do_request] and what a plain command does), Session ([do_request] as a
      whole: the gates, the queue of MULTI, the batch of EXEC, the reports to
      WATCH, and the writes a replica applies).
    - Txn (MULTI, EXEC, DISCARD, WATCH and the registry), PubSub (channels, patterns and
      notifications), Evict (the eviction batch), all of commands.cpp.
    - Acl (users, rules, [acl_check]), Auth (AUTH, HELLO and CLIENT, with the
      worker's verdict), Cred (auth/cred.cpp, auth/sha256.h), Sha256Spec (FIPS
      180-4, written independently of the code), AuditLog (the audit log).
    - Config and ConfigFile (core/state.cpp: the directives, the file's loader
      and its rewrite), Startup (main's command line and environment).
    - Double, Crc32, Rdb, RdbSpec, RdbRound (persistence/rdb.cpp: the bit
      pattern of a double, the checksum, the image writer and reader), SaveFile
      (saving, in the foreground and in the forked child, call by call).
    - Aof (the propagated form of a command, the log and its replay), AofFile
      (flushing, rewriting, checking the file of persistence/aof.cpp).
    - Backlog (the ring of the replication stream and PSYNC), ReplicaLink (the
      replica's state machine), Handover (WAIT and FAILOVER), ReplCron (the
      periodic work and REPLICAOF): core/state.cpp, server.cpp, commands.cpp.
    - Loop (the read and write paths of a connection), DList (ds/list.h), Timers
      (the timer lists, the sweeps, the sleep), Accept (accepting, transport and
      TLS, the connection table), Mailbox ([loop_post] and [loop_drain]),
      ThreadPool (server/thread_pool.cpp).
    - Admin (UNLINK, PING, ECHO, CONFIG, MEMORY, OBJECT and INFO's choice of
      sections), Info (INFO's printers), Client (client/client.cpp).

    ** What the theorems show

    - Containers refine their abstract data: the hashtable a finite map, the
      deque a list, the sorted set a map of scores with its sorted sequence, the
      buffer a byte queue; each for any sequence of operations, through growth,
      migration and rotation.  The heap keeps order and back references.
    - RESP: a request encoded is read back; every strict prefix asks for more;
      the parser stays within its input.
    - The keyspace: [lookup_entry], time to live and the timer pass against the
      client's view [World.view], the finite map of unexpired keys to abstract
      values and deadlines.
    - Handlers: [Strings.leaves] states the effect of a command whole, that is
      the invariant, the view, the reply bytes, and the write counter; each claim on
      a command gives it on every branch, refusals included.
    - SCAN: a full iteration returns every key that stays, whatever other
      commands run between the pages; each page advances the cursor.
    - Sorted sets and numbers: the handlers against the ranking by score and
      name, with the reading and printing of doubles.
    - Transactions: inside MULTI every command passes the gates of the
      dispatcher, whose errors poison it; EXEC dispatches exactly the queued
      commands again, in order, unless an error or a touched watched key aborts
      it; a watching connection is dirty exactly when a client's write, an
      eviction or FLUSHALL reached its keys.  Writes a replica applies from its
      master do not reach WATCH.
    - Dispatch: a command gets past the gates exactly when it may; what is
      propagated for it replays to the same command.  Eviction and publication
      touch and reach exactly what they should, as far as [glob_match] has a
      defined answer; the registries never hold a
      closed connection.
    - Connections: requests are served once and in order however they are
      split; no client is admitted, and no TLS request read, past its gate;
      the loop sleeps past no job's deadline, the log's fsync and rewrite check
      apart.
    - Concurrency: pool and mailbox are step relations over all interleavings,
      with mutual exclusion, order, no lost wake-up and an end.
    - Replication: the backlog refines the last bytes of the stream; a replica
      that continues or resynchronises receives exactly the stream and follows
      it; running PSYNC FAILOVER on a replica in step promotes it and the old
      master continues; WAIT answers when and what it should.
    - The log: a log cut behind its image replays its complete commands and no
      other, one cut inside the image is refused;
      a rewrite loses nothing; absolute deadlines replay to the keys alive.
    - Snapshots: loading the image of a keyspace restores its view; one changed
      byte anywhere in an image is detected; wherever the machine stops during
      a save, what is left loads as a moment of the run; the program does not
      sync the directory, so the updates of its entries are assumed to reach
      the disk in order, with any number of the last ones lost.
    - Security: [acl_check] grants exactly what the rules say, except that a key
      pattern with a star before its end is not enforced; under any
      interleaving a connection is a user only by a password of that user;
      [sha256_hex] is the standard's function; no value in the audit log can
      forge a record.
    - Configuration: a rewritten file reloads to the same settings, when they
      are such as the file can hold.
    - The claims of kind error ([aof_loses_extended_key],
      [rotation_starts_empty], [interrupted_resync_diverges],
      [chained_replica_skips]) and further theorems
      ([glob_match_star_mismatch], [lrem_charge_drift], [acl_line_injection],
      [config_set_breaks_restart], [config_reply_split],
      [revoked_password_accepted], [wait_answered_twice],
      [aof_check_cuts_image], [everysec_fsync_unscheduled],
      [unlimited_clamps_to_one]) state where the code does not do what it
      means to.

    ** Interfaces

    [Heap.RefStore] (with its laws [Heap.RefStoreLaws]) is the class of back
    references the heap writes through; State instantiates it with the [heap_idx] fields of the entries.
    [Rdb] takes zlib as a pair of functions; the round trip assumes of them only
    that decompression inverts compression, and zlib's bound on the ratio, which
    the loader's own limit relies on.  [Loop] takes the rest of the server
    as a type and a dispatch function, which [Handover] instantiates; [Auth] and
    [Cred] take Argon2 and the random source, [Session] the handlers that need
    the connection (modelled in files of their own), [Accept] and [SaveFile] the
    outcomes of OpenSSL and of the system calls, and the order in which a C++
    hash set yields its elements is a function wherever it shows.

    ** Bounds and fuel

    Loops that are not structural carry fuel that a theorem shows sufficient or
    that bounds a quantity of the machine: [grow_cap] doubles at most 64 times (a
    [size_t]), decimal printing has at most 20 digits (64 bits), [glob_fuel]
    exceeds the steps a matcher that stays in its subject can take (the
    completeness theorem is proved with it, and running past the subject is an
    outcome of its own), [expire_loop] has the budget of the timer pass itself,
    [hm_scan]'s page loop the number of its buckets, the AVL recursions follow
    the tree.  [room] (fewer entries than [size_t] can index) and
    [writes_ok] (the counter is a 32-bit word) are invariants of any machine.

    EXEC dispatches its batch with one level of [Session.request] left: nothing
    that is queued is a transaction command, and [transaction_correct] holds for
    any larger number of levels.

    [reply_fuel] of the client exceeds the depth of any reply in its input, and
    the step bounds of [ThreadPool] and [Mailbox] are proved.

    ** Not modelled

    The listening sockets and the call of poll itself, the opening of files and
    sockets, and the C library's clocks: their results are arguments.  OpenSSL,
    Argon2, zlib, [fork] and the random source are third-party or system code
    and appear by their outcomes.  Freeing memory is invisible to the model:
    [entry_del]'s deferred free of large entries on the pool is immediate, and
    the wiping of secrets is left out.  The debug self-checks
    ([mem_selfcheck], [config_selfcheck]), diagnostics on stderr and the
    resident size INFO reads from /proc are not modelled.  SPOP is modelled without the SREM it
    propagates, and keyspace notifications are collected in [State.events]
    without the connection's mask.  The loader reads the wall clock twice for an
    entry (rdb.cpp 468 and 494); [rdb_link] has one reading for both.  Subtree
    counts of the tree are [nat] where the code has 32 bits, the same below 2^32
    nodes. *)
From stdpp Require Export prelude list gmap strings.
From Stdlib Require Export ZArith Lia Permutation.
From Stdlib Require Export Ascii.

#[global] Set Default Goal Selector "!".
#[global] Open Scope Z_scope.

Declare Scope myred_scope.
Delimit Scope myred_scope with myred.

(** ** Bytes *)

(** A C++ [char]/[uint8_t] is an [ascii]; its value as [unsigned char] is
    [code], as a (signed, x86) [char] it is [scode]. *)
Abbreviation byte := ascii (only parsing).
Abbreviation bytes := (list ascii).

Definition code (c : ascii) : Z := Z.of_N (N_of_ascii c).
Definition chr (z : Z) : ascii := ascii_of_N (Z.to_N z).
Definition scode (c : ascii) : Z := if code c <? 128 then code c else code c - 256.

(** String literals as byte lists, and the bytes the protocol code names. *)
Definition bs (s : string) : bytes := String.list_ascii_of_string s.
Definition c_cr : ascii := chr 13.
Definition c_lf : ascii := chr 10.
Definition crlf : bytes := [c_cr; c_lf].
Definition c_zero : ascii := chr 0.

(** ** Machine words: the values of C++ fixed-width integer expressions *)

Definition u8 (z : Z) : Z := z mod 2 ^ 8.
Definition u16 (z : Z) : Z := z mod 2 ^ 16.
Definition u32 (z : Z) : Z := z mod 2 ^ 32.
Definition u64 (z : Z) : Z := z mod 2 ^ 64.
Definition i32 (z : Z) : Z := (z + 2 ^ 31) mod 2 ^ 32 - 2 ^ 31.
Definition i64 (z : Z) : Z := (z + 2 ^ 63) mod 2 ^ 64 - 2 ^ 63.

Definition INT64_MAX : Z := 2 ^ 63 - 1.
Definition INT64_MIN : Z := - 2 ^ 63.
Definition UINT64_MAX : Z := 2 ^ 64 - 1.

(** ** A state monad, for code that threads the server's globals *)

Definition state (W A : Type) : Type := W -> A * W.

#[global] Instance state_ret W : MRet (state W) := fun A x w => (x, w).
#[global] Instance state_bind W : MBind (state W) :=
  fun A B f m w => let '(x, w') := m w in f x w'.

Definition gets {W A} (f : W -> A) : state W A := fun w => (f w, w).
Definition modify {W} (f : W -> W) : state W unit := fun w => (tt, f w).

(** [for (x : l) body(x)] *)
Fixpoint for_each {W A} (l : list A) (body : A -> state W unit) : state W unit :=
  match l with
  | [] => mret ()
  | x :: l' => body x ;; for_each l' body
  end.

(** Answers of a sequence of operations, and the final state. *)
Fixpoint run_ops {S O R} (step : S -> O -> R * S) (s : S) (ops : list O) : list R * S :=
  match ops with
  | [] => ([], s)
  | o :: ops => let '(r, s) := step s o in let '(rs, s) := run_ops step s ops in (r :: rs, s)
  end.

(** ** Byte-array writes *)

(** [memcpy(mem + off, data, len)]: overwrite in place. *)
Definition write_at {A} (off : nat) (data mem : list A) : list A :=
  take off mem ++ data ++ drop (off + length data) mem.

(** [mem\[off .. off+len)] *)
Definition slice {A} (off len : nat) (mem : list A) : list A := take len (drop off mem).

(** ** Decimal printing, as [%zu] and [std::to_string] print *)

Fixpoint dec_digits (fuel : nat) (n : Z) (acc : bytes) : bytes :=
  match fuel with
  | O => acc
  | S f =>
      let acc' := chr (48 + n mod 10) :: acc in
      if n <? 10 then acc' else dec_digits f (n / 10) acc'
  end.

(** [%zu] / [%llu]: an unsigned 64-bit value has at most 20 digits. *)
Definition print_u64 (n : Z) : bytes := dec_digits 20 n [].

(** [%lld] / [std::to_string(int64_t)] *)
Definition print_i64 (n : Z) : bytes :=
  if n <? 0 then chr 45 :: print_u64 (- n) else print_u64 n.

(** The value of a digit string, most significant digit first. *)
Definition digits_val (a : Z) (l : bytes) : Z :=
  foldl (fun v c => v * 10 + (code c - 48)) a l.

Definition is_digit (c : ascii) : bool := (48 <=? code c) && (code c <=? 57).

(** [tolower] of the "C" locale *)
Definition tolower (c : ascii) : ascii :=
  if (65 <=? code c) && (code c <=? 90) then chr (code c + 32) else c.

(** [isspace] of the "C" locale *)
Definition isspace (c : ascii) : bool :=
  (code c =? 32) || ((9 <=? code c) && (code c <=? 13)).

(** ** Automation *)

Create HintDb myred.

(** Split boolean comparisons in hypotheses and goal into arithmetic facts. *)
Ltac bool_facts :=
  repeat match goal with
  | H : andb _ _ = true |- _ => apply andb_prop in H as [? ?]
  | H : orb _ _ = false |- _ => apply orb_false_elim in H as [? ?]
  | H : negb _ = true |- _ => apply negb_true_iff in H
  | H : negb _ = false |- _ => apply negb_false_iff in H
  | H : (_ <? _)%Z = true |- _ => apply Z.ltb_lt in H
  | H : (_ <? _)%Z = false |- _ => apply Z.ltb_ge in H
  | H : (_ <=? _)%Z = true |- _ => apply Z.leb_le in H
  | H : (_ <=? _)%Z = false |- _ => apply Z.leb_gt in H
  | H : (_ =? _)%Z = true |- _ => apply Z.eqb_eq in H
  | H : (_ =? _)%Z = false |- _ => apply Z.eqb_neq in H
  | H : (_ <? _)%nat = true |- _ => apply Nat.ltb_lt in H
  | H : (_ <? _)%nat = false |- _ => apply Nat.ltb_ge in H
  | H : (_ <=? _)%nat = true |- _ => apply Nat.leb_le in H
  | H : (_ <=? _)%nat = false |- _ => apply Nat.leb_gt in H
  | H : (_ =? _)%nat = true |- _ => apply Nat.eqb_eq in H
  | H : (_ =? _)%nat = false |- _ => apply Nat.eqb_neq in H
  | H : bool_decide _ = true |- _ => apply bool_decide_eq_true in H
  | H : bool_decide _ = false |- _ => apply bool_decide_eq_false in H
  end.

(** Case on the first [if]/[match] scrutinee of the goal, keeping the equation. *)
Ltac case_match_eqn :=
  match goal with
  | |- context [if ?b then _ else _] => destruct b eqn:?
  | |- context [match ?x with _ => _ end] => destruct x eqn:?
  end.

Ltac blia := bool_facts; lia.

(** ** Lemmas on bytes and words *)

Lemma code_range c : 0 <= code c < 256.
Proof.
  unfold code. pose proof (N_ascii_bounded c). lia.
Qed.

Lemma code_chr z : 0 <= z < 256 -> code (chr z) = z.
Proof.
  intros H. unfold code, chr. rewrite N_ascii_embedding by lia. lia.
Qed.

Lemma chr_code c : chr (code c) = c.
Proof. unfold chr, code. rewrite N2Z.id. apply ascii_N_embedding. Qed.

Lemma code_inj c d : code c = code d -> c = d.
Proof. intros H. rewrite <- (chr_code c), <- (chr_code d). by rewrite H. Qed.

Lemma u64_range z : 0 <= u64 z < 2 ^ 64.
Proof. apply Z.mod_pos_bound. lia. Qed.

Lemma u64_small z : 0 <= z < 2 ^ 64 -> u64 z = z.
Proof. apply Z.mod_small. Qed.

Lemma u32_range z : 0 <= u32 z < 2 ^ 32.
Proof. apply Z.mod_pos_bound. lia. Qed.

Lemma u32_small z : 0 <= z < 2 ^ 32 -> u32 z = z.
Proof. apply Z.mod_small. Qed.

Lemma i32_small z : - 2 ^ 31 <= z < 2 ^ 31 -> i32 z = z.
Proof. intros H. unfold i32. rewrite Z.mod_small by lia. lia. Qed.

Lemma i64_small z : INT64_MIN <= z <= INT64_MAX -> i64 z = z.
Proof.
  unfold INT64_MIN, INT64_MAX. intros H. unfold i64.
  rewrite Z.mod_small by lia. lia.
Qed.

Lemma i64_range z : INT64_MIN <= i64 z <= INT64_MAX.
Proof.
  unfold INT64_MIN, INT64_MAX, i64.
  pose proof (Z.mod_pos_bound (z + 2 ^ 63) (2 ^ 64) ltac:(lia)). lia.
Qed.

#[export] Hint Resolve code_range u64_range u32_range i64_range : myred.

(** ** Lemmas on slices and overwrites *)

Section Slices.
Context {A : Type}.
Implicit Types l mem data : list A.

Lemma length_write_at off data mem :
  (off + length data <= length mem)%nat -> length (write_at off data mem) = length mem.
Proof.
  intros H. unfold write_at. rewrite !length_app, length_take, length_drop. lia.
Qed.

Lemma length_slice off len l :
  (off + len <= length l)%nat -> length (slice off len l) = len.
Proof. intros H. unfold slice. rewrite length_take, length_drop. lia. Qed.

(** Reading back what was just written. *)
Lemma slice_write_at_eq off data mem :
  (off + length data <= length mem)%nat ->
  slice off (length data) (write_at off data mem) = data.
Proof.
  intros H. unfold slice, write_at.
  rewrite drop_app_length' by (rewrite length_take; lia).
  by rewrite take_app_length.
Qed.

(** A write strictly after a region does not change it. *)
Lemma slice_write_at_before off len off' data mem :
  (off + len <= off')%nat -> (off' <= length mem)%nat ->
  slice off len (write_at off' data mem) = slice off len mem.
Proof.
  intros H Hm. unfold slice, write_at.
  rewrite drop_app_le by (rewrite length_take; lia).
  rewrite take_app_le by (rewrite length_drop, length_take; lia).
  rewrite !take_drop_commute, take_take. do 2 f_equal. lia.
Qed.

Lemma slice_app off n m l :
  slice off (n + m) l = slice off n l ++ slice (off + n) m l.
Proof.
  unfold slice. rewrite <- (take_drop n (take (n + m) (drop off l))).
  rewrite take_take. replace (n `min` (n + m))%nat with n by lia.
  f_equal. by rewrite <- take_drop_commute, drop_drop.
Qed.

Lemma slice_full l : slice 0 (length l) l = l.
Proof. unfold slice. rewrite drop_0. by rewrite firstn_all. Qed.

Lemma slice_lookup off len l i :
  (i < len)%nat -> slice off len l !! i = l !! (off + i)%nat.
Proof. intros H. unfold slice. rewrite lookup_take_lt by done. by rewrite lookup_drop. Qed.

Lemma slice_app_l off len l l' :
  (off + len <= length l)%nat -> slice off len (l ++ l') = slice off len l.
Proof.
  intros H. unfold slice. rewrite drop_app_le by lia.
  by rewrite take_app_le by (rewrite length_drop; lia).
Qed.

Lemma slice_skip pre len l : slice (length pre) len (pre ++ l) = take len l.
Proof. unfold slice. by rewrite drop_app_length. Qed.

Lemma write_at_lookup off data mem i :
  (off + length data <= length mem)%nat ->
  write_at off data mem !! i =
    if decide (off <= i < off + length data)%nat then data !! (i - off)%nat else mem !! i.
Proof.
  intros H. unfold write_at. rewrite !lookup_app, lookup_take, length_take.
  repeat case_decide; try lia; try done.
  - replace (off `min` length mem)%nat with off by lia.
    destruct (mem !! i) eqn:E; [done|]. apply lookup_ge_None in E. lia.
  - replace (off `min` length mem)%nat with off by lia.
    destruct (data !! (i - off)%nat) eqn:E; [done|].
    apply lookup_ge_None in E. lia.
  - replace (off `min` length mem)%nat with off by lia.
    rewrite (lookup_ge_None_2 data) by lia. rewrite lookup_drop. f_equal. lia.
Qed.
End Slices.

(** ** Lemmas on decimal printing *)

Lemma digits_val_app a l1 l2 : digits_val a (l1 ++ l2) = digits_val (digits_val a l1) l2.
Proof. unfold digits_val. apply foldl_app. Qed.

Lemma is_digit_chr d : 0 <= d < 10 -> is_digit (chr (48 + d)) = true.
Proof. intros H. unfold is_digit. rewrite code_chr by lia. lia. Qed.

Lemma dec_digits_app fuel n acc : dec_digits fuel n acc = dec_digits fuel n [] ++ acc.
Proof.
  revert n acc. induction fuel as [|f IH]; intros n acc; [done|]. cbn [dec_digits].
  case_match; [done|]. rewrite IH. rewrite (IH _ [chr _]). by rewrite <- app_assoc.
Qed.

Lemma dec_digits_spec fuel n :
  0 <= n < 10 ^ Z.of_nat fuel ->
  digits_val 0 (dec_digits fuel n []) = n /\ Forall (fun c => is_digit c) (dec_digits fuel n []).
Proof.
  revert n. induction fuel as [|f IH]; intros n Hn.
  { change (10 ^ Z.of_nat 0) with 1 in Hn. cbn. split; [lia|constructor]. }
  cbn [dec_digits]. pose proof (Z.mod_pos_bound n 10 ltac:(lia)).
  destruct (n <? 10) eqn:E; bool_facts.
  - rewrite Z.mod_small by lia. split; [cbn; rewrite code_chr by lia; lia|].
    constructor; [|constructor]. by rewrite is_digit_chr by lia.
  - rewrite dec_digits_app. destruct (IH (n / 10)) as [Hv Hd].
    { rewrite Nat2Z.inj_succ, Z.pow_succ_r in Hn by lia.
      split; [apply Z.div_pos; lia|]. apply Z.div_lt_upper_bound; lia. }
    rewrite digits_val_app, Hv. split.
    + cbn. rewrite code_chr by lia. pose proof (Z.div_mod n 10). lia.
    + apply Forall_app. split; [done|]. constructor; [|constructor].
      by rewrite is_digit_chr by lia.
Qed.

Lemma print_u64_val n : 0 <= n < 2 ^ 64 -> digits_val 0 (print_u64 n) = n.
Proof. intros H. apply dec_digits_spec. lia. Qed.

Lemma print_u64_digits n : 0 <= n < 2 ^ 64 -> Forall (fun c => is_digit c) (print_u64 n).
Proof. intros H. apply dec_digits_spec. lia. Qed.

Lemma dec_digits_nonempty f n acc : dec_digits (S f) n acc <> [].
Proof.
  cbn [dec_digits]. case_match; [done|].
  rewrite dec_digits_app. intros Hn. by apply app_eq_nil in Hn as [_ ?].
Qed.

Lemma print_u64_nonempty n : print_u64 n <> [].
Proof. apply dec_digits_nonempty. Qed.

(** The first digit of a number of two or more digits is not ['0']. *)
Lemma dec_digits_head fuel n :
  0 < n < 10 ^ Z.of_nat fuel ->
  exists d l, dec_digits fuel n [] = d :: l /\ 49 <= code d <= 57.
Proof.
  revert n. induction fuel as [|f IH]; intros n Hn.
  { change (10 ^ Z.of_nat 0) with 1 in Hn. lia. }
  cbn [dec_digits]. destruct (n <? 10) eqn:E; bool_facts.
  - exists (chr (48 + n)), []. rewrite Z.mod_small by lia. rewrite code_chr by lia. split; [done|lia].
  - rewrite Nat2Z.inj_succ, Z.pow_succ_r in Hn by lia.
    destruct (IH (n / 10)) as (d & l & Hl & Hd).
    { split; [apply Z.div_str_pos; lia|]. apply Z.div_lt_upper_bound; lia. }
    rewrite dec_digits_app, Hl. by exists d, (l ++ [chr (48 + n mod 10)]).
Qed.

(** ** Filters that keep everything or nothing *)

Lemma list_filter_all {A} (P : A -> Prop) `{forall x, Decision (P x)} (l : list A) :
  Forall P l -> filter P l = l.
Proof. induction 1 as [|x l Hx _ IH]; [done|]. by rewrite filter_cons, decide_True, IH. Qed.

Lemma list_filter_none {A} (P : A -> Prop) `{forall x, Decision (P x)} (l : list A) :
  Forall (fun x => ~ P x) l -> filter P l = [].
Proof. induction 1 as [|x l Hx _ IH]; [done|]. by rewrite filter_cons, decide_False, IH. Qed.

(** ** Sums over finite maps *)

Section MapSum.
Context {A : Type} (f : A -> Z).

Definition msum (m : gmap (list ascii) A) : Z := foldr (fun a n => f a + n) 0 (map_to_list m).*2.

Lemma sum_perm (l k : list A) :
  l ≡ₚ k -> foldr (fun a n => f a + n) 0 l = foldr (fun a n => f a + n) 0 k.
Proof. induction 1; cbn; lia. Qed.

Lemma msum_empty : msum ∅ = 0.
Proof. unfold msum. by rewrite map_to_list_empty. Qed.

Lemma msum_insert m k a : m !! k = None -> msum (<[k := a]> m) = f a + msum m.
Proof.
  intros H. unfold msum. rewrite (sum_perm _ (a :: (map_to_list m).*2)); [done|].
  by rewrite map_to_list_insert.
Qed.

Lemma msum_delete m k a : m !! k = Some a -> msum m = f a + msum (delete k m).
Proof.
  intros H. rewrite <- (insert_delete_id m k a H) at 1. apply msum_insert. apply lookup_delete_eq.
Qed.

Lemma msum_update m k a b : m !! k = Some a -> msum (<[k := b]> m) = f b - f a + msum m.
Proof.
  intros H. rewrite <- insert_delete_eq, msum_insert by apply lookup_delete_eq.
  rewrite (msum_delete m k a H). lia.
Qed.
End MapSum.

(** Counting the members of a list that lie in a finite set, one by one. *)
Lemma size_inter_cons (D : gset bytes) (k : bytes) (l : list bytes) :
  k ∈ D -> base.size (D ∩ list_to_set (k :: l)) = S (base.size (D ∖ {[k]} ∩ list_to_set l)).
Proof.
  intros Hk.
  assert (D ∩ list_to_set (k :: l) = ({[k]} : gset bytes) ∪ D ∖ {[k]} ∩ list_to_set l) as ->.
  { apply set_eq. intros j. cbn [list_to_set]. destruct (decide (j = k)) as [->|]; set_solver. }
  rewrite size_union by set_solver. by rewrite size_singleton.
Qed.

Lemma inter_cons_absent (D : gset bytes) (k : bytes) (l : list bytes) :
  k ∉ D -> D ∩ list_to_set (k :: l) = D ∩ list_to_set l.
Proof. intros Hk. apply set_eq. intros j. cbn [list_to_set]. destruct (decide (j = k)) as [->|]; set_solver. Qed.
