(* ===== verification/Buffer.v ===== *)
(** * The byte buffer of the protocol layer (src/src/protocol/buffer.{h,cpp})

    A [Buffer] is one allocated block [mem] (from [buffer_begin] to
    [buffer_end]) with a window [\[data_begin, data_end)] of live bytes.
    Pointers are offsets from [buffer_begin].  [content] is the live window;
    the theorems say that every operation acts on [content] as on a queue of
    bytes, whatever sliding or reallocation happened underneath. *)
From S2P Require Import Prelude.

Record Buffer := mkBuffer {
  mem : bytes;          (* buffer_begin .. buffer_end *)
  data_begin : nat;
  data_end : nat;
}.

Definition buf_create (capacity : nat) : Buffer :=
  {| mem := replicate capacity c_zero; data_begin := 0; data_end := 0 |}.

Definition buf_size (buf : Buffer) : nat := data_end buf - data_begin buf.

(** The bytes [buf_data(buf) .. buf_data(buf) + buf_size(buf))]. *)
Definition content (buf : Buffer) : bytes := slice (data_begin buf) (buf_size buf) (mem buf).

(** [while (new_cap < data_size + len) new_cap *= 2;] *)
Fixpoint grow_cap (fuel : nat) (new_cap need : nat) : nat :=
  match fuel with
  | O => new_cap
  | S f => if (new_cap <? need)%nat then grow_cap f (new_cap * 2) need else new_cap
  end.

(** [memmove] of the live bytes to the start of the block ("Option A"). *)
Definition slide (buf : Buffer) : Buffer :=
  let data_size := buf_size buf in
  {| mem := write_at 0 (slice (data_begin buf) data_size (mem buf)) (mem buf);
     data_begin := 0; data_end := data_size |}.

(** Reallocation ("Option B"); [new uint8_t\[new_cap\]] is uninitialised, its
    bytes are modelled as zero and are never part of [content]. *)
Definition realloc (len : nat) (buf : Buffer) : Buffer :=
  let data_size := buf_size buf in
  let old_cap := length (mem buf) in
  let new_cap := grow_cap (data_size + len)
                   (if (old_cap =? 0)%nat then 64%nat else (old_cap * 2)%nat) (data_size + len) in
  {| mem := write_at 0 (slice (data_begin buf) data_size (mem buf)) (replicate new_cap c_zero);
     data_begin := 0; data_end := data_size |}.

Definition buf_append (buf : Buffer) (data : bytes) : Buffer :=
  let len := length data in
  let space_at_back b := (length (mem b) - data_end b)%nat in
  let buf1 :=
    if (space_at_back buf <? len)%nat then
      let slid := slide buf in
      if (space_at_back slid <? len)%nat then realloc len slid else slid
    else buf in
  {| mem := write_at (data_end buf1) data (mem buf1);
     data_begin := data_begin buf1; data_end := data_end buf1 + len |}.

(** Little-endian integers, as [memcpy] of a [uint32_t]/[uint64_t] lays them out. *)
Fixpoint le_bytes (n : nat) (v : Z) : bytes :=
  match n with
  | O => []
  | S n' => chr (v mod 256) :: le_bytes n' (v / 256)
  end.

Definition buf_append_u64 (buf : Buffer) (val : Z) : Buffer := buf_append buf (le_bytes 8 val).

(** [len] is a [uint32_t]: callers pass the truncated size. *)
Definition buf_append_str (buf : Buffer) (str : bytes) (len : Z) : Buffer :=
  buf_append (buf_append buf (le_bytes 4 len)) (take (Z.to_nat len) str).

Definition buf_consume (buf : Buffer) (n : nat) : Buffer :=
  let db := (data_begin buf + n)%nat in
  let moved := {| mem := mem buf; data_begin := db; data_end := data_end buf |} in
  if (db =? data_end buf)%nat then
    {| mem := mem buf; data_begin := 0; data_end := 0 |}
  else if (length (mem buf) / 2 <=? db)%nat then slide moved
  else moved.

Definition buf_destroy (buf : Buffer) : Buffer :=
  {| mem := []; data_begin := 0; data_end := 0 |}.

(** ** Invariant *)

Definition wf (buf : Buffer) : Prop :=
  (data_begin buf <= data_end buf)%nat /\ (data_end buf <= length (mem buf))%nat.

Lemma length_content buf : wf buf -> length (content buf) = buf_size buf.
Proof. intros [? ?]. unfold content, buf_size. apply length_slice. lia. Qed.

(** The doubling loop ends with enough room: its fuel suffices because the
    capacity is positive and at least doubles. *)
Lemma grow_cap_enough fuel c need :
  (0 < c)%nat -> (need <= c + fuel)%nat -> (need <= grow_cap fuel c need)%nat.
Proof.
  revert c. induction fuel as [|f IH]; intros c Hc Hn; cbn [grow_cap]; [lia|].
  case_match; bool_facts; [|lia]. apply IH; lia.
Qed.

Lemma slide_spec buf : wf buf -> wf (slide buf) /\ content (slide buf) = content buf.
Proof.
  intros [H1 H2].
  assert (Hl : length (slice (data_begin buf) (buf_size buf) (mem buf)) = buf_size buf)
    by (apply length_slice; unfold buf_size; lia).
  assert (Hw : (0 + length (slice (data_begin buf) (buf_size buf) (mem buf)) <= length (mem buf))%nat)
    by (rewrite Hl; unfold buf_size; lia).
  split.
  - split; cbn; [lia|]. rewrite length_write_at by done. unfold buf_size. lia.
  - unfold content at 1. unfold buf_size at 1. cbn.
    rewrite Nat.sub_0_r, <- Hl at 1. by apply slice_write_at_eq.
Qed.

Lemma realloc_spec len buf :
  wf buf ->
  wf (realloc len buf) /\ content (realloc len buf) = content buf /\
  (data_end (realloc len buf) + len <= length (mem (realloc len buf)))%nat.
Proof.
  intros [H1 H2].
  set (cap := grow_cap (buf_size buf + len)
    (if (length (mem buf) =? 0)%nat then 64%nat else (length (mem buf) * 2)%nat) (buf_size buf + len)).
  assert (Hcap : (buf_size buf + len <= cap)%nat).
  { apply grow_cap_enough; case_match; bool_facts; lia. }
  assert (Hl : length (slice (data_begin buf) (buf_size buf) (mem buf)) = buf_size buf)
    by (apply length_slice; unfold buf_size; lia).
  assert (Hw : (0 + length (slice (data_begin buf) (buf_size buf) (mem buf))
    <= length (replicate cap c_zero))%nat) by (rewrite Hl, length_replicate; lia).
  assert (Hm : length (mem (realloc len buf)) = cap).
  { cbn [mem realloc]. fold cap. rewrite length_write_at by done. by rewrite length_replicate. }
  split; [|split].
  - split; [cbn; lia|]. rewrite Hm. cbn. lia.
  - unfold content at 1. unfold buf_size at 1. cbn. fold cap.
    rewrite Nat.sub_0_r, <- Hl at 1. by apply slice_write_at_eq.
  - rewrite Hm. cbn. lia.
Qed.

(** Appending within the block. *)
Lemma append_in_place buf data :
  wf buf -> (data_end buf + length data <= length (mem buf))%nat ->
  let buf' := {| mem := write_at (data_end buf) data (mem buf);
                 data_begin := data_begin buf; data_end := data_end buf + length data |} in
  wf buf' /\ content buf' = content buf ++ data.
Proof.
  intros [H1 H2] Hroom. split.
  - split; cbn; [lia|]. by rewrite length_write_at.
  - unfold content, buf_size; cbn [mem data_begin data_end].
    replace (data_end buf + length data - data_begin buf)%nat
      with ((data_end buf - data_begin buf) + length data)%nat by lia.
    rewrite slice_app, slice_write_at_before by lia. f_equal.
    replace (data_begin buf + (data_end buf - data_begin buf))%nat with (data_end buf) by lia.
    by apply slice_write_at_eq.
Qed.

Lemma buf_append_spec buf data :
  wf buf -> wf (buf_append buf data) /\ content (buf_append buf data) = content buf ++ data.
Proof.
  intros Hwf. unfold buf_append.
  destruct (length (mem buf) - data_end buf <? length data)%nat eqn:E1; bool_facts.
  - destruct (slide_spec buf Hwf) as [Hs Hc].
    destruct (length (mem (slide buf)) - data_end (slide buf) <? length data)%nat eqn:E2; bool_facts.
    + destruct (realloc_spec (length data) _ Hs) as (Hr & Hrc & Hroom).
      rewrite <- Hc, <- Hrc. by apply append_in_place.
    + rewrite <- Hc. apply append_in_place; [done|]. destruct Hs. lia.
  - apply append_in_place; [done|]. destruct Hwf. lia.
Qed.

Lemma buf_consume_spec buf n :
  wf buf -> (n <= buf_size buf)%nat ->
  wf (buf_consume buf n) /\ content (buf_consume buf n) = drop n (content buf).
Proof.
  intros [H1 H2] Hn. unfold buf_size in Hn.
  set (moved := {| mem := mem buf; data_begin := data_begin buf + n; data_end := data_end buf |}).
  assert (Hm : wf moved) by (split; cbn; lia).
  assert (Hc : content moved = drop n (content buf)).
  { unfold content, slice, buf_size; cbn.
    rewrite (skipn_firstn_comm n), drop_drop. f_equal. lia. }
  unfold buf_consume. case_match; bool_facts.
  - split; [split; cbn; lia|]. rewrite <- Hc. unfold content, slice, buf_size; cbn.
    replace (data_end buf - (data_begin buf + n))%nat with 0%nat by lia. done.
  - case_match; [|done]. rewrite <- Hc. by apply slide_spec.
Qed.

Lemma buf_create_wf cap : wf (buf_create cap) /\ content (buf_create cap) = [].
Proof. split; [split; cbn; lia|done]. Qed.

#[export] Hint Resolve buf_create_wf : myred.

(** ** Little-endian encoding *)

(** The value read back by [memcpy] into an unsigned integer. *)
Fixpoint le_val (l : bytes) : Z :=
  match l with
  | [] => 0
  | c :: l' => code c + 256 * le_val l'
  end.

Lemma le_bytes_length n v : length (le_bytes n v) = n.
Proof. revert v. induction n; intros v; cbn; auto. Qed.

Lemma le_val_bytes n v : le_val (le_bytes n v) = v mod 256 ^ Z.of_nat n.
Proof.
  revert v. induction n as [|n IH]; intros v.
  { cbn. by rewrite Z.mod_1_r. }
  cbn [le_bytes le_val]. rewrite IH, code_chr by (apply Z.mod_pos_bound; lia).
  rewrite Nat2Z.inj_succ, Z.pow_succ_r by lia.
  rewrite Z.rem_mul_r by lia. lia.
Qed.

Lemma le_val_range l : 0 <= le_val l < 256 ^ Z.of_nat (length l).
Proof.
  induction l as [|c l IH]; cbn [le_val length]; [cbn; lia|].
  rewrite Nat2Z.inj_succ, Z.pow_succ_r by lia. pose proof (code_range c). lia.
Qed.

(** ** The buffer as a byte queue *)

Inductive BufOp := BAppend (data : bytes) | BConsume (n : nat).

Definition buf_step (buf : Buffer) (o : BufOp) : Buffer :=
  match o with BAppend d => buf_append buf d | BConsume n => buf_consume buf n end.

(** The abstract queue; consuming more than there is has no meaning. *)
Fixpoint queue_run (q : bytes) (ops : list BufOp) : option bytes :=
  match ops with
  | [] => Some q
  | BAppend d :: ops => queue_run (q ++ d) ops
  | BConsume n :: ops => if (n <=? length q)%nat then queue_run (drop n q) ops else None
  end.

Lemma buf_run_queue ops buf q :
  wf buf -> queue_run (content buf) ops = Some q ->
  wf (foldl buf_step buf ops) /\ content (foldl buf_step buf ops) = q.
Proof.
  revert buf. induction ops as [|[d|n] ops IH]; intros buf Hwf H; cbn [queue_run foldl buf_step] in *.
  - by injection H as <-.
  - destruct (buf_append_spec buf d Hwf) as [Hw Hc]. apply IH; [done|]. by rewrite Hc.
  - case_match; [|done]. bool_facts. rewrite length_content in * by done.
    destruct (buf_consume_spec buf n Hwf) as [Hw Hc]; [done|]. apply IH; [done|]. by rewrite Hc.
Qed.

(** The growable buffer is a byte queue.  From a fresh buffer of any
    capacity, every sequence of buf_append and buf_consume that never consumes
    more than is stored leaves exactly the bytes the abstract queue holds,
    whatever slides and reallocations happened on the way, and the offsets
    stay inside the allocation. *)
Theorem buffer_is_queue (cap : nat) (ops : list BufOp) (q : bytes) (Hq : queue_run [] ops = Some q) :
  let buf := foldl buf_step (buf_create cap) ops in
  wf buf /\ content buf = q /\ buf_size buf = length q.
Proof.
  destruct (buf_create_wf cap) as [Hw Hc].
  destruct (buf_run_queue ops (buf_create cap) q Hw) as [H1 H2]; [by rewrite Hc|].
  cbn zeta. split_and!; [done|done|]. by rewrite <- H2, length_content.
Qed.

Lemma buffer_is_queue_witness :
  let buf := foldl buf_step (buf_create 4) [BAppend (bs "hello"); BConsume 3; BAppend (bs " world")] in
  wf buf /\ content buf = bs "lo world" /\ buf_size buf = length (bs "lo world").
Proof. apply (buffer_is_queue 4 _ (bs "lo world")). reflexivity. Defined.
