(* ===== verification/Resp.v ===== *)
(** * RESP: request parser and reply encoders (src/src/protocol/resp.{h,cpp},
      [aof_emit_vec] of src/src/persistence/aof.cpp)

    [parse_resp_request] works on the live bytes of the connection's buffer and
    answers [(consumed, cmd)]: [consumed] is 0 when more bytes are needed, -1 on
    a protocol error, and otherwise the number of bytes of the frame.  [cmd]
    is the vector as the loop left it, partial on the first two results, as in
    the source. *)
From S2P Require Import Prelude Buffer.

Definition k_max_msg : Z := 32 * 2 ^ 20.
Definition k_max_inline : Z := 64 * 1024.
Definition k_max_args : Z := 65536.

Definition c_star : ascii := chr 42.
Definition c_dollar : ascii := chr 36.
Definition is_cr (c : ascii) : bool := bool_decide (c = c_cr).
Definition is_lf (c : ascii) : bool := bool_decide (c = c_lf).
Definition is_blank (c : ascii) : bool := (code c =? 32) || (code c =? 9).

(** [while (i < size && !stop(data\[i\])) i++], from the start of [l]. *)
Fixpoint scan (stop : ascii -> bool) (l : bytes) : nat :=
  match l with
  | [] => O
  | c :: l' => if stop c then O else S (scan stop l')
  end.

(** The digit loop shared by the argument count and the bulk length, with its
    check before and after the multiplication. *)
Fixpoint read_num (max n : Z) (l : bytes) : option Z :=
  match l with
  | [] => Some n
  | c :: l' =>
      if negb (is_digit c) then None
      else if max / 10 <? n then None
      else let n' := n * 10 + (code c - 48) in
           if max <? n' then None else read_num max n' l'
  end.

(** Splitting an inline command on blanks. *)
Fixpoint split_blank (fuel : nat) (l : bytes) : list bytes :=
  match fuel with
  | O => []
  | S f =>
      let l1 := drop (scan (fun c => negb (is_blank c)) l) l in
      match l1 with
      | [] => []
      | _ => let n := scan is_blank l1 in take n l1 :: split_blank f (drop n l1)
      end
  end.

Definition parse_inline (data : bytes) : Z * list bytes :=
  let size := length data in
  let eol := scan is_lf data in
  if k_max_inline <? Z.of_nat eol then (-1, [])
  else if (eol =? size)%nat then (0, [])
  else
    let line_end :=
      if (0 <? eol)%nat && bool_decide (data !! (eol - 1)%nat = Some c_cr)
      then (eol - 1)%nat else eol in
    (i32 (Z.of_nat eol + 1), split_blank (S line_end) (take line_end data)).

(** The bulk-string loop: [n] strings left, the cursor at [pos]. *)
Fixpoint read_bulks (n : nat) (data : bytes) (pos : nat) (cmd : list bytes) : Z * list bytes :=
  match n with
  | O => (i32 (Z.of_nat pos), cmd)
  | S n' =>
      match data !! pos with
      | None => (0, cmd)
      | Some c =>
          if negb (bool_decide (c = c_dollar)) then (-1, cmd)
          else
            let len_start := S pos in
            let p := (len_start + scan is_cr (drop len_start data))%nat in
            if (length data <=? p + 1)%nat then (0, cmd)
            else if negb (bool_decide (data !! (p + 1)%nat = Some c_lf)) then (-1, cmd)
            else
              match read_num k_max_msg 0 (slice len_start (p - len_start) data) with
              | None => (-1, cmd)
              | Some str_len =>
                  let q := (p + 2)%nat in
                  if Z.of_nat (length data) <? Z.of_nat q + str_len + 2 then (0, cmd)
                  else
                    let cmd' := cmd ++ [slice q (Z.to_nat str_len) data] in
                    let r := (q + Z.to_nat str_len)%nat in
                    if negb (bool_decide (data !! r = Some c_cr)) ||
                       negb (bool_decide (data !! (r + 1)%nat = Some c_lf))
                    then (-1, cmd')
                    else read_bulks n' data (r + 2) cmd'
              end
      end
  end.

Definition parse_resp_request (data : bytes) : Z * list bytes :=
  match data with
  | [] => (0, [])
  | c :: _ =>
      if negb (bool_decide (c = c_star)) then parse_inline data
      else
        let p := (1 + scan is_cr (drop 1 data))%nat in
        if (length data <=? p + 1)%nat then (0, [])
        else if negb (bool_decide (data !! (p + 1)%nat = Some c_lf)) then (-1, [])
        else
          match read_num k_max_args 0 (slice 1 (p - 1) data) with
          | None => (-1, [])
          | Some n_args =>
              if n_args <? 1 then (-1, [])
              else read_bulks (Z.to_nat n_args) data (p + 2) []
          end
  end.

(** ** Reply encoders; [proto] is [g_reply_proto] *)

Definition resp_nil (proto : Z) (out : Buffer) : Buffer :=
  if 3 <=? proto then buf_append out (bs "_" ++ crlf) else buf_append out (bs "$-1" ++ crlf).

Definition resp_nil_arr (proto : Z) (out : Buffer) : Buffer :=
  if 3 <=? proto then buf_append out (bs "_" ++ crlf) else buf_append out (bs "*-1" ++ crlf).

Definition resp_ok (out : Buffer) : Buffer := buf_append out (bs "+OK" ++ crlf).

(** [strlen(s)]: the C string ends at the first NUL. *)
Definition c_str (s : bytes) : bytes := take (scan (fun c => bool_decide (c = c_zero)) s) s.

Definition resp_simple (out : Buffer) (s : bytes) : Buffer :=
  buf_append (buf_append (buf_append out (bs "+")) (c_str s)) crlf.

Definition resp_err (out : Buffer) (msg : bytes) : Buffer :=
  buf_append (buf_append (buf_append out (bs "-")) (c_str msg)) crlf.

Definition resp_int (out : Buffer) (val : Z) : Buffer :=
  buf_append out (bs ":" ++ print_i64 val ++ crlf).

Definition resp_str (out : Buffer) (s : bytes) : Buffer :=
  let out1 := buf_append out (bs "$" ++ print_u64 (Z.of_nat (length s)) ++ crlf) in
  buf_append (buf_append out1 s) crlf.

Definition resp_arr (out : Buffer) (n : Z) : Buffer :=
  buf_append out (bs "*" ++ print_u64 n ++ crlf).

Definition resp_map (proto : Z) (out : Buffer) (n : Z) : Buffer :=
  buf_append out (if 3 <=? proto then bs "%" ++ print_u64 n ++ crlf
                  else bs "*" ++ print_u64 (u32 (n * 2)) ++ crlf).

Definition resp_set (proto : Z) (out : Buffer) (n : Z) : Buffer :=
  buf_append out (if 3 <=? proto then bs "~" ++ print_u64 n ++ crlf
                  else bs "*" ++ print_u64 n ++ crlf).

Definition resp_push_n (out : Buffer) (n : Z) (proto : Z) : Buffer :=
  buf_append out (if 3 <=? proto then bs ">" ++ print_u64 n ++ crlf
                  else bs "*" ++ print_u64 n ++ crlf).

Definition resp_verbatim (proto : Z) (out : Buffer) (s : bytes) : Buffer :=
  if proto <? 3 then resp_str out s
  else
    let out1 := buf_append out (bs "=" ++ print_u64 (Z.of_nat (length s) + 4) ++ crlf) in
    buf_append (buf_append (buf_append out1 (bs "txt:")) s) crlf.

(** One RESP array command, as the append-only file and the replication stream
    carry it. *)
Definition aof_emit_vec (buf : Buffer) (parts : list bytes) : Buffer :=
  foldl (fun b a =>
           let b1 := buf_append b (bs "$" ++ print_u64 (Z.of_nat (length a)) ++ crlf) in
           buf_append (buf_append b1 a) crlf)
        (buf_append buf (bs "*" ++ print_u64 (Z.of_nat (length parts)) ++ crlf)) parts.

(** ** Reference encoding: the frame as one byte string *)

Definition bulk (a : bytes) : bytes :=
  c_dollar :: print_u64 (Z.of_nat (length a)) ++ crlf ++ a ++ crlf.

Definition frame (parts : list bytes) : bytes :=
  c_star :: print_u64 (Z.of_nat (length parts)) ++ crlf ++ concat (bulk <$> parts).

Example parse_get_foo :
  parse_resp_request (frame [bs "GET"; bs "foo"] ++ bs "*1") = (22, [bs "GET"; bs "foo"]).
Proof. vm_compute. reflexivity. Qed.

Example parse_inline_set :
  parse_resp_request (bs " set  a b" ++ crlf) = (11, [bs "set"; bs "a"; bs "b"]).
Proof. vm_compute. reflexivity. Qed.

(** ** Scanning *)

Lemma scan_le stop l : (scan stop l <= length l)%nat.
Proof. induction l; cbn; [lia|]. case_match; lia. Qed.

Lemma scan_at stop l c r :
  Forall (fun x => stop x = false) l -> stop c = true -> scan stop (l ++ c :: r) = length l.
Proof.
  intros Hl Hc. induction Hl as [|x l Hx Hl IH]; cbn; [by rewrite Hc|]. by rewrite Hx, IH.
Qed.

Lemma scan_app stop l r : (scan stop l < length l)%nat -> scan stop (l ++ r) = scan stop l.
Proof.
  induction l as [|x l IH]; cbn; [lia|]. case_match; [done|]. intros H1. rewrite IH; lia.
Qed.

Lemma read_num_spec max n l :
  0 <= n -> Forall (fun c => is_digit c) l -> digits_val n l <= max ->
  n <= digits_val n l /\ read_num max n l = Some (digits_val n l).
Proof.
  intros Hn Hl. revert n Hn. induction Hl as [|c l Hc Hl IH]; intros n Hn Hm; [cbn; auto with lia|].
  cbn [read_num digits_val foldl] in *. fold (digits_val (n * 10 + (code c - 48)) l) in *.
  apply Is_true_eq_true in Hc. rewrite Hc. cbn [negb].
  unfold is_digit in Hc. bool_facts.
  destruct (IH (n * 10 + (code c - 48))) as [Hle ->]; [lia|done|].
  split; [lia|].
  rewrite (proj2 (Z.ltb_ge (max / 10) n)) by (apply Z.div_le_lower_bound; lia).
  by rewrite (proj2 (Z.ltb_ge max _)) by lia.
Qed.

Lemma digits_not_cr l : Forall (fun c => is_digit c) l -> Forall (fun c => is_cr c = false) l.
Proof.
  intros H. eapply Forall_impl; [exact H|]. intros c Hc. apply Is_true_eq_true in Hc. unfold is_digit in Hc. bool_facts.
  unfold is_cr. apply bool_decide_eq_false. intros ->. unfold c_cr in *.
  rewrite code_chr in * by lia. lia.
Qed.

Lemma read_num_range max n l v :
  0 <= n -> 0 <= max -> n <= max -> read_num max n l = Some v -> 0 <= v <= max.
Proof.
  revert n. induction l as [|c l IH]; intros n Hn Hm Hx; cbn; [intros [= <-]; lia|].
  repeat case_match; try done. unfold is_digit in *. bool_facts. apply IH; lia.
Qed.

(** The [<digits>\r\n] header at the cursor, as both parsers read it. *)
Lemma scan_header pre n rest :
  0 <= n < 2 ^ 64 ->
  scan is_cr (drop (length pre) (pre ++ print_u64 n ++ crlf ++ rest)) = length (print_u64 n).
Proof.
  intros Hn. rewrite drop_app_length.
  apply (scan_at is_cr (print_u64 n) c_cr (c_lf :: rest)); [|done].
  by apply digits_not_cr, print_u64_digits.
Qed.

(** ** Reading back what [bulk] and [frame] wrote *)

Lemma lookup_skip (pre l : bytes) i : (pre ++ l) !! (length pre + i)%nat = l !! i.
Proof. rewrite lookup_app_r by lia. f_equal. lia. Qed.

(** One turn of the bulk loop, from what the buffer holds at the cursor. *)
Lemma read_bulks_turn n data pos hdr len cmd :
  data !! pos = Some c_dollar ->
  scan is_cr (drop (S pos) data) = length hdr ->
  slice (S pos) (length hdr) data = hdr ->
  let q := (S pos + length hdr + 2)%nat in
  data !! (S pos + length hdr + 1)%nat = Some c_lf ->
  read_num k_max_msg 0 hdr = Some (Z.of_nat len) ->
  (q + len + 2 <= length data)%nat ->
  data !! (q + len)%nat = Some c_cr -> data !! (q + len + 1)%nat = Some c_lf ->
  read_bulks (S n) data pos cmd = read_bulks n data (q + len + 2) (cmd ++ [slice q len data]).
Proof.
  intros H1 H2 H3 q H4 H5 H6 H7 H8. subst q. cbn [read_bulks].
  rewrite H1, bool_decide_eq_true_2 by done. cbn [negb]. rewrite H2.
  rewrite (proj2 (Nat.leb_gt _ _)) by lia.
  rewrite H4, bool_decide_eq_true_2 by done. cbn [negb].
  replace (S pos + length hdr - S pos)%nat with (length hdr) by lia. rewrite H3, H5.
  rewrite (proj2 (Z.ltb_ge _ _)) by lia. rewrite Nat2Z.id, H7, H8.
  by rewrite !bool_decide_eq_true_2 by done.
Qed.

Lemma read_bulks_step n pre a rest cmd :
  Z.of_nat (length a) <= k_max_msg ->
  read_bulks (S n) (pre ++ bulk a ++ rest) (length pre) cmd =
  read_bulks n (pre ++ bulk a ++ rest) (length pre + length (bulk a)) (cmd ++ [a]).
Proof.
  intros Ha. assert (Hlen : 0 <= Z.of_nat (length a) < 2 ^ 64) by (unfold k_max_msg in Ha; lia).
  set (hdr := print_u64 (Z.of_nat (length a))).
  set (pre1 := pre ++ [c_dollar]). set (pre3 := pre1 ++ hdr ++ crlf).
  set (data := pre ++ bulk a ++ rest).
  assert (D1 : data = pre1 ++ hdr ++ crlf ++ a ++ crlf ++ rest).
  { unfold data, pre1, bulk. fold hdr. cbn [app]. by rewrite <- !app_assoc. }
  assert (D3 : data = pre3 ++ a ++ crlf ++ rest) by (rewrite D1; unfold pre3; by rewrite <- !app_assoc).
  assert (L1 : S (length pre) = length pre1) by (unfold pre1; rewrite length_app; cbn; lia).
  assert (L3 : (S (length pre) + length hdr + 2)%nat = length pre3)
    by (unfold pre3; rewrite !length_app; cbn; lia).
  rewrite (read_bulks_turn n data (length pre) hdr (length a) cmd).
  - rewrite L3, D3, slice_skip, take_app_length. f_equal.
    rewrite <- L3. unfold bulk. fold hdr. rewrite length_cons, !length_app. cbn. lia.
  - unfold data, bulk. by apply list_lookup_middle.
  - rewrite L1, D1. by apply scan_header.
  - rewrite L1, D1, slice_skip. by rewrite take_app_length.
  - rewrite L1, D1, <- Nat.add_assoc, lookup_skip, lookup_skip. done.
  - destruct (read_num_spec k_max_msg 0 hdr) as [_ ->]; unfold hdr;
      rewrite ?print_u64_val by done; [lia|by apply print_u64_digits|done|done].
  - rewrite L3, D3, !length_app. cbn. lia.
  - rewrite L3, D3, lookup_skip. by apply list_lookup_middle.
  - rewrite L3, D3, <- Nat.add_assoc, lookup_skip, lookup_skip. done.
Qed.

Lemma read_bulks_frame parts pre rest cmd :
  Forall (fun a => Z.of_nat (length a) <= k_max_msg) parts ->
  read_bulks (length parts) (pre ++ concat (bulk <$> parts) ++ rest) (length pre) cmd =
  (i32 (Z.of_nat (length (pre ++ concat (bulk <$> parts)))), cmd ++ parts).
Proof.
  intros Hp. revert pre cmd. induction Hp as [|a parts Ha Hp IH]; intros pre cmd.
  { cbn. by rewrite !app_nil_r. }
  cbn [length fmap list_fmap concat]. rewrite <- app_assoc.
  rewrite read_bulks_step by done. rewrite <- length_app, app_assoc.
  fold (@fmap list _ _ _ bulk parts).
  rewrite IH. by rewrite <- !app_assoc.
Qed.

Definition args_ok (parts : list bytes) : Prop :=
  1 <= Z.of_nat (length parts) <= k_max_args /\
  Forall (fun a => Z.of_nat (length a) <= k_max_msg) parts /\
  Z.of_nat (length (frame parts)) < 2 ^ 31.

Lemma parse_frame parts rest :
  args_ok parts ->
  parse_resp_request (frame parts ++ rest) = (Z.of_nat (length (frame parts)), parts).
Proof.
  intros (Hn & Hp & Hl). set (hdr := print_u64 (Z.of_nat (length parts))).
  assert (Hu : 0 <= Z.of_nat (length parts) < 2 ^ 64) by (unfold k_max_args in Hn; lia).
  set (data := frame parts ++ rest). set (pre := c_star :: hdr ++ crlf).
  assert (D : data = pre ++ concat (bulk <$> parts) ++ rest).
  { unfold data, frame, pre. cbn [app]. by rewrite <- !app_assoc. }
  assert (D1 : data = [c_star] ++ hdr ++ crlf ++ concat (bulk <$> parts) ++ rest).
  { rewrite D. unfold pre. cbn [app]. by rewrite <- !app_assoc. }
  assert (Lp : length pre = (1 + length hdr + 2)%nat)
    by (unfold pre; rewrite length_cons, length_app; cbn; lia).
  unfold parse_resp_request. rewrite D1 at 1. cbn [app]. rewrite bool_decide_eq_true_2 by done.
  cbn [negb]. fold data.
  replace (scan is_cr (drop 1 data)) with (length hdr)
    by (rewrite D1; symmetry; by apply (scan_header [c_star])).
  rewrite (proj2 (Nat.leb_gt _ _)) by (rewrite D, length_app; lia).
  rewrite (bool_decide_eq_true_2 (data !! _ = _)).
  2:{ rewrite D1, <- Nat.add_assoc, (lookup_skip [c_star]), lookup_skip. done. }
  cbn [negb]. rewrite Nat.add_comm, Nat.add_sub.
  replace (slice 1 (length hdr) data) with hdr
    by (rewrite D1, (slice_skip [c_star]); by rewrite take_app_length).
  destruct (read_num_spec k_max_args 0 hdr) as [_ ->]; unfold hdr;
    rewrite ?print_u64_val by done; [lia|by apply print_u64_digits|lia|].
  rewrite (proj2 (Z.ltb_ge _ _)) by lia. rewrite Nat2Z.id. fold hdr.
  replace (length hdr + 1 + 2)%nat with (length pre) by lia.
  rewrite D, read_bulks_frame by done. f_equal.
  assert (E : frame parts = pre ++ concat (bulk <$> parts))
    by (unfold frame, pre; cbn [app]; by rewrite <- app_assoc).
  rewrite <- E. apply i32_small. lia.
Qed.

(** ** Fragmentation: a verdict never changes when more bytes arrive *)

Lemma drop_app_scan stop data rest i :
  (i + scan stop (drop i data) < length data)%nat ->
  scan stop (drop i (data ++ rest)) = scan stop (drop i data).
Proof.
  intros H. rewrite drop_app_le by lia. apply scan_app. rewrite length_drop. lia.
Qed.

Lemma lookup_app_stable (data rest : bytes) i :
  (i < length data)%nat -> (data ++ rest) !! i = data !! i.
Proof. intros H. by apply lookup_app_l. Qed.

Lemma read_bulks_stable n data rest pos cmd r c :
  read_bulks n data pos cmd = (r, c) -> r <> 0 ->
  read_bulks n (data ++ rest) pos cmd = (r, c).
Proof.
  revert pos cmd. induction n as [|n IH]; intros pos cmd H Hr; [done|]. cbn [read_bulks] in *.
  destruct (data !! pos) as [x|] eqn:Epos; [|congruence].
  assert (Hpos := lookup_lt_Some _ _ _ Epos). rewrite lookup_app_l, Epos by done.
  case_match; [done|].
  destruct (length data <=? _)%nat eqn:E1 in H; [congruence|]. bool_facts.
  rewrite drop_app_scan by lia.
  rewrite (proj2 (Nat.leb_gt _ _)) by (rewrite length_app; lia).
  rewrite lookup_app_stable by lia. case_match; [done|].
  rewrite slice_app_l by lia. case_match; [|done].
  destruct (Z.of_nat (length data) <? _) eqn:E2 in H; [congruence|]. bool_facts.
  rewrite (proj2 (Z.ltb_ge _ _)) by (rewrite length_app; lia).
  destruct (Z.le_gt_cases 0 z) as [Hz|Hz].
  - rewrite !lookup_app_stable by lia. rewrite slice_app_l by lia.
    case_match; [done|]. by apply IH.
  - exfalso. match goal with H : read_num _ _ _ = Some _ |- _ => apply read_num_range in H end;
      unfold k_max_msg; lia.
Qed.

Lemma parse_inline_stable data rest r c :
  parse_inline data = (r, c) -> r <> 0 -> parse_inline (data ++ rest) = (r, c).
Proof.
  unfold parse_inline. intros H Hr. pose proof (scan_le is_lf data).
  destruct (k_max_inline <? Z.of_nat (scan is_lf data)) eqn:E1.
  - (* over the cap: scanning further only increases the count *)
    assert ((scan is_lf data <= scan is_lf (data ++ rest))%nat).
    { clear. induction data as [|x d IH]; cbn; [lia|]. case_match; lia. }
    bool_facts. by rewrite (proj2 (Z.ltb_lt _ _)) by lia.
  - destruct (scan is_lf data =? length data)%nat eqn:E2; [congruence|]. bool_facts.
    rewrite scan_app by lia. rewrite (proj2 (Z.ltb_ge _ _)) by lia.
    rewrite (proj2 (Nat.eqb_neq _ _)) by (rewrite length_app; lia).
    rewrite lookup_app_stable by lia. case_match; by rewrite take_app_le by lia.
Qed.

Lemma parse_stable data rest r c :
  parse_resp_request data = (r, c) -> r <> 0 ->
  parse_resp_request (data ++ rest) = (r, c).
Proof.
  unfold parse_resp_request. intros H Hr. destruct data as [|x data]; [congruence|].
  cbn [app]. case_match; [by apply (parse_inline_stable (x :: data))|].
  change (x :: data ++ rest) with ((x :: data) ++ rest).
  destruct (length (x :: data) <=? _)%nat eqn:E1 in H; [congruence|]. bool_facts.
  rewrite drop_app_scan by lia.
  rewrite (proj2 (Nat.leb_gt _ _)) by (rewrite length_app; lia).
  rewrite lookup_app_stable by lia. case_match; [done|].
  rewrite slice_app_l by lia. case_match; [|done]. case_match; [done|].
  by apply read_bulks_stable.
Qed.

(** ** Bounds: the consumed count never passes the end of the buffer *)

Lemma read_bulks_bounds n data pos cmd r c :
  (pos <= length data)%nat -> Z.of_nat (length data) < 2 ^ 31 ->
  read_bulks n data pos cmd = (r, c) -> r = -1 \/ 0 <= r <= Z.of_nat (length data).
Proof.
  intros Hpos Hsz. revert pos cmd Hpos. induction n as [|n IH]; intros pos cmd Hpos; cbn [read_bulks].
  { intros [= <- _]. right. rewrite i32_small; lia. }
  repeat (case_match_eqn; try (intros [= <- _]; lia)).
  apply IH. bool_facts.
  match goal with H : data !! _ = Some c_lf |- _ => apply lookup_lt_Some in H end. lia.
Qed.

Lemma parse_bounds data r c :
  Z.of_nat (length data) < 2 ^ 31 ->
  parse_resp_request data = (r, c) -> r = -1 \/ 0 <= r <= Z.of_nat (length data).
Proof.
  intros Hsz. unfold parse_resp_request. destruct data as [|x data]; [intros [= <- _]; cbn; lia|].
  case_match.
  - unfold parse_inline. pose proof (scan_le is_lf (x :: data)) as Hs.
    destruct (k_max_inline <? _) eqn:E1; [intros [= <- _]; lia|].
    destruct (_ =? _)%nat eqn:E2; [intros [= <- _]; lia|]. intros Hp. apply (f_equal fst) in Hp.
    cbn [fst] in Hp. subst r. bool_facts. rewrite i32_small; lia.
  - repeat (case_match_eqn; try (intros [= <- _]; lia)). apply read_bulks_bounds; [|done].
    bool_facts. lia.
Qed.

(** ** Encoders *)

Definition emit_bulk (b : Buffer) (a : bytes) : Buffer :=
  buf_append (buf_append (buf_append b (bs "$" ++ print_u64 (Z.of_nat (length a)) ++ crlf)) a) crlf.

Lemma emit_bulks_spec parts b :
  wf b -> wf (foldl emit_bulk b parts) /\
          content (foldl emit_bulk b parts) = content b ++ concat (bulk <$> parts).
Proof.
  revert b. induction parts as [|a parts IH]; intros b Hb; cbn [foldl fmap list_fmap concat].
  { split; [done|]. by rewrite app_nil_r. }
  destruct (buf_append_spec b (bs "$" ++ print_u64 (Z.of_nat (length a)) ++ crlf) Hb) as [Hw1 Hc1].
  destruct (buf_append_spec _ a Hw1) as [Hw2 Hc2].
  destruct (buf_append_spec _ crlf Hw2) as [Hw3 Hc3].
  destruct (IH _ Hw3) as [Hw4 Hc4]. split; [done|]. unfold emit_bulk in *.
  rewrite Hc4, Hc3, Hc2, Hc1. unfold bulk at 2. change (bs "$") with [c_dollar].
  rewrite <- !app_assoc. cbn [app]. by rewrite <- !app_assoc.
Qed.

Lemma aof_emit_vec_spec buf parts :
  wf buf -> wf (aof_emit_vec buf parts) /\ content (aof_emit_vec buf parts) = content buf ++ frame parts.
Proof.
  intros Hwf. set (h := bs "*" ++ print_u64 (Z.of_nat (length parts)) ++ crlf).
  destruct (buf_append_spec buf h Hwf) as [Hw Hc].
  destruct (emit_bulks_spec parts _ Hw) as [Hw' Hc']. split; [exact Hw'|].
  transitivity (content (foldl emit_bulk (buf_append buf h) parts)); [done|].
  rewrite Hc', Hc. unfold h, frame. by rewrite <- !app_assoc.
Qed.

(** ** What the reply encoders append *)

(** [f] appends the bytes [d] to any buffer. *)
Definition appends (f : Buffer -> Buffer) (d : bytes) : Prop :=
  forall b, wf b -> wf (f b) /\ content (f b) = content b ++ d.

Lemma appends_buf d : appends (fun b => buf_append b d) d.
Proof. intros b Hb. by apply buf_append_spec. Qed.

Lemma appends_comp f g d e : appends f d -> appends g e -> appends (fun b => g (f b)) (d ++ e).
Proof.
  intros Hf Hg b Hb. destruct (Hf b Hb) as [H1 H2]. destruct (Hg _ H1) as [H3 H4].
  split; [done|]. by rewrite H4, H2, app_assoc.
Qed.

(** Three appends in a row. *)
Lemma appends_three x y z :
  appends (fun b => buf_append (buf_append (buf_append b x) y) z) ((x ++ y) ++ z).
Proof.
  apply (appends_comp (fun b => buf_append (buf_append b x) y) (fun b => buf_append b z)); [|apply appends_buf].
  apply (appends_comp (fun b => buf_append b x) (fun b => buf_append b y)); apply appends_buf.
Qed.

Lemma appends_resp_err m : appends (fun b => resp_err b m) ((bs "-" ++ c_str m) ++ crlf).
Proof. apply appends_three. Qed.

Lemma appends_resp_simple m : appends (fun b => resp_simple b m) ((bs "+" ++ c_str m) ++ crlf).
Proof. apply appends_three. Qed.

Lemma appends_resp_str s : appends (fun b => resp_str b s) (bulk s).
Proof.
  unfold bulk. replace (c_dollar :: _) with (((bs "$" ++ print_u64 (Z.of_nat (length s)) ++ crlf) ++ s) ++ crlf)
    by (cbn; by rewrite <- !app_assoc).
  apply appends_three.
Qed.

Lemma appends_resp_int z : appends (fun b => resp_int b z) (bs ":" ++ print_i64 z ++ crlf).
Proof. apply appends_buf. Qed.

Lemma appends_resp_arr n : appends (fun b => resp_arr b n) (bs "*" ++ print_u64 n ++ crlf).
Proof. apply appends_buf. Qed.

Lemma appends_resp_ok : appends resp_ok (bs "+OK" ++ crlf).
Proof. apply appends_buf. Qed.

Lemma appends_resp_nil p : appends (resp_nil p) (if 3 <=? p then bs "_" ++ crlf else bs "$-1" ++ crlf).
Proof. unfold resp_nil. destruct (3 <=? p); apply appends_buf. Qed.

(** A reply keeps the output buffer well formed. *)
Lemma wf_resp_err b m : wf b -> wf (resp_err b m).
Proof. apply (appends_resp_err m). Qed.

Lemma wf_resp_simple b m : wf b -> wf (resp_simple b m).
Proof. apply (appends_resp_simple m). Qed.

Lemma wf_resp_str b s : wf b -> wf (resp_str b s).
Proof. apply (appends_resp_str s). Qed.

Lemma wf_resp_int b z : wf b -> wf (resp_int b z).
Proof. apply (appends_resp_int z). Qed.

Lemma wf_resp_arr b n : wf b -> wf (resp_arr b n).
Proof. apply (appends_resp_arr n). Qed.

Lemma wf_resp_ok b : wf b -> wf (resp_ok b).
Proof. apply appends_resp_ok. Qed.

Lemma wf_resp_nil b p : wf b -> wf (resp_nil p b).
Proof. apply (appends_resp_nil p). Qed.

#[export] Hint Resolve wf_resp_err wf_resp_simple wf_resp_str wf_resp_int wf_resp_arr wf_resp_ok wf_resp_nil : myred.

(** ** Properties *)

(** A command written by the AOF and replication encoder is read back by
    the request parser: from any consistent buffer, the bytes aof_emit_vec
    appends parse to exactly the same arguments and are consumed whole,
    whatever follows them. *)
Theorem resp_roundtrip (buf : Buffer) (parts : list bytes) (rest : bytes) (Hwf : wf buf) (Hok : args_ok parts) :
  exists emitted, content (aof_emit_vec buf parts) = content buf ++ emitted /\
    parse_resp_request (emitted ++ rest) = (Z.of_nat (length emitted), parts).
Proof.
  exists (frame parts). split; [by apply aof_emit_vec_spec|]. by apply parse_frame.
Qed.

Lemma resp_roundtrip_witness :
  exists emitted, content (aof_emit_vec (buf_create 0) [bs "SET"; bs "k"; []]) = content (buf_create 0) ++ emitted /\
    parse_resp_request (emitted ++ bs "*1") = (Z.of_nat (length emitted), [bs "SET"; bs "k"; []]).
Proof.
  apply (resp_roundtrip (buf_create 0) [bs "SET"; bs "k"; []] (bs "*1")).
  - split; cbn; lia.
  - split_and!; [vm_compute; discriminate|vm_compute; discriminate| |vm_compute; reflexivity].
    repeat constructor; vm_compute; discriminate.
Defined.

(** Every strict prefix of a frame asks for more. *)
Lemma parse_prefix parts p q :
  args_ok parts -> p ++ q = frame parts -> q <> [] -> (parse_resp_request p).1 = 0.
Proof.
  intros Hok Hpre Hq.
  destruct (parse_resp_request p) as [r c] eqn:E. cbn [fst]. destruct (Z.eq_dec r 0) as [|Hr]; [done|exfalso].
  pose proof (parse_stable p q r c E Hr) as Hs. rewrite Hpre in Hs.
  pose proof (parse_frame parts [] Hok) as Hf. rewrite app_nil_r, Hs in Hf. apply (f_equal fst) in Hf. cbn [fst] in Hf.
  destruct Hok as (_ & _ & Hlen). assert (length (frame parts) = length p + length q)%nat as Hl
    by (by rewrite <- Hpre, length_app).
  assert (length q <> 0)%nat by (by destruct q).
  destruct (parse_bounds p r c ltac:(lia) E); lia.
Qed.

(** Requests may arrive in any fragments.  On every strict prefix of a
    request the parser answers 0 (wait for more), and once it has answered
    anything else, more bytes behind do not change the answer. *)
Theorem resp_fragmented (parts : list bytes) (p q : bytes) (Hok : args_ok parts)
    (Hpre : p ++ q = frame parts) (Hq : q <> []) :
  (parse_resp_request p).1 = 0 /\
  forall data rest r c, parse_resp_request data = (r, c) -> r <> 0 -> parse_resp_request (data ++ rest) = (r, c).
Proof.
  split; [by apply (parse_prefix parts p q)|intros; by apply parse_stable].
Qed.

Lemma resp_fragmented_witness :
  (parse_resp_request (take 9 (frame [bs "GET"; bs "key"]))).1 = 0 /\
  forall data rest r c, parse_resp_request data = (r, c) -> r <> 0 -> parse_resp_request (data ++ rest) = (r, c).
Proof.
  apply (resp_fragmented [bs "GET"; bs "key"] (take 9 (frame [bs "GET"; bs "key"]))
           (drop 9 (frame [bs "GET"; bs "key"]))).
  - split_and!; [vm_compute; discriminate|vm_compute; discriminate| |vm_compute; reflexivity].
    repeat constructor; vm_compute; discriminate.
  - apply take_drop.
  - discriminate.
Defined.

(** ** Limits: the number of arguments and the length of each *)

Lemma split_blank_limits fuel : forall l,
  (length (split_blank fuel l) <= length l)%nat /\ Forall (fun a => (length a <= length l)%nat) (split_blank fuel l).
Proof.
  induction fuel as [|f IH]; intros l; cbn [split_blank]; [split; [cbn; lia|constructor]|].
  set (l1 := drop (scan (fun c => negb (is_blank c)) l) l).
  assert (Hle : (length l1 <= length l)%nat) by (unfold l1; rewrite length_drop; lia).
  destruct l1 as [|c l1'] eqn:E; [split; [cbn; lia|constructor]|]. rewrite <- E in *.
  destruct (IH (drop (scan is_blank l1) l1)) as [I1 I2]. rewrite length_drop in I1, I2.
  pose proof (scan_le is_blank l1) as Hs.
  assert (Hpos : (0 < scan is_blank l1)%nat).
  { assert (Hnb : is_blank c = false).
    { assert (Hst : forall l c l', drop (scan (fun c => negb (is_blank c)) l) l = c :: l' -> is_blank c = false).
      { clear. induction l as [|x l IH]; intros c l'; cbn; [done|]. destruct (is_blank x) eqn:Ex; cbn; [apply IH|].
        intros [= <- _]. done. }
      by eapply Hst; unfold l1 in E. }
    rewrite E. cbn. rewrite Hnb. lia. }
  split; [cbn [length]; lia|]. constructor; [rewrite length_take; lia|].
  eapply Forall_impl; [exact I2|]. cbn. lia.
Qed.

Lemma read_bulks_limits n data : forall pos cmd r c,
  Forall (fun a => Z.of_nat (length a) <= k_max_msg) cmd -> read_bulks n data pos cmd = (r, c) ->
  (length c <= length cmd + n)%nat /\ Forall (fun a => Z.of_nat (length a) <= k_max_msg) c.
Proof.
  induction n as [|n IH]; intros pos cmd r c Hcmd; cbn [read_bulks]; [intros [= _ <-]; split; [lia|done]|].
  repeat (case_match_eqn; try (intros [= _ <-]; split; [lia|done])).
  all: match goal with H : read_num _ _ _ = Some _ |- _ =>
    apply read_num_range in H; [|unfold k_max_msg; lia..] end.
  all: match goal with H : _ <= ?v <= _ |- context [?cmd ++ [slice ?q (Z.to_nat ?v) ?data]] =>
    assert (Hcmd' : Forall (fun a => Z.of_nat (length a) <= k_max_msg) (cmd ++ [slice q (Z.to_nat v) data]))
      by (apply Forall_app_2; [done|]; repeat constructor; unfold slice; rewrite length_take; lia) end.
  - intros [= _ <-]. rewrite length_app. split; [cbn; lia|done].
  - intros E. destruct (IH _ _ _ _ Hcmd' E) as [I1 I2]. rewrite length_app in I1. cbn in I1. split; [lia|done].
Qed.

Lemma parse_limits data r c :
  parse_resp_request data = (r, c) ->
  Z.of_nat (length c) <= k_max_args /\ Forall (fun a => Z.of_nat (length a) <= k_max_msg) c.
Proof.
  unfold parse_resp_request. destruct data as [|x data]; [intros [= _ <-]; cbn; split; [done|constructor]|]. case_match.
  - unfold parse_inline. pose proof (scan_le is_lf (x :: data)) as Hs.
    destruct (k_max_inline <? _) eqn:E1; [intros [= _ <-]; cbn; split; [done|constructor]|].
    destruct (_ =? _)%nat eqn:E2; [intros [= _ <-]; cbn; split; [done|constructor]|].
    match goal with |- context [split_blank (S ?x)] => set (e := x) end. assert (He : (e <= scan is_lf (x :: data))%nat) by (unfold e; case_match; lia).
    intros Hp. apply (f_equal snd) in Hp. cbn [snd] in Hp. subst c.
    destruct (split_blank_limits (S e) (take e (x :: data))) as [H1 H2]. rewrite length_take in H1, H2.
    bool_facts. unfold k_max_inline, k_max_args, k_max_msg in *. split; [lia|].
    eapply Forall_impl; [exact H2|]. cbn. lia.
  - repeat (case_match_eqn; try (intros [= _ <-]; cbn; split; [done|constructor])).
    match goal with H : read_num _ _ _ = Some _ |- _ => apply read_num_range in H; [|unfold k_max_args; lia..] end.
    intros E. apply read_bulks_limits in E as [H1 H2]; [|constructor]. cbn in H1. split; [lia|done].
Qed.

Lemma read_num_over max n l :
  0 <= n -> Forall (fun c => is_digit c) l -> max < digits_val n l -> 0 <= max -> n <= max -> read_num max n l = None.
Proof.
  intros Hn Hl. revert n Hn. induction Hl as [|c l Hc Hl IH]; intros n Hn Hm Hx Hle; [cbn in Hm; lia|].
  cbn [read_num digits_val foldl] in *. fold (digits_val (n * 10 + (code c - 48)) l) in *.
  apply Is_true_eq_true in Hc. rewrite Hc. cbn [negb]. case_match; [done|]. case_match; [done|].
  unfold is_digit in Hc. bool_facts. apply IH; lia.
Qed.

(** An array header that announces no argument, or more than the limit. *)
Lemma parse_count_refused n rest :
  0 <= n < 2 ^ 64 -> n = 0 \/ k_max_args < n -> parse_resp_request (c_star :: print_u64 n ++ crlf ++ rest) = (-1, []).
Proof.
  intros Hn Hout. set (hdr := print_u64 n). set (data := c_star :: hdr ++ crlf ++ rest).
  unfold parse_resp_request. unfold data at 1. rewrite bool_decide_eq_true_2 by done. cbn [negb].
  replace (scan is_cr (drop 1 data)) with (length hdr) by (symmetry; by apply (scan_header [c_star])).
  rewrite (proj2 (Nat.leb_gt _ _)) by (unfold data; rewrite length_cons, !length_app; cbn; lia).
  rewrite (bool_decide_eq_true_2 (data !! _ = _))
    by (unfold data; change (c_star :: ?l) with ([c_star] ++ l);
        rewrite <- Nat.add_assoc, (lookup_skip [c_star]), lookup_skip; done).
  cbn [negb]. rewrite Nat.add_comm, Nat.add_sub.
  replace (slice 1 (length hdr) data) with hdr
    by (symmetry; etransitivity; [apply (slice_skip [c_star])|by rewrite take_app_length]).
  assert (Hd : Forall (fun c => is_digit c) hdr) by (by apply print_u64_digits).
  assert (Hv : digits_val 0 hdr = n) by (by apply print_u64_val).
  destruct Hout as [->|Hbig].
  - destruct (read_num_spec k_max_args 0 hdr) as [_ ->]; [lia|done|by rewrite Hv|]. by rewrite Hv.
  - by rewrite read_num_over by (rewrite ?Hv; unfold k_max_args; done || lia).
Qed.

(** C35: The parser's limits.  On any input below 2 GB it answers -1
    (protocol error) or a count between 0 and the number of bytes available;
    the vector it leaves holds at most [k_max_args] arguments of at most
    [k_max_msg] bytes each; and a header announcing no argument or more than
    [k_max_args] of them is refused with nothing parsed. *)
Theorem resp_bounds (data : bytes) (Hlen : Z.of_nat (length data) < 2 ^ 31) :
  let '(r, cmd) := parse_resp_request data in
  (r = -1 \/ 0 <= r <= Z.of_nat (length data)) /\
  Z.of_nat (length cmd) <= k_max_args /\ Forall (fun a => Z.of_nat (length a) <= k_max_msg) cmd /\
  forall n rest, 0 <= n < 2 ^ 64 -> data = c_star :: print_u64 n ++ crlf ++ rest -> n = 0 \/ k_max_args < n ->
    r = -1 /\ cmd = [].
Proof.
  destruct (parse_resp_request data) as [r c] eqn:E. split; [by eapply parse_bounds|].
  destruct (parse_limits data r c E) as [H1 H2]. split_and!; [done|done|].
  intros n rest Hn -> Hout. rewrite (parse_count_refused n rest Hn Hout) in E. by injection E as <- <-.
Qed.

Lemma resp_bounds_witness :
  let '(r, cmd) := parse_resp_request (bs "*70000" ++ crlf) in r = -1 /\ cmd = [].
Proof.
  pose proof (resp_bounds (bs "*70000" ++ crlf) ltac:(vm_compute; reflexivity)) as H.
  destruct (parse_resp_request _) as [r c]. destruct H as (_ & _ & _ & H).
  apply (H 70000 []); [lia|vm_compute; reflexivity|right; vm_compute; reflexivity].
Defined.
