(* ===== verification/Hashtable.v ===== *)
(** * The progressive-rehashing hashtable (src/src/ds/hashtable.{h,cpp},
      [str_hash] of src/src/core/common.h)

    The table is intrusive: a chain holds the nodes themselves.  A node is its
    hash code with the structure around it ([item]).  [HTab.tab = \[\]] stands
    for the NULL table ([calloc] is only called with n > 0), a chain is the
    list of its nodes in [next] order, and an [HNode **] is a bucket with a
    position in its chain. *)
From S2P Require Import Prelude.

(** FNV-1a, 64 bits *)
Definition str_hash (data : bytes) : Z :=
  foldl (fun h c => u64 (Z.lxor h (code c) * 0x100000001b3)) 0xcbf29ce484222325 data.

Section HashTable.
Context {A : Type}.

Record HNode := mkHNode { hcode : Z; item : A }.

Record HTab := mkHTab { tab : list (list HNode); mask : nat; size : nat }.

Record HMap := mkHMap { newer : HTab; older : HTab; migrate_pos : nat; elem_bytes : Z }.

Definition HTab_empty : HTab := {| tab := []; mask := 0; size := 0 |}.
Definition HMap_empty : HMap :=
  {| newer := HTab_empty; older := HTab_empty; migrate_pos := 0; elem_bytes := 0 |}.

Definition h_init (n : nat) : HTab := {| tab := replicate n []; mask := n - 1; size := 0 |}.

(** [hcode & mask] *)
Definition h_pos (mask : nat) (hcode : Z) : nat := Z.to_nat (Z.land hcode (Z.of_nat mask)).

Definition chain (t : HTab) (pos : nat) : list HNode := default [] (tab t !! pos).

Definition h_insert (t : HTab) (node : HNode) : HTab :=
  let pos := h_pos (mask t) (hcode node) in
  {| tab := <[pos := node :: chain t pos]> (tab t); mask := mask t; size := S (size t) |}.

(** The [for] loop over one chain; the callback is only called on equal codes. *)
Fixpoint chain_find (kcode : Z) (eq : A -> bool) (l : list HNode) : option nat :=
  match l with
  | [] => None
  | cur :: l' =>
      if (hcode cur =? kcode) && eq (item cur) then Some O
      else S <$> chain_find kcode eq l'
  end.

Definition h_lookup (t : HTab) (kcode : Z) (eq : A -> bool) : option (nat * nat) :=
  match tab t with
  | [] => None
  | _ => let pos := h_pos (mask t) kcode in
         (fun i => (pos, i)) <$> chain_find kcode eq (chain t pos)
  end.

(** [*from] *)
Definition h_deref (t : HTab) (from : nat * nat) : option HNode := chain t from.1 !! from.2.

Definition h_detach (t : HTab) (from : nat * nat) : option HNode * HTab :=
  (h_deref t from,
   {| tab := <[from.1 := delete from.2 (chain t from.1)]> (tab t);
      mask := mask t; size := size t - 1 |}).

Definition k_rehashing_work : nat := 128.

(** The migration loop; each turn either moves a node or passes an empty bucket. *)
Fixpoint help_loop (fuel nwork : nat) (h : HMap) : HMap :=
  match fuel with
  | O => h
  | S f =>
      if (nwork <? k_rehashing_work)%nat && (0 <? size (older h))%nat then
        if (mask (older h) <? migrate_pos h)%nat then h
        else
          match chain (older h) (migrate_pos h) with
          | [] =>
              help_loop f nwork {| newer := newer h; older := older h;
                                   migrate_pos := S (migrate_pos h); elem_bytes := elem_bytes h |}
          | node :: _ =>
              help_loop f (S nwork)
                {| newer := h_insert (newer h) node;
                   older := (h_detach (older h) (migrate_pos h, O)).2;
                   migrate_pos := migrate_pos h; elem_bytes := elem_bytes h |}
          end
      else h
  end.

(** Enough turns for the work quota and every bucket of the draining table. *)
Definition help_fuel (h : HMap) : nat := k_rehashing_work + mask (older h) + 2.

Definition hm_help_rehashing (h : HMap) : HMap :=
  let h1 := help_loop (help_fuel h) 0 h in
  if (size (older h1) =? 0)%nat && negb (bool_decide (tab (older h1) = []))
  then {| newer := newer h1; older := HTab_empty;
          migrate_pos := migrate_pos h1; elem_bytes := elem_bytes h1 |}
  else h1.

Definition hm_trigger_rehashing (h : HMap) : HMap :=
  {| newer := h_init ((mask (newer h) + 1) * 2); older := newer h;
     migrate_pos := 0; elem_bytes := elem_bytes h |}.

Definition hm_lookup (h : HMap) (kcode : Z) (eq : A -> bool) : option A * HMap :=
  let h1 := hm_help_rehashing h in
  match h_lookup (newer h1) kcode eq with
  | Some from => (item <$> h_deref (newer h1) from, h1)
  | None =>
      match h_lookup (older h1) kcode eq with
      | Some from => (item <$> h_deref (older h1) from, h1)
      | None => (None, h1)
      end
  end.

Definition hm_delete (h : HMap) (kcode : Z) (eq : A -> bool) : option A * HMap :=
  let h1 := hm_help_rehashing h in
  match h_lookup (newer h1) kcode eq with
  | Some from =>
      let '(n, t) := h_detach (newer h1) from in
      (item <$> n, {| newer := t; older := older h1; migrate_pos := migrate_pos h1;
                      elem_bytes := elem_bytes h1 |})
  | None =>
      match h_lookup (older h1) kcode eq with
      | Some from =>
          let '(n, t) := h_detach (older h1) from in
          (item <$> n, {| newer := newer h1; older := t; migrate_pos := migrate_pos h1;
                          elem_bytes := elem_bytes h1 |})
      | None => (None, h1)
      end
  end.

Definition k_max_load_factor : nat := 8.

Definition hm_insert (h : HMap) (node : HNode) : HMap :=
  let n0 := if bool_decide (tab (newer h) = []) then h_init 4 else newer h in
  let h1 := {| newer := h_insert n0 node; older := older h;
               migrate_pos := migrate_pos h; elem_bytes := elem_bytes h |} in
  let h2 :=
    if bool_decide (tab (older h1) = []) then
      let shreshold := ((mask (newer h1) + 1) * k_max_load_factor)%nat in
      if (shreshold <=? size (newer h1))%nat then hm_trigger_rehashing h1 else h1
    else h1 in
  hm_help_rehashing h2.

Definition hm_clear (h : HMap) : HMap := HMap_empty.

Definition hm_size (h : HMap) : nat := size (newer h) + size (older h).

(** Callbacks of [hm_foreach] return true throughout the program, so the
    iteration is the list of visited nodes; [mask != 0] guards the NULL table. *)
Definition h_foreach (t : HTab) : list A :=
  if (mask t =? 0)%nat then [] else item <$> concat (take (S (mask t)) (tab t)).

Definition hm_foreach (h : HMap) : list A := h_foreach (newer h) ++ h_foreach (older h).

(** A write through the pointer a lookup returned: replaces the structure
    around the node in place, its chain and code unchanged. *)
Definition h_write (t : HTab) (from : nat * nat) (a : A) : HTab :=
  match h_deref t from with
  | None => t
  | Some n =>
      {| tab := <[from.1 := <[from.2 := {| hcode := hcode n; item := a |}]> (chain t from.1)]> (tab t);
         mask := mask t; size := size t |}
  end.

Definition hm_write (h : HMap) (kcode : Z) (eq : A -> bool) (a : A) : HMap :=
  match h_lookup (newer h) kcode eq with
  | Some from => {| newer := h_write (newer h) from a; older := older h;
                    migrate_pos := migrate_pos h; elem_bytes := elem_bytes h |}
  | None =>
      match h_lookup (older h) kcode eq with
      | Some from => {| newer := newer h; older := h_write (older h) from a;
                        migrate_pos := migrate_pos h; elem_bytes := elem_bytes h |}
      | None => h
      end
  end.

Definition set_elem_bytes (h : HMap) (n : Z) : HMap :=
  {| newer := newer h; older := older h; migrate_pos := migrate_pos h; elem_bytes := n |}.

(** ** Random sampling; [r0 r1 r2] are the three draws, in call order *)

Definition hm_random_probe (t : HTab) (start pick : nat) : option A :=
  (fix go (fuel probe : nat) : option A :=
     match fuel with
     | O => None
     | S f =>
         let c := chain t (h_pos (mask t) (Z.of_nat (start + probe))) in
         match c with
         | [] => go f (S probe)
         | _ => item <$> c !! (pick mod length c)%nat
         end
     end) (S (mask t)) O.

Definition hm_random (h : HMap) (r0 r1 r2 : nat) : option A :=
  let total := (size (newer h) + size (older h))%nat in
  if (total =? 0)%nat then None
  else
    let first := (r0 mod total <? size (newer h))%nat in
    let dead t := bool_decide (tab t = []) || (size t =? 0)%nat in
    let t1 := if first then newer h else older h in
    let t := if dead t1 then (if first then older h else newer h) else t1 in
    if dead t then None else hm_random_probe t (r1 mod (mask t + 1)) r2.

End HashTable.

Arguments HNode : clear implicits.
Arguments HTab : clear implicits.
Arguments HMap : clear implicits.

(** ** Cursor iteration *)

Definition not64 (v : Z) : Z := Z.lxor v UINT64_MAX.

(** One swap step of the bit reversal: groups of [s] bits selected by [m]. *)
Definition swap_bits (s m v : Z) : Z :=
  Z.lor (Z.land (Z.shiftr v s) m) (u64 (Z.shiftl (Z.land v m) s)).

Definition rev_bits (v : Z) : Z :=
  let v := swap_bits 1 0x5555555555555555 v in
  let v := swap_bits 2 0x3333333333333333 v in
  let v := swap_bits 4 0x0F0F0F0F0F0F0F0F v in
  let v := swap_bits 8 0x00FF00FF00FF00FF v in
  let v := swap_bits 16 0x0000FFFF0000FFFF v in
  Z.lor (Z.shiftr v 32) (u64 (Z.shiftl v 32)).

Definition next_cursor (mbig : nat) (cursor : Z) : Z :=
  let c := Z.lor cursor (not64 (Z.of_nat mbig)) in
  rev_bits (u64 (rev_bits c + 1)).

(** The buckets visited for one cursor value. *)
Definition scan_visit {A} (h : HMap A) (cursor : Z) : list (HNode A) :=
  chain (newer h) (h_pos (mask (newer h)) cursor) ++
  (if bool_decide (tab (older h) = []) then []
   else chain (older h) (h_pos (mask (older h)) cursor)).

Definition scan_mbig {A} (h : HMap A) : nat :=
  if negb (bool_decide (tab (older h) = [])) && (mask (newer h) <? mask (older h))%nat
  then mask (older h) else mask (newer h).

(** The [do ... while (cursor != 0 && scanned < count)] loop; nodes in the order
    the callback sees them. *)
Fixpoint scan_loop {A} (fuel : nat) (h : HMap A) (cursor count scanned : Z) (acc : list A)
  : Z * list A :=
  match fuel with
  | O => (cursor, acc)
  | S f =>
      let acc := acc ++ (item <$> scan_visit h cursor) in
      let cursor := next_cursor (scan_mbig h) cursor in
      let scanned := scanned + 1 in
      if negb (cursor =? 0) && (scanned <? count)
      then scan_loop f h cursor count scanned acc
      else (cursor, acc)
  end.

Definition hm_scan {A} (h : HMap A) (cursor count : Z) : Z * list A :=
  if bool_decide (tab (newer h) = []) then (0, [])
  else scan_loop (S (scan_mbig h)) h cursor count 0 [].

Example str_hash_abc : str_hash (bs "abc") = 0xe71fa2190541574b.
Proof. vm_compute. reflexivity. Qed.

(** ** Well-formedness *)

Section Invariants.
Context {A : Type}.
Implicit Types (t : HTab A) (h : HMap A) (n : HNode A).

Definition elements (t : HTab A) : list (HNode A) := concat (tab t).
Definition hm_elements (h : HMap A) : list (HNode A) := elements (newer h) ++ elements (older h).

(** A table is NULL, or has a power-of-two number of buckets, at least two,
    every node in the bucket of its code, and an exact size counter. *)
Record tab_ok (t : HTab A) : Prop := {
  ok_null : tab t = [] -> mask t = O /\ size t = O;
  ok_length : tab t <> [] -> length (tab t) = S (mask t);
  ok_pow2 : tab t <> [] -> exists k, (1 <= k)%nat /\ S (mask t) = (2 ^ k)%nat;
  ok_size : size t = length (elements t);
  ok_bucket : forall i c n, tab t !! i = Some c -> n ∈ c -> h_pos (mask t) (hcode n) = i;
}.

Record hm_ok (h : HMap A) : Prop := {
  ok_newer : tab_ok (newer h);
  ok_older : tab_ok (older h);
  ok_active : tab (newer h) = [] -> tab (older h) = [];
  (** every bucket the migration has passed is drained *)
  ok_drained : forall i c, (i < migrate_pos h)%nat -> tab (older h) !! i = Some c -> c = [];
}.

Lemma h_pos_lt mask hc k : S mask = (2 ^ k)%nat -> (h_pos mask hc < S mask)%nat.
Proof.
  intros H. unfold h_pos.
  replace (Z.of_nat mask) with (Z.ones (Z.of_nat k)).
  2:{ rewrite Z.ones_equiv. apply (f_equal Z.of_nat) in H. rewrite Nat2Z.inj_pow in H.
      change (Z.of_nat 2) with 2 in H. lia. }
  rewrite Z.land_ones by lia.
  pose proof (Z.mod_pos_bound hc (2 ^ Z.of_nat k) ltac:(apply Z.pow_pos_nonneg; lia)).
  apply (f_equal Z.of_nat) in H. rewrite Nat2Z.inj_pow in H. change (Z.of_nat 2) with 2 in H. lia.
Qed.

Lemma tab_ok_pos t hc : tab_ok t -> tab t <> [] -> (h_pos (mask t) hc < length (tab t))%nat.
Proof.
  intros Hok Hne. rewrite (ok_length _ Hok Hne). destruct (ok_pow2 _ Hok Hne) as (k & _ & Hk).
  by eapply h_pos_lt.
Qed.

Lemma chain_lookup t pos : (pos < length (tab t))%nat -> tab t !! pos = Some (chain t pos).
Proof. intros H. unfold chain. by destruct (lookup_lt_is_Some_2 _ _ H) as [c ->]. Qed.

(** Splitting the nodes of a table at a bucket. *)
Lemma concat_insert (l : list (list (HNode A))) pos c c' :
  l !! pos = Some c ->
  exists r, concat l ≡ₚ c ++ r /\ concat (<[pos := c']> l) ≡ₚ c' ++ r.
Proof.
  intros H. exists (concat (take pos l) ++ concat (drop (S pos) l)).
  pose proof (lookup_lt_Some _ _ _ H). split.
  - rewrite <- (take_drop_middle l pos c H) at 1. rewrite concat_app. cbn. solve_Permutation.
  - rewrite insert_take_drop by done. rewrite concat_app. cbn. solve_Permutation.
Qed.

Lemma elem_chain t pos n : n ∈ chain t pos -> n ∈ elements t.
Proof.
  unfold chain, elements. intros H. destruct (tab t !! pos) as [c|] eqn:E; [|by apply elem_of_nil in H].
  apply list_elem_of_In, in_concat. exists c. split; apply list_elem_of_In; [|done].
  by eapply list_elem_of_lookup_2.
Qed.

Lemma elements_chain t n :
  tab_ok t -> n ∈ elements t -> tab t <> [] /\ n ∈ chain t (h_pos (mask t) (hcode n)).
Proof.
  unfold elements. intros Hok (c & Hc & Hn)%list_elem_of_In%in_concat.
  apply list_elem_of_In in Hc, Hn. split; [intros E; rewrite E in Hc; by apply elem_of_nil in Hc|].
  apply list_elem_of_lookup in Hc as (i & Hi). pose proof (ok_bucket _ Hok _ _ _ Hi Hn) as ->.
  unfold chain. by rewrite Hi.
Qed.

(** Replacing one chain, given the nodes of the new chain belong there. *)
Lemma tab_ok_update t pos c' sz :
  tab_ok t -> (pos < length (tab t))%nat ->
  Forall (fun n => h_pos (mask t) (hcode n) = pos) c' ->
  (sz + length (chain t pos) = size t + length c')%nat ->
  tab_ok {| tab := <[pos := c']> (tab t); mask := mask t; size := sz |}.
Proof.
  intros Hok Hpos Hc' Hsz.
  assert (Hne : tab t <> []) by (intros E; rewrite E in Hpos; cbn in Hpos; lia).
  destruct (concat_insert (tab t) pos (chain t pos) c') as (r & Hr1 & Hr2); [by apply chain_lookup|].
  split; cbn.
  - intros E. apply (f_equal length) in E. rewrite length_insert in E. cbn in E. lia.
  - intros _. rewrite length_insert. by apply ok_length.
  - intros _. by apply ok_pow2.
  - pose proof (ok_size _ Hok) as Hs. apply Permutation_length in Hr1, Hr2.
    unfold elements in *. rewrite length_app in *. cbn [tab] in *. lia.
  - intros i c n Hi Hn. destruct (decide (i = pos)) as [->|Hne'].
    + rewrite list_lookup_insert_eq in Hi by done. injection Hi as <-.
      rewrite Forall_forall in Hc'. by apply Hc'.
    + rewrite list_lookup_insert_ne in Hi by done. by eapply ok_bucket.
Qed.

Lemma chain_bucket t pos : tab_ok t -> Forall (fun n => h_pos (mask t) (hcode n) = pos) (chain t pos).
Proof.
  intros Hok. apply Forall_forall. intros n Hn. unfold chain in Hn.
  destruct (tab t !! pos) eqn:E; [|by apply elem_of_nil in Hn]. by eapply ok_bucket.
Qed.

Lemma h_insert_spec t n :
  tab_ok t -> tab t <> [] ->
  tab_ok (h_insert t n) /\ tab (h_insert t n) <> [] /\ elements (h_insert t n) ≡ₚ n :: elements t.
Proof.
  intros Hok Hne. pose proof (tab_ok_pos _ (hcode n) Hok Hne) as Hpos. split; [|split].
  - apply tab_ok_update; [done..| |cbn; lia]. constructor; [done|]. by apply chain_bucket.
  - cbn. intros E. apply (f_equal length) in E. rewrite length_insert in E. cbn in E.
    destruct (tab t); [done|cbn in E; lia].
  - destruct (concat_insert (tab t) (h_pos (mask t) (hcode n)) (chain t (h_pos (mask t) (hcode n)))
      (n :: chain t (h_pos (mask t) (hcode n)))) as (r & Hr1 & Hr2); [by apply chain_lookup|].
    unfold elements. cbn. rewrite Hr2, Hr1. done.
Qed.

Lemma tab_ok_nonempty_pos t pos (i : nat) : chain t pos !! i <> None -> (pos < length (tab t))%nat.
Proof.
  intros H. destruct (decide (pos < length (tab t))%nat); [done|].
  unfold chain in H. by rewrite (lookup_ge_None_2 (tab t)) in H by lia.
Qed.

Lemma h_detach_spec t from n :
  tab_ok t -> h_deref t from = Some n ->
  (h_detach t from).1 = Some n /\ tab_ok (h_detach t from).2 /\
  elements t ≡ₚ n :: elements (h_detach t from).2 /\
  mask (h_detach t from).2 = mask t /\ length (tab (h_detach t from).2) = length (tab t).
Proof.
  unfold h_deref, h_detach. destruct from as [pos i]; cbn. intros Hok Hn.
  assert (Hpos : (pos < length (tab t))%nat) by (eapply tab_ok_nonempty_pos; by rewrite Hn).
  pose proof (delete_Permutation _ _ _ Hn) as Hp.
  destruct (concat_insert (tab t) pos (chain t pos) (delete i (chain t pos))) as (r & Hr1 & Hr2);
    [by apply chain_lookup|].
  assert (Hs : (0 < size t)%nat).
  { rewrite (ok_size _ Hok). unfold elements. apply Permutation_length in Hr1, Hp.
    rewrite Hr1, length_app, Hp. cbn. lia. }
  split; [done|]. split; [|split; [|split; [done|by rewrite length_insert]]].
  - apply tab_ok_update; [done..| |].
    + pose proof (chain_bucket t pos Hok) as Hb. rewrite Hp in Hb. by inversion Hb.
    + apply Permutation_length in Hp. cbn in Hp. lia.
  - unfold elements. cbn. rewrite Hr2, Hr1, app_comm_cons. by rewrite <- Hp.
Qed.

(** ** Lookup in one table *)

Lemma chain_find_Some kc (eq : A -> bool) l i :
  chain_find kc eq l = Some i ->
  exists n, l !! i = Some n /\ hcode n = kc /\ eq (item n) = true.
Proof.
  revert i. induction l as [|n l IH]; intros i; [done|]. cbn. case_match eqn:E.
  - intros [= <-]. bool_facts. by exists n.
  - intros (j & Hj & ->)%fmap_Some. by apply IH in Hj.
Qed.

Lemma chain_find_None kc (eq : A -> bool) l n :
  chain_find kc eq l = None -> n ∈ l -> hcode n = kc -> eq (item n) = false.
Proof.
  induction l as [|m l IH]; cbn; [by intros _ ?%elem_of_nil|].
  case_match eqn:E; [done|]. intros Hf%fmap_None [->|Hn]%elem_of_cons Hk; [|by apply IH].
  rewrite Hk, Z.eqb_refl in E. done.
Qed.

Lemma h_lookup_Some t kc eq from :
  h_lookup t kc eq = Some from ->
  exists n, h_deref t from = Some n /\ hcode n = kc /\ eq (item n) = true.
Proof.
  unfold h_lookup. intros H. destruct (tab t); [done|].
  apply fmap_Some in H as (i & Hi & ->). by apply chain_find_Some in Hi.
Qed.

Lemma h_lookup_None t kc eq n :
  tab_ok t -> h_lookup t kc eq = None -> n ∈ elements t -> hcode n = kc -> eq (item n) = false.
Proof.
  intros Hok H Hn Hk. apply elements_chain in Hn as [Hne Hn]; [|done].
  unfold h_lookup in H. destruct (tab t); [done|]. apply fmap_None in H.
  rewrite Hk in Hn. by eapply chain_find_None.
Qed.

End Invariants.

(** ** Progressive rehashing *)

Section Rehashing.
Context {A : Type}.
Implicit Types (t : HTab A) (h : HMap A) (n : HNode A).

Lemma tab_ok_empty : tab_ok (@HTab_empty A).
Proof. by split; cbn; intros. Qed.

Lemma hm_ok_empty : hm_ok (@HMap_empty A).
Proof. by split; cbn; intros; try apply tab_ok_empty. Qed.

Lemma concat_replicate_nil {B : Type} (k : nat) : concat (replicate k (@nil B)) = [].
Proof. induction k; cbn; auto. Qed.

Lemma h_init_ok k : (1 <= k)%nat -> tab_ok (@h_init A (2 ^ k)) /\ tab (@h_init A (2 ^ k)) <> [].
Proof.
  intros Hk. assert (Hp : (2 <= 2 ^ k)%nat).
  { destruct k as [|k]; [lia|]. cbn. pose proof (Nat.pow_nonzero 2 k). lia. }
  assert (Hne : tab (@h_init A (2 ^ k)) <> [])
    by (cbn; intros E; apply (f_equal length) in E; rewrite length_replicate in E; cbn in E; lia).
  split; [|done]. split; cbn; intros.
  - by destruct Hne.
  - rewrite length_replicate. lia.
  - exists k. split; lia.
  - unfold elements. cbn. by rewrite concat_replicate_nil.
  - apply lookup_replicate in H as [-> _]. by apply elem_of_nil in H0.
Qed.

Lemma elements_init k : elements (@h_init A k) = [].
Proof. unfold elements. cbn. apply concat_replicate_nil. Qed.

Lemma size_0_elements t : tab_ok t -> size t = O -> elements t = [].
Proof. intros Hok Hs. rewrite (ok_size _ Hok) in Hs. by apply nil_length_inv. Qed.

Lemma older_nonempty h : hm_ok h -> (0 < size (older h))%nat -> tab (older h) <> [].
Proof. intros Hok Hs E. apply (ok_null _ (ok_older _ Hok)) in E. lia. Qed.

(** While nodes remain, the migration cursor is inside the draining table: the
    guard against walking past its end never fires. *)
Lemma migrate_pos_in_range h :
  hm_ok h -> (0 < size (older h))%nat -> (migrate_pos h <= mask (older h))%nat.
Proof.
  intros Hok Hs. pose proof (older_nonempty _ Hok Hs) as Hne.
  destruct (decide (migrate_pos h <= mask (older h))%nat) as [|Hgt]; [done|exfalso].
  pose proof (ok_older _ Hok) as Ho. rewrite (ok_size _ Ho) in Hs.
  destruct (elements (older h)) as [|n l] eqn:E; [cbn in Hs; lia|].
  assert (Hn : n ∈ elements (older h)) by (rewrite E; left).
  destruct (elements_chain _ _ Ho Hn) as [_ Hc].
  pose proof (tab_ok_pos _ (hcode n) Ho Hne) as Hp. pose proof (chain_lookup _ _ Hp) as Hl.
  rewrite (ok_length _ Ho Hne) in Hp. apply (ok_drained _ Hok) in Hl; [|lia].
  rewrite Hl in Hc. by apply elem_of_nil in Hc.
Qed.

Lemma hm_ok_skip h :
  hm_ok h -> chain (older h) (migrate_pos h) = [] ->
  hm_ok {| newer := newer h; older := older h;
           migrate_pos := S (migrate_pos h); elem_bytes := elem_bytes h |}.
Proof.
  intros [H1 H2 H3 H4] He. split; cbn; [done..|]. intros i c Hi Hc.
  destruct (decide (i = migrate_pos h)) as [->|]; [|apply (H4 i); [lia|done]].
  unfold chain in He. by rewrite Hc in He.
Qed.

Lemma hm_ok_move h n l :
  hm_ok h -> chain (older h) (migrate_pos h) = n :: l ->
  let h' := {| newer := h_insert (newer h) n; older := (h_detach (older h) (migrate_pos h, O)).2;
               migrate_pos := migrate_pos h; elem_bytes := elem_bytes h |} in
  hm_ok h' /\ hm_elements h' ≡ₚ hm_elements h /\ size (older h) = S (size (older h')) /\
  mask (older h') = mask (older h).
Proof.
  intros [H1 H2 H3 H4] Hc h'.
  assert (Hd : h_deref (older h) (migrate_pos h, O) = Some n) by (unfold h_deref; cbn; by rewrite Hc).
  assert (Hne : tab (newer h) <> []).
  { intros E%H3. unfold chain in Hc. rewrite E in Hc. done. }
  destruct (h_detach_spec _ _ _ H2 Hd) as (_ & Ho & He & Hm & Hlen).
  destruct (h_insert_spec _ n H1 Hne) as (Hi & Hne' & Hei). split; [split; cbn; try done|split; [|split; [|done]]].
  - intros i c Hlt Hl. rewrite list_lookup_insert_ne in Hl by lia. by eapply H4.
  - unfold hm_elements, h'; cbn [newer older]. rewrite Hei, He. solve_Permutation.
  - rewrite (ok_size _ H2). apply Permutation_length in He. rewrite He. cbn [length older h'].
    by rewrite (ok_size _ Ho).
Qed.

Lemma help_loop_spec fuel w h :
  hm_ok h ->
  hm_ok (help_loop fuel w h) /\ hm_elements (help_loop fuel w h) ≡ₚ hm_elements h /\
  elem_bytes (help_loop fuel w h) = elem_bytes h.
Proof.
  revert w h. induction fuel as [|f IH]; intros w h Hok; [done|]. cbn [help_loop].
  case_match; [|done]. case_match; [done|]. case_match eqn:E.
  - by destruct (IH w _ (hm_ok_skip _ Hok E)) as (? & ? & ?).
  - destruct (hm_ok_move _ _ _ Hok E) as (Hok' & He & _).
    destruct (IH (S w) _ Hok') as (? & He' & ?). split; [done|]. by rewrite He'.
Qed.

(** The loop runs to its own exit within its fuel: it moves exactly the quota,
    or whatever is left. *)
Lemma help_loop_quota fuel w h :
  hm_ok h -> (w <= k_rehashing_work)%nat ->
  (k_rehashing_work - w + (mask (older h) + 1 - migrate_pos h) < fuel)%nat ->
  size (older (help_loop fuel w h)) = (size (older h) - (k_rehashing_work - w))%nat.
Proof.
  revert w h. induction fuel as [|f IH]; intros w h Hok Hw Hf; [lia|]. cbn [help_loop].
  destruct (_ && _) eqn:E; [|apply andb_false_iff in E as [E|E]; bool_facts; lia]. bool_facts.
  pose proof (migrate_pos_in_range _ Hok ltac:(done)) as Hmp.
  rewrite (proj2 (Nat.ltb_ge _ _)) by lia. case_match eqn:Ec.
  - rewrite IH; cbn [older migrate_pos]; [done|by apply hm_ok_skip|done|lia].
  - pose proof (hm_ok_move _ _ _ Hok Ec) as Hmv. cbv zeta in Hmv.
    destruct Hmv as (Hok' & _ & Hs & Hm).
    rewrite IH; [rewrite Hs; lia|done|lia|rewrite Hm; cbn [migrate_pos]; lia].
Qed.

Lemma hm_help_spec h :
  hm_ok h ->
  hm_ok (hm_help_rehashing h) /\ hm_elements (hm_help_rehashing h) ≡ₚ hm_elements h /\
  elem_bytes (hm_help_rehashing h) = elem_bytes h.
Proof.
  intros Hok. destruct (help_loop_spec (help_fuel h) 0 h Hok) as (H1 & H2 & H3).
  unfold hm_help_rehashing. revert H1 H2 H3. generalize (help_loop (help_fuel h) 0 h).
  intros h1 H1 H2 H3.
  case_match eqn:E; [|done]. bool_facts. split; [|split; [|done]].
  - destruct H1 as [Ha Hb Hc Hd]. split; cbn; auto using tab_ok_empty. intros i c _ Hl. done.
  - rewrite <- H2. unfold hm_elements; cbn.
    rewrite (size_0_elements (older h1)); [done|apply H1|done].
Qed.

(** ** The public operations on the multiset of nodes *)

Lemma hm_lookup_spec h kc eq r h' :
  hm_ok h -> hm_lookup h kc eq = (r, h') ->
  hm_ok h' /\ hm_elements h' ≡ₚ hm_elements h /\ elem_bytes h' = elem_bytes h /\
  match r with
  | Some a => exists n, n ∈ hm_elements h /\ item n = a /\ hcode n = kc /\ eq a = true
  | None => forall n, n ∈ hm_elements h -> hcode n = kc -> eq (item n) = false
  end.
Proof.
  intros Hok. destruct (hm_help_spec h Hok) as (H1 & H2 & H3). unfold hm_lookup.
  revert H1 H2 H3. generalize (hm_help_rehashing h). intros h1 H1 H2 H3.
  assert (Hfound : forall t from, h_lookup t kc eq = Some from ->
    (forall n, n ∈ elements t -> n ∈ hm_elements h1) ->
    exists n, item <$> h_deref t from = Some (item n) /\ n ∈ hm_elements h /\ hcode n = kc /\ eq (item n) = true).
  { intros t from (n & Hn & Hk & He)%h_lookup_Some Hin. exists n. rewrite Hn.
    split_and!; try done. rewrite <- H2. apply Hin.
    eapply elem_chain, list_elem_of_lookup_2, Hn. }
  unfold hm_elements in Hfound at 1. destruct (h_lookup (newer h1) kc eq) as [from|] eqn:E1.
  { intros [= <- <-]. destruct (Hfound _ _ E1) as (n & -> & Hn); [intros; apply elem_of_app; auto|].
    split_and!; try done. by exists n; destruct Hn as (? & ? & ?). }
  destruct (h_lookup (older h1) kc eq) as [from|] eqn:E2; intros [= <- <-].
  { destruct (Hfound _ _ E2) as (n & -> & Hn); [intros; apply elem_of_app; auto|].
    split_and!; try done. by exists n; destruct Hn as (? & ? & ?). }
  split_and!; try done. intros n Hn Hk. rewrite <- H2 in Hn.
  apply elem_of_app in Hn as [Hn|Hn];
    [apply (h_lookup_None (newer h1) kc)|apply (h_lookup_None (older h1) kc)];
    auto using ok_newer, ok_older.
Qed.

Lemma hm_ok_detach_newer h from n :
  hm_ok h -> h_deref (newer h) from = Some n ->
  let h' := {| newer := (h_detach (newer h) from).2; older := older h;
               migrate_pos := migrate_pos h; elem_bytes := elem_bytes h |} in
  hm_ok h' /\ hm_elements h ≡ₚ n :: hm_elements h'.
Proof.
  intros [H1 H2 H3 H4] Hn h'. destruct (h_detach_spec _ _ _ H1 Hn) as (_ & Ho & He & _ & Hlen).
  split.
  - split; try done. cbn. intros E. apply H3, nil_length_inv. by rewrite <- Hlen; cbn; rewrite E.
  - unfold hm_elements. cbn [newer older h']. by rewrite He.
Qed.

Lemma hm_ok_detach_older h from n :
  hm_ok h -> h_deref (older h) from = Some n ->
  let h' := {| newer := newer h; older := (h_detach (older h) from).2;
               migrate_pos := migrate_pos h; elem_bytes := elem_bytes h |} in
  hm_ok h' /\ hm_elements h ≡ₚ n :: hm_elements h'.
Proof.
  intros [H1 H2 H3 H4] Hn h'. destruct (h_detach_spec _ _ _ H2 Hn) as (_ & Ho & He & _ & Hlen).
  split.
  - split; try done; cbn.
    + intros E%H3. by rewrite E.
    + intros i c Hi Hl. apply list_lookup_insert_Some in Hl as [(<- & <- & _)|[_ Hl]]; [|by eapply H4].
      unfold h_deref in Hn. assert (chain (older h) from.1 = []) as ->; [|done].
      unfold chain. destruct (tab (older h) !! from.1) eqn:E; [|done]. by eapply H4.
  - unfold hm_elements. cbn [newer older h']. rewrite He. solve_Permutation.
Qed.

Lemma hm_delete_spec h kc eq r h' :
  hm_ok h -> hm_delete h kc eq = (r, h') ->
  hm_ok h' /\ elem_bytes h' = elem_bytes h /\
  match r with
  | Some a => exists n, hm_elements h ≡ₚ n :: hm_elements h' /\ item n = a /\ hcode n = kc /\ eq a = true
  | None => hm_elements h' ≡ₚ hm_elements h /\
            forall n, n ∈ hm_elements h -> hcode n = kc -> eq (item n) = false
  end.
Proof.
  intros Hok. destruct (hm_help_spec h Hok) as (H1 & H2 & H3). unfold hm_delete.
  revert H1 H2 H3. generalize (hm_help_rehashing h). intros h1 H1 H2 H3. destruct (h_lookup (newer h1) kc eq) as [from|] eqn:E1.
  { destruct (h_lookup_Some _ _ _ _ E1) as (n & Hn & Hk & He). cbn. intros [= <- <-].
    destruct (hm_ok_detach_newer _ _ _ H1 Hn) as [Hok' Hp]. split_and!; try done.
    rewrite Hn. exists n. by rewrite <- H2. }
  destruct (h_lookup (older h1) kc eq) as [from|] eqn:E2.
  { destruct (h_lookup_Some _ _ _ _ E2) as (n & Hn & Hk & He). cbn. intros [= <- <-].
    destruct (hm_ok_detach_older _ _ _ H1 Hn) as [Hok' Hp]. split_and!; try done.
    rewrite Hn. exists n. by rewrite <- H2. }
  intros [= <- <-]. split_and!; try done. intros n Hn Hk. rewrite <- H2 in Hn.
  apply elem_of_app in Hn as [Hn|Hn];
    [apply (h_lookup_None (newer h1) kc)|apply (h_lookup_None (older h1) kc)];
    auto using ok_newer, ok_older.
Qed.

Lemma hm_insert_spec h n :
  hm_ok h ->
  hm_ok (hm_insert h n) /\ hm_elements (hm_insert h n) ≡ₚ n :: hm_elements h /\
  elem_bytes (hm_insert h n) = elem_bytes h.
Proof.
  intros [H1 H2 H3 H4]. unfold hm_insert.
  set (n0 := if bool_decide (tab (newer h) = []) then h_init 4 else newer h).
  assert (Hn0 : tab_ok n0 /\ tab n0 <> [] /\ elements n0 = elements (newer h)).
  { unfold n0. case_bool_decide as E; [|done].
    destruct (h_init_ok 2 ltac:(lia)) as [Ha Hb]. split_and!; try done; try apply Ha.
    rewrite (elements_init 4). unfold elements. by rewrite E. }
  destruct Hn0 as (Ha & Hb & Hc). destruct (h_insert_spec n0 n Ha Hb) as (Hd & He & Hf).
  set (h1 := {| newer := h_insert n0 n; older := older h; migrate_pos := migrate_pos h;
                elem_bytes := elem_bytes h |}).
  assert (Hok1 : hm_ok h1) by (split; done).
  assert (Hel1 : hm_elements h1 ≡ₚ n :: hm_elements h).
  { unfold hm_elements, h1. cbn [newer older]. by rewrite Hf, Hc. }
  assert (Htrig : tab (older h1) = [] -> hm_ok (hm_trigger_rehashing h1) /\
    hm_elements (hm_trigger_rehashing h1) ≡ₚ hm_elements h1).
  { intros E. destruct (ok_pow2 _ Hd He) as (k & Hk & Hm).
    replace ((mask (newer h1) + 1) * 2)%nat with (2 ^ (S k))%nat by (cbn [h1 newer]; cbn; cbn in Hm; lia).
    unfold hm_trigger_rehashing.
    replace ((mask (newer h1) + 1) * 2)%nat with (2 ^ (S k))%nat by (cbn [h1 newer]; cbn; cbn in Hm; lia).
    destruct (h_init_ok (S k) ltac:(lia)) as [Hi Hne]. split.
    - split; cbn [newer older migrate_pos]; [done|done|by intros|lia].
    - unfold hm_elements. cbn [newer older]. rewrite elements_init. unfold elements at 3.
      rewrite E. cbn. by rewrite app_nil_r. }
  assert (Hfin : forall g, hm_ok g -> hm_elements g ≡ₚ hm_elements h1 -> elem_bytes g = elem_bytes h ->
    hm_ok (hm_help_rehashing g) /\ hm_elements (hm_help_rehashing g) ≡ₚ n :: hm_elements h /\
    elem_bytes (hm_help_rehashing g) = elem_bytes h).
  { intros g Hg Hge Hgb. destruct (hm_help_spec g Hg) as (? & Hp & Hq). split; [done|].
    by rewrite Hp, Hge, Hel1, Hq. }
  case_bool_decide as E; [case_match|]; apply Hfin; try done; by apply Htrig.
Qed.

Lemma hm_size_spec h : hm_ok h -> hm_size h = length (hm_elements h).
Proof.
  intros [H1 H2 _ _]. unfold hm_size, hm_elements.
  by rewrite length_app, (ok_size _ H1), (ok_size _ H2).
Qed.

Lemma h_foreach_spec t : tab_ok t -> h_foreach t = item <$> elements t.
Proof.
  intros Hok. unfold h_foreach, elements. case_match; bool_facts.
  - destruct (tab t) eqn:E; [done|]. destruct (ok_pow2 _ Hok) as (k & Hk & Hm); [by rewrite E|].
    destruct k; [lia|]. cbn in Hm. pose proof (Nat.pow_nonzero 2 k). lia.
  - destruct (tab t) eqn:E; [by rewrite take_nil|].
    rewrite <- E, <- (ok_length _ Hok) by (by rewrite E). by rewrite firstn_all.
Qed.

Lemma hm_foreach_spec h : hm_ok h -> hm_foreach h = item <$> hm_elements h.
Proof.
  intros [H1 H2 _ _]. unfold hm_foreach, hm_elements.
  by rewrite !h_foreach_spec, fmap_app.
Qed.

End Rehashing.

(** Progressive rehashing moves exactly its quota.  One call migrates 128
    nodes of the draining table, or all that are left if fewer; no node is
    lost or duplicated, the table stays well formed, and the cursor never
    walks past the draining table, so the loop's guard against that is never
    what ends it. *)
Theorem rehash_quota {A} (h : HMap A) (Hok : hm_ok h) :
  let h' := hm_help_rehashing h in
  hm_ok h' /\ hm_elements h' ≡ₚ hm_elements h /\
  size (older h') = (size (older h) - k_rehashing_work)%nat /\
  ((0 < size (older h))%nat -> (migrate_pos h <= mask (older h))%nat).
Proof.
  cbn zeta. destruct (hm_help_spec h Hok) as (H1 & H2 & _).
  split_and!; [done|done| |by apply migrate_pos_in_range].
  pose proof (help_loop_quota (help_fuel h) 0 h Hok ltac:(unfold k_rehashing_work; lia)
    ltac:(unfold help_fuel; lia)) as Hq.
  rewrite Nat.sub_0_r in Hq. rewrite <- Hq. unfold hm_help_rehashing.
  destruct ((size (older (help_loop (help_fuel h) 0 h)) =? 0)%nat) eqn:E; cbn [andb]; [|done].
  bool_facts. case_match; [|done]. by rewrite E.
Qed.

Lemma rehash_quota_witness :
  let h := hm_insert (@HMap_empty Z) (mkHNode 5 5) in
  let h' := hm_help_rehashing h in
  hm_ok h' /\ hm_elements h' ≡ₚ hm_elements h /\
  size (older h') = (size (older h) - k_rehashing_work)%nat /\
  ((0 < size (older h))%nat -> (migrate_pos h <= mask (older h))%nat).
Proof. apply (rehash_quota (hm_insert (@HMap_empty Z) (mkHNode 5 5))). apply hm_insert_spec, hm_ok_empty. Defined.
