(* ===== verification/HashMap.v ===== *)
(** * The hashtable as a finite map

    Every user of [HMap] (the keyspace, hashes, sets, the name index of sorted
    sets) stores at most one node per key, under [str_hash] of that key, and
    compares keys for equality.  [keyed kf h] is that discipline, for the key
    projection [kf]; under it the operations of Hashtable.v are lookup, insert,
    update and delete of a [gmap] from byte strings. *)
From S2P Require Import Prelude Hashtable.

Section Keyed.
Context {A : Type} (kf : A -> bytes).
Implicit Types (h : HMap A) (n : HNode A) (k : bytes).

(** The callback of a lookup for key [k]. *)
Definition key_eq (k : bytes) (a : A) : bool := bool_decide (kf a = k).

(** A node allocated for [a]. *)
Definition node_of (a : A) : HNode A := {| hcode := str_hash (kf a); item := a |}.

Record keyed (h : HMap A) : Prop := {
  keyed_ok : hm_ok h;
  keyed_hash : Forall (fun n => hcode n = str_hash (kf (item n))) (hm_elements h);
  keyed_nodup : NoDup ((fun n => kf (item n)) <$> hm_elements h);
}.

Definition to_map (h : HMap A) : gmap bytes A :=
  list_to_map ((fun n => (kf (item n), item n)) <$> hm_elements h).

Lemma keyed_perm h h' :
  keyed h -> hm_ok h' -> hm_elements h' ≡ₚ hm_elements h -> keyed h' /\ to_map h' = to_map h.
Proof.
  intros [H1 H2 H3] Hok Hp.
  assert (Hk : keyed h') by (split; [done|by rewrite Hp|by rewrite Hp]).
  split; [done|]. unfold to_map. apply list_to_map_proper; [|by rewrite Hp].
  rewrite <- list_fmap_compose. apply Hk.
Qed.

Lemma to_map_Some h k a :
  keyed h -> to_map h !! k = Some a <-> exists n, n ∈ hm_elements h /\ item n = a /\ kf a = k.
Proof.
  intros Hk. unfold to_map. rewrite <- elem_of_list_to_map.
  2:{ rewrite <- list_fmap_compose. apply Hk. }
  rewrite list_elem_of_fmap. split.
  - intros (n & [= -> ->] & Hn). by exists n.
  - intros (n & Hn & <- & <-). by exists n.
Qed.

Lemma to_map_None h k :
  keyed h -> to_map h !! k = None <-> forall n, n ∈ hm_elements h -> kf (item n) <> k.
Proof.
  intros Hk. rewrite eq_None_not_Some. split.
  - intros Hn n Hin E. apply Hn. exists (item n). apply to_map_Some; [done|]. by exists n.
  - intros Hn [a (n & Hin & <- & <-)%to_map_Some]; [|done]. by apply (Hn n).
Qed.

Lemma keyed_cons h h' n :
  keyed h -> hm_ok h' -> hm_elements h' ≡ₚ n :: hm_elements h ->
  hcode n = str_hash (kf (item n)) -> to_map h !! kf (item n) = None ->
  keyed h' /\ to_map h' = <[kf (item n) := item n]> (to_map h).
Proof.
  intros Hk Hok Hp Hc Hnone. pose proof Hk as [H1 H2 H3].
  assert (Hnew : NoDup ((fun m => kf (item m)) <$> n :: hm_elements h)).
  { rewrite fmap_cons. constructor; [|done]. intros (m & E & Hm)%list_elem_of_fmap.
    rewrite to_map_None in Hnone by done. by apply (Hnone m). }
  assert (Hk' : keyed h') by (split; [done|rewrite Hp; by constructor|by rewrite Hp]).
  split; [done|]. change (<[kf (item n) := item n]> (to_map h))
    with (list_to_map (M := gmap bytes A) ((fun m => (kf (item m), item m)) <$> n :: hm_elements h)).
  apply list_to_map_proper; [|by rewrite Hp]. rewrite <- list_fmap_compose. apply Hk'.
Qed.

Lemma keyed_uncons h h' n :
  keyed h -> hm_ok h' -> hm_elements h ≡ₚ n :: hm_elements h' ->
  keyed h' /\ to_map h !! kf (item n) = Some (item n) /\ to_map h' = delete (kf (item n)) (to_map h).
Proof.
  intros Hk Hok Hp. pose proof Hk as [H1 H2 H3].
  rewrite Hp in H2, H3. rewrite fmap_cons in H3. apply Forall_cons in H2 as [_ H2].
  apply NoDup_cons in H3 as [Hnin H3]. assert (Hk' : keyed h') by (split; done).
  assert (Hl : to_map h !! kf (item n) = Some (item n)).
  { apply to_map_Some; [done|]. exists n. rewrite Hp. split; [left|done]. }
  assert (Hnone : to_map h' !! kf (item n) = None).
  { apply to_map_None; [done|]. intros m Hm E. apply Hnin. rewrite <- E.
    apply list_elem_of_fmap. by exists m. }
  split; [done|]. split; [done|].
  destruct (keyed_cons h' h n) as [_ ->]; [done..| |done|by rewrite delete_insert_id].
  pose proof (keyed_hash _ Hk) as Hh. rewrite Hp in Hh. by apply Forall_cons in Hh as [? _].
Qed.

(** ** Refinement of the operations *)

Lemma keyed_empty : keyed HMap_empty /\ to_map HMap_empty = ∅.
Proof. split; [split; [apply hm_ok_empty|constructor|constructor]|done]. Qed.

(** The byte counter is apart from the table. *)
Lemma keyed_set_bytes h v : keyed h -> keyed (set_elem_bytes h v) /\ to_map (set_elem_bytes h v) = to_map h.
Proof. intros [[] H2 H3]. split; [|done]. by split. Qed.

Lemma hm_lookup_map h k r h' :
  keyed h -> hm_lookup h (str_hash k) (key_eq k) = (r, h') ->
  keyed h' /\ to_map h' = to_map h /\ elem_bytes h' = elem_bytes h /\ r = to_map h !! k.
Proof.
  intros Hk H. apply hm_lookup_spec in H as (Hok & Hp & Hb & Hr); [|apply Hk].
  destruct (keyed_perm _ _ Hk Hok Hp) as [Hk' Hm]. split_and!; try done.
  symmetry. destruct r as [a|].
  - destruct Hr as (n & Hn & <- & _ & He). unfold key_eq in He. bool_facts.
    apply to_map_Some; [done|]. by exists n.
  - apply to_map_None; [done|]. intros n Hn E. specialize (Hr n Hn).
    unfold key_eq in Hr. rewrite bool_decide_eq_true_2 in Hr by done.
    pose proof (keyed_hash _ Hk) as Hh. rewrite Forall_forall in Hh. rewrite (Hh n Hn), E in Hr.
    by specialize (Hr eq_refl).
Qed.

Lemma hm_insert_map h a :
  keyed h -> to_map h !! kf a = None ->
  keyed (hm_insert h (node_of a)) /\ to_map (hm_insert h (node_of a)) = <[kf a := a]> (to_map h) /\
  elem_bytes (hm_insert h (node_of a)) = elem_bytes h.
Proof.
  intros Hk Hn. destruct (hm_insert_spec h (node_of a)) as (Hok & Hp & Hb); [apply Hk|].
  destruct (keyed_cons _ _ _ Hk Hok Hp) as [? ?]; done.
Qed.

Lemma hm_delete_map h k r h' :
  keyed h -> hm_delete h (str_hash k) (key_eq k) = (r, h') ->
  keyed h' /\ to_map h' = delete k (to_map h) /\ elem_bytes h' = elem_bytes h /\ r = to_map h !! k.
Proof.
  intros Hk H. apply hm_delete_spec in H as (Hok & Hb & Hr); [|apply Hk]. destruct r as [a|].
  - destruct Hr as (n & Hp & <- & _ & He). unfold key_eq in He. bool_facts. subst k.
    destruct (keyed_uncons _ _ _ Hk Hok Hp) as (? & -> & ?). done.
  - destruct Hr as [Hp Hr]. destruct (keyed_perm _ _ Hk Hok Hp) as [Hk' Hm].
    assert (Hn : to_map h !! k = None).
    { apply to_map_None; [done|]. intros n Hn E. specialize (Hr n Hn). unfold key_eq in Hr.
      rewrite bool_decide_eq_true_2 in Hr by done.
      pose proof (keyed_hash _ Hk) as Hh. rewrite Forall_forall in Hh. rewrite (Hh n Hn), E in Hr.
      by specialize (Hr eq_refl). }
    rewrite Hn. split_and!; try done. rewrite Hm. by rewrite delete_id.
Qed.

Lemma hm_size_map h : keyed h -> hm_size h = base.size (to_map h).
Proof.
  intros Hk. rewrite hm_size_spec by apply Hk. unfold to_map.
  rewrite <- (length_fmap (fun n => (kf (item n), item n))).
  assert (Hnd : NoDup (((fun n => (kf (item n), item n)) <$> hm_elements h).*1))
    by (rewrite <- list_fmap_compose; apply Hk).
  rewrite <- (map_to_list_to_map _ Hnd) at 1. by rewrite length_map_to_list.
Qed.

Lemma hm_foreach_map h : keyed h -> hm_foreach h ≡ₚ (map_to_list (to_map h)).*2.
Proof.
  intros Hk. rewrite hm_foreach_spec by apply Hk. unfold to_map. rewrite map_to_list_to_map.
  - by rewrite <- list_fmap_compose.
  - rewrite <- list_fmap_compose. apply Hk.
Qed.

(** ** Writing through a found node *)

Lemma list_insert_perm {B} (l : list B) i x y :
  l !! i = Some x -> exists r, l ≡ₚ x :: r /\ <[i := y]> l ≡ₚ y :: r.
Proof.
  intros H. exists (take i l ++ drop (S i) l). split.
  - rewrite <- (take_drop_middle l i x H) at 1. solve_Permutation.
  - rewrite insert_take_drop by (by eapply lookup_lt_Some). solve_Permutation.
Qed.

Lemma h_write_spec (t : HTab A) from n a :
  tab_ok t -> h_deref t from = Some n ->
  tab_ok (h_write t from a) /\ (tab (h_write t from a) = [] <-> tab t = []) /\
  exists r, elements t ≡ₚ n :: r /\
            elements (h_write t from a) ≡ₚ {| hcode := hcode n; item := a |} :: r.
Proof.
  intros Hok Hn. unfold h_write. rewrite Hn. unfold h_deref in Hn. destruct from as [pos i]; cbn in *.
  assert (Hpos : (pos < length (tab t))%nat) by (eapply tab_ok_nonempty_pos; by rewrite Hn).
  destruct (list_insert_perm _ _ _ {| hcode := hcode n; item := a |} Hn) as (r & Hr1 & Hr2).
  destruct (concat_insert (tab t) pos (chain t pos) (<[i := {| hcode := hcode n; item := a |}]> (chain t pos)))
    as (r' & Hr3 & Hr4); [by apply chain_lookup|]. split; [|split].
  - apply tab_ok_update; [done..| |by rewrite length_insert]. pose proof (chain_bucket t pos Hok) as Hb.
    rewrite Hr1 in Hb. apply Forall_cons in Hb as [Hb1 Hb2]. rewrite Hr2. by constructor.
  - split; intros E; [apply nil_length_inv; apply (f_equal length) in E; by rewrite length_insert in E|].
    by rewrite E.
  - exists (r ++ r'). unfold elements. cbn. split; [by rewrite Hr3, Hr1|by rewrite Hr4, Hr2].
Qed.

Lemma hm_write_spec h kc eq a :
  hm_ok h -> (exists n, n ∈ hm_elements h /\ hcode n = kc /\ eq (item n) = true) ->
  let h' := hm_write h kc eq a in
  hm_ok h' /\ elem_bytes h' = elem_bytes h /\
  exists n r, hm_elements h ≡ₚ n :: r /\ hcode n = kc /\ eq (item n) = true /\
              hm_elements h' ≡ₚ {| hcode := kc; item := a |} :: r.
Proof.
  intros Hok (m & Hm & Hmk & Hme) h'. pose proof Hok as [H1 H2 H3 H4]. unfold h', hm_write.
  destruct (h_lookup (newer h) kc eq) as [from|] eqn:E1.
  { destruct (h_lookup_Some _ _ _ _ E1) as (n & Hn & <- & He).
    destruct (h_write_spec _ _ _ a H1 Hn) as (Hw & Hnil & r & Hr1 & Hr2).
    split; [split; try done; cbn; rewrite Hnil; done|]. split; [done|].
    exists n, (r ++ elements (older h)). unfold hm_elements; cbn [newer older].
    rewrite Hr1, Hr2. by split_and!. }
  destruct (h_lookup (older h) kc eq) as [from|] eqn:E2.
  { destruct (h_lookup_Some _ _ _ _ E2) as (n & Hn & <- & He).
    destruct (h_write_spec _ _ _ a H2 Hn) as (Hw & Hnil & r & Hr1 & Hr2). split; [split; try done; cbn|].
    - intros E. by apply Hnil, H3.
    - intros i c Hi Hl. unfold h_write in Hl. rewrite Hn in Hl. cbn in Hl.
      apply list_lookup_insert_Some in Hl as [(<- & <- & _)|[_ Hl]]; [|by eapply H4].
      exfalso. unfold h_deref, chain in Hn. destruct (tab (older h) !! from.1) eqn:E; [|done].
      apply H4 in E; [|done]. by subst.
    - split; [done|]. exists n, (elements (newer h) ++ r). unfold hm_elements; cbn [newer older].
      rewrite Hr1, Hr2. split_and!; try done; solve_Permutation. }
  exfalso. apply elem_of_app in Hm as [Hm|Hm];
    [eapply h_lookup_None in E1 | eapply h_lookup_None in E2]; eauto; congruence.
Qed.

Lemma hm_write_map h k a a' :
  keyed h -> to_map h !! k = Some a -> kf a' = k ->
  keyed (hm_write h (str_hash k) (key_eq k) a') /\
  to_map (hm_write h (str_hash k) (key_eq k) a') = <[k := a']> (to_map h) /\
  elem_bytes (hm_write h (str_hash k) (key_eq k) a') = elem_bytes h.
Proof.
  intros Hk (n0 & Hn0 & <- & Hk0)%to_map_Some Ha'; [|done]. pose proof Hk as [H1 H2 H3].
  destruct (hm_write_spec h (str_hash k) (key_eq k) a' H1) as (Hok & Hb & n & r & Hp & Hc & He & Hp').
  { exists n0. split; [done|]. unfold key_eq. rewrite bool_decide_eq_true_2 by done.
    rewrite Forall_forall in H2. by rewrite (H2 n0 Hn0), Hk0. }
  revert Hok Hb Hp'. generalize (hm_write h (str_hash k) (key_eq k) a'). intros h' Hok Hb Hp'.
  unfold key_eq in He. bool_facts. rewrite Hp in H2, H3. apply Forall_cons in H2 as [_ H2].
  assert (Hnd : NoDup ((fun m => kf (item m)) <$> {| hcode := str_hash k; item := a' |} :: r)).
  { rewrite fmap_cons in *. cbn. by rewrite Ha', <- He. }
  assert (Hk' : keyed h').
  { split; [done| |by rewrite Hp']. rewrite Hp'. constructor; [by cbn; rewrite Ha'|done]. }
  split; [done|]. split; [|done].
  assert (Hl : forall g m, keyed g -> hm_elements g ≡ₚ m :: r -> kf (item m) = k ->
    to_map g = <[k := item m]> (list_to_map ((fun m => (kf (item m), item m)) <$> r))).
  { intros g m Hg Hgp <-. unfold to_map.
    transitivity (list_to_map (M := gmap bytes A) ((fun m => (kf (item m), item m)) <$> m :: r)); [|done].
    apply list_to_map_proper; [|by rewrite Hgp]. rewrite <- list_fmap_compose. apply Hg. }
  rewrite (Hl h' _ Hk' Hp' Ha'), (Hl h n Hk Hp He). cbn. by rewrite insert_insert_eq.
Qed.

(** ** The dictionary as a finite map *)

(** How the program uses a dictionary: find, find-or-add, find-and-write
    through the node found (or add when there is none), remove. *)
Inductive MapOp := MFind (k : bytes) | MAdd (a : A) | MPut (a : A) | MDrop (k : bytes).

Definition hm_op (h : HMap A) (o : MapOp) : option A * HMap A :=
  match o with
  | MFind k => hm_lookup h (str_hash k) (key_eq k)
  | MAdd a =>
      let '(r, h1) := hm_lookup h (str_hash (kf a)) (key_eq (kf a)) in
      (r, match r with None => hm_insert h1 (node_of a) | Some _ => h1 end)
  | MPut a =>
      let '(r, h1) := hm_lookup h (str_hash (kf a)) (key_eq (kf a)) in
      (r, match r with
          | None => hm_insert h1 (node_of a)
          | Some _ => hm_write h1 (str_hash (kf a)) (key_eq (kf a)) a
          end)
  | MDrop k => hm_delete h (str_hash k) (key_eq k)
  end.

Definition map_op (m : gmap bytes A) (o : MapOp) : option A * gmap bytes A :=
  match o with
  | MFind k => (m !! k, m)
  | MAdd a => (m !! kf a, match m !! kf a with None => <[kf a := a]> m | Some _ => m end)
  | MPut a => (m !! kf a, <[kf a := a]> m)
  | MDrop k => (m !! k, delete k m)
  end.

Lemma hm_op_refines h o :
  keyed h ->
  keyed (hm_op h o).2 /\ (hm_op h o).1 = (map_op (to_map h) o).1 /\
  to_map (hm_op h o).2 = (map_op (to_map h) o).2.
Proof.
  intros Hk. destruct o as [k|a|a|k]; cbn.
  - destruct (hm_lookup h _ _) as [r h1] eqn:E. by destruct (hm_lookup_map _ _ _ _ Hk E) as (? & ? & _ & ?).
  - destruct (hm_lookup h _ _) as [r h1] eqn:E. destruct (hm_lookup_map _ _ _ _ Hk E) as (H1 & H2 & _ & ->).
    cbn. destruct (to_map h !! kf a) eqn:Ea; [done|].
    destruct (hm_insert_map h1 a H1) as (H3 & H4 & _); [by rewrite H2|]. by rewrite H4, H2.
  - destruct (hm_lookup h _ _) as [r h1] eqn:E. destruct (hm_lookup_map _ _ _ _ Hk E) as (H1 & H2 & _ & ->).
    cbn. destruct (to_map h !! kf a) as [b|] eqn:Ea.
    + destruct (hm_write_map h1 (kf a) b a H1) as (H3 & H4 & _); [by rewrite H2|done|]. by rewrite H4, H2.
    + destruct (hm_insert_map h1 a H1) as (H3 & H4 & _); [by rewrite H2|]. by rewrite H4, H2.
  - destruct (hm_delete h _ _) as [r h1] eqn:E. by destruct (hm_delete_map _ _ _ _ Hk E) as (? & ? & _ & ?).
Qed.

Lemma run_ops_refines ops h :
  keyed h ->
  keyed (run_ops hm_op h ops).2 /\ (run_ops hm_op h ops).1 = (run_ops map_op (to_map h) ops).1 /\
  to_map (run_ops hm_op h ops).2 = (run_ops map_op (to_map h) ops).2.
Proof.
  revert h. induction ops as [|o ops IH]; intros h Hk; [done|]. cbn [run_ops].
  destruct (hm_op_refines h o Hk) as (H1 & H2 & H3).
  destruct (hm_op h o) as [r h1], (map_op (to_map h) o) as [r' m1]. cbn [fst snd] in *. subst r' m1.
  destruct (IH h1 H1) as (I1 & I2 & I3).
  destruct (run_ops hm_op h1 ops), (run_ops map_op (to_map h1) ops). cbn [fst snd] in *. by subst.
Qed.

(** C1: The chained hashtable with progressive rehashing implements a finite
    map.  Any sequence of lookups, find-or-insert, writes through a found node
    (inserting when there is none) and deletions run on an empty table gives the same answers as on an abstract map and ends in a
    table holding exactly that map: its size counter is the number of keys
    and iteration visits every stored value once. *)
Theorem hashtable_refines_map (ops : list MapOp) :
  let '(rs, h) := run_ops hm_op HMap_empty ops in
  let '(rs', m) := run_ops map_op ∅ ops in
  rs = rs' /\ to_map h = m /\ hm_size h = base.size m /\ hm_foreach h ≡ₚ (map_to_list m).*2.
Proof.
  destruct keyed_empty as [Hk Hm]. destruct (run_ops_refines ops HMap_empty Hk) as (H1 & H2 & H3).
  rewrite Hm in *. destruct (run_ops hm_op HMap_empty ops) as [rs h], (run_ops map_op ∅ ops) as [rs' m].
  cbn [fst snd] in *. subst rs' m. split_and!; [done|done|by apply hm_size_map|by apply hm_foreach_map].
Qed.

End Keyed.

Arguments keyed_ok {A kf h}.

(** Clients reason with the lemmas above. *)
#[global] Opaque str_hash hm_insert hm_write hm_lookup hm_delete.
