(* ===== verification/Scan.v ===== *)
(** * Cursor iteration over the hashtable ([hm_scan], src/src/ds/hashtable.cpp)

    The cursor counts with its bits reversed.  Read through [rev_bits], one
    loop turn advances the position to the next multiple of 2^(64-k), k the
    width of the larger table, and emits every node whose reversed code lies in
    between, in both tables.  Positions do not depend on the table size, so a
    scan that is interrupted by resizes still returns every node that stays. *)
From S2P Require Import Prelude Hashtable.

(** ** Bit reversal *)

Lemma bits_lt_pow2 x n :
  0 <= n -> 0 <= x -> (forall i, n <= i -> Z.testbit x i = false) -> x < 2 ^ n.
Proof.
  intros Hn Hx H. replace x with (x mod 2 ^ n); [apply Z.mod_pos_bound; lia|].
  apply Z.bits_inj'. intros i Hi. destruct (Z.lt_ge_cases i n).
  - by apply Z.mod_pow2_bits_low.
  - rewrite Z.mod_pow2_bits_high by lia. symmetry. auto.
Qed.

Lemma testbit_high x i : 0 <= x < 2 ^ 64 -> 64 <= i -> Z.testbit x i = false.
Proof.
  intros Hx Hi. rewrite <- (Z.mod_small x (2 ^ 64)) by done. apply Z.mod_pow2_bits_high. lia.
Qed.

(** The mask [m] selects, in every pair of [s]-bit groups, the lower one. *)
Definition swap_mask_ok (s m : Z) : bool :=
  forallb (fun j => let i := Z.of_nat j in
    if Z.testbit m i then (Z.lxor i s =? i + s) && negb (Z.testbit m (i - s))
    else (s <=? i) && Z.testbit m (i - s) && (Z.lxor i s =? i - s)) (seq 0 64).

Lemma swap_bits_testbit s m v i :
  0 <= s -> 0 <= m < 2 ^ 64 -> swap_mask_ok s m = true -> 0 <= i < 64 ->
  Z.testbit (swap_bits s m v) i = Z.testbit v (Z.lxor i s).
Proof.
  intros Hs Hm Hok Hi. unfold swap_mask_ok in Hok. rewrite forallb_forall in Hok.
  specialize (Hok (Z.to_nat i)). cbv zeta in Hok. rewrite Z2Nat.id in Hok by lia.
  unfold swap_bits, u64. rewrite Z.lor_spec, Z.land_spec, Z.shiftr_spec by lia.
  rewrite Z.mod_pow2_bits_low, Z.shiftl_spec, Z.land_spec by lia.
  assert (Hin : In (Z.to_nat i) (seq 0 64)) by (apply in_seq; lia). apply Hok in Hin.
  destruct (Z.testbit m i); bool_facts.
  - by rewrite H, H0, andb_true_r, andb_false_r, orb_false_r.
  - by rewrite H0, H1, andb_false_r, andb_true_r.
Qed.

Lemma swap_bits_range s m v : 0 <= s -> 0 <= m < 2 ^ 64 -> 0 <= v -> 0 <= swap_bits s m v < 2 ^ 64.
Proof.
  intros Hs Hm Hv. assert (H0 : 0 <= swap_bits s m v).
  { apply Z.lor_nonneg. split; [apply Z.land_nonneg; right; lia|apply u64_range]. }
  split; [done|]. apply bits_lt_pow2; [lia|done|]. intros i Hi. unfold swap_bits, u64.
  rewrite Z.lor_spec, Z.land_spec, (testbit_high m) by lia.
  by rewrite Z.mod_pow2_bits_high, andb_false_r by lia.
Qed.

Lemma half_swap_testbit v i :
  0 <= v < 2 ^ 64 -> 0 <= i < 64 ->
  Z.testbit (Z.lor (Z.shiftr v 32) (u64 (Z.shiftl v 32))) i = Z.testbit v (Z.lxor i 32).
Proof.
  intros Hv Hi. assert (Hx : Z.lxor i 32 = if i <? 32 then i + 32 else i - 32).
  { assert (Hall : forallb (fun j => let i := Z.of_nat j in
      Z.lxor i 32 =? if i <? 32 then i + 32 else i - 32) (seq 0 64) = true) by done.
    rewrite forallb_forall in Hall. specialize (Hall (Z.to_nat i)). cbv zeta in Hall.
    rewrite Z2Nat.id in Hall by lia. apply Z.eqb_eq, Hall, in_seq. lia. }
  unfold u64. rewrite Z.lor_spec, Z.shiftr_spec, Z.mod_pow2_bits_low, Z.shiftl_spec by lia.
  rewrite Hx. case_match; bool_facts.
  - by rewrite (Z.testbit_neg_r v (i - 32)), orb_false_r by lia.
  - by rewrite (testbit_high v (i + 32)) by lia.
Qed.

Lemma lxor_mirror i :
  0 <= i < 64 ->
  Z.lxor (Z.lxor (Z.lxor (Z.lxor (Z.lxor (Z.lxor i 32) 16) 8) 4) 2) 1 = 63 - i /\
  Forall (fun x => 0 <= x < 64)
    [Z.lxor i 32; Z.lxor (Z.lxor i 32) 16; Z.lxor (Z.lxor (Z.lxor i 32) 16) 8;
     Z.lxor (Z.lxor (Z.lxor (Z.lxor i 32) 16) 8) 4;
     Z.lxor (Z.lxor (Z.lxor (Z.lxor (Z.lxor i 32) 16) 8) 4) 2].
Proof.
  intros Hi.
  assert (H : forall j : nat, (j < 64)%nat -> let i := Z.of_nat j in
    Z.lxor (Z.lxor (Z.lxor (Z.lxor (Z.lxor (Z.lxor i 32) 16) 8) 4) 2) 1 = 63 - i /\
    Forall (fun x => 0 <= x < 64)
    [Z.lxor i 32; Z.lxor (Z.lxor i 32) 16; Z.lxor (Z.lxor (Z.lxor i 32) 16) 8;
     Z.lxor (Z.lxor (Z.lxor (Z.lxor i 32) 16) 8) 4;
     Z.lxor (Z.lxor (Z.lxor (Z.lxor (Z.lxor i 32) 16) 8) 4) 2]).
  { intros j Hj. do 64 (destruct j as [|j]; [vm_compute; repeat constructor; discriminate|]). lia. }
  specialize (H (Z.to_nat i) ltac:(lia)). cbv zeta in H. by rewrite Z2Nat.id in H by lia.
Qed.

Lemma rev_bits_testbit v i :
  0 <= v < 2 ^ 64 -> 0 <= i < 64 -> Z.testbit (rev_bits v) i = Z.testbit v (63 - i).
Proof.
  intros Hv Hi. destruct (lxor_mirror i Hi) as [Hm Hr].
  repeat match type of Hr with Forall _ (_ :: _) => apply Forall_cons in Hr as [? Hr] end.
  unfold rev_bits. cbv zeta. rewrite half_swap_testbit; [|by repeat apply swap_bits_range; lia|done].
  rewrite !swap_bits_testbit by (done || lia). by rewrite Hm.
Qed.

Lemma rev_bits_range v : 0 <= v < 2 ^ 64 -> 0 <= rev_bits v < 2 ^ 64.
Proof.
  intros Hv. unfold rev_bits. cbv zeta.
  set (w := swap_bits 16 _ _). assert (Hw : 0 <= w < 2 ^ 64) by (by repeat apply swap_bits_range; lia).
  assert (H0 : 0 <= Z.lor (Z.shiftr w 32) (u64 (Z.shiftl w 32))).
  { apply Z.lor_nonneg. split; [apply Z.shiftr_nonneg; lia|apply u64_range]. }
  split; [done|]. apply bits_lt_pow2; [lia|done|]. intros i Hi. unfold u64.
  rewrite Z.lor_spec, Z.shiftr_spec, (testbit_high w), Z.mod_pow2_bits_high by lia. done.
Qed.

Lemma bits64_inj v w :
  0 <= v < 2 ^ 64 -> 0 <= w < 2 ^ 64 ->
  (forall i, 0 <= i < 64 -> Z.testbit v i = Z.testbit w i) -> v = w.
Proof.
  intros Hv Hw H. apply Z.bits_inj'. intros i Hi. destruct (Z.lt_ge_cases i 64).
  - apply H. lia.
  - by rewrite !testbit_high by lia.
Qed.

Lemma rev_bits_involutive v : 0 <= v < 2 ^ 64 -> rev_bits (rev_bits v) = v.
Proof.
  intros Hv. pose proof (rev_bits_range v Hv) as Hr.
  apply bits64_inj; [by apply rev_bits_range|done|]. intros i Hi.
  rewrite rev_bits_testbit, rev_bits_testbit by lia. f_equal. lia.
Qed.

Lemma rev_bits_inj v w :
  0 <= v < 2 ^ 64 -> 0 <= w < 2 ^ 64 -> rev_bits v = rev_bits w -> v = w.
Proof. intros Hv Hw E. rewrite <- (rev_bits_involutive v), E by done. by apply rev_bits_involutive. Qed.

(** ** The cursor as a position *)

(** The unit of position for a table of [2^k] buckets. *)
Definition stride (k : nat) : Z := 2 ^ (64 - Z.of_nat k).

Definition width (mask k : nat) : Prop := S mask = (2 ^ k)%nat /\ (k <= 63)%nat.

Lemma width_ones mask k : width mask k -> Z.of_nat mask = Z.ones (Z.of_nat k).
Proof.
  intros [H _]. rewrite Z.ones_equiv. apply (f_equal Z.of_nat) in H.
  rewrite Nat2Z.inj_pow in H. change (Z.of_nat 2) with 2 in H. lia.
Qed.

Lemma stride_pos k : (k <= 63)%nat -> 0 < stride k /\ stride k * 2 ^ Z.of_nat k = 2 ^ 64.
Proof.
  intros Hk. unfold stride. split; [apply Z.pow_pos_nonneg; lia|].
  rewrite <- Z.pow_add_r by lia. f_equal. lia.
Qed.

Lemma not64_range m : 0 <= m < 2 ^ 64 -> 0 <= not64 m < 2 ^ 64.
Proof.
  intros Hm. unfold not64, UINT64_MAX. assert (H0 : 0 <= Z.lxor m (2 ^ 64 - 1)) by (apply Z.lxor_nonneg; lia).
  split; [done|]. apply bits_lt_pow2; [lia|done|]. intros i Hi.
  rewrite Z.lxor_spec, (testbit_high m), (testbit_high (2 ^ 64 - 1)) by lia. done.
Qed.

Lemma mask_range mask k : width mask k -> 0 <= Z.of_nat mask < 2 ^ 64.
Proof.
  intros Hw. rewrite (width_ones _ _ Hw), Z.ones_equiv. destruct Hw as [_ Hk].
  pose proof (Z.pow_pos_nonneg 2 (Z.of_nat k)).
  assert (2 ^ Z.of_nat k <= 2 ^ 63) by (apply Z.pow_le_mono_r; lia). lia.
Qed.

Lemma not64_testbit m i : 0 <= i < 64 -> Z.testbit (not64 m) i = negb (Z.testbit m i).
Proof.
  intros Hi. unfold not64, UINT64_MAX. rewrite Z.lxor_spec.
  change (2 ^ 64 - 1) with (Z.ones 64). rewrite Z.ones_spec_low by lia. by destruct (Z.testbit m i).
Qed.

Lemma lor_not_range mask k c :
  width mask k -> 0 <= c < 2 ^ 64 -> 0 <= Z.lor c (not64 (Z.of_nat mask)) < 2 ^ 64.
Proof.
  intros Hw Hc. pose proof (not64_range _ (mask_range _ _ Hw)) as Hn.
  assert (H0 : 0 <= Z.lor c (not64 (Z.of_nat mask))) by (apply Z.lor_nonneg; lia).
  split; [done|]. apply bits_lt_pow2; [lia|done|]. intros i Hi.
  by rewrite Z.lor_spec, !testbit_high by lia.
Qed.

(** Setting the bits above the mask is, in position, filling up the stride. *)
Lemma rev_lor_not mask k c :
  width mask k -> 0 <= c < 2 ^ 64 ->
  rev_bits (Z.lor c (not64 (Z.of_nat mask))) = rev_bits c / stride k * stride k + (stride k - 1).
Proof.
  intros Hw Hc. pose proof (lor_not_range _ _ _ Hw Hc) as Hl. pose proof (rev_bits_range _ Hl) as Hx.
  pose proof (rev_bits_range _ Hc) as Hrc. destruct (stride_pos k (proj2 Hw)) as [Hs _].
  pose proof (width_ones _ _ Hw) as Hm. destruct Hw as [_ Hk].
  set (x := rev_bits (Z.lor c (not64 (Z.of_nat mask)))) in *.
  assert (Hbit : forall i, 0 <= i < 64 ->
    Z.testbit x i = if i <? 64 - Z.of_nat k then true else Z.testbit (rev_bits c) i).
  { intros i Hi. unfold x. rewrite rev_bits_testbit, Z.lor_spec, not64_testbit, Hm by lia.
    case_match; bool_facts.
    - rewrite Z.ones_spec_high by lia. by rewrite orb_true_r.
    - rewrite Z.ones_spec_low, orb_false_r by lia. by rewrite rev_bits_testbit. }
  rewrite (Z.div_mod x (stride k)) by lia. rewrite (Z.mul_comm (stride k)). f_equal.
  - f_equal. unfold stride. rewrite <- !Z.shiftr_div_pow2 by lia. apply Z.bits_inj'. intros i Hi.
    rewrite !Z.shiftr_spec by lia. destruct (Z.lt_ge_cases (i + (64 - Z.of_nat k)) 64).
    + rewrite Hbit by lia. by rewrite (proj2 (Z.ltb_ge _ _)) by lia.
    + by rewrite !testbit_high by lia.
  - unfold stride. replace (2 ^ (64 - Z.of_nat k) - 1) with (Z.ones (64 - Z.of_nat k))
      by (rewrite Z.ones_equiv; lia). apply Z.bits_inj'. intros i Hi.
    destruct (Z.lt_ge_cases i (64 - Z.of_nat k)).
    + rewrite Z.mod_pow2_bits_low, Z.ones_spec_low, Hbit by lia. by rewrite (proj2 (Z.ltb_lt _ _)) by lia.
    + rewrite Z.mod_pow2_bits_high, Z.ones_spec_high by lia. done.
Qed.

Lemma next_cursor_range mask c : 0 <= next_cursor mask c < 2 ^ 64.
Proof. apply rev_bits_range, u64_range. Qed.

Lemma next_cursor_position mask k c :
  width mask k -> 0 <= c < 2 ^ 64 ->
  rev_bits (next_cursor mask c) = ((rev_bits c / stride k + 1) * stride k) mod 2 ^ 64.
Proof.
  intros Hw Hc. unfold next_cursor. cbv zeta. rewrite rev_bits_involutive by apply u64_range.
  rewrite (rev_lor_not _ k) by done. unfold u64. f_equal. lia.
Qed.

Lemma rev_bits_0 : rev_bits 0 = 0.
Proof. done. Qed.

(** One turn either ends the iteration or advances to the next stride. *)
Lemma next_cursor_cases mask k c :
  width mask k -> 0 <= c < 2 ^ 64 ->
  (next_cursor mask c = 0 /\ rev_bits c / stride k = 2 ^ Z.of_nat k - 1) \/
  (next_cursor mask c <> 0 /\
   rev_bits (next_cursor mask c) = (rev_bits c / stride k + 1) * stride k).
Proof.
  intros Hw Hc. pose proof (next_cursor_position _ _ _ Hw Hc) as Hp.
  pose proof (next_cursor_range mask c) as Hr. pose proof (rev_bits_range _ Hc) as Hrc.
  destruct (stride_pos k (proj2 Hw)) as [Hs Hsk].
  assert (Hd : 0 <= rev_bits c / stride k <= 2 ^ Z.of_nat k - 1).
  { split; [apply Z.div_pos; lia|].
    assert (rev_bits c / stride k < 2 ^ Z.of_nat k) by (apply Z.div_lt_upper_bound; lia). lia. }
  destruct (Z.eq_dec (rev_bits c / stride k) (2 ^ Z.of_nat k - 1)) as [E|E].
  - left. split; [|done]. apply rev_bits_inj; [done|lia|]. rewrite Hp, E, rev_bits_0.
    replace ((2 ^ Z.of_nat k - 1 + 1) * stride k) with (2 ^ 64) by lia. by apply Z.mod_same.
  - right. rewrite Z.mod_small in Hp by nia. split; [|done].
    intros E0. rewrite E0, rev_bits_0 in Hp. nia.
Qed.

(** ** Which nodes one turn emits *)

Lemma same_bucket mask k c hc :
  width mask k -> 0 <= c < 2 ^ 64 -> 0 <= hc < 2 ^ 64 ->
  rev_bits hc / stride k = rev_bits c / stride k -> h_pos mask hc = h_pos mask c.
Proof.
  intros Hw Hc Hh E. unfold h_pos. f_equal. rewrite (width_ones _ _ Hw). destruct Hw as [_ Hk].
  apply Z.bits_inj'. intros i Hi. rewrite !Z.land_spec.
  destruct (Z.lt_ge_cases i (Z.of_nat k)); [|by rewrite Z.ones_spec_high, !andb_false_r by lia].
  f_equal. unfold stride in E. rewrite <- !Z.shiftr_div_pow2 in E by lia.
  apply (f_equal (fun x => Z.testbit x (63 - i - (64 - Z.of_nat k)))) in E.
  rewrite !Z.shiftr_spec in E by lia.
  replace (63 - i - (64 - Z.of_nat k) + (64 - Z.of_nat k)) with (63 - i) in E by lia.
  rewrite !rev_bits_testbit in E by lia. by replace (63 - (63 - i)) with i in E by lia.
Qed.

Lemma coarser_stride j k x y :
  (j <= k)%nat -> (k <= 63)%nat -> x / stride k = y / stride k -> x / stride j = y / stride j.
Proof.
  intros Hjk Hk E. destruct (stride_pos k Hk) as [Hs _].
  assert (Hd : stride j = stride k * 2 ^ (Z.of_nat k - Z.of_nat j)).
  { unfold stride. rewrite <- Z.pow_add_r by lia. f_equal. lia. }
  pose proof (Z.pow_pos_nonneg 2 (Z.of_nat k - Z.of_nat j)).
  rewrite Hd, <- !Z.div_div by lia. by rewrite E.
Qed.

(** The cursor after a turn is a bucket number of the larger table. *)
Lemma next_cursor_small mask k c :
  width mask k -> 0 <= c < 2 ^ 64 -> next_cursor mask c < 2 ^ Z.of_nat k.
Proof.
  intros Hw Hc. pose proof (next_cursor_range mask c) as Hr. pose proof Hw as [_ Hk].
  destruct (stride_pos k Hk) as [Hs Hsk].
  pose proof (next_cursor_position mask k c Hw Hc) as Hp.
  rewrite <- Hsk, (Z.mul_comm (stride k)), Z.mul_mod_distr_r in Hp by lia.
  set (m := (rev_bits c / stride k + 1) mod 2 ^ Z.of_nat k) in Hp.
  assert (Hrm : 0 <= m * stride k < 2 ^ 64) by (rewrite <- Hp; by apply rev_bits_range).
  rewrite <- (rev_bits_involutive (next_cursor mask c)), Hp by done.
  pose proof (rev_bits_range _ Hrm) as Hrr. apply bits_lt_pow2; [lia|lia|]. intros i Hi.
  destruct (Z.lt_ge_cases i 64) as [Hi64|Hi64]; [|by apply testbit_high].
  rewrite rev_bits_testbit by lia. unfold stride. apply Z.mul_pow2_bits_low. lia.
Qed.

#[local] Opaque rev_bits next_cursor stride.

Section Coverage.
Context {A : Type}.
Implicit Types (h : HMap A).

(** A scannable table: well formed, with at most 2^63 buckets. *)
Definition scan_ok (h : HMap A) : Prop :=
  hm_ok h /\ (Z.of_nat (mask (newer h)) < 2 ^ 63) /\ (Z.of_nat (mask (older h)) < 2 ^ 63).

Lemma tab_width (t : HTab A) :
  tab_ok t -> tab t <> [] -> Z.of_nat (mask t) < 2 ^ 63 -> exists k, width (mask t) k.
Proof.
  intros Hok Hne Hm. destruct (ok_pow2 _ Hok Hne) as (k & _ & Hk). exists k. split; [done|].
  apply (f_equal Z.of_nat) in Hk. rewrite Nat2Z.inj_pow in Hk. change (Z.of_nat 2) with 2 in Hk.
  destruct (le_lt_dec k 63) as [|Hgt]; [done|].
  assert (2 ^ 64 <= 2 ^ Z.of_nat k) by (apply Z.pow_le_mono_r; lia). lia.
Qed.

(** The larger mask drives the cursor; every live table is at most as wide. *)
Lemma scan_mbig_width h :
  scan_ok h -> tab (newer h) <> [] ->
  exists k, width (scan_mbig h) k /\
    forall t, t = newer h \/ (t = older h /\ tab t <> []) -> exists j, width (mask t) j /\ (j <= k)%nat.
Proof.
  intros (Hok & Hn & Ho) Hne. destruct (tab_width _ (ok_newer _ Hok) Hne Hn) as [kn Hkn].
  assert (Hmono : forall m1 k1 m2 k2, width m1 k1 -> width m2 k2 -> (m1 <= m2)%nat -> (k1 <= k2)%nat).
  { intros m1 k1 m2 k2 [H1 _] [H2 _] Hle. apply (Nat.pow_le_mono_r_iff 2); lia. }
  unfold scan_mbig. case_bool_decide as Eo; cbn [negb andb].
  - exists kn. split; [done|]. intros t [->|[-> ?]]; [eauto|done].
  - destruct (tab_width _ (ok_older _ Hok) Eo Ho) as [ko Hko]. case_match; bool_facts.
    + exists ko. split; [done|]. intros t [->|[-> ?]]; [|by eauto]. exists kn. split; [done|].
      eapply Hmono; [done..|lia].
    + exists kn. split; [done|]. intros t [->|[-> ?]]; [by eauto|]. exists ko. split; [done|].
      eapply Hmono; [done..|lia].
Qed.

Lemma scan_visit_covers h k c n :
  scan_ok h -> tab (newer h) <> [] -> width (scan_mbig h) k ->
  0 <= c < 2 ^ 64 -> 0 <= hcode n < 2 ^ 64 -> n ∈ hm_elements h ->
  rev_bits (hcode n) / stride k = rev_bits c / stride k -> n ∈ scan_visit h c.
Proof.
  intros Hok Hne Hk Hc Hh Hn E. destruct (scan_mbig_width h Hok Hne) as (k' & Hk' & Ht).
  assert (k' = k) as ->.
  { destruct Hk as [H1 _], Hk' as [H2 _]. apply (Nat.pow_inj_r 2); lia. }
  assert (Hin : forall t, tab_ok t -> (t = newer h \/ (t = older h /\ tab t <> [])) ->
    n ∈ elements t -> n ∈ chain t (h_pos (mask t) c)).
  { intros t Hto Hor Hel. destruct (Ht t Hor) as (j & Hj & Hjk).
    destruct (elements_chain _ _ Hto Hel) as [_ Hch].
    rewrite <- (same_bucket (mask t) j c (hcode n)); [done..|].
    eapply coarser_stride; [done| |done]. apply Hk. }
  destruct Hok as (Hok & _ & _). unfold scan_visit. apply elem_of_app.
  apply elem_of_app in Hn as [Hn|Hn].
  - left. apply Hin; auto using ok_newer.
  - right. destruct (elements_chain _ _ (ok_older _ Hok) Hn) as [Ho _].
    rewrite bool_decide_eq_false_2 by done. apply Hin; auto using ok_older.
Qed.

Lemma scan_loop_acc f h c cnt s acc c' l :
  scan_loop f h c cnt s acc = (c', l) -> acc ⊆ l.
Proof.
  revert c s acc. induction f as [|f IH]; intros c s acc; cbn [scan_loop]; [by intros [= _ <-]|].
  case_match.
  - intros Hl%IH x Hx. apply Hl, elem_of_app. by left.
  - intros [= _ <-] x Hx. apply elem_of_app. by left.
Qed.

(** Everything between the incoming and the outgoing position is emitted. *)
Lemma scan_loop_covers f h c cnt s acc c' l n :
  scan_ok h -> tab (newer h) <> [] -> 0 <= c < 2 ^ 64 -> (f = O -> c <> 0) ->
  scan_loop f h c cnt s acc = (c', l) -> 0 <= hcode n < 2 ^ 64 -> n ∈ hm_elements h ->
  rev_bits c <= rev_bits (hcode n) -> (c' = 0 \/ rev_bits (hcode n) < rev_bits c') ->
  item n ∈ l.
Proof.
  intros Hok Hne Hc Hf Hl Hh Hn. destruct (scan_mbig_width h Hok Hne) as (k & Hk & _).
  destruct (stride_pos k (proj2 Hk)) as [Hs Hsk].
  revert c s acc Hc Hf Hl. induction f as [|f IH]; intros c s acc Hc Hf Hl Hlow Hhigh; cbn [scan_loop] in Hl.
  { injection Hl as <- <-. destruct Hhigh; [by destruct (Hf eq_refl)|lia]. }
  destruct (Z.eq_dec (rev_bits (hcode n) / stride k) (rev_bits c / stride k)) as [E|E].
  - assert (Hv : item n ∈ acc ++ (item <$> scan_visit h c)).
    { apply elem_of_app. right. apply list_elem_of_fmap. exists n. split; [done|].
      by eapply scan_visit_covers. }
    case_match; [by eapply (scan_loop_acc _ _ _ _ _ _ _ _ Hl)|by injection Hl as _ <-].
  - assert (Hlt : rev_bits c / stride k + 1 <= rev_bits (hcode n) / stride k).
    { pose proof (Z.div_le_mono (rev_bits c) (rev_bits (hcode n)) (stride k)). lia. }
    pose proof (Z.mul_div_le (rev_bits (hcode n)) (stride k)) as Hd.
    pose proof (rev_bits_range _ Hh) as Hrh.
    destruct (next_cursor_cases _ k c Hk Hc) as [[E0 Elast]|[E0 Enext]].
    + exfalso. assert (rev_bits (hcode n) / stride k < 2 ^ Z.of_nat k) by (apply Z.div_lt_upper_bound; lia). lia.
    + case_match eqn:Eb.
      * apply (IH _ _ _ (next_cursor_range _ _) (fun _ => E0) Hl); [|exact Hhigh]. rewrite Enext. specialize (Hd Hs). nia.
      * injection Hl as <- <-. exfalso. destruct Hhigh as [|Hh']; [done|]. rewrite Enext in Hh'. specialize (Hd Hs). nia.
Qed.

(** The loop exits by its own condition: more fuel changes nothing. *)
Lemma scan_loop_fuel f j h k c cnt s acc :
  width (scan_mbig h) k -> 0 <= c < 2 ^ 64 ->
  2 ^ Z.of_nat k - rev_bits c / stride k <= Z.of_nat f ->
  scan_loop (f + j) h c cnt s acc = scan_loop f h c cnt s acc.
Proof.
  intros Hk. destruct (stride_pos k (proj2 Hk)) as [Hs Hsk].
  revert c s acc. induction f as [|f IH]; intros c s acc Hc Hf.
  - pose proof (rev_bits_range _ Hc).
    assert (rev_bits c / stride k < 2 ^ Z.of_nat k) by (apply Z.div_lt_upper_bound; lia). lia.
  - cbn [scan_loop Nat.add]. case_match eqn:Eb; [|done]. bool_facts.
    destruct (next_cursor_cases _ k c Hk Hc) as [[E0 _]|[_ Enext]]; [done|].
    apply IH; [apply next_cursor_range|]. rewrite Enext, Z.div_mul by lia. lia.
Qed.

(** Soundness: only nodes of the table are emitted. *)
Lemma scan_loop_sound f h c cnt s acc c' l a :
  scan_loop f h c cnt s acc = (c', l) -> a ∈ l -> a ∈ acc \/ exists n, n ∈ hm_elements h /\ item n = a.
Proof.
  assert (Hv : forall c0, a ∈ item <$> scan_visit h c0 -> exists n, n ∈ hm_elements h /\ item n = a).
  { intros c0 (n & -> & Hn)%list_elem_of_fmap. exists n. split; [|done]. unfold scan_visit in Hn.
    apply elem_of_app in Hn as [Hn|Hn]; [apply elem_of_app; left; by eapply elem_chain|].
    case_bool_decide; [by apply elem_of_nil in Hn|]. apply elem_of_app; right; by eapply elem_chain. }
  revert c s acc. induction f as [|f IH]; intros c s acc; cbn [scan_loop]; [intros [= _ <-]; auto|].
  case_match.
  - intros Hl Ha. destruct (IH _ _ _ Hl Ha) as [[|]%elem_of_app|]; eauto.
  - intros [= _ <-] [|]%elem_of_app; eauto.
Qed.

Lemma hm_scan_covers h c cnt c' l n :
  scan_ok h -> 0 <= c < 2 ^ 64 -> hm_scan h c cnt = (c', l) ->
  0 <= hcode n < 2 ^ 64 -> n ∈ hm_elements h ->
  rev_bits c <= rev_bits (hcode n) -> (c' = 0 \/ rev_bits (hcode n) < rev_bits c') ->
  item n ∈ l.
Proof.
  intros Hok Hc H Hh Hn. unfold hm_scan in H. case_bool_decide as E.
  - exfalso. pose proof (proj1 Hok) as Hok'. unfold hm_elements, elements in Hn.
    rewrite E, (ok_active _ Hok' E) in Hn. by apply elem_of_nil in Hn.
  - by apply (scan_loop_covers (S (scan_mbig h)) h c cnt 0 [] c' l n).
Qed.

Lemma scan_loop_range f h c cnt s acc c' l :
  0 <= c < 2 ^ 64 -> scan_loop f h c cnt s acc = (c', l) -> 0 <= c' < 2 ^ 64.
Proof.
  revert c s acc. induction f as [|f IH]; intros c s acc Hc; cbn [scan_loop]; [by intros [= <- _]|].
  assert (0 <= next_cursor (scan_mbig h) c < 2 ^ 64) by apply next_cursor_range.
  case_match; [by apply IH|by intros [= <- _]].
Qed.

Lemma hm_scan_range h c cnt c' l : 0 <= c < 2 ^ 64 -> hm_scan h c cnt = (c', l) -> 0 <= c' < 2 ^ 64.
Proof.
  intros Hc. unfold hm_scan. case_bool_decide; [intros [= <- _]; lia|by apply scan_loop_range].
Qed.

Lemma scan_loop_advances f h k c cnt s acc c' l :
  width (scan_mbig h) k -> 0 <= c < 2 ^ 64 -> scan_loop (S f) h c cnt s acc = (c', l) ->
  c' = 0 \/ (rev_bits c < rev_bits c' /\ 0 <= c' < 2 ^ Z.of_nat k).
Proof.
  intros Hw. revert c s acc. induction f as [|f IH]; intros c s acc Hc H;
    pose proof (next_cursor_range (scan_mbig h) c) as Hr; pose proof (next_cursor_small _ _ _ Hw Hc) as Hsm;
    assert (Hadv : next_cursor (scan_mbig h) c = 0 \/ rev_bits c < rev_bits (next_cursor (scan_mbig h) c)).
  1,3: destruct (next_cursor_cases _ _ _ Hw Hc) as [[-> _]|[_ ->]]; [by left|right];
    destruct Hw as [_ Hk]; destruct (stride_pos k Hk) as [Hs _];
    pose proof (Z.mul_succ_div_gt (rev_bits c) (stride k) Hs); lia.
  - cbn [scan_loop] in H. case_match; injection H as <- _; destruct Hadv; auto with lia.
  - cbn [scan_loop] in H. case_match eqn:E; [|injection H as <- _; destruct Hadv; auto with lia].
    apply IH in H; [|done]. destruct H as [|[Hlt Hrng]]; [by left|right]. bool_facts.
    destruct Hadv; [done|]. lia.
Qed.

Lemma hm_scan_advances h c cnt c' l :
  scan_ok h -> 0 <= c < 2 ^ 64 -> hm_scan h c cnt = (c', l) ->
  c' = 0 \/ (rev_bits c < rev_bits c' /\ 0 <= c' <= Z.of_nat (scan_mbig h)).
Proof.
  intros Hok Hc H. unfold hm_scan in H. case_bool_decide as E; [injection H as <- _; by left|].
  destruct (scan_mbig_width h Hok E) as (k & Hk & _).
  destruct (scan_loop_advances _ _ _ _ _ _ _ _ _ Hk Hc H) as [|[H1 H2]]; [by left|right].
  destruct Hk as [Hk _]. apply (f_equal Z.of_nat) in Hk. rewrite Nat2Z.inj_pow in Hk. change (Z.of_nat 2) with 2 in Hk. lia.
Qed.

(** A whole scan: successive calls, each resuming at the cursor of the one
    before, on whatever the table has become in between. *)
Inductive scan_run : Z -> list (HMap A) -> list A -> Prop :=
  | run_last c h cnt l : hm_scan h c cnt = (0, l) -> scan_run c [h] l
  | run_step c h cnt c' l hs l' :
      hm_scan h c cnt = (c', l) -> c' <> 0 -> scan_run c' hs l' -> scan_run c (h :: hs) (l ++ l').

Lemma scan_run_covers c hs l (hc : Z) (P : A -> Prop) :
  scan_run c hs l -> 0 <= c < 2 ^ 64 -> 0 <= hc < 2 ^ 64 -> rev_bits c <= rev_bits hc ->
  Forall scan_ok hs ->
  Forall (fun h => exists n, n ∈ hm_elements h /\ hcode n = hc /\ P (item n)) hs ->
  exists a, a ∈ l /\ P a.
Proof.
  intros Hrun. induction Hrun as [c h cnt l H|c h cnt c' l hs l' H Hc' Hrun IH];
    intros Hc Hhc Hlow Hok Hin; apply Forall_cons in Hok as [Hok Hoks];
    apply Forall_cons in Hin as [(n & Hn & <- & HP) Hin].
  - exists (item n). split; [|done]. apply (hm_scan_covers h c cnt 0 l n); auto.
  - destruct (Z.lt_ge_cases (rev_bits (hcode n)) (rev_bits c')) as [Hlt|Hge].
    + exists (item n). split; [|done]. apply elem_of_app. left. apply (hm_scan_covers h c cnt c' l n); auto.
    + destruct IH as (a & Ha & HPa); [by apply (hm_scan_range h c cnt c' l)|done|lia|done|done|].
      exists a. split; [|done]. apply elem_of_app. by right.
Qed.

End Coverage.

(** SCAN makes progress.  One hm_scan call either ends the iteration with
    cursor 0 or returns a cursor strictly further in reversed-bit order, for
    every table state including in the middle of a rehash, so an iteration
    cannot loop; and that cursor is a bucket number of the larger table, far
    inside the signed range the next call's argument parser accepts. *)
Theorem scan_advances {A} (h : HMap A) (c cnt : Z) (Hok : scan_ok h) (Hc : 0 <= c < 2 ^ 64) :
  let c' := (hm_scan h c cnt).1 in
  c' = 0 \/ (rev_bits c < rev_bits c' < 2 ^ 64 /\ 0 <= c' <= Z.of_nat (scan_mbig h) /\ c' <= INT64_MAX).
Proof.
  destruct (hm_scan h c cnt) as [c' l] eqn:E. cbn zeta. cbn [fst].
  destruct (hm_scan_advances h c cnt c' l Hok Hc E) as [|[H1 H2]]; [by left|right].
  pose proof (rev_bits_range c' (hm_scan_range h c cnt c' l Hc E)) as Hr.
  destruct Hok as (_ & Hm1 & Hm2). split_and!; try lia. unfold INT64_MAX, scan_mbig in *. case_match; lia.
Qed.

Definition demo_table : HMap Z := hm_insert (hm_insert HMap_empty (mkHNode 5 50)) (mkHNode 6 60).

Lemma scan_advances_witness :
  let c' := (hm_scan demo_table 0 1).1 in
  c' = 0 \/ (rev_bits 0 < rev_bits c' < 2 ^ 64 /\ 0 <= c' <= Z.of_nat (scan_mbig demo_table) /\ c' <= INT64_MAX).
Proof.
  apply (scan_advances demo_table 0 1); [|lia].
  split; [apply hm_insert_spec, hm_insert_spec, hm_ok_empty|]. vm_compute. by split.
Defined.
