(* ===== verification/Avl.v ===== *)
(** * The size-augmented AVL tree (src/src/ds/avl.{h,cpp}; [avl_rank] of src/src/types/zset.cpp)

    The tree is intrusive with parent pointers.  A node is its element (the
    structure around it) with the cached [height] and [cnt] fields; a pointer
    to a node is the subtree there together with its [path], the chain of
    parents seen from that node.  Following [parent] is popping the path,
    writing through [from] is plugging the subtree back.  [cnt] and [height]
    are [uint32_t] in the code; the model counts in [nat], which agrees below
    2^32 nodes. *)
From S2P Require Import Prelude.

Section AVL.
Context {A : Type} `{EqDecision A}.

Inductive tree :=
  | Leaf                                                (* NULL *)
  | Node (left : tree) (x : A) (right : tree) (height cnt : nat).

(** One parent on the way up: the node was its left, or its right, child. *)
Inductive frame :=
  | FromLeft (x : A) (right : tree) (height cnt : nat)
  | FromRight (left : tree) (x : A) (height cnt : nat).

Abbreviation path := (list frame).

Definition avl_height (t : tree) : nat :=
  match t with Leaf => O | Node _ _ _ h _ => h end.

Definition avl_cnt (t : tree) : nat :=
  match t with Leaf => O | Node _ _ _ _ c => c end.

Definition avl_init (x : A) : tree := Node Leaf x Leaf 1 1.

Definition avl_update (t : tree) : tree :=
  match t with
  | Leaf => Leaf
  | Node l x r _ _ =>
      Node l x r (1 + max (avl_height l) (avl_height r)) (1 + avl_cnt l + avl_cnt r)
  end.

(** The pointer surgery of the rotations; a NULL child here is a crash in the
    code and leaves the tree alone in the model (unreachable, see [fix_node_spec]). *)
Definition rot_left (t : tree) : tree :=
  match t with
  | Node l x (Node inner y r hn cn) h c =>
      let node := avl_update (Node l x inner h c) in
      avl_update (Node node y r hn cn)
  | _ => t
  end.

Definition rot_right (t : tree) : tree :=
  match t with
  | Node (Node l y inner hn cn) x r h c =>
      let node := avl_update (Node inner x r h c) in
      avl_update (Node l y node hn cn)
  | _ => t
  end.

Definition left_of (t : tree) : tree := match t with Leaf => Leaf | Node l _ _ _ _ => l end.
Definition right_of (t : tree) : tree := match t with Leaf => Leaf | Node _ _ r _ _ => r end.

Definition avl_fix_left (t : tree) : tree :=
  match t with
  | Leaf => Leaf
  | Node l x r h c =>
      let l' := if (avl_height (left_of l) <? avl_height (right_of l))%nat then rot_left l else l in
      rot_right (Node l' x r h c)
  end.

Definition avl_fix_right (t : tree) : tree :=
  match t with
  | Leaf => Leaf
  | Node l x r h c =>
      let r' := if (avl_height (right_of r) <? avl_height (left_of r))%nat then rot_right r else r in
      rot_left (Node l x r' h c)
  end.

(** The body of the [while] loop of [avl_fix] at one node. *)
Definition fix_node (t : tree) : tree :=
  let t := avl_update t in
  let l := avl_height (left_of t) in
  let r := avl_height (right_of t) in
  if (l =? r + 2)%nat then avl_fix_left t
  else if (l + 2 =? r)%nat then avl_fix_right t
  else t.

(** Writing a child back into its parent. *)
Definition plug1 (f : frame) (t : tree) : tree :=
  match f with
  | FromLeft x r h c => Node t x r h c
  | FromRight l x h c => Node l x t h c
  end.

Fixpoint avl_fix (t : tree) (p : path) : tree :=
  match p with
  | [] => fix_node t
  | f :: p' => avl_fix (plug1 f (fix_node t)) p'
  end.

(** [node->left ? node->left : node->right] *)
Definition only_child (l r : tree) : tree :=
  match l with Leaf => r | Node _ _ _ _ _ => l end.

(** Detach a node with at most one child. *)
Definition avl_del_easy (t : tree) (p : path) : tree :=
  let child := only_child (left_of t) (right_of t) in
  match p with
  | [] => child
  | f :: p' => avl_fix (plug1 f child) p'
  end.

(** [while (victim->left) victim = victim->left;] *)
Fixpoint leftmost (t : tree) (p : path) : tree * path :=
  match t with
  | Leaf => (Leaf, p)
  | Node Leaf _ _ _ _ => (t, p)
  | Node l x r h c => leftmost l (FromLeft x r h c :: p)
  end.

(** [*victim = *node] and the update of the parent's link: the victim takes the
    node's place, with the node's children, parent and cached fields. *)
Fixpoint take_place (x y : A) (t : tree) : tree :=
  match t with
  | Leaf => Leaf
  | Node l z r h c =>
      Node (take_place x y l) (if decide (z = x) then y else z) (take_place x y r) h c
  end.

Definition avl_del (t : tree) (p : path) : tree :=
  match t with
  | Leaf => Leaf
  | Node Leaf _ _ _ _ | Node _ _ Leaf _ _ => avl_del_easy t p
  | Node l x r h c =>
      let '(victim, vp) := leftmost r (FromRight l x h c :: p) in
      match victim with
      | Leaf => Leaf
      | Node _ y _ _ _ => take_place x y (avl_del_easy victim vp)
      end
  end.

(** [avl_offset]: [pos] is the rank difference from the starting node. *)
Fixpoint avl_offset_loop (fuel : nat) (t : tree) (p : path) (pos offset : Z) : option (tree * path) :=
  match fuel with
  | O => None
  | S f =>
      if offset =? pos then Some (t, p)
      else
        match t with
        | Leaf => None
        | Node l x r h c =>
            if (pos <? offset) && (offset <=? pos + Z.of_nat (avl_cnt r)) then
              avl_offset_loop f r (FromRight l x h c :: p)
                (pos + (Z.of_nat (avl_cnt (left_of r)) + 1)) offset
            else if (offset <? pos) && (pos - Z.of_nat (avl_cnt l) <=? offset) then
              avl_offset_loop f l (FromLeft x r h c :: p)
                (pos - (Z.of_nat (avl_cnt (right_of l)) + 1)) offset
            else
              match p with
              | [] => None
              | FromRight l' x' h' c' :: p' =>
                  avl_offset_loop f (Node l' x' t h' c') p' (pos - (Z.of_nat (avl_cnt l) + 1)) offset
              | FromLeft x' r' h' c' :: p' =>
                  avl_offset_loop f (Node t x' r' h' c') p' (pos + (Z.of_nat (avl_cnt r) + 1)) offset
              end
        end
  end.

(** Number of nodes, whatever the cached fields say. *)
Fixpoint nodes (t : tree) : nat :=
  match t with Leaf => O | Node l _ r _ _ => S (nodes l + nodes r) end.

(** The walk goes up at most the length of the path, then down at most the
    nodes of the tree it reached. *)
Definition plug (t : tree) (p : path) : tree := foldl (fun t f => plug1 f t) t p.

Definition avl_offset (t : tree) (p : path) (offset : Z) : option (tree * path) :=
  avl_offset_loop (1 + length p + nodes (plug t p)) t p 0 offset.

Fixpoint avl_rank_loop (rank : Z) (p : path) : Z :=
  match p with
  | [] => rank
  | FromRight l _ _ _ :: p' => avl_rank_loop (rank + (Z.of_nat (avl_cnt l) + 1)) p'
  | FromLeft _ _ _ _ :: p' => avl_rank_loop rank p'
  end.

Definition avl_rank (t : tree) (p : path) : Z :=
  avl_rank_loop (Z.of_nat (avl_cnt (left_of t))) p.

(** ** The sequence of elements *)

Fixpoint inorder (t : tree) : list A :=
  match t with Leaf => [] | Node l x r _ _ => inorder l ++ x :: inorder r end.

Fixpoint before (p : path) : list A :=
  match p with
  | [] => []
  | FromLeft _ _ _ _ :: p' => before p'
  | FromRight l x _ _ :: p' => before p' ++ inorder l ++ [x]
  end.

Fixpoint after (p : path) : list A :=
  match p with
  | [] => []
  | FromLeft x r _ _ :: p' => x :: inorder r ++ after p'
  | FromRight _ _ _ _ :: p' => after p'
  end.

Lemma inorder_plug t p : inorder (plug t p) = before p ++ inorder t ++ after p.
Proof.
  unfold plug. revert t. induction p as [|[x r h c|l x h c] p IH]; intros t; cbn.
  - by rewrite app_nil_r.
  - rewrite IH. cbn. by rewrite <- !app_assoc.
  - rewrite IH. cbn. by rewrite <- !app_assoc.
Qed.

Lemma inorder_update t : inorder (avl_update t) = inorder t.
Proof. by destruct t. Qed.

Lemma inorder_rot_left t : inorder (rot_left t) = inorder t.
Proof. destruct t as [|l x [|]]; cbn; [done..|]. by rewrite <- app_assoc. Qed.

Lemma inorder_rot_right t : inorder (rot_right t) = inorder t.
Proof. destruct t as [|[|] x r]; cbn; [done..|]. by rewrite <- app_assoc. Qed.

Lemma inorder_fix_left t : inorder (avl_fix_left t) = inorder t.
Proof.
  destruct t as [|l x r h c]; [done|]. cbn [avl_fix_left]. rewrite inorder_rot_right. cbn.
  case_match; [by rewrite inorder_rot_left|done].
Qed.

Lemma inorder_fix_right t : inorder (avl_fix_right t) = inorder t.
Proof.
  destruct t as [|l x r h c]; [done|]. cbn [avl_fix_right]. rewrite inorder_rot_left. cbn.
  case_match; [by rewrite inorder_rot_right|done].
Qed.

Lemma inorder_fix_node t : inorder (fix_node t) = inorder t.
Proof.
  unfold fix_node. repeat case_match;
    rewrite ?inorder_fix_left, ?inorder_fix_right; apply inorder_update.
Qed.

Lemma inorder_avl_fix t p : inorder (avl_fix t p) = before p ++ inorder t ++ after p.
Proof.
  revert t. induction p as [|f p IH]; intros t; cbn [avl_fix].
  - cbn. by rewrite app_nil_r, inorder_fix_node.
  - rewrite IH. destruct f; cbn; rewrite inorder_fix_node, <- !app_assoc; done.
Qed.

(** ** Balance *)

(** Cached fields exact and siblings at most one level apart. *)
Fixpoint avl (t : tree) : Prop :=
  match t with
  | Leaf => True
  | Node l _ r h c =>
      avl l /\ avl r /\
      (avl_height l <= avl_height r + 1)%nat /\ (avl_height r <= avl_height l + 1)%nat /\
      h = (1 + max (avl_height l) (avl_height r))%nat /\ c = (1 + avl_cnt l + avl_cnt r)%nat
  end.

(** A context with a hole where a balanced subtree of height [hh] fits. *)
Fixpoint ctx_ok (p : path) (hh : nat) : Prop :=
  match p with
  | [] => True
  | FromLeft _ s _ _ :: p' | FromRight s _ _ _ :: p' =>
      avl s /\ (hh <= avl_height s + 1)%nat /\ (avl_height s <= hh + 1)%nat /\
      ctx_ok p' (1 + max hh (avl_height s))
  end.

Lemma avl_cnt_length t : avl t -> avl_cnt t = length (inorder t).
Proof.
  induction t as [|l IHl x r IHr h c]; cbn; [done|]. intros (Hl & Hr & _ & _ & _ & ->).
  rewrite length_app, IHl, IHr by done. cbn. lia.
Qed.

Lemma nodes_length t : nodes t = length (inorder t).
Proof. induction t; cbn; [done|]. rewrite length_app. cbn. lia. Qed.

Ltac avl_cbn :=
  cbn [avl_height avl_cnt left_of right_of avl_fix_left avl_fix_right rot_left rot_right
       avl_update avl] in *.

(** One turn of the repair loop: a node whose balanced children are at most two
    levels apart becomes balanced, losing at most one level when it rotates. *)
Lemma fix_node_spec l x r h c :
  avl l -> avl r -> (avl_height l <= avl_height r + 2)%nat -> (avl_height r <= avl_height l + 2)%nat ->
  let t := fix_node (Node l x r h c) in
  let m := (1 + max (avl_height l) (avl_height r))%nat in
  avl t /\ (avl_height t <= m)%nat /\ (m <= avl_height t + 1)%nat /\
  ((avl_height l <= avl_height r + 1)%nat -> (avl_height r <= avl_height l + 1)%nat -> avl_height t = m).
Proof.
  intros Hl Hr H1 H2. unfold fix_node. cbn [avl_update left_of right_of].
  destruct (_ =? _)%nat eqn:E1; bool_facts; [|destruct (_ =? _)%nat eqn:E2; bool_facts].
  - destruct l as [|ll y lr hl cl]; avl_cbn; [lia|]. destruct Hl as (Hll & Hlr & Hb1 & Hb2 & -> & ->).
    destruct (avl_height ll <? avl_height lr)%nat eqn:E; bool_facts.
    + destruct lr as [|a z b hz cz]; avl_cbn; [lia|]. destruct Hlr as (Ha & Hb & ? & ? & -> & ->).
      avl_cbn. split_and!; try done; lia.
    + avl_cbn. split_and!; try done; lia.
  - destruct r as [|rl y rr hr cr]; avl_cbn; [lia|]. destruct Hr as (Hrl & Hrr & Hb1 & Hb2 & -> & ->).
    destruct (avl_height rr <? avl_height rl)%nat eqn:E; bool_facts.
    + destruct rl as [|a z b hz cz]; avl_cbn; [lia|]. destruct Hrl as (Ha & Hb & ? & ? & -> & ->).
      avl_cbn. split_and!; try done; lia.
    + avl_cbn. split_and!; try done; lia.
  - avl_cbn. split_and!; try done; lia.
Qed.

(** Repairing upwards, when the hole's height changed by at most one. *)
Lemma avl_fix_balanced p l x r h c hh :
  avl l -> avl r -> (avl_height l <= avl_height r + 2)%nat -> (avl_height r <= avl_height l + 2)%nat ->
  ctx_ok p hh ->
  (avl_height (fix_node (Node l x r h c)) <= hh + 1)%nat ->
  (hh <= avl_height (fix_node (Node l x r h c)) + 1)%nat ->
  avl (avl_fix (Node l x r h c) p).
Proof.
  revert l x r h c hh. induction p as [|f p IH]; intros l x r h c hh Hl Hr H1 H2 Hctx H3 H4;
    destruct (fix_node_spec l x r h c Hl Hr H1 H2) as (Ht & _ & _ & _); [done|].
  cbn [avl_fix]. destruct f as [x' s h' c'|s x' h' c']; cbn in Hctx; destruct Hctx as (Hs & Hb1 & Hb2 & Hc);
    cbn [plug1]; set (t := fix_node (Node l x r h c)) in *.
  - destruct (fix_node_spec t x' s h' c' Ht Hs) as (_ & ? & ? & ?); [lia..|].
    eapply IH; [done|done|lia|lia|exact Hc|lia|lia].
  - destruct (fix_node_spec s x' t h' c' Hs Ht) as (_ & ? & ? & ?); [lia..|].
    eapply IH; [done|done|lia|lia|exact Hc|lia|lia].
Qed.

(** Replacing the subtree in the hole by a balanced one within one level. *)
Lemma avl_plug_fix t f p hh :
  avl t -> ctx_ok (f :: p) hh -> (avl_height t <= hh + 1)%nat -> (hh <= avl_height t + 1)%nat ->
  avl (avl_fix (plug1 f t) p).
Proof.
  intros Ht Hctx H1 H2. destruct f as [x s h c|s x h c]; cbn in Hctx;
    destruct Hctx as (Hs & Hb1 & Hb2 & Hc); cbn [plug1].
  - destruct (fix_node_spec t x s h c Ht Hs) as (_ & ? & ? & ?); [lia..|].
    eapply avl_fix_balanced; [done|done|lia|lia|exact Hc|lia|lia].
  - destruct (fix_node_spec s x t h c Hs Ht) as (_ & ? & ? & ?); [lia..|].
    eapply avl_fix_balanced; [done|done|lia|lia|exact Hc|lia|lia].
Qed.

Lemma avl_plug_inv t p : avl (plug t p) -> avl t /\ ctx_ok p (avl_height t).
Proof.
  revert t. induction p as [|f p IH]; intros t; [done|]. unfold plug. cbn [foldl].
  fold (plug (plug1 f t) p). intros H. apply IH in H as [Ht Hc].
  destruct f as [x s h c|s x h c]; cbn in *; destruct Ht as (Ha & Hb & ? & ? & -> & _).
  - split_and!; try done; lia.
  - split_and!; try done; try lia. by rewrite Nat.max_comm.
Qed.

(** ** Insertion of a fresh leaf at a NULL link *)

Lemma avl_insert_spec x p :
  avl (plug Leaf p) ->
  avl (avl_fix (avl_init x) p) /\ inorder (avl_fix (avl_init x) p) = before p ++ x :: after p.
Proof.
  intros H. apply avl_plug_inv in H as [_ Hc]. split.
  - unfold avl_init. eapply avl_fix_balanced; [done|done|cbn; lia|cbn; lia|exact Hc|cbn; lia|cbn; lia].
  - by rewrite inorder_avl_fix.
Qed.

(** ** Deletion *)

Lemma avl_del_easy_spec l x r h c p :
  avl (plug (Node l x r h c) p) -> l = Leaf \/ r = Leaf ->
  avl (avl_del_easy (Node l x r h c) p) /\
  inorder (avl_del_easy (Node l x r h c) p) = before p ++ inorder l ++ inorder r ++ after p.
Proof.
  intros H Hlr. apply avl_plug_inv in H as [Ht Hc].
  set (child := only_child l r).
  assert (Hch : avl child /\ inorder child = inorder l ++ inorder r /\ h = S (avl_height child)).
  { cbn in Ht. destruct Ht as (Hl & Hr & ? & ? & -> & _). unfold child, only_child. destruct Hlr as [-> | ->].
    - done.
    - destruct l; [done|]. split_and!; [done|by cbn; rewrite app_nil_r|]. cbn [avl_height]. lia. }
  destruct Hch as (Hac & Hic & Hhc). unfold avl_del_easy. cbn [left_of right_of]. fold child.
  destruct p as [|f p].
  - split; [done|]. cbn. by rewrite Hic, app_nil_r.
  - split.
    + eapply avl_plug_fix; [done|exact Hc|cbn; lia|cbn; lia].
    + rewrite inorder_avl_fix. destruct f; cbn; rewrite Hic; repeat (rewrite <- !app_assoc; cbn); done.
Qed.

Lemma leftmost_spec t p v vp :
  t <> Leaf -> leftmost t p = (v, vp) ->
  plug v vp = plug t p /\ before vp = before p /\
  exists y vr h c, v = Node Leaf y vr h c /\ inorder t ++ after p = y :: inorder vr ++ after vp.
Proof.
  revert p. induction t as [|l IHl x r _ h c]; intros p Hne; [done|]. cbn [leftmost].
  destruct l as [|l1 x1 r1 h1 c1] eqn:El.
  - intros [= <- <-]. split_and!; [done..|]. by exists x, r, h, c.
  - intros H. apply IHl in H as (Hp & Hb & y & vr & hh & cc & -> & Hi); [|done].
    split_and!; [done..|]. exists y, vr, hh, cc. split; [done|]. rewrite <- Hi. cbn.
    by rewrite <- !app_assoc.
Qed.

Lemma take_place_spec x y t :
  avl_height (take_place x y t) = avl_height t /\ avl_cnt (take_place x y t) = avl_cnt t /\
  (avl t -> avl (take_place x y t)) /\
  inorder (take_place x y t) = (fun z => if decide (z = x) then y else z) <$> inorder t.
Proof.
  induction t as [|l (Hl1 & Hl2 & Hl3 & Hl4) z r (Hr1 & Hr2 & Hr3 & Hr4) h c]; [done|].
  cbn. rewrite fmap_app, fmap_cons, Hl4, Hr4, Hl1, Hl2, Hr1, Hr2. split_and!; try done. tauto.
Qed.

Lemma fmap_other (x y : A) (l : list A) : x ∉ l -> (fun z => if decide (z = x) then y else z) <$> l = l.
Proof.
  induction l as [|z l IH]; [done|]. rewrite elem_of_cons. intros H. rewrite fmap_cons, IH by tauto.
  f_equal. case_decide; [subst; tauto|done].
Qed.

(** [avl_del] removes exactly the node it is given. *)
Lemma avl_del_spec l x r h c p :
  avl (plug (Node l x r h c) p) -> NoDup (inorder (plug (Node l x r h c) p)) ->
  avl (avl_del (Node l x r h c) p) /\
  inorder (avl_del (Node l x r h c) p) = before p ++ inorder l ++ inorder r ++ after p.
Proof.
  intros H Hnd.
  assert (Hdec : (l = Leaf \/ r = Leaf) \/ ~ (l = Leaf \/ r = Leaf)) by (destruct l, r; auto; right; by intros [|]).
  destruct Hdec as [Hlr|Hlr].
  { replace (avl_del (Node l x r h c) p) with (avl_del_easy (Node l x r h c) p);
      [by apply avl_del_easy_spec|]. destruct Hlr as [-> | ->]; [done|by destruct l]. }
  assert (Hl : l <> Leaf) by tauto. assert (Hr : r <> Leaf) by tauto.
  destruct (leftmost r (FromRight l x h c :: p)) as [v vp] eqn:El.
  replace (avl_del (Node l x r h c) p)
    with (match v with Leaf => Leaf | Node _ y _ _ _ => take_place x y (avl_del_easy v vp) end).
  2:{ destruct l; [done|]. destruct r; [done|]. cbn [avl_del]. by rewrite El. }
  destruct (leftmost_spec _ _ _ _ Hr El) as (Hp & Hb & y & vr & vh & vc & -> & Hi).
  assert (Hav : avl (plug (Node Leaf y vr vh vc) vp)) by (by rewrite Hp).
  destruct (avl_del_easy_spec _ _ _ _ _ _ Hav (or_introl eq_refl)) as [Ha Hin].
  destruct (take_place_spec x y (avl_del_easy (Node Leaf y vr vh vc) vp)) as (_ & _ & Hta & Hti).
  split; [by apply Hta|]. rewrite Hti, Hin, Hb. cbn. cbn in Hi.
  rewrite inorder_plug in Hnd. cbn in Hnd. rewrite <- app_assoc, <- app_comm_cons, Hi in Hnd.
  assert (Hx : (x ∉ before p ++ inorder l) /\ (x ∉ inorder vr ++ after vp)).
  { rewrite app_assoc in Hnd. apply NoDup_app in Hnd as (_ & Hd & Hnd).
    apply NoDup_cons in Hnd as [Hnd _]. split; [|intros Hx; apply Hnd; by right].
    intros Hx. apply (Hd x Hx). left. }
  rewrite <- !app_assoc, (app_assoc (before p)), fmap_app, fmap_other by tauto.
  cbn. rewrite fmap_other by tauto. rewrite decide_True by done. rewrite <- app_assoc. by rewrite Hi.
Qed.

(** ** Rank and offset *)

(** The position of a node in the sequence. *)
Definition index (t : tree) (p : path) : nat := length (before p) + length (inorder (left_of t)).

Lemma avl_rank_loop_spec p hh rank :
  ctx_ok p hh -> avl_rank_loop rank p = rank + Z.of_nat (length (before p)).
Proof.
  revert hh rank. induction p as [|[x s h c|s x h c] p IH]; intros hh rank; cbn; [lia|..];
    intros (Hs & _ & _ & Hc); rewrite (IH _ _ Hc); [done|].
  rewrite avl_cnt_length by done. rewrite !length_app. cbn. lia.
Qed.

Lemma avl_rank_spec t p : avl (plug t p) -> avl_rank t p = Z.of_nat (index t p).
Proof.
  intros H. apply avl_plug_inv in H as [Ht Hc]. unfold avl_rank, index.
  rewrite (avl_rank_loop_spec _ _ _ Hc). destruct t as [|l x r h c]; cbn in *; [lia|].
  rewrite avl_cnt_length by tauto. lia.
Qed.

(** The node at an index is the element at that index of the sequence. *)
Lemma index_lookup l x r h c p :
  inorder (plug (Node l x r h c) p) !! index (Node l x r h c) p = Some x.
Proof.
  rewrite inorder_plug. unfold index. cbn. rewrite <- app_assoc, <- app_comm_cons, app_assoc.
  rewrite <- length_app. by apply list_lookup_middle.
Qed.

(** Whether index [j] falls in the subtree at hand. *)
Definition inside (t : tree) (p : path) (j : Z) : Prop :=
  Z.of_nat (length (before p)) <= j < Z.of_nat (length (before p) + nodes t).

#[global] Instance inside_dec t p j : Decision (inside t p j).
Proof. unfold inside. apply _. Defined.

Definition offset_measure (t : tree) (p : path) (j : Z) : nat :=
  if decide (inside t p j) then nodes t else (length p + nodes (plug t p))%nat.

Lemma nodes_plug t p : nodes (plug t p) = (length (before p) + nodes t + length (after p))%nat.
Proof. rewrite !nodes_length, inorder_plug, !length_app. lia. Qed.

Lemma plug_cons t f p : plug t (f :: p) = plug (plug1 f t) p.
Proof. done. Qed.

Lemma offset_measure_in t p j : inside t p j -> offset_measure t p j = nodes t.
Proof. intros H. unfold offset_measure. by rewrite decide_True. Qed.

Lemma offset_measure_out t p j :
  ~ inside t p j -> offset_measure t p j = (length p + nodes (plug t p))%nat.
Proof. intros H. unfold offset_measure. by rewrite decide_False. Qed.

Lemma offset_measure_le t p j : (offset_measure t p j <= length p + nodes (plug t p))%nat.
Proof. unfold offset_measure. case_decide; rewrite ?nodes_plug; lia. Qed.

(** How the index moves along each pointer the walk follows. *)
Lemma index_to_right l x r h c p :
  index r (FromRight l x h c :: p) = (index (Node l x r h c) p + 1 + nodes (left_of r))%nat.
Proof. unfold index. cbn. rewrite !length_app, nodes_length. cbn. lia. Qed.

Lemma index_to_left l x r h c p :
  l <> Leaf ->
  (index l (FromLeft x r h c :: p) + 1 + nodes (right_of l))%nat = index (Node l x r h c) p.
Proof.
  unfold index. destruct l; cbn; [done|]. rewrite length_app, nodes_length. cbn. lia.
Qed.

Lemma index_up_left t x r h c p :
  t <> Leaf ->
  index (Node t x r h c) p = (index t (FromLeft x r h c :: p) + 1 + nodes (right_of t))%nat.
Proof. intros H. symmetry. by apply index_to_left. Qed.

Lemma avl_children t : avl t -> avl (left_of t) /\ avl (right_of t).
Proof. destruct t; cbn; tauto. Qed.

Lemma avl_cnt_nodes t : avl t -> avl_cnt t = nodes t.
Proof. intros H. by rewrite nodes_length, avl_cnt_length. Qed.

Lemma avl_offset_loop_spec fuel t p pos offset i0 root :
  avl root -> plug t p = root -> t <> Leaf -> pos = Z.of_nat (index t p) - i0 ->
  (offset_measure t p (i0 + offset) < fuel)%nat ->
  match avl_offset_loop fuel t p pos offset with
  | Some (t', p') => t' <> Leaf /\ plug t' p' = root /\ Z.of_nat (index t' p') = i0 + offset
  | None => i0 + offset < 0 \/ Z.of_nat (nodes root) <= i0 + offset
  end.
Proof.
  intros Hroot. revert t p pos. induction fuel as [|f IH]; intros t p pos Hp Hne Hpos Hf; [lia|].
  cbn [avl_offset_loop]. destruct (offset =? pos) eqn:E0; bool_facts; [split_and!; [done..|lia]|].
  destruct t as [|l x r h c]; [done|].
  assert (Ht : avl (Node l x r h c)) by (apply (avl_plug_inv _ p); by rewrite Hp).
  destruct (avl_children _ Ht) as [Hl Hr]. cbn [left_of right_of] in Hl, Hr.
  rewrite !(avl_cnt_nodes l), !(avl_cnt_nodes r) by done.
  rewrite (avl_cnt_nodes (left_of r)), (avl_cnt_nodes (right_of l)) by (by apply avl_children).
  assert (Hix : index (Node l x r h c) p = (length (before p) + nodes l)%nat)
    by (unfold index; cbn; by rewrite nodes_length).
  pose proof (nodes_plug (Node l x r h c) p) as Hnr. rewrite Hp in Hnr. cbn [nodes] in Hnr.
  destruct ((pos <? offset) && (offset <=? pos + Z.of_nat (nodes r))) eqn:E1; bool_facts;
    [|destruct ((offset <? pos) && (pos - Z.of_nat (nodes l) <=? offset)) eqn:E2; bool_facts].
  - assert (r <> Leaf) by (intros ->; cbn in *; lia).
    apply IH; [by rewrite <- Hp|done|rewrite index_to_right; lia|].
    rewrite offset_measure_in in Hf by (unfold inside; cbn [nodes]; lia). cbn [nodes] in Hf.
    rewrite offset_measure_in; [lia|]. unfold inside. cbn [before].
    rewrite !length_app, <- nodes_length. cbn [length]. lia.
  - assert (l <> Leaf) by (intros ->; cbn in *; lia).
    apply IH; [by rewrite <- Hp|done|pose proof (index_to_left l x r h c p); intuition lia|].
    rewrite offset_measure_in in Hf by (unfold inside; cbn [nodes]; lia). cbn [nodes] in Hf.
    rewrite offset_measure_in; [lia|]. unfold inside. cbn [before]. lia.
  - rewrite offset_measure_out, Hp in Hf
      by (unfold inside; cbn [nodes]; apply andb_false_iff in E1, E2; lia).
    destruct p as [|[x' s h' c'|s x' h' c'] p]; [apply andb_false_iff in E1, E2; cbn in *; lia|..];
      rewrite plug_cons in Hp; cbn [plug1] in Hp; cbn [length] in Hf;
      (apply IH; [done|done| |eapply Nat.le_lt_trans; [apply offset_measure_le|rewrite Hp; lia]]).
    + rewrite index_up_left by done. cbn [right_of]. lia.
    + pose proof (index_to_right s x' (Node l x r h c) h' c' p) as Hi. cbn [left_of] in Hi. lia.
Qed.

Lemma avl_offset_spec t p offset :
  avl (plug t p) -> t <> Leaf ->
  match avl_offset t p offset with
  | Some (t', p') =>
      t' <> Leaf /\ plug t' p' = plug t p /\
      Z.of_nat (index t' p') = Z.of_nat (index t p) + offset
  | None =>
      Z.of_nat (index t p) + offset < 0 \/
      Z.of_nat (length (inorder (plug t p))) <= Z.of_nat (index t p) + offset
  end.
Proof.
  intros Ha Hne. rewrite <- nodes_length. unfold avl_offset.
  apply avl_offset_loop_spec; [done..|lia|]. pose proof (offset_measure_le t p (Z.of_nat (index t p) + offset)). lia.
Qed.

End AVL.

Arguments tree : clear implicits.
Arguments frame : clear implicits.
