(* ===== verification/StdString.v ===== *)
(** * std::string objects with their capacity

    The server charges memory by [std::string::capacity()], so the strings held
    by its containers are modelled as objects: the characters and the capacity,
    with the growth and storage-stealing rules of the C++ library's
    [basic_string] (15 characters of in-object storage). *)
From S2P Require Import Prelude.

Record sstr := mkStr { s_data : bytes; s_cap : Z }.

#[global] Instance sstr_eq_dec : EqDecision sstr.
Proof. solve_decision. Defined.

Definition s_local_cap : Z := 15.

(** The default constructor, and the copy constructor from given characters. *)
Definition s_empty : sstr := mkStr [] s_local_cap.
Definition s_copy (b : bytes) : sstr := mkStr b (Z.max s_local_cap (Z.of_nat (length b))).

#[global] Instance sstr_inhabited : Inhabited sstr := populate s_empty.

(** Storage for [n] characters: grown to twice the old capacity at least. *)
Definition s_room (cap n : Z) : Z := if cap <? n then Z.max n (2 * cap) else cap.

(** [dst = src] for a [const std::string &src]: storage is reused when it fits. *)
Definition s_assign (dst : sstr) (src : bytes) : sstr :=
  mkStr src (s_room (s_cap dst) (Z.of_nat (length src))).

(** [dst.append(src)] *)
Definition s_append (dst : sstr) (src : bytes) : sstr :=
  mkStr (s_data dst ++ src) (s_room (s_cap dst) (Z.of_nat (length (s_data dst ++ src)))).

Definition s_is_local (s : sstr) : bool := s_cap s <=? s_local_cap.

(** [dst = std::move(src)], giving both objects: an in-object source has its
    characters copied and the destination keeps its own storage; an allocated
    source gives its storage away and takes the destination's. *)
Definition s_move (dst src : sstr) : sstr * sstr :=
  if s_is_local src then (mkStr (s_data src) (s_cap dst), mkStr [] (s_cap src))
  else (src, mkStr [] (if s_is_local dst then s_local_cap else s_cap dst)).

(** [s.clear()] keeps the storage. *)
Definition s_clear (s : sstr) : sstr := mkStr [] (s_cap s).

(** A string object's capacity holds its characters. *)
Definition s_ok (s : sstr) : Prop :=
  s_local_cap <= s_cap s /\ Z.of_nat (length (s_data s)) <= s_cap s.

Lemma s_assign_ok dst src : s_ok dst -> s_ok (s_assign dst src).
Proof.
  unfold s_ok, s_assign, s_room. cbn. intros [H1 H2]. destruct (_ <? _) eqn:E; blia.
Qed.

Lemma s_empty_ok : s_ok s_empty.
Proof. unfold s_ok, s_empty, s_local_cap. cbn [s_cap s_data length]. lia. Qed.

Lemma s_copy_ok b : s_ok (s_copy b).
Proof. unfold s_ok, s_copy. cbn [s_cap s_data]. lia. Qed.

Lemma s_clear_ok s : s_ok s -> s_ok (s_clear s).
Proof. unfold s_ok, s_clear, s_local_cap. cbn [s_cap s_data length]. lia. Qed.

Lemma s_move_ok dst src :
  s_ok dst -> s_ok src -> s_ok (s_move dst src).1 /\ s_ok (s_move dst src).2.
Proof.
  unfold s_ok, s_move, s_is_local. destruct (s_cap src <=? s_local_cap) eqn:E; cbn; bool_facts.
  - lia.
  - destruct (s_cap dst <=? s_local_cap); cbn; unfold s_local_cap in *; lia.
Qed.

Lemma s_move_data dst src :
  s_data (s_move dst src).1 = s_data src /\ s_data (s_move dst src).2 = [].
Proof. unfold s_move. by destruct (s_is_local src). Qed.

(** The source of a move is a valid object whatever the destination was. *)
Lemma s_move_src_ok dst src : s_ok src -> s_ok (s_move dst src).2.
Proof.
  unfold s_ok, s_move, s_is_local, s_local_cap. intros [H1 H2].
  destruct (s_cap src <=? 15) eqn:E; [|destruct (s_cap dst <=? 15) eqn:E'];
    cbn [snd s_cap s_data length]; blia.
Qed.

(** A destination without allocated storage takes the source's capacity. *)
Lemma s_move_cap dst src :
  s_ok src -> s_cap dst = s_local_cap -> s_cap (s_move dst src).1 = s_cap src.
Proof.
  unfold s_ok, s_move, s_is_local. intros [Hs _] Hd.
  destruct (s_cap src <=? s_local_cap) eqn:E; cbn; bool_facts; [lia|done].
Qed.
