(* ===== verification/Deque.v ===== *)
(** * The list type: src/src/ds/deque.{h,cpp} and the gap helpers of src/src/commands/commands.cpp

    A ring buffer of strings with a power-of-two capacity.  [content] reads it
    as a sequence; the operations are proved to be the sequence operations of
    a double-ended queue, and [elem_bytes] to be the sum of the capacities of
    the live elements where the code keeps it so. *)
From S2P Require Import Prelude StdString.

(** [struct Deque]; [cap] is the length of the allocated array [buf]. *)
Record Deque := mkDeque { buf : list sstr; head : nat; count : nat; elem_bytes : Z }.

Definition cap (d : Deque) : nat := length (buf d).

Definition deque_init : Deque := mkDeque [] 0 0 0.
Definition deque_free (d : Deque) : Deque := mkDeque [] 0 0 0.

(** [& (d->cap - 1)] *)
Definition wrap (d : Deque) (i : nat) : nat := Nat.land i (cap d - 1).
Definition deque_phys (d : Deque) (logical : nat) : nat := wrap d (head d + logical).

(** [b\[to\] = std::move(b'\[from\])] between two arrays, and within one. *)
Definition move_slot (to from : nat) (b : list sstr) : list sstr :=
  let '(x, y) := s_move (b !!! to) (b !!! from) in <[to := x]> (<[from := y]> b).

(** The rebuild loop of [deque_grow] and [deque_maybe_shrink]. *)
Definition rebuild (d : Deque) (new_cap : nat) : Deque :=
  let fresh := replicate new_cap s_empty in
  mkDeque
    (foldl (fun nb i => <[i := (s_move (nb !!! i) (buf d !!! deque_phys d i)).1]> nb)
       fresh (seq 0 (count d)))
    0 (count d) (elem_bytes d).

Definition deque_grow (d : Deque) : Deque :=
  rebuild d (if (cap d =? 0)%nat then 8 else cap d * 2).

Definition deque_maybe_shrink (d : Deque) : Deque := rebuild d (cap d / 2).

Definition grow_if_full (d : Deque) : Deque :=
  if (count d =? cap d)%nat then deque_grow d else d.

Definition deque_push_front (d : Deque) (v : bytes) : Deque :=
  let d := grow_if_full d in
  let h := wrap d (head d + cap d - 1) in
  let slot := s_assign (buf d !!! h) v in
  mkDeque (<[h := slot]> (buf d)) h (count d + 1) (u64 (elem_bytes d + s_cap slot)).

Definition deque_push_back (d : Deque) (v : bytes) : Deque :=
  let d := grow_if_full d in
  let tail := deque_phys d (count d) in
  let slot := s_assign (buf d !!! tail) v in
  mkDeque (<[tail := slot]> (buf d)) (head d) (count d + 1) (u64 (elem_bytes d + s_cap slot)).

Definition shrink_if_sparse (d : Deque) : Deque :=
  if (8 <? cap d)%nat && (count d <? cap d / 4)%nat then deque_maybe_shrink d else d.

(** The pops give [None] for [false]; [out] is the caller's string object. *)
Definition deque_pop_front (d : Deque) (out : sstr) : option (Deque * sstr) :=
  if (count d =? 0)%nat then None
  else
    let slot := buf d !!! head d in
    let '(out', slot') := s_move out slot in
    Some (shrink_if_sparse
            (mkDeque (<[head d := s_clear slot']> (buf d)) (wrap d (head d + 1)) (count d - 1)
               (u64 (elem_bytes d - s_cap slot))), out').

Definition deque_pop_back (d : Deque) (out : sstr) : option (Deque * sstr) :=
  if (count d =? 0)%nat then None
  else
    let tail := deque_phys d (count d - 1) in
    let slot := buf d !!! tail in
    let '(out', slot') := s_move out slot in
    Some (shrink_if_sparse
            (mkDeque (<[tail := s_clear slot']> (buf d)) (head d) (count d - 1)
               (u64 (elem_bytes d - s_cap slot))), out').

Definition deque_get (d : Deque) (idx : nat) : option sstr :=
  if (count d <=? idx)%nat then None else Some (buf d !!! deque_phys d idx).

(** [idx] is an [int64_t]. *)
Definition deque_normalize (d : Deque) (idx : Z) : Z :=
  if idx <? 0 then idx + Z.of_nat (count d) else idx.

(** [for (i in idxs) buf\[to i\] = std::move(buf\[from i\])] *)
Definition move_loop (to from : nat -> nat) (idxs : list nat) (b : list sstr) : list sstr :=
  foldl (fun b i => move_slot (to i) (from i) b) b idxs.

Definition deque_open_gap (d : Deque) (idx : nat) : Deque :=
  if (idx <? count d / 2)%nat then
    let new_head := wrap d (head d + cap d - 1) in
    mkDeque
      (move_loop (fun i => wrap d (new_head + i)) (fun i => wrap d (new_head + 1 + i))
         (seq 0 idx) (buf d))
      new_head (count d + 1) (elem_bytes d)
  else
    mkDeque
      (move_loop (fun i => deque_phys d i) (fun i => deque_phys d (i - 1))
         (rev (seq (S idx) (count d - idx))) (buf d))
      (head d) (count d + 1) (elem_bytes d).

Definition deque_close_gap (d : Deque) (idx : nat) : Deque :=
  if (idx <? count d / 2)%nat then
    let b := move_loop (fun i => deque_phys d i) (fun i => deque_phys d (i - 1))
               (rev (seq 1 idx)) (buf d) in
    mkDeque (<[head d := s_clear (b !!! head d)]> b) (wrap d (head d + 1)) (count d - 1) (elem_bytes d)
  else
    let b := move_loop (fun i => deque_phys d i) (fun i => deque_phys d (i + 1))
               (seq idx (count d - 1 - idx)) (buf d) in
    let last := deque_phys d (count d - 1) in
    mkDeque (<[last := s_clear (b !!! last)]> b) (head d) (count d - 1) (elem_bytes d).

(** ** The sequence a deque holds *)

Definition items (d : Deque) : list sstr := map (fun i => buf d !!! deque_phys d i) (seq 0 (count d)).
Definition content (d : Deque) : list bytes := map s_data (items d).

(** Sum of the capacities of the live elements. *)
Definition caps (l : list sstr) : Z := foldr (fun s n => s_cap s + n) 0 l.

Definition pow2 (n : nat) : Prop := exists k, n = (2 ^ k)%nat.

(** Well-formed: power-of-two capacity (or nothing allocated), head in range. *)
Definition deque_ok (d : Deque) : Prop :=
  (count d <= cap d)%nat /\ (cap d = 0%nat /\ head d = 0%nat \/ pow2 (cap d) /\ (head d < cap d)%nat).

(** [elem_bytes] is what its comment says. *)
Definition charged (d : Deque) : Prop := elem_bytes d = u64 (caps (items d)).

(** ** Index arithmetic *)

Lemma pow2_pos n : pow2 n -> (0 < n)%nat.
Proof. intros [k ->]. pose proof (Nat.pow_nonzero 2 k ltac:(lia)). lia. Qed.

Lemma wrap_mod d i : pow2 (cap d) -> wrap d i = (i mod cap d)%nat.
Proof.
  intros [k Hk]. unfold wrap. rewrite Hk, <- Nat.land_ones, Nat.ones_equiv. by rewrite Nat.sub_1_r.
Qed.

Lemma phys_lt d i : pow2 (cap d) -> (deque_phys d i < cap d)%nat.
Proof.
  intros H. unfold deque_phys. rewrite wrap_mod by done. apply Nat.mod_upper_bound.
  pose proof (pow2_pos _ H). lia.
Qed.

Lemma mod_inj c h i j :
  (0 < c)%nat -> (i < c)%nat -> (j < c)%nat -> ((h + i) mod c = (h + j) mod c)%nat -> i = j.
Proof.
  intros Hc Hi Hj E. pose proof (Nat.div_mod (h + i) c ltac:(lia)) as E1.
  pose proof (Nat.div_mod (h + j) c ltac:(lia)) as E2.
  rewrite E in E1. set (q1 := ((h + i) / c)%nat) in *. set (q2 := ((h + j) / c)%nat) in *.
  destruct (Nat.lt_trichotomy q1 q2) as [Hq|[Hq|Hq]].
  - pose proof (Nat.mul_le_mono_l (S q1) q2 c Hq). rewrite Nat.mul_succ_r in *. lia.
  - rewrite Hq in E1. lia.
  - pose proof (Nat.mul_le_mono_l (S q2) q1 c Hq). rewrite Nat.mul_succ_r in *. lia.
Qed.

Lemma phys_inj d i j :
  pow2 (cap d) -> (i < cap d)%nat -> (j < cap d)%nat -> deque_phys d i = deque_phys d j -> i = j.
Proof.
  intros H Hi Hj. unfold deque_phys. rewrite !wrap_mod by done. apply mod_inj; [by apply pow2_pos|done..].
Qed.

Lemma wrap_cap d d' i : cap d' = cap d -> wrap d' i = wrap d i.
Proof. unfold wrap. by intros ->. Qed.

(** Shifting the head by one either way. *)
Lemma wrap_next d i : pow2 (cap d) -> wrap d (wrap d (head d + 1) + i) = deque_phys d (S i).
Proof.
  intros Hp. unfold deque_phys. rewrite !wrap_mod by done. rewrite Nat.Div0.add_mod_idemp_l. f_equal. lia.
Qed.

Lemma wrap_prev d i :
  pow2 (cap d) -> wrap d (wrap d (head d + cap d - 1) + S i) = deque_phys d i.
Proof.
  intros Hp. unfold deque_phys. rewrite !wrap_mod by done. pose proof (pow2_pos _ Hp).
  rewrite Nat.Div0.add_mod_idemp_l.
  replace (head d + cap d - 1 + S i)%nat with (head d + i + 1 * cap d)%nat by lia.
  apply Nat.Div0.mod_add.
Qed.

Lemma wrap_wrap d i : pow2 (cap d) -> wrap d (wrap d i + 0) = wrap d i.
Proof.
  intros Hp. rewrite !wrap_mod by done. by rewrite Nat.add_0_r, Nat.Div0.mod_mod.
Qed.

Lemma wrap_lt d i : pow2 (cap d) -> (wrap d i < cap d)%nat.
Proof.
  intros Hp. rewrite wrap_mod by done. apply Nat.mod_upper_bound. pose proof (pow2_pos _ Hp). lia.
Qed.

(** ** Reading the sequence *)

Lemma items_lookup d i :
  items d !! i = if decide (i < count d)%nat then Some (buf d !!! deque_phys d i) else None.
Proof.
  unfold items. rewrite list_lookup_fmap. case_decide as E.
  - by rewrite lookup_seq_lt.
  - by rewrite lookup_seq_ge by lia.
Qed.

Lemma length_items d : length (items d) = count d.
Proof. unfold items. by rewrite length_map, length_seq. Qed.

Lemma length_elems d : length (content d) = count d.
Proof. unfold content. by rewrite length_map, length_items. Qed.

Lemma content_lookup d i :
  content d !! i = if decide (i < count d)%nat then Some (s_data (buf d !!! deque_phys d i)) else None.
Proof. unfold content. rewrite list_lookup_fmap, items_lookup. by case_decide. Qed.

Lemma items_ext d (l : list sstr) :
  length l = count d -> (forall i x, l !! i = Some x -> buf d !!! deque_phys d i = x) -> items d = l.
Proof.
  intros Hl H. apply list_eq. intros i. rewrite items_lookup. case_decide as E.
  - destruct (lookup_lt_is_Some_2 l i) as [x Hx]; [lia|]. by rewrite Hx, (H i x Hx).
  - symmetry. apply lookup_ge_None. lia.
Qed.

Lemma total_insert (b : list sstr) j x i :
  (j < length b)%nat -> <[j := x]> b !!! i = if decide (i = j) then x else b !!! i.
Proof.
  intros Hj. case_decide as E; subst.
  - by rewrite list_lookup_total_insert_eq.
  - by rewrite list_lookup_total_insert_ne.
Qed.

Lemma caps_app l k : caps (l ++ k) = caps l + caps k.
Proof. unfold caps. induction l as [|x l IH]; cbn; [done|]. rewrite IH. lia. Qed.

(** ** The rebuild loop *)

Lemma s_move_fresh s : s_ok s -> (s_move s_empty s).1 = s.
Proof.
  intros [H1 H2]. unfold s_move, s_is_local. destruct (s_cap s <=? s_local_cap) eqn:E; [|done].
  bool_facts. destruct s as [b c]. cbn in *. f_equal. unfold s_local_cap in *. lia.
Qed.

Lemma rebuild_loop (f : nat -> sstr) n m :
  (forall i, s_ok (f i)) -> (n <= m)%nat ->
  foldl (fun nb i => <[i := (s_move (nb !!! i) (f i)).1]> nb) (replicate m s_empty) (seq 0 n) =
  map f (seq 0 n) ++ replicate (m - n) s_empty.
Proof.
  intros Hok. induction n as [|n IH]; intros Hn; [cbn; by rewrite Nat.sub_0_r|].
  rewrite seq_S, foldl_app, IH, map_app by lia. cbn [foldl map].
  replace (m - n)%nat with (S (m - S n)) by lia. cbn [replicate Nat.add].
  rewrite lookup_total_app_r by (rewrite length_map, length_seq; lia).
  rewrite length_map, length_seq, Nat.sub_diag. cbn [lookup_total list_lookup_total].
  rewrite s_move_fresh by done. rewrite insert_app_r_alt by (rewrite length_map, length_seq; lia).
  rewrite length_map, length_seq, Nat.sub_diag. cbn. by rewrite <- app_assoc.
Qed.

Lemma total_ok (b : list sstr) i : Forall s_ok b -> s_ok (b !!! i).
Proof.
  intros H. rewrite list_lookup_total_alt. destruct (b !! i) eqn:E; cbn.
  - by eapply Forall_lookup_1.
  - apply s_empty_ok.
Qed.

Lemma rebuild_spec d n :
  Forall s_ok (buf d) -> (count d <= n)%nat -> pow2 n ->
  items (rebuild d n) = items d /\ deque_ok (rebuild d n) /\ cap (rebuild d n) = n /\
  count (rebuild d n) = count d /\ Forall s_ok (buf (rebuild d n)).
Proof.
  intros Hok Hn Hp. pose proof (pow2_pos _ Hp).
  assert (Hb : buf (rebuild d n) = items d ++ replicate (n - count d) s_empty).
  { cbn [buf rebuild]. apply rebuild_loop; [|done]. intros i. by apply total_ok. }
  assert (Hcap : cap (rebuild d n) = n).
  { unfold cap. rewrite Hb, length_app, length_items, length_replicate. lia. }
  split_and!; [|split_and!|done|done|].
  - apply items_ext; [by rewrite length_items|]. intros i x Hx.
    pose proof (lookup_lt_Some _ _ _ Hx) as Hi. rewrite length_items in Hi. unfold deque_phys.
    rewrite wrap_mod, Hcap by (by rewrite Hcap). cbn [head rebuild Nat.add]. rewrite Nat.mod_small by lia.
    apply list_lookup_total_correct. rewrite Hb. by apply lookup_app_l_Some.
  - cbn [count rebuild]. rewrite Hcap. lia.
  - right. rewrite Hcap. cbn [head rebuild]. split; [done|lia].
  - rewrite Hb. apply Forall_app. split.
    + unfold items. apply Forall_map, Forall_forall. intros i _. by apply total_ok.
    + apply Forall_replicate, s_empty_ok.
Qed.

Lemma pow2_double n : pow2 n -> pow2 (n * 2).
Proof. intros [k ->]. exists (S k). rewrite Nat.pow_succ_r'. lia. Qed.

Lemma pow2_half n : pow2 n -> (1 < n)%nat -> pow2 (n / 2) /\ (n / 2 * 2 = n)%nat.
Proof.
  intros [[|k] ->] H; [cbn in H; lia|]. rewrite Nat.pow_succ_r', Nat.mul_comm, Nat.div_mul by lia.
  split; [by exists k|lia].
Qed.

(** Everything the operations keep. *)
Definition deque_inv (d : Deque) : Prop := deque_ok d /\ Forall s_ok (buf d).

Lemma grow_if_full_spec d :
  deque_inv d ->
  let d' := grow_if_full d in
  deque_inv d' /\ items d' = items d /\ count d' = count d /\ elem_bytes d' = elem_bytes d /\
  pow2 (cap d') /\ (count d' < cap d')%nat /\ (head d' < cap d')%nat.
Proof.
  intros [[Hc Ho] Hok]. unfold grow_if_full. destruct (count d =? cap d)%nat eqn:E; bool_facts; cbn zeta.
  - unfold deque_grow. set (n := if (cap d =? 0)%nat then 8%nat else (cap d * 2)%nat).
    assert (Hn : pow2 n /\ (count d < n)%nat).
    { subst n. destruct (cap d =? 0)%nat eqn:E0; bool_facts.
      - split; [by exists 3%nat|lia].
      - destruct Ho as [[? _]|[Hp _]]; [done|]. split; [by apply pow2_double|lia]. }
    destruct Hn as [Hp Hn]. destruct (rebuild_spec d n Hok ltac:(lia) Hp) as (Hi & Hd & Hcap & Hcnt & Hs).
    rewrite Hcap, Hcnt. split; [by split|]. split_and!; [done..|cbn; lia].
  - destruct Ho as [[H0 _]|[Hp Hh]]; [lia|]. split; [split; [split; [done|by right]|done]|].
    split_and!; [done|done|done|done|lia|done].
Qed.

Lemma deque_push_back_spec d v :
  deque_inv d ->
  let d' := deque_push_back d v in
  deque_inv d' /\ exists s, items d' = items d ++ [s] /\ s_data s = v /\
    elem_bytes d' = u64 (elem_bytes d + s_cap s).
Proof.
  intros Hd. destruct (grow_if_full_spec d Hd) as (Hd' & Hi & Hc & He & Hp & Hlt & Hh).
  unfold deque_push_back. cbn zeta. generalize dependent (grow_if_full d). intros g Hd' Hi Hc He Hp Hlt Hh.
  set (tail := deque_phys g (count g)). set (slot := s_assign (buf g !!! tail) v).
  assert (Ht : (tail < cap g)%nat) by (by apply phys_lt).
  assert (Hcap : cap (mkDeque (<[tail:=slot]> (buf g)) (head g) (count g + 1) (u64 (elem_bytes g + s_cap slot))) = cap g)
    by (unfold cap; cbn; by rewrite length_insert).
  split; [split; [split|]|].
  - rewrite Hcap. cbn. lia.
  - right. rewrite Hcap. done.
  - cbn. apply Forall_insert; [apply Hd'|]. apply s_assign_ok, total_ok, Hd'.
  - exists slot. split_and!; [|done|cbn; by rewrite He]. rewrite <- Hi. apply items_ext.
    + rewrite length_app, length_items. done.
    + intros i x Hx. unfold deque_phys at 1. rewrite (wrap_cap g) by done. cbn [buf head].
      fold (deque_phys g i). rewrite total_insert by done.
      rewrite lookup_app, items_lookup in Hx. unfold tail. case_decide as E1.
      * rewrite decide_False; [by simplify_eq|]. intros E. apply phys_inj in E; [lia|done|lia|lia].
      * rewrite length_items in Hx. apply list_lookup_singleton_Some in Hx as [Hx <-].
        by replace i with (count g) by lia; rewrite decide_True.
Qed.

Lemma deque_push_front_spec d v :
  deque_inv d ->
  let d' := deque_push_front d v in
  deque_inv d' /\ exists s, items d' = s :: items d /\ s_data s = v /\
    elem_bytes d' = u64 (elem_bytes d + s_cap s).
Proof.
  intros Hd. destruct (grow_if_full_spec d Hd) as (Hd' & Hi & Hc & He & Hp & Hlt & Hh).
  unfold deque_push_front. cbn zeta. generalize dependent (grow_if_full d). intros g Hd' Hi Hc He Hp Hlt Hh.
  set (h := wrap g (head g + cap g - 1)). set (slot := s_assign (buf g !!! h) v).
  set (d' := mkDeque _ h _ _).
  assert (Hhl : (h < cap g)%nat) by (by apply wrap_lt).
  assert (Hw0 : wrap g (h + 0) = h) by (by apply wrap_wrap).
  assert (HwS : forall i, wrap g (h + S i) = deque_phys g i) by (intros; by apply wrap_prev).
  assert (Hcap : cap d' = cap g) by (unfold cap; cbn; by rewrite length_insert).
  split; [split; [split|]|].
  - rewrite Hcap. cbn. lia.
  - right. rewrite Hcap. done.
  - cbn. apply Forall_insert; [apply Hd'|]. apply s_assign_ok, total_ok, Hd'.
  - exists slot. split_and!; [|done|cbn; by rewrite He]. rewrite <- Hi. apply items_ext.
    + cbn. rewrite length_items. lia.
    + intros [|i] x Hx; unfold deque_phys at 1; rewrite (wrap_cap g) by done; cbn [buf head d'];
        rewrite total_insert by done; cbn in Hx.
      * rewrite Hw0, decide_True by done. congruence.
      * rewrite items_lookup in Hx. case_decide; simplify_eq. rewrite HwS.
        rewrite decide_False; [done|]. intros E.
        assert (deque_phys d' (S i) = deque_phys d' 0) as E'.
        { unfold deque_phys. rewrite !(wrap_cap g d') by done. cbn [head d']. by rewrite Hw0, HwS. }
        apply phys_inj in E'; rewrite ?Hcap; [done|done|lia|lia].
Qed.

Lemma shrink_if_sparse_spec d :
  deque_inv d ->
  let d' := shrink_if_sparse d in
  deque_inv d' /\ items d' = items d /\ elem_bytes d' = elem_bytes d.
Proof.
  intros [[Hc Ho] Hok]. unfold shrink_if_sparse.
  destruct ((8 <? cap d)%nat && (count d <? cap d / 4)%nat) eqn:E; bool_facts; cbn zeta.
  - destruct Ho as [[? _]|[Hp _]]; [lia|]. destruct (pow2_half _ Hp ltac:(lia)) as [Hp2 H2].
    assert (count d <= cap d / 2)%nat by (pose proof (Nat.Div0.div_div (cap d) 2 2) as Hq;
      change (2 * 2)%nat with 4%nat in Hq; pose proof (Nat.Div0.div_le_upper_bound (cap d / 2) 2 (cap d / 2)); lia).
    destruct (rebuild_spec d (cap d / 2) Hok ltac:(lia) Hp2) as (Hi & Hd & _ & _ & Hs).
    split; [by split|]. done.
  - split; [by split|]. done.
Qed.

Lemma deque_pop_front_spec d out :
  deque_inv d ->
  match deque_pop_front d out with
  | None => items d = []
  | Some (d', out') =>
      exists s, deque_inv d' /\ items d = s :: items d' /\ s_data out' = s_data s /\
        elem_bytes d' = u64 (elem_bytes d - s_cap s)
  end.
Proof.
  intros [[Hc Ho] Hok]. unfold deque_pop_front. destruct (count d =? 0)%nat eqn:E; bool_facts.
  { apply length_zero_iff_nil. by rewrite length_items. }
  destruct Ho as [[? _]|[Hp Hh]]; [lia|].
  destruct (s_move out (buf d !!! head d)) as [out' slot'] eqn:Em.
  destruct (s_move_data out (buf d !!! head d)) as [Hd1 _]. rewrite Em in Hd1. cbn [fst] in Hd1.
  set (d1 := mkDeque _ _ _ _). assert (Hcap : cap d1 = cap d) by (unfold cap; cbn; by rewrite length_insert).
  assert (Hinv : deque_inv d1).
  { split; [split|].
    - rewrite Hcap. cbn. lia.
    - right. rewrite Hcap. split; [done|]. by apply wrap_lt.
    - cbn. apply Forall_insert; [done|]. apply s_clear_ok.
      replace slot' with (s_move out (buf d !!! head d)).2 by (by rewrite Em).
      by apply s_move_src_ok, total_ok. }
  destruct (shrink_if_sparse_spec d1 Hinv) as (Hi1 & Hi2 & Hi3).
  exists (buf d !!! head d). split_and!; [done| |done|done]. rewrite Hi2.
  apply items_ext; [cbn [length]; rewrite length_items; cbn [count d1]; lia|].
  assert (Hph : deque_phys d 0 = head d).
  { unfold deque_phys. rewrite wrap_mod, Nat.add_0_r by done. by apply Nat.mod_small. }
  intros [|i] x Hx; cbn [lookup list_lookup] in Hx; [rewrite Hph; congruence|].
  change (items d1 !! i = Some x) in Hx.
  rewrite items_lookup in Hx. case_decide as Hlt; simplify_eq. cbn [count d1] in Hlt.
  unfold deque_phys at 2. rewrite (wrap_cap d) by done. cbn [buf head d1].
  rewrite wrap_next by done. rewrite total_insert by done. rewrite decide_False; [done|].
  rewrite <- Hph. intros E'. apply phys_inj in E'; [done|done|lia|lia].
Qed.

Lemma deque_pop_back_spec d out :
  deque_inv d ->
  match deque_pop_back d out with
  | None => items d = []
  | Some (d', out') =>
      exists s, deque_inv d' /\ items d = items d' ++ [s] /\ s_data out' = s_data s /\
        elem_bytes d' = u64 (elem_bytes d - s_cap s)
  end.
Proof.
  intros [[Hc Ho] Hok]. unfold deque_pop_back. destruct (count d =? 0)%nat eqn:E; bool_facts.
  { apply length_zero_iff_nil. by rewrite length_items. }
  destruct Ho as [[? _]|[Hp Hh]]; [lia|]. set (tail := deque_phys d (count d - 1)).
  assert (Ht : (tail < cap d)%nat) by (by apply phys_lt).
  destruct (s_move out (buf d !!! tail)) as [out' slot'] eqn:Em.
  destruct (s_move_data out (buf d !!! tail)) as [Hd1 _]. rewrite Em in Hd1. cbn [fst] in Hd1.
  set (d1 := mkDeque _ _ _ _). assert (Hcap : cap d1 = cap d) by (unfold cap; cbn; by rewrite length_insert).
  assert (Hinv : deque_inv d1).
  { split; [split|].
    - rewrite Hcap. cbn. lia.
    - right. by rewrite Hcap.
    - cbn. apply Forall_insert; [done|]. apply s_clear_ok.
      replace slot' with (s_move out (buf d !!! tail)).2 by (by rewrite Em).
      by apply s_move_src_ok, total_ok. }
  destruct (shrink_if_sparse_spec d1 Hinv) as (Hi1 & Hi2 & Hi3).
  exists (buf d !!! tail). split_and!; [done| |done|done]. rewrite Hi2.
  apply items_ext; [rewrite length_app, length_items; cbn [length count d1]; lia|].
  intros i x Hx. rewrite lookup_app, items_lookup in Hx. cbn [count d1] in Hx. case_decide as Hlt.
  - simplify_eq. unfold deque_phys at 2. rewrite (wrap_cap d d1) by done. cbn [buf head d1].
    fold (deque_phys d i). rewrite total_insert by done. rewrite decide_False; [done|].
    intros E'. apply phys_inj in E'; [lia|done|lia|lia].
  - apply list_lookup_singleton_Some in Hx as [Hx <-]. rewrite length_items in Hx. cbn [count d1] in Hx.
    by replace i with (count d - 1)%nat by lia.
Qed.

(** ** The gap helpers *)

Lemma move_slot_data to from b k :
  to <> from -> (to < length b)%nat -> (from < length b)%nat ->
  s_data (move_slot to from b !!! k) =
    if decide (k = to) then s_data (b !!! from)
    else if decide (k = from) then [] else s_data (b !!! k).
Proof.
  intros Hne Ht Hf. unfold move_slot. destruct (s_move_data (b !!! to) (b !!! from)) as [H1 H2].
  destruct (s_move _ _) as [x y]. cbn in H1, H2.
  rewrite !total_insert by (rewrite ?length_insert; done). repeat case_decide; congruence.
Qed.

Lemma length_move_slot to from b : length (move_slot to from b) = length b.
Proof. unfold move_slot. destruct (s_move _ _). by rewrite !length_insert. Qed.

Lemma move_slot_ok to from b : Forall s_ok b -> Forall s_ok (move_slot to from b).
Proof.
  intros H. unfold move_slot. pose proof (s_move_ok (b !!! to) (b !!! from)) as Hm.
  destruct (s_move _ _) as [x y]. cbn in Hm.
  destruct Hm; [by apply total_ok..|]. by do 2 (apply Forall_insert; [|done]).
Qed.

Lemma move_loop_inv to from idxs b :
  length (move_loop to from idxs b) = length b /\
  (Forall s_ok b -> Forall s_ok (move_loop to from idxs b)).
Proof.
  unfold move_loop. revert b. induction idxs as [|i idxs IH]; intros b; cbn; [done|].
  destruct (IH (move_slot (to i) (from i) b)) as [H1 H2]. rewrite H1, length_move_slot.
  split; [done|]. intros H. by apply H2, move_slot_ok.
Qed.

(** The loops move along a chain of slots [p 0 <- p 1 <- ... <- p n]. *)
Lemma shift_data (p : nat -> nat) n b :
  (forall i, (i <= n)%nat -> (p i < length b)%nat) ->
  (forall i j, (i <= n)%nat -> (j <= n)%nat -> p i = p j -> i = j) ->
  let b' := move_loop p (fun i => p (S i)) (seq 0 n) b in
  (forall i, (i < n)%nat -> s_data (b' !!! p i) = s_data (b !!! p (S i))) /\
  (forall k, (forall i, (i <= n)%nat -> k <> p i) -> s_data (b' !!! k) = s_data (b !!! k)).
Proof.
  cbn zeta. induction n as [|n IH]; intros Hlt Hinj; [split; [lia|done]|].
  destruct IH as [IH1 IH2]; [auto with lia..|].
  unfold move_loop in *. rewrite seq_S, foldl_app. cbn [foldl Nat.add].
  set (b' := foldl _ b (seq 0 n)) in *.
  assert (Hlen : length b' = length b) by apply (move_loop_inv p (fun i => p (S i)) (seq 0 n) b).
  assert (Hne : p n <> p (S n)) by (intros E; apply Hinj in E; lia).
  split.
  - intros i Hi. rewrite move_slot_data by (rewrite ?Hlen; auto with lia).
    destruct (decide (i = n)) as [->|Hin].
    + rewrite decide_True by done. apply IH2. intros i Hi' E. apply Hinj in E; lia.
    + rewrite !decide_False by (intros E; apply Hinj in E; lia). apply IH1. lia.
  - intros k Hk. rewrite move_slot_data by (rewrite ?Hlen; auto with lia).
    rewrite !decide_False by (apply Hk; lia). apply IH2. intros i Hi. apply Hk. lia.
Qed.

Lemma move_loop_map to from (f : nat -> nat) idxs b to' from' :
  (forall i, i ∈ idxs -> to (f i) = to' i /\ from (f i) = from' i) ->
  move_loop to from (map f idxs) b = move_loop to' from' idxs b.
Proof.
  unfold move_loop. revert b. induction idxs as [|i idxs IH]; intros b H; cbn; [done|].
  destruct (H i) as [-> ->]; [by left|]. apply IH. intros j Hj. apply H. by right.
Qed.

Lemma rev_seq_map a n : rev (seq (S a) n) = map (fun j => (a + n - j)%nat) (seq 0 n).
Proof.
  revert a. induction n as [|n IH]; intros a; [done|].
  rewrite (seq_S n (S a)), rev_app_distr. cbn [rev app seq map].
  rewrite IH, <- (fmap_S_seq 0 n), <- list_fmap_compose.
  f_equal; [lia|]. apply list_fmap_ext. intros i x _. cbn. lia.
Qed.

Lemma shift_down (q : nat -> nat) a n b :
  move_loop q (fun i => q (i - 1)%nat) (rev (seq (S a) n)) b =
  move_loop (fun j => q (a + n - j)%nat) (fun j => q (a + n - S j)%nat) (seq 0 n) b.
Proof.
  rewrite rev_seq_map. apply move_loop_map. intros i _. split; [done|]. f_equal. lia.
Qed.

Lemma shift_up (q : nat -> nat) a n b :
  move_loop q (fun i => q (i + 1)%nat) (seq a n) b =
  move_loop (fun j => q (a + j)%nat) (fun j => q (a + S j)%nat) (seq 0 n) b.
Proof.
  replace (seq a n) with (map (Nat.add a) (seq 0 n)) by (by rewrite fmap_add_seq, Nat.add_0_r).
  apply move_loop_map. intros i _. split; [done|]. f_equal. lia.
Qed.

Lemma deque_open_gap_spec d idx :
  deque_inv d -> (count d < cap d)%nat -> (idx <= count d)%nat ->
  let g := deque_open_gap d idx in
  deque_inv g /\ count g = S (count d) /\ cap g = cap d /\ elem_bytes g = elem_bytes d /\
  forall i, (i < count d)%nat ->
    s_data (buf g !!! deque_phys g (if decide (i < idx)%nat then i else S i)) =
    s_data (buf d !!! deque_phys d i).
Proof.
  intros [[Hc Ho] Hok] Hlt Hidx. destruct Ho as [[? _]|[Hp Hh]]; [lia|].
  unfold deque_open_gap. destruct (idx <? count d / 2)%nat eqn:E; bool_facts; cbn zeta.
  - set (nh := wrap d (head d + cap d - 1)). set (p := fun i => wrap d (nh + i)).
    assert (HpS : forall i, p (S i) = deque_phys d i) by (intros; by apply wrap_prev).
    destruct (move_loop_inv p (fun i => p (S i)) (seq 0 idx) (buf d)) as [Hlen Hok'].
    assert (Hpinj : forall i j, (i <= count d)%nat -> (j <= count d)%nat -> p i = p j -> i = j).
    { intros i j Hi Hj. unfold p. rewrite !wrap_mod by done.
      apply mod_inj; [by apply pow2_pos|lia..]. }
    destruct (shift_data p idx (buf d)) as [H1 H2].
    { intros. by apply wrap_lt. }
    { intros i j Hi Hj. apply Hpinj; pose proof (Nat.Div0.div_le_upper_bound (count d) 2 (count d)); lia. }
    replace (move_loop _ (fun i => wrap d (nh + 1 + i)) _ _)
      with (move_loop p (fun i => p (S i)) (seq 0 idx) (buf d)).
    2:{ unfold p. rewrite <- (map_id (seq 0 idx)) at 2. symmetry. apply move_loop_map.
        intros i _. split; [done|]. f_equal. lia. }
    set (b' := move_loop p _ _ _) in *. set (g := mkDeque b' nh _ _).
    assert (Hcap : cap g = cap d) by done.
    split; [split; [split|]|]; [rewrite Hcap; cbn; lia| |by apply Hok'|split_and!; [cbn; lia|done|done|]].
    { right. rewrite Hcap. split; [done|by apply wrap_lt]. }
    intros i Hi. unfold deque_phys at 1. rewrite (wrap_cap d g) by done. cbn [buf head g].
    rewrite <- HpS. destruct (decide (i < idx)%nat) as [Hii|Hii].
    + by apply H1.
    + change (wrap d (nh + S i)) with (p (S i)). apply H2. intros j Hj Ej. apply Hpinj in Ej; lia.
  - rewrite shift_down. replace (idx + (count d - idx))%nat with (count d) by lia.
    set (p := fun j => deque_phys d (count d - j)).
    change (move_loop _ _ _ _) with (move_loop p (fun j => p (S j)) (seq 0 (count d - idx)) (buf d)).
    destruct (move_loop_inv p (fun i => p (S i)) (seq 0 (count d - idx)) (buf d)) as [Hlen Hok'].
    destruct (shift_data p (count d - idx) (buf d)) as [H1 H2].
    { intros. by apply phys_lt. }
    { intros i j Hi Hj Ej. apply phys_inj in Ej; [lia|done|lia|lia]. }
    set (b' := move_loop p _ _ _) in *. set (g := mkDeque b' _ _ _).
    assert (Hcap : cap g = cap d) by done.
    split; [split; [split|]|]; [rewrite Hcap; cbn; lia| |by apply Hok'|split_and!; [cbn; lia|done|done|]].
    { right. by rewrite Hcap. }
    intros i Hi. unfold deque_phys at 1. rewrite (wrap_cap d g) by done. cbn [buf head g].
    match goal with |- s_data (b' !!! wrap d (head d + ?j)) = _ => change (wrap d (head d + j)) with (deque_phys d j) end.
    destruct (decide (i < idx)%nat) as [Hii|Hii].
    + apply H2. intros j Hj Ej. apply phys_inj in Ej; [lia|done|lia|lia].
    + specialize (H1 (count d - S i)%nat ltac:(lia)). unfold p in H1.
      replace (count d - (count d - S i))%nat with (S i) in H1 by lia.
      by replace (count d - S (count d - S i))%nat with i in H1 by lia.
Qed.

(** A deque one shorter whose slots past the gap are one further on. *)
Lemma close_gap_content d g idx :
  (idx < count d)%nat -> count g = (count d - 1)%nat ->
  (forall i, (i < count d - 1)%nat -> s_data (buf g !!! deque_phys g i) =
     s_data (buf d !!! deque_phys d (if decide (i < idx)%nat then i else S i))) ->
  content g = delete idx (content d).
Proof.
  intros Hidx Hcg Hg. apply list_eq. intros i. rewrite content_lookup, Hcg.
  destruct (decide (i < idx)%nat) as [Hi|Hi].
  - rewrite list_lookup_delete_lt, content_lookup by done. rewrite !decide_True by lia.
    rewrite Hg by lia. by rewrite decide_True.
  - rewrite list_lookup_delete_ge, content_lookup by lia.
    destruct (decide (i < count d - 1)%nat) as [Hj|Hj]; [|by rewrite decide_False by lia].
    rewrite decide_True by lia. rewrite Hg by lia. by rewrite decide_False.
Qed.

Lemma deque_close_gap_spec d idx :
  deque_inv d -> (idx < count d)%nat ->
  let g := deque_close_gap d idx in
  deque_inv g /\ content g = delete idx (content d) /\ elem_bytes g = elem_bytes d.
Proof.
  intros [[Hc Ho] Hok] Hidx. destruct Ho as [[? _]|[Hp Hh]]; [lia|].
  assert (Hph : deque_phys d 0 = head d).
  { unfold deque_phys. rewrite wrap_mod, Nat.add_0_r by done. by apply Nat.mod_small. }
  unfold deque_close_gap. destruct (idx <? count d / 2)%nat eqn:E; bool_facts; cbn zeta.
  - rewrite shift_down. cbn [Nat.add]. set (p := fun j => deque_phys d (idx - j)).
    change (move_loop _ _ _ _) with (move_loop p (fun j => p (S j)) (seq 0 idx) (buf d)).
    destruct (move_loop_inv p (fun i => p (S i)) (seq 0 idx) (buf d)) as [Hlen Hok'].
    destruct (shift_data p idx (buf d)) as [H1 H2].
    { intros. by apply phys_lt. }
    { intros i j Hi Hj Ej. apply phys_inj in Ej; [lia|done|lia|lia]. }
    set (b' := move_loop p _ _ _) in *. set (g := mkDeque _ _ _ _).
    assert (Hcap : cap g = cap d) by (unfold cap; cbn; by rewrite length_insert).
    split; [split; [split|]|split; [|done]].
    + rewrite Hcap. cbn. lia.
    + right. rewrite Hcap. split; [done|by apply wrap_lt].
    + cbn. apply Forall_insert; [by apply Hok'|]. by apply s_clear_ok, total_ok, Hok'.
    + apply close_gap_content; [done..|]. intros i Hi. unfold deque_phys at 1. rewrite (wrap_cap d g) by done.
      cbn [buf head g]. rewrite wrap_next by done. rewrite total_insert by (rewrite Hlen; done).
      rewrite decide_False by (rewrite <- Hph; intros Ej; apply phys_inj in Ej; [done|done|lia|lia]).
      destruct (decide (i < idx)%nat) as [Hii|Hii].
      * specialize (H1 (idx - S i)%nat ltac:(lia)). unfold p in H1.
        replace (idx - (idx - S i))%nat with (S i) in H1 by lia.
        by replace (idx - S (idx - S i))%nat with i in H1 by lia.
      * apply H2. intros j Hj Ej. apply phys_inj in Ej; [lia|done|lia|lia].
  - rewrite shift_up. set (p := fun j => deque_phys d (idx + j)). set (n := (count d - 1 - idx)%nat).
    change (move_loop _ _ _ _) with (move_loop p (fun j => p (S j)) (seq 0 n) (buf d)).
    destruct (move_loop_inv p (fun i => p (S i)) (seq 0 n) (buf d)) as [Hlen Hok'].
    destruct (shift_data p n (buf d)) as [H1 H2].
    { intros. by apply phys_lt. }
    { intros i j Hi Hj Ej. apply phys_inj in Ej; [lia|done|lia|lia]. }
    set (b' := move_loop p _ _ _) in *. set (g := mkDeque _ _ _ _).
    assert (Hcap : cap g = cap d) by (unfold cap; cbn; by rewrite length_insert).
    split; [split; [split|]|split; [|done]].
    + rewrite Hcap. cbn. lia.
    + right. by rewrite Hcap.
    + cbn. apply Forall_insert; [by apply Hok'|]. by apply s_clear_ok, total_ok, Hok'.
    + apply close_gap_content; [done..|]. intros i Hi. unfold deque_phys at 1. rewrite (wrap_cap d g) by done.
      cbn [buf head g]. fold (deque_phys d i).
      rewrite total_insert by (rewrite Hlen; by apply phys_lt).
      rewrite decide_False by (intros Ej; apply phys_inj in Ej; [lia|done|lia|lia]).
      destruct (decide (i < idx)%nat) as [Hii|Hii].
      * apply H2. intros j Hj Ej. apply phys_inj in Ej; [lia|done|lia|lia].
      * specialize (H1 (i - idx)%nat ltac:(lia)). unfold p in H1.
        replace (idx + (i - idx))%nat with i in H1 by lia.
        by replace (idx + S (i - idx))%nat with (S i) in H1 by lia.
Qed.

(** ** Properties *)

Inductive DOp := PushFront (v : bytes) | PushBack (v : bytes) | PopFront | PopBack.

Definition popped (d : Deque) (r : option (Deque * sstr)) : option bytes * Deque :=
  match r with Some (d', v) => (Some (s_data v), d') | None => (None, d) end.

Definition deque_op (d : Deque) (o : DOp) : option bytes * Deque :=
  match o with
  | PushFront v => (None, deque_push_front d v)
  | PushBack v => (None, deque_push_back d v)
  | PopFront => popped d (deque_pop_front d s_empty)
  | PopBack => popped d (deque_pop_back d s_empty)
  end.

Definition seq_op (l : list bytes) (o : DOp) : option bytes * list bytes :=
  match o with
  | PushFront v => (None, v :: l)
  | PushBack v => (None, l ++ [v])
  | PopFront => (list.head l, tail l)
  | PopBack => (last l, take (length l - 1) l)
  end.

Lemma caps_cons s l : caps (s :: l) = s_cap s + caps l.
Proof. done. Qed.

Lemma charge_shift a b n : a = u64 b -> u64 (a + n) = u64 (b + n).
Proof. intros ->. unfold u64. apply Zplus_mod_idemp_l. Qed.

Lemma deque_op_refines d o :
  deque_inv d -> charged d ->
  deque_inv (deque_op d o).2 /\ charged (deque_op d o).2 /\
  (deque_op d o).1 = (seq_op (content d) o).1 /\ content (deque_op d o).2 = (seq_op (content d) o).2.
Proof.
  unfold charged. intros Hd Hc. destruct o as [v|v| |]; cbn [deque_op seq_op].
  - destruct (deque_push_front_spec d v Hd) as (H1 & s & H2 & H3 & H4). cbn [fst snd]. unfold content.
    rewrite H4, (charge_shift _ _ _ Hc), H2, caps_cons, map_cons, H3. split_and!; [done| |done|done]. f_equal. lia.
  - destruct (deque_push_back_spec d v Hd) as (H1 & s & H2 & H3 & H4). cbn [fst snd]. unfold content.
    rewrite H4, (charge_shift _ _ _ Hc), H2, map_app, caps_app, caps_cons. cbn [map]. rewrite H3.
    split_and!; [done| |done|done]. f_equal. cbn. lia.
  - pose proof (deque_pop_front_spec d s_empty Hd) as Hp. destruct (deque_pop_front d s_empty) as [[d' v]|]; cbn.
    + destruct Hp as (s & H1 & H2 & H3 & H4). unfold content. rewrite H2. cbn. rewrite H3. split; [done|]. split; [|done].
      rewrite H4. unfold Z.sub. rewrite (charge_shift _ _ _ Hc), H2, caps_cons. f_equal. lia.
    + split; [done|split; [done|]]. unfold content. by rewrite Hp.
  - pose proof (deque_pop_back_spec d s_empty Hd) as Hp. destruct (deque_pop_back d s_empty) as [[d' v]|]; cbn.
    + destruct Hp as (s & H1 & H2 & H3 & H4). unfold content. rewrite H2, map_app. cbn. rewrite H3, last_snoc.
      split; [done|]. split; [|split; [done|]].
      * rewrite H4. unfold Z.sub. rewrite (charge_shift _ _ _ Hc), H2, caps_app, caps_cons. f_equal. cbn [caps foldr]. lia.
      * rewrite length_app, Nat.add_sub. by rewrite take_app_length.
    + split; [done|split; [done|]]. unfold content. by rewrite Hp.
Qed.

Lemma deque_run_refines ops d :
  deque_inv d -> charged d ->
  deque_inv (run_ops deque_op d ops).2 /\ charged (run_ops deque_op d ops).2 /\
  (run_ops deque_op d ops).1 = (run_ops seq_op (content d) ops).1 /\
  content (run_ops deque_op d ops).2 = (run_ops seq_op (content d) ops).2.
Proof.
  revert d. induction ops as [|o ops IH]; intros d Hd Hc; [done|]. cbn [run_ops].
  destruct (deque_op_refines d o Hd Hc) as (H1 & H2 & H3 & H4).
  destruct (deque_op d o) as [r d1], (seq_op (content d) o) as [r' l1]. cbn [fst snd] in *. subst r' l1.
  destruct (IH d1 H1 H2) as (I1 & I2 & I3 & I4).
  destruct (run_ops deque_op d1 ops), (run_ops seq_op (content d1) ops). cbn [fst snd] in *. by subst.
Qed.

Lemma deque_init_inv : deque_inv deque_init /\ charged deque_init.
Proof. split; [split; [split; [done|by left]|constructor]|done]. Qed.

(** The ring buffer is a double-ended queue of strings.  Any sequence of
    pushes and pops at both ends on an empty deque gives the same answers as
    on a list and ends holding that list in order, through every growth,
    wrap-around and shrink; and elem_bytes is always exactly the capacities of
    the live strings, as its declaration says. *)
Theorem deque_refines_list (ops : list DOp) :
  let '(rs, d) := run_ops deque_op deque_init ops in
  let '(rs', l) := run_ops seq_op [] ops in
  rs = rs' /\ content d = l /\ charged d /\ deque_ok d.
Proof.
  destruct deque_init_inv as [Hd Hc]. destruct (deque_run_refines ops deque_init Hd Hc) as (H1 & H2 & H3 & H4).
  change (content deque_init) with (@nil bytes) in *.
  destruct (run_ops deque_op deque_init ops) as [rs d], (run_ops seq_op [] ops) as [rs' l].
  cbn [fst snd] in *. destruct H1. by split_and!.
Qed.
