(* ===== verification/Heap.v ===== *)
(** * The TTL heap: src/src/ds/heap.cpp, and heap_delete / heap_upsert of src/src/core/state.cpp

    An array min-heap keyed by expiry time in which every item carries a
    pointer ([ref]) to the [heap_idx] field of the entry that owns it, and
    every move of an item writes its new position through that pointer.  The
    memory those pointers reach belongs to another component (the entries of
    the keyspace), so the heap is written and proved against the interface
    [RefStore]: cells named by a reference type, one [size_t] each. *)
From S2P Require Import Prelude.

(** The memory behind the [ref] pointers. *)
Class RefStore (R W : Type) := {
  get_ref : R -> W -> option Z;
  set_ref : R -> Z -> W -> W;
}.

Class RefStoreLaws (R W : Type) `{RefStore R W} : Prop := {
  get_set_ref_eq r v w : is_Some (get_ref r w) -> get_ref r (set_ref r v w) = Some v;
  get_set_ref_ne r r' v w : r <> r' -> get_ref r' (set_ref r v w) = get_ref r' w;
}.

(** [struct HeapItem] *)
Record HeapItem (R : Type) := mkItem { val : Z; ref : R }.
Arguments mkItem {R} val ref.
Arguments val {R} h.
Arguments ref {R} h.

#[global] Instance HeapItem_inhabited {R} `{Inhabited R} : Inhabited (HeapItem R) :=
  populate (mkItem 0 inhabitant).

Section Heap.
Context {R W : Type} `{IR : Inhabited R} `{RS : RefStore R W}.
Implicit Types (a : list (HeapItem R)) (w : W) (pos len i : nat).

(** ** The operations *)

Definition heap_parent (i : nat) : nat := ((i + 1) / 2 - 1)%nat.
Definition heap_left (i : nat) : nat := (i * 2 + 1)%nat.
Definition heap_right (i : nat) : nat := (i * 2 + 2)%nat.

(** [a\[pos\] = x; *a\[pos\].ref = pos;] *)
Definition put (pos : nat) (x : HeapItem R) (a : list (HeapItem R)) (w : W) : list (HeapItem R) * W :=
  (<[pos := x]> a, set_ref (ref x) (Z.of_nat pos) w).

Fixpoint heap_up_loop (fuel : nat) a pos (t : HeapItem R) w : list (HeapItem R) * W :=
  match fuel with
  | O => (a, w)
  | S f =>
      if (0 <? pos)%nat && (val t <? val (a !!! heap_parent pos)) then
        let '(a', w') := put pos (a !!! heap_parent pos) a w in
        heap_up_loop f a' (heap_parent pos) t w'
      else put pos t a w
  end.

Definition heap_up a pos w := heap_up_loop (S pos) a pos (a !!! pos) w.

(** The smallest of the item [t] at [pos] and the two children. *)
Definition min_child a pos (t : HeapItem R) len : nat :=
  let l := heap_left pos in
  let r := heap_right pos in
  let '(min_pos, min_val) :=
    if (l <? len)%nat && (val (a !!! l) <? val t) then (l, val (a !!! l)) else (pos, val t) in
  if (r <? len)%nat && (val (a !!! r) <? min_val) then r else min_pos.

Fixpoint heap_down_loop (fuel : nat) a pos len (t : HeapItem R) w : list (HeapItem R) * W :=
  match fuel with
  | O => (a, w)
  | S f =>
      let min_pos := min_child a pos t len in
      if (min_pos =? pos)%nat then put pos t a w
      else
        let '(a', w') := put pos (a !!! min_pos) a w in
        heap_down_loop f a' min_pos len t w'
  end.

Definition heap_down a pos len w := heap_down_loop (S len - pos) a pos len (a !!! pos) w.

Definition heap_update a pos len w :=
  if (0 <? pos)%nat && (val (a !!! pos) <? val (a !!! heap_parent pos))
  then heap_up a pos w else heap_down a pos len w.

(** [heap_delete]: [std::vector] swap-with-last, pop, and repair. *)
Definition heap_delete a pos w :=
  let a1 := <[pos := a !!! (length a - 1)%nat]> a in
  let a2 := take (length a1 - 1) a1 in
  if (pos <? length a2)%nat then heap_update a2 pos (length a2) w else (a2, w).

(** [heap_upsert]: [pos] is a [size_t] taken from [ent->heap_idx]. *)
Definition heap_upsert a (pos : Z) (t : HeapItem R) w :=
  if pos <? Z.of_nat (length a) then
    let a1 := <[Z.to_nat pos := t]> a in heap_update a1 (Z.to_nat pos) (length a1) w
  else
    let a1 := a ++ [t] in heap_update a1 (length a) (length a1) w.

(** ** Invariants *)

(** The value at an index of the array. *)
Definition hval a i : Z := val (a !!! i).

(** Min-heap order: no item is below its parent. *)
Definition heap_ordered a : Prop :=
  forall i, (0 < i < length a)%nat -> hval a (heap_parent i) <= hval a i.

(** Order everywhere but around [pos]; the children of [pos] respect the
    parent of [pos]. *)
Definition near a pos : Prop :=
  forall i, (0 < i < length a)%nat ->
    (i <> pos -> heap_parent i <> pos -> hval a (heap_parent i) <= hval a i) /\
    (heap_parent i = pos -> (0 < pos)%nat -> hval a (heap_parent pos) <= hval a i).

(** Every item's reference holds its position. *)
Definition refs_at a w : Prop :=
  forall i x, a !! i = Some x -> get_ref (ref x) w = Some (Z.of_nat i).

(** The same at every position but [pos], whose reference is live. *)
Definition refs_but pos a w : Prop :=
  (forall i x, a !! i = Some x -> i <> pos -> get_ref (ref x) w = Some (Z.of_nat i)) /\
  (forall x, a !! pos = Some x -> is_Some (get_ref (ref x) w)).

Definition refs a : list R := map ref a.

(** ** Lemmas *)

Lemma heap_parent_spec i p :
  (0 < i)%nat -> heap_parent i = p <-> i = heap_left p \/ i = heap_right p.
Proof.
  intros Hi. unfold heap_parent, heap_left, heap_right.
  pose proof (Nat.div_mod (i + 1) 2 ltac:(lia)). pose proof (Nat.mod_upper_bound (i + 1) 2 ltac:(lia)).
  lia.
Qed.

Lemma heap_parent_lt i : (0 < i)%nat -> (heap_parent i < i)%nat.
Proof.
  intros Hi. pose proof (proj1 (heap_parent_spec i _ Hi) eq_refl) as Hp.
  unfold heap_left, heap_right in Hp. lia.
Qed.

Lemma hval_insert a j x i :
  (j < length a)%nat -> hval (<[j := x]> a) i = if decide (i = j) then val x else hval a i.
Proof.
  intros Hj. unfold hval. case_decide as E; subst.
  - by rewrite list_lookup_total_insert_eq.
  - by rewrite list_lookup_total_insert_ne.
Qed.

(** One step of either loop: the item of [j] moves to the hole at [pos]. *)
Definition swapped a pos j (t : HeapItem R) : list (HeapItem R) :=
  <[j := t]> (<[pos := a !!! j]> a).

Lemma swapped_perm a pos j t :
  (pos < length a)%nat -> (j < length a)%nat -> pos <> j ->
  swapped a pos j t ≡ₚ <[pos := t]> a.
Proof.
  intros Hp Hj Hne. unfold swapped.
  destruct (lookup_lt_is_Some_2 a j Hj) as [y Hy].
  rewrite (list_lookup_total_correct _ _ _ Hy).
  rewrite <- (Permutation_insert_swap (<[pos := t]> a) pos j t y).
  - by rewrite list_insert_insert_eq.
  - by rewrite list_lookup_insert_eq.
  - by rewrite list_lookup_insert_ne.
Qed.

Lemma hval_swapped a pos j t i :
  (pos < length a)%nat -> (j < length a)%nat ->
  hval (swapped a pos j t) i =
    if decide (i = j) then val t else if decide (i = pos) then hval a j else hval a i.
Proof. intros Hp Hj. unfold swapped. rewrite !hval_insert by (rewrite ?length_insert; done). done. Qed.

Lemma length_swapped a pos j t : length (swapped a pos j t) = length a.
Proof. unfold swapped. by rewrite !length_insert. Qed.

Context `{RL : !RefStoreLaws R W}.

Lemma refs_ne a i j x y :
  NoDup (refs a) -> a !! i = Some x -> a !! j = Some y -> i <> j -> ref x <> ref y.
Proof.
  intros Hnd Hx Hy Hij E. apply Hij. apply (NoDup_lookup (refs a) i j (ref x)); [done| |].
  - unfold refs. by rewrite list_lookup_fmap, Hx.
  - unfold refs. by rewrite list_lookup_fmap, Hy, E.
Qed.

(** Moving an item into the hole keeps the references coherent. *)
Lemma refs_step a pos j t w :
  (pos < length a)%nat -> (j < length a)%nat -> pos <> j ->
  NoDup (refs (<[pos := t]> a)) -> refs_but pos (<[pos := t]> a) w ->
  refs_but j (swapped a pos j t) (set_ref (ref (a !!! j)) (Z.of_nat pos) w).
Proof.
  intros Hp Hj Hne Hnd [Hr Hl]. destruct (lookup_lt_is_Some_2 a j Hj) as [y Hy].
  rewrite (list_lookup_total_correct _ _ _ Hy). unfold swapped.
  rewrite (list_lookup_total_correct _ _ _ Hy).
  assert (Hbj : <[pos := t]> a !! j = Some y) by (by rewrite list_lookup_insert_ne).
  assert (Hbp : <[pos := t]> a !! pos = Some t) by (by rewrite list_lookup_insert_eq).
  split.
  - intros i x Hx Hij. rewrite list_lookup_insert_ne in Hx by done.
    destruct (decide (i = pos)) as [->|Hip].
    + rewrite list_lookup_insert_eq in Hx by done. simplify_eq.
      apply get_set_ref_eq. rewrite (Hr j x); eauto.
    + rewrite list_lookup_insert_ne in Hx by done.
      assert (Hbi : <[pos := t]> a !! i = Some x) by (by rewrite list_lookup_insert_ne).
      rewrite get_set_ref_ne by (eapply (refs_ne _ j i); eauto). eauto.
  - intros x Hx. rewrite list_lookup_insert_eq in Hx by (by rewrite length_insert). simplify_eq.
    rewrite get_set_ref_ne by (eapply (refs_ne _ j pos); eauto). eauto.
Qed.

Lemma refs_done a pos t w :
  (pos < length a)%nat -> NoDup (refs (<[pos := t]> a)) -> refs_but pos (<[pos := t]> a) w ->
  refs_at (<[pos := t]> a) (set_ref (ref t) (Z.of_nat pos) w).
Proof.
  intros Hp Hnd [Hr Hl] i x Hx.
  assert (Hbp : <[pos := t]> a !! pos = Some t) by (by rewrite list_lookup_insert_eq).
  destruct (decide (i = pos)) as [->|Hip].
  - rewrite Hbp in Hx. simplify_eq. apply get_set_ref_eq. auto.
  - rewrite get_set_ref_ne by (eapply (refs_ne _ pos i); eauto). eauto.
Qed.

(** What a repair of the array [b] in memory [w] delivers. *)
Definition repaired b w (res : list (HeapItem R) * W) : Prop :=
  res.1 ≡ₚ b /\ heap_ordered res.1 /\ refs_at res.1 res.2 /\
  (forall r, r ∉ refs b -> get_ref r res.2 = get_ref r w).

Lemma repaired_done a pos t w :
  (pos < length a)%nat -> NoDup (refs (<[pos := t]> a)) -> refs_but pos (<[pos := t]> a) w ->
  heap_ordered (<[pos := t]> a) -> repaired (<[pos := t]> a) w (put pos t a w).
Proof.
  intros Hp Hnd Hr Ho. split_and!; [done|done|by apply refs_done|].
  intros r Hnin. apply get_set_ref_ne. intros <-. apply Hnin, list_elem_of_fmap.
  exists t. split; [done|]. apply (list_elem_of_lookup_2 _ pos). by rewrite list_lookup_insert_eq.
Qed.

Lemma repaired_step a pos j t w res :
  (pos < length a)%nat -> (j < length a)%nat -> pos <> j ->
  repaired (swapped a pos j t) (set_ref (ref (a !!! j)) (Z.of_nat pos) w) res ->
  repaired (<[pos := t]> a) w res.
Proof.
  intros Hp Hj Hne (Hperm & Ho & Hr & Hf). pose proof (swapped_perm a pos j t Hp Hj Hne) as Hs.
  split_and!; [by rewrite Hperm|done|done|].
  intros r Hnin. rewrite Hf.
  - apply get_set_ref_ne. intros <-. apply Hnin, list_elem_of_fmap. exists (a !!! j). split; [done|].
    apply (list_elem_of_lookup_2 _ j). rewrite list_lookup_insert_ne by done. by apply list_lookup_lookup_total_lt.
  - unfold refs in *. by rewrite Hs.
Qed.

(** The two loops, each with its own shape of "ordered but for the hole". *)
Definition up_order b pos : Prop :=
  forall i, (0 < i < length b)%nat ->
    (i <> pos -> hval b (heap_parent i) <= hval b i) /\
    (heap_parent i = pos -> (0 < pos)%nat -> hval b (heap_parent pos) <= hval b i).

Definition down_order b pos : Prop :=
  forall i, (0 < i < length b)%nat ->
    (heap_parent i <> pos -> hval b (heap_parent i) <= hval b i) /\
    (heap_parent i = pos -> (0 < pos)%nat -> hval b (heap_parent pos) <= hval b i).

(** Rewrite the values of updated arrays, split on the positions, use what is known. *)
Ltac order_cases :=
  rewrite ?hval_swapped, ?hval_insert in * by (rewrite ?length_insert; lia);
  repeat (case_decide; subst); rewrite ?Nat.eqb_refl in *; try lia; try congruence.

Lemma up_order_step a pos t :
  (0 < pos < length a)%nat -> val t < hval a (heap_parent pos) ->
  up_order (<[pos := t]> a) pos -> up_order (swapped a pos (heap_parent pos) t) (heap_parent pos).
Proof.
  intros Hp Hlt Ho i Hi. rewrite length_swapped in Hi.
  pose proof (heap_parent_lt pos ltac:(lia)) as Hpp.
  pose proof (heap_parent_lt i ltac:(lia)) as Hpi.
  destruct (Ho i) as [Ha Hb]; [by rewrite length_insert|].
  assert (HP : (0 < heap_parent pos)%nat ->
    hval a (heap_parent (heap_parent pos)) <= hval a (heap_parent pos) /\
    (heap_parent (heap_parent pos) < heap_parent pos)%nat).
  { intros Hz. pose proof (heap_parent_lt _ Hz). split; [|done].
    destruct (Ho (heap_parent pos)) as [Hc _]; [rewrite length_insert; lia|].
    specialize (Hc ltac:(lia)). order_cases. }
  rewrite !hval_insert in Ha, Hb by lia. rewrite !hval_swapped by lia. split.
  - intros Hne. repeat case_decide; subst; try lia.
    replace (heap_parent i) with (heap_parent pos) in * by done. lia.
  - intros Hpar Hz. specialize (HP Hz). rewrite Hpar in *. repeat case_decide; subst; lia.
Qed.

Lemma heap_up_loop_spec fuel a pos t w :
  (pos < fuel)%nat -> (pos < length a)%nat ->
  NoDup (refs (<[pos := t]> a)) -> refs_but pos (<[pos := t]> a) w -> up_order (<[pos := t]> a) pos ->
  repaired (<[pos := t]> a) w (heap_up_loop fuel a pos t w).
Proof.
  revert a pos w. induction fuel as [|f IH]; intros a pos w Hf Hp Hnd Hr Ho; [lia|].
  cbn [heap_up_loop].
  destruct ((0 <? pos)%nat && (val t <? val (a !!! heap_parent pos))) eqn:E; bool_facts.
  - pose proof (heap_parent_lt pos ltac:(lia)) as Hpp. cbn [put].
    apply (repaired_step a pos (heap_parent pos)); [lia..|].
    apply IH; rewrite ?length_insert; [lia|lia| | |].
    + unfold refs. by rewrite (swapped_perm a pos (heap_parent pos) t) by lia.
    + apply refs_step; [lia..|done|done].
    + apply up_order_step; [lia|done|done].
  - apply repaired_done; [done..|]. intros i Hi. destruct (Ho i Hi) as [Ha _].
    destruct (decide (i = pos)) as [->|Hne]; [|by apply Ha]. pose proof (heap_parent_lt pos ltac:(lia)).
    rewrite length_insert in Hi. apply andb_false_iff in E as [E|E]; bool_facts; [lia|].
    rewrite !hval_insert by done. rewrite decide_False, decide_True by lia. done.
Qed.

Lemma min_child_spec a pos t len :
  let m := min_child a pos t len in
  (m = pos \/ ((m = heap_left pos \/ m = heap_right pos) /\ (m < len)%nat /\ hval a m < val t)) /\
  (forall c, (c = heap_left pos \/ c = heap_right pos) -> (c < len)%nat ->
     (if decide (m = pos) then val t else hval a m) <= hval a c).
Proof.
  unfold min_child, hval. pose proof (eq_refl (heap_left pos)) as El. pose proof (eq_refl (heap_right pos)) as Er.
  unfold heap_left at 2 in El. unfold heap_right at 2 in Er.
  destruct ((heap_left pos <? len)%nat && (val (a !!! heap_left pos) <? val t)) eqn:E1;
  match goal with |- context [(heap_right pos <? len)%nat && ?b] =>
    destruct ((heap_right pos <? len)%nat && b) eqn:E2 end; bool_facts; cbn zeta;
  (split; [lia|intros c [-> | ->] Hc; case_decide]); try lia;
  repeat match goal with H : _ && _ = false |- _ => apply andb_false_iff in H as [H|H] end; blia.
Qed.

Lemma down_order_step a pos j t :
  (pos < length a)%nat -> (j < length a)%nat -> heap_parent j = pos -> (pos < j)%nat ->
  hval a j < val t -> (forall c, (0 < c < length a)%nat -> heap_parent c = pos -> hval a j <= hval a c) ->
  down_order (<[pos := t]> a) pos -> down_order (swapped a pos j t) j.
Proof.
  intros Hp Hj Hpj Hlt Hv Hmin Ho i Hi. rewrite length_swapped in Hi.
  pose proof (heap_parent_lt i ltac:(lia)) as Hpi.
  destruct (Ho i) as [Ha Hb]; [by rewrite length_insert|].
  destruct (Ho j) as [_ Hc]; [rewrite length_insert; lia|]. specialize (Hc Hpj).
  rewrite !hval_insert in Ha, Hb, Hc by lia. rewrite !hval_swapped by lia. split.
  - intros Hne. specialize (Hmin i ltac:(lia)). repeat case_decide; subst; try lia; try congruence.
  - intros Hpar Hz. rewrite Hpar in *. rewrite Hpj in *. repeat case_decide; subst; try lia.
Qed.

Lemma heap_down_loop_spec fuel a pos len t w :
  len = length a -> (length a - pos < fuel)%nat -> (pos < length a)%nat ->
  NoDup (refs (<[pos := t]> a)) -> refs_but pos (<[pos := t]> a) w -> down_order (<[pos := t]> a) pos ->
  repaired (<[pos := t]> a) w (heap_down_loop fuel a pos len t w).
Proof.
  revert a pos w. induction fuel as [|f IH]; intros a pos w -> Hf Hp Hnd Hr Ho; [lia|].
  cbn [heap_down_loop]. destruct (min_child_spec a pos t (length a)) as [Hm Hmin].
  assert (Hmin' : forall c, (0 < c < length a)%nat -> heap_parent c = pos ->
    (if decide (min_child a pos t (length a) = pos) then val t
     else hval a (min_child a pos t (length a))) <= hval a c).
  { intros c Hc Hpc. apply Hmin; [|lia]. apply heap_parent_spec; [lia|done]. }
  clear Hmin. generalize dependent (min_child a pos t (length a)). intros j Hm Hmin.
  destruct (j =? pos)%nat eqn:E; bool_facts.
  - apply repaired_done; [done..|]. intros i Hi. destruct (Ho i Hi) as [Ha _].
    pose proof (heap_parent_lt i ltac:(lia)). rewrite length_insert in Hi.
    destruct (decide (heap_parent i = pos)) as [Hpar|]; [|by apply Ha].
    specialize (Hmin i Hi Hpar). rewrite decide_True in Hmin by done.
    rewrite Hpar, !hval_insert by done. rewrite decide_True, decide_False by lia. done.
  - destruct Hm as [?|(Hc & Hj & Hv)]; [done|]. cbn [put].
    assert (Hpj : heap_parent j = pos) by (apply heap_parent_spec; unfold heap_left, heap_right in Hc; [lia|done]).
    assert (Hlt : (pos < j)%nat) by (unfold heap_left, heap_right in Hc; lia).
    apply (repaired_step a pos j); [lia..|]. 
    apply IH; rewrite ?length_insert; [done|lia|lia| | |].
    + unfold refs. by rewrite (swapped_perm a pos j t) by lia.
    + apply refs_step; [lia..|done|done].
    + apply down_order_step; [done..| |done]. intros c Hcc Hpc. specialize (Hmin c Hcc Hpc).
      rewrite decide_False in Hmin by done. done.
Qed.

(** [heap_update] repairs an array that is ordered but for one position. *)
Lemma heap_update_spec a pos w :
  (pos < length a)%nat -> NoDup (refs a) -> refs_but pos a w -> near a pos ->
  repaired a w (heap_update a pos (length a) w).
Proof.
  intros Hp Hnd Hr Hn. unfold heap_update, heap_up, heap_down.
  destruct (lookup_lt_is_Some_2 a pos Hp) as [t Ht]. rewrite (list_lookup_total_correct _ _ _ Ht).
  assert (Ea : <[pos := t]> a = a) by (by apply list_insert_id).
  assert (Et : hval a pos = val t) by (unfold hval; by rewrite (list_lookup_total_correct _ _ _ Ht)).
  destruct ((0 <? pos)%nat && (val t <? val (a !!! heap_parent pos))) eqn:E; bool_facts.
  - rewrite <- Ea at 1. apply heap_up_loop_spec; rewrite ?Ea; [lia|done..|].
    intros i Hi. destruct (Hn i Hi) as [Ha Hb]. split; [|done].
    intros Hne. destruct (decide (heap_parent i = pos)) as [Hpar|]; [|auto].
    specialize (Hb Hpar ltac:(lia)). rewrite Hpar, Et. unfold hval in *. lia.
  - rewrite <- Ea at 1. apply heap_down_loop_spec; rewrite ?Ea; [done|lia|done..|].
    intros i Hi. destruct (Hn i Hi) as [Ha Hb]. split; [|done].
    intros Hne. destruct (decide (i = pos)) as [->|]; [|auto].
    apply andb_false_iff in E as [E|E]; bool_facts; [lia|]. rewrite Et. done.
Qed.

(** Memory properties that single reference writes keep are kept by a repair. *)
Lemma heap_update_frame (P : W -> Prop) a pos len w :
  (forall r v w, P w -> P (set_ref r v w)) -> P w -> P (heap_update a pos len w).2.
Proof.
  intros Hset Hw. unfold heap_update, heap_up, heap_down.
  assert (Hup : forall fuel a pos t w, P w -> P (heap_up_loop fuel a pos t w).2).
  { induction fuel as [|f IH]; intros; cbn; [done|]. case_match; cbn; eauto. }
  assert (Hdown : forall fuel a pos t w, P w -> P (heap_down_loop fuel a pos len t w).2).
  { induction fuel as [|f IH]; intros; cbn; [done|]. case_match; cbn; eauto. }
  case_match; eauto.
Qed.

(** ** The heap invariant and the three operations *)

Definition heap_ok a w : Prop := heap_ordered a /\ refs_at a w /\ NoDup (refs a).

Lemma repaired_ok b w res : NoDup (refs b) -> repaired b w res -> heap_ok res.1 res.2.
Proof.
  intros Hnd (Hp & Ho & Hr & _). split_and!; [done..|]. unfold refs. by rewrite Hp.
Qed.

Lemma ordered_near a pos x :
  heap_ordered a -> (pos < length a)%nat -> near (<[pos := x]> a) pos.
Proof.
  intros Ho Hp i Hi. rewrite length_insert in Hi. pose proof (heap_parent_lt i ltac:(lia)).
  rewrite !hval_insert by done. split.
  - intros H1 H2. rewrite !decide_False by done. by apply Ho.
  - intros <- Hz. pose proof (heap_parent_lt _ Hz). rewrite !decide_False by lia.
    pose proof (Ho _ Hi). specialize (Ho (heap_parent i) ltac:(lia)). lia.
Qed.

Lemma refs_insert_same a pos x y :
  a !! pos = Some y -> ref y = ref x -> refs (<[pos := x]> a) = refs a.
Proof.
  intros Hy E. unfold refs. rewrite list_fmap_insert, <- E. apply list_insert_id.
  by rewrite list_lookup_fmap, Hy.
Qed.

Lemma heap_upsert_present a pos t y w :
  heap_ok a w -> a !! pos = Some y -> ref y = ref t ->
  repaired (<[pos := t]> a) w (heap_upsert a (Z.of_nat pos) t w) /\ refs (<[pos := t]> a) = refs a.
Proof.
  intros (Ho & Hr & Hnd) Hy E. pose proof (lookup_lt_Some _ _ _ Hy) as Hp.
  pose proof (refs_insert_same a pos t y Hy E) as Erefs. split; [|done].
  unfold heap_upsert. rewrite (proj2 (Z.ltb_lt _ _)) by lia. rewrite Nat2Z.id.
  apply heap_update_spec; [by rewrite length_insert|by rewrite Erefs| |by apply ordered_near].
  split.
  - intros i x Hx Hne. rewrite list_lookup_insert_ne in Hx by done. eauto.
  - intros x Hx. rewrite list_lookup_insert_eq in Hx by done. simplify_eq.
    rewrite <- E, (Hr _ _ Hy). eauto.
Qed.

Lemma near_last a x : heap_ordered a -> near (a ++ [x]) (length a).
Proof.
  intros Ho i Hi. rewrite length_app in Hi. cbn [length] in Hi.
  pose proof (heap_parent_lt i ltac:(lia)) as Hlt. unfold hval. split.
  - intros H1 H2. rewrite !lookup_total_app_l by lia. apply Ho. lia.
  - intros Hpar. lia.
Qed.

Lemma heap_upsert_absent a (pos : Z) t w :
  heap_ok a w -> Z.of_nat (length a) <= pos -> ref t ∉ refs a -> is_Some (get_ref (ref t) w) ->
  repaired (a ++ [t]) w (heap_upsert a pos t w) /\ NoDup (refs (a ++ [t])).
Proof.
  intros (Ho & Hr & Hnd) Hpos Hnin Hlive.
  assert (Hnd' : NoDup (refs (a ++ [t]))).
  { unfold refs. rewrite fmap_app. apply NoDup_app. split_and!; [done| |apply NoDup_singleton].
    intros r Hr1 Hr2. apply list_elem_of_singleton in Hr2. by subst. }
  split; [|done]. unfold heap_upsert. rewrite (proj2 (Z.ltb_ge _ _)) by lia.
  apply heap_update_spec; [rewrite length_app; cbn; lia|done| |by apply near_last].
  split.
  - intros i x Hx Hne. apply lookup_app_Some in Hx as [Hx|[Hge Hx]]; [eauto|].
    apply lookup_lt_Some in Hx. cbn in Hx. lia.
  - intros x Hx. rewrite lookup_app_r, Nat.sub_diag in Hx by done. by simplify_eq/=.
Qed.

Lemma heap_delete_shape a pos x :
  a !! pos = Some x -> (pos < length a - 1)%nat ->
  exists y front, a = front ++ [y] /\ (pos < length front)%nat /\ front !! pos = Some x /\
    take (length a - 1) (<[pos := a !!! (length a - 1)%nat]> a) = <[pos := y]> front.
Proof.
  intros Hx Hp. destruct a as [|y front] using rev_ind; [done|]. clear IHfront.
  rewrite length_app in *. cbn [length] in *. exists y, front.
  replace (length front + 1 - 1)%nat with (length front) in * by lia.
  rewrite lookup_app_l in Hx by done. split_and!; [done..|].
  rewrite lookup_total_app_r by lia. rewrite Nat.sub_diag. cbn.
  rewrite insert_app_l by done. rewrite take_app_length'; [done|by rewrite length_insert].
Qed.

Lemma heap_ordered_take a n : heap_ordered a -> heap_ordered (take n a).
Proof.
  intros Ho i Hi. rewrite length_take in Hi. pose proof (heap_parent_lt i ltac:(lia)).
  unfold hval. rewrite !list_lookup_total_alt, !lookup_take_lt by lia.
  rewrite <- !list_lookup_total_alt. apply Ho. lia.
Qed.

Lemma heap_delete_spec a pos x w :
  heap_ok a w -> a !! pos = Some x ->
  let res := heap_delete a pos w in
  heap_ok res.1 res.2 /\ x :: res.1 ≡ₚ a /\
  (forall r, r ∉ refs res.1 -> get_ref r res.2 = get_ref r w).
Proof.
  intros (Ho & Hr & Hnd) Hx. pose proof (lookup_lt_Some _ _ _ Hx) as Hp. unfold heap_delete.
  rewrite length_insert. destruct (decide (pos < length a - 1)%nat) as [Hlt|Hge].
  - destruct (heap_delete_shape a pos x Hx Hlt) as (y & front & -> & Hpf & Hxf & ->).
    assert (Hperm : x :: <[pos := y]> front ≡ₚ front ++ [y]).
    { pose proof (list_elem_of_split_length _ _ _ Hxf) as (l1 & l2 & -> & ->).
      rewrite insert_app_r_alt by lia. rewrite Nat.sub_diag. cbn. solve_Permutation. }
    assert (Hnd1 : NoDup (refs (x :: <[pos := y]> front))) by (unfold refs; by rewrite Hperm).
    rewrite (proj2 (Nat.ltb_lt _ _)) by (by rewrite length_insert). cbn zeta.
    assert (Hup : repaired (<[pos := y]> front) w
                    (heap_update (<[pos := y]> front) pos (length (<[pos := y]> front)) w)).
    { apply heap_update_spec.
      - by rewrite length_insert.
      - by apply NoDup_cons in Hnd1 as [_ ?].
      - split; intros i; [intros z Hz Hne|intros Hz].
        + rewrite list_lookup_insert_ne in Hz by done. apply Hr. by apply lookup_app_l_Some.
        + rewrite list_lookup_insert_eq in Hz by done. simplify_eq.
          rewrite (Hr (length front) i); [eauto|]. by rewrite lookup_app_r, Nat.sub_diag by done.
      - apply ordered_near; [|done]. rewrite <- (take_app_length front [y]). by apply heap_ordered_take. }
    split_and!.
    + apply (repaired_ok (<[pos := y]> front) w); [by apply NoDup_cons in Hnd1 as [_ ?]|done].
    + destruct Hup as (Hq & _). by rewrite Hq.
    + destruct Hup as (Hq & _ & _ & Hf). intros r Hnin. apply Hf. unfold refs in *. by rewrite <- Hq.
  - assert (pos = length a - 1)%nat as -> by lia.
    rewrite take_insert_ge by lia. rewrite length_take. rewrite (proj2 (Nat.ltb_ge _ _)) by lia. cbn zeta.
    assert (Hperm : x :: take (length a - 1) a ≡ₚ a).
    { transitivity (take (length a - 1) a ++ drop (length a - 1) a); [|by rewrite take_drop].
      rewrite (drop_S _ _ _ Hx), (drop_ge _ (S _)) by lia. apply Permutation_cons_append. }
    split_and!; cbn [fst snd]; [|done|done]. split_and!.
    + by apply heap_ordered_take.
    + intros i z Hz. apply lookup_take_Some in Hz as [Hz _]. eauto.
    + assert (Hnd1 : NoDup (refs (x :: take (length a - 1) a))) by (unfold refs; by rewrite Hperm).
      by apply NoDup_cons in Hnd1 as [_ ?].
Qed.

(** The root is a minimum. *)
Lemma heap_root_min a i : heap_ordered a -> (i < length a)%nat -> hval a 0 <= hval a i.
Proof.
  intros Ho. induction (Nat.lt_wf_0 i) as [i _ IH]. intros Hi.
  destruct (decide (i = 0)%nat) as [->|]; [done|]. pose proof (heap_parent_lt i ltac:(lia)).
  specialize (IH (heap_parent i) ltac:(lia) ltac:(lia)). specialize (Ho i ltac:(lia)). lia.
Qed.
End Heap.

(** ** Properties *)

(** The simplest memory with cells: a finite map. *)
Definition Cells : Type := gmap bytes Z.

#[global] Instance cells_refs : RefStore bytes Cells := {
  get_ref r w := (w : gmap bytes Z) !! r;
  set_ref r v w := alter (fun _ => v) r (w : gmap bytes Z);
}.

#[global] Instance cells_refs_laws : RefStoreLaws bytes Cells.
Proof.
  split.
  - intros r v w [x Hx]. cbn in *. by rewrite lookup_alter_eq, Hx.
  - intros r r' v w Hne. cbn. by rewrite lookup_alter_ne.
Qed.

Section Properties.
Context {R W : Type} `{IR : Inhabited R} `{RS : RefStore R W} `{RL : !RefStoreLaws R W}.

(** C34: The TTL heap keeps its order and its back references.  Over any memory
    of [heap_idx] cells: replacing an owner's item or adding a new one
    (heap_upsert) and removing one from any position (heap_delete) leave a
    min-heap whose items are exactly the old ones with that change, in which
    every item's cell holds the item's position and the cells of other owners
    are untouched, and whose root is a minimum. *)
Theorem heap_ops_correct (a : list (HeapItem R)) (w : W) (Hok : heap_ok a w) :
  (forall pos x t, a !! pos = Some x -> ref x = ref t ->
     let res := heap_upsert a (Z.of_nat pos) t w in
     heap_ok res.1 res.2 /\ res.1 ≡ₚ <[pos := t]> a) /\
  (forall pos t, Z.of_nat (length a) <= pos -> ref t ∉ refs a -> is_Some (get_ref (ref t) w) ->
     let res := heap_upsert a pos t w in heap_ok res.1 res.2 /\ res.1 ≡ₚ t :: a) /\
  (forall pos x, a !! pos = Some x ->
     let res := heap_delete a pos w in
     heap_ok res.1 res.2 /\ x :: res.1 ≡ₚ a /\
     forall r, r ∉ refs res.1 -> get_ref r res.2 = get_ref r w) /\
  (forall x i y, a !! 0%nat = Some x -> a !! i = Some y -> val x <= val y).
Proof.
  split_and!.
  - intros pos x t Hx E. destruct (heap_upsert_present a pos t x w Hok Hx E) as [Hr Hrefs].
    destruct Hok as (_ & _ & Hnd). cbn zeta. split; [apply (repaired_ok (<[pos := t]> a) w); [by rewrite Hrefs|done]|].
    apply Hr.
  - intros pos t Hpos Hn Hl. destruct (heap_upsert_absent a pos t w Hok Hpos Hn Hl) as [Hr Hnd]. cbn zeta.
    split; [by apply (repaired_ok (a ++ [t]) w)|]. destruct Hr as (Hp & _). rewrite Hp.
    symmetry. apply Permutation_cons_append.
  - intros pos x Hx. by apply heap_delete_spec.
  - intros x i y Hx Hy. pose proof (heap_root_min a i (proj1 Hok) (lookup_lt_Some _ _ _ Hy)) as Hm.
    unfold hval in Hm. by rewrite (list_lookup_total_correct _ _ _ Hx), (list_lookup_total_correct _ _ _ Hy) in Hm.
Qed.
End Properties.

Definition demo_heap : list (HeapItem bytes) := [mkItem 3 (bs "a"); mkItem 7 (bs "b")].
Definition demo_cells : Cells := {[ bs "a" := 0; bs "b" := 1; bs "c" := 99 ]}.

Lemma heap_ops_correct_witness :
  let res := heap_upsert demo_heap 99 (mkItem 1 (bs "c")) demo_cells in
  heap_ok res.1 res.2 /\ res.1 ≡ₚ mkItem 1 (bs "c") :: demo_heap.
Proof.
  apply (heap_ops_correct demo_heap demo_cells).
  - split_and!.
    + intros [|[|i]] Hi; vm_compute in Hi; try lia. vm_compute. discriminate.
    + intros [|[|i]] x Hx; cbn in Hx; simplify_eq; reflexivity.
    + repeat constructor; set_solver.
  - vm_compute. discriminate.
  - vm_compute. set_solver.
  - by eexists.
Defined.
