(* ===== verification/Score.v ===== *)
(** * Scores and the order of sorted-set members

    A score is a C++ [double]: an IEEE binary64 value, [spec_float] of the
    Standard Library, compared with its [SFltb]/[SFeqb] (so [-0 == 0], and
    every comparison with a NaN is false).  Names are byte strings compared by
    [memcmp] and then by length, as [zless] of src/src/types/zset.cpp does. *)
From S2P Require Import Prelude.
From Stdlib Require Export Floats.SpecFloat.

Abbreviation score := spec_float (only parsing).

#[global] Instance score_eq_dec : EqDecision spec_float.
Proof. solve_decision. Defined.

Definition not_nan (s : score) : Prop := s <> S754_nan.

#[global] Instance not_nan_dec s : Decision (not_nan s).
Proof. unfold not_nan. apply _. Defined.

(** The sign of [memcmp(a, b, n)]. *)
Fixpoint memcmp (a b : bytes) (n : nat) : Z :=
  match n, a, b with
  | S n', x :: a', y :: b' =>
      if code x <? code y then -1 else if code y <? code x then 1 else memcmp a' b' n'
  | _, _, _ => 0
  end.

(** [memcmp] on the common length, then the shorter one first. *)
Definition name_less (a b : bytes) : bool :=
  let rv := memcmp a b (min (length a) (length b)) in
  if negb (rv =? 0) then rv <? 0 else (length a <? length b)%nat.

(** [(ls, ln) < (s, n)] *)
Definition pair_less (ls : score) (ln : bytes) (s : score) (n : bytes) : bool :=
  if negb (SFeqb ls s) then SFltb ls s else name_less ln n.

(** ** Scores other than NaN are totally preordered *)

(** Position on the line: class and sign, exponent, mantissa. *)
Definition place (s : score) : Z * Z * Z :=
  match s with
  | S754_infinity true => (-2, 0, 0)
  | S754_finite true m e => (-1, - e, Zneg m)
  | S754_zero _ | S754_nan => (0, 0, 0)
  | S754_finite false m e => (1, e, Zpos m)
  | S754_infinity false => (2, 0, 0)
  end.

Definition place_lt (a b : Z * Z * Z) : Prop :=
  a.1.1 < b.1.1 \/ a.1.1 = b.1.1 /\ (a.1.2 < b.1.2 \/ a.1.2 = b.1.2 /\ a.2 < b.2).

Lemma compare_place s t :
  not_nan s -> not_nan t ->
  (SFltb s t = true <-> place_lt (place s) (place t)) /\ (SFeqb s t = true <-> place s = place t).
Proof.
  unfold not_nan, SFltb, SFeqb, place_lt. intros Hs Ht.
  destruct s as [[]|[]| |[] m e], t as [[]|[]| |[] m' e']; cbn; try done;
    try (destruct (Z.compare_spec e e')); subst;
    try (fold (Pos.compare m m'); destruct (Pos.compare_spec m m')); subst; cbn; split; split;
    intros H'; try done; try lia; try (injection H'; lia).
Qed.

Lemma place_of_ltb s t : not_nan s -> not_nan t -> SFltb s t = true <-> place_lt (place s) (place t).
Proof. intros. by apply compare_place. Qed.

Lemma place_of_eqb s t : not_nan s -> not_nan t -> SFeqb s t = true <-> place s = place t.
Proof. intros. by apply compare_place. Qed.

Lemma place_trichotomy a b : place_lt a b \/ a = b \/ place_lt b a.
Proof.
  destruct a as [[a1 a2] a3], b as [[b1 b2] b3]. unfold place_lt. cbn.
  destruct (Z.lt_trichotomy a1 b1) as [|[->|]]; [lia| |lia].
  destruct (Z.lt_trichotomy a2 b2) as [|[->|]]; [lia| |lia].
  destruct (Z.lt_trichotomy a3 b3) as [|[->|]]; [lia|auto|lia].
Qed.

Lemma place_lt_trans a b c : place_lt a b -> place_lt b c -> place_lt a c.
Proof. unfold place_lt. lia. Qed.

Lemma place_lt_irrefl a : ~ place_lt a a.
Proof. unfold place_lt. lia. Qed.

(** ** Names are totally ordered *)

(** Lexicographic order on bytes. *)
Fixpoint lex_less (a b : bytes) : bool :=
  match a, b with
  | _, [] => false
  | [], _ :: _ => true
  | x :: a', y :: b' =>
      if code x <? code y then true else if code y <? code x then false else lex_less a' b'
  end.

Lemma name_less_lex a b : name_less a b = lex_less a b.
Proof.
  unfold name_less. revert b. induction a as [|x a IH]; intros [|y b]; cbn; [done..|].
  destruct (code x <? code y); [done|]. destruct (code y <? code x); [done|]. apply IH.
Qed.

Lemma lex_irrefl a : lex_less a a = false.
Proof. induction a as [|x a IH]; cbn; [done|]. by rewrite Z.ltb_irrefl. Qed.

Lemma lex_trans a b c : lex_less a b = true -> lex_less b c = true -> lex_less a c = true.
Proof.
  revert b c. induction a as [|x a IH]; intros [|y b] [|z c]; cbn; try done.
  destruct (code x <? code y) eqn:E1, (code y <? code z) eqn:E2; bool_facts.
  - intros _ _. by rewrite (proj2 (Z.ltb_lt _ _)) by lia.
  - destruct (code z <? code y) eqn:E3; [done|]. bool_facts. intros _ _. by rewrite (proj2 (Z.ltb_lt _ _)) by lia.
  - destruct (code y <? code x) eqn:E3; [done|]. bool_facts. intros _ _. by rewrite (proj2 (Z.ltb_lt _ _)) by lia.
  - destruct (code y <? code x) eqn:E3, (code z <? code y) eqn:E4; try done. bool_facts.
    rewrite (proj2 (Z.ltb_ge _ _)), (proj2 (Z.ltb_ge _ _)) by lia. apply IH.
Qed.

Lemma lex_trichotomy a b : lex_less a b = true \/ a = b \/ lex_less b a = true.
Proof.
  revert b. induction a as [|x a IH]; intros [|y b]; cbn; auto.
  destruct (code x <? code y) eqn:E1, (code y <? code x) eqn:E2; bool_facts; auto.
  assert (x = y) as <- by (apply code_inj; lia). destruct (IH b) as [?|[->|?]]; auto.
Qed.

(** ** The pairs *)

Section Pairs.
Context (ls rs : score) (ln rn : bytes) (Hl : not_nan ls) (Hr : not_nan rs).

Lemma pair_less_iff :
  pair_less ls ln rs rn = true <->
  place_lt (place ls) (place rs) \/ place ls = place rs /\ lex_less ln rn = true.
Proof.
  unfold pair_less. pose proof (place_of_eqb ls rs Hl Hr) as He.
  pose proof (place_of_ltb ls rs Hl Hr) as Hlt. rewrite name_less_lex.
  pose proof (place_lt_irrefl (place rs)).
  destruct (SFeqb ls rs); cbn; intuition (try congruence).
  all: by replace (place ls) with (place rs) in * by auto.
Qed.
End Pairs.

Lemma pair_less_trans s1 n1 s2 n2 s3 n3 :
  not_nan s1 -> not_nan s2 -> not_nan s3 ->
  pair_less s1 n1 s2 n2 = true -> pair_less s2 n2 s3 n3 = true -> pair_less s1 n1 s3 n3 = true.
Proof.
  intros H1 H2 H3. rewrite !pair_less_iff by done. intros [A|[A A']] [B|[B B']].
  - left. by eapply place_lt_trans.
  - left. by rewrite <- B.
  - left. by rewrite A.
  - right. split; [congruence|]. by eapply lex_trans.
Qed.

Lemma pair_less_irrefl s n : not_nan s -> pair_less s n s n = false.
Proof.
  intros H. apply not_true_iff_false. rewrite pair_less_iff by done.
  intros [A|[_ A]]; [by apply place_lt_irrefl in A|]. by rewrite lex_irrefl in A.
Qed.

Lemma pair_less_total s1 n1 s2 n2 :
  not_nan s1 -> not_nan s2 -> n1 <> n2 ->
  pair_less s1 n1 s2 n2 = false -> pair_less s2 n2 s1 n1 = true.
Proof.
  intros H1 H2 Hn. rewrite <- not_true_iff_false, !pair_less_iff by done. intros A.
  destruct (place_trichotomy (place s1) (place s2)) as [?|[E|?]]; [tauto| |tauto].
  destruct (lex_trichotomy n1 n2) as [?|[?|?]]; [tauto|done|]. right. by split.
Qed.
