(* ===== verification/ZSet.v ===== *)
(** * Sorted sets: src/src/types/zset.{h,cpp}

    A member is one heap object threaded on two structures: the AVL tree
    ordered by (score, name) and the name-keyed hashtable.  Names are unique in
    a sorted set and never change, so the name is the object's identity: the
    tree holds the objects, the hashtable holds names, and [node_at] is the
    [container_of] that goes from a name to the tree node of that object. *)
From stdpp Require Import sorting.
From S2P Require Import Prelude Hashtable HashMap Avl Score.

Record ZNode := mkZNode { score_of : score; name : bytes }.

#[global] Instance ZNode_eq_dec : EqDecision ZNode.
Proof. solve_decision. Defined.

Record ZSet := mkZSet { root : tree ZNode; hmap : HMap bytes }.

Definition ZSet_empty : ZSet := mkZSet Leaf HMap_empty.

(** A pointer to a tree node: the subtree there and its chain of parents. *)
Abbreviation zpos := (tree ZNode * list (frame ZNode))%type.

(** [sizeof(ZNode)]: tree links 32, hash links 16, score 8, length 8. *)
Definition sizeof_ZNode : Z := 64.
Definition sizeof_ptr : Z := 8.
Definition znode_byte (n : bytes) : Z := sizeof_ZNode + Z.of_nat (length n) + sizeof_ptr.

(** [zless] and [zless_raw]. *)
Definition zless (zl : ZNode) (s : score) (n : bytes) : bool := pair_less (score_of zl) (name zl) s n.
Definition zless_node (zl zr : ZNode) : bool := zless zl (score_of zr) (name zr).
Definition zless_raw (zr : ZNode) (s : score) (n : bytes) : bool := pair_less s n (score_of zr) (name zr).

(** ** Operations *)

(** The descent of [tree_insert] to a NULL link. *)
Fixpoint tree_descend (node : ZNode) (t : tree ZNode) (p : list (frame ZNode)) : list (frame ZNode) :=
  match t with
  | Leaf => p
  | Node l x r h c =>
      if zless_node node x then tree_descend node l (FromLeft x r h c :: p)
      else tree_descend node r (FromRight l x h c :: p)
  end.

Definition tree_insert (t : tree ZNode) (node : ZNode) : tree ZNode :=
  avl_fix (avl_init node) (tree_descend node t []).

(** The tree node of the object called [n]. *)
Fixpoint node_at (n : bytes) (t : tree ZNode) (p : list (frame ZNode)) : option zpos :=
  match t with
  | Leaf => None
  | Node l x r h c =>
      if decide (name x = n) then Some (t, p)
      else match node_at n l (FromLeft x r h c :: p) with
           | Some q => Some q
           | None => node_at n r (FromRight l x h c :: p)
           end
  end.

Definition elem_of_pos (q : zpos) : option ZNode :=
  match q.1 with Leaf => None | Node _ x _ _ _ => Some x end.

Definition zset_update (z : ZSet) (n : bytes) (s : score) : ZSet :=
  match node_at n (root z) [] with
  | Some (Node l x r h c, p) =>
      if SFeqb (score_of x) s then z
      else mkZSet (tree_insert (avl_del (Node l x r h c) p) (mkZNode s n)) (hmap z)
  | _ => z
  end.

Definition zset_lookup (z : ZSet) (n : bytes) : option bytes * ZSet :=
  match root z with
  | Leaf => (None, z)
  | _ => let '(r, h) := hm_lookup (hmap z) (str_hash n) (key_eq id n) in (r, mkZSet (root z) h)
  end.

Definition zset_insert (z : ZSet) (n : bytes) (s : score) : bool * ZSet :=
  let '(r, z) := zset_lookup z n in
  match r with
  | Some n' => (false, zset_update z n' s)
  | None =>
      let h := hm_insert (hmap z) (node_of id n) in
      let h := set_elem_bytes h (u64 (elem_bytes h + znode_byte n)) in
      (true, mkZSet (tree_insert (root z) (mkZNode s n)) h)
  end.

(** [zset_delete]: the node is given by its name. *)
Definition zset_delete (z : ZSet) (n : bytes) : ZSet :=
  let '(_, h) := hm_delete (hmap z) (str_hash n) (key_eq id n) in
  match node_at n (root z) [] with
  | Some (t, p) => mkZSet (avl_del t p) (set_elem_bytes h (u64 (elem_bytes h - znode_byte n)))
  | None => mkZSet (root z) h
  end.

Fixpoint seekge_loop (t : tree ZNode) (p : list (frame ZNode)) (found : option zpos)
    (s : score) (n : bytes) : option zpos :=
  match t with
  | Leaf => found
  | Node l x r h c =>
      if zless x s n then seekge_loop r (FromRight l x h c :: p) found s n
      else seekge_loop l (FromLeft x r h c :: p) (Some (t, p)) s n
  end.

Definition zset_seekge (z : ZSet) (s : score) (n : bytes) : option zpos :=
  seekge_loop (root z) [] None s n.

Fixpoint seekle_loop (t : tree ZNode) (p : list (frame ZNode)) (found : option zpos)
    (s : score) (n : bytes) : option zpos :=
  match t with
  | Leaf => found
  | Node l x r h c =>
      if zless_raw x s n then seekle_loop l (FromLeft x r h c :: p) found s n
      else seekle_loop r (FromRight l x h c :: p) (Some (t, p)) s n
  end.

Definition zset_seekle (z : ZSet) (s : score) (n : bytes) : option zpos :=
  seekle_loop (root z) [] None s n.

Definition znode_offset (node : option zpos) (offset : Z) : option zpos :=
  match node with Some (t, p) => avl_offset t p offset | None => None end.

Fixpoint count_below_loop (t : tree ZNode) (acc : Z) (s : score) (inclusive : bool) : Z :=
  match t with
  | Leaf => acc
  | Node l x r _ _ =>
      if SFltb (score_of x) s || (inclusive && SFeqb (score_of x) s)
      then count_below_loop r (acc + (Z.of_nat (avl_cnt l) + 1)) s inclusive
      else count_below_loop l acc s inclusive
  end.

Definition zset_count_below (z : ZSet) (s : score) (inclusive : bool) : Z :=
  count_below_loop (root z) 0 s inclusive.

Fixpoint at_rank_loop (t : tree ZNode) (p : list (frame ZNode)) (rank : Z) : option zpos :=
  match t with
  | Leaf => None
  | Node l x r h c =>
      let left := Z.of_nat (avl_cnt l) in
      if rank <? left then at_rank_loop l (FromLeft x r h c :: p) rank
      else if rank =? left then Some (t, p)
      else at_rank_loop r (FromRight l x h c :: p) (rank - (left + 1))
  end.

Definition zset_at_rank (z : ZSet) (rank : Z) : option zpos := at_rank_loop (root z) [] rank.

Definition zset_clear (z : ZSet) : ZSet := mkZSet Leaf (hm_clear (hmap z)).

(** ** Invariant and abstraction *)

Definition members (z : ZSet) : list ZNode := inorder (root z).

Definition zlt (a b : ZNode) : Prop := zless_node a b = true.

(** The names and the bytes charged for them. *)
Definition names_bytes (l : list ZNode) : Z := foldr (fun x n => znode_byte (name x) + n) 0 l.

Record zset_ok (z : ZSet) : Prop := {
  zok_avl : avl (root z);
  zok_sorted : StronglySorted zlt (members z);
  zok_nan : Forall (fun x => not_nan (score_of x)) (members z);
  zok_names : NoDup (name <$> members z);
  zok_keyed : keyed id (hmap z);
  zok_index : forall n, to_map id (hmap z) !! n = if decide (n ∈ name <$> members z) then Some n else None;
  zok_bytes : elem_bytes (hmap z) = u64 (names_bytes (members z));
}.

(** The scores by name: what clients see. *)
Definition scores_of (l : list ZNode) : gmap bytes score :=
  list_to_map ((fun x => (name x, score_of x)) <$> l).
Definition scores (z : ZSet) : gmap bytes score := scores_of (members z).

(** ** The tree *)

Record tree_ok (t : tree ZNode) : Prop := {
  tok_avl : avl t;
  tok_sorted : StronglySorted zlt (inorder t);
  tok_nan : Forall (fun x => not_nan (score_of x)) (inorder t);
  tok_names : NoDup (name <$> inorder t);
}.

Lemma zlt_trans a b c :
  not_nan (score_of a) -> not_nan (score_of b) -> not_nan (score_of c) ->
  zlt a b -> zlt b c -> zlt a c.
Proof. unfold zlt, zless_node, zless. intros. by apply (pair_less_trans _ _ (score_of b) (name b)). Qed.

Lemma zlt_total a b :
  not_nan (score_of a) -> not_nan (score_of b) -> name a <> name b -> zless_node a b = false -> zlt b a.
Proof. unfold zlt, zless_node, zless. intros. by apply pair_less_total. Qed.

(** The link the descent ends at separates the smaller from the greater members. *)
Lemma tree_descend_spec node t p :
  not_nan (score_of node) -> Forall (fun x => not_nan (score_of x)) (inorder t) ->
  StronglySorted zlt (inorder t) -> name node ∉ name <$> inorder t ->
  Forall (fun x => zlt x node) (before p) -> Forall (zlt node) (after p) ->
  let p' := tree_descend node t p in
  plug Leaf p' = plug t p /\ Forall (fun x => zlt x node) (before p') /\ Forall (zlt node) (after p').
Proof.
  intros Hn. revert p. induction t as [|l IHl x r IHr h c]; intros p Hnan Hs Hnin Hb Ha; cbn zeta; [done|].
  cbn [inorder] in *. rewrite fmap_app, fmap_cons, not_elem_of_app, not_elem_of_cons in Hnin.
  destruct Hnin as (Hnl & Hnx & Hnr).
  apply Forall_app in Hnan as [Hnanl Hnanr]. apply Forall_cons in Hnanr as [Hnanx Hnanr].
  apply StronglySorted_app in Hs as (Hc & Hsl & Hsr). apply StronglySorted_cons in Hsr as [Hxr Hsr].
  cbn [tree_descend]. destruct (zless_node node x) eqn:E.
  - apply IHl; [done..|]. cbn. constructor; [done|]. apply Forall_app. split; [|done].
    rewrite Forall_forall in Hxr, Hnanr |- *. intros y Hy. apply (zlt_trans node x y); auto.
  - assert (Hxn : zlt x node) by (apply zlt_total; auto).
    apply IHr; [done..| |done]. cbn. rewrite !Forall_app. split_and!; [done| |by constructor].
    rewrite Forall_forall in Hnanl |- *. intros y Hy. apply (zlt_trans y x node); auto. apply Hc; [done|]. by left.
Qed.

Lemma tree_insert_spec t node :
  tree_ok t -> not_nan (score_of node) -> name node ∉ name <$> inorder t ->
  tree_ok (tree_insert t node) /\ inorder (tree_insert t node) ≡ₚ node :: inorder t.
Proof.
  intros [Ha Hs Hnan Hnd] Hn Hnin. unfold tree_insert.
  destruct (tree_descend_spec node t [] Hn Hnan Hs Hnin) as (Hp & Hb & Hf); [constructor..|].
  change (plug t []) with t in Hp.
  assert (Hin : inorder t = before (tree_descend node t []) ++ after (tree_descend node t []))
    by (rewrite <- Hp at 1; by rewrite inorder_plug).
  destruct (avl_insert_spec node (tree_descend node t [])) as [Hav Hio]; [by rewrite Hp|].
  assert (Hperm : inorder (avl_fix (avl_init node) (tree_descend node t [])) ≡ₚ node :: inorder t)
    by (rewrite Hio, Hin; by rewrite Permutation_middle).
  split; [|done]. split.
  - done.
  - rewrite Hio. rewrite Hin in Hs. apply StronglySorted_app in Hs as (Hc & Hs1 & Hs2).
    apply StronglySorted_app. split_and!; [|done|by constructor].
    intros x y Hx [->|Hy]%elem_of_cons; [|auto]. rewrite Forall_forall in Hb. auto.
  - rewrite Hperm. by constructor.
  - rewrite Hperm, fmap_cons. by constructor.
Qed.

Lemma node_at_spec n t p :
  match node_at n t p with
  | Some (q, p') => plug q p' = plug t p /\ exists l x r h c, q = Node l x r h c /\ name x = n
  | None => n ∉ name <$> inorder t
  end.
Proof.
  revert p. induction t as [|l IHl x r IHr h c]; intros p; cbn [node_at]; [cbn; by apply not_elem_of_nil|].
  case_decide as E; [split; [done|]; by exists l, x, r, h, c|].
  specialize (IHl (FromLeft x r h c :: p)). destruct (node_at n l _) as [[q p']|]; [done|].
  specialize (IHr (FromRight l x h c :: p)). destruct (node_at n r _) as [[q p']|]; [done|].
  cbn [inorder]. rewrite fmap_app, fmap_cons, not_elem_of_app, not_elem_of_cons. auto.
Qed.

Lemma sorted_remove (l k : list ZNode) x :
  StronglySorted zlt (l ++ x :: k) -> StronglySorted zlt (l ++ k).
Proof.
  rewrite !StronglySorted_app, StronglySorted_cons. intros (Hc & H1 & _ & H2). split_and!; [|done..].
  intros a b Ha Hb. apply Hc; [done|by right].
Qed.

Lemma NoDup_names l : NoDup (name <$> l) -> NoDup l.
Proof. apply NoDup_fmap_1. Qed.

Lemma tree_delete_spec t p l x r h c :
  tree_ok t -> plug (Node l x r h c) p = t ->
  tree_ok (avl_del (Node l x r h c) p) /\ x :: inorder (avl_del (Node l x r h c) p) ≡ₚ inorder t.
Proof.
  intros [Ha Hs Hnan Hnd] Hp. pose proof (avl_del_spec l x r h c p) as Hd. rewrite Hp in Hd.
  destruct (Hd Ha (NoDup_names _ Hnd)) as [Hav Hio].
  assert (Hin : inorder t = (before p ++ inorder l) ++ x :: inorder r ++ after p).
  { rewrite <- Hp, inorder_plug. cbn. by rewrite <- !app_assoc. }
  assert (Hio' : inorder (avl_del (Node l x r h c) p) = (before p ++ inorder l) ++ inorder r ++ after p)
    by (rewrite Hio; by rewrite !app_assoc).
  assert (Hperm : x :: inorder (avl_del (Node l x r h c) p) ≡ₚ inorder t)
    by (rewrite Hio', Hin; by rewrite Permutation_middle).
  split; [|done]. rewrite <- Hperm in Hnan, Hnd. rewrite fmap_cons in Hnd.
  apply Forall_cons in Hnan as [_ Hnan]. apply NoDup_cons in Hnd as [_ Hnd].
  split; [done| |done|done]. rewrite Hio'. rewrite Hin in Hs. by eapply sorted_remove.
Qed.

(** ** Queries *)

Lemma seekge_loop_spec t p found s n :
  not_nan s -> Forall (fun x => not_nan (score_of x)) (inorder t) -> StronglySorted zlt (inorder t) ->
  match seekge_loop t p found s n with
  | Some (q, p') =>
      Some (q, p') = found /\ Forall (fun y => zless y s n = true) (inorder t) \/
      plug q p' = plug t p /\ exists l x r h c, q = Node l x r h c /\ zless x s n = false /\
        exists l1 l2, before p' = before p ++ l1 /\ inorder t = l1 ++ inorder l ++ x :: l2 /\
        Forall (fun y => zless y s n = true) (l1 ++ inorder l)
  | None => found = None /\ Forall (fun y => zless y s n = true) (inorder t)
  end.
Proof.
  intros Hsn. revert p found. induction t as [|l IHl x r IHr h c]; intros p found Hnan Hs.
  { cbn. destruct found as [[q p']|]; [left; split; [done|constructor]|split; [done|constructor]]. }
  cbn [inorder] in Hnan, Hs. apply Forall_app in Hnan as [Hnl Hnr]. apply Forall_cons in Hnr as [Hnx Hnr].
  pose proof Hs as Hs'. apply StronglySorted_app in Hs' as (Hc & Hsl & Hsr).
  apply StronglySorted_cons in Hsr as [_ Hsr]. cbn [seekge_loop]. destruct (zless x s n) eqn:E.
  - assert (Hlow : Forall (fun y => zless y s n = true) (inorder l)).
    { rewrite Forall_forall in Hnl |- *. intros y Hy. eapply pair_less_trans; [by apply Hnl|exact Hnx|done| |exact E].
      apply (Hc y x); [done|by left]. }
    specialize (IHr (FromRight l x h c :: p) found Hnr Hsr).
    destruct (seekge_loop r _ _ _ _) as [[q p']|].
    + destruct IHr as [[-> Hall]|(Hp & l' & x' & r' & h' & c' & -> & Hx' & l1 & l2 & Hb & Hi & Hall)].
      * left. split; [done|]. cbn. apply Forall_app. split; [done|by constructor].
      * right. split; [by rewrite Hp|]. exists l', x', r', h', c'. split_and!; [done..|].
        exists (inorder l ++ x :: l1), l2. cbn in Hb. split_and!.
        -- rewrite Hb. by rewrite <- !app_assoc.
        -- cbn. rewrite Hi. by rewrite <- app_assoc.
        -- rewrite <- app_assoc. apply Forall_app. split; [done|]. by constructor.
    + destruct IHr as [-> Hall]. split; [done|]. cbn. apply Forall_app. split; [done|by constructor].
  - specialize (IHl (FromLeft x r h c :: p) (Some (Node l x r h c, p)) Hnl Hsl).
    destruct (seekge_loop l _ _ _ _) as [[q p']|]; [|by destruct IHl].
    right. destruct IHl as [[[= -> ->] Hall]|(Hp & l' & x' & r' & h' & c' & -> & Hx' & l1 & l2 & Hb & Hi & Hall)].
    + split; [done|]. exists l, x, r, h, c. split_and!; [done..|]. exists [], (inorder r).
      by rewrite app_nil_r.
    + split; [by rewrite Hp|]. exists l', x', r', h', c'. split_and!; [done..|].
      exists l1, (l2 ++ x :: inorder r). split_and!; [done| |done]. cbn. rewrite Hi. by rewrite <- !app_assoc.
Qed.

(** [seekle] mirrors [seekge]: the last member not above the key. *)
Lemma seekle_loop_spec t p found s n :
  not_nan s -> Forall (fun x => not_nan (score_of x)) (inorder t) -> StronglySorted zlt (inorder t) ->
  match seekle_loop t p found s n with
  | Some (q, p') =>
      Some (q, p') = found /\ Forall (fun y => zless_raw y s n = true) (inorder t) \/
      plug q p' = plug t p /\ exists l x r h c, q = Node l x r h c /\ zless_raw x s n = false /\
        exists l1 l2, after p' = l2 ++ after p /\ inorder t = l1 ++ x :: inorder r ++ l2 /\
        Forall (fun y => zless_raw y s n = true) (inorder r ++ l2)
  | None => found = None /\ Forall (fun y => zless_raw y s n = true) (inorder t)
  end.
Proof.
  intros Hsn. revert p found. induction t as [|l IHl x r IHr h c]; intros p found Hnan Hs.
  { cbn. destruct found as [[q p']|]; [left; split; [done|constructor]|split; [done|constructor]]. }
  cbn [inorder] in Hnan, Hs. apply Forall_app in Hnan as [Hnl Hnr]. apply Forall_cons in Hnr as [Hnx Hnr].
  pose proof Hs as Hs'. apply StronglySorted_app in Hs' as (Hc & Hsl & Hsr).
  apply StronglySorted_cons in Hsr as [Hxr Hsr]. cbn [seekle_loop]. destruct (zless_raw x s n) eqn:E.
  - assert (Hhigh : Forall (fun y => zless_raw y s n = true) (inorder r)).
    { rewrite Forall_forall in Hnr, Hxr |- *. intros y Hy.
      apply (pair_less_trans s n (score_of x) (name x)); [done|exact Hnx|by apply Hnr|exact E|by apply Hxr]. }
    specialize (IHl (FromLeft x r h c :: p) found Hnl Hsl).
    destruct (seekle_loop l _ _ _ _) as [[q p']|].
    + destruct IHl as [[-> Hall]|(Hp & l' & x' & r' & h' & c' & -> & Hx' & l1 & l2 & Hb & Hi & Hall)].
      * left. split; [done|]. cbn. apply Forall_app. split; [done|by constructor].
      * right. split; [by rewrite Hp|]. exists l', x', r', h', c'. split_and!; [done..|].
        exists l1, (l2 ++ x :: inorder r). cbn in Hb. split_and!.
        -- rewrite Hb. by rewrite <- !app_assoc.
        -- cbn. rewrite Hi. by rewrite <- !app_assoc, <- app_comm_cons, <- app_assoc.
        -- rewrite app_assoc. apply Forall_app. split; [done|]. by constructor.
    + destruct IHl as [-> Hall]. split; [done|]. cbn. apply Forall_app. split; [done|by constructor].
  - specialize (IHr (FromRight l x h c :: p) (Some (Node l x r h c, p)) Hnr Hsr).
    destruct (seekle_loop r _ _ _ _) as [[q p']|]; [|by destruct IHr].
    right. destruct IHr as [[[= -> ->] Hall]|(Hp & l' & x' & r' & h' & c' & -> & Hx' & l1 & l2 & Hb & Hi & Hall)].
    + split; [done|]. exists l, x, r, h, c. split_and!; [done..|]. exists (inorder l), [].
      by rewrite app_nil_r.
    + split; [by rewrite Hp|]. exists l', x', r', h', c'. split_and!; [done..|].
      exists (inorder l ++ x :: l1), l2. split_and!; [done| |done]. cbn. rewrite Hi. by rewrite <- !app_assoc.
Qed.

(** Scores below a bound form a prefix. *)
Definition below (s : score) (inclusive : bool) (x : ZNode) : Prop :=
  SFltb (score_of x) s || (inclusive && SFeqb (score_of x) s) = true.

#[global] Instance below_dec s i x : Decision (below s i x).
Proof. unfold below. apply _. Defined.

Lemma below_place s i x :
  not_nan s -> not_nan (score_of x) ->
  below s i x <-> place_lt (place (score_of x)) (place s) \/ i = true /\ place (score_of x) = place s.
Proof.
  intros Hs Hx. unfold below. rewrite orb_true_iff, andb_true_iff.
  by rewrite place_of_ltb, place_of_eqb.
Qed.

Lemma below_closed s i x y :
  not_nan s -> not_nan (score_of x) -> not_nan (score_of y) -> zlt x y -> below s i y -> below s i x.
Proof.
  intros Hs Hx Hy Hlt. rewrite !below_place by done. unfold zlt, zless_node, zless in Hlt.
  rewrite pair_less_iff in Hlt by done. destruct Hlt as [Hlt|[-> _]]; [|done].
  intros [H|[_ H]]; left; [by eapply place_lt_trans|by rewrite <- H].
Qed.

Lemma count_below_loop_spec t acc s i :
  avl t -> not_nan s -> Forall (fun x => not_nan (score_of x)) (inorder t) ->
  StronglySorted zlt (inorder t) ->
  count_below_loop t acc s i = acc + Z.of_nat (length (filter (below s i) (inorder t))).
Proof.
  intros Ha Hsn. revert acc Ha. induction t as [|l IHl x r IHr h c]; intros acc Ha Hnan Hs; [cbn; lia|].
  destruct (avl_children _ Ha) as [Hal Har]. cbn [left_of right_of] in Hal, Har.
  cbn [inorder] in *. apply Forall_app in Hnan as [Hnl Hnr]. apply Forall_cons in Hnr as [Hnx Hnr].
  apply StronglySorted_app in Hs as (Hc & Hsl & Hsr). apply StronglySorted_cons in Hsr as [Hxr Hsr].
  cbn [count_below_loop]. rewrite filter_app, length_app, filter_cons.
  rewrite Forall_forall in Hnl, Hnr, Hxr.
  change (SFltb (score_of x) s || i && SFeqb (score_of x) s) with
    (SFltb (score_of x) s || (i && SFeqb (score_of x) s)).
  destruct (SFltb (score_of x) s || (i && SFeqb (score_of x) s)) eqn:E.
  - rewrite decide_True by done. rewrite IHr by (try done; by apply Forall_forall).
    rewrite (list_filter_all (below s i) (inorder l)); [rewrite avl_cnt_length by done; cbn [length]; lia|].
    apply Forall_forall. intros y Hy. apply (below_closed s i y x); auto. apply Hc; [done|by left].
  - rewrite decide_False by (unfold below; congruence). rewrite IHl by (try done; by apply Forall_forall).
    rewrite (list_filter_none (below s i) (inorder r)); [cbn [length]; lia|].
    apply Forall_forall. intros y Hy Hb. apply (below_closed s i x y) in Hb; auto. unfold below in Hb. congruence.
Qed.

Lemma at_rank_loop_spec t p rank :
  avl t ->
  match at_rank_loop t p rank with
  | Some (q, p') =>
      plug q p' = plug t p /\ exists l x r h c, q = Node l x r h c /\ 0 <= rank /\
        inorder t !! Z.to_nat rank = Some x
  | None => rank < 0 \/ Z.of_nat (length (inorder t)) <= rank
  end.
Proof.
  revert p rank. induction t as [|l IHl x r IHr h c]; intros p rank Ha; [cbn; lia|].
  destruct (avl_children _ Ha) as [Hal Har]. cbn [left_of right_of] in Hal, Har.
  cbn [at_rank_loop inorder]. rewrite avl_cnt_length by done.
  destruct (rank <? _) eqn:E1; [|destruct (rank =? _) eqn:E2]; bool_facts.
  - specialize (IHl (FromLeft x r h c :: p) rank Hal). destruct (at_rank_loop l _ _) as [[q p']|].
    + destruct IHl as (Hp & l' & x' & r' & h' & c' & -> & H0 & Hx). split; [done|].
      exists l', x', r', h', c'. split_and!; [done..|]. by apply lookup_app_l_Some.
    + rewrite length_app. cbn [length]. lia.
  - subst. split; [done|]. exists l, x, r, h, c. split_and!; [done|lia|]. rewrite Nat2Z.id. by apply list_lookup_middle.
  - specialize (IHr (FromRight l x h c :: p) (rank - (Z.of_nat (length (inorder l)) + 1)) Har).
    destruct (at_rank_loop r _ _) as [[q p']|].
    + destruct IHr as (Hp & l' & x' & r' & h' & c' & -> & H0 & Hx). split; [done|].
      exists l', x', r', h', c'. split_and!; [done|lia|].
      rewrite lookup_app_r by lia.
      replace (Z.to_nat rank - length (inorder l))%nat
        with (S (Z.to_nat (rank - (Z.of_nat (length (inorder l)) + 1)))) by lia. done.
    + rewrite length_app. cbn [length]. lia.
Qed.

(** ** The operations on the pair of structures *)

Lemma zok_tree z : zset_ok z -> tree_ok (root z).
Proof. intros [H1 H2 H3 H4 H5 H6 H7]. by split. Qed.

Lemma zset_empty_ok : zset_ok ZSet_empty.
Proof.
  destruct (keyed_empty id) as [Hk Hm]. split; try done; try constructor. all: by apply Hk.
Qed.

Lemma scores_cons l x :
  scores_of (x :: l) = <[name x := score_of x]> (scores_of l).
Proof. done. Qed.

Lemma names_of_pairs l : ((fun x => (name x, score_of x)) <$> l).*1 = name <$> l.
Proof. by rewrite <- list_fmap_compose. Qed.

Lemma scores_perm l k : NoDup (name <$> l) -> l ≡ₚ k -> scores_of l = scores_of k.
Proof.
  intros Hnd Hp. unfold scores_of. apply list_to_map_proper; [by rewrite names_of_pairs|by rewrite Hp].
Qed.

Lemma scores_None l n : scores_of l !! n = None <-> n ∉ name <$> l.
Proof. unfold scores_of. rewrite <- names_of_pairs. symmetry. apply not_elem_of_list_to_map. Qed.

Lemma scores_Some l n s :
  NoDup (name <$> l) -> scores_of l !! n = Some s <-> mkZNode s n ∈ l.
Proof.
  intros Hnd. unfold scores_of. rewrite <- elem_of_list_to_map by (by rewrite names_of_pairs).
  rewrite list_elem_of_fmap. split.
  - intros ([s' n'] & [= -> ->] & Hx). done.
  - intros Hx. by exists (mkZNode s n).
Qed.

(** A tree that changed by one member, with the index and charges following. *)
Lemma zset_lookup_spec z n r z' :
  zset_ok z -> zset_lookup z n = (r, z') ->
  zset_ok z' /\ root z' = root z /\ r = (if decide (n ∈ name <$> members z) then Some n else None).
Proof.
  intros Hz H. unfold zset_lookup in H. destruct (root z) as [|l x r0 h c] eqn:Er.
  { injection H as <- <-. split_and!; [done|done|]. unfold members. rewrite Er. cbn.
    rewrite decide_False; [done|]. by apply not_elem_of_nil. }
  destruct (hm_lookup (hmap z) _ _) as [r' h'] eqn:E. injection H as <- <-.
  pose proof Hz as [H1 H2 H3 H4 H5 H6 H7].
  destruct (hm_lookup_map id _ _ _ _ H5 E) as (Hk & Hm & Hb & Hr). rewrite <- Er.
  split_and!; [|done|by rewrite Hr, H6].
  split; cbn [root hmap]; unfold members in *; cbn [root]; try done.
  - intros m. rewrite Hm. apply H6.
  - by rewrite Hb.
Qed.

Lemma names_bytes_perm l k : l ≡ₚ k -> names_bytes l = names_bytes k.
Proof. unfold names_bytes. induction 1; cbn; lia. Qed.

(** Replacing the tree by one with the same names. *)
Lemma zset_retree z t :
  zset_ok z -> tree_ok t -> name <$> inorder t ≡ₚ name <$> members z ->
  zset_ok (mkZSet t (hmap z)).
Proof.
  intros [H1 H2 H3 H4 H5 H6 H7] [T1 T2 T3 T4] Hp. split; unfold members in *; cbn [root hmap]; try done.
  - intros m. rewrite H6. by repeat case_decide; rewrite ?Hp in *.
  - rewrite H7. f_equal.
    assert (Hn : forall l, names_bytes l = foldr (fun m k => znode_byte m + k) 0 (name <$> l)).
    { induction l as [|x l IH]; [done|]. cbn. f_equal. apply IH. }
    rewrite !Hn. clear -Hp. induction Hp; cbn; lia.
Qed.

Lemma zset_update_spec z n s :
  zset_ok z -> not_nan s -> n ∈ name <$> members z ->
  zset_ok (zset_update z n s) /\
  exists s0, scores z !! n = Some s0 /\
    scores (zset_update z n s) = if SFeqb s0 s then scores z else <[n := s]> (scores z).
Proof.
  intros Hz Hs Hin. unfold zset_update. pose proof (node_at_spec n (root z) []) as Hna.
  destruct (node_at n (root z) []) as [[q p]|]; [|done].
  destruct Hna as (Hp & l & x & r & h & c & -> & Hx). change (plug (root z) []) with (root z) in Hp.
  pose proof (zok_tree z Hz) as Ht. pose proof (zok_names z Hz) as Hnd.
  destruct (tree_delete_spec _ _ _ _ _ _ _ Ht Hp) as [Hdt Hdp].
  assert (Hsc : scores z = <[n := score_of x]> (scores_of (inorder (avl_del (Node l x r h c) p)))).
  { unfold scores. rewrite <- Hx, <- scores_cons. symmetry. apply scores_perm; [by rewrite Hdp|done]. }
  assert (Hnn : n ∉ name <$> inorder (avl_del (Node l x r h c) p)).
  { unfold members in Hnd. rewrite <- Hdp, fmap_cons, Hx in Hnd. by apply NoDup_cons in Hnd as [? _]. }
  assert (Hl : scores z !! n = Some (score_of x)) by (by rewrite Hsc, lookup_insert_eq).
  destruct (SFeqb (score_of x) s) eqn:E.
  { split; [done|]. exists (score_of x). by rewrite E. }
  destruct (tree_insert_spec (avl_del (Node l x r h c) p) (mkZNode s n) Hdt Hs Hnn) as [Hit Hip].
  split.
  - apply zset_retree; [done|done|]. rewrite Hip. unfold members. rewrite <- Hdp, !fmap_cons. by rewrite Hx.
  - exists (score_of x). split; [done|]. rewrite E. unfold scores at 1, members. cbn [root].
    rewrite (scores_perm _ _ (tok_names _ Hit) Hip), scores_cons. cbn [name score_of].
    by rewrite Hsc, insert_insert_eq.
Qed.

Lemma zset_insert_spec z n s b z' :
  zset_ok z -> not_nan s -> zset_insert z n s = (b, z') ->
  zset_ok z' /\ b = bool_decide (scores z !! n = None) /\
  scores z' = match scores z !! n with
              | Some s0 => if SFeqb s0 s then scores z else <[n := s]> (scores z)
              | None => <[n := s]> (scores z)
              end.
Proof.
  intros Hz Hs H. unfold zset_insert in H. destruct (zset_lookup z n) as [r z1] eqn:E.
  destruct (zset_lookup_spec _ _ _ _ Hz E) as (Hz1 & Hr1 & ->).
  assert (Hm : members z1 = members z) by (unfold members; by rewrite Hr1).
  assert (Hsc : scores z1 = scores z) by (unfold scores; by rewrite Hm).
  destruct (decide (n ∈ name <$> members z)) as [Hin|Hin]; injection H as <- <-.
  - destruct (zset_update_spec z1 n s Hz1 Hs) as (Hok & s0 & Hs0 & Hsc'); [by rewrite Hm|].
    split; [done|]. rewrite Hsc in Hs0, Hsc'. rewrite Hs0, Hsc'. split; [|done].
    by rewrite bool_decide_eq_false_2.
  - assert (Hnone : scores z !! n = None) by (by apply scores_None).
    rewrite Hnone, bool_decide_eq_true_2 by done.
    destruct (tree_insert_spec (root z1) (mkZNode s n) (zok_tree _ Hz1) Hs) as [Ht Hp].
    { by rewrite Hr1. }
    pose proof Hz1 as [H1 H2 H3 H4 H5 H6 H7].
    destruct (hm_insert_map id (hmap z1) n H5) as (Hk & Hmp & Hb).
    { rewrite H6. rewrite decide_False; [done|]. by rewrite Hm. }
    split; [|split; [done|]].
    + split; unfold members in *; cbn [root hmap]; try apply Ht.
      * by apply keyed_set_bytes.
      * intros m. rewrite (proj2 (keyed_set_bytes id _ _ Hk)), Hmp. unfold id.
        rewrite lookup_insert, H6. rewrite (decide_ext (m ∈ name <$> inorder (tree_insert (root z1) (mkZNode s n)))
          (m = n \/ m ∈ name <$> inorder (root z1))) by (by rewrite Hp, fmap_cons, elem_of_cons).
        destruct (decide (n = m)) as [->|]; [by rewrite decide_True by auto|].
        repeat case_decide; try done; naive_solver.
      * cbn [elem_bytes set_elem_bytes]. rewrite Hb, H7. rewrite (names_bytes_perm _ _ Hp). cbn.
        unfold u64. rewrite Zplus_mod_idemp_l. f_equal. fold (names_bytes (inorder (root z1))). lia.
    + unfold scores at 1, members. cbn [root]. rewrite (scores_perm _ _ (tok_names _ Ht) Hp), scores_cons.
      cbn [name score_of]. by rewrite Hr1.
Qed.

Lemma zset_delete_spec z n :
  zset_ok z -> n ∈ name <$> members z ->
  zset_ok (zset_delete z n) /\ scores (zset_delete z n) = delete n (scores z).
Proof.
  intros Hz Hin. unfold zset_delete. pose proof Hz as [H1 H2 H3 H4 H5 H6 H7].
  destruct (hm_delete (hmap z) _ _) as [r h] eqn:E.
  destruct (hm_delete_map id _ _ _ _ H5 E) as (Hk & Hmp & Hb & Hr).
  pose proof (node_at_spec n (root z) []) as Hna.
  destruct (node_at n (root z) []) as [[q p]|]; [|done].
  destruct Hna as (Hp & l & x & r' & hh & c & -> & Hx). change (plug (root z) []) with (root z) in Hp.
  destruct (tree_delete_spec _ _ _ _ _ _ _ (zok_tree _ Hz) Hp) as [Hdt Hdp].
  assert (Hnn : n ∉ name <$> inorder (avl_del (Node l x r' hh c) p)).
  { unfold members in H4. rewrite <- Hdp, fmap_cons, Hx in H4. by apply NoDup_cons in H4 as [? _]. }
  split.
  - split; unfold members in *; cbn [root hmap]; try apply Hdt.
    + by apply keyed_set_bytes.
    + intros m. rewrite (proj2 (keyed_set_bytes id _ _ Hk)), Hmp, lookup_delete, H6.
      rewrite (decide_ext (m ∈ name <$> inorder (root z))
        (m = n \/ m ∈ name <$> inorder (avl_del (Node l x r' hh c) p)))
        by (by rewrite <- Hdp, fmap_cons, elem_of_cons, Hx).
      destruct (decide (n = m)) as [->|]; [by rewrite decide_False|].
      repeat case_decide; try done; naive_solver.
    + cbn [elem_bytes set_elem_bytes]. rewrite Hb, H7. rewrite <- (names_bytes_perm _ _ Hdp). cbn. rewrite Hx.
      unfold u64. rewrite Zminus_mod_idemp_l. f_equal. fold (names_bytes (inorder (avl_del (Node l x r' hh c) p))). lia.
  - unfold scores at 1, members. cbn [root].
    assert (Hsc : scores z = scores_of (x :: inorder (avl_del (Node l x r' hh c) p)))
      by (symmetry; apply scores_perm; [by rewrite Hdp|done]).
    rewrite Hsc, scores_cons, Hx. by rewrite delete_insert_eq, delete_id by (by apply scores_None).
Qed.

(** ** Properties *)

(** ZADD of one member, and ZREM of one member as its handler does it. *)
Inductive ZOp := ZAdd (n : bytes) (s : score) | ZRem (n : bytes).

Definition zset_op (z : ZSet) (o : ZOp) : bool * ZSet :=
  match o with
  | ZAdd n s => zset_insert z n s
  | ZRem n =>
      let '(r, z1) := zset_lookup z n in
      match r with Some n' => (true, zset_delete z1 n') | None => (false, z1) end
  end.

(** On the abstract map an equal score (as [double] compares) leaves the old one. *)
Definition scores_op (m : gmap bytes score) (o : ZOp) : bool * gmap bytes score :=
  match o with
  | ZAdd n s =>
      (bool_decide (m !! n = None),
       match m !! n with Some s0 => if SFeqb s0 s then m else <[n := s]> m | None => <[n := s]> m end)
  | ZRem n => (bool_decide (is_Some (m !! n)), delete n m)
  end.

Definition op_no_nan (o : ZOp) : Prop := match o with ZAdd _ s => not_nan s | ZRem _ => True end.

Lemma scores_member z n : is_Some (scores z !! n) <-> n ∈ name <$> members z.
Proof.
  unfold scores, scores_of. rewrite <- names_of_pairs.
  destruct (list_to_map _ !! n) as [s|] eqn:E.
  - split; [|by eexists]. intros _. apply elem_of_list_to_map_2 in E.
    apply list_elem_of_fmap. by exists (n, s).
  - apply not_elem_of_list_to_map in E. by split; [intros []|].
Qed.

Lemma zset_op_refines z o :
  zset_ok z -> op_no_nan o ->
  zset_ok (zset_op z o).2 /\ (zset_op z o).1 = (scores_op (scores z) o).1 /\
  scores (zset_op z o).2 = (scores_op (scores z) o).2.
Proof.
  intros Hz Ho. destruct o as [n s|n]; cbn.
  - destruct (zset_insert z n s) as [b z'] eqn:E. by destruct (zset_insert_spec _ _ _ _ _ Hz Ho E) as (H1 & H2 & H3).
  - destruct (zset_lookup z n) as [r z1] eqn:E. destruct (zset_lookup_spec _ _ _ _ Hz E) as (H1 & H2 & ->).
    assert (Hm : members z1 = members z) by (unfold members; by rewrite H2).
    assert (Hs : scores z1 = scores z) by (unfold scores; by rewrite Hm).
    pose proof (scores_member z n) as Hi. case_decide as Hin; cbn.
    + destruct (zset_delete_spec z1 n H1) as [D1 D2]; [by rewrite Hm|].
      rewrite bool_decide_true by tauto. by rewrite D2, Hs.
    + rewrite bool_decide_false by tauto. rewrite delete_id; [done|].
      destruct (scores z !! n); [|done]. by destruct Hin; apply Hi.
Qed.

Lemma zset_run_refines ops z :
  zset_ok z -> Forall op_no_nan ops ->
  zset_ok (run_ops zset_op z ops).2 /\ (run_ops zset_op z ops).1 = (run_ops scores_op (scores z) ops).1 /\
  scores (run_ops zset_op z ops).2 = (run_ops scores_op (scores z) ops).2.
Proof.
  intros Hz Ho. revert z Hz. induction Ho as [|o ops Ho Hops IH]; intros z Hz; [done|]. cbn [run_ops].
  destruct (zset_op_refines z o Hz Ho) as (H1 & H2 & H3).
  destruct (zset_op z o) as [r z1], (scores_op (scores z) o) as [r' m1]. cbn [fst snd] in *. subst r' m1.
  destruct (IH z1 H1) as (I1 & I2 & I3).
  destruct (run_ops zset_op z1 ops), (run_ops scores_op (scores z1) ops). cbn [fst snd] in *. by subst.
Qed.

(** C2: A sorted set is a map from names to scores kept in order.  Any sequence
    of additions (scores not NaN) and removals on an empty sorted set answers
    like the same sequence on an abstract map and ends holding that map; the
    members in tree order are strictly sorted by score and then name, no name
    occurs twice, the tree satisfies the AVL balance and count invariants and
    the byte counter is the sum over the members. *)
Theorem zset_refines_scores (ops : list ZOp) (Hnan : Forall op_no_nan ops) :
  let '(rs, z) := run_ops zset_op ZSet_empty ops in
  let '(rs', m) := run_ops scores_op ∅ ops in
  rs = rs' /\ scores z = m /\ StronglySorted zlt (members z) /\ NoDup (name <$> members z) /\
  avl (root z) /\ elem_bytes (hmap z) = u64 (names_bytes (members z)).
Proof.
  destruct (zset_run_refines ops ZSet_empty zset_empty_ok Hnan) as (Hz & H2 & H3).
  change (scores ZSet_empty) with (∅ : gmap bytes score) in *.
  destruct (run_ops zset_op ZSet_empty ops) as [rs z], (run_ops scores_op ∅ ops) as [rs' m].
  cbn [fst snd] in *. destruct Hz. by split_and!.
Qed.

Definition one : score := S754_finite false 4503599627370496 (-52).

Lemma zset_refines_scores_witness :
  let ops := [ZAdd (bs "b") one; ZAdd (bs "a") one; ZAdd (bs "b") (S754_zero false); ZRem (bs "x"); ZRem (bs "a")] in
  let '(rs, z) := run_ops zset_op ZSet_empty ops in
  let '(rs', m) := run_ops scores_op ∅ ops in
  rs = rs' /\ scores z = m /\ StronglySorted zlt (members z) /\ NoDup (name <$> members z) /\
  avl (root z) /\ elem_bytes (hmap z) = u64 (names_bytes (members z)).
Proof.
  apply (zset_refines_scores
    [ZAdd (bs "b") one; ZAdd (bs "a") one; ZAdd (bs "b") (S754_zero false); ZRem (bs "x"); ZRem (bs "a")]).
  repeat constructor; discriminate.
Defined.

Lemma elem_at_index (q : zpos) : q.1 <> Leaf -> elem_of_pos q = inorder (plug q.1 q.2) !! index q.1 q.2.
Proof. destruct q as [[|l x r h c] p]; [done|]. intros _. cbn [fst snd]. by rewrite index_lookup. Qed.

Lemma offset_lookup z t p k :
  avl (root z) -> plug t p = root z -> t <> Leaf ->
  znode_offset (Some (t, p)) k ≫= elem_of_pos =
    let i := Z.of_nat (index t p) + k in if 0 <=? i then members z !! Z.to_nat i else None.
Proof.
  intros Ha Hp Hne. cbn [znode_offset]. rewrite <- Hp in Ha. pose proof (avl_offset_spec t p k Ha Hne) as Hs.
  destruct (avl_offset t p k) as [[t' p']|]; cbn [mbind option_bind].
  - destruct Hs as (Hne' & Hp' & Hi). rewrite elem_at_index by done. cbn [fst snd].
    rewrite Hp', Hp, <- Hi. cbn zeta. rewrite (proj2 (Z.leb_le _ _)) by lia. by rewrite Nat2Z.id.
  - cbn zeta. case_match; [|done]. bool_facts. symmetry. apply lookup_ge_None. unfold members. rewrite <- Hp. lia.
Qed.

(** The order queries agree with the sorted sequence.  zset_at_rank finds
    the member at a rank and nothing outside the range; zset_count_below
    counts the members below a bound; zset_seekge returns the first member not
    below (score, name), or nothing when all are below, and znode_offset then
    steps to the member any distance away, in both directions. *)
Theorem zset_order_queries (z : ZSet) (s : score) (n : bytes) (Hz : zset_ok z) (Hs : not_nan s) :
  (forall i, zset_at_rank z i ≫= elem_of_pos = if 0 <=? i then members z !! Z.to_nat i else None) /\
  (forall incl, zset_count_below z s incl = Z.of_nat (length (filter (below s incl) (members z)))) /\
  match zset_seekge z s n with
  | None => Forall (fun y => zless y s n = true) (members z)
  | Some q => exists j x, members z !! j = Some x /\ zless x s n = false /\
      Forall (fun y => zless y s n = true) (take j (members z)) /\
      forall k, znode_offset (Some q) k ≫= elem_of_pos =
        let i := Z.of_nat j + k in if 0 <=? i then members z !! Z.to_nat i else None
  end.
Proof.
  destruct Hz as [H1 H2 H3 H4 H5 H6 H7]. split_and!.
  - intros i. unfold zset_at_rank. pose proof (at_rank_loop_spec (root z) [] i H1) as Hr.
    destruct (at_rank_loop (root z) [] i) as [[q p]|]; cbn [mbind option_bind].
    + destruct Hr as (_ & l & x & r & h & c & -> & Hi & Hx). rewrite (proj2 (Z.leb_le _ _)) by done. done.
    + case_match; [|done]. bool_facts. symmetry. apply lookup_ge_None. unfold members. lia.
  - intros incl. unfold zset_count_below. by rewrite count_below_loop_spec.
  - unfold zset_seekge. pose proof (seekge_loop_spec (root z) [] None s n Hs H3 H2) as Hg.
    destruct (seekge_loop (root z) [] None s n) as [[q p]|]; [|by destruct Hg].
    destruct Hg as [[? _]|(Hp & l & x & r & h & c & -> & Hx & l1 & l2 & Hb & Hin & Hall)]; [done|].
    cbn [before app] in Hb. change (plug (root z) []) with (root z) in Hp.
    exists (length (l1 ++ inorder l)), x. unfold members. rewrite Hin, app_assoc.
    split_and!; [by apply list_lookup_middle|done|by rewrite take_app_length|].
    intros k. rewrite (offset_lookup z) by done. unfold index, members. rewrite Hb, Hin. cbn [left_of].
    by rewrite app_assoc, length_app.
Qed.

Definition demo_zset : ZSet := (run_ops zset_op ZSet_empty [ZAdd (bs "b") one; ZAdd (bs "a") (S754_zero false)]).2.

Lemma zset_order_queries_witness :
  (forall i, zset_at_rank demo_zset i ≫= elem_of_pos = if 0 <=? i then members demo_zset !! Z.to_nat i else None) /\
  (forall incl, zset_count_below demo_zset one incl = Z.of_nat (length (filter (below one incl) (members demo_zset)))) /\
  match zset_seekge demo_zset one (bs "a") with
  | None => Forall (fun y => zless y one (bs "a") = true) (members demo_zset)
  | Some q => exists j x, members demo_zset !! j = Some x /\ zless x one (bs "a") = false /\
      Forall (fun y => zless y one (bs "a") = true) (take j (members demo_zset)) /\
      forall k, znode_offset (Some q) k ≫= elem_of_pos =
        let i := Z.of_nat j + k in if 0 <=? i then members demo_zset !! Z.to_nat i else None
  end.
Proof.
  apply (zset_order_queries demo_zset one (bs "a")); [|discriminate].
  apply zset_run_refines; [apply zset_empty_ok|]. repeat constructor; discriminate.
Defined.
