(* ===== verification/HashSet.v ===== *)
(** * Hash and set values: src/src/types/hash.{h,cpp}, src/src/types/set.{h,cpp}, src/src/ds/str_node.h

    Both are the chained hashtable with string keys; a hash node carries a
    value string as well.  [elem_bytes] of the table accounts for the nodes. *)
From S2P Require Import Prelude StdString Hashtable HashMap.

(** [HashNode]; the embedded [HNode] is the table's node. *)
Record HashNode := mkHashNode { field : sstr; value : sstr }.

Definition sizeof_HashNode : Z := 80.
Definition sizeof_SetNode : Z := 48.
Definition sizeof_HNode_ptr : Z := 8.

Definition hash_node_bytes (hn : HashNode) : Z :=
  sizeof_HashNode + sizeof_HNode_ptr + s_cap (field hn) + s_cap (value hn).

Definition field_key (hn : HashNode) : bytes := s_data (field hn).

(** [h->elem_bytes += n] *)
Definition charge {A} (h : HMap A) (n : Z) : HMap A := set_elem_bytes h (u64 (elem_bytes h + n)).

Definition hash_set (h : HMap HashNode) (f : bytes) (v : sstr) : bool * HMap HashNode :=
  let '(found, h) := hm_lookup h (str_hash f) (key_eq field_key f) in
  match found with
  | Some hn =>
      let h := charge h (- s_cap (value hn)) in
      let value' := (s_move (value hn) v).1 in
      let h := hm_write h (str_hash f) (key_eq field_key f) (mkHashNode (field hn) value') in
      (false, charge h (s_cap value'))
  | None =>
      let hn := mkHashNode (s_assign s_empty f) (s_move s_empty v).1 in
      let h := hm_insert h (node_of field_key hn) in
      (true, charge h (hash_node_bytes hn))
  end.

Definition hash_get (h : HMap HashNode) (f : bytes) : option HashNode * HMap HashNode :=
  hm_lookup h (str_hash f) (key_eq field_key f).

Definition hash_del (h : HMap HashNode) (f : bytes) : bool * HMap HashNode :=
  let '(found, h) := hm_delete h (str_hash f) (key_eq field_key f) in
  match found with
  | None => (false, h)
  | Some hn => (true, charge h (- hash_node_bytes hn))
  end.

(** [hmap_clear_nodes]: the nodes are collected, the table freed, then they. *)
Definition hash_clear (h : HMap HashNode) : HMap HashNode := hm_clear h.

(** [SetNode]: its member string. *)
Definition set_node_bytes (sn : sstr) : Z := sizeof_SetNode + sizeof_HNode_ptr + s_cap sn.

(** [set_add] takes its member by value; the node steals it. *)
Definition set_add (h : HMap sstr) (m : sstr) : bool * HMap sstr :=
  let '(found, h) := hm_lookup h (str_hash (s_data m)) (key_eq s_data (s_data m)) in
  match found with
  | Some _ => (false, h)
  | None =>
      let sn := (s_move s_empty m).1 in
      let h := hm_insert h (node_of s_data sn) in
      (true, charge h (set_node_bytes sn))
  end.

Definition set_is_member (h : HMap sstr) (m : bytes) : bool * HMap sstr :=
  let '(found, h) := hm_lookup h (str_hash m) (key_eq s_data m) in
  (match found with Some _ => true | None => false end, h).

Definition set_remove (h : HMap sstr) (m : bytes) : bool * HMap sstr :=
  let '(found, h) := hm_delete h (str_hash m) (key_eq s_data m) in
  match found with
  | None => (false, h)
  | Some sn => (true, charge h (- set_node_bytes sn))
  end.

Definition set_clear (h : HMap sstr) : HMap sstr := hm_clear h.

(** ** Invariant and abstraction *)

(** A table of nodes costing [cost], with the charge exact (mod 2^64). *)
Definition table_ok {A} (kf : A -> bytes) (cost : A -> Z) (h : HMap A) : Prop :=
  keyed kf h /\ elem_bytes h = u64 (msum cost (to_map kf h)).

Definition hash_ok : HMap HashNode -> Prop := table_ok field_key hash_node_bytes.
Definition set_ok : HMap sstr -> Prop := table_ok s_data set_node_bytes.

(** What a client of a hash, of a set, sees. *)
Definition hash_map (h : HMap HashNode) : gmap bytes bytes := (fun hn => s_data (value hn)) <$> to_map field_key h.
Definition set_members (h : HMap sstr) : gset bytes := dom (to_map s_data h).

(** ** Lemmas *)


Section Table.
Context {A : Type} (kf : A -> bytes) (cost : A -> Z).
Implicit Types h : HMap A.

Lemma charge_keyed h n : keyed kf h -> keyed kf (charge h n) /\ to_map kf (charge h n) = to_map kf h.
Proof. apply keyed_set_bytes. Qed.

Lemma table_ok_empty : table_ok kf cost HMap_empty.
Proof. split; [apply keyed_empty|]. cbn. by rewrite msum_empty. Qed.

Lemma u64_add_idemp a b : u64 (u64 a + b) = u64 (a + b).
Proof. unfold u64. apply Zplus_mod_idemp_l. Qed.

(** Charging a counter that was exact for [m] by the difference to [m']. *)
Lemma table_ok_charge h m m' n :
  elem_bytes h = u64 (msum cost m) -> keyed kf h -> to_map kf h = m' ->
  msum cost m' = msum cost m + n -> table_ok kf cost (charge h n).
Proof.
  intros Hb Hk Hm Hn. destruct (charge_keyed h n Hk) as [Hk' Hm']. split; [done|].
  rewrite Hm', Hm, Hn. cbn [charge set_elem_bytes elem_bytes]. by rewrite Hb, u64_add_idemp.
Qed.

Lemma table_lookup h k r h' :
  table_ok kf cost h -> hm_lookup h (str_hash k) (key_eq kf k) = (r, h') ->
  table_ok kf cost h' /\ to_map kf h' = to_map kf h /\ r = to_map kf h !! k.
Proof.
  intros [Hk Hb] H. destruct (hm_lookup_map kf _ _ _ _ Hk H) as (Hk' & Hm & Hb' & Hr).
  split_and!; [split; [done|]|done|done]. by rewrite Hm, Hb'.
Qed.

Lemma table_insert h a :
  table_ok kf cost h -> to_map kf h !! kf a = None ->
  table_ok kf cost (charge (hm_insert h (node_of kf a)) (cost a)) /\
  to_map kf (charge (hm_insert h (node_of kf a)) (cost a)) = <[kf a := a]> (to_map kf h).
Proof.
  intros [Hk Hb] Hn. destruct (hm_insert_map kf h a Hk Hn) as (Hk' & Hm & Hb').
  split.
  - apply (table_ok_charge _ (to_map kf h) (<[kf a := a]> (to_map kf h))); [by rewrite Hb'|done|done|].
    rewrite msum_insert by done. lia.
  - by rewrite (proj2 (charge_keyed _ _ Hk')).
Qed.

Lemma table_delete h k a h' :
  table_ok kf cost h -> hm_delete h (str_hash k) (key_eq kf k) = (Some a, h') ->
  table_ok kf cost (charge h' (- cost a)) /\
  to_map kf (charge h' (- cost a)) = delete k (to_map kf h) /\ to_map kf h !! k = Some a.
Proof.
  intros [Hk Hb] H. destruct (hm_delete_map kf _ _ _ _ Hk H) as (Hk' & Hm & Hb' & Hr).
  split_and!; [|by rewrite (proj2 (charge_keyed _ _ Hk'))|done].
  apply (table_ok_charge _ (to_map kf h) (delete k (to_map kf h))); [by rewrite Hb'|done|done|].
  rewrite (msum_delete cost _ _ _ (eq_sym Hr)). lia.
Qed.

Lemma table_delete_none h k h' :
  table_ok kf cost h -> hm_delete h (str_hash k) (key_eq kf k) = (None, h') ->
  table_ok kf cost h' /\ to_map kf h' = to_map kf h /\ to_map kf h !! k = None.
Proof.
  intros [Hk Hb] H. destruct (hm_delete_map kf _ _ _ _ Hk H) as (Hk' & Hm & Hb' & Hr).
  assert (Hid : to_map kf h' = to_map kf h) by (rewrite Hm; by apply delete_id).
  split_and!; [split; [done|]|done|done]. by rewrite Hid, Hb'.
Qed.

(** Overwriting a node in place, with the two-step charge of [hash_set]. *)
Lemma table_write h k a a' n1 n2 :
  table_ok kf cost h -> to_map kf h !! k = Some a -> kf a' = k -> cost a' = cost a + n1 + n2 ->
  let h' := charge (hm_write (charge h n1) (str_hash k) (key_eq kf k) a') n2 in
  table_ok kf cost h' /\ to_map kf h' = <[k := a']> (to_map kf h).
Proof.
  intros [Hk Hb] Ha Hk' Hc. cbn zeta. destruct (charge_keyed h n1 Hk) as [Hk1 Hm1].
  destruct (hm_write_map kf (charge h n1) k a a' Hk1) as (Hk2 & Hm2 & Hb2); [by rewrite Hm1|done|].
  split; [|by rewrite (proj2 (charge_keyed _ _ Hk2)), Hm2, Hm1].
  destruct (charge_keyed _ n2 Hk2) as [Hk3 Hm3]. split; [done|]. rewrite Hm3, Hm2, Hm1.
  rewrite (msum_update cost _ _ _ _ Ha).
  cbn [charge set_elem_bytes elem_bytes]. rewrite Hb2. cbn [charge set_elem_bytes elem_bytes].
  rewrite Hb, (u64_add_idemp _ n1), u64_add_idemp. f_equal. lia.
Qed.
End Table.

Lemma hash_set_spec h f v b h' :
  hash_ok h -> hash_set h f v = (b, h') ->
  hash_ok h' /\ hash_map h' = <[f := s_data v]> (hash_map h) /\ b = bool_decide (hash_map h !! f = None).
Proof.
  intros Hok H. unfold hash_set in H. destruct (hm_lookup h _ _) as [found h1] eqn:E.
  destruct (table_lookup _ _ _ _ _ _ Hok E) as (Hok1 & Hm1 & ->). unfold hash_map.
  destruct (to_map field_key h !! f) as [hn|] eqn:Ef; injection H as <- <-.
  - destruct (s_move_data (value hn) v) as [Hd _].
    assert (Hkey : field_key hn = f).
    { apply to_map_Some in Ef as (n & _ & <- & Hn); [done|apply Hok]. }
    destruct (table_write field_key hash_node_bytes h1 f hn (mkHashNode (field hn) (s_move (value hn) v).1)
      (- s_cap (value hn)) (s_cap (s_move (value hn) v).1) Hok1) as [Hok2 Hm2];
      [by rewrite Hm1|done|unfold hash_node_bytes; cbn [field value]; lia|].
    split_and!; [done| |].
    + cbn zeta in Hm2. rewrite Hm2, Hm1, fmap_insert. cbn [value]. by rewrite Hd.
    + rewrite lookup_fmap, Ef. by rewrite bool_decide_eq_false_2.
  - destruct (s_move_data s_empty v) as [Hd _].
    destruct (table_insert field_key hash_node_bytes h1 (mkHashNode (s_assign s_empty f) (s_move s_empty v).1) Hok1)
      as [Hok2 Hm2]; [by rewrite Hm1|].
    split_and!; [done| |].
    + rewrite Hm2, Hm1, fmap_insert. cbn [value]. by rewrite Hd.
    + rewrite lookup_fmap, Ef. by rewrite bool_decide_eq_true_2.
Qed.

Lemma hash_get_spec h f r h' :
  hash_ok h -> hash_get h f = (r, h') ->
  hash_ok h' /\ hash_map h' = hash_map h /\ (fun hn => s_data (value hn)) <$> r = hash_map h !! f.
Proof.
  intros Hok H. destruct (table_lookup _ _ _ _ _ _ Hok H) as (Hok1 & Hm1 & ->).
  unfold hash_map. by rewrite Hm1, lookup_fmap.
Qed.

Lemma hash_del_spec h f b h' :
  hash_ok h -> hash_del h f = (b, h') ->
  hash_ok h' /\ hash_map h' = delete f (hash_map h) /\ b = bool_decide (is_Some (hash_map h !! f)).
Proof.
  intros Hok H. unfold hash_del in H. destruct (hm_delete h _ _) as [[hn|] h1] eqn:E; injection H as <- <-.
  - destruct (table_delete _ _ _ _ _ _ Hok E) as (Hok1 & Hm1 & Hf). unfold hash_map.
    rewrite Hm1, fmap_delete, lookup_fmap, Hf. split_and!; [done..|]. by rewrite bool_decide_eq_true_2 by (by eexists).
  - destruct (table_delete_none _ _ _ _ _ Hok E) as (Hok1 & Hm1 & Hf). unfold hash_map.
    rewrite Hm1, lookup_fmap, Hf. split_and!; [done| |].
    + rewrite delete_id; [done|]. by rewrite lookup_fmap, Hf.
    + rewrite bool_decide_eq_false_2; [done|]. by intros [? ?].
Qed.

Lemma set_add_spec h m b h' :
  set_ok h -> set_add h m = (b, h') ->
  set_ok h' /\ set_members h' = {[s_data m]} ∪ set_members h /\
  b = bool_decide (s_data m ∉ set_members h).
Proof.
  intros Hok H. unfold set_add in H. destruct (hm_lookup h _ _) as [found h1] eqn:E.
  destruct (table_lookup _ _ _ _ _ _ Hok E) as (Hok1 & Hm1 & ->). unfold set_members.
  destruct (to_map s_data h !! s_data m) as [sn|] eqn:Ef; injection H as <- <-.
  - assert (Hin : s_data m ∈ dom (to_map s_data h)) by (by apply elem_of_dom_2 in Ef).
    split_and!; [done|rewrite Hm1; set_solver|]. by rewrite bool_decide_eq_false_2 by auto.
  - assert (Hnin : s_data m ∉ dom (to_map s_data h)) by (by apply not_elem_of_dom).
    destruct (s_move_data s_empty m) as [Hd _].
    destruct (table_insert s_data set_node_bytes h1 (s_move s_empty m).1 Hok1) as [Hok2 Hm2];
      [by rewrite Hm1, Hd|].
    split_and!; [done| |by rewrite bool_decide_eq_true_2].
    by rewrite Hm2, Hm1, dom_insert_L, Hd.
Qed.

Lemma set_is_member_spec h m b h' :
  set_ok h -> set_is_member h m = (b, h') ->
  set_ok h' /\ set_members h' = set_members h /\ b = bool_decide (m ∈ set_members h).
Proof.
  intros Hok H. unfold set_is_member in H. destruct (hm_lookup h _ _) as [found h1] eqn:E.
  injection H as <- <-. destruct (table_lookup _ _ _ _ _ _ Hok E) as (Hok1 & Hm1 & ->).
  unfold set_members. rewrite Hm1. split_and!; [done..|].
  destruct (to_map s_data h !! m) eqn:Em.
  - apply elem_of_dom_2 in Em. by rewrite bool_decide_eq_true_2.
  - apply not_elem_of_dom in Em. by rewrite bool_decide_eq_false_2.
Qed.

Lemma set_remove_spec h m b h' :
  set_ok h -> set_remove h m = (b, h') ->
  set_ok h' /\ set_members h' = set_members h ∖ {[m]} /\ b = bool_decide (m ∈ set_members h).
Proof.
  intros Hok H. unfold set_remove in H. destruct (hm_delete h _ _) as [[sn|] h1] eqn:E; injection H as <- <-.
  - destruct (table_delete _ _ _ _ _ _ Hok E) as (Hok1 & Hm1 & Hf). unfold set_members.
    rewrite Hm1, dom_delete_L. split_and!; [done..|]. apply elem_of_dom_2 in Hf. by rewrite bool_decide_eq_true_2.
  - destruct (table_delete_none _ _ _ _ _ Hok E) as (Hok1 & Hm1 & Hf). unfold set_members.
    apply not_elem_of_dom in Hf. rewrite Hm1. split_and!; [done|set_solver|by rewrite bool_decide_eq_false_2].
Qed.

(** ** The nodes of a table, as iteration lists them *)

Lemma keyed_listing {A} (kf : A -> bytes) (h : HMap A) :
  keyed kf h -> NoDup (kf <$> hm_foreach h) /\ length (hm_foreach h) = base.size (to_map kf h) /\
  forall a, a ∈ hm_foreach h <-> to_map kf h !! kf a = Some a.
Proof.
  intros Hk. rewrite hm_foreach_spec by apply Hk. split_and!.
  - rewrite <- list_fmap_compose. apply (keyed_nodup _ _ Hk).
  - rewrite <- hm_foreach_spec, (hm_foreach_map kf h Hk), length_fmap, length_map_to_list by apply Hk. done.
  - intros a. rewrite (to_map_Some kf h _ _ Hk), list_elem_of_fmap. naive_solver.
Qed.

(** The members of a set, in the order of its table. *)
Definition set_list (h : HMap sstr) : list bytes := s_data <$> hm_foreach h.

Lemma set_list_spec h :
  set_ok h -> NoDup (set_list h) /\ length (set_list h) = base.size (set_members h) /\
  forall m, m ∈ set_list h <-> m ∈ set_members h.
Proof.
  intros [Hk _]. destruct (keyed_listing s_data h Hk) as (H1 & H2 & H3). unfold set_list, set_members. split_and!.
  - done.
  - by rewrite length_fmap, size_dom.
  - intros m. rewrite elem_of_dom, list_elem_of_fmap. split.
    + intros (sn & -> & Hn). exists sn. by apply H3.
    + intros [sn Hn]. exists sn. assert (s_data sn = m) as Hm.
      { by apply (to_map_Some s_data h m sn Hk) in Hn as (n & _ & _ & Hn). }
      split; [done|]. apply H3. by rewrite Hm.
Qed.
