(* ===== verification/State.v ===== *)
(** * The keyspace: entries, TTLs, memory accounting (src/src/core/state.{h,cpp})

    The top-level dictionary [g_data.db], the entries on it, the TTL heap and
    the memory counter.  Every [Entry] object is reachable under exactly one
    key and two entries never share a key, so the key is the object's identity:
    [ents] is the memory of entries, the hashtable and the heap hold keys where
    the code holds [Entry *] (respectively [&ent->heap_idx]).  An entry's [type]
    field and its variant are only ever written together ([entry_new]); the
    model keeps the variant and derives the type. *)
From S2P Require Import Prelude StdString Deque Hashtable HashMap Heap Score ZSet HashSet.

(** ** Data *)

(** [EntryValue], and the [T_*] tags. *)
Inductive EntryValue :=
  | VStr (s : sstr)
  | VZSet (z : ZSet)
  | VList (d : Deque)
  | VHash (h : HMap HashNode)
  | VSet (h : HMap sstr).

Inductive EType := T_STR | T_ZSET | T_DLIST | T_HASH | T_SET.

#[global] Instance EType_eq_dec : EqDecision EType.
Proof. solve_decision. Defined.

Definition NO_TTL : Z := UINT64_MAX.

Record Entry := mkEntry { ekey : sstr; heap_idx : Z; mem : Z; lru : Z; eval : EntryValue }.

Definition type (e : Entry) : EType :=
  match eval e with
  | VStr _ => T_STR | VZSet _ => T_ZSET | VList _ => T_DLIST | VHash _ => T_HASH | VSet _ => T_SET
  end.

(** Field writes. *)
Definition with_heap_idx (i : Z) (e : Entry) : Entry := mkEntry (ekey e) i (mem e) (lru e) (eval e).
Definition with_mem (m : Z) (e : Entry) : Entry := mkEntry (ekey e) (heap_idx e) m (lru e) (eval e).
Definition with_lru (l : Z) (e : Entry) : Entry := mkEntry (ekey e) (heap_idx e) (mem e) l (eval e).
Definition with_eval (v : EntryValue) (e : Entry) : Entry := mkEntry (ekey e) (heap_idx e) (mem e) (lru e) v.
Definition with_ekey (k : sstr) (e : Entry) : Entry := mkEntry k (heap_idx e) (mem e) (lru e) (eval e).

Abbreviation Ents := (gmap bytes Entry).

(** The cells the heap's back references reach. *)
#[global] Instance ents_refs : RefStore bytes Ents := {
  get_ref k es := heap_idx <$> es !! k;
  set_ref k i es := alter (with_heap_idx i) k es;
}.

#[global] Instance ents_refs_laws : RefStoreLaws bytes Ents.
Proof.
  split.
  - intros k v es [i Hi]. cbn in *. rewrite lookup_alter_eq. by destruct (es !! k).
  - intros k k' v es Hne. cbn. by rewrite lookup_alter_ne.
Qed.

(** A published keyspace notification: class bit, event, key. *)
Definition NOTIFY_EXPIRED : Z := 2 ^ 8.
Definition event : Type := Z * bytes * bytes.

(** The part of [GlobalData] that holds the data set. *)
Record Keyspace := mkKS {
  db : HMap bytes;
  ents : Ents;
  heap : list (HeapItem bytes);
  used_memory : Z;
  events : list event;
}.

Definition ks_empty : Keyspace := mkKS HMap_empty ∅ [] 0 [].

Definition with_db (h : HMap bytes) (s : Keyspace) : Keyspace := mkKS h (ents s) (heap s) (used_memory s) (events s).
Definition with_ents (es : Ents) (s : Keyspace) : Keyspace := mkKS (db s) es (heap s) (used_memory s) (events s).
Definition with_timers (p : list (HeapItem bytes) * Ents) (s : Keyspace) : Keyspace :=
  mkKS (db s) p.2 p.1 (used_memory s) (events s).
Definition with_used (n : Z) (s : Keyspace) : Keyspace := mkKS (db s) (ents s) (heap s) n (events s).

(** A write to one entry. *)
Definition upd (k : bytes) (f : Entry -> Entry) (s : Keyspace) : Keyspace := with_ents (alter f k (ents s)) s.

Definition notify_keyspace_event (class : Z) (ev key : bytes) (s : Keyspace) : Keyspace :=
  mkKS (db s) (ents s) (heap s) (used_memory s) (events s ++ [(class, ev, key)]).

(** ** Operations *)

Definition entry_has_ttl (e : Entry) : bool := negb (heap_idx e =? NO_TTL).

Definition entry_new (t : EType) : Entry :=
  mkEntry s_empty NO_TTL 0 0
    match t with
    | T_STR => VStr s_empty
    | T_ZSET => VZSet ZSet_empty
    | T_DLIST => VList deque_init
    | T_HASH => VHash HMap_empty
    | T_SET => VSet HMap_empty
    end.

Definition sizeof_Entry : Z := 152.
Definition sizeof_string : Z := 32.

Definition entry_mem_usage (e : Entry) : Z :=
  u64 (sizeof_Entry + s_cap (ekey e) +
       match eval e with
       | VStr s => s_cap s
       | VList d => Z.of_nat (cap d) * sizeof_string + Deque.elem_bytes d
       | VHash h => elem_bytes h
       | VSet h => elem_bytes h
       | VZSet z => elem_bytes (hmap z)
       end).

Definition mem_reaccount (k : bytes) (s : Keyspace) : Keyspace :=
  match ents s !! k with
  | None => s
  | Some e =>
      let now := entry_mem_usage e in
      let used := u64 (used_memory s + now) in
      let used := u64 (used - mem e) in
      with_used used (upd k (with_mem now) s)
  end.

(** [now] is the reading of [get_monotonic_msec()]. *)
Definition entry_set_ttl (now : Z) (k : bytes) (ttl_ms : Z) (s : Keyspace) : Keyspace :=
  match ents s !! k with
  | None => s
  | Some e =>
      if (ttl_ms <? 0) && entry_has_ttl e then
        upd k (with_heap_idx NO_TTL) (with_timers (heap_delete (heap s) (Z.to_nat (heap_idx e)) (ents s)) s)
      else if 0 <=? ttl_ms then
        let item := mkItem (u64 (now + ttl_ms)) k in
        with_timers (heap_upsert (heap s) (heap_idx e) item (ents s)) s
      else s
  end.

(** [entry_del]: discharge, leave the heap, free (here or on a worker thread). *)
Definition entry_del (now : Z) (k : bytes) (s : Keyspace) : Keyspace :=
  match ents s !! k with
  | None => s
  | Some e =>
      let s := with_used (u64 (used_memory s - mem e)) s in
      let s := entry_set_ttl now k (-1) s in
      with_ents (delete k (ents s)) s
  end.

(** [hm_delete(&g_data.db, &ent->node, &hnode_same)] *)
Definition db_unlink (k : bytes) (s : Keyspace) : Keyspace :=
  with_db (hm_delete (db s) (str_hash k) (key_eq id k)).2 s.

(** [hm_lookup(&g_data.db, &key.node, &entry_eq)] *)
Definition db_lookup (k : bytes) (s : Keyspace) : option bytes * Keyspace :=
  let '(r, h) := hm_lookup (db s) (str_hash k) (key_eq id k) in (r, with_db h s).

(** [hm_insert(&g_data.db, &ent->node)] of a fresh entry whose key is set. *)
Definition db_link (k : bytes) (e : Entry) (s : Keyspace) : Keyspace :=
  with_db (hm_insert (db s) (node_of id k)) (with_ents (<[k := e]> (ents s)) s).

Definition expire_if_needed (now : Z) (k : bytes) (s : Keyspace) : bool * Keyspace :=
  match ents s !! k with
  | None => (false, s)
  | Some e =>
      if negb (entry_has_ttl e) then (false, s)
      else if now <? val (heap s !!! Z.to_nat (heap_idx e)) then (false, s)
      else
        let s := notify_keyspace_event NOTIFY_EXPIRED (bs "expired") k s in
        (true, entry_del now k (db_unlink k s))
  end.

(** The TTL part of the event loop's [process_timers] (src/src/server/server.cpp). *)
Definition k_max_works : nat := 2000.

Fixpoint expire_loop (fuel nworks : nat) (now : Z) (s : Keyspace) : Keyspace :=
  match fuel, heap s with
  | S f, top :: _ =>
      if val top <=? now then
        let k := ref top in
        let s := db_unlink k s in
        let s := notify_keyspace_event NOTIFY_EXPIRED (bs "expired") k s in
        let s := entry_del now k s in
        if (k_max_works <=? nworks)%nat then s else expire_loop f (S nworks) now s
      else s
  | _, _ => s
  end.

Definition process_ttl_timers (now : Z) (s : Keyspace) : Keyspace :=
  expire_loop (S (length (heap s))) 0 now s.

(** ** Abstraction: what a client sees under a key *)

Inductive AVal :=
  | AStr (b : bytes)
  | AZSet (m : gmap bytes score)
  | AList (l : list bytes)
  | AHash (m : gmap bytes bytes)
  | ASet (m : gset bytes).

Definition aval (v : EntryValue) : AVal :=
  match v with
  | VStr s => AStr (s_data s)
  | VZSet z => AZSet (scores z)
  | VList d => AList (content d)
  | VHash h => AHash (hash_map h)
  | VSet h => ASet (set_members h)
  end.

(** Values by key, and deadlines (monotonic ms) by key. *)
Definition vals (s : Keyspace) : gmap bytes AVal := (fun e => aval (eval e)) <$> ents s.
Definition ttl_map (h : list (HeapItem bytes)) : gmap bytes Z := list_to_map ((fun x => (ref x, val x)) <$> h).
Definition ttls (s : Keyspace) : gmap bytes Z := ttl_map (heap s).

(** ** Invariant *)

Definition value_ok (v : EntryValue) : Prop :=
  match v with
  | VStr s => s_ok s
  | VZSet z => zset_ok z
  | VList d => deque_inv d
  | VHash h => hash_ok h
  | VSet h => set_ok h
  end.

(** Heap and entries agree on who has a TTL and where. *)
Definition timers_ok (h : list (HeapItem bytes)) (es : Ents) : Prop :=
  heap_ok h es /\ map_Forall (fun k e => heap_idx e = NO_TTL \/ k ∈ refs h) es.

Record ks_ok (s : Keyspace) : Prop := {
  ks_keyed : keyed id (db s);
  ks_index : forall k, to_map id (db s) !! k = (fun _ => k) <$> ents s !! k;
  ks_key : map_Forall (fun k e => s_data (ekey e) = k) (ents s);
  ks_val : map_Forall (fun _ e => value_ok (eval e)) (ents s);
  ks_timers : timers_ok (heap s) (ents s);
  ks_room : Z.of_nat (base.size (ents s)) < NO_TTL;
  ks_mem : used_memory s = u64 (msum mem (ents s));
}.

(** Between commands every entry's charge is its current size. *)
Definition accounted (s : Keyspace) : Prop := map_Forall (fun _ e => mem e = entry_mem_usage e) (ents s).

(** Every charge but that of [k] is current. *)
Definition accounted_but (k : bytes) (s : Keyspace) : Prop :=
  map_Forall (fun j e => j = k \/ mem e = entry_mem_usage e) (ents s).

Lemma accounted_weaken k s : accounted s -> accounted_but k s.
Proof. intros H j e He. right. by apply (H j). Qed.

(** ** Changes to [heap_idx] only *)

Definition strip : Entry -> Entry := with_heap_idx 0.
Definition same_data (es es' : Ents) : Prop := strip <$> es' = strip <$> es.

Lemma same_data_refl es : same_data es es.
Proof. done. Qed.

Lemma same_data_trans a b c : same_data a b -> same_data b c -> same_data a c.
Proof. unfold same_data. congruence. Qed.

Lemma same_data_set k i es : same_data es (alter (with_heap_idx i) k es).
Proof.
  unfold same_data. apply map_eq. intros j. rewrite !lookup_fmap.
  destruct (decide (k = j)) as [->|]; [rewrite lookup_alter_eq|by rewrite lookup_alter_ne].
  by destruct (es !! j).
Qed.

Lemma same_data_lookup es es' k e' :
  same_data es es' -> es' !! k = Some e' -> exists e, es !! k = Some e /\ e' = with_heap_idx (heap_idx e') e.
Proof.
  intros H He. assert (Hk : (strip <$> es') !! k = (strip <$> es) !! k) by (by rewrite H).
  rewrite !lookup_fmap, He in Hk. destruct (es !! k) as [e|]; [|done]. exists e. split; [done|].
  cbn in Hk. unfold strip, with_heap_idx in *. destruct e', e. cbn in *. congruence.
Qed.

Lemma same_data_fmap {B} (f : Entry -> B) es es' :
  (forall e i, f (with_heap_idx i e) = f e) -> same_data es es' -> f <$> es' = f <$> es.
Proof.
  intros Hf H. assert (Hs : forall m : Ents, f <$> m = f <$> (strip <$> m)).
  { intros m. rewrite <- map_fmap_compose. apply map_fmap_ext. intros. symmetry. apply Hf. }
  by rewrite (Hs es'), (Hs es), H.
Qed.

Lemma same_data_Forall (P : bytes -> Entry -> Prop) es es' :
  (forall k e i, P k e -> P k (with_heap_idx i e)) ->
  same_data es es' -> map_Forall P es -> map_Forall P es'.
Proof.
  intros HP Hd H k e' He. destruct (same_data_lookup _ _ _ _ Hd He) as (e & Hk & ->). apply HP. by apply H.
Qed.

Lemma msum_fmap {A B} (g : B -> Z) (f : A -> B) (m : gmap bytes A) : msum g (f <$> m) = msum (fun a => g (f a)) m.
Proof.
  unfold msum. rewrite map_to_list_fmap. induction (map_to_list m) as [|[k a] l IH]; cbn in *; [done|].
  by rewrite IH.
Qed.

Lemma same_data_mem es es' : same_data es es' -> msum mem es' = msum mem es.
Proof.
  intros H. pose proof (same_data_fmap mem es es' ltac:(done) H) as Hm.
  pose proof (msum_fmap id mem es) as H1. pose proof (msum_fmap id mem es') as H2.
  rewrite Hm in H2. unfold id in *. change (msum (fun a => mem a)) with (msum mem) in *. congruence.
Qed.

Lemma same_data_size es es' : same_data es es' -> base.size es' = base.size es.
Proof.
  intros H. rewrite <- (map_size_fmap strip es), <- (map_size_fmap strip es'). by rewrite H.
Qed.

(** Everything but the timers carries over to entries with the same data. *)
Lemma ks_ok_retime s h es :
  ks_ok s -> same_data (ents s) es -> timers_ok h es ->
  ks_ok (with_timers (h, es) s) /\ vals (with_timers (h, es) s) = vals s /\
  (accounted s -> accounted (with_timers (h, es) s)).
Proof.
  intros [H1 H2 H3 H4 H5 H6 H7] Hd Ht. split_and!.
  - split; cbn [db ents heap used_memory with_timers fst snd]; try done.
    + intros k. rewrite H2. pose proof (same_data_fmap (fun _ => k) _ _ ltac:(done) Hd) as Hf.
      assert (Hk : ((fun _ : Entry => k) <$> es) !! k = ((fun _ => k) <$> ents s) !! k) by (by rewrite Hf).
      by rewrite !lookup_fmap in Hk.
    + eapply same_data_Forall; [|done|done]. done.
    + eapply same_data_Forall; [|done|done]. done.
    + by rewrite (same_data_size _ _ Hd).
    + by rewrite H7, (same_data_mem _ _ Hd).
  - unfold vals. cbn. by apply same_data_fmap.
  - intros Ha. unfold accounted. cbn. eapply same_data_Forall; [|done|done]. done.
Qed.

(** ** The TTL heap against the entries *)

Lemma ttl_map_perm h h' : NoDup (refs h) -> h ≡ₚ h' -> ttl_map h = ttl_map h'.
Proof.
  intros Hnd Hp. unfold ttl_map. apply list_to_map_proper; [|by rewrite Hp].
  by rewrite <- list_fmap_compose.
Qed.

Lemma ttl_map_None h k : ttl_map h !! k = None <-> k ∉ refs h.
Proof.
  unfold ttl_map, refs. rewrite <- not_elem_of_list_to_map, <- list_fmap_compose. done.
Qed.

Lemma ttl_map_Some h k x : NoDup (refs h) -> x ∈ h -> ref x = k -> ttl_map h !! k = Some (val x).
Proof.
  intros Hnd Hx <-. unfold ttl_map. apply elem_of_list_to_map; [by rewrite <- list_fmap_compose|].
  apply list_elem_of_fmap. by exists x.
Qed.

Lemma refs_sub (h : list (HeapItem bytes)) (es : Ents) : refs_at h es -> forall k, k ∈ refs h -> is_Some (es !! k).
Proof.
  intros Hr k (x & -> & Hx)%list_elem_of_fmap. apply list_elem_of_lookup in Hx as [i Hi].
  specialize (Hr i x Hi). cbn in Hr. by destruct (es !! ref x).
Qed.

Lemma heap_length (h : list (HeapItem bytes)) (es : Ents) : heap_ok h es -> (length h <= base.size es)%nat.
Proof.
  intros (_ & Hr & Hnd). rewrite <- (length_fmap ref h), <- size_dom.
  rewrite <- (size_list_to_set (C := gset bytes) (ref <$> h)) by done. apply subseteq_size.
  intros k Hk. apply elem_of_list_to_set in Hk. apply elem_of_dom. by eapply refs_sub.
Qed.

(** The part of the invariant the TTL operations need; it holds also while an
    entry is off the dictionary. *)
Definition timed (s : Keyspace) : Prop :=
  timers_ok (heap s) (ents s) /\ Z.of_nat (base.size (ents s)) < NO_TTL.

Lemma ks_timed s : ks_ok s -> timed s.
Proof. intros [H1 H2 H3 H4 H5 H6 H7]. by split. Qed.

Lemma timer_of s k e :
  timed s -> ents s !! k = Some e ->
  if entry_has_ttl e
  then exists x, heap s !! Z.to_nat (heap_idx e) = Some x /\ ref x = k /\ ttls s !! k = Some (val x) /\
       heap_idx e = Z.of_nat (Z.to_nat (heap_idx e))
  else heap_idx e = NO_TTL /\ ttls s !! k = None /\ k ∉ refs (heap s).
Proof.
  intros [[Hh Ht] Hroom] He. pose proof Hh as (_ & Hr & Hnd).
  assert (Hin : k ∈ refs (heap s) -> exists x i, heap s !! i = Some x /\ ref x = k /\ heap_idx e = Z.of_nat i /\
            Z.of_nat i < NO_TTL).
  { intros (x & -> & Hx)%list_elem_of_fmap. apply list_elem_of_lookup in Hx as [i Hi].
    exists x, i. split_and!; [done|done| |].
    - specialize (Hr i x Hi). cbn in Hr. rewrite He in Hr. by injection Hr.
    - apply lookup_lt_Some in Hi. pose proof (heap_length _ _ Hh). lia. }
  unfold entry_has_ttl. destruct (heap_idx e =? NO_TTL) eqn:E; bool_facts; cbn [negb].
  - assert (Hnin : k ∉ refs (heap s)) by (intros (x & i & _ & _ & Hi & Hlt)%Hin; lia).
    split_and!; [done|by apply ttl_map_None|done].
  - destruct (Ht k e He) as [?|(x & i & Hx & Hrx & Hi & _)%Hin]; [done|].
    exists x. rewrite Hi, Nat2Z.id. split_and!; [done|done| |lia].
    apply ttl_map_Some; [done|by apply list_elem_of_lookup_2 in Hx|done].
Qed.

Lemma heap_update_same_data (a : list (HeapItem bytes)) (pos len : nat) (es : Ents) :
  same_data es (heap_update a pos len es).2.
Proof.
  apply (heap_update_frame (same_data es)); [|done]. intros r v es' H.
  eapply same_data_trans; [done|]. apply same_data_set.
Qed.

Lemma heap_delete_same_data (a : list (HeapItem bytes)) (pos : nat) (es : Ents) : same_data es (heap_delete a pos es).2.
Proof. unfold heap_delete. case_match; [apply heap_update_same_data|done]. Qed.

Lemma heap_upsert_same_data (a : list (HeapItem bytes)) (pos : Z) (t : HeapItem bytes) (es : Ents) : same_data es (heap_upsert a pos t es).2.
Proof. unfold heap_upsert. case_match; apply heap_update_same_data. Qed.

(** Writing one [heap_idx] that no heap item refers to. *)
Lemma heap_ok_off (h : list (HeapItem bytes)) (k : bytes) (i : Z) (es : Ents) :
  k ∉ refs h -> heap_ok h es -> heap_ok h (alter (with_heap_idx i) k es).
Proof.
  intros Hk (Ho & Hr & Hnd). split_and!; [done| |done]. intros j x Hx. cbn.
  rewrite lookup_alter_ne; [by apply Hr|]. intros ->. apply Hk, list_elem_of_fmap.
  exists x. split; [done|]. by apply list_elem_of_lookup_2 in Hx.
Qed.

(** Entries outside a repaired heap keep their [heap_idx]. *)
Lemma timers_ok_after (h h' : list (HeapItem bytes)) (es es' : Ents) :
  timers_ok h es -> same_data es es' -> heap_ok h' es' ->
  (forall k, k ∉ refs h' -> get_ref k es' = get_ref k es) ->
  (forall k, k ∈ refs h -> k ∈ refs h') -> timers_ok h' es'.
Proof.
  intros [_ Ht] Hd Hh Hf Hsub. split; [done|]. intros k e' He'.
  destruct (decide (k ∈ refs h')) as [|Hnin]; [by right|]. left.
  specialize (Hf k Hnin). cbn in Hf. rewrite He' in Hf.
  destruct (es !! k) as [e|] eqn:He; [|done]. injection Hf as ->.
  destruct (Ht k e He) as [?|?]; [done|]. exfalso. auto.
Qed.

Lemma timers_delete (s : Keyspace) k e :
  timed s -> ents s !! k = Some e -> entry_has_ttl e = true ->
  let p := heap_delete (heap s) (Z.to_nat (heap_idx e)) (ents s) in
  let es := alter (with_heap_idx NO_TTL) k p.2 in
  same_data (ents s) es /\ timers_ok p.1 es /\ ttl_map p.1 = delete k (ttls s).
Proof.
  intros Hs He Httl. pose proof (timer_of s k e Hs He) as Hx. rewrite Httl in Hx.
  destruct Hx as (x & Hx & Hrx & _ & _). destruct Hs as [[Hh Ht] _]. cbn zeta.
  pose proof (heap_delete_spec _ _ _ _ Hh Hx) as Hd. cbn zeta in Hd.
  pose proof (heap_delete_same_data (heap s) (Z.to_nat (heap_idx e)) (ents s)) as Hsd.
  destruct (heap_delete _ _ _) as [h es]. cbn [fst snd] in *. destruct Hd as (Hok & Hp & Hf).
  assert (Hrp : refs (heap s) ≡ₚ k :: refs h) by (unfold refs; by rewrite <- Hp, <- Hrx).
  assert (Hk : k ∉ refs h).
  { destruct Hh as (_ & _ & Hnd). rewrite Hrp in Hnd. by apply NoDup_cons in Hnd as [? _]. }
  split_and!.
  - eapply same_data_trans; [done|apply same_data_set].
  - split; [by apply heap_ok_off|]. intros k' e' He'. destruct (decide (k = k')) as [->|Hne].
    + left. rewrite lookup_alter_eq in He'. destruct (es !! k'); simplify_eq/=. done.
    + rewrite lookup_alter_ne in He' by done. destruct (decide (k' ∈ refs h)) as [|Hnin]; [by right|]. left.
      specialize (Hf k' Hnin). cbn in Hf. rewrite He' in Hf.
      destruct (ents s !! k') as [e0|] eqn:He0; [|done]. injection Hf as ->.
      destruct (Ht k' e0 He0) as [?|Hin]; [done|]. rewrite Hrp in Hin. apply elem_of_cons in Hin as [?|?]; [congruence|done].
  - unfold ttls. destruct Hh as (_ & _ & Hnd). rewrite <- (ttl_map_perm (x :: h) (heap s)); [|by unfold refs; rewrite Hp|done].
    unfold ttl_map at 2. cbn. rewrite Hrx. rewrite delete_insert_eq, delete_id; [done|]. by apply ttl_map_None.
Qed.

Lemma timers_upsert (s : Keyspace) k e at_ms :
  timed s -> ents s !! k = Some e ->
  let p := heap_upsert (heap s) (heap_idx e) (mkItem at_ms k) (ents s) in
  same_data (ents s) p.2 /\ timers_ok p.1 p.2 /\ ttl_map p.1 = <[k := at_ms]> (ttls s).
Proof.
  intros Hs He. pose proof (timer_of s k e Hs He) as Hx. destruct Hs as [Ht Hroom].
  pose proof Ht as [Hh _]. cbn zeta. split; [apply heap_upsert_same_data|].
  pose proof (heap_upsert_same_data (heap s) (heap_idx e) (mkItem at_ms k) (ents s)) as Hsd.
  destruct (entry_has_ttl e) eqn:E.
  - destruct Hx as (x & Hx & Hrx & _ & Hi).
    destruct (heap_upsert_present (heap s) _ (mkItem at_ms k) x (ents s) Hh Hx Hrx) as [Hrep Hrefs].
    rewrite <- Hi in Hrep. pose proof (repaired_ok _ _ _ ltac:(rewrite Hrefs; apply Hh) Hrep) as Hok.
    destruct Hrep as (Hp & _ & _ & Hf). destruct (heap_upsert _ _ _ _) as [h es]. cbn [fst snd] in *.
    assert (Hrp : refs h ≡ₚ refs (heap s)) by (unfold refs in *; by rewrite Hp, <- Hrefs).
    split.
    + apply (timers_ok_after (heap s) h (ents s)); [done..| |].
      * intros k' Hk'. apply Hf. by rewrite Hrefs, <- Hrp.
      * intros k' Hk'. by rewrite Hrp.
    + rewrite (ttl_map_perm h _ ltac:(apply Hok) Hp).
      unfold ttls, ttl_map. rewrite list_fmap_insert. cbn [ref val].
      pose proof (list_elem_of_split_length _ _ _ Hx) as (l1 & l2 & Hl & Hlen).
      rewrite Hl, fmap_app, fmap_cons, Hlen, Hrx. rewrite insert_app_r_alt by (by rewrite length_fmap).
      rewrite length_fmap, Nat.sub_diag. cbn [insert list_insert].
      assert (Hnin : k ∉ ((fun y : HeapItem bytes => (ref y, val y)) <$> l1).*1).
      { rewrite <- list_fmap_compose. destruct Hh as (_ & _ & Hnd). unfold refs in Hnd.
        rewrite Hl, fmap_app, fmap_cons in Hnd. apply NoDup_app in Hnd as (_ & Hd & _).
        intros Hin. apply (Hd k Hin). rewrite Hrx. by left. }
      rewrite !list_to_map_app. cbn [list_to_map]. rewrite !insert_union_r by (by apply not_elem_of_list_to_map).
      by rewrite !list_to_map_cons, insert_insert_eq.
  - destruct Hx as (Hi & _ & Hnin). pose proof (heap_length _ _ Hh).
    destruct (heap_upsert_absent (heap s) (heap_idx e) (mkItem at_ms k) (ents s)) as [Hrep Hnd].
    { done. } { lia. } { done. } { cbn. rewrite He. by eexists. }
    pose proof (repaired_ok _ _ _ Hnd Hrep) as Hok. destruct Hrep as (Hp & _ & _ & Hf).
    destruct (heap_upsert _ _ _ _) as [h es]. cbn [fst snd] in *.
    assert (Hrp : refs h ≡ₚ refs (heap s) ++ [k]) by (unfold refs; by rewrite Hp, fmap_app).
    split.
    + apply (timers_ok_after (heap s) h (ents s)); [done..| |].
      * intros k' Hk'. apply Hf. unfold refs in *. by rewrite <- Hp.
      * intros k' Hk'. rewrite Hrp. apply elem_of_app. by left.
    + rewrite (ttl_map_perm h _ ltac:(apply Hok) Hp).
      rewrite (ttl_map_perm (heap s ++ [mkItem at_ms k]) (mkItem at_ms k :: heap s)); [done|done|].
      by rewrite <- Permutation_cons_append.
Qed.

(** ** The operations *)

Lemma entry_set_ttl_timers s now k e ttl :
  timed s -> ents s !! k = Some e ->
  exists h es, entry_set_ttl now k ttl s = with_timers (h, es) s /\
    same_data (ents s) es /\ timers_ok h es /\
    ttl_map h = (if ttl <? 0 then delete k (ttls s) else <[k := u64 (now + ttl)]> (ttls s)).
Proof.
  intros Hs He. unfold entry_set_ttl. rewrite He. destruct (ttl <? 0) eqn:Et; bool_facts; cbn [andb].
  - destruct (entry_has_ttl e) eqn:E.
    + destruct (timers_delete s k e Hs He E) as (H1 & H2 & H3). eexists _, _. split_and!; [reflexivity|done..].
    + rewrite (proj2 (Z.leb_gt 0 ttl)) by lia. pose proof (timer_of s k e Hs He) as Hx. rewrite E in Hx.
      exists (heap s), (ents s). split_and!; [by destruct s|done|apply Hs|].
      fold (ttls s). rewrite delete_id; [done|apply Hx].
  - rewrite (proj2 (Z.leb_le 0 ttl)) by lia.
    destruct (timers_upsert s k e (u64 (now + ttl)) Hs He) as (H1 & H2 & H3).
    destruct (heap_upsert _ _ _ _) as [h es]. exists h, es. split_and!; done.
Qed.

Lemma entry_set_ttl_spec s now k ttl :
  ks_ok s -> is_Some (ents s !! k) ->
  let s' := entry_set_ttl now k ttl s in
  ks_ok s' /\ vals s' = vals s /\ same_data (ents s) (ents s') /\ (accounted s -> accounted s') /\
  ttls s' = (if ttl <? 0 then delete k (ttls s) else <[k := u64 (now + ttl)]> (ttls s)).
Proof.
  intros Hs [e He]. destruct (entry_set_ttl_timers s now k e ttl (ks_timed s Hs) He) as (h & es & -> & Hd & Ht & Hm).
  destruct (ks_ok_retime s h es Hs Hd Ht) as (H1 & H2 & H3). done.
Qed.

Lemma msum_alter_mem es k e f :
  es !! k = Some e -> msum mem (alter f k es) = mem (f e) - mem e + msum mem es.
Proof.
  intros He. replace (alter f k es) with (<[k := f e]> es); [by apply msum_update|].
  apply map_eq. intros j. destruct (decide (k = j)) as [->|].
  - by rewrite lookup_insert_eq, lookup_alter_eq, He.
  - by rewrite lookup_insert_ne, lookup_alter_ne.
Qed.

(** A write to an entry that leaves its key, its timer and its charge alone. *)
Lemma upd_spec s k e f :
  ks_ok s -> ents s !! k = Some e ->
  ekey (f e) = ekey e -> heap_idx (f e) = heap_idx e -> value_ok (eval (f e)) ->
  ks_ok (with_used (u64 (used_memory s + mem (f e) - mem e)) (upd k f s)) /\
  vals (upd k f s) = <[k := aval (eval (f e))]> (vals s) /\ ttls (upd k f s) = ttls s.
Proof.
  intros [H1 H2 H3 H4 [H5 H5'] H6 H7] He Hk Hi Hv.
  assert (Hl : forall j, alter f k (ents s) !! j = if decide (k = j) then Some (f e) else ents s !! j).
  { intros j. case_decide as E; subst; [by rewrite lookup_alter_eq, He|by rewrite lookup_alter_ne]. }
  split_and!; [split|..]; cbn [db ents heap used_memory with_used upd with_ents].
  - done.
  - intros j. rewrite H2, Hl. case_decide; subst; [by rewrite He|done].
  - intros j e'. rewrite Hl. case_decide; [|by apply H3]. intros [= <-]. subst. rewrite Hk. by apply H3.
  - intros j e'. rewrite Hl. case_decide; [|by apply H4]. by intros [= <-].
  - split.
    + destruct H5 as (Ho & Hr & Hnd). split_and!; [done| |done]. intros i x Hx. specialize (Hr i x Hx).
      cbn in *. rewrite Hl. case_decide; [|done]. subst. rewrite He in Hr. cbn in *. by rewrite Hi.
    + intros j e'. rewrite Hl. case_decide; [|by apply H5']. intros [= <-]. subst. rewrite Hi. by apply H5'.
  - assert (base.size (alter f k (ents s)) = base.size (ents s)) as ->; [|done].
    rewrite <- !size_dom. by rewrite dom_alter_L.
  - rewrite (msum_alter_mem _ _ _ _ He), H7. unfold u64. rewrite <- Z.add_sub_assoc, Zplus_mod_idemp_l. f_equal. lia.
  - unfold vals, upd. cbn. apply map_eq. intros j. rewrite lookup_fmap, Hl.
    destruct (decide (k = j)) as [->|]; [by rewrite lookup_insert_eq|by rewrite lookup_insert_ne, lookup_fmap].
  - done.
Qed.

Lemma used_range s : ks_ok s -> u64 (used_memory s) = used_memory s.
Proof. intros H. rewrite (ks_mem s H). unfold u64. apply Z.mod_mod. lia. Qed.

Lemma with_used_id s : with_used (used_memory s) s = s.
Proof. by destruct s. Qed.

Lemma upd_val_spec s k e v :
  ks_ok s -> ents s !! k = Some e -> value_ok v ->
  ks_ok (upd k (with_eval v) s) /\ vals (upd k (with_eval v) s) = <[k := aval v]> (vals s) /\
  ttls (upd k (with_eval v) s) = ttls s.
Proof.
  intros Hs He Hv. destruct (upd_spec s k e (with_eval v) Hs He) as (H1 & H2 & H3); [done..|].
  split_and!; [|done..]. cbn [mem with_eval] in H1.
  replace (used_memory s + mem e - mem e) with (used_memory s) in H1 by lia.
  rewrite used_range in H1 by done. exact H1.
Qed.

Lemma mem_reaccount_spec s k :
  ks_ok s ->
  let s' := mem_reaccount k s in
  ks_ok s' /\ vals s' = vals s /\ ttls s' = ttls s /\ dom (ents s') = dom (ents s) /\
  (forall j, j <> k -> ents s' !! j = ents s !! j) /\
  (forall e, ents s' !! k = Some e -> mem e = entry_mem_usage e).
Proof.
  intros Hs. cbn zeta. unfold mem_reaccount. destruct (ents s !! k) as [e|] eqn:He.
  2:{ split_and!; try done. intros e. by rewrite He. }
  destruct (upd_spec s k e (with_mem (entry_mem_usage e)) Hs He) as (H1 & H2 & H3); [done..|exact (ks_val s Hs k e He)|].
  split_and!.
  - replace (u64 (u64 (used_memory s + entry_mem_usage e) - mem e))
      with (u64 (used_memory s + entry_mem_usage e - mem e)); [exact H1|].
    unfold u64. by rewrite Zminus_mod_idemp_l.
  - change (vals (with_used ?u ?x)) with (vals x). rewrite H2. apply insert_id. unfold vals. by rewrite lookup_fmap, He.
  - exact H3.
  - cbn. apply dom_alter_L.
  - intros j Hj. cbn. by rewrite lookup_alter_ne.
  - intros e'. cbn. rewrite lookup_alter_eq, He. by intros [= <-].
Qed.

Lemma db_lookup_spec s k r s' :
  ks_ok s -> db_lookup k s = (r, s') ->
  ks_ok s' /\ ents s' = ents s /\ heap s' = heap s /\ events s' = events s /\
  used_memory s' = used_memory s /\ r = (fun _ => k) <$> ents s !! k.
Proof.
  intros [H1 H2 H3 H4 H5 H6 H7] H. unfold db_lookup in H. destruct (hm_lookup _ _ _) as [r' h] eqn:E.
  injection H as <- <-. destruct (hm_lookup_map id _ _ _ _ H1 E) as (Hk & Hm & _ & Hr).
  split_and!; [|done..|by rewrite Hr, H2]. split; cbn; try done. intros j. by rewrite Hm.
Qed.

Lemma db_unlink_spec s k :
  ks_ok s ->
  keyed id (db (db_unlink k s)) /\ to_map id (db (db_unlink k s)) = delete k (to_map id (db s)) /\
  ents (db_unlink k s) = ents s /\ heap (db_unlink k s) = heap s /\ used_memory (db_unlink k s) = used_memory s.
Proof.
  intros Hs. unfold db_unlink. destruct (hm_delete _ _ _) as [r h] eqn:E.
  destruct (hm_delete_map id _ _ _ _ (ks_keyed s Hs) E) as (Hk & Hm & _ & _). done.
Qed.

Lemma same_data_delete es es' k : same_data es es' -> same_data (delete k es) (delete k es').
Proof. unfold same_data. intros H. by rewrite !fmap_delete, H. Qed.

Lemma timers_ok_drop (h : list (HeapItem bytes)) (es : Ents) k :
  timers_ok h es -> k ∉ refs h -> timers_ok h (delete k es).
Proof.
  intros [(Ho & Hr & Hnd) Ht] Hnin. split; [|by apply map_Forall_delete].
  split_and!; [done| |done]. intros i x Hx. specialize (Hr i x Hx). cbn in *.
  rewrite lookup_delete_ne; [done|]. intros ->. apply Hnin, list_elem_of_fmap. exists x.
  split; [done|]. by apply list_elem_of_lookup_2 in Hx.
Qed.

(** Entries without [k], off the dictionary and off the heap. *)
Lemma ks_ok_drop s k e db' h es evs :
  ks_ok s -> ents s !! k = Some e ->
  keyed id db' -> to_map id db' = delete k (to_map id (db s)) ->
  same_data (ents s) es -> timers_ok h es -> k ∉ refs h ->
  ks_ok (mkKS db' (delete k es) h (u64 (used_memory s - mem e)) evs) /\
  (accounted_but k s -> accounted (mkKS db' (delete k es) h (u64 (used_memory s - mem e)) evs)).
Proof.
  intros [H1 H2 H3 H4 H5 H6 H7] He Hk Hm Hd Ht Hnin.
  pose proof (same_data_delete _ _ k Hd) as Hdd.
  assert (Hf : forall P, (forall k e i, P k e -> P k (with_heap_idx i e)) ->
             map_Forall P (ents s) -> map_Forall P (delete k es)).
  { intros P HP HF. eapply same_data_Forall; [exact HP|exact Hdd|]. by apply map_Forall_delete. }
  split; [split; cbn [db ents heap used_memory]|].
  - done.
  - intros j. rewrite Hm. destruct (decide (k = j)) as [->|Hne]; [by rewrite !lookup_delete_eq|].
    rewrite !lookup_delete_ne, H2 by done.
    pose proof (same_data_fmap (fun _ => j) _ _ ltac:(done) Hd) as Hj.
    assert (Hl : ((fun _ : Entry => j) <$> es) !! j = ((fun _ => j) <$> ents s) !! j) by (by rewrite Hj).
    by rewrite !lookup_fmap in Hl.
  - by apply Hf.
  - by apply Hf.
  - by apply timers_ok_drop.
  - pose proof (same_data_size _ _ Hdd) as Hsz. rewrite Hsz. rewrite map_size_delete, He. cbn. lia.
  - rewrite (same_data_mem _ _ Hdd), H7. rewrite (msum_delete mem _ _ _ He). unfold u64.
    rewrite Zminus_mod_idemp_l. f_equal. lia.
  - intros Ha. unfold accounted. cbn [ents].
    assert (Hb : map_Forall (fun j e => j = k \/ mem e = entry_mem_usage e) (delete k es)) by (by apply Hf).
    intros j e' He'. destruct (Hb j e' He') as [->|?]; [|done]. by rewrite lookup_delete_eq in He'.
Qed.

(** [hm_delete] of an entry followed by [entry_del]: the key is gone, nothing
    else changes. *)
Definition remove_key (now : Z) (k : bytes) (s : Keyspace) : Keyspace := entry_del now k (db_unlink k s).

Lemma remove_key_spec s now k :
  ks_ok s -> is_Some (ents s !! k) ->
  let s' := remove_key now k s in
  ks_ok s' /\ vals s' = delete k (vals s) /\ ttls s' = delete k (ttls s) /\ events s' = events s /\
  (accounted_but k s -> accounted s') /\ dom (ents s') = dom (ents s) ∖ {[k]}.
Proof.
  intros Hs [e He]. destruct (db_unlink_spec s k Hs) as (Hk & Hm & Hes & Hh & Hu).
  cbn zeta. unfold remove_key, entry_del. rewrite Hes, He, Hu.
  set (s1 := with_used _ (db_unlink k s)).
  assert (Ht1 : timed s1) by (by apply ks_timed in Hs as [? ?]).
  destruct (entry_set_ttl_timers s1 now k e (-1) Ht1) as (h & es & -> & Hd & Ht & Hmap); [exact He|].
  cbn [Z.ltb Z.compare] in Hmap. replace (ents s1) with (ents s) in Hd by (cbn; done).
  assert (Hnin : k ∉ refs h) by (apply ttl_map_None; by rewrite Hmap, lookup_delete_eq).
  destruct (ks_ok_drop s k e (db (db_unlink k s)) h es (events s) Hs He Hk Hm Hd Ht Hnin) as [H1 H2].
  assert (Hdd : dom es = dom (ents s)).
  { pose proof (same_data_fmap (fun _ => tt) _ _ ltac:(done) Hd) as Hf.
    rewrite <- (dom_fmap_L (fun _ => tt) es), Hf. by rewrite dom_fmap_L. }
  split_and!; [exact H1| | |done|exact H2|].
  - unfold vals. cbn. rewrite <- fmap_delete. apply same_data_fmap; [done|]. by apply same_data_delete.
  - exact Hmap.
  - cbn. rewrite dom_delete_L. by rewrite Hdd.
Qed.

Lemma ks_ok_notify s c ev k :
  (ks_ok s -> ks_ok (notify_keyspace_event c ev k s)) /\ vals (notify_keyspace_event c ev k s) = vals s /\
  ttls (notify_keyspace_event c ev k s) = ttls s /\
  (accounted s -> accounted (notify_keyspace_event c ev k s)).
Proof. split_and!; [|done..]. intros []. by split. Qed.

(** The key's deadline has passed. *)
Definition expired (now : Z) (s : Keyspace) (k : bytes) : Prop :=
  match ttls s !! k with Some t => t <= now | None => False end.

#[global] Instance expired_dec now s k : Decision (expired now s k).
Proof. unfold expired. destruct (ttls s !! k); apply _. Defined.

Lemma expired_Some now s k t : ttls s !! k = Some t -> expired now s k <-> t <= now.
Proof. unfold expired. intros ->. tauto. Qed.

Lemma expired_None now s k : ttls s !! k = None -> ~ expired now s k.
Proof. unfold expired. intros ->. tauto. Qed.

Lemma expire_if_needed_spec s now k b s' :
  ks_ok s -> is_Some (ents s !! k) -> expire_if_needed now k s = (b, s') ->
  b = bool_decide (expired now s k) /\ ks_ok s' /\ (accounted s -> accounted s') /\
  (if b then vals s' = delete k (vals s) /\ ttls s' = delete k (ttls s) /\
             events s' = events s ++ [(NOTIFY_EXPIRED, bs "expired", k)] /\
             dom (ents s') = dom (ents s) ∖ {[k]}
   else s' = s).
Proof.
  intros Hs [e He] H. unfold expire_if_needed in H. rewrite He in H.
  pose proof (timer_of s k e (ks_timed s Hs) He) as Hx.
  destruct (entry_has_ttl e) eqn:E; cbn [negb] in H.
  - destruct Hx as (x & Hx & Hrx & Ht & _). rewrite (list_lookup_total_correct _ _ _ Hx) in H.
    destruct (now <? val x) eqn:En; bool_facts; injection H as <- <-.
    + rewrite bool_decide_eq_false_2 by (rewrite (expired_Some _ _ _ _ Ht); lia). done.
    + rewrite bool_decide_eq_true_2 by (rewrite (expired_Some _ _ _ _ Ht); lia). split; [done|].
      set (s1 := notify_keyspace_event _ _ _ s).
      destruct (ks_ok_notify s NOTIFY_EXPIRED (bs "expired") k) as (N1 & N2 & N3 & N4).
      destruct (remove_key_spec s1 now k) as (R1 & R2 & R3 & R4 & R5 & R6); [by apply N1|by eexists|].
      split_and!; [done|auto using accounted_weaken|by rewrite <- N2|by rewrite <- N3|done|done].
  - destruct Hx as (_ & Ht & _). injection H as <- <-. by rewrite bool_decide_eq_false_2 by (by apply expired_None).
Qed.

(** Linking a fresh entry under an absent key. *)
Lemma db_link_spec s k e :
  ks_ok s -> ents s !! k = None -> Z.of_nat (base.size (ents s)) + 1 < NO_TTL ->
  s_data (ekey e) = k -> heap_idx e = NO_TTL -> value_ok (eval e) -> mem e = 0 ->
  let s' := db_link k e s in
  ks_ok s' /\ vals s' = <[k := aval (eval e)]> (vals s) /\ ttls s' = ttls s /\ ttls s !! k = None.
Proof.
  intros Hs Hn Hroom Hk Hi Hv Hmem. pose proof Hs as [H1 H2 H3 H4 [H5 H5'] H6 H7]. cbn zeta.
  destruct (hm_insert_map id (db s) k H1) as (Hkd & Hm & _); [unfold id; by rewrite H2, Hn|].
  assert (Hnin : k ∉ refs (heap s)).
  { intros Hin. destruct H5 as (_ & Hr & _). destruct (refs_sub _ _ Hr k Hin) as [? Hk']. congruence. }
  split_and!; [split; cbn [db ents heap used_memory db_link with_db with_ents]|..].
  - done.
  - intros j. rewrite Hm. unfold id. destruct (decide (k = j)) as [->|]; [by rewrite !lookup_insert_eq|].
    by rewrite !lookup_insert_ne, H2.
  - apply map_Forall_insert_2; done.
  - apply map_Forall_insert_2; done.
  - split; [|apply map_Forall_insert_2; [by left|done]].
    destruct H5 as (Ho & Hr & Hnd). split_and!; [done| |done]. intros i x Hx. specialize (Hr i x Hx). cbn in *.
    rewrite lookup_insert_ne; [done|]. intros ->. apply Hnin, list_elem_of_fmap. exists x.
    split; [done|]. by apply list_elem_of_lookup_2 in Hx.
  - rewrite map_size_insert_None by done. lia.
  - rewrite msum_insert, Hmem, H7 by done. f_equal.
  - unfold vals. cbn. by rewrite fmap_insert.
  - done.
  - by apply ttl_map_None.
Qed.

(** ** The active expiry of the event loop *)

(** [s'] is [s] less some keys whose deadline had passed. *)
Definition only_expired_gone (now : Z) (s s' : Keyspace) : Prop :=
  forall k, (vals s' !! k = vals s !! k /\ ttls s' !! k = ttls s !! k) \/
            (expired now s k /\ vals s' !! k = None /\ ttls s' !! k = None).

Lemma only_expired_gone_refl now s : only_expired_gone now s s.
Proof. intros k. by left. Qed.

Lemma expired_iff now s s' k : ttls s' !! k = ttls s !! k -> expired now s' k <-> expired now s k.
Proof. unfold expired. intros ->. tauto. Qed.

Lemma only_expired_gone_trans now a b c :
  only_expired_gone now a b -> only_expired_gone now b c -> only_expired_gone now a c.
Proof.
  intros H1 H2 k. destruct (H1 k) as [[V1 T1]|(E1 & V1 & T1)], (H2 k) as [[V2 T2]|(E2 & V2 & T2)].
  - left. split; congruence.
  - right. split_and!; [by apply (expired_iff now a b k T1)|done..].
  - right. split_and!; [done|congruence..].
  - by right.
Qed.

Lemma heap_top_expired s top rest :
  ks_ok s -> heap s = top :: rest ->
  ttls s !! ref top = Some (val top) /\ is_Some (ents s !! ref top) /\
  (forall now k, now < val top -> ~ expired now s k).
Proof.
  intros Hs Hh. destruct (ks_timers s Hs) as [(Ho & Hr & Hnd) _].
  assert (Htop : heap s !! 0%nat = Some top) by (by rewrite Hh). split_and!.
  - apply ttl_map_Some; [done|by apply list_elem_of_lookup_2 in Htop|done].
  - specialize (Hr _ _ Htop). cbn in Hr. by destruct (ents s !! ref top).
  - intros now k Hlt Hex. unfold expired in Hex. destruct (ttls s !! k) as [t|] eqn:Et; [|done].
    apply elem_of_list_to_map_2, list_elem_of_fmap in Et as (x & [= -> ->] & Hx).
    apply list_elem_of_lookup in Hx as [i Hi]. pose proof (heap_root_min (heap s) i Ho (lookup_lt_Some _ _ _ Hi)) as Hmin.
    unfold hval in Hmin. rewrite (list_lookup_total_correct _ _ _ Htop), (list_lookup_total_correct _ _ _ Hi) in Hmin. lia.
Qed.

Lemma entry_set_ttl_notify now k t c ev j s :
  entry_set_ttl now k t (notify_keyspace_event c ev j s) = notify_keyspace_event c ev j (entry_set_ttl now k t s).
Proof.
  unfold entry_set_ttl. change (ents (notify_keyspace_event c ev j s)) with (ents s).
  destruct (ents s !! k); [|done]. by repeat case_match.
Qed.

Lemma entry_del_notify now k c ev j s :
  entry_del now k (notify_keyspace_event c ev j s) = notify_keyspace_event c ev j (entry_del now k s).
Proof.
  unfold entry_del. change (ents (notify_keyspace_event c ev j s)) with (ents s).
  destruct (ents s !! k); [|done].
  change (with_used ?u (notify_keyspace_event c ev j s)) with (notify_keyspace_event c ev j (with_used u s)).
  by rewrite entry_set_ttl_notify.
Qed.

Lemma heap_size_ttls s : ks_ok s -> base.size (ttls s) = length (heap s).
Proof.
  intros Hs. destruct (ks_timers s Hs) as [(_ & _ & Hnd) _]. unfold ttls, ttl_map.
  rewrite <- (length_map_to_list (list_to_map _)). rewrite map_to_list_to_map; [by rewrite length_fmap|].
  by rewrite <- list_fmap_compose.
Qed.

Lemma expire_loop_spec fuel nworks now s :
  ks_ok s -> (length (heap s) < fuel)%nat -> (nworks <= k_max_works)%nat ->
  let s' := expire_loop fuel nworks now s in
  ks_ok s' /\ (accounted s -> accounted s') /\ only_expired_gone now s s' /\
  ((forall k, ~ expired now s' k) \/
   (length (heap s) = length (heap s') + (S k_max_works - nworks))%nat).
Proof.
  revert nworks s. induction fuel as [|f IH]; intros nworks s Hs Hf Hn; [lia|].
  cbn zeta. cbn [expire_loop]. destruct (heap s) as [|top rest] eqn:Eh.
  { split_and!; [done|done|apply only_expired_gone_refl|]. left. intros k Hk. unfold expired, ttls in Hk.
    by rewrite Eh in Hk. }
  destruct (heap_top_expired s top rest Hs Eh) as (Htop & Hin & Hmin).
  destruct (val top <=? now) eqn:Ev; bool_facts.
  2:{ split_and!; [done|done|apply only_expired_gone_refl|]. left. intros k. by apply Hmin. }
  set (s1 := entry_del now (ref top) _).
  assert (E1 : s1 = notify_keyspace_event NOTIFY_EXPIRED (bs "expired") (ref top) (remove_key now (ref top) s)).
  { apply entry_del_notify. }
  destruct (remove_key_spec s now (ref top) Hs Hin) as (R1 & R2 & R3 & _ & R5 & _).
  destruct (ks_ok_notify (remove_key now (ref top) s) NOTIFY_EXPIRED (bs "expired") (ref top)) as (N1 & N2 & N3 & N4).
  rewrite <- E1 in *. assert (Hs1 : ks_ok s1) by auto.
  assert (Hgone : only_expired_gone now s s1).
  { intros k. rewrite N2, N3, R2, R3. destruct (decide (ref top = k)) as [<-|].
    - right. rewrite !lookup_delete_eq. split_and!; [|done..]. by apply (expired_Some _ _ _ _ Htop).
    - left. by rewrite !lookup_delete_ne. }
  assert (Hlen : length (heap s) = S (length (heap s1))).
  { rewrite <- !heap_size_ttls, N3, R3 by done. rewrite map_size_delete, Htop. cbn.
    assert (base.size (ttls s) <> 0%nat); [|lia]. rewrite heap_size_ttls, Eh by done. done. }
  rewrite Eh in Hlen. destruct (k_max_works <=? nworks)%nat eqn:Ek; bool_facts.
  - split_and!; [done|auto using accounted_weaken|done|]. right. rewrite Hlen. lia.
  - destruct (IH (S nworks) s1 Hs1) as (I1 & I2 & I3 & I4); [cbn [length] in *; lia|lia|].
    split_and!; [done|auto using accounted_weaken|by eapply only_expired_gone_trans|].
    destruct I4 as [?|I4]; [by left|right]. rewrite Hlen. lia.
Qed.

(** ** Properties *)

(** Setting a deadline.  entry_set_ttl on a stored key replaces that key's
    deadline by now + ttl for a non-negative ttl and removes it for a negative
    one; every other deadline, every value, the dictionary and the memory
    account are unchanged, and the heap, its back references and the entries
    stay consistent. *)
Theorem entry_set_ttl_correct (s : Keyspace) (now : Z) (k : bytes) (ttl : Z)
    (Hok : ks_ok s) (Hk : is_Some (ents s !! k)) (Hrange : 0 <= now + ttl < 2 ^ 64) :
  let s' := entry_set_ttl now k ttl s in
  ks_ok s' /\ vals s' = vals s /\ used_memory s' = used_memory s /\
  (forall j, ttls s' !! j = if decide (j = k) then (if ttl <? 0 then None else Some (now + ttl)) else ttls s !! j).
Proof.
  pose proof (entry_set_ttl_spec s now k ttl Hok Hk) as (H1 & H2 & _ & _ & H5). cbn zeta in *.
  split_and!; [done|done| |].
  - unfold entry_set_ttl. destruct (ents s !! k); [|done]. by repeat case_match.
  - intros j. rewrite H5. destruct (ttl <? 0).
    + case_decide as E; [by subst; rewrite lookup_delete_eq|by rewrite lookup_delete_ne].
    + case_decide as E; [subst; rewrite lookup_insert_eq, u64_small; done|by rewrite lookup_insert_ne].
Qed.

Definition ks_one_key : Keyspace := db_link (bs "k") (with_ekey (s_copy (bs "k")) (entry_new T_STR)) ks_empty.

Lemma ks_one_key_ok : ks_ok ks_one_key.
Proof.
  apply db_link_spec; try done. destruct (keyed_empty (A := bytes) id) as [K1 K2]. split; cbn; try done.
  split; [|done]. split_and!; [intros i Hi; cbn in Hi; lia|done|constructor].
Qed.

Lemma entry_set_ttl_correct_witness :
  let s' := entry_set_ttl 100 (bs "k") 5 ks_one_key in
  ks_ok s' /\ vals s' = vals ks_one_key /\ used_memory s' = used_memory ks_one_key /\
  (forall j, ttls s' !! j = if decide (j = bs "k") then (if 5 <? 0 then None else Some (100 + 5)) else ttls ks_one_key !! j).
Proof.
  apply (entry_set_ttl_correct ks_one_key 100 (bs "k") 5); [apply ks_one_key_ok|by eexists|lia].
Defined.
