(* ===== verification/World.v ===== *)
(** * The server's world, and the access path to a key (src/src/commands/commands.cpp, 98-303)

    [World] is what a command handler can reach: the keyspace, the dirty
    counter, the random source, the reply buffer, and the settings and clock
    readings in force while the command runs.  Handlers are computations of
    the state monad over it, as the C++ handlers mutate the globals. *)
From S2P Require Import Prelude Buffer Resp StdString Deque Hashtable HashMap Heap Score ZSet HashSet State.

Inductive MaxmemoryPolicy :=
  | NOEVICTION | ALLKEYS_LRU | ALLKEYS_LFU | ALLKEYS_RANDOM
  | VOLATILE_LRU | VOLATILE_LFU | VOLATILE_RANDOM | VOLATILE_TTL.

#[global] Instance MaxmemoryPolicy_eq_dec : EqDecision MaxmemoryPolicy.
Proof. solve_decision. Defined.

(** Clock readings and settings, constant during one command. *)
Record Env := mkEnv {
  now : Z;                 (* get_monotonic_msec() *)
  wall : Z;                (* get_wall_msec() *)
  g_lru_clock : Z;
  maxmemory_policy : MaxmemoryPolicy;
  maxmemory_samples : Z;
  lfu_log_factor : Z;
  lfu_decay_time : Z;
  g_reply_proto : Z;
}.

Record World := mkWorld { ks : Keyspace; writes : Z; rng : list Z; out : Buffer; env : Env }.

Abbreviation M := (state World).

Definition with_ks (s : Keyspace) (w : World) : World := mkWorld s (writes w) (rng w) (out w) (env w).
Definition with_out (b : Buffer) (w : World) : World := mkWorld (ks w) (writes w) (rng w) b (env w).
Definition with_writes (n : Z) (w : World) : World := mkWorld (ks w) n (rng w) (out w) (env w).

(** Lift a keyspace operation that reads the monotonic clock. *)
Definition on_ks (f : Z -> Keyspace -> Keyspace) : M () := modify (fun w => with_ks (f (now (env w)) (ks w)) w).
Definition ks_get {A} (f : Z -> Keyspace -> A * Keyspace) : M A :=
  fun w => let '(a, s) := f (now (env w)) (ks w) in (a, with_ks s w).

Definition reply (f : Buffer -> Buffer) : M () := modify (fun w => with_out (f (out w)) w).
Definition reply_p (f : Z -> Buffer -> Buffer) : M () :=
  modify (fun w => with_out (f (g_reply_proto (env w)) (out w)) w).

(** [g_data.g_writes_since_save += n], a [uint32_t] *)
Definition dirty (n : Z) : M () := modify (fun w => with_writes (u32 (writes w + n)) w).

(** [rand_idx(n)]: the next draw of the generator, below [n]. *)
Definition rand_idx (n : Z) : M Z :=
  fun w => (match rng w with [] => 0 | r :: _ => r mod n end,
            mkWorld (ks w) (writes w) (tail (rng w)) (out w) (env w)).

(** The entry behind an [Entry *]. *)
Definition entry_at (k : bytes) : M (option Entry) := gets (fun w => ents (ks w) !! k).

(** ** Access accounting *)

Definition LRU_CLOCK_MAX : Z := 2 ^ 24 - 1.
Definition LFU_INIT_VAL : Z := 5.

Definition lfu_now_minutes (v : Env) : Z := u16 (Z.land (g_lru_clock v / 60) 65535).

Definition lfu_decay (v : Env) (lru : Z) : Z :=
  let last := u16 (Z.shiftr lru 8) in
  let counter := u8 (Z.land lru 255) in
  if lfu_decay_time v <=? 0 then counter
  else
    let elapsed := u16 (lfu_now_minutes v - last) in
    let period := u16 (lfu_decay_time v) in
    let periods := u16 (elapsed / period) in
    if negb (periods =? 0) then (if counter <? periods then 0 else u8 (counter - periods)) else counter.

(** [(double)z] *)
Definition dbl (z : Z) : spec_float := binary_normalize 53 1024 z 0 false.

Definition lfu_log_incr (counter : Z) : M Z :=
  if counter =? 255 then mret 255
  else
    v ← gets env;
    let baseval := SFsub 53 1024 (dbl counter) (dbl LFU_INIT_VAL) in
    let baseval := if SFltb baseval (dbl 0) then dbl 0 else baseval in
    let p := SFdiv 53 1024 (dbl 1) (SFadd 53 1024 (SFmul 53 1024 baseval (dbl (lfu_log_factor v))) (dbl 1)) in
    d ← rand_idx 1000000;
    let r := SFdiv 53 1024 (dbl d) (dbl 1000000) in
    mret (if SFltb r p then u8 (counter + 1) else counter).

Definition policy_is_lfu (v : Env) : bool :=
  bool_decide (maxmemory_policy v = ALLKEYS_LFU) || bool_decide (maxmemory_policy v = VOLATILE_LFU).

(** The value [entry_init_access] stores in a new entry's [lru]. *)
Definition init_access (v : Env) : Z :=
  if policy_is_lfu v then u32 (Z.lor (Z.shiftl (lfu_now_minutes v) 8) LFU_INIT_VAL) else g_lru_clock v.

Definition entry_touch_access (k : bytes) : M () :=
  v ← gets env;
  e ← entry_at k;
  match e with
  | None => mret ()
  | Some e =>
      if policy_is_lfu v then
        c ← lfu_log_incr (lfu_decay v (lru e));
        on_ks (fun _ => upd k (with_lru (u32 (Z.lor (Z.shiftl (lfu_now_minutes v) 8) c))))
      else on_ks (fun _ => upd k (with_lru (g_lru_clock v)))
  end.

(** ** Looking a key up *)

(** [enum class Lookup], carrying [*out_ent]. *)
Inductive Lookup := LOK (ent : bytes) | LMISSING | LWRONGTYPE.

Definition make_entry (key : sstr) (t : EType) : M bytes :=
  v ← gets env;
  on_ks (fun _ => db_link (s_data key) (with_lru (init_access v) (with_ekey key (entry_new t)))) ;;
  mret (s_data key).

Definition lookup_entry (key : sstr) (want : EType) (create replace : bool) : M Lookup :=
  let k := s_data key in
  let absent := if create then e ← make_entry key want; mret (LOK e) else mret LMISSING in
  node ← ks_get (fun _ => db_lookup k);
  match node with
  | None => absent
  | Some ent =>
      dead ← ks_get (fun now => expire_if_needed now ent);
      if (dead : bool) then absent
      else
        e ← entry_at ent;
        match e with
        | None => absent
        | Some e =>
            if bool_decide (type e = want) then entry_touch_access ent ;; mret (LOK ent)
            else if replace then on_ks (fun now => remove_key now ent) ;; absent
            else mret LWRONGTYPE
        end
  end.

(** The read-only probe many handlers open-code: [hm_lookup] and [expire_if_needed]. *)
Definition find_live (k : bytes) : M (option bytes) :=
  node ← ks_get (fun _ => db_lookup k);
  match node with
  | None => mret None
  | Some ent =>
      dead ← ks_get (fun now => expire_if_needed now ent);
      mret (if (dead : bool) then None else Some ent)
  end.

(** ** Random victims *)

Definition db_random_entry : M (option bytes) :=
  fun w =>
    let draw i := Z.to_nat (default 0 (rng w !! i)) in
    (hm_random (db (ks w)) (draw 0%nat) (draw 1%nat) (draw 2%nat),
     mkWorld (ks w) (writes w) (drop 3 (rng w)) (out w) (env w)).

Definition volatile_random_entry : M (option bytes) :=
  h ← gets (fun w => heap (ks w));
  match h with
  | [] => mret None
  | _ => i ← rand_idx (Z.of_nat (length h)); mret (ref <$> h !! Z.to_nat i)
  end.

Definition evict_score (v : Env) (e : Entry) : Z :=
  if policy_is_lfu v then 255 - Z.land (lru e) 255
  else Z.land (u32 (g_lru_clock v - lru e)) LRU_CLOCK_MAX.

Fixpoint sample_loop (n : nat) (volatile_only : bool) (best : option bytes) (best_score : Z) : M (option bytes) :=
  match n with
  | O => mret best
  | S n' =>
      e ← if volatile_only then volatile_random_entry else db_random_entry;
      match e with
      | None => mret best
      | Some k =>
          v ← gets env;
          ent ← entry_at k;
          let s := match ent with Some ent => evict_score v ent | None => 0 end in
          if bool_decide (best = None) || (best_score <? s)
          then sample_loop n' volatile_only (Some k) s
          else sample_loop n' volatile_only best best_score
      end
  end.

Definition evict_pick_victim : M (option bytes) :=
  v ← gets env;
  match maxmemory_policy v with
  | NOEVICTION => mret None
  | ALLKEYS_RANDOM => db_random_entry
  | VOLATILE_RANDOM => volatile_random_entry
  | VOLATILE_TTL => gets (fun w => ref <$> heap (ks w) !! 0%nat)
  | ALLKEYS_LRU | ALLKEYS_LFU => sample_loop (Z.to_nat (maxmemory_samples v)) false None 0
  | VOLATILE_LRU | VOLATILE_LFU => sample_loop (Z.to_nat (maxmemory_samples v)) true None 0
  end.

(** ** The client's view: live keys with their value and deadline *)

Definition lview (now : Z) (s : Keyspace) : gmap bytes (AVal * option Z) :=
  map_imap (fun k v => if decide (expired now s k) then None else Some (v, ttls s !! k)) (vals s).

(** The view at the clock reading of the running command. *)
Definition view (w : World) : gmap bytes (AVal * option Z) := lview (now (env w)) (ks w).

Definition atype (v : AVal) : EType :=
  match v with
  | AStr _ => T_STR | AZSet _ => T_ZSET | AList _ => T_DLIST | AHash _ => T_HASH | ASet _ => T_SET
  end.

Lemma atype_aval e : atype (aval (eval e)) = type e.
Proof. unfold type. by destruct (eval e). Qed.

Lemma lview_lookup now s k :
  lview now s !! k = v ← vals s !! k; if decide (expired now s k) then None else Some (v, ttls s !! k).
Proof. unfold lview. by rewrite map_lookup_imap. Qed.

Lemma decide_expired_ext {B} now s s' k (a b : B) :
  ttls s' !! k = ttls s !! k ->
  (if decide (expired now s' k) then a else b) = if decide (expired now s k) then a else b.
Proof. intros H. pose proof (expired_iff now s s' k H). by repeat case_decide; try tauto. Qed.

(** Keys that expired may be dropped: clients cannot tell. *)
Lemma lview_gone now s s' : only_expired_gone now s s' -> lview now s' = lview now s.
Proof.
  intros H. apply map_eq. intros k. rewrite !lview_lookup.
  destruct (H k) as [[-> Ht]|(He & -> & _)].
  - destruct (vals s !! k); [|done]. cbn. rewrite Ht. by apply decide_expired_ext.
  - destruct (vals s !! k); [|done]. cbn. by rewrite decide_True.
Qed.

Lemma lview_same now s s' : vals s' = vals s -> ttls s' = ttls s -> lview now s' = lview now s.
Proof. intros Hv Ht. apply lview_gone. intros k. left. by rewrite Hv, Ht. Qed.

Lemma lview_delete now s s' k :
  vals s' = delete k (vals s) -> ttls s' = delete k (ttls s) -> lview now s' = delete k (lview now s).
Proof.
  intros Hv Ht. apply map_eq. intros j. destruct (decide (k = j)) as [->|Hne].
  - by rewrite lview_lookup, Hv, !lookup_delete_eq.
  - rewrite lookup_delete_ne, !lview_lookup, Hv, lookup_delete_ne by done. destruct (vals s !! j); [|done]. cbn.
    assert (Hj : ttls s' !! j = ttls s !! j) by (by rewrite Ht, lookup_delete_ne).
    rewrite Hj. by apply decide_expired_ext.
Qed.

(** Value and deadline of one key set together. *)
Lemma lview_set now s s' k v t :
  vals s' = <[k := v]> (vals s) -> (forall j, j <> k -> ttls s' !! j = ttls s !! j) -> ttls s' !! k = t ->
  (match t with Some t => now < t | None => True end) ->
  lview now s' = <[k := (v, t)]> (lview now s).
Proof.
  intros Hv Ht Hk Hlive. apply map_eq. intros j. destruct (decide (k = j)) as [<-|Hne].
  - rewrite lview_lookup, Hv, !lookup_insert_eq. cbn. rewrite decide_False; [by rewrite Hk|].
    unfold expired. rewrite Hk. destruct t; [lia|tauto].
  - rewrite lookup_insert_ne, !lview_lookup, Hv, lookup_insert_ne by done. destruct (vals s !! j); [|done]. cbn.
    rewrite Ht by done. apply decide_expired_ext. by apply Ht.
Qed.

Lemma lview_update now s s' k v v0 t :
  vals s' = <[k := v]> (vals s) -> ttls s' = ttls s -> lview now s !! k = Some (v0, t) ->
  lview now s' = <[k := (v, t)]> (lview now s).
Proof.
  intros Hv Ht Hk. rewrite lview_lookup in Hk. destruct (vals s !! k) as [v'|]; [|done]. cbn in Hk.
  case_decide as Hex; [done|]. injection Hk as -> <-.
  apply lview_set; [done|by intros; rewrite Ht|by rewrite Ht|].
  unfold expired in Hex. destruct (ttls s !! k); [lia|done].
Qed.

Lemma lview_Some now s k v t :
  lview now s !! k = Some (v, t) <-> vals s !! k = Some v /\ ttls s !! k = t /\ ~ expired now s k.
Proof.
  rewrite lview_lookup. destruct (vals s !! k) as [v'|]; cbn.
  - case_decide; split; [done|naive_solver|intros [= -> ->]; done|intros ([= ->] & -> & _); done].
  - split; [done|by intros [? _]].
Qed.

Lemma lview_None now s k :
  lview now s !! k = None <-> vals s !! k = None \/ expired now s k.
Proof.
  rewrite lview_lookup. destruct (vals s !! k) as [v'|]; cbn; [|naive_solver].
  case_decide; naive_solver.
Qed.

(** ** Specifications of the access path *)

Lemma mem_reaccount_accounted k s : ks_ok s -> accounted_but k s -> accounted (mem_reaccount k s).
Proof.
  intros Hs Ha. destruct (mem_reaccount_spec s k Hs) as (_ & _ & _ & _ & Hj & Hk). intros j e He.
  destruct (decide (j = k)) as [->|Hne]; [by apply Hk|]. rewrite Hj in He by done.
  destruct (Ha j e He); [done|done].
Qed.

(** What every handler keeps. *)
Definition world_ok (w : World) : Prop := ks_ok (ks w) /\ accounted (ks w) /\ wf (out w).

(** The settings and the reply so far are untouched, writes not counted. *)
Definition quiet (w w' : World) : Prop := writes w' = writes w /\ out w' = out w /\ env w' = env w.

Lemma quiet_refl w : quiet w w.
Proof. done. Qed.

Lemma quiet_trans a b c : quiet a b -> quiet b c -> quiet a c.
Proof. unfold quiet. intuition congruence. Qed.

Lemma find_live_spec w k r w' :
  ks_ok (ks w) -> accounted (ks w) -> find_live k w = (r, w') ->
  ks_ok (ks w') /\ accounted (ks w') /\ quiet w w' /\ rng w' = rng w /\ view w' = view w /\
  (base.size (ents (ks w')) <= base.size (ents (ks w)))%nat /\
  match r with
  | Some k' => k' = k /\ exists e, ents (ks w') !! k = Some e /\ view w !! k = Some (aval (eval e), ttls (ks w') !! k)
  | None => view w !! k = None /\ ents (ks w') !! k = None
  end.
Proof.
  intros Hok Hacc H. unfold find_live, mbind, state_bind, ks_get in H.
  destruct (db_lookup k (ks w)) as [node s1] eqn:E1.
  destruct (db_lookup_spec _ _ _ _ Hok E1) as (Hok1 & He1 & Hh1 & Hv1 & Hu1 & ->).
  assert (Hview1 : lview (now (env w)) s1 = view w)
    by (apply lview_same; unfold vals, ttls; congruence).
  assert (Hacc1 : accounted s1) by (unfold accounted; by rewrite He1).
  destruct (ents (ks w) !! k) as [e|] eqn:Ek; cbn in H.
  2:{ injection H as <- <-. cbn. rewrite He1, Ek. split_and!; try done.
      apply lview_None. left. unfold vals. by rewrite lookup_fmap, Ek. }
  destruct (expire_if_needed _ k s1) as [b s2] eqn:E2.
  destruct (expire_if_needed_spec _ _ _ _ _ Hok1 ltac:(rewrite He1, Ek; by eexists) E2) as (-> & Hok2 & Hacc2 & Hcase).
  assert (Hvk : vals s1 !! k = Some (aval (eval e))) by (unfold vals; by rewrite lookup_fmap, He1, Ek).
  destruct (bool_decide (expired (now (env w)) s1 k)) eqn:Eb; injection H as <- <-; bool_facts.
  - destruct Hcase as (Hv & Ht & _ & Hdom). cbn [ks with_ks]. split_and!; try done; try auto.
    + rewrite <- Hview1. apply (lview_gone _ s1 s2). intros j.
      destruct (decide (k = j)) as [<-|Hne]; [right|left]; rewrite Hv, Ht.
      * by rewrite !lookup_delete_eq.
      * by rewrite !lookup_delete_ne.
    + rewrite <- !size_dom, Hdom, He1. apply subseteq_size. set_solver.
    + rewrite <- Hview1. apply lview_None. by right.
    + apply not_elem_of_dom. rewrite Hdom. set_solver.
  - subst s2. cbn [ks with_ks]. split_and!; try done.
    + by rewrite He1.
    + exists e. split; [by rewrite He1|]. rewrite <- Hview1. by apply lview_Some.
Qed.

Lemma upd_lru_spec s k l :
  ks_ok s ->
  let s' := upd k (with_lru l) s in
  ks_ok s' /\ vals s' = vals s /\ ttls s' = ttls s /\ (accounted s -> accounted s').
Proof.
  intros Hs. cbn zeta. destruct (ents s !! k) as [e|] eqn:He.
  2:{ assert (alter (with_lru l) k (ents s) = ents s) as Ha.
      { apply map_eq. intros j. destruct (decide (k = j)) as [<-|]; [by rewrite lookup_alter_eq, He|by rewrite lookup_alter_ne]. }
      unfold upd. rewrite Ha. by destruct s. }
  destruct (upd_spec s k e (with_lru l) Hs He) as (H1 & H2 & H3); [done..|exact (ks_val s Hs k e He)|].
  split_and!.
  - cbn [mem with_lru] in H1. replace (used_memory s + mem e - mem e) with (used_memory s) in H1 by lia.
    rewrite used_range in H1 by done. exact H1.
  - rewrite H2. apply insert_id. unfold vals. by rewrite lookup_fmap, He.
  - done.
  - intros Ha j e'. cbn. destruct (decide (k = j)) as [<-|].
    + rewrite lookup_alter_eq, He. intros [= <-]. exact (Ha k e He).
    + rewrite lookup_alter_ne by done. apply Ha.
Qed.

Lemma lfu_log_incr_spec c w : exists c' r, lfu_log_incr c w = (c', mkWorld (ks w) (writes w) r (out w) (env w)).
Proof.
  unfold lfu_log_incr. destruct (c =? 255); [exists 255, (rng w); by destruct w|].
  unfold mbind, state_bind, gets, rand_idx. eexists _, _. done.
Qed.

Lemma entry_touch_access_spec k w :
  exists l r, entry_touch_access k w = ((), mkWorld (upd k (with_lru l) (ks w)) (writes w) r (out w) (env w)) \/
  (ents (ks w) !! k = None /\ entry_touch_access k w = ((), w)).
Proof.
  unfold entry_touch_access, mbind, state_bind, gets, entry_at. cbn.
  destruct (ents (ks w) !! k) as [e|]; [|exists 0, []; by right]. destruct (policy_is_lfu (env w)).
  - destruct (lfu_log_incr_spec (lfu_decay (env w) (lru e)) w) as (c & r & ->). eexists _, r. left. done.
  - eexists _, (rng w). by left.
Qed.

(** The outcome of a lookup in terms of the view before it. *)
Definition fresh_val (t : EType) : AVal := aval (eval (entry_new t)).

Lemma make_entry_spec w key t r w' :
  ks_ok (ks w) -> accounted (ks w) -> ents (ks w) !! s_data key = None ->
  Z.of_nat (base.size (ents (ks w))) + 1 < NO_TTL ->
  make_entry key t w = (r, w') ->
  r = s_data key /\ ks_ok (ks w') /\ quiet w w' /\ accounted_but r (ks w') /\
  view w' = <[r := (fresh_val t, None)]> (view w) /\ ttls (ks w') !! r = None /\
  exists e, ents (ks w') !! r = Some e /\ eval e = eval (entry_new t).
Proof.
  intros Hok Hacc Hn Hroom H. unfold make_entry, mbind, state_bind, gets, on_ks, modify, mret, state_ret in H.
  injection H as <- <-. set (e := with_lru _ _).
  assert (Hv : value_ok (eval e)).
  { destruct t; cbn; [apply s_empty_ok|apply zset_empty_ok| |apply table_ok_empty|apply table_ok_empty].
    split; [split; cbn; auto|constructor]. }
  destruct (db_link_spec (ks w) (s_data key) e Hok Hn Hroom) as (H1 & H2 & H3 & H4); [done..|].
  cbn [ks with_ks]. split_and!; [done|done|done| | | |].
  - intros j e'. cbn. destruct (decide (s_data key = j)) as [<-|]; [by left|].
    rewrite lookup_insert_ne by done. intros He'. right. by apply (Hacc j).
  - apply (lview_set _ (ks w) (db_link (s_data key) e (ks w))); [done|by intros; rewrite H3|by rewrite H3|done].
  - exact H4.
  - exists e. split; [|done]. cbn. by rewrite lookup_insert_eq.
Qed.

(** [lookup_entry] is the read-only probe followed by a case analysis. *)
Lemma lookup_entry_eq key want create replace w :
  lookup_entry key want create replace w =
  (r ← find_live (s_data key);
   let absent := if create then e ← make_entry key want; mret (LOK e) else mret LMISSING in
   match r with
   | None => absent
   | Some ent =>
       e ← entry_at ent;
       match e with
       | None => absent
       | Some e =>
           if bool_decide (type e = want) then entry_touch_access ent ;; mret (LOK ent)
           else if (replace : bool) then on_ks (fun now => remove_key now ent) ;; absent
           else mret LWRONGTYPE
       end
   end) w.
Proof.
  unfold lookup_entry, find_live, mbind, state_bind. destruct (ks_get _ w) as [[node|] w1]; [|done].
  destruct (ks_get _ w1) as [[] w2]; done.
Qed.

(** What [lookup_entry] does when the key is not there. *)
Lemma lookup_absent_spec key want (create : bool) w w2 r w' :
  (create = true -> Z.of_nat (base.size (ents (ks w))) + 1 < NO_TTL) ->
  ks_ok (ks w2) -> accounted (ks w2) -> quiet w w2 ->
  (base.size (ents (ks w2)) <= base.size (ents (ks w)))%nat -> ents (ks w2) !! s_data key = None ->
  ((if create then e ← make_entry key want; mret (LOK e) else mret LMISSING) : M Lookup) w2 = (r, w') ->
  ks_ok (ks w') /\ quiet w w' /\
  match r with
  | LOK k' => create = true /\ k' = s_data key /\ accounted_but (s_data key) (ks w') /\
      (exists e, ents (ks w') !! s_data key = Some e /\ eval e = eval (entry_new want)) /\
      ttls (ks w') !! s_data key = None /\ view w' = <[s_data key := (fresh_val want, None)]> (view w2)
  | LMISSING => create = false /\ w' = w2
  | LWRONGTYPE => False
  end.
Proof.
  intros Hroom Hok2 Hacc2 Hq2 Hsz2 Hn2 H2. destruct create.
  - unfold mbind, state_bind in H2. destruct (make_entry key want w2) as [x w3] eqn:Em. injection H2 as <- <-.
    destruct (make_entry_spec _ _ _ _ _ Hok2 Hacc2 Hn2 ltac:(specialize (Hroom eq_refl); lia) Em)
      as (-> & M1 & M2 & M3 & M4 & M5 & M6). split_and!; try done. by eapply quiet_trans.
  - injection H2 as <- <-. done.
Qed.

Lemma lookup_entry_spec w key want create replace r w' :
  ks_ok (ks w) -> accounted (ks w) ->
  (create = true -> Z.of_nat (base.size (ents (ks w))) + 1 < NO_TTL) -> (replace = true -> create = true) ->
  lookup_entry key want create replace w = (r, w') ->
  let k := s_data key in
  ks_ok (ks w') /\ quiet w w' /\
  match r with
  | LOK k' => k' = k /\ accounted_but k (ks w') /\
      exists e, ents (ks w') !! k = Some e /\ type e = want /\
      ((exists t, view w !! k = Some (aval (eval e), t) /\ ttls (ks w') !! k = t /\ view w' = view w /\ accounted (ks w')) \/
       (create = true /\ eval e = eval (entry_new want) /\ ttls (ks w') !! k = None /\
        view w' = <[k := (fresh_val want, None)]> (view w) /\
        match view w !! k with Some (v, _) => replace = true /\ atype v <> want | None => True end))
  | LMISSING => create = false /\ view w !! k = None /\ view w' = view w /\ accounted (ks w') /\
      (base.size (ents (ks w')) <= base.size (ents (ks w)))%nat
  | LWRONGTYPE => replace = false /\ view w' = view w /\ accounted (ks w') /\
      exists v t, view w !! k = Some (v, t) /\ atype v <> want
  end.
Proof.
  intros Hok Hacc Hroom Hrep H. rewrite lookup_entry_eq in H. unfold mbind, state_bind in H. cbn zeta.
  destruct (find_live (s_data key) w) as [fr w1] eqn:Ef.
  destruct (find_live_spec _ _ _ _ Hok Hacc Ef) as (Hok1 & Hacc1 & Hq1 & _ & Hv1 & Hsz & Hcase).
  destruct fr as [k'|].
  2:{ destruct Hcase as [Hnone Hn1]. destruct (lookup_absent_spec _ _ _ _ _ _ _ Hroom Hok1 Hacc1 Hq1 Hsz Hn1 H) as (A1 & A2 & A3).
      split; [done|]. split; [done|]. destruct r as [k'| |]; [| |done].
      - destruct A3 as (-> & -> & A4 & (e & He & Hev) & A5 & A6). split_and!; [done|done|]. exists e. split_and!; [done| |].
        + unfold type. rewrite Hev. by destruct want.
        + right. rewrite Hnone. split_and!; try done. by rewrite A6, Hv1.
      - destruct A3 as [-> ->]. done. }
  destruct Hcase as (-> & e & He & Hvk). cbn in H. rewrite He in H.
  destruct (bool_decide (type e = want)) eqn:Et; bool_facts.
  - destruct (entry_touch_access_spec (s_data key) w1) as (l & rg & [Ht|[Ht _]]); [|congruence].
    rewrite Ht in H. injection H as <- <-. cbn [ks]. destruct (upd_lru_spec (ks w1) (s_data key) l Hok1) as (U1 & U2 & U3 & U4).
    split; [done|]. split; [done|]. split_and!; [done|by apply accounted_weaken, U4|].
    exists (with_lru l e). split_and!; [cbn; by rewrite lookup_alter_eq, He|done|].
    left. exists (ttls (ks w1) !! s_data key). split_and!; [done|by rewrite U3| |by apply U4].
    rewrite <- Hv1. unfold view. cbn [env ks]. by apply lview_same.
  - destruct replace; cbn in H.
    + rewrite Hrep in * by done. destruct (remove_key_spec (ks w1) (now (env w1)) (s_data key) Hok1 ltac:(by eexists))
        as (R1 & R2 & R3 & R4 & R5 & R6).
      edestruct (lookup_absent_spec key want true w (with_ks (remove_key (now (env w1)) (s_data key) (ks w1)) w1) r w') as (A1 & A2 & A3).
      { done. } { done. } { by apply R5, accounted_weaken. } { done. }
      { cbn [ks with_ks]. etransitivity; [|exact Hsz]. rewrite <- !size_dom, R6. apply subseteq_size. set_solver. }
      { apply not_elem_of_dom. cbn [ks with_ks]. rewrite R6. set_solver. }
      { done. }
      split; [done|]. split; [done|]. destruct r as [k'| |]; [|by destruct A3|done].
      destruct A3 as (_ & -> & A4 & (e' & He' & Hev) & A5 & A6). split; [done|]. split; [done|]. exists e'. split_and!; [done| |].
      * unfold type. rewrite Hev. by destruct want.
      * right. rewrite Hvk, atype_aval. split_and!; try done. rewrite A6.
        assert (view (with_ks (remove_key (now (env w1)) (s_data key) (ks w1)) w1) = delete (s_data key) (view w)) as ->.
        { rewrite <- Hv1. unfold view. cbn [env ks with_ks]. by apply lview_delete. }
        by rewrite insert_delete_eq.
    + injection H as <- <-. split; [done|]. split; [done|]. split_and!; try done. eexists _, _. split; [done|].
      by rewrite atype_aval.
Qed.

(** ** Committing a new value *)

Lemma accounted_but_upd k f s : accounted_but k s -> accounted_but k (upd k f s).
Proof.
  intros H j e. cbn. destruct (decide (k = j)) as [<-|]; [by left|]. rewrite lookup_alter_ne by done. apply H.
Qed.

Lemma accounted_but_ttl s now k k' ttl :
  ks_ok s -> is_Some (ents s !! k) -> accounted_but k' s -> accounted_but k' (entry_set_ttl now k ttl s).
Proof.
  intros Hs Hk H. destruct (entry_set_ttl_spec s now k ttl Hs Hk) as (_ & _ & Hd & _).
  unfold accounted_but. eapply same_data_Forall; [|exact Hd|exact H]. intros j e i [?|?]; [by left|by right].
Qed.

(** Store a value and reaccount: [entry.val = v; mem_reaccount(ent)]. *)
Lemma commit_spec s k e v :
  ks_ok s -> accounted_but k s -> ents s !! k = Some e -> value_ok v ->
  let s' := mem_reaccount k (upd k (with_eval v) s) in
  ks_ok s' /\ accounted s' /\ vals s' = <[k := aval v]> (vals s) /\ ttls s' = ttls s.
Proof.
  intros Hs Ha He Hv. destruct (upd_val_spec s k e v Hs He Hv) as (U1 & U2 & U3).
  destruct (mem_reaccount_spec (upd k (with_eval v) s) k U1) as (R1 & R2 & R3 & _).
  split_and!; [done| |by rewrite R2|by rewrite R3].
  apply mem_reaccount_accounted; [done|]. by apply accounted_but_upd.
Qed.

(** The same with the deadline set in between. *)
Lemma commit_ttl_spec s now k e v ttl :
  ks_ok s -> accounted_but k s -> ents s !! k = Some e -> value_ok v ->
  let s' := mem_reaccount k (entry_set_ttl now k ttl (upd k (with_eval v) s)) in
  ks_ok s' /\ accounted s' /\ vals s' = <[k := aval v]> (vals s) /\
  ttls s' = (if ttl <? 0 then delete k (ttls s) else <[k := u64 (now + ttl)]> (ttls s)).
Proof.
  intros Hs Ha He Hv. destruct (upd_val_spec s k e v Hs He Hv) as (U1 & U2 & U3).
  assert (Hk : is_Some (ents (upd k (with_eval v) s) !! k)) by (cbn; rewrite lookup_alter_eq, He; by eexists).
  destruct (entry_set_ttl_spec (upd k (with_eval v) s) now k ttl U1 Hk) as (T1 & T2 & _ & _ & T5).
  destruct (mem_reaccount_spec _ k T1) as (R1 & R2 & R3 & _).
  split_and!; [done| |by rewrite R2, T2|by rewrite R3, T5, U3].
  apply mem_reaccount_accounted; [done|]. apply accounted_but_ttl; [done|done|]. by apply accounted_but_upd.
Qed.

(** Clock readings of a running server: milliseconds, far below 2^63. *)
Definition env_ok (v : Env) : Prop := 0 <= now v < 2 ^ 62 /\ 0 <= wall v < 2 ^ 62.

(** The deadline a relative time to live produces: none when negative. *)
Definition deadline (now ttl : Z) : option Z := if ttl <? 0 then None else Some (now + ttl).

Lemma view_commit_ttl w s' k e v ttl :
  ks_ok (ks w) -> accounted_but k (ks w) -> ents (ks w) !! k = Some e -> value_ok v ->
  env_ok (env w) -> (ttl < 0 \/ 0 < ttl <= INT64_MAX) ->
  s' = mem_reaccount k (entry_set_ttl (now (env w)) k ttl (upd k (with_eval v) (ks w))) ->
  ks_ok s' /\ accounted s' /\
  lview (now (env w)) s' = <[k := (aval v, deadline (now (env w)) ttl)]> (view w).
Proof.
  intros Hs Ha He Hv [Hnow _] Httl ->.
  destruct (commit_ttl_spec (ks w) (now (env w)) k e v ttl Hs Ha He Hv) as (C1 & C2 & C3 & C4).
  split_and!; [done|done|]. unfold deadline. unfold INT64_MAX in Httl.
  assert (Hu : 0 < ttl -> u64 (now (env w) + ttl) = now (env w) + ttl) by (intros; apply u64_small; lia).
  apply (lview_set _ (ks w)); [exact C3|..]; try rewrite C4; destruct (ttl <? 0) eqn:E; bool_facts.
  - intros j Hj. by rewrite lookup_delete_ne.
  - intros j Hj. by rewrite lookup_insert_ne.
  - by rewrite lookup_delete_eq.
  - rewrite lookup_insert_eq, Hu; [done|lia].
  - done.
  - lia.
Qed.

Lemma view_commit w s' k e v v0 t :
  ks_ok (ks w) -> accounted_but k (ks w) -> ents (ks w) !! k = Some e -> value_ok v ->
  view w !! k = Some (v0, t) -> s' = mem_reaccount k (upd k (with_eval v) (ks w)) ->
  ks_ok s' /\ accounted s' /\ lview (now (env w)) s' = <[k := (aval v, t)]> (view w).
Proof.
  intros Hs Ha He Hv Hk ->. destruct (commit_spec (ks w) k e v Hs Ha He Hv) as (C1 & C2 & C3 & C4).
  split_and!; [done|done|]. by apply (lview_update _ (ks w) _ _ _ v0).
Qed.

Lemma view_remove w k :
  ks_ok (ks w) -> accounted (ks w) -> is_Some (ents (ks w) !! k) ->
  let s' := remove_key (now (env w)) k (ks w) in
  ks_ok s' /\ accounted s' /\ lview (now (env w)) s' = delete k (view w).
Proof.
  intros Hs Ha Hk. destruct (remove_key_spec (ks w) (now (env w)) k Hs Hk) as (R1 & R2 & R3 & _ & R5 & _).
  cbn zeta. split_and!; [done|auto using accounted_weaken|]. by apply lview_delete.
Qed.

(** ** A first world, and properties of the access path *)

Definition env0 : Env := mkEnv 1000 1700000000000 0 NOEVICTION 5 10 1 2.
Definition w0 : World := mkWorld ks_empty 0 [] (buf_create 16) env0.

Lemma ks_empty_ok : ks_ok ks_empty /\ accounted ks_empty.
Proof.
  destruct (keyed_empty (A := bytes) id) as [K1 K2]. split; [|done]. split; cbn; try done.
  split; [|done]. split_and!; [intros i Hi; cbn in Hi; lia|done|constructor].
Qed.

Lemma w0_ok : world_ok w0.
Proof. destruct ks_empty_ok. split_and!; [done|done|]. apply buf_create_wf. Qed.

(** Looking a key up for a command.  lookup_entry leaves a consistent
    keyspace and answers by what clients could see: the key's entry if it
    holds the wanted type; a fresh empty entry, without a deadline, if the
    command creates and the key was absent or expired (or is replaced);
    missing; or wrong type.  Nothing else a client can see changes, and the
    reply and the change counter are untouched. *)
Theorem lookup_entry_correct (w : World) (key : sstr) (want : EType) (create replace : bool)
    (Hw : world_ok w) (Hroom : Z.of_nat (base.size (ents (ks w))) + 1 < NO_TTL)
    (Hrep : replace = true -> create = true) :
  let '(r, w') := lookup_entry key want create replace w in
  let k := s_data key in
  ks_ok (ks w') /\ quiet w w' /\
  match r with
  | LOK k' =>
      k' = k /\ accounted_but k (ks w') /\ exists e, ents (ks w') !! k = Some e /\ type e = want /\
      match view w !! k with
      | Some (v, t) =>
          if bool_decide (atype v = want) then v = aval (eval e) /\ view w' = view w
          else replace = true /\ view w' = <[k := (fresh_val want, None)]> (view w)
      | None => create = true /\ view w' = <[k := (fresh_val want, None)]> (view w)
      end
  | LMISSING => create = false /\ view w !! k = None /\ view w' = view w /\ accounted (ks w')
  | LWRONGTYPE =>
      replace = false /\ view w' = view w /\ accounted (ks w') /\
      exists v t, view w !! k = Some (v, t) /\ atype v <> want
  end.
Proof.
  destruct (lookup_entry key want create replace w) as [r w'] eqn:E. destruct Hw as (Hok & Hacc & _).
  pose proof (lookup_entry_spec w key want create replace r w' Hok Hacc (fun _ => Hroom) Hrep E) as Hs. cbn zeta in *.
  destruct Hs as (H1 & H2 & H3). split; [done|]. split; [done|]. destruct r as [k'| |]; [|naive_solver|done].
  destruct H3 as (-> & Hb & e & He & Ht & Hc). split_and!; [done|done|]. exists e. split_and!; [done|done|].
  destruct Hc as [(t & -> & _ & Hv & _)|(-> & _ & _ & Hv & Hwas)].
  - rewrite atype_aval, Ht, bool_decide_true by done. done.
  - destruct (view w !! s_data key) as [[v t]|]; [|done]. destruct Hwas as [-> Hne].
    by rewrite bool_decide_false.
Qed.

Lemma lookup_entry_correct_witness :
  let '(r, w') := lookup_entry (s_copy (bs "k")) T_HASH true false w0 in
  let k := bs "k" in
  ks_ok (ks w') /\ quiet w0 w' /\
  match r with
  | LOK k' =>
      k' = k /\ accounted_but k (ks w') /\ exists e, ents (ks w') !! k = Some e /\ type e = T_HASH /\
      match view w0 !! k with
      | Some (v, t) =>
          if bool_decide (atype v = T_HASH) then v = aval (eval e) /\ view w' = view w0
          else false = true /\ view w' = <[k := (fresh_val T_HASH, None)]> (view w0)
      | None => true = true /\ view w' = <[k := (fresh_val T_HASH, None)]> (view w0)
      end
  | LMISSING => true = false /\ view w0 !! k = None /\ view w' = view w0 /\ accounted (ks w')
  | LWRONGTYPE =>
      false = false /\ view w' = view w0 /\ accounted (ks w') /\
      exists v t, view w0 !! k = Some (v, t) /\ atype v <> T_HASH
  end.
Proof. apply (lookup_entry_correct w0 (s_copy (bs "k")) T_HASH true false w0_ok); [reflexivity|done]. Defined.

(** The active expiry cycle.  Processing the TTL timers keeps the keyspace
    consistent and its memory account exact, drops only keys whose deadline
    has passed, so that no client view changes, and either leaves no expired
    key behind or stops after exactly 2001 removals. *)
Theorem active_expiry_correct (s : Keyspace) (now : Z) (Hok : ks_ok s) :
  let s' := process_ttl_timers now s in
  ks_ok s' /\ (accounted s -> accounted s') /\ only_expired_gone now s s' /\ lview now s' = lview now s /\
  ((forall k, ~ expired now s' k) \/ length (heap s) = (length (heap s') + 2001)%nat).
Proof.
  destruct (expire_loop_spec (S (length (heap s))) 0 now s Hok ltac:(lia) ltac:(lia)) as (H1 & H2 & H3 & H4).
  cbn zeta. unfold process_ttl_timers. split_and!; [done|done|done|by apply lview_gone|].
  destruct H4 as [|H4]; [by left|right]. unfold k_max_works in H4. lia.
Qed.

Definition ks_timed_key : Keyspace :=
  entry_set_ttl 0 (bs "k") 5 ks_one_key.

Lemma ks_timed_key_ok : ks_ok ks_timed_key.
Proof.
  apply (entry_set_ttl_spec _ 0 (bs "k") 5 ks_one_key_ok). by eexists.
Qed.

Lemma active_expiry_correct_witness :
  let s' := process_ttl_timers 7 ks_timed_key in
  ks_ok s' /\ (accounted ks_timed_key -> accounted s') /\ only_expired_gone 7 ks_timed_key s' /\
  lview 7 s' = lview 7 ks_timed_key /\
  ((forall k, ~ expired 7 s' k) \/ length (heap ks_timed_key) = (length (heap s') + 2001)%nat).
Proof.
  apply (active_expiry_correct ks_timed_key 7). apply ks_timed_key_ok.
Defined.

(** Lazy expiry is exact.  For a stored key, expire_if_needed answers true
    exactly when the key's deadline has been reached; then the key is gone
    with its timer and its charge, one "expired" event is announced and no
    other key changes; otherwise nothing changes at all. *)
Theorem expire_if_needed_exact (s : Keyspace) (now : Z) (k : bytes) (Hok : ks_ok s) (Hk : is_Some (ents s !! k)) :
  let '(b, s') := expire_if_needed now k s in
  (b = true <-> exists t, ttls s !! k = Some t /\ t <= now) /\
  ks_ok s' /\ (accounted s -> accounted s') /\ lview now s' = lview now s /\
  (if b then vals s' = delete k (vals s) /\ ttls s' = delete k (ttls s) /\
             events s' = events s ++ [(NOTIFY_EXPIRED, bs "expired", k)]
   else s' = s).
Proof.
  destruct (expire_if_needed now k s) as [b s'] eqn:E.
  destruct (expire_if_needed_spec s now k b s' Hok Hk E) as (-> & H2 & H3 & H4).
  assert (Hex : expired now s k <-> exists t, ttls s !! k = Some t /\ t <= now).
  { unfold expired. destruct (ttls s !! k) as [t|]; [|naive_solver]. split; [by exists t|]. by intros (? & [= ->] & ?). }
  split; [rewrite bool_decide_eq_true; exact Hex|]. split_and!; [done|done| |].
  - case_bool_decide as Hx; [|by subst]. destruct H4 as (Hv & Ht & _). apply lview_gone. intros j.
    destruct (decide (j = k)) as [->|Hne]; [right|left]; rewrite Hv, Ht.
    + by rewrite !lookup_delete_eq.
    + by rewrite !lookup_delete_ne.
  - case_bool_decide; [|done]. by destruct H4 as (? & ? & ? & _).
Qed.

Lemma expire_if_needed_exact_witness :
  let '(b, s') := expire_if_needed 5 (bs "k") ks_timed_key in
  (b = true <-> exists t, ttls ks_timed_key !! bs "k" = Some t /\ t <= 5) /\
  ks_ok s' /\ (accounted ks_timed_key -> accounted s') /\ lview 5 s' = lview 5 ks_timed_key /\
  (if b then vals s' = delete (bs "k") (vals ks_timed_key) /\ ttls s' = delete (bs "k") (ttls ks_timed_key) /\
             events s' = events ks_timed_key ++ [(NOTIFY_EXPIRED, bs "expired", bs "k")]
   else s' = ks_timed_key).
Proof.
  apply (expire_if_needed_exact ks_timed_key 5 (bs "k")).
  - apply ks_timed_key_ok.
  - vm_compute. by eexists.
Defined.
