(* ===== verification/Args.v ===== *)
(** * Argument parsing shared by the command handlers (src/src/commands/commands.cpp, 98-127)

    [str2int] is the strict decimal parser of every integer argument. *)
From S2P Require Import Prelude StdString.

(** [cmd\[i\]]; the dispatcher has checked the arity. *)
Definition arg (cmd : list sstr) (i : nat) : sstr := default s_empty (cmd !! i).
Definition argd (cmd : list sstr) (i : nat) : bytes := s_data (arg cmd i).

Definition c_minus : ascii := chr 45.

(** The digit loop: [None] is the early [return false]. *)
Fixpoint str2int_loop (v : Z) (l : bytes) : option Z :=
  match l with
  | [] => Some v
  | c :: l' =>
      if (scode c <? 48) || (57 <? scode c) then None
      else
        let d := scode c - 48 in
        if (UINT64_MAX - d) / 10 <? v then None else str2int_loop (v * 10 + d) l'
  end.

Definition str2int (s : bytes) : option Z :=
  match s with
  | [] => None
  | c0 :: rest =>
      if (length s =? 1)%nat && bool_decide (c0 = chr 48) then Some 0
      else
        let neg := bool_decide (c0 = c_minus) in
        if neg && (length s =? 1)%nat then None
        else
          let l := if neg then rest else s in
          match l with
          | [] => None
          | c :: _ =>
              if (scode c <? 49) || (57 <? scode c) then None
              else
                v ← str2int_loop 0 l;
                if neg then
                  if INT64_MAX + 1 <? v then None
                  else Some (if v =? INT64_MAX + 1 then INT64_MIN else - v)
                else if INT64_MAX <? v then None else Some v
          end
  end.

(** [arg_ieq]: equality ignoring ASCII case with a lower-case literal. *)
Definition arg_ieq (s lit : bytes) : bool := bool_decide (map tolower s = lit).

(** ** Lemmas *)

Lemma scode_small c : 0 <= scode c <= 127 -> scode c = code c.
Proof. unfold scode. pose proof (code_range c). destruct (code c <? 128) eqn:E; blia. Qed.

Lemma scode_digit c : ((scode c <? 48) || (57 <? scode c)) = negb (is_digit c).
Proof.
  unfold is_digit, scode. pose proof (code_range c). destruct (code c <? 128) eqn:E; bool_facts; lia.
Qed.

Lemma digit_scode c : is_digit c = true -> scode c = code c.
Proof. unfold is_digit. intros H. bool_facts. unfold scode. rewrite (proj2 (Z.ltb_lt _ _)); lia. Qed.

Lemma digits_val_mono v l : 0 <= v -> Forall (fun c => is_digit c = true) l -> v <= digits_val v l.
Proof.
  intros Hv Hl. revert v Hv. induction Hl as [|c l Hc Hl IH]; intros v Hv; cbn; [lia|].
  unfold is_digit in Hc. bool_facts. etransitivity; [|apply IH; lia]. lia.
Qed.

(** The loop computes the value of a digit string, and rejects exactly the
    strings with another character or a value of 2^64 or more. *)
Lemma str2int_loop_spec v l r :
  0 <= v <= UINT64_MAX ->
  str2int_loop v l = Some r <->
  Forall (fun c => is_digit c = true) l /\ digits_val v l <= UINT64_MAX /\ r = digits_val v l.
Proof.
  revert v. induction l as [|c l IH]; intros v Hv; cbn [str2int_loop].
  { cbn. split; [intros [= <-]|intros (_ & _ & ->); done]. split_and!; [constructor|lia|done]. }
  rewrite scode_digit. destruct (is_digit c) eqn:Ec; cbn [negb].
  2:{ split; [done|]. intros (H & _). apply Forall_cons in H as [H _]. congruence. }
  rewrite digit_scode by done. pose proof Ec as Ec'. unfold is_digit in Ec'. bool_facts.
  change (digits_val v (c :: l)) with (digits_val (v * 10 + (code c - 48)) l).
  assert (Hdiv : (UINT64_MAX - (code c - 48)) / 10 < v <-> UINT64_MAX < v * 10 + (code c - 48)).
  { pose proof (Z.div_mod (UINT64_MAX - (code c - 48)) 10 ltac:(lia)).
    pose proof (Z.mod_pos_bound (UINT64_MAX - (code c - 48)) 10 ltac:(lia)). lia. }
  destruct (_ <? v) eqn:Eo; bool_facts.
  - split; [done|]. intros (Hd & Hm & _). apply Forall_cons in Hd as [_ Hd].
    pose proof (digits_val_mono (v * 10 + (code c - 48)) l ltac:(lia) Hd). lia.
  - rewrite IH by lia. rewrite Forall_cons. intuition.
Qed.

(** A digit string without a leading zero is what its value prints as. *)
Lemma dec_digits_unique l f :
  Forall (fun c => is_digit c = true) l -> l <> [] -> (forall c, l !! 0%nat = Some c -> code c <> 48) ->
  (length l <= f)%nat -> dec_digits f (digits_val 0 l) [] = l.
Proof.
  revert f. induction l as [|c l IH] using rev_ind; intros f Hl Hne Hhd Hf; [done|].
  apply Forall_app in Hl as [Hl Hc]. apply Forall_cons in Hc as [Hc _]. rewrite length_app in Hf. cbn [length] in Hf.
  pose proof Hc as Hc'. unfold is_digit in Hc'. bool_facts.
  rewrite digits_val_app. cbn [digits_val foldl]. fold (digits_val 0 l). destruct f as [|f]; [lia|]. cbn [dec_digits].
  pose proof (digits_val_mono 0 l ltac:(lia) Hl) as Hpos.
  set (v := digits_val 0 l) in *.
  assert (Hm : (v * 10 + (code c - 48)) mod 10 = code c - 48)
    by (rewrite Z.add_comm, Z.mod_add by lia; apply Z.mod_small; lia).
  assert (Hq : (v * 10 + (code c - 48)) / 10 = v)
    by (rewrite Z.add_comm, Z.div_add by lia; rewrite (Z.div_small (code c - 48)) by lia; lia).
  rewrite Hm, Hq. replace (48 + (code c - 48)) with (code c) by lia. rewrite chr_code.
  destruct l as [|d l'].
  { subst v. cbn. rewrite (proj2 (Z.ltb_lt _ _)) by lia. done. }
  assert (Hd : code d <> 48) by (apply Hhd; done).
  assert (1 <= v).
  { apply Forall_cons in Hl as [Hdd Hl']. unfold is_digit in Hdd. bool_facts. subst v.
    change (digits_val 0 (d :: l')) with (digits_val (0 * 10 + (code d - 48)) l').
    pose proof (digits_val_mono (0 * 10 + (code d - 48)) l' ltac:(lia) Hl'). lia. }
  rewrite (proj2 (Z.ltb_ge _ _)) by lia. rewrite dec_digits_app. f_equal. apply IH; [done|done| |lia].
  intros x Hx. apply Hhd. cbn in *. done.
Qed.

(** A number of [n] digits, the first not zero, is at least 10^(n-1). *)
Lemma digits_val_lower v l :
  1 <= v -> Forall (fun c => is_digit c = true) l -> v * 10 ^ Z.of_nat (length l) <= digits_val v l.
Proof.
  intros Hv Hl. revert v Hv. induction Hl as [|c l Hc Hl IH]; intros v Hv; [cbn; lia|].
  unfold is_digit in Hc. bool_facts. change (digits_val v (c :: l)) with (digits_val (v * 10 + (code c - 48)) l).
  etransitivity; [|apply IH; lia]. cbn [length]. rewrite Nat2Z.inj_succ, Z.pow_succ_r by lia.
  pose proof (Z.pow_pos_nonneg 10 (Z.of_nat (length l)) ltac:(lia) ltac:(lia)). nia.
Qed.

Lemma print_u64_unique l :
  Forall (fun c => is_digit c = true) l -> (exists c l', l = c :: l' /\ code c <> 48) ->
  digits_val 0 l <= UINT64_MAX -> print_u64 (digits_val 0 l) = l.
Proof.
  intros Hl (c & l' & -> & Hc) Hm. apply dec_digits_unique; [done|done|by intros ? [= <-]|].
  apply Forall_cons in Hl as [Hcd Hl]. unfold is_digit in Hcd. bool_facts.
  change (digits_val 0 (c :: l')) with (digits_val (0 * 10 + (code c - 48)) l') in Hm.
  pose proof (digits_val_lower (0 * 10 + (code c - 48)) l' ltac:(lia) Hl) as Hlow.
  destruct (decide (length (c :: l') <= 20)%nat) as [|Hbig]; [done|]. cbn [length] in Hbig.
  assert (10 ^ 20 <= 10 ^ Z.of_nat (length l')) by (apply Z.pow_le_mono_r; lia).
  unfold UINT64_MAX in Hm. nia.
Qed.

(** [str2int] accepts exactly the canonical decimal strings of [int64_t]. *)
Lemma str2int_sound s z : str2int s = Some z -> s = print_i64 z /\ INT64_MIN <= z <= INT64_MAX.
Proof.
  unfold str2int. destruct s as [|c0 rest]; [done|]. set (s := c0 :: rest).
  destruct ((length s =? 1)%nat && bool_decide (c0 = chr 48)) eqn:E0; bool_facts.
  { intros [= <-]. subst c0. destruct rest; [|done]. split; [done|]. unfold INT64_MIN, INT64_MAX. lia. }
  destruct (bool_decide (c0 = c_minus) && (length s =? 1)%nat) eqn:E1; [done|].
  set (l := if bool_decide (c0 = c_minus) then rest else s).
  destruct l as [|c l'] eqn:El; [done|]. destruct ((scode c <? 49) || (57 <? scode c)) eqn:Ec; [done|].
  destruct (str2int_loop 0 (c :: l')) as [v|] eqn:Ev; [|done]. cbn [mbind option_bind].
  apply str2int_loop_spec in Ev as (Hd & Hm & Hv); [|unfold UINT64_MAX; lia]. bool_facts.
  pose proof (Forall_inv Hd) as Hc. cbn in Hc. pose proof (digit_scode c Hc) as Hsc.
  assert (Hp : print_u64 v = c :: l').
  { rewrite Hv. apply print_u64_unique; [done|exists c, l'; split; [done|lia]|done]. }
  assert (Hv1 : 1 <= v).
  { rewrite Hv. change (digits_val 0 (c :: l')) with (digits_val (0 * 10 + (code c - 48)) l').
    apply Forall_cons in Hd as [_ Hd]. pose proof (digits_val_mono (0 * 10 + (code c - 48)) l' ltac:(lia) Hd). lia. }
  unfold l in El. destruct (bool_decide (c0 = c_minus)) eqn:En; bool_facts.
  - subst c0. destruct (INT64_MAX + 1 <? v) eqn:E2; [done|]. bool_facts.
    intros [= <-]. unfold INT64_MIN, INT64_MAX in *. split.
    + unfold s, print_i64. rewrite El, <- Hp.
      destruct (v =? 2 ^ 63 - 1 + 1) eqn:E3; bool_facts.
      * by rewrite E3.
      * rewrite (proj2 (Z.ltb_lt _ _)) by lia. by rewrite Z.opp_involutive.
    + destruct (v =? 2 ^ 63 - 1 + 1) eqn:E3; blia.
  - destruct (INT64_MAX <? v) eqn:E2; [done|]. bool_facts. intros [= <-].
    unfold INT64_MIN, INT64_MAX in *. split; [|lia]. unfold print_i64.
    rewrite (proj2 (Z.ltb_ge _ _)) by lia. by rewrite Hp, <- El.
Qed.

Lemma print_u64_head n : 0 < n < 2 ^ 64 -> exists d l, print_u64 n = d :: l /\ 49 <= code d <= 57.
Proof. intros H. apply dec_digits_head. lia. Qed.

Lemma print_u64_loop n : 0 <= n < 2 ^ 64 -> str2int_loop 0 (print_u64 n) = Some n.
Proof.
  intros H. apply str2int_loop_spec; [unfold UINT64_MAX; lia|]. rewrite print_u64_val by done.
  split_and!; [|unfold UINT64_MAX; lia|done]. eapply Forall_impl; [by apply print_u64_digits|].
  intros c Hc. by apply Is_true_eq_true.
Qed.

Lemma str2int_complete z : INT64_MIN <= z <= INT64_MAX -> str2int (print_i64 z) = Some z.
Proof.
  unfold INT64_MIN, INT64_MAX. intros Hz. unfold print_i64.
  destruct (z <? 0) eqn:En; bool_facts; [|destruct (decide (z = 0)) as [->|Hnz]; [done|]].
  - destruct (print_u64_head (- z) ltac:(lia)) as (d & l & Hp & Hd).
    pose proof (print_u64_loop (- z) ltac:(lia)) as Hloop. rewrite Hp in *.
    unfold str2int. cbn [length Nat.eqb andb]. change (chr 45) with c_minus.
    rewrite bool_decide_eq_true_2 by done. cbn [andb].
    rewrite scode_small by (unfold scode; rewrite (proj2 (Z.ltb_lt _ _)); lia).
    rewrite (proj2 (Z.ltb_ge _ _)), (proj2 (Z.ltb_ge _ _)) by lia. cbn [orb]. rewrite Hloop. cbn [mbind option_bind].
    unfold INT64_MAX, INT64_MIN. rewrite (proj2 (Z.ltb_ge _ _)) by lia. f_equal.
    destruct (- z =? 2 ^ 63 - 1 + 1) eqn:E; blia.
  - destruct (print_u64_head z ltac:(lia)) as (d & l & Hp & Hd).
    pose proof (print_u64_loop z ltac:(lia)) as Hloop. rewrite Hp in *. unfold str2int.
    rewrite (bool_decide_eq_false_2 (d = chr 48)) by (intros ->; rewrite code_chr in Hd by lia; lia). rewrite andb_false_r.
    rewrite (bool_decide_eq_false_2 (d = c_minus)) by (intros ->; unfold c_minus in Hd; rewrite code_chr in Hd by lia; lia).
    cbn [andb]. rewrite scode_small by (unfold scode; rewrite (proj2 (Z.ltb_lt _ _)); lia).
    rewrite (proj2 (Z.ltb_ge _ _)), (proj2 (Z.ltb_ge _ _)) by lia. cbn [orb]. rewrite Hloop. cbn [mbind option_bind].
    unfold INT64_MAX. by rewrite (proj2 (Z.ltb_ge _ _)) by lia.
Qed.

(** The integer parser accepts exactly canonical decimals.  str2int reads a
    string as the integer z if and only if the string is the canonical
    decimal print of z (no sign plus, no leading zeros, no "-0") and z fits a
    signed 64-bit integer; everything else is rejected. *)
Theorem str2int_canonical (s : bytes) (z : Z) :
  str2int s = Some z <-> s = print_i64 z /\ INT64_MIN <= z <= INT64_MAX.
Proof. split; [apply str2int_sound|]. intros [-> H]. by apply str2int_complete. Qed.
