(* ===== verification/Strings.v ===== *)
(** * The string commands (src/src/commands/commands.cpp, 306-843)

    One definition per handler, on the arguments as string objects ([cmd\[0\]]
    is the command name).  A handler that swaps an argument into the keyspace
    stores that object, capacity included.  INCRBYFLOAT ([long double] text
    conversion) is not modelled. *)
From S2P Require Import Prelude Buffer Resp StdString Deque Hashtable HashMap Heap Score ZSet HashSet State World Args.

Definition MSG_WRONGTYPE : bytes := bs "WRONGTYPE Operation against a key holding the wrong kind of value".
Definition MSG_WRONGTYPE_SHORT : bytes := bs "WRONGTYPE wrong type".
Definition MSG_NOT_INT : bytes := bs "ERR value is not an integer or out of range".
Definition MSG_SYNTAX : bytes := bs "ERR syntax error".
Definition MSG_OUT_OF_RANGE : bytes := bs "ERR index out of range".

(** ** Replies *)

Definition r_err (m : bytes) : M () := reply (fun b => resp_err b m).
Definition r_nil : M () := reply_p resp_nil.
Definition r_ok : M () := reply resp_ok.
Definition r_int (z : Z) : M () := reply (fun b => resp_int b z).
Definition r_str (s : bytes) : M () := reply (fun b => resp_str b s).
Definition r_arr (n : Z) : M () := reply (fun b => resp_arr b n).
Definition r_simple (s : bytes) : M () := reply (fun b => resp_simple b s).

(** ** Access to a string entry through its pointer *)

Definition entry_str (k : bytes) : M sstr :=
  gets (fun w => match ents (ks w) !! k with
                 | Some e => match eval e with VStr s => s | _ => s_empty end
                 | None => s_empty
                 end).

Definition set_str (k : bytes) (s : sstr) : M () := on_ks (fun _ => upd k (with_eval (VStr s))).
Definition set_ttl (k : bytes) (ttl : Z) : M () := on_ks (fun now => entry_set_ttl now k ttl).
Definition reaccount (k : bytes) : M () := on_ks (fun _ => mem_reaccount k).
(** [hm_delete(&g_data.db, &ent->node, &hnode_same); entry_del(ent);] *)
Definition remove (k : bytes) : M () := on_ks (fun now => remove_key now k).

(** ** Handlers *)

Definition do_get (cmd : list sstr) : M () :=
  r ← lookup_entry (arg cmd 1) T_STR false false;
  match r with
  | LWRONGTYPE => r_err MSG_WRONGTYPE_SHORT
  | LMISSING => r_nil
  | LOK ent => s ← entry_str ent; r_str (s_data s)
  end.

(** [struct SetOpts] *)
Record SetOpts := mkSetOpts { nx : bool; xx : bool; oget : bool; keepttl : bool; has_exp : bool; abs_ms : Z }.

Definition F_NX : Z := 1.
Definition F_XX : Z := 2.
Definition F_GET : Z := 4.
Definition F_KEEPTTL : Z := 8.
Definition F_EX : Z := 16.
Definition F_PX : Z := 32.
Definition F_EXAT : Z := 64.
Definition F_PXAT : Z := 128.
Definition F_EXPIRY : Z := 240.

Definition flag (f bit : Z) : bool := negb (Z.land f bit =? 0).

Definition MSG_SET_EXPIRE : bytes := bs "ERR invalid expire time in 'set' command".

(** [unit(name, bit)] *)
Definition opt_unit (f : Z) (a name : bytes) (bit : Z) : bool :=
  arg_ieq a name && negb (flag f F_KEEPTTL) && negb (flag (Z.land f F_EXPIRY) (Z.lxor (Z.ones 32) bit)).

(** The option loop over [cmd\[3..\]]: flags and deadline, or the error text. *)
Fixpoint set_opts_loop (fuel : nat) (l : list bytes) (f ms now : Z) : bytes + (Z * Z) :=
  match fuel, l with
  | O, _ => inl MSG_SYNTAX
  | _, [] => inr (f, ms)
  | S n, a :: l' =>
      if arg_ieq a (bs "nx") && negb (flag f F_XX) then set_opts_loop n l' (Z.lor f F_NX) ms now
      else if arg_ieq a (bs "xx") && negb (flag f F_NX) then set_opts_loop n l' (Z.lor f F_XX) ms now
      else if arg_ieq a (bs "get") then set_opts_loop n l' (Z.lor f F_GET) ms now
      else if arg_ieq a (bs "keepttl") && negb (flag f F_EXPIRY) then set_opts_loop n l' (Z.lor f F_KEEPTTL) ms now
      else
        let choice :=
          if opt_unit f a (bs "ex") F_EX then Some (F_EX, true, false)
          else if opt_unit f a (bs "px") F_PX then Some (F_PX, false, false)
          else if opt_unit f a (bs "exat") F_EXAT then Some (F_EXAT, true, true)
          else if opt_unit f a (bs "pxat") F_PXAT then Some (F_PXAT, false, true)
          else None in
        match choice with
        | None => inl MSG_SYNTAX
        | Some (bit, secs, absolute) =>
            match l' with
            | [] => inl MSG_SYNTAX
            | vs :: l'' =>
                match str2int vs with
                | None => inl MSG_NOT_INT
                | Some v =>
                    if (v <=? 0) || ((secs : bool) && (INT64_MAX / 1000 <? v)) then inl MSG_SET_EXPIRE
                    else
                      let t := if secs then v * 1000 else v in
                      if absolute then set_opts_loop n l'' (Z.lor f bit) t now
                      else if INT64_MAX - now <? t then inl MSG_SET_EXPIRE
                      else set_opts_loop n l'' (Z.lor f bit) (t + now) now
                end
            end
        end
  end.

Definition parse_set_opts (cmd : list sstr) (wall : Z) : bytes + SetOpts :=
  let l := map s_data (drop 3 cmd) in
  match set_opts_loop (S (length l)) l 0 0 (i64 wall) with
  | inl e => inl e
  | inr (f, ms) =>
      inr (mkSetOpts (flag f F_NX) (flag f F_XX) (flag f F_GET) (flag f F_KEEPTTL) (flag f F_EXPIRY) ms)
  end.

(** [entry_str(ent).swap(v); entry_set_ttl(ent, ttl); mem_reaccount(ent); ++dirty] *)
Definition store_str (k : bytes) (v : sstr) (ttl : Z) : M () :=
  set_str k v ;; set_ttl k ttl ;; reaccount k ;; dirty 1.

(** The expiry the option form of SET will apply: [inl ()] when the deadline is past. *)
Definition set_ttl_of (o : SetOpts) (keep_ms wall : Z) : () + Z :=
  if has_exp o then
    let t := i64 (abs_ms o - i64 wall) in if t <=? 0 then inl () else inr t
  else inr (if keepttl o then keep_ms else -1).

Definition set_opts_body (cmd : list sstr) (o : SetOpts) : M () :=
  old ← find_live (argd cmd 1);
  e ← (match old with Some k => entry_at k | None => mret None end : M (option Entry));
  if oget o && (match e with Some e => negb (bool_decide (type e = T_STR)) | None => false end)
  then r_err MSG_WRONGTYPE
  else
    prev ← (match old with Some k => entry_str k | None => mret s_empty end : M sstr);
    let answer :=
      if oget o then (if bool_decide (old = None) then r_nil else r_str (s_data prev)) else r_ok in
    if (nx o && negb (bool_decide (old = None))) || (xx o && bool_decide (old = None))
    then (if oget o then answer else r_nil)
    else
      v ← gets env;
      h ← gets (fun w => heap (ks w));
      let keep_ms :=
        match e with
        | Some e =>
            if keepttl o && entry_has_ttl e then
              let at_ms := val (h !!! Z.to_nat (heap_idx e)) in
              if now v <? at_ms then i64 (at_ms - now v) else 0
            else -1
        | None => -1
        end in
      match set_ttl_of o keep_ms (wall v) with
      | inl _ =>
          match old with
          | Some k => remove k ;; dirty 1
          | None => mret ()
          end ;;
          answer
      | inr ttl =>
          r ← lookup_entry (arg cmd 1) T_STR true true;
          match r with
          | LOK ent => store_str ent (arg cmd 2) ttl ;; answer
          | _ => r_err MSG_WRONGTYPE
          end
      end.

Definition do_set (cmd : list sstr) : M () :=
  if (length cmd =? 3)%nat then
    r ← lookup_entry (arg cmd 1) T_STR true true;
    match r with
    | LOK ent => store_str ent (arg cmd 2) (-1) ;; r_ok
    | _ => r_err MSG_WRONGTYPE_SHORT
    end
  else
    v ← gets env;
    match parse_set_opts cmd (wall v) with
    | inl e => r_err e
    | inr o => set_opts_body cmd o
    end.

(** SETEX (mult 1000) and PSETEX (mult 1); [ttl * mult] is an [int64_t] product. *)
Definition setex_generic (cmd : list sstr) (mult : Z) : M () :=
  match str2int (argd cmd 2) with
  | None => r_err (bs "ERR invalid expire time in setex command")
  | Some ttl =>
      if ttl <=? 0 then r_err (bs "ERR invalid expire time in setex command")
      else
        r ← lookup_entry (arg cmd 1) T_STR true true;
        match r with
        | LOK ent => store_str ent (arg cmd 3) (i64 (ttl * mult)) ;; r_ok
        | _ => r_err MSG_WRONGTYPE
        end
  end.

Definition do_setex (cmd : list sstr) : M () := setex_generic cmd 1000.
Definition do_psetex (cmd : list sstr) : M () := setex_generic cmd 1.

Definition do_setnx (cmd : list sstr) : M () :=
  node ← find_live (argd cmd 1);
  match node with
  | Some _ => r_int 0
  | None =>
      r ← lookup_entry (arg cmd 1) T_STR true false;
      match r with
      | LOK ent => set_str ent (arg cmd 2) ;; reaccount ent ;; dirty 1 ;; r_int 1
      | _ => r_int 1
      end
  end.

Definition do_getset (cmd : list sstr) : M () :=
  node ← find_live (argd cmd 1);
  match node with
  | Some k =>
      e ← entry_at k;
      match e with
      | Some e =>
          match eval e with
          | VStr old =>
              set_str k (arg cmd 2) ;; set_ttl k (-1) ;; reaccount k ;; dirty 1 ;; r_str (s_data old)
          | _ => r_err MSG_WRONGTYPE
          end
      | None => r_err MSG_WRONGTYPE
      end
  | None =>
      (* a fresh entry, not stamped by entry_init_access, charged before linking *)
      let k := argd cmd 1 in
      let e := with_eval (VStr (arg cmd 2)) (with_ekey (s_move s_empty (s_assign s_empty k)).1 (entry_new T_STR)) in
      on_ks (fun _ s =>
               let s := with_used (u64 (u64 (used_memory s + entry_mem_usage e) - mem e)) s in
               db_link k (with_mem (entry_mem_usage e) e) s) ;;
      dirty 1 ;; r_nil
  end.

Definition do_getdel (cmd : list sstr) : M () :=
  r ← lookup_entry (arg cmd 1) T_STR false false;
  match r with
  | LWRONGTYPE => r_err MSG_WRONGTYPE_SHORT
  | LMISSING => r_nil
  | LOK ent => s ← entry_str ent; remove ent ;; dirty 1 ;; r_str (s_data s)
  end.

Definition MSG_GETEX_EXPIRE : bytes := bs "ERR invalid expire time in getex command".

(** The time to live GETEX asks for, from the lower-cased option and its value. *)
Definition getex_ttl (opt : bytes) (v wall : Z) : bytes + Z :=
  if bool_decide (opt = bs "ex") then
    if (v <=? 0) || (INT64_MAX / 1000 <? v) then inl MSG_GETEX_EXPIRE else inr (v * 1000)
  else if bool_decide (opt = bs "px") then
    if v <=? 0 then inl MSG_GETEX_EXPIRE else inr v
  else if bool_decide (opt = bs "exat") then
    if INT64_MAX / 1000 <? v then inl MSG_GETEX_EXPIRE else inr (i64 (i64 (v * 1000) - i64 wall))
  else if bool_decide (opt = bs "pxat") then inr (i64 (v - i64 wall))
  else inl MSG_SYNTAX.

Definition do_getex (cmd : list sstr) : M () :=
  r ← lookup_entry (arg cmd 1) T_STR false false;
  match r with
  | LWRONGTYPE => r_err MSG_WRONGTYPE_SHORT
  | LMISSING => r_nil
  | LOK ent =>
      s ← entry_str ent;
      e ← entry_at ent;
      if (length cmd =? 2)%nat then r_str (s_data s)
      else
        let opt := map tolower (argd cmd 2) in
        if bool_decide (opt = bs "persist") then
          if negb (length cmd =? 3)%nat then r_err MSG_SYNTAX
          else
            (if match e with Some e => entry_has_ttl e | None => false end
             then set_ttl ent (-1) ;; dirty 1 else mret ()) ;;
            r_str (s_data s)
        else if negb (length cmd =? 4)%nat then r_err MSG_SYNTAX
        else
          match str2int (argd cmd 3) with
          | None => r_err MSG_NOT_INT
          | Some v =>
              w ← gets env;
              match getex_ttl opt v (wall w) with
              | inl m => r_err m
              | inr ttl =>
                  if ttl <=? 0 then remove ent ;; dirty 1 ;; r_str (s_data s)
                  else set_ttl ent ttl ;; dirty 1 ;; r_str (s_data s)
              end
          end
  end.

Definition do_mget (cmd : list sstr) : M () :=
  r_arr (u32 (Z.of_nat (length cmd) - 1)) ;;
  for_each (tail cmd) (fun key =>
    r ← lookup_entry key T_STR false false;
    match r with
    | LOK ent => s ← entry_str ent; r_str (s_data s)
    | _ => r_nil
    end).

Definition do_append (cmd : list sstr) : M () :=
  r ← lookup_entry (arg cmd 1) T_STR true false;
  match r with
  | LOK ent =>
      s ← entry_str ent;
      let s' := s_append s (argd cmd 2) in
      set_str ent s' ;; reaccount ent ;; dirty 1 ;; r_int (Z.of_nat (length (s_data s')))
  | _ => r_err MSG_WRONGTYPE
  end.

Definition do_strlen (cmd : list sstr) : M () :=
  r ← lookup_entry (arg cmd 1) T_STR false false;
  match r with
  | LWRONGTYPE => r_err MSG_WRONGTYPE
  | LMISSING => r_int 0
  | LOK ent => s ← entry_str ent; r_int (Z.of_nat (length (s_data s)))
  end.

(** The byte range GETRANGE answers: [None] is the empty string. *)
Definition range_of (start end_ len : Z) : option (Z * Z) :=
  if (start <? 0) && (end_ <? 0) && (end_ <? start) then None
  else
    let start := if start <? 0 then start + len else start in
    let end_ := if end_ <? 0 then end_ + len else end_ in
    let start := if start <? 0 then 0 else start in
    let end_ := if end_ <? 0 then 0 else end_ in
    let end_ := if len <=? end_ then len - 1 else end_ in
    if end_ <? start then None else Some (start, end_ - start + 1).

Definition do_getrange (cmd : list sstr) : M () :=
  match str2int (argd cmd 2), str2int (argd cmd 3) with
  | Some start, Some end_ =>
      r ← lookup_entry (arg cmd 1) T_STR false false;
      match r with
      | LWRONGTYPE => r_err MSG_WRONGTYPE
      | LMISSING => r_str []
      | LOK ent =>
          s ← entry_str ent;
          match range_of start end_ (Z.of_nat (length (s_data s))) with
          | None => r_str []
          | Some (offset, count) => r_str (slice (Z.to_nat offset) (Z.to_nat count) (s_data s))
          end
      end
  | _, _ => r_err MSG_NOT_INT
  end.

Definition MAX_OFFSET : Z := 512 * 1024 * 1024.

(** [resize(new_end, '\0')] when shorter, then [memcpy] at the offset. *)
Definition set_range (s : sstr) (offset : nat) (v : bytes) : sstr :=
  let new_end := (offset + length v)%nat in
  let s := if (length (s_data s) <? new_end)%nat
           then s_append s (replicate (new_end - length (s_data s)) c_zero) else s in
  mkStr (write_at offset v (s_data s)) (s_cap s).

Definition do_setrange (cmd : list sstr) : M () :=
  match str2int (argd cmd 2) with
  | None => r_err MSG_NOT_INT
  | Some offset =>
      if offset <? 0 then r_err (bs "ERR offset is not an integer or out of range")
      else if MAX_OFFSET <=? offset then r_err (bs "ERR string exceeds maximun allowed size (512MB)")
      else if bool_decide (argd cmd 3 = []) then
        r ← lookup_entry (s_assign s_empty (argd cmd 1)) T_STR false false;
        match r with
        | LWRONGTYPE => r_err MSG_WRONGTYPE
        | LMISSING => r_int 0
        | LOK ent => s ← entry_str ent; r_int (Z.of_nat (length (s_data s)))
        end
      else
        r ← lookup_entry (arg cmd 1) T_STR true false;
        match r with
        | LOK ent =>
            s ← entry_str ent;
            let s' := set_range s (Z.to_nat offset) (argd cmd 3) in
            set_str ent s' ;; reaccount ent ;; dirty 1 ;; r_int (Z.of_nat (length (s_data s')))
        | _ => r_err MSG_WRONGTYPE
        end
  end.

(** [cmd\[1\] cmd\[2\], cmd\[3\] cmd\[4\], ...] *)
Fixpoint pairs_of (l : list sstr) : list (sstr * sstr) :=
  match l with
  | k :: v :: l' => (k, v) :: pairs_of l'
  | _ => []
  end.

Definition MSG_MSET_ARITY : bytes := bs "ERR wrong number of arguments for 'mset' command".

Definition mset_arity (cmd : list sstr) : bool := (length cmd <? 3)%nat || Nat.even (length cmd).

Definition do_mset (cmd : list sstr) : M () :=
  if mset_arity cmd then r_err MSG_MSET_ARITY
  else
    for_each (pairs_of (tail cmd)) (fun kv =>
      r ← lookup_entry kv.1 T_STR true true;
      match r with
      | LOK ent => set_str ent kv.2 ;; set_ttl ent (-1) ;; reaccount ent
      | _ => mret ()
      end) ;;
    dirty (u32 ((Z.of_nat (length cmd) - 1) / 2)) ;; r_ok.

(** The existence pass of MSETNX: whether some key is live. *)
Fixpoint any_live (l : list (sstr * sstr)) : M bool :=
  match l with
  | [] => mret false
  | kv :: l' => node ← find_live (s_data kv.1); match node with Some _ => mret true | None => any_live l' end
  end.

Definition do_msetnx (cmd : list sstr) : M () :=
  if mset_arity cmd then r_err MSG_MSET_ARITY
  else
    some ← any_live (pairs_of (tail cmd));
    if (some : bool) then r_int 0
    else
      for_each (pairs_of (tail cmd)) (fun kv =>
        r ← lookup_entry kv.1 T_STR true false;
        match r with
        | LOK ent => set_str ent kv.2 ;; reaccount ent
        | _ => mret ()
        end) ;;
      dirty (u32 ((Z.of_nat (length cmd) - 1) / 2)) ;; r_int 1.

Definition MSG_OVERFLOW : bytes := bs "ERR increment or decrement would overflow".

(** [entry_str(ent) = std::to_string(cur)] moves a temporary in. *)
Definition put_int (k : bytes) (cur : Z) : M () :=
  s ← entry_str k;
  set_str k (s_move s (s_copy (print_i64 cur))).1 ;; reaccount k ;; dirty 1 ;; r_int cur.

Definition incr_generic (cmd : list sstr) (delta : Z) : M () :=
  lk ← lookup_entry (s_assign s_empty (argd cmd 1)) T_STR false false;
  match lk with
  | LWRONGTYPE => r_err MSG_WRONGTYPE
  | _ =>
      parsed ← (match lk with
                | LOK ent => s ← entry_str ent; mret (str2int (s_data s))
                | _ => mret (Some 0)
                end : M (option Z));
      match parsed with
      | None => r_err MSG_NOT_INT
      | Some cur =>
          if ((0 <? delta) && (INT64_MAX - delta <? cur)) || ((delta <? 0) && (cur <? INT64_MIN - delta))
          then r_err MSG_OVERFLOW
          else
            match lk with
            | LOK ent => put_int ent (cur + delta)
            | _ =>
                r ← lookup_entry (arg cmd 1) T_STR true false;
                match r with LOK ent => put_int ent (cur + delta) | _ => mret () end
            end
      end
  end.

Definition do_incr (cmd : list sstr) : M () := incr_generic cmd 1.
Definition do_decr (cmd : list sstr) : M () := incr_generic cmd (-1).

Definition do_incrby (cmd : list sstr) : M () :=
  match str2int (argd cmd 2) with
  | None => r_err MSG_NOT_INT
  | Some delta => incr_generic cmd delta
  end.

Definition do_decrby (cmd : list sstr) : M () :=
  match str2int (argd cmd 2) with
  | None => r_err MSG_NOT_INT
  | Some by_ => if by_ =? INT64_MIN then r_err MSG_OVERFLOW else incr_generic cmd (- by_)
  end.

(** ** Lookups of strings, in terms of the view *)

(** Room for one more entry. *)
Definition room (w : World) : Prop := Z.of_nat (base.size (ents (ks w))) + 1 < NO_TTL.

Lemma lookup_read w key want r w' :
  world_ok w -> lookup_entry key want false false w = (r, w') ->
  world_ok w' /\ view w' = view w /\ quiet w w' /\
  match r with
  | LOK k => k = s_data key /\ exists e t, ents (ks w') !! k = Some e /\ type e = want /\
      value_ok (eval e) /\ view w !! k = Some (aval (eval e), t) /\ ttls (ks w') !! k = t
  | LMISSING => view w !! s_data key = None /\ (base.size (ents (ks w')) <= base.size (ents (ks w)))%nat
  | LWRONGTYPE => exists v t, view w !! s_data key = Some (v, t) /\ atype v <> want
  end.
Proof.
  intros (Hok & Hacc & Hwf) H. pose proof (lookup_entry_spec w key want false false r w' Hok Hacc ltac:(done) ltac:(done) H) as Hs.
  cbn zeta in Hs. destruct Hs as (Hok' & Hq & Hr). pose proof Hq as (_ & Ho & _).
  unfold world_ok. rewrite Ho. destruct r as [k| |].
  - destruct Hr as (-> & _ & e & He & Ht & [(t & Hv & Htt & Hvw & Ha)|(? & _)]); [|done].
    split_and!; try done. exists e, t. split_and!; try done. exact (ks_val _ Hok' _ _ He).
  - destruct Hr as (_ & Hn & Hv & Ha & Hsz). split_and!; done.
  - destruct Hr as (_ & Hv & Ha & Hx). split_and!; done.
Qed.

Lemma str_type e : type e = T_STR -> exists s, eval e = VStr s.
Proof. unfold type. destruct (eval e); try done. by eexists. Qed.

(** The string under a key (empty when missing) and its deadline. *)
Definition str_at (v : gmap bytes (AVal * option Z)) (k : bytes) : bytes * option Z :=
  match v !! k with Some (AStr b, t) => (b, t) | _ => ([], None) end.

Lemma entry_str_run w k e s : ents (ks w) !! k = Some e -> eval e = VStr s -> entry_str k w = (s, w).
Proof. unfold entry_str, gets. by intros -> ->. Qed.

Lemma lookup_str_create w key replace r w' :
  world_ok w -> room w -> lookup_entry key T_STR true replace w = (r, w') ->
  ks_ok (ks w') /\ quiet w w' /\
  match r with
  | LOK k => k = s_data key /\ accounted_but k (ks w') /\
      exists e s t, ents (ks w') !! k = Some e /\ eval e = VStr s /\ s_ok s /\
        view w' = <[k := (AStr (s_data s), t)]> (view w) /\
        match view w !! k with
        | Some (AStr b, t0) => b = s_data s /\ t = t0
        | Some _ => replace = true /\ s = s_empty /\ t = None
        | None => s = s_empty /\ t = None
        end
  | LMISSING => False
  | LWRONGTYPE => replace = false /\ view w' = view w /\ accounted (ks w') /\
      exists v t, view w !! s_data key = Some (v, t) /\ atype v <> T_STR
  end.
Proof.
  intros (Hok & Hacc & Hwf) Hroom H.
  pose proof (lookup_entry_spec w key T_STR true replace r w' Hok Hacc ltac:(done) ltac:(done) H) as Hs.
  cbn zeta in Hs. destruct Hs as (Hok' & Hq & Hr). split; [done|]. split; [done|]. destruct r as [k| |]; [|naive_solver|done].
  destruct Hr as (-> & Hb & e & He & Ht & Hcase). split_and!; [done|done|].
  destruct (str_type e Ht) as [s Hev]. exists e, s. pose proof (ks_val _ Hok' _ _ He) as Hsv. cbn beta in Hsv. rewrite Hev in Hsv.
  destruct Hcase as [(t & Hv & _ & Hvw & _)|(_ & Hnew & _ & Hvw & Hwas)].
  - exists t. rewrite Hev in Hv. cbn in Hv. rewrite Hv. split_and!; try done. rewrite Hvw. symmetry. by apply insert_id.
  - exists None. rewrite Hnew in Hev. injection Hev as <-. split_and!; try done.
    destruct (view w !! s_data key) as [[[] t]|]; try done; naive_solver.
Qed.

(** Storing a string keeping the deadline: [view'] differs from [view] at [k] only. *)
Lemma store_run w k e s t v0 :
  ks_ok (ks w) -> accounted_but k (ks w) -> wf (out w) -> ents (ks w) !! k = Some e -> s_ok s ->
  view w = <[k := (AStr v0, t)]> (view w) ->
  exists w', (set_str k s ;; reaccount k) w = ((), w') /\ world_ok w' /\ quiet w w' /\
    view w' = <[k := (AStr (s_data s), t)]> (view w).
Proof.
  intros Hok Hacc Hwf He Hs Hk.
  assert (Hvk : view w !! k = Some (AStr v0, t)) by (rewrite Hk; apply lookup_insert_eq).
  destruct (view_commit w _ k e (VStr s) _ _ Hok Hacc He Hs Hvk eq_refl) as (C1 & C2 & C3).
  eexists. split; [reflexivity|]. split_and!; done.
Qed.

(** Storing a string and a deadline. *)
Lemma store_str_run w k e s ttl :
  ks_ok (ks w) -> accounted_but k (ks w) -> wf (out w) -> ents (ks w) !! k = Some e -> s_ok s ->
  env_ok (env w) -> (ttl < 0 \/ 0 < ttl <= INT64_MAX) ->
  exists w', store_str k s ttl w = ((), w') /\ world_ok w' /\
    writes w' = u32 (writes w + 1) /\ out w' = out w /\ env w' = env w /\
    view w' = <[k := (AStr (s_data s), deadline (now (env w)) ttl)]> (view w).
Proof.
  intros Hok Hacc Hwf He Hs Henv Httl.
  destruct (view_commit_ttl w _ k e (VStr s) ttl Hok Hacc He Hs Henv Httl eq_refl) as (C1 & C2 & C3).
  eexists. split; [reflexivity|]. split_and!; done.
Qed.

(** ** Handlers against the view *)

(** What a handler leaves: a consistent world with reply [rep] appended, view [v]
    and [n] more changes counted. *)
Definition leaves (w w' : World) (rep : Buffer -> Buffer) (v : gmap bytes (AVal * option Z)) (n : Z) : Prop :=
  world_ok w' /\ view w' = v /\ out w' = rep (out w) /\ env w' = env w /\ writes w' = u32 (writes w + n).

(** The dirty counter is a 32-bit word. *)
Definition writes_ok (w : World) : Prop := u32 (writes w) = writes w.

Lemma leaves_intro w w1 rep v n :
  world_ok w1 -> view w1 = v -> out w1 = out w -> env w1 = env w -> writes w1 = u32 (writes w + n) ->
  wf (rep (out w)) -> leaves w (with_out (rep (out w1)) w1) rep v n.
Proof. intros (H1 & H2 & H3) Hv Ho He Hn Hwf. rewrite Ho. done. Qed.

Lemma leaves_ok w w' rep v n : leaves w w' rep v n -> world_ok w' /\ writes_ok w'.
Proof. intros (H & _ & _ & _ & Hn). split; [exact H|]. unfold writes_ok. rewrite Hn. apply Z.mod_mod. done. Qed.

Lemma leaves_reply w w' rep v :
  world_ok w' -> view w' = v -> quiet w w' -> writes_ok w -> wf (rep (out w')) ->
  leaves w (with_out (rep (out w')) w') rep v 0.
Proof.
  intros Hw1 Hv (Q1 & Q2 & Q3) Hw Hwf. rewrite Q2 in Hwf.
  apply leaves_intro; try done. by rewrite Q1, Z.add_0_r, Hw.
Qed.

Lemma do_get_leaves cmd w w' :
  world_ok w -> writes_ok w -> do_get cmd w = ((), w') ->
  leaves w w' (fun b => match view w !! argd cmd 1 with
                        | None => resp_nil (g_reply_proto (env w)) b
                        | Some (AStr s, _) => resp_str b s
                        | Some _ => resp_err b MSG_WRONGTYPE_SHORT
                        end) (view w) 0.
Proof.
  intros Hw Hn H. unfold do_get, mbind, state_bind in H.
  destruct (lookup_entry (arg cmd 1) T_STR false false w) as [r w1] eqn:E.
  destruct (lookup_read _ _ _ _ _ Hw E) as (Hw1 & Hv & Hq & Hr). pose proof Hw1 as (_ & _ & Hwf).
  change (s_data (arg cmd 1)) with (argd cmd 1) in Hr. destruct r as [k| |].
  - destruct Hr as (-> & e & t & He & Ht & _ & Hvk & _). destruct (str_type e Ht) as [s Hs].
    rewrite (entry_str_run _ _ _ _ He Hs) in H. injection H as <-. rewrite Hvk, Hs. cbn [aval].
    by apply (leaves_reply w w1 (fun b => resp_str b (s_data s))); auto with myred.
  - injection H as <-. destruct Hr as [Hr _]. rewrite Hr. pose proof Hq as (_ & _ & Q3). rewrite Q3.
    by apply (leaves_reply w w1 (resp_nil (g_reply_proto (env w)))); auto with myred.
  - injection H as <-. destruct Hr as (v & t & Hvk & Hty). rewrite Hvk.
    destruct v; try done; by apply (leaves_reply w w1 (fun b => resp_err b MSG_WRONGTYPE_SHORT)); auto with myred.
Qed.

(** The shape of APPEND and SETRANGE: create or find, transform, answer. *)
Definition update_str (key : sstr) (f : sstr -> sstr) (rep : sstr -> Buffer -> Buffer) : M () :=
  r ← lookup_entry key T_STR true false;
  match r with
  | LOK ent => s ← entry_str ent; set_str ent (f s) ;; reaccount ent ;; dirty 1 ;; reply (rep (f s))
  | _ => r_err MSG_WRONGTYPE
  end.

Definition is_str (o : option (AVal * option Z)) : bool :=
  match o with Some (AStr _, _) | None => true | Some _ => false end.

Lemma update_str_leaves key f rep g w w' :
  world_ok w -> writes_ok w -> room w -> update_str key f rep w = ((), w') ->
  (forall s, s_ok s -> s_ok (f s) /\ s_data (f s) = g (s_data s)) ->
  (forall s b, wf b -> wf (rep s b)) ->
  (forall s s', s_data s = s_data s' -> rep s = rep s') ->
  let k := s_data key in
  if is_str (view w !! k) then
    exists s, s_data s = g (str_at (view w) k).1 /\
    leaves w w' (rep s) (<[k := (AStr (g (str_at (view w) k).1), (str_at (view w) k).2)]> (view w)) 1
  else leaves w w' (fun b => resp_err b MSG_WRONGTYPE) (view w) 0.
Proof.
  intros Hw Hn Hroom H Hf Hrep Hext. unfold update_str, mbind, state_bind in H. cbn zeta. unfold is_str, str_at.
  destruct (lookup_entry key T_STR true false w) as [r w1] eqn:E.
  destruct (lookup_str_create _ _ _ _ _ Hw Hroom E) as (Hok & Hq & Hr). pose proof Hq as (Q1 & Q2 & Q3).
  destruct Hw as (_ & _ & Hwf). destruct r as [k| |]; [|done|].
  - destruct Hr as (-> & Hb & e & s & t & He & Hs & Hsok & Hv & Hcase).
    rewrite (entry_str_run _ _ _ _ He Hs) in H. destruct (Hf s Hsok) as [Hfok Hfd].
    destruct (store_run w1 (s_data key) e (f s) t (s_data s) Hok Hb) as (w2 & Hrun & Hw2 & Hq2 & Hv2);
      [by rewrite Q2|done|done|by rewrite Hv, insert_insert_eq|].
    cbn in Hrun. injection Hrun as Hrun. cbn in H. rewrite Hrun in H. injection H as <-.
    pose proof Hq2 as (P1 & P2 & P3). rewrite Hv, insert_insert_eq in Hv2. rewrite Hfd in Hv2.
    assert (Hres : leaves w (with_out (rep (f s) (out w2)) (with_writes (u32 (writes w1 + 1)) w2)) (rep (f s))
       (<[s_data key:=(AStr (g (s_data s)), t)]> (view w)) 1).
    { apply (leaves_intro w (with_writes (u32 (writes w1 + 1)) w2)); cbn; try done; try congruence. by apply Hrep. }
    destruct (view w !! s_data key) as [[[] t0]|]; try (destruct Hcase as (? & _); done).
    + destruct Hcase as [-> <-]. exists (f s). split; [exact Hfd|exact Hres].
    + destruct Hcase as [-> ->]. exists (f s_empty). split; [exact Hfd|exact Hres].
  - destruct Hr as (_ & Hv & Hacc & v & t & Hvk & Hty). injection H as <-. rewrite Hvk.
    assert (leaves w (with_out (resp_err (out w1) MSG_WRONGTYPE) w1) (fun b => resp_err b MSG_WRONGTYPE) (view w) 0).
    { apply (leaves_reply w w1 (fun b => resp_err b MSG_WRONGTYPE)); [|done..|].
      - split_and!; [done|done|]. by rewrite Q2.
      - rewrite Q2. by apply wf_resp_err. }
    by destruct v.
Qed.

Lemma s_append_ok s v : s_ok s -> s_ok (s_append s v) /\ s_data (s_append s v) = s_data s ++ v.
Proof.
  intros [H1 H2]. split; [|done]. unfold s_ok, s_append, s_room. cbn [s_cap s_data].
  destruct (_ <? _) eqn:E; blia.
Qed.

(** The string SETRANGE leaves: padded with zero bytes to reach, then overwritten. *)
Definition patch (b : bytes) (offset : nat) (v : bytes) : bytes :=
  write_at offset v (b ++ replicate (offset + length v - length b) c_zero).

Lemma set_range_ok s offset v :
  s_ok s -> s_ok (set_range s offset v) /\ s_data (set_range s offset v) = patch (s_data s) offset v.
Proof.
  intros Hs. unfold set_range, patch. destruct (length (s_data s) <? offset + length v)%nat eqn:E; bool_facts.
  - destruct (s_append_ok s (replicate (offset + length v - length (s_data s)) c_zero) Hs) as [[H1 H2] H3].
    split; [|done]. split; cbn [s_cap s_data] in *; [done|].
    rewrite length_write_at; [done|]. cbn [s_data s_append]. rewrite length_app, length_replicate. lia.
  - replace (offset + length v - length (s_data s))%nat with O by lia. cbn [replicate]. rewrite app_nil_r.
    split; [|done]. destruct Hs as [H1 H2]. split; cbn [s_cap s_data]; [done|].
    by rewrite length_write_at by lia.
Qed.

Lemma do_set_leaves cmd w w' :
  world_ok w -> room w -> env_ok (env w) -> length cmd = 3%nat -> s_ok (arg cmd 2) -> do_set cmd w = ((), w') ->
  leaves w w' resp_ok (<[argd cmd 1 := (AStr (argd cmd 2), None)]> (view w)) 1.
Proof.
  intros Hw Hroom Henv Hlen Hs H. unfold do_set, mbind, state_bind in H. rewrite Hlen in H. cbn [Nat.eqb] in H.
  destruct (lookup_entry (arg cmd 1) T_STR true true w) as [r w1] eqn:E.
  destruct (lookup_str_create _ _ _ _ _ Hw Hroom E) as (Hok & (Q1 & Q2 & Q3) & Hr).
  destruct Hw as (_ & _ & Hwf). destruct r as [k| |]; [|done|by destruct Hr].
  destruct Hr as (-> & Hb & e & s & t & He & _ & _ & Hv & _).
  destruct (store_str_run w1 (s_data (arg cmd 1)) e (arg cmd 2) (-1)) as (w2 & Hrun & Hw2 & P1 & P2 & P3 & Hv2);
    [done|done|by rewrite Q2|done|done|by rewrite Q3|by left; lia|].
  rewrite Hrun in H. injection H as <-. rewrite Hv, insert_insert_eq in Hv2.
  apply (leaves_intro w w2 resp_ok); try done; try congruence. by apply wf_resp_ok.
Qed.

(** ** Counters *)

Lemma put_int_run w k e s t cur :
  ks_ok (ks w) -> accounted_but k (ks w) -> wf (out w) -> ents (ks w) !! k = Some e -> eval e = VStr s -> s_ok s ->
  view w = <[k := (AStr (s_data s), t)]> (view w) ->
  exists w', put_int k cur w = ((), w') /\
    leaves w w' (fun b => resp_int b cur) (<[k := (AStr (print_i64 cur), t)]> (view w)) 1.
Proof.
  intros Hok Hb Hwf He Hs Hsok Hv. unfold put_int, mbind, state_bind. rewrite (entry_str_run _ _ _ _ He Hs).
  destruct (s_move_data s (s_copy (print_i64 cur))) as [Hd _].
  destruct (s_move_ok s (s_copy (print_i64 cur)) Hsok (s_copy_ok _)) as [Hmok _].
  destruct (store_run w k e _ t (s_data s) Hok Hb Hwf He Hmok Hv) as (w2 & Hrun & Hw2 & (P1 & P2 & P3) & Hv2).
  cbn in Hrun. injection Hrun as Hrun. cbn. rewrite Hrun. eexists. split; [reflexivity|]. rewrite Hd in Hv2.
  apply (leaves_intro w (with_writes (u32 (writes w + 1)) w2) (fun b => resp_int b cur)); cbn; try done; try congruence.
  by apply wf_resp_int.
Qed.

(** The value INCR and friends start from, and the outcome of adding [delta]. *)
Definition counter_at (v : gmap bytes (AVal * option Z)) (k : bytes) : option Z :=
  match v !! k with Some (AStr b, _) => str2int b | _ => Some 0 end.

Definition in_i64 (z : Z) : bool := (INT64_MIN <=? z) && (z <=? INT64_MAX).

Lemma incr_overflow_check cur delta :
  INT64_MIN <= cur <= INT64_MAX -> INT64_MIN <= delta <= INT64_MAX ->
  ((0 <? delta) && (INT64_MAX - delta <? cur)) || ((delta <? 0) && (cur <? INT64_MIN - delta)) =
  negb (in_i64 (cur + delta)).
Proof.
  unfold in_i64, INT64_MIN, INT64_MAX. intros. lia.
Qed.

Lemma incr_generic_leaves cmd delta w w' :
  world_ok w -> writes_ok w -> room w -> INT64_MIN <= delta <= INT64_MAX -> incr_generic cmd delta w = ((), w') ->
  let k := argd cmd 1 in
  if is_str (view w !! k) then
    match counter_at (view w) k with
    | None => leaves w w' (fun b => resp_err b MSG_NOT_INT) (view w) 0
    | Some cur =>
        if in_i64 (cur + delta)
        then leaves w w' (fun b => resp_int b (cur + delta))
               (<[k := (AStr (print_i64 (cur + delta)), (str_at (view w) k).2)]> (view w)) 1
        else leaves w w' (fun b => resp_err b MSG_OVERFLOW) (view w) 0
    end
  else leaves w w' (fun b => resp_err b MSG_WRONGTYPE) (view w) 0.
Proof.
  intros Hw Hn Hroom Hdel H. unfold incr_generic, mbind, state_bind in H. cbn zeta.
  destruct (lookup_entry (s_assign s_empty (argd cmd 1)) T_STR false false w) as [r w1] eqn:E.
  destruct (lookup_read _ _ _ _ _ Hw E) as (Hw1 & Hv & Hq & Hr). cbn [s_data s_assign] in Hr.
  pose proof Hq as (Q1 & Q2 & Q3). pose proof Hw1 as (Hok1 & Hacc1 & Hwf1).
  assert (Herr : forall m, leaves w (with_out (resp_err (out w1) m) w1) (fun b => resp_err b m) (view w) 0).
  { intros m. apply (leaves_reply w w1 (fun b => resp_err b m)); [done..|]. by apply wf_resp_err. }
  unfold is_str, counter_at, str_at. destruct r as [k| |].
  - destruct Hr as (-> & e & t & He & Ht & Hvok & Hvk & _). destruct (str_type e Ht) as [s Hs].
    rewrite (entry_str_run _ _ _ _ He Hs) in H. rewrite Hvk, Hs. cbn [aval]. cbn in H.
    destruct (str2int (s_data s)) as [cur|] eqn:Ei; [|injection H as <-; apply Herr].
    apply str2int_sound in Ei as [_ Hcur]. rewrite incr_overflow_check in H by done.
    destruct (in_i64 (cur + delta)); cbn [negb] in H; [|injection H as <-; apply Herr]. rewrite Hs in Hvok.
    destruct (put_int_run w1 (argd cmd 1) e s t (cur + delta)) as (w2 & Hrun & Hl);
      [done|by apply accounted_weaken|done|done|done|done| |].
    { rewrite Hv. symmetry. apply insert_id. by rewrite Hvk, Hs. }
    rewrite Hrun in H. injection H as <-. cbn [snd]. rewrite Hv in Hl.
    unfold leaves in *. by rewrite <- Q1, <- Q2, <- Q3.
  - destruct Hr as [Hr Hsz]. rewrite Hr. cbn in H. rewrite incr_overflow_check in H by (unfold INT64_MIN, INT64_MAX in *; lia).
    destruct (in_i64 (0 + delta)); cbn [negb] in H; [|injection H as <-; apply Herr].
    destruct (lookup_entry (arg cmd 1) T_STR true false w1) as [r w2] eqn:E2.
    destruct (lookup_str_create _ _ _ _ _ Hw1 ltac:(unfold room in *; lia) E2) as (Hok2 & (P1 & P2 & P3) & Hr2).
    rewrite Hv in Hr2. change (s_data (arg cmd 1)) with (argd cmd 1) in *.
    destruct r as [k| |]; [|done|].
    + destruct Hr2 as (-> & Hb & e & s & t & He & Hs & Hsok & Hv2 & Hcase). rewrite Hr in Hcase. destruct Hcase as [-> ->].
      destruct (put_int_run w2 (argd cmd 1) e s_empty None (0 + delta)) as (w3 & Hrun & Hl);
        [done|done|by rewrite P2|done|done|done|by rewrite Hv2, insert_insert_eq|].
      rewrite Hrun in H. injection H as <-. rewrite Hv2, insert_insert_eq in Hl.
      unfold leaves in *. by rewrite <- Q1, <- Q2, <- Q3, <- P1, <- P2, <- P3.
    + destruct Hr2 as (_ & _ & _ & v & t & Hvk & _). congruence.
  - destruct Hr as (v & t & Hvk & Hty). injection H as <-. rewrite Hvk. by destruct v; try done; apply Herr.
Qed.

(** ** Properties *)

Lemma setex_generic_leaves cmd mult w w' :
  world_ok w -> writes_ok w -> room w -> env_ok (env w) -> s_ok (arg cmd 3) ->
  (forall ttl, str2int (argd cmd 2) = Some ttl -> i64 (ttl * mult) <> 0) ->
  setex_generic cmd mult w = ((), w') ->
  match str2int (argd cmd 2) with
  | Some ttl =>
      if ttl <=? 0 then leaves w w' (fun b => resp_err b (bs "ERR invalid expire time in setex command")) (view w) 0
      else leaves w w' resp_ok
             (<[argd cmd 1 := (AStr (argd cmd 3), deadline (now (env w)) (i64 (ttl * mult)))]> (view w)) 1
  | None => leaves w w' (fun b => resp_err b (bs "ERR invalid expire time in setex command")) (view w) 0
  end.
Proof.
  intros Hw Hn Hroom Henv Hs Hnz H. unfold setex_generic in H. pose proof Hw as (_ & _ & Hwf).
  assert (Herr : forall m, leaves w (r_err m w).2 (fun b => resp_err b m) (view w) 0).
  { intros m. apply (leaves_reply w w (fun b => resp_err b m)); auto using quiet_refl with myred. }
  destruct (str2int (argd cmd 2)) as [ttl|]; [|injection H as <-; apply Herr].
  destruct (ttl <=? 0); [injection H as <-; apply Herr|].
  unfold mbind, state_bind in H. destruct (lookup_entry (arg cmd 1) T_STR true true w) as [r w1] eqn:E.
  destruct (lookup_str_create _ _ _ _ _ Hw Hroom E) as (Hok & (Q1 & Q2 & Q3) & Hr).
  destruct r as [k| |]; [|done|by destruct Hr].
  destruct Hr as (-> & Hb & e & s & t & He & _ & _ & Hv & _).
  assert (Hrng : i64 (ttl * mult) < 0 \/ 0 < i64 (ttl * mult) <= INT64_MAX).
  { specialize (Hnz ttl eq_refl). unfold i64, INT64_MAX in *.
    pose proof (Z.mod_pos_bound (ttl * mult + 2 ^ 63) (2 ^ 64)). lia. }
  destruct (store_str_run w1 (s_data (arg cmd 1)) e (arg cmd 3) (i64 (ttl * mult))) as (w2 & Hrun & Hw2 & P1 & P2 & P3 & Hv2);
    [done|done|by rewrite Q2|done|done|by rewrite Q3|done|].
  rewrite Hrun in H. injection H as <-. rewrite Hv, insert_insert_eq in Hv2.
  rewrite Q3 in Hv2. apply (leaves_intro w w2 resp_ok); try done; try congruence. by apply wf_resp_ok.
Qed.

(** Arguments, for the examples. *)
Definition words (l : list string) : list sstr := (fun s => s_copy (bs s)) <$> l.

Lemma words_ok l i : s_ok (arg (words l) i).
Proof.
  unfold arg, words. rewrite list_lookup_fmap. destruct (l !! i); cbn; [apply s_copy_ok|apply s_empty_ok].
Qed.

Lemma w0_start : writes_ok w0 /\ room w0 /\ env_ok (env w0).
Proof. split_and!; done. Qed.

(** SET then GET.  After a plain SET of a string, in any consistent server
    state, whatever the key held before, the reply is OK and a GET of the
    same key answers exactly the bytes stored; the key has no deadline, every
    other key is as before, and one change has been counted. *)
Theorem set_get (w : World) (set_name get_name key key2 v : sstr) (Hw : world_ok w) (Hroom : room w)
    (Henv : env_ok (env w)) (Hv : s_ok v) (Hkey : s_data key2 = s_data key) :
  let w1 := (do_set [set_name; key; v] w).2 in
  let w2 := (do_get [get_name; key2] w1).2 in
  leaves w w2 (fun b => resp_str (resp_ok b) (s_data v)) (<[s_data key := (AStr (s_data v), None)]> (view w)) 1.
Proof.
  cbn zeta. destruct (do_set [set_name; key; v] w) as [[] w1] eqn:E1. cbn [snd].
  pose proof (do_set_leaves [set_name; key; v] w w1 Hw Hroom Henv eq_refl Hv E1) as (S1 & S2 & S3 & S4 & S5).
  destruct (do_get [get_name; key2] w1) as [[] w2] eqn:E2. cbn [snd].
  assert (Hn1 : writes_ok w1) by (unfold writes_ok; rewrite S5; unfold u32; by rewrite Z.mod_mod).
  pose proof (do_get_leaves _ w1 w2 S1 Hn1 E2) as (G1 & G2 & G3 & G4 & G5).
  change (argd [get_name; key2] 1) with (s_data key2) in G3.
  change (argd [set_name; key; v] 1) with (s_data key) in S2. change (argd [set_name; key; v] 2) with (s_data v) in S2.
  rewrite S2, Hkey, lookup_insert_eq in G3.
  split_and!; [exact G1|by rewrite G2|by rewrite G3, S3|by rewrite G4|].
  rewrite G5, S5, Z.add_0_r. unfold u32. by rewrite Z.mod_mod.
Qed.

Lemma set_get_witness :
  let w1 := (do_set [s_copy (bs "SET"); s_copy (bs "k"); s_copy (bs "v")] w0).2 in
  let w2 := (do_get [s_copy (bs "GET"); s_copy (bs "k")] w1).2 in
  leaves w0 w2 (fun b => resp_str (resp_ok b) (bs "v")) (<[bs "k" := (AStr (bs "v"), None)]> (view w0)) 1.
Proof.
  apply (set_get w0 (s_copy (bs "SET")) (s_copy (bs "GET")) (s_copy (bs "k")) (s_copy (bs "k")) (s_copy (bs "v")) w0_ok);
    [apply w0_start|apply w0_start|apply s_copy_ok|reflexivity].
Defined.

(** Counters.  INCR and its relatives add the increment to the integer the
    key holds (0 when missing), answer the sum and store its decimal print,
    keeping the deadline; they refuse without any change a value that is not
    a canonical integer, a sum outside the signed 64-bit range, and a key of
    another type. *)
Theorem incr_correct (w : World) (cmd : list sstr) (delta : Z) (Hw : world_ok w) (Hn : writes_ok w)
    (Hroom : room w) (Hd : INT64_MIN <= delta <= INT64_MAX) :
  let w' := (incr_generic cmd delta w).2 in
  let k := argd cmd 1 in
  if is_str (view w !! k) then
    match counter_at (view w) k with
    | None => leaves w w' (fun b => resp_err b MSG_NOT_INT) (view w) 0
    | Some cur =>
        if in_i64 (cur + delta)
        then leaves w w' (fun b => resp_int b (cur + delta))
               (<[k := (AStr (print_i64 (cur + delta)), (str_at (view w) k).2)]> (view w)) 1
        else leaves w w' (fun b => resp_err b MSG_OVERFLOW) (view w) 0
    end
  else leaves w w' (fun b => resp_err b MSG_WRONGTYPE) (view w) 0.
Proof.
  destruct (incr_generic cmd delta w) as [[] w'] eqn:E. cbn zeta. cbn [snd]. by apply incr_generic_leaves.
Qed.

Lemma incr_correct_witness :
  let w' := (incr_generic (words ["incr"; "n"]) 1 w0).2 in
  let k := argd (words ["incr"; "n"]) 1 in
  if is_str (view w0 !! k) then
    match counter_at (view w0) k with
    | None => leaves w0 w' (fun b => resp_err b MSG_NOT_INT) (view w0) 0
    | Some cur =>
        if in_i64 (cur + 1)
        then leaves w0 w' (fun b => resp_int b (cur + 1))
               (<[k := (AStr (print_i64 (cur + 1)), (str_at (view w0) k).2)]> (view w0)) 1
        else leaves w0 w' (fun b => resp_err b MSG_OVERFLOW) (view w0) 0
    end
  else leaves w0 w' (fun b => resp_err b MSG_WRONGTYPE) (view w0) 0.
Proof.
  apply (incr_correct w0 (words ["incr"; "n"]) 1 w0_ok); [apply w0_start|apply w0_start|].
  unfold INT64_MIN, INT64_MAX. lia.
Defined.

(** APPEND extends.  The key holds its old string (empty if missing)
    followed by the argument, with its deadline, and the new length is
    answered; a key of another type is refused unchanged. *)
Theorem append_correct (w : World) (cmd : list sstr) (Hw : world_ok w) (Hn : writes_ok w) (Hroom : room w) :
  let w' := (do_append cmd w).2 in
  let k := argd cmd 1 in
  let s := (str_at (view w) k).1 ++ argd cmd 2 in
  if is_str (view w !! k)
  then leaves w w' (fun b => resp_int b (Z.of_nat (length s))) (<[k := (AStr s, (str_at (view w) k).2)]> (view w)) 1
  else leaves w w' (fun b => resp_err b MSG_WRONGTYPE) (view w) 0.
Proof.
  destruct (do_append cmd w) as [[] w'] eqn:E. cbn zeta. cbn [snd].
  change (do_append cmd) with (update_str (arg cmd 1) (fun s => s_append s (argd cmd 2))
    (fun s b => resp_int b (Z.of_nat (length (s_data s))))) in E.
  pose proof (update_str_leaves _ _ _ (fun b => b ++ argd cmd 2) w w' Hw Hn Hroom E) as Hu.
  cbn zeta in Hu. change (s_data (arg cmd 1)) with (argd cmd 1) in Hu.
  destruct (is_str _); [destruct Hu as (s & Hs & Hl)|apply Hu].
  - intros s Hs. by apply s_append_ok.
  - intros s b Hb. by apply wf_resp_int.
  - intros s s' ->. done.
  - by rewrite Hs in Hl.
  - intros s Hs. by apply s_append_ok.
  - intros s b Hb. by apply wf_resp_int.
  - intros s s' ->. done.
Qed.

Lemma append_correct_witness :
  let w' := (do_append (words ["append"; "k"; "xyz"]) w0).2 in
  let k := argd (words ["append"; "k"; "xyz"]) 1 in
  let s := (str_at (view w0) k).1 ++ argd (words ["append"; "k"; "xyz"]) 2 in
  if is_str (view w0 !! k)
  then leaves w0 w' (fun b => resp_int b (Z.of_nat (length s))) (<[k := (AStr s, (str_at (view w0) k).2)]> (view w0)) 1
  else leaves w0 w' (fun b => resp_err b MSG_WRONGTYPE) (view w0) 0.
Proof. apply (append_correct w0 (words ["append"; "k"; "xyz"]) w0_ok); apply w0_start. Defined.

(** SETEX loses the expiry of large time spans.  [ttl * mult] is computed in
    64 bits without a check: in every consistent state, SETEX of a key with
    the accepted span 9223372036854776 seconds replies OK and stores the
    value with no deadline at all. *)
Theorem setex_overflow (w : World) (name key v : sstr) (Hw : world_ok w) (Hn : writes_ok w) (Hroom : room w)
    (Henv : env_ok (env w)) (Hv : s_ok v) :
  let w' := (do_setex [name; key; s_copy (bs "9223372036854776"); v] w).2 in
  leaves w w' resp_ok (<[s_data key := (AStr (s_data v), None)]> (view w)) 1.
Proof.
  set (cmd := [name; key; s_copy (bs "9223372036854776"); v]). cbn zeta.
  destruct (do_setex cmd w) as [[] w'] eqn:E. cbn [snd].
  assert (Hi : str2int (argd cmd 2) = Some 9223372036854776) by reflexivity.
  pose proof (setex_generic_leaves cmd 1000 w w' Hw Hn Hroom Henv Hv) as Hl. rewrite Hi in Hl.
  apply Hl in E; [|by intros ? [= <-]]. exact E.
Qed.

Lemma setex_overflow_witness :
  let w' := (do_setex [s_copy (bs "setex"); s_copy (bs "k"); s_copy (bs "9223372036854776"); s_copy (bs "v")] w0).2 in
  leaves w0 w' resp_ok (<[bs "k" := (AStr (bs "v"), None)]> (view w0)) 1.
Proof.
  apply (setex_overflow w0 (s_copy (bs "setex")) (s_copy (bs "k")) (s_copy (bs "v")) w0_ok);
    [apply w0_start..|apply s_copy_ok].
Defined.
