(* ===== verification/Lists.v ===== *)
(** * The list commands (src/src/commands/commands.cpp, 2179-2623)

    Handlers over the deque of a list entry, proved against the view: the
    sequence operations of the abstract list. *)
From S2P Require Import Prelude Buffer Resp StdString Hashtable HashMap Heap Score ZSet HashSet Deque State World Args Strings.

(** [entry_deque(ent)] *)
Definition entry_deque (k : bytes) : M Deque :=
  gets (fun w => match ents (ks w) !! k with
                 | Some e => match eval e with VList d => d | _ => deque_init end
                 | None => deque_init
                 end).
Definition set_deque (k : bytes) (d : Deque) : M () := on_ks (fun _ => upd k (with_eval (VList d))).

(** ** Pushes and pops *)

Definition push_generic (push : Deque -> bytes -> Deque) (cmd : list sstr) : M () :=
  r ← lookup_entry (arg cmd 1) T_DLIST true false;
  match r with
  | LOK ent =>
      d ← entry_deque ent;
      let d' := foldl push d (map s_data (drop 2 cmd)) in
      set_deque ent d' ;; reaccount ent ;; dirty 1 ;; r_int (Z.of_nat (count d'))
  | _ => r_err MSG_WRONGTYPE_SHORT
  end.

Definition do_lpush (cmd : list sstr) : M () := push_generic deque_push_front cmd.
Definition do_rpush (cmd : list sstr) : M () := push_generic deque_push_back cmd.

(** An emptied list leaves the keyspace; otherwise the new size is charged. *)
Definition pop_generic (pop : Deque -> sstr -> option (Deque * sstr)) (cmd : list sstr) : M () :=
  r ← lookup_entry (arg cmd 1) T_DLIST false false;
  match r with
  | LWRONGTYPE => r_err MSG_WRONGTYPE_SHORT
  | LMISSING => r_nil
  | LOK ent =>
      d ← entry_deque ent;
      match pop d s_empty with
      | None => r_nil
      | Some (d', v) =>
          set_deque ent d' ;;
          (if (count d' =? 0)%nat then remove ent else reaccount ent) ;;
          dirty 1 ;; r_str (s_data v)
      end
  end.

Definition do_lpop (cmd : list sstr) : M () := pop_generic deque_pop_front cmd.
Definition do_rpop (cmd : list sstr) : M () := pop_generic deque_pop_back cmd.

(** ** Reads *)

Definition do_llen (cmd : list sstr) : M () :=
  r ← lookup_entry (arg cmd 1) T_DLIST false false;
  match r with
  | LWRONGTYPE => r_err MSG_WRONGTYPE_SHORT
  | LMISSING => r_int 0
  | LOK ent => d ← entry_deque ent; r_int (Z.of_nat (count d))
  end.

Definition do_lindex (cmd : list sstr) : M () :=
  r ← lookup_entry (arg cmd 1) T_DLIST false false;
  match r with
  | LWRONGTYPE => r_err MSG_WRONGTYPE_SHORT
  | LMISSING => r_nil
  | LOK ent =>
      d ← entry_deque ent;
      match str2int (argd cmd 2) with
      | None => r_err (bs "ERR invalid index")
      | Some i =>
          let idx := deque_normalize d i in
          if (idx <? 0) || (Z.of_nat (count d) <=? idx) then r_nil
          else
            match deque_get d (Z.to_nat idx) with
            | Some v => r_str (s_data v)
            | None => r_nil
            end
      end
  end.

(** The clamped bounds LRANGE and LTRIM work with: [None] is the empty range. *)
Definition clamp (d : Deque) (start stop : Z) : option (Z * Z) :=
  let n := Z.of_nat (count d) in
  let start := deque_normalize d start in
  let stop := deque_normalize d stop in
  let start := if start <? 0 then 0 else start in
  let stop := if n <=? stop then n - 1 else stop in
  if (stop <? start) || (n <=? start) then None else Some (start, stop).

Definition do_lrange (cmd : list sstr) : M () :=
  match str2int (argd cmd 2), str2int (argd cmd 3) with
  | Some start, Some stop =>
      r ← lookup_entry (arg cmd 1) T_DLIST false false;
      match r with
      | LWRONGTYPE => r_err MSG_WRONGTYPE_SHORT
      | LMISSING => r_arr 0
      | LOK ent =>
          d ← entry_deque ent;
          match clamp d start stop with
          | None => r_arr 0
          | Some (start, stop) =>
              r_arr (u32 (stop - start + 1)) ;;
              for_each (seq (Z.to_nat start) (Z.to_nat (stop - start + 1))) (fun i =>
                match deque_get d i with Some v => r_str (s_data v) | None => mret () end)
          end
      end
  | _, _ => r_err MSG_NOT_INT
  end.

(** ** Updates in the middle *)

(** [elem_bytes -= slot.capacity(); slot = v; elem_bytes += slot.capacity()] *)
Definition deque_set (d : Deque) (idx : nat) (v : bytes) : Deque :=
  let p := deque_phys d idx in
  let slot := buf d !!! p in
  let slot' := s_assign slot v in
  mkDeque (<[p := slot']> (buf d)) (head d) (count d)
    (u64 (u64 (Deque.elem_bytes d - s_cap slot) + s_cap slot')).

Definition do_lset (cmd : list sstr) : M () :=
  r ← lookup_entry (arg cmd 1) T_DLIST false false;
  match r with
  | LWRONGTYPE => r_err MSG_WRONGTYPE_SHORT
  | LMISSING => r_err (bs "ERR no such key")
  | LOK ent =>
      d ← entry_deque ent;
      match str2int (argd cmd 2) with
      | None => r_err (bs "ERR invalid index")
      | Some i =>
          let idx := deque_normalize d i in
          if (idx <? 0) || (Z.of_nat (count d) <=? idx) then r_err MSG_OUT_OF_RANGE
          else set_deque ent (deque_set d (Z.to_nat idx) (argd cmd 3)) ;; reaccount ent ;; dirty 1 ;; r_ok
      end
  end.

(** The linear search for the pivot. *)
Fixpoint find_from (d : Deque) (fuel i : nat) (pivot : bytes) : option nat :=
  match fuel with
  | O => None
  | S f =>
      match deque_get d i with
      | Some v => if bool_decide (s_data v = pivot) then Some i else find_from d f (S i) pivot
      | None => None
      end
  end.

(** Open a gap at [idx] and assign the new slot. *)
Definition deque_insert (d : Deque) (idx : nat) (v : bytes) : Deque :=
  let d := grow_if_full d in
  let d := deque_open_gap d idx in
  let p := deque_phys d idx in
  let slot := s_assign (buf d !!! p) v in
  mkDeque (<[p := slot]> (buf d)) (head d) (count d) (u64 (Deque.elem_bytes d + s_cap slot)).

Definition do_linsert (cmd : list sstr) : M () :=
  r ← lookup_entry (arg cmd 1) T_DLIST false false;
  match r with
  | LWRONGTYPE => r_err MSG_WRONGTYPE_SHORT
  | LMISSING => r_int 0
  | LOK ent =>
      let where_ := map tolower (argd cmd 2) in
      let before := bool_decide (where_ = bs "before") in
      if before || bool_decide (where_ = bs "after") then
        d ← entry_deque ent;
        match find_from d (count d) 0 (argd cmd 3) with
        | None => r_int (-1)
        | Some pivot_idx =>
            let insert_idx := if before then pivot_idx else S pivot_idx in
            let d' := deque_insert d insert_idx (argd cmd 4) in
            set_deque ent d' ;; reaccount ent ;; dirty 1 ;; r_int (Z.of_nat (count d'))
        end
      else r_err MSG_SYNTAX
  end.

(** [elem_bytes -= capacity; deque_close_gap] at [i] *)
Definition deque_erase (d : Deque) (i : nat) : Deque :=
  let c := s_cap (buf d !!! deque_phys d i) in
  deque_close_gap (mkDeque (buf d) (head d) (count d) (u64 (Deque.elem_bytes d - c))) i.

Definition holds (d : Deque) (i : nat) (v : bytes) : bool :=
  match deque_get d i with Some s => bool_decide (s_data s = v) | None => false end.

(** The scan from the back: [i] is one above the next index to look at. *)
Fixpoint lrem_back (i : nat) (d : Deque) (v : bytes) (limit removed : Z) : Deque * Z :=
  match i with
  | O => (d, removed)
  | S i' =>
      if holds d i' v then
        let d := deque_erase d i' in
        let removed := removed + 1 in
        if (0 <? limit) && (limit <=? removed) then (d, removed) else lrem_back i' d v limit removed
      else lrem_back i' d v limit removed
  end.

(** The scan from the front; every turn shortens the rest of the list. *)
Fixpoint lrem_front (fuel i : nat) (d : Deque) (v : bytes) (limit removed : Z) : Deque * Z :=
  match fuel with
  | O => (d, removed)
  | S f =>
      if (i <? count d)%nat then
        if holds d i v then
          let d := deque_erase d i in
          let removed := removed + 1 in
          if (0 <? limit) && (limit <=? removed) then (d, removed) else lrem_front f i d v limit removed
        else lrem_front f (S i) d v limit removed
      else (d, removed)
  end.

(** [limit = count < 0 ? -count : count], an [int64_t] negation. *)
Definition deque_lrem (d : Deque) (cnt : Z) (v : bytes) : Deque * Z :=
  let limit := if cnt <? 0 then i64 (- cnt) else cnt in
  if cnt <? 0 then lrem_back (count d) d v limit 0 else lrem_front (count d) 0 d v limit 0.

Definition do_lrem (cmd : list sstr) : M () :=
  match str2int (argd cmd 2) with
  | None => r_err (bs "ERR invalid count")
  | Some cnt =>
      r ← lookup_entry (arg cmd 1) T_DLIST false false;
      match r with
      | LWRONGTYPE => r_err MSG_WRONGTYPE_SHORT
      | LMISSING => r_int 0
      | LOK ent =>
          d ← entry_deque ent;
          let '(d', removed) := deque_lrem d cnt (argd cmd 3) in
          set_deque ent d' ;;
          (if (count d' =? 0)%nat then remove ent
           else if 0 <? removed then reaccount ent else mret ()) ;;
          (if 0 <? removed then dirty 1 else mret ()) ;;
          r_int removed
      end
  end.

(** [elem_bytes -= slot.capacity(); std::string().swap(slot)] for each index. *)
Definition drop_slots (d : Deque) (idxs : list nat) : Deque :=
  foldl (fun d i =>
           let p := deque_phys d i in
           mkDeque (<[p := s_empty]> (buf d)) (head d) (count d)
             (u64 (Deque.elem_bytes d - s_cap (buf d !!! p)))) d idxs.

Definition deque_trim (d : Deque) (start stop : nat) : Deque :=
  let d1 := drop_slots d (seq 0 start) in
  let d2 := drop_slots d1 (seq (S stop) (count d - S stop)) in
  mkDeque (buf d2) (deque_phys d2 start) (stop - start + 1) (Deque.elem_bytes d2).

Definition do_ltrim (cmd : list sstr) : M () :=
  match str2int (argd cmd 2), str2int (argd cmd 3) with
  | Some start, Some stop =>
      r ← lookup_entry (arg cmd 1) T_DLIST false false;
      match r with
      | LWRONGTYPE => r_err MSG_WRONGTYPE_SHORT
      | LMISSING => r_ok
      | LOK ent =>
          d ← entry_deque ent;
          match clamp d start stop with
          | None => remove ent ;; dirty 1 ;; r_ok
          | Some (start, stop) =>
              if (start =? 0) && (stop + 1 =? Z.of_nat (count d)) then r_ok
              else
                set_deque ent (deque_trim d (Z.to_nat start) (Z.to_nat stop)) ;;
                reaccount ent ;; dirty 1 ;; r_ok
          end
      end
  | _, _ => r_err MSG_NOT_INT
  end.

(** ** The deque as a sequence *)

Lemma push_back_content d vs :
  deque_inv d -> deque_inv (foldl deque_push_back d vs) /\ content (foldl deque_push_back d vs) = content d ++ vs.
Proof.
  revert d. induction vs as [|v vs IH]; intros d Hd; cbn [foldl]; [by rewrite app_nil_r|].
  destruct (deque_push_back_spec d v Hd) as (Hd' & s & Hi & Hs & _). destruct (IH _ Hd') as [H1 H2].
  split; [done|]. rewrite H2. unfold content. rewrite Hi, map_app. cbn. by rewrite Hs, <- app_assoc.
Qed.

Lemma push_front_content d vs :
  deque_inv d -> deque_inv (foldl deque_push_front d vs) /\ content (foldl deque_push_front d vs) = rev vs ++ content d.
Proof.
  revert d. induction vs as [|v vs IH]; intros d Hd; cbn [foldl]; [done|].
  destruct (deque_push_front_spec d v Hd) as (Hd' & s & Hi & Hs & _). destruct (IH _ Hd') as [H1 H2].
  split; [done|]. rewrite H2. unfold content. rewrite Hi. cbn. by rewrite Hs, <- app_assoc.
Qed.

Lemma deque_get_content d i : s_data <$> deque_get d i = content d !! i.
Proof.
  unfold deque_get. rewrite content_lookup. destruct (count d <=? i)%nat eqn:E; bool_facts.
  - by rewrite decide_False by lia.
  - by rewrite decide_True by lia.
Qed.

Lemma holds_content d i v : holds d i v = true <-> content d !! i = Some v.
Proof.
  unfold holds. rewrite <- deque_get_content. destruct (deque_get d i) as [s|]; cbn; [|done].
  rewrite bool_decide_eq_true. naive_solver.
Qed.

(** Writing one live slot. *)
Lemma slot_write d idx s eb :
  deque_inv d -> (idx < count d)%nat -> s_ok s ->
  let d' := mkDeque (<[deque_phys d idx := s]> (buf d)) (head d) (count d) eb in
  deque_inv d' /\ content d' = <[idx := s_data s]> (content d).
Proof.
  intros [[Hc Ho] Hok] Hi Hs. cbn zeta. destruct Ho as [[? _]|[Hp Hh]]; [lia|]. set (d' := mkDeque _ _ _ _).
  assert (Hcap : cap d' = cap d) by (unfold cap; cbn; by rewrite length_insert).
  split; [split; [split|]|].
  - by rewrite Hcap.
  - right. by rewrite Hcap.
  - by apply Forall_insert.
  - apply list_eq. intros j. rewrite content_lookup. cbn [count d' buf]. unfold deque_phys at 1.
    rewrite (wrap_cap d d') by done. cbn [head d']. fold (deque_phys d j).
    rewrite total_insert by (by apply phys_lt). destruct (decide (idx = j)) as [<-|Hne].
    + rewrite decide_True, decide_True by done. by rewrite list_lookup_insert_eq by (by rewrite length_elems).
    + rewrite list_lookup_insert_ne, content_lookup by done. case_decide as Hj; [|done].
      rewrite decide_False; [done|]. intros E. apply phys_inj in E; [congruence|done|lia|lia].
Qed.

Lemma deque_set_content d idx v :
  deque_inv d -> (idx < count d)%nat ->
  deque_inv (deque_set d idx v) /\ content (deque_set d idx v) = <[idx := v]> (content d).
Proof.
  intros Hd Hi. apply (slot_write d idx (s_assign (buf d !!! deque_phys d idx) v)); [done|done|].
  apply s_assign_ok, total_ok, Hd.
Qed.

Lemma deque_insert_content d idx v :
  deque_inv d -> (idx <= count d)%nat ->
  deque_inv (deque_insert d idx v) /\ content (deque_insert d idx v) = take idx (content d) ++ v :: drop idx (content d).
Proof.
  intros Hd Hi. unfold deque_insert. destruct (grow_if_full_spec d Hd) as (G1 & G2 & G3 & _ & _ & G6 & _).
  assert (Gc : content (grow_if_full d) = content d) by (unfold content; by rewrite G2).
  generalize dependent (grow_if_full d). intros g G1 G2 G3 G6 Gc.
  destruct (deque_open_gap_spec g idx G1 G6 ltac:(lia)) as (O1 & O2 & O3 & _ & O5).
  set (o := deque_open_gap g idx) in *. set (slot := s_assign (buf o !!! deque_phys o idx) v).
  destruct (slot_write o idx slot (u64 (Deque.elem_bytes o + s_cap slot)) O1) as [S1 S2];
    [lia|apply s_assign_ok, total_ok, O1|].
  split; [done|]. rewrite S2, <- Gc. pose proof (length_elems g) as Hlg. rewrite G3 in Hlg.
  apply list_eq. intros j. destruct (decide (idx = j)) as [<-|Hne].
  - rewrite list_lookup_insert_eq by (rewrite length_elems; lia).
    rewrite lookup_app_r by (rewrite length_take; lia). rewrite length_take.
    replace (idx - idx `min` length (content g))%nat with O by lia. done.
  - rewrite list_lookup_insert_ne, content_lookup, O2 by done.
    destruct (decide (j < idx)%nat) as [Hlt|Hge].
    + rewrite decide_True by lia. specialize (O5 j ltac:(lia)). rewrite decide_True in O5 by done. rewrite O5.
      rewrite lookup_app_l by (rewrite length_take; lia). rewrite lookup_take_lt, content_lookup by done.
      by rewrite decide_True by lia.
    + rewrite lookup_app_r by (rewrite length_take; lia). rewrite length_take.
      replace (j - idx `min` length (content g))%nat with (S (j - idx - 1)) by lia.
      rewrite lookup_cons, lookup_drop, content_lookup.
      replace (idx + (j - idx - 1))%nat with (j - 1)%nat by lia.
      destruct (decide (j < S (count g))%nat) as [Hj|Hj]; [|by rewrite decide_False by lia].
      rewrite decide_True by lia. specialize (O5 (j - 1)%nat ltac:(lia)). rewrite decide_False in O5 by lia.
      replace (S (j - 1)) with j in O5 by lia. by rewrite O5.
Qed.

Lemma deque_erase_content d i :
  deque_inv d -> (i < count d)%nat ->
  deque_inv (deque_erase d i) /\ content (deque_erase d i) = delete i (content d).
Proof.
  intros Hd Hi. unfold deque_erase.
  destruct (deque_close_gap_spec (mkDeque (buf d) (head d) (count d)
     (u64 (Deque.elem_bytes d - s_cap (buf d !!! deque_phys d i)))) i) as (H1 & H2 & _); done.
Qed.

(** ** LREM *)

(** The reference: remove the first [budget] occurrences ([None]: all). *)
Fixpoint remove_upto (budget : option nat) (v : bytes) (l : list bytes) : list bytes :=
  match l with
  | [] => []
  | x :: l' =>
      if decide (x = v /\ budget <> Some O)
      then remove_upto (pred <$> budget) v l'
      else x :: remove_upto budget v l'
  end.

(** What is left of the limit, once [removed] are gone. *)
Definition budget (limit removed : Z) : option nat :=
  if 0 <? limit then Some (Z.to_nat (limit - removed)) else None.

Lemma remove_upto_zero v l : remove_upto (Some O) v l = l.
Proof. induction l as [|x l IH]; cbn; [done|]. rewrite decide_False by tauto. by rewrite IH. Qed.

Lemma budget_next limit removed :
  (0 < limit -> removed < limit) -> budget limit removed <> Some O /\ pred <$> budget limit removed = budget limit (removed + 1).
Proof.
  intros H. unfold budget. destruct (0 <? limit) eqn:E; [|done]. bool_facts. cbn. split; [intros [=]; lia|]. f_equal. lia.
Qed.

Lemma budget_spent limit removed :
  0 < limit -> limit <= removed -> budget limit removed = Some O.
Proof. intros H1 H2. unfold budget. rewrite (proj2 (Z.ltb_lt _ _)) by done. f_equal. lia. Qed.

Lemma lrem_front_spec fuel pre rest d v limit removed :
  deque_inv d -> content d = pre ++ rest -> (length rest <= fuel)%nat -> (0 < limit -> removed < limit) ->
  let res := lrem_front fuel (length pre) d v limit removed in
  deque_inv res.1 /\ content res.1 = pre ++ remove_upto (budget limit removed) v rest /\
  res.2 = removed + Z.of_nat (length rest - length (remove_upto (budget limit removed) v rest)) /\
  (length (remove_upto (budget limit removed) v rest) <= length rest)%nat.
Proof.
  revert pre rest d removed. induction fuel as [|f IH]; intros pre rest d removed Hd Hc Hf Hl; cbn zeta.
  { destruct rest; [|cbn in Hf; lia]. cbn. split_and!; try done. lia. }
  cbn [lrem_front]. pose proof (length_elems d) as Hlen. rewrite Hc, length_app in Hlen.
  destruct rest as [|x rest].
  { rewrite (proj2 (Nat.ltb_ge _ _)) by (cbn in Hlen; lia). cbn. split_and!; try done. lia. }
  cbn [length] in Hlen, Hf. rewrite (proj2 (Nat.ltb_lt _ _)) by lia.
  assert (Hx : content d !! length pre = Some x) by (rewrite Hc; by apply list_lookup_middle).
  destruct (budget_next limit removed Hl) as [Hb0 Hbn]. cbn [remove_upto].
  destruct (holds d (length pre) v) eqn:E.
  - apply holds_content in E. rewrite Hx in E. injection E as ->. rewrite decide_True by done. rewrite Hbn.
    destruct (deque_erase_content d (length pre) Hd ltac:(lia)) as [He Hec].
    assert (Hec' : content (deque_erase d (length pre)) = pre ++ rest).
    { rewrite Hec, Hc. apply delete_middle. }
    destruct ((0 <? limit) && (limit <=? removed + 1)) eqn:El.
    + bool_facts. rewrite budget_spent, remove_upto_zero by done. cbn [fst snd length].
      split_and!; try done; lia.
    + destruct (IH pre rest _ (removed + 1) He Hec' ltac:(lia)) as (I1 & I2 & I3 & I4).
      { intros H0. apply andb_false_iff in El as [El|El]; bool_facts; lia. }
      split_and!; [done|done| |cbn [length]; lia]. rewrite I3. cbn [length]. lia.
  - assert (x <> v) by (intros ->; rewrite (proj2 (holds_content _ _ _) Hx) in E; done).
    rewrite decide_False by tauto.
    specialize (IH (pre ++ [x]) rest d removed Hd ltac:(rewrite Hc, <- app_assoc; done) ltac:(lia) Hl).
    rewrite length_app, Nat.add_comm in IH. cbn [length Nat.add] in IH. destruct IH as (I1 & I2 & I3 & I4).
    split_and!; [done| | |cbn [length]; lia].
    + rewrite I2, <- app_assoc. done.
    + rewrite I3. cbn [length]. lia.
Qed.

Lemma lrem_back_spec l suf d v limit removed :
  deque_inv d -> content d = l ++ suf -> (0 < limit -> removed < limit) ->
  let res := lrem_back (length l) d v limit removed in
  deque_inv res.1 /\ content res.1 = rev (remove_upto (budget limit removed) v (rev l)) ++ suf /\
  res.2 = removed + Z.of_nat (length l - length (remove_upto (budget limit removed) v (rev l))) /\
  (length (remove_upto (budget limit removed) v (rev l)) <= length l)%nat.
Proof.
  revert suf d removed. induction l as [|x l IH] using rev_ind; intros suf d removed Hd Hc Hl; cbn zeta.
  { cbn. split_and!; try done. lia. }
  rewrite length_app, Nat.add_comm. cbn [length Nat.add lrem_back]. rewrite rev_app_distr. cbn [rev app remove_upto].
  pose proof (length_elems d) as Hlen. rewrite Hc, !length_app in Hlen. cbn [length] in Hlen.
  assert (Hx : content d !! length l = Some x) by (rewrite Hc, <- app_assoc; by apply list_lookup_middle).
  destruct (budget_next limit removed Hl) as [Hb0 Hbn].
  destruct (holds d (length l) v) eqn:E.
  - apply holds_content in E. rewrite Hx in E. injection E as ->. rewrite decide_True by done. rewrite Hbn.
    destruct (deque_erase_content d (length l) Hd ltac:(lia)) as [He Hec].
    assert (Hec' : content (deque_erase d (length l)) = l ++ suf).
    { rewrite Hec, Hc, <- app_assoc. apply delete_middle. }
    destruct ((0 <? limit) && (limit <=? removed + 1)) eqn:El.
    + bool_facts. rewrite budget_spent, remove_upto_zero, rev_involutive, length_rev by done. cbn [fst snd].
      split_and!; try done; lia.
    + destruct (IH suf _ (removed + 1) He Hec') as (I1 & I2 & I3 & I4).
      { intros H0. apply andb_false_iff in El as [El|El]; bool_facts; lia. }
      split_and!; [done|done| |lia]. rewrite I3. lia.
  - assert (x <> v) by (intros ->; rewrite (proj2 (holds_content _ _ _) Hx) in E; done).
    rewrite decide_False by tauto. cbn [rev length].
    destruct (IH (x :: suf) d removed Hd ltac:(rewrite Hc, <- app_assoc; done) Hl) as (I1 & I2 & I3 & I4).
    split_and!; [done| | |lia].
    + rewrite I2, <- app_assoc. done.
    + rewrite I3. lia.
Qed.

(** When nothing matches nothing is touched. *)
Lemma lrem_front_idle fuel i d v limit removed :
  let res := lrem_front fuel i d v limit removed in removed <= res.2 /\ (res.2 = removed -> res.1 = d).
Proof.
  revert i d removed. induction fuel as [|f IH]; intros i d removed; cbn zeta; cbn [lrem_front]; [cbn; split; [lia|done]|].
  destruct (i <? count d)%nat; [|cbn; split; [lia|done]]. destruct (holds d i v); [|apply IH].
  destruct (_ && _); [cbn; lia|]. destruct (IH i (deque_erase d i) (removed + 1)). lia.
Qed.

Lemma lrem_back_idle i d v limit removed :
  let res := lrem_back i d v limit removed in removed <= res.2 /\ (res.2 = removed -> res.1 = d).
Proof.
  revert d removed. induction i as [|i IH]; intros d removed; cbn zeta; cbn [lrem_back]; [cbn; split; [lia|done]|].
  destruct (holds d i v); [|apply IH]. destruct (_ && _); [cbn; lia|].
  destruct (IH (deque_erase d i) (removed + 1)). lia.
Qed.

Lemma deque_lrem_idle d cnt v :
  let res := deque_lrem d cnt v in 0 <= res.2 /\ (res.2 = 0 -> res.1 = d).
Proof. unfold deque_lrem. destruct (cnt <? 0); [apply lrem_back_idle|apply lrem_front_idle]. Qed.

(** Redis' LREM: from the head for a positive count, from the tail for a
    negative one, all occurrences for zero. *)
Definition lrem (cnt : Z) (v : bytes) (l : list bytes) : list bytes :=
  if cnt <? 0 then rev (remove_upto (Some (Z.to_nat (- cnt))) v (rev l))
  else remove_upto (if 0 <? cnt then Some (Z.to_nat cnt) else None) v l.

Lemma deque_lrem_spec d cnt v :
  deque_inv d -> INT64_MIN < cnt <= INT64_MAX ->
  let res := deque_lrem d cnt v in
  deque_inv res.1 /\ content res.1 = lrem cnt v (content d) /\
  res.2 = Z.of_nat (length (content d) - length (lrem cnt v (content d))) /\
  (length (lrem cnt v (content d)) <= length (content d))%nat.
Proof.
  unfold INT64_MIN, INT64_MAX. intros Hd Hcnt. unfold deque_lrem, lrem. destruct (cnt <? 0) eqn:E; bool_facts.
  - rewrite i64_small by (unfold INT64_MIN, INT64_MAX; lia). rewrite length_rev.
    rewrite <- (length_elems d).
    pose proof (lrem_back_spec (content d) [] d v (- cnt) 0 Hd ltac:(by rewrite app_nil_r) ltac:(lia)) as Hs.
    cbn zeta in Hs. unfold budget in Hs. rewrite (proj2 (Z.ltb_lt _ _)), Z.sub_0_r, app_nil_r in Hs by lia.
    destruct Hs as (S1 & S2 & S3 & S4). by split_and!.
  - rewrite <- (length_elems d).
    pose proof (lrem_front_spec (length (content d)) [] (content d) d v cnt 0 Hd ltac:(done) ltac:(done) ltac:(lia)) as Hs.
    cbn zeta in Hs. unfold budget in Hs. rewrite Z.sub_0_r in Hs. cbn [length app] in Hs.
    destruct Hs as (S1 & S2 & S3 & S4). by split_and!.
Qed.

(** ** LTRIM and LRANGE *)

Lemma drop_slots_spec d idxs :
  deque_inv d -> Forall (fun i => (i < count d)%nat) idxs ->
  let d' := drop_slots d idxs in
  deque_inv d' /\ head d' = head d /\ count d' = count d /\ cap d' = cap d /\
  forall j, (j < count d)%nat -> j ∉ idxs -> content d' !! j = content d !! j.
Proof.
  intros Hd Hi. revert d Hd Hi. induction idxs as [|i idxs IH]; intros d Hd Hi; cbn zeta; [done|].
  apply Forall_cons in Hi as [Hi His]. cbn [drop_slots foldl].
  set (d1 := mkDeque _ _ _ _).
  destruct (slot_write d i s_empty (u64 (Deque.elem_bytes d - s_cap (buf d !!! deque_phys d i))) Hd Hi s_empty_ok) as [S1 S2].
  fold d1 in S1, S2. destruct (IH d1 S1 His) as (I1 & I2 & I3 & I4 & I5). unfold drop_slots in *.
  split_and!; [done|done|done| |].
  - rewrite I4. unfold cap. cbn. by rewrite length_insert.
  - intros j Hj Hn. apply not_elem_of_cons in Hn as [Hne Hn]. rewrite I5 by done.
    rewrite S2. by rewrite list_lookup_insert_ne by congruence.
Qed.

Lemma deque_trim_content d start stop :
  deque_inv d -> (start <= stop < count d)%nat ->
  deque_inv (deque_trim d start stop) /\
  content (deque_trim d start stop) = slice start (stop - start + 1) (content d).
Proof.
  intros Hd Hr. unfold deque_trim.
  destruct (drop_slots_spec d (seq 0 start) Hd) as (A1 & A2 & A3 & A4 & A5).
  { apply Forall_forall. intros i Hi%elem_of_seq. lia. }
  destruct (drop_slots_spec (drop_slots d (seq 0 start)) (seq (S stop) (count d - S stop)) A1) as (B1 & B2 & B3 & B4 & B5).
  { apply Forall_forall. intros i Hi%elem_of_seq. lia. }
  set (d2 := drop_slots (drop_slots d _) _) in *.
  destruct B1 as [[Bc Bo] Bok]. destruct Bo as [[? _]|[Hp Hh]]; [lia|]. set (d' := mkDeque _ _ _ _).
  split; [split; [split|]|].
  - change (cap d') with (cap d2). cbn [count d']. lia.
  - right. change (cap d') with (cap d2). split; [done|]. by apply phys_lt.
  - done.
  - apply list_eq. intros i. rewrite content_lookup. cbn [count d'].
    destruct (decide (i < stop - start + 1)%nat) as [Hi|Hi].
    2:{ symmetry. apply lookup_ge_None. rewrite length_slice by (rewrite length_elems; lia). lia. }
    rewrite slice_lookup by done.
    rewrite <- A5; [|lia|intros Hin%elem_of_seq; lia]. rewrite <- B5; [|lia|intros Hin%elem_of_seq; lia].
    rewrite content_lookup, decide_True by lia. do 3 f_equal. cbn [buf head d'].
    unfold deque_phys at 1. rewrite (wrap_cap d2 d') by done. cbn [head d']. unfold deque_phys.
    rewrite !wrap_mod by done. rewrite Nat.Div0.add_mod_idemp_l. f_equal. lia.
Qed.

(** The clamped range of LRANGE and LTRIM, on the abstract list: Redis' rule
    (negative indices count from the end; out-of-range ends are cut). *)
Definition range_bounds (n start stop : Z) : option (Z * Z) :=
  let start := Z.max 0 (if start <? 0 then start + n else start) in
  let stop := Z.min (n - 1) (if stop <? 0 then stop + n else stop) in
  if (start <=? stop) && (start <? n) then Some (start, stop) else None.

Definition lrange (start stop : Z) (l : list bytes) : list bytes :=
  match range_bounds (Z.of_nat (length l)) start stop with
  | Some (a, b) => slice (Z.to_nat a) (Z.to_nat (b - a + 1)) l
  | None => []
  end.

Lemma clamp_bounds d start stop : clamp d start stop = range_bounds (Z.of_nat (length (content d))) start stop.
Proof.
  rewrite length_elems. unfold clamp, range_bounds, deque_normalize.
  set (a := if start <? 0 then _ else _). set (b := if stop <? 0 then _ else _).
  replace (if a <? 0 then 0 else a) with (Z.max 0 a) by (destruct (a <? 0) eqn:E; blia).
  replace (if Z.of_nat (count d) <=? b then Z.of_nat (count d) - 1 else b) with (Z.min (Z.of_nat (count d) - 1) b)
    by (destruct (Z.of_nat (count d) <=? b) eqn:E; blia).
  set (x := Z.max 0 a). set (y := Z.min _ b).
  destruct ((y <? x) || (Z.of_nat (count d) <=? x)) eqn:E1, ((x <=? y) && (x <? Z.of_nat (count d))) eqn:E2; try done; lia.
Qed.

Lemma range_bounds_spec n start stop a b :
  range_bounds n start stop = Some (a, b) -> 0 <= a <= b /\ b < n.
Proof.
  unfold range_bounds. destruct (_ && _) eqn:E; [|done]. intros [= <- <-]. bool_facts. lia.
Qed.

(** ** Lists in the view *)

Lemma list_type e : type e = T_DLIST -> exists d, eval e = VList d.
Proof. unfold type. destruct (eval e); try done. by eexists. Qed.

Lemma entry_deque_run w k e d : ents (ks w) !! k = Some e -> eval e = VList d -> entry_deque k w = (d, w).
Proof. unfold entry_deque, gets. by intros -> ->. Qed.

Lemma lookup_list w key r w' :
  world_ok w -> lookup_entry key T_DLIST false false w = (r, w') ->
  world_ok w' /\ view w' = view w /\ quiet w w' /\
  match r with
  | LOK k => k = s_data key /\ exists e d t, (ents (ks w') !! k = Some e /\ eval e = VList d) /\
      entry_deque k w' = (d, w') /\ deque_inv d /\ view w !! k = Some (AList (content d), t)
  | LMISSING => view w !! s_data key = None
  | LWRONGTYPE => exists v t, view w !! s_data key = Some (v, t) /\ atype v <> T_DLIST
  end.
Proof.
  intros Hw H. destruct (lookup_read _ _ _ _ _ Hw H) as (Hw1 & Hv & Hq & Hr). split_and!; try done.
  destruct r as [k| |]; [|by destruct Hr|done].
  destruct Hr as (-> & e & t & He & Ht & Hok & Hvk & _). split; [done|]. destruct (list_type e Ht) as [d Hd].
  exists e, d, t. rewrite Hd in *. split_and!; try done. by eapply entry_deque_run.
Qed.

(** Writing the value an entry already has. *)
Lemma upd_same k e v s : ents s !! k = Some e -> eval e = v -> upd k (with_eval v) s = s.
Proof.
  intros He <-. unfold upd. assert (alter (with_eval (eval e)) k (ents s) = ents s) as ->; [|by destruct s].
  apply map_eq. intros j. destruct (decide (k = j)) as [<-|]; [|by rewrite lookup_alter_ne].
  rewrite lookup_alter_eq, He. by destruct e.
Qed.

(** Committing a list value, keeping the deadline. *)
Lemma commit_list w k e d d0 t :
  world_ok w -> ents (ks w) !! k = Some e -> deque_inv d -> view w !! k = Some (AList d0, t) ->
  exists w', (set_deque k d ;; reaccount k) w = ((), w') /\ world_ok w' /\ quiet w w' /\
    view w' = <[k := (AList (content d), t)]> (view w).
Proof.
  intros (Hok & Hacc & Hwf) He Hd Hk.
  destruct (view_commit w _ k e (VList d) _ _ Hok (accounted_weaken k _ Hacc) He Hd Hk eq_refl) as (C1 & C2 & C3).
  eexists. split; [reflexivity|]. split_and!; done.
Qed.

(** Emptied: written, then removed with its key. *)
Lemma drop_list w k e d :
  world_ok w -> ents (ks w) !! k = Some e -> deque_inv d ->
  exists w', (set_deque k d ;; remove k) w = ((), w') /\ world_ok w' /\ quiet w w' /\
    view w' = delete k (view w).
Proof.
  intros (Hok & Hacc & Hwf) He Hd.
  destruct (upd_val_spec (ks w) k e (VList d) Hok He Hd) as (U1 & U2 & U3).
  assert (Hk : is_Some (ents (upd k (with_eval (VList d)) (ks w)) !! k)) by (cbn; rewrite lookup_alter_eq, He; by eexists).
  destruct (remove_key_spec _ (now (env w)) k U1 Hk) as (R1 & R2 & R3 & _ & R5 & R6).
  eexists. split; [reflexivity|]. split; [split_and!; [done| |done]|split; [done|]].
  - apply R5, accounted_but_upd, accounted_weaken. done.
  - apply (lview_delete _ (ks w)); [|by rewrite <- U3]. cbn [ks with_ks]. rewrite <- (delete_insert_eq _ k (aval (VList d))), <- U2. done.
Qed.

Definition list_at (v : gmap bytes (AVal * option Z)) (k : bytes) : list bytes * option Z :=
  match v !! k with Some (AList l, t) => (l, t) | _ => ([], None) end.

Definition is_list (o : option (AVal * option Z)) : bool :=
  match o with Some (AList _, _) | None => true | Some _ => false end.

Lemma is_list_type v t : atype v <> T_DLIST -> is_list (Some (v, t)) = false.
Proof. by destruct v. Qed.

Lemma lookup_list_create w key r w' :
  world_ok w -> room w -> lookup_entry key T_DLIST true false w = (r, w') ->
  ks_ok (ks w') /\ quiet w w' /\
  match r with
  | LOK k => k = s_data key /\ accounted_but k (ks w') /\ is_list (view w !! k) = true /\
      exists e d, ents (ks w') !! k = Some e /\ entry_deque k w' = (d, w') /\ deque_inv d /\
        content d = (list_at (view w) k).1 /\
        view w' = <[k := (AList (content d), (list_at (view w) k).2)]> (view w)
  | LMISSING => False
  | LWRONGTYPE => view w' = view w /\ accounted (ks w') /\ is_list (view w !! s_data key) = false
  end.
Proof.
  intros (Hok & Hacc & Hwf) Hroom H.
  pose proof (lookup_entry_spec w key T_DLIST true false r w' Hok Hacc ltac:(done) ltac:(done) H) as Hs.
  cbn zeta in Hs. destruct Hs as (Hok' & Hq & Hr). split; [done|]. split; [done|]. destruct r as [k| |].
  - destruct Hr as (-> & Hb & e & He & Ht & Hcase). destruct (list_type e Ht) as [d Hev].
    pose proof (ks_val _ Hok' _ _ He) as Hd. cbn beta in Hd. rewrite Hev in Hd. unfold list_at.
    assert (Hrun : entry_deque (s_data key) w' = (d, w')) by (by eapply entry_deque_run).
    destruct Hcase as [(t & Hv & _ & Hvw & _)|(_ & Hnew & _ & Hvw & Hwas)].
    + rewrite Hev in Hv. cbn in Hv. rewrite Hv. split_and!; try done. exists e, d. split_and!; try done.
      cbn [snd]. rewrite Hvw. symmetry. by apply insert_id.
    + rewrite Hnew in Hev. injection Hev as <-.
      destruct (view w !! s_data key) as [[v t]|]; [by destruct Hwas|]. split_and!; try done. by exists e, deque_init.
  - by destruct Hr.
  - destruct Hr as (_ & Hv & Ha & v & t & Hvk & Hty). split_and!; try done. rewrite Hvk. by apply is_list_type.
Qed.

Lemma push_generic_leaves push g cmd w w' :
  (forall d vs, deque_inv d -> deque_inv (foldl push d vs) /\ content (foldl push d vs) = g vs (content d)) ->
  world_ok w -> writes_ok w -> room w -> push_generic push cmd w = ((), w') ->
  let k := argd cmd 1 in
  let l := g (map s_data (drop 2 cmd)) (list_at (view w) k).1 in
  if is_list (view w !! k)
  then leaves w w' (fun b => resp_int b (Z.of_nat (length l))) (<[k := (AList l, (list_at (view w) k).2)]> (view w)) 1
  else leaves w w' (fun b => resp_err b MSG_WRONGTYPE_SHORT) (view w) 0.
Proof.
  intros Hg Hw Hn Hroom H. unfold push_generic, mbind, state_bind in H. cbn zeta.
  destruct (lookup_entry (arg cmd 1) T_DLIST true false w) as [r w1] eqn:E.
  destruct (lookup_list_create _ _ _ _ Hw Hroom E) as (Hok & Hq & Hr). pose proof Hq as (Q1 & Q2 & Q3).
  destruct Hw as (_ & _ & Hwf). change (s_data (arg cmd 1)) with (argd cmd 1) in *. destruct r as [k| |]; [|done|].
  - destruct Hr as (-> & Hb & -> & e & d & He & Hrun & Hd & Hc & Hv). rewrite Hrun in H.
    destruct (Hg d (map s_data (drop 2 cmd)) Hd) as [Hd' Hc']. rewrite Hc in Hc'.
    set (d' := foldl push d _) in *.
    assert (Hvk : view w1 !! argd cmd 1 = Some (AList (content d), (list_at (view w) (argd cmd 1)).2))
      by (rewrite Hv; apply lookup_insert_eq).
    destruct (view_commit w1 _ _ e (VList d') _ _ Hok Hb He Hd' Hvk eq_refl) as (C1 & C2 & C3).
    cbn in H. injection H as <-. rewrite Hv, insert_insert_eq in C3. cbn [aval] in C3. rewrite Hc' in C3.
    rewrite <- Hc', length_elems.
    refine (leaves_intro w (with_writes (u32 (writes w1 + 1)) (with_ks _ (with_ks _ w1))) (fun b => resp_int b (Z.of_nat (count d'))) _ 1 _ _ _ _ _ _);
      try done; cbn; try congruence.
    + split_and!; [done|done|]. cbn. by rewrite Q2.
    + rewrite Hc'. exact C3.
    + by apply wf_resp_int.
  - destruct Hr as (Hv & Hacc & ->). injection H as <-.
    apply (leaves_reply w w1 (fun b => resp_err b MSG_WRONGTYPE_SHORT)); [|done..|].
    + split_and!; [done|done|]. by rewrite Q2.
    + rewrite Q2. by apply wf_resp_err.
Qed.

Lemma pop_generic_leaves pop (top : list bytes -> option (bytes * list bytes)) cmd w w' :
  (forall d, deque_inv d ->
     match pop d s_empty with
     | None => top (content d) = None
     | Some (d', v) => deque_inv d' /\ top (content d) = Some (s_data v, content d')
     end) ->
  world_ok w -> writes_ok w -> pop_generic pop cmd w = ((), w') ->
  let k := argd cmd 1 in
  if is_list (view w !! k) then
    match top (list_at (view w) k).1 with
    | Some (v, l) =>
        view w !! k = None \/
        leaves w w' (fun b => resp_str b v)
          (if decide (l = []) then delete k (view w) else <[k := (AList l, (list_at (view w) k).2)]> (view w)) 1
    | None => leaves w w' (resp_nil (g_reply_proto (env w))) (view w) 0
    end
  else leaves w w' (fun b => resp_err b MSG_WRONGTYPE_SHORT) (view w) 0.
Proof.
  intros Hpop Hw Hn H. unfold pop_generic, mbind, state_bind in H. cbn zeta.
  destruct (lookup_entry (arg cmd 1) T_DLIST false false w) as [r w1] eqn:E.
  destruct (lookup_list _ _ _ _ Hw E) as (Hw1 & Hv & Hq & Hr). pose proof Hq as (Q1 & Q2 & Q3). pose proof Hw1 as (_ & _ & Hwf1).
  change (s_data (arg cmd 1)) with (argd cmd 1) in *.
  assert (Hnil : leaves w (with_out (resp_nil (g_reply_proto (env w)) (out w1)) w1) (resp_nil (g_reply_proto (env w))) (view w) 0).
  { apply leaves_reply; [done..|]. by apply wf_resp_nil. }
  destruct r as [k| |].
  - destruct Hr as (-> & e & d & t & [He Hev] & Hrun & Hd & Hvk). rewrite Hrun in H. unfold list_at. rewrite Hvk. cbn [is_list fst snd].
    specialize (Hpop d Hd). destruct (pop d s_empty) as [[d' v]|].
    2:{ rewrite Hpop. injection H as <-. by rewrite Q3. }
    destruct Hpop as [Hd' ->]. right.
    assert (Hcnt : (count d' =? 0)%nat = bool_decide (content d' = [])).
    { rewrite <- length_elems. by destruct (content d'). }
    rewrite Hcnt in H. destruct (decide (content d' = [])) as [Hemp|Hne].
    + rewrite bool_decide_eq_true_2 in H by done.
      destruct (drop_list w1 (argd cmd 1) e d' Hw1 He Hd') as (w2 & Hr2 & Hw2 & (P1 & P2 & P3) & Hv2).
      cbn in Hr2, H. injection Hr2 as Hr2. rewrite Hr2 in H. injection H as <-. rewrite Hv in Hv2.
      apply (leaves_intro w (with_writes (u32 (writes w1 + 1)) w2) (fun b => resp_str b (s_data v))); cbn; try done; try congruence.
      apply wf_resp_str. by rewrite <- Q2.
    + rewrite bool_decide_eq_false_2 in H by done.
      destruct (commit_list w1 (argd cmd 1) e d' (content d) t Hw1 He Hd') as (w2 & Hr2 & Hw2 & (P1 & P2 & P3) & Hv2);
        [by rewrite Hv|].
      cbn in Hr2, H. injection Hr2 as Hr2. rewrite Hr2 in H. injection H as <-. rewrite Hv in Hv2.
      apply (leaves_intro w (with_writes (u32 (writes w1 + 1)) w2) (fun b => resp_str b (s_data v))); cbn; try done; try congruence.
      apply wf_resp_str. by rewrite <- Q2.
  - injection H as <-. unfold list_at. rewrite Hr. cbn [is_list fst]. rewrite Q3.
    destruct (top []) as [[v l]|]; [by left|done].
  - destruct Hr as (v & t & Hvk & Hty). injection H as <-. rewrite Hvk, is_list_type by done.
    apply (leaves_reply w w1 (fun b => resp_err b MSG_WRONGTYPE_SHORT)); [done..|]. by apply wf_resp_err.
Qed.

(** Close a branch that counted a change before replying. *)
Ltac leaves_dirty rep :=
  match goal with
  | |- leaves ?w (with_out _ (with_writes ?n ?w2)) _ _ _ =>
      apply (leaves_intro w (with_writes n w2) rep); cbn; try done; try congruence
  end.

(** Answering with each element in turn. *)
Lemma reply_elems d idxs w :
  for_each idxs (fun i => match deque_get d i with Some v => r_str (s_data v) | None => mret () end) w =
  ((), with_out (foldl resp_str (out w) (omap (fun i => content d !! i) idxs)) w).
Proof.
  revert w. induction idxs as [|i idxs IH]; intros w; [by destruct w|]. cbn [for_each omap list_omap].
  unfold mbind, state_bind. rewrite <- deque_get_content. destruct (deque_get d i) as [v|]; cbn; by rewrite IH.
Qed.

Lemma omap_slice {A} (l : list A) a n :
  (a + n <= length l)%nat -> omap (fun i => l !! i) (seq a n) = slice a n l.
Proof.
  revert a. induction n as [|n IH]; intros a Ha; [done|]. cbn [seq omap list_omap].
  destruct (lookup_lt_is_Some_2 l a ltac:(lia)) as [x Hx]. rewrite Hx, IH by lia.
  unfold slice. by rewrite (drop_S _ _ _ Hx).
Qed.

Lemma wf_foldl_str l b : wf b -> wf (foldl resp_str b l).
Proof. revert b. induction l; cbn; auto with myred. Qed.

Lemma length_lrange start stop l :
  match range_bounds (Z.of_nat (length l)) start stop with
  | Some (a, b) => Z.of_nat (length (lrange start stop l)) = b - a + 1
  | None => lrange start stop l = []
  end.
Proof.
  unfold lrange. destruct (range_bounds _ _ _) as [[a b]|] eqn:E; [|done].
  apply range_bounds_spec in E. rewrite length_slice by lia. lia.
Qed.

Lemma do_lrange_leaves cmd start stop w w' :
  world_ok w -> writes_ok w -> str2int (argd cmd 2) = Some start -> str2int (argd cmd 3) = Some stop ->
  do_lrange cmd w = ((), w') ->
  let l := lrange start stop (list_at (view w) (argd cmd 1)).1 in
  if is_list (view w !! argd cmd 1)
  then leaves w w' (fun b => foldl resp_str (resp_arr b (u32 (Z.of_nat (length l)))) l) (view w) 0
  else leaves w w' (fun b => resp_err b MSG_WRONGTYPE_SHORT) (view w) 0.
Proof.
  intros Hw Hn Hs1 Hs2 H. unfold do_lrange in H. rewrite Hs1, Hs2 in H. unfold mbind, state_bind in H. cbn zeta.
  destruct (lookup_entry (arg cmd 1) T_DLIST false false w) as [r w1] eqn:E.
  destruct (lookup_list _ _ _ _ Hw E) as (Hw1 & Hv & Hq & Hr). pose proof Hw1 as (_ & _ & Hwf1).
  change (s_data (arg cmd 1)) with (argd cmd 1) in *. destruct r as [k| |].
  - destruct Hr as (-> & e & d & t & [He Hev] & Hrun & Hd & Hvk). rewrite Hrun in H. unfold list_at. rewrite Hvk. cbn [is_list fst].
    pose proof (length_lrange start stop (content d)) as Hll. rewrite clamp_bounds in H.
    destruct (range_bounds _ _ _) as [[a b]|] eqn:Eb.
    + cbn in H. rewrite reply_elems in H. cbn in H. injection H as <-. rewrite Hll. pose proof Eb as Eb'.
      apply range_bounds_spec in Eb. rewrite omap_slice by lia.
      replace (lrange start stop (content d)) with (slice (Z.to_nat a) (Z.to_nat (b - a + 1)) (content d))
        by (unfold lrange; by rewrite Eb').
      set (l := slice _ _ _).
      apply (leaves_reply w w1 (fun bf => foldl resp_str (resp_arr bf (u32 (b - a + 1))) l)); [done..|].
      by apply wf_foldl_str, wf_resp_arr.
    + injection H as <-. rewrite Hll. cbn [length foldl].
      apply (leaves_reply w w1 (fun bf => resp_arr bf 0)); [done..|]. by apply wf_resp_arr.
  - injection H as <-. unfold list_at. rewrite Hr. cbn [is_list fst].
    assert (lrange start stop [] = []) as ->.
    { unfold lrange. destruct (range_bounds _ _ _) as [[a b]|] eqn:Eb; [|done]. apply range_bounds_spec in Eb. cbn in Eb. lia. }
    apply (leaves_reply w w1 (fun bf => resp_arr bf 0)); [done..|]. by apply wf_resp_arr.
  - destruct Hr as (v & t & Hvk & Hty). injection H as <-. rewrite Hvk, is_list_type by done.
    apply (leaves_reply w w1 (fun b => resp_err b MSG_WRONGTYPE_SHORT)); [done..|]. by apply wf_resp_err.
Qed.

Lemma do_lrem_leaves cmd cnt w w' :
  world_ok w -> writes_ok w -> str2int (argd cmd 2) = Some cnt -> INT64_MIN < cnt ->
  do_lrem cmd w = ((), w') ->
  let k := argd cmd 1 in
  let l := (list_at (view w) k).1 in
  let l' := lrem cnt (argd cmd 3) l in
  let n := Z.of_nat (length l - length l') in
  if is_list (view w !! k)
  then leaves w w' (fun b => resp_int b n)
         (if decide (view w !! k = None) then view w
          else if decide (l' = []) then delete k (view w)
          else <[k := (AList l', (list_at (view w) k).2)]> (view w))
         (if 0 <? n then 1 else 0)
  else leaves w w' (fun b => resp_err b MSG_WRONGTYPE_SHORT) (view w) 0.
Proof.
  intros Hw Hn Hc Hmin H. unfold do_lrem in H. rewrite Hc in H. unfold mbind, state_bind in H. cbn zeta.
  destruct (lookup_entry (arg cmd 1) T_DLIST false false w) as [r w1] eqn:E.
  destruct (lookup_list _ _ _ _ Hw E) as (Hw1 & Hv & Hq & Hr). pose proof Hw1 as (_ & _ & Hwf1). pose proof Hq as (Q1 & Q2 & Q3).
  change (s_data (arg cmd 1)) with (argd cmd 1) in *. destruct r as [k| |].
  2:{ injection H as <-. unfold list_at. rewrite Hr. cbn [is_list fst]. rewrite decide_True by done.
      assert (length (@nil bytes) - length (lrem cnt (argd cmd 3) []) = 0)%nat as -> by done.
      apply (leaves_reply w w1 (fun b => resp_int b 0)); [done..|]. by apply wf_resp_int. }
  2:{ destruct Hr as (v & t & Hvk & Hty). injection H as <-. rewrite Hvk, is_list_type by done.
      apply (leaves_reply w w1 (fun b => resp_err b MSG_WRONGTYPE_SHORT)); [done..|]. by apply wf_resp_err. }
  destruct Hr as (-> & e & d & t & [He Hev] & Hrun & Hd & Hvk).
  rewrite Hrun in H. unfold list_at. rewrite Hvk. cbn [is_list fst snd].
  rewrite decide_False by done. apply str2int_sound in Hc as [_ Hrange].
  destruct (deque_lrem_spec d cnt (argd cmd 3) Hd ltac:(lia)) as (D1 & D2 & D3 & D4).
  destruct (deque_lrem_idle d cnt (argd cmd 3)) as [Hidle1 Hidle2].
  destruct (deque_lrem d cnt (argd cmd 3)) as [d' removed]. cbn [fst snd] in *. rewrite <- D2 in D3, D4 |- *. rewrite <- D3.
  assert (Hcnt : (count d' =? 0)%nat = bool_decide (content d' = []))
    by (rewrite <- length_elems; by destruct (content d')).
  rewrite Hcnt in H. destruct (decide (content d' = [])) as [Hemp|Hne].
  - rewrite bool_decide_eq_true_2 in H by done.
    destruct (drop_list w1 (argd cmd 1) e d' Hw1 He D1) as (w2 & Hr2 & Hw2 & (P1 & P2 & P3) & Hv2).
    cbn in Hr2, H. injection Hr2 as Hr2. rewrite Hr2 in H. rewrite Hv in Hv2.
    destruct (0 <? removed); injection H as <-.
    + leaves_dirty (fun b => resp_int b removed).
      apply wf_resp_int. by rewrite <- Q2.
    + apply (leaves_reply w w2 (fun b => resp_int b removed)); try done; [by eapply quiet_trans|].
      apply wf_resp_int. by rewrite P2.
  - rewrite bool_decide_eq_false_2 in H by done.
    destruct (0 <? removed) eqn:Er; bool_facts.
    + destruct (commit_list w1 (argd cmd 1) e d' (content d) t Hw1 He D1) as (w2 & Hr2 & Hw2 & (P1 & P2 & P3) & Hv2);
        [by rewrite Hv|].
      cbn in Hr2, H. injection Hr2 as Hr2. rewrite Hr2 in H. injection H as <-. rewrite Hv in Hv2.
      leaves_dirty (fun b => resp_int b removed).
      apply wf_resp_int. by rewrite <- Q2.
    + assert (removed = 0) as -> by lia. rewrite (Hidle2 eq_refl) in *.
      assert (Hid : upd (argd cmd 1) (with_eval (VList d)) (ks w1) = ks w1) by (by eapply upd_same).
      cbn in H. rewrite Hid in H. injection H as <-. rewrite (insert_id (view w)) by done.
      replace (with_ks (ks w1) w1) with w1 by (by destruct w1).
      apply (leaves_reply w w1 (fun b => resp_int b 0)); [done..|]. by apply wf_resp_int.
Qed.

(** A committed list update that answers [rep]. *)
Lemma commit_reply w w1 k e d d0 t rep :
  world_ok w1 -> view w1 = view w -> quiet w w1 -> ents (ks w1) !! k = Some e -> deque_inv d ->
  view w !! k = Some (AList d0, t) -> (forall b, wf b -> wf (rep b)) ->
  exists w', (set_deque k d ;; reaccount k ;; dirty 1 ;; reply rep) w1 = ((), w') /\
    leaves w w' rep (<[k := (AList (content d), t)]> (view w)) 1.
Proof.
  intros Hw1 Hv (Q1 & Q2 & Q3) He Hd Hk Hrep.
  destruct (commit_list w1 k e d d0 t Hw1 He Hd ltac:(by rewrite Hv)) as (w2 & Hr2 & Hw2 & (P1 & P2 & P3) & Hv2).
  rewrite Hv in Hv2. unfold mbind, state_bind in *. cbn in Hr2 |- *. injection Hr2 as Hr2. rewrite Hr2.
  eexists. split; [reflexivity|]. leaves_dirty rep. apply Hrep. rewrite <- Q2. by destruct Hw1 as (_ & _ & ?).
Qed.

Lemma do_ltrim_leaves cmd start stop w w' :
  world_ok w -> writes_ok w -> str2int (argd cmd 2) = Some start -> str2int (argd cmd 3) = Some stop ->
  do_ltrim cmd w = ((), w') ->
  let k := argd cmd 1 in
  let l := (list_at (view w) k).1 in
  let l' := lrange start stop l in
  if is_list (view w !! k)
  then exists n, leaves w w' resp_ok
         (if decide (view w !! k = None) then view w
          else if decide (l' = []) then delete k (view w)
          else <[k := (AList l', (list_at (view w) k).2)]> (view w)) n
  else leaves w w' (fun b => resp_err b MSG_WRONGTYPE_SHORT) (view w) 0.
Proof.
  intros Hw Hn Hs1 Hs2 H. unfold do_ltrim in H. rewrite Hs1, Hs2 in H. unfold mbind at 1, state_bind at 1 in H. cbn zeta.
  destruct (lookup_entry (arg cmd 1) T_DLIST false false w) as [r w1] eqn:E.
  destruct (lookup_list _ _ _ _ Hw E) as (Hw1 & Hv & Hq & Hr). pose proof Hw1 as (Hok1 & Hacc1 & Hwf1). pose proof Hq as (Q1 & Q2 & Q3).
  change (s_data (arg cmd 1)) with (argd cmd 1) in *. destruct r as [k| |].
  2:{ injection H as <-. unfold list_at. rewrite Hr. cbn [is_list fst]. rewrite decide_True by done. exists 0.
      apply (leaves_reply w w1 resp_ok); [done..|]. by apply wf_resp_ok. }
  2:{ destruct Hr as (v & t & Hvk & Hty). injection H as <-. rewrite Hvk, is_list_type by done.
      apply (leaves_reply w w1 (fun b => resp_err b MSG_WRONGTYPE_SHORT)); [done..|]. by apply wf_resp_err. }
  destruct Hr as (-> & e & d & t & [He Hev] & Hrun & Hd & Hvk). unfold mbind at 1, state_bind at 1 in H. rewrite Hrun in H.
  unfold list_at. rewrite Hvk. cbn [is_list fst snd]. rewrite (decide_False (P := Some _ = None)) by done.
  pose proof (length_lrange start stop (content d)) as Hll. rewrite clamp_bounds in H.
  destruct (range_bounds _ _ _) as [[a b]|] eqn:Eb.
  - pose proof Eb as Eb'. apply range_bounds_spec in Eb.
    assert (Hl : lrange start stop (content d) = slice (Z.to_nat a) (Z.to_nat (b - a + 1)) (content d))
      by (unfold lrange; by rewrite Eb').
    rewrite decide_False by (intros E0; rewrite E0 in Hll; cbn in Hll; lia).
    pose proof (length_elems d) as Hlc.
    destruct ((a =? 0) && (b + 1 =? Z.of_nat (count d))) eqn:Efull; bool_facts.
    + injection H as <-. exists 0. replace (<[_ := _]> (view w)) with (view w).
      * apply (leaves_reply w w1 resp_ok); [done..|]. by apply wf_resp_ok.
      * symmetry. apply insert_id. rewrite Hvk, Hl. do 3 f_equal. subst a.
        replace (Z.to_nat (b - 0 + 1)) with (length (content d)) by lia. symmetry. apply slice_full.
    + destruct (deque_trim_content d (Z.to_nat a) (Z.to_nat b) Hd ltac:(lia)) as [T1 T2].
      destruct (commit_reply w w1 (argd cmd 1) e _ (content d) t resp_ok Hw1 Hv Hq He T1 Hvk) as (w2 & Hr2 & Hl2);
        [apply wf_resp_ok|].
      assert (E2 : ((), w') = ((), w2)) by (rewrite <- H, <- Hr2; done). injection E2 as ->.
      exists 1. rewrite T2 in Hl2. rewrite Hl. by replace (Z.to_nat (b - a + 1)) with (Z.to_nat b - Z.to_nat a + 1)%nat by lia.
  - rewrite Hll, decide_True by done. exists 1.
    destruct (view_remove w1 (argd cmd 1) Hok1 Hacc1 ltac:(rewrite He; by eexists)) as (R1 & R2 & R3).
    rewrite Hv in R3. unfold mbind, state_bind in H. cbn in H. injection H as <-.
    leaves_dirty resp_ok. apply wf_resp_ok. by rewrite <- Q2.
Qed.

Lemma do_lset_leaves cmd i w w' :
  world_ok w -> writes_ok w -> str2int (argd cmd 2) = Some i -> do_lset cmd w = ((), w') ->
  let k := argd cmd 1 in
  let l := (list_at (view w) k).1 in
  let idx := if i <? 0 then i + Z.of_nat (length l) else i in
  match view w !! k with
  | None => leaves w w' (fun b => resp_err b (bs "ERR no such key")) (view w) 0
  | Some (AList _, t) =>
      if (0 <=? idx) && (idx <? Z.of_nat (length l))
      then leaves w w' resp_ok (<[k := (AList (<[Z.to_nat idx := argd cmd 3]> l), t)]> (view w)) 1
      else leaves w w' (fun b => resp_err b MSG_OUT_OF_RANGE) (view w) 0
  | Some _ => leaves w w' (fun b => resp_err b MSG_WRONGTYPE_SHORT) (view w) 0
  end.
Proof.
  intros Hw Hn Hs H. unfold do_lset in H. unfold mbind at 1, state_bind at 1 in H. cbn zeta.
  destruct (lookup_entry (arg cmd 1) T_DLIST false false w) as [r w1] eqn:E.
  destruct (lookup_list _ _ _ _ Hw E) as (Hw1 & Hv & Hq & Hr). pose proof Hw1 as (_ & _ & Hwf1).
  change (s_data (arg cmd 1)) with (argd cmd 1) in *.
  assert (Herr : forall m, leaves w (with_out (resp_err (out w1) m) w1) (fun b => resp_err b m) (view w) 0).
  { intros m. apply (leaves_reply w w1 (fun b => resp_err b m)); [done..|]. by apply wf_resp_err. }
  destruct r as [k| |].
  - destruct Hr as (-> & e & d & t & [He Hev] & Hrun & Hd & Hvk). unfold mbind at 1, state_bind at 1 in H. rewrite Hrun, Hs in H.
    unfold list_at. rewrite Hvk. cbn [fst]. unfold deque_normalize in H. rewrite <- length_elems in H.
    set (idx := if i <? 0 then _ else _) in *.
    replace ((idx <? 0) || (Z.of_nat (length (content d)) <=? idx)) with
      (negb ((0 <=? idx) && (idx <? Z.of_nat (length (content d))))) in H by lia.
    destruct ((0 <=? idx) && (idx <? Z.of_nat (length (content d)))) eqn:Ei; cbn [negb] in H; bool_facts.
    + pose proof (length_elems d). destruct (deque_set_content d (Z.to_nat idx) (argd cmd 3) Hd ltac:(lia)) as [S1 S2].
      destruct (commit_reply w w1 (argd cmd 1) e _ (content d) t resp_ok Hw1 Hv Hq He S1 Hvk) as (w2 & Hr2 & Hl2);
        [apply wf_resp_ok|].
      assert (E2 : ((), w') = ((), w2)) by (rewrite <- H, <- Hr2; done). injection E2 as ->. by rewrite S2 in Hl2.
    + injection H as <-. apply Herr.
  - injection H as <-. rewrite Hr. apply Herr.
  - destruct Hr as (v & t & Hvk & Hty). injection H as <-. rewrite Hvk. destruct v; try done; apply Herr.
Qed.

(** The index of the first occurrence. *)
Fixpoint index_of (v : bytes) (l : list bytes) : option nat :=
  match l with
  | [] => None
  | x :: l' => if decide (x = v) then Some O else S <$> index_of v l'
  end.

Lemma find_from_spec d pre rest v :
  content d = pre ++ rest ->
  find_from d (length rest) (length pre) v = (fun i => (length pre + i)%nat) <$> index_of v rest.
Proof.
  revert pre. induction rest as [|x rest IH]; intros pre Hc; [done|]. cbn [find_from length index_of].
  assert (Hx : s_data <$> deque_get d (length pre) = Some x)
    by (rewrite deque_get_content, Hc; by apply list_lookup_middle).
  destruct (deque_get d (length pre)) as [s|]; [|done]. injection Hx as Hx. rewrite Hx.
  destruct (decide (x = v)) as [->|Hne].
  - rewrite bool_decide_eq_true_2 by done. cbn. f_equal. lia.
  - rewrite bool_decide_eq_false_2 by done. specialize (IH (pre ++ [x])).
    rewrite length_app, Nat.add_comm in IH. cbn [length Nat.add] in IH. rewrite IH by (by rewrite Hc, <- app_assoc).
    destruct (index_of v rest); cbn; [|done]. f_equal. lia.
Qed.

Lemma index_of_lt v l i : index_of v l = Some i -> (i < length l)%nat.
Proof.
  revert i. induction l as [|x l IH]; intros i; cbn; [done|]. case_decide; [intros [= <-]; lia|].
  destruct (index_of v l) as [j|]; cbn; [|done]. intros [= <-]. specialize (IH j eq_refl). lia.
Qed.

Lemma do_linsert_leaves cmd w w' :
  world_ok w -> writes_ok w -> do_linsert cmd w = ((), w') ->
  let k := argd cmd 1 in
  let wh := map tolower (argd cmd 2) in
  match view w !! k with
  | None => leaves w w' (fun b => resp_int b 0) (view w) 0
  | Some (AList l, t) =>
      if bool_decide (wh = bs "before") || bool_decide (wh = bs "after") then
        match index_of (argd cmd 3) l with
        | None => leaves w w' (fun b => resp_int b (-1)) (view w) 0
        | Some p =>
            let i := if bool_decide (wh = bs "before") then p else S p in
            leaves w w' (fun b => resp_int b (Z.of_nat (length l) + 1))
              (<[k := (AList (take i l ++ argd cmd 4 :: drop i l), t)]> (view w)) 1
        end
      else leaves w w' (fun b => resp_err b MSG_SYNTAX) (view w) 0
  | Some _ => leaves w w' (fun b => resp_err b MSG_WRONGTYPE_SHORT) (view w) 0
  end.
Proof.
  intros Hw Hn H. unfold do_linsert in H. unfold mbind at 1, state_bind at 1 in H. cbn zeta.
  destruct (lookup_entry (arg cmd 1) T_DLIST false false w) as [r w1] eqn:E.
  destruct (lookup_list _ _ _ _ Hw E) as (Hw1 & Hv & Hq & Hr). pose proof Hw1 as (_ & _ & Hwf1).
  change (s_data (arg cmd 1)) with (argd cmd 1) in *. set (wh := map tolower (argd cmd 2)) in *.
  assert (Hint : forall n, leaves w (with_out (resp_int (out w1) n) w1) (fun b => resp_int b n) (view w) 0).
  { intros n. apply (leaves_reply w w1 (fun b => resp_int b n)); [done..|]. by apply wf_resp_int. }
  assert (Herr : forall m, leaves w (with_out (resp_err (out w1) m) w1) (fun b => resp_err b m) (view w) 0).
  { intros m. apply (leaves_reply w w1 (fun b => resp_err b m)); [done..|]. by apply wf_resp_err. }
  destruct r as [k| |].
  - destruct Hr as (-> & e & d & t & [He Hev] & Hrun & Hd & Hvk). rewrite Hvk.
    destruct (bool_decide (wh = bs "before") || bool_decide (wh = bs "after")); [|injection H as <-; apply Herr].
    unfold mbind at 1, state_bind at 1 in H. rewrite Hrun in H.
    pose proof (find_from_spec d [] (content d) (argd cmd 3) eq_refl) as Hfind. cbn [length Nat.add] in Hfind.
    rewrite length_elems in Hfind. rewrite Hfind in H.
    destruct (index_of (argd cmd 3) (content d)) as [p|] eqn:Ep; cbn [fmap option_fmap option_map] in H;
      [|injection H as <-; apply Hint].
    apply index_of_lt in Ep. set (i := if bool_decide (wh = bs "before") then p else S p) in *.
    assert (Hi : (i <= count d)%nat) by (rewrite <- length_elems; subst i; destruct (bool_decide _); lia).
    destruct (deque_insert_content d i (argd cmd 4) Hd Hi) as [I1 I2].
    set (d' := deque_insert d i (argd cmd 4)) in *.
    destruct (commit_reply w w1 (argd cmd 1) e d' (content d) t (fun b => resp_int b (Z.of_nat (count d'))) Hw1 Hv Hq He I1 Hvk)
      as (w2 & Hr2 & Hl2); [intros; by apply wf_resp_int|].
    assert (E2 : ((), w') = ((), w2)) by (rewrite <- H, <- Hr2; done). injection E2 as ->. rewrite I2 in Hl2.
    replace (Z.of_nat (length (content d)) + 1) with (Z.of_nat (count d')); [done|].
    rewrite <- (length_elems d'), I2, length_app. cbn [length]. rewrite length_take, length_drop, length_elems. lia.
  - injection H as <-. rewrite Hr. apply Hint.
  - destruct Hr as (v & t & Hvk & Hty). injection H as <-. rewrite Hvk. destruct v; try done; apply Herr.
Qed.

(** ** Properties *)

(** LPUSH and RPUSH.  The values join the list (a missing key starts empty)
    one by one at the head or at the tail, the new length is answered, the
    deadline and all other keys are kept; a key of another type is refused. *)
Theorem push_correct (w : World) (cmd : list sstr) (Hw : world_ok w) (Hn : writes_ok w) (Hroom : room w) :
  let k := argd cmd 1 in
  let vs := map s_data (drop 2 cmd) in
  let result w' l :=
    if is_list (view w !! k)
    then leaves w w' (fun b => resp_int b (Z.of_nat (length l))) (<[k := (AList l, (list_at (view w) k).2)]> (view w)) 1
    else leaves w w' (fun b => resp_err b MSG_WRONGTYPE_SHORT) (view w) 0 in
  result (do_rpush cmd w).2 ((list_at (view w) k).1 ++ vs) /\
  result (do_lpush cmd w).2 (rev vs ++ (list_at (view w) k).1).
Proof.
  cbn zeta. split.
  - destruct (do_rpush cmd w) as [[] w'] eqn:E. cbn [snd].
    by apply (push_generic_leaves _ (fun vs l => l ++ vs) cmd w w' push_back_content).
  - destruct (do_lpush cmd w) as [[] w'] eqn:E. cbn [snd].
    by apply (push_generic_leaves _ (fun vs l => rev vs ++ l) cmd w w' push_front_content).
Qed.

Lemma push_correct_witness :
  let cmd := words ["rpush"; "l"; "a"; "b"] in
  let result w' l :=
    if is_list (view w0 !! argd cmd 1)
    then leaves w0 w' (fun b => resp_int b (Z.of_nat (length l)))
           (<[argd cmd 1 := (AList l, (list_at (view w0) (argd cmd 1)).2)]> (view w0)) 1
    else leaves w0 w' (fun b => resp_err b MSG_WRONGTYPE_SHORT) (view w0) 0 in
  result (do_rpush cmd w0).2 ((list_at (view w0) (argd cmd 1)).1 ++ map s_data (drop 2 cmd)) /\
  result (do_lpush cmd w0).2 (rev (map s_data (drop 2 cmd)) ++ (list_at (view w0) (argd cmd 1)).1).
Proof. apply (push_correct w0 (words ["rpush"; "l"; "a"; "b"]) w0_ok); apply w0_start. Defined.

(** A server holding one list. *)
Definition w_list : World := (do_rpush (words ["rpush"; "l"; "a"; "b"; "a"; "c"]) w0).2.

Lemma w_list_ok : world_ok w_list /\ writes_ok w_list.
Proof.
  unfold w_list. destruct (do_rpush (words ["rpush"; "l"; "a"; "b"; "a"; "c"]) w0) as [[] w'] eqn:E. cbn [snd].
  pose proof (push_generic_leaves _ (fun vs l => l ++ vs) _ w0 w' push_back_content w0_ok
    (proj1 w0_start) (proj1 (proj2 w0_start)) E) as H. cbn zeta in H.
  destruct (is_list _); exact (leaves_ok _ _ _ _ _ H).
Qed.

(** The pops against the list. *)
Definition top_front (l : list bytes) : option (bytes * list bytes) :=
  match l with [] => None | v :: l => Some (v, l) end.
Definition top_back (l : list bytes) : option (bytes * list bytes) :=
  v ← last l; Some (v, take (length l - 1) l).

Lemma pop_front_top d :
  deque_inv d ->
  match deque_pop_front d s_empty with
  | None => top_front (content d) = None
  | Some (d', v) => deque_inv d' /\ top_front (content d) = Some (s_data v, content d')
  end.
Proof.
  intros Hd. pose proof (deque_pop_front_spec d s_empty Hd) as Hp. unfold content.
  destruct (deque_pop_front d s_empty) as [[d' v]|]; [|by rewrite Hp].
  destruct Hp as (s & P1 & P2 & P3 & _). split; [done|]. rewrite P2. cbn. by rewrite P3.
Qed.

Lemma pop_back_top d :
  deque_inv d ->
  match deque_pop_back d s_empty with
  | None => top_back (content d) = None
  | Some (d', v) => deque_inv d' /\ top_back (content d) = Some (s_data v, content d')
  end.
Proof.
  intros Hd. pose proof (deque_pop_back_spec d s_empty Hd) as Hp. unfold content.
  destruct (deque_pop_back d s_empty) as [[d' v]|]; [|by rewrite Hp].
  destruct Hp as (s & P1 & P2 & P3 & _). split; [done|]. unfold top_back.
  rewrite P2, map_app. cbn [map]. rewrite last_snoc, length_app, Nat.add_sub, take_app_length. cbn. by rewrite P3.
Qed.

(** LPOP and RPOP.  The first, respectively last, element is answered and
    leaves the list; the key disappears with its last element; a missing key
    answers nil and another type is refused, both without any change. *)
Theorem pop_correct (w : World) (cmd : list sstr) (Hw : world_ok w) (Hn : writes_ok w) :
  let k := argd cmd 1 in
  let result w' v l :=
    match view w !! k with
    | None => leaves w w' (resp_nil (g_reply_proto (env w))) (view w) 0
    | Some (AList [], _) => leaves w w' (resp_nil (g_reply_proto (env w))) (view w) 0
    | Some (AList _, t) =>
        leaves w w' (fun b => resp_str b v) (if decide (l = []) then delete k (view w) else <[k := (AList l, t)]> (view w)) 1
    | Some _ => leaves w w' (fun b => resp_err b MSG_WRONGTYPE_SHORT) (view w) 0
    end in
  let l := (list_at (view w) k).1 in
  result (do_lpop cmd w).2 (default [] (list.head l)) (tail l) /\
  result (do_rpop cmd w).2 (default [] (last l)) (take (length l - 1) l).
Proof.
  cbn zeta. split.
  - destruct (do_lpop cmd w) as [[] w'] eqn:E. cbn [snd].
    pose proof (pop_generic_leaves _ _ cmd w w' pop_front_top Hw Hn E) as H. cbn zeta in H. unfold list_at in *.
    destruct (view w !! argd cmd 1) as [[[] t]|]; cbn [is_list fst snd] in *; try exact H.
    destruct l as [|v l]; [done|]. by destruct H as [?|H].
  - destruct (do_rpop cmd w) as [[] w'] eqn:E. cbn [snd].
    pose proof (pop_generic_leaves _ _ cmd w w' pop_back_top Hw Hn E) as H. cbn zeta in H. unfold list_at in *.
    destruct (view w !! argd cmd 1) as [[[] t]|]; cbn [is_list fst snd] in *; try exact H.
    unfold top_back in H. destruct l as [|v l] using rev_ind; [done|]. rewrite last_snoc in *.
    cbn [mbind option_bind] in H. destruct H as [?|H]; [done|]. destruct l; exact H.
Qed.

Lemma pop_correct_witness :
  let cmd := words ["lpop"; "l"] in
  let k := argd cmd 1 in
  let result w' v l :=
    match view w_list !! k with
    | None => leaves w_list w' (resp_nil (g_reply_proto (env w_list))) (view w_list) 0
    | Some (AList [], _) => leaves w_list w' (resp_nil (g_reply_proto (env w_list))) (view w_list) 0
    | Some (AList _, t) =>
        leaves w_list w' (fun b => resp_str b v)
          (if decide (l = []) then delete k (view w_list) else <[k := (AList l, t)]> (view w_list)) 1
    | Some _ => leaves w_list w' (fun b => resp_err b MSG_WRONGTYPE_SHORT) (view w_list) 0
    end in
  let l := (list_at (view w_list) k).1 in
  result (do_lpop cmd w_list).2 (default [] (list.head l)) (tail l) /\
  result (do_rpop cmd w_list).2 (default [] (last l)) (take (length l - 1) l).
Proof. apply (pop_correct w_list (words ["lpop"; "l"])); apply w_list_ok. Defined.

(** LRANGE.  With two integer bounds the reply is the array of exactly the
    elements between them, negative bounds counting from the end and both
    clamped to the list; nothing changes, and another type is refused. *)
Theorem lrange_correct (w : World) (cmd : list sstr) (start stop : Z) (Hw : world_ok w) (Hn : writes_ok w)
    (H2 : str2int (argd cmd 2) = Some start) (H3 : str2int (argd cmd 3) = Some stop) :
  let l := lrange start stop (list_at (view w) (argd cmd 1)).1 in
  let w' := (do_lrange cmd w).2 in
  if is_list (view w !! argd cmd 1)
  then leaves w w' (fun b => foldl resp_str (resp_arr b (u32 (Z.of_nat (length l)))) l) (view w) 0
  else leaves w w' (fun b => resp_err b MSG_WRONGTYPE_SHORT) (view w) 0.
Proof. destruct (do_lrange cmd w) as [[] w'] eqn:E. by apply do_lrange_leaves. Qed.

Lemma lrange_correct_witness :
  let cmd := words ["lrange"; "l"; "1"; "-2"] in
  let l := lrange 1 (-2) (list_at (view w_list) (argd cmd 1)).1 in
  let w' := (do_lrange cmd w_list).2 in
  if is_list (view w_list !! argd cmd 1)
  then leaves w_list w' (fun b => foldl resp_str (resp_arr b (u32 (Z.of_nat (length l)))) l) (view w_list) 0
  else leaves w_list w' (fun b => resp_err b MSG_WRONGTYPE_SHORT) (view w_list) 0.
Proof.
  apply (lrange_correct w_list (words ["lrange"; "l"; "1"; "-2"]) 1 (-2)); [apply w_list_ok..|reflexivity|reflexivity].
Defined.

(** LREM.  A positive count removes that many occurrences from the head, a
    negative one from the tail, zero removes all; the number removed is
    answered, the other elements keep their order, an emptied list leaves the
    keyspace, and a missing key or another type changes nothing. *)
Theorem lrem_correct (w : World) (cmd : list sstr) (cnt : Z) (Hw : world_ok w) (Hn : writes_ok w)
    (H2 : str2int (argd cmd 2) = Some cnt) (Hmin : INT64_MIN < cnt) :
  let k := argd cmd 1 in
  let w' := (do_lrem cmd w).2 in
  let l := (list_at (view w) k).1 in
  let l' := lrem cnt (argd cmd 3) l in
  let n := Z.of_nat (length l - length l') in
  if is_list (view w !! k)
  then leaves w w' (fun b => resp_int b n)
         (if decide (view w !! k = None) then view w
          else if decide (l' = []) then delete k (view w)
          else <[k := (AList l', (list_at (view w) k).2)]> (view w))
         (if 0 <? n then 1 else 0)
  else leaves w w' (fun b => resp_err b MSG_WRONGTYPE_SHORT) (view w) 0.
Proof. destruct (do_lrem cmd w) as [[] w'] eqn:E. by apply do_lrem_leaves. Qed.

Lemma lrem_correct_witness :
  let cmd := words ["lrem"; "l"; "-1"; "a"] in
  let k := argd cmd 1 in
  let w' := (do_lrem cmd w_list).2 in
  let l := (list_at (view w_list) k).1 in
  let l' := lrem (-1) (argd cmd 3) l in
  let n := Z.of_nat (length l - length l') in
  if is_list (view w_list !! k)
  then leaves w_list w' (fun b => resp_int b n)
         (if decide (view w_list !! k = None) then view w_list
          else if decide (l' = []) then delete k (view w_list)
          else <[k := (AList l', (list_at (view w_list) k).2)]> (view w_list))
         (if 0 <? n then 1 else 0)
  else leaves w_list w' (fun b => resp_err b MSG_WRONGTYPE_SHORT) (view w_list) 0.
Proof.
  apply (lrem_correct w_list (words ["lrem"; "l"; "-1"; "a"]) (-1)); [apply w_list_ok..|reflexivity|reflexivity].
Defined.

(** Removing from the middle of a list falsifies its byte counter.  Closing
    the gap moves short strings into slots that keep their large buffers:
    after pushing x, a 100-byte string and a, the counter is exact; LREM of
    the long string leaves it below the capacities of the live strings, and
    the next RPOP wraps it below zero to almost 2^64. *)
Theorem lrem_charge_drift :
  let long := replicate 100 (chr 122) in
  let d := foldl deque_push_back deque_init [bs "x"; long; bs "a"] in
  let d1 := (deque_lrem d 1 long).1 in
  charged d /\ content d1 = [bs "x"; bs "a"] /\ ~ charged d1 /\ Deque.elem_bytes d1 < caps (items d1) /\
  match deque_pop_back d1 s_empty with Some (d2, _) => 2 ^ 63 < Deque.elem_bytes d2 | None => False end.
Proof. cbn zeta. split_and!; first [vm_compute; reflexivity | vm_compute; discriminate]. Qed.
