(* ===== verification/Glob.v ===== *)
(** * The glob matcher of KEYS and SCAN MATCH (src/src/commands/commands.cpp, 2632-2742)

    [glob_match] walks two cursors and remembers the last ['*'] for
    backtracking.  Lengths are [size_t], and the code decrements the saved
    string length without a test, so the model keeps the wrap-around and a
    read past the subject's terminator is an outcome of its own.  [matches]
    is the declarative meaning of a pattern. *)
From S2P Require Import Prelude.

Definition c_star : ascii := chr 42.
Definition c_quest : ascii := chr 63.
Definition c_lbrack : ascii := chr 91.
Definition c_rbrack : ascii := chr 93.
Definition c_caret : ascii := chr 94.
Definition c_dash : ascii := chr 45.
Definition c_bslash : ascii := chr 92.

Definition ceq (a b : ascii) : bool := bool_decide (a = b).

(** [lo <= c <= hi] after the swap of reversed bounds; [char] is signed. *)
Definition in_range (a b c : ascii) : bool :=
  let '(lo, hi) := if scode b <? scode a then (scode b, scode a) else (scode a, scode b) in
  (lo <=? scode c) && (scode c <=? hi).

(** The loop over the members of a bracket: whether the character was hit,
    and the pattern from the closing bracket on. *)
Fixpoint class_loop (fuel : nat) (c : ascii) (hit : bool) (cp : bytes) : bool * bytes :=
  match fuel with
  | O => (hit, cp)
  | S f =>
      match cp with
      | [] => (hit, cp)
      | x :: cp1 =>
          if ceq x c_rbrack then (hit, cp)
          else
            let single := class_loop f c (ceq x c || hit) cp1 in
            match cp1 with
            | y :: cp2 =>
                if ceq x c_bslash then class_loop f c (ceq y c || hit) cp2
                else
                  match cp2 with
                  | z :: cp3 =>
                      if ceq y c_dash && negb (ceq z c_rbrack)
                      then class_loop f c (in_range x z c || hit) cp3
                      else single
                  | [] => single
                  end
            | [] => single
            end
      end
  end.

(** One step of the [switch]: does the element at the head of the pattern
    [p] accept the character [c], and the pattern after that element. *)
Definition glob_one (p : bytes) (c : ascii) : bool * bytes :=
  match p with
  | [] => (false, [])
  | x :: p1 =>
      if ceq x c_quest then (true, p1)
      else if ceq x c_lbrack then
        let '(negate, cp) := match p1 with y :: p2 => if ceq y c_caret then (true, p2) else (false, p1) | [] => (false, p1) end in
        let '(hit, rest) := class_loop (length cp) c false cp in
        let rest := match rest with y :: r => if ceq y c_rbrack then r else rest | [] => rest end in
        (xorb negate hit, rest)
      else if ceq x c_bslash then
        match p1 with [] => (false, p1) | y :: p2 => (ceq y c, p2) end
      else (ceq x c, p1)
  end.

(** Whether that step reads [s\[0\]]: not for ['?'], a trailing backslash or
    an empty bracket. *)
Definition reads_subject (p : bytes) : bool :=
  match p with
  | [] => false
  | x :: p1 =>
      if ceq x c_quest then false
      else if ceq x c_lbrack then
        match (match p1 with y :: p2 => if ceq y c_caret then p2 else p1 | [] => p1 end) with
        | [] => false
        | y :: _ => negb (ceq y c_rbrack)
        end
      else if ceq x c_bslash then negb (bool_decide (p1 = []))
      else true
  end.

(** The cursors: the pattern left, the index into the subject with the
    [size_t] the code believes is left, and the same pair for the last star. *)
Record Glob := mkGlob { gp : bytes; gs : nat; slen : Z; star : option (bytes * nat * Z) }.

(** [GOob] is a read at or past the end of the subject; [GFuel] means the
    iterations allowed did not suffice. *)
Inductive Outcome := GDone (b : bool) | GOob | GFuel.

(** [while (plen > 1 && p\[1\] == '*') p++] *)
Fixpoint collapse (p : bytes) : bytes :=
  match p with
  | x :: ((y :: _) as q) => if ceq y c_star then collapse q else p
  | _ => p
  end.

(** The leading [while (plen > 0 && p\[0\] == '*')]; [None] is [return true]. *)
Fixpoint star_loop (fuel : nat) (g : Glob) : option Glob :=
  match fuel with
  | O => Some g
  | S f =>
      match gp g with
      | x :: _ =>
          if ceq x c_star then
            match collapse (gp g) with
            | [_] | [] => None
            | _ :: q => star_loop f (mkGlob q (gs g) (slen g) (Some (q, gs g, slen g)))
            end
          else Some g
      | [] => Some g
      end
  end.

(** [bs++; bslen--; p = bp; ...]; [None] is [return false]. *)
Definition backtrack (g : Glob) : option Glob :=
  match star g with
  | None => None
  | Some (q, i, n) => Some (mkGlob q (S i) (u64 (n - 1)) (Some (q, S i, u64 (n - 1))))
  end.

Fixpoint glob_loop (fuel : nat) (s : bytes) (g : Glob) : Outcome :=
  match fuel with
  | O => GFuel
  | S f =>
      let retry g := match backtrack g with None => GDone false | Some g' => glob_loop f s g' end in
      match star_loop (S (length (gp g))) g with
      | None => GDone true
      | Some g =>
          if (slen g =? 0) || bool_decide (gp g = []) then
            if (slen g =? 0) && bool_decide (gp g = []) then GDone true else retry g
          else
            if reads_subject (gp g) && bool_decide (length s <= gs g)%nat then GOob
            else
              let '(matched, rest) := glob_one (gp g) (default c_zero (s !! gs g)) in
              if (matched : bool) then glob_loop f s (mkGlob rest (S (gs g)) (u64 (slen g - 1)) (star g))
              else retry g
      end
  end.

Definition glob_start (p s : bytes) : Glob := mkGlob p 0 (Z.of_nat (length s)) None.
Definition glob_match (fuel : nat) (p s : bytes) : Outcome := glob_loop fuel s (glob_start p s).

(** ** The meaning of a pattern *)

Inductive matches : bytes -> bytes -> Prop :=
  | m_end : matches [] []
  | m_star_none p s : matches p s -> matches (c_star :: p) s
  | m_star_more p c s : matches (c_star :: p) s -> matches (c_star :: p) (c :: s)
  | m_one x p c s rest :
      x <> c_star -> glob_one (x :: p) c = (true, rest) -> matches rest s -> matches (x :: p) (c :: s).

(** Patterns whose only ['*'] is their last character. *)
Definition tame (p : bytes) : Prop := forall i, p !! i = Some c_star -> S i = length p.

Lemma plain_tame p : c_star ∉ p -> tame p.
Proof. intros H i Hi. destruct H. by eapply list_elem_of_lookup_2. Qed.

Lemma prefix_tame p : c_star ∉ p -> tame (p ++ [c_star]).
Proof.
  intros H i Hi. rewrite length_app. cbn. apply lookup_app_Some in Hi as [Hi|[Hl Hi]]; [destruct H; by eapply list_elem_of_lookup_2|].
  apply list_lookup_singleton_Some in Hi as [Hi _]. lia.
Qed.

(** ** The pattern cursor *)

Lemma ceq_true a b : ceq a b = true <-> a = b.
Proof. apply bool_decide_eq_true. Qed.

Lemma ceq_false a b : ceq a b = false <-> a <> b.
Proof. apply bool_decide_eq_false. Qed.

Lemma class_loop_rest f c c' hit hit' cp : (class_loop f c hit cp).2 = (class_loop f c' hit' cp).2.
Proof.
  revert hit hit' cp. induction f as [|f IH]; intros hit hit' [|x [|y [|z cp]]]; cbn; try done;
    repeat case_match; try done; apply IH.
Qed.

Lemma class_loop_suffix f c hit cp : (class_loop f c hit cp).2 `suffix_of` cp.
Proof.
  revert hit cp. induction f as [|f IH]; intros hit [|x [|y [|z cp]]]; cbn; try done;
    repeat case_match; repeat first [done | apply IH | apply suffix_cons_r].
Qed.

(** Which element stands at the head does not depend on the character. *)
Lemma glob_one_rest p c c' : (glob_one p c).2 = (glob_one p c').2.
Proof.
  destruct p as [|x p]; [done|]. unfold glob_one.
  case_match; [done|]. case_match; [|by repeat case_match].
  destruct p as [|y p2]; [done|]; destruct (ceq y c_caret);
    match goal with |- context [class_loop ?f c false ?cp] =>
      pose proof (class_loop_rest f c c' false false cp) as Hr end;
    do 2 destruct (class_loop _ _ _ _) as [? ?]; cbn [snd] in *; by subst.
Qed.

Lemma glob_one_suffix x p c : (glob_one (x :: p) c).2 `suffix_of` p.
Proof.
  unfold glob_one.
  case_match; [done|]. case_match; [|repeat case_match; repeat first [done | apply suffix_cons_r]].
  assert (forall cp, cp `suffix_of` p ->
    (let '(hit, rest) := class_loop (length cp) c false cp in
     match rest with y :: r => if ceq y c_rbrack then r else rest | [] => rest end) `suffix_of` p) as Hs.
  { intros cp Hcp. pose proof (class_loop_suffix (length cp) c false cp) as H'.
    destruct (class_loop _ _ _ _) as [hit rest]; cbn in *.
    etrans; [|exact Hcp]. etrans; [|exact H']. repeat case_match; repeat first [done | apply suffix_cons_r]. }
  destruct p as [|y p2]; [apply (Hs []); done|].
  destruct (ceq y c_caret); [specialize (Hs p2)|specialize (Hs (y :: p2))];
    destruct (class_loop _ _ _ _) as [hit rest]; apply Hs; repeat first [done | apply suffix_cons_r].
Qed.

(** The pattern left after [k] one-character elements. *)
Fixpoint walk (k : nat) (p : bytes) : option bytes :=
  match k, p with
  | O, _ => Some p
  | S _, [] => None
  | S k, x :: _ => if ceq x c_star then None else walk k (glob_one p c_zero).2
  end.

Lemma walk_snoc k q x p c :
  walk k q = Some (x :: p) -> x <> c_star -> walk (S k) q = Some (glob_one (x :: p) c).2.
Proof.
  revert q. induction k as [|k IH]; intros q Hq Hx.
  - cbn in Hq. simplify_eq. cbn [walk]. rewrite (proj2 (ceq_false _ _) Hx).
    f_equal. apply glob_one_rest.
  - destruct q as [|y q]; [done|]. cbn [walk] in Hq.
    change (walk (S (S k)) (y :: q)) with (if ceq y c_star then None else walk (S k) (glob_one (y :: q) c_zero).2).
    destruct (ceq y c_star); [done|]. by apply IH.
Qed.

Lemma walk_matches k q p t : walk k q = Some p -> matches q t -> (k <= length t)%nat /\ matches p (drop k t).
Proof.
  revert q t. induction k as [|k IH]; intros q t Hw Hm.
  - cbn in Hw. simplify_eq. rewrite drop_0. split; [lia|done].
  - destruct q as [|x q]; [done|]. cbn [walk] in Hw. destruct (ceq x c_star) eqn:E; [done|].
    apply ceq_false in E. inversion Hm as [| | |? ? c s rest _ H1 Hr]; subst; try done.
    rewrite (glob_one_rest _ c_zero c), H1 in Hw. destruct (IH _ _ Hw Hr). cbn. split; [lia|done].
Qed.

(** ** Stars *)

Lemma matches_star_iff p t :
  matches (c_star :: p) t <-> exists j, (j <= length t)%nat /\ matches p (drop j t).
Proof.
  split.
  - remember (c_star :: p) as q. intros H. induction H as [|p' s H _|p' c s H IH|x p' c s rest Hx]; simplify_eq.
    + exists 0%nat. rewrite drop_0. split; [lia|done].
    + destruct (IH eq_refl) as (j & Hj & Hm). exists (S j). cbn. split; [lia|done].
  - intros (j & Hj & Hm). revert t Hj Hm. induction j as [|j IH]; intros t Hj Hm.
    + rewrite drop_0 in Hm. by apply m_star_none.
    + destruct t as [|c t]; cbn in *; [lia|]. apply m_star_more, IH; [lia|done].
Qed.

Lemma matches_star_star p t : matches (c_star :: c_star :: p) t <-> matches (c_star :: p) t.
Proof.
  split; [|apply m_star_none]. rewrite !matches_star_iff.
  intros (j & Hj & (k & Hk & Hm)%matches_star_iff). rewrite length_drop in Hk.
  exists (j + k)%nat. rewrite drop_drop in Hm. split; [lia|done].
Qed.

Lemma collapse_spec p :
  exists q, collapse (c_star :: p) = c_star :: q /\ (forall r, head q = Some r -> r <> c_star) /\
    (length q <= length p)%nat /\ (q `suffix_of` p) /\
    (forall t, matches (c_star :: p) t <-> matches (c_star :: q) t).
Proof.
  induction p as [|y p IH]; [by exists []|].
  change (collapse (c_star :: y :: p)) with (if ceq y c_star then collapse (y :: p) else c_star :: y :: p).
  destruct (ceq y c_star) eqn:E.
  - apply ceq_true in E. subst. destruct IH as (q & -> & H1 & H2 & H3 & H4). exists q.
    split_and!; [done|done|cbn; lia|by apply suffix_cons_r|].
    intros t. by rewrite matches_star_star.
  - apply ceq_false in E. exists (y :: p). split_and!; try done. by intros r [= <-].
Qed.

(** ** The backtracking search *)

Section search.
Context (s : bytes) (Hlen : Z.of_nat (length s) < 2 ^ 64).

(** The cursors agree with the subject, and the pattern cursor is where the
    one-character elements after the last star lead. *)
Definition glob_ok (g : Glob) : Prop :=
  (gs g <= length s)%nat /\ slen g = Z.of_nat (length s - gs g) /\
  match star g with
  | None => True
  | Some (q, i, n) =>
      (i <= gs g)%nat /\ n = Z.of_nat (length s - i) /\ walk (gs g - i) q = Some (gp g)
  end.

(** A match can still be found by moving the last star on. *)
Definition later (g : Glob) : Prop :=
  match star g with
  | None => False
  | Some (q, i, _) => (i < length s)%nat /\ matches (c_star :: q) (drop (S i) s)
  end.

Definition hope (g : Glob) : Prop := matches (gp g) (drop (gs g) s) \/ later g.

(** Iterations left: a retry moves the star, a match moves the subject. *)
Definition match_budget (g : Glob) : nat :=
  let L := length s in
  (match star g with None => L + 1 | Some (_, i, _) => L - i end) * (L + 2) + (L - gs g) + 1.

Lemma matches_split p i :
  (i <= length s)%nat -> matches (c_star :: p) (drop i s) ->
  matches p (drop i s) \/ ((i < length s)%nat /\ matches (c_star :: p) (drop (S i) s)).
Proof.
  intros Hi (j & Hj & Hm)%matches_star_iff. rewrite length_drop in Hj. rewrite drop_drop in Hm.
  destruct j as [|j]; [left; by rewrite Nat.add_0_r in Hm|right].
  split; [lia|]. apply matches_star_iff. exists j. rewrite length_drop, drop_drop. split; [lia|].
  by replace (S i + j)%nat with (i + S j)%nat by lia.
Qed.

(** Opening a new star keeps every match the old star promised. *)
Lemma later_star g q :
  glob_ok g -> gp g = c_star :: q -> hope g -> matches (c_star :: q) (drop (gs g) s).
Proof.
  intros (Hg & _ & Hst) Hp [Hm|Hl]; [by rewrite Hp in Hm|]. unfold later in Hl.
  destruct (star g) as [[[q0 i] n]|]; [|done]. destruct Hl as [Hi Hm], Hst as (Hig & _ & Hw).
  apply matches_star_iff in Hm as (j & Hj & Hm). rewrite length_drop in Hj. rewrite drop_drop in Hm.
  apply (walk_matches _ _ _ _ Hw) in Hm as [Hk Hm]. rewrite length_drop in Hk. rewrite drop_drop, Hp in Hm.
  apply matches_star_iff in Hm as (j' & Hj' & Hm). rewrite length_drop in Hj'. rewrite drop_drop in Hm.
  apply matches_star_iff. exists (S i + j + (gs g - i) + j' - gs g)%nat.
  rewrite length_drop, drop_drop. split; [lia|].
  by replace (gs g + (S i + j + (gs g - i) + j' - gs g))%nat with (S i + j + (gs g - i) + j')%nat by lia.
Qed.

Lemma star_loop_plain f g : (forall r, head (gp g) = Some r -> r <> c_star) -> star_loop f g = Some g.
Proof.
  intros H. destruct f; [done|]. cbn [star_loop]. destruct (gp g) as [|x p]; [done|].
  by rewrite (proj2 (ceq_false _ _) (H x eq_refl)).
Qed.

Lemma star_loop_eq g :
  star_loop (S (length (gp g))) g =
    match gp g with
    | x :: p =>
        if ceq x c_star then
          match tail (collapse (gp g)) with
          | [] => None
          | q => Some (mkGlob q (gs g) (slen g) (Some (q, gs g, slen g)))
          end
        else Some g
    | [] => Some g
    end.
Proof.
  cbn [star_loop]. destruct (gp g) as [|x p] eqn:Hp; [done|].
  destruct (ceq x c_star) eqn:E; [|done]. apply ceq_true in E. subst.
  destruct (collapse_spec p) as (q & -> & Hq & _). cbn [tail].
  destruct q as [|y q]; [done|]. by apply star_loop_plain.
Qed.

Lemma star_loop_spec g g' :
  glob_ok g -> hope g -> star_loop (S (length (gp g))) g = Some g' ->
  glob_ok g' /\ hope g' /\ (match_budget g' <= match_budget g)%nat /\ (forall r, head (gp g') = Some r -> r <> c_star).
Proof.
  intros Hok Hh. rewrite star_loop_eq. destruct (gp g) as [|x p] eqn:Hp.
  { intros [= <-]. rewrite Hp. done. }
  destruct (ceq x c_star) eqn:E; [apply ceq_true in E|apply ceq_false in E].
  2:{ intros [= <-]. rewrite Hp. split_and!; try done. by intros r [= <-]. }
  subst x. pose proof (later_star _ _ Hok Hp Hh) as Hm.
  destruct (collapse_spec p) as (q & -> & Hq & _ & _ & Hpq). cbn [tail].
  rewrite Hpq in Hm. destruct Hok as (Hg & Hs & Hst).
  destruct q as [|y q]; [done|]. intros [= <-]. split_and!.
  - unfold glob_ok. cbn. rewrite Nat.sub_diag. split_and!; try done; lia.
  - unfold hope, later. cbn. by apply matches_split.
  - unfold match_budget. cbn [star gs]. destruct (star g) as [[[q0 i] n]|].
    + destruct Hst as (Hi & _). apply Nat.add_le_mono_r, Nat.add_le_mono_r, Nat.mul_le_mono_r. lia.
    + apply Nat.add_le_mono_r, Nat.add_le_mono_r, Nat.mul_le_mono_r. lia.
  - exact Hq.
Qed.

Lemma backtrack_spec g :
  glob_ok g -> later g ->
  exists g', backtrack g = Some g' /\ glob_ok g' /\ hope g' /\ (match_budget g' < match_budget g)%nat.
Proof.
  intros (Hg & Hs & Hst) Hl. unfold later in Hl. unfold backtrack, match_budget.
  destruct (star g) as [[[q i] n]|]; [|done]. destruct Hl as [Hi Hm], Hst as (Hig & -> & Hw).
  eexists. split; [reflexivity|]. cbn [star gs]. split_and!.
  - unfold glob_ok. cbn. rewrite Nat.sub_diag.
    assert (u64 (Z.of_nat (length s - i) - 1) = Z.of_nat (length s - S i)) as ->.
    { unfold u64. rewrite Z.mod_small; lia. }
    split_and!; try done; lia.
  - unfold hope, later. cbn [gp gs star]. apply matches_split; [lia|done].
  - replace (length s - i)%nat with (S (length s - S i)) by lia. cbn [Nat.mul]. lia.
Qed.

(** A search that can still succeed does succeed, within its match_budget. *)
Lemma glob_loop_complete f g :
  glob_ok g -> hope g -> (match_budget g <= f)%nat -> glob_loop f s g = GDone true.
Proof.
  revert g. induction f as [|f IH]; intros g Hok Hh Hb; [unfold match_budget in Hb; lia|].
  cbn [glob_loop]. destruct (star_loop _ g) as [g'|] eqn:Es; [|done].
  apply star_loop_spec in Es as (Hok' & Hh' & Hb' & Hns); [|done..].
  assert (match_budget g' <= S f)%nat as Hb2 by lia. clear g Hok Hh Hb Hb'. rename g' into g.
  assert (later g -> match backtrack g with Some g' => glob_loop f s g' | None => GDone false end = GDone true)
    as Hretry.
  { intros (g' & -> & H1 & H2 & H3)%backtrack_spec; [|done]. apply IH; try done. lia. }
  pose proof Hok' as (Hg & Hs & Hst). rewrite Hs.
  destruct (Nat.eq_dec (gs g) (length s)) as [He|He].
  - replace (Z.of_nat (length s - gs g) =? 0) with true by (symmetry; apply Z.eqb_eq; lia).
    cbn [orb andb]. case_bool_decide as Hp; [done|]. apply Hretry.
    destruct Hh' as [Hm|]; [|done]. rewrite drop_ge in Hm by lia.
    inversion Hm as [Hx|p0 ? ? Hx| |]; subst; [by rewrite <- Hx in Hp|].
    exfalso. eapply Hns; [by rewrite <- Hx|done].
  - replace (Z.of_nat (length s - gs g) =? 0) with false by (symmetry; apply Z.eqb_neq; lia).
    destruct (lookup_lt_is_Some_2 s (gs g)) as [c Hc]; [lia|].
    unfold hope in Hh'. rewrite (drop_S _ _ _ Hc) in Hh'.
    cbn [orb andb]. destruct (gp g) as [|x p] eqn:Hp.
    { rewrite bool_decide_true by done. apply Hretry.
      destruct Hh' as [Hm|]; [inversion Hm|done]. }
    rewrite bool_decide_false by done.
    rewrite (bool_decide_false (length s <= gs g)%nat) by lia. rewrite andb_false_r, Hc. cbn [default from_option id].
    specialize (Hns x eq_refl).
    destruct (glob_one (x :: p) c) as [m rest] eqn:E1. destruct m.
    + apply IH.
      * split_and!; cbn [gs slen star gp]; [lia| |].
        { unfold u64. rewrite Z.mod_small; lia. }
        destruct (star g) as [[[q i] n]|]; [|done]. destruct Hst as (Hi & Hn & Hw).
        split_and!; [lia|done|]. replace (S (gs g) - i)%nat with (S (gs g - i)) by lia.
        rewrite (walk_snoc _ _ _ _ c Hw) by done. by rewrite E1.
      * destruct Hh' as [Hm|Hl]; [left|by right]. cbn [gp gs].
        inversion Hm as [| | |? ? ? ? rest' ? Hone]; subst; try done. by rewrite E1 in Hone; simplify_eq.
      * unfold match_budget in *. cbn [star gs]. destruct (star g) as [[[q i] n]|]; lia.
    + apply Hretry. destruct Hh' as [Hm|Hl]; [|done].
      inversion Hm as [| | |? ? ? ? rest' ? Hone]; subst; try done. by rewrite E1 in Hone; simplify_eq.
Qed.

(** Once a star has been passed, the loop has no exit that rejects. *)
Lemma star_loop_keeps f g g' : star_loop f g = Some g' -> star g <> None -> star g' <> None.
Proof.
  revert g. induction f as [|f IH]; cbn; intros g H Hs; [by simplify_eq|].
  repeat (case_match; simplify_eq; try done). eapply IH; [done|]. done.
Qed.

Lemma star_loop_opens g g' :
  star_loop (S (length (gp g))) g = Some g' -> head (gp g) = Some c_star -> star g' <> None.
Proof.
  rewrite star_loop_eq. destruct (gp g) as [|x p]; [done|]. intros H [= ->].
  rewrite (proj2 (ceq_true _ _) eq_refl) in H. cbv iota in H. destruct (tail (collapse (c_star :: p))) as [|y q]; [done|]. injection H as <-. done.
Qed.

Lemma glob_loop_star_never_rejects f g :
  star g <> None \/ head (gp g) = Some c_star -> glob_loop f s g <> GDone false.
Proof.
  revert g. induction f as [|f IH]; intros g Hs; cbn [glob_loop]; [done|].
  destruct (star_loop _ g) as [g'|] eqn:Es; [|done].
  assert (star g' <> None) as Hs' by (destruct Hs; eauto using star_loop_keeps, star_loop_opens).
  assert (match backtrack g' with Some g' => glob_loop f s g' | None => GDone false end <> GDone false) as Hretry.
  { unfold backtrack. destruct (star g') as [[[q i] n]|] eqn:E; [|done]. apply IH. by left. }
  repeat case_match; try done. apply IH. by left.
Qed.

Lemma tame_suffix p q : tame p -> q `suffix_of` p -> tame q.
Proof.
  intros H [r ->] i Hi. specialize (H (length r + i)%nat). rewrite lookup_app_r in H by lia.
  replace (length r + i - length r)%nat with i in H by lia. specialize (H Hi). rewrite length_app in H. lia.
Qed.

Lemma matches_lone_star t : matches [c_star] t.
Proof. induction t; [apply m_star_none; constructor|by apply m_star_more]. Qed.

(** With no star in the pattern but at its end the loop is the plain
    comparison. *)
Lemma glob_loop_plain f g :
  glob_ok g -> star g = None -> tame (gp g) -> (length s - gs g < f)%nat ->
  exists b, glob_loop f s g = GDone b /\ (b = true <-> matches (gp g) (drop (gs g) s)).
Proof.
  revert g. induction f as [|f IH]; intros g (Hg & Hs & _) Hst Hp Hf; [lia|].
  cbn [glob_loop]. destruct (decide (head (gp g) = Some c_star)) as [Hlone|Hlone].
  { assert (gp g = [c_star]) as Hgp.
    { destruct (gp g) as [|x p]; [done|]. injection Hlone as ->. specialize (Hp 0%nat eq_refl). destruct p; [done|]. cbn in Hp. lia. }
    exists true. split; [by rewrite star_loop_eq, Hgp|]. split; [|done]. intros _. rewrite Hgp. apply matches_lone_star. }
  rewrite star_loop_plain.
  2:{ intros r Hr ->. done. }
  assert (forall x p, gp g = x :: p -> x <> c_star) as Hx.
  { intros x p Heq ->. by rewrite Heq in Hlone. }
  unfold backtrack. rewrite Hst, Hs. destruct (Nat.eq_dec (gs g) (length s)) as [He|He].
  - replace (Z.of_nat (length s - gs g) =? 0) with true by (symmetry; apply Z.eqb_eq; lia).
    rewrite (drop_ge s) by lia. cbn [orb andb]. destruct (gp g) as [|x p] eqn:Hgp.
    + rewrite bool_decide_true by done. exists true. by split; [|split; [intros; constructor|]].
    + rewrite bool_decide_false by done. exists false. split; [done|]. split; [done|].
      intros Hm. inversion Hm; subst. by destruct (Hx c_star p eq_refl).
  - replace (Z.of_nat (length s - gs g) =? 0) with false by (symmetry; apply Z.eqb_neq; lia).
    destruct (lookup_lt_is_Some_2 s (gs g)) as [c Hc]; [lia|]. rewrite (drop_S _ _ _ Hc).
    cbn [orb andb]. destruct (gp g) as [|x p] eqn:Hgp.
    { rewrite bool_decide_true by done. exists false. split; [done|]. split; [done|]. intros Hm. inversion Hm. }
    rewrite bool_decide_false by done.
    rewrite (bool_decide_false (length s <= gs g)%nat) by lia. rewrite andb_false_r, Hc. cbn [default from_option id].
    specialize (Hx x p eq_refl). pose proof (glob_one_suffix x p c) as Hsuf.
    destruct (glob_one (x :: p) c) as [[] rest] eqn:E1.
    + edestruct (IH (mkGlob rest (S (gs g)) (u64 (Z.of_nat (length s - gs g) - 1)) None)) as (b & -> & Hb).
      * split_and!; cbn; [lia| |done]. unfold u64. rewrite Z.mod_small; lia.
      * done.
      * cbn. eapply tame_suffix; [|exact Hsuf]. eapply tame_suffix; [exact Hp|]. by apply suffix_cons_r.
      * cbn. lia.
      * exists b. split; [done|]. rewrite Hb. cbn [gp gs]. split; intros Hm.
        -- by eapply m_one.
        -- inversion Hm as [| | |? ? ? ? rest' ? Hone]; subst; try done. by rewrite E1 in Hone; simplify_eq.
    + exists false. split; [done|]. split; [done|]. intros Hm.
      inversion Hm as [| | |? ? ? ? rest' ? Hone]; subst; try done. by rewrite E1 in Hone; simplify_eq.
Qed.
End search.

(** glob_match finds every match.  If the subject matches the pattern in
    the declarative sense, then a number of iterations quadratic in the
    subject's length is enough for the backtracking loop to return true, so
    KEYS and SCAN MATCH miss no key. *)
Theorem glob_match_complete (p s : bytes) (fuel : nat)
    (Hlen : Z.of_nat (length s) < 2 ^ 64) (Hm : matches p s)
    (Hf : ((length s + 2) * (length s + 2) <= fuel)%nat) :
  glob_match fuel p s = GDone true.
Proof.
  apply glob_loop_complete; [done| | |].
  - split_and!; cbn; [lia|lia|done].
  - left. exact Hm.
  - unfold match_budget. cbn [glob_start star gs]. nia.
Qed.

Lemma glob_match_complete_witness : glob_match 49 (bs "h*[l-p]?") (bs "hello") = GDone true.
Proof.
  apply (glob_match_complete (bs "h*[l-p]?") (bs "hello") 49); [reflexivity| |cbn; lia].
  apply (m_one _ _ _ _ (bs "*[l-p]?")); [done|reflexivity|].
  apply m_star_more, m_star_more, m_star_none.
  apply (m_one _ _ _ _ (bs "?")); [done|reflexivity|].
  apply (m_one _ _ _ _ []); [done|reflexivity|]. constructor.
Defined.

(** For a pattern with no ['*'] but at its end glob_match decides the match:
    within one iteration per character and one more it returns true exactly
    when the subject matches, and false otherwise. *)
Theorem glob_match_plain (p s : bytes) (Hlen : Z.of_nat (length s) < 2 ^ 64) (Hp : tame p) :
  exists b, glob_match (S (length s)) p s = GDone b /\ (b = true <-> matches p s).
Proof.
  destruct (glob_loop_plain s Hlen (S (length s)) (glob_start p s)) as (b & Hb & Hiff).
  - split_and!; cbn; [lia|lia|done].
  - done.
  - exact Hp.
  - cbn. lia.
  - exists b. split; [exact Hb|]. rewrite Hiff. cbn [glob_start gp gs]. by rewrite drop_0.
Qed.

Lemma glob_match_plain_witness :
  exists b, glob_match 3 (bs "[a-c]*") (bs "d1") = GDone b /\ (b = true <-> matches (bs "[a-c]*") (bs "d1")).
Proof.
  apply (glob_match_plain (bs "[a-c]*") (bs "d1")); [reflexivity|]. apply (prefix_tame (bs "[a-c]")).
  by apply (bool_decide_eq_true_1 (c_star ∉ bs "[a-c]")).
Defined.

(** A pattern that opens with ['*'] is never rejected: whatever the
    subject and the number of iterations, glob_match does not return false.
    The saved length wraps from 0 to SIZE_MAX instead: on ["*a"] and ["b"],
    which do not match, the loop reads past the subject, and on ["*??*"] and
    ["a"] it reports a match that is not one. *)
Theorem glob_match_star_mismatch :
  (forall fuel p s, glob_match fuel (c_star :: p) s <> GDone false) /\
  (glob_match 4 (bs "*a") (bs "b") = GOob /\ ~ matches (bs "*a") (bs "b")) /\
  (glob_match 8 (bs "*??*") (bs "a") = GDone true /\ ~ matches (bs "*??*") (bs "a")).
Proof.
  split; [|split].
  - intros fuel p s. apply glob_loop_star_never_rejects. by right.
  - split; [reflexivity|]. intros (j & _ & Hm)%matches_star_iff.
    destruct j as [|[|j]]; vm_compute in Hm; inversion Hm; discriminate.
  - split; [reflexivity|]. intros (j & _ & Hm)%matches_star_iff.
    destruct j as [|[|j]]; vm_compute in Hm; inversion Hm as [| | |? ? ? ? ? _ H1 Hm']; subst;
      vm_compute in H1; simplify_eq; inversion Hm'.
Qed.
