(* ===== verification/Keys.v ===== *)
(** * The key-space commands (src/src/commands/commands.cpp, 890-1170, 2746-2810, 3112-3345)

    DEL, KEYS, SCAN, the EXPIRE and TTL families, EXISTS, TYPE, PERSIST,
    DBSIZE, FLUSHALL, RANDOMKEY, RENAME, TOUCH. *)
From S2P Require Import Prelude Buffer Resp StdString Deque Hashtable HashMap Heap Score ZSet HashSet State World Args Strings Scan Glob.

(** [hm_delete(&g_data.db, &lk.node, &entry_eq)] with a lookup key. *)
Definition db_delete (k : bytes) (s : Keyspace) : option bytes * Keyspace :=
  let '(r, h) := hm_delete (db s) (str_hash k) (key_eq id k) in (r, with_db h s).

Fixpoint del_loop (keys : list bytes) (deleted : Z) : M Z :=
  match keys with
  | [] => mret deleted
  | k :: l =>
      node ← ks_get (fun _ => db_delete k);
      match node with
      | Some ent => on_ks (fun now => entry_del now ent) ;; del_loop l (deleted + 1)
      | None => del_loop l deleted
      end
  end.

Definition do_del (cmd : list sstr) : M () :=
  deleted ← del_loop (s_data <$> tail cmd) 0;
  (if 0 <? deleted then dirty (u32 deleted) else mret ()) ;;
  r_int deleted.

(** The iterations granted to one match; more than any match needs. *)
Definition glob_fuel (s : bytes) : nat := (length s + 2) * (length s + 2).
Definition glob (p s : bytes) : Outcome := glob_match (glob_fuel s) p s.

(** [cb_keys_collect] over the keys; [None] when a match leaves its subject. *)
Fixpoint keys_collect (pattern : bytes) (keys : list bytes) : option (list bytes) :=
  match keys with
  | [] => Some []
  | k :: l =>
      match glob pattern k with
      | GDone b => hits ← keys_collect pattern l; Some (if b then k :: hits else hits)
      | _ => None
      end
  end.

(** [resp_arr(out, n)] and the elements as bulk strings. *)
Definition r_strs (l : list bytes) : M () :=
  r_arr (u32 (Z.of_nat (length l))) ;; for_each l r_str.

(** The result is [None] when the glob matcher has no defined outcome. *)
Definition do_keys (cmd : list sstr) : M (option ()) :=
  h ← gets (fun w => db (ks w));
  if (length cmd <? 2)%nat || bool_decide (argd cmd 1 = bs "*") then
    r_arr (u32 (Z.of_nat (hm_size h))) ;; for_each (hm_foreach h) r_str ;; mret (Some ())
  else
    match keys_collect (argd cmd 1) (hm_foreach h) with
    | None => mret None
    | Some hits => r_strs hits ;; mret (Some ())
    end.

(** [KeyStats], the totals of INFO. *)
Definition get_keys_stats (s : Keyspace) : Z * Z :=
  (u32 (Z.of_nat (hm_size (db s))), u32 (Z.of_nat (length (heap s)))).

(** The part of EXPIRE and EXPIREAT after the argument: set or delete. *)
Definition apply_ttl (k : bytes) (ttl_ms : Z) : M () :=
  if ttl_ms <=? 0 then remove k ;; dirty 1 ;; r_int 1
  else set_ttl k ttl_ms ;; dirty 1 ;; r_int 1.

Definition expire_generic (cmd : list sstr) (mult : Z) : M () :=
  match str2int (argd cmd 2) with
  | None => r_err (bs "ERR invalid TTL")
  | Some ttl =>
      let ttl_ms := i64 (ttl * mult) in
      node ← find_live (argd cmd 1);
      match node with None => r_int 0 | Some ent => apply_ttl ent ttl_ms end
  end.

Definition do_pexpire (cmd : list sstr) : M () := expire_generic cmd 1.
Definition do_expire (cmd : list sstr) : M () := expire_generic cmd 1000.

Definition expireat_generic (cmd : list sstr) (mult : Z) : M () :=
  match str2int (argd cmd 2) with
  | None => r_err (bs "ERR invalid expire time")
  | Some when =>
      let abs_ms := i64 (when * mult) in
      node ← find_live (argd cmd 1);
      match node with
      | None => r_int 0
      | Some ent => v ← gets env; apply_ttl ent (i64 (abs_ms - i64 (wall v)))
      end
  end.

Definition do_expireat (cmd : list sstr) : M () := expireat_generic cmd 1000.
Definition do_pexpireat (cmd : list sstr) : M () := expireat_generic cmd 1.

(** Whether the entry has a TTL, and [g_data.heap\[ent->heap_idx\].val]. *)
Definition ttl_val (k : bytes) : M (option Z) :=
  gets (fun w => match ents (ks w) !! k with
                 | Some e => if entry_has_ttl e then Some (val (heap (ks w) !!! Z.to_nat (heap_idx e))) else None
                 | None => None
                 end).

Definition ttl_generic (cmd : list sstr) (div : Z) : M () :=
  node ← find_live (argd cmd 1);
  match node with
  | None => r_int (-2)
  | Some ent =>
      expire_at ← ttl_val ent;
      match expire_at with
      | None => r_int (-1)
      | Some expire_at =>
          v ← gets env;
          let remaining := if now v <? expire_at then i64 (expire_at - now v) else 0 in
          r_int (if 1 <? div then i64 (remaining + div / 2) / div else remaining)
      end
  end.

Definition do_ttl (cmd : list sstr) : M () := ttl_generic cmd 1.
Definition do_ttl_seconds (cmd : list sstr) : M () := ttl_generic cmd 1000.

(** EXISTS and TOUCH: count the live keys, repetitions included. *)
Fixpoint count_live (keys : list bytes) (count : Z) : M Z :=
  match keys with
  | [] => mret count
  | k :: l =>
      node ← find_live k;
      count_live l (match node with Some _ => count + 1 | None => count end)
  end.

Definition do_exists (cmd : list sstr) : M () := n ← count_live (s_data <$> tail cmd) 0; r_int n.
Definition do_touch (cmd : list sstr) : M () := n ← count_live (s_data <$> tail cmd) 0; r_int n.

Definition type_name (t : EType) : bytes :=
  match t with
  | T_STR => bs "string" | T_ZSET => bs "zset" | T_DLIST => bs "list" | T_HASH => bs "hash" | T_SET => bs "set"
  end.

Definition do_type (cmd : list sstr) : M () :=
  node ← find_live (argd cmd 1);
  match node with
  | None => r_simple (bs "none")
  | Some ent =>
      e ← entry_at ent;
      r_simple (match e with Some e => type_name (type e) | None => bs "none" end)
  end.

Definition do_persist (cmd : list sstr) : M () :=
  node ← find_live (argd cmd 1);
  match node with
  | None => r_int 0
  | Some ent =>
      t ← ttl_val ent;
      match t with
      | None => r_int 0
      | Some _ => set_ttl ent (-1) ;; dirty 1 ;; r_int 1
      end
  end.

(** ** SCAN *)

(** The option pairs of [cmd\[2..\]]: count and pattern, or the error text. *)
Fixpoint scan_opts (fuel : nat) (l : list bytes) (count : Z) (pattern : option bytes) : bytes + (Z * option bytes) :=
  match fuel, l with
  | S f, o :: v :: l' =>
      if arg_ieq o (bs "count") then
        match str2int v with
        | Some n => if n <=? 0 then inl (bs "ERR invalid count") else scan_opts f l' n pattern
        | None => inl (bs "ERR invalid count")
        end
      else if arg_ieq o (bs "match") then scan_opts f l' count (Some v)
      else inl MSG_SYNTAX
  | _, _ => inr (count, pattern)
  end.

(** [cb_scan]: expired keys are skipped without being removed. *)
Definition scan_keep (now : Z) (s : Keyspace) (k : bytes) : bool :=
  match ents s !! k with
  | Some e => if entry_has_ttl e then negb (val (heap s !!! Z.to_nat (heap_idx e)) <=? now) else true
  | None => false
  end.

Definition scan_filter (pattern : option bytes) (keys : list bytes) : option (list bytes) :=
  match pattern with None => Some keys | Some p => keys_collect p keys end.

(** The cursor SCAN answers, and the live keys it has visited. *)
Definition scan_page (w : World) (cursor count : Z) : Z * list bytes :=
  let '(next, nodes) := hm_scan (db (ks w)) cursor count in
  (next, filter (fun k => scan_keep (now (env w)) (ks w) k = true) nodes).

Definition do_scan (cmd : list sstr) : M (option ()) :=
  let fail m := r_err m ;; mret (Some ()) in
  match str2int (argd cmd 1) with
  | None => fail (bs "ERR invalid cursor")
  | Some cursor =>
      if cursor <? 0 then fail (bs "ERR invalid cursor")
      else
        match scan_opts (length cmd) (s_data <$> drop 2 cmd) 10 None with
        | inl m => fail m
        | inr (count, pattern) =>
            w ← gets id;
            let '(next, live) := scan_page w cursor count in
            match scan_filter pattern live with
            | None => mret None
            | Some keys =>
                r_arr 2 ;; r_str (print_u64 next) ;; r_strs keys ;; mret (Some ())
            end
        end
  end.

(** ** DBSIZE, FLUSHALL, RANDOMKEY *)

Definition do_dbsize (cmd : list sstr) : M () :=
  s ← gets ks; r_int (Z.of_nat (hm_size (db s))).

(** FLUSHALL; [watch_touch_all] concerns connections only. *)
Definition do_flushall (cmd : list sstr) : M () :=
  l ← gets (fun w => hm_foreach (db (ks w)));
  on_ks (fun _ s => with_db (hm_clear (db s)) s) ;;
  for_each l (fun e => on_ks (fun now => entry_del now e)) ;;
  dirty 1 ;;
  r_ok.

(** [cb_randomkey] over the entries: reservoir sampling of one key. *)
Fixpoint reservoir (l : list bytes) (seen : Z) (key : bytes) : M bytes :=
  match l with
  | [] => mret key
  | k :: l' =>
      r ← rand_idx (seen + 1);
      reservoir l' (seen + 1) (if r =? 0 then k else key)
  end.

Definition do_randomkey (cmd : list sstr) : M () :=
  h ← gets (fun w => db (ks w));
  if (hm_size h =? 0)%nat then r_nil
  else k ← reservoir (hm_foreach h) 0 []; r_str k.

(** ** RENAME *)

(** [sent->key = dst; hm_insert(...)]: the entry object moves to its new name,
    and with it the [ref] of its heap item. *)
Definition retarget (src dst : bytes) (x : HeapItem bytes) : HeapItem bytes :=
  if bool_decide (ref x = src) then mkItem (val x) dst else x.

Definition move_entry (src : bytes) (dst : bytes) (s : Keyspace) : Keyspace :=
  match ents s !! src with
  | None => s
  | Some e =>
      let h := (hm_delete (db s) (str_hash src) (key_eq id src)).2 in
      mkKS (hm_insert h (node_of id dst))
        (<[dst := with_ekey (s_assign (ekey e) dst) e]> (delete src (ents s)))
        (retarget src dst <$> heap s) (used_memory s) (events s)
  end.

Definition rename_key (src dst : bytes) (nx : bool) : M Z :=
  snode ← find_live src;
  match snode with
  | None => mret (-1)
  | Some sent =>
      if bool_decide (src = dst) then mret (if nx then 0 else 1)
      else
        dnode ← find_live dst;
        match dnode with
        | Some dent =>
            if nx then mret 0
            else remove dent ;; on_ks (fun _ => move_entry sent dst) ;; reaccount dst ;; mret 1
        | None => on_ks (fun _ => move_entry sent dst) ;; reaccount dst ;; mret 1
        end
  end.

Definition do_rename (cmd : list sstr) : M () :=
  rc ← rename_key (argd cmd 1) (argd cmd 2) false;
  if rc =? -1 then r_err (bs "ERR no such key") else dirty 1 ;; r_ok.

Definition do_renamenx (cmd : list sstr) : M () :=
  rc ← rename_key (argd cmd 1) (argd cmd 2) true;
  if rc =? -1 then r_err (bs "ERR no such key")
  else (if rc =? 1 then dirty 1 else mret ()) ;; r_int rc.

(** ** DEL *)

Lemma db_delete_run k s r s' :
  ks_ok s -> db_delete k s = (r, s') -> s' = db_unlink k s /\ r = (fun _ => k) <$> ents s !! k.
Proof.
  intros Hs H. unfold db_delete in H. destruct (hm_delete _ _ _) as [r' h] eqn:E. injection H as <- <-.
  destruct (hm_delete_map id _ _ _ _ (ks_keyed s Hs) E) as (_ & _ & _ & ->).
  unfold db_unlink. rewrite E. split; [done|]. apply (ks_index s Hs).
Qed.

Lemma db_unlink_absent k s :
  ks_ok s -> ents s !! k = None ->
  ks_ok (db_unlink k s) /\ ents (db_unlink k s) = ents s /\ heap (db_unlink k s) = heap s.
Proof.
  intros Hs Hk. destruct (db_unlink_spec s k Hs) as (H1 & H2 & H3 & H4 & H5). split_and!; [|done..].
  assert (to_map id (db s) !! k = None) as Hn by (rewrite (ks_index s Hs), Hk; done).
  rewrite delete_id in H2 by done. destruct Hs as [K1 K2 K3 K4 K5 K6 K7].
  split; try rewrite H3; try rewrite H4; try rewrite H5; try done. intros j. rewrite H2. apply K2.
Qed.

(** The view without the keys of a list. *)
Definition without (ks : list bytes) (v : gmap bytes (AVal * option Z)) : gmap bytes (AVal * option Z) :=
  foldl (fun v k => delete k v) v ks.

Lemma without_lookup l v k : without l v !! k = if decide (k ∈ l) then None else v !! k.
Proof.
  revert v. induction l as [|a l IH]; intros v; cbn [without foldl].
  - rewrite decide_False; [done|]. by apply not_elem_of_nil.
  - fold (without l (delete a v)). rewrite IH. destruct (decide (k ∈ l)) as [Hin|Hnin].
    + rewrite decide_True; [done|]. by right.
    + destruct (decide (a = k)) as [<-|Hne].
      * rewrite lookup_delete_eq, decide_True; [done|]. by left.
      * rewrite lookup_delete_ne by done. rewrite decide_False; [done|]. by intros [->|]%elem_of_cons.
Qed.

Lemma del_loop_spec l d w d' w' :
  world_ok w -> del_loop l d w = (d', w') ->
  world_ok w' /\ quiet w w' /\ view w' = without l (view w) /\
  d' = d + Z.of_nat (base.size (dom (ents (ks w)) ∩ list_to_set l)).
Proof.
  revert d w. induction l as [|k l IH]; intros d w Hw H.
  { injection H as <- <-. cbn [list_to_set]. rewrite intersection_empty_r_L, size_empty.
    split_and!; [done|done|done|lia]. }
  cbn [del_loop] in H. unfold mbind, state_bind, ks_get in H. pose proof Hw as (Hok & Hacc & Hwf).
  destruct (db_delete k (ks w)) as [r s] eqn:E. apply db_delete_run in E as [-> ->]; [|done].
  destruct (ents (ks w) !! k) as [e|] eqn:Ek; cbn in H.
  - destruct (remove_key_spec (ks w) (now (env w)) k Hok ltac:(by eexists)) as (R1 & _ & _ & _ & R5 & R6).
    destruct (view_remove w k Hok Hacc ltac:(by eexists)) as (_ & _ & V3).
    unfold on_ks, modify in H. cbn in H. fold (remove_key (now (env w)) k (ks w)) in H.
    apply IH in H as (H1 & H2 & H3 & ->); [|split_and!; [done|auto using accounted_weaken|done]].
    cbn [ks with_ks] in *. split_and!; [exact H1|exact H2| |].
    + rewrite H3. unfold view at 1. cbn. by rewrite V3.
    + rewrite R6, size_inter_cons by (by eapply elem_of_dom_2). lia.
  - destruct (db_unlink_absent k (ks w) Hok Ek) as (U1 & U2 & U3).
    assert (Hv : view (with_ks (db_unlink k (ks w)) w) = delete k (view w)).
    { rewrite delete_id by (apply lview_None; left; unfold vals; by rewrite lookup_fmap, Ek).
      apply lview_same; unfold vals, ttls; cbn [ks with_ks]; congruence. }
    apply IH in H as (H1 & H2 & H3 & ->).
    2:{ by split_and!. }
    split_and!; [exact H1|exact H2| |].
    + by rewrite H3, Hv.
    + change (ks (with_ks (db_unlink k (ks w)) w)) with (db_unlink k (ks w)). rewrite U2, inter_cons_absent; [done|]. by apply not_elem_of_dom.
Qed.

Lemma do_del_leaves cmd w w' :
  world_ok w -> writes_ok w -> do_del cmd w = ((), w') ->
  let keys := s_data <$> tail cmd in
  let n := Z.of_nat (base.size (dom (ents (ks w)) ∩ list_to_set keys)) in
  leaves w w' (fun b => resp_int b n) (without keys (view w)) n.
Proof.
  intros Hw Hn H. unfold do_del, mbind, state_bind in H. cbn zeta.
  destruct (del_loop _ 0 w) as [d w1] eqn:E.
  destruct (del_loop_spec _ _ _ _ _ Hw E) as (Hw1 & (Q1 & Q2 & Q3) & Hv & Hd). rewrite Z.add_0_l in Hd.
  rewrite <- Hd. destruct Hw as (_ & _ & Hwf). destruct (0 <? d) eqn:Ed; bool_facts; injection H as <-.
  - apply (leaves_intro w (with_writes (u32 (writes w1 + u32 d)) w1) (fun b => resp_int b d)); cbn; try done.
    + rewrite Q1. unfold u32. by rewrite Zplus_mod_idemp_r.
    + by apply wf_resp_int.
  - assert (d = 0) as -> by lia. apply (leaves_intro w w1 (fun b => resp_int b 0)); try done.
    + rewrite Q1, Z.add_0_r. done.
    + by apply wf_resp_int.
Qed.

(** ** Handlers that probe one key *)

Lemma find_live_ok w k r w' :
  world_ok w -> find_live k w = (r, w') ->
  world_ok w' /\ quiet w w' /\ view w' = view w /\
  match r with
  | Some k' => k' = k /\ exists e, ents (ks w') !! k = Some e /\ view w !! k = Some (aval (eval e), ttls (ks w') !! k)
  | None => view w !! k = None /\ ents (ks w') !! k = None
  end.
Proof.
  intros (H1 & H2 & H3) H. destruct (find_live_spec _ _ _ _ H1 H2 H) as (F1 & F2 & F3 & _ & F5 & _ & F7).
  pose proof F3 as (_ & Q2 & _). split_and!; try done. split_and!; try done. by rewrite Q2.
Qed.

(** Dropping expired keys first does not change what a handler leaves. *)
Lemma leaves_after w w1 w' rep v n :
  quiet w w1 -> leaves w1 w' rep v n -> leaves w w' rep v n.
Proof. intros (Q1 & Q2 & Q3). unfold leaves. by rewrite Q1, Q2, Q3. Qed.

Lemma r_int_leaves w z : world_ok w -> writes_ok w -> leaves w (r_int z w).2 (fun b => resp_int b z) (view w) 0.
Proof.
  intros Hw Hn. apply (leaves_reply w w (fun b => resp_int b z)); [done..|]. apply wf_resp_int. apply Hw.
Qed.

Lemma quiet_writes w w' : quiet w w' -> writes_ok w -> writes_ok w'.
Proof. intros (Q1 & _). unfold writes_ok. by rewrite Q1. Qed.

(** A new deadline for a live key. *)
Lemma view_set_ttl w k v t ttl :
  world_ok w -> view w !! k = Some (v, t) -> env_ok (env w) -> ttl < 0 \/ 0 < ttl <= INT64_MAX ->
  let s' := entry_set_ttl (now (env w)) k ttl (ks w) in
  ks_ok s' /\ accounted s' /\ lview (now (env w)) s' = <[k := (v, deadline (now (env w)) ttl)]> (view w).
Proof.
  intros (Hok & Hacc & _) Hv [Hnow _] Httl. apply lview_Some in Hv as (Hv & _ & _). cbn zeta.
  assert (is_Some (ents (ks w) !! k)) as Hk.
  { unfold vals in Hv. rewrite lookup_fmap in Hv. by destruct (ents (ks w) !! k). }
  destruct (entry_set_ttl_spec (ks w) (now (env w)) k ttl Hok Hk) as (S1 & S2 & _ & S4 & S5).
  split_and!; [done|auto|]. unfold deadline. unfold INT64_MAX in Httl.
  apply (lview_set _ (ks w)); try rewrite S5; destruct (ttl <? 0) eqn:E; bool_facts; try done; try (by lia).
  - by rewrite S2, insert_id.
  - by rewrite S2, insert_id.
  - intros j Hj. by rewrite lookup_delete_ne.
  - intros j Hj. by rewrite lookup_insert_ne.
  - by rewrite lookup_delete_eq.
  - rewrite lookup_insert_eq, u64_small; [done|lia].
Qed.

Lemma apply_ttl_leaves w k v t ttl w' :
  world_ok w -> view w !! k = Some (v, t) -> env_ok (env w) -> ttl <= INT64_MAX -> apply_ttl k ttl w = ((), w') ->
  leaves w w' (fun b => resp_int b 1)
    (if ttl <=? 0 then delete k (view w) else <[k := (v, Some (now (env w) + ttl))]> (view w)) 1.
Proof.
  intros Hw Hv Henv Httl H. unfold apply_ttl in H. pose proof Hw as (Hok & Hacc & Hwf).
  destruct (ttl <=? 0) eqn:E; bool_facts; cbn in H; injection H as <-.
  - destruct (view_remove w k Hok Hacc) as (R1 & R2 & R3).
    { apply lview_Some in Hv as (Hv & _). unfold vals in Hv. rewrite lookup_fmap in Hv. by destruct (ents (ks w) !! k). }
    apply (leaves_intro w (with_writes _ (with_ks _ w)) (fun b => resp_int b 1)); try done. by apply wf_resp_int.
  - destruct (view_set_ttl w k v t ttl Hw Hv Henv ltac:(by right)) as (R1 & R2 & R3).
    assert (deadline (now (env w)) ttl = Some (now (env w) + ttl)) as Hd.
    { unfold deadline. by rewrite (proj2 (Z.ltb_ge _ _)) by lia. }
    rewrite Hd in R3.
    apply (leaves_intro w (with_writes _ (with_ks _ w)) (fun b => resp_int b 1)); try done. by apply wf_resp_int.
Qed.

(** What EXPIRE and its relatives leave, for the remaining time [ttl]. *)
Definition after_ttl (w : World) (k : bytes) (ttl : Z) : gmap bytes (AVal * option Z) :=
  match view w !! k with
  | None => view w
  | Some (v, _) => if ttl <=? 0 then delete k (view w) else <[k := (v, Some (now (env w) + ttl))]> (view w)
  end.

Definition was_live (w : World) (k : bytes) : Z := match view w !! k with None => 0 | Some _ => 1 end.

Lemma probe_ttl_leaves w k (ttl : Env -> Z) w' :
  world_ok w -> writes_ok w -> env_ok (env w) -> ttl (env w) <= INT64_MAX ->
  (node ← find_live k; match node with None => r_int 0 | Some ent => v ← gets env; apply_ttl ent (ttl v) end) w
    = ((), w') ->
  leaves w w' (fun b => resp_int b (was_live w k)) (after_ttl w k (ttl (env w))) (was_live w k).
Proof.
  intros Hw Hn Henv Httl H. unfold mbind, state_bind in H. destruct (find_live k w) as [r w1] eqn:E.
  destruct (find_live_ok _ _ _ _ Hw E) as (Hw1 & Hq & Hv & Hr). pose proof Hq as (Q1 & Q2 & Q3).
  apply (leaves_after w w1); [done|]. unfold was_live, after_ttl. destruct r as [k'|].
  - destruct Hr as (-> & e & _ & Hk). rewrite Hk. rewrite <- Hv, <- Q3 in *.
    apply (apply_ttl_leaves w1 k _ _ (ttl (env w1)) w' Hw1 Hk); done.
  - destruct Hr as [-> _]. rewrite <- Hv. injection H as <-. by apply r_int_leaves; [|eapply quiet_writes].
Qed.

Lemma expire_generic_leaves cmd mult w w' :
  world_ok w -> writes_ok w -> env_ok (env w) -> expire_generic cmd mult w = ((), w') ->
  let k := argd cmd 1 in
  match str2int (argd cmd 2) with
  | None => leaves w w' (fun b => resp_err b (bs "ERR invalid TTL")) (view w) 0
  | Some ttl =>
      leaves w w' (fun b => resp_int b (was_live w k)) (after_ttl w k (i64 (ttl * mult))) (was_live w k)
  end.
Proof.
  intros Hw Hn Henv H. cbn zeta. unfold expire_generic in H. destruct (str2int (argd cmd 2)) as [ttl|].
  - apply (probe_ttl_leaves w (argd cmd 1) (fun _ => i64 (ttl * mult))); [done..| |done]. apply i64_range.
  - injection H as <-. apply (leaves_reply w w (fun b => resp_err b _)); [done..|]. apply wf_resp_err, Hw.
Qed.

Lemma expireat_generic_leaves cmd mult w w' :
  world_ok w -> writes_ok w -> env_ok (env w) -> expireat_generic cmd mult w = ((), w') ->
  let k := argd cmd 1 in
  match str2int (argd cmd 2) with
  | None => leaves w w' (fun b => resp_err b (bs "ERR invalid expire time")) (view w) 0
  | Some when =>
      leaves w w' (fun b => resp_int b (was_live w k))
        (after_ttl w k (i64 (i64 (when * mult) - wall (env w)))) (was_live w k)
  end.
Proof.
  intros Hw Hn Henv H. cbn zeta. unfold expireat_generic in H. destruct (str2int (argd cmd 2)) as [when|].
  - rewrite <- (i64_small (wall (env w))) by (destruct Henv as [_ He]; unfold INT64_MIN, INT64_MAX; lia).
    apply (probe_ttl_leaves w (argd cmd 1) (fun v => i64 (i64 (when * mult) - i64 (wall v)))); [done..| |done].
    apply i64_range.
  - injection H as <-. apply (leaves_reply w w (fun b => resp_err b _)); [done..|]. apply wf_resp_err, Hw.
Qed.

(** ** TTL, TYPE, PERSIST, EXISTS *)

Lemma ttl_val_run w k e : ks_ok (ks w) -> ents (ks w) !! k = Some e -> ttl_val k w = (ttls (ks w) !! k, w).
Proof.
  intros Hok He. unfold ttl_val, gets. rewrite He. pose proof (timer_of _ _ _ (ks_timed _ Hok) He) as Ht.
  destruct (entry_has_ttl e).
  - destruct Ht as (x & Hx & _ & Hk & _). rewrite Hk. by rewrite (list_lookup_total_correct _ _ _ Hx).
  - destruct Ht as (_ & -> & _). done.
Qed.

(** The answer of PTTL ([div] 1) and TTL ([div] 1000). *)
Definition ttl_answer (w : World) (k : bytes) (div : Z) : Z :=
  match view w !! k with
  | None => -2
  | Some (_, None) => -1
  | Some (_, Some t) => if 1 <? div then (t - now (env w) + div / 2) / div else t - now (env w)
  end.

Lemma ttl_generic_leaves cmd div w w' :
  world_ok w -> writes_ok w -> env_ok (env w) -> 1 <= div <= 1000 ->
  (forall v t, view w !! argd cmd 1 = Some (v, Some t) -> t < 2 ^ 62) ->
  ttl_generic cmd div w = ((), w') ->
  leaves w w' (fun b => resp_int b (ttl_answer w (argd cmd 1) div)) (view w) 0.
Proof.
  intros Hw Hn [Hnow _] Hdiv Hbig H. unfold ttl_generic, mbind, state_bind in H.
  destruct (find_live (argd cmd 1) w) as [r w1] eqn:E.
  destruct (find_live_ok _ _ _ _ Hw E) as (Hw1 & Hq & Hv & Hr). pose proof Hq as (Q1 & Q2 & Q3).
  apply (leaves_after w w1); [done|]. rewrite <- Hv. unfold ttl_answer. destruct r as [k'|].
  - destruct Hr as (-> & e & He & Hk). rewrite Hk. pose proof Hw1 as (Hok1 & _).
    rewrite (ttl_val_run w1 _ e Hok1 He) in H. rewrite <- Q3 in *.
    destruct (ttls (ks w1) !! argd cmd 1) as [t|] eqn:Et.
    + cbn in H. assert (now (env w1) < t) as Hlt.
      { rewrite <- Hv in Hk. apply lview_Some in Hk as (_ & _ & Hex). unfold expired in Hex. rewrite Et in Hex. lia. }
      specialize (Hbig _ _ Hk). rewrite (proj2 (Z.ltb_lt _ _) Hlt) in H.
      assert (0 <= div / 2 <= 1000) by (split; [apply Z.div_pos|apply Z.div_le_upper_bound]; lia).
      rewrite (i64_small (t - now (env w1))) in H by (unfold INT64_MIN, INT64_MAX; lia).
      rewrite i64_small in H by (unfold INT64_MIN, INT64_MAX; lia).
      replace w' with (r_int (if 1 <? div then (t - now (env w1) + div / 2) / div else t - now (env w1)) w1).2
        by (injection H as <-; done).
      apply r_int_leaves; [done|by eapply quiet_writes].
    + injection H as <-. by apply r_int_leaves; [|eapply quiet_writes].
  - destruct Hr as [-> _]. injection H as <-. by apply r_int_leaves; [|eapply quiet_writes].
Qed.

Lemma do_type_leaves cmd w w' :
  world_ok w -> writes_ok w -> do_type cmd w = ((), w') ->
  leaves w w' (fun b => resp_simple b match view w !! argd cmd 1 with
                                      | None => bs "none" | Some (v, _) => type_name (atype v) end) (view w) 0.
Proof.
  intros Hw Hn H. unfold do_type, mbind, state_bind in H. destruct (find_live (argd cmd 1) w) as [r w1] eqn:E.
  destruct (find_live_ok _ _ _ _ Hw E) as (Hw1 & Hq & Hv & Hr). pose proof Hw1 as (_ & _ & Hwf1).
  destruct r as [k'|].
  - destruct Hr as (-> & e & He & Hk). rewrite Hk. unfold entry_at, gets in H. rewrite He in H. injection H as <-.
    rewrite atype_aval. apply (leaves_reply w w1 (fun b => resp_simple b _)); auto with myred.
  - destruct Hr as [-> _]. injection H as <-.
    apply (leaves_reply w w1 (fun b => resp_simple b (bs "none"))); auto with myred.
Qed.

Lemma do_persist_leaves cmd w w' :
  world_ok w -> writes_ok w -> env_ok (env w) -> do_persist cmd w = ((), w') ->
  let k := argd cmd 1 in
  match view w !! k with
  | Some (v, Some _) => leaves w w' (fun b => resp_int b 1) (<[k := (v, None)]> (view w)) 1
  | _ => leaves w w' (fun b => resp_int b 0) (view w) 0
  end.
Proof.
  intros Hw Hn Henv H. cbn zeta. unfold do_persist, mbind, state_bind in H.
  destruct (find_live (argd cmd 1) w) as [r w1] eqn:E.
  destruct (find_live_ok _ _ _ _ Hw E) as (Hw1 & Hq & Hv & Hr). pose proof Hq as (Q1 & Q2 & Q3).
  destruct r as [k'|].
  - destruct Hr as (-> & e & He & Hk). rewrite Hk. pose proof Hw1 as (Hok1 & _ & Hwf1).
    rewrite (ttl_val_run w1 _ e Hok1 He) in H. rewrite <- Hv in Hk. rewrite <- Hv.
    destruct (ttls (ks w1) !! argd cmd 1) as [t|] eqn:Et; apply (leaves_after w w1); try done.
    + cbn in H. injection H as <-. rewrite <- Q3 in Henv.
      destruct (view_set_ttl w1 _ _ _ (-1) Hw1 Hk Henv ltac:(by left; lia)) as (R1 & R2 & R3).
      apply (leaves_intro w1 (with_writes _ (with_ks _ w1)) (fun b => resp_int b 1)); try done. by apply wf_resp_int.
    + injection H as <-. by apply r_int_leaves; [|eapply quiet_writes].
  - destruct Hr as [-> _]. injection H as <-. apply (leaves_after w w1); [done|]. rewrite <- Hv.
    by apply r_int_leaves; [|eapply quiet_writes].
Qed.

Definition live_count (w : World) (keys : list bytes) : Z := foldr (fun k n => was_live w k + n) 0 keys.

Lemma count_live_spec l c w c' w' :
  world_ok w -> count_live l c w = (c', w') ->
  world_ok w' /\ quiet w w' /\ view w' = view w /\ c' = c + live_count w l.
Proof.
  revert c w. induction l as [|k l IH]; intros c w Hw H.
  { injection H as <- <-. cbn. split_and!; try done. lia. }
  cbn [count_live] in H. unfold mbind, state_bind in H. destruct (find_live k w) as [r w1] eqn:E.
  destruct (find_live_ok _ _ _ _ Hw E) as (Hw1 & Hq & Hv & Hr).
  apply IH in H as (H1 & H2 & H3 & ->); [|done]. split_and!; [done|by eapply quiet_trans|congruence|].
  assert (live_count w1 l = live_count w l) as ->.
  { unfold live_count, was_live. by rewrite Hv. }
  cbn [live_count foldr]. fold (live_count w l). unfold was_live at 1.
  destruct r; [destruct Hr as (_ & e & _ & ->)|destruct Hr as [-> _]]; lia.
Qed.

Lemma do_exists_leaves cmd w w' :
  world_ok w -> writes_ok w -> do_exists cmd w = ((), w') ->
  leaves w w' (fun b => resp_int b (live_count w (s_data <$> tail cmd))) (view w) 0.
Proof.
  intros Hw Hn H. unfold do_exists, mbind, state_bind in H. destruct (count_live _ 0 w) as [c w1] eqn:E.
  destruct (count_live_spec _ _ _ _ _ Hw E) as (Hw1 & Hq & Hv & ->). injection H as <-.
  apply (leaves_after w w1); [done|]. rewrite <- Hv. apply r_int_leaves; [done|by eapply quiet_writes].
Qed.

(** ** FLUSHALL *)

(** What holds while entries are being freed off the dictionary. *)
Definition draining (s : Keyspace) : Prop := timed s /\ used_memory s = u64 (msum mem (ents s)).

Lemma entry_del_drains s now k :
  draining s -> is_Some (ents s !! k) ->
  let s' := entry_del now k s in
  draining s' /\ dom (ents s') = dom (ents s) ∖ {[k]} /\ db s' = db s /\ events s' = events s.
Proof.
  intros [Ht Hu] [e He]. cbn zeta. unfold entry_del. rewrite He.
  set (s1 := with_used _ s).
  destruct (entry_set_ttl_timers s1 now k e (-1) Ht He) as (h & es & -> & Hd & Ht' & Hmap).
  cbn [Z.ltb Z.compare] in Hmap. replace (ents s1) with (ents s) in Hd by done.
  assert (Hnin : k ∉ refs h) by (apply ttl_map_None; by rewrite Hmap, lookup_delete_eq).
  pose proof (same_data_delete _ _ k Hd) as Hdd. destruct Ht as [_ Hroom].
  split; [split|split_and!; try done].
  - split; cbn [heap ents with_ents with_timers fst snd]; [by apply timers_ok_drop|].
    rewrite (same_data_size _ _ Hdd), map_size_delete, He. cbn. lia.
  - cbn [used_memory ents with_ents with_timers fst snd]. rewrite (same_data_mem _ _ Hdd).
    unfold s1. cbn [used_memory with_used]. rewrite Hu, (msum_delete mem _ _ _ He). unfold u64.
    rewrite Zminus_mod_idemp_l. f_equal. lia.
  - pose proof (same_data_fmap (fun _ => tt) _ _ ltac:(done) Hdd) as Hf. cbn [ents with_ents with_timers].
    rewrite <- (dom_fmap_L (fun _ => tt) (delete k es)), Hf, dom_fmap_L, dom_delete_L. done.
Qed.

Lemma drain_spec l w w' :
  draining (ks w) -> NoDup l -> (forall k, k ∈ l <-> k ∈ dom (ents (ks w))) ->
  for_each l (fun e => on_ks (fun now => entry_del now e)) w = ((), w') ->
  draining (ks w') /\ ents (ks w') = ∅ /\ db (ks w') = db (ks w) /\ events (ks w') = events (ks w) /\ quiet w w'.
Proof.
  revert w. induction l as [|k l IH]; intros w Hd Hnd Hl H.
  - injection H as <-. split_and!; try done. apply dom_empty_inv_L, set_eq. intros k. rewrite <- Hl.
    by rewrite list_elem_of_In, elem_of_empty.
  - cbn in H. unfold mbind, state_bind, modify in H. cbn in H. apply NoDup_cons in Hnd as [Hk Hnd].
    destruct (entry_del_drains (ks w) (now (env w)) k Hd) as (D1 & D2 & D3 & D4).
    { apply elem_of_dom, Hl. by left. }
    apply IH in H as (I1 & I2 & I3 & I4 & I5); [|done|done|].
    + split_and!; [done|done|by rewrite I3|by rewrite I4|exact I5].
    + intros j. cbn [ks with_ks]. rewrite D2, elem_of_difference, elem_of_singleton, <- Hl, elem_of_cons.
      split; [|tauto]. intros Hj. split; [by right|]. by intros ->.
Qed.

Lemma db_foreach_keys s :
  ks_ok s -> NoDup (hm_foreach (db s)) /\ (forall k, k ∈ hm_foreach (db s) <-> k ∈ dom (ents s)).
Proof.
  intros Hs. pose proof (ks_keyed s Hs) as Hk. rewrite hm_foreach_spec by apply Hk.
  split; [exact (keyed_nodup _ _ Hk)|]. intros k.
  rewrite elem_of_dom, list_elem_of_fmap. pose proof (ks_index s Hs k) as Hi. split.
  - intros (n & -> & Hn). assert (to_map id (db s) !! item n = Some (item n)) as Hm.
    { apply to_map_Some; [done|]. by exists n. }
    rewrite (ks_index s Hs) in Hm. by destruct (ents s !! item n).
  - intros [e He]. rewrite He in Hi. apply to_map_Some in Hi as (n & Hn & Hnk & _); [|done]. by exists n.
Qed.

Lemma do_flushall_leaves cmd w w' :
  world_ok w -> do_flushall cmd w = ((), w') ->
  leaves w w' resp_ok ∅ 1 /\ ks w' = mkKS HMap_empty ∅ [] 0 (events (ks w)).
Proof.
  intros (Hok & Hacc & Hwf) H. unfold do_flushall, mbind, state_bind, gets, on_ks, modify in H. cbn beta iota in H.
  destruct (db_foreach_keys _ Hok) as [Hnd Hl]. set (w1 := with_ks _ w) in H.
  destruct (for_each _ _ w1) as [[] w2] eqn:E. injection H as <-.
  assert (draining (ks w1)) as Hd1 by (split; [by apply ks_timed in Hok|by apply (ks_mem _ Hok)]).
  destruct (drain_spec _ w1 w2 Hd1 Hnd Hl E) as ([[[Hh _] _] Hu] & He & Hdb & Hev & (Q1 & Q2 & Q3)).
  assert (heap (ks w2) = []) as Hh0.
  { pose proof (heap_length _ _ Hh) as Hlen. rewrite He, map_size_empty in Hlen.
    destruct (heap (ks w2)); [done|cbn in Hlen; lia]. }
  assert (ks w2 = mkKS HMap_empty ∅ [] 0 (events (ks w))) as Hks.
  { change (db (ks w1)) with (@HMap_empty bytes) in Hdb. change (events (ks w1)) with (events (ks w)) in Hev.
    rewrite He, msum_empty in Hu. destruct (ks w2). cbn in *. by subst. }
  split; [|exact Hks]. destruct (keyed_empty (A := bytes) id) as [K1 K2].
  apply (leaves_intro w (with_writes _ w2) resp_ok); try done.
  - split_and!; cbn [ks with_writes out]; [|by rewrite Hks|by rewrite Q2]. rewrite Hks. split; cbn; try done.
    split; [|done]. split_and!; [intros i Hi; cbn in Hi; lia|done|constructor].
  - unfold view. cbn [ks with_writes env]. rewrite Hks. apply map_eq. intros k. rewrite lookup_empty.
    apply lview_None. by left.
  - cbn. by rewrite Q1.
  - by apply wf_resp_ok.
Qed.

(** ** RENAME *)

Section rename.
Context (s : Keyspace) (src dst : bytes) (e : Entry).
Context (Hs : ks_ok s) (He : ents s !! src = Some e) (Hd : ents s !! dst = None).

Let es' : Ents := <[dst := with_ekey (s_assign (ekey e) dst) e]> (delete src (ents s)).

Lemma rename_ne : src <> dst.
Proof. intros ->. congruence. Qed.

Lemma dst_no_timer : dst ∉ refs (heap s).
Proof.
  intros Hin. destruct (ks_timers s Hs) as [(_ & Hr & _) _]. destruct (refs_sub _ _ Hr dst Hin). congruence.
Qed.

Lemma retarget_other x : x ∈ heap s -> ref x <> src -> retarget src dst x = x /\ ref x <> dst.
Proof.
  intros Hx Hne. unfold retarget. rewrite bool_decide_false by done. split; [done|].
  intros Hr. apply dst_no_timer. rewrite <- Hr. by apply list_elem_of_fmap_2.
Qed.

Let moved (k : bytes) : bytes := if bool_decide (k = src) then dst else k.

Lemma refs_retarget : refs (retarget src dst <$> heap s) = moved <$> refs (heap s).
Proof.
  unfold refs. change (map ref) with (fmap (M := list) (@ref bytes)). rewrite <- !list_fmap_compose.
  apply list_fmap_ext. intros _ x _. cbn. unfold retarget, moved. by case_bool_decide.
Qed.

Lemma retarget_timers : timers_ok (retarget src dst <$> heap s) es'.
Proof.
  destruct (ks_timers s Hs) as [(Ho & Hr & Hnd) Ht]. pose proof rename_ne as Hne.
  assert (Hval : forall x : HeapItem bytes, val (retarget src dst x) = val x).
  { intros x. unfold retarget. by case_bool_decide. }
  split; [split_and!|].
  - intros i Hi. rewrite length_fmap in Hi. specialize (Ho i Hi). unfold hval in *.
    pose proof (heap_parent_lt i ltac:(lia)). by rewrite !(list_lookup_total_fmap (retarget src dst)), !Hval by lia.
  - intros i x Hx. rewrite list_lookup_fmap in Hx. destruct (heap s !! i) as [y|] eqn:Ey; [|done].
    cbn in Hx. injection Hx as <-. specialize (Hr i y Ey). cbn in *.
    destruct (decide (ref y = src)) as [E|E].
    + unfold retarget. rewrite bool_decide_true by done. cbn [ref]. unfold es'. rewrite lookup_insert_eq. cbn.
      rewrite E, He in Hr. by injection Hr as <-.
    + destruct (retarget_other y) as [-> Hyd]; [by apply list_elem_of_lookup_2 in Ey|done|].
      unfold es'. by rewrite lookup_insert_ne, lookup_delete_ne.
  - rewrite refs_retarget. apply NoDup_fmap_2_strong; [|done].
    intros x y Hx Hy. pose proof dst_no_timer. unfold moved. repeat case_bool_decide; intros; subst; done.
  - rewrite refs_retarget. intros k e' Hk. unfold es' in Hk.
    assert (Hin : forall j, j ∈ refs (heap s) -> moved j ∈ moved <$> refs (heap s)).
    { intros j Hj. by apply (list_elem_of_fmap_2 moved). }
    unfold moved at 1 in Hin.
    destruct (decide (dst = k)) as [<-|Hk2].
    + rewrite lookup_insert_eq in Hk. injection Hk as <-. cbn [heap_idx with_ekey].
      destruct (Ht src e He) as [|Hr']; [by left|right]. specialize (Hin _ Hr').
      by rewrite bool_decide_true in Hin.
    + rewrite lookup_insert_ne in Hk by done. apply lookup_delete_Some in Hk as [Hk1 Hk].
      destruct (Ht k e' Hk) as [|Hr']; [by left|right]. specialize (Hin _ Hr').
      by rewrite bool_decide_false in Hin.
Qed.

Lemma ttls_retarget k :
  ttl_map (retarget src dst <$> heap s) !! k =
    if decide (k = dst) then ttls s !! src else if decide (k = src) then None else ttls s !! k.
Proof.
  destruct (ks_timers s Hs) as [(_ & _ & Hnd) _]. pose proof dst_no_timer as Hnt. pose proof rename_ne as Hne.
  unfold ttls. revert Hnt Hnd. induction (heap s) as [|x h IH]; intros Hnt Hnd.
  { cbn. by repeat case_decide. }
  cbn [refs map] in Hnt, Hnd. apply not_elem_of_cons in Hnt as [Hx Hnt]. apply NoDup_cons in Hnd as [Hxh Hnd].
  specialize (IH Hnt Hnd).
  assert (Hc : forall (y : HeapItem bytes) l, ttl_map (y :: l) = <[ref y := val y]> (ttl_map l)) by done.
  rewrite fmap_cons, !Hc. unfold retarget at 1 2. destruct (decide (ref x = src)) as [E|E].
  - rewrite bool_decide_true by done. cbn [ref val]. rewrite E. destruct (decide (k = dst)) as [->|Hk].
    + by rewrite !lookup_insert_eq.
    + rewrite lookup_insert_ne, IH by done. repeat case_decide; try done; by rewrite lookup_insert_ne.
  - rewrite bool_decide_false by done. destruct (decide (k = ref x)) as [->|Hk].
    + rewrite lookup_insert_eq, !decide_False by done. by rewrite lookup_insert_eq.
    + rewrite lookup_insert_ne, IH by done. repeat case_decide; try done; by rewrite lookup_insert_ne.
Qed.

Lemma move_entry_spec :
  let s' := move_entry src dst s in
  ks_ok s' /\ (accounted s -> accounted_but dst s') /\
  vals s' = <[dst := aval (eval e)]> (delete src (vals s)) /\
  (forall k, ttls s' !! k = if decide (k = dst) then ttls s !! src else if decide (k = src) then None else ttls s !! k).
Proof.
  cbn zeta. unfold move_entry. rewrite He. pose proof Hs as [H1 H2 H3 H4 H5 H6 H7]. pose proof rename_ne as Hne.
  destruct (hm_delete (db s) (str_hash src) (key_eq id src)) as [r h] eqn:Ed. cbn [snd].
  destruct (hm_delete_map id _ _ _ _ H1 Ed) as (K1 & K2 & _ & _).
  destruct (hm_insert_map id h dst K1) as (K3 & K4 & _).
  { change (id dst) with dst. rewrite K2, lookup_delete_ne, H2 by done. by rewrite Hd. }
  change (id dst) with dst in K4.
  assert (Hdn : delete src (ents s) !! dst = None) by (by rewrite lookup_delete_ne).
  split_and!.
  - split; cbn [db ents heap used_memory]; try done.
    + intros k. rewrite K4, K2. destruct (decide (dst = k)) as [<-|]; [by rewrite !lookup_insert_eq|].
      rewrite !lookup_insert_ne by done. destruct (decide (src = k)) as [<-|]; [by rewrite !lookup_delete_eq|].
      by rewrite !lookup_delete_ne, H2.
    + apply map_Forall_insert_2; [done|]. by apply map_Forall_delete.
    + apply map_Forall_insert_2; [exact (H4 src e He)|]. by apply map_Forall_delete.
    + apply retarget_timers.
    + rewrite map_size_insert_None by done. rewrite map_size_delete, He. cbn.
      assert (base.size (ents s) <> 0)%nat by (intros Hz; apply map_size_empty_inv in Hz; by rewrite Hz in He). lia.
    + rewrite H7, msum_insert by done. rewrite (msum_delete mem _ _ _ He). done.
  - intros Ha. apply map_Forall_insert_2; [by left|]. apply map_Forall_delete.
    intros k e' Hk. right. by apply (Ha k).
  - unfold vals. cbn [ents]. by rewrite fmap_insert, fmap_delete.
  - apply ttls_retarget.
Qed.
End rename.

Lemma view_move w src dst e v t :
  world_ok w -> ents (ks w) !! src = Some e -> ents (ks w) !! dst = None ->
  view w !! src = Some (v, t) ->
  let s' := mem_reaccount dst (move_entry src dst (ks w)) in
  ks_ok s' /\ accounted s' /\ lview (now (env w)) s' = <[dst := (v, t)]> (delete src (view w)).
Proof.
  intros (Hok & Hacc & _) He Hd Hv. cbn zeta.
  destruct (move_entry_spec (ks w) src dst e Hok He Hd) as (M1 & M2 & M3 & M4).
  destruct (mem_reaccount_spec _ dst M1) as (R1 & R2 & R3 & _).
  apply lview_Some in Hv as (Hv & Ht & Hex). pose proof (rename_ne (ks w) src dst e He Hd) as Hne.
  split_and!; [done|apply mem_reaccount_accounted; auto|].
  assert (aval (eval e) = v) as <- by (unfold vals in Hv; rewrite lookup_fmap, He in Hv; by injection Hv).
  rewrite (lview_same _ (move_entry src dst (ks w))) by done. apply map_eq. intros k.
  specialize (M4 k). destruct (decide (k = dst)) as [->|Hk].
  - rewrite lookup_insert_eq. apply lview_Some. rewrite M3, lookup_insert_eq, M4. split_and!; try done.
    unfold expired in *. by rewrite M4.
  - rewrite lookup_insert_ne, lview_lookup, M3, lookup_insert_ne by done.
    destruct (decide (k = src)) as [->|Hk2]; [by rewrite !lookup_delete_eq|].
    rewrite !lookup_delete_ne by done. unfold view. rewrite lview_lookup.
    destruct (vals (ks w) !! k); [|done]. cbn [mbind option_bind]. rewrite M4. by apply decide_expired_ext.
Qed.

(** RENAME and RENAMENX against the view. *)
Lemma rename_key_spec src dst nx w rc w' :
  world_ok w -> rename_key src dst nx w = (rc, w') ->
  world_ok w' /\ quiet w w' /\
  match view w !! src with
  | None => rc = -1 /\ view w' = view w
  | Some (v, t) =>
      if bool_decide (src = dst) then rc = (if nx then 0 else 1) /\ view w' = view w
      else if nx && bool_decide (is_Some (view w !! dst)) then rc = 0 /\ view w' = view w
      else rc = 1 /\ view w' = <[dst := (v, t)]> (delete src (view w))
  end.
Proof.
  intros Hw H. unfold rename_key, mbind, state_bind in H. destruct (find_live src w) as [r w1] eqn:E.
  destruct (find_live_ok _ _ _ _ Hw E) as (Hw1 & Hq & Hv & Hr). destruct r as [k'|].
  2:{ destruct Hr as [-> _]. by injection H as <- <-. }
  destruct Hr as (-> & e & He & Hk). rewrite Hk. case_bool_decide as Eq; [by injection H as <- <-|].
  destruct (find_live dst w1) as [rd w2] eqn:E2.
  destruct (find_live_ok _ _ _ _ Hw1 E2) as (Hw2 & Hq2 & Hv2 & Hr2).
  pose proof (quiet_trans _ _ _ Hq Hq2) as Hq12. rewrite Hv in *. clear Hq Hq2.
  assert (exists e2, ents (ks w2) !! src = Some e2) as [e2 He2].
  { rewrite <- Hv2 in Hk. apply lview_Some in Hk as (Hk & _). unfold vals in Hk. rewrite lookup_fmap in Hk.
    destruct (ents (ks w2) !! src); [eauto|done]. }
  pose proof Hq12 as (Q1 & Q2 & Q3). pose proof Hw2 as (Hok2 & Hacc2 & Hwf2).
  destruct rd as [d|].
  - destruct Hr2 as (-> & ed & Hed & Hkd). rewrite (bool_decide_true (is_Some _)) by (by rewrite Hkd).
    destruct nx; cbn [andb]; [by injection H as <- <-|]. cbn in H. injection H as <- <-.
    destruct (remove_key_spec (ks w2) (now (env w2)) dst Hok2 ltac:(by eexists)) as (_ & _ & _ & _ & _ & Rd).
    destruct (view_remove w2 dst Hok2 Hacc2 ltac:(by eexists)) as (R1 & R2 & R3).
    set (s3 := remove_key (now (env w2)) dst (ks w2)) in *. set (w3 := with_ks s3 w2).
    assert (is_Some (ents s3 !! src)) as [e3 He3].
    { apply elem_of_dom. rewrite Rd. apply elem_of_difference. split; [by apply elem_of_dom|]. by apply not_elem_of_singleton. }
    destruct (view_move w3 src dst e3 (aval (eval e)) (ttls (ks w1) !! src)) as (V1 & V2 & V3).
    { done. } { done. }
    { apply not_elem_of_dom. cbn. rewrite Rd, elem_of_difference. intros [_ Hn]. by apply Hn, elem_of_singleton. }
    { assert (view w3 = delete dst (view w2)) as -> by exact R3. by rewrite lookup_delete_ne, Hv2. }
    split_and!; [done|done|done|]. etrans; [exact V3|].
    assert (view w3 = delete dst (view w)) as -> by (rewrite <- Hv2; exact R3).
    apply map_eq. intros j. destruct (decide (dst = j)) as [<-|]; [by rewrite !lookup_insert_eq|].
    rewrite !lookup_insert_ne by done. destruct (decide (src = j)) as [<-|]; [by rewrite !lookup_delete_eq|].
    by rewrite !lookup_delete_ne.
  - destruct Hr2 as [Hnd Hed]. rewrite (bool_decide_false (is_Some _)) by (by rewrite Hnd; intros []). rewrite andb_false_r.
    cbn in H. injection H as <- <-.
    destruct (view_move w2 src dst e2 (aval (eval e)) (ttls (ks w1) !! src)) as (V1 & V2 & V3); try done.
    { by rewrite Hv2. }
    split_and!; [done|done|done|]. etrans; [exact V3|]. by rewrite Hv2.
Qed.

Lemma do_rename_leaves cmd w w' :
  world_ok w -> writes_ok w -> do_rename cmd w = ((), w') ->
  let src := argd cmd 1 in let dst := argd cmd 2 in
  match view w !! src with
  | None => leaves w w' (fun b => resp_err b (bs "ERR no such key")) (view w) 0
  | Some x =>
      leaves w w' resp_ok (if bool_decide (src = dst) then view w else <[dst := x]> (delete src (view w))) 1
  end.
Proof.
  intros Hw Hn H. cbn zeta. unfold do_rename, mbind, state_bind in H.
  destruct (rename_key _ _ false w) as [rc w1] eqn:E.
  destruct (rename_key_spec _ _ _ _ _ _ Hw E) as (Hw1 & (Q1 & Q2 & Q3) & Hr). pose proof Hw as (_ & _ & Hwf).
  destruct (view w !! argd cmd 1) as [[v t]|].
  - cbn [andb] in Hr. assert (rc = 1) as -> by (by case_bool_decide; destruct Hr).
    injection H as <-. apply (leaves_intro w (with_writes _ w1) resp_ok); try done.
    + unfold view. cbn. fold (view w1). by case_bool_decide; destruct Hr.
    + cbn. by rewrite Q1.
    + by apply wf_resp_ok.
  - destruct Hr as [-> Hv]. injection H as <-.
    apply (leaves_reply w w1 (fun b => resp_err b _)); [done..|]. apply wf_resp_err. by rewrite Q2.
Qed.

Lemma do_renamenx_leaves cmd w w' :
  world_ok w -> writes_ok w -> do_renamenx cmd w = ((), w') ->
  let src := argd cmd 1 in let dst := argd cmd 2 in
  match view w !! src, view w !! dst with
  | None, _ => leaves w w' (fun b => resp_err b (bs "ERR no such key")) (view w) 0
  | Some _, Some _ => leaves w w' (fun b => resp_int b 0) (view w) 0
  | Some x, None => leaves w w' (fun b => resp_int b 1) (<[dst := x]> (delete src (view w))) 1
  end.
Proof.
  intros Hw Hn H. cbn zeta. unfold do_renamenx, mbind, state_bind in H.
  destruct (rename_key _ _ true w) as [rc w1] eqn:E.
  destruct (rename_key_spec _ _ _ _ _ _ Hw E) as (Hw1 & Hq & Hr). pose proof Hq as (Q1 & Q2 & Q3).
  pose proof Hw1 as (_ & _ & Hwf1). destruct (view w !! argd cmd 1) as [[v t]|] eqn:Es.
  2:{ destruct Hr as [-> Hv]. injection H as <-. apply (leaves_reply w w1 (fun b => resp_err b _)); auto with myred. }
  destruct (view w !! argd cmd 2) as [x|] eqn:Ed.
  - assert (rc = 0 /\ view w1 = view w) as [-> Hv].
    { case_bool_decide; [by destruct Hr|]. rewrite bool_decide_true in Hr by (by eexists). by destruct Hr. }
    injection H as <-. apply (leaves_reply w w1 (fun b => resp_int b 0)); auto with myred.
  - case_bool_decide as Eq; [congruence|]. rewrite bool_decide_false in Hr by (by intros []).
    destruct Hr as [-> Hv]. injection H as <-. apply (leaves_intro w (with_writes _ w1) (fun b => resp_int b 1)); try done.
    + cbn. by rewrite Q1.
    + apply wf_resp_int. by rewrite <- Q2.
Qed.

(** ** KEYS and SCAN *)

Definition short (k : bytes) : Prop := Z.of_nat (length k) < 2 ^ 64.

Lemma keys_collect_complete p l hits k :
  keys_collect p l = Some hits -> short k -> k ∈ l -> matches p k -> k ∈ hits.
Proof.
  revert hits. induction l as [|x l IH]; intros hits H Hk Hin Hm; cbn in H; [by apply not_elem_of_nil in Hin|].
  destruct (glob p x) as [b| |] eqn:Eg; [|done..]. destruct (keys_collect p l) as [hs|]; [|done].
  injection H as <-. apply elem_of_cons in Hin as [<-|Hin].
  - assert (b = true) as ->; [|by left].
    unfold glob, glob_match in Eg. rewrite glob_loop_complete in Eg; [by injection Eg|done|..].
    + split_and!; cbn; [lia|lia|done].
    + by left.
    + unfold match_budget, glob_fuel. cbn [glob_start star gs]. nia.
  - assert (k ∈ hs) by (by apply IH). destruct b; [by right|done].
Qed.

Lemma keys_collect_sub p l hits : keys_collect p l = Some hits -> hits `sublist_of` l.
Proof.
  revert hits. induction l as [|x l IH]; intros hits H; cbn in H; [by injection H as <-|].
  destruct (glob p x) as [b| |]; [|done..]. destruct (keys_collect p l) as [hs|]; [|done].
  injection H as <-. destruct b; [apply sublist_skip|apply sublist_cons]; by apply IH.
Qed.

Lemma keys_collect_plain p l :
  tame p -> Forall short l ->
  exists hits, keys_collect p l = Some hits /\ forall k, k ∈ hits <-> k ∈ l /\ matches p k.
Proof.
  intros Hp Hl. induction Hl as [|x l Hx Hl (hs & IH1 & IH2)].
  { exists []. split; [done|]. intros k. split; [by intros ?%not_elem_of_nil|by intros [?%not_elem_of_nil _]]. }
  destruct (glob_loop_plain x Hx (glob_fuel x) (glob_start p x)) as (b & Hb & Hiff); [|done|done|unfold glob_fuel; cbn; nia|].
  { split_and!; cbn; [lia|lia|done]. }
  cbn [glob_start gp gs] in Hiff. rewrite drop_0 in Hiff.
  cbn [keys_collect]. unfold glob, glob_match. rewrite Hb, IH1. cbn.
  exists (if b then x :: hs else hs). split; [done|]. intros k. rewrite elem_of_cons.
  destruct b.
  - rewrite elem_of_cons, IH2. split; [intros [->|[]]|intros [[->|] ?]]; try tauto.
  - rewrite IH2. split; [tauto|]. intros [[->|] Hm]; [|done]. by apply Hiff in Hm.
Qed.

Lemma scan_keep_live w k :
  ks_ok (ks w) -> scan_keep (now (env w)) (ks w) k = true <-> is_Some (view w !! k).
Proof.
  intros Hok. unfold scan_keep, view. rewrite lview_lookup. unfold vals. rewrite lookup_fmap.
  destruct (ents (ks w) !! k) as [e|] eqn:He; cbn; [|by split; [|intros []]].
  pose proof (timer_of _ _ _ (ks_timed _ Hok) He) as Ht. destruct (entry_has_ttl e).
  - destruct Ht as (x & Hx & _ & Hk & _). rewrite (list_lookup_total_correct _ _ _ Hx). cbn [andb].
    pose proof (expired_Some (now (env w)) _ _ _ Hk) as Hex.
    case_decide as Hd; rewrite Hex in Hd; rewrite negb_true_iff, Z.leb_gt; split; try done; try lia.
  - destruct Ht as (_ & Hk & _). pose proof (expired_None (now (env w)) _ _ Hk). case_decide; [done|]. by split.
Qed.

Lemma scan_page_live w c cnt c' l k :
  ks_ok (ks w) -> scan_page w c cnt = (c', l) -> k ∈ l -> is_Some (view w !! k).
Proof.
  intros Hok H Hk. unfold scan_page in H. destruct (hm_scan _ c cnt) as [n nodes]. injection H as _ <-.
  apply list_elem_of_filter in Hk as [Hk _]. by apply scan_keep_live.
Qed.

(** A client's whole iteration: each SCAN passes the cursor the one before
    answered, in whatever state the server is by then, until 0 comes back. *)
Inductive scan_session : Z -> list World -> list bytes -> Prop :=
  | session_last c w cnt l : scan_page w c cnt = (0, l) -> scan_session c [w] l
  | session_step c w cnt c' l ws l' :
      scan_page w c cnt = (c', l) -> c' <> 0 -> scan_session c' ws l' -> scan_session c (w :: ws) (l ++ l').

Lemma session_run c ws l k :
  scan_session c ws l ->
  exists l0, scan_run (A := bytes) c ((fun w => db (ks w)) <$> ws) l0 /\
    (Forall (fun w => ks_ok (ks w) /\ is_Some (view w !! k)) ws -> k ∈ l0 -> k ∈ l).
Proof.
  intros H. induction H as [c w cnt l H|c w cnt c' l ws l' H Hc _ (l0 & IH1 & IH2)];
    unfold scan_page in H; destruct (hm_scan (db (ks w)) c cnt) as [n nodes] eqn:E; injection H as -> <-.
  - exists nodes. split; [by eapply run_last|]. intros [[Hok Hk] _]%Forall_cons Hin.
    apply list_elem_of_filter. split; [|done]. by apply scan_keep_live.
  - exists (nodes ++ l0). split; [by eapply run_step|]. intros [[Hok Hk] Hws]%Forall_cons [Hin|Hin]%elem_of_app.
    + apply elem_of_app. left. apply list_elem_of_filter. split; [|done]. by apply scan_keep_live.
    + apply elem_of_app. right. by apply IH2.
Qed.

Lemma str_hash_range k : 0 <= str_hash k < 2 ^ 64.
Proof.
  Transparent str_hash. unfold str_hash. Opaque str_hash.
  induction k as [|c k IH] using rev_ind; [cbn; lia|]. rewrite foldl_app. cbn [foldl]. apply u64_range.
Qed.

(** C36: A SCAN iteration is complete and sound.  Whatever commands run between
    the calls of one full iteration from cursor 0 to cursor 0 (inserts,
    deletes, expiry, table growth and rehashing included), a key that is live
    at every one of its calls is returned at least once, and every key
    returned was live at some call. *)
Theorem scan_session_complete (ws : list World) (l : list bytes) (k : bytes)
    (Hrun : scan_session 0 ws l)
    (Hok : Forall (fun w => ks_ok (ks w) /\ scan_ok (db (ks w))) ws) :
  (Forall (fun w => is_Some (view w !! k)) ws -> k ∈ l) /\
  (k ∈ l -> Exists (fun w => is_Some (view w !! k)) ws).
Proof.
  split.
  - intros Hk. destruct (session_run _ _ _ k Hrun) as (l0 & Hr & Hin). apply Hin.
    { rewrite Forall_forall in *. intros w Hw. split; [by apply Hok|by apply Hk]. }
    destruct (scan_run_covers _ _ _ (str_hash k) (eq k) Hr) as (a & Ha & <-); try done.
    + apply str_hash_range.
    + rewrite rev_bits_0. apply rev_bits_range, str_hash_range.
    + apply Forall_fmap. eapply Forall_impl; [exact Hok|]. by intros w [_ ?].
    + apply Forall_fmap. rewrite Forall_forall in *. intros w Hw. destruct (Hok w Hw) as [Hks _].
      destruct (Hk w Hw) as [[v t] Hv]. apply lview_Some in Hv as (Hv & _).
      unfold vals in Hv. rewrite lookup_fmap in Hv. destruct (ents (ks w) !! k) as [e|] eqn:He; [|done].
      pose proof (ks_index _ Hks k) as Hi. rewrite He in Hi.
      apply to_map_Some in Hi as (n & Hn & Hnk & _); [|apply Hks]. exists n. split_and!; try done.
      pose proof (keyed_hash _ _ (ks_keyed _ Hks)) as Hh. rewrite Forall_forall in Hh. rewrite (Hh n Hn), Hnk. done.
  - clear -Hrun Hok. induction Hrun as [c w cnt l H|c w cnt c' l ws l' H Hc Hrun IH];
      apply Forall_cons in Hok as [[Hks _] Hok].
    + intros Hk. apply Exists_cons_hd. by eapply scan_page_live.
    + intros [Hk|Hk]%elem_of_app; [apply Exists_cons_hd; by eapply scan_page_live|].
      apply Exists_cons_tl. by apply IH.
Qed.

Definition w_key : World := (do_set (words ["set"; "k"; "v"]) w0).2.

Lemma w_key_ok : world_ok w_key /\ writes_ok w_key /\ env_ok (env w_key).
Proof.
  unfold w_key. destruct (do_set (words ["set"; "k"; "v"]) w0) as [[] w'] eqn:E. cbn [snd].
  pose proof (do_set_leaves (words ["set"; "k"; "v"]) w0 w' w0_ok (proj1 (proj2 w0_start)) (proj2 (proj2 w0_start)) eq_refl
    (words_ok _ 2) E) as (H1 & _ & _ & H4 & H5).
  split_and!; [done| |by rewrite H4..]. unfold writes_ok. rewrite H5. unfold u32. by rewrite Z.mod_mod.
Qed.

Lemma w_key_scan : ks_ok (ks w_key) /\ scan_ok (db (ks w_key)).
Proof.
  destruct w_key_ok as ((H & _) & _). split; [done|]. split; [apply (ks_keyed _ H)|]. vm_compute. by split.
Qed.

Lemma scan_session_complete_witness :
  (Forall (fun w => is_Some (view w !! bs "k")) [w_key] -> bs "k" ∈ (scan_page w_key 0 10).2) /\
  (bs "k" ∈ (scan_page w_key 0 10).2 -> Exists (fun w => is_Some (view w !! bs "k")) [w_key]).
Proof.
  apply (scan_session_complete [w_key] (scan_page w_key 0 10).2 (bs "k")).
  - apply (session_last 0 w_key 10). vm_compute. reflexivity.
  - constructor; [apply w_key_scan|constructor].
Defined.

(** DEL.  Every named key leaves the keyspace with its value, deadline and
    charge, no other key is touched, and the reply and the change counter are
    the number of distinct named keys that were stored. *)
Theorem del_correct (w : World) (cmd : list sstr) (Hw : world_ok w) (Hn : writes_ok w) :
  let w' := (do_del cmd w).2 in
  let keys := s_data <$> tail cmd in
  let n := Z.of_nat (base.size (dom (ents (ks w)) ∩ list_to_set keys)) in
  leaves w w' (fun b => resp_int b n) (without keys (view w)) n /\
  forall k, without keys (view w) !! k = if decide (k ∈ keys) then None else view w !! k.
Proof.
  destruct (do_del cmd w) as [[] w'] eqn:E. cbn zeta. cbn [snd]. split; [by apply do_del_leaves|].
  apply without_lookup.
Qed.

Lemma del_correct_witness :
  let cmd := words ["del"; "k"; "nokey"; "k"] in
  let w' := (do_del cmd w_key).2 in
  let keys := s_data <$> tail cmd in
  let n := Z.of_nat (base.size (dom (ents (ks w_key)) ∩ list_to_set keys)) in
  leaves w_key w' (fun b => resp_int b n) (without keys (view w_key)) n /\
  forall k, without keys (view w_key) !! k = if decide (k ∈ keys) then None else view w_key !! k.
Proof. apply (del_correct w_key (words ["del"; "k"; "nokey"; "k"])); apply w_key_ok. Defined.

(** EXPIRE and PEXPIRE.  For a time span whose milliseconds fit 64 bits: a
    missing or expired key answers 0; otherwise the answer is 1, a positive
    span becomes the deadline now + span with the value kept, and a span of
    zero or less deletes the key; a span that is not an integer is refused. *)
Theorem expire_correct (w : World) (cmd : list sstr) (mult : Z) (Hw : world_ok w) (Hn : writes_ok w)
    (Henv : env_ok (env w))
    (Hfit : forall ttl, str2int (argd cmd 2) = Some ttl -> INT64_MIN <= ttl * mult <= INT64_MAX) :
  let w' := (expire_generic cmd mult w).2 in
  let k := argd cmd 1 in
  match str2int (argd cmd 2) with
  | None => leaves w w' (fun b => resp_err b (bs "ERR invalid TTL")) (view w) 0
  | Some ttl =>
      match view w !! k with
      | None => leaves w w' (fun b => resp_int b 0) (view w) 0
      | Some (v, _) =>
          leaves w w' (fun b => resp_int b 1)
            (if ttl * mult <=? 0 then delete k (view w)
             else <[k := (v, Some (now (env w) + ttl * mult))]> (view w)) 1
      end
  end.
Proof.
  destruct (expire_generic cmd mult w) as [[] w'] eqn:E. cbn zeta. cbn [snd].
  pose proof (expire_generic_leaves cmd mult w w' Hw Hn Henv E) as H. cbn zeta in H.
  destruct (str2int (argd cmd 2)) as [ttl|]; [|exact H].
  unfold was_live, after_ttl in H. rewrite (i64_small (ttl * mult)) in H by (by apply Hfit).
  by destruct (view w !! argd cmd 1) as [[v t]|].
Qed.

Lemma expire_correct_witness :
  let cmd := words ["expire"; "k"; "60"] in
  let w' := (expire_generic cmd 1000 w_key).2 in
  let k := argd cmd 1 in
  match str2int (argd cmd 2) with
  | None => leaves w_key w' (fun b => resp_err b (bs "ERR invalid TTL")) (view w_key) 0
  | Some ttl =>
      match view w_key !! k with
      | None => leaves w_key w' (fun b => resp_int b 0) (view w_key) 0
      | Some (v, _) =>
          leaves w_key w' (fun b => resp_int b 1)
            (if ttl * 1000 <=? 0 then delete k (view w_key)
             else <[k := (v, Some (now (env w_key) + ttl * 1000))]> (view w_key)) 1
      end
  end.
Proof.
  apply (expire_correct w_key (words ["expire"; "k"; "60"]) 1000); [apply w_key_ok..|].
  intros ttl Ht. vm_compute in Ht. injection Ht as <-. unfold INT64_MIN, INT64_MAX. lia.
Defined.

(** TTL and PTTL.  The answer is -2 for a missing or expired key, -1 for a
    key without a deadline, and otherwise the time left, in milliseconds
    (divisor 1) or rounded to the nearest second (divisor 1000); nothing a
    client can see changes. *)
Theorem ttl_correct (w : World) (cmd : list sstr) (div : Z) (Hw : world_ok w) (Hn : writes_ok w)
    (Henv : env_ok (env w)) (Hdiv : 1 <= div <= 1000)
    (Hfar : forall v t, view w !! argd cmd 1 = Some (v, Some t) -> t < 2 ^ 62) :
  let w' := (ttl_generic cmd div w).2 in
  leaves w w' (fun b => resp_int b
    match view w !! argd cmd 1 with
    | None => -2
    | Some (_, None) => -1
    | Some (_, Some t) => if 1 <? div then (t - now (env w) + div / 2) / div else t - now (env w)
    end) (view w) 0.
Proof. destruct (ttl_generic cmd div w) as [[] w'] eqn:E. by apply ttl_generic_leaves. Qed.

Definition w_timed : World := (expire_generic (words ["expire"; "k"; "60"]) 1000 w_key).2.

Lemma w_timed_ok : world_ok w_timed /\ writes_ok w_timed /\ env_ok (env w_timed).
Proof.
  unfold w_timed. destruct (expire_generic (words ["expire"; "k"; "60"]) 1000 w_key) as [[] w'] eqn:E. cbn [snd].
  destruct w_key_ok as (K1 & K2 & K3).
  pose proof (expire_generic_leaves _ _ _ _ K1 K2 K3 E) as H. cbn zeta in H.
  assert (str2int (argd (words ["expire"; "k"; "60"]) 2) = Some 60) as Hi by reflexivity. rewrite Hi in H.
  destruct H as (H1 & _ & _ & H4 & H5). split_and!; [done| |by rewrite H4..].
  unfold writes_ok. rewrite H5. unfold u32. by rewrite Z.mod_mod.
Qed.

Lemma ttl_correct_witness :
  let cmd := words ["ttl"; "k"] in
  let w' := (ttl_generic cmd 1000 w_timed).2 in
  leaves w_timed w' (fun b => resp_int b
    match view w_timed !! argd cmd 1 with
    | None => -2
    | Some (_, None) => -1
    | Some (_, Some t) => if 1 <? 1000 then (t - now (env w_timed) + 1000 / 2) / 1000 else t - now (env w_timed)
    end) (view w_timed) 0.
Proof.
  apply (ttl_correct w_timed (words ["ttl"; "k"]) 1000); [apply w_timed_ok..|lia|].
  intros v t Hv. vm_compute in Hv. injection Hv as _ <-. lia.
Defined.

(** RENAME and RENAMENX.  A live source moves under the new name with its
    value and its deadline, replacing whatever the destination held (RENAME)
    or refusing a live destination (RENAMENX, answer 0); a missing or expired
    source is an error; renaming a key to itself changes nothing.  The heap
    of deadlines follows the entry to its new name. *)
Theorem rename_correct (w : World) (cmd : list sstr) (Hw : world_ok w) (Hn : writes_ok w) :
  let src := argd cmd 1 in
  let dst := argd cmd 2 in
  let no_key w' := leaves w w' (fun b => resp_err b (bs "ERR no such key")) (view w) 0 in
  match view w !! src with
  | None => no_key (do_rename cmd w).2 /\ no_key (do_renamenx cmd w).2
  | Some x =>
      leaves w (do_rename cmd w).2 resp_ok
        (if bool_decide (src = dst) then view w else <[dst := x]> (delete src (view w))) 1 /\
      match view w !! dst with
      | Some _ => leaves w (do_renamenx cmd w).2 (fun b => resp_int b 0) (view w) 0
      | None => leaves w (do_renamenx cmd w).2 (fun b => resp_int b 1) (<[dst := x]> (delete src (view w))) 1
      end
  end.
Proof.
  cbn zeta. destruct (do_rename cmd w) as [[] w1] eqn:E1, (do_renamenx cmd w) as [[] w2] eqn:E2. cbn [snd].
  pose proof (do_rename_leaves cmd w w1 Hw Hn E1) as H1. pose proof (do_renamenx_leaves cmd w w2 Hw Hn E2) as H2.
  cbn zeta in *. destruct (view w !! argd cmd 1) as [x|]; [|done]. split; [done|]. by destruct (view w !! argd cmd 2).
Qed.

Lemma rename_correct_witness :
  let cmd := words ["rename"; "k"; "k2"] in
  let src := argd cmd 1 in
  let dst := argd cmd 2 in
  let no_key w' := leaves w_timed w' (fun b => resp_err b (bs "ERR no such key")) (view w_timed) 0 in
  match view w_timed !! src with
  | None => no_key (do_rename cmd w_timed).2 /\ no_key (do_renamenx cmd w_timed).2
  | Some x =>
      leaves w_timed (do_rename cmd w_timed).2 resp_ok
        (if bool_decide (src = dst) then view w_timed else <[dst := x]> (delete src (view w_timed))) 1 /\
      match view w_timed !! dst with
      | Some _ => leaves w_timed (do_renamenx cmd w_timed).2 (fun b => resp_int b 0) (view w_timed) 0
      | None => leaves w_timed (do_renamenx cmd w_timed).2 (fun b => resp_int b 1)
                  (<[dst := x]> (delete src (view w_timed))) 1
      end
  end.
Proof. apply (rename_correct w_timed (words ["rename"; "k"; "k2"])); apply w_timed_ok. Defined.

(** FLUSHALL.  Every key, every deadline and every charge is gone: the
    dictionary, the entries and the heap are empty and the memory account is
    zero, whatever the state before. *)
Theorem flushall_correct (w : World) (cmd : list sstr) (Hw : world_ok w) :
  let w' := (do_flushall cmd w).2 in
  leaves w w' resp_ok ∅ 1 /\ ks w' = mkKS HMap_empty ∅ [] 0 (events (ks w)).
Proof. destruct (do_flushall cmd w) as [[] w'] eqn:E. by apply (do_flushall_leaves cmd). Qed.

Lemma flushall_correct_witness :
  let w' := (do_flushall (words ["flushall"]) w_timed).2 in
  leaves w_timed w' resp_ok ∅ 1 /\ ks w' = mkKS HMap_empty ∅ [] 0 (events (ks w_timed)).
Proof. apply (flushall_correct w_timed (words ["flushall"])). apply w_timed_ok. Defined.
