(* ===== verification/Containers.v ===== *)
(** * Entries that hold a container

    The steps shared by the hash, set and sorted-set handlers: opening the
    entry of a key, writing its container through the pointer, and the three
    ways the handlers finish (reaccount, remove the emptied key, or leave a
    container that only reorganised itself). *)
From S2P Require Import Prelude Buffer Resp StdString Deque Hashtable HashMap Heap Score ZSet HashSet State World Args Strings.

(** A write of the payload of an entry, through the entry pointer. *)
Definition put_val (k : bytes) (v : EntryValue) : M () := on_ks (fun _ => upd k (with_eval v)).

(** An entry as a handler holds it: consistent but for its own charge. *)
Definition holds_entry (w : World) (k : bytes) (e : Entry) : Prop :=
  ks_ok (ks w) /\ accounted_but k (ks w) /\ wf (out w) /\ ents (ks w) !! k = Some e.

Lemma holds_value w k e : holds_entry w k e -> value_ok (eval e).
Proof. intros (H & _ & _ & He). exact (ks_val _ H _ _ He). Qed.

Lemma open_create w key want r w' :
  world_ok w -> room w -> lookup_entry key want true false w = (r, w') ->
  quiet w w' /\
  match r with
  | LOK k => k = s_data key /\ exists e t, holds_entry w' k e /\ type e = want /\
      view w' = <[k := (aval (eval e), t)]> (view w) /\
      match view w !! k with
      | Some x => x = (aval (eval e), t) /\ view w' = view w /\ world_ok w'
      | None => aval (eval e) = fresh_val want /\ t = None
      end
  | LMISSING => False
  | LWRONGTYPE => world_ok w' /\ view w' = view w /\ exists v t, view w !! s_data key = Some (v, t) /\ atype v <> want
  end.
Proof.
  intros (Hok & Hacc & Hwf) Hroom H.
  pose proof (lookup_entry_spec w key want true false r w' Hok Hacc ltac:(done) ltac:(done) H) as Hs.
  cbn zeta in Hs. destruct Hs as (Hok' & Hq & Hr). pose proof Hq as (_ & Q2 & _). split; [done|].
  destruct r as [k| |]; [|naive_solver|].
  - destruct Hr as (-> & Hb & e & He & Ht & Hcase). split; [done|].
    assert (holds_entry w' (s_data key) e) by (split_and!; try done; by rewrite Q2).
    destruct Hcase as [(t & Hv & _ & Hvw & Ha)|(_ & Hnew & _ & Hvw & Hwas)].
    + exists e, t. split_and!; try done; [rewrite Hvw; symmetry; by apply insert_id|].
      rewrite Hv. split_and!; try done. split_and!; try done. by rewrite Q2.
    + exists e, None. split_and!; try done; [by rewrite Hnew|].
      destruct (view w !! s_data key) as [[v t]|]; [by destruct Hwas|]. by rewrite Hnew.
  - destruct Hr as (_ & Hv & Ha & Hx). split_and!; try done. split_and!; try done. by rewrite Q2.
Qed.

Lemma open_read w key want r w' :
  world_ok w -> lookup_entry key want false false w = (r, w') ->
  world_ok w' /\ view w' = view w /\ quiet w w' /\
  match r with
  | LOK k => k = s_data key /\ exists e t, holds_entry w' k e /\ type e = want /\ view w !! k = Some (aval (eval e), t)
  | LMISSING => view w !! s_data key = None
  | LWRONGTYPE => exists v t, view w !! s_data key = Some (v, t) /\ atype v <> want
  end.
Proof.
  intros Hw H. destruct (lookup_read _ _ _ _ _ Hw H) as (H1 & H2 & H3 & H4). split_and!; try done.
  destruct r as [k| |]; [|by destruct H4|done]. destruct H4 as (-> & e & t & He & Ht & _ & Hv & _).
  split; [done|]. exists e, t. destruct H1 as (K1 & K2 & K3). split_and!; try done. split_and!; try done.
  by apply accounted_weaken.
Qed.

(** The container is written and the entry charged again. *)
Lemma commit_val w k e v v0 t :
  holds_entry w k e -> value_ok v -> view w !! k = Some (v0, t) ->
  let w' := with_ks (mem_reaccount k (upd k (with_eval v) (ks w))) w in
  world_ok w' /\ view w' = <[k := (aval v, t)]> (view w).
Proof.
  intros (Hok & Hb & Hwf & He) Hv Hk.
  destruct (view_commit w _ k e v _ _ Hok Hb He Hv Hk eq_refl) as (C1 & C2 & C3). by split_and!.
Qed.

(** The container was emptied: the key goes. *)
Lemma drop_val w k e v :
  holds_entry w k e -> value_ok v ->
  let w' := with_ks (remove_key (now (env w)) k (upd k (with_eval v) (ks w))) w in
  world_ok w' /\ view w' = delete k (view w).
Proof.
  intros (Hok & Hb & Hwf & He) Hv.
  destruct (upd_val_spec (ks w) k e v Hok He Hv) as (U1 & U2 & U3).
  assert (Hk : is_Some (ents (upd k (with_eval v) (ks w)) !! k)) by (cbn; rewrite lookup_alter_eq, He; by eexists).
  destruct (remove_key_spec _ (now (env w)) k U1 Hk) as (R1 & R2 & R3 & _ & R5 & _).
  cbn zeta. split; [split_and!; [done| |done]|].
  - by apply R5, accounted_but_upd.
  - apply (lview_delete _ (ks w)); [|by rewrite <- U3]. cbn [ks with_ks].
    rewrite <- (delete_insert_eq _ k (aval v)), <- U2. done.
Qed.

(** The container only reorganised itself: same meaning, same size. *)
Lemma peek_val w k e v :
  holds_entry w k e -> value_ok v -> aval v = aval (eval e) ->
  entry_mem_usage (with_eval v e) = entry_mem_usage e ->
  let w' := with_ks (upd k (with_eval v) (ks w)) w in
  holds_entry w' k (with_eval v e) /\ view w' = view w /\ (accounted (ks w) -> world_ok w').
Proof.
  intros (Hok & Hb & Hwf & He) Hv Ha Hm.
  destruct (upd_val_spec (ks w) k e v Hok He Hv) as (U1 & U2 & U3). cbn zeta.
  assert (Hl : ents (upd k (with_eval v) (ks w)) !! k = Some (with_eval v e)) by (cbn; by rewrite lookup_alter_eq, He).
  split_and!.
  - split_and!; [done|by apply accounted_but_upd|done|done].
  - apply lview_same; [|done]. cbn [ks with_ks]. rewrite U2, Ha. apply insert_id.
    unfold vals. by rewrite lookup_fmap, He.
  - intros Hacc. split_and!; [done| |done]. intros j e' Hj. cbn [ks with_ks] in Hj.
    destruct (decide (j = k)) as [->|Hne].
    + rewrite Hl in Hj. injection Hj as <-. rewrite Hm. exact (Hacc k e He).
    + cbn in Hj. rewrite lookup_alter_ne in Hj by done. by apply (Hacc j).
Qed.

(** Replies of the branches that change nothing. *)
Lemma leaves_quiet w w1 rep :
  world_ok w1 -> view w1 = view w -> quiet w w1 -> writes_ok w -> (forall b, wf b -> wf (rep b)) ->
  leaves w (with_out (rep (out w1)) w1) rep (view w) 0.
Proof. intros Hw Hv Hq Hn Hrep. apply leaves_reply; try done. apply Hrep, Hw. Qed.

(** Replies of the branches that commit a change. *)
Lemma leaves_changed w w1 rep v :
  world_ok w1 -> view w1 = v -> quiet w w1 -> wf (out w) -> (forall b, wf b -> wf (rep b)) ->
  leaves w (with_out (rep (out w1)) (with_writes (u32 (writes w1 + 1)) w1)) rep v 1.
Proof.
  intros Hw Hv (Q1 & Q2 & Q3) Hwf Hrep.
  apply (leaves_intro w (with_writes (u32 (writes w1 + 1)) w1) rep); try done; cbn; [by rewrite Q1|by apply Hrep].
Qed.

(** The end of the handlers that remove members: [n] of them went. *)
Lemma shrink_val w k e v t n (empty : bool) w' :
  holds_entry w k e -> world_ok w -> writes_ok w -> view w !! k = Some (aval (eval e), t) -> value_ok v ->
  (n = 0 -> aval v = aval (eval e) /\ entry_mem_usage (with_eval v e) = entry_mem_usage e) ->
  (put_val k v ;;
   (if empty then remove k else if negb (n =? 0) then reaccount k else mret ()) ;;
   (if negb (n =? 0) then dirty 1 else mret ()) ;;
   r_int n) w = ((), w') ->
  leaves w w' (fun b => resp_int b n)
    (if empty then delete k (view w) else <[k := (aval v, t)]> (view w)) (if n =? 0 then 0 else 1).
Proof.
  intros He Hw Hn Hk Hv Hz H. assert (Hwf : wf (out w)) by apply Hw.
  assert (Hsame : writes w = u32 (writes w + 0)) by (by rewrite Z.add_0_r).
  destruct empty; [|destruct (n =? 0) eqn:En]; cbn [negb] in H.
  - destruct (drop_val w k e v He Hv) as [D1 D2]. destruct (n =? 0); cbn [negb] in H; injection H as <-.
    + apply (leaves_intro w (with_ks _ w) (fun b => resp_int b n)); auto with myred.
    + apply (leaves_changed w (with_ks _ w) (fun b => resp_int b n)); [done..|auto with myred].
  - injection H as <-. apply Z.eqb_eq in En. destruct (Hz En) as [Ha Hm].
    destruct (peek_val w k e v He Hv Ha Hm) as (_ & P2 & P3). rewrite Ha, insert_id by done.
    apply (leaves_intro w (with_ks _ w) (fun b => resp_int b n)); auto with myred. apply P3, Hw.
  - injection H as <-. destruct (commit_val w k e v _ t He Hv Hk) as [C1 C2].
    apply (leaves_changed w (with_ks _ w) (fun b => resp_int b n)); [done..|auto with myred].
Qed.
