(* ===== verification/Hashes.v ===== *)
(** * The hash commands (src/src/commands/commands.cpp, 2816-3109)

    Handlers over the table of a hash entry, proved against the view: the
    finite map of fields. *)
From S2P Require Import Prelude Buffer Resp StdString Deque Hashtable HashMap Heap Score ZSet HashSet State World Args Strings Glob Keys Containers.

(** [entry_hash(ent)] and a write to it through the pointer. *)
Definition entry_hash (k : bytes) : M (HMap HashNode) :=
  gets (fun w => match ents (ks w) !! k with
                 | Some e => match eval e with VHash h => h | _ => HMap_empty end
                 | None => HMap_empty
                 end).
Definition set_hash (k : bytes) (h : HMap HashNode) : M () := put_val k (VHash h).

(** [hash_get] migrates nodes, so it writes the table. *)
Definition hash_get_at (k f : bytes) : M (option HashNode) :=
  h ← entry_hash k;
  let '(r, h') := hash_get h f in
  set_hash k h' ;; mret r.

(** The pairs of [cmd\[i..\]]; a last odd argument is ignored. *)
Fixpoint hset_loop (h : HMap HashNode) (added : Z) (args : list sstr) : HMap HashNode * Z :=
  match args with
  | f :: v :: l =>
      let '(fresh, h) := hash_set h (s_data f) (s_copy (s_data v)) in
      hset_loop h (if (fresh : bool) then added + 1 else added) l
  | _ => (h, added)
  end.

Definition do_hset (cmd : list sstr) : M () :=
  if negb ((length cmd - 2) mod 2 =? 0)%nat then r_err (bs "ERR wrong number of arguments for 'hset'")
  else
    r ← lookup_entry (arg cmd 1) T_HASH true false;
    match r with
    | LOK ent =>
        h ← entry_hash ent;
        let '(h', added) := hset_loop h 0 (drop 2 cmd) in
        set_hash ent h' ;; reaccount ent ;; dirty 1 ;; r_int added
    | _ => r_err MSG_WRONGTYPE_SHORT
    end.

(** The read handlers: [found] answers from the node, [absent] otherwise. *)
Definition hash_read (cmd : list sstr) (missing : M ()) (found : bytes -> M ()) : M () :=
  r ← lookup_entry (arg cmd 1) T_HASH false false;
  match r with
  | LWRONGTYPE => r_err MSG_WRONGTYPE_SHORT
  | LMISSING => missing
  | LOK ent => found ent
  end.

Definition do_hget (cmd : list sstr) : M () :=
  hash_read cmd r_nil (fun ent =>
    hn ← hash_get_at ent (argd cmd 2);
    match hn with None => r_nil | Some hn => r_str (s_data (value hn)) end).

Definition do_hexists (cmd : list sstr) : M () :=
  hash_read cmd (r_int 0) (fun ent =>
    hn ← hash_get_at ent (argd cmd 2);
    r_int match hn with None => 0 | Some _ => 1 end).

Definition do_hstrlen (cmd : list sstr) : M () :=
  hash_read cmd (r_int 0) (fun ent =>
    hn ← hash_get_at ent (argd cmd 2);
    r_int match hn with None => 0 | Some hn => Z.of_nat (length (s_data (value hn))) end).

Definition do_hlen (cmd : list sstr) : M () :=
  hash_read cmd (r_int 0) (fun ent => h ← entry_hash ent; r_int (Z.of_nat (hm_size h))).

Fixpoint hdel_loop (h : HMap HashNode) (removed : Z) (fields : list bytes) : HMap HashNode * Z :=
  match fields with
  | f :: l =>
      let '(hit, h) := hash_del h f in
      hdel_loop h (if (hit : bool) then removed + 1 else removed) l
  | [] => (h, removed)
  end.

Definition do_hdel (cmd : list sstr) : M () :=
  hash_read cmd (r_int 0) (fun ent =>
    h ← entry_hash ent;
    let '(h', removed) := hdel_loop h 0 (s_data <$> drop 2 cmd) in
    set_hash ent h' ;;
    (if (hm_size h' =? 0)%nat then remove ent
     else if negb (removed =? 0) then reaccount ent else mret ()) ;;
    (if negb (removed =? 0) then dirty 1 else mret ()) ;;
    r_int removed).

(** [resp_map] of the reply protocol in force *)
Definition r_map (n : Z) : M () := reply_p (fun p b => resp_map p b n).

(** [cb_hemit]; mode 0 is HGETALL, 1 HKEYS, 2 HVALS. *)
Definition cb_hemit (mode : Z) (hn : HashNode) : M () :=
  if mode =? 0 then r_str (s_data (field hn)) ;; r_str (s_data (value hn))
  else if mode =? 1 then r_str (s_data (field hn))
  else r_str (s_data (value hn)).

Definition h_collect_reply (cmd : list sstr) (mode : Z) : M () :=
  let header n := if mode =? 0 then r_map n else r_arr n in
  hash_read cmd (header 0) (fun ent =>
    h ← entry_hash ent;
    header (u32 (Z.of_nat (hm_size h))) ;; for_each (hm_foreach h) (cb_hemit mode)).

Definition do_hgetall (cmd : list sstr) : M () := h_collect_reply cmd 0.
Definition do_hkeys (cmd : list sstr) : M () := h_collect_reply cmd 1.
Definition do_hvals (cmd : list sstr) : M () := h_collect_reply cmd 2.

Definition do_hmget (cmd : list sstr) : M () :=
  r ← lookup_entry (arg cmd 1) T_HASH false false;
  match r with
  | LWRONGTYPE => r_err MSG_WRONGTYPE_SHORT
  | _ =>
      r_arr (u32 (Z.of_nat (length cmd) - 2)) ;;
      for_each (s_data <$> drop 2 cmd) (fun f =>
        hn ← (match r with LOK ent => hash_get_at ent f | _ => mret None end : M (option HashNode));
        match hn with Some hn => r_str (s_data (value hn)) | None => r_nil end)
  end.

Definition do_hsetnx (cmd : list sstr) : M () :=
  r ← lookup_entry (arg cmd 1) T_HASH true false;
  match r with
  | LOK ent =>
      hn ← hash_get_at ent (argd cmd 2);
      match hn with
      | Some _ => r_int 0
      | None =>
          h ← entry_hash ent;
          set_hash ent (hash_set h (argd cmd 2) (s_copy (argd cmd 3))).2 ;;
          reaccount ent ;; dirty 1 ;; r_int 1
      end
  | _ => r_err MSG_WRONGTYPE_SHORT
  end.

Definition do_hincrby (cmd : list sstr) : M () :=
  match str2int (argd cmd 3) with
  | None => r_err MSG_NOT_INT
  | Some incr =>
      r ← lookup_entry (arg cmd 1) T_HASH true false;
      match r with
      | LOK ent =>
          hn ← hash_get_at ent (argd cmd 2);
          match (match hn with None => Some 0 | Some hn => str2int (s_data (value hn)) end) with
          | None => r_err (bs "ERR hash value is not an integer")
          | Some cur =>
              if ((0 <? incr) && (INT64_MAX - incr <? cur)) || ((incr <? 0) && (cur <? INT64_MIN - incr))
              then r_err MSG_OVERFLOW
              else
                h ← entry_hash ent;
                set_hash ent (hash_set h (argd cmd 2) (s_copy (print_i64 (cur + incr)))).2 ;;
                reaccount ent ;; dirty 1 ;; r_int (cur + incr)
          end
      | _ => r_err MSG_WRONGTYPE_SHORT
      end
  end.

(** [cb_hscan] over the nodes visited; [None] when a match leaves its subject. *)
Fixpoint hscan_items (pattern : option bytes) (nodes : list HashNode) : option (list bytes) :=
  match nodes with
  | [] => Some []
  | hn :: l =>
      let keep := match pattern with None => GDone true | Some p => glob p (s_data (field hn)) end in
      match keep with
      | GDone b => rest ← hscan_items pattern l;
          Some (if b then s_data (field hn) :: s_data (value hn) :: rest else rest)
      | _ => None
      end
  end.

Definition do_hscan (cmd : list sstr) : M (option ()) :=
  let fail m := r_err m ;; mret (Some ()) in
  r ← lookup_entry (arg cmd 1) T_HASH false false;
  match r with
  | LWRONGTYPE => fail MSG_WRONGTYPE_SHORT
  | _ =>
      match str2int (argd cmd 2) with
      | None => fail (bs "ERR invalid cursor")
      | Some cursor =>
          if cursor <? 0 then fail (bs "ERR invalid cursor")
          else
            match scan_opts (length cmd) (s_data <$> drop 3 cmd) 10 None with
            | inl m => fail m
            | inr (count, pattern) =>
                r_arr 2 ;;
                match r with
                | LOK ent =>
                    h ← entry_hash ent;
                    let '(next, nodes) := hm_scan h cursor count in
                    match hscan_items pattern nodes with
                    | None => mret None
                    | Some items => r_str (print_u64 next) ;; r_strs items ;; mret (Some ())
                    end
                | _ => r_str (bs "0") ;; r_arr 0 ;; mret (Some ())
                end
            end
      end
  end.

(** ** The table of an entry *)

Definition hash_at (v : gmap bytes (AVal * option Z)) (k : bytes) : gmap bytes bytes * option Z :=
  match v !! k with Some (AHash m, t) => (m, t) | _ => (∅, None) end.

Definition is_hash (o : option (AVal * option Z)) : bool :=
  match o with Some (AHash _, _) | None => true | Some _ => false end.

Lemma hash_type e : type e = T_HASH -> exists h, eval e = VHash h.
Proof. unfold type. destruct (eval e); try done. by eexists. Qed.

Lemma not_hash v t : atype v <> T_HASH -> is_hash (Some (v, t)) = false.
Proof. by destruct v. Qed.

Lemma entry_hash_run w k e h : ents (ks w) !! k = Some e -> eval e = VHash h -> entry_hash k w = (h, w).
Proof. unfold entry_hash, gets. by intros -> ->. Qed.

(** [hash_get] leaves the same fields and the same charge. *)
Lemma hash_get_at_run w k e h f :
  holds_entry w k e -> eval e = VHash h ->
  exists h', hash_get_at k f w = (to_map field_key h !! f, with_ks (upd k (with_eval (VHash h')) (ks w)) w) /\
    hash_ok h' /\ hash_map h' = hash_map h /\
    let w' := with_ks (upd k (with_eval (VHash h')) (ks w)) w in
    holds_entry w' k (with_eval (VHash h') e) /\ view w' = view w /\ (accounted (ks w) -> world_ok w').
Proof.
  intros He Hev. pose proof (holds_value _ _ _ He) as Hok. rewrite Hev in Hok.
  unfold hash_get_at, mbind, state_bind. rewrite (entry_hash_run w k e h) by (apply He || done).
  destruct (hash_get h f) as [r h'] eqn:E. destruct (table_lookup _ _ _ _ _ _ Hok E) as (Hok' & Hm & ->).
  exists h'. split; [done|]. assert (Hmap : hash_map h' = hash_map h) by (unfold hash_map; by rewrite Hm).
  split; [done|]. split; [done|]. apply peek_val; [done|done|by rewrite Hev; cbn; rewrite Hmap|].
  unfold entry_mem_usage. cbn [ekey eval with_eval]. rewrite Hev.
  destruct Hok as [_ Hb], Hok' as [_ Hb']. by rewrite Hb, Hb', Hm.
Qed.

Lemma lookup_field h f : (fun hn => s_data (value hn)) <$> to_map field_key h !! f = hash_map h !! f.
Proof. unfold hash_map. by rewrite lookup_fmap. Qed.

(** ** Reads *)

(** A read handler that answers by one field. *)
Lemma hash_read_field cmd (missing : Z -> Buffer -> Buffer) (rep : option bytes -> Z -> Buffer -> Buffer) w w' :
  world_ok w -> writes_ok w ->
  (forall p b, wf b -> wf (missing p b)) -> (forall o p b, wf b -> wf (rep o p b)) ->
  hash_read cmd (reply_p missing) (fun ent => hn ← hash_get_at ent (argd cmd 2);
     reply_p (rep ((fun hn => s_data (value hn)) <$> hn))) w = ((), w') ->
  leaves w w' (fun b => match view w !! argd cmd 1 with
                        | None => missing (g_reply_proto (env w)) b
                        | Some (AHash m, _) => rep (m !! argd cmd 2) (g_reply_proto (env w)) b
                        | Some _ => resp_err b MSG_WRONGTYPE_SHORT
                        end) (view w) 0.
Proof.
  intros Hw Hn Hmis Hrep H. unfold hash_read, mbind at 1, state_bind at 1 in H.
  destruct (lookup_entry (arg cmd 1) T_HASH false false w) as [r w1] eqn:E.
  destruct (open_read _ _ _ _ _ Hw E) as (Hw1 & Hv & Hq & Hr). pose proof Hq as (_ & _ & Q3).
  change (s_data (arg cmd 1)) with (argd cmd 1) in Hr. destruct r as [k| |].
  - destruct Hr as (-> & e & t & He & Ht & Hk). destruct (hash_type e Ht) as [h Hev]. rewrite Hk, Hev. cbn [aval].
    destruct (hash_get_at_run w1 _ e h (argd cmd 2) He Hev) as (h' & Hrun & _ & _ & _ & Hpv & Hpw).
    unfold mbind, state_bind in H. rewrite Hrun in H. injection H as <-. rewrite lookup_field.
    set (w2 := with_ks _ w1) in *. rewrite <- Q3. specialize (Hpw (proj1 (proj2 Hw1))).
    apply (leaves_quiet w w2 (rep (hash_map h !! argd cmd 2) (g_reply_proto (env w1)))); auto. by rewrite Hpv.
  - injection H as <-. rewrite Hr, <- Q3. by apply (leaves_quiet w w1 (missing (g_reply_proto (env w1)))); auto.
  - injection H as <-. destruct Hr as (v & t & -> & Hty).
    destruct v; try done; by apply (leaves_quiet w w1 (fun b => resp_err b MSG_WRONGTYPE_SHORT)); auto with myred.
Qed.

Lemma hash_reads cmd missing rep w :
  world_ok w -> writes_ok w ->
  (forall p b, wf b -> wf (missing p b)) -> (forall o p b, wf b -> wf (rep o p b)) ->
  leaves w (hash_read cmd (reply_p missing) (fun ent => hn ← hash_get_at ent (argd cmd 2);
              reply_p (rep ((fun hn => s_data (value hn)) <$> hn))) w).2
    (fun b => match view w !! argd cmd 1 with
              | None => missing (g_reply_proto (env w)) b
              | Some (AHash m, _) => rep (m !! argd cmd 2) (g_reply_proto (env w)) b
              | Some _ => resp_err b MSG_WRONGTYPE_SHORT
              end) (view w) 0.
Proof.
  intros. destruct (hash_read _ _ _ w) as [[] w'] eqn:E. by apply (hash_read_field cmd missing rep).
Qed.

(** The three handlers in that form. *)
Lemma hash_read_ext cmd missing missing' found found' w :
  (forall w, missing w = missing' w) -> (forall k w, found k w = found' k w) ->
  hash_read cmd missing found w = hash_read cmd missing' found' w.
Proof.
  intros Hm Hf. unfold hash_read, mbind, state_bind. by destruct (lookup_entry _ _ _ _ w) as [[] w1].
Qed.

Lemma do_hget_reads cmd w :
  do_hget cmd w = hash_read cmd (reply_p (fun p b => resp_nil p b)) (fun ent => hn ← hash_get_at ent (argd cmd 2);
    reply_p ((fun o p b => match o with None => resp_nil p b | Some v => resp_str b v end)
               ((fun hn => s_data (value hn)) <$> hn))) w.
Proof.
  apply hash_read_ext; [done|]. intros k w1. unfold mbind, state_bind. by destruct (hash_get_at _ _ w1) as [[] w2].
Qed.

Lemma do_hexists_reads cmd w :
  do_hexists cmd w = hash_read cmd (reply_p (fun p b => resp_int b 0)) (fun ent => hn ← hash_get_at ent (argd cmd 2);
    reply_p ((fun o p b => resp_int b (match o with None => 0 | Some _ => 1 end))
               ((fun hn => s_data (value hn)) <$> hn))) w.
Proof.
  apply hash_read_ext; [done|]. intros k w1. unfold mbind, state_bind. by destruct (hash_get_at _ _ w1) as [[] w2].
Qed.

Lemma do_hstrlen_reads cmd w :
  do_hstrlen cmd w = hash_read cmd (reply_p (fun p b => resp_int b 0)) (fun ent => hn ← hash_get_at ent (argd cmd 2);
    reply_p ((fun o p b => resp_int b (match o with None => 0 | Some v => Z.of_nat (length v) end))
               ((fun hn => s_data (value hn)) <$> hn))) w.
Proof.
  apply hash_read_ext; [done|]. intros k w1. unfold mbind, state_bind. by destruct (hash_get_at _ _ w1) as [[] w2].
Qed.

(** ** Writes *)

(** The fields after HSET's pairs; the ones added are the growth of the map. *)
Fixpoint put_pairs (m : gmap bytes bytes) (args : list sstr) : gmap bytes bytes :=
  match args with
  | f :: v :: l => put_pairs (<[s_data f := s_data v]> m) l
  | _ => m
  end.

Lemma size_insert_Z (m : gmap bytes bytes) k v :
  Z.of_nat (base.size (<[k := v]> m)) = Z.of_nat (base.size m) + (if bool_decide (m !! k = None) then 1 else 0).
Proof.
  case_bool_decide as E; [rewrite map_size_insert_None by done; lia|].
  destruct (m !! k) eqn:Ek; [|done]. rewrite map_size_insert_Some by eauto. lia.
Qed.

Lemma hset_loop_spec n args h a h' a' :
  (length args <= n)%nat -> hash_ok h -> hset_loop h a args = (h', a') ->
  hash_ok h' /\ hash_map h' = put_pairs (hash_map h) args /\
  a' = a + Z.of_nat (base.size (hash_map h')) - Z.of_nat (base.size (hash_map h)).
Proof.
  revert args h a. induction n as [|n IH]; intros args h a Hl Hok H.
  { destruct args; [|cbn in Hl; lia]. injection H as <- <-. split_and!; try done. lia. }
  destruct args as [|f [|v args]]; [injection H as <- <-; split_and!; try done; lia..|].
  cbn [hset_loop put_pairs] in *. destruct (hash_set h (s_data f) (s_copy (s_data v))) as [b h1] eqn:E.
  destruct (hash_set_spec _ _ _ _ _ Hok E) as (Hok1 & Hm1 & Hb).
  apply IH in H as (H1 & H2 & ->); [|cbn in Hl; lia|done].
  change (s_data (s_copy (s_data v))) with (s_data v) in Hm1. rewrite Hm1 in H2. split_and!; [done|done|].
  rewrite Hm1, size_insert_Z, Hb. case_bool_decide; lia.
Qed.

Lemma put_pairs_nonempty m args : (2 <= length args)%nat -> put_pairs m args <> ∅.
Proof.
  assert (Hgen : forall n args m, (length args <= n)%nat -> m <> ∅ -> put_pairs m args <> ∅).
  { induction n as [|n IH]; intros [|f [|v l]] m0 Hl Hm; cbn in *; try done; try lia.
    apply IH; [lia|]. apply insert_non_empty. }
  destruct args as [|f [|v l]]; cbn; try lia. intros _. apply (Hgen (length l)); [lia|]. apply insert_non_empty.
Qed.

(** The entry a writing handler opens. *)
Lemma open_hash w key r w1 :
  world_ok w -> room w -> lookup_entry key T_HASH true false w = (r, w1) ->
  quiet w w1 /\
  match r with
  | LOK k => k = s_data key /\ exists e h t, holds_entry w1 k e /\ eval e = VHash h /\
      is_hash (view w !! k) = true /\ hash_at (view w) k = (hash_map h, t) /\
      view w1 = <[k := (AHash (hash_map h), t)]> (view w) /\
      (hash_map h <> ∅ -> world_ok w1 /\ view w1 = view w)
  | LMISSING => False
  | LWRONGTYPE => world_ok w1 /\ view w1 = view w /\ is_hash (view w !! s_data key) = false
  end.
Proof.
  intros Hw Hroom E. destruct (open_create _ _ _ _ _ Hw Hroom E) as (Hq & Hr). split; [done|].
  destruct r as [k| |]; [|done|].
  - destruct Hr as (-> & e & t & He & Ht & Hv & Hcase). destruct (hash_type e Ht) as [h Hev].
    rewrite Hev in Hv, Hcase. cbn [aval] in Hv, Hcase. split; [done|]. exists e, h, t.
    unfold hash_at. destruct (view w !! s_data key) as [[v0 t0]|].
    + destruct Hcase as (Hx & Hv' & Hw1). injection Hx as -> ->. split_and!; done.
    + destruct Hcase as [Hf ->]. injection Hf as Hf. rewrite Hf in Hv |- *. split_and!; done.
  - destruct Hr as (Hw1 & Hv & v & t & -> & Hty). split_and!; try done. by apply not_hash.
Qed.

(** The end of the writing handlers. *)
Lemma hash_written w w1 k e h t h' z :
  wf (out w) -> quiet w w1 -> holds_entry w1 k e -> view w1 = <[k := (AHash (hash_map h), t)]> (view w) -> hash_ok h' ->
  leaves w ((set_hash k h' ;; reaccount k ;; dirty 1 ;; r_int z) w1).2 (fun b => resp_int b z)
    (<[k := (AHash (hash_map h'), t)]> (view w)) 1.
Proof.
  intros Hwf Hq He Hv Hok'.
  destruct (commit_val w1 k e (VHash h') (AHash (hash_map h)) t He Hok') as [C1 C2]; [rewrite Hv; apply lookup_insert_eq|].
  rewrite Hv, insert_insert_eq in C2.
  apply (leaves_changed w (with_ks _ w1) (fun b => resp_int b z)); auto with myred.
Qed.

Lemma do_hset_leaves cmd w w' :
  world_ok w -> writes_ok w -> room w -> ((length cmd - 2) mod 2 = 0)%nat -> do_hset cmd w = ((), w') ->
  let k := argd cmd 1 in
  let m := (hash_at (view w) k).1 in
  let m' := put_pairs m (drop 2 cmd) in
  if is_hash (view w !! k)
  then leaves w w' (fun b => resp_int b (Z.of_nat (base.size m') - Z.of_nat (base.size m)))
         (<[k := (AHash m', (hash_at (view w) k).2)]> (view w)) 1
  else leaves w w' (fun b => resp_err b MSG_WRONGTYPE_SHORT) (view w) 0.
Proof.
  intros Hw Hn Hroom Hpar H. unfold do_hset in H. rewrite (proj2 (Nat.eqb_eq _ _) Hpar) in H. cbn [negb] in H.
  unfold mbind at 1, state_bind at 1 in H. cbn zeta.
  destruct (lookup_entry (arg cmd 1) T_HASH true false w) as [r w1] eqn:E.
  destruct (open_hash _ _ _ _ Hw Hroom E) as (Hq & Hr). destruct Hw as (_ & _ & Hwf).
  change (s_data (arg cmd 1)) with (argd cmd 1) in Hr. destruct r as [k| |]; [|done|].
  - destruct Hr as (-> & e & h & t & He & Hev & -> & -> & Hv & _). cbn [fst snd].
    unfold mbind at 1, state_bind at 1 in H. rewrite (entry_hash_run w1 _ e h (proj2 (proj2 (proj2 He))) Hev) in H.
    destruct (hset_loop h 0 (drop 2 cmd)) as [h' a'] eqn:El.
    pose proof (holds_value _ _ _ He) as Hok. rewrite Hev in Hok.
    destruct (hset_loop_spec (length (drop 2 cmd)) _ _ _ _ _ ltac:(done) Hok El) as (Hok' & Hm' & ->).
    rewrite <- Hm', Z.add_0_l in *. change w' with ((), w').2. rewrite <- H. by apply (hash_written _ _ _ e h).
  - destruct Hr as (Hw1 & Hv & ->). injection H as <-.
    apply (leaves_quiet w w1 (fun b => resp_err b MSG_WRONGTYPE_SHORT)); auto with myred.
Qed.

(** The handlers that read one field and then may write it: [next] is the
    reply when the old value stands, or the new value with the reply. *)
Lemma hash_update_leaves cmd (next : option bytes -> (Buffer -> Buffer) + bytes * Z)
    (body : bytes -> option HashNode -> M ()) w w' :
  world_ok w -> writes_ok w -> room w ->
  (forall r, next None <> inl r) -> (forall o r b, next o = inl r -> wf b -> wf (r b)) ->
  (forall k hn w1, body k hn w1 =
     match next ((fun hn => s_data (value hn)) <$> hn) with
     | inl r => ((), with_out (r (out w1)) w1)
     | inr (v, z) => (h ← entry_hash k; set_hash k (hash_set h (argd cmd 2) (s_copy v)).2 ;;
                      reaccount k ;; dirty 1 ;; r_int z) w1
     end) ->
  (r ← lookup_entry (arg cmd 1) T_HASH true false;
   match r with
   | LOK ent => hn ← hash_get_at ent (argd cmd 2); body ent hn
   | _ => r_err MSG_WRONGTYPE_SHORT
   end) w = ((), w') ->
  let k := argd cmd 1 in
  let m := (hash_at (view w) k).1 in
  if is_hash (view w !! k)
  then match next (m !! argd cmd 2) with
       | inl r => leaves w w' r (view w) 0
       | inr (v, z) => leaves w w' (fun b => resp_int b z)
           (<[k := (AHash (<[argd cmd 2 := v]> m), (hash_at (view w) k).2)]> (view w)) 1
       end
  else leaves w w' (fun b => resp_err b MSG_WRONGTYPE_SHORT) (view w) 0.
Proof.
  intros Hw Hn Hroom Hnone Hwfr Hbody H. unfold mbind at 1, state_bind at 1 in H. cbn zeta.
  destruct (lookup_entry (arg cmd 1) T_HASH true false w) as [r w1] eqn:E.
  destruct (open_hash _ _ _ _ Hw Hroom E) as (Hq & Hr). destruct Hw as (_ & _ & Hwf).
  change (s_data (arg cmd 1)) with (argd cmd 1) in Hr. destruct r as [k| |]; [|done|].
  2:{ destruct Hr as (Hw1 & Hv & ->). injection H as <-.
      apply (leaves_quiet w w1 (fun b => resp_err b MSG_WRONGTYPE_SHORT)); auto with myred. }
  destruct Hr as (-> & e & h & t & He & Hev & -> & -> & Hv & Hex). cbn [fst snd].
  destruct (hash_get_at_run w1 _ e h (argd cmd 2) He Hev) as (h' & Hrun & Hok' & Hm' & He' & Hv' & Hw').
  unfold mbind at 1, state_bind at 1 in H. rewrite Hrun in H. cbn beta iota in H.
  set (w2 := with_ks _ w1) in *. rewrite Hbody, lookup_field in H.
  destruct (next (hash_map h !! argd cmd 2)) as [rep|[v z]] eqn:En.
  - destruct (decide (hash_map h = ∅)) as [Hz|Hz]; [rewrite Hz, lookup_empty in En; by destruct (Hnone rep)|].
    destruct (Hex Hz) as [(Hw1 & Ha & _) Hv1]. injection H as <-.
    apply (leaves_quiet w w2 rep); eauto. by rewrite Hv'.
  - unfold mbind at 1, state_bind at 1 in H.
    rewrite (entry_hash_run w2 _ _ h' (proj2 (proj2 (proj2 He'))) eq_refl) in H.
    destruct (hash_set h' (argd cmd 2) (s_copy v)) as [b h2] eqn:Es.
    destruct (hash_set_spec _ _ _ _ _ Hok' Es) as (Hok2 & Hm2 & _). rewrite Hm' in Hm2.
    change (<[argd cmd 2 := v]> (hash_map h)) with (<[argd cmd 2 := s_data (s_copy v)]> (hash_map h)). rewrite <- Hm2.
    change w' with ((), w').2. rewrite <- H. apply (hash_written w w2 _ (with_eval (VHash h') e) h t); try done. by rewrite Hv'.
Qed.

Lemma do_hsetnx_leaves cmd w w' :
  world_ok w -> writes_ok w -> room w -> do_hsetnx cmd w = ((), w') ->
  let k := argd cmd 1 in
  let f := argd cmd 2 in
  let m := (hash_at (view w) k).1 in
  if is_hash (view w !! k)
  then if decide (m !! f = None)
       then leaves w w' (fun b => resp_int b 1)
              (<[k := (AHash (<[f := argd cmd 3]> m), (hash_at (view w) k).2)]> (view w)) 1
       else leaves w w' (fun b => resp_int b 0) (view w) 0
  else leaves w w' (fun b => resp_err b MSG_WRONGTYPE_SHORT) (view w) 0.
Proof.
  intros Hw Hn Hroom H.
  eapply (hash_update_leaves cmd (fun o => match o with Some _ => inl (fun b => resp_int b 0) | None => inr (argd cmd 3, 1) end))
    in H; [|done..|by intros [] r b E; [injection E as <-; auto with myred|]|by intros k [hn|] w1].
  cbn zeta in *. destruct (is_hash _); [|done]. by destruct (_ !! argd cmd 2); destruct (decide _).
Qed.

(** What HINCRBY answers for the old value of the field. *)
Definition hincr_next (incr : Z) (o : option bytes) : (Buffer -> Buffer) + bytes * Z :=
  match (match o with None => Some 0 | Some v => str2int v end) with
  | None => inl (fun b => resp_err b (bs "ERR hash value is not an integer"))
  | Some cur =>
      if in_i64 (cur + incr) then inr (print_i64 (cur + incr), cur + incr)
      else inl (fun b => resp_err b MSG_OVERFLOW)
  end.

Lemma do_hincrby_leaves cmd incr w w' :
  world_ok w -> writes_ok w -> room w -> str2int (argd cmd 3) = Some incr -> do_hincrby cmd w = ((), w') ->
  let k := argd cmd 1 in
  let f := argd cmd 2 in
  let m := (hash_at (view w) k).1 in
  if is_hash (view w !! k)
  then match hincr_next incr (m !! f) with
       | inl r => leaves w w' r (view w) 0
       | inr (v, z) => leaves w w' (fun b => resp_int b z)
           (<[k := (AHash (<[f := v]> m), (hash_at (view w) k).2)]> (view w)) 1
       end
  else leaves w w' (fun b => resp_err b MSG_WRONGTYPE_SHORT) (view w) 0.
Proof.
  intros Hw Hn Hroom Hi H. unfold do_hincrby in H. rewrite Hi in H. apply str2int_sound in Hi as [_ Hi].
  refine (hash_update_leaves cmd (hincr_next incr) _ w w' Hw Hn Hroom _ _ _ H).
  - intros r. unfold hincr_next. assert (in_i64 (0 + incr) = true) as -> by (unfold in_i64; lia). done.
  - intros o r b. unfold hincr_next. destruct (match o with None => _ | Some _ => _ end) as [cur|]; [destruct (in_i64 _)|];
      intros E; [done|injection E as <-; auto with myred..].
  - intros k hn w1. unfold hincr_next. destruct hn as [hn|]; cbn [fmap option_fmap option_map].
    + destruct (str2int (s_data (value hn))) as [cur|] eqn:Ec; [|done]. apply str2int_sound in Ec as [_ Hc].
      rewrite incr_overflow_check by done. by destruct (in_i64 _).
    + rewrite incr_overflow_check by (unfold INT64_MIN, INT64_MAX in *; lia). by destruct (in_i64 _).
Qed.

(** ** HDEL *)

Fixpoint drop_keys {A} (l : list bytes) (m : gmap bytes A) : gmap bytes A :=
  match l with [] => m | k :: l => drop_keys l (delete k m) end.

Lemma drop_keys_sub {A} (l : list bytes) (m : gmap bytes A) : drop_keys l m ⊆ m.
Proof.
  revert m. induction l as [|k l IH]; intros m; [done|]. cbn. etrans; [apply IH|]. apply delete_subseteq.
Qed.

Lemma drop_keys_fmap {A B} (f : A -> B) (l : list bytes) (m : gmap bytes A) : f <$> drop_keys l m = drop_keys l (f <$> m).
Proof. revert m. induction l as [|k l IH]; intros m; [done|]. cbn. by rewrite IH, fmap_delete. Qed.

Lemma hdel_loop_spec l h a h' a' :
  hash_ok h -> hdel_loop h a l = (h', a') ->
  hash_ok h' /\ to_map field_key h' = drop_keys l (to_map field_key h) /\
  a' = a + Z.of_nat (base.size (to_map field_key h)) - Z.of_nat (base.size (to_map field_key h')).
Proof.
  revert h a. induction l as [|f l IH]; intros h a Hok H; [injection H as <- <-; split_and!; try done; lia|].
  cbn [hdel_loop] in H. unfold hash_del in H. destruct (hm_delete h (str_hash f) (key_eq field_key f)) as [[hn|] h1] eqn:E.
  - destruct (table_delete _ _ _ _ _ _ Hok E) as (Hok1 & Hm1 & Hf).
    apply IH in H as (H1 & H2 & ->); [|done]. split_and!; [done|by rewrite H2, Hm1|].
    rewrite Hm1, map_size_delete, Hf. cbn.
    assert (base.size (to_map field_key h) <> 0)%nat by (intros Hz; apply map_size_empty_inv in Hz; by rewrite Hz in Hf). lia.
  - destruct (table_delete_none _ _ _ _ _ Hok E) as (Hok1 & Hm1 & Hf).
    apply IH in H as (H1 & H2 & ->); [|done]. split_and!; [done| |by rewrite Hm1].
    rewrite H2, Hm1. cbn. by rewrite delete_id.
Qed.

Lemma do_hdel_leaves cmd w w' :
  world_ok w -> writes_ok w -> do_hdel cmd w = ((), w') ->
  let k := argd cmd 1 in
  match view w !! k with
  | None => leaves w w' (fun b => resp_int b 0) (view w) 0
  | Some (AHash m, t) =>
      let m' := drop_keys (s_data <$> drop 2 cmd) m in
      let n := Z.of_nat (base.size m) - Z.of_nat (base.size m') in
      leaves w w' (fun b => resp_int b n)
        (if decide (m' = ∅) then delete k (view w) else <[k := (AHash m', t)]> (view w)) (if n =? 0 then 0 else 1)
  | Some _ => leaves w w' (fun b => resp_err b MSG_WRONGTYPE_SHORT) (view w) 0
  end.
Proof.
  intros Hw Hn H. unfold do_hdel, hash_read, mbind at 1, state_bind at 1 in H. cbn zeta.
  destruct (lookup_entry (arg cmd 1) T_HASH false false w) as [r w1] eqn:E.
  destruct (open_read _ _ _ _ _ Hw E) as (Hw1 & Hv & Hq & Hr). pose proof Hq as (Q1 & Q2 & Q3).
  pose proof Hw as (_ & _ & Hwf). change (s_data (arg cmd 1)) with (argd cmd 1) in Hr. destruct r as [k| |].
  2:{ injection H as <-. rewrite Hr. apply (leaves_quiet w w1 (fun b => resp_int b 0)); auto with myred. }
  2:{ injection H as <-. destruct Hr as (v & t & -> & Hty).
      destruct v; try done; by apply (leaves_quiet w w1 (fun b => resp_err b MSG_WRONGTYPE_SHORT)); auto with myred. }
  destruct Hr as (-> & e & t & He & Ht & Hk). destruct (hash_type e Ht) as [h Hev]. rewrite Hk, Hev. cbn [aval].
  unfold mbind, state_bind in H. rewrite (entry_hash_run w1 _ e h (proj2 (proj2 (proj2 He))) Hev) in H.
  destruct (hdel_loop h 0 (s_data <$> drop 2 cmd)) as [h' a'] eqn:El.
  pose proof (holds_value _ _ _ He) as Hok. rewrite Hev in Hok.
  destruct (hdel_loop_spec _ _ _ _ _ Hok El) as (Hok' & Hm' & ->).
  assert (Hmap : hash_map h' = drop_keys (s_data <$> drop 2 cmd) (hash_map h))
    by (unfold hash_map; by rewrite Hm', drop_keys_fmap).
  assert (Hsz : forall x, base.size (hash_map x) = base.size (to_map field_key x)) by (intros x; apply map_size_fmap).
  rewrite <- Hmap, !Hsz, Z.add_0_l in *.
  assert (Hemp : (hm_size h' =? 0)%nat = bool_decide (hash_map h' = ∅)).
  { rewrite (hm_size_map field_key h' (proj1 Hok')), <- Hsz.
    case_bool_decide as Hx; [by rewrite Hx|]. apply Nat.eqb_neq. intros Hz. by apply map_size_empty_inv in Hz. }
  rewrite Hemp in H. apply (leaves_after w w1); [done|]. rewrite <- Hv in Hk |- *.
  eapply (shrink_val w1 (argd cmd 1) e (VHash h') t _ (bool_decide (hash_map h' = ∅))) in H;
    [|done|done|by unfold writes_ok; rewrite Q1|done|done|].
  { by case_bool_decide; destruct (decide (hash_map h' = ∅)). }
  intros Hz. assert (Hsame : to_map field_key h' = to_map field_key h).
  { apply map_subseteq_size_eq; [rewrite Hm'; apply drop_keys_sub|lia]. }
  rewrite Hev. cbn [aval]. unfold hash_map. rewrite Hsame. split; [done|].
  unfold entry_mem_usage. cbn [ekey eval with_eval]. rewrite Hev.
  destruct Hok as [_ Hb], Hok' as [_ Hb']. by rewrite Hb, Hb', Hsame.
Qed.

(** ** Properties *)

(** A server holding one hash of three fields. *)
Definition w_hash : World := (do_hset (words ["hset"; "h"; "a"; "1"; "b"; "2"; "c"; "3"]) w0).2.

Lemma w_hash_ok : world_ok w_hash /\ writes_ok w_hash.
Proof.
  unfold w_hash. destruct (do_hset (words ["hset"; "h"; "a"; "1"; "b"; "2"; "c"; "3"]) w0) as [[] w'] eqn:E. cbn [snd].
  pose proof (do_hset_leaves (words ["hset"; "h"; "a"; "1"; "b"; "2"; "c"; "3"]) w0 w' w0_ok
    (proj1 w0_start) (proj1 (proj2 w0_start)) (eq_refl 0%nat) E) as H. cbn zeta in H.
  destruct (is_hash _); exact (leaves_ok _ _ _ _ _ H).
Qed.

(** HSET and HSETNX.  On a missing key or a hash, HSET leaves exactly the
    old fields overridden by the pairs in order, keeps the key's time to live
    and answers the number of fields added; HSETNX writes only an absent field
    and answers whether it did.  Any other type is refused and nothing changes. *)
Theorem hset_correct (w : World) (cmd : list sstr) (Hw : world_ok w) (Hn : writes_ok w) (Hroom : room w) :
  let k := argd cmd 1 in
  let f := argd cmd 2 in
  let '(m, t) := hash_at (view w) k in
  let refused w' := leaves w w' (fun b => resp_err b MSG_WRONGTYPE_SHORT) (view w) 0 in
  (((length cmd - 2) mod 2 = 0)%nat ->
   let w' := (do_hset cmd w).2 in
   let m' := put_pairs m (drop 2 cmd) in
   if is_hash (view w !! k)
   then leaves w w' (fun b => resp_int b (Z.of_nat (base.size m') - Z.of_nat (base.size m)))
          (<[k := (AHash m', t)]> (view w)) 1
   else refused w') /\
  (let w' := (do_hsetnx cmd w).2 in
   if is_hash (view w !! k)
   then if decide (m !! f = None)
        then leaves w w' (fun b => resp_int b 1) (<[k := (AHash (<[f := argd cmd 3]> m), t)]> (view w)) 1
        else leaves w w' (fun b => resp_int b 0) (view w) 0
   else refused w').
Proof.
  cbn zeta. pose proof (do_hset_leaves cmd w) as H1. pose proof (do_hsetnx_leaves cmd w) as H2. cbn zeta in H1, H2.
  destruct (hash_at (view w) (argd cmd 1)) as [m t].
  destruct (do_hset cmd w) as [[] w1]. destruct (do_hsetnx cmd w) as [[] w2]. cbn [fst snd] in *.
  split; [intros Hp; exact (H1 w1 Hw Hn Hroom Hp eq_refl)|exact (H2 w2 Hw Hn Hroom eq_refl)].
Qed.

Lemma hset_correct_witness :
  let cmd := words ["hset"; "h"; "a"; "9"] in
  let k := argd cmd 1 in
  let f := argd cmd 2 in
  let '(m, t) := hash_at (view w0) k in
  let refused w' := leaves w0 w' (fun b => resp_err b MSG_WRONGTYPE_SHORT) (view w0) 0 in
  (((length cmd - 2) mod 2 = 0)%nat ->
   let w' := (do_hset cmd w0).2 in
   let m' := put_pairs m (drop 2 cmd) in
   if is_hash (view w0 !! k)
   then leaves w0 w' (fun b => resp_int b (Z.of_nat (base.size m') - Z.of_nat (base.size m)))
          (<[k := (AHash m', t)]> (view w0)) 1
   else refused w') /\
  (let w' := (do_hsetnx cmd w0).2 in
   if is_hash (view w0 !! k)
   then if decide (m !! f = None)
        then leaves w0 w' (fun b => resp_int b 1) (<[k := (AHash (<[f := argd cmd 3]> m), t)]> (view w0)) 1
        else leaves w0 w' (fun b => resp_int b 0) (view w0) 0
   else refused w').
Proof. apply (hset_correct w0 (words ["hset"; "h"; "a"; "9"]) w0_ok); apply w0_start. Defined.

(** HGET, HEXISTS and HSTRLEN read one field.  They answer from the map of
    fields (the protocol's nil, or 0, when the field or the key is missing),
    refuse another type, and change nothing, although the lookup migrates
    nodes of the hash's table. *)
Theorem hget_correct (w : World) (cmd : list sstr) (Hw : world_ok w) (Hn : writes_ok w) :
  let p := g_reply_proto (env w) in
  let reads (w' : World) (missing : Buffer -> Buffer) (rep : option bytes -> Buffer -> Buffer) :=
    leaves w w' (fun b => match view w !! argd cmd 1 with
                          | None => missing b
                          | Some (AHash m, _) => rep (m !! argd cmd 2) b
                          | Some _ => resp_err b MSG_WRONGTYPE_SHORT
                          end) (view w) 0 in
  reads (do_hget cmd w).2 (resp_nil p) (fun o b => match o with None => resp_nil p b | Some v => resp_str b v end) /\
  reads (do_hexists cmd w).2 (fun b => resp_int b 0) (fun o b => resp_int b (match o with None => 0 | Some _ => 1 end)) /\
  reads (do_hstrlen cmd w).2 (fun b => resp_int b 0)
    (fun o b => resp_int b (match o with None => 0 | Some v => Z.of_nat (length v) end)).
Proof.
  cbn zeta. split_and!.
  - rewrite do_hget_reads. apply (hash_reads cmd (fun p b => resp_nil p b)
      (fun o p b => match o with None => resp_nil p b | Some v => resp_str b v end)); auto with myred.
    intros []; auto with myred.
  - rewrite do_hexists_reads. apply (hash_reads cmd (fun p b => resp_int b 0)
      (fun o p b => resp_int b (match o with None => 0 | Some _ => 1 end))); auto with myred.
  - rewrite do_hstrlen_reads. apply (hash_reads cmd (fun p b => resp_int b 0)
      (fun o p b => resp_int b (match o with None => 0 | Some v => Z.of_nat (length v) end))); auto with myred.
Qed.

Lemma hget_correct_witness :
  let cmd := words ["hget"; "h"; "b"] in
  let w := w_hash in
  let p := g_reply_proto (env w) in
  let reads (w' : World) (missing : Buffer -> Buffer) (rep : option bytes -> Buffer -> Buffer) :=
    leaves w w' (fun b => match view w !! argd cmd 1 with
                          | None => missing b
                          | Some (AHash m, _) => rep (m !! argd cmd 2) b
                          | Some _ => resp_err b MSG_WRONGTYPE_SHORT
                          end) (view w) 0 in
  reads (do_hget cmd w).2 (resp_nil p) (fun o b => match o with None => resp_nil p b | Some v => resp_str b v end) /\
  reads (do_hexists cmd w).2 (fun b => resp_int b 0) (fun o b => resp_int b (match o with None => 0 | Some _ => 1 end)) /\
  reads (do_hstrlen cmd w).2 (fun b => resp_int b 0)
    (fun o b => resp_int b (match o with None => 0 | Some v => Z.of_nat (length v) end)).
Proof. apply (hget_correct w_hash (words ["hget"; "h"; "b"])); apply w_hash_ok. Defined.

(** HDEL and HINCRBY.  HDEL answers the number of fields removed, leaves
    exactly the other fields, and removes the key when none is left; HINCRBY
    adds to the integer the field holds (0 when absent), refusing a field that
    is no integer and a sum outside 64 bits.  Refusals change nothing. *)
Theorem hdel_hincrby_correct (w : World) (cmd : list sstr) (Hw : world_ok w) (Hn : writes_ok w) (Hroom : room w) :
  let k := argd cmd 1 in
  let refused w' := leaves w w' (fun b => resp_err b MSG_WRONGTYPE_SHORT) (view w) 0 in
  (let w' := (do_hdel cmd w).2 in
   match view w !! k with
   | None => leaves w w' (fun b => resp_int b 0) (view w) 0
   | Some (AHash m, t) =>
       let m' := drop_keys (s_data <$> drop 2 cmd) m in
       let n := Z.of_nat (base.size m) - Z.of_nat (base.size m') in
       leaves w w' (fun b => resp_int b n)
         (if decide (m' = ∅) then delete k (view w) else <[k := (AHash m', t)]> (view w)) (if n =? 0 then 0 else 1)
   | Some _ => refused w'
   end) /\
  (forall incr, str2int (argd cmd 3) = Some incr ->
   let w' := (do_hincrby cmd w).2 in
   let '(m, t) := hash_at (view w) k in
   if is_hash (view w !! k)
   then match hincr_next incr (m !! argd cmd 2) with
        | inl r => leaves w w' r (view w) 0
        | inr (v, z) => leaves w w' (fun b => resp_int b z) (<[k := (AHash (<[argd cmd 2 := v]> m), t)]> (view w)) 1
        end
   else refused w').
Proof.
  cbn zeta. pose proof (do_hdel_leaves cmd w) as H1. pose proof (do_hincrby_leaves cmd) as H2. cbn zeta in H1, H2.
  split; [destruct (do_hdel cmd w) as [[] w1]; by apply H1|].
  intros incr Hi. specialize (H2 incr w). destruct (do_hincrby cmd w) as [[] w2].
  destruct (hash_at (view w) (argd cmd 1)) as [m t]. by apply H2.
Qed.

Lemma hdel_hincrby_correct_witness :
  let cmd := words ["hdel"; "h"; "b"; "5"] in
  let w := w0 in
  let k := argd cmd 1 in
  let refused w' := leaves w w' (fun b => resp_err b MSG_WRONGTYPE_SHORT) (view w) 0 in
  (let w' := (do_hdel cmd w).2 in
   match view w !! k with
   | None => leaves w w' (fun b => resp_int b 0) (view w) 0
   | Some (AHash m, t) =>
       let m' := drop_keys (s_data <$> drop 2 cmd) m in
       let n := Z.of_nat (base.size m) - Z.of_nat (base.size m') in
       leaves w w' (fun b => resp_int b n)
         (if decide (m' = ∅) then delete k (view w) else <[k := (AHash m', t)]> (view w)) (if n =? 0 then 0 else 1)
   | Some _ => refused w'
   end) /\
  (forall incr, str2int (argd cmd 3) = Some incr ->
   let w' := (do_hincrby cmd w).2 in
   let '(m, t) := hash_at (view w) k in
   if is_hash (view w !! k)
   then match hincr_next incr (m !! argd cmd 2) with
        | inl r => leaves w w' r (view w) 0
        | inr (v, z) => leaves w w' (fun b => resp_int b z) (<[k := (AHash (<[argd cmd 2 := v]> m), t)]> (view w)) 1
        end
   else refused w').
Proof. apply (hdel_hincrby_correct w0 (words ["hdel"; "h"; "b"; "5"]) w0_ok); apply w0_start. Defined.
