(* ===== verification/Sets.v ===== *)
(** * The set commands (src/src/commands/commands.cpp, 3341-3597, 3984-4315)

    Handlers over the table of a set entry, proved against the view: finite
    sets.  The propagation of SPOP as an SREM to the log and the replicas is
    not part of the world of a handler. *)
From stdpp Require Import sorting.
From S2P Require Import Prelude Buffer Resp StdString Deque Hashtable HashMap Heap Score ZSet HashSet State World Args Strings Glob Keys Containers.

(** [entry_set(ent)] and a write to it through the pointer. *)
Definition entry_set (k : bytes) : M (HMap sstr) :=
  gets (fun w => match ents (ks w) !! k with
                 | Some e => match eval e with VSet h => h | _ => HMap_empty end
                 | None => HMap_empty
                 end).
Definition put_set (k : bytes) (h : HMap sstr) : M () := put_val k (VSet h).

(** [set_is_member] migrates nodes, so it writes the table. *)
Definition is_member_at (k m : bytes) : M bool :=
  h ← entry_set k;
  let '(r, h') := set_is_member h m in
  put_set k h' ;; mret r.

Definition r_set (n : Z) : M () := reply_p (fun p b => resp_set p b n).

(** [resp_set(out, n)] and the members. *)
Definition r_members (l : list bytes) : M () := r_set (u32 (Z.of_nat (length l))) ;; for_each l r_str.

(** [lookup_set_ro]: the entry, nullptr, or nullptr with [*wrongtype] set. *)
Definition lookup_set_ro (k : bytes) : M Lookup :=
  r ← find_live k;
  match r with
  | None => mret LMISSING
  | Some ent =>
      e ← entry_at ent;
      mret match e with
           | Some e => if bool_decide (type e = T_SET) then LOK ent else LWRONGTYPE
           | None => LMISSING
           end
  end.

(** The lookups of [sinter_impl]: [None] on a wrong type, otherwise whether a
    key was missing, and the entries found. *)
Fixpoint sinter_sets (keys : list bytes) : M (option (bool * list bytes)) :=
  match keys with
  | [] => mret (Some (false, []))
  | k :: keys' =>
      r ← lookup_set_ro k;
      match r with
      | LWRONGTYPE => mret None
      | _ =>
          rest ← sinter_sets keys';
          mret match rest with
               | None => None
               | Some (any_empty, sets) =>
                   Some (match r with LOK ent => (any_empty, ent :: sets) | _ => (true, sets) end)
               end
      end
  end.

(** The index of the first smallest set, from index [i] on. *)
Fixpoint smallest_from (i best : nat) (best_size : nat) (sizes : list nat) : nat :=
  match sizes with
  | [] => best
  | n :: sizes' =>
      if (n <? best_size)%nat then smallest_from (S i) i n sizes' else smallest_from (S i) best best_size sizes'
  end.

Definition smallest_idx (sizes : list nat) : nat :=
  match sizes with [] => 0%nat | n :: sizes' => smallest_from 1 0 n sizes' end.

Definition set_size (k : bytes) : M nat := h ← entry_set k; mret (hm_size h).

Fixpoint set_sizes (l : list bytes) : M (list nat) :=
  match l with
  | [] => mret []
  | k :: l' => n ← set_size k; ns ← set_sizes l'; mret (n :: ns)
  end.

(** The inner loop: whether every set but the [skip]-th has [m]; stops at the
    first that has not. *)
Fixpoint in_all (m : bytes) (i skip : nat) (sets : list bytes) : M bool :=
  match sets with
  | [] => mret true
  | k :: sets' =>
      if (i =? skip)%nat then in_all m (S i) skip sets'
      else
        b ← is_member_at k m;
        if (b : bool) then in_all m (S i) skip sets' else mret false
  end.

(** [candidates] filtered by a test that may move nodes. *)
Fixpoint keep_if (test : bytes -> M bool) (l : list bytes) : M (list bytes) :=
  match l with
  | [] => mret []
  | m :: l' =>
      b ← test m;
      rest ← keep_if test l';
      mret (if (b : bool) then m :: rest else rest)
  end.

Definition members_of (k : bytes) : M (list bytes) := h ← entry_set k; mret (set_list h).

(** The result, or [None] on a wrong type. *)
Definition sinter_impl (keys : list bytes) : M (option (list bytes)) :=
  r ← sinter_sets keys;
  match r with
  | None => mret None
  | Some (true, _) => mret (Some [])
  | Some (false, sets) =>
      sizes ← set_sizes sets;
      let idx := smallest_idx sizes in
      match sets !! idx with
      | None => mret (Some [])
      | Some best =>
          candidates ← members_of best;
          result ← keep_if (fun m => in_all m 0 idx sets) candidates;
          mret (Some result)
      end
  end.

Fixpoint sunion_collect (keys : list bytes) : M (option (list bytes)) :=
  match keys with
  | [] => mret (Some [])
  | k :: keys' =>
      r ← lookup_set_ro k;
      match r with
      | LWRONGTYPE => mret None
      | LMISSING => sunion_collect keys'
      | LOK ent =>
          l ← members_of ent;
          rest ← sunion_collect keys';
          mret ((fun rest => l ++ rest) <$> rest)
      end
  end.

(** [std::sort] on strings, which compare as unsigned bytes, and [std::unique]. *)
Definition str_le (a b : bytes) : Prop := lex_less b a = false.

#[global] Instance str_le_dec a b : Decision (str_le a b).
Proof. unfold str_le. apply _. Defined.

Fixpoint unique (l : list bytes) : list bytes :=
  match l with
  | a :: (b :: _) as l' => if decide (a = b) then unique l' else a :: unique l'
  | l => l
  end.

Definition sunion_impl (keys : list bytes) : M (option (list bytes)) :=
  r ← sunion_collect keys; mret ((fun l => unique (merge_sort str_le l)) <$> r).

(** The entries after the base; missing keys are left out. *)
Fixpoint sdiff_others (keys : list bytes) : M (option (list bytes)) :=
  match keys with
  | [] => mret (Some [])
  | k :: keys' =>
      r ← lookup_set_ro k;
      match r with
      | LWRONGTYPE => mret None
      | LMISSING => sdiff_others keys'
      | LOK ent => rest ← sdiff_others keys'; mret (cons ent <$> rest)
      end
  end.

Fixpoint in_none (m : bytes) (sets : list bytes) : M bool :=
  match sets with
  | [] => mret true
  | k :: sets' => b ← is_member_at k m; if (b : bool) then mret false else in_none m sets'
  end.

Definition sdiff_impl (keys : list bytes) : M (option (list bytes)) :=
  base ← lookup_set_ro (hd [] keys);
  match base with
  | LWRONGTYPE => mret None
  | _ =>
      others ← sdiff_others (tail keys);
      match others, base with
      | None, _ => mret None
      | Some others, LOK b =>
          candidates ← members_of b;
          result ← keep_if (fun m => in_none m others) candidates;
          mret (Some result)
      | Some _, _ => mret (Some [])
      end
  end.

(** ** Handlers *)

Fixpoint sadd_loop (h : HMap sstr) (added : Z) (args : list sstr) : HMap sstr * Z :=
  match args with
  | m :: l => let '(fresh, h) := set_add h m in sadd_loop h (if (fresh : bool) then added + 1 else added) l
  | [] => (h, added)
  end.

Definition do_sadd (cmd : list sstr) : M () :=
  r ← lookup_entry (arg cmd 1) T_SET true false;
  match r with
  | LOK ent =>
      h ← entry_set ent;
      let '(h', added) := sadd_loop h 0 (drop 2 cmd) in
      put_set ent h' ;;
      (if 0 <? added then reaccount ent ;; dirty 1 else mret ()) ;;
      r_int added
  | _ => r_err MSG_WRONGTYPE_SHORT
  end.

Definition set_read (cmd : list sstr) (missing : M ()) (found : bytes -> M ()) : M () :=
  r ← lookup_entry (arg cmd 1) T_SET false false;
  match r with
  | LWRONGTYPE => r_err MSG_WRONGTYPE_SHORT
  | LMISSING => missing
  | LOK ent => found ent
  end.

Fixpoint srem_loop (h : HMap sstr) (removed : Z) (members : list bytes) : HMap sstr * Z :=
  match members with
  | m :: l => let '(hit, h) := set_remove h m in srem_loop h (if (hit : bool) then removed + 1 else removed) l
  | [] => (h, removed)
  end.

Definition do_srem (cmd : list sstr) : M () :=
  set_read cmd (r_int 0) (fun ent =>
    h ← entry_set ent;
    let '(h', removed) := srem_loop h 0 (s_data <$> drop 2 cmd) in
    put_set ent h' ;;
    (if (hm_size h' =? 0)%nat then remove ent
     else if negb (removed =? 0) then reaccount ent else mret ()) ;;
    (if negb (removed =? 0) then dirty 1 else mret ()) ;;
    r_int removed).

Definition do_sismember (cmd : list sstr) : M () :=
  set_read cmd (r_int 0) (fun ent => b ← is_member_at ent (argd cmd 2); r_int (if (b : bool) then 1 else 0)).

Definition do_smismember (cmd : list sstr) : M () :=
  r ← lookup_entry (arg cmd 1) T_SET false false;
  match r with
  | LWRONGTYPE => r_err MSG_WRONGTYPE_SHORT
  | _ =>
      r_arr (u32 (Z.of_nat (length cmd) - 2)) ;;
      for_each (s_data <$> drop 2 cmd) (fun m =>
        b ← (match r with LOK ent => is_member_at ent m | _ => mret false end : M bool);
        r_int (if (b : bool) then 1 else 0))
  end.

Definition do_scard (cmd : list sstr) : M () :=
  set_read cmd (r_int 0) (fun ent => n ← set_size ent; r_int (Z.of_nat n)).

Definition do_smembers (cmd : list sstr) : M () :=
  set_read cmd (r_set 0) (fun ent =>
    n ← set_size ent; r_set (u32 (Z.of_nat n)) ;; l ← members_of ent; for_each l r_str).

Definition answer_members (r : option (list bytes)) : M () :=
  match r with None => r_err MSG_WRONGTYPE_SHORT | Some l => r_members l end.

Definition do_sinter (cmd : list sstr) : M () := r ← sinter_impl (s_data <$> drop 1 cmd); answer_members r.
Definition do_sunion (cmd : list sstr) : M () := r ← sunion_impl (s_data <$> drop 1 cmd); answer_members r.
Definition do_sdiff (cmd : list sstr) : M () := r ← sdiff_impl (s_data <$> drop 1 cmd); answer_members r.

(** [set_make_dest]: whatever held the key goes; the new entry's access word
    is left at zero. *)
Definition set_make_dest (k : bytes) : M bytes :=
  node ← ks_get (fun _ => db_lookup k);
  (match node with Some old => remove old | None => mret () end) ;;
  on_ks (fun _ => db_link k (with_ekey (s_assign s_empty k) (entry_new T_SET))) ;;
  mret k.

(** The members are stored as fresh copies: spare capacity that [std::sort]
    may have moved between the strings of a union is not modelled. *)
Definition set_store_result (dkey : bytes) (result : list bytes) : M () :=
  match result with
  | [] =>
      node ← ks_get (fun _ => db_lookup dkey);
      (match node with Some old => remove old ;; dirty 1 | None => mret () end) ;;
      r_int 0
  | _ =>
      dest ← set_make_dest dkey;
      h ← entry_set dest;
      let h' := foldl (fun h m => (set_add h (s_copy m)).2) h result in
      put_set dest h' ;; reaccount dest ;; dirty 1 ;;
      r_int (Z.of_nat (hm_size h'))
  end.

Definition store (impl : list bytes -> M (option (list bytes))) (cmd : list sstr) : M () :=
  r ← impl (s_data <$> drop 2 cmd);
  match r with None => r_err MSG_WRONGTYPE_SHORT | Some l => set_store_result (argd cmd 1) l end.

Definition do_sinterstore : list sstr -> M () := store sinter_impl.
Definition do_sunionstore : list sstr -> M () := store sunion_impl.
Definition do_sdiffstore : list sstr -> M () := store sdiff_impl.

Definition do_smove (cmd : list sstr) : M () :=
  let m := argd cmd 3 in
  r ← lookup_entry (arg cmd 1) T_SET false false;
  match r with
  | LWRONGTYPE => r_err MSG_WRONGTYPE_SHORT
  | LMISSING => r_int 0
  | LOK src =>
      d ← lookup_set_ro (argd cmd 2);
      match d with
      | LWRONGTYPE => r_err MSG_WRONGTYPE_SHORT
      | _ =>
          has ← is_member_at src m;
          if negb has then r_int 0
          else if bool_decide (argd cmd 1 = argd cmd 2) then r_int 1
          else
            h ← entry_set src;
            let h' := (set_remove h m).2 in
            put_set src h' ;;
            (if (hm_size h' =? 0)%nat then remove src else reaccount src) ;;
            dst ← (match d with
                   | LOK dst => mret dst
                   | _ => on_ks (fun _ => db_link (argd cmd 2) (with_ekey (s_assign s_empty (argd cmd 2)) (entry_new T_SET))) ;;
                          mret (argd cmd 2)
                   end : M bytes);
            hd ← entry_set dst;
            put_set dst (set_add hd (arg cmd 3)).2 ;; reaccount dst ;; dirty 1 ;; r_int 1
      end
  end.

(** [hm_random(set)]: three draws. *)
Definition draw_node (h : HMap sstr) : M (option sstr) :=
  fun w =>
    let draw i := Z.to_nat (default 0 (rng w !! i)) in
    (hm_random h (draw 0%nat) (draw 1%nat) (draw 2%nat),
     mkWorld (ks w) (writes w) (drop 3 (rng w)) (out w) (env w)).

Definition set_random (k : bytes) : M (option sstr) := h ← entry_set k; draw_node h.

(** One popped member: answered, discharged and unlinked. *)
Definition spop_one (ent : bytes) : M () :=
  sn ← set_random ent;
  match sn with
  | None => mret ()
  | Some sn =>
      r_str (s_data sn) ;;
      h ← entry_set ent;
      put_set ent (hm_delete (charge h (- set_node_bytes sn)) (str_hash (s_data sn)) (key_eq s_data (s_data sn))).2
  end.

Fixpoint repeatM (n : nat) (m : M ()) : M () := match n with O => mret () | S n' => m ;; repeatM n' m end.

Definition spop_finish (ent : bytes) : M () :=
  n ← set_size ent;
  (if (n =? 0)%nat then remove ent else reaccount ent) ;; dirty 1.

Definition do_spop (cmd : list sstr) : M () :=
  let none := if (3 <=? length cmd)%nat then r_set 0 else r_nil in
  set_read cmd none (fun ent =>
    n ← set_size ent;
    if (n =? 0)%nat then none
    else if (length cmd =? 2)%nat then spop_one ent ;; spop_finish ent
    else
      match str2int (argd cmd 2) with
      | None => r_err MSG_NOT_INT
      | Some count =>
          if count <? 0 then r_err (bs "ERR value is out of range, must be positive")
          else if count =? 0 then r_set 0
          else
            let k := if count <? Z.of_nat n then Z.to_nat count else n in
            r_set (u32 (Z.of_nat k)) ;; repeatM k (spop_one ent) ;; spop_finish ent
      end).

Fixpoint pick_nodes (ent : bytes) (n : nat) : M (list sstr) :=
  match n with
  | O => mret []
  | S n' =>
      sn ← set_random ent;
      match sn with
      | None => mret []
      | Some sn =>
          h ← entry_set ent;
          put_set ent (hm_delete h (str_hash (s_data sn)) (key_eq s_data (s_data sn))).2 ;;
          rest ← pick_nodes ent n'; mret (sn :: rest)
      end
  end.

Definition do_srandmember (cmd : list sstr) : M () :=
  let none := if (3 <=? length cmd)%nat then r_arr 0 else r_nil in
  let one ent := sn ← set_random ent; match sn with Some sn => r_str (s_data sn) | None => mret () end in
  set_read cmd none (fun ent =>
    n ← set_size ent;
    if (n =? 0)%nat then none
    else if (length cmd =? 2)%nat then one ent
    else
      match str2int (argd cmd 2) with
      | None => r_err MSG_NOT_INT
      | Some count =>
          if count =? 0 then r_arr 0
          else if 0 <? count then
            let k := if count <? Z.of_nat n then Z.to_nat count else n in
            picked ← pick_nodes ent k;
            r_arr (u32 (Z.of_nat k)) ;;
            for_each picked (fun sn => r_str (s_data sn) ;;
              h ← entry_set ent; put_set ent (hm_insert h (node_of s_data sn)))
          else if (count =? INT64_MIN) || (k_max_args <? - count) then r_err (bs "ERR count is out of range")
          else r_arr (u32 (- count)) ;; repeatM (Z.to_nat (- count)) (one ent)
      end).

Definition do_sscan (cmd : list sstr) : M (option ()) :=
  let fail m := r_err m ;; mret (Some ()) in
  r ← lookup_entry (arg cmd 1) T_SET false false;
  match r with
  | LWRONGTYPE => fail MSG_WRONGTYPE_SHORT
  | _ =>
      match str2int (argd cmd 2) with
      | None => fail (bs "ERR invalid cursor")
      | Some cursor =>
          if cursor <? 0 then fail (bs "ERR invalid cursor")
          else
            match scan_opts (length cmd) (s_data <$> drop 3 cmd) 10 None with
            | inl m => fail m
            | inr (count, pattern) =>
                r_arr 2 ;;
                match r with
                | LOK ent =>
                    h ← entry_set ent;
                    let '(next, nodes) := hm_scan h cursor count in
                    match scan_filter pattern (s_data <$> nodes) with
                    | None => mret None
                    | Some items => r_str (print_u64 next) ;; r_strs items ;; mret (Some ())
                    end
                | _ => r_str (bs "0") ;; r_arr 0 ;; mret (Some ())
                end
            end
      end
  end.

(** ** Steps that change nothing a client can see *)

Definition silent (w w' : World) : Prop :=
  world_ok w' /\ view w' = view w /\ quiet w w' /\ (base.size (ents (ks w')) <= base.size (ents (ks w)))%nat.

Lemma silent_refl w : world_ok w -> silent w w.
Proof. intros H. split; [done|]. split; [done|]. by split. Qed.

Lemma silent_trans a b c : silent a b -> silent b c -> silent a c.
Proof.
  intros (_ & V1 & Q1 & L1) (W2 & V2 & Q2 & L2). split; [done|]. split; [by rewrite V2|].
  split; [by eapply quiet_trans|lia].
Qed.

(** The abstract set under a key; a missing key is the empty set. *)
Definition set_of (w : World) (k : bytes) : gset bytes :=
  match view w !! k with Some (ASet s, _) => s | _ => ∅ end.

Definition is_set (o : option (AVal * option Z)) : bool :=
  match o with Some (ASet _, _) | None => true | Some _ => false end.

Lemma silent_set_of w w' k : silent w w' -> set_of w' k = set_of w k.
Proof. intros (_ & Hv & _). unfold set_of. by rewrite Hv. Qed.

Lemma set_type e : type e = T_SET -> exists h, eval e = VSet h.
Proof. unfold type. destruct (eval e); try done. by eexists. Qed.

Lemma not_set v t : atype v <> T_SET -> is_set (Some (v, t)) = false.
Proof. by destruct v. Qed.

(** A set the client sees is a table in memory. *)
Lemma set_entry w k s t :
  world_ok w -> view w !! k = Some (ASet s, t) ->
  exists e h, holds_entry w k e /\ eval e = VSet h /\ set_ok h /\ set_members h = s.
Proof.
  intros (Hok & Hacc & Hwf) Hv. unfold view in Hv. rewrite lview_lookup in Hv. unfold vals in Hv. rewrite lookup_fmap in Hv.
  destruct (ents (ks w) !! k) as [e|] eqn:He; [|done]. cbn in Hv. case_decide; [done|]. injection Hv as Ha _.
  pose proof (ks_val _ Hok k e He) as Hval. destruct (eval e) as [| | | |h] eqn:Ev; try done. cbn in Ha. injection Ha as <-.
  exists e, h. split; [split_and!; try done; by apply accounted_weaken|]. split; [done|]. by split; [cbn in Hval; by rewrite Ev in Hval|].
Qed.

Lemma entry_set_run w k e h : ents (ks w) !! k = Some e -> eval e = VSet h -> entry_set k w = (h, w).
Proof. unfold entry_set, gets. by intros -> ->. Qed.

Lemma lookup_set_ro_spec w k r w' :
  world_ok w -> lookup_set_ro k w = (r, w') ->
  silent w w' /\ match r with
  | LOK k' => k' = k /\ exists s t, view w !! k = Some (ASet s, t)
  | LMISSING => view w !! k = None
  | LWRONGTYPE => is_set (view w !! k) = false
  end.
Proof.
  intros Hw H. unfold lookup_set_ro, mbind, state_bind in H. destruct (find_live k w) as [o w1] eqn:E.
  destruct (find_live_spec _ _ _ _ (proj1 Hw) (proj1 (proj2 Hw)) E) as (K1 & K2 & Hq & _ & Hv & Hl & Hr).
  assert (Hs : silent w w1).
  { pose proof Hq as (_ & Q2 & _). split; [|by split; [|split]]. split; [done|]. split; [done|]. rewrite Q2. apply Hw. }
  destruct o as [k'|]; [|injection H as <- <-; by destruct Hr].
  destruct Hr as (-> & e & He & Hk). unfold entry_at, gets in H. rewrite He in H. injection H as <- <-.
  split; [done|]. rewrite Hk. case_bool_decide as Ht.
  - split; [done|]. destruct (set_type e Ht) as [h ->]. by eexists _, _.
  - unfold type in Ht. destruct (eval e); try done.
Qed.

(** A membership test, with the migration it drives. *)
Lemma is_member_spec w k m s t b w' :
  world_ok w -> view w !! k = Some (ASet s, t) -> is_member_at k m w = (b, w') ->
  silent w w' /\ b = bool_decide (m ∈ s).
Proof.
  intros Hw Hk H. destruct (set_entry w k s t Hw Hk) as (e & h & He & Hev & Hok & Hs).
  unfold is_member_at, mbind, state_bind in H. rewrite (entry_set_run w k e h (proj2 (proj2 (proj2 He))) Hev) in H.
  destruct (set_is_member h m) as [r h'] eqn:E. injection H as <- <-.
  destruct (set_is_member_spec _ _ _ _ Hok E) as (Hok' & Hm & ->). rewrite Hs. split; [|done].
  unfold set_is_member in E. destruct (hm_lookup _ _ _) as [found h1] eqn:El. injection E as _ ->.
  destruct (table_lookup _ _ _ _ _ _ Hok El) as (_ & Hmap & _).
  destruct (peek_val w k e (VSet h') He Hok') as (_ & P2 & P3).
  - rewrite Hev. cbn. by rewrite Hm.
  - unfold entry_mem_usage. cbn [ekey eval with_eval]. rewrite Hev.
    destruct Hok as [_ Hb], Hok' as [_ Hb']. by rewrite Hb, Hb', Hmap.
  - split; [apply P3, Hw|]. split; [done|]. split; [done|]. cbn. by rewrite <- (size_dom (alter _ _ _)), dom_alter_L, size_dom.
Qed.

Lemma members_of_spec w k s t :
  world_ok w -> view w !! k = Some (ASet s, t) ->
  exists l, members_of k w = (l, w) /\ NoDup l /\ length l = base.size s /\ forall m, m ∈ l <-> m ∈ s.
Proof.
  intros Hw Hk. destruct (set_entry w k s t Hw Hk) as (e & h & He & Hev & Hok & <-). exists (set_list h).
  split; [|by apply set_list_spec]. unfold members_of, mbind, state_bind.
  by rewrite (entry_set_run w k e h (proj2 (proj2 (proj2 He))) Hev).
Qed.

(** ** The three operations *)

(** The lookups stop at the first wrong type. *)
Definition all_sets (w : World) (keys : list bytes) : bool := forallb (fun k => is_set (view w !! k)) keys.
Definition present (w : World) (keys : list bytes) : list bytes := filter (fun k => is_Some (view w !! k)) keys.

Lemma all_sets_cons w k keys : all_sets w (k :: keys) = is_set (view w !! k) && all_sets w keys.
Proof. done. Qed.

Lemma silent_all_sets w w' keys : silent w w' -> all_sets w' keys = all_sets w keys /\ present w' keys = present w keys.
Proof. intros (_ & Hv & _). unfold all_sets, present. by rewrite Hv. Qed.

Lemma present_cons w k keys :
  present w (k :: keys) = if decide (is_Some (view w !! k)) then k :: present w keys else present w keys.
Proof. unfold present. by rewrite filter_cons. Qed.

Lemma lookup_ok_is_set w k s t : view w !! k = Some (ASet s, t) -> is_set (view w !! k) = true /\ is_Some (view w !! k).
Proof. intros ->. split; [done|by eexists]. Qed.

Lemma sinter_sets_spec keys : forall w r w',
  world_ok w -> sinter_sets keys w = (r, w') ->
  silent w w' /\
  r = if all_sets w keys then Some (bool_decide (present w keys <> keys), present w keys) else None.
Proof.
  induction keys as [|k keys IH]; intros w r w' Hw H.
  { injection H as <- <-. split; [by apply silent_refl|]. cbn. by rewrite bool_decide_false by tauto. }
  cbn [sinter_sets] in H. unfold mbind, state_bind in H. destruct (lookup_set_ro k w) as [o w1] eqn:E.
  destruct (lookup_set_ro_spec _ _ _ _ Hw E) as [S1 Hr]. destruct (silent_all_sets w w1 keys S1) as [A1 A2].
  rewrite all_sets_cons, present_cons. destruct o as [k'| |].
  - destruct Hr as (-> & s & t & Hk). destruct (lookup_ok_is_set w k s t Hk) as [-> Hsome]. cbn [andb].
    rewrite (decide_True (P := is_Some _)) by done. destruct (sinter_sets keys w1) as [r2 w2] eqn:E2. injection H as <- <-.
    destruct (IH _ _ _ (proj1 S1) E2) as [S2 ->]. split; [by eapply silent_trans|]. rewrite A1, A2.
    destruct (all_sets w keys); [|done]. do 2 f_equal. by apply bool_decide_ext; split; intros Hx Hy; apply Hx; congruence.
  - rewrite Hr. cbn [is_set andb]. rewrite decide_False by (by intros []).
    destruct (sinter_sets keys w1) as [r2 w2] eqn:E2. injection H as <- <-.
    destruct (IH _ _ _ (proj1 S1) E2) as [S2 ->]. split; [by eapply silent_trans|]. rewrite A1, A2.
    destruct (all_sets w keys); [|done]. rewrite bool_decide_true; [done|]. intros Hx.
    assert (Hle : (length (present w keys) <= length keys)%nat) by apply length_filter. rewrite Hx in Hle. cbn in Hle. lia.
  - injection H as <- <-. by rewrite Hr.
Qed.

Lemma sunion_collect_spec keys : forall w r w',
  world_ok w -> sunion_collect keys w = (r, w') ->
  silent w w' /\
  if all_sets w keys then exists l, r = Some l /\ (forall m, m ∈ l <-> exists k, k ∈ keys /\ m ∈ set_of w k) else r = None.
Proof.
  induction keys as [|k keys IH]; intros w r w' Hw H.
  { injection H as <- <-. split; [by apply silent_refl|]. exists []. split; [done|]. intros m. set_solver. }
  cbn [sunion_collect] in H. unfold mbind, state_bind in H. destruct (lookup_set_ro k w) as [o w1] eqn:E.
  destruct (lookup_set_ro_spec _ _ _ _ Hw E) as [S1 Hr]. destruct (silent_all_sets w w1 keys S1) as [A1 _].
  rewrite all_sets_cons. destruct o as [k'| |].
  - destruct Hr as (-> & s & t & Hk). rewrite Hk. cbn [is_set andb].
    destruct (members_of_spec w1 k s t (proj1 S1)) as (l & Hl & _ & _ & Hin); [by rewrite (proj1 (proj2 S1))|].
    rewrite Hl in H. destruct (sunion_collect keys w1) as [r2 w2] eqn:E2. injection H as <- <-.
    destruct (IH _ _ _ (proj1 S1) E2) as [S2 Hr2]. split; [by eapply silent_trans|]. rewrite A1 in Hr2.
    destruct (all_sets w keys); [|by rewrite Hr2]. destruct Hr2 as (l2 & -> & Hin2). exists (l ++ l2). split; [done|].
    intros m. rewrite elem_of_app, Hin, Hin2. setoid_rewrite (silent_set_of w w1 _ S1). setoid_rewrite elem_of_cons.
    assert (Hsk : set_of w k = s) by (unfold set_of; by rewrite Hk). rewrite <- Hsk. naive_solver.
  - rewrite Hr. cbn [is_set andb]. destruct (IH _ _ _ (proj1 S1) H) as [S2 Hr2]. split; [by eapply silent_trans|].
    rewrite A1 in Hr2. destruct (all_sets w keys); [|done]. destruct Hr2 as (l2 & -> & Hin2). exists l2. split; [done|].
    intros m. rewrite Hin2. setoid_rewrite (silent_set_of w w1 _ S1). setoid_rewrite elem_of_cons.
    assert (Hsk : set_of w k = ∅) by (unfold set_of; by rewrite Hr). split; [naive_solver|].
    intros (j & [->|Hj] & Hm); [by rewrite Hsk in Hm|naive_solver].
  - injection H as <- <-. by rewrite Hr.
Qed.

Lemma sdiff_others_spec keys : forall w r w',
  world_ok w -> sdiff_others keys w = (r, w') ->
  silent w w' /\ r = if all_sets w keys then Some (present w keys) else None.
Proof.
  induction keys as [|k keys IH]; intros w r w' Hw H; [by injection H as <- <-; split; [apply silent_refl|]|].
  cbn [sdiff_others] in H. unfold mbind, state_bind in H. destruct (lookup_set_ro k w) as [o w1] eqn:E.
  destruct (lookup_set_ro_spec _ _ _ _ Hw E) as [S1 Hr]. destruct (silent_all_sets w w1 keys S1) as [A1 A2].
  rewrite all_sets_cons, present_cons. destruct o as [k'| |].
  - destruct Hr as (-> & s & t & Hk). destruct (lookup_ok_is_set w k s t Hk) as [-> Hsome]. cbn [andb].
    rewrite decide_True by done. destruct (sdiff_others keys w1) as [r2 w2] eqn:E2. injection H as <- <-.
    destruct (IH _ _ _ (proj1 S1) E2) as [S2 ->]. split; [by eapply silent_trans|]. rewrite A1, A2. by destruct (all_sets w keys).
  - rewrite Hr. cbn [is_set andb]. rewrite decide_False by (by intros []).
    destruct (IH _ _ _ (proj1 S1) H) as [S2 ->]. split; [by eapply silent_trans|]. by rewrite A1, A2.
  - injection H as <- <-. by rewrite Hr.
Qed.

(** A filter whose test only moves nodes. *)
Lemma keep_if_spec test (P : bytes -> Prop) `{forall m, Decision (P m)} w l :
  (forall m w1 b w2, silent w w1 -> test m w1 = (b, w2) -> silent w w2 /\ b = bool_decide (P m)) ->
  forall w1 r w2, silent w w1 -> keep_if test l w1 = (r, w2) -> silent w w2 /\ r = filter P l.
Proof.
  intros Ht. induction l as [|m l IH]; intros w1 r w2 Hs Hk; [by injection Hk as <- <-|].
  cbn [keep_if] in Hk. unfold mbind, state_bind in Hk. destruct (test m w1) as [b w3] eqn:E.
  destruct (Ht _ _ _ _ Hs E) as [S3 ->]. destruct (keep_if test l w3) as [rest w4] eqn:E2. injection Hk as <- <-.
  destruct (IH _ _ _ S3 E2) as [S4 ->]. split; [done|]. rewrite filter_cons. by repeat case_decide; case_bool_decide.
Qed.

Lemma member_of w w1 k m b w2 :
  silent w w1 -> is_Some (view w !! k) -> is_set (view w !! k) = true -> is_member_at k m w1 = (b, w2) ->
  silent w w2 /\ b = bool_decide (m ∈ set_of w k).
Proof.
  intros S1 [[a t] Hk] Hset H. unfold set_of. rewrite Hk in *. destruct a as [| | | |s]; try done.
  destruct (is_member_spec w1 k m s t b w2 (proj1 S1)) as [S2 ->]; [by rewrite (proj1 (proj2 S1))|done|].
  split; [by eapply silent_trans|done].
Qed.

Definition live_set (w : World) (k : bytes) : Prop := is_Some (view w !! k) /\ is_set (view w !! k) = true.

Lemma in_all_spec w m skip sets : Forall (live_set w) sets -> forall i w1 b w2,
  silent w w1 -> in_all m i skip sets w1 = (b, w2) ->
  silent w w2 /\ (b = true <-> forall j k, sets !! j = Some k -> (i + j)%nat <> skip -> m ∈ set_of w k).
Proof.
  induction 1 as [|k sets [Hk1 Hk2] _ IH]; intros i w1 b w2 S1 H; [by injection H as <- <-; split|].
  cbn [in_all] in H. destruct (Nat.eqb_spec i skip) as [->|Hne].
  - destruct (IH _ _ _ _ S1 H) as [S2 ->]. split; [done|]. split.
    + intros Hall [|j] k' Hj Hne; [lia|]. apply (Hall j); [done|lia].
    + intros Hall j k' Hj Hne. apply (Hall (S j)); [done|lia].
  - unfold mbind, state_bind in H. destruct (is_member_at k m w1) as [b1 w3] eqn:E.
    destruct (member_of w w1 k m b1 w3 S1 Hk1 Hk2 E) as [S3 ->]. case_bool_decide as Hm.
    + destruct (IH _ _ _ _ S3 H) as [S2 ->]. split; [done|]. split.
      * intros Hall [|j] k' Hj Hx; [by injection Hj as <-|]. apply (Hall j); [done|lia].
      * intros Hall j k' Hj Hx. apply (Hall (S j)); [done|lia].
    + injection H as <- <-. split; [done|]. split; [done|]. intros Hall. destruct Hm. apply (Hall 0%nat); [done|lia].
Qed.

Lemma in_none_spec w m sets : Forall (live_set w) sets -> forall w1 b w2,
  silent w w1 -> in_none m sets w1 = (b, w2) ->
  silent w w2 /\ (b = true <-> Forall (fun k => m ∉ set_of w k) sets).
Proof.
  induction 1 as [|k sets [Hk1 Hk2] _ IH]; intros w1 b w2 S1 H; [by injection H as <- <-; split|].
  cbn [in_none] in H. unfold mbind, state_bind in H. destruct (is_member_at k m w1) as [b1 w3] eqn:E.
  destruct (member_of w w1 k m b1 w3 S1 Hk1 Hk2 E) as [S3 ->]. rewrite Forall_cons. case_bool_decide as Hm.
  - injection H as <- <-. split; [done|]. split; [done|tauto].
  - destruct (IH _ _ _ S3 H) as [S2 ->]. split; [done|tauto].
Qed.

(** ** Sorting and duplicates *)

#[global] Instance str_le_total : Total str_le.
Proof.
  intros a b. unfold str_le. destruct (lex_less b a) eqn:E; [right|by left].
  destruct (lex_less a b) eqn:E2; [|done]. pose proof (lex_trans _ _ _ E E2) as H. by rewrite lex_irrefl in H.
Qed.

#[global] Instance str_le_trans : Transitive str_le.
Proof.
  intros a b c. unfold str_le. intros H1 H2. destruct (lex_less c a) eqn:E; [|done].
  destruct (lex_trichotomy a b) as [Hl|[->|Hl]]; [|congruence|congruence].
  pose proof (lex_trans _ _ _ E Hl). congruence.
Qed.

Lemma str_le_antisym a b : str_le a b -> str_le b a -> a = b.
Proof. unfold str_le. intros H1 H2. destruct (lex_trichotomy a b) as [|[|]]; congruence. Qed.

Lemma unique_spec l :
  StronglySorted str_le l ->
  StronglySorted str_le (unique l) /\ NoDup (unique l) /\ (forall m, m ∈ unique l <-> m ∈ l).
Proof.
  induction l as [|a l IH]; intros Hs; [split_and!; [done|constructor|done]|].
  apply StronglySorted_inv in Hs as [Hs Ha]. destruct (IH Hs) as (I1 & I2 & I3). destruct l as [|b l].
  { split_and!; [by constructor|apply NoDup_singleton|done]. }
  change (unique (a :: b :: l)) with (if decide (a = b) then unique (b :: l) else a :: unique (b :: l)).
  destruct (decide (a = b)) as [->|Hne].
  - split_and!; [done|done|]. intros m. rewrite I3, (elem_of_cons (b :: l)). split; [by right|]. intros [->|]; [by left|done].
  - assert (Hall : Forall (str_le a) (unique (b :: l))).
    { apply Forall_forall. intros x Hx. apply I3 in Hx. rewrite Forall_forall in Ha. by apply Ha. }
    split_and!; [by constructor| |].
    + constructor; [|done]. rewrite I3. intros Hin.
      assert (Hab : str_le a b) by (by apply Forall_cons in Ha as [? _]).
      apply Hne. apply str_le_antisym; [done|]. apply elem_of_cons in Hin as [->|Hin]; [done|].
      apply StronglySorted_inv in Hs as [_ Hb]. rewrite Forall_forall in Hb. by apply Hb.
    + intros m. rewrite !(elem_of_cons _ m a), I3. done.
Qed.

Lemma sort_unique_spec l :
  NoDup (unique (merge_sort str_le l)) /\ (forall m, m ∈ unique (merge_sort str_le l) <-> m ∈ l).
Proof.
  destruct (unique_spec (merge_sort str_le l)) as (_ & H2 & H3).
  { apply Sorted_StronglySorted; [apply _|]. apply Sorted_merge_sort. apply _. }
  split; [done|]. intros m. rewrite H3. by rewrite merge_sort_Permutation.
Qed.

(** ** What the three operations compute *)

Definition inter_of (w : World) (keys : list bytes) : gset bytes :=
  match keys with [] => ∅ | k :: keys => foldr (fun k acc => set_of w k ∩ acc) (set_of w k) keys end.
Definition union_of (w : World) (keys : list bytes) : gset bytes := ⋃ (set_of w <$> keys).
Definition diff_of (w : World) (keys : list bytes) : gset bytes :=
  match keys with [] => ∅ | k :: keys => set_of w k ∖ union_of w keys end.

Lemma elem_inter w keys m : keys <> [] -> m ∈ inter_of w keys <-> forall k, k ∈ keys -> m ∈ set_of w k.
Proof.
  destruct keys as [|k0 keys]; [done|]. intros _. cbn [inter_of]. induction keys as [|k keys IH]; cbn [foldr].
  - split; [intros Hm k ->%list_elem_of_singleton; done|]. intros H. apply H. by left.
  - rewrite elem_of_intersection, IH. split.
    + intros [H1 H2] j Hj. apply elem_of_cons in Hj as [->|Hj]; [apply H2; by left|].
      apply elem_of_cons in Hj as [->|Hj]; [done|apply H2; by right].
    + intros H. split; [apply H; right; by left|]. intros j Hj. apply H. apply elem_of_cons in Hj as [->|Hj]; [by left|right; by right].
Qed.

Lemma elem_union w keys m : m ∈ union_of w keys <-> exists k, k ∈ keys /\ m ∈ set_of w k.
Proof.
  unfold union_of. rewrite elem_of_union_list. split.
  - intros (s & (k & -> & Hk)%list_elem_of_fmap & Hm). by exists k.
  - intros (k & Hk & Hm). exists (set_of w k). split; [|done]. apply list_elem_of_fmap. by exists k.
Qed.

Definition computes (impl : list bytes -> M (option (list bytes))) (S : World -> list bytes -> gset bytes) : Prop :=
  forall keys w r w', keys <> [] -> world_ok w -> impl keys w = (r, w') ->
  silent w w' /\
  if all_sets w keys then exists l, r = Some l /\ NoDup l /\ (forall m, m ∈ l <-> m ∈ S w keys) else r = None.

Lemma present_live w keys : all_sets w keys = true -> Forall (live_set w) (present w keys).
Proof.
  intros H. apply Forall_forall. intros k Hk. apply list_elem_of_filter in Hk as [H1 H2]. split; [done|].
  unfold all_sets in H. rewrite forallb_forall in H. apply H. by apply list_elem_of_In.
Qed.

Lemma smallest_from_lt i best bs sizes n :
  (best < n)%nat -> (i + length sizes <= n)%nat -> (smallest_from i best bs sizes < n)%nat.
Proof.
  revert i best bs. induction sizes as [|s sizes IH]; intros i best bs Hb Hi; cbn [smallest_from length] in *; [done|].
  destruct (s <? bs)%nat; apply IH; lia.
Qed.

Lemma smallest_idx_lt sizes : sizes <> [] -> (smallest_idx sizes < length sizes)%nat.
Proof. destruct sizes as [|n sizes]; [done|]. intros _. apply smallest_from_lt; cbn; lia. Qed.

Lemma set_sizes_run w l : exists ns, set_sizes l w = (ns, w) /\ length ns = length l.
Proof.
  induction l as [|k l (ns & IH & Hl)]; [by exists []|]. cbn [set_sizes]. unfold set_size.
  exists (hm_size (entry_set k w).1 :: ns). split; [|cbn; by rewrite Hl].
  unfold mbind, state_bind, entry_set, gets, mret, state_ret in *. by rewrite IH.
Qed.

Lemma sinter_computes : computes sinter_impl inter_of.
Proof.
  intros keys w r w' Hne Hw H. unfold sinter_impl, mbind at 1, state_bind at 1 in H.
  destruct (sinter_sets keys w) as [o w1] eqn:E. destruct (sinter_sets_spec _ _ _ _ Hw E) as [S1 ->].
  destruct (all_sets w keys) eqn:Ha; [|by injection H as <- <-]. case_bool_decide as Hp.
  - injection H as <- <-. split; [done|]. exists []. split_and!; [done|constructor|]. intros m. rewrite elem_of_nil.
    split; [done|]. intros Hm. rewrite elem_inter in Hm by done. destruct Hp.
    apply list_filter_all. apply Forall_forall. intros k Hk. specialize (Hm k Hk). unfold set_of in Hm.
    destruct (view w !! k); [by eexists|]. by apply not_elem_of_empty in Hm.
  - assert (Hpk : present w keys = keys) by (destruct (decide (present w keys = keys)); [done|tauto]). rewrite Hpk in *.
    unfold mbind at 1, state_bind at 1 in H. destruct (set_sizes_run w1 keys) as (ns & Ens & Hns). rewrite Ens in H.
    assert (Hidx : (smallest_idx ns < length keys)%nat) by (rewrite <- Hns; apply smallest_idx_lt; destruct ns, keys; done).
    pose proof (present_live w keys Ha) as Hlive. rewrite Hpk in Hlive.
    destruct (lookup_lt_is_Some_2 keys _ Hidx) as [best Hb]. rewrite Hb in H.
    destruct (proj1 (Forall_lookup _ _) Hlive _ _ Hb) as [[[a t] Hk] Hset]. rewrite Hk in Hset. destruct a as [| | | |s]; try done.
    unfold mbind at 1, state_bind at 1 in H.
    destruct (members_of_spec w1 best s t (proj1 S1)) as (l & El & Hnd & _ & Hin); [by rewrite (proj1 (proj2 S1))|].
    rewrite El in H. unfold mbind at 1, state_bind at 1 in H. destruct (keep_if _ l w1) as [res w2] eqn:Ek. injection H as <- <-.
    destruct (keep_if_spec (fun m => in_all m 0 (smallest_idx ns) keys)
      (fun m => Forall (fun p => p.1 <> smallest_idx ns -> m ∈ set_of w p.2) (zip (seq 0 (length keys)) keys)) w l) with (w1 := w1) (r := res) (w2 := w2)
      as [S2 ->]; [|done|done|].
    { intros m w3 b w4 S3 Hrun. destruct (in_all_spec w m _ keys Hlive _ _ _ _ S3 Hrun) as [S4 Hb4]. split; [done|].
      apply eq_bool_prop_intro. rewrite bool_decide_spec, Is_true_true, Hb4, Forall_lookup. split.
      - intros Hall i [j k] Hjk. rewrite lookup_zip_with_Some in Hjk. destruct Hjk as (j' & k' & [= -> ->] & Hj & Hk').
        apply lookup_seq in Hj as [-> _]. cbn. intros Hx. by apply (Hall i).
      - intros Hall j k Hj Hx. apply (Hall j (j, k)); [|done]. rewrite lookup_zip_with_Some. exists j, k.
        split_and!; [done| |done]. apply lookup_seq. split; [lia|]. by eapply lookup_lt_Some. }
    split; [done|]. eexists. split_and!; [done|by apply NoDup_filter|]. intros m.
    rewrite list_elem_of_filter, Hin, elem_inter, Forall_lookup by done.
    assert (Hsb : set_of w best = s) by (unfold set_of; by rewrite Hk). split.
    + intros [Hall Hm] k (j & Hj)%list_elem_of_lookup. destruct (decide (j = smallest_idx ns)) as [->|Hx]; [congruence|].
      apply (Hall j (j, k)); [|done]. rewrite lookup_zip_with_Some. exists j, k. split_and!; [done| |done].
      apply lookup_seq. split; [lia|]. by eapply lookup_lt_Some.
    + intros Hall. split; [|rewrite <- Hsb; apply Hall; by eapply list_elem_of_lookup_2].
      intros i [j k] Hjk _. rewrite lookup_zip_with_Some in Hjk. destruct Hjk as (j' & k' & [= -> ->] & _ & Hk').
      apply Hall. by eapply list_elem_of_lookup_2.
Qed.

Lemma sunion_computes : computes sunion_impl union_of.
Proof.
  intros keys w r w' _ Hw H. unfold sunion_impl, mbind, state_bind in H. destruct (sunion_collect keys w) as [o w1] eqn:E.
  destruct (sunion_collect_spec _ _ _ _ Hw E) as [S1 Hr]. injection H as <- <-. split; [done|].
  destruct (all_sets w keys); [|by rewrite Hr]. destruct Hr as (l & -> & Hin). destruct (sort_unique_spec l) as [H1 H2].
  eexists. split_and!; [done|done|]. intros m. by rewrite H2, Hin, elem_union.
Qed.

Lemma sdiff_computes : computes sdiff_impl diff_of.
Proof.
  intros [|k keys] w r w' Hne Hw H; [done|]. unfold sdiff_impl, mbind at 1, state_bind at 1 in H. cbn [hd tail] in H.
  destruct (lookup_set_ro k w) as [o w1] eqn:E. destruct (lookup_set_ro_spec _ _ _ _ Hw E) as [S1 Hr].
  destruct (silent_all_sets w w1 keys S1) as [A1 A2]. rewrite all_sets_cons.
  assert (Hothers : forall w2 ro, sdiff_others keys w1 = (ro, w2) -> silent w w2 /\
    ro = if all_sets w keys then Some (present w keys) else None).
  { intros w2 ro Ho. destruct (sdiff_others_spec _ _ _ _ (proj1 S1) Ho) as [S2 ->]. rewrite A1, A2.
    split; [by eapply silent_trans|done]. }
  destruct o as [k'| |].
  - destruct Hr as (-> & s & t & Hk). rewrite Hk. cbn [is_set andb].
    unfold mbind at 1, state_bind at 1 in H. destruct (sdiff_others keys w1) as [ro w2] eqn:Eo.
    destruct (Hothers _ _ eq_refl) as [S2 ->]. destruct (all_sets w keys) eqn:Ha; [|by injection H as <- <-].
    unfold mbind at 1, state_bind at 1 in H.
    destruct (members_of_spec w2 k s t (proj1 S2)) as (l & El & Hnd & _ & Hin); [by rewrite (proj1 (proj2 S2))|].
    rewrite El in H. unfold mbind, state_bind in H. destruct (keep_if _ l w2) as [res w3] eqn:Ek. injection H as <- <-.
    destruct (keep_if_spec (fun m => in_none m (present w keys)) (fun m => Forall (fun j => m ∉ set_of w j) (present w keys)) w l)
      with (w1 := w2) (r := res) (w2 := w3) as [S3 ->]; [|done|done|].
    { intros m w4 b w5 S4 Hrun. destruct (in_none_spec w m _ (present_live w keys Ha) _ _ _ S4 Hrun) as [S5 Hb5].
      split; [done|]. apply eq_bool_prop_intro. by rewrite bool_decide_spec, Is_true_true. }
    split; [done|]. eexists. split_and!; [done|by apply NoDup_filter|]. intros m.
    rewrite list_elem_of_filter, Hin. cbn [diff_of]. rewrite elem_of_difference, elem_union.
    assert (Hsk : set_of w k = s) by (unfold set_of; by rewrite Hk). rewrite Hsk, Forall_forall. split.
    + intros [Hall Hm]. split; [done|]. intros (j & Hj & Hmj). apply (Hall j); [|done]. apply list_elem_of_filter.
      split; [|done]. unfold set_of in Hmj. destruct (view w !! j); [by eexists|by apply not_elem_of_empty in Hmj].
    + intros [Hm Hn]. split; [|done]. intros j [_ Hj]%list_elem_of_filter Hmj. apply Hn. by exists j.
  - rewrite Hr. cbn [is_set andb]. unfold mbind, state_bind in H. destruct (sdiff_others keys w1) as [ro w2] eqn:Eo.
    destruct (Hothers _ _ eq_refl) as [S2 ->]. destruct (all_sets w keys); injection H as <- <-; [|done]. split; [done|].
    exists []. split_and!; [done|constructor|]. intros m. cbn [diff_of]. unfold set_of at 1. rewrite Hr, elem_of_difference.
    rewrite elem_of_nil, elem_of_empty. tauto.
  - injection H as <- <-. by rewrite Hr.
Qed.
