(* ===== verification/SetCommands.v ===== *)
(** * The set commands are the operations on finite sets

    The claims on the handlers of Sets.v: the algebra of SINTER, SUNION and
    SDIFF, their storing variants, SADD and SREM. *)
From S2P Require Import Prelude Buffer Resp StdString Deque Hashtable HashMap Heap Score ZSet HashSet State World Args Strings Lists Glob Keys Containers Hashes Sets.

(** ** Replies *)

Lemma wf_resp_set p b n : wf b -> wf (resp_set p b n).
Proof. unfold resp_set. apply appends_buf. Qed.
#[export] Hint Resolve wf_resp_set wf_foldl_str : myred.

Lemma for_each_r_str l w : for_each l r_str w = ((), with_out (foldl resp_str (out w) l) w).
Proof.
  revert w. induction l as [|s l IH]; intros w; [by destruct w|].
  cbn [for_each foldl]. unfold mbind, state_bind, r_str, reply, modify. by rewrite IH.
Qed.

(** The reply of a set: its header in the protocol in force, and the members. *)
Definition members_reply (p : Z) (l : list bytes) (b : Buffer) : Buffer :=
  foldl resp_str (resp_set p b (u32 (Z.of_nat (length l)))) l.

Lemma r_members_run l w :
  r_members l w = ((), with_out (members_reply (g_reply_proto (env w)) l (out w)) w).
Proof. unfold r_members, mbind, state_bind, r_set, reply_p, modify. by rewrite for_each_r_str. Qed.

(** ** SINTER, SUNION, SDIFF *)

(** What the answer of one of them must be. *)
Definition answers_set (w w' : World) (ok : bool) (S : gset bytes) : Prop :=
  if ok then exists l, NoDup l /\ (forall m, m ∈ l <-> m ∈ S) /\
                leaves w w' (members_reply (g_reply_proto (env w)) l) (view w) 0
  else leaves w w' (fun b => resp_err b MSG_WRONGTYPE_SHORT) (view w) 0.

Lemma answer_computed impl S keys w w' :
  computes impl S -> keys <> [] -> world_ok w -> writes_ok w ->
  (r ← impl keys; answer_members r) w = ((), w') ->
  answers_set w w' (all_sets w keys) (S w keys).
Proof.
  intros Hc Hne Hw Hn H. unfold mbind, state_bind in H. destruct (impl keys w) as [r w1] eqn:E.
  destruct (Hc _ _ _ _ Hne Hw E) as [(W1 & V1 & Q1 & _) Hr]. unfold answers_set. destruct (all_sets w keys).
  - destruct Hr as (l & -> & Hnd & Hin). exists l. split; [done|]. split; [done|].
    cbn [answer_members] in H. rewrite r_members_run in H. injection H as <-. pose proof Q1 as (_ & _ & Q3). rewrite <- Q3.
    apply (leaves_quiet w w1 (members_reply (g_reply_proto (env w1)) l)); try done. unfold members_reply. auto with myred.
  - subst r. injection H as <-. apply (leaves_quiet w w1 (fun b => resp_err b MSG_WRONGTYPE_SHORT)); auto with myred.
Qed.

Lemma tail_keys (cmd : list sstr) i : (i < length cmd)%nat -> s_data <$> drop i cmd <> [].
Proof. intros H Hx. apply (f_equal length) in Hx. rewrite length_fmap, length_drop in Hx. cbn in Hx. lia. Qed.

(** ** SADD and SREM *)

Lemma set_add_grows h m b h' :
  set_ok h -> set_add h m = (b, h') -> to_map s_data h ⊆ to_map s_data h'.
Proof.
  intros Hok H. unfold set_add in H. destruct (hm_lookup h _ _) as [found h1] eqn:E.
  destruct (table_lookup _ _ _ _ _ _ Hok E) as (Hok1 & Hm1 & ->).
  destruct (to_map s_data h !! s_data m) as [sn|] eqn:Ef; injection H as <- <-; [by rewrite Hm1|].
  assert (Hd : s_data (s_move s_empty m).1 = s_data m) by (destruct (s_move_data s_empty m) as [Hd _]; exact Hd).
  destruct (table_insert s_data set_node_bytes h1 (s_move s_empty m).1 Hok1) as [_ ->]; [by rewrite Hd, Hm1|].
  rewrite Hd, Hm1. by apply insert_subseteq.
Qed.

Lemma set_members_size h : set_ok h -> hm_size h = base.size (set_members h).
Proof. intros [Hk _]. rewrite (hm_size_map s_data h Hk). symmetry. apply size_dom. Qed.

Lemma sadd_loop_spec args h a h' a' :
  set_ok h -> sadd_loop h a args = (h', a') ->
  set_ok h' /\ to_map s_data h ⊆ to_map s_data h' /\
  set_members h' = list_to_set (s_data <$> args) ∪ set_members h /\
  a' = a + Z.of_nat (base.size (set_members h')) - Z.of_nat (base.size (set_members h)).
Proof.
  revert h a. induction args as [|m args IH]; intros h a Hok H.
  { injection H as <- <-. split; [done|]. split; [done|]. split; [by cbn; rewrite union_empty_l_L|lia]. }
  cbn [sadd_loop] in H. destruct (set_add h m) as [b h1] eqn:E.
  destruct (set_add_spec _ _ _ _ Hok E) as (Hok1 & Hm1 & Hb). pose proof (set_add_grows _ _ _ _ Hok E) as Hg.
  apply IH in H as (H1 & H2 & H3 & ->); [|done]. split; [done|]. split; [by etrans|].
  rewrite H3, Hm1, fmap_cons, list_to_set_cons, (assoc_L (∪)), (comm_L (∪) (list_to_set _) {[_]}). split; [done|].
  assert (Hsz : Z.of_nat (base.size (set_members h1)) = Z.of_nat (base.size (set_members h)) + (if b then 1 else 0)).
  { rewrite Hm1, Hb. case_bool_decide as Hx.
    - rewrite size_union, size_singleton; [lia|]. apply disjoint_singleton_l. exact Hx.
    - rewrite subseteq_union_1_L; [lia|]. apply singleton_subseteq_l. destruct (decide (s_data m ∈ set_members h)); [done|tauto]. }
  rewrite <- Hm1, Hsz. destruct b; lia.
Qed.

Lemma srem_loop_spec l h a h' a' :
  set_ok h -> srem_loop h a l = (h', a') ->
  set_ok h' /\ to_map s_data h' = drop_keys l (to_map s_data h) /\
  a' = a + Z.of_nat (base.size (to_map s_data h)) - Z.of_nat (base.size (to_map s_data h')).
Proof.
  revert h a. induction l as [|m l IH]; intros h a Hok H; [injection H as <- <-; split; [done|]; split; [done|lia]|].
  cbn [srem_loop] in H. unfold set_remove in H. destruct (hm_delete h (str_hash m) (key_eq s_data m)) as [[sn|] h1] eqn:E.
  - destruct (table_delete _ _ _ _ _ _ Hok E) as (Hok1 & Hm1 & Hf).
    apply IH in H as (H1 & H2 & ->); [|done]. split; [done|]. split; [by rewrite H2, Hm1|].
    rewrite Hm1, map_size_delete, Hf. cbn.
    assert (base.size (to_map s_data h) <> 0)%nat by (intros Hz; apply map_size_empty_inv in Hz; by rewrite Hz in Hf). lia.
  - destruct (table_delete_none _ _ _ _ _ Hok E) as (Hok1 & Hm1 & Hf).
    apply IH in H as (H1 & H2 & ->); [|done]. split; [done|]. split; [|by rewrite Hm1].
    rewrite H2, Hm1. cbn. by rewrite delete_id.
Qed.

Lemma dom_drop_keys {A} (l : list bytes) (m : gmap bytes A) : dom (drop_keys l m) = dom m ∖ list_to_set l.
Proof.
  revert m. induction l as [|k l IH]; intros m; cbn [drop_keys list_to_set]; [by rewrite difference_empty_L|].
  by rewrite IH, dom_delete_L, difference_difference_l_L.
Qed.

Definition set_at (v : gmap bytes (AVal * option Z)) (k : bytes) : gset bytes * option Z :=
  match v !! k with Some (ASet s, t) => (s, t) | _ => (∅, None) end.

Lemma set_usage_same e h h' :
  set_ok h -> set_ok h' -> eval e = VSet h -> to_map s_data h' = to_map s_data h ->
  aval (VSet h') = aval (eval e) /\ entry_mem_usage (with_eval (VSet h') e) = entry_mem_usage e.
Proof.
  intros [_ Hb] [_ Hb'] Hev Hm. rewrite Hev. cbn [aval]. unfold set_members. rewrite Hm. split; [done|].
  unfold entry_mem_usage. cbn [ekey eval with_eval]. by rewrite Hev, Hb, Hb', Hm.
Qed.

Lemma members_grow h h' :
  to_map s_data h ⊆ to_map s_data h' -> base.size (set_members h') = base.size (set_members h) ->
  to_map s_data h' = to_map s_data h.
Proof.
  intros Hsub Hsz. unfold set_members in Hsz. rewrite !size_dom in Hsz. symmetry. by apply map_subseteq_size_eq; [|lia].
Qed.

(** The write at the end of SADD, into an entry already charged or a new one. *)
Lemma sadd_commit w w1 k e h' t v0 n w' :
  holds_entry w1 k e -> quiet w w1 -> writes_ok w -> wf (out w) -> set_ok h' -> view w1 !! k = Some (v0, t) ->
  view w1 = <[k := (v0, t)]> (view w) -> 0 <= n ->
  (n = 0 -> world_ok w1 /\ aval (VSet h') = aval (eval e) /\ v0 = aval (eval e) /\
            entry_mem_usage (with_eval (VSet h') e) = entry_mem_usage e) ->
  (put_set k h' ;; (if 0 <? n then reaccount k ;; dirty 1 else mret ()) ;; r_int n) w1 = ((), w') ->
  leaves w w' (fun b => resp_int b n) (<[k := (ASet (set_members h'), t)]> (view w)) (if n =? 0 then 0 else 1).
Proof.
  intros He Hq Hn Hwf Hok Hk Hv1 Hpos Hz H. destruct (0 <? n) eqn:En; bool_facts.
  - assert (n =? 0 = false) as -> by lia. injection H as <-.
    destruct (commit_val w1 k e (VSet h') v0 t He Hok Hk) as [C1 C2].
    apply (leaves_changed w (with_ks _ w1) (fun b => resp_int b n)); [done| |done|done|auto with myred].
    rewrite C2, Hv1, insert_insert_eq. done.
  - assert (n = 0) as -> by lia. cbn [Z.eqb]. injection H as <-. destruct (Hz eq_refl) as (Hw1 & Ha & -> & Hm).
    destruct (peek_val w1 k e (VSet h') He Hok Ha Hm) as (_ & P2 & P3).
    replace (<[k := (ASet (set_members h'), t)]> (view w)) with (view w1) by (rewrite Hv1; do 2 f_equal; by rewrite <- Ha).
    apply (leaves_reply w (with_ks _ w1) (fun b => resp_int b 0)); try done; [apply P3, Hw1|]. apply wf_resp_int, Hw1.
Qed.

Lemma do_sadd_leaves cmd w w' :
  world_ok w -> writes_ok w -> room w -> (3 <= length cmd)%nat -> do_sadd cmd w = ((), w') ->
  let k := argd cmd 1 in
  let s := (set_at (view w) k).1 in
  let s' := list_to_set (s_data <$> drop 2 cmd) ∪ s in
  let n := Z.of_nat (base.size s') - Z.of_nat (base.size s) in
  if is_set (view w !! k)
  then leaves w w' (fun b => resp_int b n) (<[k := (ASet s', (set_at (view w) k).2)]> (view w)) (if n =? 0 then 0 else 1)
  else leaves w w' (fun b => resp_err b MSG_WRONGTYPE_SHORT) (view w) 0.
Proof.
  intros Hw Hn Hroom Hlen H. unfold do_sadd, mbind at 1, state_bind at 1 in H. cbn zeta.
  destruct (lookup_entry (arg cmd 1) T_SET true false w) as [r w1] eqn:E.
  destruct (open_create _ _ _ _ _ Hw Hroom E) as [Hq Hr]. change (s_data (arg cmd 1)) with (argd cmd 1) in Hr.
  destruct r as [k| |]; [|done|].
  2:{ injection H as <-. destruct Hr as (Hw1 & Hv & v & t & Hk & Hty). rewrite Hk, not_set by done.
      apply (leaves_quiet w w1 (fun b => resp_err b MSG_WRONGTYPE_SHORT)); auto with myred. }
  destruct Hr as (-> & e & t & He & Ht & Hv1 & Hwas). destruct (set_type e Ht) as [h Hev]. rewrite Hev in *. cbn [aval] in *.
  unfold mbind at 1, state_bind at 1 in H. rewrite (entry_set_run w1 _ e h (proj2 (proj2 (proj2 He))) Hev) in H.
  destruct (sadd_loop h 0 (drop 2 cmd)) as [h' a'] eqn:El.
  pose proof (holds_value _ _ _ He) as Hok. rewrite Hev in Hok.
  destruct (sadd_loop_spec _ _ _ _ _ Hok El) as (Hok' & Hsub & Hm' & Ha'). rewrite Z.add_0_l in Ha'.
  assert (Hcase : is_set (view w !! argd cmd 1) = true /\ (set_at (view w) (argd cmd 1)) = (set_members h, t) /\
    (a' = 0 -> world_ok w1)).
  { unfold set_at. destruct (view w !! argd cmd 1) as [x|] eqn:Ek.
    - destruct Hwas as (-> & _ & Hw1). by split.
    - destruct Hwas as [Hf ->]. injection Hf as Hf. rewrite Hf. split; [done|]. split; [done|]. intros Hz. exfalso.
      assert (Hsh : base.size (set_members h) = 0%nat) by (rewrite Hf; apply size_empty). assert (Hs0 : base.size (set_members h') = 0%nat) by lia.
      apply size_empty_inv in Hs0. rewrite Hm' in Hs0. destruct (drop 2 cmd) as [|m l] eqn:Ed.
      + apply (f_equal length) in Ed. rewrite length_drop in Ed. cbn in Ed. lia.
      + cbn in Hs0. specialize (Hs0 (s_data m)). rewrite !elem_of_union, elem_of_singleton, elem_of_empty in Hs0. tauto. }
  destruct Hcase as (-> & Hat & Hw1). rewrite Hat. cbn [fst snd]. rewrite <- Hm', <- Ha'.
  assert (Hge : (base.size (set_members h) <= base.size (set_members h'))%nat).
  { apply subseteq_size. unfold set_members. by apply subseteq_dom. }
  refine (sadd_commit w w1 _ e h' t (ASet (set_members h)) a' w' He Hq Hn (proj2 (proj2 Hw)) Hok' _ Hv1 _ _ H).
  - rewrite Hv1. apply lookup_insert_eq.
  - lia.
  - intros Hz. split; [auto|]. rewrite Hev. apply (set_usage_same e h h') in Hok' as [H1 H2]; try done.
    + rewrite Hev in H1. done.
    + apply members_grow; [done|lia].
Qed.

Lemma do_srem_leaves cmd w w' :
  world_ok w -> writes_ok w -> do_srem cmd w = ((), w') ->
  let k := argd cmd 1 in
  match view w !! k with
  | None => leaves w w' (fun b => resp_int b 0) (view w) 0
  | Some (ASet s, t) =>
      let s' := s ∖ list_to_set (s_data <$> drop 2 cmd) in
      let n := Z.of_nat (base.size s) - Z.of_nat (base.size s') in
      leaves w w' (fun b => resp_int b n)
        (if decide (s' = ∅) then delete k (view w) else <[k := (ASet s', t)]> (view w)) (if n =? 0 then 0 else 1)
  | Some _ => leaves w w' (fun b => resp_err b MSG_WRONGTYPE_SHORT) (view w) 0
  end.
Proof.
  intros Hw Hn H. unfold do_srem, set_read, mbind at 1, state_bind at 1 in H. cbn zeta.
  destruct (lookup_entry (arg cmd 1) T_SET false false w) as [r w1] eqn:E.
  destruct (open_read _ _ _ _ _ Hw E) as (Hw1 & Hv & Hq & Hr). pose proof Hq as (Q1 & Q2 & Q3).
  change (s_data (arg cmd 1)) with (argd cmd 1) in Hr. destruct r as [k| |].
  2:{ injection H as <-. rewrite Hr. apply (leaves_quiet w w1 (fun b => resp_int b 0)); auto with myred. }
  2:{ injection H as <-. destruct Hr as (v & t & -> & Hty).
      destruct v; try done; by apply (leaves_quiet w w1 (fun b => resp_err b MSG_WRONGTYPE_SHORT)); auto with myred. }
  destruct Hr as (-> & e & t & He & Ht & Hk). destruct (set_type e Ht) as [h Hev]. rewrite Hk, Hev. cbn [aval].
  unfold mbind, state_bind in H. rewrite (entry_set_run w1 _ e h (proj2 (proj2 (proj2 He))) Hev) in H.
  destruct (srem_loop h 0 (s_data <$> drop 2 cmd)) as [h' a'] eqn:El.
  pose proof (holds_value _ _ _ He) as Hok. rewrite Hev in Hok.
  destruct (srem_loop_spec _ _ _ _ _ Hok El) as (Hok' & Hm' & ->).
  assert (Hmap : set_members h' = set_members h ∖ list_to_set (s_data <$> drop 2 cmd))
    by (unfold set_members; by rewrite Hm', dom_drop_keys).
  assert (Hsz : forall x, base.size (set_members x) = base.size (to_map s_data x)) by (intros x; apply size_dom).
  rewrite <- Hmap, !Hsz, Z.add_0_l in *.
  assert (Hemp : (hm_size h' =? 0)%nat = bool_decide (set_members h' = ∅)).
  { rewrite (set_members_size h' Hok'). case_bool_decide as Hx; [by rewrite Hx|]. apply Nat.eqb_neq. intros Hz.
    apply Hx. by apply leibniz_equiv, size_empty_inv. }
  rewrite Hemp in H. apply (leaves_after w w1); [done|]. rewrite <- Hv in Hk |- *.
  eapply (shrink_val w1 (argd cmd 1) e (VSet h') t _ (bool_decide (set_members h' = ∅))) in H;
    [|done|done|by unfold writes_ok; rewrite Q1|done|done|].
  { by case_bool_decide; case_decide. }
  intros Hz. apply (set_usage_same e h h'); try done. apply map_subseteq_size_eq; [rewrite Hm'; apply drop_keys_sub|lia].
Qed.

(** ** The storing variants *)

Lemma fold_add_spec l h :
  set_ok h ->
  let h' := foldl (fun h m => (set_add h (s_copy m)).2) h l in
  set_ok h' /\ set_members h' = list_to_set l ∪ set_members h.
Proof.
  revert h. induction l as [|m l IH]; intros h Hok; cbn [foldl list_to_set]; [split; [done|]; by rewrite union_empty_l_L|].
  destruct (set_add h (s_copy m)) as [b h1] eqn:E. cbn [snd]. destruct (set_add_spec _ _ _ _ Hok E) as (Hok1 & Hm1 & _).
  destruct (IH h1 Hok1) as [H1 H2]. split; [done|]. rewrite H2, Hm1. change (s_data (s_copy m)) with m.
  by rewrite (assoc_L (∪)), (comm_L (∪) (list_to_set _) {[_]}).
Qed.

(** [hm_lookup] and, when it finds the key, [hm_delete] and [entry_del]. *)
Lemma lookup_remove_spec w d :
  world_ok w ->
  exists w1, (forall (A : Type) (c : bool -> M A),
      (node ← ks_get (fun _ => db_lookup d);
       (match node with Some old => remove old | None => mret () end) ;; c (bool_decide (is_Some node))) w =
      c (bool_decide (is_Some (ents (ks w) !! d))) w1) /\
    world_ok w1 /\ view w1 = delete d (view w) /\ quiet w w1 /\ ents (ks w1) !! d = None /\
    (base.size (ents (ks w1)) <= base.size (ents (ks w)))%nat.
Proof.
  intros (Hok & Hacc & Hwf). destruct (db_lookup d (ks w)) as [node s1] eqn:E1.
  destruct (db_lookup_spec _ _ _ _ Hok E1) as (Hok1 & He1 & Hh1 & Hv1 & Hu1 & ->).
  assert (Hview1 : lview (now (env w)) s1 = view w) by (apply lview_same; unfold vals, ttls; congruence).
  assert (Hacc1 : accounted s1) by (unfold accounted; by rewrite He1).
  destruct (ents (ks w) !! d) as [e|] eqn:Ek.
  - assert (Hin : is_Some (ents (ks (with_ks s1 w)) !! d)) by (cbn; rewrite He1, Ek; by eexists).
    destruct (view_remove (with_ks s1 w) d Hok1 Hacc1 Hin) as (R1 & R2 & R3).
    destruct (remove_key_spec s1 (now (env w)) d Hok1 Hin) as (_ & _ & _ & _ & _ & Hdom).
    exists (with_ks (remove_key (now (env w)) d s1) w). split.
    { intros A c. unfold mbind, state_bind, ks_get. rewrite E1. cbn [fmap option_fmap option_map]. done. }
    split; [done|]. split; [cbn in R3; unfold view at 1; cbn; rewrite R3; unfold view; cbn; by rewrite Hview1|].
    split; [done|]. cbn [ks with_ks]. split.
    + apply not_elem_of_dom. rewrite Hdom. rewrite elem_of_difference, elem_of_singleton. tauto.
    + rewrite <- He1, <- !size_dom, Hdom. apply subseteq_size. apply subseteq_difference_l. done.
  - exists (with_ks s1 w). split.
    { intros A c. unfold mbind, state_bind, ks_get. rewrite E1. done. }
    split; [done|]. split.
    { unfold view at 1. cbn. rewrite Hview1. symmetry. apply delete_id. apply lview_None. left. unfold vals. by rewrite lookup_fmap, Ek. }
    split; [done|]. cbn. by rewrite He1, Ek.
Qed.

(** A fresh set entry linked under a free key. *)
Lemma link_set_spec w d :
  world_ok w -> room w -> ents (ks w) !! d = None ->
  let e := with_ekey (s_assign s_empty d) (entry_new T_SET) in
  let w' := with_ks (db_link d e (ks w)) w in
  holds_entry w' d e /\ view w' = <[d := (ASet ∅, None)]> (view w).
Proof.
  intros (Hok & Hacc & Hwf) Hroom Hn. cbn zeta. set (e := with_ekey _ _).
  assert (Hd : s_data (ekey e) = d) by done.
  destruct (db_link_spec (ks w) d e Hok Hn Hroom Hd eq_refl (table_ok_empty _ _) eq_refl) as (H1 & H2 & H3 & H4).
  split; [split; [done|]; split; [|split; [done|cbn; apply lookup_insert_eq]]|].
  - intros j e'. cbn. destruct (decide (d = j)) as [<-|]; [by left|].
    rewrite lookup_insert_ne by done. intros He'. right. by apply (Hacc j).
  - apply (lview_set _ (ks w) (db_link d e (ks w))); [done|by intros; rewrite H3|by rewrite H3|done].
Qed.

Lemma store_empty_run d w :
  set_store_result d [] w =
  (node ← ks_get (fun _ => db_lookup d);
   (match node with Some old => remove old | None => mret () end) ;;
   (if bool_decide (is_Some node) then dirty 1 else mret ()) ;; r_int 0) w.
Proof. unfold set_store_result, mbind, state_bind. by destruct (ks_get _ w) as [[] w1]. Qed.

Lemma store_result_leaves d l S w w' :
  world_ok w -> writes_ok w -> room w -> NoDup l -> (forall m, m ∈ l <-> m ∈ S) ->
  set_store_result d l w = ((), w') ->
  if decide (S = ∅)
  then exists n, leaves w w' (fun b => resp_int b 0) (delete d (view w)) n /\
         (n = 0 \/ n = 1) /\ (is_Some (view w !! d) -> n = 1)
  else leaves w w' (fun b => resp_int b (Z.of_nat (base.size S))) (<[d := (ASet S, None)]> (view w)) 1.
Proof.
  intros Hw Hn Hroom Hnd Hin H. destruct (lookup_remove_spec w d Hw) as (w1 & Hrun & Hw1 & Hv1 & Hq & Hno & Hle).
  pose proof Hq as (Q1 & Q2 & Q3). assert (Hwf : wf (out w)) by apply Hw. case_decide as HS.
  - destruct l as [|m l]; [|exfalso; assert (Hm : m ∈ S) by (apply Hin; by left); rewrite HS in Hm; by apply not_elem_of_empty in Hm].
    rewrite store_empty_run, (Hrun _ (fun b => (if b then dirty 1 else mret ()) ;; r_int 0)) in H.
    case_bool_decide as Hd; injection H as <-.
    + exists 1. split; [|auto]. by apply (leaves_changed w w1 (fun b => resp_int b 0)); auto with myred.
    + exists 0. split; [by apply (leaves_reply w w1 (fun b => resp_int b 0)); auto with myred; rewrite Q2; auto with myred|].
      split; [by left|]. intros [x Hx]. destruct Hd. unfold view in Hx. rewrite lview_lookup in Hx. unfold vals in Hx.
      rewrite lookup_fmap in Hx. destruct (ents (ks w) !! d); [by eexists|done].
  - assert (Hl : l <> []). { intros ->. apply HS. apply set_eq. intros m. rewrite <- Hin, elem_of_nil, elem_of_empty. done. }
    assert (Hrun2 : set_store_result d l w = (on_ks (fun _ => db_link d (with_ekey (s_assign s_empty d) (entry_new T_SET))) ;;
       h ← entry_set d; let h' := foldl (fun h m => (set_add h (s_copy m)).2) h l in
       put_set d h' ;; reaccount d ;; dirty 1 ;; r_int (Z.of_nat (hm_size h'))) w1).
    { rewrite <- (Hrun _ (fun _ => on_ks (fun _ => db_link d (with_ekey (s_assign s_empty d) (entry_new T_SET))) ;;
       h ← entry_set d; let h' := foldl (fun h m => (set_add h (s_copy m)).2) h l in
       put_set d h' ;; reaccount d ;; dirty 1 ;; r_int (Z.of_nat (hm_size h')))).
      unfold set_store_result, set_make_dest, mbind, state_bind. destruct l; [done|]. by destruct (ks_get _ w) as [[] ?]. }
    rewrite Hrun2 in H. clear Hrun2 Hrun. assert (Hroom1 : room w1) by (unfold room in *; lia).
    destruct (link_set_spec w1 d Hw1 Hroom1 Hno) as [He Hv2]. set (e := with_ekey _ _) in *.
    unfold mbind, state_bind, on_ks, modify in H. set (w2 := with_ks (db_link d e (ks w1)) w1) in *.
    rewrite (entry_set_run w2 d e HMap_empty (proj2 (proj2 (proj2 He))) eq_refl) in H.
    destruct (fold_add_spec l HMap_empty (table_ok_empty _ _)) as [Hok' Hm']. set (h' := foldl _ _ l) in *.
    assert (HS' : set_members h' = S).
    { apply set_eq. intros m. rewrite Hm', elem_of_union, elem_of_list_to_set, Hin.
      change (set_members HMap_empty) with (∅ : gset bytes). rewrite elem_of_empty. tauto. }
    injection H as <-. destruct (commit_val w2 d e (VSet h') (ASet ∅) None He Hok') as [C1 C2]; [rewrite Hv2; apply lookup_insert_eq|].
    rewrite (set_members_size h' Hok'), HS'.
    apply (leaves_changed w (with_ks _ w2) (fun b => resp_int b (Z.of_nat (base.size S)))); try done; [|auto with myred].
    etrans; [exact C2|]. rewrite Hv2, Hv1, insert_insert_eq, insert_delete_eq. cbn [aval]. by rewrite HS'.
Qed.

Definition stores_set (w w' : World) (d : bytes) (ok : bool) (S : gset bytes) : Prop :=
  if ok then
    if decide (S = ∅)
    then exists n, leaves w w' (fun b => resp_int b 0) (delete d (view w)) n /\
           (n = 0 \/ n = 1) /\ (is_Some (view w !! d) -> n = 1)
    else leaves w w' (fun b => resp_int b (Z.of_nat (base.size S))) (<[d := (ASet S, None)]> (view w)) 1
  else leaves w w' (fun b => resp_err b MSG_WRONGTYPE_SHORT) (view w) 0.

Lemma store_computed impl S cmd w w' :
  computes impl S -> (3 <= length cmd)%nat -> world_ok w -> writes_ok w -> room w -> store impl cmd w = ((), w') ->
  let keys := s_data <$> drop 2 cmd in
  stores_set w w' (argd cmd 1) (all_sets w keys) (S w keys).
Proof.
  intros Hc Hlen Hw Hn Hroom H. cbn zeta. unfold store, mbind, state_bind in H.
  pose proof (tail_keys cmd 2 ltac:(lia)) as Hne. revert Hne H.
  generalize (s_data <$> drop 2 cmd). intros keys Hne H. destruct (impl keys w) as [r w1] eqn:E.
  destruct (Hc _ _ _ _ Hne Hw E) as [(W1 & V1 & Q1 & L1) Hr]. unfold stores_set.
  destruct (all_sets w keys).
  - destruct Hr as (l & -> & Hnd & Hin). assert (Hroom1 : room w1) by (unfold room in *; lia).
    pose proof (store_result_leaves (argd cmd 1) l (S w keys) w1 w' W1 (quiet_writes _ _ Q1 Hn) Hroom1 Hnd Hin H) as Hs.
    rewrite V1 in Hs. case_decide.
    + destruct Hs as (n & Hl & Hs). exists n. split; [by apply (leaves_after w w1)|done].
    + by apply (leaves_after w w1).
  - subst r. injection H as <-. apply (leaves_quiet w w1 (fun b => resp_err b MSG_WRONGTYPE_SHORT)); auto with myred.
Qed.

(** ** Properties *)

(** A server holding the set [s] = {a, b, c}, then also [t] = {b, c, d}. *)
Definition w_s : World := (do_sadd (words ["sadd"; "s"; "a"; "b"; "c"]) w0).2.
Definition w_sets : World := (do_sadd (words ["sadd"; "t"; "b"; "c"; "d"]) w_s).2.

Lemma sadd_ok cmd w :
  world_ok w -> writes_ok w -> room w -> (3 <= length cmd)%nat -> world_ok (do_sadd cmd w).2 /\ writes_ok (do_sadd cmd w).2.
Proof.
  intros Hw Hn Hroom Hlen. destruct (do_sadd cmd w) as [[] w'] eqn:E. cbn [snd].
  pose proof (do_sadd_leaves cmd w w' Hw Hn Hroom Hlen E) as H. cbn zeta in H.
  destruct (is_set _); exact (leaves_ok _ _ _ _ _ H).
Qed.

Lemma room_below (w : World) n : base.size (ents (ks w)) = n -> (n < 1000)%nat -> room w.
Proof. unfold room. intros -> Hn. assert (1001 < NO_TTL) by done. lia. Qed.

Lemma w_sets_ok : world_ok w_sets /\ writes_ok w_sets /\ room w_sets.
Proof.
  destruct (sadd_ok (words ["sadd"; "s"; "a"; "b"; "c"]) w0 w0_ok (proj1 w0_start) (proj1 (proj2 w0_start))) as [H1 H2]; [cbn; lia|].
  assert (Hr : room w_s) by (apply (room_below _ 1); [vm_compute; reflexivity|lia]).
  destruct (sadd_ok (words ["sadd"; "t"; "b"; "c"; "d"]) w_s H1 H2 Hr) as [H3 H4]; [cbn; lia|].
  split; [exact H3|]. split; [exact H4|]. apply (room_below _ 2); [vm_compute; reflexivity|lia].
Qed.

(** SINTER, SUNION and SDIFF compute the set algebra.  When every key is
    missing or holds a set, the reply lists, without repetition, exactly the
    members of the intersection, the union, or the difference of the first
    from the others (a missing key counting as the empty set); otherwise the
    type error is answered.  Nothing changes, although the membership tests
    migrate nodes of the tables. *)
Theorem set_algebra_correct (w : World) (cmd : list sstr) (Hw : world_ok w) (Hn : writes_ok w) (Hlen : (2 <= length cmd)%nat) :
  let keys := s_data <$> drop 1 cmd in
  answers_set w (do_sinter cmd w).2 (all_sets w keys) (inter_of w keys) /\
  answers_set w (do_sunion cmd w).2 (all_sets w keys) (union_of w keys) /\
  answers_set w (do_sdiff cmd w).2 (all_sets w keys) (diff_of w keys).
Proof.
  cbn zeta. pose proof (tail_keys cmd 1 ltac:(lia)) as Hk. split_and!.
  - destruct (do_sinter cmd w) as [[] w'] eqn:E. by apply (answer_computed _ _ _ _ _ sinter_computes).
  - destruct (do_sunion cmd w) as [[] w'] eqn:E. by apply (answer_computed _ _ _ _ _ sunion_computes).
  - destruct (do_sdiff cmd w) as [[] w'] eqn:E. by apply (answer_computed _ _ _ _ _ sdiff_computes).
Qed.

Lemma set_algebra_correct_witness :
  let cmd := words ["sinter"; "s"; "t"] in
  let w := w_sets in
  let keys := s_data <$> drop 1 cmd in
  (answers_set w (do_sinter cmd w).2 (all_sets w keys) (inter_of w keys) /\
   answers_set w (do_sunion cmd w).2 (all_sets w keys) (union_of w keys) /\
   answers_set w (do_sdiff cmd w).2 (all_sets w keys) (diff_of w keys)) /\
  all_sets w keys = true /\ bool_decide (diff_of w keys = {[bs "a"]}) = true.
Proof.
  split; [|split; vm_compute; reflexivity].
  apply (set_algebra_correct w_sets (words ["sinter"; "s"; "t"])); [apply w_sets_ok|apply w_sets_ok|cbn; lia].
Defined.

(** SINTERSTORE, SUNIONSTORE and SDIFFSTORE.  The destination is replaced,
    whatever it held and with its time to live, by the set computed from the
    state before (the destination may be one of the sources), and its size is
    answered; an empty result deletes the destination.  A source of another
    type is refused before the destination is touched. *)
Theorem set_store_correct (w : World) (cmd : list sstr)
    (Hw : world_ok w) (Hn : writes_ok w) (Hroom : room w) (Hlen : (3 <= length cmd)%nat) :
  let d := argd cmd 1 in
  let keys := s_data <$> drop 2 cmd in
  stores_set w (do_sinterstore cmd w).2 d (all_sets w keys) (inter_of w keys) /\
  stores_set w (do_sunionstore cmd w).2 d (all_sets w keys) (union_of w keys) /\
  stores_set w (do_sdiffstore cmd w).2 d (all_sets w keys) (diff_of w keys).
Proof.
  cbn zeta. split_and!.
  - destruct (do_sinterstore cmd w) as [[] w'] eqn:E. by apply (store_computed _ _ _ _ _ sinter_computes).
  - destruct (do_sunionstore cmd w) as [[] w'] eqn:E. by apply (store_computed _ _ _ _ _ sunion_computes).
  - destruct (do_sdiffstore cmd w) as [[] w'] eqn:E. by apply (store_computed _ _ _ _ _ sdiff_computes).
Qed.

Lemma set_store_correct_witness :
  let cmd := words ["sdiffstore"; "s"; "s"; "t"] in
  let w := w_sets in
  let d := argd cmd 1 in
  let keys := s_data <$> drop 2 cmd in
  stores_set w (do_sinterstore cmd w).2 d (all_sets w keys) (inter_of w keys) /\
  stores_set w (do_sunionstore cmd w).2 d (all_sets w keys) (union_of w keys) /\
  stores_set w (do_sdiffstore cmd w).2 d (all_sets w keys) (diff_of w keys).
Proof.
  apply (set_store_correct w_sets (words ["sdiffstore"; "s"; "s"; "t"])); [apply w_sets_ok..|cbn; lia].
Defined.

(** SADD and SREM.  SADD leaves the union with its arguments under the
    key's time to live and answers the number of new members; SREM leaves the
    difference, answers the number removed, and removes the key with its last
    member.  Neither counts as a write when nothing changed; another type is
    refused and nothing changes. *)
Theorem sadd_srem_correct (w : World) (cmd : list sstr)
    (Hw : world_ok w) (Hn : writes_ok w) (Hroom : room w) (Hlen : (3 <= length cmd)%nat) :
  let k := argd cmd 1 in
  let args : gset bytes := list_to_set (s_data <$> drop 2 cmd) in
  let refused w' := leaves w w' (fun b => resp_err b MSG_WRONGTYPE_SHORT) (view w) 0 in
  (let '(s, t) := set_at (view w) k in
   let n := Z.of_nat (base.size (args ∪ s)) - Z.of_nat (base.size s) in
   if is_set (view w !! k)
   then leaves w (do_sadd cmd w).2 (fun b => resp_int b n) (<[k := (ASet (args ∪ s), t)]> (view w)) (if n =? 0 then 0 else 1)
   else refused (do_sadd cmd w).2) /\
  match view w !! k with
  | None => leaves w (do_srem cmd w).2 (fun b => resp_int b 0) (view w) 0
  | Some (ASet s, t) =>
      let n := Z.of_nat (base.size s) - Z.of_nat (base.size (s ∖ args)) in
      leaves w (do_srem cmd w).2 (fun b => resp_int b n)
        (if decide (s ∖ args = ∅) then delete k (view w) else <[k := (ASet (s ∖ args), t)]> (view w)) (if n =? 0 then 0 else 1)
  | Some _ => refused (do_srem cmd w).2
  end.
Proof.
  cbn zeta. pose proof (do_sadd_leaves cmd w) as H1. pose proof (do_srem_leaves cmd w) as H2. cbn zeta in H1, H2.
  destruct (do_sadd cmd w) as [[] w1]. destruct (do_srem cmd w) as [[] w2].
  destruct (set_at (view w) (argd cmd 1)) as [s t]. cbn [fst snd] in *. split; [by apply H1|by apply H2].
Qed.

Lemma sadd_srem_correct_witness :
  let cmd := words ["sadd"; "s"; "a"; "z"] in
  let w := w_sets in
  let k := argd cmd 1 in
  let args : gset bytes := list_to_set (s_data <$> drop 2 cmd) in
  let refused w' := leaves w w' (fun b => resp_err b MSG_WRONGTYPE_SHORT) (view w) 0 in
  (let '(s, t) := set_at (view w) k in
   let n := Z.of_nat (base.size (args ∪ s)) - Z.of_nat (base.size s) in
   if is_set (view w !! k)
   then leaves w (do_sadd cmd w).2 (fun b => resp_int b n) (<[k := (ASet (args ∪ s), t)]> (view w)) (if n =? 0 then 0 else 1)
   else refused (do_sadd cmd w).2) /\
  match view w !! k with
  | None => leaves w (do_srem cmd w).2 (fun b => resp_int b 0) (view w) 0
  | Some (ASet s, t) =>
      let n := Z.of_nat (base.size s) - Z.of_nat (base.size (s ∖ args)) in
      leaves w (do_srem cmd w).2 (fun b => resp_int b n)
        (if decide (s ∖ args = ∅) then delete k (view w) else <[k := (ASet (s ∖ args), t)]> (view w)) (if n =? 0 then 0 else 1)
  | Some _ => refused (do_srem cmd w).2
  end.
Proof.
  apply (sadd_srem_correct w_sets (words ["sadd"; "s"; "a"; "z"])); [apply w_sets_ok..|cbn; lia].
Defined.
