(* ===== verification/CText.v ===== *)
(** * Text as the C library and the configuration reader see it
    (src/src/core/state.cpp 37-45, 156-176, 819-845, 865-888)

    Number parsing, the configuration tokenizer, the line reader, and the
    writer that quotes a value so that the tokenizer gives it back. *)
From S2P Require Import Prelude Buffer Resp Args.

(** ** Numbers *)

Fixpoint skip_space (s : bytes) : bytes :=
  match s with c :: s' => if isspace c then skip_space s' else s | [] => [] end.

(** [strtol] over the bytes before the terminating zero, and the tests of
    [parse_int_strict] on what it left. *)
Definition parse_int_strict (s : bytes) : option Z :=
  let t := skip_space (c_str s) in
  let '(neg, digits) := match t with
                        | c :: t' => if bool_decide (c = chr 45) then (true, t')
                                     else if bool_decide (c = chr 43) then (false, t') else (false, t)
                        | [] => (false, [])
                        end in
  if (length digits =? 0)%nat || negb (forallb is_digit digits) then None
  else
    let v := if (neg : bool) then - digits_val 0 digits else digits_val 0 digits in
    if (v <? INT64_MIN) || (INT64_MAX <? v) then None else Some v.

(** The leading digits, and the rest. *)
Fixpoint span_digits (s : bytes) : bytes * bytes :=
  match s with
  | c :: s' => if is_digit c then let '(d, r) := span_digits s' in (c :: d, r) else ([], s)
  | [] => ([], [])
  end.

(** [strtoull(s, nullptr, 10)]: saturates, and negates modulo 2^64 after a
    minus sign. *)
Definition strtoull (s : bytes) : Z :=
  let t := skip_space (c_str s) in
  let '(neg, t) := match t with
                   | c :: t' => if bool_decide (c = chr 45) then (true, t')
                                else if bool_decide (c = chr 43) then (false, t') else (false, t)
                   | [] => (false, [])
                   end in
  let v := digits_val 0 (span_digits t).1 in
  if UINT64_MAX <? v then UINT64_MAX else if (neg : bool) then u64 (- v) else v.

(** ** The tokenizer *)

Definition c_quote : ascii := chr 34.
Definition c_back : ascii := chr 92.
Definition c_hash : ascii := chr 35.

(** After the opening quote: the token and what follows the closing one. *)
Fixpoint quoted (s : bytes) : bytes * bytes :=
  match s with
  | [] => ([], [])
  | c :: s' =>
      if bool_decide (c = c_quote) then ([], s')
      else if bool_decide (c = c_back) then
        match s' with
        | d :: s'' => let '(t, r) := quoted s'' in (d :: t, r)
        | [] => ([c], [])
        end
      else let '(t, r) := quoted s' in (c :: t, r)
  end.

Fixpoint bare (s : bytes) : bytes * bytes :=
  match s with
  | [] => ([], [])
  | c :: s' => if isspace c then ([], s) else let '(t, r) := bare s' in (c :: t, r)
  end.

(** One round of the outer loop takes at least a byte. *)
Fixpoint tokens (fuel : nat) (s : bytes) : list bytes :=
  match fuel with
  | O => []
  | S fuel' =>
      match skip_space s with
      | [] => []
      | c :: s' =>
          if bool_decide (c = c_hash) then []
          else
            let '(tok, rest) := if bool_decide (c = c_quote) then quoted s' else bare (c :: s') in
            tok :: tokens fuel' rest
      end
  end.

Definition config_tokenize (line : bytes) : list bytes := let s := c_str line in tokens (length s) s.

(** ** Lines *)

(** [fgets] into [char line\[1024\]]: up to 1023 bytes, through a newline. *)
Fixpoint fgets (n : nat) (s : bytes) : bytes * bytes :=
  match n, s with
  | O, _ | _, [] => ([], s)
  | S n', c :: s' => if bool_decide (c = c_lf) then ([c], s') else let '(l, r) := fgets n' s' in (c :: l, r)
  end.

Fixpoint fgets_lines (fuel : nat) (s : bytes) : list bytes :=
  match fuel, s with
  | O, _ | _, [] => []
  | S fuel', _ => let '(l, r) := fgets 1023 s in l :: fgets_lines fuel' r
  end.

Definition file_lines (s : bytes) : list bytes := fgets_lines (length s) s.

(** ** Writing a value *)

Definition needs_quote (c : ascii) : bool :=
  isspace c || bool_decide (c = c_quote) || bool_decide (c = c_back) || bool_decide (c = c_hash).

Fixpoint escape (v : bytes) : bytes :=
  match v with
  | [] => []
  | c :: v' => if bool_decide (c = c_quote) || bool_decide (c = c_back) then c_back :: c :: escape v' else c :: escape v'
  end.

Definition in_quotes (v : bytes) : bytes := [c_quote] ++ v ++ [c_quote].

(** The line [config_write_scalar] prints. *)
Definition scalar_line (name v : bytes) : bytes :=
  if bool_decide (v = []) || existsb needs_quote v
  then name ++ bs " " ++ in_quotes (c_str (escape v)) ++ [c_lf]
  else name ++ bs " " ++ c_str v ++ [c_lf].

(** ** The tokenizer reads words back *)

Lemma skip_space_length s : (length (skip_space s) <= length s)%nat.
Proof. induction s as [|c s IH]; cbn; [done|]. destruct (isspace c); cbn; lia. Qed.

Lemma bare_length s : (length (bare s).2 <= length s)%nat.
Proof. induction s as [|c s IH]; cbn; [done|]. destruct (isspace c); [done|]. destruct (bare s). cbn in *. lia. Qed.

Lemma quoted_length n : forall s, (length s <= n)%nat -> (length (quoted s).2 <= length s)%nat.
Proof.
  induction n as [|n IH]; intros [|c s] H; cbn in *; try lia. case_bool_decide; [cbn; lia|]. case_bool_decide.
  - destruct s as [|d s]; cbn in *; [lia|]. specialize (IH s). destruct (quoted s). cbn in *. lia.
  - specialize (IH s). destruct (quoted s). cbn in *. lia.
Qed.

Lemma tokens_rest c s : isspace c = false ->
  (length (if bool_decide (c = c_quote) then quoted s else bare (c :: s)).2 <= length s)%nat.
Proof.
  intros Hc. case_bool_decide; [by apply (quoted_length (length s))|]. cbn. rewrite Hc.
  pose proof (bare_length s). destruct (bare s). done.
Qed.

Lemma skip_space_head s c t : skip_space s = c :: t -> isspace c = false.
Proof. induction s as [|d s IH]; cbn; [done|]. destruct (isspace d) eqn:E; [done|]. intros [= <- _]. done. Qed.

(** More fuel than bytes changes nothing. *)
Lemma tokens_fuel n : forall m s, (length s <= n)%nat -> (length s <= m)%nat -> tokens n s = tokens m s.
Proof.
  induction n as [|n IH]; intros [|m] s Hn Hm; try (destruct s; cbn in *; [done|lia]); [done..|]. cbn [tokens].
  destruct (skip_space s) as [|c t] eqn:E; [done|]. case_bool_decide; [done|].
  pose proof (skip_space_length s) as Hl. rewrite E in Hl. cbn [length] in Hl.
  pose proof (tokens_rest c t (skip_space_head _ _ _ E)) as Hr. destruct (if bool_decide (c = c_quote) then quoted t else bare (c :: t)) as [tok rest]. cbn in Hr.
  f_equal. apply IH; lia.
Qed.

Definition toks (s : bytes) : list bytes := tokens (length s) s.

Lemma toks_space c s : isspace c = true -> toks (c :: s) = toks s.
Proof.
  intros Hc. unfold toks. cbn [length]. transitivity (tokens (S (length s)) s); [|apply tokens_fuel; lia].
  assert (Hs : skip_space (c :: s) = skip_space s) by (cbn; by rewrite Hc). cbn [tokens]. by rewrite Hs.
Qed.

(** The spellings of a word: bare, or quoted with escapes. *)
Definition bare_word (t : bytes) : Prop :=
  Forall (fun c => isspace c = false) t /\ match t with [] => False | c :: _ => c <> c_hash /\ c <> c_quote end.

Inductive spells : bytes -> bytes -> Prop :=
| spells_bare t : bare_word t -> spells t t
| spells_quoted v : spells (in_quotes (escape v)) v.

Lemma bare_app t rest : Forall (fun c => isspace c = false) t -> (match rest with [] => True | c :: _ => isspace c = true end) ->
  bare (t ++ rest) = (t, rest).
Proof.
  intros Ht Hr. induction Ht as [|c t Hc _ IH]; cbn; [|by rewrite Hc, IH].
  destruct rest as [|c rest]; [done|]. cbn. by rewrite Hr.
Qed.

Lemma quoted_escape v rest : quoted (escape v ++ c_quote :: rest) = (v, rest).
Proof.
  induction v as [|c v IH]; cbn [escape app quoted]; [by rewrite bool_decide_eq_true_2|].
  destruct (bool_decide (c = c_quote) || bool_decide (c = c_back)) eqn:E; cbn [app quoted].
  - rewrite (bool_decide_eq_false_2 (c_back = c_quote)), (bool_decide_eq_true_2 (c_back = c_back)) by done. by rewrite IH.
  - apply orb_false_iff in E as [-> ->]. by rewrite IH.
Qed.

Lemma toks_word txt t rest :
  spells txt t -> (match rest with [] => True | c :: _ => isspace c = true end) -> toks (txt ++ rest) = t :: toks rest.
Proof.
  intros [w [Hs Hw]|v] Hr.
  - destruct w as [|c w]; [done|]. destruct Hw as [H1 H2]. unfold toks. cbn [app length tokens].
    pose proof (Forall_inv Hs) as Hc. cbn [skip_space]. rewrite Hc. rewrite !bool_decide_eq_false_2 by done.
    change (c :: w ++ rest) with ((c :: w) ++ rest). rewrite (bare_app (c :: w) rest Hs Hr). f_equal. apply tokens_fuel; rewrite ?length_app; lia.
  - unfold in_quotes. rewrite <- !app_assoc. change ([c_quote] ++ escape v ++ [c_quote] ++ rest) with (c_quote :: (escape v ++ c_quote :: rest)).
    unfold toks. cbn [length tokens]. change (skip_space (c_quote :: ?s)) with (c_quote :: s).
    cbv beta iota. rewrite (bool_decide_eq_false_2 (c_quote = c_hash)) by done. rewrite (bool_decide_eq_true_2 (c_quote = c_quote)) by done.
    rewrite quoted_escape. f_equal. apply tokens_fuel; rewrite ?length_app; cbn; lia.
Qed.

(** A line: words with one space between, and a newline. *)
Definition line_of (txts : list bytes) : bytes :=
  match txts with [] => [c_lf] | t :: ts => t ++ concat (cons (chr 32) <$> ts) ++ [c_lf] end.

Lemma toks_line txts ts : Forall2 spells txts ts -> toks (line_of txts) = ts.
Proof.
  assert (Htail : forall txts ts, Forall2 spells txts ts -> toks (concat (cons (chr 32) <$> txts) ++ [c_lf]) = ts).
  { clear. induction 1 as [|x t txts ts Hx _ IH]; [done|]. cbn [fmap list_fmap concat]. rewrite <- app_assoc.
    cbn [app]. rewrite toks_space by done. rewrite (toks_word x t) by (done || by destruct txts). by rewrite IH. }
  intros [|x t txts' ts' Hx H]; [done|]. cbn [line_of]. rewrite (toks_word x t) by (done || by destruct txts'). f_equal. by apply Htail.
Qed.

Definition no_zero (s : bytes) : Prop := Forall (fun c => c <> c_zero) s.

Lemma c_str_id s : no_zero s -> c_str s = s.
Proof.
  unfold c_str. induction 1 as [|c s Hc _ IH]; [done|]. cbn [scan].
  rewrite bool_decide_eq_false_2 by done. cbn [take]. by rewrite IH.
Qed.

Lemma no_zero_line txts : Forall no_zero txts -> no_zero (line_of txts).
Proof.
  assert (Htail : forall txts, Forall no_zero txts -> no_zero (concat (cons (chr 32) <$> txts) ++ [c_lf])).
  { clear. induction 1 as [|x txts Hx _ IH]; [by repeat constructor|]. cbn. constructor; [done|]. rewrite <- app_assoc. by apply Forall_app. }
  intros [|x t Hx H]; [by repeat constructor|]. cbn. apply Forall_app. split; [done|by apply Htail].
Qed.

Lemma tokenize_line txts ts : Forall no_zero txts -> Forall2 spells txts ts -> config_tokenize (line_of txts) = ts.
Proof. intros Hz H. unfold config_tokenize. rewrite c_str_id by by apply no_zero_line. by apply toks_line. Qed.

(** ** Lines come back one by one *)

Lemma fgets_line n body rest : (length body < n)%nat -> Forall (fun c => c <> c_lf) body ->
  fgets n (body ++ c_lf :: rest) = (body ++ [c_lf], rest).
Proof.
  revert n. induction body as [|c body IH]; intros [|n] Hn Hb; cbn in *; try lia.
  - done.
  - apply Forall_cons in Hb as [Hc Hb]. rewrite bool_decide_eq_false_2 by done. rewrite IH by (done || lia). done.
Qed.

Definition short_line (l : bytes) : Prop :=
  exists body, l = body ++ [c_lf] /\ (length body < 1023)%nat /\ Forall (fun c => c <> c_lf) body.

Lemma fgets_lines_concat ls : forall fuel, Forall short_line ls -> (length (concat ls) <= fuel)%nat -> fgets_lines fuel (concat ls) = ls.
Proof.
  induction ls as [|l ls IH]; intros fuel Hl Hf; [by destruct fuel|]. apply Forall_cons in Hl as [(b & -> & Hb & Hn) Hl].
  cbn [concat] in *. rewrite <- app_assoc in *. cbn [app] in *. rewrite length_app in Hf. cbn [length] in Hf.
  destruct fuel as [|fuel]; [lia|]. cbn [fgets_lines].
  destruct (b ++ c_lf :: concat ls) as [|x t] eqn:E; [by destruct b|]. rewrite <- E.
  rewrite fgets_line by done. rewrite IH; [done|done|lia].
Qed.

Lemma file_lines_concat ls : Forall short_line ls -> file_lines (concat ls) = ls.
Proof. intros H. by apply fgets_lines_concat. Qed.

(** ** Printed numbers and quoted values *)

Lemma digit_plain c : is_digit c = true -> isspace c = false /\ c <> chr 45 /\ c <> chr 43 /\ c <> c_zero /\ c <> c_hash /\ c <> c_quote /\ c <> c_lf.
Proof.
  unfold is_digit, isspace. intros H. apply andb_true_iff in H as [H1 H2].
  split; [bool_facts; lia|]. repeat split; intros ->; vm_compute in H1, H2; congruence.
Qed.

Lemma print_u64_all n : 0 <= n < 2 ^ 64 -> forallb is_digit (print_u64 n) = true.
Proof. intros Hn. apply forallb_forall. pose proof (print_u64_digits n Hn) as H. rewrite Forall_forall in H. intros x Hx.
  apply Is_true_true. apply H. by apply list_elem_of_In. Qed.

Lemma digits_no_zero l : forallb is_digit l = true -> no_zero l.
Proof. intros H. apply Forall_forall. intros c Hc. rewrite forallb_forall in H. apply digit_plain, H. by apply list_elem_of_In. Qed.

Lemma digits_bare l : forallb is_digit l = true -> l <> [] -> bare_word l.
Proof.
  intros H Hl. split.
  - apply Forall_forall. intros c Hc. rewrite forallb_forall in H. apply digit_plain, H. by apply list_elem_of_In.
  - destruct l as [|c l]; [done|]. cbn in H. apply andb_true_iff in H as [H _]. by destruct (digit_plain c H) as (_ & _ & _ & _ & ? & ? & _).
Qed.

Lemma print_i64_no_zero n : - 2 ^ 63 <= n < 2 ^ 63 -> no_zero (print_i64 n).
Proof.
  intros Hn. unfold print_i64. destruct (n <? 0) eqn:E; [constructor; [done|]|]; apply digits_no_zero, print_u64_all; lia.
Qed.

Lemma parse_print n : INT64_MIN <= n <= INT64_MAX -> parse_int_strict (print_i64 n) = Some n.
Proof.
  intros Hn. unfold INT64_MIN, INT64_MAX in Hn. unfold parse_int_strict. rewrite c_str_id by (apply print_i64_no_zero; lia).
  unfold print_i64. destruct (n <? 0) eqn:E.
  - cbn [skip_space]. assert (isspace (chr 45) = false) as -> by done. rewrite bool_decide_eq_true_2 by done.
    rewrite (print_u64_all (- n)) by lia. rewrite (print_u64_val (- n)) by lia.
    pose proof (print_u64_nonempty (- n)) as He. destruct (print_u64 (- n)); [done|]. cbn [length Nat.eqb negb orb].
    unfold INT64_MIN, INT64_MAX. assert ((- - n <? - 2 ^ 63) || (2 ^ 63 - 1 <? - - n) = false) as -> by lia. f_equal. lia.
  - pose proof (print_u64_nonempty n) as He. pose proof (print_u64_all n ltac:(lia)) as Hd. pose proof (print_u64_val n ltac:(lia)) as Hv.
    destruct (print_u64 n) as [|c l]; [done|]. pose proof Hd as Hd'. cbn [forallb] in Hd'. apply andb_true_iff in Hd' as [Hc _].
    destruct (digit_plain c Hc) as (Hs & H1 & H2 & _). cbn [skip_space]. rewrite Hs, !bool_decide_eq_false_2, Hd, Hv by done.
    cbn [length Nat.eqb negb orb]. unfold INT64_MIN, INT64_MAX. assert ((n <? - 2 ^ 63) || (2 ^ 63 - 1 <? n) = false) as -> by lia. done.
Qed.

Lemma span_digits_all l : forallb is_digit l = true -> span_digits l = (l, []).
Proof. induction l as [|c l IH]; cbn; [done|]. intros H. apply andb_true_iff in H as [-> H]. by rewrite IH. Qed.

Lemma strtoull_print n : 0 <= n < 2 ^ 64 -> strtoull (print_u64 n) = n.
Proof.
  intros Hn. unfold strtoull. rewrite c_str_id by (apply digits_no_zero, print_u64_all; lia).
  pose proof (print_u64_nonempty n) as He. pose proof (print_u64_all n Hn) as Hd. pose proof (print_u64_val n Hn) as Hv.
  destruct (print_u64 n) as [|c l] eqn:El; [done|]. pose proof Hd as Hd'. cbn [forallb] in Hd'. apply andb_true_iff in Hd' as [Hc _].
  destruct (digit_plain c Hc) as (Hs & H1 & H2 & _). cbn [skip_space]. rewrite Hs, !bool_decide_eq_false_2 by done.
  rewrite span_digits_all by done. cbn [fst]. rewrite Hv. unfold UINT64_MAX. by assert (2 ^ 64 - 1 <? n = false) as -> by lia.
Qed.

(** What a line-oriented file can hold: no control bytes. *)
Definition printable (v : bytes) : Prop := Forall (fun c => 32 <= code c /\ code c <> 127) v.

Lemma printable_no_zero v : printable v -> no_zero v.
Proof. intros Hv. eapply Forall_impl; [exact Hv|]. intros c [H _] ->. by vm_compute in H. Qed.

Lemma printable_no_lf v : printable v -> Forall (fun c => c <> c_lf) v.
Proof. intros Hv. eapply Forall_impl; [exact Hv|]. intros c [H _] ->. by vm_compute in H. Qed.

Lemma printable_escape v : printable v -> printable (escape v).
Proof.
  induction 1 as [|c v Hc _ IH]; [constructor|]. cbn [escape]. destruct (_ || _); repeat (constructor; [done|]); done.
Qed.

Lemma needs_quote_bare v : v <> [] -> existsb needs_quote v = false -> bare_word v.
Proof.
  intros Hv H. assert (Hall : Forall (fun c => needs_quote c = false) v).
  { apply Forall_forall. intros c Hc. destruct (needs_quote c) eqn:E; [|done]. rewrite <- H. symmetry. apply existsb_exists.
    exists c. split; [by apply list_elem_of_In|done]. }
  split.
  - eapply Forall_impl; [exact Hall|]. intros c Hc. unfold needs_quote in Hc. by destruct (isspace c).
  - destruct v as [|c v]; [done|]. apply Forall_inv in Hall. unfold needs_quote in Hall.
    repeat (apply orb_false_iff in Hall as [Hall ?]). split; intros ->; by rewrite bool_decide_eq_true_2 in *.
Qed.

(** The text [config_write_scalar] writes for a value. *)
Definition value_text (v : bytes) : bytes :=
  if bool_decide (v = []) || existsb needs_quote v then in_quotes (escape v) else v.

Lemma scalar_line_eq name v : printable v -> scalar_line name v = line_of [name; value_text v].
Proof.
  intros Hv. unfold scalar_line, value_text, line_of, in_quotes. cbn [fmap list_fmap concat]. rewrite !app_nil_r.
  destruct (_ || _); rewrite c_str_id by (apply printable_no_zero; try apply printable_escape; done);
    reflexivity.
Qed.

Lemma value_text_spells v : spells (value_text v) v.
Proof.
  unfold value_text. destruct (bool_decide (v = []) || existsb needs_quote v) eqn:E; [constructor|].
  apply orb_false_iff in E as [E1 E2]. apply bool_decide_eq_false in E1. constructor. by apply needs_quote_bare.
Qed.

Lemma printable_in_quotes v : printable v -> printable (in_quotes v).
Proof. intros H. unfold in_quotes. apply Forall_app. split; [repeat constructor; done|]. apply Forall_app. split; [done|repeat constructor; done]. Qed.

Lemma printable_value_text v : printable v -> printable (value_text v).
Proof. intros H. unfold value_text. destruct (_ || _); [|done]. by apply printable_in_quotes, printable_escape. Qed.

Lemma printable_print_i64 n : - 2 ^ 63 <= n < 2 ^ 63 -> printable (print_i64 n).
Proof.
  intros Hn. assert (Hd : forall m, 0 <= m < 2 ^ 64 -> printable (print_u64 m)).
  { intros m Hm. eapply Forall_impl; [by apply print_u64_digits|]. cbn. intros c Hc. unfold is_digit in Hc. 
    apply Is_true_true, andb_true_iff in Hc as [H1 H2]. lia. }
  unfold printable, print_i64. destruct (n <? 0) eqn:E; [constructor; [done|]|]; apply Hd; lia.
Qed.
