(* ===== verification/CFloat.v ===== *)
(** * Doubles as text: what the code uses of the C library's number formats
    (src/src/commands/commands.cpp 59-69, 1316-1328; src/src/protocol/resp.cpp 144-159)

    [strtod] reads the longest prefix that is a number (decimal or hexadecimal,
    an infinity, a NaN) and rounds it to the nearest double; ["%.17g"] writes 17
    significant digits, correctly rounded.  Both work on exact quotients of
    integers, rounded by the operations of [SpecFloat].  A [long double] is the
    extended format of the x86-64 ABI: 64 bits of precision, exponents to 16384. *)
From S2P Require Import Prelude Buffer Resp Args Score CText.

(** ** Reading *)

(** A binary format: its precision and the bound of its exponents. *)
Record Format := mkFormat { f_prec : Z; f_emax : Z }.
Definition f64 : Format := mkFormat 53 1024.
Definition f80 : Format := mkFormat 64 16384.

(** [n / d], rounded to nearest, ties to even. *)
Definition round_ratio (f : Format) (neg : bool) (n d : positive) : score :=
  SFdiv (f_prec f) (f_emax f) (S754_finite neg n 0) (S754_finite false d 0).

(** [m * base ^ e], rounded. *)
Definition scale_in (f : Format) (neg : bool) (base m e : Z) : score :=
  match m with
  | Zpos p => round_ratio f neg (Z.to_pos (m * base ^ Z.max 0 e)) (Z.to_pos (base ^ Z.max 0 (- e)))
  | _ => S754_zero neg
  end.
Definition scale : bool -> Z -> Z -> Z -> score := scale_in f64.

Definition hex_val (c : ascii) : option Z :=
  let n := code (tolower c) in
  if is_digit c then Some (n - 48) else if (97 <=? n) && (n <=? 102) then Some (n - 87) else None.

Fixpoint span_hex (s : bytes) : list Z * bytes :=
  match s with
  | c :: s' => match hex_val c with Some d => let '(l, r) := span_hex s' in (d :: l, r) | None => ([], s) end
  | [] => ([], [])
  end.

(** A sign, and the rest. *)
Definition take_sign (s : bytes) : bool * bytes :=
  match s with
  | c :: s' => if bool_decide (c = chr 45) then (true, s') else if bool_decide (c = chr 43) then (false, s') else (false, s)
  | [] => (false, [])
  end.

(** The exponent part that [mark] introduces: a sign and at least one digit,
    otherwise nothing is read. *)
Definition take_exponent (mark : ascii) (s : bytes) : Z * bytes :=
  match s with
  | c :: s' =>
      if bool_decide (tolower c = mark) then
        let '(neg, t) := take_sign s' in
        let '(ds, r) := span_digits t in
        match ds with
        | [] => (0, s)
        | _ => ((if neg then - digits_val 0 ds else digits_val 0 ds), r)
        end
      else (0, s)
  | [] => (0, [])
  end.

(** What [strtod] gives: the value, whether it reports a range error, the unread rest. *)
Record Strtod := mkStrtod { sd_val : score; sd_range : bool; sd_rest : bytes }.

Definition c_dot : ascii := chr 46.

(** A range error: digits that are not all zero were rounded to an infinity or
    to zero.  (One is also reported for an inexact subnormal, which no caller
    tells apart.) *)
Definition ranged (m : Z) (v : score) (r : bytes) : Strtod :=
  mkStrtod v (negb (m =? 0) && match v with S754_zero _ | S754_infinity _ => true | _ => false end) r.

Definition strtod_decimal (f : Format) (neg : bool) (s : bytes) : option Strtod :=
  let '(ip, r1) := span_digits s in
  let '(fp, r2) := match r1 with
                   | c :: t => if bool_decide (c = c_dot) then span_digits t else ([], r1)
                   | [] => ([], [])
                   end in
  if (length (ip ++ fp) =? 0)%nat then None
  else
    let '(ex, r3) := take_exponent (chr 101) r2 in
    let m := digits_val 0 (ip ++ fp) in
    Some (ranged m (scale_in f neg 10 m (ex - Z.of_nat (length fp))) r3).

(** After [0x]. *)
Definition strtod_hex (f : Format) (neg : bool) (s : bytes) : option Strtod :=
  let '(ip, r1) := span_hex s in
  let '(fp, r2) := match r1 with
                   | c :: t => if bool_decide (c = c_dot) then span_hex t else ([], r1)
                   | [] => ([], [])
                   end in
  if (length (ip ++ fp) =? 0)%nat then None
  else
    let '(ex, r3) := take_exponent (chr 112) r2 in
    let m := foldl (fun v d => v * 16 + d) 0 (ip ++ fp) in
    Some (ranged m (scale_in f neg 2 m (ex - 4 * Z.of_nat (length fp))) r3).

(** A case-insensitive literal prefix, dropped. *)
Fixpoint drop_word (lit s : bytes) : option bytes :=
  match lit, s with
  | [], _ => Some s
  | c :: lit', d :: s' => if bool_decide (tolower d = c) then drop_word lit' s' else None
  | _ :: _, [] => None
  end.

(** [nan(...)]: the parenthesis is read when it holds word characters only. *)
Fixpoint nan_payload (s : bytes) : option bytes :=
  match s with
  | c :: s' =>
      if bool_decide (c = chr 41) then Some s'
      else
        let n := code (tolower c) in
        if is_digit c || (97 <=? n) && (n <=? 122) || (n =? 95) then nan_payload s' else None
  | [] => None
  end.

Definition strtod_number (f : Format) (neg : bool) (t : bytes) : option Strtod :=
  match drop_word (bs "infinity") t, drop_word (bs "inf") t, drop_word (bs "nan") t, drop_word (bs "0x") t with
  | Some r, _, _, _ | None, Some r, _, _ => Some (mkStrtod (S754_infinity neg) false r)
  | _, _, Some r, _ =>
      Some (mkStrtod S754_nan false
              match r with
              | c :: r' => if bool_decide (c = chr 40) then default r (nan_payload r') else r
              | [] => []
              end)
  | _, _, _, Some r => match strtod_hex f neg r with Some v => Some v | None => strtod_decimal f neg t end
  | _, _, _, None => strtod_decimal f neg t
  end.

(** [strtod(s, &end)] and [strtold]; without a number the value is zero and
    nothing is read. *)
Definition strto (f : Format) (s : bytes) : Strtod :=
  let t := skip_space s in
  let '(neg, t') := take_sign t in
  default (mkStrtod (S754_zero false) false s) (strtod_number f neg t').
Definition strtod : bytes -> Strtod := strto f64.

(** The whole string, without leading blanks, is a number in range. *)
Definition str2float (f : Format) (s : bytes) : option score :=
  match s with
  | [] => None
  | c :: _ =>
      let r := strto f (c_str s) in
      if isspace c || negb ((length (c_str s) =? length s)%nat && (length (sd_rest r) =? 0)%nat) then None
      else if sd_range r then None
      else if bool_decide (sd_val r = S754_nan) then None else Some (sd_val r)
  end.

Definition str2dbl (s : bytes) : option score := str2float f64 s.
Definition str2ld (s : bytes) : option score := str2float f80 s.

(** ** Writing *)

(** The number of decimal digits of a positive number. *)
Fixpoint dec_length_loop (fuel : nat) (n : Z) : Z :=
  match fuel with
  | O => 0
  | S f => if n <=? 0 then 0 else 1 + dec_length_loop f (n / 10)
  end.
Definition dec_length (n : Z) : Z := dec_length_loop (S (Z.to_nat (Z.log2 n))) n.

(** [n / d] rounded to an integer, ties to even. *)
Definition round_div (n d : Z) : Z :=
  let q := n / d in
  let r := n mod d in
  match 2 * r ?= d with Lt => q | Gt => q + 1 | Eq => if Z.even q then q else q + 1 end.

(** [n / d] with [p] significant digits: the digits as an integer and the
    decimal exponent of the first. *)
Definition sig_digits (p n d : Z) : Z * Z :=
  let x0 := dec_length n - dec_length d in
  let x := if d * 10 ^ Z.max 0 x0 <=? n * 10 ^ Z.max 0 (- x0) then x0 else x0 - 1 in
  let k := p - 1 - x in
  let m := round_div (n * 10 ^ Z.max 0 k) (d * 10 ^ Z.max 0 (- k)) in
  if m =? 10 ^ p then (10 ^ (p - 1), x + 1) else (m, x).

Fixpoint strip_zeros (l : bytes) : bytes :=
  match l with
  | [] => []
  | c :: l' => match strip_zeros l' with [] => if bool_decide (c = chr 48) then [] else [c] | t => c :: t end
  end.

(** A fraction without its trailing zeros, and the point when anything is left. *)
Definition fraction (l : bytes) : bytes := match strip_zeros l with [] => [] | t => c_dot :: t end.

(** An exponent: a sign and at least two digits. *)
Definition print_exponent (x : Z) : bytes :=
  bs "e" ++ (if x <? 0 then bs "-" else bs "+") ++
  (if Z.abs x <? 10 then bs "0" else []) ++ print_u64 (Z.abs x).

(** The two layouts of [%g] with precision 17. *)
Definition layout_g17 (m x : Z) : bytes :=
  let ds := print_u64 m in
  if (-4 <=? x) && (x <? 17) then
    if x <? 0 then bs "0" ++ fraction (replicate (Z.to_nat (- x - 1)) (chr 48) ++ ds)
    else take (Z.to_nat (x + 1)) ds ++ fraction (drop (Z.to_nat (x + 1)) ds)
  else take 1 ds ++ fraction (drop 1 ds) ++ print_exponent x.

(** [snprintf(.., "%.17g", v)] *)
Definition fmt_g17 (v : score) : bytes :=
  match v with
  | S754_nan => bs "nan"
  | S754_infinity s => if s then bs "-inf" else bs "inf"
  | S754_zero s => if s then bs "-0" else bs "0"
  | S754_finite s m e =>
      let '(d, x) := sig_digits 17 (Zpos m * 2 ^ Z.max 0 e) (2 ^ Z.max 0 (- e)) in
      (if s then bs "-" else []) ++ layout_g17 d x
  end.

(** [resp_dbl(out, val)] under the protocol version [p]. *)
Definition resp_dbl (p : Z) (out : Buffer) (val : score) : Buffer :=
  if 3 <=? p then
    buf_append out (match val with
                    | S754_nan => bs ",nan"
                    | S754_infinity s => if s then bs ",-inf" else bs ",inf"
                    | _ => bs "," ++ fmt_g17 val
                    end ++ crlf)
  else resp_str out (fmt_g17 val).

(** The decimal digits of a number of any size. *)
Definition print_big (n : Z) : bytes := dec_digits (Z.to_nat (dec_length n) + 1) n [].

(** [snprintf(.., "%.17Lf", v)]: the integer part, and 17 decimals. *)
Definition fixed17 (v : score) : bytes * bytes :=
  match v with
  | S754_finite s m e =>
      let n := round_div (Zpos m * 2 ^ Z.max 0 e * 10 ^ 17) (2 ^ Z.max 0 (- e)) in
      let frac := print_big (n mod 10 ^ 17) in
      ((if s then bs "-" else []) ++ print_big (n / 10 ^ 17), replicate (17 - length frac) (chr 48) ++ frac)
  | S754_zero true => (bs "-0", replicate 17 (chr 48))
  | _ => (bs "0", replicate 17 (chr 48))
  end.

(** [ld2str_human] of a finite number: the 5120 bytes of its buffer hold the
    longest extended number, and trailing zeros go with their point. *)
Definition ld2str_human (v : score) : bytes :=
  let '(ip, fp) := fixed17 v in
  let r := ip ++ fraction fp in
  if bool_decide (r = bs "-0") then bs "0" else r.

(** ** Examples *)

Example ld_samples :
  (fun p => ld2str_human (SFadd 64 16384 (default (S754_zero false) (str2ld (bs p.1))) (default (S754_zero false) (str2ld (bs p.2))))) <$>
    [("10.5", "0.1"); ("5.0e3", "2.0e2"); ("1", "-1"); ("0", "-1e-30"); ("3", "0.0000000000000000001")]%string =
  bs <$> ["10.6"; "5200"; "0"; "0"; "3"]%string.
Proof. vm_compute. reflexivity. Qed.

Example fmt_tenth : fmt_g17 (scale false 10 1 (-1)) = bs "0.10000000000000001".
Proof. vm_compute. reflexivity. Qed.
Example fmt_samples :
  (fun p => fmt_g17 (scale p.1.1 10 p.1.2 p.2)) <$> [(false, 1, 0); (true, 25, -1); (false, 1, 17); (false, 123456, -9); (false, 1, -5); (false, 5, -324)] =
  bs <$> ["1"; "-2.5"; "1e+17"; "0.00012345600000000001"; "1.0000000000000001e-05"; "4.9406564584124654e-324"]%string.
Proof. vm_compute. reflexivity. Qed.
Example parse_samples :
  (fun s => str2dbl (bs s)) <$> ["3"; " 3"; "3x"; "1e400"; "-inf"; "nan"; "0x1p-1"; "1e-999"; "."; "-.5e1"]%string =
  [Some (scale false 10 3 0); None; None; None; Some (S754_infinity true); None; Some (scale false 2 1 (-1)); None; None; Some (scale true 10 5 0)].
Proof. vm_compute. reflexivity. Qed.
