(* ===== verification/ZCommands.v ===== *)
(** * The sorted-set commands (src/src/commands/commands.cpp, 1173-1668)

    Handlers over the sorted set of an entry.  A [ZNode *] is a name (from the
    index) or a position in the tree (from the rank queries).  The ranges of
    ZRANGE and its relatives are intervals of ascending ranks, as in the code. *)
From S2P Require Import Prelude Buffer Resp StdString Deque Hashtable HashMap Heap Avl Score ZSet HashSet State World Args Strings Containers CText CFloat.

(** ** The sorted set of an entry, and its nodes *)

Definition entry_zset (k : bytes) : M ZSet :=
  gets (fun w => match ents (ks w) !! k with
                 | Some e => match eval e with VZSet z => z | _ => ZSet_empty end
                 | None => ZSet_empty
                 end).
Definition put_zset (k : bytes) (z : ZSet) : M () := put_val k (VZSet z).

(** The node of a name that the index gave: its place in the tree, its score. *)
Definition znode_pos (z : ZSet) (n : bytes) : option zpos := node_at n (root z) [].
Definition znode (z : ZSet) (n : bytes) : option ZNode := znode_pos z n ≫= elem_of_pos.

(** [zset_lookup(&entry_zset(ent), ..)]; it may migrate the index. *)
Definition lookup_member (k n : bytes) : M (option bytes * ZSet) :=
  z ← entry_zset k;
  let '(r, z') := zset_lookup z n in
  put_zset k z' ;; mret (r, z').

Definition r_dbl (v : score) : M () := reply_p (fun p b => resp_dbl p b v).

Definition proto : M Z := gets (fun w => g_reply_proto (env w)).

Definition MSG_NOT_FLOAT : bytes := bs "ERR value is not a valid float".

(** ** ZADD, ZREM, ZSCORE, ZRANK *)

(** The update loop over score-member pairs: the set, members added, whether anything changed. *)
Fixpoint zadd_loop (z : ZSet) (added : Z) (changed : bool) (l : list (sstr * sstr)) : ZSet * Z * bool :=
  match l with
  | [] => (z, added, changed)
  | (sc, m) :: l' =>
      let score := default (S754_zero false) (str2dbl (s_data sc)) in
      let '(r, z1) := zset_lookup z (s_data m) in
      match r with
      | Some n =>
          match znode z1 n with
          | Some zn =>
              if negb (SFeqb (score_of zn) score) then zadd_loop (zset_update z1 n score) added true l'
              else zadd_loop z1 added changed l'
          | None => zadd_loop z1 added changed l'
          end
      | None => zadd_loop (zset_insert z1 (s_data m) score).2 (added + 1) true l'
      end
  end.

Definition MSG_ZADD_ARITY : bytes := bs "ERR wrong number of arguments for 'zadd command".

Definition do_zadd (cmd : list sstr) : M () :=
  if (length cmd <? 4)%nat || negb (Nat.even (length cmd)) then r_err MSG_ZADD_ARITY
  else
    let pairs := pairs_of (drop 2 cmd) in
    if existsb (fun p => bool_decide (str2dbl (s_data p.1) = None)) pairs then r_err MSG_NOT_FLOAT
    else
      r ← lookup_entry (arg cmd 1) T_ZSET true false;
      match r with
      | LOK ent =>
          z ← entry_zset ent;
          let '(z', added, changed) := zadd_loop z 0 false pairs in
          put_zset ent z' ;;
          (if (changed : bool) then reaccount ent ;; dirty 1 else mret ()) ;;
          r_int added
      | _ => r_err MSG_WRONGTYPE_SHORT
      end.

(** The lookup that opens most handlers. *)
Definition zset_read (cmd : list sstr) (msg : bytes) (missing : M ()) (found : bytes -> M ()) : M () :=
  r ← lookup_entry (arg cmd 1) T_ZSET false false;
  match r with
  | LWRONGTYPE => r_err msg
  | LMISSING => missing
  | LOK ent => found ent
  end.

(** [if (hm_size(..) == 0) { hm_delete; entry_del } else mem_reaccount] *)
Definition close_zset (k : bytes) (z : ZSet) : M () :=
  if (hm_size (hmap z) =? 0)%nat then remove k else reaccount k.

Definition do_zrem (cmd : list sstr) : M () :=
  zset_read cmd MSG_WRONGTYPE_SHORT (r_int 0) (fun ent =>
    '(r, z) ← lookup_member ent (argd cmd 2);
    match r with
    | None => r_int 0
    | Some n =>
        let z' := zset_delete z n in
        put_zset ent z' ;; dirty 1 ;; close_zset ent z' ;; r_int 1
    end).

Definition do_zscore (cmd : list sstr) : M () :=
  zset_read cmd MSG_WRONGTYPE_SHORT r_nil (fun ent =>
    '(r, z) ← lookup_member ent (argd cmd 2);
    match r ≫= znode z with Some zn => r_dbl (score_of zn) | None => r_nil end).

Definition do_zrank (cmd : list sstr) : M () :=
  zset_read cmd MSG_WRONGTYPE_SHORT r_nil (fun ent =>
    '(r, z) ← lookup_member ent (argd cmd 2);
    match r ≫= znode_pos z with Some (t, p) => r_int (avl_rank t p) | None => r_nil end).

(** ** Ranges *)

Definition ZO_BYSCORE : Z := 1.
Definition ZO_BYLEX : Z := 2.
Definition ZO_REV : Z := 4.
Definition ZO_LIMIT : Z := 8.
Definition ZO_WITHSCORES : Z := 16.

Record ZRangeSpec := mkZRangeSpec {
  by_score : bool; rev : bool; withscores : bool; has_limit : bool;
  offset : Z; count : Z;
  start : Z; stop : Z;
  lo : score; hi : score; lo_excl : bool; hi_excl : bool;
}.

Definition spec0 (by_score rev : bool) : ZRangeSpec :=
  mkZRangeSpec by_score rev false false 0 (-1) 0 0 (S754_zero false) (S754_zero false) false false.

Definition with_scores (sp : ZRangeSpec) : ZRangeSpec :=
  mkZRangeSpec (by_score sp) (rev sp) true (has_limit sp) (offset sp) (count sp) (start sp) (stop sp) (lo sp) (hi sp) (lo_excl sp) (hi_excl sp).
Definition with_rev (sp : ZRangeSpec) : ZRangeSpec :=
  mkZRangeSpec (by_score sp) true (withscores sp) (has_limit sp) (offset sp) (count sp) (start sp) (stop sp) (lo sp) (hi sp) (lo_excl sp) (hi_excl sp).
Definition with_byscore (sp : ZRangeSpec) : ZRangeSpec :=
  mkZRangeSpec true (rev sp) (withscores sp) (has_limit sp) (offset sp) (count sp) (start sp) (stop sp) (lo sp) (hi sp) (lo_excl sp) (hi_excl sp).
Definition with_limit (o c : Z) (sp : ZRangeSpec) : ZRangeSpec :=
  mkZRangeSpec (by_score sp) (rev sp) (withscores sp) true o c (start sp) (stop sp) (lo sp) (hi sp) (lo_excl sp) (hi_excl sp).
Definition with_ranks (a b : Z) (sp : ZRangeSpec) : ZRangeSpec :=
  mkZRangeSpec (by_score sp) (rev sp) (withscores sp) (has_limit sp) (offset sp) (count sp) a b (lo sp) (hi sp) (lo_excl sp) (hi_excl sp).
Definition with_scorebounds (a b : score * bool) (sp : ZRangeSpec) : ZRangeSpec :=
  mkZRangeSpec (by_score sp) (rev sp) (withscores sp) (has_limit sp) (offset sp) (count sp) (start sp) (stop sp) a.1 b.1 a.2 b.2.

(** A score bound, exclusive after an opening parenthesis.  [*end == '\0']: the
    whole text up to its first zero byte was a number. *)
Definition parse_score_bound (s : bytes) : option (score * bool) :=
  let excl := match s with c :: _ => bool_decide (c = chr 40) | [] => false end in
  let r := strtod (c_str (if excl then tail s else s)) in
  if (length (sd_rest r) =? 0)%nat && negb (bool_decide (sd_val r = S754_nan)) then Some (sd_val r, excl) else None.

Definition MSG_BYLEX : bytes := bs "ERR syntax error, BYLEX is not supported".

(** The options [cmd\[i..\]], or the error text. *)
Fixpoint parse_zrange_opts (fuel : nat) (l : list bytes) (allow : Z) (sp : ZRangeSpec) : bytes + ZRangeSpec :=
  match fuel, l with
  | S f, a :: l' =>
      if flag allow ZO_WITHSCORES && arg_ieq a (bs "withscores") then parse_zrange_opts f l' allow (with_scores sp)
      else if flag allow ZO_REV && arg_ieq a (bs "rev") then parse_zrange_opts f l' allow (with_rev sp)
      else if flag allow ZO_BYSCORE && arg_ieq a (bs "byscore") then parse_zrange_opts f l' allow (with_byscore sp)
      else if flag allow ZO_BYLEX && arg_ieq a (bs "bylex") then inl MSG_BYLEX
      else if flag allow ZO_LIMIT && arg_ieq a (bs "limit") then
        match l' with
        | o :: c :: l'' =>
            match str2int o, str2int c with
            | Some o, Some c => parse_zrange_opts f l'' allow (with_limit o c sp)
            | _, _ => inl MSG_NOT_INT
            end
        | _ => inl MSG_SYNTAX
        end
      else inl MSG_SYNTAX
  | _, _ => inr sp
  end.

Definition MSG_MINMAX : bytes := bs "ERR min or max is not a float".

(** The positional bounds; with REV they arrive as (max, min). *)
Definition zrange_bounds (sp : ZRangeSpec) (a b : bytes) : bytes + ZRangeSpec :=
  if negb (by_score sp) then
    match str2int a, str2int b with
    | Some x, Some y => inr (with_ranks x y sp)
    | _, _ => inl MSG_NOT_INT
    end
  else
    let smin := if rev sp then b else a in
    let smax := if rev sp then a else b in
    match parse_score_bound smin, parse_score_bound smax with
    | Some x, Some y => inr (with_scorebounds x y sp)
    | _, _ => inl MSG_MINMAX
    end.

(** The ascending rank interval [\[lo, hi)]. *)
Definition zrange_interval (z : ZSet) (sp : ZRangeSpec) : Z * Z :=
  if by_score sp then
    (zset_count_below z (lo sp) (lo_excl sp), zset_count_below z (hi sp) (negb (hi_excl sp)))
  else
    let card := Z.of_nat (avl_cnt (root z)) in
    let s := if start sp <? 0 then start sp + card else start sp in
    let e := if stop sp <? 0 then stop sp + card else stop sp in
    let s := if s <? 0 then 0 else s in
    if (e <? s) || (card <=? s) then (0, 0)
    else
      let e := if card <=? e then card - 1 else e in
      if rev sp then (card - 1 - e, card - s) else (s, e + 1).

Definition emit_member (zn : ZNode) (withscores : bool) : M () :=
  p ← proto;
  (if withscores && (3 <=? p) then r_arr 2 else mret ()) ;;
  r_str (name zn) ;;
  (if withscores then r_dbl (score_of zn) else mret ()).

(** [for (i = 0; i < n && zn; ++i)] *)
Fixpoint emit_walk (n : nat) (zn : option zpos) (rev withscores : bool) : M () :=
  match n, zn ≫= elem_of_pos with
  | S n', Some x => emit_member x withscores ;; emit_walk n' (znode_offset zn (if rev then -1 else 1)) rev withscores
  | _, _ => mret ()
  end.

Definition zrange_emit (z : ZSet) (sp : ZRangeSpec) : M () :=
  let '(l, h) := zrange_interval z sp in
  let n := if l <? h then h - l else 0 in
  let '(n, skip) :=
    if has_limit sp then
      if (offset sp <? 0) || (n <=? offset sp) then (0, 0)
      else
        let n := n - offset sp in
        ((if (0 <=? count sp) && (count sp <? n) then count sp else n), offset sp)
    else (n, 0) in
  p ← proto;
  let flat := withscores sp && (p <? 3) in
  r_arr (u32 (if flat then n * 2 else n)) ;;
  emit_walk (Z.to_nat n) (if 0 <? n then zset_at_rank z (if rev sp then h - 1 - skip else l + skip) else None)
    (rev sp) (withscores sp).

Definition MSG_LIMIT : bytes := bs "ERR syntax error, LIMIT is only supported in combination with either BYSCORE or BYLEX".

Definition zrange_generic (cmd : list sstr) (sp : ZRangeSpec) (allow : Z) : M () :=
  match parse_zrange_opts (length cmd) (s_data <$> drop 4 cmd) allow sp with
  | inl err => r_err err
  | inr sp =>
      if has_limit sp && negb (by_score sp) then r_err MSG_LIMIT
      else
        match zrange_bounds sp (argd cmd 2) (argd cmd 3) with
        | inl err => r_err err
        | inr sp =>
            zset_read cmd MSG_WRONGTYPE (r_arr 0) (fun ent => z ← entry_zset ent; zrange_emit z sp)
        end
  end.

Definition do_zrange (cmd : list sstr) : M () :=
  zrange_generic cmd (spec0 false false) (Z.lor ZO_BYSCORE (Z.lor ZO_BYLEX (Z.lor ZO_REV (Z.lor ZO_LIMIT ZO_WITHSCORES)))).
Definition do_zrevrange (cmd : list sstr) : M () := zrange_generic cmd (spec0 false true) ZO_WITHSCORES.
Definition do_zrangebyscore (cmd : list sstr) : M () := zrange_generic cmd (spec0 true false) (Z.lor ZO_LIMIT ZO_WITHSCORES).
Definition do_zrevrangebyscore (cmd : list sstr) : M () := zrange_generic cmd (spec0 true true) (Z.lor ZO_LIMIT ZO_WITHSCORES).

Definition do_zcard (cmd : list sstr) : M () :=
  zset_read cmd MSG_WRONGTYPE (r_int 0) (fun ent => z ← entry_zset ent; r_int (Z.of_nat (avl_cnt (root z)))).

Definition do_zcount (cmd : list sstr) : M () :=
  match zrange_bounds (spec0 true false) (argd cmd 2) (argd cmd 3) with
  | inl err => r_err err
  | inr sp =>
      zset_read cmd MSG_WRONGTYPE (r_int 0) (fun ent =>
        z ← entry_zset ent;
        let '(l, h) := zrange_interval z sp in
        r_int (if l <? h then h - l else 0))
  end.

Definition do_zrevrank (cmd : list sstr) : M () :=
  zset_read cmd MSG_WRONGTYPE r_nil (fun ent =>
    '(r, z) ← lookup_member ent (argd cmd 2);
    match r ≫= znode_pos z with
    | Some (t, p) => r_int (Z.of_nat (avl_cnt (root z)) - 1 - avl_rank t p)
    | None => r_nil
    end).

Definition MSG_NAN : bytes := bs "ERR resulting score is not a number (NaN)".

Definition do_zincrby (cmd : list sstr) : M () :=
  match str2dbl (argd cmd 2) with
  | None => r_err MSG_NOT_FLOAT
  | Some incr =>
      r ← lookup_entry (arg cmd 1) T_ZSET true false;
      match r with
      | LOK ent =>
          '(r, z) ← lookup_member ent (argd cmd 3);
          let score := match r ≫= znode z with Some zn => SFadd 53 1024 (score_of zn) incr | None => incr end in
          if bool_decide (score = S754_nan) then r_err MSG_NAN
          else
            put_zset ent (match r with Some n => zset_update z n score | None => (zset_insert z (argd cmd 3) score).2 end) ;;
            reaccount ent ;; dirty 1 ;; r_dbl score
      | _ => r_err MSG_WRONGTYPE
      end
  end.

(** ** Removal by range *)

(** The nodes to delete: [for (i = lo; i < hi && zn; ++i)]. *)
Fixpoint doomed_walk (n : nat) (zn : option zpos) : list bytes :=
  match n, zn ≫= elem_of_pos with
  | S n', Some x => name x :: doomed_walk n' (znode_offset zn 1)
  | _, _ => []
  end.

Definition zremrange_generic (cmd : list sstr) (by_score : bool) : M () :=
  match zrange_bounds (spec0 by_score false) (argd cmd 2) (argd cmd 3) with
  | inl err => r_err err
  | inr sp =>
      zset_read cmd MSG_WRONGTYPE (r_int 0) (fun ent =>
        z ← entry_zset ent;
        let '(l, h) := zrange_interval z sp in
        if h <=? l then r_int 0
        else
          let doomed := doomed_walk (Z.to_nat (h - l)) (zset_at_rank z l) in
          let z' := foldl zset_delete z doomed in
          put_zset ent z' ;; dirty 1 ;; close_zset ent z' ;;
          r_int (Z.of_nat (length doomed)))
  end.

Definition do_zremrangebyscore (cmd : list sstr) : M () := zremrange_generic cmd true.
Definition do_zremrangebyrank (cmd : list sstr) : M () := zremrange_generic cmd false.

(** ** ZPOPMIN *)

(** The leftmost node. *)
Fixpoint min_node (t : tree ZNode) : option ZNode :=
  match t with
  | Leaf => None
  | Node Leaf x _ _ _ => Some x
  | Node l _ _ _ _ => min_node l
  end.

(** [for (i = 0; i < count && zset->root; ++i)] *)
Fixpoint pop_loop (n : nat) (z : ZSet) : list ZNode * ZSet :=
  match n, min_node (root z) with
  | S n', Some x => let '(l, z') := pop_loop n' (zset_delete z (name x)) in (x :: l, z')
  | _, _ => ([], z)
  end.

(** A turn of the loop removes a member, so [count] beyond their number is cut
    there. *)
Definition pop_turns (count : Z) (z : ZSet) : nat := Z.to_nat (Z.min count (Z.of_nat (length (members z)))).

Definition emit_popped (nested : bool) (l : list ZNode) : M () :=
  let n := Z.of_nat (length l) in
  r_arr (u32 (if nested then n else n * 2)) ;;
  for_each l (fun x => (if nested then r_arr 2 else mret ()) ;; r_str (name x) ;; r_dbl (score_of x)).

(** [count]: 1 without the argument, negative means 0. *)
Definition pop_count (cmd : list sstr) : option Z :=
  if (3 <=? length cmd)%nat then c ← str2int (argd cmd 2); Some (if c <? 0 then 0 else c) else Some 1.

Definition do_zpopmin (cmd : list sstr) : M () :=
  match pop_count cmd with
  | None => r_err MSG_NOT_INT
  | Some count =>
      zset_read cmd MSG_WRONGTYPE (r_arr 0) (fun ent =>
        z ← entry_zset ent;
        let '(popped, z') := pop_loop (pop_turns count z) z in
        put_zset ent z' ;;
        p ← proto;
        emit_popped ((3 <=? p) && (3 <=? length cmd)%nat) popped ;;
        match popped with
        | [] => mret ()
        | _ => dirty 1 ;; close_zset ent z'
        end)
  end.
