(* ===== verification/ZSetCommands.v ===== *)
(** * The sorted-set commands against the map of scores

    The claims on the handlers of ZCommands.v.  A sorted set means a finite map
    from members to scores; [ranking] lists it by score and name, and the ranges
    are slices of that list, from either end. *)
From stdpp Require Import sorting.
From S2P Require Import Prelude Buffer Resp StdString Deque Hashtable HashMap Heap Avl Score ZSet HashSet State World Args Strings Lists Glob Keys Containers Hashes CText CFloat ZCommands.

(** ** The ranking of a map of scores *)

(** The order of the members, total on all nodes. *)
Definition ranked_before (a b : ZNode) : Prop :=
  place_lt (place (score_of a)) (place (score_of b)) \/
  place (score_of a) = place (score_of b) /\ (name a = name b \/ name_less (name a) (name b) = true).

#[global] Instance place_lt_dec a b : Decision (place_lt a b).
Proof. unfold place_lt. apply _. Defined.
#[global] Instance ranked_before_dec a b : Decision (ranked_before a b).
Proof. unfold ranked_before. apply _. Defined.

Definition nodes_of (m : gmap bytes score) : list ZNode := (fun p => mkZNode p.2 p.1) <$> map_to_list m.

(** All members, lowest score first, equal scores by name. *)
Definition ranking (m : gmap bytes score) : list ZNode := merge_sort ranked_before (nodes_of m).

#[global] Instance ranked_before_trans : Transitive ranked_before.
Proof.
  intros a b c. unfold ranked_before. intros [H1|[H1 H1']] [H2|[H2 H2']].
  - left. by eapply place_lt_trans.
  - left. by rewrite <- H2.
  - left. by rewrite H1.
  - right. split; [congruence|]. destruct H1' as [->|H1'], H2' as [E|H2']; auto.
    + rewrite <- E. auto.
    + right. revert H1' H2'. rewrite !name_less_lex. apply lex_trans.
Qed.

#[global] Instance ranked_before_total : Total ranked_before.
Proof.
  intros a b. unfold ranked_before. destruct (place_trichotomy (place (score_of a)) (place (score_of b))) as [|[->|]]; auto.
  destruct (lex_trichotomy (name a) (name b)) as [H|[->|H]]; rewrite ?name_less_lex; auto.
Qed.

Lemma zlt_ranked a b : not_nan (score_of a) -> not_nan (score_of b) -> zlt a b -> ranked_before a b.
Proof.
  intros Ha Hb. unfold zlt, zless_node, zless. rewrite pair_less_iff by done. unfold ranked_before.
  intros [?|[? Hl]]; [auto|]. right. split; [done|]. right. by rewrite name_less_lex.
Qed.

Lemma nodes_perm l : NoDup (name <$> l) -> nodes_of (scores_of l) ≡ₚ l.
Proof.
  intros Hnd. unfold nodes_of, scores_of. rewrite map_to_list_to_map by (by rewrite names_of_pairs).
  rewrite <- list_fmap_compose. replace ((_ ∘ _) <$> l) with l; [done|].
  symmetry. transitivity (id <$> l); [|apply list_fmap_id]. apply list_fmap_ext. intros _ [s n] _. done.
Qed.

(** The tree holds the members in the order of their ranking. *)
Lemma ranking_sorted l :
  StronglySorted zlt l -> Forall (fun x => not_nan (score_of x)) l -> NoDup (name <$> l) -> ranking (scores_of l) = l.
Proof.
  intros Hs Hn Hnd. unfold ranking.
  apply (Sorted_unique_strong ranked_before).
  - intros a b Ha Hb H1 H2. rewrite merge_sort_Permutation, nodes_perm in Ha by done.
    assert (Hnm : name a = name b).
    { unfold ranked_before in H1, H2. destruct H1 as [H1|[H1 H1']], H2 as [H2|[H2 H2']].
      - by destruct (place_lt_irrefl (place (score_of a))); eapply place_lt_trans.
      - rewrite H2 in H1. by destruct (place_lt_irrefl _ H1).
      - rewrite H1 in H2. by destruct (place_lt_irrefl _ H2).
      - destruct H1' as [|H1']; [done|]. destruct H2' as [|H2']; [done|]. rewrite name_less_lex in H1', H2'.
        pose proof (lex_trans _ _ _ H1' H2') as Hx. by rewrite lex_irrefl in Hx. }
    apply list_elem_of_lookup in Ha as [i Hi]. apply list_elem_of_lookup in Hb as [j Hj].
    assert (i = j) as ->.
    { eapply (NoDup_lookup (name <$> l)); [done|by rewrite list_lookup_fmap, Hi|].
      rewrite list_lookup_fmap, Hj. cbn. by rewrite Hnm. }
    congruence.
  - apply (Sorted_merge_sort _).
  - apply StronglySorted_Sorted. revert Hn. clear Hnd. induction Hs as [|x l Hl IH Hx]; intros Hn; [constructor|].
    apply Forall_cons in Hn as [Hnx Hn]. constructor; [by apply IH|].
    apply Forall_forall. intros y Hy. rewrite Forall_forall in Hx, Hn. apply zlt_ranked; auto.
  - by rewrite merge_sort_Permutation, nodes_perm.
Qed.

Lemma ranking_members z : zset_ok z -> ranking (scores z) = members z.
Proof. intros [_ Hs Hn Hnd _ _ _]. by apply ranking_sorted. Qed.

Lemma length_ranking z : zset_ok z -> length (members z) = base.size (scores z).
Proof.
  intros Hz. rewrite <- ranking_members by done. unfold ranking.
  rewrite merge_sort_Permutation. unfold nodes_of. rewrite length_fmap. apply length_map_to_list.
Qed.

Lemma zset_size z : zset_ok z -> hm_size (hmap z) = base.size (scores z).
Proof.
  intros Hz. rewrite (hm_size_map id) by apply Hz.
  rewrite <- !size_dom. f_equal. apply set_eq. intros n. rewrite !elem_of_dom, scores_member, (zok_index z Hz).
  case_decide as Hn; split; intros Hx; done.
Qed.

Lemma scores_name z n : zset_ok z -> scores z !! n = None <-> n ∉ name <$> members z.
Proof. intros _. apply scores_None. Qed.

(** ** Positions and walks *)

(** A node pointer stands at rank [i], or is null outside the ranks. *)
Definition stands (z : ZSet) (i : Z) (o : option zpos) : Prop :=
  match o with
  | Some (t, p) => plug t p = root z /\ t <> Leaf /\ Z.of_nat (index t p) = i
  | None => i < 0 \/ Z.of_nat (length (members z)) <= i
  end.

Lemma stands_at_rank z i : zset_ok z -> stands z i (zset_at_rank z i).
Proof.
  intros Hz. unfold zset_at_rank. pose proof (at_rank_loop_spec (root z) [] i (zok_avl z Hz)) as Hs.
  destruct (at_rank_loop (root z) [] i) as [[q p]|]; [|done].
  destruct Hs as (Hp & l & x & r & h & c & -> & Hi & Hx). change (plug (root z) []) with (root z) in Hp.
  split_and!; try done. pose proof (index_lookup l x r h c p) as Hl. rewrite Hp in Hl.
  assert (Z.to_nat i = index (Node l x r h c) p) as <-; [|lia].
  eapply (NoDup_lookup (name <$> members z)); [apply Hz| |]; unfold members; rewrite list_lookup_fmap; [by rewrite Hx|by rewrite Hl].
Qed.

Lemma stands_offset z i k o : zset_ok z -> o <> None -> stands z i o -> stands z (i + k) (znode_offset o k).
Proof.
  intros Hz Hne. destruct o as [[t p]|]; [|done]. intros (Hp & Ht & <-). cbn [znode_offset].
  pose proof (avl_offset_spec t p k ltac:(rewrite Hp; apply Hz) Ht) as Hs.
  destruct (avl_offset t p k) as [[t' p']|]; rewrite ?Hp in Hs; [naive_solver|]. exact Hs.
Qed.

Lemma stands_elem z i o : stands z i o -> o ≫= elem_of_pos = if 0 <=? i then members z !! Z.to_nat i else None.
Proof.
  destruct o as [[t p]|]; cbn [stands].
  - intros (Hp & Ht & <-). cbn [mbind option_bind]. rewrite elem_at_index by done. cbn [fst snd].
    rewrite Hp, (proj2 (Z.leb_le _ _)) by lia. by rewrite Nat2Z.id.
  - intros H. cbn. case_match eqn:E; [|done]. bool_facts. symmetry. apply lookup_ge_None. lia.
Qed.

(** The nodes a walk visits. *)
Fixpoint walk_nodes (n : nat) (zn : option zpos) (rev : bool) : list ZNode :=
  match n, zn ≫= elem_of_pos with
  | S n', Some x => x :: walk_nodes n' (znode_offset zn (if rev then -1 else 1)) rev
  | _, _ => []
  end.

Lemma walk_none n rev : walk_nodes n None rev = [].
Proof. by destruct n. Qed.

Lemma walk_forward z n i o : zset_ok z -> 0 <= i -> stands z i o -> walk_nodes n o false = take n (drop (Z.to_nat i) (members z)).
Proof.
  intros Hz. revert i o. induction n as [|n IH]; intros i o Hi Ho; [done|]. cbn [walk_nodes].
  pose proof (stands_elem _ _ _ Ho) as Hx. rewrite (proj2 (Z.leb_le 0 i)) in Hx by done. rewrite Hx.
  destruct (members z !! Z.to_nat i) as [x|] eqn:E.
  - rewrite (drop_S _ x) by done. cbn [take]. f_equal. rewrite (IH (i + 1)); [|lia|].
    + by replace (Z.to_nat (i + 1)) with (S (Z.to_nat i)) by lia.
    + apply stands_offset; try done. by intros ->.
  - by rewrite drop_ge by by apply lookup_ge_None.
Qed.

Lemma walk_backward z n i o :
  zset_ok z -> stands z i o -> i < Z.of_nat (length (members z)) ->
  walk_nodes n o true = take n (reverse (take (Z.to_nat (i + 1)) (members z))).
Proof.
  intros Hz. revert i o. induction n as [|n IH]; intros i o Ho Hi; [done|]. cbn [walk_nodes].
  pose proof (stands_elem _ _ _ Ho) as Hx. rewrite Hx. destruct (0 <=? i) eqn:E0; bool_facts.
  - destruct (members z !! Z.to_nat i) as [x|] eqn:E; [|apply lookup_ge_None in E; lia].
    replace (Z.to_nat (i + 1)) with (S (Z.to_nat i)) by lia. rewrite (take_S_r (members z) _ x) by done.
    rewrite reverse_app. cbn [reverse app take]. f_equal.
    rewrite (IH (i + -1)); [by replace (i + -1 + 1) with i by lia| |lia].
    apply stands_offset; try done. by intros ->.
  - replace (Z.to_nat (i + 1)) with 0%nat by lia. done.
Qed.

Lemma doomed_names n zn : doomed_walk n zn = name <$> walk_nodes n zn false.
Proof. revert zn. induction n as [|n IH]; intros zn; [done|]. cbn. destruct (zn ≫= elem_of_pos); [|done]. cbn. by rewrite IH. Qed.

(** ** Ranges as slices of the ranking *)

(** A member inside the score bounds of a request. *)
Definition between (sp : ZRangeSpec) (x : ZNode) : bool :=
  (if lo_excl sp then SFltb (lo sp) (score_of x) else SFleb (lo sp) (score_of x)) &&
  (if hi_excl sp then SFltb (score_of x) (hi sp) else SFleb (score_of x) (hi sp)).

(** The members from [start] to [stop], both included, negative positions
    counting from the end. *)
Definition rank_slice (start stop : Z) (l : list ZNode) : list ZNode :=
  match range_bounds (Z.of_nat (length l)) start stop with
  | Some (a, b) => slice (Z.to_nat a) (Z.to_nat (b - a + 1)) l
  | None => []
  end.

(** What LIMIT offset count leaves; a negative count is no bound. *)
Definition limited (sp : ZRangeSpec) (l : list ZNode) : list ZNode :=
  if has_limit sp then
    if offset sp <? 0 then []
    else let l := drop (Z.to_nat (offset sp)) l in if count sp <? 0 then l else take (Z.to_nat (count sp)) l
  else l.

(** The answer a range request asks for. *)
Definition selected (sp : ZRangeSpec) (l : list ZNode) : list ZNode :=
  let l := if ZCommands.rev sp then reverse l else l in
  limited sp (if by_score sp then filter (fun x => between sp x = true) l else rank_slice (start sp) (stop sp) l).

Definition bounds_ok (sp : ZRangeSpec) : Prop := not_nan (lo sp) /\ not_nan (hi sp).

Lemma filter_index {A} (P : A -> Prop) `{forall x, Decision (P x)} (m : list A) (l h : nat) :
  (forall j x, m !! j = Some x -> P x <-> (l <= j < h)%nat) -> filter P m = take (h - l) (drop l m).
Proof.
  revert l h. induction m as [|x m IH]; intros l h Hp; [by rewrite drop_nil, take_nil|].
  pose proof (Hp 0%nat x eq_refl) as H0. rewrite filter_cons.
  rewrite (IH (pred l) (pred h)).
  2:{ intros j y Hj. rewrite (Hp (S j) y Hj). lia. }
  case_decide as Hx.
  - apply H0 in Hx. assert (l = 0%nat) as -> by lia. destruct h as [|h]; [lia|]. cbn. by rewrite Nat.sub_0_r.
  - destruct l as [|l].
    + assert (h = 0%nat) as -> by (destruct h; [done|]; exfalso; apply Hx, H0; lia). done.
    + cbn [pred drop]. f_equal. lia.
Qed.

Lemma prefix_index {A} (R : A -> A -> Prop) (P : A -> Prop) `{forall x, Decision (P x)} (m : list A) :
  StronglySorted R m -> (forall x y, x ∈ m -> y ∈ m -> R x y -> P y -> P x) ->
  forall j x, m !! j = Some x -> P x <-> (j < length (filter P m))%nat.
Proof.
  induction 1 as [|x m Hm IH Hx]; intros Hc j y Hj; [done|]. rewrite filter_cons. rewrite Forall_forall in Hx.
  case_decide as Hd.
  - destruct j as [|j]; cbn in Hj |- *; [injection Hj as <-; split; [lia|done]|].
    rewrite (IH ltac:(intros; eapply Hc; eauto; by right) j y Hj). lia.
  - rewrite (list_filter_none P m); [|apply Forall_forall; intros z Hz Hpz; apply Hd; apply (Hc x z); [by left|by right|by apply Hx|done]].
    cbn. split; [|lia]. intros Hy. exfalso. apply Hd. destruct j as [|j]; cbn in Hj; [by injection Hj as ->|].
    assert (y ∈ m) by by eapply list_elem_of_lookup_2. apply (Hc x y); [by left|by right|by apply Hx|done].
Qed.

Lemma leb_place s t : not_nan s -> not_nan t -> SFleb s t = true <-> ~ place_lt (place t) (place s).
Proof.
  intros Hs Ht. pose proof (place_of_ltb s t Hs Ht) as Hl. pose proof (place_of_eqb s t Hs Ht) as He.
  assert (SFleb s t = SFltb s t || SFeqb s t) as ->.
  { unfold SFleb, SFltb, SFeqb. by destruct (SFcompare s t) as [[]|]. }
  rewrite orb_true_iff, Hl, He. split.
  - intros [H1|H1] H2; [apply (place_lt_irrefl (place s)); by eapply place_lt_trans|].
    rewrite H1 in H2. by apply (place_lt_irrefl (place t)).
  - intros H. destruct (place_trichotomy (place s) (place t)) as [|[|]]; tauto.
Qed.

Lemma between_below sp x :
  bounds_ok sp -> not_nan (score_of x) ->
  between sp x = true <-> ~ below (lo sp) (lo_excl sp) x /\ below (hi sp) (negb (hi_excl sp)) x.
Proof.
  intros [Hl Hh] Hx. unfold between. rewrite andb_true_iff, !below_place by done.
  assert (Hno : forall a b, place_lt a b -> ~ (place_lt b a \/ b = a)).
  { intros a b H1 [H2| ->]; [apply (place_lt_irrefl a); by eapply place_lt_trans|by apply (place_lt_irrefl a)]. }
  destruct (lo_excl sp), (hi_excl sp); cbn [negb]; rewrite ?place_of_ltb, ?leb_place by done;
    pose proof (Hno (place (lo sp)) (place (score_of x))); pose proof (Hno (place (hi sp)) (place (score_of x)));
    destruct (place_trichotomy (place (lo sp)) (place (score_of x))) as [|[|]];
    destruct (place_trichotomy (place (hi sp)) (place (score_of x))) as [|[|]]; intuition congruence.
Qed.

Lemma filter_between z sp :
  zset_ok z -> bounds_ok sp ->
  let l := zset_count_below z (lo sp) (lo_excl sp) in
  let h := zset_count_below z (hi sp) (negb (hi_excl sp)) in
  filter (fun x => between sp x = true) (members z) = slice (Z.to_nat l) (Z.to_nat h - Z.to_nat l) (members z) /\
  0 <= l /\ 0 <= h <= Z.of_nat (length (members z)).
Proof.
  intros Hz Hb. cbn zeta. unfold zset_count_below. pose proof Hz as [H1 H2 H3 H4 _ _ _].
  rewrite !count_below_loop_spec by (try done; apply Hb). rewrite !Z.add_0_l, !Nat2Z.id.
  change (inorder (root z)) with (members z). rewrite Forall_forall in H3.
  assert (Hidx : forall s i, not_nan s -> forall j x, members z !! j = Some x ->
            below s i x <-> (j < length (filter (below s i) (members z)))%nat).
  { intros s i Hs. apply (prefix_index zlt); [done|]. intros x y Hx Hy. by apply below_closed; auto. }
  split; [|pose proof (length_filter (below (hi sp) (negb (hi_excl sp))) (members z)); lia].
  apply filter_index. intros j x Hj.
  rewrite between_below, (Hidx _ _ (proj1 Hb) j x Hj), (Hidx _ _ (proj2 Hb) j x Hj); [lia|done|].
  apply H3. by eapply list_elem_of_lookup_2.
Qed.

Definition flip_if {A} (b : bool) (l : list A) : list A := if b then reverse l else l.

Lemma slice_reverse {A} (a n : nat) (l : list A) :
  (a + n <= length l)%nat -> slice a n (reverse l) = reverse (slice (length l - a - n) n l).
Proof.
  intros H. unfold slice. rewrite drop_reverse, take_reverse, length_take.
  rewrite skipn_firstn_comm. f_equal. f_equal; [lia|]. f_equal; lia.
Qed.

Lemma interval_selects z sp :
  zset_ok z -> bounds_ok sp ->
  let '(l, h) := zrange_interval z sp in
  let m := flip_if (ZCommands.rev sp) (members z) in
  0 <= l /\ 0 <= h <= Z.of_nat (length (members z)) /\
  (if by_score sp then filter (fun x => between sp x = true) m else rank_slice (start sp) (stop sp) m) =
  flip_if (ZCommands.rev sp) (slice (Z.to_nat l) (Z.to_nat h - Z.to_nat l) (members z)).
Proof.
  intros Hz Hb. unfold zrange_interval. destruct (by_score sp).
  { destruct (filter_between z sp Hz Hb) as (Hf & Hl & Hh). split_and!; [lia..|].
    rewrite <- Hf. destruct (ZCommands.rev sp); [|done]. apply filter_reverse. }
  rewrite avl_cnt_length by apply Hz. change (inorder (root z)) with (members z).
  unfold rank_slice, range_bounds. set (m := members z). set (n := Z.of_nat (length m)).
  assert (Hn : Z.of_nat (length (flip_if (ZCommands.rev sp) m)) = n)
    by (unfold flip_if; destruct (ZCommands.rev sp); [by rewrite length_reverse|done]). rewrite Hn.
  set (a0 := if start sp <? 0 then _ else _). set (b0 := if stop sp <? 0 then _ else _).
  replace (if a0 <? 0 then 0 else a0) with (Z.max 0 a0) by (destruct (a0 <? 0) eqn:E; blia).
  replace (if n <=? b0 then n - 1 else b0) with (Z.min (n - 1) b0) by (destruct (n <=? b0) eqn:E; blia).
  set (a := Z.max 0 a0). set (b := Z.min (n - 1) b0).
  assert ((b0 <? a) || (n <=? a) = negb ((a <=? b) && (a <? n))) as -> by (subst a b; apply eq_true_iff_eq; rewrite orb_true_iff, negb_true_iff, andb_false_iff, !Z.ltb_lt, Z.leb_le, Z.leb_gt, Z.ltb_ge; lia).
  destruct ((a <=? b) && (a <? n)) eqn:E; cbn [negb].
  - bool_facts. destruct (ZCommands.rev sp); cbn [flip_if].
    + split_and!; [lia..|]. rewrite slice_reverse by lia. f_equal. f_equal; lia.
    + split_and!; [lia..|]. f_equal. lia.
  - split_and!; [lia..|]. by destruct (ZCommands.rev sp).
Qed.

(** What LIMIT leaves of [n] members: how many, and how many are skipped. *)
Definition limit_window (sp : ZRangeSpec) (n : Z) : Z * Z :=
  if has_limit sp then
    if (offset sp <? 0) || (n <=? offset sp) then (0, 0)
    else
      let n := n - offset sp in
      ((if (0 <=? count sp) && (count sp <? n) then count sp else n), offset sp)
  else (n, 0).

Lemma limit_spec sp l n' skip :
  limit_window sp (Z.of_nat (length l)) = (n', skip) ->
  limited sp l = slice (Z.to_nat skip) (Z.to_nat n') l /\ 0 <= skip /\ 0 <= n' /\ skip + n' <= Z.of_nat (length l).
Proof.
  unfold limit_window, limited, slice. destruct (has_limit sp).
  2:{ intros [= <- <-]. split; [|lia]. cbn [drop]. symmetry. apply take_ge. lia. }
  destruct (offset sp <? 0) eqn:E1; cbn [orb]; [by intros [= <- <-]; split; [|lia]|].
  destruct (_ <=? offset sp) eqn:E2; bool_facts.
  { intros [= <- <-]. split; [|lia]. rewrite drop_ge by lia. destruct (count sp <? 0); [done|]. apply take_nil. }
  destruct (0 <=? count sp) eqn:E3; cbn [andb].
  - destruct (count sp <? _) eqn:E4; intros [= <- <-]; bool_facts; (split; [|lia]); rewrite (proj2 (Z.ltb_ge _ _)) by done; [done|].
    rewrite !take_ge; [done|rewrite length_drop; lia..].
  - intros [= <- <-]. bool_facts. split; [|lia]. rewrite (proj2 (Z.ltb_lt _ _)) by done.
    rewrite take_ge; [done|]. rewrite length_drop. lia.
Qed.

(** The walk of [zrange_emit] visits the answer. *)
Lemma walk_selected z sp l h n skip :
  zset_ok z -> bounds_ok sp -> zrange_interval z sp = (l, h) ->
  limit_window sp (if l <? h then h - l else 0) = (n, skip) ->
  walk_nodes (Z.to_nat n) (if 0 <? n then zset_at_rank z (if ZCommands.rev sp then h - 1 - skip else l + skip) else None) (ZCommands.rev sp) =
    selected sp (members z) /\ n = Z.of_nat (length (selected sp (members z))).
Proof.
  intros Hz Hb Hi Hl. pose proof (interval_selects z sp Hz Hb) as Hs. rewrite Hi in Hs. cbn zeta in Hs.
  destruct Hs as (H0 & Hh & Hs). unfold selected. change (if ZCommands.rev sp then reverse (members z) else members z) with (flip_if (ZCommands.rev sp) (members z)).
  rewrite Hs. clear Hs. set (S := slice _ _ _).
  assert (HS : Z.of_nat (length S) = if l <? h then h - l else 0).
  { subst S. unfold slice. rewrite length_take, length_drop. destruct (l <? h) eqn:E; bool_facts; lia. }
  assert (HF : length (flip_if (ZCommands.rev sp) S) = length S) by (destruct (ZCommands.rev sp); [apply length_reverse|done]).
  rewrite <- HS, <- HF in Hl. destruct (limit_spec sp _ _ _ Hl) as (-> & K1 & K2 & K3). rewrite HF in K3.
  split.
  2:{ unfold slice at 1. rewrite length_take, length_drop, HF. lia. }
  destruct (0 <? n) eqn:En; bool_facts.
  2:{ assert (n = 0) as -> by lia. done. }
  assert (Hlt : l < h) by (destruct (l <? h) eqn:E; bool_facts; lia). rewrite (proj2 (Z.ltb_lt _ _)) in HS by done.
  destruct (ZCommands.rev sp); cbn [flip_if] in *.
  - rewrite (walk_backward z _ (h - 1 - skip)); [|done|by apply stands_at_rank|lia].
    rewrite slice_reverse by lia. replace (length S) with (Z.to_nat (h - l)) by lia. subst S. unfold slice.
    rewrite take_reverse, length_take. f_equal. rewrite !skipn_firstn_comm, drop_drop, take_take. f_equal; [lia|]. f_equal; lia.
  - rewrite (walk_forward z _ (l + skip)); [|done|lia|by apply stands_at_rank].
    subst S. unfold slice. rewrite skipn_firstn_comm, drop_drop, take_take. f_equal; [lia|]. f_equal; lia.
Qed.

(** ** Replies *)

Definition member_reply (p : Z) (ws : bool) (b : Buffer) (x : ZNode) : Buffer :=
  let b := if ws && (3 <=? p) then resp_arr b 2 else b in
  let b := resp_str b (name x) in
  if ws then resp_dbl p b (score_of x) else b.

(** An array of members, or of members and scores: flat under RESP2, pairs
    under RESP3. *)
Definition range_reply (p : Z) (ws : bool) (l : list ZNode) (b : Buffer) : Buffer :=
  let n := Z.of_nat (length l) in
  foldl (member_reply p ws) (resp_arr b (u32 (if ws && (p <? 3) then n * 2 else n))) l.

Lemma wf_resp_dbl p b v : wf b -> wf (resp_dbl p b v).
Proof. unfold resp_dbl. intros Hb. destruct (3 <=? p); [by apply appends_buf|auto with myred]. Qed.
#[export] Hint Resolve wf_resp_dbl : myred.

Lemma wf_member_reply p ws b x : wf b -> wf (member_reply p ws b x).
Proof. intros Hb. unfold member_reply. destruct ws, (3 <=? p); cbn [andb]; auto with myred. Qed.

Lemma wf_foldl {A} (f : Buffer -> A -> Buffer) l b : (forall b x, wf b -> wf (f b x)) -> wf b -> wf (foldl f b l).
Proof. intros Hf. revert b. induction l as [|x l IH]; intros b Hb; [done|]. cbn. by apply IH, Hf. Qed.

Lemma wf_range_reply p ws l b : wf b -> wf (range_reply p ws l b).
Proof. intros Hb. apply wf_foldl; [by apply wf_member_reply|auto with myred]. Qed.
#[export] Hint Resolve wf_range_reply : myred.

Lemma emit_member_run x ws w :
  emit_member x ws w = ((), with_out (member_reply (g_reply_proto (env w)) ws (out w) x) w).
Proof.
  unfold emit_member, member_reply, mbind, state_bind, proto, gets. destruct ws; cbn [andb]; [|by destruct w].
  by destruct (3 <=? g_reply_proto (env w)), w.
Qed.

Lemma emit_walk_run n zn rev ws w :
  emit_walk n zn rev ws w = ((), with_out (foldl (member_reply (g_reply_proto (env w)) ws) (out w) (walk_nodes n zn rev)) w).
Proof.
  revert zn w. induction n as [|n IH]; intros zn w; [by destruct w|]. cbn [emit_walk walk_nodes].
  destruct (zn ≫= elem_of_pos) as [x|]; [|by destruct w].
  unfold mbind, state_bind. rewrite emit_member_run, IH. done.
Qed.

Lemma zrange_emit_run z sp w :
  zset_ok z -> bounds_ok sp ->
  zrange_emit z sp w = ((), with_out (range_reply (g_reply_proto (env w)) (withscores sp) (selected sp (members z)) (out w)) w).
Proof.
  intros Hz Hb. unfold zrange_emit. destruct (zrange_interval z sp) as [l h] eqn:Ei.
  fold (limit_window sp (if l <? h then h - l else 0)).
  destruct (limit_window sp _) as [n skip] eqn:El.
  destruct (walk_selected z sp l h n skip Hz Hb Ei El) as [Hwalk Hn].
  unfold mbind, state_bind, proto, gets, r_arr, reply, modify. rewrite emit_walk_run, Hwalk. unfold range_reply. by rewrite <- Hn.
Qed.

(** ** Opening a sorted set *)

Lemma zset_type e : type e = T_ZSET -> exists z, eval e = VZSet z.
Proof. unfold type. destruct (eval e); try done. by eexists. Qed.

Lemma entry_zset_run w k e z : ents (ks w) !! k = Some e -> eval e = VZSet z -> entry_zset k w = (z, w).
Proof. intros He Hz. unfold entry_zset, gets. by rewrite He, Hz. Qed.

Definition is_zset (o : option (AVal * option Z)) : bool :=
  match o with Some (AZSet _, _) | None => true | _ => false end.

(** The scores under a key (none when missing) and its deadline. *)
Definition zset_at (v : gmap bytes (AVal * option Z)) (k : bytes) : gmap bytes score * option Z :=
  match v !! k with Some (AZSet m, t) => (m, t) | _ => (∅, None) end.

(** The world after a lookup that found the sorted set [z]. *)
Definition has_zset (w : World) (k : bytes) (z : ZSet) : Prop :=
  exists e, holds_entry w k e /\ eval e = VZSet z /\ zset_ok z.

Lemma zset_read_run cmd msg missing found w w' :
  world_ok w -> zset_read cmd msg missing found w = ((), w') ->
  exists w1, world_ok w1 /\ view w1 = view w /\ quiet w w1 /\
  match view w !! argd cmd 1 with
  | None => missing w1 = ((), w')
  | Some (AZSet m, t) => exists z, has_zset w1 (argd cmd 1) z /\ scores z = m /\ found (argd cmd 1) w1 = ((), w')
  | Some _ => r_err msg w1 = ((), w')
  end.
Proof.
  intros Hw H. unfold zset_read, mbind, state_bind in H.
  destruct (lookup_entry (arg cmd 1) T_ZSET false false w) as [r w1] eqn:E.
  destruct (open_read _ _ _ _ _ Hw E) as (Hw1 & Hv & Hq & Hr). exists w1. split_and!; try done.
  change (s_data (arg cmd 1)) with (argd cmd 1) in Hr. destruct r as [k| |].
  - destruct Hr as (-> & e & t & He & Ht & ->). destruct (zset_type e Ht) as [z Hz].
    rewrite Hz. cbn [aval]. exists z. split_and!; try done. exists e. split_and!; try done.
    pose proof (holds_value _ _ _ He) as Hok. by rewrite Hz in Hok.
  - by rewrite Hr.
  - destruct Hr as (v & t & -> & Hty). by destruct v.
Qed.

Lemma zset_entry w k z : has_zset w k z -> entry_zset k w = (z, w).
Proof. intros (e & (_ & _ & _ & He) & Hz & _). by eapply entry_zset_run. Qed.

(** The index lookup reorganises the index and nothing else. *)
Lemma lookup_member_run w k z n :
  has_zset w k z ->
  exists z' w', lookup_member k n w = ((if decide (is_Some (scores z !! n)) then Some n else None, z'), w') /\
    has_zset w' k z' /\ root z' = root z /\ view w' = view w /\ quiet w w' /\ (world_ok w -> world_ok w').
Proof.
  intros Hh. pose proof Hh as (e & He & Hz & Hok). unfold lookup_member, mbind, state_bind. rewrite (zset_entry _ _ _ Hh).
  destruct (zset_lookup z n) as [r z'] eqn:E. destruct (zset_lookup_spec _ _ _ _ Hok E) as (Hok' & Hr & ->).
  assert (Hm : members z' = members z) by (unfold members; by rewrite Hr).
  destruct (peek_val w k e (VZSet z') He Hok') as (P1 & P2 & P3).
  { cbn [aval]. rewrite Hz. cbn [aval]. unfold scores. by rewrite Hm. }
  { unfold entry_mem_usage. cbn [ekey eval with_eval]. by rewrite Hz, (zok_bytes z Hok), (zok_bytes z' Hok'), Hm. }
  exists z', (with_ks (upd k (with_eval (VZSet z')) (ks w)) w). split_and!; try done.
  - rewrite (decide_ext (is_Some (scores z !! n)) (n ∈ name <$> members z)); [done|apply scores_member].
  - by exists (with_eval (VZSet z') e).
  - intros Hw. apply P3, Hw.
Qed.

Lemma same_root_scores z z' : root z' = root z -> scores z' = scores z /\ members z' = members z.
Proof. intros H. unfold scores, members. by rewrite H. Qed.

(** The node of a member. *)
Lemma znode_spec z n :
  zset_ok z ->
  match scores z !! n with
  | Some s => exists t p, znode_pos z n = Some (t, p) /\ znode z n = Some (mkZNode s n) /\
      stands z (avl_rank t p) (Some (t, p)) /\ members z !! Z.to_nat (avl_rank t p) = Some (mkZNode s n)
  | None => znode_pos z n = None
  end.
Proof.
  intros Hz. unfold znode, znode_pos. pose proof (node_at_spec n (root z) []) as Hs.
  destruct (node_at n (root z) []) as [[t p]|].
  - destruct Hs as (Hp & l & [s n'] & r & h & c & -> & Hn). cbn in Hn. subst n'. change (plug (root z) []) with (root z) in Hp.
    pose proof (index_lookup l (mkZNode s n) r h c p) as Hi. rewrite Hp in Hi. change (inorder (root z)) with (members z) in Hi.
    assert (scores z !! n = Some s) as ->.
    { apply scores_Some; [apply Hz|]. by eapply list_elem_of_lookup_2. }
    assert (Hr : avl_rank (Node l (mkZNode s n) r h c) p = Z.of_nat (index (Node l (mkZNode s n) r h c) p))
      by (apply avl_rank_spec; rewrite Hp; apply Hz).
    exists (Node l (mkZNode s n) r h c), p. rewrite Hr, Nat2Z.id. split_and!; try done.
  - apply scores_None in Hs. change (scores z !! n = None) in Hs. by rewrite Hs.
Qed.

(** ** Range requests *)

(** The request a command line spells, or the error it is refused with. *)
Definition range_request (cmd : list sstr) (sp : ZRangeSpec) (allow : Z) : bytes + ZRangeSpec :=
  match parse_zrange_opts (length cmd) (s_data <$> drop 4 cmd) allow sp with
  | inl err => inl err
  | inr sp => if has_limit sp && negb (by_score sp) then inl MSG_LIMIT else zrange_bounds sp (argd cmd 2) (argd cmd 3)
  end.

Lemma parse_opts_bounds fuel l allow sp sp' :
  parse_zrange_opts fuel l allow sp = inr sp' -> lo sp' = lo sp /\ hi sp' = hi sp.
Proof.
  revert l sp. induction fuel as [|f IH]; intros [|a l] sp; cbn [parse_zrange_opts]; try (by intros [= <-]).
  repeat case_match; try done; intros Hx; apply IH in Hx; done.
Qed.

Lemma zrange_bounds_ok sp a b sp' : zrange_bounds sp a b = inr sp' -> bounds_ok sp -> bounds_ok sp'.
Proof.
  assert (Hp : forall s v, parse_score_bound s = Some v -> not_nan v.1).
  { intros s v. unfold parse_score_bound. set (r := strtod _). destruct (_ && _) eqn:E; [|done]. intros [= <-].
    apply andb_true_iff in E as [_ E]. apply negb_true_iff, bool_decide_eq_false in E. exact E. }
  unfold zrange_bounds. destruct (by_score sp); cbn [negb].
  - destruct (parse_score_bound _) as [x|] eqn:E1; [|done]. destruct (parse_score_bound (if ZCommands.rev sp then a else b)) as [y|] eqn:E2; [|done].
    intros [= <-] _. split; cbn; eauto.
  - destruct (str2int a), (str2int b); try done. by intros [= <-].
Qed.

Lemma range_request_ok cmd bs rv allow sp : range_request cmd (spec0 bs rv) allow = inr sp -> bounds_ok sp.
Proof.
  unfold range_request. destruct (parse_zrange_opts _ _ _ _) as [|sp1] eqn:E; [done|]. apply parse_opts_bounds in E as [E1 E2].
  destruct (_ && _); [done|]. intros H. apply zrange_bounds_ok in H; [done|]. unfold bounds_ok. by rewrite E1, E2.
Qed.

(** Close a branch that only answers. *)
Ltac answers H w w1 rep := injection H as <-; apply (leaves_quiet w w1 rep); auto using quiet_refl with myred.

(** What a range command must leave. *)
Definition range_outcome (cmd : list sstr) (sp0 : ZRangeSpec) (allow : Z) (w w' : World) : Prop :=
  match range_request cmd sp0 allow with
  | inl err => leaves w w' (fun b => resp_err b err) (view w) 0
  | inr sp =>
      match view w !! argd cmd 1 with
      | None => leaves w w' (fun b => resp_arr b 0) (view w) 0
      | Some (AZSet m, _) =>
          leaves w w' (range_reply (g_reply_proto (env w)) (withscores sp) (selected sp (ranking m))) (view w) 0
      | Some _ => leaves w w' (fun b => resp_err b MSG_WRONGTYPE) (view w) 0
      end
  end.

Lemma zrange_leaves cmd bs rv allow w w' :
  world_ok w -> writes_ok w -> zrange_generic cmd (spec0 bs rv) allow w = ((), w') ->
  range_outcome cmd (spec0 bs rv) allow w w'.
Proof.
  intros Hw Hn H. pose proof (range_request_ok cmd bs rv allow) as Hb. unfold range_outcome, range_request, zrange_generic in *.
  destruct (parse_zrange_opts _ _ _ _) as [err|sp1]; [answers H w w (fun b => resp_err b err)|].
  destruct (has_limit sp1 && _); [answers H w w (fun b => resp_err b MSG_LIMIT)|].
  destruct (zrange_bounds sp1 _ _) as [err|sp]; [answers H w w (fun b => resp_err b err)|].
  specialize (Hb sp eq_refl). destruct (zset_read_run _ _ _ _ _ _ Hw H) as (w1 & W1 & V1 & Q1 & Hr).
  pose proof Q1 as (_ & _ & Qe).
  destruct (view w !! argd cmd 1) as [[v t]|]; [|answers Hr w w1 (fun b => resp_arr b 0)].
  destruct v as [|m| | |]; [answers Hr w w1 (fun b => resp_err b MSG_WRONGTYPE)| |answers Hr w w1 (fun b => resp_err b MSG_WRONGTYPE)..].
  destruct Hr as (z & Hz & <- & Hr). unfold mbind, state_bind in Hr. rewrite (zset_entry _ _ _ Hz) in Hr.
  destruct Hz as (_ & _ & _ & Hok). rewrite zrange_emit_run in Hr by done. rewrite ranking_members, <- Qe by done.
  answers Hr w w1 (range_reply (g_reply_proto (env w1)) (withscores sp) (selected sp (members z))).
Qed.

(** ** Point queries *)

(** The rank of a member, counted from the lowest score. *)
Definition rank_of (m : gmap bytes score) (n : bytes) : option Z :=
  (fun p => Z.of_nat p.1) <$> list_find (fun x => name x = n) (ranking m).

Lemma rank_found z n t p :
  zset_ok z -> znode_pos z n = Some (t, p) -> rank_of (scores z) n = Some (avl_rank t p).
Proof.
  intros Hz Hp. pose proof (znode_spec z n Hz) as Hs. destruct (scores z !! n) as [s|]; [|congruence].
  destruct Hs as (t' & p' & Hp' & _ & Hst & Hm). rewrite Hp in Hp'. injection Hp' as <- <-.
  unfold rank_of. rewrite ranking_members by done. destruct Hst as (_ & _ & Hi).
  assert (list_find (fun x => name x = n) (members z) = Some (Z.to_nat (avl_rank t p), mkZNode s n)) as ->.
  { apply list_find_Some. split_and!; try done. intros j y Hj Hlt Hn.
    assert (j = Z.to_nat (avl_rank t p)); [|lia].
    eapply (NoDup_lookup (name <$> members z)); [apply Hz|by rewrite list_lookup_fmap, Hj|].
    rewrite list_lookup_fmap, Hm. cbn. by rewrite Hn. }
  cbn. f_equal. lia.
Qed.

Lemma rank_absent z n : zset_ok z -> scores z !! n = None -> rank_of (scores z) n = None.
Proof.
  intros Hz Hn. unfold rank_of. rewrite ranking_members by done.
  assert (list_find (fun x => name x = n) (members z) = None) as ->; [|done].
  apply list_find_None, Forall_forall. intros x Hx Hxn. apply scores_name in Hn; [|done]. apply Hn.
  rewrite <- Hxn. by apply list_elem_of_fmap_2.
Qed.

(** What a query of one key answers: [found] on a sorted set, [none] without
    the key, the error [msg] on another type; nothing changes. *)
Definition queries (w w' : World) (k msg : bytes) (none : Buffer -> Buffer) (found : gmap bytes score -> Buffer -> Buffer) : Prop :=
  match view w !! k with
  | None => leaves w w' none (view w) 0
  | Some (AZSet m, _) => leaves w w' (found m) (view w) 0
  | Some _ => leaves w w' (fun b => resp_err b msg) (view w) 0
  end.

Lemma queries_intro cmd msg missing found none rep w w' :
  world_ok w -> writes_ok w -> zset_read cmd msg missing found w = ((), w') ->
  (forall w1, env w1 = env w -> missing w1 = ((), with_out (none (out w1)) w1)) ->
  (forall b, wf b -> wf (none b)) -> (forall m b, wf b -> wf (rep m b)) ->
  (forall w1 z, world_ok w1 -> env w1 = env w -> has_zset w1 (argd cmd 1) z ->
     exists w2, world_ok w2 /\ view w2 = view w1 /\ quiet w1 w2 /\
       found (argd cmd 1) w1 = ((), with_out (rep (scores z) (out w2)) w2)) ->
  queries w w' (argd cmd 1) msg none rep.
Proof.
  intros Hw Hn H Hmiss Hnone Hrep Hfound. unfold queries.
  destruct (zset_read_run _ _ _ _ _ _ Hw H) as (w1 & W1 & V1 & Q1 & Hr). pose proof Q1 as (_ & _ & Qe).
  destruct (view w !! argd cmd 1) as [[v t]|].
  2:{ rewrite Hmiss in Hr by done. answers Hr w w1 none. }
  destruct v as [|m| | |]; [answers Hr w w1 (fun b => resp_err b msg)| |answers Hr w w1 (fun b => resp_err b msg)..].
  destruct Hr as (z & Hz & <- & Hr). destruct (Hfound w1 z W1 Qe Hz) as (w2 & W2 & V2 & Q2 & Hf). rewrite Hf in Hr.
  injection Hr as <-. apply (leaves_quiet w w2 (rep (scores z))); auto; [by rewrite V2|by eapply quiet_trans].
Qed.

(** A query that looks a member up first. *)
Lemma member_query k n w z (body : option bytes * ZSet -> M ()) (rep : Buffer -> Buffer) :
  world_ok w -> has_zset w k z ->
  (forall z', zset_ok z' -> root z' = root z -> forall w2, env w2 = env w ->
     body (if decide (is_Some (scores z !! n)) then Some n else None, z') w2 = ((), with_out (rep (out w2)) w2)) ->
  exists w2, world_ok w2 /\ view w2 = view w /\ quiet w w2 /\
    (r ← lookup_member k n; body r) w = ((), with_out (rep (out w2)) w2).
Proof.
  intros Hw Hz Hb. destruct (lookup_member_run w k z n Hz) as (z' & w2 & E & Hz' & Hr & V & Q & W).
  exists w2. split_and!; auto. unfold mbind, state_bind. rewrite E. destruct Hz' as (_ & _ & _ & Hok).
  apply Hb; try done. apply Q.
Qed.

(** A reply that depends on whether the member is there. *)
Definition opt_reply {A} (p : Z) (f : A -> Buffer -> Buffer) (o : option A) (b : Buffer) : Buffer :=
  match o with Some a => f a b | None => resp_nil p b end.

Lemma wf_opt_reply {A} p (f : A -> Buffer -> Buffer) o b : (forall a b, wf b -> wf (f a b)) -> wf b -> wf (opt_reply p f o b).
Proof. intros Hf Hb. destruct o; cbn; auto with myred. Qed.

Lemma do_zscore_queries cmd w w' :
  world_ok w -> writes_ok w -> do_zscore cmd w = ((), w') ->
  let p := g_reply_proto (env w) in
  queries w w' (argd cmd 1) MSG_WRONGTYPE_SHORT (resp_nil p) (fun m => opt_reply p (fun s b => resp_dbl p b s) (m !! argd cmd 2)).
Proof.
  intros Hw Hn H p. refine (queries_intro _ _ _ _ _ _ _ _ Hw Hn H _ _ _ _); [intros w1 E1; unfold r_nil, reply_p, modify; by rewrite E1|auto with myred|intros; apply wf_opt_reply; auto with myred|].
  intros w1 z W1 E1 Hz. apply (member_query _ _ _ z (fun '(r, z) => match r ≫= znode z with Some zn => r_dbl (score_of zn) | None => r_nil end)); [done..|]. intros z' Hz' Hr w2 E2.
  destruct (same_root_scores _ _ Hr) as [Hs _]. pose proof (znode_spec z' (argd cmd 2) Hz') as Hs'. rewrite Hs in Hs'.
  destruct (scores z !! argd cmd 2) as [s|] eqn:E.
  - destruct Hs' as (t & q & _ & Hx & _). rewrite decide_True by by eexists. cbn [mbind option_bind]. rewrite Hx. cbn [score_of opt_reply].
    unfold r_dbl, reply_p, modify. by rewrite E2, E1.
  - rewrite decide_False by by intros []. cbn. unfold r_nil, reply_p, modify. by rewrite E2, E1.
Qed.

Lemma do_rank_queries (cmd : list sstr) (msg : bytes) (w w' : World) (f : ZSet -> Z -> Z) (g : gmap bytes score -> Z -> Z) :
  (forall z r, zset_ok z -> f z r = g (scores z) r) ->
  world_ok w -> writes_ok w ->
  zset_read cmd msg r_nil (fun ent =>
    '(r, z) ← lookup_member ent (argd cmd 2);
    match r ≫= znode_pos z with Some (t, p) => r_int (f z (avl_rank t p)) | None => r_nil end) w = ((), w') ->
  let p := g_reply_proto (env w) in
  queries w w' (argd cmd 1) msg (resp_nil p) (fun m => opt_reply p (fun i b => resp_int b (g m i)) (rank_of m (argd cmd 2))).
Proof.
  intros Hfg Hw Hn H p. refine (queries_intro _ _ _ _ _ _ _ _ Hw Hn H _ _ _ _); [intros w1 E1; unfold r_nil, reply_p, modify; by rewrite E1|auto with myred|intros; apply wf_opt_reply; auto with myred|].
  intros w1 z W1 E1 Hz. apply (member_query _ _ _ z (fun '(r, z) => match r ≫= znode_pos z with Some (t, p) => r_int (f z (avl_rank t p)) | None => r_nil end)); [done..|]. intros z' Hz' Hr w2 E2.
  destruct (same_root_scores _ _ Hr) as [Hs _]. rewrite <- Hs. pose proof (znode_spec z' (argd cmd 2) Hz') as Hs'.
  destruct (scores z' !! argd cmd 2) as [s|] eqn:E.
  - destruct Hs' as (t & q & Hp & _). rewrite decide_True by by eexists. cbn [mbind option_bind]. rewrite Hp, (rank_found _ _ _ _ Hz' Hp), Hfg by done. done.
  - rewrite decide_False by by intros []. rewrite rank_absent by done. cbn. unfold r_nil, reply_p, modify. by rewrite E2, E1.
Qed.

Lemma do_zcard_queries cmd w w' :
  world_ok w -> writes_ok w -> do_zcard cmd w = ((), w') ->
  queries w w' (argd cmd 1) MSG_WRONGTYPE (fun b => resp_int b 0) (fun m b => resp_int b (Z.of_nat (base.size m))).
Proof.
  intros Hw Hn H. refine (queries_intro _ _ _ _ _ _ _ _ Hw Hn H _ _ _ _); [done|auto with myred..|].
  intros w1 z W1 E1 Hz. exists w1. split_and!; try done. unfold mbind, state_bind. rewrite (zset_entry _ _ _ Hz).
  destruct Hz as (_ & _ & _ & Hz). rewrite avl_cnt_length, <- length_ranking by apply Hz. done.
Qed.

Lemma do_zcount_queries cmd w w' :
  world_ok w -> writes_ok w -> do_zcount cmd w = ((), w') ->
  match zrange_bounds (spec0 true false) (argd cmd 2) (argd cmd 3) with
  | inl err => leaves w w' (fun b => resp_err b err) (view w) 0
  | inr sp => queries w w' (argd cmd 1) MSG_WRONGTYPE (fun b => resp_int b 0)
                (fun m b => resp_int b (Z.of_nat (length (filter (fun x => between sp x = true) (ranking m)))))
  end.
Proof.
  intros Hw Hn H. unfold do_zcount in H. destruct (zrange_bounds _ _ _) as [err|sp] eqn:Eb; [answers H w w (fun b => resp_err b err)|].
  refine (queries_intro _ _ _ _ _ _ _ _ Hw Hn H _ _ _ _); [done|auto with myred..|].
  intros w1 z W1 E1 Hz. exists w1. split_and!; try done. unfold mbind, state_bind. rewrite (zset_entry _ _ _ Hz).
  destruct Hz as (_ & _ & _ & Hz). pose proof (zrange_bounds_ok _ _ _ _ Eb ltac:(done)) as Hb.
  assert (Hbs : by_score sp = true).
  { unfold zrange_bounds in Eb. cbn in Eb. repeat case_match; try done. by injection Eb as <-. }
  unfold zrange_interval. rewrite Hbs. destruct (filter_between z sp Hz Hb) as (Hf & Hl & Hh). cbn zeta in *.
  rewrite ranking_members by done. rewrite Hf. unfold slice. rewrite length_take, length_drop.
  set (l := zset_count_below z (lo sp) _) in *. set (h := zset_count_below z (hi sp) _) in *.
  replace (if l <? h then h - l else 0) with (Z.of_nat ((Z.to_nat h - Z.to_nat l) `min` (length (members z) - Z.to_nat l)))
    by (destruct (l <? h) eqn:E; bool_facts; lia). done.
Qed.

(** ** ZADD and ZINCRBY *)

Lemma str2dbl_no_nan s v : str2dbl s = Some v -> not_nan v.
Proof.
  unfold str2dbl. destruct s as [|c s]; [done|]. cbn [str2float]. set (r := strto _ _). repeat case_match; try done. intros [= <-].
  rename select (bool_decide (sd_val r = S754_nan) = false) into Hb. by apply bool_decide_eq_false in Hb.
Qed.

(** One addition: an equal score keeps the old one. *)
Definition put_score (m : gmap bytes score) (a : score * bytes) : gmap bytes score := (scores_op m (ZAdd a.2 a.1)).2.

(** Whether a step of a sequence of additions changes the map. *)
Fixpoint changes (m : gmap bytes score) (l : list (score * bytes)) : bool :=
  match l with
  | [] => false
  | a :: l' => bool_decide (put_score m a <> m) || changes (put_score m a) l'
  end.

Definition score_args (l : list (sstr * sstr)) : list (score * bytes) :=
  (fun p => (default (S754_zero false) (str2dbl (s_data p.1)), s_data p.2)) <$> l.

Lemma put_score_old m n s s0 : m !! n = Some s0 -> put_score m (s, n) = if SFeqb s0 s then m else <[n := s]> m.
Proof. intros H. unfold put_score. cbn. by rewrite H. Qed.

Lemma put_score_new m n s : m !! n = None -> put_score m (s, n) = <[n := s]> m.
Proof. intros H. unfold put_score. cbn. by rewrite H. Qed.

Lemma SFeqb_refl s : not_nan s -> SFeqb s s = true.
Proof. intros H. by apply place_of_eqb. Qed.

Lemma size_put_score m a : base.size (put_score m a) = (base.size m + if decide (is_Some (m !! a.2)) then 0 else 1)%nat.
Proof.
  unfold put_score, scores_op. destruct (m !! a.2) as [s0|] eqn:E; cbn [snd].
  - rewrite decide_True by by eexists. destruct (SFeqb s0 a.1); [lia|]. rewrite map_size_insert_Some; [lia|by eexists].
  - rewrite decide_False by by intros []. rewrite map_size_insert_None by done. lia.
Qed.

Lemma zadd_loop_spec l z a c z' a' c' :
  zset_ok z -> Forall (fun p => is_Some (str2dbl (s_data p.1))) l -> zadd_loop z a c l = (z', a', c') ->
  zset_ok z' /\ scores z' = foldl put_score (scores z) (score_args l) /\
  a' = a + Z.of_nat (base.size (scores z')) - Z.of_nat (base.size (scores z)) /\
  c' = c || changes (scores z) (score_args l).
Proof.
  revert z a c. induction l as [|[sc m] l IH]; intros z a c Hz Hl H.
  { injection H as <- <- <-. split_and!; [done..|lia|]. by rewrite orb_false_r. }
  apply Forall_cons in Hl as [[s Hs] Hl]. cbn [fst] in Hs. cbn [zadd_loop] in H. rewrite Hs in H. cbn [from_option id] in H.
  pose proof (str2dbl_no_nan _ _ Hs) as Hnn.
  destruct (zset_lookup z (s_data m)) as [r z1] eqn:E. destruct (zset_lookup_spec _ _ _ _ Hz E) as (Hz1 & Hr & ->).
  destruct (same_root_scores _ _ Hr) as [Hsc Hm].
  unfold score_args. cbn [fmap list_fmap fst snd foldl changes]. rewrite Hs. cbn [from_option id]. fold (score_args l).
  pose proof (size_put_score (scores z) (s, s_data m)) as Hsz. cbn [snd] in Hsz. pose proof (scores_member z (s_data m)) as Hmem.
  remember (put_score (scores z) (s, s_data m)) as m1 eqn:Em1.
  assert (Hstep : forall z2 a2 c2, zset_ok z2 -> scores z2 = m1 ->
    a2 = a + Z.of_nat (base.size m1) - Z.of_nat (base.size (scores z)) -> c2 = c || bool_decide (m1 <> scores z) ->
    zadd_loop z2 a2 c2 l = (z', a', c') ->
    zset_ok z' /\ scores z' = foldl put_score m1 (score_args l) /\
    a' = a + Z.of_nat (base.size (scores z')) - Z.of_nat (base.size (scores z)) /\
    c' = c || (bool_decide (m1 <> scores z) || changes m1 (score_args l))).
  { intros z2 a2 c2 Hz2 Hs2 -> -> Hl2. destruct (IH z2 _ _ Hz2 Hl Hl2) as (K1 & K2 & -> & ->). rewrite Hs2 in *.
    split_and!; [done..|lia|]. by rewrite orb_assoc. }
  destruct (decide (s_data m ∈ name <$> members z)) as [Hin|Hin].
  - destruct (proj2 Hmem Hin) as [s0 Hs0]. pose proof (znode_spec z1 (s_data m) Hz1) as Hn. rewrite Hsc, Hs0 in Hn.
    destruct Hn as (t & q & _ & Hx & _). rewrite Hx in H. cbn [score_of] in H.
    destruct (zset_update_spec z1 (s_data m) s Hz1 Hnn) as (U1 & s1 & U2 & U3); [by rewrite Hm|].
    rewrite Hsc, Hs0 in U2. injection U2 as <-. rewrite decide_True in Hsz by by eexists.
    rewrite (put_score_old _ _ _ _ Hs0) in Em1. destruct (SFeqb s0 s) eqn:Eq; cbn [negb] in H.
    + apply (Hstep z1 a c); try done; [congruence|lia|]. rewrite bool_decide_eq_false_2 by tauto. by rewrite orb_false_r.
    + apply (Hstep (zset_update z1 (s_data m) s) a true); try done; [by rewrite U3, Hsc|lia|].
      rewrite bool_decide_eq_true_2; [by rewrite orb_true_r|]. rewrite Em1. intros Heq. apply (f_equal (lookup (s_data m))) in Heq.
      rewrite lookup_insert_eq, Hs0 in Heq. injection Heq as ->. by rewrite SFeqb_refl in Eq.
  - assert (Hs0 : scores z !! s_data m = None) by by apply scores_name.
    destruct (zset_insert z1 (s_data m) s) as [b z2] eqn:Ei. destruct (zset_insert_spec _ _ _ _ _ Hz1 Hnn Ei) as (I1 & _ & I2).
    rewrite Hsc, Hs0 in I2. rewrite decide_False in Hsz by (rewrite Hs0; by intros []). rewrite (put_score_new _ _ _ Hs0) in Em1.
    apply (Hstep z2 (a + 1) true); try done; [congruence|lia|]. rewrite bool_decide_eq_true_2; [by rewrite orb_true_r|].
    rewrite Em1. intros Heq. apply (f_equal (lookup (s_data m))) in Heq. by rewrite lookup_insert_eq, Hs0 in Heq.
Qed.

(** The sorted set written back into an entry just opened, already charged or new. *)
Lemma zset_commit w w1 k e z' t (c : bool) rep fin w' :
  holds_entry w1 k e -> quiet w w1 -> writes_ok w -> wf (out w) -> zset_ok z' ->
  view w1 = <[k := (aval (eval e), t)]> (view w) ->
  (c = false -> world_ok w1 /\ AZSet (scores z') = aval (eval e) /\ entry_mem_usage (with_eval (VZSet z') e) = entry_mem_usage e) ->
  (forall x, env x = env w -> fin x = ((), with_out (rep (out x)) x)) -> (forall b, wf b -> wf (rep b)) ->
  (put_zset k z' ;; (if c then reaccount k ;; dirty 1 else mret ()) ;; fin) w1 = ((), w') ->
  leaves w w' rep (<[k := (AZSet (scores z'), t)]> (view w)) (if c then 1 else 0).
Proof.
  intros He Hq Hn Hwf Hok Hv1 Hz Hfin Hrep H. pose proof Hq as (_ & _ & Qe). unfold mbind, state_bind in H. destruct c.
  - cbn in H. rewrite Hfin in H by (cbn; done). injection H as <-.
    destruct (commit_val w1 k e (VZSet z') (aval (eval e)) t He Hok) as [C1 C2]; [rewrite Hv1; apply lookup_insert_eq|].
    apply (leaves_changed w (with_ks _ w1) rep); [done| |done|done|done]. rewrite C2, Hv1, insert_insert_eq. done.
  - cbn in H. rewrite Hfin in H by (cbn; done). injection H as <-. destruct (Hz eq_refl) as (Hw1 & Ha & Hm).
    destruct (peek_val w1 k e (VZSet z') He Hok Ha Hm) as (_ & P2 & P3).
    replace (<[k := (AZSet (scores z'), t)]> (view w)) with (view w1) by (by rewrite Ha).
    apply (leaves_reply w (with_ks _ w1) rep); try done; [apply P3, Hw1|]. apply Hrep, Hw1.
Qed.

Lemma zset_usage z z' e :
  zset_ok z -> zset_ok z' -> eval e = VZSet z -> scores z' = scores z ->
  entry_mem_usage (with_eval (VZSet z') e) = entry_mem_usage e.
Proof.
  intros Hz Hz' He Hs. unfold entry_mem_usage. cbn [ekey eval with_eval].
  rewrite He, (zok_bytes z Hz), (zok_bytes z' Hz'), <- (ranking_members z Hz), <- (ranking_members z' Hz'). by rewrite Hs.
Qed.

Lemma changes_none m l : changes m l = false -> foldl put_score m l = m.
Proof.
  revert m. induction l as [|a l IH]; intros m H; [done|]. cbn [changes foldl] in *.
  apply orb_false_iff in H as [H1 H2]. apply bool_decide_eq_false in H1. apply dec_stable in H1. rewrite H1 in *. by apply IH.
Qed.

(** Opening a key for writing: what the entry holds. *)
Lemma open_zset w key r w1 :
  world_ok w -> room w -> lookup_entry key T_ZSET true false w = (r, w1) ->
  quiet w w1 /\
  match r with
  | LOK k => k = s_data key /\ is_zset (view w !! k) = true /\
      exists e z t, holds_entry w1 k e /\ eval e = VZSet z /\ zset_ok z /\ zset_at (view w) k = (scores z, t) /\
        view w1 = <[k := (aval (eval e), t)]> (view w) /\ (scores z <> ∅ -> world_ok w1) /\
        (is_Some (view w !! k) -> view w1 = view w /\ world_ok w1)
  | LMISSING => False
  | LWRONGTYPE => world_ok w1 /\ view w1 = view w /\ is_zset (view w !! s_data key) = false
  end.
Proof.
  intros Hw Hroom E. destruct (open_create _ _ _ _ _ Hw Hroom E) as [Hq Hr]. split; [done|]. destruct r as [k| |]; [|done|].
  - destruct Hr as (-> & e & t & He & Ht & Hv1 & Hwas). destruct (zset_type e Ht) as [z Hz].
    split; [done|]. pose proof (holds_value _ _ _ He) as Hok. rewrite Hz in Hok, Hwas. cbn [aval] in Hwas. unfold zset_at.
    destruct (view w !! s_data key) as [x|] eqn:Ek.
    + destruct Hwas as (-> & Hvw & Hw1). split; [done|]. by exists e, z, t.
    + destruct Hwas as [Hf ->]. cbn in Hf. injection Hf as Hf. split; [done|]. exists e, z, None.
      split_and!; try done; by rewrite Hf.
  - destruct Hr as (Hw1 & Hv & v & t & Hk & Hty). split_and!; try done. rewrite Hk. by destruct v.
Qed.

Lemma changes_fresh a l : changes ∅ (a :: l) = true.
Proof.
  cbn [changes]. apply orb_true_iff. left. apply bool_decide_eq_true. unfold put_score, scores_op. rewrite lookup_empty. cbn.
  apply insert_non_empty.
Qed.

(** What ZADD must leave. *)
Definition zadd_outcome (cmd : list sstr) (w w' : World) : Prop :=
  let k := argd cmd 1 in
  let pairs := pairs_of (drop 2 cmd) in
  if (length cmd <? 4)%nat || negb (Nat.even (length cmd)) then leaves w w' (fun b => resp_err b MSG_ZADD_ARITY) (view w) 0
  else if existsb (fun p => bool_decide (str2dbl (s_data p.1) = None)) pairs then leaves w w' (fun b => resp_err b MSG_NOT_FLOAT) (view w) 0
  else if is_zset (view w !! k) then
    let m := (zset_at (view w) k).1 in
    let m' := foldl put_score m (score_args pairs) in
    leaves w w' (fun b => resp_int b (Z.of_nat (base.size m') - Z.of_nat (base.size m)))
      (<[k := (AZSet m', (zset_at (view w) k).2)]> (view w)) (if changes m (score_args pairs) then 1 else 0)
  else leaves w w' (fun b => resp_err b MSG_WRONGTYPE_SHORT) (view w) 0.

Lemma do_zadd_leaves cmd w w' :
  world_ok w -> writes_ok w -> room w -> do_zadd cmd w = ((), w') ->
  zadd_outcome cmd w w'.
Proof.
  intros Hw Hn Hroom H. unfold zadd_outcome. set (k := argd cmd 1). set (pairs := pairs_of (drop 2 cmd)). cbn zeta. unfold do_zadd in H. fold pairs in H.
  destruct (_ || _) eqn:Ea; [answers H w w (fun b => resp_err b MSG_ZADD_ARITY)|].
  destruct (existsb _ pairs) eqn:Ef; [answers H w w (fun b => resp_err b MSG_NOT_FLOAT)|].
  unfold mbind at 1, state_bind at 1 in H. destruct (lookup_entry (arg cmd 1) T_ZSET true false w) as [r w1] eqn:E.
  destruct (open_zset _ _ _ _ Hw Hroom E) as [Hq Hr]. destruct r as [k'| |]; [|done|].
  2:{ destruct Hr as (W1 & V1 & Hz). change (s_data (arg cmd 1)) with k in Hz. rewrite Hz. answers H w w1 (fun b => resp_err b MSG_WRONGTYPE_SHORT). }
  destruct Hr as (-> & Hz & e & z & t & He & Hez & Hok & Hat & Hv1 & Hw1 & _). change (s_data (arg cmd 1)) with k in *.
  rewrite Hz, Hat. cbn [fst snd]. unfold mbind at 1, state_bind at 1 in H. rewrite (entry_zset_run w1 _ e z (proj2 (proj2 (proj2 He))) Hez) in H.
  destruct (zadd_loop z 0 false pairs) as [[z' a'] c'] eqn:El.
  assert (Hl : Forall (fun p => is_Some (str2dbl (s_data p.1))) pairs).
  { apply Forall_forall. intros p Hp. destruct (str2dbl (s_data p.1)) as [v|] eqn:Ep; [by eexists|]. exfalso.
    assert (Hx : existsb (fun p => bool_decide (str2dbl (s_data p.1) = None)) pairs = true); [|congruence].
    apply existsb_exists. exists p. split; [by apply list_elem_of_In|by apply bool_decide_eq_true]. }
  destruct (zadd_loop_spec _ _ _ _ _ _ _ Hok Hl El) as (Hok' & Hs' & Ha' & Hc'). rewrite orb_false_l in Hc'. rewrite <- Hs'.
  replace (Z.of_nat (base.size (scores z')) - Z.of_nat (base.size (scores z))) with a' by lia.
  rewrite <- Hc'. refine (zset_commit w w1 k e z' t c' _ (r_int a') w' He Hq Hn (proj2 (proj2 Hw)) Hok' Hv1 _ _ _ H); [|done|auto with myred].
  intros ->. symmetry in Hc'. pose proof (changes_none _ _ Hc') as Hsame. rewrite <- Hs' in Hsame.
  split_and!; [|by rewrite Hez; cbn; rewrite Hsame|by apply (zset_usage z)].
  apply Hw1. intros He0. rewrite He0 in Hc'. destruct pairs as [|p pairs'] eqn:Ep; [|unfold score_args in Hc'; cbn [fmap list_fmap] in Hc'; by rewrite changes_fresh in Hc'].
  subst pairs. apply orb_false_iff in Ea as [Ea _]. apply Nat.ltb_ge in Ea.
  destruct cmd as [|? [|? [|? [|? ?]]]]; cbn in Ea; try lia. done.
Qed.

(** The score ZINCRBY leaves. *)
Definition incremented (m : gmap bytes score) (n : bytes) (incr : score) : score :=
  match m !! n with Some s => SFadd 53 1024 s incr | None => incr end.

(** What ZINCRBY must leave. *)
Definition zincrby_outcome (cmd : list sstr) (w w' : World) : Prop :=
  let k := argd cmd 1 in
  let n := argd cmd 3 in
  match str2dbl (argd cmd 2) with
  | None => leaves w w' (fun b => resp_err b MSG_NOT_FLOAT) (view w) 0
  | Some incr =>
      if is_zset (view w !! k) then
        let m := (zset_at (view w) k).1 in
        let s := incremented m n incr in
        if bool_decide (s = S754_nan) then leaves w w' (fun b => resp_err b MSG_NAN) (view w) 0
        else leaves w w' (fun b => resp_dbl (g_reply_proto (env w)) b s)
               (<[k := (AZSet (put_score m (s, n)), (zset_at (view w) k).2)]> (view w)) 1
      else leaves w w' (fun b => resp_err b MSG_WRONGTYPE) (view w) 0
  end.

Lemma do_zincrby_leaves cmd w w' :
  world_ok w -> writes_ok w -> room w -> do_zincrby cmd w = ((), w') ->
  zincrby_outcome cmd w w'.
Proof.
  intros Hw Hn Hroom H. unfold zincrby_outcome. set (k := argd cmd 1). set (n := argd cmd 3). cbn zeta. unfold do_zincrby in H. fold n in H.
  destruct (str2dbl (argd cmd 2)) as [incr|] eqn:Ei; [|answers H w w (fun b => resp_err b MSG_NOT_FLOAT)].
  pose proof (str2dbl_no_nan _ _ Ei) as Hnn.
  unfold mbind at 1, state_bind at 1 in H. destruct (lookup_entry (arg cmd 1) T_ZSET true false w) as [r w1] eqn:E.
  destruct (open_zset _ _ _ _ Hw Hroom E) as [Hq Hr]. destruct r as [k'| |]; [|done|].
  2:{ destruct Hr as (W1 & V1 & Hz). change (s_data (arg cmd 1)) with k in Hz. rewrite Hz. answers H w w1 (fun b => resp_err b MSG_WRONGTYPE). }
  destruct Hr as (-> & Hz & e & z & t & He & Hez & Hok & Hat & Hv1 & Hw1 & Hwas). change (s_data (arg cmd 1)) with k in *.
  rewrite Hz, Hat. cbn [fst snd].
  destruct (lookup_member_run w1 k z n ltac:(by exists e)) as (z1 & w2 & El & Hz1 & Hroot & V2 & Q2 & W2).
  unfold mbind at 1, state_bind at 1 in H. rewrite El in H. destruct Hz1 as (e1 & He1 & Hez1 & Hok1).
  destruct (same_root_scores _ _ Hroot) as [Hsc Hm]. pose proof (znode_spec z1 n Hok1) as Hx. rewrite Hsc in Hx.
  pose proof (quiet_trans _ _ _ Hq Q2) as Q.
  assert (Hscore : match (if decide (is_Some (scores z !! n)) then Some n else None) ≫= znode z1 with
    Some zn => SFadd 53 1024 (score_of zn) incr | None => incr end = incremented (scores z) n incr).
  { unfold incremented. destruct (scores z !! n) as [s0|].
    - destruct Hx as (? & ? & _ & Hx & _). rewrite decide_True by by eexists. cbn. by rewrite Hx.
    - by rewrite decide_False by by intros []. }
  rewrite Hscore in H. set (s := incremented (scores z) n incr) in *. case_bool_decide as Hnan.
  - assert (Hsome : scores z !! n <> None) by (subst s; unfold incremented in Hnan; intros Hx0; rewrite Hx0 in Hnan; done).
    assert (HwW : world_ok w2). { apply W2, Hw1. intros He0. by rewrite He0, lookup_empty in Hsome. }
    assert (view w2 = view w).
    { rewrite V2, Hv1. apply insert_id. unfold zset_at in Hat. rewrite Hez. cbn [aval].
      destruct (view w !! k) as [[[] t0]|]; try done; injection Hat as Hat1 Hat2; [by rewrite Hat1, Hat2|]. by rewrite <- Hat1, lookup_empty in Hsome. }
    answers H w w2 (fun b => resp_err b MSG_NAN).
  - set (zf := match _ with Some n0 => zset_update z1 n0 s | None => _ end) in H.
    assert (Hzf : zset_ok zf /\ scores zf = put_score (scores z) (s, n)).
    { subst zf. destruct (scores z !! n) as [s0|] eqn:Es.
      - rewrite decide_True by by eexists. destruct (zset_update_spec z1 n s Hok1 Hnan) as (U1 & s1 & U2 & U3).
        { rewrite Hm. apply scores_member. by rewrite Es. }
        rewrite Hsc, Es in U2. injection U2 as <-. split; [done|]. by rewrite U3, Hsc, (put_score_old _ _ _ _ Es).
      - rewrite decide_False by by intros []. destruct (zset_insert z1 n s) as [b z2] eqn:Ez.
        destruct (zset_insert_spec _ _ _ _ _ Hok1 Hnan Ez) as (I1 & _ & I2). rewrite Hsc, Es in I2. split; [done|]. by rewrite (put_score_new _ _ _ Es). }
    destruct Hzf as [Hok2 Hs2]. rewrite <- Hs2.
    apply (zset_commit w w2 k e1 zf t true (fun b => resp_dbl (g_reply_proto (env w)) b s) (r_dbl s) w'); try done.
    + apply Hw.
    + rewrite V2, Hv1, Hez, Hez1. cbn [aval]. by rewrite Hsc.
    + intros x Hx0. unfold r_dbl, reply_p, modify. by rewrite Hx0.
    + auto with myred.
Qed.

(** ** Removals *)

(** The end of a removal: the write is counted, an emptied key goes. *)
Definition closed (w : World) (k : bytes) (z : ZSet) (rep : Buffer -> Buffer) : World :=
  let s := upd k (with_eval (VZSet z)) (ks w) in
  mkWorld (if (hm_size (hmap z) =? 0)%nat then remove_key (now (env w)) k s else mem_reaccount k s)
    (u32 (writes w + 1)) (rng w) (rep (out w)) (env w).

Definition shrunk (v : gmap bytes (AVal * option Z)) (k : bytes) (m : gmap bytes score) (t : option Z) : gmap bytes (AVal * option Z) :=
  if decide (m = ∅) then delete k v else <[k := (AZSet m, t)]> v.

Lemma closed_leaves w w1 k z z' t rep :
  world_ok w1 -> view w1 = view w -> quiet w w1 -> wf (out w) -> has_zset w1 k z -> zset_ok z' ->
  view w !! k = Some (AZSet (scores z), t) -> (forall b, wf b -> wf (rep b)) ->
  leaves w (closed w1 k z' rep) rep (shrunk (view w) k (scores z') t) 1.
Proof.
  intros W1 V1 Q1 Hwf (e & He & Hez & Hok) Hok' Hk Hrep. unfold closed, shrunk. rewrite zset_size by done.
  destruct (decide (scores z' = ∅)) as [Hs|Hs].
  - rewrite Hs, map_size_empty. cbn [Nat.eqb]. destruct (drop_val w1 k e (VZSet z') He Hok') as [D1 D2].
    apply (leaves_changed w (with_ks _ w1) rep); try done. etrans; [exact D2|by rewrite V1].
  - rewrite (proj2 (Nat.eqb_neq _ _)) by (by rewrite map_size_empty_iff).
    destruct (commit_val w1 k e (VZSet z') _ t He Hok' ltac:(by rewrite V1)) as [C1 C2].
    apply (leaves_changed w (with_ks _ w1) rep); try done. etrans; [exact C2|by rewrite V1].
Qed.

(** What ZREM must leave. *)
Definition zrem_outcome (cmd : list sstr) (w w' : World) : Prop :=
  let k := argd cmd 1 in
  match view w !! k with
  | None => leaves w w' (fun b => resp_int b 0) (view w) 0
  | Some (AZSet m, t) =>
      if decide (is_Some (m !! argd cmd 2)) then leaves w w' (fun b => resp_int b 1) (shrunk (view w) k (delete (argd cmd 2) m) t) 1
      else leaves w w' (fun b => resp_int b 0) (view w) 0
  | Some _ => leaves w w' (fun b => resp_err b MSG_WRONGTYPE_SHORT) (view w) 0
  end.

Lemma do_zrem_leaves cmd w w' :
  world_ok w -> writes_ok w -> do_zrem cmd w = ((), w') ->
  zrem_outcome cmd w w'.
Proof.
  intros Hw Hn H. unfold zrem_outcome. set (k := argd cmd 1). cbn zeta. destruct (zset_read_run _ _ _ _ _ _ Hw H) as (w1 & W1 & V1 & Q1 & Hr). fold k in Hr.
  destruct (view w !! k) as [[v t]|] eqn:Ek; [|answers Hr w w1 (fun b => resp_int b 0)].
  destruct v as [|m| | |]; [answers Hr w w1 (fun b => resp_err b MSG_WRONGTYPE_SHORT)| |answers Hr w w1 (fun b => resp_err b MSG_WRONGTYPE_SHORT)..].
  destruct Hr as (z & Hz & <- & Hr). set (n := argd cmd 2) in *.
  destruct (lookup_member_run w1 k z n Hz) as (z1 & w2 & El & Hz1 & Hroot & V2 & Q2 & W2).
  unfold mbind at 1, state_bind at 1 in Hr. rewrite El in Hr. pose proof (quiet_trans _ _ _ Q1 Q2) as Q.
  destruct (same_root_scores _ _ Hroot) as [Hsc Hm]. pose proof Hz1 as (_ & _ & _ & Hok1). specialize (W2 W1).
  rewrite V1 in V2. destruct (decide (is_Some (scores z !! n))) as [Hin|Hin]; [|answers Hr w w2 (fun b => resp_int b 0)].
  destruct (zset_delete_spec z1 n Hok1) as [D1 D2]; [by apply scores_member; rewrite Hsc|]. rewrite <- Hsc, <- D2.
  assert (w' = closed w2 k (zset_delete z1 n) (fun b => resp_int b 1)) as ->.
  { unfold close_zset in Hr. unfold closed. destruct (hm_size _ =? 0)%nat; by injection Hr as <-. }
  apply (closed_leaves w w2 k z1); try done; [apply Hw|by rewrite Hsc|auto with myred].
Qed.

Lemma zset_delete_all l z :
  zset_ok z -> NoDup l -> (forall n, n ∈ l -> is_Some (scores z !! n)) ->
  zset_ok (foldl zset_delete z l) /\ scores (foldl zset_delete z l) = drop_keys l (scores z).
Proof.
  revert z. induction l as [|n l IH]; intros z Hz Hnd Hl; [done|]. apply NoDup_cons in Hnd as [Hn Hnd]. cbn [foldl drop_keys].
  destruct (zset_delete_spec z n Hz) as [D1 D2]; [apply scores_member, Hl; by left|].
  destruct (IH (zset_delete z n) D1 Hnd) as [I1 I2].
  { intros x Hx. rewrite D2, lookup_delete_ne; [apply Hl; by right|]. by intros ->. }
  by rewrite I2, D2.
Qed.

(** What ZREMRANGEBYSCORE and ZREMRANGEBYRANK must leave. *)
Definition zremrange_outcome (cmd : list sstr) (bys : bool) (w w' : World) : Prop :=
  let k := argd cmd 1 in
  match zrange_bounds (spec0 bys false) (argd cmd 2) (argd cmd 3) with
  | inl err => leaves w w' (fun b => resp_err b err) (view w) 0
  | inr sp =>
      match view w !! k with
      | None => leaves w w' (fun b => resp_int b 0) (view w) 0
      | Some (AZSet m, t) =>
          let doomed := selected sp (ranking m) in
          if decide (doomed = []) then leaves w w' (fun b => resp_int b 0) (view w) 0
          else leaves w w' (fun b => resp_int b (Z.of_nat (length doomed))) (shrunk (view w) k (drop_keys (name <$> doomed) m) t) 1
      | Some _ => leaves w w' (fun b => resp_err b MSG_WRONGTYPE) (view w) 0
      end
  end.

Lemma zremrange_leaves cmd bys w w' :
  world_ok w -> writes_ok w -> zremrange_generic cmd bys w = ((), w') ->
  zremrange_outcome cmd bys w w'.
Proof.
  intros Hw Hn H. unfold zremrange_outcome. set (k := argd cmd 1). cbn zeta. unfold zremrange_generic in H.
  destruct (zrange_bounds _ _ _) as [err|sp] eqn:Eb; [answers H w w (fun b => resp_err b err)|].
  pose proof (zrange_bounds_ok _ _ _ _ Eb ltac:(done)) as Hb.
  assert (Hsp : ZCommands.rev sp = false /\ has_limit sp = false).
  { unfold zrange_bounds in Eb. repeat case_match; try done; by injection Eb as <-. }
  destruct Hsp as [Hrev Hlim].
  destruct (zset_read_run _ _ _ _ _ _ Hw H) as (w1 & W1 & V1 & Q1 & Hr). fold k in Hr.
  destruct (view w !! k) as [[v t]|] eqn:Ek; [|answers Hr w w1 (fun b => resp_int b 0)].
  destruct v as [|m| | |]; [answers Hr w w1 (fun b => resp_err b MSG_WRONGTYPE)| |answers Hr w w1 (fun b => resp_err b MSG_WRONGTYPE)..].
  destruct Hr as (z & Hz & <- & Hr). unfold mbind at 1, state_bind at 1 in Hr. rewrite (zset_entry _ _ _ Hz) in Hr.
  pose proof Hz as (_ & _ & _ & Hok). rewrite ranking_members by done. cbn zeta.
  destruct (zrange_interval z sp) as [l h] eqn:Ei.
  destruct (limit_window sp (if l <? h then h - l else 0)) as [n skip] eqn:El.
  destruct (walk_selected z sp l h n skip Hok Hb Ei El) as [Hwalk Hlen]. unfold limit_window in El. rewrite Hlim in El.
  injection El as <- <-. rewrite Hrev in Hwalk.
  destruct (h <=? l) eqn:Ehl; bool_facts.
  { rewrite (proj2 (Z.ltb_ge _ _)) in Hlen by done. rewrite decide_True by (apply length_zero_iff_nil; lia). answers Hr w w1 (fun b => resp_int b 0). }
  rewrite (proj2 (Z.ltb_lt l h)) in Hlen, Hwalk by done. rewrite (proj2 (Z.ltb_lt _ _)) in Hwalk by lia. rewrite Z.add_0_r in Hwalk.
  rewrite decide_False by (intros Hx; rewrite Hx in Hlen; cbn in Hlen; lia).
  rewrite doomed_names, Hwalk in Hr. set (doomed := selected sp (members z)) in *.
  pose proof (interval_selects z sp Hok Hb) as Hs. rewrite Ei in Hs. cbn zeta in Hs. destruct Hs as (_ & _ & Hs).
  assert (Hsub : doomed = slice (Z.to_nat l) (Z.to_nat h - Z.to_nat l) (members z)).
  { subst doomed. unfold selected, limited. rewrite Hlim, Hrev in *. exact Hs. }
  destruct (zset_delete_all (name <$> doomed) z Hok) as [D1 D2].
  { rewrite Hsub. unfold slice. rewrite fmap_take, fmap_drop. eapply sublist_NoDup; [apply Hok|]. etrans; [apply sublist_take|apply sublist_drop]. }
  { intros x Hx. apply scores_member. rewrite Hsub in Hx. unfold slice in Hx. rewrite fmap_take, fmap_drop in Hx.
    by eapply subseteq_drop, subseteq_take. }
  rewrite <- D2. rewrite length_fmap in Hr.
  assert (w' = closed w1 k (foldl zset_delete z (name <$> doomed)) (fun b => resp_int b (Z.of_nat (length doomed)))) as ->.
  { unfold close_zset in Hr. unfold closed. destruct (hm_size _ =? 0)%nat; by injection Hr as <-. }
  apply (closed_leaves w w1 k z); try done; [apply Hw|auto with myred].
Qed.

Lemma min_node_first z : zset_ok z -> min_node (root z) = members z !! 0%nat.
Proof.
  intros _. unfold members. generalize (root z). intros t. induction t as [|l IH x r _ h c]; [done|].
  cbn [min_node inorder]. destruct l as [|l1 x1 r1 h1 c1]; [done|].
  rewrite IH. cbn [inorder]. by destruct (inorder l1).
Qed.

Lemma members_tail z x r :
  zset_ok z -> members z = x :: r -> zset_ok (zset_delete z (name x)) /\ members (zset_delete z (name x)) = r.
Proof.
  intros Hz Hm. destruct (zset_delete_spec z (name x) Hz) as [D1 D2]; [rewrite Hm; by left|]. split; [done|].
  rewrite <- ranking_members, D2 by done. unfold scores. rewrite Hm. destruct x as [s n].
  pose proof Hz as [_ Hs Hn Hnd _ _ _]. rewrite Hm in Hs, Hn, Hnd. apply NoDup_cons in Hnd as [Hnn Hnd].
  apply StronglySorted_inv in Hs as [Hs _]. apply Forall_cons in Hn as [_ Hn].
  change (scores_of (mkZNode s n :: r)) with (<[n := s]> (scores_of r)). cbn [name].
  rewrite delete_insert_id; [by apply ranking_sorted|]. by apply scores_None.
Qed.

Lemma pop_loop_spec n z l z' :
  zset_ok z -> pop_loop n z = (l, z') -> zset_ok z' /\ l = take n (members z) /\ members z' = drop n (members z).
Proof.
  revert z l. induction n as [|n IH]; intros z l Hz H; [by injection H as <- <-|]. cbn [pop_loop] in H.
  rewrite min_node_first in H by done. destruct (members z) as [|x r] eqn:Em; cbn in H.
  { injection H as <- <-. rewrite Em. done. }
  destruct (pop_loop n (zset_delete z (name x))) as [l1 z1] eqn:El. injection H as <- <-.
  destruct (members_tail z x r Hz Em) as [D1 D2]. destruct (IH _ _ D1 El) as (I1 & -> & I3). rewrite D2 in *. done.
Qed.

(** The reply of ZPOPMIN: flat, or pairs under RESP3 with a count. *)
Definition pop_reply (p : Z) (nested : bool) (l : list ZNode) (b : Buffer) : Buffer :=
  let n := Z.of_nat (length l) in
  foldl (fun b x => resp_dbl p (resp_str (if nested then resp_arr b 2 else b) (name x)) (score_of x))
    (resp_arr b (u32 (if nested then n else n * 2))) l.

Lemma emit_popped_run nested l w :
  emit_popped nested l w = ((), with_out (pop_reply (g_reply_proto (env w)) nested l (out w)) w).
Proof.
  unfold emit_popped, pop_reply, mbind, state_bind, r_arr, reply, modify. set (b := resp_arr _ _).
  assert (Hgen : forall b w, out w = b -> for_each l (fun x => (if nested then reply (fun b => resp_arr b 2) else mret ()) ;; r_str (name x) ;; r_dbl (score_of x)) w =
    ((), with_out (foldl (fun b x => resp_dbl (g_reply_proto (env w)) (resp_str (if nested then resp_arr b 2 else b) (name x)) (score_of x)) b l) w)); [|by rewrite (Hgen b)].
  clear. induction l as [|x l IH]; intros b w <-; [by destruct w|]. cbn [for_each foldl]. unfold mbind, state_bind in *.
  destruct nested; cbn; rewrite (IH _ _ eq_refl); done.
Qed.

Lemma wf_pop_reply p nested l b : wf b -> wf (pop_reply p nested l b).
Proof. intros Hb. apply wf_foldl; [|auto with myred]. intros. destruct nested; auto with myred. Qed.
#[export] Hint Resolve wf_pop_reply : myred.

(** What ZPOPMIN must leave: the lowest members go, in order. *)
Definition zpopmin_outcome (cmd : list sstr) (w w' : World) : Prop :=
  let k := argd cmd 1 in
  match pop_count cmd with
  | None => leaves w w' (fun b => resp_err b MSG_NOT_INT) (view w) 0
  | Some n =>
      match view w !! k with
      | None => leaves w w' (fun b => resp_arr b 0) (view w) 0
      | Some (AZSet m, t) =>
          let popped := take (Z.to_nat n) (ranking m) in
          let rep := pop_reply (g_reply_proto (env w)) ((3 <=? g_reply_proto (env w)) && (3 <=? length cmd)%nat) popped in
          if decide (popped = []) then leaves w w' rep (view w) 0
          else leaves w w' rep (shrunk (view w) k (scores_of (drop (Z.to_nat n) (ranking m))) t) 1
      | Some _ => leaves w w' (fun b => resp_err b MSG_WRONGTYPE) (view w) 0
      end
  end.

Lemma do_zpopmin_leaves cmd w w' :
  world_ok w -> writes_ok w -> do_zpopmin cmd w = ((), w') ->
  zpopmin_outcome cmd w w'.
Proof.
  intros Hw Hn H. unfold zpopmin_outcome. set (k := argd cmd 1). cbn zeta. unfold do_zpopmin in H.
  destruct (pop_count cmd) as [n|] eqn:Ec; [|answers H w w (fun b => resp_err b MSG_NOT_INT)].
  destruct (zset_read_run _ _ _ _ _ _ Hw H) as (w1 & W1 & V1 & Q1 & Hr). fold k in Hr. pose proof Q1 as (_ & _ & Qe).
  destruct (view w !! k) as [[v t]|] eqn:Ek; [|answers Hr w w1 (fun b => resp_arr b 0)].
  destruct v as [|m| | |]; [answers Hr w w1 (fun b => resp_err b MSG_WRONGTYPE)| |answers Hr w w1 (fun b => resp_err b MSG_WRONGTYPE)..].
  destruct Hr as (z & Hz & <- & Hr). unfold mbind at 1, state_bind at 1 in Hr. rewrite (zset_entry _ _ _ Hz) in Hr.
  pose proof Hz as (e & He & Hez & Hok). rewrite ranking_members by done. cbn zeta.
  destruct (pop_loop (pop_turns n z) z) as [popped z'] eqn:Ep. destruct (pop_loop_spec _ _ _ _ Hok Ep) as (Hok' & Hpop & Hm').
  assert (Hpop2 : popped = take (Z.to_nat n) (members z)).
  { rewrite Hpop. unfold pop_turns. destruct (decide (n <= Z.of_nat (length (members z)))); [by rewrite Z.min_l|].
    rewrite !take_ge; [done|lia..]. }
  assert (Hm2 : members z' = drop (Z.to_nat n) (members z)).
  { rewrite Hm'. unfold pop_turns. destruct (decide (n <= Z.of_nat (length (members z)))); [by rewrite Z.min_l|].
    rewrite !drop_ge; [done|lia..]. }
  rewrite <- Hpop2, <- Hm2, <- Qe. change (scores_of (members z')) with (scores z').
  unfold mbind, state_bind, proto, gets, put_zset, put_val, on_ks, modify in Hr. rewrite emit_popped_run in Hr.
  set (rep := pop_reply _ _ popped). destruct (decide (popped = [])) as [Hnil|Hcons].
  - rewrite Hnil in Hr. cbn in Hr. subst rep. rewrite Hnil in *. injection Hr as <-.
    assert (Hsame : members z' = members z).
    { transitivity (take (Z.to_nat n) (members z) ++ members z'); [by rewrite <- Hpop2|rewrite Hm2; apply take_drop]. }
    destruct (peek_val w1 k e (VZSet z') He Hok') as (_ & P2 & P3).
    { rewrite Hez. cbn. unfold scores. by rewrite Hsame. }
    { apply (zset_usage z); try done. unfold scores. by rewrite Hsame. }
    apply (leaves_quiet w (with_ks (upd k (with_eval (VZSet z')) (ks w1)) w1) (pop_reply (g_reply_proto (env w1)) ((3 <=? g_reply_proto (env w1)) && (3 <=? length cmd)%nat) []));
      auto with myred; [apply P3, W1|by etrans].
  - assert (w' = closed w1 k z' rep) as ->.
    { unfold close_zset in Hr. unfold closed. destruct popped; [done|]. destruct (hm_size _ =? 0)%nat; by injection Hr as <-. }
    apply (closed_leaves w w1 k z); try done; [apply Hw|by intros; apply wf_pop_reply].
Qed.

(** ** Claims *)

(** C17: ZADD and ZINCRBY write scores.  ZADD with a wrong number of words or
    any score that is not a number changes nothing; otherwise every member gets
    the last score given for it (an equal score keeps the old one), the key is
    created when missing and keeps its deadline, the reply counts the new
    members, and the write is counted exactly when some step changed the map.
    ZINCRBY adds in double arithmetic and answers the sum; an infinity minus an
    infinity is refused without a change, so no empty sorted set is ever left.
    Another type is refused by both. *)
Theorem zset_writes_correct (w : World) (cmd : list sstr) (Hw : world_ok w) (Hn : writes_ok w) (Hroom : room w) :
  zadd_outcome cmd w (do_zadd cmd w).2 /\ zincrby_outcome cmd w (do_zincrby cmd w).2.
Proof.
  split.
  - apply (do_zadd_leaves cmd w); try done. by destruct (do_zadd cmd w) as [[] w'].
  - apply (do_zincrby_leaves cmd w); try done. by destruct (do_zincrby cmd w) as [[] w'].
Qed.

(** A server with a sorted set [z] of [a] at 1 and [b] at 2. *)
Definition zadd_ab : list sstr := words ["zadd"; "z"; "2"; "b"; "1"; "a"].
Definition w_zset : World := (do_zadd zadd_ab w0).2.

Lemma w_zset_ok : world_ok w_zset /\ writes_ok w_zset.
Proof.
  destruct w0_start as (Hn & Hroom & _). pose proof (do_zadd_leaves zadd_ab w0 w_zset w0_ok Hn Hroom) as H.
  unfold w_zset in *. destruct (do_zadd zadd_ab w0) as [[] w']. specialize (H eq_refl). unfold zadd_outcome in H.
  assert ((length zadd_ab <? 4)%nat || negb (Nat.even (length zadd_ab)) = false) as E1 by (vm_compute; reflexivity).
  assert (existsb (fun p => bool_decide (str2dbl (s_data p.1) = None)) (pairs_of (drop 2 zadd_ab)) = false) as E2 by (vm_compute; reflexivity).
  assert (is_zset (view w0 !! argd zadd_ab 1) = true) as E3 by (vm_compute; reflexivity).
  cbn zeta in H. rewrite E1, E2, E3 in H. by apply leaves_ok in H.
Qed.

Lemma zset_writes_correct_witness :
  (zadd_outcome zadd_ab w0 w_zset /\ zincrby_outcome zadd_ab w0 (do_zincrby zadd_ab w0).2) /\
  view w_zset !! bs "z" = Some (AZSet {[bs "a" := scale false 10 1 0; bs "b" := scale false 10 2 0]}, None).
Proof.
  split; [|vm_compute; reflexivity]. destruct w0_start as (Hn & Hroom & _).
  apply (zset_writes_correct w0 zadd_ab w0_ok Hn Hroom).
Defined.

(** C18: Reading a sorted set.  ZRANGE, ZREVRANGE, ZRANGEBYSCORE and
    ZREVRANGEBYSCORE answer exactly the requested slice of the members ranked by
    score and name, by positions or between score bounds, from either end, cut
    by LIMIT, with scores on request in the layout of the protocol in force; a
    malformed option or bound is refused before the key is looked at.  ZSCORE,
    ZRANK, ZREVRANK, ZCARD and ZCOUNT answer from the same ranking.  None of
    them changes what clients see. *)
Theorem zset_reads_correct (w : World) (cmd : list sstr) (Hw : world_ok w) (Hn : writes_ok w) :
  let k := argd cmd 1 in
  let p := g_reply_proto (env w) in
  range_outcome cmd (spec0 false false) 31 w (do_zrange cmd w).2 /\
  range_outcome cmd (spec0 false true) 16 w (do_zrevrange cmd w).2 /\
  range_outcome cmd (spec0 true false) 24 w (do_zrangebyscore cmd w).2 /\
  range_outcome cmd (spec0 true true) 24 w (do_zrevrangebyscore cmd w).2 /\
  queries w (do_zscore cmd w).2 k MSG_WRONGTYPE_SHORT (resp_nil p)
    (fun m => opt_reply p (fun s b => resp_dbl p b s) (m !! argd cmd 2)) /\
  queries w (do_zrank cmd w).2 k MSG_WRONGTYPE_SHORT (resp_nil p)
    (fun m => opt_reply p (fun i b => resp_int b i) (rank_of m (argd cmd 2))) /\
  queries w (do_zrevrank cmd w).2 k MSG_WRONGTYPE (resp_nil p)
    (fun m => opt_reply p (fun i b => resp_int b (Z.of_nat (base.size m) - 1 - i)) (rank_of m (argd cmd 2))) /\
  queries w (do_zcard cmd w).2 k MSG_WRONGTYPE (fun b => resp_int b 0) (fun m b => resp_int b (Z.of_nat (base.size m))) /\
  match zrange_bounds (spec0 true false) (argd cmd 2) (argd cmd 3) with
  | inl err => leaves w (do_zcount cmd w).2 (fun b => resp_err b err) (view w) 0
  | inr sp => queries w (do_zcount cmd w).2 k MSG_WRONGTYPE (fun b => resp_int b 0)
                (fun m b => resp_int b (Z.of_nat (length (filter (fun x => between sp x = true) (ranking m)))))
  end.
Proof.
  assert (Hrun : forall (h : M ()), h w = ((), (h w).2)) by (intros h; by destruct (h w) as [[] w']).
  cbn zeta. split_and!; [by apply zrange_leaves..|by apply do_zscore_queries| | |by apply do_zcard_queries|by apply do_zcount_queries].
  - by apply (do_rank_queries cmd _ w _ (fun _ r => r) (fun _ r => r)).
  - apply (do_rank_queries cmd _ w _ (fun z r => Z.of_nat (avl_cnt (root z)) - 1 - r) (fun m r => Z.of_nat (base.size m) - 1 - r)); try done.
    intros z r Hz. by rewrite avl_cnt_length, <- length_ranking by apply Hz.
Qed.

Definition zrange_ab : list sstr := words ["zrange"; "z"; "0"; "-1"; "rev"; "withscores"].

Lemma zset_reads_correct_witness :
  range_outcome zrange_ab (spec0 false false) 31 w_zset (do_zrange zrange_ab w_zset).2 /\
  Buffer.content (out (do_zrange zrange_ab w_zset).2) = bs ":2" ++ crlf ++ bs "*4" ++ crlf ++ concat ((fun x => bs "$1" ++ crlf ++ bs x ++ crlf) <$> ["b"; "2"; "a"; "1"]%string).
Proof.
  split; [|vm_compute; reflexivity]. exact (proj1 (zset_reads_correct w_zset zrange_ab (proj1 w_zset_ok) (proj2 w_zset_ok))).
Defined.

(** Removing from a sorted set.  ZREM removes one member, ZREMRANGEBYSCORE
    and ZREMRANGEBYRANK exactly the members the same range would list, ZPOPMIN
    the lowest ones, which it answers in order; a key whose last member goes is
    deleted, any other keeps its remaining members and deadline; without a
    member to remove nothing changes and no write is counted. *)
Theorem zset_removals_correct (w : World) (cmd : list sstr) (Hw : world_ok w) (Hn : writes_ok w) :
  zrem_outcome cmd w (do_zrem cmd w).2 /\
  zremrange_outcome cmd true w (do_zremrangebyscore cmd w).2 /\
  zremrange_outcome cmd false w (do_zremrangebyrank cmd w).2 /\
  zpopmin_outcome cmd w (do_zpopmin cmd w).2.
Proof.
  assert (Hrun : forall (h : M ()), h w = ((), (h w).2)) by (intros h; by destruct (h w) as [[] w']).
  split_and!; [by apply do_zrem_leaves|by apply zremrange_leaves..|by apply do_zpopmin_leaves].
Qed.

Definition zpop_ab : list sstr := words ["zpopmin"; "z"; "1"].

Lemma zset_removals_correct_witness :
  zpopmin_outcome zpop_ab w_zset (do_zpopmin zpop_ab w_zset).2 /\
  view (do_zpopmin zpop_ab w_zset).2 !! bs "z" = Some (AZSet {[bs "b" := scale false 10 2 0]}, None).
Proof.
  split; [|vm_compute; reflexivity]. exact (proj2 (proj2 (proj2 (zset_removals_correct w_zset zpop_ab (proj1 w_zset_ok) (proj2 w_zset_ok))))).
Defined.
