(* ===== verification/FloatCmd.v ===== *)
(** * INCRBYFLOAT (src/src/commands/commands.cpp 71-97, 877-911)

    The counter in extended precision: the stored text and the increment are
    read as [long double], added, and written back in fixed-point notation. *)
From S2P Require Import Prelude Buffer Resp StdString Deque Hashtable HashMap Heap Score HashSet State World Args Strings CText CFloat.

Definition MSG_FLOAT : bytes := bs "ERR value is not a valid float".
Definition MSG_FLOAT_INF : bytes := bs "ERR increment would produce NaN or infinity".

(** [entry_str(ent) = ld2str_human(result)] moves a temporary in; the reply is
    the stored text. *)
Definition put_text (k : bytes) (v : bytes) : M () :=
  s ← entry_str k;
  set_str k (s_move s (s_copy v)).1 ;; reaccount k ;; dirty 1 ;; r_str v.

Definition finite_sum (a b : score) : option score :=
  match SFadd 64 16384 a b with S754_nan | S754_infinity _ => None | r => Some r end.

Definition do_incrbyfloat (cmd : list sstr) : M () :=
  lk ← lookup_entry (s_assign s_empty (argd cmd 1)) T_STR false false;
  match lk with
  | LWRONGTYPE => r_err MSG_WRONGTYPE
  | _ =>
      parsed ← (match lk with
                | LOK ent => s ← entry_str ent; mret (str2ld (s_data s))
                | _ => mret (Some (S754_zero false))
                end : M (option score));
      match parsed, str2ld (argd cmd 2) with
      | Some cur, Some delta =>
          match finite_sum cur delta with
          | None => r_err MSG_FLOAT_INF
          | Some result =>
              match lk with
              | LOK ent => put_text ent (ld2str_human result)
              | _ =>
                  r ← lookup_entry (arg cmd 1) T_STR true false;
                  match r with LOK ent => put_text ent (ld2str_human result) | _ => mret () end
              end
          end
      | _, _ => r_err MSG_FLOAT
      end
  end.

Lemma put_text_run w k e s t v :
  ks_ok (ks w) -> accounted_but k (ks w) -> wf (out w) -> ents (ks w) !! k = Some e -> eval e = VStr s -> s_ok s ->
  view w = <[k := (AStr (s_data s), t)]> (view w) ->
  exists w', put_text k v w = ((), w') /\
    leaves w w' (fun b => resp_str b v) (<[k := (AStr v, t)]> (view w)) 1.
Proof.
  intros Hok Hb Hwf He Hs Hsok Hv. unfold put_text, mbind, state_bind. rewrite (entry_str_run _ _ _ _ He Hs).
  destruct (s_move_data s (s_copy v)) as [Hd _]. destruct (s_move_ok s (s_copy v) Hsok (s_copy_ok _)) as [Hmok _].
  destruct (store_run w k e _ t (s_data s) Hok Hb Hwf He Hmok Hv) as (w2 & Hrun & Hw2 & (P1 & P2 & P3) & Hv2).
  cbn in Hrun. injection Hrun as Hrun. cbn. rewrite Hrun. eexists. split; [reflexivity|]. rewrite Hd in Hv2.
  apply (leaves_intro w (with_writes (u32 (writes w + 1)) w2) (fun b => resp_str b v)); cbn; try done; try congruence.
  by apply wf_resp_str.
Qed.

(** The number INCRBYFLOAT starts from. *)
Definition float_at (v : gmap bytes (AVal * option Z)) (k : bytes) : option score :=
  match v !! k with Some (AStr b, _) => str2ld b | _ => Some (S754_zero false) end.

Lemma env_leaves w w1 w' rep v n : quiet w w1 -> leaves w1 w' rep v n -> leaves w w' rep v n.
Proof. intros (Q1 & Q2 & Q3). unfold leaves. by rewrite Q1, Q2, Q3. Qed.

(** INCRBYFLOAT adds in extended precision.  The stored number (zero without a
    key) and the increment are added, the sum replaces the value as text, keeps
    the deadline and is the reply; text that is not a number, an infinite or
    undefined sum and another type are refused and change nothing. *)
Theorem incrbyfloat_correct (w : World) (cmd : list sstr) (Hw : world_ok w) (Hn : writes_ok w) (Hroom : room w) :
  let k := argd cmd 1 in
  let w' := (do_incrbyfloat cmd w).2 in
  if is_str (view w !! k) then
    match float_at (view w) k, str2ld (argd cmd 2) with
    | Some cur, Some delta =>
        match finite_sum cur delta with
        | Some r => leaves w w' (fun b => resp_str b (ld2str_human r))
                      (<[k := (AStr (ld2str_human r), (str_at (view w) k).2)]> (view w)) 1
        | None => leaves w w' (fun b => resp_err b MSG_FLOAT_INF) (view w) 0
        end
    | _, _ => leaves w w' (fun b => resp_err b MSG_FLOAT) (view w) 0
    end
  else leaves w w' (fun b => resp_err b MSG_WRONGTYPE) (view w) 0.
Proof.
  cbn zeta. destruct (do_incrbyfloat cmd w) as [[] w'] eqn:H. cbn [snd]. unfold do_incrbyfloat, mbind, state_bind in H.
  destruct (lookup_entry (s_assign s_empty (argd cmd 1)) T_STR false false w) as [r w1] eqn:E.
  destruct (lookup_read _ _ _ _ _ Hw E) as (Hw1 & Hv & Hq & Hr). cbn [s_data s_assign] in Hr.
  pose proof Hw1 as (Hok1 & Hacc1 & Hwf1).
  assert (Herr : forall m, leaves w (with_out (resp_err (out w1) m) w1) (fun b => resp_err b m) (view w) 0).
  { intros m. apply (leaves_reply w w1 (fun b => resp_err b m)); [done..|]. by apply wf_resp_err. }
  unfold is_str, float_at, str_at. destruct r as [k| |].
  - destruct Hr as (-> & e & t & He & Ht & Hvok & Hvk & _). destruct (str_type e Ht) as [s Hs].
    rewrite (entry_str_run _ _ _ _ He Hs) in H. rewrite Hvk, Hs in *. cbn [aval snd]. cbn [mret state_ret] in H.
    destruct (str2ld (s_data s)) as [cur|]; [|injection H as <-; apply Herr].
    destruct (str2ld (argd cmd 2)) as [delta|]; [|injection H as <-; apply Herr].
    destruct (finite_sum cur delta) as [res|]; [|injection H as <-; apply Herr].
    destruct (put_text_run w1 (argd cmd 1) e s t (ld2str_human res)) as (w2 & Hrun & Hl);
      [done|by apply accounted_weaken|done..| |].
    { rewrite Hv. symmetry. apply insert_id. by rewrite Hvk. }
    rewrite Hrun in H. injection H as <-. rewrite Hv in Hl. by apply (env_leaves w w1).
  - destruct Hr as [Hr Hsz]. rewrite Hr. cbn [mret state_ret] in H.
    destruct (str2ld (argd cmd 2)) as [delta|]; [|injection H as <-; apply Herr].
    destruct (finite_sum _ delta) as [res|]; [|injection H as <-; apply Herr].
    destruct (lookup_entry (arg cmd 1) T_STR true false w1) as [r w2] eqn:E2.
    destruct (lookup_str_create _ _ _ _ _ Hw1 ltac:(unfold room in *; lia) E2) as (Hok2 & Hq2 & Hr2).
    rewrite Hv in Hr2. change (s_data (arg cmd 1)) with (argd cmd 1) in *. destruct r as [k| |]; [|done|].
    + destruct Hr2 as (-> & Hb & e & s & t & He & Hs & Hsok & Hv2 & Hcase). rewrite Hr in Hcase. destruct Hcase as [-> ->].
      destruct (put_text_run w2 (argd cmd 1) e s_empty None (ld2str_human res)) as (w3 & Hrun & Hl);
        [done|done|by destruct Hq2 as (_ & -> & _)|done|done|done|by rewrite Hv2, insert_insert_eq|].
      rewrite Hrun in H. injection H as <-. rewrite Hv2, insert_insert_eq in Hl.
      apply (env_leaves w w2); [by eapply quiet_trans|done].
    + destruct Hr2 as (_ & _ & _ & v & t & Hvk & _). congruence.
  - destruct Hr as (v & t & Hvk & Hty). injection H as <-. rewrite Hvk. by destruct v; try done; apply Herr.
Qed.
