(* ===== verification/CmdTable.v ===== *)
(** * The command table (src/src/commands/commands.cpp 4715-4771, 5596-5760, 6192-6387)

    The rows of [k_cmd_table], the metadata [acl_init_categories] stamps on
    them at boot (categories, key arguments, notification class), the key
    arguments of a command line, and the dispatch map with its renames. *)
From S2P Require Import Prelude Buffer Resp Args.

(** ** Categories and classes *)

Definition CAT_READ : Z := Z.shiftl 1 0.
Definition CAT_WRITE : Z := Z.shiftl 1 1.
Definition CAT_KEYSPACE : Z := Z.shiftl 1 2.
Definition CAT_ADMIN : Z := Z.shiftl 1 3.
Definition CAT_DANGEROUS : Z := Z.shiftl 1 4.
Definition CAT_FAST : Z := Z.shiftl 1 5.
Definition CAT_SLOW : Z := Z.shiftl 1 6.
Definition CAT_CONNECTION : Z := Z.shiftl 1 7.
Definition CAT_TRANSACTION : Z := Z.shiftl 1 8.
Definition CAT_ALL : Z := UINT64_MAX.

Definition NOTIFY_KEYSPACE : Z := Z.shiftl 1 0.
Definition NOTIFY_KEYEVENT : Z := Z.shiftl 1 1.
Definition NOTIFY_GENERIC : Z := Z.shiftl 1 2.
Definition NOTIFY_STRING : Z := Z.shiftl 1 3.
Definition NOTIFY_LIST : Z := Z.shiftl 1 4.
Definition NOTIFY_SET : Z := Z.shiftl 1 5.
Definition NOTIFY_HASH : Z := Z.shiftl 1 6.
Definition NOTIFY_ZSET : Z := Z.shiftl 1 7.
Definition NOTIFY_EXPIRED : Z := Z.shiftl 1 8.
Definition NOTIFY_EVICTED : Z := Z.shiftl 1 9.
Definition NOTIFY_ALL : Z :=
  Z.lor NOTIFY_GENERIC (Z.lor NOTIFY_STRING (Z.lor NOTIFY_LIST (Z.lor NOTIFY_SET
    (Z.lor NOTIFY_HASH (Z.lor NOTIFY_ZSET (Z.lor NOTIFY_EXPIRED NOTIFY_EVICTED)))))).

(** ** Rows *)

Inductive KeySpec := KNONE | KFIRST | KALL_FROM_1 | KSTRIDE2_FROM_1.

(** The handler [fn] of a row is looked up by name where it is run. *)
Record CmdSpec := mkSpec {
  min_args : Z;
  max_args : Z;                (* -1: no bound *)
  is_write : bool;
  aof_rewrite : bool;
  aof_self : bool;
  acl_cats : Z;
  keys : KeySpec;
  key_resolver : option (list bytes -> list bytes);
  notify_class : Z;
}.

Definition row (name : string) (lo hi : Z) (w rw self : bool) : bytes * CmdSpec :=
  (bs name, mkSpec lo hi w rw self 0 KFIRST None 0).

Definition k_cmd_table : list (bytes * CmdSpec) :=
  [row "get" 2 2 false false false; row "set" 3 (-1) true false false;
   row "incr" 2 2 true false false; row "decr" 2 2 true false false;
   row "incrby" 3 3 true false false; row "decrby" 3 3 true false false;
   row "incrbyfloat" 3 3 true false false; row "setex" 4 4 true true false;
   row "psetex" 4 4 true true false; row "setnx" 3 3 true false false;
   row "getset" 3 3 true false false; row "getdel" 2 2 true false false;
   row "getex" 2 (-1) true true false; row "append" 3 3 true false false;
   row "strlen" 2 2 false false false; row "getrange" 4 4 false false false;
   row "setrange" 4 4 true false false; row "mget" 2 (-1) false false false;
   row "mset" 3 (-1) true false false; row "msetnx" 3 (-1) true false false;
   row "del" 2 (-1) true false false; row "exists" 2 (-1) false false false;
   row "type" 2 2 false false false; row "rename" 3 3 true false false;
   row "renamenx" 3 3 true false false; row "touch" 2 (-1) false false false;
   row "unlink" 2 2 true false false; row "keys" 1 2 false false false;
   row "scan" 2 (-1) false false false; row "randomkey" 1 1 false false false;
   row "dbsize" 1 1 false false false; row "flushall" 1 1 true false false;
   row "flushdb" 1 1 true false false; row "expire" 3 3 true true false;
   row "pexpire" 3 3 true true false; row "expireat" 3 3 true true false;
   row "pexpireat" 3 3 true false false; row "ttl" 2 2 false false false;
   row "pttl" 2 2 false false false; row "persist" 2 2 true false false;
   row "zadd" 4 (-1) true false false; row "zrem" 3 3 true false false;
   row "zscore" 3 3 false false false; row "zrank" 3 3 false false false;
   row "zrevrank" 3 3 false false false; row "zcard" 2 2 false false false;
   row "zcount" 4 4 false false false; row "zrange" 4 (-1) false false false;
   row "zrevrange" 4 5 false false false; row "zrangebyscore" 4 (-1) false false false;
   row "zrevrangebyscore" 4 (-1) false false false; row "zincrby" 4 4 true false false;
   row "zremrangebyscore" 4 4 true false false; row "zremrangebyrank" 4 4 true false false;
   row "zpopmin" 2 3 true false false; row "lpush" 3 (-1) true false false;
   row "rpush" 3 (-1) true false false; row "lpop" 2 2 true false false;
   row "rpop" 2 2 true false false; row "llen" 2 2 false false false;
   row "lindex" 3 3 false false false; row "lrange" 4 4 false false false;
   row "lset" 4 4 true false false; row "linsert" 5 5 true false false;
   row "lrem" 4 4 true false false; row "ltrim" 4 4 true false false;
   row "hset" 4 (-1) true false false; row "hget" 3 3 false false false;
   row "hdel" 3 (-1) true false false; row "hexists" 3 3 false false false;
   row "hlen" 2 2 false false false; row "hgetall" 2 2 false false false;
   row "hkeys" 2 2 false false false; row "hvals" 2 2 false false false;
   row "hmget" 3 (-1) false false false; row "hsetnx" 4 4 true false false;
   row "hincrby" 4 4 true false false; row "hstrlen" 3 3 false false false;
   row "hscan" 3 (-1) false false false; row "sadd" 3 (-1) true false false;
   row "srem" 3 (-1) true false false; row "sismember" 3 3 false false false;
   row "smismember" 3 (-1) false false false; row "scard" 2 2 false false false;
   row "smembers" 2 2 false false false; row "spop" 2 3 true false true;
   row "srandmember" 2 3 false false false; row "sscan" 3 (-1) false false false;
   row "sinter" 2 (-1) false false false; row "sunion" 2 (-1) false false false;
   row "sdiff" 2 (-1) false false false; row "sinterstore" 3 (-1) true false false;
   row "sunionstore" 3 (-1) true false false; row "sdiffstore" 3 (-1) true false false;
   row "smove" 4 4 true false false; row "info" 1 (-1) false false false;
   row "save" 1 1 false false false; row "bgsave" 1 1 false false false;
   row "bgrewriteaof" 1 1 false false false; row "ping" 1 2 false false false;
   row "echo" 2 2 false false false; row "config" 2 (-1) false false false;
   row "memory" 2 (-1) false false false; row "object" 2 (-1) false false false;
   row "acl" 2 (-1) false false false; row "client" 2 (-1) false false false;
   row "subscribe" 2 (-1) false false false; row "unsubscribe" 1 (-1) false false false;
   row "publish" 3 3 false false false; row "psubscribe" 2 (-1) false false false;
   row "punsubscribe" 1 (-1) false false false; row "multi" 1 1 false false false;
   row "discard" 1 1 false false false; row "exec" 1 1 false false false;
   row "watch" 2 (-1) false false false; row "unwatch" 1 1 false false false;
   row "replconf" 1 (-1) false false false; row "psync" 3 4 false false false;
   row "replicaof" 3 3 false false false; row "slaveof" 3 3 false false false;
   row "failover" 1 7 false false false; row "wait" 3 3 false false false].

(** [unordered_map::find] in a table of distinct names. *)
Fixpoint find_row {A} (name : bytes) (t : list (bytes * A)) : option A :=
  match t with [] => None | (n, a) :: t' => if bool_decide (n = name) then Some a else find_row name t' end.

Definition command_is_known (name : bytes) : bool := bool_decide (is_Some (find_row name k_cmd_table)).

(** ** Key arguments *)

Definition kr_smove (cmd : list bytes) : list bytes := take 2 (drop 1 cmd).

Definition kr_object (cmd : list bytes) : list bytes :=
  match cmd with
  | _ :: sub :: key :: _ =>
      if arg_ieq sub (bs "encoding") || arg_ieq sub (bs "refcount") || arg_ieq sub (bs "idletime") || arg_ieq sub (bs "freq") then [key] else []
  | _ => []
  end.

Definition kr_memory (cmd : list bytes) : list bytes :=
  match cmd with _ :: sub :: key :: _ => if arg_ieq sub (bs "usage") then [key] else [] | _ => [] end.

Fixpoint stride2 (l : list bytes) : list bytes :=
  match l with k :: _ :: l' => k :: stride2 l' | [k] => [k] | [] => [] end.

Definition cmd_collect_keys (spec : CmdSpec) (cmd : list bytes) : list bytes :=
  match key_resolver spec with
  | Some f => f cmd
  | None =>
      match keys spec with
      | KNONE => []
      | KFIRST => take 1 (drop 1 cmd)
      | KALL_FROM_1 => drop 1 cmd
      | KSTRIDE2_FROM_1 => stride2 (drop 1 cmd)
      end
  end.

(** ** [acl_init_categories] *)

Definition resolvers : list (bytes * (list bytes -> list bytes)) :=
  [(bs "smove", kr_smove); (bs "object", kr_object); (bs "memory", kr_memory)].

Definition ks_of : list (bytes * KeySpec) :=
  [(bs "ping", KNONE); (bs "info", KNONE); (bs "config", KNONE); (bs "dbsize", KNONE);
   (bs "randomkey", KNONE); (bs "flushall", KNONE); (bs "flushdb", KNONE); (bs "save", KNONE);
   (bs "bgsave", KNONE); (bs "bgrewriteaof", KNONE); (bs "keys", KNONE); (bs "scan", KNONE);
   (bs "acl", KNONE); (bs "del", KALL_FROM_1); (bs "unlink", KALL_FROM_1); (bs "exists", KALL_FROM_1);
   (bs "touch", KALL_FROM_1); (bs "mget", KALL_FROM_1); (bs "rename", KALL_FROM_1); (bs "renamenx", KALL_FROM_1);
   (bs "sinter", KALL_FROM_1); (bs "sunion", KALL_FROM_1); (bs "sdiff", KALL_FROM_1); (bs "sinterstore", KALL_FROM_1);
   (bs "sunionstore", KALL_FROM_1); (bs "sdiffstore", KALL_FROM_1); (bs "mset", KSTRIDE2_FROM_1); (bs "msetnx", KSTRIDE2_FROM_1);
   (bs "subscribe", KNONE); (bs "unsubscribe", KNONE); (bs "publish", KNONE); (bs "psubscribe", KNONE);
   (bs "punsubscribe", KNONE); (bs "multi", KNONE); (bs "discard", KNONE); (bs "exec", KNONE);
   (bs "watch", KALL_FROM_1); (bs "unwatch", KNONE); (bs "replconf", KNONE); (bs "psync", KNONE);
   (bs "failover", KNONE); (bs "replicaof", KNONE); (bs "slaveof", KNONE); (bs "wait", KNONE);
   (bs "client", KNONE)].

Definition extra : list (bytes * Z) :=
  [(bs "acl", Z.lor CAT_ADMIN CAT_DANGEROUS); (bs "config", Z.lor CAT_ADMIN CAT_DANGEROUS); (bs "save", Z.lor CAT_ADMIN CAT_DANGEROUS);
   (bs "bgsave", Z.lor CAT_ADMIN CAT_DANGEROUS); (bs "bgrewriteaof", Z.lor CAT_ADMIN CAT_DANGEROUS); (bs "flushall", Z.lor CAT_KEYSPACE CAT_DANGEROUS);
   (bs "flushdb", Z.lor CAT_KEYSPACE CAT_DANGEROUS); (bs "keys", Z.lor CAT_KEYSPACE (Z.lor CAT_DANGEROUS CAT_SLOW)); (bs "scan", Z.lor CAT_KEYSPACE CAT_SLOW);
   (bs "dbsize", CAT_KEYSPACE); (bs "unlink", CAT_KEYSPACE); (bs "exists", CAT_KEYSPACE);
   (bs "touch", CAT_KEYSPACE); (bs "rename", CAT_KEYSPACE); (bs "renamenx", CAT_KEYSPACE);
   (bs "ping", CAT_CONNECTION); (bs "info", CAT_ADMIN); (bs "memory", CAT_ADMIN);
   (bs "object", CAT_ADMIN); (bs "echo", CAT_CONNECTION); (bs "subscribe", CAT_FAST);
   (bs "unsubscribe", CAT_FAST); (bs "publish", CAT_FAST); (bs "psubscribe", CAT_FAST);
   (bs "punsubscribe", CAT_FAST); (bs "multi", Z.lor CAT_FAST CAT_TRANSACTION); (bs "discard", Z.lor CAT_FAST CAT_TRANSACTION);
   (bs "exec", Z.lor CAT_SLOW CAT_TRANSACTION); (bs "watch", Z.lor CAT_FAST CAT_TRANSACTION); (bs "unwatch", Z.lor CAT_FAST CAT_TRANSACTION);
   (bs "replconf", Z.lor CAT_ADMIN CAT_DANGEROUS); (bs "psync", Z.lor CAT_ADMIN CAT_DANGEROUS); (bs "failover", Z.lor CAT_ADMIN CAT_DANGEROUS);
   (bs "replicaof", Z.lor CAT_ADMIN CAT_DANGEROUS); (bs "slaveof", Z.lor CAT_ADMIN CAT_DANGEROUS); (bs "wait", CAT_SLOW);
   (bs "client", CAT_SLOW)].

Definition notify_cls : list (bytes * Z) :=
  [(bs "set", NOTIFY_STRING); (bs "setnx", NOTIFY_STRING); (bs "setex", NOTIFY_STRING); (bs "psetex", NOTIFY_STRING);
   (bs "getset", NOTIFY_STRING); (bs "append", NOTIFY_STRING); (bs "setrange", NOTIFY_STRING); (bs "incr", NOTIFY_STRING);
   (bs "decr", NOTIFY_STRING); (bs "incrby", NOTIFY_STRING); (bs "decrby", NOTIFY_STRING); (bs "incrbyfloat", NOTIFY_STRING);
   (bs "mset", NOTIFY_STRING); (bs "msetnx", NOTIFY_STRING); (bs "del", NOTIFY_GENERIC); (bs "unlink", NOTIFY_GENERIC);
   (bs "rename", NOTIFY_GENERIC); (bs "renamenx", NOTIFY_GENERIC); (bs "getdel", NOTIFY_GENERIC); (bs "getex", NOTIFY_GENERIC);
   (bs "expire", NOTIFY_GENERIC); (bs "pexpire", NOTIFY_GENERIC); (bs "expireat", NOTIFY_GENERIC); (bs "pexpireat", NOTIFY_GENERIC);
   (bs "persist", NOTIFY_GENERIC); (bs "lpush", NOTIFY_LIST); (bs "rpush", NOTIFY_LIST); (bs "lpop", NOTIFY_LIST);
   (bs "rpop", NOTIFY_LIST); (bs "lset", NOTIFY_LIST); (bs "linsert", NOTIFY_LIST); (bs "lrem", NOTIFY_LIST);
   (bs "ltrim", NOTIFY_LIST); (bs "sadd", NOTIFY_SET); (bs "srem", NOTIFY_SET); (bs "spop", NOTIFY_SET);
   (bs "smove", NOTIFY_SET); (bs "sinterstore", NOTIFY_SET); (bs "sunionstore", NOTIFY_SET); (bs "sdiffstore", NOTIFY_SET);
   (bs "hset", NOTIFY_HASH); (bs "hdel", NOTIFY_HASH); (bs "hsetnx", NOTIFY_HASH); (bs "hincrby", NOTIFY_HASH);
   (bs "zadd", NOTIFY_ZSET); (bs "zrem", NOTIFY_ZSET); (bs "zpopmin", NOTIFY_ZSET); (bs "zincrby", NOTIFY_ZSET);
   (bs "zremrangebyscore", NOTIFY_ZSET); (bs "zremrangebyrank", NOTIFY_ZSET)].

(** [a & ~b] on [uint64_t] *)
Definition clear_bits (a b : Z) : Z := Z.ldiff a b.

Definition stamp (name : bytes) (s : CmdSpec) : CmdSpec :=
  let base := if is_write s then CAT_WRITE else CAT_READ in
  let cats :=
    match find_row name extra with
    | Some e =>
        let c := Z.lor base e in
        if Z.land e (Z.lor CAT_ADMIN CAT_DANGEROUS) =? 0 then c else clear_bits c (Z.lor CAT_READ CAT_WRITE)
    | None => base
    end in
  mkSpec (min_args s) (max_args s) (is_write s) (aof_rewrite s) (aof_self s) cats
    (default KFIRST (find_row name ks_of)) (find_row name resolvers) (default 0 (find_row name notify_cls)).

Definition orphans {A} (m : list (bytes * A)) : list bytes := filter (fun n => command_is_known n = false) m.*1.

(** [None]: the process dies because a side map names no command. *)
Definition acl_init_categories (t : list (bytes * CmdSpec)) : option (list (bytes * CmdSpec)) :=
  if bool_decide (orphans resolvers ++ orphans ks_of ++ orphans extra ++ orphans notify_cls = [])
  then Some ((fun p => (p.1, stamp p.1 p.2)) <$> t) else None.

(** The number of problems [metadata_selfcheck] counts in the command rows. *)
Definition metadata_problems (t : list (bytes * CmdSpec)) : nat :=
  length (filter (fun p => acl_cats p.2 = 0) t) +
  length (filter (fun p => Z.land (acl_cats p.2) (Z.lor CAT_ADMIN CAT_DANGEROUS) <> 0 /\
                           Z.land (acl_cats p.2) (Z.lor CAT_READ CAT_WRITE) <> 0) t).

(** The table as the running server sees it. *)
Definition cmd_table : list (bytes * CmdSpec) := (fun p => (p.1, stamp p.1 p.2)) <$> k_cmd_table.

(** ** The dispatch map *)

Record DispatchEntry := mkDispatch { canonical : bytes; spec : CmdSpec }.

Definition rename_one (d : gmap bytes DispatchEntry) (r : bytes * bytes) : gmap bytes DispatchEntry :=
  match d !! r.1 with
  | None => d
  | Some entry =>
      let d := delete r.1 d in
      if bool_decide (r.2 = []) then d
      else match d !! r.2 with Some _ => d | None => <[r.2 := entry]> d end   (* emplace *)
  end.

Definition dispatch_base (t : list (bytes * CmdSpec)) : gmap bytes DispatchEntry :=
  list_to_map ((fun p => (p.1, mkDispatch p.1 p.2)) <$> t).

Definition dispatch_build (t : list (bytes * CmdSpec)) (renames : list (bytes * bytes)) : gmap bytes DispatchEntry :=
  foldl rename_one (dispatch_base t) renames.

(** ** Lemmas *)

Lemma find_row_None {A} n (t : list (bytes * A)) : find_row n t = None <-> n ∉ t.*1.
Proof.
  induction t as [|[m a] t IH]; cbn; [split; [set_solver|done]|].
  case_bool_decide as E; [split; [done|set_solver]|]. rewrite IH. set_solver.
Qed.

Lemma find_row_Some {A} n (a : A) (t : list (bytes * A)) : find_row n t = Some a -> (n, a) ∈ t.
Proof.
  induction t as [|[m b] t IH]; cbn; [done|]. case_bool_decide as E; [intros [= ->]; rewrite E; constructor|]. intros H. constructor. by apply IH.
Qed.

Lemma find_row_map {A} n (t : list (bytes * A)) : NoDup t.*1 -> find_row n t = (list_to_map t : gmap bytes A) !! n.
Proof.
  induction t as [|[m a] t IH]; cbn; [by rewrite lookup_empty|]. intros Hd. apply NoDup_cons in Hd as [Hm Hd].
  case_bool_decide as E; [subst; by rewrite lookup_insert_eq|]. rewrite lookup_insert_ne by done. by apply IH.
Qed.

Lemma names_distinct : NoDup k_cmd_table.*1.
Proof. apply (bool_decide_unpack _). vm_compute. reflexivity. Qed.

Lemma find_row_fmap {A B} (f : bytes -> A -> B) n (t : list (bytes * A)) :
  find_row n ((fun p => (p.1, f p.1 p.2)) <$> t) = f n <$> find_row n t.
Proof. induction t as [|[m a] t IH]; cbn; [done|]. case_bool_decide as E; [by subst|]. apply IH. Qed.

Lemma acl_init_ok : acl_init_categories k_cmd_table = Some cmd_table.
Proof. unfold acl_init_categories. rewrite bool_decide_eq_true_2; [done|]. vm_compute. reflexivity. Qed.

(** What the [rename-command] directive lets through. *)
Definition rename_ok (rs : list (bytes * bytes)) (r : bytes * bytes) : Prop :=
  command_is_known r.1 = true /\ r.1 ∉ rs.*1 /\
  (r.2 <> [] -> command_is_known r.2 = false /\ r.2 ∉ rs.*2).

Inductive renames_ok : list (bytes * bytes) -> Prop :=
| renames_nil : renames_ok []
| renames_snoc rs r : renames_ok rs -> rename_ok rs r -> renames_ok (rs ++ [r]).

Lemma known_row n : command_is_known n = true <-> is_Some (find_row n cmd_table).
Proof.
  unfold command_is_known, cmd_table. rewrite bool_decide_eq_true, find_row_fmap. by rewrite fmap_is_Some.
Qed.

Lemma unknown_row n : command_is_known n = false -> find_row n cmd_table = None.
Proof. intros H. apply eq_None_not_Some. rewrite <- known_row. by rewrite H. Qed.

Lemma cmd_table_names : cmd_table.*1 = k_cmd_table.*1.
Proof. unfold cmd_table. rewrite <- list_fmap_compose. by apply list_fmap_ext. Qed.

Lemma dispatch_base_lookup n : dispatch_base cmd_table !! n = mkDispatch n <$> find_row n cmd_table.
Proof.
  unfold dispatch_base. rewrite <- find_row_map.
  - apply (find_row_fmap (fun m s => mkDispatch m s)).
  - rewrite <- list_fmap_compose. assert ((fst ∘ λ p : bytes * CmdSpec, (p.1, mkDispatch p.1 p.2)) <$> cmd_table = cmd_table.*1) as ->
      by by apply list_fmap_ext.
    rewrite cmd_table_names. apply names_distinct.
Qed.

(** The typed name [n] stands for the command [c]. *)
Definition stands_for (rs : list (bytes * bytes)) (n c : bytes) : Prop :=
  (n = c /\ c ∉ rs.*1) \/ (n <> [] /\ (c, n) ∈ rs).

Lemma fst_elem {A B} (p : A * B) (l : list (A * B)) : p ∈ l -> p.1 ∈ l.*1.
Proof. apply list_elem_of_fmap_2. Qed.

Lemma snd_elem {A B} (p : A * B) (l : list (A * B)) : p ∈ l -> p.2 ∈ l.*2.
Proof. apply list_elem_of_fmap_2. Qed.

Lemma renames_new rs c n : renames_ok rs -> (c, n) ∈ rs -> n <> [] -> command_is_known n = false.
Proof.
  induction 1 as [|rs r _ IH Hr]; [set_solver|]. rewrite elem_of_app, list_elem_of_singleton. intros [H|<-] Hn; [by apply IH|].
  by apply Hr.
Qed.

#[local] Opaque cmd_table command_is_known find_row.

(** Elsewhere a rename changes nothing. *)
Lemma stands_for_snoc rs old new n c : n <> old -> (new <> [] -> n <> new) ->
  stands_for (rs ++ [(old, new)]) n c <-> stands_for rs n c.
Proof.
  intros H1 H2. unfold stands_for. rewrite fmap_app. cbn. rewrite !elem_of_app, !list_elem_of_singleton. split.
  - intros [[-> H]|[Hn [H|H]]]; [left; split; [done|]; set_solver|by right|]. injection H as -> ->. by destruct (H2 Hn).
  - intros [[-> H]|[Hn H]]; [left; split; [done|]; set_solver|right; split; [done|by left]].
Qed.

Lemma dispatch_build_lookup rs n e : renames_ok rs ->
  dispatch_build cmd_table rs !! n = Some e <-> find_row (canonical e) cmd_table = Some (spec e) /\ stands_for rs n (canonical e).
Proof.
  intros Hok. revert n e. induction Hok as [|rs [old new] Hok IH Hr]; intros n e.
  { cbn [dispatch_build foldl]. unfold dispatch_build. cbn [foldl]. rewrite dispatch_base_lookup. unfold stands_for. split.
    - destruct (find_row n cmd_table) as [s|] eqn:E; [|done]. intros [= <-]. split; [done|]. left. split; [done|set_solver].
    - intros [H1 [[-> _]|[_ ?]]]; [|set_solver]. rewrite H1. by destruct e. }
  destruct Hr as (Hk & Hold & Hnew). cbn [fst snd] in *. unfold dispatch_build. rewrite foldl_app. cbn [foldl].
  fold (dispatch_build cmd_table rs). pose proof Hk as Hk'. apply known_row in Hk' as [s Hs].
  assert (Hcur : dispatch_build cmd_table rs !! old = Some (mkDispatch old s)) by (apply IH; split; [done|by left]).
  unfold rename_one. cbn [fst snd]. rewrite Hcur.
  assert (Hon : new <> [] -> new <> old) by (intros H ->; destruct (Hnew H); congruence).
  assert (Hfree : new <> [] -> delete old (dispatch_build cmd_table rs) !! new = None).
  { intros H. destruct (Hnew H) as [Hu Hin]. rewrite lookup_delete_ne by (by apply not_eq_sym, Hon). apply eq_None_not_Some. intros [e' He].
    apply IH in He as [He [[-> _]|[_ Hm]]]; [by rewrite (unknown_row _ Hu) in He|by apply snd_elem in Hm]. }
  assert (Hd : (if bool_decide (new = []) then delete old (dispatch_build cmd_table rs)
     else match delete old (dispatch_build cmd_table rs) !! new with
          | Some _ => delete old (dispatch_build cmd_table rs)
          | None => <[new:=mkDispatch old s]> (delete old (dispatch_build cmd_table rs)) end) !! n =
     if decide (n = old) then None else if decide (n = new /\ new <> []) then Some (mkDispatch old s) else dispatch_build cmd_table rs !! n).
  { case_bool_decide as E.
    - destruct (decide (n = old)) as [->|Ho]; [by rewrite lookup_delete_eq|]. rewrite decide_False by naive_solver.
      by rewrite lookup_delete_ne.
    - rewrite Hfree by done. destruct (decide (n = old)) as [->|Ho].
      + rewrite lookup_insert_ne by (by apply Hon). by rewrite lookup_delete_eq.
      + destruct (decide (n = new /\ new <> [])) as [[-> _]|Hn]; [by rewrite lookup_insert_eq|].
        rewrite lookup_insert_ne by naive_solver. by rewrite lookup_delete_ne. }
  rewrite Hd. clear Hd Hfree. destruct (decide (n = old)) as [->|Ho]; [|destruct (decide (n = new /\ new <> [])) as [[-> Hne]|Hn]].
  - split; [done|]. intros [_ [[<- H]|[H1 H]]]; [rewrite fmap_app in H; set_solver|].
    rewrite elem_of_app, list_elem_of_singleton in H. destruct H as [H|H].
    + pose proof (renames_new rs _ _ Hok H H1). congruence.
    + injection H as _ ->. by destruct (Hon H1).
  - destruct (Hnew Hne) as [Hu Hin]. split.
    + intros [= <-]. split; [done|]. right. split; [done|]. rewrite elem_of_app. right. by apply list_elem_of_singleton.
    + intros [H1 [[-> _]|[_ H]]]; [by rewrite (unknown_row _ Hu) in H1|]. rewrite elem_of_app, list_elem_of_singleton in H.
      destruct H as [H|H]; [by apply snd_elem in H|]. injection H as H. destruct e as [c sp]. cbn in *. subst c.
      rewrite Hs in H1. by injection H1 as ->.
  - rewrite IH. rewrite stands_for_snoc by naive_solver. done.
Qed.

Lemma renames_unique rs c n1 n2 : renames_ok rs -> (c, n1) ∈ rs -> (c, n2) ∈ rs -> n1 = n2.
Proof.
  induction 1 as [|rs [o m] _ IH (_ & Ho & _)]; [set_solver|]. cbn [fst snd] in *.
  rewrite !elem_of_app, !list_elem_of_singleton. intros [H1|H1] [H2|H2]; [by apply IH|..|congruence].
  - injection H2 as -> ->. by apply fst_elem in H1.
  - injection H1 as -> ->. by apply fst_elem in H2.
Qed.

Lemma stands_for_unique rs c n1 n2 : renames_ok rs -> stands_for rs n1 c -> stands_for rs n2 c -> n1 = n2.
Proof.
  intros Hok [[-> H1]|[_ H1]] [[-> H2]|[_ H2]]; [done|by apply fst_elem in H2|by apply fst_elem in H1|by eapply renames_unique].
Qed.
