(* ===== verification/Handlers.v ===== *)
(** * The handlers behind the command table (src/src/commands/commands.cpp 5596-5697)

    The [fn] of each row whose handler is modelled.  The table itself, with
    the arities and flags, is CmdTable.v.  KEYS and the SCAN family, whose
    pattern match can leave its subject, return a value of their own type and
    are not in this list. *)
From S2P Require Import Prelude Buffer Resp StdString Deque Hashtable HashMap Heap Score ZSet HashSet State World Args Strings Lists Glob Keys Containers Hashes Sets ZCommands FloatCmd CmdTable.

Definition Handler : Type := list sstr -> M ().

Definition h (name : string) (fn : Handler) : bytes * Handler := (bs name, fn).

Definition cmd_fns : list (bytes * Handler) :=
  [h "get" do_get; h "set" do_set; h "incr" do_incr; h "decr" do_decr; h "incrby" do_incrby; h "decrby" do_decrby;
   h "setex" do_setex; h "psetex" do_psetex; h "setnx" do_setnx; h "getset" do_getset; h "getdel" do_getdel;
   h "getex" do_getex; h "append" do_append; h "strlen" do_strlen; h "getrange" do_getrange; h "setrange" do_setrange;
   h "mget" do_mget; h "mset" do_mset; h "msetnx" do_msetnx;
   h "del" do_del; h "exists" do_exists; h "type" do_type; h "rename" do_rename; h "renamenx" do_renamenx; h "touch" do_touch;
   h "randomkey" do_randomkey; h "dbsize" do_dbsize; h "flushall" do_flushall; h "flushdb" do_flushall;
   h "expire" do_expire; h "pexpire" do_pexpire; h "expireat" do_expireat; h "pexpireat" do_pexpireat;
   h "ttl" do_ttl_seconds; h "pttl" do_ttl; h "persist" do_persist;
   h "lpush" do_lpush; h "rpush" do_rpush; h "lpop" do_lpop; h "rpop" do_rpop; h "llen" do_llen; h "lindex" do_lindex;
   h "lrange" do_lrange; h "lset" do_lset; h "linsert" do_linsert; h "lrem" do_lrem; h "ltrim" do_ltrim;
   h "hset" do_hset; h "hget" do_hget; h "hdel" do_hdel; h "hexists" do_hexists; h "hlen" do_hlen; h "hgetall" do_hgetall;
   h "hkeys" do_hkeys; h "hvals" do_hvals; h "hmget" do_hmget; h "hsetnx" do_hsetnx; h "hincrby" do_hincrby; h "hstrlen" do_hstrlen;
   h "sadd" do_sadd; h "srem" do_srem; h "sismember" do_sismember; h "smismember" do_smismember; h "scard" do_scard;
   h "smembers" do_smembers; h "spop" do_spop; h "srandmember" do_srandmember; h "sinter" do_sinter; h "sunion" do_sunion;
   h "sdiff" do_sdiff; h "sinterstore" do_sinterstore; h "sunionstore" do_sunionstore; h "sdiffstore" do_sdiffstore; h "smove" do_smove;
   h "zadd" do_zadd; h "zrem" do_zrem; h "zscore" do_zscore; h "zrank" do_zrank; h "zrevrank" do_zrevrank; h "zcard" do_zcard;
   h "zcount" do_zcount; h "zrange" do_zrange; h "zrevrange" do_zrevrange; h "zrangebyscore" do_zrangebyscore;
   h "zrevrangebyscore" do_zrevrangebyscore; h "zincrby" do_zincrby; h "zremrangebyscore" do_zremrangebyscore;
   h "zremrangebyrank" do_zremrangebyrank; h "zpopmin" do_zpopmin; h "incrbyfloat" do_incrbyfloat].

(** The handler of a name; [other] stands for those not modelled. *)
Definition cmd_fn (other : bytes -> Handler) (name : bytes) : Handler := default (other name) (find_row name cmd_fns).
