(* ===== verification/Acl.v ===== *)
(** * Access control (src/src/commands/commands.cpp 4736-5056, 5236-5256)

    Users with command and key permissions, the check every command passes,
    the rules of ACL SETUSER, and the line a user is written to the
    configuration file as.  Password hashing ([cred_hash_new], [cred_verify])
    is code of the Argon2 library: a parameter. *)
From S2P Require Import Prelude Buffer Resp Args Glob StdString Deque Hashtable HashMap Heap Score ZSet HashSet State World Strings Lists Keys CText CmdTable.

Record User := mkUser {
  allow_cats : Z;
  cmd_overrides : gmap bytes bool;
  pw_hashes : list bytes;
  key_patterns : list bytes;
  channel_patterns : list bytes;
  user_name : bytes;
  enable : bool;
  all_keys : bool;
  all_channels : bool;
}.

(** [User()] *)
Definition fresh_user : User := mkUser 0 ∅ [] [] [] [] true false false.

Definition set_cats (c : Z) (o : gmap bytes bool) (u : User) : User :=
  mkUser c o (pw_hashes u) (key_patterns u) (channel_patterns u) (user_name u) (enable u) (all_keys u) (all_channels u).
Definition set_pw (l : list bytes) (u : User) : User :=
  mkUser (allow_cats u) (cmd_overrides u) l (key_patterns u) (channel_patterns u) (user_name u) (enable u) (all_keys u) (all_channels u).
Definition set_keys (l : list bytes) (all : bool) (u : User) : User :=
  mkUser (allow_cats u) (cmd_overrides u) (pw_hashes u) l (channel_patterns u) (user_name u) (enable u) all (all_channels u).
Definition set_channels (l : list bytes) (all : bool) (u : User) : User :=
  mkUser (allow_cats u) (cmd_overrides u) (pw_hashes u) (key_patterns u) l (user_name u) (enable u) (all_keys u) all.
Definition set_enable (b : bool) (u : User) : User :=
  mkUser (allow_cats u) (cmd_overrides u) (pw_hashes u) (key_patterns u) (channel_patterns u) (user_name u) b (all_keys u) (all_channels u).
Definition set_name (n : bytes) (u : User) : User :=
  mkUser (allow_cats u) (cmd_overrides u) (pw_hashes u) (key_patterns u) (channel_patterns u) n (enable u) (all_keys u) (all_channels u).

(** ** The check *)

(** [Undefined]: a pattern match left its subject. *)
Inductive Verdict := Allowed | Denied (msg : bytes) | Undefined.

Fixpoint acl_any (pats : list bytes) (key : bytes) : option bool :=
  match pats with
  | [] => Some false
  | pat :: pats' =>
      match glob pat key with
      | GDone true => Some true
      | GDone false => acl_any pats' key
      | _ => None
      end
  end.

Definition acl_key_allowed (u : User) (key : bytes) : option bool := acl_any (key_patterns u) key.

Definition msg_disabled : bytes := bs "NOPERM this user is disable".
Definition msg_command : bytes := bs "NOPERM this user has no permissions to run this command".
Definition msg_key : bytes := bs "NOPERM no permissions to access one of the keys used as arguments".
Definition msg_channel : bytes := bs "NOPERM no permissions to access one of the channels used as arguments".

Fixpoint check_keys (u : User) (ks : list bytes) : Verdict :=
  match ks with
  | [] => Allowed
  | k :: ks' =>
      match acl_key_allowed u k with
      | Some true => check_keys u ks'
      | Some false => Denied msg_key
      | None => Undefined
      end
  end.

Definition may_run (u : User) (name : bytes) (spec : CmdSpec) : bool :=
  match cmd_overrides u !! name with
  | Some b => b
  | None => negb (Z.land (acl_cats spec) (allow_cats u) =? 0)
  end.

Definition acl_check (u : option User) (name : bytes) (spec : CmdSpec) (cmd : list bytes) : Verdict :=
  match u with
  | None => Denied msg_disabled
  | Some u =>
      if negb (enable u) then Denied msg_disabled
      else if negb (may_run u name spec) then Denied msg_command
      else if all_keys u then Allowed
      else check_keys u (cmd_collect_keys spec cmd)
  end.

Definition acl_channel_check (u : option User) (chan : bytes) (literal : bool) : Verdict :=
  match u with
  | None => Denied msg_channel
  | Some u =>
      if all_channels u then Allowed
      else
        let hit := if literal then Some (bool_decide (chan ∈ channel_patterns u)) else acl_any (channel_patterns u) chan in
        match hit with Some true => Allowed | Some false => Denied msg_channel | None => Undefined end
  end.

(** ** Rules *)

Definition cat_names : list (bytes * Z) :=
  [(bs "read", CAT_READ); (bs "write", CAT_WRITE); (bs "keyspace", CAT_KEYSPACE); (bs "admin", CAT_ADMIN);
   (bs "dangerous", CAT_DANGEROUS); (bs "fast", CAT_FAST); (bs "slow", CAT_SLOW); (bs "connection", CAT_CONNECTION);
   (bs "transaction", CAT_TRANSACTION)].

(** 0: no such category *)
Definition acl_cat_bit (n : bytes) : Z := default 0 (find_row n (cat_names ++ [(bs "all", CAT_ALL)])).

Definition acl_token_ok (s : bytes) : bool :=
  negb (bool_decide (s = [])) && forallb (fun c => negb ((code c <=? 32) || (code c =? 127))) s.

Definition isxdigit (c : ascii) : bool :=
  is_digit c || ((65 <=? code c) && (code c <=? 70)) || ((97 <=? code c) && (code c <=? 102)).

(** [t.rfind(p, 0) == 0] *)
Definition starts_with (p : string) (t : bytes) : bool := bool_decide (take (length (bs p)) t = bs p).

(** [t.size() > 1 && t\[0\] == c] *)
Definition tagged (c : Z) (t : bytes) : bool := (2 <=? length t)%nat && bool_decide (t !! 0%nat = Some (chr c)).

Section Rules.
Context (cred_hash_new : bytes -> bytes) (cred_verify : bytes -> bytes -> bool).

(** One SETUSER modifier; [None] is [return false]. *)
Definition acl_apply_rule (u : User) (t : bytes) : option User :=
  let named s := bool_decide (t = bs s) in
  let rest := drop 1 t in
  if named "on" then Some (set_enable true u)
  else if named "off" then Some (set_enable false u)
  else if named "reset" then Some fresh_user
  else if named "resetpass" || named "nopass" then Some (set_pw [] u)
  else if named "resetkeys" then Some (set_keys [] false u)
  else if (length t =? 65)%nat && bool_decide (t !! 0%nat = Some c_hash) then
    if forallb isxdigit rest then Some (set_pw (pw_hashes u ++ [rest]) u) else None
  else if named "allchannels" || named "&*" then Some (set_channels [] true u)
  else if named "resetchannels" then Some (set_channels [] false u)
  else if tagged 38 t then
    if acl_token_ok rest then Some (set_channels (channel_patterns u ++ [rest]) (all_channels u) u) else None
  else if named "allkeys" || named "~*" then Some (set_keys [] true u)
  else if named "allcommands" || named "+@all" then Some (set_cats CAT_ALL ∅ u)
  else if named "nocommands" || named "-@all" then Some (set_cats 0 ∅ u)
  else if tagged 62 t then
    let h := cred_hash_new rest in
    if bool_decide (h = []) then None else Some (set_pw (pw_hashes u ++ [h]) u)
  else if tagged 60 t then Some (set_pw (filter (fun h => cred_verify rest h = false) (pw_hashes u)) u)
  else if starts_with "$argon2id$" t then
    if (512 <? length t)%nat then None else Some (set_pw (pw_hashes u ++ [t]) u)
  else if tagged 126 t then
    if acl_token_ok rest then Some (set_keys (key_patterns u ++ [rest]) (all_keys u) u) else None
  else if starts_with "+@" t then
    let b := acl_cat_bit (drop 2 t) in
    if b =? 0 then None else Some (set_cats (Z.lor (allow_cats u) b) (cmd_overrides u) u)
  else if starts_with "-@" t then
    let b := acl_cat_bit (drop 2 t) in
    if b =? 0 then None else Some (set_cats (clear_bits (allow_cats u) b) (cmd_overrides u) u)
  else if tagged 43 t || tagged 45 t then
    let c := map tolower rest in
    if command_is_known c
    then Some (set_cats (allow_cats u) (<[c := bool_decide (t !! 0%nat = Some (chr 43))]> (cmd_overrides u)) u)
    else None
  else None.

(** The rules of one command or one line, in order. *)
Fixpoint apply_rules (u : User) (ts : list bytes) : User * option bytes :=
  match ts with
  | [] => (u, None)
  | t :: ts' => match acl_apply_rule u t with Some u' => apply_rules u' ts' | None => (u, Some t) end
  end.
End Rules.

(** ** The user's line *)

Section Format.
(** The order in which an [unordered_map] is walked. *)
Context (order : gmap bytes bool -> list (bytes * bool)).

Definition pw_text (for_config : bool) (h : bytes) : bytes :=
  if negb for_config then bs "#<hash>"
  else if starts_with "$argon2id$" h then in_quotes h else in_quotes (c_hash :: h).

Definition cat_rules (cats : Z) : list bytes :=
  if cats =? CAT_ALL then [bs "+@all"]
  else bs "-@all" :: ((fun p => bs "+@" ++ p.1) <$> filter (fun p => Z.land cats p.2 <> 0) cat_names).

Definition override_rule (p : bytes * bool) : bytes := (if p.2 : bool then chr 43 else chr 45) :: p.1.

Definition on_off (b : bool) : bytes := if b then bs "on" else bs "off".
Definition key_rules (u : User) : list bytes := if all_keys u then [bs "~*"] else cons (chr 126) <$> key_patterns u.
Definition channel_rules (u : User) : list bytes := if all_channels u then [bs "&*"] else cons (chr 38) <$> channel_patterns u.

(** The words after the name. *)
Definition acl_words (u : User) (for_config : bool) : list bytes :=
  on_off (enable u) ::
  (if bool_decide (pw_hashes u = []) then [bs "nopass"] else pw_text for_config <$> pw_hashes u) ++
  key_rules u ++ channel_rules u ++ cat_rules (allow_cats u) ++ (override_rule <$> order (cmd_overrides u)).

Definition acl_format_user (name : bytes) (u : User) (for_config : bool) : bytes :=
  bs "user" ++ concat (cons (chr 32) <$> name :: acl_words u for_config).
End Format.

(** ** When a line can be read back *)

Definition safe_phc (h : bytes) : Prop :=
  starts_with "$argon2id$" h = true /\ (length h <= 512)%nat /\ printable h /\ c_quote ∉ h /\ c_back ∉ h.
Definition pw_ok (h : bytes) : Prop := (length h = 64%nat /\ forallb isxdigit h = true) \/ safe_phc h.
Definition pattern_ok (p : bytes) : Prop := acl_token_ok p = true /\ p <> bs "*".

Record user_ok (u : User) : Prop := {
  uo_pw : Forall pw_ok (pw_hashes u);
  uo_keys : Forall pattern_ok (key_patterns u);
  uo_channels : Forall pattern_ok (channel_patterns u);
  uo_cmds : map_Forall (fun c _ => command_is_known c = true) (cmd_overrides u);
}.

(** ** Users that no check can tell apart *)

Definition CAT_KNOWN : Z := 511.

Record user_equiv (u v : User) : Prop := {
  ue_cats : Z.land (allow_cats u) CAT_KNOWN = Z.land (allow_cats v) CAT_KNOWN;
  ue_cmds : cmd_overrides u = cmd_overrides v;
  ue_pw : pw_hashes u = pw_hashes v;
  ue_enable : enable u = enable v;
  ue_all_keys : all_keys u = all_keys v;
  ue_keys : all_keys u = false -> key_patterns u = key_patterns v;
  ue_all_channels : all_channels u = all_channels v;
  ue_channels : all_channels u = false -> channel_patterns u = channel_patterns v;
}.

#[global] Instance user_equiv_equivalence : Equivalence user_equiv.
Proof.
  split.
  - intros u. by split.
  - intros u v []. split; try congruence; intros.
    + symmetry. apply ue_keys0. congruence.
    + symmetry. apply ue_channels0. congruence.
  - intros u v w [] []. split; try congruence.
    + intros H. rewrite ue_keys0 by done. apply ue_keys1. congruence.
    + intros H. rewrite ue_channels0 by done. apply ue_channels1. congruence.
Qed.

(** Every category a command carries is one of the nine. *)
Definition known_cats (spec : CmdSpec) : Prop := Z.land (acl_cats spec) CAT_KNOWN = acl_cats spec.

Lemma cmd_table_cats : Forall (fun p => known_cats p.2) cmd_table.
Proof. apply (bool_decide_unpack _). vm_compute. reflexivity. Qed.

Lemma may_run_equiv u v name spec : known_cats spec -> user_equiv u v -> may_run u name spec = may_run v name spec.
Proof.
  intros Hs []. unfold may_run. rewrite ue_cmds0. destruct (cmd_overrides v !! name); [done|].
  rewrite <- Hs, <- !Z.land_assoc, !(Z.land_comm CAT_KNOWN), ue_cats0. done.
Qed.

Lemma check_keys_equiv u v ks : key_patterns u = key_patterns v -> check_keys u ks = check_keys v ks.
Proof. intros H. induction ks as [|k ks IH]; cbn; [done|]. unfold acl_key_allowed. rewrite H. destruct (acl_any _ k) as [[]|]; done. Qed.

Lemma acl_check_equiv u v name spec cmd :
  known_cats spec -> user_equiv u v -> acl_check (Some u) name spec cmd = acl_check (Some v) name spec cmd.
Proof.
  intros Hs Huv. unfold acl_check. rewrite (may_run_equiv u v name spec Hs Huv). destruct Huv. rewrite ue_enable0.
  destruct (negb (enable v)); [done|]. destruct (negb (may_run v name spec)); [done|]. rewrite ue_all_keys0 in *.
  destruct (all_keys v); [done|]. apply check_keys_equiv. auto.
Qed.

#[global] Instance acl_channel_check_proper : Proper (user_equiv ==> eq ==> eq ==> eq) (fun u => acl_channel_check (Some u)).
Proof.
  intros u v [] chan ? <- lit ? <-. unfold acl_channel_check. rewrite ue_all_channels0 in *. destruct (all_channels v); [done|].
  rewrite ue_channels0 by done. done.
Qed.

(** ** What one rule does *)

(** The tests of [acl_apply_rule] that the first character decides. *)
Ltac rule_tests :=
  unfold acl_apply_rule, tagged;
  repeat first
    [ rewrite bool_decide_eq_false_2 by discriminate
    | rewrite drop_0
    | progress cbn [orb andb negb length lookup list_lookup drop app] ].

(** The names of the table are lower-case words. *)
Definition lower_word (n : bytes) : bool := negb (bool_decide (n = [])) && forallb (fun c => (97 <=? code c) && (code c <=? 122)) n.

Lemma known_lower n : command_is_known n = true -> lower_word n = true.
Proof.
  intros H. unfold command_is_known in H. apply bool_decide_eq_true in H as [s Hs]. apply find_row_Some, fst_elem in Hs.
  assert (Hall : Forall (fun m => lower_word m = true) k_cmd_table.*1) by (apply (bool_decide_unpack _); vm_compute; reflexivity).
  rewrite Forall_forall in Hall. by apply Hall.
Qed.

Lemma lower_id n : lower_word n = true -> map tolower n = n.
Proof.
  intros H. apply andb_true_iff in H as [_ H]. induction n as [|c n IH]; [done|]. cbn in *. apply andb_true_iff in H as [Hc H].
  rewrite IH by done. f_equal. unfold tolower. by assert ((65 <=? code c) && (code c <=? 90) = false) as -> by lia.
Qed.

Lemma lower_head n : lower_word n = true -> exists c t, n = c :: t /\ c <> chr 64.
Proof.
  intros H. apply andb_true_iff in H as [Hn H]. destruct n as [|c t]; [done|]. exists c, t. split; [done|]. intros ->.
  cbn in H. done.
Qed.

Section Rule_lemmas.
Context (cred_hash_new : bytes -> bytes) (cred_verify : bytes -> bytes -> bool).
Local Abbreviation rule := (acl_apply_rule cred_hash_new cred_verify).

Lemma rule_on_off b u : rule u (on_off b) = Some (set_enable b u).
Proof. by destruct b. Qed.

Lemma rule_nopass u : rule u (bs "nopass") = Some (set_pw [] u).
Proof. done. Qed.

Lemma rule_hash u h : length h = 64%nat -> forallb isxdigit h = true -> rule u (c_hash :: h) = Some (set_pw (pw_hashes u ++ [h]) u).
Proof.
  intros Hl Hx. rule_tests. rewrite Hl. cbn [Nat.eqb andb]. rewrite (bool_decide_eq_true_2 (Some c_hash = Some c_hash)) by done.
  by rewrite Hx.
Qed.

Lemma rule_phc u h : starts_with "$argon2id$" h = true -> (length h <= 512)%nat -> rule u h = Some (set_pw (pw_hashes u ++ [h]) u).
Proof.
  intros Hs Hl. assert (exists t, h = chr 36 :: t) as [t ->].
  { apply bool_decide_eq_true in Hs. destruct h as [|c t]; [done|]. injection Hs as -> _. by eexists. }
  rule_tests. rewrite !andb_false_r, Hs. cbv beta iota. by rewrite (proj2 (Nat.ltb_ge _ _)).
Qed.

Lemma rule_key u p : pattern_ok p -> rule u (chr 126 :: p) = Some (set_keys (key_patterns u ++ [p]) (all_keys u) u).
Proof.
  intros [Ht Hp]. rule_tests. rewrite !andb_false_r. rewrite (bool_decide_eq_false_2 (_ = bs "~*")) by (intros [=]; done).
  destruct p as [|c p]; [done|]. rule_tests. rewrite (bool_decide_eq_true_2 (Some (chr 126) = Some (chr 126))) by done. 
  cbn [length Nat.leb andb]. by rewrite Ht.
Qed.

Lemma rule_channel u p : pattern_ok p -> rule u (chr 38 :: p) = Some (set_channels (channel_patterns u ++ [p]) (all_channels u) u).
Proof.
  intros [Ht Hp]. rule_tests. rewrite andb_false_r. rewrite (bool_decide_eq_false_2 (_ = bs "&*")) by (intros [=]; done).
  destruct p as [|c p]; [done|]. rule_tests. rewrite (bool_decide_eq_true_2 (Some (chr 38) = Some (chr 38))) by done. 
  cbn [length Nat.leb andb]. by rewrite Ht.
Qed.

Lemma rule_override u c b : command_is_known c = true ->
  rule u (override_rule (c, b)) = Some (set_cats (allow_cats u) (<[c := b]> (cmd_overrides u)) u).
Proof.
  intros Hk. pose proof (known_lower c Hk) as Hl. pose proof (lower_id c Hl) as Hid. destruct (lower_head c Hl) as (x & t & Hc & Hx).
  assert (Hat : forall y, chr y :: c <> chr y :: bs "@all") by (intros y [= Hy]; rewrite Hc in Hy; injection Hy as Hy _; done).
  assert (Hsw : forall y z, bool_decide (take 2 (chr y :: c) = [chr z; chr 64]) = false).
  { intros y z. apply bool_decide_eq_false_2. rewrite Hc. cbn. intros [= _ Hy]. done. }
  assert (Hlen : (2 <=? S (length c))%nat = true) by (by rewrite Hc).
  unfold override_rule. cbn [fst snd]. destruct b; rule_tests; rewrite !andb_false_r.
  - rewrite (bool_decide_eq_false_2 (_ = bs "+@all")) by apply (Hat 43). rule_tests. unfold starts_with.
    change (bs "+@") with [chr 43; chr 64]. change (bs "-@") with [chr 45; chr 64]. cbn [length]. rewrite !(Hsw 43).
    rewrite Hlen, Hid, Hk. done.
  - rewrite (bool_decide_eq_false_2 (_ = bs "-@all")) by apply (Hat 45). rule_tests. unfold starts_with.
    change (bs "+@") with [chr 43; chr 64]. change (bs "-@") with [chr 45; chr 64]. cbn [length]. rewrite !(Hsw 45).
    rewrite Hlen, Hid, Hk. done.
Qed.

Local Abbreviation rules := (apply_rules cred_hash_new cred_verify).

Lemma apply_rules_app u a b :
  rules u (a ++ b) = match rules u a with (u', None) => rules u' b | r => r end.
Proof. revert u. induction a as [|t a IH]; intros u; cbn; [done|]. destruct (rule u t); [apply IH|done]. Qed.

(** A group of rules that each extend a part of the user. *)
Lemma rules_each {A} (f : A -> bytes) (step : User -> A -> User) l u :
  (forall a v, a ∈ l -> rule v (f a) = Some (step v a)) -> rules u (f <$> l) = (foldl step u l, None).
Proof.
  revert u. induction l as [|a l IH]; intros u H; [done|]. cbn. rewrite H by left. apply IH. intros b v Hb. apply H. by right.
Qed.

(** The words without their quotes. *)
Definition pw_rule (h : bytes) : bytes := if starts_with "$argon2id$" h then h else c_hash :: h.

Lemma rules_pw l u : Forall pw_ok l -> rules u (pw_rule <$> l) = (set_pw (pw_hashes u ++ l) u, None).
Proof.
  intros Hl. rewrite (rules_each _ (fun v h => set_pw (pw_hashes v ++ [h]) v)).
  - f_equal. revert u. clear. induction l as [|h l IH]; intros u; cbn; [rewrite app_nil_r; by destruct u|].
    rewrite IH. cbn. by rewrite <- app_assoc.
  - rewrite Forall_forall in Hl. intros h v Hh. unfold pw_rule. destruct (Hl h Hh) as [[H1 H2]|(H1 & H2 & _)].
    + destruct (starts_with _ h) eqn:E; [|by apply rule_hash]. apply bool_decide_eq_true in E.
      destruct h as [|c h]; [done|]. injection E as -> _. by cbn in H2.
    + rewrite H1. by apply rule_phc.
Qed.

Lemma rules_keys l u : Forall pattern_ok l -> rules u (cons (chr 126) <$> l) = (set_keys (key_patterns u ++ l) (all_keys u) u, None).
Proof.
  intros Hl. rewrite (rules_each _ (fun v h => set_keys (key_patterns v ++ [h]) (all_keys v) v)).
  - f_equal. revert u. clear. induction l as [|h l IH]; intros u; cbn; [rewrite app_nil_r; by destruct u|].
    rewrite IH. cbn. by rewrite <- app_assoc.
  - rewrite Forall_forall in Hl. intros h v Hh. by apply rule_key, Hl.
Qed.

Lemma rules_channels l u :
  Forall pattern_ok l -> rules u (cons (chr 38) <$> l) = (set_channels (channel_patterns u ++ l) (all_channels u) u, None).
Proof.
  intros Hl. rewrite (rules_each _ (fun v h => set_channels (channel_patterns v ++ [h]) (all_channels v) v)).
  - f_equal. revert u. clear. induction l as [|h l IH]; intros u; cbn; [rewrite app_nil_r; by destruct u|].
    rewrite IH. cbn. by rewrite <- app_assoc.
  - rewrite Forall_forall in Hl. intros h v Hh. by apply rule_channel, Hl.
Qed.

Lemma rule_cat u p : p ∈ cat_names -> rule u (bs "+@" ++ p.1) = Some (set_cats (Z.lor (allow_cats u) p.2) (cmd_overrides u) u).
Proof. unfold cat_names. rewrite !elem_of_cons, elem_of_nil. intros H. repeat destruct H as [->|H]; done. Qed.

Lemma foldl_lor_bit (P : bytes * Z -> Prop) `{!forall p, Decision (P p)} l a i :
  Z.testbit (foldl (fun c p => Z.lor c p.2) a (filter P l)) i =
  Z.testbit a i || existsb (fun p => bool_decide (P p) && Z.testbit p.2 i) l.
Proof.
  revert a. induction l as [|p l IH]; intros a; [cbn; by rewrite orb_false_r|]. cbn [existsb]. rewrite filter_cons. destruct (decide (P p)).
  - cbn [foldl]. rewrite IH, Z.lor_spec, bool_decide_eq_true_2 by done. cbn [andb]. by rewrite orb_assoc.
  - rewrite IH, bool_decide_eq_false_2 by done. done.
Qed.

Lemma land_bit cats i : 0 <= i -> bool_decide (Z.land cats (Z.shiftl 1 i) <> 0) = Z.testbit cats i.
Proof.
  intros Hi. destruct (Z.testbit cats i) eqn:E.
  - apply bool_decide_eq_true_2. intros H0. assert (Hb : Z.testbit (Z.land cats (Z.shiftl 1 i)) i = false) by (by rewrite H0, Z.bits_0).
    rewrite Z.land_spec, E, Z.shiftl_spec, Z.sub_diag in Hb by lia. done.
  - apply bool_decide_eq_false_2. intros H0. apply H0. apply Z.bits_inj'. intros j Hj.
    rewrite Z.land_spec, Z.bits_0, Z.shiftl_spec by lia. destruct (decide (j = i)) as [->|Hne]; [by rewrite E|].
    assert (Z.testbit 1 (j - i) = false) as ->; [|by rewrite andb_false_r]. destruct (decide (j < i)); [by apply Z.testbit_neg_r; lia|].
    apply (Z.bits_above_log2 1); cbn; lia.
Qed.

Definition cats_back (cats : Z) : Z :=
  if cats =? CAT_ALL then CAT_ALL else foldl (fun c p => Z.lor c p.2) 0 (filter (fun p => Z.land cats p.2 <> 0) cat_names).

Lemma cats_back_known cats : Z.land (cats_back cats) CAT_KNOWN = Z.land cats CAT_KNOWN.
Proof.
  unfold cats_back. destruct (Z.eqb_spec cats CAT_ALL) as [->|_]; [done|]. apply Z.bits_inj'. intros i Hi. rewrite !Z.land_spec.
  destruct (decide (i < 9)) as [Hlt|Hge].
  - rewrite foldl_lor_bit. unfold cat_names. cbn [existsb snd]. unfold CAT_READ, CAT_WRITE, CAT_KEYSPACE, CAT_ADMIN, CAT_DANGEROUS, CAT_FAST, CAT_SLOW, CAT_CONNECTION, CAT_TRANSACTION.
    rewrite !land_bit by lia. f_equal. rewrite Z.bits_0. cbn [orb].
    assert (i = 0 \/ i = 1 \/ i = 2 \/ i = 3 \/ i = 4 \/ i = 5 \/ i = 6 \/ i = 7 \/ i = 8) as Hc by lia.
    repeat destruct Hc as [->|Hc]; [..|subst i]; cbn; rewrite ?andb_false_r, ?andb_true_r, ?orb_false_r; done.
  - assert (Z.testbit CAT_KNOWN i = false) as ->; [|by rewrite !andb_false_r]. apply Z.bits_above_log2; [done|]. cbn. lia.
Qed.

Lemma rules_cats u cats : rules u (cat_rules cats) = (set_cats (cats_back cats) ∅ u, None).
Proof.
  unfold cat_rules, cats_back. destruct (cats =? CAT_ALL); [done|]. cbn [apply_rules].
  change (rule u (bs "-@all")) with (Some (set_cats 0 ∅ u)). cbv iota beta.
  rewrite (rules_each _ (fun v p => set_cats (Z.lor (allow_cats v) p.2) (cmd_overrides v) v)).
  - f_equal. generalize (filter (fun p : bytes * Z => Z.land cats p.2 <> 0) cat_names). intros l.
    assert (Hgen : forall a, foldl (fun v p => set_cats (Z.lor (allow_cats v) p.2) (cmd_overrides v) v) (set_cats a ∅ u) l =
      set_cats (foldl (fun c p => Z.lor c p.2) a l) ∅ u); [|apply Hgen].
    induction l as [|p l IH]; intros a; cbn; [done|]. apply IH.
  - intros p v Hp. apply rule_cat. by apply list_elem_of_filter in Hp as [_ ?].
Qed.

Lemma rules_overrides l m u : l ≡ₚ map_to_list m -> map_Forall (fun c _ => command_is_known c = true) m -> cmd_overrides u = ∅ ->
  rules u (override_rule <$> l) = (set_cats (allow_cats u) m u, None).
Proof.
  intros Hl Hm Hu. rewrite (rules_each _ (fun v p => set_cats (allow_cats v) (<[p.1 := p.2]> (cmd_overrides v)) v)).
  - f_equal. assert (Hgen : forall v, foldl (fun v p => set_cats (allow_cats v) (<[p.1 := p.2]> (cmd_overrides v)) v) v l =
      set_cats (allow_cats v) (list_to_map (reverse l) ∪ cmd_overrides v) v).
    { clear. induction l as [|p l IH]; intros v; [cbn; rewrite (left_id_L ∅ (∪)); by destruct v|].
      cbn [foldl]. rewrite IH. unfold set_cats at 2. cbn [allow_cats cmd_overrides].
      rewrite reverse_cons, list_to_map_app. cbn [list_to_map foldr]. by rewrite <- (assoc_L (∪)), <- insert_union_l, (left_id_L ∅ (∪)). }
    rewrite Hgen, Hu, (right_id_L ∅ (∪)). f_equal. rewrite <- (list_to_map_to_list m) at 1. apply list_to_map_proper.
    + rewrite reverse_Permutation, Hl. apply NoDup_fst_map_to_list.
    + by rewrite reverse_Permutation.
  - intros [c b] v Hp. rewrite Hl in Hp. apply elem_of_map_to_list in Hp. cbn. apply rule_override. by apply (Hm c b).
Qed.
End Rule_lemmas.

(** ** A user's line, read back *)

Lemma escape_id v : c_quote ∉ v -> c_back ∉ v -> escape v = v.
Proof.
  induction v as [|c v IH]; [done|]. rewrite !not_elem_of_cons. intros [H1 H2] [H3 H4]. cbn [escape].
  rewrite !bool_decide_eq_false_2 by done. cbn [orb]. by rewrite IH.
Qed.

(** Words the tokenizer reads back, without zero bytes and newlines. *)
Definition clean (txt : bytes) : Prop := Forall (fun c => c <> c_zero /\ c <> c_lf) txt.
Definition word (txt t : bytes) : Prop := spells txt t /\ clean txt.

Lemma clean_no_zero v : clean v -> no_zero v.
Proof. intros H. eapply Forall_impl; [exact H|]. by intros c []. Qed.

Lemma printable_clean v : printable v -> clean v.
Proof. intros Hv. eapply Forall_impl; [exact Hv|]. intros c [H _]. split; intros ->; by vm_compute in H. Qed.

Lemma word_quoted h : c_quote ∉ h -> c_back ∉ h -> clean h -> word (in_quotes h) h.
Proof.
  intros H1 H2 H3. split; [rewrite <- (escape_id h H1 H2) at 1; constructor|]. unfold in_quotes.
  repeat first [apply Forall_app; split | constructor]; done.
Qed.

Definition solid (c : ascii) : bool := negb ((code c <=? 32) || (code c =? 127)).

Lemma solid_plain c : solid c = true -> isspace c = false /\ c <> c_zero /\ c <> c_lf.
Proof.
  unfold solid, isspace. intros H. apply negb_true_iff, orb_false_iff in H as [H1 H2]. split; [bool_facts; lia|]. split; intros ->; by vm_compute in H1.
Qed.

Lemma word_solid c t : forallb solid (c :: t) = true -> c <> c_hash -> c <> c_quote -> word (c :: t) (c :: t).
Proof.
  intros H H1 H2. assert (Hall : Forall (fun c => solid c = true) (c :: t)).
  { apply Forall_forall. intros x Hx. rewrite forallb_forall in H. apply H. by apply list_elem_of_In. }
  split; [constructor; split; [|done]|]; (eapply Forall_impl; [exact Hall|]); intros x Hx; by apply solid_plain.
Qed.

Lemma token_solid p : acl_token_ok p = true -> forallb solid p = true.
Proof. intros H. by apply andb_true_iff in H as [_ H]. Qed.

Lemma hex_plain h : forallb isxdigit h = true -> c_quote ∉ h /\ c_back ∉ h /\ clean h.
Proof.
  intros H. rewrite forallb_forall in H. assert (Hc : forall c, c ∈ h -> isxdigit c = true) by (intros c Hc; apply H; by apply list_elem_of_In).
  split; [intros Hin; by specialize (Hc _ Hin)|]. split; [intros Hin; by specialize (Hc _ Hin)|].
  apply Forall_forall. intros c Hin. split; intros ->; by specialize (Hc _ Hin).
Qed.

Lemma pw_word h : pw_ok h -> word (pw_text true h) (pw_rule h).
Proof.
  intros Hh. unfold pw_text, pw_rule. cbn [negb]. destruct Hh as [[Hl Hx]|(Hs & _ & Hp & H1 & H2)].
  - destruct (hex_plain h Hx) as (H1 & H2 & H3). destruct (starts_with _ h).
    + by apply word_quoted.
    + apply word_quoted; [..|by constructor]; rewrite not_elem_of_cons; done.
  - rewrite Hs. apply word_quoted; [done..|]. by apply printable_clean.
Qed.

Section Roundtrip.
Context (cred_hash_new : bytes -> bytes) (cred_verify : bytes -> bytes -> bool).
Context (order : gmap bytes bool -> list (bytes * bool)) (order_ok : forall m, order m ≡ₚ map_to_list m).

(** The rules a line stands for. *)
Definition user_rules (u : User) : list bytes :=
  on_off (enable u) ::
  (if bool_decide (pw_hashes u = []) then [bs "nopass"] else pw_rule <$> pw_hashes u) ++
  key_rules u ++ channel_rules u ++ cat_rules (allow_cats u) ++ (override_rule <$> order (cmd_overrides u)).

Lemma Forall2_fmap_same {A} (P : bytes -> bytes -> Prop) (f g : A -> bytes) l :
  (forall a, a ∈ l -> P (f a) (g a)) -> Forall2 P (f <$> l) (g <$> l).
Proof. induction l as [|a l IH]; intros H; cbn; constructor; [apply H; by left|apply IH; intros b Hb; apply H; by right]. Qed.

Lemma pattern_words c l : solid (chr c) = true -> chr c <> c_hash -> chr c <> c_quote ->
  Forall pattern_ok l -> Forall2 word (cons (chr c) <$> l) (cons (chr c) <$> l).
Proof.
  intros Hc H1 H2 Hl. rewrite Forall_forall in Hl. apply Forall2_fmap_same. intros p Hp. apply word_solid; [|done..].
  cbn [forallb]. rewrite Hc. by apply token_solid, (Hl p).
Qed.

Lemma literal_words l : Forall (fun t => match t with [] => False | c :: _ => forallb solid t = true /\ c <> c_hash /\ c <> c_quote end) l ->
  Forall2 word l l.
Proof.
  induction 1 as [|t l Ht _ IH]; constructor; [|done]. destruct t as [|c t]; [done|]. destruct Ht as (H1 & H2 & H3). by apply word_solid.
Qed.

Lemma words_spell u : user_ok u -> Forall2 word (acl_words order u true) (user_rules u).
Proof.
  intros []. unfold acl_words, user_rules. constructor; [destruct (enable u); by apply word_solid|].
  repeat apply Forall2_app.
  - case_bool_decide; [by apply literal_words; repeat constructor|]. rewrite Forall_forall in uo_pw0.
    apply Forall2_fmap_same. intros h Hh. by apply pw_word, uo_pw0.
  - unfold key_rules. destruct (all_keys u); [by apply literal_words; repeat constructor|]. by apply pattern_words.
  - unfold channel_rules. destruct (all_channels u); [by apply literal_words; repeat constructor|]. by apply pattern_words.
  - unfold cat_rules. destruct (_ =? _); apply literal_words; [by repeat constructor|]. constructor; [done|].
    apply Forall_fmap, Forall_forall. intros p Hp. apply list_elem_of_filter in Hp as [_ Hp].
    assert (Hall : Forall (fun p => forallb solid p.1 = true) cat_names) by (apply (bool_decide_unpack _); vm_compute; reflexivity).
    rewrite Forall_forall in Hall. cbn. by rewrite (Hall p Hp).
  - apply Forall2_fmap_same. intros [c b] Hp. rewrite order_ok in Hp. apply elem_of_map_to_list in Hp.
    pose proof (known_lower c (uo_cmds0 c b Hp)) as Hl. apply andb_true_iff in Hl as [_ Hl].
    assert (Hsol : forallb solid c = true).
    { apply forallb_forall. intros x Hx. rewrite forallb_forall in Hl. specialize (Hl x Hx). unfold solid.
      apply negb_true_iff, orb_false_iff. lia. }
    unfold override_rule. cbn. destruct b; apply word_solid; try done; cbn [forallb]; by rewrite Hsol.
Qed.

Lemma rules_back n u : user_ok u ->
  exists u', apply_rules cred_hash_new cred_verify (set_name n fresh_user) (user_rules u) = (u', None) /\ user_equiv u' u /\ user_name u' = n.
Proof.
  intros []. unfold user_rules. cbn [apply_rules]. rewrite rule_on_off.
  set (u1 := set_enable (enable u) (set_name n fresh_user)).
  assert (H1 : apply_rules cred_hash_new cred_verify u1 (if bool_decide (pw_hashes u = []) then [bs "nopass"] else pw_rule <$> pw_hashes u) =
    (set_pw (pw_hashes u) u1, None)).
  { case_bool_decide as E; [by rewrite E|]. by rewrite rules_pw. }
  set (u2 := set_pw (pw_hashes u) u1) in *.
  assert (H2 : exists l, apply_rules cred_hash_new cred_verify u2 (key_rules u) = (set_keys l (all_keys u) u2, None) /\
    (all_keys u = false -> l = key_patterns u)).
  { unfold key_rules. destruct (all_keys u); [by exists []|]. exists (key_patterns u). by rewrite rules_keys. }
  destruct H2 as (lk & H2 & Hlk). set (u3 := set_keys lk (all_keys u) u2) in *.
  assert (H3 : exists l, apply_rules cred_hash_new cred_verify u3 (channel_rules u) = (set_channels l (all_channels u) u3, None) /\
    (all_channels u = false -> l = channel_patterns u)).
  { unfold channel_rules. destruct (all_channels u); [by exists []|]. exists (channel_patterns u). by rewrite rules_channels. }
  destruct H3 as (lc & H3 & Hlc). set (u4 := set_channels lc (all_channels u) u3) in *.
  eexists. split.
  - rewrite apply_rules_app, H1. cbv beta iota. rewrite apply_rules_app, H2. cbv beta iota. rewrite apply_rules_app, H3. cbv beta iota.
    rewrite apply_rules_app, rules_cats. cbv beta iota. by apply (rules_overrides _ _ _ (cmd_overrides u)).
  - split; [|done]. split; cbn; try done. apply cats_back_known.
Qed.
End Roundtrip.

(** ** Rules keep users writable *)

Definition safe_rule (t : bytes) : Prop := starts_with "$argon2id$" t = true -> printable t /\ c_quote ∉ t /\ c_back ∉ t.

Lemma tagged_pattern c t : tagged c t = true -> acl_token_ok (drop 1 t) = true -> t <> [chr c; chr 42] -> pattern_ok (drop 1 t).
Proof.
  intros Ht Hok Hne. split; [done|]. apply andb_true_iff in Ht as [_ Hh]. apply bool_decide_eq_true in Hh.
  destruct t as [|x t]; [done|]. injection Hh as ->. cbn. rewrite drop_0. intros ->. by apply Hne.
Qed.

(** The rules that drop or keep what a user has. *)
Ltac same_user := intros [= <-]; split; cbn; first [done | by constructor | apply map_Forall_empty].

Section Preserve.
Context (cred_hash_new : bytes -> bytes) (cred_verify : bytes -> bytes -> bool).
Context (hash_ok : forall p, cred_hash_new p = [] \/ pw_ok (cred_hash_new p)).

Lemma fresh_user_ok : user_ok fresh_user.
Proof. split; cbn; [constructor..|apply map_Forall_empty]. Qed.

Lemma apply_rule_ok u t u' : user_ok u -> safe_rule t -> acl_apply_rule cred_hash_new cred_verify u t = Some u' -> user_ok u'.
Proof.
  intros Hu Hs. pose proof Hu as [U1 U2 U3 U4]. unfold acl_apply_rule.
  destruct (bool_decide (t = bs "on")); [same_user|]. destruct (bool_decide (t = bs "off")); [same_user|].
  destruct (bool_decide (t = bs "reset")); [intros [= <-]; apply fresh_user_ok|].
  destruct (_ || _); [same_user|].
  destruct (bool_decide (t = bs "resetkeys")); [same_user|].
  destruct ((length t =? 65)%nat && _) eqn:Eh.
  { destruct (forallb isxdigit _) eqn:Ex; [|done]. intros [= <-]. split; cbn; try done. apply Forall_app. split; [done|].
    apply Forall_singleton. left. split; [|done]. apply andb_true_iff in Eh as [El _]. apply Nat.eqb_eq in El. rewrite length_drop. lia. }
  destruct (bool_decide (t = bs "allchannels") || bool_decide (t = bs "&*")) eqn:Ec; [same_user|].
  apply orb_false_iff in Ec as [_ Ec]. apply bool_decide_eq_false in Ec.
  destruct (bool_decide (t = bs "resetchannels")); [same_user|].
  destruct (tagged 38 t) eqn:Et.
  { destruct (acl_token_ok _) eqn:Eo; [|done]. intros [= <-]. split; cbn; try done. apply Forall_app. split; [done|].
    apply Forall_singleton. apply (tagged_pattern 38); [done|done|exact Ec]. }
  destruct (bool_decide (t = bs "allkeys") || bool_decide (t = bs "~*")) eqn:Ek; [same_user|].
  apply orb_false_iff in Ek as [_ Ek]. apply bool_decide_eq_false in Ek.
  destruct (bool_decide (t = bs "allcommands") || _); [same_user|].
  destruct (bool_decide (t = bs "nocommands") || _); [same_user|].
  destruct (tagged 62 t).
  { destruct (bool_decide (cred_hash_new (drop 1 t) = [])) eqn:En; [done|]. apply bool_decide_eq_false in En. intros [= <-]. split; cbn; try done. apply Forall_app. split; [done|]. apply Forall_singleton.
    by destruct (hash_ok (drop 1 t)). }
  destruct (tagged 60 t). { intros [= <-]. split; cbn; try done. rewrite Forall_forall in U1 |- *.
    intros h Hh. apply list_elem_of_filter in Hh as [_ Hh]. by apply U1. }
  destruct (starts_with "$argon2id$" t) eqn:Ea.
  { destruct (512 <? length t)%nat eqn:El; [done|]. intros [= <-]. split; cbn; try done. apply Forall_app. split; [done|].
    apply Forall_singleton. right. destruct (Hs Ea) as (? & ? & ?). split_and!; try done. apply Nat.ltb_ge in El. lia. }
  destruct (tagged 126 t) eqn:Et2.
  { destruct (acl_token_ok _) eqn:Eo; [|done]. intros [= <-]. split; cbn; try done. apply Forall_app. split; [done|].
    apply Forall_singleton. apply (tagged_pattern 126); [done|done|exact Ek]. }
  destruct (starts_with "+@" t); [destruct (_ =? 0); [done|same_user]|].
  destruct (starts_with "-@" t); [destruct (_ =? 0); [done|same_user]|].
  destruct (_ || _); [|done]. destruct (command_is_known _) eqn:Ekn; [|done]. intros [= <-]. split; cbn; try done.
  apply map_Forall_insert_2; done.
Qed.

Lemma apply_rules_ok ts u : user_ok u -> Forall safe_rule ts -> user_ok (apply_rules cred_hash_new cred_verify u ts).1.
Proof.
  revert u. induction ts as [|t ts IH]; intros u Hu Hs; [done|]. apply Forall_cons in Hs as [Ht Hs]. cbn.
  destruct (acl_apply_rule _ _ u t) as [u'|] eqn:E; [|done]. apply IH; [|done]. by eapply apply_rule_ok.
Qed.
End Preserve.

(** ** The check decides *)

(** What an answer of [glob_match] says, whatever the pattern: a match is never
    refused, and for a pattern with no star but at its end the answer is the
    truth.  A pattern with a star before its end never answers no; see
    [glob_match_star_mismatch]. *)
Lemma glob_answers p key : short key ->
  match glob p key with
  | GDone true => tame p -> matches p key
  | GDone false => ~ matches p key
  | _ => ~ tame p
  end.
Proof.
  intros Hk.
  assert (Htame : tame p -> exists b, glob p key = GDone b /\ (b = true <-> matches p key)).
  { intros Hp. destruct (glob_loop_plain key Hk (glob_fuel key) (glob_start p key)) as (c & Hc & Hiff).
    - split_and!; cbn; [unfold short in Hk; lia|lia|done].
    - done.
    - done.
    - unfold glob_fuel. cbn. nia.
    - cbn [glob_start gp gs] in Hiff. rewrite drop_0 in Hiff. by exists c. }
  destruct (glob p key) as [[]| |] eqn:E.
  - intros Hp. destruct (Htame Hp) as (b & [= <-] & Hiff). by apply Hiff.
  - intros Hm. unfold glob, glob_fuel in E. rewrite (glob_match_complete p key _ Hk Hm (le_n _)) in E. done.
  - intros Hp. by destruct (Htame Hp) as (b & Hb & _).
  - intros Hp. by destruct (Htame Hp) as (b & Hb & _).
Qed.

Lemma acl_any_answers pats key : short key ->
  match acl_any pats key with
  | Some true => Exists (fun p => tame p -> matches p key) pats
  | Some false => ~ Exists (fun p => matches p key) pats
  | None => ~ Forall tame pats
  end.
Proof.
  intros Hk. induction pats as [|p pats IH]; cbn; [intros H; inversion H|]. pose proof (glob_answers p key Hk) as Hg.
  destruct (glob p key) as [[]| |]; [by left| |intros [? _]%Forall_cons; done..].
  destruct (acl_any pats key) as [[]|]; [by right|rewrite Exists_cons; by intros [?|?]|intros [_ ?]%Forall_cons; done].
Qed.

Definition granted (pats : list bytes) (keys : list bytes) : Prop := Forall (fun k => Exists (fun p => matches p k) pats) keys.

Lemma check_keys_answers u ks : Forall short ks ->
  match check_keys u ks with
  | Allowed => Forall (fun k => Exists (fun p => tame p -> matches p k) (key_patterns u)) ks
  | Denied msg => msg = msg_key /\ ~ granted (key_patterns u) ks
  | Undefined => ~ Forall tame (key_patterns u)
  end.
Proof.
  intros Hk. induction Hk as [|k ks Hk _ IH]; cbn; [constructor|]. pose proof (acl_any_answers (key_patterns u) k Hk) as Ha.
  unfold acl_key_allowed. destruct (acl_any (key_patterns u) k) as [[]|]; [|split; [done|intros [? _]%Forall_cons; done]|done].
  destruct (check_keys u ks); [by constructor| |done]. destruct IH as [-> IH]. split; [done|]. intros [_ ?]%Forall_cons; done.
Qed.

(** ** Properties *)

(** C15: What the access check lets through.  A disabled user is refused
    everything; a command that no override and no category grants is refused;
    both whatever the keys.  A granted command
    - is never refused when all keys are open or each key it names matches a
      pattern of the user ([granted]), and when it is refused the message is
      the one for keys and some key matches none;
    - is let through only if all keys are open or each key meets a pattern that
      matches it or has a star before its end: such patterns are not
      enforced by the code, which takes them for a match or reads beyond the
      key ([Undefined]);
    - for a user whose key patterns have no star but at their end is allowed
      exactly when all keys are open or each key matches a pattern, and
      refused otherwise. *)
Theorem acl_check_exact (u : User) (name : bytes) (spec : CmdSpec) (cmd : list bytes)
    (Hk : Forall short (cmd_collect_keys spec cmd)) :
  let keys := cmd_collect_keys spec cmd in
  let keys_ok := all_keys u = true \/ granted (key_patterns u) keys in
  let answer := acl_check (Some u) name spec cmd in
  (enable u = false -> answer = Denied msg_disabled) /\
  (enable u = true -> may_run u name spec = false -> answer = Denied msg_command) /\
  (enable u = true -> may_run u name spec = true ->
     (forall msg, answer = Denied msg -> msg = msg_key /\ ~ keys_ok) /\
     (answer = Allowed -> all_keys u = true \/ Forall (fun k => Exists (fun p => tame p -> matches p k) (key_patterns u)) keys) /\
     (answer = Undefined -> ~ Forall tame (key_patterns u)) /\
     (Forall tame (key_patterns u) -> (keys_ok /\ answer = Allowed) \/ (~ keys_ok /\ answer = Denied msg_key))).
Proof.
  cbn zeta. unfold acl_check. split; [by intros ->|]. split; [by intros -> ->|]. intros -> ->. cbn [negb].
  destruct (all_keys u); [split_and!; try done; [by left|by left; split; [left|]]|].
  pose proof (check_keys_answers u _ Hk) as Hc.
  destruct (check_keys u (cmd_collect_keys spec cmd)) as [|msg|]; (split; [|split; [|split]]); try done.
  - intros _. by right.
  - intros Ht. left. split; [right|done]. unfold granted. eapply Forall_impl; [exact Hc|]. intros k Hx. cbn in Hx.
    apply Exists_exists in Hx as (p & Hp & Hm). apply Exists_exists. exists p. split; [done|]. apply Hm. rewrite Forall_forall in Ht. by apply Ht.
  - intros m [= <-]. destruct Hc as [-> Hc]. split; [done|]. by intros [?|?].
  - intros Ht. right. destruct Hc as [-> Hc]. split; [by intros [?|?]|done].
Qed.

Definition bob : User := mkUser CAT_READ ∅ [] [bs "app:*"] [] (bs "bob") true false false.

Lemma acl_check_exact_witness :
  let spec := stamp (bs "get") (row "get" 2 2 false false false).2 in
  let keys_ok x := all_keys bob = true \/ granted (key_patterns bob) (cmd_collect_keys spec [bs "get"; x]) in
  (keys_ok (bs "app:x") /\ acl_check (Some bob) (bs "get") spec [bs "get"; bs "app:x"] = Allowed) /\
  (~ keys_ok (bs "x") /\ acl_check (Some bob) (bs "get") spec [bs "get"; bs "x"] = Denied msg_key).
Proof.
  intros spec keys_ok. assert (Ht : Forall tame (key_patterns bob)).
  { apply Forall_singleton. apply (prefix_tame (bs "app:")). by apply (bool_decide_eq_true_1 (c_star ∉ bs "app:")). }
  split.
  - destruct (acl_check_exact bob (bs "get") spec [bs "get"; bs "app:x"]) as (_ & _ & H); [apply Forall_singleton; reflexivity|].
    destruct H as (_ & _ & _ & H); [reflexivity|vm_compute; reflexivity|]. destruct (H Ht) as [H'|[_ H']]; [exact H'|].
    vm_compute in H'. discriminate H'.
  - destruct (acl_check_exact bob (bs "get") spec [bs "get"; bs "x"]) as (_ & _ & H); [apply Forall_singleton; reflexivity|].
    destruct H as (_ & _ & _ & H); [reflexivity|vm_compute; reflexivity|]. destruct (H Ht) as [[_ H']|H']; [|exact H'].
    vm_compute in H'. discriminate H'.
Defined.

(** A user survives the configuration file.  Whatever rules ACL SETUSER
    applied to a new user (a ready-made password hash among them without
    quotes, backslashes or control bytes), the line written for it is read
    back as the same name and rules that build a user no check can tell from
    the first: every command and channel check agrees, and so do the password
    hashes. *)
Theorem user_config_roundtrip (cred_hash_new : bytes -> bytes) (cred_verify : bytes -> bytes -> bool)
    (order : gmap bytes bool -> list (bytes * bool)) (ts : list bytes) (name : bytes) (u : User)
    (Horder : forall m, order m ≡ₚ map_to_list m)
    (Hhash : forall p, cred_hash_new p = [] \/ pw_ok (cred_hash_new p))
    (Hts : Forall safe_rule ts) (Hu : apply_rules cred_hash_new cred_verify fresh_user ts = (u, None))
    (Hname : acl_token_ok name = true) (Hhead : name !! 0%nat <> Some c_hash /\ name !! 0%nat <> Some c_quote) :
  exists rules u', config_tokenize (acl_format_user order name u true ++ [c_lf]) = bs "user" :: name :: rules /\
    apply_rules cred_hash_new cred_verify fresh_user rules = (u', None) /\ user_equiv u' u /\
    (forall c spec cmd, (c, spec) ∈ cmd_table -> acl_check (Some u') c spec cmd = acl_check (Some u) c spec cmd) /\
    (forall chan lit, acl_channel_check (Some u') chan lit = acl_channel_check (Some u) chan lit).
Proof.
  assert (Hok : user_ok u).
  { pose proof (apply_rules_ok cred_hash_new cred_verify Hhash ts fresh_user fresh_user_ok Hts) as H. by rewrite Hu in H. }
  destruct (rules_back cred_hash_new cred_verify order Horder [] u Hok) as (u' & Hr & He & _).
  exists (user_rules order u), u'. split; [|split; [done|split; [done|split]]].
  - assert (Hw : Forall2 word (bs "user" :: name :: acl_words order u true) (bs "user" :: name :: user_rules order u)).
    { constructor; [by apply word_solid|]. constructor; [|by apply words_spell]. destruct name as [|c name]; [done|].
      apply word_solid; [by apply token_solid|..]; intros ->; by destruct Hhead. }
    apply (tokenize_line (bs "user" :: name :: acl_words order u true)).
    + clear -Hw. induction Hw as [|? ? ? ? [_ H] _ IH]; constructor; [by apply clean_no_zero|done].
    + eapply Forall2_impl; [exact Hw|]. by intros ? ? [].
  - intros c spec cmd Hin. apply acl_check_equiv; [|done]. pose proof cmd_table_cats as Hc. rewrite Forall_forall in Hc. by apply (Hc (c, spec)).
  - intros chan lit. by apply acl_channel_check_proper.
Qed.

Definition hash64 (p : bytes) : bytes := replicate 64 (chr 97).

Lemma hash64_ok p : hash64 p = [] \/ pw_ok (hash64 p).
Proof. right. left. by vm_compute. Qed.

Definition bob_rules : list bytes := [bs "on"; bs "~app:*"; bs "+@read"; bs "-get"; bs ">secret"].

Lemma user_config_roundtrip_witness :
  let u := (apply_rules hash64 (fun _ _ => false) fresh_user bob_rules).1 in
  exists rules u', config_tokenize (acl_format_user map_to_list (bs "bob") u true ++ [c_lf]) = bs "user" :: bs "bob" :: rules /\
    apply_rules hash64 (fun _ _ => false) fresh_user rules = (u', None) /\ user_equiv u' u /\
    (forall c spec cmd, (c, spec) ∈ cmd_table -> acl_check (Some u') c spec cmd = acl_check (Some u) c spec cmd) /\
    (forall chan lit, acl_channel_check (Some u') chan lit = acl_channel_check (Some u) chan lit).
Proof.
  cbv zeta. apply (user_config_roundtrip hash64 (fun _ _ => false) map_to_list bob_rules (bs "bob")).
  - done.
  - apply hash64_ok.
  - unfold bob_rules. repeat (apply Forall_cons; split; [intros H; vm_compute in H; discriminate|]). by apply Forall_nil.
  - vm_compute. reflexivity.
  - reflexivity.
  - split; discriminate.
Defined.

(** A key pattern that opens with a star restricts nothing.  Whatever the
    key, the check of such a pattern never refuses: it reads past the key or
    reports a match.  A user confined to [*??*] may read the key [a], which
    does not match. *)
Theorem acl_star_pattern_open :
  (forall u p pats key, key_patterns u = (c_star :: p) :: pats -> acl_key_allowed u key <> Some false) /\
  let u := mkUser CAT_READ ∅ [] [bs "*??*"] [] (bs "bob") true false false in
  let spec := stamp (bs "get") (row "get" 2 2 false false false).2 in
  acl_check (Some u) (bs "get") spec [bs "get"; bs "a"] = Allowed /\
  ~ Exists (fun p => matches p (bs "a")) (key_patterns u).
Proof.
  split.
  - intros u p pats key H. unfold acl_key_allowed. rewrite H. cbn [acl_any]. unfold glob, glob_match.
    pose proof (glob_loop_star_never_rejects key (glob_fuel key) (glob_start (c_star :: p) key) ltac:(by right)) as Hn.
    destruct (glob_loop _ _ _) as [[]| |]; done.
  - cbv zeta. split; [vm_compute; reflexivity|]. intros H. apply Exists_cons in H as [H|H]; [|by inversion H]. revert H.
    intros (j & _ & Hm)%matches_star_iff. destruct j as [|[|j]]; vm_compute in Hm; inversion Hm as [| | |? ? ? ? ? _ H1 Hm']; subst;
      vm_compute in H1; simplify_eq; inversion Hm'.
Qed.

(** The configuration file can change a user.  SETUSER accepts a
    ready-made hash with a quote in it, and the line is written without
    escaping: read back, the text after the quote is rules of its own, here
    one that opens every key to a user confined to [app:*].  A user name that
    begins with a hash mark is accepted too, and its line reads as a comment. *)
Theorem acl_line_injection (cred_hash_new : bytes -> bytes) (cred_verify : bytes -> bytes -> bool) :
  let q := [c_quote] in
  let phc := bs "$argon2id$x" ++ q ++ bs " ~* " ++ q ++ bs "$argon2id$y" in
  (exists u u' rules, apply_rules cred_hash_new cred_verify fresh_user [bs "~app:*"; phc] = (u, None) /\ all_keys u = false /\
     config_tokenize (acl_format_user map_to_list (bs "bob") u true ++ [c_lf]) = bs "user" :: bs "bob" :: rules /\
     apply_rules cred_hash_new cred_verify fresh_user rules = (u', None) /\ all_keys u' = true) /\
  (acl_token_ok (bs "#bob") = true /\
   config_tokenize (acl_format_user map_to_list (bs "#bob") fresh_user true ++ [c_lf]) = [bs "user"]).
Proof.
  cbv zeta. split; [|split; vm_compute; reflexivity]. eexists _, _, _. split; [vm_compute; reflexivity|]. split; [reflexivity|].
  split; [vm_compute; reflexivity|]. split; vm_compute; reflexivity.
Qed.
