(* ===== verification/Config.v ===== *)
(** * The configuration (src/src/core/state.cpp 47-151, 178-910, 1033-1068, state.h 296-351)

    The directives, what each accepts, what CONFIG GET shows of it and what
    CONFIG REWRITE writes for it; the loader of the file; the address filter. *)
From S2P Require Import Prelude Buffer Resp Args Glob StdString Deque Hashtable HashMap Heap Score ZSet HashSet State World Strings Lists Keys CText CmdTable Acl.

(** ** Values *)

Definition parse_bool_strict (s : bytes) : option bool :=
  if bool_decide (s = bs "yes") then Some true else if bool_decide (s = bs "no") then Some false else None.

Definition yes_no (b : bool) : bytes := if b then bs "yes" else bs "no".

Definition unit_mult (u : bytes) : option Z :=
  let named s := bool_decide (u = bs s) in
  if named "" || named "b" then Some 1
  else if named "k" then Some 1000
  else if named "kb" then Some 1024
  else if named "m" then Some (1000 * 1000)
  else if named "mb" then Some (1024 * 1024)
  else if named "g" then Some (1000 * 1000 * 1000)
  else if named "gb" then Some (1024 * 1024 * 1024)
  else None.

Definition parse_memory_size (s : bytes) : option Z :=
  let '(digits, unit) := span_digits s in
  if bool_decide (digits = []) then None
  else
    let num := strtoull s in
    match unit_mult (map tolower unit) with
    | None => None
    | Some mult => if UINT64_MAX / mult <? num then None else Some (u64 (num * mult))
    end.

Definition policy_names : list (bytes * MaxmemoryPolicy) :=
  [(bs "noeviction", NOEVICTION); (bs "allkeys-lru", ALLKEYS_LRU); (bs "allkeys-lfu", ALLKEYS_LFU);
   (bs "allkeys-random", ALLKEYS_RANDOM); (bs "volatile-lru", VOLATILE_LRU); (bs "volatile-lfu", VOLATILE_LFU);
   (bs "volatile-random", VOLATILE_RANDOM); (bs "volatile-ttl", VOLATILE_TTL)].

Definition parse_maxmemory_policy (s : bytes) : option MaxmemoryPolicy := find_row (map tolower s) policy_names.

Definition maxmemory_policy_name (p : MaxmemoryPolicy) : bytes :=
  match p with
  | NOEVICTION => bs "noeviction" | ALLKEYS_LRU => bs "allkeys-lru" | ALLKEYS_LFU => bs "allkeys-lfu"
  | ALLKEYS_RANDOM => bs "allkeys-random" | VOLATILE_LRU => bs "volatile-lru" | VOLATILE_LFU => bs "volatile-lfu"
  | VOLATILE_RANDOM => bs "volatile-random" | VOLATILE_TTL => bs "volatile-ttl"
  end.

(** The flag characters, in the order they are printed; [A] stands for all classes. *)
Definition class_flags : list (ascii * Z) :=
  [("g"%char, NOTIFY_GENERIC); ("$"%char, NOTIFY_STRING); ("l"%char, NOTIFY_LIST); ("s"%char, NOTIFY_SET);
   ("h"%char, NOTIFY_HASH); ("z"%char, NOTIFY_ZSET); ("x"%char, NOTIFY_EXPIRED); ("e"%char, NOTIFY_EVICTED)].
Definition channel_flags : list (ascii * Z) := [("K"%char, NOTIFY_KEYSPACE); ("E"%char, NOTIFY_KEYEVENT)].

Fixpoint find_flag (c : ascii) (l : list (ascii * Z)) : option Z :=
  match l with [] => None | (d, f) :: l' => if bool_decide (d = c) then Some f else find_flag c l' end.

Fixpoint parse_notify_from (f : Z) (s : bytes) : option Z :=
  match s with
  | [] => Some f
  | c :: s' =>
      match find_flag c (channel_flags ++ class_flags ++ [("A"%char, NOTIFY_ALL)]) with
      | Some b => parse_notify_from (Z.lor f b) s'
      | None => None
      end
  end.
Definition parse_notify_flags (s : bytes) : option Z := parse_notify_from 0 s.

Definition flag_chars (f : Z) (l : list (ascii * Z)) : bytes := (filter (fun p => Z.land f p.2 <> 0) l).*1.

Definition notify_flags_string (f : Z) : bytes :=
  (if Z.land f NOTIFY_ALL =? NOTIFY_ALL then bs "A" else flag_chars f class_flags) ++ flag_chars f channel_flags.

(** ** Addresses *)

(** [inet_pton(AF_INET)]: four octets without leading zeros. *)
Fixpoint split_dots (s : bytes) : list bytes :=
  match s with
  | [] => [[]]
  | c :: s' =>
      match split_dots s' with
      | w :: ws => if bool_decide (c = chr 46) then [] :: w :: ws else (c :: w) :: ws
      | [] => [[c]]
      end
  end.

Definition octet (w : bytes) : option Z :=
  if bool_decide (w = []) || negb (forallb is_digit w) || ((1 <? length w)%nat && bool_decide (w !! 0%nat = Some (chr 48))) then None
  else let v := digits_val 0 w in if 255 <? v then None else Some v.

(** The address in host order, as [ntohl] gives it. *)
Definition inet_pton (s : bytes) : option Z :=
  match split_dots s with
  | [a; b; c; d] =>
      a ← octet a; b ← octet b; c ← octet c; d ← octet d;
      Some (((a * 256 + b) * 256 + c) * 256 + d)
  | _ => None
  end.

Definition inet_ntoa (ip : Z) : bytes :=
  print_u64 (ip / 2 ^ 24) ++ [chr 46] ++ print_u64 (ip / 2 ^ 16 mod 256) ++ [chr 46] ++
  print_u64 (ip / 2 ^ 8 mod 256) ++ [chr 46] ++ print_u64 (ip mod 256).

Fixpoint split_slash (s : bytes) : bytes * option bytes :=
  match s with
  | [] => ([], None)
  | c :: s' => if bool_decide (c = chr 47) then ([], Some s') else let '(a, b) := split_slash s' in (c :: a, b)
  end.

Definition mask_of (bits : Z) : Z := if bits =? 0 then 0 else u32 (Z.shiftl (2 ^ 32 - 1) (32 - bits)).

(** The bits go through [strtol] without a range error of their own; the bound
    test follows. *)
Definition parse_cidr (s : bytes) : option (Z * Z) :=
  let '(ip, slash) := split_slash s in
  bits ← match slash with
         | None => Some 32
         | Some b => n ← parse_int_strict b; if (n <? 0) || (32 <? n) then None else Some n
         end;
  a ← inet_pton (c_str ip);
  Some (Z.land a (mask_of bits), mask_of bits).

Definition ip_is_loopback (peer : Z) : bool := Z.land peer 4278190080 =? 2130706432.

Definition ip_allowed (allowlist : list (Z * Z)) (peer : Z) : bool :=
  ip_is_loopback peer || bool_decide (allowlist = []) || existsb (fun e => Z.land peer e.2 =? e.1) allowlist.

(** ** The settings *)

Inductive Aoffsync := FS_ALWAYS | FS_EVERYSEC | FS_NO.
Inductive TlsAuthClients := TLS_NO | TLS_YES | TLS_OPTIONAL.

#[global] Instance Aoffsync_eq_dec : EqDecision Aoffsync.
Proof. solve_decision. Defined.
#[global] Instance TlsAuthClients_eq_dec : EqDecision TlsAuthClients.
Proof. solve_decision. Defined.

(** [struct Config], in groups. *)
Record CNet := mkNet { port : Z; maxclients : Z; protected_mode : bool; binds : list bytes; allowlist : list (Z * Z) }.
Record CTls := mkTls { tls_port : Z; tls_cert_file : bytes; tls_key_file : bytes; tls_ca_cert_file : bytes;
  tls_auth_clients : TlsAuthClients; tls_handshake_timeout_ms : Z }.
Record CDisk := mkDisk { dump_path : bytes; aof_enable : bool; aof_path : bytes; aof_fysnc : Aoffsync;
  save_conditions : list (Z * Z); aof_rewrite_perc : Z; aof_rewrite_min_size : Z }.
Record CMem := mkMem { maxmemory : Z; cfg_policy : MaxmemoryPolicy; cfg_samples : Z; notify_keyspace_events : Z }.
(** [repl_ping_at_ms] belongs to [g_data]; a directive re-arms it. *)
Record CRepl := mkCRepl { repl_backlog_size : Z; repl_timeout_ms : Z; repl_ping_period_ms : Z; repl_ping_at_ms : Z;
  min_replicas_to_write : Z; min_replicas_max_lag : Z; replicaof_host : bytes; replicaof_port : Z; masterauth : bytes }.
Record CSec := mkSec { password : bytes; users : gmap bytes User; renames : list (bytes * bytes); auditlog_path : bytes }.
Record Config := mkConfig { net : CNet; tls : CTls; disk : CDisk; mem : CMem; repl : CRepl; sec : CSec }.

Definition on_net (f : CNet -> CNet) (c : Config) := mkConfig (f (net c)) (tls c) (disk c) (mem c) (repl c) (sec c).
Definition on_tls (f : CTls -> CTls) (c : Config) := mkConfig (net c) (f (tls c)) (disk c) (mem c) (repl c) (sec c).
Definition on_disk (f : CDisk -> CDisk) (c : Config) := mkConfig (net c) (tls c) (f (disk c)) (mem c) (repl c) (sec c).
Definition on_mem (f : CMem -> CMem) (c : Config) := mkConfig (net c) (tls c) (disk c) (f (mem c)) (repl c) (sec c).
Definition on_repl (f : CRepl -> CRepl) (c : Config) := mkConfig (net c) (tls c) (disk c) (mem c) (f (repl c)) (sec c).
Definition on_sec (f : CSec -> CSec) (c : Config) := mkConfig (net c) (tls c) (disk c) (mem c) (repl c) (f (sec c)).

Definition set_port v := on_net (fun n => mkNet v (maxclients n) (protected_mode n) (binds n) (allowlist n)).
Definition set_maxclients v := on_net (fun n => mkNet (port n) v (protected_mode n) (binds n) (allowlist n)).
Definition set_protected v := on_net (fun n => mkNet (port n) (maxclients n) v (binds n) (allowlist n)).
Definition set_binds v := on_net (fun n => mkNet (port n) (maxclients n) (protected_mode n) v (allowlist n)).
Definition set_allowlist v := on_net (fun n => mkNet (port n) (maxclients n) (protected_mode n) (binds n) v).

Definition set_tls_port v := on_tls (fun t => mkTls v (tls_cert_file t) (tls_key_file t) (tls_ca_cert_file t) (tls_auth_clients t) (tls_handshake_timeout_ms t)).
Definition set_tls_cert v := on_tls (fun t => mkTls (tls_port t) v (tls_key_file t) (tls_ca_cert_file t) (tls_auth_clients t) (tls_handshake_timeout_ms t)).
Definition set_tls_key v := on_tls (fun t => mkTls (tls_port t) (tls_cert_file t) v (tls_ca_cert_file t) (tls_auth_clients t) (tls_handshake_timeout_ms t)).
Definition set_tls_ca v := on_tls (fun t => mkTls (tls_port t) (tls_cert_file t) (tls_key_file t) v (tls_auth_clients t) (tls_handshake_timeout_ms t)).
Definition set_tls_auth v := on_tls (fun t => mkTls (tls_port t) (tls_cert_file t) (tls_key_file t) (tls_ca_cert_file t) v (tls_handshake_timeout_ms t)).
Definition set_tls_handshake v := on_tls (fun t => mkTls (tls_port t) (tls_cert_file t) (tls_key_file t) (tls_ca_cert_file t) (tls_auth_clients t) v).

Definition set_dump_path v := on_disk (fun d => mkDisk v (aof_enable d) (aof_path d) (aof_fysnc d) (save_conditions d) (aof_rewrite_perc d) (aof_rewrite_min_size d)).
Definition set_aof_enable v := on_disk (fun d => mkDisk (dump_path d) v (aof_path d) (aof_fysnc d) (save_conditions d) (aof_rewrite_perc d) (aof_rewrite_min_size d)).
Definition set_aof_path v := on_disk (fun d => mkDisk (dump_path d) (aof_enable d) v (aof_fysnc d) (save_conditions d) (aof_rewrite_perc d) (aof_rewrite_min_size d)).
Definition set_fsync v := on_disk (fun d => mkDisk (dump_path d) (aof_enable d) (aof_path d) v (save_conditions d) (aof_rewrite_perc d) (aof_rewrite_min_size d)).
Definition set_save v := on_disk (fun d => mkDisk (dump_path d) (aof_enable d) (aof_path d) (aof_fysnc d) v (aof_rewrite_perc d) (aof_rewrite_min_size d)).
Definition set_rewrite_perc v := on_disk (fun d => mkDisk (dump_path d) (aof_enable d) (aof_path d) (aof_fysnc d) (save_conditions d) v (aof_rewrite_min_size d)).
Definition set_rewrite_min v := on_disk (fun d => mkDisk (dump_path d) (aof_enable d) (aof_path d) (aof_fysnc d) (save_conditions d) (aof_rewrite_perc d) v).

Definition set_maxmemory v := on_mem (fun m => mkMem v (cfg_policy m) (cfg_samples m) (notify_keyspace_events m)).
Definition set_policy v := on_mem (fun m => mkMem (maxmemory m) v (cfg_samples m) (notify_keyspace_events m)).
Definition set_samples v := on_mem (fun m => mkMem (maxmemory m) (cfg_policy m) v (notify_keyspace_events m)).
Definition set_notify v := on_mem (fun m => mkMem (maxmemory m) (cfg_policy m) (cfg_samples m) v).

Definition set_backlog v := on_repl (fun r => mkCRepl v (repl_timeout_ms r) (repl_ping_period_ms r) (repl_ping_at_ms r) (min_replicas_to_write r) (min_replicas_max_lag r) (replicaof_host r) (replicaof_port r) (masterauth r)).
Definition set_repl_timeout v := on_repl (fun r => mkCRepl (repl_backlog_size r) v (repl_ping_period_ms r) (repl_ping_at_ms r) (min_replicas_to_write r) (min_replicas_max_lag r) (replicaof_host r) (replicaof_port r) (masterauth r)).
Definition set_ping v at_ms := on_repl (fun r => mkCRepl (repl_backlog_size r) (repl_timeout_ms r) v at_ms (min_replicas_to_write r) (min_replicas_max_lag r) (replicaof_host r) (replicaof_port r) (masterauth r)).
Definition set_min_replicas v := on_repl (fun r => mkCRepl (repl_backlog_size r) (repl_timeout_ms r) (repl_ping_period_ms r) (repl_ping_at_ms r) v (min_replicas_max_lag r) (replicaof_host r) (replicaof_port r) (masterauth r)).
Definition set_max_lag v := on_repl (fun r => mkCRepl (repl_backlog_size r) (repl_timeout_ms r) (repl_ping_period_ms r) (repl_ping_at_ms r) (min_replicas_to_write r) v (replicaof_host r) (replicaof_port r) (masterauth r)).
Definition set_replicaof h p := on_repl (fun r => mkCRepl (repl_backlog_size r) (repl_timeout_ms r) (repl_ping_period_ms r) (repl_ping_at_ms r) (min_replicas_to_write r) (min_replicas_max_lag r) h p (masterauth r)).
Definition set_masterauth v := on_repl (fun r => mkCRepl (repl_backlog_size r) (repl_timeout_ms r) (repl_ping_period_ms r) (repl_ping_at_ms r) (min_replicas_to_write r) (min_replicas_max_lag r) (replicaof_host r) (replicaof_port r) v).

Definition set_password v := on_sec (fun s => mkSec v (users s) (renames s) (auditlog_path s)).
Definition set_users v := on_sec (fun s => mkSec (password s) v (renames s) (auditlog_path s)).
Definition set_renames v := on_sec (fun s => mkSec (password s) (users s) v (auditlog_path s)).
Definition set_auditlog v := on_sec (fun s => mkSec (password s) (users s) (renames s) v).

(** [Config()], with the defaults of the declaration. *)
Definition config_default : Config :=
  mkConfig (mkNet 1234 10000 true [bs "0.0.0.0"] [])
    (mkTls 0 [] [] [] TLS_NO (10 * 1000))
    (mkDisk (bs "dump.rdb") false (bs "appendonly.aof") FS_EVERYSEC [(3600, 1); (300, 100); (60, 10000)] 100 (64 * 1024 * 1024))
    (mkMem 0 NOEVICTION 10 0)
    (mkCRepl (1024 * 1024) (60 * 1000) (10 * 1000) 0 0 10 [] 0 [])
    (mkSec [] ∅ [] []).

(** ** Directives *)

Inductive CfgResult := CfgOK | CfgUNKNOWN (e : bytes) | CfgBADVALUE (e : bytes).

Record ConfigDirective := mkDirective {
  d_name : bytes;
  d_min : Z;
  d_max : Z;                                     (* -1: no bound *)
  d_apply : list bytes -> Config -> CfgResult * Config;
  d_get : option (Config -> bytes);
  boot_only : bool;
  masked : bool;
  d_emit : option (Config -> list bytes);         (* the lines it writes *)
}.

Definition arg1 (a : list bytes) : bytes := default [] (a !! 0%nat).

Definition bad (e : string) (c : Config) : CfgResult * Config := (CfgBADVALUE (bs e), c).
Definition accept (c : Config) : CfgResult * Config := (CfgOK, c).

Definition cfg_printable (v : bytes) : bool := forallb (fun c => negb ((code c <? 32) || (code c =? 127))) v.

(** [parse_int_strict] with bounds; the value becomes an [int]. *)
Definition int_directive (lo : Z) (hi : option Z) (err : string) (put : Z -> Config -> Config) (a : list bytes) (c : Config) : CfgResult * Config :=
  match parse_int_strict (arg1 a) with
  | Some n => if (n <? lo) || (match hi with Some h => h <? n | None => false end) then bad err c else accept (put (i32 n) c)
  | None => bad err c
  end.

Definition bool_directive (put : bool -> Config -> Config) (a : list bytes) (c : Config) : CfgResult * Config :=
  match parse_bool_strict (arg1 a) with Some b => accept (put b c) | None => bad "expected yes/no" c end.

Definition size_directive (err : string) (put : Z -> Config -> Config) (a : list bytes) (c : Config) : CfgResult * Config :=
  match parse_memory_size (arg1 a) with Some b => accept (put b c) | None => bad err c end.

Definition text_directive (what : string) (put : bytes -> Config -> Config) (a : list bytes) (c : Config) : CfgResult * Config :=
  if cfg_printable (arg1 a) then accept (put (arg1 a) c)
  else (CfgBADVALUE (bs what ++ bs ": value contains a control character"), c).

(** One line of [fprintf]; a [%s] ends at the first zero byte. *)
Definition line (words : list bytes) : bytes := line_of (c_str <$> words).
Definition raw_quoted (v : bytes) : bytes := in_quotes (c_str v).

Section Table.
(** Password hashing, the reload of the TLS context (OpenSSL; an error message
    on failure), the walk of a hash map, the clock, and the replication role
    the server is in when it writes the file. *)
Context (cred_hash_new : bytes -> bytes) (cred_verify : bytes -> bytes -> bool).
Context (tr_tls_reload : Config -> option bytes).
Context (order : gmap bytes bool -> list (bytes * bool)) (user_order : gmap bytes User -> list (bytes * User)).
Context (now : Z) (role : option (bytes * Z)).

Definition tls_material_set (put : bytes -> Config -> Config) (a : list bytes) (c : Config) : CfgResult * Config :=
  let c' := put (arg1 a) c in
  match tr_tls_reload c' with Some e => (CfgBADVALUE e, c) | None => accept c' end.

Definition apply_allow_ip (a : list bytes) (c : Config) : CfgResult * Config :=
  match parse_cidr (arg1 a) with
  | Some p => accept (set_allowlist (allowlist (net c) ++ [p]) c)
  | None => (CfgBADVALUE (bs "invalid CIDR '" ++ arg1 a ++ bs "'"), c)
  end.

Definition cidr_text (p : Z * Z) : bytes :=
  inet_ntoa p.1 ++ bs "/" ++ print_i64 (Z.of_nat (length (filter (fun i => Z.testbit p.2 (Z.of_nat i) = true) (seq 0 32)))).

(** [default]'s hash list mirrors the password. *)
Definition mirror_password (c : Config) : Config :=
  match users (sec c) !! bs "default" with
  | Some u =>
      let p := password (sec c) in
      set_users (<[bs "default" := set_pw (if bool_decide (p = []) then [] else [p]) u]> (users (sec c))) c
  | None => c
  end.

Definition apply_requirepass (a : list bytes) (c : Config) : CfgResult * Config :=
  let v := arg1 a in
  if negb (cfg_printable v) then (CfgBADVALUE (bs "requirepass: value contains a control character"), c)
  else
    let stored :=
      if bool_decide (v = []) then Some []
      else if (length v =? 65)%nat && bool_decide (v !! 0%nat = Some c_hash) then Some (drop 1 v)
      else if starts_with "$argon2id$" v then Some v
      else let h := cred_hash_new v in if bool_decide (h = []) then None else Some h in
    match stored with
    | Some p => accept (mirror_password (set_password p c))
    | None => (CfgBADVALUE (bs "password hashing failed"), set_password [] c)
    end.

Definition emit_requirepass (c : Config) : list bytes :=
  let p := password (sec c) in
  if bool_decide (p = []) then []
  else [line [bs "requirepass"; if starts_with "$argon2id$" p then raw_quoted p else raw_quoted (c_hash :: p)]].

Definition apply_tls_auth (a : list bytes) (c : Config) : CfgResult * Config :=
  let v := map tolower (arg1 a) in
  if bool_decide (v = bs "yes") then accept (set_tls_auth TLS_YES c)
  else if bool_decide (v = bs "no") then accept (set_tls_auth TLS_NO c)
  else if bool_decide (v = bs "optional") then accept (set_tls_auth TLS_OPTIONAL c)
  else bad "tls-auth-clients must be yes, no, or optional" c.

Definition tls_auth_name (t : TlsAuthClients) : bytes :=
  match t with TLS_YES => bs "yes" | TLS_NO => bs "no" | TLS_OPTIONAL => bs "optional" end.

Definition apply_fsync (a : list bytes) (c : Config) : CfgResult * Config :=
  let v := arg1 a in
  if bool_decide (v = bs "always") then accept (set_fsync FS_ALWAYS c)
  else if bool_decide (v = bs "no") then accept (set_fsync FS_NO c)
  else if bool_decide (v = bs "everysec") then accept (set_fsync FS_EVERYSEC c)
  else bad "invalid appendfsync" c.

Definition fsync_name (f : Aoffsync) : bytes :=
  match f with FS_ALWAYS => bs "always" | FS_NO => bs "no" | FS_EVERYSEC => bs "everysec" end.

Definition apply_policy (a : list bytes) (c : Config) : CfgResult * Config :=
  match parse_maxmemory_policy (arg1 a) with Some p => accept (set_policy p c) | None => bad "invalid policy" c end.

Definition apply_notify (a : list bytes) (c : Config) : CfgResult * Config :=
  match parse_notify_flags (arg1 a) with Some f => accept (set_notify f c) | None => bad "invalid notify-keyspace-events flags" c end.

Definition apply_save (a : list bytes) (c : Config) : CfgResult * Config :=
  match a with
  | [v] => if bool_decide (v = []) then accept (set_save [] c) else bad "save needs <seconds> <changes>" c
  | [s; n] => accept (set_save (save_conditions (disk c) ++ [(strtoull s, u32 (strtoull n))]) c)
  | _ => bad "save needs <seconds> <changes>" c
  end.

Definition emit_save (c : Config) : list bytes :=
  (fun p => line [bs "save"; print_u64 p.1; print_u64 p.2]) <$> save_conditions (disk c).

(** The words [get] joins with spaces. *)
Definition spaced (ws : list bytes) : bytes :=
  match ws with [] => [] | w :: ws => w ++ concat (cons (chr 32) <$> ws) end.

Definition k_repl_backlog_min : Z := 16 * 1024.

Definition apply_backlog (a : list bytes) (c : Config) : CfgResult * Config :=
  match parse_memory_size (arg1 a) with
  | None => bad "invalid repl-backlog-size" c
  | Some b =>
      if negb (b =? 0) && (b <? k_repl_backlog_min)
      then (CfgBADVALUE (bs "repl-backlog-size must be 0 or at least " ++ print_u64 k_repl_backlog_min), c)
      else accept (set_backlog b c)
  end.

Definition apply_replicaof (a : list bytes) (c : Config) : CfgResult * Config :=
  let port := default [] (a !! 1%nat) in
  match parse_int_strict port with
  | Some p =>
      if (p <=? 0) || (65535 <? p) then (CfgBADVALUE (bs "invalid master port '" ++ port ++ bs "'"), c)
      else accept (set_replicaof (arg1 a) (i32 p) c)
  | None => (CfgBADVALUE (bs "invalid master port '" ++ port ++ bs "'"), c)
  end.

Definition emit_replicaof (c : Config) : list bytes :=
  match role with Some (host, port) => [line [bs "replicaof"; host; print_i64 port]] | None => [] end.

(** [g_config.users\[a\[0\]\]] is created before the rules are tried, and keeps
    those that were applied before one failed. *)
Definition apply_user (a : list bytes) (c : Config) : CfgResult * Config :=
  let name := arg1 a in
  let u := default fresh_user (users (sec c) !! name) in
  let u := if bool_decide (user_name u = []) then set_name name u else u in
  let '(u, failed) := apply_rules cred_hash_new cred_verify u (drop 1 a) in
  match failed with
  | Some t => (CfgBADVALUE (bs "Invalid ACL rule '" ++ t ++ bs "' for user '" ++ name ++ bs "'"), set_users (<[name := u]> (users (sec c))) c)
  | None =>
      let u := if bool_decide (user_name u = []) then set_name name u else u in
      accept (set_users (<[name := u]> (users (sec c))) c)
  end.

Definition emit_users (c : Config) : list bytes :=
  (fun p => c_str (acl_format_user order p.1 p.2 true) ++ [c_lf]) <$>
    filter (fun p => p.1 <> bs "default") (user_order (users (sec c))).

Definition apply_rename (a : list bytes) (c : Config) : CfgResult * Config :=
  let old := map tolower (arg1 a) in
  let new := map tolower (default [] (a !! 1%nat)) in
  let rs := renames (sec c) in
  if bool_decide (old = []) then bad "rename-command OLD is empty" c
  else if negb (command_is_known old) then (CfgBADVALUE (bs "rename-command: unknown command '" ++ old ++ bs "'"), c)
  else if bool_decide (old ∈ rs.*1) then (CfgBADVALUE (bs "rename-command: '" ++ old ++ bs "' renamed twice"), c)
  else if bool_decide (new = []) then
    if bool_decide (old = bs "auth") && negb (bool_decide (password (sec c) = []))
    then bad "refusing to disable AUTH while a password is set (would lock out clients)" c
    else accept (set_renames (rs ++ [(old, new)]) c)
  else if negb (cfg_printable new) then bad "rename-command: NEW has control chars" c
  else if command_is_known new then (CfgBADVALUE (bs "rename-command: NEW '" ++ new ++ bs "' collides with a command"), c)
  else if bool_decide (new ∈ rs.*2) then (CfgBADVALUE (bs "rename-command: NEW '" ++ new ++ bs "' already used"), c)
  else accept (set_renames (rs ++ [(old, new)]) c).

Definition emit_renames (c : Config) : list bytes :=
  (fun r => if bool_decide (r.2 = []) then line [bs "rename-command"; r.1; in_quotes []] else line [bs "rename-command"; r.1; r.2])
    <$> renames (sec c).

Definition unless_default (d : bool) (l : bytes) : list bytes := if d then [] else [l].
Definition quoted_if_set (name : string) (v : bytes) : list bytes := unless_default (bool_decide (v = [])) (line [bs name; raw_quoted v]).

Local Abbreviation dir n lo hi ap g boot mask em := (mkDirective (bs n) lo hi ap g boot mask em).

Definition net_directives : list ConfigDirective := [
  dir "port" 1 1 (int_directive 1 (Some 65535) "invalid port" set_port) (Some (fun c => print_i64 (port (net c)))) false false None;
  dir "maxclients" 1 1 (int_directive 1 (Some 1000000) "invalid maxclients (1-1000000)" set_maxclients)
    (Some (fun c => print_i64 (maxclients (net c)))) false false
    (Some (fun c => unless_default (maxclients (net c) =? 10000) (line [bs "maxclients"; print_i64 (maxclients (net c))])));
  dir "protected-mode" 1 1 (bool_directive set_protected) (Some (fun c => yes_no (protected_mode (net c)))) false false None;
  dir "bind" 1 (-1) (fun a c => accept (set_binds a c)) (Some (fun c => spaced (binds (net c)))) false false
    (Some (fun c => unless_default (bool_decide (binds (net c) = [])) (line (bs "bind" :: binds (net c)))));
  dir "allow-ip" 1 1 apply_allow_ip (Some (fun c => spaced (cidr_text <$> allowlist (net c)))) false false
    (Some (fun c => (fun p => line [bs "allow-ip"; cidr_text p]) <$> allowlist (net c)));
  dir "requirepass" 1 1 apply_requirepass (Some (fun c => if bool_decide (password (sec c) = []) then [] else bs "<set>")) false true
    (Some emit_requirepass)
].

Definition tls_directives : list ConfigDirective := [
  dir "tls-port" 1 1 (int_directive 0 (Some 65535) "invalid tls-port" set_tls_port) (Some (fun c => print_i64 (tls_port (tls c)))) true false
    (Some (fun c => unless_default (tls_port (tls c) =? 0) (line [bs "tls-port"; print_i64 (tls_port (tls c))])));
  dir "tls-cert-file" 1 1 (tls_material_set set_tls_cert) (Some (fun c => tls_cert_file (tls c))) false false
    (Some (fun c => quoted_if_set "tls-cert-file" (tls_cert_file (tls c))));
  dir "tls-key-file" 1 1 (tls_material_set set_tls_key) (Some (fun c => tls_key_file (tls c))) false false
    (Some (fun c => quoted_if_set "tls-key-file" (tls_key_file (tls c))));
  dir "tls-ca-cert-file" 1 1 (fun a c => accept (set_tls_ca (arg1 a) c)) (Some (fun c => tls_ca_cert_file (tls c))) true false
    (Some (fun c => quoted_if_set "tls-ca-cert-file" (tls_ca_cert_file (tls c))));
  dir "tls-auth-clients" 1 1 apply_tls_auth (Some (fun c => tls_auth_name (tls_auth_clients (tls c)))) true false
    (Some (fun c => unless_default (bool_decide (tls_auth_clients (tls c) = TLS_NO)) (line [bs "tls-auth-clients"; tls_auth_name (tls_auth_clients (tls c))])));
  dir "tls-handshake-timeout" 1 1
    (int_directive 1 (Some 3600) "invalid tls-handshake-timeout (seconds, 1-3600)" (fun s => set_tls_handshake (i32 (s * 1000))))
    (Some (fun c => print_i64 (Z.quot (tls_handshake_timeout_ms (tls c)) 1000))) true false
    (Some (fun c => unless_default (tls_handshake_timeout_ms (tls c) =? 10 * 1000)
                      (line [bs "tls-handshake-timeout"; print_i64 (Z.quot (tls_handshake_timeout_ms (tls c)) 1000)])))
].

Definition data_directives : list ConfigDirective := [
  dir "dbfilename" 1 1 (text_directive "dbfilename" set_dump_path) (Some (fun c => dump_path (disk c))) false false None;
  dir "appendonly" 1 1 (bool_directive set_aof_enable) (Some (fun c => yes_no (aof_enable (disk c)))) false false None;
  dir "appendfilename" 1 1 (fun a c => accept (set_aof_path (arg1 a) c)) (Some (fun c => aof_path (disk c))) false false None;
  dir "appendfsync" 1 1 apply_fsync (Some (fun c => fsync_name (aof_fysnc (disk c)))) false false None;
  dir "maxmemory" 1 1 (size_directive "invalid maxmemory" set_maxmemory) (Some (fun c => print_u64 (maxmemory (mem c)))) false false None;
  dir "maxmemory-policy" 1 1 apply_policy (Some (fun c => maxmemory_policy_name (cfg_policy (mem c)))) false false None;
  dir "maxmemory-samples" 1 1 (int_directive 1 None "invalid memory samples" set_samples) (Some (fun c => print_i64 (cfg_samples (mem c)))) false false None;
  dir "notify-keyspace-events" 0 1 apply_notify (Some (fun c => notify_flags_string (notify_keyspace_events (mem c)))) false false None;
  dir "save" 1 2 apply_save (Some (fun c => spaced ((fun p => print_u64 p.1 ++ bs " " ++ print_u64 p.2) <$> save_conditions (disk c)))) false false
    (Some emit_save);
  dir "auto-aof-rewrite-percentage" 1 1 (int_directive 0 None "invalid" set_rewrite_perc) (Some (fun c => print_i64 (aof_rewrite_perc (disk c)))) false false None;
  dir "auto-aof-rewrite-min-size" 1 1 (size_directive "invalid" set_rewrite_min) (Some (fun c => print_u64 (aof_rewrite_min_size (disk c)))) false false None
].

Definition repl_directives : list ConfigDirective := [
  dir "repl-backlog-size" 1 1 apply_backlog (Some (fun c => print_u64 (repl_backlog_size (repl c)))) true false None;
  dir "repl-timeout" 1 1
    (int_directive 0 (Some 3600) "invalid repl-timeout (seconds, 0 to disable, max 3600)" (fun s => set_repl_timeout (i32 (s * 1000))))
    (Some (fun c => print_i64 (Z.quot (repl_timeout_ms (repl c)) 1000))) false false None;
  dir "repl-ping-replica-period" 1 1
    (int_directive 0 (Some 3600) "invalid repl-ping-replica-period (seconds, 0 to disable, max 3600)"
       (fun s => set_ping (i32 (s * 1000)) (u64 (now + i32 (s * 1000)))))
    (Some (fun c => print_i64 (Z.quot (repl_ping_period_ms (repl c)) 1000))) false false None;
  dir "min-replicas-to-write" 1 1 (int_directive 0 (Some 1024) "invalid min-replicas-to-write (0 to disable)" set_min_replicas)
    (Some (fun c => print_i64 (min_replicas_to_write (repl c)))) false false None;
  dir "min-replicas-max-lag" 1 1 (int_directive 0 (Some 3600) "invalid min-replicas-max-lag (seconds, 0 to ignore lag)" set_max_lag)
    (Some (fun c => print_i64 (min_replicas_max_lag (repl c)))) false false None;
  dir "replicaof" 2 2 apply_replicaof None true false (Some emit_replicaof);
  dir "masterauth" 1 1 (text_directive "masterauth" set_masterauth)
    (Some (fun c => if bool_decide (masterauth (repl c) = []) then [] else bs "<set>")) false true
    (Some (fun c => unless_default (bool_decide (masterauth (repl c) = [])) (line [bs "masterauth"; in_quotes (c_str (escape (masterauth (repl c))))])))
].

Definition sec_directives : list ConfigDirective := [
  dir "user" 1 (-1) apply_user None false false (Some emit_users);
  dir "rename-command" 2 2 apply_rename None true false (Some emit_renames);
  dir "auditlog" 1 1 (text_directive "auditlog" set_auditlog) (Some (fun c => auditlog_path (sec c))) false false
    (Some (fun c => quoted_if_set "auditlog" (auditlog_path (sec c))))
].

Definition k_config_table : list ConfigDirective :=
  net_directives ++ tls_directives ++ data_directives ++ repl_directives ++ sec_directives.

Fixpoint find_directive (name : bytes) (t : list ConfigDirective) : option ConfigDirective :=
  match t with [] => None | d :: t' => if bool_decide (name = d_name d) then Some d else find_directive name t' end.

Definition config_is_boot_only (name : bytes) : bool := default false (boot_only <$> find_directive name k_config_table).
Definition config_is_masked (name : bytes) : bool := default false (masked <$> find_directive name k_config_table).

Definition config_apply (name : bytes) (args : list bytes) (c : Config) : CfgResult * Config :=
  let name := map tolower name in
  match find_directive name k_config_table with
  | None => (CfgUNKNOWN (bs "unknown directive '" ++ name ++ bs "'"), c)
  | Some d =>
      let n := Z.of_nat (length args) in
      if (n <? d_min d) || ((0 <=? d_max d) && (d_max d <? n))
      then (CfgBADVALUE (bs "wrong number of args for '" ++ name ++ bs "'"), c)
      else d_apply d args c
  end.

Definition config_get_value (name : bytes) (c : Config) : option bytes :=
  d ← find_directive name k_config_table; get ← d_get d; Some (get c).

Definition config_all_names : list bytes := omap (fun d => match d_get d with Some _ => Some (d_name d) | None => None end) k_config_table.

(** *** Reading and writing the file *)

(** One line; the state is the configuration, [cleared_save] and [ok]. *)
Definition load_line (st : Config * bool * bool) (l : bytes) : Config * bool * bool :=
  let '(c, cleared, ok) := st in
  match config_tokenize l with
  | [] => st
  | name :: args =>
      let first_save := bool_decide (map tolower name = bs "save") && negb cleared in
      let c := if first_save then set_save [] c else c in
      let '(r, c) := config_apply name args c in
      (c, cleared || first_save, ok && match r with CfgOK => true | _ => false end)
  end.

Definition config_load_file (text : bytes) (c : Config) : bool * Config :=
  let '(c, _, ok) := foldl load_line (c, false, true) (file_lines text) in (ok, c).

(** [None]: a directive could not be written and the file is left alone. *)
Definition config_write_scalar (name : bytes) (c : Config) : option bytes :=
  if config_is_masked name then None else v ← config_get_value name c; Some (scalar_line name v).

Definition directive_lines (c : Config) (d : ConfigDirective) : option (list bytes) :=
  match d_emit d with
  | Some emit => Some (emit c)
  | None => l ← config_write_scalar (d_name d) c; Some [l]
  end.

Definition config_rewrite (c : Config) : option bytes := (fun ls => concat (concat ls)) <$> mapM (directive_lines c) k_config_table.

(** *** CONFIG *)

Definition config_set (name value : bytes) (c : Config) : (Buffer -> Buffer) * Config :=
  let p := map tolower name in
  if bool_decide (p = bs "rename-command") then
    ((fun b => resp_err b (bs "ERR 'rename-command' can only be set in the config file")), c)
  else if config_is_boot_only p then ((fun b => resp_err b (bs "ERR TLS parameters can only be set in the config file")), c)
  else
    match config_apply name [value] c with
    | (CfgOK, c) => (resp_ok, c)
    | (CfgBADVALUE e, c) => ((fun b => resp_err b (bs "ERR " ++ e)), c)
    | (CfgUNKNOWN _, c) => ((fun b => resp_err b (bs "ERR Unknown config parameter '" ++ name ++ bs "'")), c)
    end.
End Table.

(** ** Values come back *)

Lemma parse_yes_no b : parse_bool_strict (yes_no b) = Some b.
Proof. by destruct b. Qed.

Lemma parse_size_print n : 0 <= n < 2 ^ 64 -> parse_memory_size (print_u64 n) = Some n.
Proof.
  intros Hn. unfold parse_memory_size. rewrite span_digits_all by by apply print_u64_all.
  rewrite bool_decide_eq_false_2 by apply print_u64_nonempty. rewrite strtoull_print by done.
  change (unit_mult (map tolower [])) with (Some 1). cbv beta iota. unfold UINT64_MAX. rewrite Z.div_1_r.
  assert (2 ^ 64 - 1 <? n = false) as -> by lia. rewrite Z.mul_1_r. f_equal. unfold u64. by apply Z.mod_small.
Qed.

Lemma parse_policy_name p : parse_maxmemory_policy (maxmemory_policy_name p) = Some p.
Proof. by destruct p. Qed.

Lemma parse_notify_string f : 0 <= f < 1024 -> parse_notify_flags (notify_flags_string f) = Some f.
Proof.
  intros Hf. assert (Hall : Forall (fun n => parse_notify_flags (notify_flags_string (Z.of_nat n)) = Some (Z.of_nat n)) (seq 0 1024))
    by (apply (bool_decide_unpack _); vm_compute; reflexivity).
  rewrite Forall_forall in Hall. rewrite <- (Z2Nat.id f) by lia. apply Hall. apply elem_of_seq. lia.
Qed.

(** *** Addresses *)

Lemma split_dots_app w s : chr 46 ∉ w -> split_dots (w ++ chr 46 :: s) = w :: split_dots s.
Proof.
  induction w as [|c w IH]; intros Hw.
  - cbn [app split_dots]. destruct (split_dots s) eqn:E; [|by rewrite bool_decide_eq_true_2].
    destruct s as [|x s]; [done|]. cbn in E. destruct (split_dots s); [done|]. by case_bool_decide.
  - apply not_elem_of_cons in Hw as [Hc Hw]. cbn [app split_dots]. rewrite IH by done. by rewrite bool_decide_eq_false_2 by congruence.
Qed.

Lemma split_dots_last w : chr 46 ∉ w -> split_dots w = [w].
Proof.
  induction w as [|c w IH]; intros Hw; [done|]. apply not_elem_of_cons in Hw as [Hc Hw]. cbn [split_dots]. rewrite IH by done.
  by rewrite bool_decide_eq_false_2 by congruence.
Qed.

Lemma split_slash_app a b : chr 47 ∉ a -> split_slash (a ++ chr 47 :: b) = (a, Some b).
Proof.
  induction a as [|c a IH]; intros Ha; cbn [app split_slash]; [by rewrite bool_decide_eq_true_2|].
  apply not_elem_of_cons in Ha as [Hc Ha]. rewrite bool_decide_eq_false_2 by congruence. by rewrite IH.
Qed.

Lemma octet_print n : 0 <= n < 256 -> octet (print_u64 n) = Some n /\ (length (print_u64 n) <= 3)%nat.
Proof.
  intros Hn. assert (Hall : Forall (fun k => octet (print_u64 (Z.of_nat k)) = Some (Z.of_nat k) /\ (length (print_u64 (Z.of_nat k)) <= 3)%nat) (seq 0 256))
    by (apply (bool_decide_unpack _); vm_compute; reflexivity).
  rewrite Forall_forall in Hall. rewrite <- (Z2Nat.id n) by lia. apply Hall. apply elem_of_seq. lia.
Qed.

Lemma digits_free n c : 0 <= n < 2 ^ 64 -> is_digit c = false -> c ∉ print_u64 n.
Proof.
  intros Hn Hc Hin. pose proof (print_u64_all n Hn) as H. rewrite forallb_forall in H.
  specialize (H c ltac:(by apply list_elem_of_In)). congruence.
Qed.

Lemma ip_octets ip : 0 <= ip < 2 ^ 32 ->
  0 <= ip / 2 ^ 24 < 256 /\ ((ip / 2 ^ 24 * 256 + ip / 2 ^ 16 mod 256) * 256 + ip / 2 ^ 8 mod 256) * 256 + ip mod 256 = ip.
Proof.
  intros Hi. split; [split; [apply Z.div_pos; lia|apply Z.div_lt_upper_bound; lia]|].
  assert (E1 : ip / 2 ^ 16 = ip / 2 ^ 24 * 256 + ip / 2 ^ 16 mod 256).
  { rewrite (Z.div_mod (ip / 2 ^ 16) 256) at 1 by lia. rewrite Z.div_div by lia. change (2 ^ 16 * 256) with (2 ^ 24). lia. }
  assert (E2 : ip / 2 ^ 8 = ip / 2 ^ 16 * 256 + ip / 2 ^ 8 mod 256).
  { rewrite (Z.div_mod (ip / 2 ^ 8) 256) at 1 by lia. rewrite Z.div_div by lia. change (2 ^ 8 * 256) with (2 ^ 16). lia. }
  rewrite <- E1, <- E2. change (2 ^ 8) with 256. rewrite (Z.div_mod ip 256) at 3 by lia. lia.
Qed.

Lemma inet_roundtrip ip : 0 <= ip < 2 ^ 32 -> inet_pton (inet_ntoa ip) = Some ip.
Proof.
  intros Hi. destruct (ip_octets ip Hi) as [H1 H2]. unfold inet_pton, inet_ntoa. cbn [app].
  pose proof (Z.mod_pos_bound (ip / 2 ^ 16) 256 ltac:(lia)). pose proof (Z.mod_pos_bound (ip / 2 ^ 8) 256 ltac:(lia)).
  pose proof (Z.mod_pos_bound ip 256 ltac:(lia)).
  rewrite !split_dots_app, split_dots_last by (apply digits_free; [lia|done]).
  rewrite !(fun n Hn => proj1 (octet_print n Hn)) by done. cbn. by rewrite H2.
Qed.

(** The masks [parse_cidr] builds. *)
Definition cidr_ok (p : Z * Z) : Prop := exists bits, 0 <= bits <= 32 /\ p.2 = mask_of bits /\ Z.land p.1 p.2 = p.1 /\ 0 <= p.1 < 2 ^ 32.

Lemma mask_popcount bits : 0 <= bits <= 32 ->
  Z.of_nat (length (filter (fun i => Z.testbit (mask_of bits) (Z.of_nat i) = true) (seq 0 32))) = bits.
Proof.
  intros Hb. assert (Hall : Forall (fun k => Z.of_nat (length (filter (fun i => Z.testbit (mask_of (Z.of_nat k)) (Z.of_nat i) = true) (seq 0 32))) = Z.of_nat k) (seq 0 33))
    by (apply (bool_decide_unpack _); vm_compute; reflexivity).
  rewrite Forall_forall in Hall. rewrite <- (Z2Nat.id bits) by lia. apply Hall. apply elem_of_seq. lia.
Qed.

Lemma ntoa_chars ip (P : ascii -> Prop) : 0 <= ip < 2 ^ 32 -> (forall c, is_digit c = true -> P c) -> P (chr 46) -> Forall P (inet_ntoa ip).
Proof.
  intros Hi Hd Hdot. destruct (ip_octets ip Hi) as [H1 _].
  pose proof (Z.mod_pos_bound (ip / 2 ^ 16) 256 ltac:(lia)). pose proof (Z.mod_pos_bound (ip / 2 ^ 8) 256 ltac:(lia)).
  pose proof (Z.mod_pos_bound ip 256 ltac:(lia)).
  assert (Hp : forall n, 0 <= n < 256 -> Forall P (print_u64 n)).
  { intros n Hn. apply Forall_forall. intros c Hc. apply Hd. pose proof (print_u64_all n ltac:(lia)) as Ha. rewrite forallb_forall in Ha.
    apply Ha. by apply list_elem_of_In. }
  unfold inet_ntoa. rewrite !Forall_app, !Forall_singleton. split_and!; auto.
Qed.

Lemma cidr_roundtrip p : cidr_ok p -> parse_cidr (cidr_text p) = Some p.
Proof.
  destruct p as [ip mask]. intros (bits & Hb & Hm & Hl & Hi). cbn [fst snd] in *. subst mask. unfold parse_cidr, cidr_text. cbn [fst snd].
  rewrite mask_popcount by done. change (bs "/" ++ ?x) with (chr 47 :: x).
  rewrite split_slash_app.
  2:{ intros Hin. pose proof (ntoa_chars ip (fun c => c <> chr 47) Hi) as Hf. rewrite Forall_forall in Hf. apply (Hf ltac:(by intros c Hc ->) ltac:(done) _ Hin). done. }
  rewrite parse_print by (unfold INT64_MIN, INT64_MAX; lia). cbn [mbind option_bind].
  assert ((bits <? 0) || (32 <? bits) = false) as -> by lia. cbn [mbind option_bind].
  rewrite c_str_id by (apply ntoa_chars; [done|intros c Hc; by apply digit_plain|done]). rewrite inet_roundtrip by done. cbn. by rewrite Hl.
Qed.

Lemma parse_cidr_ok s p : parse_cidr s = Some p -> cidr_ok p.
Proof.
  unfold parse_cidr. destruct (split_slash s) as [ip slash]. destruct (match slash with Some _ => _ | None => _ end) as [bits|] eqn:Eb; [|done].
  cbn. destruct (inet_pton (c_str ip)) as [a|] eqn:Ea; [|done]. cbn. intros [= <-]. exists bits. cbn.
  assert (Hb : 0 <= bits <= 32).
  { destruct slash as [b|]; [|injection Eb as <-; lia]. destruct (parse_int_strict b) as [n|]; [|done]. cbn in Eb.
    destruct ((n <? 0) || (32 <? n)) eqn:En; [done|]. injection Eb as <-. lia. }
  split; [done|]. split; [done|]. rewrite <- Z.land_assoc, Z.land_diag. split; [done|].
  assert (Hm : 0 <= mask_of bits < 2 ^ 32).
  { unfold mask_of. destruct (bits =? 0); [lia|]. unfold u32. apply Z.mod_pos_bound. lia. }
  assert (Ha : 0 <= a).
  { unfold inet_pton in Ea. destruct (split_dots _) as [|w1 [|w2 [|w3 [|w4 [|]]]]]; try done.
    assert (Ho : forall w v, octet w = Some v -> 0 <= v).
    { intros w v Hv. unfold octet in Hv. destruct (_ || _) eqn:E; [done|]. destruct (255 <? digits_val 0 w); [done|]. injection Hv as <-.
      apply orb_false_iff in E as [E _]. apply orb_false_iff in E as [_ E]. apply negb_false_iff in E.
      apply (digits_val_mono 0 w); [lia|]. apply Forall_forall. intros c Hc. rewrite forallb_forall in E. apply E. by apply list_elem_of_In. }
    destruct (octet w1) eqn:E1, (octet w2) eqn:E2, (octet w3) eqn:E3, (octet w4) eqn:E4; try done. cbn in Ea. injection Ea as <-.
    pose proof (Ho _ _ E1). pose proof (Ho _ _ E2). pose proof (Ho _ _ E3). pose proof (Ho _ _ E4). lia. }
  split; [apply Z.land_nonneg; by left|]. rewrite <- (Z.mod_small (mask_of bits) (2 ^ 32)) by done.
  rewrite <- Z.land_ones, Z.land_assoc, Z.land_ones by lia. apply Z.mod_pos_bound. lia.
Qed.

(** ** Properties *)

Lemma apply_rename_ok a c r c' : renames_ok (renames (sec c)) -> apply_rename a c = (r, c') -> renames_ok (renames (sec c')).
Proof.
  intros Hok. unfold apply_rename, bad, accept. set (old := map tolower (arg1 a)). set (new := map tolower (default [] (a !! 1%nat))).
  destruct (bool_decide (old = [])); [by intros [= _ <-]|].
  destruct (command_is_known old) eqn:Hk; [|by intros [= _ <-]]. cbn [negb].
  destruct (bool_decide (old ∈ _)) eqn:Ho; [by intros [= _ <-]|]. apply bool_decide_eq_false in Ho.
  destruct (bool_decide (new = [])) eqn:En.
  { apply bool_decide_eq_true in En. destruct (_ && _); [by intros [= _ <-]|]. intros [= _ <-]. cbn. rewrite En.
    apply renames_snoc; [done|]. split; [done|]. by split. }
  destruct (cfg_printable new); [|by intros [= _ <-]]. cbn [negb]. destruct (command_is_known new) eqn:Hn; [by intros [= _ <-]|].
  destruct (bool_decide (new ∈ _)) eqn:Hin; [by intros [= _ <-]|]. apply bool_decide_eq_false in Hin.
  intros [= _ <-]. cbn. apply renames_snoc; [done|]. split; [done|]. split; [done|]. done.
Qed.

Lemma renames_run args c : renames_ok (renames (sec c)) -> renames_ok (renames (sec (foldl (fun c a => (apply_rename a c).2) c args))).
Proof.
  revert c. induction args as [|a args IH]; intros c Hc; [done|]. cbn [foldl]. apply IH. destruct (apply_rename a c) eqn:E.
  by eapply apply_rename_ok.
Qed.

(** Renamed commands are reachable under their new names and no others.
    Whatever [rename-command] lines the configuration had, refused ones
    included, the dispatch map resolves a typed name to a command exactly when
    it is the command's own name and the command was not renamed, or the name
    it was renamed to; a command renamed to the empty name is not reachable,
    and no command has two names. *)
Theorem rename_command_exact (args : list (list bytes)) (c : Config) (Hc : renames (sec c) = []) :
  let rs := renames (sec (foldl (fun c a => (apply_rename a c).2) c args)) in
  let d := dispatch_build cmd_table rs in
  (forall n e, d !! n = Some e <->
     find_row (canonical e) cmd_table = Some (spec e) /\
     ((n = canonical e /\ canonical e ∉ rs.*1) \/ (n <> [] /\ (canonical e, n) ∈ rs))) /\
  (forall n1 n2 e1 e2, d !! n1 = Some e1 -> d !! n2 = Some e2 -> canonical e1 = canonical e2 -> n1 = n2).
Proof.
  cbn zeta. assert (Hok : renames_ok (renames (sec (foldl (fun c a => (apply_rename a c).2) c args)))).
  { apply renames_run. rewrite Hc. constructor. }
  split; [intros n e; by apply dispatch_build_lookup|]. intros n1 n2 e1 e2 H1 H2 He.
  apply dispatch_build_lookup in H1 as [_ H1]; [|done]. apply dispatch_build_lookup in H2 as [_ H2]; [|done].
  rewrite He in H1. by eapply stands_for_unique.
Qed.

Lemma rename_command_exact_witness :
  let args := [[bs "FLUSHALL"; bs "wipe"]; [bs "keys"; []]; [bs "get"; bs "set"]] in
  let rs := renames (sec (foldl (fun c a => (apply_rename a c).2) config_default args)) in
  let d := dispatch_build cmd_table rs in
  rs = [(bs "flushall", bs "wipe"); (bs "keys", [])] /\
  ((forall n e, d !! n = Some e <->
     find_row (canonical e) cmd_table = Some (spec e) /\
     ((n = canonical e /\ canonical e ∉ rs.*1) \/ (n <> [] /\ (canonical e, n) ∈ rs))) /\
   (forall n1 n2 e1 e2, d !! n1 = Some e1 -> d !! n2 = Some e2 -> canonical e1 = canonical e2 -> n1 = n2)).
Proof.
  cbv zeta. split; [vm_compute; reflexivity|].
  apply (rename_command_exact [[bs "FLUSHALL"; bs "wipe"]; [bs "keys"; []]; [bs "get"; bs "set"]] config_default eq_refl).
Defined.
