(* ===== verification/ConfigFile.v ===== *)
(** * The configuration file (src/src/core/state.cpp 819-910)

    CONFIG REWRITE writes a file the loader reads back as the same
    configuration: each directive's lines set its own settings to what they
    were and leave the others. *)
From S2P Require Import Prelude Buffer Resp Args Glob StdString Deque Hashtable HashMap Heap Score ZSet HashSet State World Strings Lists Keys CText CmdTable Acl Config.

Lemma line_eq ws : Forall no_zero ws -> line ws = line_of ws.
Proof.
  intros H. unfold line. f_equal. induction H as [|w ws Hw _ IH]; [done|]. cbn [fmap list_fmap]. by rewrite c_str_id, IH.
Qed.

Lemma words_no_zero txts ts : Forall2 word txts ts -> Forall no_zero txts.
Proof. induction 1 as [|? ? ? ? [_ H] _ IH]; constructor; [by apply clean_no_zero|done]. Qed.

Lemma words_spells txts ts : Forall2 word txts ts -> Forall2 spells txts ts.
Proof. intros H. eapply Forall2_impl; [exact H|]. by intros ? ? []. Qed.

Lemma tokenize_words txts ts : Forall2 word txts ts -> config_tokenize (line txts) = ts.
Proof.
  intros H. rewrite line_eq by by eapply words_no_zero. apply tokenize_line; [by eapply words_no_zero|by apply words_spells].
Qed.

(** Words of the file. *)
Lemma word_value v : printable v -> word (value_text v) v.
Proof. intros Hv. split; [apply value_text_spells|]. by apply printable_clean, printable_value_text. Qed.

Lemma word_digits l : forallb is_digit l = true -> l <> [] -> word l l.
Proof. intros H Hl. split; [constructor; by apply digits_bare|]. apply Forall_forall. intros c Hc. rewrite forallb_forall in H.
  destruct (digit_plain c (H c ltac:(by apply list_elem_of_In))) as (_ & _ & _ & ? & _ & _ & ?). done. Qed.

Lemma word_u64 n : 0 <= n < 2 ^ 64 -> word (print_u64 n) (print_u64 n).
Proof. intros Hn. apply word_digits; [by apply print_u64_all|apply print_u64_nonempty]. Qed.

Lemma word_i64 n : 0 <= n < 2 ^ 63 -> word (print_i64 n) (print_i64 n).
Proof. intros Hn. unfold print_i64. assert (n <? 0 = false) as -> by lia. apply word_u64. lia. Qed.

Lemma word_raw v : printable v -> c_quote ∉ v -> c_back ∉ v -> word (raw_quoted v) v.
Proof.
  intros Hv H1 H2. unfold raw_quoted. rewrite c_str_id by by apply printable_no_zero. apply word_quoted; [done..|by apply printable_clean].
Qed.

Lemma word_name n : lower_word n = true -> word n n.
Proof.
  intros H. apply andb_true_iff in H as [Hn H]. destruct n as [|c n]; [done|]. apply word_solid.
  - apply forallb_forall. intros x Hx. rewrite forallb_forall in H. specialize (H x Hx). unfold solid. apply negb_true_iff, orb_false_iff. lia.
  - intros ->. cbn in H. done.
  - intros ->. cbn in H. done.
Qed.

(** A line ends in its only newline. *)
Definition one_line (l : bytes) : Prop := exists body, l = body ++ [c_lf] /\ Forall (fun c => c <> c_lf) body.

Lemma clean_no_lf v : clean v -> Forall (fun c => c <> c_lf) v.
Proof. intros H. eapply Forall_impl; [exact H|]. by intros c []. Qed.

Lemma line_one txts ts : Forall2 word txts ts -> one_line (line txts).
Proof.
  intros H. rewrite line_eq by by eapply words_no_zero. destruct H as [|t0 ? txts ? [_ H0] H]; [by exists []|].
  exists (t0 ++ concat (cons (chr 32) <$> txts)). cbn [line_of]. split; [by rewrite app_assoc|]. apply Forall_app. split; [by apply clean_no_lf|].
  induction H as [|? ? ? ? [_ H1] _ IH]; [constructor|]. cbn. constructor; [done|]. apply Forall_app. split; [by apply clean_no_lf|done].
Qed.

Lemma word_lit t : (match t with [] => false | c :: _ => forallb solid t && negb (bool_decide (c = c_hash)) && negb (bool_decide (c = c_quote)) end) = true ->
  word t t.
Proof.
  destruct t as [|c t]; [done|]. intros H. apply andb_true_iff in H as [H H2]. apply andb_true_iff in H as [H H1].
  apply word_solid; [done|..]; intros ->; by rewrite bool_decide_eq_true_2 in *.
Qed.

Lemma arg1_one v : arg1 [v] = v.
Proof. done. Qed.

Lemma int_apply lo hi err put n x : lo <= n -> (match hi with Some h => n <= h | None => True end) -> 0 <= n < 2 ^ 31 ->
  int_directive lo hi err put [print_i64 n] x = (CfgOK, put n x).
Proof.
  intros H1 H2 H3. unfold int_directive, arg1. cbn [lookup list_lookup default from_option id].
  change (default [] (Some (print_i64 n))) with (print_i64 n). rewrite parse_print by (unfold INT64_MIN, INT64_MAX; lia).
  assert ((n <? lo) || (match hi with Some h => h <? n | None => false end) = false) as -> by (destruct hi; lia).
  unfold accept, i32. by rewrite Z.mod_small, Z.add_simpl_r by lia.
Qed.

Lemma printable_u64 n : 0 <= n < 2 ^ 64 -> printable (print_u64 n).
Proof.
  intros Hm. eapply Forall_impl; [by apply print_u64_digits|]. cbn. intros c Hc. unfold is_digit in Hc.
  apply Is_true_true, andb_true_iff in Hc as [H1 H2]. lia.
Qed.

Lemma printable_check v : printable v -> cfg_printable v = true.
Proof.
  intros H. unfold cfg_printable. apply forallb_forall. intros c Hc. unfold printable in H. rewrite Forall_forall in H.
  destruct (H c ltac:(by apply list_elem_of_In)) as [H1 H2]. apply negb_true_iff, orb_false_iff. lia.
Qed.

Definition safe_text (v : bytes) : Prop := printable v /\ c_quote ∉ v /\ c_back ∉ v.

Section File.
Context (cred_hash_new : bytes -> bytes) (cred_verify : bytes -> bytes -> bool).
Context (tr_tls_reload : Config -> option bytes).
Context (order : gmap bytes bool -> list (bytes * bool)) (user_order : gmap bytes User -> list (bytes * User)).
Context (now : Z) (role : option (bytes * Z)).

Local Abbreviation apply_dir := (config_apply cred_hash_new cred_verify tr_tls_reload order user_order now role).
Local Abbreviation load := (load_line cred_hash_new cred_verify tr_tls_reload order user_order now role).
Local Abbreviation rewritten := (config_rewrite cred_hash_new cred_verify tr_tls_reload order user_order now role).

(** Lines that take [x] to [y] and report no error. *)
Definition loads (ls : list bytes) (x y : Config) : Prop :=
  Forall one_line ls /\ forall cl ok, foldl load (x, cl, ok) ls = (y, cl, ok).

Lemma loads_nil x : loads [] x x.
Proof. split; [constructor|done]. Qed.

Lemma loads_app l1 l2 x y z : loads l1 x y -> loads l2 y z -> loads (l1 ++ l2) x z.
Proof. intros [L1 H1] [L2 H2]. split; [by apply Forall_app|]. intros cl ok. by rewrite foldl_app, H1. Qed.

Lemma loads_line txts name args x y :
  Forall2 word txts (name :: args) -> map tolower name <> bs "save" -> apply_dir name args x = (CfgOK, y) -> loads [line txts] x y.
Proof.
  intros Hw Hn Ha. split; [apply Forall_singleton; by eapply line_one|]. intros cl ok. cbn [foldl load_line]. rewrite (tokenize_words _ _ Hw). rewrite bool_decide_eq_false_2 by done. cbn [andb].
  rewrite Ha. by rewrite orb_false_r, andb_true_r.
Qed.

(** A directive with one value. *)
Lemma loads_value name txt v x y :
  word (bs name) (bs name) -> map tolower (bs name) <> bs "save" -> word txt v -> apply_dir (bs name) [v] x = (CfgOK, y) ->
  loads [line [bs name; txt]] x y.
Proof. intros H1 H2 H3 H4. eapply loads_line; [|done|exact H4]. constructor; [exact H1|]. constructor; [exact H3|]. constructor. Qed.

Lemma loads_scalar name v x y :
  word (bs name) (bs name) -> map tolower (bs name) <> bs "save" -> printable v -> apply_dir (bs name) [v] x = (CfgOK, y) ->
  loads [scalar_line (bs name) v] x y.
Proof.
  intros H1 H2 H3 H4. rewrite scalar_line_eq by done. rewrite <- (line_eq [bs name; value_text v]).
  - eapply loads_value; [done|done|by apply word_value|done].
  - constructor; [apply clean_no_zero, H1|]. constructor; [|constructor]. by apply printable_no_zero, printable_value_text.
Qed.

(** A setting that is not written when it has its default. *)
Lemma loads_unless (d : bool) l x y : (d = true -> y = x) -> (d = false -> loads [l] x y) -> loads (unless_default d l) x y.
Proof. intros H1 H2. unfold unless_default. destruct d; [rewrite H1 by done; apply loads_nil|by apply H2]. Qed.

(** The lines, directive by directive. *)
Definition all_lines (c : Config) : list (list bytes) :=
  let s name v := [scalar_line (bs name) v] in
  [ s "port" (print_i64 (port (net c)));
    unless_default (maxclients (net c) =? 10000) (line [bs "maxclients"; print_i64 (maxclients (net c))]);
    s "protected-mode" (yes_no (protected_mode (net c)));
    unless_default (bool_decide (binds (net c) = [])) (line (bs "bind" :: binds (net c)));
    (fun p => line [bs "allow-ip"; cidr_text p]) <$> allowlist (net c);
    emit_requirepass c;
    unless_default (tls_port (tls c) =? 0) (line [bs "tls-port"; print_i64 (tls_port (tls c))]);
    quoted_if_set "tls-cert-file" (tls_cert_file (tls c));
    quoted_if_set "tls-key-file" (tls_key_file (tls c));
    quoted_if_set "tls-ca-cert-file" (tls_ca_cert_file (tls c));
    unless_default (bool_decide (tls_auth_clients (tls c) = TLS_NO)) (line [bs "tls-auth-clients"; tls_auth_name (tls_auth_clients (tls c))]);
    unless_default (tls_handshake_timeout_ms (tls c) =? 10 * 1000)
      (line [bs "tls-handshake-timeout"; print_i64 (Z.quot (tls_handshake_timeout_ms (tls c)) 1000)]);
    s "dbfilename" (dump_path (disk c)); s "appendonly" (yes_no (aof_enable (disk c))); s "appendfilename" (aof_path (disk c));
    s "appendfsync" (fsync_name (aof_fysnc (disk c))); s "maxmemory" (print_u64 (maxmemory (mem c)));
    s "maxmemory-policy" (maxmemory_policy_name (cfg_policy (mem c))); s "maxmemory-samples" (print_i64 (cfg_samples (mem c)));
    s "notify-keyspace-events" (notify_flags_string (notify_keyspace_events (mem c)));
    emit_save c;
    s "auto-aof-rewrite-percentage" (print_i64 (aof_rewrite_perc (disk c)));
    s "auto-aof-rewrite-min-size" (print_u64 (aof_rewrite_min_size (disk c)));
    s "repl-backlog-size" (print_u64 (repl_backlog_size (repl c)));
    s "repl-timeout" (print_i64 (Z.quot (repl_timeout_ms (repl c)) 1000));
    s "repl-ping-replica-period" (print_i64 (Z.quot (repl_ping_period_ms (repl c)) 1000));
    s "min-replicas-to-write" (print_i64 (min_replicas_to_write (repl c)));
    s "min-replicas-max-lag" (print_i64 (min_replicas_max_lag (repl c)));
    emit_replicaof role c;
    unless_default (bool_decide (masterauth (repl c) = [])) (line [bs "masterauth"; in_quotes (c_str (escape (masterauth (repl c))))]);
    emit_users order user_order c;
    emit_renames c;
    quoted_if_set "auditlog" (auditlog_path (sec c)) ].

Lemma rewrite_lines c : rewritten c = Some (concat (concat (all_lines c))).
Proof. reflexivity. Qed.

(** What CONFIG SET and the loader let into the settings, and what the file
    can hold: the values written in quotes without escapes have no quote or
    backslash, the words written bare are words. *)
Record writable (c : Config) : Prop := {
  wr_port : 1 <= port (net c) <= 65535;
  wr_maxclients : 1 <= maxclients (net c) <= 1000000;
  wr_binds : binds (net c) <> [] /\ Forall (fun b => word b b) (binds (net c));
  wr_allow : Forall cidr_ok (allowlist (net c));
  wr_pw : password (sec c) = [] \/ pw_ok (password (sec c));
  wr_tls_port : 0 <= tls_port (tls c) <= 65535;
  wr_tls_files : safe_text (tls_cert_file (tls c)) /\ safe_text (tls_key_file (tls c)) /\ safe_text (tls_ca_cert_file (tls c));
  wr_handshake : exists s, 1 <= s <= 3600 /\ tls_handshake_timeout_ms (tls c) = s * 1000;
  wr_paths : printable (dump_path (disk c)) /\ printable (aof_path (disk c));
  wr_maxmemory : 0 <= maxmemory (mem c) < 2 ^ 64;
  wr_samples : 1 <= cfg_samples (mem c) < 2 ^ 31;
  wr_notify : 0 <= notify_keyspace_events (mem c) < 1024;
  wr_save : save_conditions (disk c) <> [] /\ Forall (fun p => 0 <= p.1 < 2 ^ 64 /\ 0 <= p.2 < 2 ^ 32) (save_conditions (disk c));
  wr_perc : 0 <= aof_rewrite_perc (disk c) < 2 ^ 31;
  wr_min_size : 0 <= aof_rewrite_min_size (disk c) < 2 ^ 64;
  wr_backlog : repl_backlog_size (repl c) = 0 \/ k_repl_backlog_min <= repl_backlog_size (repl c) < 2 ^ 64;
  wr_timeouts : exists s t, 0 <= s <= 3600 /\ 0 <= t <= 3600 /\ repl_timeout_ms (repl c) = s * 1000 /\ repl_ping_period_ms (repl c) = t * 1000;
  wr_replicas : 0 <= min_replicas_to_write (repl c) <= 1024 /\ 0 <= min_replicas_max_lag (repl c) <= 3600;
  wr_role : match role with Some (h, p) => word h h /\ 1 <= p <= 65535 | None => True end;
  wr_masterauth : printable (masterauth (repl c));
  wr_users : map_Forall (fun n u => user_ok u /\ acl_token_ok n = true /\ n !! 0%nat <> Some c_hash /\ n !! 0%nat <> Some c_quote) (users (sec c));
  wr_renames : renames_ok (renames (sec c)) /\ Forall (fun r => r.2 = [] \/ (word r.2 r.2 /\ map tolower r.2 = r.2 /\ printable r.2)) (renames (sec c));
  wr_audit : safe_text (auditlog_path (sec c));
}.

Local Ltac range := first [exact I | lia | cbn; lia].
Local Ltac name_ok := first [apply word_lit; reflexivity | discriminate].

Lemma scalar_int name lo hi err put n x :
  apply_dir (bs name) [print_i64 n] x = int_directive lo hi err put [print_i64 n] x ->
  word (bs name) (bs name) -> map tolower (bs name) <> bs "save" ->
  lo <= n -> (match hi with Some h => n <= h | None => True end) -> 0 <= n < 2 ^ 31 ->
  loads [scalar_line (bs name) (print_i64 n)] x (put n x).
Proof.
  intros He H1 H2 H3 H4 H5. apply loads_scalar; [done|done|apply printable_print_i64; lia|]. rewrite He. by apply int_apply.
Qed.

Lemma line_int name lo hi err put n x :
  apply_dir (bs name) [print_i64 n] x = int_directive lo hi err put [print_i64 n] x ->
  word (bs name) (bs name) -> map tolower (bs name) <> bs "save" ->
  lo <= n -> (match hi with Some h => n <= h | None => True end) -> 0 <= n < 2 ^ 31 ->
  loads [line [bs name; print_i64 n]] x (put n x).
Proof.
  intros He H1 H2 H3 H4 H5. eapply loads_value; [done|done|apply word_i64; lia|]. rewrite He. by apply int_apply.
Qed.

Lemma scalar_size name err put n x :
  apply_dir (bs name) [print_u64 n] x = size_directive err put [print_u64 n] x ->
  word (bs name) (bs name) -> map tolower (bs name) <> bs "save" -> 0 <= n < 2 ^ 64 ->
  loads [scalar_line (bs name) (print_u64 n)] x (put n x).
Proof.
  intros He H1 H2 H3. apply loads_scalar; [done|done|by apply printable_u64|]. rewrite He. unfold size_directive, arg1.
  change (default [] _) with (print_u64 n). by rewrite parse_size_print.
Qed.

Lemma scalar_bool name put b x :
  apply_dir (bs name) [yes_no b] x = bool_directive put [yes_no b] x ->
  word (bs name) (bs name) -> map tolower (bs name) <> bs "save" -> loads [scalar_line (bs name) (yes_no b)] x (put b x).
Proof.
  intros He H1 H2. apply loads_scalar; [done|done|destruct b; by repeat constructor|]. rewrite He. by destruct b.
Qed.

Lemma quoted_text name put v x :
  (v = [] -> put v x = x) -> apply_dir (bs name) [v] x = (CfgOK, put v x) ->
  word (bs name) (bs name) -> map tolower (bs name) <> bs "save" -> safe_text v -> loads (quoted_if_set name v) x (put v x).
Proof.
  intros H0 He H1 H2 (Hp & Hq & Hb). apply loads_unless; [intros E; apply H0; by apply bool_decide_eq_true in E|].
  intros _. eapply loads_value; [done|done|by apply word_raw|done].
Qed.

(** *** Group by group *)

Lemma allow_lines l x : Forall cidr_ok l ->
  loads ((fun p => line [bs "allow-ip"; cidr_text p]) <$> l) x (set_allowlist (allowlist (net x) ++ l) x).
Proof.
  intros Hl. revert x. induction Hl as [|p l Hp _ IH]; intros x.
  { rewrite app_nil_r. cbn. destruct x as [[]]. apply loads_nil. }
  change (?f <$> p :: l) with ([f p] ++ (f <$> l)). eapply loads_app.
  - eapply (loads_value "allow-ip" (cidr_text p) (cidr_text p)); [name_ok|name_ok| |].
    + destruct Hp as (bits & Hb & Hm & _ & Hi). pose proof (ntoa_chars (p.1) (fun c => solid c = true /\ c <> c_hash /\ c <> c_quote) Hi) as Hn.
      assert (Hd : forall c, is_digit c = true -> solid c = true /\ c <> c_hash /\ c <> c_quote).
      { intros c Hc. pose proof (digit_plain c Hc) as (_ & _ & _ & _ & ? & ? & _). unfold is_digit in Hc. apply andb_true_iff in Hc as [H1 H2].
        split; [unfold solid; apply negb_true_iff, orb_false_iff; lia|done]. }
      specialize (Hn Hd ltac:(done)). assert (Hall : Forall (fun c => solid c = true /\ c <> c_hash /\ c <> c_quote) (cidr_text p)).
      { unfold cidr_text. apply Forall_app. split; [done|]. rewrite Hm, mask_popcount by done. constructor; [done|].
        unfold print_i64. assert (bits <? 0 = false) as -> by lia. apply Forall_forall. intros c Hc. apply Hd.
        pose proof (print_u64_all bits ltac:(lia)) as Ha. rewrite forallb_forall in Ha. apply Ha. by apply list_elem_of_In. }
      destruct (cidr_text p) as [|c t] eqn:E; [apply app_eq_nil in E as [_ E]; discriminate|].
      destruct (Forall_inv Hall) as (_ & Hh1 & Hh2). apply word_solid; [|done..]. apply forallb_forall. intros y Hy. rewrite Forall_forall in Hall.
      apply Hall. by apply list_elem_of_In.
    + transitivity (apply_allow_ip [cidr_text p] x); [reflexivity|]. unfold apply_allow_ip, arg1.
      change (default [] _) with (cidr_text p). by rewrite cidr_roundtrip.
  - specialize (IH (set_allowlist (allowlist (net x) ++ [p]) x)). cbn [net set_allowlist on_net allowlist] in IH.
    rewrite <- app_assoc in IH. exact IH.
Qed.

Definition put_net (n : CNet) : Config -> Config := on_net (fun _ => n).

Lemma net_lines c x : writable c -> net x = net config_default -> loads (concat (take 5 (all_lines c))) x (put_net (net c) x).
Proof.
  intros [] Hx. cbn [all_lines take concat]. rewrite app_nil_r.
  replace (put_net (net c) x) with
    (set_allowlist ([] ++ allowlist (net c)) (set_binds (binds (net c)) (set_protected (protected_mode (net c))
      (set_maxclients (maxclients (net c)) (set_port (port (net c)) x))))).
  2:{ unfold put_net. by destruct x, c as [[]]. }
  eapply loads_app; [eapply scalar_int; [reflexivity|name_ok|name_ok|range..]|].
  eapply loads_app.
  { apply loads_unless; [|intros _; eapply line_int; [reflexivity|name_ok|name_ok|range..]].
    intros E. apply Z.eqb_eq in E. rewrite E. destruct x as [[]]. cbn in Hx. by injection Hx as -> -> -> -> ->. }
  eapply loads_app; [eapply scalar_bool; [reflexivity|name_ok|name_ok]|].
  apply loads_app with (y := set_binds (binds (net c)) (set_protected (protected_mode (net c))
      (set_maxclients (maxclients (net c)) (set_port (port (net c)) x)))).
  { destruct wr_binds0 as [Hne Hb]. apply loads_unless; [intros E; by apply bool_decide_eq_true in E|]. intros _.
    eapply (loads_line _ (bs "bind") (binds (net c))); [|name_ok|].
    - constructor; [name_ok|]. clear -Hb. induction Hb; by constructor.
    - match goal with |- config_apply _ _ _ _ _ _ _ _ ?a ?y = _ => transitivity (if (Z.of_nat (length a) <? 1) || false
        then (CfgBADVALUE (bs "wrong number of args for 'bind'"), y) else accept (set_binds a y)); [reflexivity|] end.
      assert (Z.of_nat (length (binds (net c))) <? 1 = false) as ->; [|reflexivity]. apply Z.ltb_ge. destruct (binds (net c)); [done|cbn [length]; lia]. }
  pose proof (allow_lines (allowlist (net c)) (set_binds (binds (net c)) (set_protected (protected_mode (net c))
      (set_maxclients (maxclients (net c)) (set_port (port (net c)) x)))) wr_allow0) as H.
  cbn [net set_binds set_protected set_maxclients set_port on_net allowlist] in H. rewrite Hx in H. exact H.
Qed.

Lemma solid_printable v : forallb solid v = true -> printable v.
Proof.
  intros H. apply Forall_forall. intros c Hc. rewrite forallb_forall in H. specialize (H c ltac:(by apply list_elem_of_In)).
  unfold solid in H. apply negb_true_iff, orb_false_iff in H as [H1 H2]. lia.
Qed.

Lemma hex_printable v : forallb isxdigit v = true -> printable v.
Proof.
  intros H. apply Forall_forall. intros c Hc. rewrite forallb_forall in H. specialize (H c ltac:(by apply list_elem_of_In)).
  unfold isxdigit, is_digit in H. repeat (apply orb_true_iff in H as [H|H]); apply andb_true_iff in H as [H1 H2]; lia.
Qed.

(** The password as its line gives it back. *)
Lemma requirepass_apply p x : pw_ok p -> users (sec x) = ∅ -> apply_requirepass cred_hash_new [pw_rule p] x = (CfgOK, set_password p x).
Proof.
  intros Hp Hu. assert (Hm : mirror_password (set_password p x) = set_password p x).
  { unfold mirror_password. cbn [sec set_password on_sec users]. by rewrite Hu, lookup_empty. }
  unfold apply_requirepass, arg1. change (default [] _) with (pw_rule p). unfold pw_rule. destruct Hp as [[Hl Hx]|(Hs & Hl & Hp & _)].
  - assert (starts_with "$argon2id$" p = false) as ->.
    { destruct (starts_with _ p) eqn:E; [|done]. apply bool_decide_eq_true in E. destruct p as [|c p]; [done|]. injection E as -> _. by cbn in Hx. }
    rewrite printable_check by (constructor; [done|by apply hex_printable]). cbn [negb]. rewrite bool_decide_eq_false_2 by done.
    cbn [length lookup list_lookup drop]. rewrite Hl, drop_0, bool_decide_eq_true_2 by done. cbn [Nat.eqb andb]. by rewrite Hm.
  - rewrite Hs, printable_check by done. cbn [negb]. assert (Hne : p <> []) by (by intros ->). rewrite bool_decide_eq_false_2 by done.
    assert ((length p =? 65)%nat && bool_decide (p !! 0%nat = Some c_hash) = false) as ->.
    { apply andb_false_iff. right. apply bool_decide_eq_false_2. apply bool_decide_eq_true in Hs. destruct p as [|c p]; [done|].
      injection Hs as -> _. discriminate. }
    rewrite Hs. by rewrite Hm.
Qed.

Lemma requirepass_lines c x : writable c -> password (sec x) = [] -> users (sec x) = ∅ ->
  loads (emit_requirepass c) x (set_password (password (sec c)) x).
Proof.
  intros [] Hx Hu. unfold emit_requirepass. case_bool_decide as E.
  { rewrite E. destruct x as [? ? ? ? ? []]. cbn in Hx. subst. apply loads_nil. }
  destruct wr_pw0 as [?|Hp]; [done|]. eapply (loads_value "requirepass" _ (pw_rule (password (sec c)))); [name_ok|name_ok| |].
  - pose proof (pw_word _ Hp) as [Hw Hc]. unfold pw_text in *. cbn [negb] in *.
    assert (Hz : no_zero (password (sec c))).
    { destruct Hp as [[_ Hh]|(_ & _ & Hh & _)]; [apply clean_no_zero; by apply hex_plain|by apply printable_no_zero]. }
    destruct (starts_with "$argon2id$" (password (sec c))); unfold raw_quoted; rewrite c_str_id; try done. by constructor.
  - etransitivity; [|by apply requirepass_apply]. reflexivity.
Qed.

Definition put_tls (t : CTls) : Config -> Config := on_tls (fun _ => t).

Context (reload_ok : forall x, tr_tls_reload x = None).

Lemma tls_lines c x : writable c -> tls x = tls config_default -> loads (concat (take 6 (drop 6 (all_lines c)))) x (put_tls (tls c) x).
Proof.
  intros [] Hx. destruct wr_tls_files0 as (F1 & F2 & F3). destruct wr_handshake0 as (hs & Hhs & Eh).
  cbn [all_lines drop take concat]. rewrite app_nil_r.
  replace (put_tls (tls c) x) with
    (set_tls_handshake (tls_handshake_timeout_ms (tls c)) (set_tls_auth (tls_auth_clients (tls c)) (set_tls_ca (tls_ca_cert_file (tls c))
      (set_tls_key (tls_key_file (tls c)) (set_tls_cert (tls_cert_file (tls c)) (set_tls_port (tls_port (tls c)) x)))))).
  2:{ unfold put_tls. by destruct x, c as [? []]. }
  assert (Hmat : forall put v y, tls_material_set tr_tls_reload put [v] y = (CfgOK, put v y)).
  { intros put v y. unfold tls_material_set. by rewrite reload_ok. }
  eapply loads_app.
  { apply loads_unless; [|intros _; eapply line_int; [reflexivity|name_ok|name_ok|range..]].
    intros E. apply Z.eqb_eq in E. rewrite E. destruct x as [? []]. cbn in Hx. by injection Hx as -> -> -> -> -> ->. }
  eapply loads_app; [apply (quoted_text "tls-cert-file" set_tls_cert); [|exact (Hmat set_tls_cert _ _)|name_ok|name_ok|done]|].
  { intros ->. destruct x as [? []]. cbn in Hx. by injection Hx as -> -> -> -> -> ->. }
  eapply loads_app; [apply (quoted_text "tls-key-file" set_tls_key); [|exact (Hmat set_tls_key _ _)|name_ok|name_ok|done]|].
  { intros ->. destruct x as [? []]. cbn in Hx. by injection Hx as -> -> -> -> -> ->. }
  eapply loads_app; [apply (quoted_text "tls-ca-cert-file" set_tls_ca); [|reflexivity|name_ok|name_ok|done]|].
  { intros ->. destruct x as [? []]. cbn in Hx. by injection Hx as -> -> -> -> -> ->. }
  apply loads_app with (y := set_tls_auth (tls_auth_clients (tls c)) (set_tls_ca (tls_ca_cert_file (tls c))
      (set_tls_key (tls_key_file (tls c)) (set_tls_cert (tls_cert_file (tls c)) (set_tls_port (tls_port (tls c)) x))))).
  { apply loads_unless; [intros E; apply bool_decide_eq_true in E; rewrite E; destruct x as [? []]; cbn in Hx; by injection Hx as -> -> -> -> -> ->|].
    intros _. eapply (loads_value "tls-auth-clients" _ (tls_auth_name (tls_auth_clients (tls c)))); [name_ok|name_ok| |]; [destruct (tls_auth_clients (tls c)); by apply word_lit|].
    destruct (tls_auth_clients (tls c)); reflexivity. }
  apply loads_unless.
  { intros E. apply Z.eqb_eq in E. rewrite E. destruct x as [? []]. cbn in Hx. by injection Hx as -> -> -> -> -> ->. }
  intros _. rewrite Eh, Z.quot_mul by lia. replace (hs * 1000) with (i32 (hs * 1000)) by (unfold i32; rewrite Z.mod_small by lia; lia).
  eapply (line_int "tls-handshake-timeout" _ _ _ (fun s => set_tls_handshake (i32 (s * 1000)))); [reflexivity|name_ok|name_ok|range..].
Qed.

Lemma scalar_lit name v x y :
  apply_dir (bs name) [v] x = (CfgOK, y) -> word (bs name) (bs name) -> map tolower (bs name) <> bs "save" -> printable v ->
  loads [scalar_line (bs name) v] x y.
Proof. intros. by apply loads_scalar. Qed.

Lemma fsync_line f x : loads [scalar_line (bs "appendfsync") (fsync_name f)] x (set_fsync f x).
Proof. apply scalar_lit; [by destruct f|name_ok|name_ok|destruct f; by repeat constructor]. Qed.

Lemma policy_line p x : loads [scalar_line (bs "maxmemory-policy") (maxmemory_policy_name p)] x (set_policy p x).
Proof. apply scalar_lit; [by destruct p|name_ok|name_ok|destruct p; by repeat constructor]. Qed.

Definition put_mid (c x : Config) : Config :=
  set_notify (notify_keyspace_events (mem c)) (set_samples (cfg_samples (mem c)) (set_policy (cfg_policy (mem c)) (set_maxmemory (maxmemory (mem c))
    (set_fsync (aof_fysnc (disk c)) (set_aof_path (aof_path (disk c)) (set_aof_enable (aof_enable (disk c)) (set_dump_path (dump_path (disk c)) x))))))).

Lemma mid_lines c x : writable c -> loads (concat (take 8 (drop 12 (all_lines c)))) x (put_mid c x).
Proof.
  intros []. destruct wr_paths0 as [P1 P2]. cbn [all_lines drop take concat]. rewrite app_nil_r. unfold put_mid.
  eapply loads_app; [eapply scalar_lit; [|name_ok|name_ok|done]|].
  { transitivity (text_directive "dbfilename" set_dump_path [dump_path (disk c)] x); [reflexivity|]. unfold text_directive, arg1.
    change (default [] _) with (dump_path (disk c)). by rewrite printable_check. }
  eapply loads_app; [eapply scalar_bool; [reflexivity|name_ok|name_ok]|].
  eapply loads_app; [eapply scalar_lit; [reflexivity|name_ok|name_ok|done]|].
  eapply loads_app; [apply fsync_line|].
  eapply loads_app; [eapply scalar_size; [reflexivity|name_ok|name_ok|done]|].
  eapply loads_app; [apply policy_line|].
  eapply loads_app; [eapply scalar_int; [reflexivity|name_ok|name_ok|range..]|].
  apply loads_scalar; [name_ok|name_ok| |].
  - assert (Hall : Forall (fun n => Forall (fun c => 32 <= code c /\ code c <> 127) (notify_flags_string (Z.of_nat n))) (seq 0 1024))
      by (apply (bool_decide_unpack _); vm_compute; reflexivity).
    rewrite Forall_forall in Hall. rewrite <- (Z2Nat.id (notify_keyspace_events (mem c))) by lia. apply Hall. apply elem_of_seq. lia.
  - match goal with |- config_apply _ _ _ _ _ _ _ _ ?a ?y = _ => transitivity (apply_notify a y); [reflexivity|] end.
    unfold apply_notify. rewrite arg1_one. by rewrite parse_notify_string.
Qed.

(** The first [save] line clears the conditions, each adds its own. *)
Lemma save_rest l x ok : Forall (fun p => 0 <= p.1 < 2 ^ 64 /\ 0 <= p.2 < 2 ^ 32) l ->
  foldl load (x, true, ok) ((fun p => line [bs "save"; print_u64 p.1; print_u64 p.2]) <$> l) =
  (set_save (save_conditions (disk x) ++ l) x, true, ok).
Proof.
  intros Hl. revert x. induction Hl as [|p l [H1 H2] _ IH]; intros x.
  { rewrite app_nil_r. cbn. by destruct x as [? ? []]. }
  cbn [fmap list_fmap foldl]. unfold load_line at 2.
  rewrite (tokenize_words _ [bs "save"; print_u64 p.1; print_u64 p.2])
    by (constructor; [name_ok|]; constructor; [apply word_u64; lia|]; constructor; [apply word_u64; lia|]; constructor).
  rewrite bool_decide_eq_true_2 by reflexivity. cbn [negb andb].
  change (config_apply _ _ _ _ _ _ _ (bs "save") [print_u64 p.1; print_u64 p.2] x) with
    (CfgOK, set_save (save_conditions (disk x) ++ [(strtoull (print_u64 p.1), u32 (strtoull (print_u64 p.2)))]) x).
  rewrite !strtoull_print by lia. unfold u32 at 1. rewrite Z.mod_small by lia. rewrite andb_true_r, orb_false_r, IH. cbn [disk set_save on_disk save_conditions].
  rewrite <- app_assoc. by destruct p.
Qed.

Lemma save_lines c x ok : writable c ->
  Forall one_line (emit_save c) /\ foldl load (x, false, ok) (emit_save c) = (set_save (save_conditions (disk c)) x, true, ok).
Proof.
  intros []. destruct wr_save0 as [Hne Hl]. unfold emit_save. split.
  - apply Forall_fmap. eapply Forall_impl; [exact Hl|]. intros p [H1 H2]. eapply line_one.
    constructor; [name_ok|]. constructor; [apply word_u64; lia|]. constructor; [apply word_u64; lia|]. constructor.
  - destruct (save_conditions (disk c)) as [|p l]; [done|]. pose proof (save_rest (p :: l) (set_save [] x) ok Hl) as H.
    cbn [disk set_save on_disk save_conditions app] in H. etransitivity; [|exact H]. cbn [fmap list_fmap foldl]. f_equal.
Qed.

Definition put_repl (c x : Config) : Config :=
  set_max_lag (min_replicas_max_lag (repl c)) (set_min_replicas (min_replicas_to_write (repl c))
    (set_ping (repl_ping_period_ms (repl c)) (u64 (now + repl_ping_period_ms (repl c))) (set_repl_timeout (repl_timeout_ms (repl c))
    (set_backlog (repl_backlog_size (repl c)) (set_rewrite_min (aof_rewrite_min_size (disk c)) (set_rewrite_perc (aof_rewrite_perc (disk c)) x)))))).

Lemma ms_exact s : 0 <= s <= 3600 -> i32 (s * 1000) = s * 1000.
Proof. intros H. unfold i32. rewrite Z.mod_small by lia. lia. Qed.

Lemma backlog_line n x : n = 0 \/ k_repl_backlog_min <= n < 2 ^ 64 ->
  loads [scalar_line (bs "repl-backlog-size") (print_u64 n)] x (set_backlog n x).
Proof.
  intros Hn. assert (Hr : 0 <= n < 2 ^ 64) by (unfold k_repl_backlog_min in Hn; lia).
  apply loads_scalar; [name_ok|name_ok|by apply printable_u64|]. transitivity (apply_backlog [print_u64 n] x); [reflexivity|].
  unfold apply_backlog. rewrite arg1_one, parse_size_print by done.
  assert (negb (n =? 0) && (n <? k_repl_backlog_min) = false) as -> by lia. done.
Qed.

Lemma repl_lines c x : writable c -> loads (concat (take 7 (drop 21 (all_lines c)))) x (put_repl c x).
Proof.
  intros []. destruct wr_timeouts0 as (s & t & Hs & Ht & Es & Et). destruct wr_replicas0 as [R1 R2].
  cbn [all_lines drop take concat]. rewrite app_nil_r. unfold put_repl. rewrite Es, Et, !Z.quot_mul by lia.
  rewrite <- (ms_exact s Hs), <- (ms_exact t Ht).
  eapply loads_app; [eapply scalar_int; [reflexivity|name_ok|name_ok|range..]|].
  eapply loads_app; [eapply scalar_size; [reflexivity|name_ok|name_ok|done]|].
  eapply loads_app; [by apply backlog_line|].
  eapply loads_app.
  { eapply (scalar_int "repl-timeout" _ _ _ (fun s => set_repl_timeout (i32 (s * 1000)))); [reflexivity|name_ok|name_ok|range..]. }
  eapply loads_app.
  { eapply (scalar_int "repl-ping-replica-period" _ _ _ (fun s => set_ping (i32 (s * 1000)) (u64 (now + i32 (s * 1000)))));
      [reflexivity|name_ok|name_ok|range..]. }
  eapply loads_app; [eapply scalar_int; [reflexivity|name_ok|name_ok|range..]|].
  eapply scalar_int; [reflexivity|name_ok|name_ok|range..].
Qed.

(** The master named by the role; without one the setting stays. *)
Definition put_role (x : Config) : Config := match role with Some (h, p) => set_replicaof h p x | None => x end.

Lemma role_lines c x : writable c -> loads (emit_replicaof role c) x (put_role x).
Proof.
  intros []. unfold emit_replicaof, put_role. destruct role as [[h p]|]; [|apply loads_nil]. destruct wr_role0 as [Hh Hp].
  eapply (loads_line _ (bs "replicaof") [h; print_i64 p]); [|name_ok|].
  - constructor; [name_ok|]. constructor; [done|]. constructor; [apply word_i64; lia|]. constructor.
  - transitivity (apply_replicaof [h; print_i64 p] x); [reflexivity|]. unfold apply_replicaof.
    change (default [] ([h; print_i64 p] !! 1%nat)) with (print_i64 p). rewrite parse_print by (unfold INT64_MIN, INT64_MAX; lia).
    assert ((p <=? 0) || (65535 <? p) = false) as -> by lia. unfold i32. rewrite Z.mod_small by lia. by rewrite Z.add_simpl_r.
Qed.

Lemma masterauth_lines c x : writable c -> masterauth (repl x) = [] ->
  loads (unless_default (bool_decide (masterauth (repl c) = [])) (line [bs "masterauth"; in_quotes (c_str (escape (masterauth (repl c))))]))
    x (set_masterauth (masterauth (repl c)) x).
Proof.
  intros [] Hx. apply loads_unless.
  - intros E. apply bool_decide_eq_true in E. rewrite E. destruct x as [? ? ? ? []]. cbn in Hx. by subst.
  - intros _. set (v := masterauth (repl c)) in *. eapply (loads_value "masterauth" _ v); [name_ok|name_ok| |].
    + pose proof (printable_escape v wr_masterauth0) as He. rewrite c_str_id by by apply printable_no_zero.
      split; [constructor|]. by apply printable_clean, printable_in_quotes.
    + transitivity (text_directive "masterauth" set_masterauth [v] x); [reflexivity|]. unfold text_directive. rewrite arg1_one.
      by rewrite printable_check.
Qed.

(** The renames, in order. *)
Lemma rename_lines rs x : renames_ok rs -> Forall (fun r => r.2 = [] \/ (word r.2 r.2 /\ map tolower r.2 = r.2 /\ printable r.2)) rs ->
  renames (sec x) = [] ->
  loads ((fun r => if bool_decide (r.2 = []) then line [bs "rename-command"; r.1; in_quotes []] else line [bs "rename-command"; r.1; r.2]) <$> rs)
    x (set_renames rs x).
Proof.
  intros Hok Hw Hx. induction Hok as [|rs [old new] Hok IH (Hk & Hold & Hnew)].
  { destruct x as [? ? ? ? ? []]. cbn in Hx. subst. apply loads_nil. }
  apply Forall_app in Hw as [Hw Hr]. apply Forall_inv in Hr. cbn [fst snd] in *. rewrite fmap_app. eapply loads_app; [by apply IH|].
  pose proof (known_lower old Hk) as Hl. pose proof (lower_id old Hl) as Hid.
  assert (Hap : map tolower new = new -> printable new -> config_apply cred_hash_new cred_verify tr_tls_reload order user_order now role
    (bs "rename-command") [old; new] (set_renames rs x) = (CfgOK, set_renames (rs ++ [(old, new)]) x)).
  { intros Hidn Hpn. transitivity (apply_rename [old; new] (set_renames rs x)); [reflexivity|]. unfold apply_rename.
    change (arg1 [old; new]) with old. change (default [] ([old; new] !! 1%nat)) with new. rewrite Hid, Hidn.
    cbn [sec set_renames on_sec renames password].
    rewrite bool_decide_eq_false_2 by (by intros ->). rewrite Hk. cbn [negb]. rewrite bool_decide_eq_false_2 by done.
    case_bool_decide as En.
    - assert (bool_decide (old = bs "auth") = false) as -> by (apply bool_decide_eq_false_2; intros ->; by vm_compute in Hk). done.
    - destruct (Hnew En) as [Hu Hin]. rewrite printable_check by done. cbn [negb]. rewrite Hu. by rewrite bool_decide_eq_false_2. }
  cbn [fmap list_fmap fst snd]. case_bool_decide as En.
  - subst new. eapply (loads_line _ (bs "rename-command") [old; []]); [|name_ok|by apply Hap; [|constructor]].
    constructor; [name_ok|]. constructor; [by apply word_name|]. constructor; [|constructor].
    split; [exact (spells_quoted [])|by repeat constructor].
  - destruct Hr as [?|(Hwn & Hidn & Hpn)]; [done|]. eapply (loads_line _ (bs "rename-command") [old; new]); [|name_ok|by apply Hap].
    constructor; [name_ok|]. constructor; [by apply word_name|]. constructor; [done|]. constructor.
Qed.

Context (order_ok : forall m, order m ≡ₚ map_to_list m).

Definition user_writable (n : bytes) (u : User) : Prop :=
  user_ok u /\ acl_token_ok n = true /\ n !! 0%nat <> Some c_hash /\ n !! 0%nat <> Some c_quote.

Lemma user_line n u x : user_writable n u -> users (sec x) !! n = None ->
  exists u', user_equiv u' u /\ loads [c_str (acl_format_user order n u true) ++ [c_lf]] x (set_users (<[n := u']> (users (sec x))) x).
Proof.
  intros (Hok & Hn & H1 & H2) Hx. destruct (rules_back cred_hash_new cred_verify order order_ok n u Hok) as (u' & Hr & He & Hname).
  exists u'. split; [done|].
  assert (Hw : Forall2 word (bs "user" :: n :: acl_words order u true) (bs "user" :: n :: user_rules order u)).
  { constructor; [name_ok|]. constructor; [|by apply words_spell]. destruct n as [|c n]; [done|].
    apply word_solid; [by apply token_solid|..]; intros ->; done. }
  assert (Hline : c_str (acl_format_user order n u true) ++ [c_lf] = line (bs "user" :: n :: acl_words order u true)).
  { rewrite line_eq by by eapply words_no_zero.
    pose proof (no_zero_line _ (words_no_zero _ _ Hw)) as Hz.
    change (line_of (bs "user" :: n :: acl_words order u true)) with (acl_format_user order n u true ++ [c_lf]) in *.
    apply Forall_app in Hz as [Hz _]. by rewrite c_str_id. }
  rewrite Hline. eapply (loads_line _ (bs "user") (n :: user_rules order u)); [done|name_ok|].
  transitivity (apply_user cred_hash_new cred_verify (n :: user_rules order u) x).
  { unfold config_apply. change (find_directive _ _) with (Some (mkDirective (bs "user") 1 (-1) (apply_user cred_hash_new cred_verify) None false false
      (Some (emit_users order user_order)))).
    cbn [d_min d_max d_apply]. assert (Z.of_nat (length (n :: user_rules order u)) <? 1 = false) as -> by (apply Z.ltb_ge; cbn [length]; lia).
    reflexivity. }
  unfold apply_user. change (arg1 (n :: user_rules order u)) with n. change (drop 1 (n :: user_rules order u)) with (user_rules order u).
  rewrite Hx. cbn [default from_option]. change (default fresh_user None) with fresh_user. rewrite (bool_decide_eq_true_2 (user_name fresh_user = [])) by done.
  rewrite Hr. rewrite (bool_decide_eq_false_2 (user_name u' = [])); [done|]. rewrite Hname. by intros ->.
Qed.

Lemma user_lines l x : NoDup l.*1 -> Forall (fun p => user_writable p.1 p.2) l -> (forall n, n ∈ l.*1 -> users (sec x) !! n = None) ->
  exists m : gmap bytes User, (forall n, option_Forall2 user_equiv (m !! n) ((list_to_map l : gmap bytes User) !! n)) /\
    loads ((fun p => c_str (acl_format_user order p.1 p.2 true) ++ [c_lf]) <$> l) x (set_users (m ∪ users (sec x)) x).
Proof.
  intros Hd Hl. revert x. induction Hl as [|[n u] l Hp _ IH]; intros x Hx.
  { exists ∅. split; [intros n; cbn; rewrite !lookup_empty; constructor|]. rewrite (left_id_L ∅ (∪)). destruct x as [? ? ? ? ? []]. apply loads_nil. }
  cbn [fmap list_fmap fst snd] in *. apply NoDup_cons in Hd as [Hn Hd]. destruct (user_line n u x Hp (Hx n ltac:(left))) as (u' & He & Hu).
  destruct (IH Hd (set_users (<[n := u']> (users (sec x))) x)) as (m & Hm & Hload).
  { intros k Hk. cbn [sec set_users on_sec users]. rewrite lookup_insert_ne by (intros ->; done). apply Hx. by right. }
  exists (<[n := u']> m). split.
  - intros k. cbn [list_to_map foldr fst snd]. destruct (decide (k = n)) as [->|Hne]; [rewrite !lookup_insert_eq; by constructor|].
    rewrite !lookup_insert_ne by done. apply Hm.
  - eapply (loads_app [_]); [exact Hu|]. cbn [sec set_users on_sec users] in Hload.
    assert (Hmn : m !! n = None).
    { specialize (Hm n). rewrite (not_elem_of_list_to_map_1 l n) in Hm by done. by inversion Hm. }
    rewrite <- insert_union_l, (insert_union_r m) by done. destruct x as [? ? ? ? ? []]. exact Hload.
Qed.

Context (user_order_ok : forall m, user_order m ≡ₚ map_to_list m).

Lemma filtered_users (m : gmap bytes User) n : n <> bs "default" ->
  (list_to_map (filter (fun p => p.1 <> bs "default") (user_order m)) : gmap bytes User) !! n = m !! n.
Proof.
  intros Hn. assert (Hd : NoDup (filter (fun p => p.1 <> bs "default") (user_order m)).*1).
  { eapply sublist_NoDup; [|apply fmap_sublist, sublist_filter]. rewrite (user_order_ok m). apply NoDup_fst_map_to_list. }
  apply option_eq. intros u. rewrite <- (elem_of_list_to_map _ n u Hd), list_elem_of_filter, (user_order_ok m), elem_of_map_to_list.
  cbn. naive_solver.
Qed.

Lemma users_lines c x : writable c -> users (sec x) = ∅ ->
  exists m : gmap bytes User, (forall n, n <> bs "default" -> option_Forall2 user_equiv (m !! n) (users (sec c) !! n)) /\
    loads (emit_users order user_order c) x (set_users m x).
Proof.
  intros [] Hx. destruct (user_lines (filter (fun p => p.1 <> bs "default") (user_order (users (sec c)))) x) as (m & Hm & Hl).
  - eapply sublist_NoDup; [|apply fmap_sublist, sublist_filter]. rewrite (user_order_ok _). apply NoDup_fst_map_to_list.
  - apply Forall_forall. intros [n u] Hp. apply list_elem_of_filter in Hp as [_ Hp]. rewrite (user_order_ok _), elem_of_map_to_list in Hp.
    by apply (wr_users0 n u).
  - intros n _. by rewrite Hx, lookup_empty.
  - exists m. rewrite Hx, (right_id_L ∅ (∪)) in Hl. split; [|exact Hl]. intros n Hn. specialize (Hm n). by rewrite filtered_users in Hm.
Qed.

Lemma all_lines_split c : concat (all_lines c) =
  concat (take 5 (all_lines c)) ++ emit_requirepass c ++ concat (take 6 (drop 6 (all_lines c))) ++ concat (take 8 (drop 12 (all_lines c))) ++
  emit_save c ++ concat (take 7 (drop 21 (all_lines c))) ++ emit_replicaof role c ++
  unless_default (bool_decide (masterauth (repl c) = [])) (line [bs "masterauth"; in_quotes (c_str (escape (masterauth (repl c))))]) ++
  emit_users order user_order c ++ emit_renames c ++ quoted_if_set "auditlog" (auditlog_path (sec c)).
Proof. cbn [all_lines take drop concat]. rewrite <- ?app_assoc, ?app_nil_r. done. Qed.

(** The settings a reload restores; the rest of the replication group is the
    re-armed timer and the master, which the role decides. *)
Record reloaded (c c' : Config) : Prop := {
  rl_net : net c' = net c; rl_tls : tls c' = tls c; rl_disk : disk c' = disk c; rl_mem : mem c' = mem c;
  rl_backlog : repl_backlog_size (repl c') = repl_backlog_size (repl c);
  rl_timeout : repl_timeout_ms (repl c') = repl_timeout_ms (repl c);
  rl_ping : repl_ping_period_ms (repl c') = repl_ping_period_ms (repl c);
  rl_min : min_replicas_to_write (repl c') = min_replicas_to_write (repl c);
  rl_lag : min_replicas_max_lag (repl c') = min_replicas_max_lag (repl c);
  rl_master : match role with Some (h, p) => replicaof_host (repl c') = h /\ replicaof_port (repl c') = p | None => replicaof_port (repl c') = 0 end;
  rl_auth : masterauth (repl c') = masterauth (repl c);
  rl_pw : password (sec c') = password (sec c); rl_renames : renames (sec c') = renames (sec c);
  rl_audit : auditlog_path (sec c') = auditlog_path (sec c);
  rl_users : forall n, n <> bs "default" -> option_Forall2 user_equiv (users (sec c') !! n) (users (sec c) !! n);
}.

Lemma file_loads c : writable c -> exists c', reloaded c c' /\ Forall one_line (concat (all_lines c)) /\
  foldl load (config_default, false, true) (concat (all_lines c)) = (c', true, true).
Proof.
  intros Hw.
  destruct (net_lines c config_default Hw eq_refl) as [L1 H1]. set (x1 := put_net (net c) config_default) in *.
  destruct (requirepass_lines c x1 Hw eq_refl eq_refl) as [L2 H2]. set (x2 := set_password (password (sec c)) x1) in *.
  destruct (tls_lines c x2 Hw eq_refl) as [L3 H3]. set (x3 := put_tls (tls c) x2) in *.
  destruct (mid_lines c x3 Hw) as [L4 H4]. set (x4 := put_mid c x3) in *.
  destruct (save_lines c x4 true Hw) as [L5 H5]. set (x5 := set_save (save_conditions (disk c)) x4) in *.
  destruct (repl_lines c x5 Hw) as [L6 H6]. set (x6 := put_repl c x5) in *.
  destruct (role_lines c x6 Hw) as [L7 H7]. set (x7 := put_role x6) in *.
  assert (Hx7 : masterauth (repl x7) = [] /\ sec x7 = sec x2) by (unfold x7, put_role; by destruct role as [[? ?]|]). destruct Hx7 as [Hx7 Hs7].
  destruct (masterauth_lines c x7 Hw Hx7) as [L8 H8]. set (x8 := set_masterauth (masterauth (repl c)) x7) in *.
  assert (Hs8 : sec x8 = sec x2) by exact Hs7.
  destruct (users_lines c x8 Hw) as (m & Hm & L9 & H9); [by rewrite Hs8|]. set (x9 := set_users m x8) in *.
  destruct (rename_lines (renames (sec c)) x9 (proj1 (wr_renames c Hw)) (proj2 (wr_renames c Hw))) as [L10 H10].
  { change (renames (sec x9)) with (renames (sec x8)). by rewrite Hs8. }
  set (x10 := set_renames (renames (sec c)) x9) in *.
  assert (Ha : auditlog_path (sec x10) = []).
  { change (auditlog_path (sec x10)) with (auditlog_path (sec x8)). by rewrite Hs8. }
  destruct (quoted_text "auditlog" set_auditlog (auditlog_path (sec c)) x10) as [L11 H11].
  { intros ->. destruct x10 as [? ? ? ? ? []]. cbn in Ha. by subst. }
  { transitivity (text_directive "auditlog" set_auditlog [auditlog_path (sec c)] x10); [reflexivity|]. unfold text_directive. rewrite arg1_one.
    rewrite printable_check; [done|]. apply (wr_audit c Hw). }
  { name_ok. } { name_ok. } { apply (wr_audit c Hw). }
  exists (set_auditlog (auditlog_path (sec c)) x10). split; [|split].
  - split; try done; try (unfold x10, x9, x8, x7, put_role; by destruct role as [[? ?]|]).
    + unfold x10, x9, x8, x7, put_role. destruct role as [[? ?]|]; by destruct c as [? ? []].
    + unfold x10, x9, x8, x7, put_role. destruct role as [[? ?]|]; by destruct c as [? ? ? []].
  - rewrite all_lines_split. rewrite !Forall_app. split_and!; done.
  - rewrite all_lines_split, !foldl_app, H1, H2, H3, H4, H5, H6, H7, H8, H9. unfold emit_renames. by rewrite H10, H11.
Qed.
End File.

(** ** Properties *)


(** A configuration with a user, a rename and a save point. *)
Definition sample_config : Config :=
  set_renames [(bs "flushall", bs "wipe"); (bs "keys", [])]
    (set_users {[bs "bob" := bob]} (set_save [(900, 1)] (set_maxmemory 1000000 config_default))).

Lemma bob_ok : user_ok bob.
Proof. split; cbn; [constructor|apply Forall_singleton; split; [reflexivity|discriminate]|constructor|apply map_Forall_empty]. Qed.

Lemma safe_nil : safe_text [].
Proof. split; [constructor|]. split; apply not_elem_of_nil. Qed.

Lemma sample_writable : writable None sample_config.
Proof.
  split; cbn; try lia; try done.
  - split; [done|]. apply Forall_singleton. apply word_lit. reflexivity.
  - by left.
  - split; [|split]; apply safe_nil.
  - exists 10. lia.
  - split; apply (bool_decide_unpack (Forall _ _)); vm_compute; reflexivity.
  - split; [done|]. apply Forall_singleton. cbn. lia.
  - right. unfold k_repl_backlog_min. lia.
  - exists 60, 10. lia.
  - constructor.
  - apply map_Forall_insert_2; [|apply map_Forall_empty]. split; [apply bob_ok|]. split; [reflexivity|]. split; discriminate.
  - split.
    + apply (renames_snoc [(bs "flushall", bs "wipe")]); [apply (renames_snoc []); [constructor|]|].
      * split; [reflexivity|]. split; [set_solver|]. intros _. split; [reflexivity|set_solver].
      * split; [reflexivity|]. split; [|done]. by apply (bool_decide_unpack _).
    + constructor; [right; split; [apply word_lit; reflexivity|]; split; [reflexivity|apply (bool_decide_unpack (Forall _ _)); reflexivity]|].
      constructor; [by left|constructor].
  - apply safe_nil.
Qed.


(** A setting that CONFIG SET accepts can keep the server from starting.
    After a path for the audit log with a quote in it, a sample count of 2^32
    (stored as 0), or a password to the master of 1,100 bytes, CONFIG REWRITE
    writes a file that its own loader refuses, and a server started with it
    exits.  Switching the save points off is answered with OK and written as
    nothing: the reloaded server has the default save points. *)
Theorem config_set_breaks_restart (cred_hash_new : bytes -> bytes) (cred_verify : bytes -> bytes -> bool) :
  let tls_ok := fun _ : Config => @None bytes in
  let set name v := config_set cred_hash_new cred_verify tls_ok map_to_list map_to_list 0 None (bs name) v config_default in
  let reload c := (fun text => config_load_file cred_hash_new cred_verify tls_ok map_to_list map_to_list 0 None text config_default) <$>
                  config_rewrite cred_hash_new cred_verify tls_ok map_to_list map_to_list 0 None c in
  let refused name v := (set name v).1 = resp_ok /\ fst <$> reload (set name v).2 = Some false in
  refused "auditlog" (bs "a" ++ [c_quote] ++ bs "b") /\
  (refused "maxmemory-samples" (bs "4294967296") /\ cfg_samples (mem (set "maxmemory-samples" (bs "4294967296")).2) = 0) /\
  refused "masterauth" (replicate 1100 (chr 120)) /\
  ((set "save" []).1 = resp_ok /\ save_conditions (disk (set "save" []).2) = [] /\
   fst <$> reload (set "save" []).2 = Some true /\
   (fun r => save_conditions (disk r.2)) <$> reload (set "save" []).2 = Some [(3600, 1); (300, 100); (60, 10000)]).
Proof. cbv zeta. split_and!; reflexivity || (vm_compute; reflexivity). Qed.
