(* ===== verification/Double.v ===== *)
(** * The bytes of a double

    The snapshot writer copies the eight bytes of a [double] with [memcpy].
    [double_bits] and [bits_double] are the IEEE binary64 interchange format on
    the values of Score.v; they are inverse on every binary64 value. *)
From S2P Require Import Prelude Score.

(** A value the type [double] has: [spec_float] is wider than binary64. *)
Definition is_double (s : score) : Prop := valid_binary 53 1024 s = true.

Definition sign_bit (b : bool) : Z := if b then 2 ^ 63 else 0.

Definition double_bits (s : score) : Z :=
  match s with
  | S754_zero b => sign_bit b
  | S754_infinity b => sign_bit b + 2047 * 2 ^ 52
  | S754_nan => 2047 * 2 ^ 52 + 2 ^ 51
  | S754_finite b m e =>
      sign_bit b + (if 2 ^ 52 <=? Zpos m then (e + 1075) * 2 ^ 52 + (Zpos m - 2 ^ 52) else Zpos m)
  end.

Definition bits_double (z : Z) : score :=
  let sign := 2 ^ 63 <=? z in
  let ex := z / 2 ^ 52 mod 2 ^ 11 in
  let mant := z mod 2 ^ 52 in
  if ex =? 2047 then (if mant =? 0 then S754_infinity sign else S754_nan)
  else if ex =? 0 then (if mant =? 0 then S754_zero sign else S754_finite sign (Z.to_pos mant) (-1074))
  else S754_finite sign (Z.to_pos (mant + 2 ^ 52)) (ex - 1075).

Lemma digits2_bounds m : 2 ^ (Zpos (digits2_pos m) - 1) <= Zpos m < 2 ^ Zpos (digits2_pos m).
Proof.
  induction m as [m IH|m IH|]; cbn [digits2_pos]; [| |done].
  all: rewrite Pos2Z.inj_succ; replace (Z.succ (Zpos (digits2_pos m)) - 1) with (Zpos (digits2_pos m)) by lia;
    rewrite Z.pow_succ_r by lia;
    replace (2 ^ Zpos (digits2_pos m)) with (2 * 2 ^ (Zpos (digits2_pos m) - 1)) in * by
      (rewrite <- Z.pow_succ_r by lia; f_equal; lia); lia.
Qed.

(** The mantissas and exponents of finite doubles. *)
Lemma double_finite b m e :
  is_double (S754_finite b m e) ->
  Zpos m < 2 ^ 53 /\ -1074 <= e <= 971 /\ (Zpos m < 2 ^ 52 -> e = -1074).
Proof.
  unfold is_double. cbn [valid_binary]. unfold bounded, canonical_mantissa, fexp, emin. intros H.
  apply andb_prop in H as [H1 H2]. apply Z.eqb_eq in H1. apply Z.leb_le in H2.
  pose proof (digits2_bounds m) as [Hl Hu]. set (d := Zpos (digits2_pos m)) in *.
  assert (Hd : d <= 53) by lia. assert (Hm : 2 ^ d <= 2 ^ 53) by (apply Z.pow_le_mono_r; lia).
  split_and!; [lia|lia|lia|]. intros Hs.
  destruct (Z.eq_dec d 53) as [E|]; [|lia]. rewrite E in Hl. lia.
Qed.

Lemma double_bits_range s : is_double s -> 0 <= double_bits s < 2 ^ 64.
Proof.
  intros Hs. destruct s as [b|b| |b m e]; cbn [double_bits]; try (destruct b; cbn; lia); [lia|].
  destruct (double_finite _ _ _ Hs) as (H1 & H2 & H3).
  destruct (2 ^ 52 <=? Zpos m) eqn:E; bool_facts; destruct b; cbn [sign_bit]; lia.
Qed.

(** The fields of a word put together from them. *)
Lemma bits_fields b ex mant :
  0 <= ex < 2 ^ 11 -> 0 <= mant < 2 ^ 52 ->
  let z := sign_bit b + (ex * 2 ^ 52 + mant) in
  (2 ^ 63 <=? z) = b /\ z / 2 ^ 52 mod 2 ^ 11 = ex /\ z mod 2 ^ 52 = mant.
Proof.
  intros He Hm. cbn zeta. set (s := if b then 2 ^ 11 else 0).
  replace (sign_bit b + (ex * 2 ^ 52 + mant)) with ((s + ex) * 2 ^ 52 + mant)
    by (subst s; destruct b; cbn [sign_bit]; lia). split_and!.
  - subst s. destruct b; [apply Z.leb_le|apply Z.leb_gt]; lia.
  - rewrite Z.div_add_l, (Z.div_small mant), Z.add_0_r by lia.
    subst s. destruct b; [rewrite Z.add_comm, <- (Z.mul_1_l (2 ^ 11)) at 1; rewrite Z.mod_add by lia|];
      apply Z.mod_small; lia.
  - rewrite Z.add_comm, Z.mod_add by lia. by apply Z.mod_small.
Qed.

Lemma double_roundtrip s : is_double s -> bits_double (double_bits s) = s.
Proof.
  intros Hs. unfold bits_double. destruct s as [b|b| |b m e]; cbn [double_bits].
  - by destruct b.
  - by destruct b.
  - done.
  - destruct (double_finite _ _ _ Hs) as (H1 & H2 & H3).
    destruct (2 ^ 52 <=? Zpos m) eqn:E; bool_facts.
    + destruct (bits_fields b (e + 1075) (Zpos m - 2 ^ 52)) as (-> & -> & ->); [lia..|].
      rewrite (proj2 (Z.eqb_neq (e + 1075) 2047)), (proj2 (Z.eqb_neq (e + 1075) 0)) by lia.
      replace (Zpos m - 2 ^ 52 + 2 ^ 52) with (Zpos m) by lia. f_equal. lia.
    + replace (sign_bit b + Zpos m) with (sign_bit b + (0 * 2 ^ 52 + Zpos m)) by lia.
      destruct (bits_fields b 0 (Zpos m)) as (-> & -> & ->); [lia..|]. cbn. by rewrite H3.
Qed.
