(* ===== verification/Crc32.v ===== *)
(** * The checksum of snapshot images (crc32_init and crc32_compute of src/src/persistence/rdb.cpp)

    The reflected CRC-32 with a table.  The step function is injective in the
    register for a fixed byte and in the byte for a fixed register, so two
    inputs of the same length that differ in one byte never have the same
    checksum. *)
From S2P Require Import Prelude.

(** One row of [crc32_init]: eight shifts of [crc]. *)
Fixpoint crc_row (j : nat) (crc : Z) : Z :=
  match j with
  | O => crc
  | S j' => crc_row j' (if Z.land crc 1 =? 0 then Z.shiftr crc 1 else Z.lxor (Z.shiftr crc 1) 0xEDB88320)
  end.

Definition crc32_init : list Z := crc_row 8 <$> seqZ 0 256.

(** [g_crc32_table] once [crc32_init] has run. *)
Definition g_crc32_table : list Z := Eval vm_compute in crc32_init.

Definition crc_step (crc : Z) (b : ascii) : Z :=
  Z.lxor (Z.shiftr crc 8) (g_crc32_table !!! Z.to_nat (Z.land (Z.lxor crc (code b)) 255)).

Definition crc32_compute (data : bytes) : Z := u32 (Z.lxor (foldl crc_step 0xFFFFFFFF data) 0xFFFFFFFF).

Example crc_check_value : crc32_compute (bs "123456789") = 0xCBF43926.
Proof. vm_compute. reflexivity. Qed.

(** ** Bits *)

Lemma land_255 z : Z.land z 255 = z mod 256.
Proof. change 255 with (Z.ones 8). by rewrite Z.land_ones by lia. Qed.

Lemma lxor_range n a b : 0 <= n -> 0 <= a < 2 ^ n -> 0 <= b < 2 ^ n -> 0 <= Z.lxor a b < 2 ^ n.
Proof.
  intros Hn Ha Hb. assert (H0 : 0 <= Z.lxor a b) by (apply Z.lxor_nonneg; lia). split; [done|].
  destruct (Z.eq_dec (Z.lxor a b) 0) as [->|Hne]; [lia|]. apply Z.log2_lt_pow2; [lia|].
  pose proof (Z.log2_lxor a b ltac:(lia) ltac:(lia)) as Hl.
  destruct (Z.eq_dec n 0) as [->|]; [|].
  { assert (a = 0) as -> by lia. assert (b = 0) as -> by lia. done. }
  assert (forall x, 0 <= x < 2 ^ n -> Z.log2 x < n).
  { intros x Hx. destruct (Z.eq_dec x 0) as [->|]; [cbn; lia|]. apply Z.log2_lt_pow2; lia. }
  pose proof (H a Ha). pose proof (H b Hb). lia.
Qed.

Lemma lxor_cancel_l a b c : Z.lxor a b = Z.lxor a c -> b = c.
Proof.
  intros H. rewrite <- (Z.lxor_0_l b), <- (Z.lxor_nilpotent a), Z.lxor_assoc, H.
  by rewrite <- Z.lxor_assoc, Z.lxor_nilpotent, Z.lxor_0_l.
Qed.

Lemma lxor_cancel_r a b c : Z.lxor b a = Z.lxor c a -> b = c.
Proof. rewrite !(Z.lxor_comm _ a). apply lxor_cancel_l. Qed.

Lemma land_lxor_distr a b c : Z.land (Z.lxor a b) c = Z.lxor (Z.land a c) (Z.land b c).
Proof.
  apply Z.bits_inj'. intros n _. rewrite !Z.land_spec, !Z.lxor_spec, !Z.land_spec.
  by destruct (Z.testbit a n), (Z.testbit b n), (Z.testbit c n).
Qed.

(** ** The table *)

(** Rows are 32-bit, and no two share their top byte. *)
Lemma table_rows : Forall (fun x => 0 <= x < 2 ^ 32) g_crc32_table /\ NoDup ((fun x => Z.shiftr x 24) <$> g_crc32_table).
Proof.
  split; [|apply (bool_decide_unpack _); vm_compute; exact I].
  apply (bool_decide_unpack _). vm_compute. exact I.
Qed.

Lemma table_lookup_range i : 0 <= i < 256 -> exists x, g_crc32_table !! Z.to_nat i = Some x /\
  g_crc32_table !!! Z.to_nat i = x /\ 0 <= x < 2 ^ 32.
Proof.
  intros Hi. destruct (lookup_lt_is_Some_2 g_crc32_table (Z.to_nat i)) as [x Hx]; [cbn; lia|].
  exists x. split_and!; [done|by apply list_lookup_total_correct|..];
    apply (proj1 (Forall_forall _ _) (proj1 table_rows)); by eapply list_elem_of_lookup_2.
Qed.

Lemma table_top_inj i j :
  0 <= i < 256 -> 0 <= j < 256 ->
  Z.shiftr (g_crc32_table !!! Z.to_nat i) 24 = Z.shiftr (g_crc32_table !!! Z.to_nat j) 24 -> i = j.
Proof.
  intros Hi Hj H. destruct (table_lookup_range i Hi) as (x & Hx & Ex & _), (table_lookup_range j Hj) as (y & Hy & Ey & _).
  rewrite Ex, Ey in H.
  assert (Z.to_nat i = Z.to_nat j); [|lia].
  apply (NoDup_lookup _ _ _ (Z.shiftr x 24) (proj2 table_rows)); rewrite list_lookup_fmap; [by rewrite Hx|rewrite Hy; cbn; by rewrite H].
Qed.

(** ** Injectivity of the step *)

Lemma crc_index_range c b : 0 <= Z.land (Z.lxor c (code b)) 255 < 256.
Proof. rewrite land_255. apply Z.mod_pos_bound. lia. Qed.

Lemma crc_step_range c b : 0 <= c < 2 ^ 32 -> 0 <= crc_step c b < 2 ^ 32.
Proof.
  intros Hc. unfold crc_step. destruct (table_lookup_range _ (crc_index_range c b)) as (x & _ & -> & Hx).
  apply lxor_range; [lia| |lia]. rewrite Z.shiftr_div_pow2 by lia. split; [apply Z.div_pos; lia|].
  apply Z.div_lt_upper_bound; lia.
Qed.

(** Equal results come from equal high parts and equal table rows. *)
Lemma crc_step_inj c b c' b' :
  0 <= c < 2 ^ 32 -> 0 <= c' < 2 ^ 32 -> crc_step c b = crc_step c' b' ->
  Z.shiftr c 8 = Z.shiftr c' 8 /\ Z.land (Z.lxor c (code b)) 255 = Z.land (Z.lxor c' (code b')) 255.
Proof.
  intros Hc Hc' H. unfold crc_step in H.
  assert (Hz : forall x, 0 <= x < 2 ^ 32 -> Z.shiftr (Z.shiftr x 8) 24 = 0).
  { intros x Hx. rewrite Z.shiftr_shiftr, Z.shiftr_div_pow2 by lia. apply Z.div_small. lia. }
  assert (Hi : Z.land (Z.lxor c (code b)) 255 = Z.land (Z.lxor c' (code b')) 255).
  { apply table_top_inj; [apply crc_index_range..|]. apply (f_equal (fun x => Z.shiftr x 24)) in H.
    rewrite !Z.shiftr_lxor, !Hz, !Z.lxor_0_l in H by done. done. }
  split; [|done]. rewrite Hi in H. by apply lxor_cancel_r in H.
Qed.

Lemma crc_state_inj c c' b : 0 <= c < 2 ^ 32 -> 0 <= c' < 2 ^ 32 -> crc_step c b = crc_step c' b -> c = c'.
Proof.
  intros Hc Hc' H. destruct (crc_step_inj c b c' b Hc Hc' H) as [Hh Hl].
  rewrite !Z.shiftr_div_pow2 in Hh by lia. rewrite !land_lxor_distr in Hl. apply lxor_cancel_r in Hl.
  rewrite !land_255 in Hl. pose proof (Z.div_mod c 256). pose proof (Z.div_mod c' 256).
  change (2 ^ 8) with 256 in Hh. lia.
Qed.

Lemma crc_byte_inj c b b' : 0 <= c < 2 ^ 32 -> crc_step c b = crc_step c b' -> b = b'.
Proof.
  intros Hc H. destruct (crc_step_inj c b c b' Hc Hc H) as [_ Hl]. rewrite !land_lxor_distr in Hl.
  apply lxor_cancel_l in Hl. rewrite !land_255, !Z.mod_small in Hl by apply code_range. by apply code_inj.
Qed.

Lemma crc_run_range l c : 0 <= c < 2 ^ 32 -> 0 <= foldl crc_step c l < 2 ^ 32.
Proof. revert c. induction l as [|b l IH]; intros c Hc; [done|]. cbn. by apply IH, crc_step_range. Qed.

Lemma crc_run_inj l c c' :
  0 <= c < 2 ^ 32 -> 0 <= c' < 2 ^ 32 -> foldl crc_step c l = foldl crc_step c' l -> c = c'.
Proof.
  revert c c'. induction l as [|b l IH]; intros c c' Hc Hc' H; [done|]. cbn in H.
  apply IH in H; [|by apply crc_step_range..]. by apply crc_state_inj in H.
Qed.

Lemma crc32_range data : 0 <= crc32_compute data < 2 ^ 32.
Proof. apply u32_range. Qed.

(** A change of one byte changes the checksum. *)
Lemma crc32_one_byte l b b' r : crc32_compute (l ++ b :: r) = crc32_compute (l ++ b' :: r) -> b = b'.
Proof.
  unfold crc32_compute. intros H.
  assert (H0 : 0 <= 0xFFFFFFFF < 2 ^ 32) by lia.
  rewrite !u32_small in H by (apply lxor_range; [lia|by apply crc_run_range|lia]).
  apply lxor_cancel_r in H. rewrite !foldl_app in H. cbn [foldl] in H.
  pose proof (crc_run_range l _ H0) as Hl.
  apply crc_run_inj in H; [|by apply crc_step_range..]. by apply crc_byte_inj in H.
Qed.
