(* ===== verification/Rdb.v ===== *)
(** * Snapshots (src/src/persistence/rdb.cpp)

    The image writer ([rdb_serialize]) over the byte buffer, the reader
    ([rdb_load_buffer]) over a cursor, and the choice between the primary file
    and its backup.  zlib is a parameter: [compress2] and [uncompress] on whole
    strings.  Files are their contents; writing, renaming and forking are not
    modelled.  The reader's keyspace identifies entries by their key, so a
    second entry under a present key, which the code links beside the first, is
    an outcome of its own ([RDup]). *)
From S2P Require Import Prelude Buffer StdString Deque Hashtable HashMap Heap Score ZSet HashSet State World Double Crc32.

(** ** Writing *)

(** [(uint64_t)] of a monotonic deadline on the wall clock; a deadline that
    has passed becomes now. *)
Definition mono_expiry_to_wall (v : Env) (mono_expire : Z) : Z :=
  let remaining := i64 (u64 (mono_expire - now v)) in
  u64 (wall v + (if remaining <? 0 then 0 else remaining)).

(** [memcpy(buf->data_begin + idx, data, len)] *)
Definition patch (buf : Buffer) (idx : nat) (data : bytes) : Buffer :=
  mkBuffer (write_at (data_begin buf + idx) data (Buffer.mem buf)) (data_begin buf) (data_end buf).

(** [RDBWriteCtx] *)
Record RDBWriteCtx := mkCtx { cbuf : Buffer; ccount : Z }.

Definition append_str (buf : Buffer) (s : bytes) : Buffer := buf_append_str buf s (u32 (Z.of_nat (length s))).

(** The hashtable of a sorted set holds names; the node is found from the name. *)
Definition cb_zset_member (z : ZSet) (ctx : RDBWriteCtx) (n : bytes) : RDBWriteCtx :=
  let s := match node_at n (root z) [] ≫= elem_of_pos with Some x => score_of x | None => S754_nan end in
  mkCtx (append_str (buf_append (cbuf ctx) (le_bytes 8 (double_bits s))) n) (u32 (ccount ctx + 1)).

Definition cb_hash_member (ctx : RDBWriteCtx) (hn : HashNode) : RDBWriteCtx :=
  mkCtx (append_str (append_str (cbuf ctx) (s_data (field hn))) (s_data (value hn))) (u32 (ccount ctx + 1)).

Definition cb_set_member (ctx : RDBWriteCtx) (sn : sstr) : RDBWriteCtx :=
  mkCtx (append_str (cbuf ctx) (s_data sn)) (u32 (ccount ctx + 1)).

(** A count placeholder, the members, and the count patched over it. *)
Definition counted (buf : Buffer) (members : RDBWriteCtx -> RDBWriteCtx) : Buffer :=
  let idx := buf_size buf in
  let ctx := members (mkCtx (buf_append buf (replicate 4 c_zero)) 0) in
  patch (cbuf ctx) idx (le_bytes 4 (ccount ctx)).

(** The flag byte and the deadline. *)
Definition write_ttl (v : Env) (s : Keyspace) (e : Entry) (buf : Buffer) : Buffer :=
  if entry_has_ttl e then
    buf_append_u64 (buf_append buf [chr 1]) (mono_expiry_to_wall v (val (heap s !!! Z.to_nat (heap_idx e))))
  else buf_append buf [chr 0].

Definition type_tag (t : EType) : Z :=
  match t with T_STR => 0 | T_ZSET => 1 | T_DLIST => 2 | T_HASH => 3 | T_SET => 4 end.

Definition write_value (buf : Buffer) (v : EntryValue) : Buffer :=
  match v with
  | VStr x => append_str buf (s_data x)
  | VZSet z => counted buf (fun ctx => foldl (cb_zset_member z) ctx (hm_foreach (hmap z)))
  | VList d =>
      foldl (fun b i => match deque_get d i with Some x => append_str b (s_data x) | None => b end)
        (buf_append buf (le_bytes 4 (u32 (Z.of_nat (count d))))) (seq 0 (count d))
  | VHash h => counted buf (fun ctx => foldl cb_hash_member ctx (hm_foreach h))
  | VSet h => counted buf (fun ctx => foldl cb_set_member ctx (hm_foreach h))
  end.

Definition cb_rdb_write (v : Env) (s : Keyspace) (ctx : RDBWriteCtx) (k : bytes) : RDBWriteCtx :=
  match ents s !! k with
  | None => ctx
  | Some e =>
      let b := buf_append (cbuf ctx) [chr (type_tag (type e))] in
      let b := append_str (write_ttl v s e b) (s_data (ekey e)) in
      mkCtx (write_value b (eval e)) (u32 (ccount ctx + 1))
  end.

Definition k_compress_threshold : nat := 1024.
Definition magic : bytes := bs "MYRED".

(** The payload of the image: every entry, then the end marker. *)
Definition rdb_payload (v : Env) (s : Keyspace) : RDBWriteCtx :=
  let ctx := foldl (cb_rdb_write v s) (mkCtx (buf_create 4096) 0) (hm_foreach (db s)) in
  mkCtx (buf_append (cbuf ctx) [chr 255]) (ccount ctx).

Section Compress.
Context (compress2 : bytes -> option bytes).

Definition rdb_serialize (v : Env) (s : Keyspace) (buf : Buffer) : Buffer :=
  let buf := buf_append buf magic in
  let buf := buf_append buf (le_bytes 4 3) in
  let flags_index := buf_size buf in
  let buf := buf_append buf [chr 1] in
  let count_index := buf_size buf in
  let buf := buf_append buf (le_bytes 4 0) in
  let ctx := rdb_payload v s in
  let payload := Buffer.content (cbuf ctx) in
  let buf := patch buf count_index (le_bytes 4 (ccount ctx)) in
  let raw := buf_append (patch buf flags_index [chr 0]) payload in
  let buf :=
    if (k_compress_threshold <=? length payload)%nat then
      match compress2 payload with
      | Some z =>
          if (length z <? length payload)%nat then
            let buf := patch buf flags_index [chr 1] in
            let buf := buf_append buf (le_bytes 4 (u32 (Z.of_nat (length payload)))) in
            buf_append buf z
          else raw
      | None => raw
      end
    else raw in
  buf_append buf (le_bytes 4 (crc32_compute (Buffer.content buf))).

Definition rdb_build_image (v : Env) (s : Keyspace) (out : Buffer) : Buffer := rdb_serialize v s out.
End Compress.

(** ** Reading *)

Inductive Res (A : Type) := ROk (a : A) | RFail | RDup.
Arguments ROk {A} a.
Arguments RFail {A}.
Arguments RDup {A}.

(** The bytes from [c->pos] to [c->end], and the keyspace being filled. *)
Record Reader := mkReader { cur : bytes; lks : Keyspace }.

Definition L (A : Type) : Type := Reader -> Res A * Reader.

#[global] Instance L_ret : MRet L := fun A x r => (ROk x, r).
#[global] Instance L_bind : MBind L := fun A B f m r =>
  match m r with
  | (ROk x, r') => f x r'
  | (RFail, r') => (RFail, r')
  | (RDup, r') => (RDup, r')
  end.

Definition fail {A} : L A := fun r => (RFail, r).

(** A call whose result the code ignores. *)
Definition ignoring {A} (m : L A) : L (option A) := fun r =>
  match m r with
  | (ROk x, r') => (ROk (Some x), r')
  | (RFail, r') => (ROk None, r')
  | (RDup, r') => (RDup, r')
  end.

Definition cursor_read (len : nat) : L bytes := fun r =>
  if (length (cur r) <? len)%nat then (RFail, r)
  else (ROk (take len (cur r)), mkReader (drop len (cur r)) (lks r)).

Definition cursor_read_u8 : L Z := b ← cursor_read 1; mret (le_val b).
Definition cursor_read_u32 : L Z := b ← cursor_read 4; mret (le_val b).
Definition cursor_read_u64 : L Z := b ← cursor_read 8; mret (le_val b).

(** The bound is tested before the length is converted. *)
Definition cursor_take (len : Z) : L bytes := fun r =>
  if Z.of_nat (length (cur r)) <? len then (RFail, r) else cursor_read (Z.to_nat len) r.

Definition cursor_read_str : L bytes := len ← cursor_read_u32; cursor_take len.

Definition cursor_read_double : L score := b ← cursor_read 8; mret (bits_double (le_val b)).

(** [for (i = 0; i < n; ++i)] around an accumulator. *)
Fixpoint load_n {X} (n : nat) (body : X -> L X) (x : X) : L X :=
  match n with
  | O => mret x
  | S n' => x ← body x; load_n n' body x
  end.

(** [if (n > (size_t)(c->end - c->pos) / size) return false;] *)
Definition guard_count (n size : Z) : L () := fun r =>
  if Z.of_nat (length (cur r)) / size <? n then (RFail, r) else (ROk (), r).

(** The new entry joins the dictionary, gets its deadline and is charged. *)
Definition rdb_link (v : Env) (key : bytes) (t : EType) (value : EntryValue) (has_ttl expire_at : Z) : L () := fun r =>
  let s := lks r in
  if bool_decide (is_Some (ents s !! key)) then (RDup, r)
  else
    let s := db_link key (with_eval value (with_ekey (s_assign s_empty key) (entry_new t))) s in
    let s := if has_ttl =? 0 then s else entry_set_ttl (now v) key (i64 (u64 (expire_at - wall v))) s in
    (ROk (), mkReader (cur r) (mem_reaccount key s)).

(** The flag and the deadline; the deadline is 0 without the flag. *)
Definition read_ttl : L (Z * Z) :=
  has_ttl ← cursor_read_u8;
  expire_at ← (if has_ttl =? 0 then mret 0 else cursor_read_u64 : L Z);
  mret (has_ttl, expire_at).

Definition dead (v : Env) (t : Z * Z) : bool := negb (t.1 =? 0) && (t.2 <=? wall v).

Definition rdb_load_string_entry (v : Env) : L () :=
  t ← read_ttl;
  if dead v t then cursor_read_str ;; cursor_read_str ;; mret ()
  else
    key ← cursor_read_str;
    x ← cursor_read_str;
    rdb_link v key T_STR (VStr (s_assign s_empty x)) t.1 t.2.

Definition zset_body (z : ZSet) : L ZSet :=
  s ← cursor_read_double; n ← cursor_read_str; mret (zset_insert z n s).2.

Definition rdb_load_zset_entry (v : Env) : L () :=
  t ← read_ttl;
  if dead v t then
    cursor_read_str ;; n ← cursor_read_u32; guard_count n 12 ;;
    load_n (Z.to_nat n) (fun _ => cursor_read 8 ;; cursor_read_str ;; mret ()) ()
  else
    key ← cursor_read_str;
    n ← cursor_read_u32;
    guard_count n 12 ;;
    z ← load_n (Z.to_nat n) zset_body ZSet_empty;
    rdb_link v key T_ZSET (VZSet z) t.1 t.2.

Definition deque_body (d : Deque) : L Deque := x ← cursor_read_str; mret (deque_push_back d x).

Definition rdb_load_deque_entry (v : Env) : L () :=
  t ← read_ttl;
  if dead v t then
    cursor_read_str ;; n ← cursor_read_u32;
    load_n (Z.to_nat n) (fun _ => cursor_read_str ;; mret ()) ()
  else
    key ← cursor_read_str;
    n ← cursor_read_u32;
    guard_count n 4 ;;
    d ← load_n (Z.to_nat n) deque_body deque_init;
    rdb_link v key T_DLIST (VList d) t.1 t.2.

Definition hash_body (h : HMap HashNode) : L (HMap HashNode) :=
  f ← cursor_read_str; x ← cursor_read_str; mret (hash_set h f (s_copy x)).2.

(** An expired hash is skipped with the results of the reads ignored; a failed
    count leaves [n] at 0. *)
Definition rdb_load_hash_entry (v : Env) : L () :=
  t ← read_ttl;
  if dead v t then
    ignoring cursor_read_str ;; n ← ignoring cursor_read_u32;
    load_n (Z.to_nat (default 0 n)) (fun _ => ignoring cursor_read_str ;; ignoring cursor_read_str ;; mret ()) ()
  else
    key ← cursor_read_str;
    n ← cursor_read_u32;
    guard_count n 8 ;;
    h ← load_n (Z.to_nat n) hash_body HMap_empty;
    rdb_link v key T_HASH (VHash h) t.1 t.2.

Definition set_body (h : HMap sstr) : L (HMap sstr) :=
  m ← cursor_read_str; mret (set_add h (s_assign s_empty m)).2.

Definition rdb_load_set_entry (v : Env) : L () :=
  t ← read_ttl;
  if dead v t then
    ignoring cursor_read_str ;; n ← ignoring cursor_read_u32;
    load_n (Z.to_nat (default 0 n)) (fun _ => ignoring cursor_read_str ;; mret ()) ()
  else
    key ← cursor_read_str;
    n ← cursor_read_u32;
    guard_count n 4 ;;
    h ← load_n (Z.to_nat n) set_body HMap_empty;
    rdb_link v key T_SET (VSet h) t.1 t.2.

Definition rdb_load_entry (v : Env) : L () :=
  t ← cursor_read_u8;
  if t =? 0 then rdb_load_string_entry v
  else if t =? 1 then rdb_load_zset_entry v
  else if t =? 2 then rdb_load_deque_entry v
  else if t =? 3 then rdb_load_hash_entry v
  else if t =? 4 then rdb_load_set_entry v
  else fail.

Definition rdb_parse_entries (v : Env) (payload : bytes) (n_entries : Z) (s : Keyspace) : Res () * Keyspace :=
  if Z.of_nat (length payload) <? n_entries then (RFail, s)
  else
    let '(r, st) :=
      (load_n (Z.to_nat n_entries) (fun _ => rdb_load_entry v) () ;;
       eof ← cursor_read_u8;
       if eof =? 255 then mret () else fail) (mkReader payload s) in
    (r, lks st).

Section Uncompress.
Context (uncompress : bytes -> nat -> option bytes).

(** [rdb_decompress]: bytes [uncompress] did not write are modelled as zero. *)
Definition rdb_decompress (src : bytes) (expected_len : nat) : option bytes :=
  dest ← uncompress src expected_len;
  Some (dest ++ replicate (expected_len - length dest) c_zero).

(** The header tests: the image is taken apart only after they pass. *)
Definition rdb_header_ok (data : bytes) : bool :=
  (19 <=? length data)%nat &&
  bool_decide (slice 0 5 data = magic) &&
  (le_val (slice 5 4 data) =? 3) &&
  (le_val (drop (length data - 4) data) =? crc32_compute (take (length data - 4) data)).

Definition rdb_load_buffer (v : Env) (data : bytes) (s : Keyspace) : Res () * Keyspace :=
  if negb (rdb_header_ok data) then (RFail, s)
  else
    let flags := le_val (slice 9 1 data) in
    let n_entries := le_val (slice 10 4 data) in
    let payload := slice 14 (length data - 4 - 14) data in
    if negb (Z.land flags 1 =? 0) then
      if (length payload <? 4)%nat then (RFail, s)
      else
        let usize := le_val (take 4 payload) in
        if (Z.of_nat (length payload) - 4) * 1032 + 4096 <? usize then (RFail, s)
        else
          match rdb_decompress (drop 4 payload) (Z.to_nat usize) with
          | None => (RFail, s)
          | Some dec => rdb_parse_entries v dec n_entries s
          end
    else rdb_parse_entries v payload n_entries s.

(** [rdb_load_file] repeats the header tests on the file; [None] is no file. *)
Definition rdb_load_file (v : Env) (file : option bytes) (s : Keyspace) : Res () * Keyspace :=
  match file with
  | None => (ROk (), s)
  | Some data => if negb (rdb_header_ok data) then (RFail, s) else rdb_load_buffer v data s
  end.

(** The primary file, then the backup; whatever happens the server starts. *)
Definition rdb_load (v : Env) (primary backup : option bytes) (s : Keyspace) : Res () * Keyspace :=
  let try_backup s :=
    match backup with
    | None => (ROk (), s)
    | Some _ =>
        match rdb_load_file v backup s with
        | (RDup, s) => (RDup, s)
        | (_, s) => (ROk (), s)
        end
    end in
  match primary with
  | None => try_backup s
  | Some _ =>
      match rdb_load_file v primary s with
      | (ROk _, s) => (ROk (), s)
      | (RFail, s) => try_backup s
      | (RDup, s) => (RDup, s)
      end
  end.
End Uncompress.
