(* ===== verification/RdbSpec.v ===== *)
(** * Snapshots are faithful

    The image as one byte string, the proof that the writer produces it, that
    the reader inverts it, and that a corrupted image is refused. *)
From S2P Require Import Prelude Buffer Resp Avl StdString Deque Hashtable HashMap Heap Score ZSet HashSet State World Double Crc32 Lists Keys Rdb.

(** ** The encoding *)

Definition enc_str (s : bytes) : bytes := le_bytes 4 (Z.of_nat (length s)) ++ s.

Definition enc_ttl (v : Env) (t : option Z) : bytes :=
  match t with Some t => chr 1 :: le_bytes 8 (mono_expiry_to_wall v t) | None => [chr 0] end.

Definition enc_counted (items : list bytes) : bytes := le_bytes 4 (Z.of_nat (length items)) ++ concat items.

Definition enc_member (p : score * bytes) : bytes := le_bytes 8 (double_bits p.1) ++ enc_str p.2.
Definition enc_field (p : bytes * bytes) : bytes := enc_str p.1 ++ enc_str p.2.

(** The members of a value in the order of its table. *)
Definition zset_pairs (z : ZSet) : list (score * bytes) :=
  (fun n => (match node_at n (root z) [] ≫= elem_of_pos with Some x => score_of x | None => S754_nan end, n))
    <$> hm_foreach (hmap z).
Definition hash_pairs (h : HMap HashNode) : list (bytes * bytes) :=
  (fun hn => (s_data (field hn), s_data (value hn))) <$> hm_foreach h.

Definition enc_value (v : EntryValue) : bytes :=
  match v with
  | VStr x => enc_str (s_data x)
  | VZSet z => enc_counted (enc_member <$> zset_pairs z)
  | VList d => enc_counted (enc_str <$> content d)
  | VHash h => enc_counted (enc_field <$> hash_pairs h)
  | VSet h => enc_counted (enc_str <$> set_list h)
  end.

Definition enc_entry (v : Env) (s : Keyspace) (k : bytes) : bytes :=
  match ents s !! k with
  | None => []
  | Some e => chr (type_tag (type e)) :: enc_ttl v (ttls s !! k) ++ enc_str k ++ enc_value (eval e)
  end.

Definition enc_payload (v : Env) (s : Keyspace) : bytes :=
  concat (enc_entry v s <$> hm_foreach (db s)) ++ [chr 255].

(** ** What fits the format: lengths and counts are 32-bit *)

Definition short (s : bytes) : Prop := Z.of_nat (length s) < 2 ^ 32.

Definition afits (a : AVal) : Prop :=
  match a with
  | AStr b => short b
  | AZSet m => Z.of_nat (base.size m) < 2 ^ 32 /\ map_Forall (fun n s => short n /\ is_double s) m
  | AList l => Z.of_nat (length l) < 2 ^ 32 /\ Forall short l
  | AHash m => Z.of_nat (base.size m) < 2 ^ 32 /\ map_Forall (fun f x => short f /\ short x) m
  | ASet m => Z.of_nat (base.size m) < 2 ^ 32 /\ set_Forall short m
  end.

#[global] Instance short_dec s : Decision (short s).
Proof. unfold short. apply _. Defined.
#[global] Instance afits_dec a : Decision (afits a).
Proof. destruct a; cbn [afits]; unfold is_double; apply _. Defined.

Definition ks_fits (s : Keyspace) : Prop :=
  map_Forall (fun k a => short k /\ afits a) (vals s) /\ Z.of_nat (base.size (vals s)) < 2 ^ 32.

(** ** The writer *)

Lemma appends_str s : short s -> appends (fun b => append_str b s) (enc_str s).
Proof.
  intros Hs. unfold append_str, buf_append_str, short in *. rewrite u32_small by lia.
  rewrite Nat2Z.id, firstn_all.
  apply (appends_comp (fun b => buf_append b _) (fun b => buf_append b s)); apply appends_buf.
Qed.

Lemma patch_spec b idx d :
  wf b -> (idx + length d <= buf_size b)%nat ->
  wf (patch b idx d) /\ Buffer.content (patch b idx d) = write_at idx d (Buffer.content b).
Proof.
  intros [H1 H2] Hi. unfold buf_size in Hi. split.
  - split; cbn; [done|]. rewrite length_write_at by lia. done.
  - apply list_eq. intros i. unfold Buffer.content, patch, buf_size. cbn [Buffer.mem data_begin data_end].
    rewrite (write_at_lookup idx) by (rewrite length_slice; lia).
    destruct (decide (i < data_end b - data_begin b)%nat) as [Hlt|Hge].
    + rewrite slice_lookup, write_at_lookup by lia.
      repeat case_decide; try lia; [f_equal; lia|by rewrite slice_lookup].
    + rewrite (lookup_ge_None_2 (slice _ _ (write_at _ _ _))) by (rewrite length_slice; [lia|rewrite length_write_at; lia]).
      rewrite decide_False by lia. symmetry. apply lookup_ge_None_2. rewrite length_slice; lia.
Qed.

(** A callback appends the encoding of its item and counts it. *)
Definition ctx_step {X} (cb : RDBWriteCtx -> X -> RDBWriteCtx) (enc : X -> bytes) (x : X) : Prop :=
  forall ctx, wf (cbuf ctx) -> wf (cbuf (cb ctx x)) /\
    Buffer.content (cbuf (cb ctx x)) = Buffer.content (cbuf ctx) ++ enc x /\ ccount (cb ctx x) = u32 (ccount ctx + 1).

Lemma ctx_fold {X} (cb : RDBWriteCtx -> X -> RDBWriteCtx) (enc : X -> bytes) (xs : list X) :
  Forall (ctx_step cb enc) xs -> forall ctx, wf (cbuf ctx) ->
  0 <= ccount ctx -> ccount ctx + Z.of_nat (length xs) < 2 ^ 32 ->
  let ctx' := foldl cb ctx xs in
  wf (cbuf ctx') /\ Buffer.content (cbuf ctx') = Buffer.content (cbuf ctx) ++ concat (enc <$> xs) /\
  ccount ctx' = ccount ctx + Z.of_nat (length xs).
Proof.
  induction 1 as [|x xs Hx _ IH]; intros ctx Hwf Hc Hn; cbn zeta; cbn [foldl fmap list_fmap concat length] in *.
  { rewrite app_nil_r. split_and!; [done|done|lia]. }
  destruct (Hx ctx Hwf) as (H1 & H2 & H3). rewrite u32_small in H3 by lia.
  destruct (IH _ H1) as (I1 & I2 & I3); [lia..|]. split_and!; [done| |lia].
  rewrite I2, H2, <- app_assoc. done.
Qed.

Lemma write_at_mid (a b c d : bytes) : length b = length d -> write_at (length a) d (a ++ b ++ c) = a ++ d ++ c.
Proof.
  intros H. unfold write_at. rewrite take_app_length, <- H. f_equal. f_equal.
  rewrite <- length_app, app_assoc. apply drop_app_length.
Qed.

Lemma appends_counted {X} (cb : RDBWriteCtx -> X -> RDBWriteCtx) (enc : X -> bytes) (xs : list X) :
  Forall (ctx_step cb enc) xs -> Z.of_nat (length xs) < 2 ^ 32 ->
  appends (fun b => counted b (fun ctx => foldl cb ctx xs)) (enc_counted (enc <$> xs)).
Proof.
  intros Hxs Hn b Hwf. unfold counted. destruct (buf_append_spec b (replicate 4 c_zero) Hwf) as [W1 C1].
  destruct (ctx_fold cb enc xs Hxs (mkCtx (buf_append b (replicate 4 c_zero)) 0) W1) as (F1 & F2 & F3);
    [cbn; lia..|]. cbn [cbuf ccount] in *. rewrite C1 in F2. set (ctx := foldl _ _ _) in *.
  rewrite <- (length_content b Hwf).
  destruct (patch_spec (cbuf ctx) (length (Buffer.content b)) (le_bytes 4 (ccount ctx)) F1) as [P1 P2].
  { rewrite <- (length_content _ F1), F2, !length_app, le_bytes_length, length_replicate. lia. }
  split; [done|]. rewrite P2, F2, <- app_assoc, write_at_mid by done.
  unfold enc_counted. rewrite length_fmap, F3. by rewrite Z.add_0_l.
Qed.

(** ** The members of a value, as listed *)

Lemma hash_pairs_spec h :
  hash_ok h -> NoDup (hash_pairs h).*1 /\ length (hash_pairs h) = base.size (hash_map h) /\
  forall f x, (f, x) ∈ hash_pairs h <-> hash_map h !! f = Some x.
Proof.
  intros [Hk _]. destruct (keyed_listing field_key h Hk) as (H1 & H2 & H3). unfold hash_pairs, hash_map. split_and!.
  - by rewrite <- list_fmap_compose.
  - by rewrite length_fmap, map_size_fmap.
  - intros f x. rewrite lookup_fmap_Some, list_elem_of_fmap. split.
    + intros (hn & [= -> ->] & Hn). exists hn. split; [done|]. by apply H3.
    + intros (hn & <- & Hn). exists hn. assert (field_key hn = f) as Hf.
      { apply (to_map_Some field_key h f hn Hk) in Hn as (n & _ & _ & Hn). done. }
      unfold field_key in Hf. rewrite Hf. split; [done|]. apply H3. unfold field_key. by rewrite Hf.
Qed.

(** The node of a member, reached from its name. *)
Lemma node_at_member z n :
  zset_ok z -> n ∈ name <$> members z ->
  exists x, node_at n (root z) [] ≫= elem_of_pos = Some x /\ scores z !! n = Some (score_of x).
Proof.
  intros Hz Hn. pose proof (node_at_spec n (root z) []) as Hna. destruct (node_at n (root z) []) as [[q p]|]; [|done].
  destruct Hna as (Hp & l & x & r & h & c & -> & Hx). exists x. split; [done|].
  apply scores_Some; [apply Hz|]. unfold members. cbn in Hp. rewrite <- Hp. rewrite inorder_plug. cbn [inorder].
  rewrite <- Hx. destruct x. set_solver.
Qed.

Lemma zset_pairs_spec z :
  zset_ok z -> NoDup (zset_pairs z).*2 /\ length (zset_pairs z) = base.size (scores z) /\
  forall s n, (s, n) ∈ zset_pairs z <-> scores z !! n = Some s.
Proof.
  intros Hz. pose proof (zok_keyed z Hz) as Hk. destruct (keyed_listing id (hmap z) Hk) as (H1 & H2 & H3).
  assert (Hin : forall n, n ∈ hm_foreach (hmap z) <-> n ∈ name <$> members z).
  { intros n. rewrite H3. unfold id. rewrite (zok_index z Hz). by case_decide. }
  assert (Hsc : forall s n, (s, n) ∈ zset_pairs z <-> scores z !! n = Some s).
  { intros s n. unfold zset_pairs. rewrite list_elem_of_fmap. split.
    - intros (m & [= -> ->] & Hm). apply Hin in Hm. destruct (node_at_member z m Hz Hm) as (x & -> & ->). done.
    - intros Hs. assert (Hm : n ∈ name <$> members z) by (apply scores_member; by eexists). exists n.
      destruct (node_at_member z n Hz Hm) as (x & -> & Hx). rewrite Hs in Hx. injection Hx as ->.
      split; [done|]. by apply Hin. }
  unfold zset_pairs at 1 2. split_and!; [|rewrite length_fmap|done].
  - rewrite <- list_fmap_compose. cbn. rewrite list_fmap_id in H1. by rewrite list_fmap_id.
  - rewrite H2. rewrite <- !size_dom. f_equal. apply set_eq. intros n. rewrite !elem_of_dom.
    rewrite (zok_index z Hz), scores_member. case_decide; naive_solver.
Qed.

(** ** The writer produces the encoding *)

Lemma ctx_step_appends {X} (cb : RDBWriteCtx -> X -> RDBWriteCtx) (enc : X -> bytes) (f : Buffer -> Buffer) x :
  (forall ctx, cb ctx x = mkCtx (f (cbuf ctx)) (u32 (ccount ctx + 1))) -> appends f (enc x) -> ctx_step cb enc x.
Proof. intros Hcb Hf ctx Hwf. rewrite Hcb. cbn. by destruct (Hf _ Hwf). Qed.

Lemma appends_fold {X} (f : Buffer -> X -> Buffer) (enc : X -> bytes) xs :
  Forall (fun x => appends (fun b => f b x) (enc x)) xs -> appends (fun b => foldl f b xs) (concat (enc <$> xs)).
Proof.
  induction 1 as [|x xs Hx _ IH]; cbn; [intros b Hb; by rewrite app_nil_r|].
  by apply (appends_comp (fun b => f b x) (fun b => foldl f b xs)).
Qed.

Lemma appends_list d :
  Z.of_nat (count d) < 2 ^ 32 -> Forall short (content d) ->
  appends (fun b => write_value b (VList d)) (enc_value (VList d)).
Proof.
  intros Hn Hs. cbn [write_value enc_value]. unfold enc_counted. rewrite length_fmap, length_elems, u32_small by lia.
  apply (appends_comp (fun b => buf_append b _)
    (fun b => foldl (fun b i => match deque_get d i with Some x => append_str b (s_data x) | None => b end) b (seq 0 (count d))));
    [apply appends_buf|].
  pose proof (appends_fold (fun b i => match deque_get d i with Some x => append_str b (s_data x) | None => b end)
    (fun i => default [] (enc_str <$> content d !! i)) (seq 0 (count d))) as Hf.
  replace (enc_str <$> content d) with ((fun i => default [] (enc_str <$> content d !! i)) <$> seq 0 (count d)).
  - apply Hf. apply Forall_forall. intros i Hi. rewrite <- deque_get_content.
    assert (Hlt : (i < count d)%nat) by (apply elem_of_seq in Hi; lia).
    destruct (deque_get d i) as [x|] eqn:E; cbn; [|intros b Hb; by rewrite app_nil_r].
    apply appends_str. pose proof (deque_get_content d i) as Hg. rewrite E in Hg. cbn in Hg.
    rewrite Forall_lookup in Hs. by apply (Hs i).
  - apply list_eq. intros i. rewrite !list_lookup_fmap. destruct (decide (i < count d)%nat) as [Hlt|Hge].
    + rewrite lookup_seq_lt by done. cbn. destruct (content d !! i) eqn:E; [done|].
      apply lookup_ge_None in E. rewrite length_elems in E. lia.
    + rewrite lookup_seq_ge by lia. rewrite (lookup_ge_None_2 (content d)) by (rewrite length_elems; lia). done.
Qed.

Lemma appends_value v : value_ok v -> afits (aval v) -> appends (fun b => write_value b v) (enc_value v).
Proof.
  destruct v as [x|z|d|h|h]; cbn [value_ok aval afits]; intros Hok Hf.
  - by apply appends_str.
  - destruct Hf as [Hn Hf]. destruct (zset_pairs_spec z Hok) as (_ & Hl & Hp). cbn [write_value enc_value].
    pose proof Hl as Hl'. unfold zset_pairs in Hl' |- *. rewrite length_fmap in Hl'. rewrite <- list_fmap_compose.
    apply appends_counted; [|by rewrite Hl']. apply Forall_forall. intros n Hin.
    apply (ctx_step_appends _ _ (fun b => cbuf (cb_zset_member z (mkCtx b 0) n))); [done|].
    unfold compose, enc_member. cbn [cbuf cb_zset_member fst snd].
    apply (appends_comp (fun b => buf_append b _) (fun b => append_str b n)); [apply appends_buf|]. apply appends_str.
    eapply (Hf n). apply Hp. unfold zset_pairs. apply list_elem_of_fmap. eexists. done.
  - apply appends_list; [|apply Hf]. rewrite <- length_elems. apply Hf.
  - destruct Hf as [Hn Hf]. destruct (hash_pairs_spec h Hok) as (_ & Hl & Hp). cbn [write_value enc_value].
    pose proof Hl as Hl'. unfold hash_pairs in Hl' |- *. rewrite length_fmap in Hl'. rewrite <- list_fmap_compose.
    apply appends_counted; [|by rewrite Hl']. apply Forall_forall. intros hn Hin.
    apply (ctx_step_appends _ _ (fun b => cbuf (cb_hash_member (mkCtx b 0) hn))); [done|].
    unfold compose, enc_field. cbn [cbuf cb_hash_member fst snd].
    destruct (Hf (s_data (field hn)) (s_data (value hn))) as [S1 S2].
    { apply Hp. unfold hash_pairs. apply list_elem_of_fmap. by exists hn. }
    apply (appends_comp (fun b => append_str b _) (fun b => append_str b _)); by apply appends_str.
  - destruct Hf as [Hn Hf]. destruct (set_list_spec h Hok) as (_ & Hl & Hp). cbn [write_value enc_value].
    pose proof Hl as Hl'. unfold set_list in Hl' |- *. rewrite length_fmap in Hl'. rewrite <- list_fmap_compose.
    apply appends_counted; [|by rewrite Hl']. apply Forall_forall. intros sn Hin.
    apply (ctx_step_appends _ _ (fun b => cbuf (cb_set_member (mkCtx b 0) sn))); [done|]. apply appends_str.
    apply Hf. apply Hp. unfold set_list. apply list_elem_of_fmap. by exists sn.
Qed.

Lemma write_ttl_spec v s k e :
  ks_ok s -> ents s !! k = Some e -> appends (write_ttl v s e) (enc_ttl v (ttls s !! k)).
Proof.
  intros Hs He. pose proof (timer_of s k e (ks_timed s Hs) He) as Ht. unfold write_ttl.
  destruct (entry_has_ttl e).
  - destruct Ht as (x & Hx & _ & -> & _). rewrite (list_lookup_total_correct _ _ _ Hx). cbn [enc_ttl].
    change (chr 1 :: ?l) with ([chr 1] ++ l).
    apply (appends_comp (fun b => buf_append b _) (fun b => buf_append_u64 b _)); apply appends_buf.
  - destruct Ht as (_ & -> & _). apply appends_buf.
Qed.

Lemma entry_step v s k :
  ks_ok s -> ks_fits s -> k ∈ dom (ents s) -> ctx_step (cb_rdb_write v s) (enc_entry v s) k.
Proof.
  intros Hs [Hf _] [e He]%elem_of_dom. pose proof (ks_key s Hs k e He) as Hk.
  destruct (Hf k (aval (eval e))) as [Sk Sv]; [unfold vals; by rewrite lookup_fmap, He|].
  apply (ctx_step_appends _ _ (fun b => write_value (append_str (write_ttl v s e
    (buf_append b [chr (type_tag (type e))])) (s_data (ekey e))) (eval e))).
  { intros ctx. unfold cb_rdb_write. by rewrite He. }
  unfold enc_entry. rewrite He. change (chr ?t :: ?l) with ([chr t] ++ l). rewrite !app_assoc.
  apply (appends_comp (fun b => append_str (write_ttl v s e (buf_append b _)) _) (fun b => write_value b _));
    [|apply appends_value; [by apply (ks_val s Hs k)|done]].
  apply (appends_comp (fun b => write_ttl v s e (buf_append b _)) (fun b => append_str b _));
    [|rewrite Hk; by apply appends_str].
  apply (appends_comp (fun b => buf_append b _) (write_ttl v s e)); [apply appends_buf|by apply write_ttl_spec].
Qed.

Lemma db_listing s :
  ks_ok s -> NoDup (hm_foreach (db s)) /\ (forall k, k ∈ hm_foreach (db s) <-> k ∈ dom (ents s)) /\
  length (hm_foreach (db s)) = base.size (vals s).
Proof.
  intros Hs. destruct (db_foreach_keys s Hs) as [H1 H2]. split_and!; [done|done|].
  unfold vals. rewrite map_size_fmap, <- size_dom, <- (size_list_to_set (C := gset bytes)) by done.
  f_equal. apply set_eq. intros k. by rewrite elem_of_list_to_set, H2.
Qed.

Lemma payload_spec v s :
  ks_ok s -> ks_fits s ->
  wf (cbuf (rdb_payload v s)) /\ Buffer.content (cbuf (rdb_payload v s)) = enc_payload v s /\
  ccount (rdb_payload v s) = Z.of_nat (base.size (vals s)).
Proof.
  intros Hs Hf. destruct (db_listing s Hs) as (_ & Hin & Hlen). destruct (buf_create_wf 4096) as [W0 C0].
  destruct (ctx_fold (cb_rdb_write v s) (enc_entry v s) (hm_foreach (db s))) with (ctx := mkCtx (buf_create 4096) 0)
    as (F1 & F2 & F3); [|done|done|cbn; rewrite Hlen; apply Hf|].
  { apply Forall_forall. intros k Hk. apply entry_step; [done|done|]. by apply Hin. }
  cbn [cbuf ccount] in *. unfold rdb_payload. cbn [cbuf ccount]. destruct (buf_append_spec _ [chr 255] F1) as [W1 C1].
  split_and!; [done| |by rewrite F3, Hlen]. rewrite C1, F2, C0. done.
Qed.
