(* ===== verification/RdbRound.v ===== *)
(** * Reading a snapshot back

    The reader inverts the encoding of RdbSpec.v: every value is rebuilt with
    the same meaning, deadlines keep their distance on the wall clock, and an
    image with a damaged byte is refused before the keyspace is touched. *)
From S2P Require Import Prelude Buffer Resp Avl StdString Deque Hashtable HashMap Heap Score ZSet HashSet State World Double Crc32 Lists Keys Rdb RdbSpec.

(** ** The cursor *)

Lemma cursor_read_app a rest s : cursor_read (length a) (mkReader (a ++ rest) s) = (ROk a, mkReader rest s).
Proof.
  unfold cursor_read. cbn [cur lks]. rewrite (proj2 (Nat.ltb_ge _ _)) by (rewrite length_app; lia).
  by rewrite take_app_length, drop_app_length.
Qed.

Lemma read_u8 c rest s : cursor_read_u8 (mkReader (c :: rest) s) = (ROk (code c), mkReader rest s).
Proof.
  unfold cursor_read_u8, mbind, L_bind. change (c :: rest) with ([c] ++ rest).
  rewrite (cursor_read_app [c]). cbn. unfold mret, L_ret. do 2 f_equal. lia.
Qed.

Lemma read_u32 n rest s :
  0 <= n < 2 ^ 32 -> cursor_read_u32 (mkReader (le_bytes 4 n ++ rest) s) = (ROk n, mkReader rest s).
Proof.
  intros Hn. unfold cursor_read_u32, mbind, L_bind. rewrite (cursor_read_app (le_bytes 4 n)).
  unfold mret, L_ret. rewrite le_val_bytes, Z.mod_small by (cbn; lia). done.
Qed.

Lemma read_u64 n rest s :
  0 <= n < 2 ^ 64 -> cursor_read_u64 (mkReader (le_bytes 8 n ++ rest) s) = (ROk n, mkReader rest s).
Proof.
  intros Hn. unfold cursor_read_u64, mbind, L_bind. rewrite (cursor_read_app (le_bytes 8 n)).
  unfold mret, L_ret. rewrite le_val_bytes, Z.mod_small by (cbn; lia). done.
Qed.

Lemma read_double x rest s :
  is_double x -> cursor_read_double (mkReader (le_bytes 8 (double_bits x) ++ rest) s) = (ROk x, mkReader rest s).
Proof.
  intros Hx. unfold cursor_read_double, mbind, L_bind. rewrite (cursor_read_app (le_bytes 8 _)).
  pose proof (double_bits_range x Hx).
  unfold mret, L_ret. rewrite le_val_bytes, Z.mod_small by (cbn; lia). by rewrite double_roundtrip.
Qed.

Lemma read_str x rest s : short x -> cursor_read_str (mkReader (enc_str x ++ rest) s) = (ROk x, mkReader rest s).
Proof.
  intros Hx. unfold cursor_read_str, enc_str, mbind, L_bind, short in *. rewrite <- app_assoc, read_u32 by lia.
  unfold cursor_take. cbn [cur]. rewrite (proj2 (Z.ltb_ge _ _)) by (rewrite length_app; lia).
  rewrite Nat2Z.id. apply cursor_read_app.
Qed.

(** ** Loops *)

(** The body reads one item and folds it into the accumulator. *)
Definition reads {X Y} (body : X -> L X) (enc : Y -> bytes) (step : X -> Y -> X) (y : Y) : Prop :=
  forall x rest s, body x (mkReader (enc y ++ rest) s) = (ROk (step x y), mkReader rest s).

Lemma load_n_list {X Y} (body : X -> L X) (enc : Y -> bytes) (step : X -> Y -> X) ys :
  Forall (reads body enc step) ys -> forall x rest s,
  load_n (length ys) body x (mkReader (concat (enc <$> ys) ++ rest) s) = (ROk (foldl step x ys), mkReader rest s).
Proof.
  induction 1 as [|y ys Hy _ IH]; intros x rest s; [done|].
  cbn [length load_n fmap list_fmap concat foldl]. unfold mbind, L_bind. rewrite <- app_assoc, Hy. apply IH.
Qed.

Lemma guard_passes {Y} (enc : Y -> bytes) (ys : list Y) k rest s :
  0 < k -> Forall (fun y => k <= Z.of_nat (length (enc y))) ys ->
  guard_count (Z.of_nat (length ys)) k (mkReader (concat (enc <$> ys) ++ rest) s) =
  (ROk (), mkReader (concat (enc <$> ys) ++ rest) s).
Proof.
  intros Hk Hys. assert (Z.of_nat (length ys) * k <= Z.of_nat (length (concat (enc <$> ys)))).
  { induction Hys as [|y ys Hy _ IH]; cbn [length fmap list_fmap concat]; [lia|]. rewrite length_app. lia. }
  unfold guard_count. cbn [cur]. rewrite (proj2 (Z.ltb_ge _ _)); [done|].
  apply Z.div_le_lower_bound; [done|]. rewrite length_app. lia.
Qed.

(** A counted sequence, read by a guarded loop. *)
Lemma read_counted {X Y} (body : X -> L X) (enc : Y -> bytes) (step : X -> Y -> X) ys k x rest s :
  Z.of_nat (length ys) < 2 ^ 32 -> 0 < k -> Forall (fun y => k <= Z.of_nat (length (enc y))) ys ->
  Forall (reads body enc step) ys ->
  (n ← cursor_read_u32; guard_count n k ;; load_n (Z.to_nat n) body x)
    (mkReader (enc_counted (enc <$> ys) ++ rest) s) = (ROk (foldl step x ys), mkReader rest s).
Proof.
  intros Hn Hk Hsz Hys. unfold enc_counted, mbind, L_bind. rewrite <- app_assoc, length_fmap, read_u32 by lia.
  rewrite guard_passes by done. rewrite Nat2Z.id. by apply load_n_list.
Qed.

(** The same without a guard, as the paths that skip an expired value read. *)
Lemma skip_counted {Y} (body : L ()) (enc : Y -> bytes) ys rest s :
  Z.of_nat (length ys) < 2 ^ 32 -> Forall (reads (fun _ => body) enc (fun _ _ => ())) ys ->
  (n ← cursor_read_u32; load_n (Z.to_nat n) (fun _ => body) ())
    (mkReader (enc_counted (enc <$> ys) ++ rest) s) = (ROk (), mkReader rest s).
Proof.
  intros Hn Hys. unfold enc_counted, mbind, L_bind. rewrite <- app_assoc, length_fmap, read_u32 by lia.
  rewrite Nat2Z.id, (load_n_list (fun _ => body) enc (fun _ _ => ())) by done. by destruct (foldl _ _ _).
Qed.

Lemma ignoring_ok {A} (m : L A) r x r' : m r = (ROk x, r') -> ignoring m r = (ROk (Some x), r').
Proof. unfold ignoring. by intros ->. Qed.

(** ** Rebuilt values *)

Lemma fold_insert_map {A} (l : list (bytes * A)) (m : gmap bytes A) :
  NoDup l.*1 -> foldl (fun m p => <[p.1 := p.2]> m) m l = list_to_map l ∪ m.
Proof.
  revert m. induction l as [|[k a] l IH]; intros m; cbn [foldl fmap list_fmap fst snd list_to_map foldr].
  { intros _. cbn. by rewrite (left_id_L ∅ (∪)). }
  intros [Hk Hnd]%NoDup_cons. rewrite IH by done. apply map_eq. intros j.
  destruct (decide (j = k)) as [->|Hne].
  - rewrite lookup_union_r by (by apply not_elem_of_list_to_map_1). rewrite lookup_insert_eq.
    symmetry. apply lookup_union_Some_l. cbn. apply lookup_insert_eq.
  - rewrite !lookup_union. rewrite !lookup_insert_ne by done. done.
Qed.

Lemma list_to_map_graph {A} (l : list (bytes * A)) (m : gmap bytes A) :
  NoDup l.*1 -> (forall k a, (k, a) ∈ l <-> m !! k = Some a) -> list_to_map l = m.
Proof.
  intros Hnd Hl. apply map_eq. intros k. apply option_eq. intros a.
  rewrite <- elem_of_list_to_map by done. apply Hl.
Qed.

Lemma hash_rebuilt l h :
  hash_ok h -> let h' := foldl (fun h p => (hash_set h p.1 (s_copy p.2)).2) h l in
  hash_ok h' /\ hash_map h' = foldl (fun m p => <[p.1 := p.2]> m) (hash_map h) l.
Proof.
  revert h. induction l as [|[f x] l IH]; intros h Hok; [done|]. cbn [foldl fst snd] in *. cbn zeta.
  destruct (hash_set h f (s_copy x)) as [b h1] eqn:E. destruct (hash_set_spec _ _ _ _ _ Hok E) as (H1 & H2 & _).
  cbn [snd]. destruct (IH h1 H1) as [I1 I2]. split; [done|]. by rewrite I2, H2.
Qed.

Lemma set_rebuilt l h :
  set_ok h -> let h' := foldl (fun h m => (set_add h (s_assign s_empty m)).2) h l in
  set_ok h' /\ forall m, m ∈ set_members h' <-> m ∈ l \/ m ∈ set_members h.
Proof.
  revert h. induction l as [|x l IH]; intros h Hok; [split; [done|]; intros m; rewrite elem_of_nil; tauto|].
  cbn [foldl]. cbn zeta. destruct (set_add h (s_assign s_empty x)) as [b h1] eqn:E.
  destruct (set_add_spec _ _ _ _ Hok E) as (H1 & H2 & _). cbn [snd]. destruct (IH h1 H1) as [I1 I2].
  split; [done|]. intros m. rewrite I2, H2, elem_of_union, elem_of_singleton, elem_of_cons. cbn. tauto.
Qed.

Lemma zset_rebuilt l z :
  zset_ok z -> Forall (fun p => not_nan p.1) l -> NoDup l.*2 -> (forall n, n ∈ l.*2 -> scores z !! n = None) ->
  let z' := foldl (fun z p => (zset_insert z p.2 p.1).2) z l in
  zset_ok z' /\ scores z' = foldl (fun m p => <[p.1 := p.2]> m) (scores z) (prod_swap <$> l).
Proof.
  revert z. induction l as [|[s n] l IH]; intros z Hz Hnan Hnd Hfr; [done|].
  cbn [foldl fmap list_fmap fst snd prod_swap] in *. cbn zeta.
  apply Forall_cons in Hnan as [Hs Hnan]. apply NoDup_cons in Hnd as [Hn Hnd].
  destruct (zset_insert z n s) as [b z1] eqn:E. destruct (zset_insert_spec _ _ _ _ _ Hz Hs E) as (H1 & _ & H2).
  rewrite Hfr in H2 by (by left). cbn [snd].
  destruct (IH z1 H1 Hnan Hnd) as [I1 I2]; [|split; [done|by rewrite I2, H2]].
  intros j Hj. rewrite H2, lookup_insert_ne; [apply Hfr; by right|]. by intros ->.
Qed.

(** ** One entry *)

(** The flag and the wall-clock deadline as read back. *)
Definition wall_ttl (v : Env) (t : option Z) : Z * Z :=
  match t with Some t => (1, mono_expiry_to_wall v t) | None => (0, 0) end.

Lemma read_ttl_spec v t rest s :
  read_ttl (mkReader (enc_ttl v t ++ rest) s) = (ROk (wall_ttl v t), mkReader rest s).
Proof.
  unfold read_ttl, mbind, L_bind. destruct t as [t|]; cbn [enc_ttl app]; rewrite read_u8; cbn; [|done].
  change (chr _ :: chr _ :: ?l) with (le_bytes 8 (mono_expiry_to_wall v t) ++ rest).
  rewrite read_u64; [done|]. apply u64_range.
Qed.

(** A value as the loaders build it from its encoding. *)
Definition rebuilds (v0 : EntryValue) (v1 : EntryValue) : Prop := value_ok v1 /\ aval v1 = aval v0 /\
  match v0, v1 with
  | VStr _, VStr _ | VZSet _, VZSet _ | VList _, VList _ | VHash _, VHash _ | VSet _, VSet _ => True
  | _, _ => False
  end.

(** What a loader of the entry [k] with the value [v0] does. *)
Definition loads (m : L ()) (v v' : Env) (t : option Z) (k : bytes) (ty : EType) (v0 : EntryValue) : Prop :=
  exists v1, rebuilds v0 v1 /\ forall rest s,
    m (mkReader (enc_ttl v t ++ enc_str k ++ enc_value v0 ++ rest) s) =
    if dead v' (wall_ttl v t) then (ROk (), mkReader rest s)
    else rdb_link v' k ty v1 (wall_ttl v t).1 (wall_ttl v t).2 (mkReader rest s).

Lemma enc_str_length x : (4 <= length (enc_str x))%nat.
Proof. unfold enc_str. rewrite length_app, le_bytes_length. lia. Qed.

Section Loaders.
Context (v v' : Env) (t : option Z) (k : bytes) (Hk : short k).

(** The three steps every loader opens with, for a value that is kept. *)
Lemma loads_intro (m : L ()) ty v0 v1 (skip : L ()) (keep : bytes -> L EntryValue) :
  (forall r, m r = (p ← read_ttl;
     if dead v' p then skip else key ← cursor_read_str; x ← keep key; rdb_link v' key ty x p.1 p.2) r) ->
  rebuilds v0 v1 ->
  (forall rest s, skip (mkReader (enc_str k ++ enc_value v0 ++ rest) s) = (ROk (), mkReader rest s)) ->
  (forall rest s, keep k (mkReader (enc_value v0 ++ rest) s) = (ROk v1, mkReader rest s)) ->
  loads m v v' t k ty v0.
Proof.
  intros Hm Hv Hskip Hkeep. exists v1. split; [done|]. intros rest s. rewrite Hm. unfold mbind, L_bind.
  rewrite read_ttl_spec. destruct (dead v' (wall_ttl v t)); [apply Hskip|]. rewrite read_str by done. by rewrite Hkeep.
Qed.

Lemma load_string x :
  value_ok (VStr x) -> afits (aval (VStr x)) -> loads (rdb_load_string_entry v') v v' t k T_STR (VStr x).
Proof.
  cbn [aval afits value_ok enc_value]. intros Hok Hx.
  apply (loads_intro _ _ _ (VStr (s_assign s_empty (s_data x))) (cursor_read_str ;; cursor_read_str ;; mret ())
    (fun _ => y ← cursor_read_str; mret (VStr (s_assign s_empty y)))).
  - intros r. unfold rdb_load_string_entry, mbind, L_bind. destruct (read_ttl r) as [[p| |] r1]; [|done..].
    destruct (dead v' p); [done|]. destruct (cursor_read_str r1) as [[] r2]; [|done..].
    by destruct (cursor_read_str r2) as [[] r3].
  - split_and!; [|done..]. apply s_assign_ok, s_empty_ok.
  - intros rest s. unfold mbind, L_bind. cbn [enc_value]. by rewrite read_str, read_str.
  - intros rest s. unfold mbind, L_bind. cbn [enc_value]. by rewrite read_str.
Qed.

(** The other loaders: a count, a guard, and a loop over the members. *)
Lemma loads_counted (m : L ()) ty v0 {X Y} (wrap : X -> EntryValue) (body : X -> L X) (x0 : X)
    (enc : Y -> bytes) (step : X -> Y -> X) (ys : list Y) (size : Z) (skip : L ()) :
  (forall r, m r = (p ← read_ttl;
     if dead v' p then skip
     else key ← cursor_read_str; n ← cursor_read_u32; guard_count n size ;;
          x ← load_n (Z.to_nat n) body x0; rdb_link v' key ty (wrap x) p.1 p.2) r) ->
  enc_value v0 = enc_counted (enc <$> ys) -> rebuilds v0 (wrap (foldl step x0 ys)) ->
  (forall rest s, skip (mkReader (enc_str k ++ enc_value v0 ++ rest) s) = (ROk (), mkReader rest s)) ->
  Z.of_nat (length ys) < 2 ^ 32 -> 0 < size -> Forall (fun y => size <= Z.of_nat (length (enc y))) ys ->
  Forall (reads body enc step) ys -> loads m v v' t k ty v0.
Proof.
  intros Hm He Hv Hskip Hn Hsz Hlen Hys.
  apply (loads_intro _ _ _ (wrap (foldl step x0 ys)) skip
    (fun _ => x ← (n ← cursor_read_u32; guard_count n size ;; load_n (Z.to_nat n) body x0); mret (wrap x))); [|done|done|].
  - intros r. rewrite Hm. unfold mbind, L_bind. destruct (read_ttl r) as [[p| |] r1]; [|done..].
    destruct (dead v' p); [done|]. destruct (cursor_read_str r1) as [[key| |] r2]; [|done..].
    destruct (cursor_read_u32 r2) as [[n| |] r3]; [|done..]. destruct (guard_count n size r3) as [[]  r4]; [|done..].
    by destruct (load_n (Z.to_nat n) body x0 r4) as [[] r5].
  - intros rest s. rewrite He. unfold mbind at 1, L_bind at 1. by rewrite read_counted with (enc := enc) (step := step).
Qed.

Lemma load_zset z :
  value_ok (VZSet z) -> afits (aval (VZSet z)) -> loads (rdb_load_zset_entry v') v v' t k T_ZSET (VZSet z).
Proof.
  cbn [aval afits value_ok]. intros Hok [Hn Hf]. destruct (zset_pairs_spec z Hok) as (Hnd & Hl & Hp).
  assert (Hms : Forall (fun p => short p.2 /\ is_double p.1 /\ not_nan p.1) (zset_pairs z)).
  { apply Forall_forall. intros [x n] Hx. pose proof Hx as Hx'. apply Hp in Hx. destruct (Hf n x Hx) as [S1 S2].
    split_and!; [done|done|]. cbn. apply (scores_Some _ _ _ (zok_names z Hok)) in Hx.
    apply (proj1 (Forall_forall _ _) (zok_nan z Hok) _ Hx). }
  assert (Hlen : Forall (fun y => 12 <= Z.of_nat (length (enc_member y))) (zset_pairs z)).
  { apply Forall_forall. intros y _. unfold enc_member. rewrite length_app, le_bytes_length.
    pose proof (enc_str_length y.2). lia. }
  eapply (loads_counted _ _ _ VZSet zset_body ZSet_empty enc_member (fun z p => (zset_insert z p.2 p.1).2) (zset_pairs z) 12);
    [done|done| |..|by rewrite Hl|done|done|].
  - destruct (zset_rebuilt (zset_pairs z) ZSet_empty zset_empty_ok) as [R1 R2]; [|done|done|].
    { eapply Forall_impl; [exact Hms|]. naive_solver. }
    split_and!; [done| |done]. cbn [aval]. f_equal. rewrite R2, fold_insert_map by (by rewrite <- list_fmap_compose).
    change (scores ZSet_empty) with (∅ : gmap bytes score). rewrite (right_id_L ∅ (∪)).
    apply list_to_map_graph; [by rewrite <- list_fmap_compose|]. intros n x. rewrite <- Hp.
    rewrite list_elem_of_fmap. split; [intros ([? ?] & [= -> ->] & Hx); done|intros Hx; by exists (x, n)].
  - intros rest s. unfold mbind, L_bind. rewrite read_str by done. cbn [enc_value]. unfold enc_counted.
    rewrite <- app_assoc, length_fmap, read_u32 by (rewrite Hl; lia). rewrite guard_passes by done. rewrite Nat2Z.id.
    rewrite (load_n_list _ enc_member (fun _ _ => ())); [by destruct (foldl _ _ _)|].
    eapply Forall_impl; [exact Hms|]. intros [x n] (S1 & S2 & _) [] rest' s'. unfold enc_member, mbind, L_bind.
    rewrite <- app_assoc, (cursor_read_app (le_bytes 8 _)). by rewrite read_str.
  - eapply Forall_impl; [exact Hms|]. intros [x n] (S1 & S2 & _) y rest' s'. unfold zset_body, enc_member, mbind, L_bind.
    rewrite <- app_assoc, read_double by done. by rewrite read_str.
Qed.

Lemma load_deque d :
  value_ok (VList d) -> afits (aval (VList d)) -> loads (rdb_load_deque_entry v') v v' t k T_DLIST (VList d).
Proof.
  cbn [aval afits value_ok]. intros Hok [Hn Hf].
  assert (Hlen : Forall (fun y => 4 <= Z.of_nat (length (enc_str y))) (content d)).
  { apply Forall_forall. intros y _. pose proof (enc_str_length y). lia. }
  eapply (loads_counted _ _ _ VList deque_body deque_init enc_str deque_push_back (content d) 4);
    [done|done| |..|done|done|done|].
  - assert (Hi : deque_inv deque_init) by apply deque_init_inv.
    destruct (push_back_content deque_init (content d) Hi) as [P1 P2]. split_and!; [done| |done]. cbn [aval]. f_equal. done.
  - intros rest s. unfold mbind at 1, L_bind at 1. rewrite read_str by done. cbn [enc_value]. apply skip_counted; [done|].
    eapply Forall_impl; [exact Hf|]. intros x Hx [] rest' s'. unfold mbind, L_bind. by rewrite read_str.
  - eapply Forall_impl; [exact Hf|]. intros x Hx y rest' s'. unfold deque_body, mbind, L_bind. by rewrite read_str.
Qed.

Lemma load_hash h :
  value_ok (VHash h) -> afits (aval (VHash h)) -> loads (rdb_load_hash_entry v') v v' t k T_HASH (VHash h).
Proof.
  cbn [aval afits value_ok]. intros Hok [Hn Hf]. destruct (hash_pairs_spec h Hok) as (Hnd & Hl & Hp).
  assert (Hms : Forall (fun p => short p.1 /\ short p.2) (hash_pairs h)).
  { apply Forall_forall. intros [f x] Hx. apply Hp in Hx. exact (Hf f x Hx). }
  eapply (loads_counted _ _ _ VHash hash_body HMap_empty enc_field (fun h p => (hash_set h p.1 (s_copy p.2)).2) (hash_pairs h) 8);
    [done|done| |..|by rewrite Hl|done| |].
  - destruct (hash_rebuilt (hash_pairs h) HMap_empty (table_ok_empty _ _)) as [R1 R2].
    split_and!; [done| |done]. cbn [aval]. f_equal. rewrite R2, fold_insert_map by done.
    change (hash_map HMap_empty) with (∅ : gmap bytes bytes). rewrite (right_id_L ∅ (∪)). by apply list_to_map_graph.
  - intros rest s. unfold mbind, L_bind. rewrite (ignoring_ok _ _ _ _ (read_str k _ s Hk)). cbn [enc_value]. unfold enc_counted.
    rewrite <- app_assoc, length_fmap. erewrite ignoring_ok by (apply read_u32; rewrite Hl; lia). change (default 0 (Some ?x)) with x.
    rewrite Nat2Z.id, (load_n_list _ enc_field (fun _ _ => ())); [by destruct (foldl _ _ _)|].
    eapply Forall_impl; [exact Hms|]. intros [f x] [S1 S2] [] rest' s'. unfold enc_field, mbind, L_bind.
    rewrite <- app_assoc. erewrite ignoring_ok by (by apply read_str). by erewrite ignoring_ok by (by apply read_str).
  - apply Forall_forall. intros y _. unfold enc_field. rewrite length_app.
    pose proof (enc_str_length y.1). pose proof (enc_str_length y.2). lia.
  - eapply Forall_impl; [exact Hms|]. intros [f x] [S1 S2] y rest' s'. unfold hash_body, enc_field, mbind, L_bind.
    by rewrite <- app_assoc, read_str, read_str.
Qed.

Lemma load_set h :
  value_ok (VSet h) -> afits (aval (VSet h)) -> loads (rdb_load_set_entry v') v v' t k T_SET (VSet h).
Proof.
  cbn [aval afits value_ok]. intros Hok [Hn Hf]. destruct (set_list_spec h Hok) as (Hnd & Hl & Hp).
  assert (Hms : Forall short (set_list h)) by (apply Forall_forall; intros x Hx; by apply Hf, Hp).
  eapply (loads_counted _ _ _ VSet set_body HMap_empty enc_str (fun h m => (set_add h (s_assign s_empty m)).2) (set_list h) 4);
    [done|done| |..|by rewrite Hl|done| |].
  - destruct (set_rebuilt (set_list h) HMap_empty (table_ok_empty _ _)) as [R1 R2].
    split_and!; [done| |done]. cbn [aval]. f_equal. apply set_eq. intros x. rewrite R2, Hp.
    change (set_members HMap_empty) with (∅ : gset bytes). rewrite elem_of_empty. tauto.
  - intros rest s. unfold mbind, L_bind. rewrite (ignoring_ok _ _ _ _ (read_str k _ s Hk)). cbn [enc_value]. unfold enc_counted.
    rewrite <- app_assoc, length_fmap. erewrite ignoring_ok by (apply read_u32; rewrite Hl; lia). change (default 0 (Some ?x)) with x.
    rewrite Nat2Z.id, (load_n_list _ enc_str (fun _ _ => ())); [by destruct (foldl _ _ _)|].
    eapply Forall_impl; [exact Hms|]. intros x S1 [] rest' s'. unfold mbind, L_bind.
    by erewrite ignoring_ok by (by apply read_str).
  - apply Forall_forall. intros y _. pose proof (enc_str_length y). lia.
  - eapply Forall_impl; [exact Hms|]. intros x S1 y rest' s'. unfold set_body, mbind, L_bind. by rewrite read_str.
Qed.
End Loaders.

(** The whole record of a key. *)
Lemma load_entry v v' s k e :
  ks_ok s -> ks_fits s -> ents s !! k = Some e ->
  exists v1, rebuilds (eval e) v1 /\ forall rest s0,
    rdb_load_entry v' (mkReader (enc_entry v s k ++ rest) s0) =
    let p := wall_ttl v (ttls s !! k) in
    if dead v' p then (ROk (), mkReader rest s0)
    else rdb_link v' k (type e) v1 p.1 p.2 (mkReader rest s0).
Proof.
  intros Hs [Hf _] He. destruct (Hf k (aval (eval e))) as [Sk Sv]; [unfold vals; by rewrite lookup_fmap, He|].
  pose proof (ks_val s Hs k e He) as Hok. unfold enc_entry. rewrite He.
  assert (Hl : loads (match eval e with
     | VStr _ => rdb_load_string_entry v' | VZSet _ => rdb_load_zset_entry v' | VList _ => rdb_load_deque_entry v'
     | VHash _ => rdb_load_hash_entry v' | VSet _ => rdb_load_set_entry v' end) v v' (ttls s !! k) k (type e) (eval e)).
  { revert Hok Sv. unfold type. destruct (eval e); intros Hok Sv; [by apply load_string|by apply load_zset|by apply load_deque|by apply load_hash|by apply load_set]. }
  destruct Hl as (v1 & Hv & Hl). exists v1. split; [done|]. intros rest s0. cbn zeta. rewrite <- Hl.
  unfold rdb_load_entry, mbind, L_bind. cbn [app]. rewrite read_u8, <- !app_assoc. unfold type. by destruct (eval e).
Qed.

Lemma link_spec v k ty v1 f d c s :
  ks_ok s -> accounted s -> ents s !! k = None -> Z.of_nat (base.size (ents s)) + 1 < NO_TTL ->
  value_ok v1 -> (f = 0 \/ 0 <= i64 (u64 (d - wall v))) ->
  exists s1, rdb_link v k ty v1 f d (mkReader c s) = (ROk (), mkReader c s1) /\
    ks_ok s1 /\ accounted s1 /\ vals s1 = <[k := aval v1]> (vals s) /\
    ttls s1 = (if f =? 0 then ttls s else <[k := u64 (now v + i64 (u64 (d - wall v)))]> (ttls s)) /\ ttls s !! k = None.
Proof.
  intros Hs Ha Hn Hroom Hv Hd. unfold rdb_link. cbn [lks cur]. rewrite bool_decide_false by (rewrite Hn; by intros []).
  set (e := with_eval v1 _).
  destruct (db_link_spec s k e Hs Hn Hroom) as (K1 & K2 & K3 & K4); [done..|]. set (s1 := db_link k e s) in *.
  assert (A1 : accounted_but k s1).
  { intros j e' He'. subst s1. cbn in He'. destruct (decide (j = k)) as [->|]; [by left|].
    rewrite lookup_insert_ne in He' by done. right. by apply (Ha j). }
  assert (Hk1 : is_Some (ents s1 !! k)) by (subst s1; cbn; rewrite lookup_insert_eq; by eexists).
  set (s2 := if f =? 0 then s1 else _).
  assert (H2 : ks_ok s2 /\ vals s2 = vals s1 /\ accounted_but k s2 /\
    ttls s2 = if f =? 0 then ttls s else <[k := u64 (now v + i64 (u64 (d - wall v)))]> (ttls s)).
  { subst s2. destruct (f =? 0) eqn:Ef; [done|]. bool_facts. destruct Hd as [|Hd]; [done|].
    destruct (entry_set_ttl_spec s1 (now v) k (i64 (u64 (d - wall v))) K1 Hk1) as (T1 & T2 & T3 & _ & T5).
    rewrite (proj2 (Z.ltb_ge _ _)), K3 in T5 by done. split_and!; [done|done| |done].
    unfold accounted_but. eapply same_data_Forall; [|exact T3|exact A1]. done. }
  destruct H2 as (O2 & V2 & A2 & T2). exists (mem_reaccount k s2). split; [done|].
  destruct (mem_reaccount_spec s2 k O2) as (M1 & M2 & M3 & _ & M5 & M6).
  split_and!; [done| |by rewrite M2, V2|by rewrite M3|done].
  intros j e' He'. destruct (decide (j = k)) as [->|Hne]; [by apply M6|].
  rewrite M5 in He' by done. by destruct (A2 j e' He') as [->|].
Qed.

(** ** The whole payload *)

Definition clock_ok (v : Env) : Prop := 0 <= now v < 2 ^ 62 /\ 0 <= wall v < 2 ^ 62.
Definition ttls_ok (s : Keyspace) : Prop := map_Forall (fun _ t => 0 <= t < 2 ^ 62) (ttls s).

(** What the key [k] of [s], saved under [v], holds after a load under [v']. *)
Definition restored (v v' : Env) (s : Keyspace) (k : bytes) : option (AVal * option Z) :=
  a ← vals s !! k;
  let p := wall_ttl v (ttls s !! k) in
  if dead v' p then None
  else Some (a, if p.1 =? 0 then None else Some (u64 (now v' + i64 (u64 (p.2 - wall v'))))).

(** Keys and deadlines together, live or not. *)
Definition held (s : Keyspace) (k : bytes) : option (AVal * option Z) := (fun a => (a, ttls s !! k)) <$> vals s !! k.

Lemma i64_u64 z : INT64_MIN <= z <= INT64_MAX -> i64 (u64 z) = z.
Proof.
  unfold INT64_MIN, INT64_MAX, i64, u64. intros H. rewrite Zplus_mod_idemp_l, Z.mod_small by lia. lia.
Qed.

(** Deadlines on the wall clock, for clocks that have not wrapped. *)
Lemma deadline_on_wall v t :
  clock_ok v -> 0 <= t < 2 ^ 62 -> mono_expiry_to_wall v t = wall v + Z.max 0 (t - now v).
Proof.
  intros [H1 H2] Ht. unfold mono_expiry_to_wall. rewrite i64_u64 by (unfold INT64_MIN, INT64_MAX; lia).
  destruct (_ <? 0) eqn:E; bool_facts; rewrite u64_small; lia.
Qed.

(** The time left on reading. *)
Lemma time_left v v' t :
  clock_ok v -> clock_ok v' -> 0 <= t < 2 ^ 62 ->
  i64 (u64 (mono_expiry_to_wall v t - wall v')) = wall v + Z.max 0 (t - now v) - wall v'.
Proof.
  intros Hv Hv' Ht. rewrite deadline_on_wall by done. destruct Hv, Hv'. apply i64_u64. unfold INT64_MIN, INT64_MAX. lia.
Qed.

Lemma wall_ttl_alive v v' t :
  clock_ok v -> clock_ok v' -> match t with Some t => 0 <= t < 2 ^ 62 | None => True end ->
  dead v' (wall_ttl v t) = false ->
  (wall_ttl v t).1 = 0 \/ 0 <= i64 (u64 ((wall_ttl v t).2 - wall v')).
Proof.
  intros Hv Hv' Ht. destruct t as [t|]; cbn; [|by left]. intros Hd. bool_facts. right.
  rewrite deadline_on_wall in Hd by done. rewrite time_left by done. lia.
Qed.

Lemma load_entries v v' s keys :
  ks_ok s -> ks_fits s -> ttls_ok s -> clock_ok v -> clock_ok v' ->
  NoDup keys -> (forall k, k ∈ keys -> k ∈ dom (ents s)) ->
  forall s0 rest, ks_ok s0 -> accounted s0 -> (forall k, k ∈ keys -> ents s0 !! k = None) ->
  Z.of_nat (base.size (ents s0)) + Z.of_nat (length keys) < NO_TTL ->
  exists s1, load_n (length keys) (fun _ => rdb_load_entry v') () (mkReader (concat (enc_entry v s <$> keys) ++ rest) s0) =
      (ROk (), mkReader rest s1) /\ ks_ok s1 /\ accounted s1 /\
    forall k, held s1 k = if decide (k ∈ keys) then restored v v' s k else held s0 k.
Proof.
  intros Hs Hf Ht Hv Hv'. induction keys as [|k keys IH]; intros Hnd Hin s0 rest Ok0 Acc0 Hfr Hroom.
  { by exists s0. }
  apply NoDup_cons in Hnd as [Hk Hnd]. assert (Hks : k ∈ dom (ents s)) by (apply Hin; by left).
  apply elem_of_dom in Hks as [e He].
  destruct (load_entry v v' s k e Hs Hf He) as (v1 & (Hv1 & Ha & _) & Hl).
  cbn [length load_n fmap list_fmap concat]. unfold mbind, L_bind. rewrite <- app_assoc, Hl. cbn zeta. cbn [length] in Hroom.
  assert (Hva : vals s !! k = Some (aval (eval e))) by (unfold vals; by rewrite lookup_fmap, He).
  assert (Hr : restored v v' s k = (if dead v' (wall_ttl v (ttls s !! k)) then None
    else Some (aval (eval e), if (wall_ttl v (ttls s !! k)).1 =? 0 then None
      else Some (u64 (now v' + i64 (u64 ((wall_ttl v (ttls s !! k)).2 - wall v'))))))).
  { unfold restored. by rewrite Hva. }
  assert (Hh0 : held s0 k = None) by (unfold held, vals; by rewrite lookup_fmap, (Hfr k) by (by left)).
  destruct (dead v' (wall_ttl v (ttls s !! k))) eqn:Ed.
  - destruct (IH Hnd ltac:(intros; apply Hin; by right) s0 rest Ok0 Acc0 ltac:(intros; apply Hfr; by right) ltac:(lia))
      as (s1 & R1 & R2 & R3 & R4). exists s1. split_and!; try done. intros j. rewrite R4.
    destruct (decide (j = k)) as [->|Hne].
    + rewrite decide_False, decide_True by (done || by left). by rewrite Hh0, Hr.
    + repeat case_decide; set_solver.
  - destruct (link_spec v' k (type e) v1 (wall_ttl v (ttls s !! k)).1 (wall_ttl v (ttls s !! k)).2
      (concat (enc_entry v s <$> keys) ++ rest) s0 Ok0 Acc0) as (s1 & L1 & L2 & L3 & L4 & L5 & L6);
      [apply Hfr; by left|lia|done| |].
    { apply wall_ttl_alive; try done. destruct (ttls s !! k) as [t|] eqn:Et; [|done]. by apply (Ht k). }
    rewrite L1.
    assert (Hdom : forall j, j <> k -> (is_Some (ents s1 !! j) <-> is_Some (ents s0 !! j))).
    { intros j Hne. pose proof (f_equal (fun m => m !! j) L4) as Hj. cbn in Hj. rewrite lookup_insert_ne in Hj by done.
      unfold vals in Hj. rewrite !lookup_fmap in Hj. destruct (ents s1 !! j), (ents s0 !! j); cbn in Hj; try done; naive_solver. }
    destruct (IH Hnd ltac:(intros; apply Hin; by right) s1 rest L2 L3) as (s2 & R1 & R2 & R3 & R4).
    { intros j Hj. destruct (ents s1 !! j) eqn:E; [|done]. assert (Hne : j <> k) by (by intros ->).
      destruct (proj1 (Hdom j Hne) ltac:(by rewrite E)) as [? Hx]. by rewrite Hfr in Hx by (by right). }
    { assert (base.size (ents s1) = S (base.size (ents s0))) as ->; [|lia].
      rewrite <- (map_size_fmap (fun e => aval (eval e)) (ents s1)), <- (map_size_fmap (fun e => aval (eval e)) (ents s0)).
      unfold vals in L4. rewrite L4. apply map_size_insert_None. by rewrite lookup_fmap, Hfr by (by left). }
    exists s2. split_and!; try done. intros j. rewrite R4. destruct (decide (j = k)) as [->|Hne].
    + rewrite decide_False, decide_True by (done || by left). unfold held. rewrite L4, lookup_insert_eq, L5, Hr, Ha. cbn.
      f_equal. f_equal. destruct (_ =? 0); [done|]. by rewrite lookup_insert_eq.
    + assert (held s1 j = held s0 j) as ->.
      { unfold held. rewrite L4, lookup_insert_ne by done. rewrite L5. destruct (_ =? 0); [done|]. by rewrite lookup_insert_ne. }
      repeat case_decide; set_solver.
Qed.

Lemma entries_length v s keys :
  (forall k, k ∈ keys -> k ∈ dom (ents s)) -> (length keys <= length (concat (enc_entry v s <$> keys)))%nat.
Proof.
  induction keys as [|k keys IH]; intros Hin; cbn [length fmap list_fmap concat]; [lia|].
  assert (Hk : k ∈ dom (ents s)) by (apply Hin; by left). apply elem_of_dom in Hk as [e He].
  specialize (IH ltac:(intros; apply Hin; by right)). rewrite length_app. unfold enc_entry at 1. rewrite He. cbn [length]. lia.
Qed.

Lemma parse_payload v v' s :
  ks_ok s -> ks_fits s -> ttls_ok s -> clock_ok v -> clock_ok v' ->
  exists s1, rdb_parse_entries v' (enc_payload v s) (Z.of_nat (base.size (vals s))) ks_empty = (ROk (), s1) /\
    ks_ok s1 /\ accounted s1 /\ forall k, held s1 k = restored v v' s k.
Proof.
  intros Hs Hf Ht Hv Hv'. destruct (db_listing s Hs) as (Hnd & Hin & Hlen).
  destruct (load_entries v v' s (hm_foreach (db s)) Hs Hf Ht Hv Hv' Hnd ltac:(intros; by apply Hin)
    ks_empty [chr 255] (proj1 ks_empty_ok)) as (s1 & R1 & R2 & R3 & R4); [done|done| |].
  { destruct Hf as [_ Hsz]. rewrite Hlen. change (base.size (ents ks_empty)) with 0%nat. unfold NO_TTL, UINT64_MAX. lia. }
  exists s1. split_and!; [|done|done|].
  - unfold rdb_parse_entries. rewrite <- Hlen. pose proof (entries_length v s (hm_foreach (db s)) ltac:(intros; by apply Hin)).
    rewrite (proj2 (Z.ltb_ge _ _)) by (unfold enc_payload; rewrite length_app; lia).
    unfold mbind at 1, L_bind at 1, enc_payload. rewrite Nat2Z.id, R1.
    unfold mbind, L_bind. by rewrite read_u8.
  - intros k. rewrite R4. case_decide as Hk; [done|].
    assert (vals s !! k = None) as Hn.
    { unfold vals. rewrite lookup_fmap. rewrite Hin, not_elem_of_dom in Hk. by rewrite Hk. }
    unfold restored. rewrite Hn. done.
Qed.

(** ** The image *)

Definition header (flags n : Z) : bytes := magic ++ le_bytes 4 3 ++ [chr flags] ++ le_bytes 4 n.

Definition sealed (body : bytes) : bytes := body ++ le_bytes 4 (crc32_compute body).

Lemma header_length flags n : length (header flags n) = 14%nat.
Proof. done. Qed.

Lemma sealed_slices flags n body :
  0 <= flags < 256 -> 0 <= n < 2 ^ 32 -> body <> [] ->
  let img := sealed (header flags n ++ body) in
  rdb_header_ok img = true /\ le_val (slice 9 1 img) = flags /\ le_val (slice 10 4 img) = n /\
  slice 14 (length img - 4 - 14) img = body.
Proof.
  intros Hf Hn Hb. cbn zeta. unfold sealed. set (crc := crc32_compute (header flags n ++ body)).
  assert (Hl : length ((header flags n ++ body) ++ le_bytes 4 crc) = (14 + length body + 4)%nat).
  { by rewrite !length_app, le_bytes_length. }
  assert (Hb' : (1 <= length body)%nat) by (destruct body; [done|cbn; lia]).
  assert (Hcut : (14 + length body + 4 - 4)%nat = length (header flags n ++ body)) by (rewrite length_app, header_length; lia).
  split_and!.
  - unfold rdb_header_ok. rewrite Hl, Hcut, drop_app_length, take_app_length, le_val_bytes.
    rewrite Z.mod_small by apply crc32_range. rewrite Z.eqb_refl, andb_true_r.
    rewrite (proj2 (Nat.leb_le _ _)) by lia. rewrite bool_decide_true by done.
    subst crc. by rewrite Z.eqb_refl.
  - change (slice 9 1 _) with [chr flags]. cbn. rewrite code_chr by done. lia.
  - change (slice 10 4 _) with (le_bytes 4 n). rewrite le_val_bytes. by apply Z.mod_small.
  - rewrite Hl. replace (14 + length body + 4 - 4 - 14)%nat with (length body) by lia.
    rewrite <- app_assoc. change 14%nat with (length (header flags n)). rewrite slice_skip. apply take_app_length.
Qed.

(** The writer's two patches. *)
Lemma header_patched buf n flags :
  wf buf -> Buffer.content buf = [] ->
  let b1 := buf_append (buf_append buf magic) (le_bytes 4 3) in
  let b2 := buf_append b1 [chr 1] in
  let b3 := patch (buf_append b2 (le_bytes 4 0)) (buf_size b2) (le_bytes 4 n) in
  let b4 := patch b3 (buf_size b1) [chr flags] in
  wf b4 /\ Buffer.content b4 = header flags n.
Proof.
  intros Hw Hc. cbn zeta.
  destruct (buf_append_spec buf magic Hw) as [W1 C1]. destruct (buf_append_spec _ (le_bytes 4 3) W1) as [W2 C2].
  destruct (buf_append_spec _ [chr 1] W2) as [W3 C3]. destruct (buf_append_spec _ (le_bytes 4 0) W3) as [W4 C4].
  rewrite Hc in C1. rewrite C1 in C2. rewrite C2 in C3. rewrite C3 in C4. cbn [app] in C2, C3, C4.
  rewrite <- (length_content _ W3), <- (length_content _ W2), C2, C3.
  destruct (patch_spec _ (length ((magic ++ le_bytes 4 3) ++ [chr 1])) (le_bytes 4 n) W4) as [W5 C5].
  { rewrite <- (length_content _ W4), C4. done. }
  rewrite C4 in C5. rewrite <- (app_nil_r (le_bytes 4 0)), write_at_mid, app_nil_r in C5 by (by rewrite !le_bytes_length).
  destruct (patch_spec _ (length (magic ++ le_bytes 4 3)) [chr flags] W5) as [W6 C6].
  { rewrite <- (length_content _ W5), C5. rewrite !length_app, le_bytes_length. cbn. lia. }
  split; [done|]. rewrite C6, C5, <- app_assoc, write_at_mid by done. unfold header. by rewrite <- app_assoc.
Qed.

Section Image.
Context (compress2 : bytes -> option bytes) (uncompress : bytes -> nat -> option bytes).

(** The two shapes of an image. *)
Lemma serialize_spec v s buf :
  ks_ok s -> ks_fits s -> wf buf -> Buffer.content buf = [] ->
  let n := Z.of_nat (base.size (vals s)) in
  let img := Buffer.content (rdb_serialize compress2 v s buf) in
  img = sealed (header 0 n ++ enc_payload v s) \/
  exists z, compress2 (enc_payload v s) = Some z /\
    img = sealed (header 1 n ++ le_bytes 4 (u32 (Z.of_nat (length (enc_payload v s)))) ++ z).
Proof.
  intros Hs Hf Hw Hc. cbn zeta. destruct (payload_spec v s Hs Hf) as (_ & Hp & Hcnt).
  unfold rdb_serialize. cbn zeta. rewrite Hp, Hcnt. set (n := Z.of_nat (base.size (vals s))).
  assert (Hseal : forall b body, wf b -> Buffer.content b = body ->
    Buffer.content (buf_append b (le_bytes 4 (crc32_compute (Buffer.content b)))) = sealed body).
  { intros b body Hb <-. by destruct (buf_append_spec b (le_bytes 4 (crc32_compute (Buffer.content b))) Hb). }
  pose proof (header_patched buf n 0 Hw Hc) as [W0 C0]. pose proof (header_patched buf n 1 Hw Hc) as [W1 C1].
  cbn zeta in *.
  set (b0 := patch _ _ [chr 0]) in *. set (b1 := patch _ _ [chr 1]) in *.
  assert (Hraw : Buffer.content (buf_append (buf_append b0 (enc_payload v s))
    (le_bytes 4 (crc32_compute (Buffer.content (buf_append b0 (enc_payload v s)))))) = sealed (header 0 n ++ enc_payload v s)).
  { destruct (buf_append_spec b0 (enc_payload v s) W0) as [W C]. apply Hseal; [done|]. by rewrite C, C0. }
  destruct (_ <=? _)%nat; [|by left]. destruct (compress2 (enc_payload v s)) as [z|]; [|by left].
  destruct (_ <? _)%nat; [|by left]. right. exists z. split; [done|].
  destruct (buf_append_spec b1 (le_bytes 4 (u32 (Z.of_nat (length (enc_payload v s))))) W1) as [W2 C2].
  destruct (buf_append_spec _ z W2) as [W3 C3]. apply Hseal; [done|]. by rewrite C3, C2, C1, <- app_assoc.
Qed.

Lemma load_image v v' s buf :
  (forall x z, compress2 x = Some z -> uncompress z (length x) = Some x) ->
  (forall x z, compress2 x = Some z -> Z.of_nat (length x) <= Z.of_nat (length z) * 1032 + 4096) ->
  ks_ok s -> ks_fits s -> wf buf -> Buffer.content buf = [] -> Z.of_nat (length (enc_payload v s)) < 2 ^ 32 ->
  rdb_load_buffer uncompress v' (Buffer.content (rdb_serialize compress2 v s buf)) ks_empty =
  rdb_parse_entries v' (enc_payload v s) (Z.of_nat (base.size (vals s))) ks_empty.
Proof.
  intros Hinv Hratio Hs Hf Hw Hc Hsz. pose proof (proj2 Hf) as Hn. set (n := Z.of_nat (base.size (vals s))) in *.
  assert (0 <= n < 2 ^ 32) as Hn' by (subst n; lia).
  destruct (serialize_spec v s buf Hs Hf Hw Hc) as [->|(z & Hz & ->)]; fold n.
  - destruct (sealed_slices 0 n (enc_payload v s)) as (H1 & H2 & H3 & H4); [done|done|unfold enc_payload; by destruct (concat _)|].
    unfold rdb_load_buffer. rewrite H1. cbn zeta. by rewrite H2, H3, H4.
  - destruct (sealed_slices 1 n (le_bytes 4 (u32 (Z.of_nat (length (enc_payload v s)))) ++ z)) as (H1 & H2 & H3 & H4); [done..|].
    unfold rdb_load_buffer. rewrite H1. cbn zeta. rewrite H2, H3, H4. cbn [negb].
    change (negb (Z.land 1 1 =? 0)) with true. cbv iota. rewrite length_app, le_bytes_length.
    rewrite (proj2 (Nat.ltb_ge _ _)) by lia.
    rewrite (take_app_length' _ z 4), (drop_app_length' _ z 4) by (by rewrite le_bytes_length).
    rewrite le_val_bytes, u32_small by lia. rewrite Z.mod_small by (cbn; lia).
    rewrite (proj2 (Z.ltb_ge _ _)) by (specialize (Hratio _ _ Hz); lia).
    unfold rdb_decompress. rewrite Nat2Z.id, (Hinv _ _ Hz). cbn [mbind option_bind]. by rewrite Nat.sub_diag, app_nil_r.
Qed.
End Image.

(** ** Properties *)

(** A live key after the load: the time left is what the wall clock says. *)
Definition survive (v v' : Env) (p : AVal * option Z) : option (AVal * option Z) :=
  match p.2 with
  | None => Some p
  | Some t =>
      let left := t - now v - (wall v' - wall v) in
      if left <=? 0 then None else Some (p.1, Some (now v' + left))
  end.

Lemma restored_live v v' s s1 :
  ttls_ok s -> clock_ok v -> clock_ok v' -> wall v <= wall v' ->
  (forall k, held s1 k = restored v v' s k) -> lview (now v') s1 = omap (survive v v') (lview (now v) s).
Proof.
  intros Ht Hv Hv' Hw Hh. apply map_eq. intros k. specialize (Hh k). rewrite lookup_omap, !lview_lookup.
  unfold held, restored in *. destruct (vals s !! k) as [a|]; cbn in Hh |- *; [|by destruct (vals s1 !! k)].
  destruct (ttls s !! k) as [t|] eqn:Et; cbn in Hh.
  - pose proof (expired_Some (now v) s k t Et) as Hx. specialize (Ht k t Et).
    rewrite deadline_on_wall in Hh by done. pose proof Hv as [V1 V2]. pose proof Hv' as [V3 V4].
    destruct (wall v + Z.max 0 (t - now v) <=? wall v') eqn:El; bool_facts; cbn in Hh.
    + destruct (vals s1 !! k); [done|]. cbn. case_decide; [done|]. unfold survive. cbn.
      by rewrite (proj2 (Z.leb_le _ _)) by lia.
    + destruct (vals s1 !! k) as [a1|]; [|done]. cbn [fmap option_fmap option_map mbind option_bind] in *.
      rewrite i64_u64, u64_small in Hh by (unfold INT64_MIN, INT64_MAX; lia).
      injection Hh as -> Ht1. pose proof (expired_Some (now v') s1 k _ Ht1) as Hx1. rewrite Ht1.
      rewrite decide_False by (rewrite Hx1; lia). rewrite decide_False by (rewrite Hx; lia).
      unfold survive. cbn. rewrite (proj2 (Z.leb_gt _ _)) by lia. do 3 f_equal. lia.
  - destruct (vals s1 !! k) as [a1|]; [|done]. cbn in *. injection Hh as -> Ht1. rewrite Ht1.
    by rewrite !decide_False by (by apply expired_None).
Qed.

(** C3: Snapshots are faithful.  Whatever a consistent keyspace holds (all five
    types, deadlines, lengths and counts within 32 bits), loading the image
    rdb_build_image writes, compressed or not, into an empty server succeeds
    and gives a consistent, fully accounted keyspace with exactly the same
    live keys and values; a deadline keeps its distance on the wall clock, and
    a key whose time has passed on reading is dropped.  About zlib it uses
    that uncompress inverts compress2 and the documented maximal ratio. *)
Theorem rdb_roundtrip (compress2 : bytes -> option bytes) (uncompress : bytes -> nat -> option bytes)
    (zlib_inverse : forall x z, compress2 x = Some z -> uncompress z (length x) = Some x)
    (zlib_ratio : forall x z, compress2 x = Some z -> Z.of_nat (length x) <= Z.of_nat (length z) * 1032 + 4096)
    (v v' : Env) (s : Keyspace) (cap : nat) (Hs : ks_ok s) (Hf : ks_fits s) (Ht : ttls_ok s)
    (Hv : clock_ok v) (Hv' : clock_ok v') (Hw : wall v <= wall v')
    (Hsize : Z.of_nat (length (enc_payload v s)) < 2 ^ 32) :
  let img := Buffer.content (rdb_build_image compress2 v s (buf_create cap)) in
  exists s', rdb_load_buffer uncompress v' img ks_empty = (ROk (), s') /\ ks_ok s' /\ accounted s' /\
    lview (now v') s' = omap (survive v v') (lview (now v) s).
Proof.
  cbn zeta. unfold rdb_build_image. destruct (buf_create_wf cap) as [W0 C0].
  rewrite (load_image compress2 uncompress v v' s (buf_create cap) zlib_inverse zlib_ratio Hs Hf W0 C0 Hsize).
  destruct (parse_payload v v' s Hs Hf Ht Hv Hv') as (s1 & R1 & R2 & R3 & R4).
  exists s1. split_and!; [done..|]. by apply restored_live.
Qed.

(** A compressor for the demonstration: it leaves out the end marker. *)
Definition toy_compress (x : bytes) : option bytes :=
  match rev x with c :: l => if bool_decide (c = chr 255) then Some (rev l) else None | [] => None end.
Definition toy_uncompress (z : bytes) (n : nat) : option bytes := Some (z ++ [chr 255]).

Lemma toy_zlib x z : toy_compress x = Some z -> x = z ++ [chr 255].
Proof.
  unfold toy_compress. destruct (rev x) as [|c l] eqn:E; [done|]. case_bool_decide; [|done]. intros [= <-]. subst c.
  rewrite <- (rev_involutive x), E. done.
Qed.

(** A keyspace holding one timed string. *)
Definition ks_demo : Keyspace := entry_set_ttl 1000 (bs "k") 500 ks_one_key.

Lemma ks_demo_ok : ks_ok ks_demo.
Proof. apply entry_set_ttl_spec; [apply ks_one_key_ok|by eexists]. Qed.

Definition env_at (n w : Z) : Env := mkEnv n w 0 NOEVICTION 5 10 1 2.

Lemma rdb_roundtrip_witness :
  let img := Buffer.content (rdb_build_image toy_compress (env_at 1000 5000) ks_demo (buf_create 64)) in
  exists s', rdb_load_buffer toy_uncompress (env_at 7 5100) img ks_empty = (ROk (), s') /\ ks_ok s' /\ accounted s' /\
    lview 7 s' = omap (survive (env_at 1000 5000) (env_at 7 5100)) (lview 1000 ks_demo).
Proof.
  apply (rdb_roundtrip toy_compress toy_uncompress).
  - intros x z H. apply toy_zlib in H as ->. done.
  - intros x z H. apply toy_zlib in H as ->. rewrite length_app. cbn. lia.
  - apply ks_demo_ok.
  - split; [|vm_compute; reflexivity]. apply (bool_decide_unpack _). vm_compute. exact I.
  - apply (bool_decide_unpack _). vm_compute. exact I.
  - split; cbn; lia.
  - split; cbn; lia.
  - cbn. lia.
  - vm_compute. reflexivity.
Defined.

Lemma le_val_inj l l' : length l = length l' -> le_val l = le_val l' -> l = l'.
Proof.
  revert l'. induction l as [|c l IH]; intros [|c' l'] Hl; cbn in *; try done. intros H.
  pose proof (code_range c). pose proof (code_range c').
  assert (code c = code c' /\ le_val l = le_val l') as [Hc Hv] by lia. apply code_inj in Hc as ->. f_equal. apply IH; [lia|done].
Qed.

Lemma damaged_header data i c :
  rdb_header_ok data = true -> (i < length data)%nat -> data !! i <> Some c -> rdb_header_ok (<[i := c]> data) = false.
Proof.
  intros Hok Hi Hc. unfold rdb_header_ok in Hok. bool_facts.
  destruct (lookup_lt_is_Some_2 data i Hi) as [b Hb]. assert (Hne : b <> c) by congruence.
  unfold rdb_header_ok. rewrite length_insert. set (m := (length data - 4)%nat) in *.
  assert (Hbad : (le_val (drop m (<[i := c]> data)) =? crc32_compute (take m (<[i := c]> data))) = false);
    [|rewrite Hbad; by rewrite andb_false_r].
  apply Z.eqb_neq. intros E. destruct (decide (i < m)%nat) as [Hlt|Hge].
  - rewrite drop_insert_lt in E by lia. rewrite take_insert_lt in E by lia.
    assert (Hsplit : forall x, <[i := x]> (take m data) = take i (take m data) ++ x :: drop (S i) (take m data)).
    { intros x. apply insert_take_drop. rewrite length_take. lia. }
    assert (Hsame : take m data = <[i := b]> (take m data)).
    { symmetry. apply list_insert_id. by rewrite lookup_take_lt. }
    match goal with H : le_val (drop m data) = crc32_compute (take m data) |- _ => rewrite H in E end.
    assert (E' : crc32_compute (<[i := b]> (take m data)) = crc32_compute (<[i := c]> (take m data))) by (by rewrite <- Hsame).
    rewrite !Hsplit in E'. by apply crc32_one_byte in E'.
  - rewrite take_insert_ge in E by lia. match goal with H : le_val (drop m data) = crc32_compute (take m data) |- _ => rewrite <- H in E end.
    apply le_val_inj in E; [|by rewrite !length_drop, length_insert].
    pose proof (f_equal (fun l => l !! (i - m)%nat) E) as El. cbn in El. rewrite !lookup_drop in El.
    replace (m + (i - m))%nat with i in El by lia. rewrite list_lookup_insert_eq in El by done. by apply Hc.
Qed.

(** C4: A damaged snapshot is refused.  Changing any one byte of an image that
    passes the header tests, the checksum's own bytes included, makes
    rdb_load_buffer and rdb_load_file fail before the keyspace is touched, and
    rdb_load then behaves as if the primary file did not exist. *)
Theorem rdb_damage_detected (uncompress : bytes -> nat -> option bytes) (v : Env) (s : Keyspace) (data : bytes)
    (i : nat) (c : ascii) (backup : option bytes)
    (Hok : rdb_header_ok data = true) (Hi : (i < length data)%nat) (Hc : data !! i <> Some c) :
  rdb_load_buffer uncompress v (<[i := c]> data) s = (RFail, s) /\
  rdb_load_file uncompress v (Some (<[i := c]> data)) s = (RFail, s) /\
  rdb_load uncompress v (Some (<[i := c]> data)) backup s = rdb_load uncompress v None backup s.
Proof.
  pose proof (damaged_header data i c Hok Hi Hc) as Hbad.
  unfold rdb_load, rdb_load_file, rdb_load_buffer. rewrite Hbad. cbn [negb]. done.
Qed.

Lemma rdb_damage_detected_witness :
  let data := Buffer.content (rdb_build_image toy_compress (env_at 1000 5000) ks_demo (buf_create 64)) in
  rdb_load_buffer toy_uncompress (env_at 7 5100) (<[20%nat := chr 90]> data) ks_empty = (RFail, ks_empty) /\
  rdb_load_file toy_uncompress (env_at 7 5100) (Some (<[20%nat := chr 90]> data)) ks_empty = (RFail, ks_empty) /\
  rdb_load toy_uncompress (env_at 7 5100) (Some (<[20%nat := chr 90]> data)) None ks_empty =
    rdb_load toy_uncompress (env_at 7 5100) None None ks_empty.
Proof.
  apply rdb_damage_detected; [vm_compute; reflexivity|vm_compute; lia|vm_compute; discriminate].
Defined.
