(* ===== verification/Txn.v ===== *)
(** * Transactions (src/src/commands/commands.cpp 3124-3165, 5486-5563, 5824-5837)

    MULTI, EXEC, DISCARD, WATCH and UNWATCH, and the registry of watchers that
    all connections share.  The dispatcher that calls them, and what EXEC runs
    through it, are in Session. *)
From S2P Require Import Prelude Buffer Resp.

(** The transaction fields of a [Conn]. *)
Record TConn := mkTConn {
  in_multi : bool; multi_dirty : bool; in_exec : bool; watch_dirty : bool;
  watched_keys : gset bytes; queue_cmds : list (list bytes);
}.

Definition TConn_new : TConn := mkTConn false false false false ∅ [].

Definition set_multi (m d : bool) (q : list (list bytes)) (t : TConn) : TConn :=
  mkTConn m d (in_exec t) (watch_dirty t) (watched_keys t) q.
Definition set_exec (b : bool) (t : TConn) : TConn :=
  mkTConn (in_multi t) (multi_dirty t) b (watch_dirty t) (watched_keys t) (queue_cmds t).
Definition set_watch (d : bool) (w : gset bytes) (t : TConn) : TConn :=
  mkTConn (in_multi t) (multi_dirty t) (in_exec t) d w (queue_cmds t).
Definition mark_dirty (t : TConn) : TConn := set_watch true (watched_keys t) t.

(** The keys a command reports as written: a list of them, or every key. *)
Inductive Touched := TKeys (keys : list bytes) | TAll.

Section Txn.
Context {D : Type}.

(** The connections, the registry [g_data.watchers], the output of the
    connection being served, and the rest of the server. *)
Record TS := mkTS { tconns : gmap nat TConn; watchers : gmap bytes (gset nat); tout : Buffer; data : D }.

Definition with_tconns (m : gmap nat TConn) (st : TS) : TS := mkTS m (watchers st) (tout st) (data st).
Definition with_watchers (w : gmap bytes (gset nat)) (st : TS) : TS := mkTS (tconns st) w (tout st) (data st).
Definition say (f : Buffer -> Buffer) (st : TS) : TS := mkTS (tconns st) (watchers st) (f (tout st)) (data st).
Definition on_conn (c : nat) (f : TConn -> TConn) (st : TS) : TS := with_tconns (alter f c (tconns st)) st.
Definition conn (c : nat) (st : TS) : TConn := default TConn_new (tconns st !! c).

(** ** The registry *)

Definition watch_touch (key : bytes) (st : TS) : TS :=
  match watchers st !! key with
  | None => st
  | Some s => with_tconns (set_fold (fun c m => alter mark_dirty c m) (tconns st) s) st
  end.

Definition watch_touch_all (st : TS) : TS :=
  with_tconns (map_fold (fun _ s m => set_fold (fun c m => alter mark_dirty c m) m s) (tconns st) (watchers st)) st.

Definition watch_unlink (key : bytes) (c : nat) (st : TS) : TS :=
  match watchers st !! key with
  | None => st
  | Some s =>
      let s' := s ∖ {[c]} in
      with_watchers (if decide (s' = ∅) then delete key (watchers st) else <[key := s']> (watchers st)) st
  end.

Definition watch_clear_conn (c : nat) (st : TS) : TS :=
  let st := set_fold (fun k st => watch_unlink k c st) st (watched_keys (conn c st)) in
  on_conn c (set_watch false ∅) st.

(** [if (watched_keys.insert(k).second) watchers\[k\].insert(conn);] *)
Definition watch_one (c : nat) (st : TS) (k : bytes) : TS :=
  if decide (k ∈ watched_keys (conn c st)) then st
  else with_watchers (<[k := {[c]} ∪ default ∅ (watchers st !! k)]> (watchers st))
         (on_conn c (fun t => set_watch (watch_dirty t) ({[k]} ∪ watched_keys t) t) st).

(** ** The commands *)

Definition err (m : string) : TS -> TS := say (fun b => resp_err b (bs m)).

Definition do_multi (c : nat) (st : TS) : TS :=
  if in_multi (conn c st) then err "ERR MULTI calls can not be nested" st
  else say resp_ok (on_conn c (set_multi true false []) st).

Definition do_discard (c : nat) (st : TS) : TS :=
  if negb (in_multi (conn c st)) then err "ERR DISCARD without MULTI" st
  else say resp_ok (watch_clear_conn c (on_conn c (set_multi false false []) st)).

(** [proto] is the reply protocol of the connection, [do_request] the
    dispatcher for the commands of the batch. *)
Definition do_exec (proto : Z) (do_request : list bytes -> TS -> TS) (c : nat) (st : TS) : TS :=
  let t := conn c st in
  if negb (in_multi t) then err "ERR EXEC without MULTI" st
  else if multi_dirty t then
    err "EXECABORT Transaction discarded because of prevous errors." (on_conn c (set_multi false false []) st)
  else if watch_dirty t then
    say (resp_nil_arr proto) (watch_clear_conn c (on_conn c (fun t => set_multi false (multi_dirty t) [] t) st))
  else
    let batch := queue_cmds t in
    let st := watch_clear_conn c (on_conn c (set_multi false false []) st) in
    let st := say (fun b => resp_arr b (u32 (Z.of_nat (length batch)))) (on_conn c (set_exec true) st) in
    let st := foldl (fun st cmd => do_request cmd st) st batch in
    on_conn c (set_exec false) st.

Definition do_watch (cmd : list bytes) (c : nat) (st : TS) : TS :=
  if in_multi (conn c st) then err "ERR WATCH inside MULTI is not allowed" st
  else say resp_ok (foldl (watch_one c) st (drop 1 cmd)).

Definition do_unwatch (c : nat) (st : TS) : TS := say resp_ok (watch_clear_conn c st).

(** An error at queue time poisons the open transaction. *)
Definition resp_err_txn (c : nat) (msg : bytes) (st : TS) : TS :=
  say (fun b => resp_err b msg)
    (if in_multi (conn c st) then on_conn c (fun t => set_multi (in_multi t) true (queue_cmds t) t) st else st).

Definition cmd_no_queue (canonical : bytes) : bool :=
  bool_decide (canonical = bs "subscribe") || bool_decide (canonical = bs "unsubscribe") ||
  bool_decide (canonical = bs "psubscribe") || bool_decide (canonical = bs "punsubscribe").

(** The commands [do_request] hands to this component, never queued. *)
Definition is_control (canonical : bytes) : bool :=
  bool_decide (canonical ∈ [bs "multi"; bs "discard"; bs "exec"; bs "watch"; bs "unwatch"]).

(** A connection is accepted, or torn down by [conn_destroy]. *)
Definition conn_open (c : nat) (st : TS) : TS :=
  match tconns st !! c with None => with_tconns (<[c := TConn_new]> (tconns st)) st | Some _ => st end.
Definition conn_close (c : nat) (st : TS) : TS :=
  let st := watch_clear_conn c st in with_tconns (delete c (tconns st)) st.
End Txn.
Arguments TS : clear implicits.

(** ** The registry against the connections *)

Section Registry.
Context {D : Type}.
Implicit Types st : TS D.

(** A bucket holds exactly the connections that watch its key, and no bucket
    is empty. *)
Definition registry (st : TS D) : Prop :=
  (forall k, watchers st !! k <> Some ∅) /\
  forall k c, c ∈ default ∅ (watchers st !! k) <-> exists t, tconns st !! c = Some t /\ k ∈ watched_keys t.

Lemma mark_set (m : gmap nat TConn) (s : gset nat) c :
  set_fold (fun c m => alter mark_dirty c m) m s !! c =
  (fun t => if decide (c ∈ s) then mark_dirty t else t) <$> m !! c.
Proof.
  refine (set_fold_ind_L (fun m' X => m' !! c = (fun t => if decide (c ∈ X) then mark_dirty t else t) <$> m !! c) _ _ _ _ s).
  - destruct (m !! c); [cbn|done]. by rewrite decide_False by apply not_elem_of_empty.
  - intros x X m' Hx IH. destruct (decide (x = c)) as [->|Hne].
    + rewrite lookup_alter_eq, IH. destruct (m !! c); [cbn|done]. rewrite decide_False by done.
      by rewrite decide_True by (apply elem_of_union_l, elem_of_singleton; done).
    + rewrite lookup_alter_ne, IH by done. destruct (m !! c); [cbn|done]. destruct (decide (c ∈ X)) as [Hc|Hc].
      * by rewrite decide_True by (by apply elem_of_union_r).
      * rewrite decide_False; [done|]. rewrite elem_of_union, elem_of_singleton. naive_solver.
Qed.

Lemma mark_all (m : gmap nat TConn) (w : gmap bytes (gset nat)) c :
  map_fold (fun _ s m => set_fold (fun c m => alter mark_dirty c m) m s) m w !! c =
  (fun t => if decide (map_Exists (fun _ s => c ∈ s) w) then mark_dirty t else t) <$> m !! c.
Proof.
  refine (map_fold_weak_ind (fun m' w => m' !! c = (fun t => if decide (map_Exists (fun _ s => c ∈ s) w) then mark_dirty t else t) <$> m !! c) _ _ _ _ w).
  - destruct (m !! c); [cbn|done]. by rewrite decide_False by apply map_Exists_empty.
  - clear w. intros j x w m' Hj IH. rewrite mark_set, IH.
    destruct (m !! c) as [t|]; [cbn|done]. f_equal.
    destruct (decide (c ∈ x)) as [Hc|Hc]; destruct (decide (map_Exists _ w)) as [He|He];
      destruct (decide (map_Exists _ (<[j := x]> w))) as [Hi|Hi]; rewrite map_Exists_insert in Hi by done; try tauto.
Qed.

(** What a write does to the connections, told without the registry. *)
Definition touch_conn (t : Touched) (k : TConn) : TConn :=
  match t with
  | TKeys keys => if decide (Exists (fun x => x ∈ watched_keys k) keys) then mark_dirty k else k
  | TAll => if decide (watched_keys k = ∅) then k else mark_dirty k
  end.

Definition touch (t : Touched) (st : TS D) : TS D :=
  match t with TKeys keys => foldl (fun st k => watch_touch k st) st keys | TAll => watch_touch_all st end.

Lemma registry_watched st st' :
  watchers st' = watchers st -> (forall c, watched_keys <$> tconns st' !! c = watched_keys <$> tconns st !! c) ->
  registry st -> registry st'.
Proof.
  intros Hw Hc [H1 H2]. unfold registry. rewrite Hw. split; [done|]. intros k c. rewrite H2. specialize (Hc c).
  destruct (tconns st' !! c), (tconns st !! c); naive_solver congruence.
Qed.

Lemma watch_touch_spec key st :
  registry st ->
  registry (watch_touch key st) /\ watchers (watch_touch key st) = watchers st /\
  (forall c, tconns (watch_touch key st) !! c = touch_conn (TKeys [key]) <$> tconns st !! c).
Proof.
  intros Hr. assert (Hc : forall c, tconns (watch_touch key st) !! c = touch_conn (TKeys [key]) <$> tconns st !! c).
  { intros c. destruct Hr as [H1 H2]. specialize (H2 key c). unfold watch_touch, touch_conn.
    destruct (watchers st !! key) as [s|] eqn:E; cbn [tconns with_tconns default] in *.
    - rewrite mark_set. destruct (tconns st !! c) as [t|] eqn:Et; [cbn|done]. f_equal.
      destruct (decide (c ∈ s)) as [Hin|Hin]; destruct (decide (Exists _ [key])) as [He|He];
        rewrite Exists_cons, Exists_nil in He; naive_solver.
    - destruct (tconns st !! c) as [t|] eqn:Et; [cbn|done]. f_equal. rewrite decide_False; [done|].
      rewrite Exists_cons, Exists_nil. intros [He|[]]. assert (Hx : c ∈ (∅ : gset nat)) by (apply H2; by exists t).
      by apply not_elem_of_empty in Hx. }
  assert (Hw : watchers (watch_touch key st) = watchers st) by (unfold watch_touch; by destruct (watchers st !! key)).
  split; [|done]. apply (registry_watched st); [done| |done]. intros c. rewrite Hc. destruct (tconns st !! c) as [t|]; [cbn|done].
  by destruct (decide _).
Qed.

Lemma touch_keys_spec keys : forall st,
  registry st ->
  registry (touch (TKeys keys) st) /\ watchers (touch (TKeys keys) st) = watchers st /\
  (forall c, tconns (touch (TKeys keys) st) !! c = touch_conn (TKeys keys) <$> tconns st !! c).
Proof.
  cbn [touch]. induction keys as [|k keys IH]; intros st Hr; cbn [foldl].
  { split; [done|]. split; [done|]. intros c. by destruct (tconns st !! c). }
  destruct (watch_touch_spec k st Hr) as (R1 & R2 & R3). destruct (IH _ R1) as (I1 & I2 & I3).
  split; [done|]. split; [by rewrite I2|]. intros c. rewrite I3, R3. destruct (tconns st !! c) as [t|]; [|done].
  cbn [fmap option_fmap option_map]. f_equal. cbn [touch_conn].
  destruct (decide (Exists _ [k])) as [E1|E1]; rewrite Exists_cons, Exists_nil in E1; cbn [watched_keys mark_dirty set_watch];
    destruct (decide (Exists _ keys)) as [E2|E2]; destruct (decide (Exists _ (k :: keys))) as [E3|E3];
    rewrite Exists_cons in E3; try done; tauto.
Qed.

Lemma touch_spec t st :
  registry st ->
  registry (touch t st) /\ watchers (touch t st) = watchers st /\
  (forall c, tconns (touch t st) !! c = touch_conn t <$> tconns st !! c).
Proof.
  destruct t as [keys|]; [apply touch_keys_spec|]. intros Hr. cbn [touch].
  assert (Hc : forall c, tconns (watch_touch_all st) !! c = touch_conn TAll <$> tconns st !! c).
  { intros c. unfold watch_touch_all. cbn [tconns with_tconns]. rewrite mark_all. destruct (tconns st !! c) as [t|] eqn:Et; [|done].
    cbn. f_equal. destruct Hr as [H1 H2]. destruct (decide (watched_keys t = ∅)) as [He|He].
    - rewrite decide_False; [done|]. intros (k & s & Hk & Hin). specialize (H2 k c). rewrite Hk in H2. cbn in H2.
      apply H2 in Hin as (t' & Ht' & Hin). assert (t' = t) as -> by congruence. rewrite He in Hin. by apply not_elem_of_empty in Hin.
    - rewrite decide_True; [done|]. apply set_choose_L in He as [k Hk].
      assert (Hin : c ∈ default ∅ (watchers st !! k)) by (apply H2; by exists t).
      destruct (watchers st !! k) as [s|] eqn:Ek; [by exists k, s|by apply not_elem_of_empty in Hin]. }
  split; [|done]. apply (registry_watched st); [done| |done]. intros c. rewrite Hc.
  destruct (tconns st !! c) as [t|]; [cbn|done]. by destruct (decide _).
Qed.

(** ** Leaving and joining the registry *)

Lemma decide_head {B : Type} (x : bytes) (X : gset bytes) (a b : B) : (if decide (x ∈ {[x]} ∪ X) then a else b) = a.
Proof. apply decide_True. by apply elem_of_union_l, elem_of_singleton. Qed.

Lemma decide_rest {B : Type} (k x : bytes) (X : gset bytes) (a b : B) :
  k <> x -> (if decide (k ∈ {[x]} ∪ X) then a else b) = if decide (k ∈ X) then a else b.
Proof.
  intros Hne. destruct (decide (k ∈ X)) as [Hin|Hin].
  - apply decide_True. by apply elem_of_union_r.
  - apply decide_False. rewrite elem_of_union, elem_of_singleton. tauto.
Qed.

Lemma unlink_all (c : nat) (X : gset bytes) st :
  let st' := set_fold (fun k st => watch_unlink k c st) st X in
  tconns st' = tconns st /\ tout st' = tout st /\ data st' = data st /\
  forall k, watchers st' !! k =
    if decide (k ∈ X)
    then s ← watchers st !! k; if decide (s ∖ {[c]} = ∅) then None else Some (s ∖ {[c]})
    else watchers st !! k.
Proof.
  refine (set_fold_ind_L (fun st' X => tconns st' = tconns st /\ tout st' = tout st /\ data st' = data st /\
    forall k, watchers st' !! k =
      if decide (k ∈ X)
      then s ← watchers st !! k; if decide (s ∖ {[c]} = ∅) then None else Some (s ∖ {[c]})
      else watchers st !! k) _ _ _ _ X).
  - split_and!; try done.
  - clear X. intros x X st' Hx (I1 & I2 & I3 & I4). assert (Hxw : watchers st' !! x = watchers st !! x) by (by rewrite I4, decide_False).
    unfold watch_unlink. rewrite Hxw. destruct (watchers st !! x) as [s|] eqn:Es; cbn [with_watchers tconns tout data watchers].
    + split_and!; [done..|]. intros k. destruct (decide (k = x)) as [->|Hne].
      * rewrite decide_head, Es. cbn.
        destruct (decide (s ∖ {[c]} = ∅)); [apply lookup_delete_eq|apply lookup_insert_eq].
      * rewrite decide_rest, <- I4 by done. destruct (decide (s ∖ {[c]} = ∅)); [by apply lookup_delete_ne|by apply lookup_insert_ne].
    + split_and!; [done..|]. intros k. rewrite I4. destruct (decide (k = x)) as [->|Hne].
      * rewrite decide_head, Es. by rewrite decide_False by done.
      * by rewrite decide_rest.
Qed.

Lemma watch_clear_spec (c : nat) st :
  registry st ->
  let st' := watch_clear_conn c st in
  registry st' /\ tconns st' = alter (set_watch false ∅) c (tconns st) /\ tout st' = tout st /\ data st' = data st /\
  forall k, c ∉ default ∅ (watchers st' !! k).
Proof.
  intros [H1 H2]. cbn zeta. unfold watch_clear_conn.
  destruct (unlink_all c (watched_keys (conn c st)) st) as (U1 & U2 & U3 & U4). set (st1 := set_fold _ _ _) in *.
  assert (Hb : forall k, default ∅ (watchers st1 !! k) = default ∅ (watchers st !! k) ∖ {[c]} /\ watchers st1 !! k <> Some ∅).
  { intros k. rewrite U4. destruct (decide (k ∈ watched_keys (conn c st))) as [Hk|Hk].
    - destruct (watchers st !! k) as [s|]; cbn; [|split; [by apply set_eq; intros x; rewrite elem_of_difference, elem_of_empty; tauto|done]].
      destruct (decide (s ∖ {[c]} = ∅)) as [->|Hne]; cbn; [done|]. split; [done|]. by intros [= ?].
    - split; [|apply H1]. apply set_eq. intros x. rewrite elem_of_difference, elem_of_singleton. split; [|tauto].
      intros Hin. split; [done|]. intros ->. apply H2 in Hin as (t & Ht & Hin). apply Hk. unfold conn. by rewrite Ht. }
  cbn [on_conn with_tconns tconns tout data watchers]. rewrite U1. split_and!; [|done..|].
  - split; [intros k; apply Hb|]. intros k x. cbn [watchers tconns on_conn with_tconns]. rewrite (proj1 (Hb k)), elem_of_difference, elem_of_singleton, H2, U1.
    destruct (decide (x = c)) as [->|Hne].
    + split; [tauto|]. rewrite lookup_alter_eq. intros (t & Ht & Hin). destruct (tconns st !! c); [|done].
      injection Ht as <-. by apply not_elem_of_empty in Hin.
    + rewrite lookup_alter_ne by done. tauto.
  - intros k. rewrite (proj1 (Hb k)), elem_of_difference, elem_of_singleton. tauto.
Qed.

Lemma watch_one_spec (c : nat) st (k : bytes) t :
  registry st -> tconns st !! c = Some t ->
  let st' := watch_one c st k in
  registry st' /\ tout st' = tout st /\ data st' = data st /\
  tconns st' = <[c := set_watch (watch_dirty t) ({[k]} ∪ watched_keys t) t]> (tconns st).
Proof.
  intros [H1 H2] Ht. cbn zeta. unfold watch_one, conn. rewrite Ht. cbn [default]. case_decide as Hk.
  - split; [done|]. split; [done|]. split; [done|]. rewrite subseteq_union_1_L by (by apply singleton_subseteq_l).
    symmetry. apply insert_id. rewrite Ht. by destruct t.
  - assert (Hc : tconns (on_conn c (fun t => set_watch (watch_dirty t) ({[k]} ∪ watched_keys t) t) st) =
                 <[c := set_watch (watch_dirty t) ({[k]} ∪ watched_keys t) t]> (tconns st)).
    { cbn. by rewrite (alter_insert_eq_Some _ _ _ t) || (apply map_eq; intros j; destruct (decide (j = c)) as [->|];
        [by rewrite lookup_alter_eq, Ht, lookup_insert_eq|by rewrite lookup_alter_ne, lookup_insert_ne]). }
    split; [|split; [done|]; split; [done|exact Hc]]. split; cbn [with_watchers watchers tconns].
    + intros j. destruct (decide (j = k)) as [->|Hne]; [|rewrite lookup_insert_ne by done; apply H1].
      rewrite lookup_insert_eq. intros [= Hx]. assert (Hin : c ∈ (∅ : gset nat)) by (rewrite <- Hx; by apply elem_of_union_l, elem_of_singleton).
      by apply not_elem_of_empty in Hin.
    + intros j x. rewrite Hc. destruct (decide (j = k)) as [->|Hne].
      * rewrite lookup_insert_eq. cbn [from_option id]. rewrite elem_of_union, elem_of_singleton, H2.
        destruct (decide (x = c)) as [->|Hxc].
        -- rewrite lookup_insert_eq. split; [intros _|by left]. eexists. split; [done|]. by apply elem_of_union_l, elem_of_singleton.
        -- rewrite lookup_insert_ne by done. naive_solver.
      * rewrite lookup_insert_ne by done. rewrite H2. destruct (decide (x = c)) as [->|Hxc].
        -- rewrite lookup_insert_eq, Ht. split; intros (t' & [= <-] & Hin); (eexists; split; [done|]).
           ++ by apply elem_of_union_r.
           ++ apply elem_of_union in Hin as [Hin%elem_of_singleton|Hin]; [done|done].
        -- by rewrite lookup_insert_ne.
Qed.
End Registry.

(** ** What one connection sees of the others *)

Definition touches (W : gset bytes) (t : Touched) : bool :=
  match t with TKeys keys => bool_decide (Exists (fun k => k ∈ W) keys) | TAll => negb (bool_decide (W = ∅)) end.

Lemma touch_conn_fields t k :
  touch_conn t k = set_watch (watch_dirty k || touches (watched_keys k) t) (watched_keys k) k.
Proof.
  destruct t as [keys|]; cbn [touch_conn touches]; case_decide as H.
  - by rewrite bool_decide_eq_true_2, orb_true_r.
  - rewrite bool_decide_eq_false_2, orb_false_r by done. by destruct k.
  - rewrite bool_decide_eq_true_2, orb_false_r by done. by destruct k.
  - by rewrite bool_decide_eq_false_2, orb_true_r.
Qed.

Section Conns.
Context {D : Type}.
Implicit Types st : TS D.

Lemma registry_on_conn c f (st : TS D) :
  (forall t, watched_keys (f t) = watched_keys t) -> registry st -> registry (on_conn c f st).
Proof.
  intros Hf. apply registry_watched; [done|]. intros x. cbn. destruct (decide (x = c)) as [->|].
  - rewrite lookup_alter_eq. destruct (tconns st !! c); [cbn; by rewrite Hf|done].
  - by rewrite lookup_alter_ne.
Qed.

Lemma touch_other_fields t (st : TS D) : data (touch t st) = data st /\ tout (touch t st) = tout st.
Proof.
  destruct t as [keys|]; [|done]. cbn [touch]. revert st. induction keys as [|k keys IH]; intros st; [done|]. cbn [foldl].
  destruct (IH (watch_touch k st)) as [-> ->]. unfold watch_touch. by destruct (watchers st !! k).
Qed.

(** *** Requests create and remove no connection *)

Definition same_conns (st st' : TS D) : Prop := forall x, is_Some (tconns st' !! x) <-> is_Some (tconns st !! x).

Lemma same_conns_trans a b c : same_conns a b -> same_conns b c -> same_conns a c.
Proof. intros H1 H2 x. by rewrite (H2 x). Qed.

Lemma same_on_conn c f st : same_conns st (on_conn c f st).
Proof.
  intros x. cbn. destruct (decide (x = c)) as [->|]; [rewrite lookup_alter_eq; apply fmap_is_Some|by rewrite lookup_alter_ne].
Qed.

Lemma same_clear c st : same_conns st (watch_clear_conn c st).
Proof.
  unfold watch_clear_conn. destruct (unlink_all c (watched_keys (conn c st)) st) as (U1 & _).
  eapply same_conns_trans; [|apply same_on_conn]. intros x. by rewrite U1.
Qed.

Lemma same_watch c keys : forall st, same_conns st (foldl (watch_one c) st keys).
Proof.
  induction keys as [|k keys IH]; intros st; [done|]. cbn [foldl]. eapply same_conns_trans; [|apply IH].
  unfold watch_one. case_decide; [done|]. apply (same_on_conn c).
Qed.

Lemma same_touch t : forall st, same_conns st (touch t st).
Proof.
  destruct t as [keys|]; intros st.
  - cbn [touch]. revert st. induction keys as [|k keys IH]; intros st; [done|]. cbn [foldl]. eapply same_conns_trans; [|apply IH].
    intros x. unfold watch_touch. destruct (watchers st !! k); [|done]. cbn [with_tconns tconns]. rewrite mark_set. apply fmap_is_Some.
  - intros x. cbn [touch watch_touch_all with_tconns tconns]. rewrite mark_all. apply fmap_is_Some.
Qed.

Lemma same_fold {A} (f : TS D -> A -> TS D) l : (forall st a, same_conns st (f st a)) -> forall st, same_conns st (foldl f st l).
Proof. intros Hf. induction l as [|a l IH]; intros st; [done|]. cbn [foldl]. eapply same_conns_trans; [apply Hf|apply IH]. Qed.

Lemma same_exec proto req c st : (forall cmd st, same_conns st (req cmd st)) -> same_conns st (do_exec proto req c st).
Proof.
  intros Hreq. unfold do_exec. destruct (negb _); [done|]. destruct (multi_dirty _); [apply (same_on_conn c)|]. destruct (watch_dirty _).
  - eapply same_conns_trans; [apply (same_on_conn c)|]. apply (same_clear c (on_conn c _ st)).
  - eapply same_conns_trans; [apply (same_on_conn c (set_multi false false []))|]. eapply same_conns_trans; [apply (same_clear c)|].
    eapply same_conns_trans; [apply (same_on_conn c (set_exec true))|].
    eapply same_conns_trans; [|apply same_on_conn]. eapply same_conns_trans; [|by apply same_fold]. done.
Qed.

(** *** The registry stays exact *)

Lemma registry_exec proto c req st :
  is_Some (tconns st !! c) ->
  (forall cmd st, is_Some (tconns st !! c) -> registry st -> registry (req cmd st) /\ is_Some (tconns (req cmd st) !! c)) ->
  registry st -> registry (do_exec proto req c st).
Proof.
  intros Hsome Hreq Hr. unfold do_exec. destruct (negb _); [done|].
  destruct (multi_dirty _); [by apply registry_on_conn|].
  destruct (watch_dirty _); [apply watch_clear_spec; by apply registry_on_conn|].
  apply registry_on_conn; [done|]. set (st1 := say _ _).
  assert (H1 : registry st1) by (apply registry_on_conn; [done|]; apply watch_clear_spec; by apply registry_on_conn).
  assert (H2 : is_Some (tconns st1 !! c))
    by (apply (same_on_conn c (set_exec true)), (same_clear c), (same_on_conn c (set_multi false false [])); done).
  revert H1 H2. generalize st1, (queue_cmds (conn c st)). clear Hr st1. intros st1 batch. revert st1.
  induction batch as [|cmd batch IH]; intros st1 H1 H2; cbn [foldl]; [done|]. destruct (Hreq cmd st1 H2 H1) as [H3 H4]. by apply IH.
Qed.

Lemma registry_watch c keys : forall st, is_Some (tconns st !! c) -> registry st -> registry (foldl (watch_one c) st keys).
Proof.
  induction keys as [|k keys IH]; intros st [t Ht] Hr; [done|]. cbn [foldl].
  destruct (watch_one_spec c st k t Hr Ht) as (R1 & _ & _ & R4). apply IH; [|done]. rewrite R4, lookup_insert_eq. by eexists.
Qed.

Lemma registry_close c st : registry st -> registry (conn_close c st) /\ tconns (conn_close c st) = delete c (tconns st).
Proof.
  intros Hr. destruct (watch_clear_spec c st Hr) as ([R1 R2] & R3 & _ & _ & R5). unfold conn_close. cbn zeta.
  assert (Hd : tconns (with_tconns (delete c (tconns (watch_clear_conn c st))) (watch_clear_conn c st)) = delete c (tconns st)).
  { cbn [tconns with_tconns]. rewrite R3. apply map_eq. intros j. destruct (decide (j = c)) as [->|]; [by rewrite !lookup_delete_eq|].
    by rewrite !lookup_delete_ne, lookup_alter_ne. }
  split; [|done]. split; [done|]. intros k x. cbn [watchers with_tconns]. destruct (decide (x = c)) as [->|Hne].
  - split; [intros Hin; by apply R5 in Hin|]. cbn [tconns with_tconns]. rewrite lookup_delete_eq. by intros (t & ? & _).
  - rewrite R2. cbn [tconns with_tconns]. by rewrite lookup_delete_ne.
Qed.

Lemma registry_open c st : registry st -> registry (conn_open c st).
Proof.
  intros Hr. unfold conn_open. destruct (tconns st !! c) eqn:E; [done|]. destruct Hr as [H1 H2]. split; [done|].
  intros k x. cbn [watchers tconns with_tconns]. rewrite H2. destruct (decide (x = c)) as [->|]; [|by rewrite lookup_insert_ne].
  rewrite lookup_insert_eq, E. split; [by intros (? & ? & _)|]. intros (t & [= <-] & Hin). by apply not_elem_of_empty in Hin.
Qed.
End Conns.

Definition ts_init {D} (d : D) : TS D := mkTS ∅ ∅ (buf_create 16) d.

Lemma registry_init {D} (d : D) : registry (ts_init d).
Proof. split; [done|]. intros k c. cbn. split; [intros Hin; by apply not_elem_of_empty in Hin|by intros (t & ? & _)]. Qed.

(** EXECABORT does not end the watch.  An EXEC refused because a command
    was rejected at queue time leaves the connection's watched keys, its dirty
    mark and the registry as they were, while DISCARD and every other EXEC
    clear them; so the next transaction of the connection, which watched
    nothing, is refused when the old key was touched. *)
Theorem execabort_keeps_watches {D : Type} (proto : Z) (req : list bytes -> TS D -> TS D) (c : nat) (st : TS D) (t : TConn)
    (Hr : registry st) (Ht : tconns st !! c = Some t) (Hm : in_multi t = true) (Hp : multi_dirty t = true) :
  let st1 := do_exec proto req c st in
  let st2 := do_exec proto req c (do_multi c st1) in
  tconns st1 !! c = Some (set_multi false false [] t) /\ watchers st1 = watchers st /\
  (watch_dirty t = true -> data st2 = data st /\
     tout st2 = resp_nil_arr proto (resp_ok (tout st1))) /\
  (watched_keys <$> tconns (do_discard c st) !! c = Some ∅).
Proof.
  cbn zeta. assert (H1 : do_exec proto req c st = err "EXECABORT Transaction discarded because of prevous errors." (on_conn c (set_multi false false []) st)).
  { unfold do_exec, conn. rewrite Ht. cbn [from_option id]. by rewrite Hm, Hp. }
  rewrite H1. set (st1 := err _ _). assert (Ht1 : tconns st1 !! c = Some (set_multi false false [] t)) by (cbn; by rewrite lookup_alter_eq, Ht).
  split; [done|]. split; [done|]. split.
  - intros Hd. assert (H2 : do_multi c st1 = say resp_ok (on_conn c (set_multi true false []) st1))
      by (unfold do_multi, conn; by rewrite Ht1).
    rewrite H2. set (st2 := say resp_ok _).
    assert (Ht2 : tconns st2 !! c = Some (set_multi true false [] t)) by (cbn [st2 say on_conn with_tconns tconns]; by rewrite lookup_alter_eq, Ht1).
    unfold do_exec, conn. rewrite Ht2. cbn [from_option id in_multi set_multi multi_dirty watch_dirty negb]. rewrite Hd.
    destruct (watch_clear_spec c (on_conn c (fun t => set_multi false (multi_dirty t) [] t) st2)) as (_ & _ & W3 & W4 & _).
    { apply registry_on_conn; [done|]. apply (registry_on_conn c); [done|]. by apply (registry_on_conn c). }
    cbn [say data tout]. by rewrite W3, W4.
  - unfold do_discard, conn. rewrite Ht. cbn [from_option id]. rewrite Hm. cbn [negb say tconns].
    destruct (watch_clear_spec c (on_conn c (set_multi false false []) st)) as (_ & W2 & _); [by apply registry_on_conn|].
    rewrite W2, lookup_alter_eq. cbn. by rewrite lookup_alter_eq, Ht.
Qed.

(** Connection 1 watches [k] and has opened a transaction that a refused
    command poisoned, and [k] was written. *)
Definition ts_poisoned : TS () :=
  resp_err_txn 1 (bs "ERR unknown command") (watch_touch (bs "k") (do_multi 1 (do_watch [bs "watch"; bs "k"] 1 (conn_open 1 (ts_init ()))))).

Lemma execabort_keeps_watches_witness :
  let t := mkTConn true true false true {[bs "k"]} [] in
  let req cmd (st : TS ()) := st in
  let st1 := do_exec 2 req 1 ts_poisoned in
  let st2 := do_exec 2 req 1 (do_multi 1 st1) in
  tconns st1 !! 1%nat = Some (set_multi false false [] t) /\ watchers st1 = watchers ts_poisoned /\
  (watch_dirty t = true -> data st2 = data ts_poisoned /\ tout st2 = resp_nil_arr 2 (resp_ok (tout st1))) /\
  (watched_keys <$> tconns (do_discard 1 ts_poisoned) !! 1%nat = Some ∅).
Proof.
  apply (execabort_keeps_watches 2 (fun cmd st => st) 1 ts_poisoned (mkTConn true true false true {[bs "k"]} [])).
  - change (registry (on_conn 1 (fun t => set_multi (in_multi t) true (queue_cmds t) t)
      (watch_touch (bs "k") (on_conn 1 (set_multi true false []) (foldl (watch_one 1) (conn_open 1 (ts_init ())) [bs "k"]))))).
    apply registry_on_conn; [done|]. apply watch_touch_spec. apply registry_on_conn; [done|].
    apply registry_watch; [by eexists|]. by apply registry_open, registry_init.
  - vm_compute. reflexivity.
  - reflexivity.
  - reflexivity.
Defined.
