(* ===== verification/Backlog.v ===== *)
(** * The replication stream (src/src/core/state.cpp 1211-1283, src/src/commands/commands.cpp 3600-3668, 3783-3850)

    Every write goes through [propagate] to the append-only buffer, to a ring
    that keeps the newest bytes (the backlog) and to the attached replicas.
    PSYNC serves a returning replica from the ring when every byte it missed is
    still there, and otherwise sends a full image.  The theorems relate the
    ring to the whole stream and follow what one replica receives. *)
From S2P Require Import Prelude Buffer Resp Args CText.

(** What the stream needs of a [Conn]. *)
Record RConn := mkRConn { outgoing : Buffer; is_replica : bool; want_write : bool }.

(** The part of [GlobalData] (and two configuration switches) the stream uses;
    a [Conn *] is a number. *)
Record Repl := mkRepl {
  repl_id : bytes; repl_id2 : bytes; second_repl_offset : Z; master_repl_offset : Z;
  repl_backlog : bytes; repl_backlog_pos : nat; repl_backlog_histlen : nat;
  conns : gmap nat RConn; replicas : gset nat;
  sync_full : Z; sync_partial_ok : Z; sync_partial_err : Z;
  aof_enable : bool; aof_child : bool; g_aof_buf : bytes; g_aof_rewrite_buf : bytes;
}.

Definition with_ids (i i2 : bytes) (o : Z) (r : Repl) : Repl :=
  mkRepl i i2 o (master_repl_offset r) (repl_backlog r) (repl_backlog_pos r) (repl_backlog_histlen r) (conns r) (replicas r)
    (sync_full r) (sync_partial_ok r) (sync_partial_err r) (aof_enable r) (aof_child r) (g_aof_buf r) (g_aof_rewrite_buf r).
Definition with_offset (o : Z) (r : Repl) : Repl :=
  mkRepl (repl_id r) (repl_id2 r) (second_repl_offset r) o (repl_backlog r) (repl_backlog_pos r) (repl_backlog_histlen r)
    (conns r) (replicas r) (sync_full r) (sync_partial_ok r) (sync_partial_err r) (aof_enable r) (aof_child r)
    (g_aof_buf r) (g_aof_rewrite_buf r).
Definition with_ring (b : bytes) (pos hist : nat) (r : Repl) : Repl :=
  mkRepl (repl_id r) (repl_id2 r) (second_repl_offset r) (master_repl_offset r) b pos hist (conns r) (replicas r)
    (sync_full r) (sync_partial_ok r) (sync_partial_err r) (aof_enable r) (aof_child r) (g_aof_buf r) (g_aof_rewrite_buf r).
Definition with_conns (c : gmap nat RConn) (s : gset nat) (r : Repl) : Repl :=
  mkRepl (repl_id r) (repl_id2 r) (second_repl_offset r) (master_repl_offset r) (repl_backlog r) (repl_backlog_pos r)
    (repl_backlog_histlen r) c s (sync_full r) (sync_partial_ok r) (sync_partial_err r) (aof_enable r) (aof_child r)
    (g_aof_buf r) (g_aof_rewrite_buf r).
Definition with_counts (f p e : Z) (r : Repl) : Repl :=
  mkRepl (repl_id r) (repl_id2 r) (second_repl_offset r) (master_repl_offset r) (repl_backlog r) (repl_backlog_pos r)
    (repl_backlog_histlen r) (conns r) (replicas r) f p e (aof_enable r) (aof_child r) (g_aof_buf r) (g_aof_rewrite_buf r).
Definition with_aof (b rb : bytes) (r : Repl) : Repl :=
  mkRepl (repl_id r) (repl_id2 r) (second_repl_offset r) (master_repl_offset r) (repl_backlog r) (repl_backlog_pos r)
    (repl_backlog_histlen r) (conns r) (replicas r) (sync_full r) (sync_partial_ok r) (sync_partial_err r) (aof_enable r)
    (aof_child r) b rb.

(** ** The identity of a history *)

Definition hx : bytes := bs "0123456789abcdef".

(** Forty draws of [rand_idx(16)]. *)
Definition repl_gen_id (draws : list Z) : bytes :=
  (fun d => default c_zero (hx !! Z.to_nat (d mod 16))) <$> take 40 draws.

Definition repl_new_id (draws : list Z) (r : Repl) : Repl :=
  with_ids (repl_gen_id draws) (repl_id2 r) (second_repl_offset r) r.

(** Promotion: the identity served until now is kept beside the new one. *)
Definition repl_shift_id (draws : list Z) (r : Repl) : Repl :=
  repl_new_id draws (with_ids (repl_id r) (repl_id r) (u64 (master_repl_offset r + 1)) r).

Definition repl_init (draws : list Z) (repl_backlog_size : nat) (r : Repl) : Repl :=
  with_ring (replicate repl_backlog_size c_zero) 0 0 (repl_new_id draws r).

(** ** The ring *)

Definition repl_backlog_start_offset (r : Repl) : Z :=
  if (repl_backlog_histlen r =? 0)%nat then 0
  else u64 (master_repl_offset r - Z.of_nat (repl_backlog_histlen r) + 1).

Definition repl_backlog_feed (bytes_ : bytes) (r : Repl) : Repl :=
  if (length bytes_ =? 0)%nat then r
  else
    let r := with_offset (u64 (master_repl_offset r + Z.of_nat (length bytes_))) r in
    let cap := length (repl_backlog r) in
    if (cap =? 0)%nat then r
    else
      let data := if (cap <=? length bytes_)%nat then drop (length bytes_ - cap) bytes_ else bytes_ in
      let len := length data in
      let first := (len `min` (cap - repl_backlog_pos r))%nat in
      let ring1 := write_at (repl_backlog_pos r) (take first data) (repl_backlog r) in
      let ring2 := if (first <? len)%nat then write_at 0 (drop first data) ring1 else ring1 in
      with_ring ring2 ((repl_backlog_pos r + len) mod cap) ((repl_backlog_histlen r + len) `min` cap) r.

Definition repl_backlog_copy (r : Repl) (need : Z) (out : Buffer) : Buffer :=
  if need =? 0 then out
  else
    let cap := length (repl_backlog r) in
    let n := Z.to_nat need in
    let start := Z.to_nat (u64 (Z.of_nat (repl_backlog_pos r) + Z.of_nat cap - need) mod Z.of_nat cap) in
    let first := (n `min` (cap - start))%nat in
    let out := buf_append out (slice start first (repl_backlog r)) in
    if (first <? n)%nat then buf_append out (slice 0 (n - first) (repl_backlog r)) else out.

(** ** The sinks *)

Definition feed_conn (bytes_ : bytes) (c : RConn) : RConn :=
  mkRConn (buf_append (outgoing c) bytes_) (is_replica c) true.

Definition repl_feed_replicas (bytes_ : bytes) (r : Repl) : Repl :=
  with_conns (set_fold (fun c m => alter (feed_conn bytes_) c m) (conns r) (replicas r)) (replicas r) r.

Definition propagate (bytes_ : bytes) (r : Repl) : Repl :=
  let r :=
    if aof_enable r
    then with_aof (g_aof_buf r ++ bytes_) (if aof_child r then g_aof_rewrite_buf r ++ bytes_ else g_aof_rewrite_buf r) r
    else r in
  let r := repl_backlog_feed bytes_ r in
  if bool_decide (replicas r = ∅) then r else repl_feed_replicas bytes_ r.

(** The keep-alive frame, [aof_encode(frame, {"PING"})]. *)
Definition repl_ping_replicas (r : Repl) : Repl :=
  if bool_decide (replicas r = ∅) then r
  else
    let frame := bs "*1" ++ crlf ++ bs "$4" ++ crlf ++ bs "PING" ++ crlf in
    repl_feed_replicas frame (repl_backlog_feed frame r).

Definition repl_remove_conn (c : nat) (r : Repl) : Repl :=
  match conns r !! c with
  | Some k =>
      if is_replica k
      then with_conns (<[c := mkRConn (outgoing k) false (want_write k)]> (conns r)) (replicas r ∖ {[c]}) r
      else r
  | None => r
  end.

(** ** PSYNC *)

(** The text [snprintf] leaves in a [char\[128\]] and the number of bytes the
    caller then appends from it: [None] when that runs past the array. *)
Definition line128 (text : bytes) : option bytes := if (length text <? 128)%nat then Some text else None.

Definition attach (c : nat) (out : Buffer) (r : Repl) : Repl :=
  with_conns (<[c := mkRConn out true (default false (want_write <$> conns r !! c))]> (conns r)) ({[c]} ∪ replicas r) r.

Definition conn_out (c : nat) (r : Repl) : Buffer := default (buf_create 0) (outgoing <$> conns r !! c).

(** The full resync; [img] is the image [rdb_build_image] returned. *)
Definition psync_full (c : nat) (img : bytes) (r : Repl) : option Repl :=
  hdr ← line128 (bs "+FULLRESYNC " ++ repl_id r ++ bs " " ++ print_u64 (master_repl_offset r) ++ crlf);
  let out := buf_append (conn_out c r) hdr in
  let out := buf_append out (bs "$" ++ print_u64 (Z.of_nat (length img)) ++ crlf) in
  let out := buf_append out img in
  let r := attach c out r in
  Some (with_counts (u64 (sync_full r + 1)) (sync_partial_ok r) (sync_partial_err r) r).

(** [PSYNC id off] of connection [c], after the checks on the connection and
    the promotion. *)
Definition psync_resync (id off : bytes) (c : nat) (img : bytes) (r : Repl) : option Repl :=
  if bool_decide (id = bs "?") || (length (repl_backlog r) =? 0)%nat then psync_full c img r
  else
    let parsed := parse_int_strict off in
    let off_ok := match parsed with Some o => 0 <? o | None => false end in
    let want := if off_ok then default 0 parsed else 0 in
    let next := u64 (master_repl_offset r + 1) in
    let id_ok := bool_decide (id = repl_id r) ||
                 (negb (bool_decide (repl_id2 r = [])) && bool_decide (id = repl_id2 r) && (want <=? second_repl_offset r)) in
    if id_ok && off_ok && (want <=? next) && (u64 (next - want) <=? Z.of_nat (repl_backlog_histlen r))
    then
      cont ← line128 (bs "+CONTINUE " ++ repl_id r ++ crlf);
      let out := repl_backlog_copy r (u64 (next - want)) (buf_append (conn_out c r) cont) in
      let r := attach c out r in
      Some (with_counts (sync_full r) (u64 (sync_partial_ok r + 1)) (sync_partial_err r) r)
    else psync_full c img (with_counts (sync_full r) (sync_partial_ok r) (u64 (sync_partial_err r + 1)) r).

(** A replica adopts the history of its master (src/src/server/server.cpp 470-475). *)
Definition adopt_history (id : bytes) (off : Z) (r : Repl) : Repl :=
  with_ring (repl_backlog r) 0 0 (with_offset off (with_ids id [] 0 r)).

(** ** The ring, oldest byte first *)

Definition lastn {A} (n : nat) (l : list A) : list A := drop (length l - n) l.

Definition ring (r : Repl) : bytes := drop (repl_backlog_pos r) (repl_backlog r) ++ take (repl_backlog_pos r) (repl_backlog r).

(** The stream [S] since offset [base]: the ring holds its newest bytes. *)
Record stream_ok (base : Z) (S : bytes) (r : Repl) : Prop := {
  so_base : 0 <= base;
  so_offset : master_repl_offset r = base + Z.of_nat (length S);
  so_range : master_repl_offset r < 2 ^ 64 - 1;
  so_cap : Z.of_nat (length (repl_backlog r)) < 2 ^ 62;
  so_pos : (repl_backlog_pos r < length (repl_backlog r))%nat \/ repl_backlog r = [];
  so_hist : repl_backlog_histlen r = (length S `min` length (repl_backlog r))%nat;
  so_ring : lastn (repl_backlog_histlen r) (ring r) = lastn (repl_backlog_histlen r) S;
}.

Lemma length_lastn {A} n (l : list A) : length (lastn n l) = (n `min` length l)%nat.
Proof. unfold lastn. rewrite length_drop. lia. Qed.

Lemma lastn_all {A} n (l : list A) : (length l <= n)%nat -> lastn n l = l.
Proof. intros H. unfold lastn. replace (length l - n)%nat with 0%nat by lia. apply drop_0. Qed.

Lemma lastn_lastn {A} n m (l : list A) : (n <= m)%nat -> lastn n (lastn m l) = lastn n l.
Proof. intros H. unfold lastn. rewrite length_drop, drop_drop. f_equal. lia. Qed.

Lemma lastn_app_le {A} n (l k : list A) : (n <= length k)%nat -> lastn n (l ++ k) = lastn n k.
Proof. intros H. unfold lastn. rewrite length_app, drop_app_ge by lia. f_equal. lia. Qed.

Lemma lastn_app_ge {A} n (l k : list A) : (length k <= n)%nat -> lastn n (l ++ k) = lastn (n - length k) l ++ k.
Proof.
  intros H. unfold lastn. rewrite length_app, drop_app_le by lia. do 2 f_equal. lia.
Qed.

(** Pushing the same bytes onto lists with the same tail. *)
Lemma lastn_app_cong {A} n m (l1 l2 k : list A) :
  lastn n l1 = lastn n l2 -> (m <= n + length k)%nat -> lastn m (l1 ++ k) = lastn m (l2 ++ k).
Proof.
  intros H Hm. destruct (decide (m <= length k)%nat) as [Hle|Hgt]; [by rewrite !lastn_app_le|].
  rewrite !lastn_app_ge by lia. f_equal.
  rewrite <- (lastn_lastn (m - length k) n l1), <- (lastn_lastn (m - length k) n l2) by lia. by rewrite H.
Qed.

Lemma length_ring r : length (ring r) = length (repl_backlog r).
Proof. unfold ring. rewrite length_app, length_drop, length_take. lia. Qed.

(** One write of at most a ring's worth. *)
Lemma ring_write (B data : bytes) pos :
  (pos < length B)%nat -> (length data <= length B)%nat ->
  let cap := length B in
  let len := length data in
  let first := (len `min` (cap - pos))%nat in
  let ring1 := write_at pos (take first data) B in
  let B' := if (first <? len)%nat then write_at 0 (drop first data) ring1 else ring1 in
  let pos' := ((pos + len) mod cap)%nat in
  length B' = cap /\ drop pos' B' ++ take pos' B' = drop len (drop pos B ++ take pos B) ++ data.
Proof.
  intros Hpos Hlen. cbn zeta.
  set (A := take pos B). set (C := drop pos B). assert (HB : B = A ++ C) by (unfold A, C; by rewrite take_drop).
  assert (HA : length A = pos) by (unfold A; rewrite length_take; lia).
  assert (HC : length C = (length B - pos)%nat) by (unfold C; rewrite length_drop; lia).
  destruct (decide (length data <= length B - pos)%nat) as [Hfit|Hwrap].
  - replace (length data `min` (length B - pos))%nat with (length data) by lia. rewrite Nat.ltb_irrefl, firstn_all.
    assert (Hw : write_at pos data B = A ++ data ++ drop (length data) C).
    { unfold write_at, A. do 2 f_equal. unfold C. by rewrite drop_drop. }
    rewrite Hw. split; [rewrite !length_app, length_drop; lia|].
    destruct (decide (pos + length data = length B)%nat) as [He|Hne].
    + rewrite He, Nat.Div0.mod_same. assert (Hd : drop (length data) C = []) by (apply drop_ge; lia).
      rewrite Hd, drop_0, take_0, !app_nil_r. rewrite drop_app_ge by lia. replace (length data - length C)%nat with 0%nat by lia.
      by rewrite drop_0.
    + rewrite Nat.mod_small by lia. rewrite drop_app_ge by lia. rewrite HA, drop_app_ge by lia.
      replace (pos + length data - pos - length data)%nat with 0%nat by lia. rewrite drop_0.
      rewrite (app_assoc A), take_app_le by (rewrite length_app; lia).
      rewrite firstn_all2 by (rewrite length_app; lia). by rewrite drop_app_le, <- app_assoc by lia.
  - replace (length data `min` (length B - pos))%nat with (length B - pos)%nat by lia.
    assert ((length B - pos <? length data)%nat = true) as -> by (by apply Nat.ltb_lt; lia).
    set (b1 := take (length B - pos) data). set (b2 := drop (length B - pos) data).
    assert (Hb : data = b1 ++ b2) by (unfold b1, b2; by rewrite take_drop).
    assert (H1 : length b1 = length C) by (unfold b1; rewrite length_take; lia).
    assert (H2 : length b2 = (length data - (length B - pos))%nat) by (unfold b2; rewrite length_drop; lia).
    assert (Hw1 : write_at pos b1 B = A ++ b1).
    { unfold write_at. rewrite (drop_ge B) by lia. by rewrite app_nil_r. }
    assert (Hw2 : write_at 0 b2 (write_at pos b1 B) = b2 ++ drop (length b2) A ++ b1).
    { rewrite Hw1. unfold write_at. rewrite take_0, Nat.add_0_l, drop_app_le by lia. done. }
    rewrite Hw2. split; [rewrite !length_app, length_drop; lia|].
    assert (Hp : ((pos + length data) mod length B)%nat = length b2).
    { replace (pos + length data)%nat with (length b2 + 1 * length B)%nat by lia.
      rewrite Nat.Div0.mod_add. apply Nat.mod_small. lia. }
    rewrite Hp, drop_app_length, take_app_length, drop_app_ge, HC by lia.
    replace (length data - (length B - pos))%nat with (length b2) by lia. rewrite <- app_assoc. by rewrite <- Hb.
Qed.

(** A write of any length leaves the last bytes of the ring followed by it. *)
Lemma feed_ring r data :
  (repl_backlog_pos r < length (repl_backlog r))%nat ->
  let r' := repl_backlog_feed data r in
  length (repl_backlog r') = length (repl_backlog r) /\
  (repl_backlog_pos r' < length (repl_backlog r))%nat /\
  ring r' = lastn (length (repl_backlog r)) (ring r ++ data).
Proof.
  intros Hpos. cbn zeta. unfold repl_backlog_feed. destruct (length data =? 0)%nat eqn:E0.
  { apply Nat.eqb_eq in E0. destruct data; [|done]. split; [done|]. split; [done|].
    rewrite app_nil_r, lastn_all; [done|]. rewrite length_ring. lia. }
  destruct (length (repl_backlog (with_offset _ r)) =? 0)%nat eqn:E1; cbn [with_offset repl_backlog] in E1 |- *;
    [apply Nat.eqb_eq in E1; lia|].
  set (cap := length (repl_backlog r)) in *. set (d := if (cap <=? length data)%nat then _ else _).
  assert (Hd : (length d <= cap)%nat /\ lastn cap (ring r ++ data) = drop (length d) (ring r) ++ d).
  { unfold d. destruct (cap <=? length data)%nat eqn:Ec; bool_facts.
    - rewrite length_drop. split; [lia|]. rewrite lastn_app_le by lia. unfold lastn.
      rewrite (drop_ge (ring r)); [done|]. rewrite length_ring. fold cap. lia.
    - split; [lia|]. rewrite lastn_app_ge by lia. f_equal. unfold lastn.
      rewrite length_ring. fold cap. f_equal. lia. }
  destruct Hd as [Hlen Hlast].
  destruct (ring_write (repl_backlog r) d (repl_backlog_pos r) Hpos Hlen) as [W1 W2]. fold cap in W1, W2.
  cbn [with_ring repl_backlog repl_backlog_pos with_offset]. split; [exact W1|].
  split; [apply Nat.mod_upper_bound; lia|]. rewrite Hlast. unfold ring. cbn [with_ring repl_backlog repl_backlog_pos with_offset].
  exact W2.
Qed.

Lemma feed_fields data r :
  0 <= master_repl_offset r -> master_repl_offset r + Z.of_nat (length data) < 2 ^ 64 ->
  (repl_backlog_histlen r <= length (repl_backlog r))%nat ->
  let r' := repl_backlog_feed data r in
  master_repl_offset r' = master_repl_offset r + Z.of_nat (length data) /\
  repl_backlog_histlen r' = ((repl_backlog_histlen r + length data) `min` length (repl_backlog r))%nat /\
  conns r' = conns r /\ replicas r' = replicas r /\ repl_id r' = repl_id r.
Proof.
  intros H0 H1 Hh. cbn zeta. unfold repl_backlog_feed. destruct (length data =? 0)%nat eqn:E0.
  { apply Nat.eqb_eq in E0. rewrite E0. split_and!; try done; lia. }
  destruct (length (repl_backlog _) =? 0)%nat eqn:E1; cbn [with_offset repl_backlog repl_backlog_pos] in E1 |- *.
  - apply Nat.eqb_eq in E1. cbn. rewrite u64_small by lia. split_and!; try done. lia.
  - cbn [with_ring with_offset master_repl_offset repl_backlog_histlen conns replicas repl_id]. rewrite u64_small by lia.
    split_and!; try done. destruct (_ <=? _)%nat eqn:Ec; bool_facts; [rewrite length_drop|]; lia.
Qed.

Lemma feed_stream base S data r :
  stream_ok base S r -> base + Z.of_nat (length S) + Z.of_nat (length data) < 2 ^ 64 - 1 ->
  stream_ok base (S ++ data) (repl_backlog_feed data r).
Proof.
  intros [Hb Ho Hr Hc Hp Hh Hring] Hlt.
  destruct (feed_fields data r) as (F1 & F2 & _); [lia|lia|lia|].
  assert (Hlen : length (repl_backlog (repl_backlog_feed data r)) = length (repl_backlog r)).
  { destruct Hp as [Hp|Hp]; [by apply feed_ring|]. unfold repl_backlog_feed. destruct (length data =? 0)%nat; [done|].
    cbn [with_offset repl_backlog]. rewrite Hp. cbn. by rewrite Hp. }
  split; [done| | |by rewrite Hlen| | |].
  - rewrite F1, Ho, length_app. lia.
  - rewrite F1. lia.
  - rewrite Hlen. destruct Hp as [Hp|Hp]; [left; by apply feed_ring|right].
    apply length_zero_iff_nil. by rewrite Hlen, Hp.
  - rewrite F2, Hlen, length_app, Hh. lia.
  - rewrite F2. destruct Hp as [Hp|Hp].
    + destruct (feed_ring r data Hp) as (_ & _ & ->). rewrite lastn_lastn by lia.
      apply (lastn_app_cong (repl_backlog_histlen r)); [done|lia].
    + rewrite Hp. cbn [length]. rewrite Nat.min_0_r. unfold lastn. by rewrite !drop_ge by lia.
Qed.

Lemma copy_tail r n out :
  wf out -> (repl_backlog_pos r < length (repl_backlog r))%nat -> (n <= length (repl_backlog r))%nat ->
  Z.of_nat (length (repl_backlog r)) < 2 ^ 62 ->
  let out' := repl_backlog_copy r (Z.of_nat n) out in
  wf out' /\ content out' = content out ++ lastn n (ring r).
Proof.
  intros Hwf Hpos Hn Hcap. cbn zeta. unfold repl_backlog_copy. destruct (Z.of_nat n =? 0) eqn:E0; bool_facts.
  { replace n with 0%nat by lia. split; [done|]. unfold lastn. rewrite drop_ge by lia. by rewrite app_nil_r. }
  rewrite u64_small, Nat2Z.id by lia. set (B := repl_backlog r) in *. set (pos := repl_backlog_pos r) in *.
  unfold ring. fold B pos. destruct (decide (n <= pos)%nat) as [Hle|Hgt].
  - replace (Z.of_nat pos + Z.of_nat (length B) - Z.of_nat n) with (Z.of_nat (pos - n) + 1 * Z.of_nat (length B)) by lia.
    rewrite Z_mod_plus_full, Z.mod_small, Nat2Z.id by lia.
    replace (n `min` (length B - (pos - n)))%nat with n by lia. rewrite Nat.ltb_irrefl.
    destruct (buf_append_spec out (slice (pos - n) n B) Hwf) as [W1 W2]. split; [done|]. rewrite W2. f_equal.
    rewrite lastn_app_le by (rewrite length_take; lia). unfold slice, lastn. rewrite length_take, take_drop_commute.
    f_equal; [lia|]. f_equal. lia.
  - replace (Z.of_nat pos + Z.of_nat (length B) - Z.of_nat n) with (Z.of_nat (pos + length B - n)) by lia.
    rewrite Z.mod_small, Nat2Z.id by lia.
    replace (n `min` (length B - (pos + length B - n)))%nat with (n - pos)%nat by lia.
    destruct (buf_append_spec out (slice (pos + length B - n) (n - pos) B) Hwf) as [W1 W2].
    assert (Hs : slice (pos + length B - n) (n - pos) B = lastn (n - pos) (drop pos B)).
    { unfold slice, lastn. rewrite firstn_all2 by (rewrite length_drop; lia). rewrite drop_drop, length_drop. f_equal. lia. }
    rewrite (lastn_app_ge n) by (rewrite length_take; lia). rewrite length_take, Nat.min_l by lia.
    destruct (n - pos <? n)%nat eqn:El; bool_facts.
    + destruct (buf_append_spec _ (slice 0 (n - (n - pos)) B) W1) as [W3 W4]. split; [done|].
      rewrite W4, W2, Hs, <- app_assoc. do 2 f_equal. unfold slice. rewrite drop_0. f_equal. lia.
    + split; [done|]. rewrite W2, Hs. replace pos with 0%nat by lia. by rewrite take_0, app_nil_r.
Qed.

(** ** The replicas *)

Lemma feed_replicas_conn bytes_ r c k :
  conns r !! c = Some k ->
  conns (repl_feed_replicas bytes_ r) !! c = Some (if decide (c ∈ replicas r) then feed_conn bytes_ k else k).
Proof.
  intros Hk. unfold repl_feed_replicas. cbn [with_conns conns].
  refine (set_fold_ind_L (fun m X => m !! c = Some (if decide (c ∈ X) then feed_conn bytes_ k else k)) _ _ _ _ (replicas r)).
  - by rewrite decide_False by apply not_elem_of_empty.
  - intros x X m Hx IH. destruct (decide (x = c)) as [->|Hne].
    + rewrite lookup_alter_eq, IH. rewrite decide_False by done.
      rewrite decide_True by (apply elem_of_union_l, elem_of_singleton; done). done.
    + rewrite lookup_alter_ne, IH by done. f_equal.
      destruct (decide (c ∈ X)) as [Hc|Hc]; [by rewrite decide_True by (by apply elem_of_union_r)|].
      rewrite decide_False; [done|]. rewrite elem_of_union, elem_of_singleton. naive_solver.
Qed.

(** An attached replica with [got] delivered so far. *)
Definition attached (r : Repl) (c : nat) (got : bytes) : Prop :=
  c ∈ replicas r /\ exists k, conns r !! c = Some k /\ wf (outgoing k) /\ content (outgoing k) = got.

Lemma propagate_stream base S data r :
  stream_ok base S r -> base + Z.of_nat (length S) + Z.of_nat (length data) < 2 ^ 64 - 1 ->
  stream_ok base (S ++ data) (propagate data r) /\
  (forall c got, attached r c got -> attached (propagate data r) c (got ++ data)).
Proof.
  intros Hs Hlt. unfold propagate. set (r1 := if aof_enable r then _ else r).
  assert (Hs1 : stream_ok base S r1) by (unfold r1; destruct (aof_enable r); [destruct Hs; by split|done]).
  assert (Hc1 : conns r1 = conns r /\ replicas r1 = replicas r) by (unfold r1; by destruct (aof_enable r)).
  pose proof (feed_stream base S data r1 Hs1 Hlt) as Hs2.
  destruct Hs1 as [Hb Ho Hr Hc Hp Hh Hring]. destruct (feed_fields data r1) as (_ & _ & F3 & F4 & _); [lia|lia|lia|].
  destruct Hc1 as [Hc1 Hc2]. rewrite F4, Hc2. split.
  - case_bool_decide; [done|]. destruct Hs2. by split.
  - intros c got (Hin & k & Hk & Hwf & Hgot). rewrite bool_decide_eq_false_2 by (intros Hx; rewrite Hx in Hin; by apply not_elem_of_empty in Hin).
    split; [unfold repl_feed_replicas; cbn; by rewrite F4, Hc2|].
    exists (feed_conn data k). rewrite (feed_replicas_conn _ _ _ k) by (by rewrite F3, Hc1).
    rewrite F4, Hc2, decide_True by done. split; [done|]. destruct (buf_append_spec (outgoing k) data Hwf) as [W1 W2].
    cbn [feed_conn outgoing]. split; [done|]. by rewrite W2, Hgot.
Qed.

(** ** PSYNC *)

(** The offset from which the server may continue: the replica names our
    history (or the retired one, up to the promotion) and misses only bytes
    the ring still holds. *)
Definition continue_from (r : Repl) (id off : bytes) : option Z :=
  match parse_int_strict off with
  | Some want =>
      if negb (bool_decide (id = bs "?")) && negb (length (repl_backlog r) =? 0)%nat &&
         (bool_decide (id = repl_id r) ||
          (negb (bool_decide (repl_id2 r = [])) && bool_decide (id = repl_id2 r) && (want <=? second_repl_offset r))) &&
         (0 <? want) && (want <=? master_repl_offset r + 1) &&
         (master_repl_offset r + 1 - want <=? Z.of_nat (repl_backlog_histlen r))
      then Some want else None
  | None => None
  end.

Definition full_sync_bytes (r : Repl) (img : bytes) : bytes :=
  (bs "+FULLRESYNC " ++ repl_id r ++ bs " " ++ print_u64 (master_repl_offset r) ++ crlf) ++
  (bs "$" ++ print_u64 (Z.of_nat (length img)) ++ crlf) ++ img.

Lemma length_dec_digits fuel n acc : (length (dec_digits fuel n acc) <= fuel + length acc)%nat.
Proof.
  revert n acc. induction fuel as [|f IH]; intros n acc; cbn [dec_digits]; [lia|]. destruct (_ <? _); [cbn; lia|].
  etrans; [apply IH|]. cbn. lia.
Qed.

Lemma line128_fits (a b : bytes) n : (length a + length b <= 100)%nat -> (length n <= 20)%nat -> line128 (a ++ b ++ n ++ crlf) = Some (a ++ b ++ n ++ crlf).
Proof.
  intros H1 H2. unfold line128. rewrite !length_app. change (length crlf) with 2%nat.
  assert ((length a + (length b + (length n + 2)) <? 128)%nat = true) as ->; [apply Nat.ltb_lt; lia|done].
Qed.

Lemma attach_spec base S r c out got :
  stream_ok base S r -> wf out -> content out = got -> stream_ok base S (attach c out r) /\ attached (attach c out r) c got.
Proof.
  intros Hs Hwf Hg. split; [destruct Hs; by split|]. split; [cbn; by apply elem_of_union_l, elem_of_singleton|].
  eexists. cbn. by rewrite lookup_insert_eq.
Qed.

Lemma attached_counts r c got f p e : attached r c got -> attached (with_counts f p e r) c got.
Proof. done. Qed.

Lemma stream_counts base S r f p e : stream_ok base S r -> stream_ok base S (with_counts f p e r).
Proof. intros []. by split. Qed.

Lemma psync_full_spec base S r c k img :
  stream_ok base S r -> conns r !! c = Some k -> wf (outgoing k) -> (length (repl_id r) <= 40)%nat ->
  exists r', psync_full c img r = Some r' /\ stream_ok base S r' /\
    attached r' c (content (outgoing k) ++ full_sync_bytes r img).
Proof.
  intros Hs Hk Hwf Hid. unfold psync_full, conn_out. rewrite Hk. cbn [fmap option_fmap option_map default].
  set (hdr := bs "+FULLRESYNC " ++ _).
  assert (Hl : line128 hdr = Some hdr).
  { unfold hdr. rewrite (app_assoc (repl_id r)). rewrite (app_assoc (bs "+FULLRESYNC ")), <- (app_nil_l (_ ++ crlf)).
    rewrite (app_assoc _ []). rewrite <- app_assoc. apply line128_fits.
    - rewrite !length_app. cbn. lia.
    - apply (length_dec_digits 20 _ []). }
  rewrite Hl. cbn [mbind option_bind]. eexists. split; [done|].
  destruct (buf_append_spec (outgoing k) hdr Hwf) as [A1 A2].
  destruct (buf_append_spec _ (bs "$" ++ print_u64 (Z.of_nat (length img)) ++ crlf) A1) as [B1 B2].
  destruct (buf_append_spec _ img B1) as [C1 C2].
  destruct (attach_spec base S r c _ (content (outgoing k) ++ full_sync_bytes r img) Hs C1) as [D1 D2].
  { rewrite C2, B2, A2. unfold full_sync_bytes. fold hdr. by rewrite <- !app_assoc. }
  by split; [apply stream_counts|].
Qed.

(** The bytes sent before the stream goes on live. *)
Definition sync_bytes (base : Z) (S : bytes) (r : Repl) (id off img : bytes) : bytes :=
  match continue_from r id off with
  | Some want => (bs "+CONTINUE " ++ repl_id r ++ crlf) ++ drop (Z.to_nat (want - 1 - base)) S
  | None => full_sync_bytes r img
  end.

Lemma continue_test base S r id off :
  stream_ok base S r -> bool_decide (id = bs "?") || (length (repl_backlog r) =? 0)%nat = false ->
  let parsed := parse_int_strict off in
  let off_ok := match parsed with Some o => 0 <? o | None => false end in
  let want := if off_ok then default 0 parsed else 0 in
  let next := u64 (master_repl_offset r + 1) in
  (bool_decide (id = repl_id r) ||
   (negb (bool_decide (repl_id2 r = [])) && bool_decide (id = repl_id2 r) && (want <=? second_repl_offset r))) &&
  off_ok && (want <=? next) && (u64 (next - want) <=? Z.of_nat (repl_backlog_histlen r)) =
  match continue_from r id off with Some _ => true | None => false end /\
  (forall x, continue_from r id off = Some x -> want = x /\ next = master_repl_offset r + 1 /\ 0 < x <= next /\
     u64 (next - x) = next - x /\ next - x <= Z.of_nat (repl_backlog_histlen r)).
Proof.
  intros [Hb Ho Hr Hc Hp Hh Hring] Hq. cbn zeta. apply orb_false_elim in Hq as [Hq1 Hq2].
  rewrite (u64_small (master_repl_offset r + 1)) by lia. unfold continue_from. rewrite Hq1, Hq2. cbn [negb andb].
  destruct (parse_int_strict off) as [want|]; [|split; [by rewrite andb_false_r|done]]. change (default 0 (Some want)) with want.
  destruct (0 <? want) eqn:E0; [|split; [by rewrite !andb_false_r|by rewrite andb_false_r]]. bool_facts.
  change (if true then want else 0) with want. rewrite !andb_true_r. set (idok := _ || _). destruct (want <=? master_repl_offset r + 1) eqn:E1; bool_facts.
  - rewrite (u64_small (master_repl_offset r + 1 - want)) by lia. rewrite !andb_true_r.
    destruct idok; cbn [andb]; [|done]. destruct (_ <=? Z.of_nat _) eqn:E2; bool_facts; [|done]. split; [done|].
    intros x [= <-]. split_and!; try lia. apply u64_small. lia.
  - rewrite !andb_false_r. done.
Qed.

Lemma psync_spec base S r c k id off img :
  stream_ok base S r -> conns r !! c = Some k -> wf (outgoing k) -> (length (repl_id r) <= 40)%nat ->
  exists r', psync_resync id off c img r = Some r' /\ stream_ok base S r' /\
    attached r' c (content (outgoing k) ++ sync_bytes base S r id off img).
Proof.
  intros Hs Hk Hwf Hid. unfold psync_resync, sync_bytes. destruct (_ || _) eqn:Eq.
  { assert (continue_from r id off = None) as ->; [|by apply psync_full_spec].
    unfold continue_from. destruct (parse_int_strict off); [|done]. rewrite <- negb_orb, Eq. done. }
  destruct (continue_test base S r id off Hs Eq) as [-> Hx]. destruct (continue_from r id off) as [want|] eqn:Ec.
  - destruct (Hx want eq_refl) as (-> & -> & Hw & Hu & Hle). rewrite Hu.
    rewrite <- (app_nil_l crlf). rewrite line128_fits by (cbn; lia). cbn [mbind option_bind app]. eexists. split; [done|].
    unfold conn_out. rewrite Hk. cbn [fmap option_fmap option_map default].
    destruct (buf_append_spec (outgoing k) (bs "+CONTINUE " ++ repl_id r ++ crlf) Hwf) as [A1 A2].
    pose proof Hs as [Hb Ho Hr Hc Hp Hh Hring]. apply orb_false_elim in Eq as [_ Eq]. apply Nat.eqb_neq in Eq.
    set (n := Z.to_nat (master_repl_offset r + 1 - want)).
    replace (master_repl_offset r + 1 - want) with (Z.of_nat n) by lia.
    destruct Hp as [Hp|Hp]; [|by rewrite Hp in Eq].
    destruct (copy_tail r n _ A1 Hp) as [B1 B2]; [lia|lia|].
    destruct (attach_spec base S r c _ (content (outgoing k) ++ (bs "+CONTINUE " ++ repl_id r ++ crlf) ++ drop (Z.to_nat (want - 1 - base)) S) Hs B1) as [D1 D2].
    { rewrite B2, A2, <- app_assoc. do 2 f_equal. rewrite <- (lastn_lastn n (repl_backlog_histlen r) (ring r)) by lia.
      rewrite Hring, lastn_lastn by lia. unfold lastn. f_equal. lia. }
    by split; [apply stream_counts|].
  - apply (psync_full_spec base S (with_counts _ _ _ r) c k img); try done. by apply stream_counts.
Qed.

(** ** Properties *)

Definition total (l : list bytes) : Z := Z.of_nat (length (concat l)).

Lemma propagate_all base S frames r :
  stream_ok base S r -> base + Z.of_nat (length S) + total frames < 2 ^ 64 - 1 ->
  let r' := foldl (fun r f => propagate f r) r frames in
  stream_ok base (S ++ concat frames) r' /\ (forall c got, attached r c got -> attached r' c (got ++ concat frames)).
Proof.
  unfold total. revert S r. induction frames as [|f frames IH]; intros S r Hs Hlt; cbn [foldl concat].
  { rewrite app_nil_r. split; [done|]. intros c got. by rewrite app_nil_r. }
  cbn [concat] in Hlt. rewrite length_app in Hlt.
  destruct (propagate_stream base S f r Hs) as [H1 H2]; [lia|].
  destruct (IH (S ++ f) (propagate f r) H1) as [H3 H4]; [rewrite length_app; lia|]. rewrite app_assoc. split; [done|].
  intros c got Ha. rewrite app_assoc. by apply H4, H2.
Qed.

(** A server at boot with a ring of [cap] bytes and one connection. *)
Definition repl0 (cap : nat) : Repl :=
  repl_init (replicate 40 7) cap
    (mkRepl [] [] 0 0 [] 0 0 {[1%nat := mkRConn (buf_create 16) false false]} ∅ 0 0 0 false false [] []).

Lemma repl0_stream cap : Z.of_nat cap < 2 ^ 62 -> stream_ok 0 [] (repl0 cap).
Proof.
  intros Hc. split; cbn [repl0 repl_init with_ring repl_backlog repl_backlog_pos repl_backlog_histlen repl_new_id with_ids master_repl_offset length];
    try done; rewrite ?length_replicate; [done| |].
  - destruct cap; [by right|left; lia].
  - unfold lastn. rewrite !drop_ge; [done| |]; lia.
Qed.

(** The backlog refines the stream.  From boot, after any writes, the ring
    holds the newest bytes of everything written, as many as fit; the offset
    counts all of them, the derived start offset names the oldest byte held,
    and [repl_backlog_copy] appends exactly the last bytes asked for. *)
Theorem backlog_refines_stream (cap : nat) (frames : list bytes) (n : nat) (out : Buffer)
    (Hcap : Z.of_nat cap < 2 ^ 62) (Htotal : total frames < 2 ^ 64 - 1) (Hout : wf out) :
  let r := foldl (fun r f => repl_backlog_feed f r) (repl0 cap) frames in
  let S := concat frames in
  let held := (length S `min` cap)%nat in
  master_repl_offset r = Z.of_nat (length S) /\ repl_backlog_histlen r = held /\
  ((0 < held)%nat -> repl_backlog_start_offset r = Z.of_nat (length S) - Z.of_nat held + 1) /\
  ((n <= held)%nat -> let out' := repl_backlog_copy r (Z.of_nat n) out in wf out' /\ content out' = content out ++ lastn n S).
Proof.
  cbn zeta. assert (Hr : forall frames S r, stream_ok 0 S r -> length (repl_backlog r) = cap ->
    Z.of_nat (length S) + total frames < 2 ^ 64 - 1 ->
    stream_ok 0 (S ++ concat frames) (foldl (fun r f => repl_backlog_feed f r) r frames) /\
    length (repl_backlog (foldl (fun r f => repl_backlog_feed f r) r frames)) = cap).
  { unfold total. clear. induction frames as [|f frames IH]; intros S r Hs Hl Hlt; cbn [foldl concat]; [by rewrite app_nil_r|].
    cbn [concat] in Hlt. rewrite length_app in Hlt. rewrite app_assoc. apply IH.
    - apply feed_stream; [done|lia].
    - destruct (so_pos _ _ _ Hs) as [Hp|Hp]; [by rewrite <- Hl; apply feed_ring|].
      unfold repl_backlog_feed. destruct (length f =? 0)%nat; [done|]. cbn [with_offset repl_backlog]. rewrite Hp. cbn. by rewrite Hp, <- Hl, Hp.
    - rewrite length_app. lia. }
  destruct (Hr frames [] (repl0 cap) (repl0_stream cap Hcap)) as [Hs Hl]; [cbn; apply length_replicate|cbn; lia|].
  clear Hr. set (r := foldl _ _ frames) in *. cbn [app] in Hs. destruct Hs as [Hb Ho Hrange Hc Hp Hh Hring]. rewrite Hl in Hh.
  split; [lia|]. split; [done|]. split.
  - intros Hpos. unfold repl_backlog_start_offset. destruct (_ =? 0)%nat eqn:E; bool_facts; [lia|]. rewrite u64_small by lia. lia.
  - intros Hn. destruct Hp as [Hp|Hp]; [|rewrite Hp in Hl; cbn in Hl].
    + destruct (copy_tail r n out Hout Hp) as [C1 C2]; [lia|lia|]. split; [done|]. rewrite C2.
      rewrite <- (lastn_lastn n (repl_backlog_histlen r) (ring r)), Hring, lastn_lastn by lia. done.
    + replace n with 0%nat by lia. cbn. split; [done|]. unfold lastn. rewrite drop_ge by lia. by rewrite app_nil_r.
Qed.

Lemma backlog_refines_stream_witness :
  let frames := [bs "hello"; bs "world!!"; bs "abc"] in
  let r := foldl (fun r f => repl_backlog_feed f r) (repl0 8) frames in
  let S := concat frames in
  (let held := (length S `min` 8)%nat in
   master_repl_offset r = Z.of_nat (length S) /\ repl_backlog_histlen r = held /\
   ((0 < held)%nat -> repl_backlog_start_offset r = Z.of_nat (length S) - Z.of_nat held + 1) /\
   ((6 <= held)%nat -> let out' := repl_backlog_copy r (Z.of_nat 6) (buf_create 4) in
      wf out' /\ content out' = content (buf_create 4) ++ lastn 6 S)) /\
  lastn 6 S = bs "d!!abc".
Proof.
  split; [|reflexivity].
  apply (backlog_refines_stream 8 [bs "hello"; bs "world!!"; bs "abc"] 6 (buf_create 4)); [lia|reflexivity|apply buf_create_wf].
Defined.

(** C8: PSYNC leaves no gap and repeats nothing.  A replica that asks to
    continue at offset [want] of a history this server has, with every missing
    byte still in the ring, receives the acknowledgement and then exactly the
    stream from [want] on, followed by every later write in order; any other
    replica receives a full image and then every later write. *)
Theorem psync_stream_exact (base : Z) (S : bytes) (r : Repl) (c : nat) (k : RConn) (id off img : bytes) (frames : list bytes)
    (Hs : stream_ok base S r) (Hk : conns r !! c = Some k) (Hwf : wf (outgoing k)) (Hid : (length (repl_id r) <= 40)%nat)
    (Htotal : base + Z.of_nat (length S) + total frames < 2 ^ 64 - 1) :
  exists r', psync_resync id off c img r = Some r' /\
  let r'' := foldl (fun r f => propagate f r) r' frames in
  stream_ok base (S ++ concat frames) r'' /\
  attached r'' c (content (outgoing k) ++
    match continue_from r id off with
    | Some want => (bs "+CONTINUE " ++ repl_id r ++ crlf) ++ drop (Z.to_nat (want - 1 - base)) (S ++ concat frames)
    | None => full_sync_bytes r img ++ concat frames
    end).
Proof.
  destruct (psync_spec base S r c k id off img Hs Hk Hwf Hid) as (r' & Hr & Hs' & Ha). exists r'. split; [done|]. cbn zeta.
  destruct (propagate_all base S frames r' Hs' Htotal) as [H1 H2]. split; [done|]. apply H2 in Ha. unfold sync_bytes in Ha.
  destruct (continue_from r id off) as [want|] eqn:Ec; [|by rewrite <- app_assoc in Ha].
  rewrite (drop_app_le S) by (pose proof (so_hist _ _ _ Hs); pose proof (so_offset _ _ _ Hs); unfold continue_from in Ec;
    destruct (parse_int_strict off) as [x|]; [|done]; destruct (_ && _) eqn:Eb; [|done]; injection Ec as <-; bool_facts; lia).
  rewrite <- !app_assoc. rewrite <- !app_assoc in Ha. exact Ha.
Qed.

Lemma psync_stream_exact_witness :
  let r := propagate (bs "abcdef") (repl0 8) in
  let id := repl_id r in
  exists r', psync_resync id (bs "3") 1 (bs "IMG") r = Some r' /\
  let r'' := foldl (fun r f => propagate f r) r' [bs "gh"; bs "ij"] in
  stream_ok 0 (bs "abcdef" ++ concat [bs "gh"; bs "ij"]) r'' /\
  attached r'' 1 (content (buf_create 16) ++
    match continue_from r id (bs "3") with
    | Some want => (bs "+CONTINUE " ++ repl_id r ++ crlf) ++ drop (Z.to_nat (want - 1 - 0)) (bs "abcdef" ++ concat [bs "gh"; bs "ij"])
    | None => full_sync_bytes r (bs "IMG") ++ concat [bs "gh"; bs "ij"]
    end).
Proof.
  apply (psync_stream_exact 0 (bs "abcdef") (propagate (bs "abcdef") (repl0 8)) 1
           (mkRConn (buf_create 16) false false) _ (bs "3") (bs "IMG") [bs "gh"; bs "ij"]).
  - apply (propagate_stream 0 [] (bs "abcdef") (repl0 8)); [apply repl0_stream; lia|cbn; lia].
  - vm_compute. reflexivity.
  - apply buf_create_wf.
  - vm_compute. lia.
  - reflexivity.
Defined.
