(* ===== verification/Aof.v ===== *)
(** * The command log (src/src/commands/commands.cpp 4563-4646, src/src/persistence/aof.{h,cpp})

    What is written to the append-only file and to the replicas for a command
    ([propagate_cmd]: relative times become absolute), and the loader that
    replays the file at boot ([aof_load]). *)
From S2P Require Import Prelude Buffer Resp StdString Deque Hashtable HashMap Heap Score ZSet HashSet State World Args Strings Lists Glob Keys Containers Hashes Sets CText CmdTable Handlers Double Crc32 Rdb Backlog.

(** ** Writing *)

(** [aof_encode(dst, args)]: one RESP array appended to a string. *)
Definition aof_encode (dst : bytes) (args : list bytes) : bytes :=
  foldl (fun dst a => dst ++ (bs "$" ++ print_u64 (Z.of_nat (length a)) ++ crlf) ++ a ++ crlf)
    (dst ++ bs "*" ++ print_u64 (Z.of_nat (length args)) ++ crlf) args.

Definition nth_arg (cmd : list bytes) (i : nat) : bytes := default [] (cmd !! i).

(** The commands logged for [cmd], whose name is canonical; [now] is the wall
    clock.  The sums and products are [int64_t]. *)
Definition propagate_frames (now : Z) (cmd : list bytes) : list (list bytes) :=
  let name := nth_arg cmd 0 in
  let a := nth_arg cmd in
  let named s := bool_decide (name = bs s) in
  if named "expire" || named "pexpire" || named "expireat" then
    match str2int (a 2%nat) with
    | Some v =>
        let abs_ms := if named "expire" then i64 (now + i64 (v * 1000))
                      else if named "pexpire" then i64 (now + v) else i64 (v * 1000) in
        [[bs "PEXPIREAT"; a 1%nat; print_i64 abs_ms]]
    | None => [cmd]
    end
  else if named "set" && (3 <? length cmd)%nat then
    match parse_set_opts (s_copy <$> cmd) now with
    | inl _ => [cmd]
    | inr o =>
        if has_exp o && (abs_ms o <=? now) then [[bs "DEL"; a 1%nat]]
        else if has_exp o then [[bs "SET"; a 1%nat; a 2%nat; bs "PXAT"; print_i64 (abs_ms o)]]
        else if keepttl o then [[bs "SET"; a 1%nat; a 2%nat; bs "KEEPTTL"]]
        else [[bs "SET"; a 1%nat; a 2%nat]]
    end
  else if named "setex" || named "psetex" then
    match str2int (a 2%nat) with
    | Some v =>
        let abs_ms := if named "setex" then i64 (now + i64 (v * 1000)) else i64 (now + v) in
        [[bs "SET"; a 1%nat; a 3%nat]; [bs "PEXPIREAT"; a 1%nat; print_i64 abs_ms]]
    | None => [cmd]
    end
  else if named "getex" && (3 <=? length cmd)%nat then
    let opt := map tolower (a 2%nat) in
    if bool_decide (opt = bs "persist") then [[bs "PERSIST"; a 1%nat]]
    else if (4 <=? length cmd)%nat then
      match str2int (a 3%nat) with
      | Some v =>
          let abs_ms := if bool_decide (opt = bs "ex") then i64 (now + i64 (v * 1000))
                        else if bool_decide (opt = bs "px") then i64 (now + v)
                        else if bool_decide (opt = bs "exat") then i64 (v * 1000) else v in
          if abs_ms <=? now then [[bs "DEL"; a 1%nat]] else [[bs "PEXPIREAT"; a 1%nat; print_i64 abs_ms]]
      | None => [cmd]
      end
    else [cmd]
  else [cmd].

Definition propagate_cmd (now : Z) (cmd : list bytes) (r : Repl) : Repl :=
  propagate (foldl aof_encode [] (propagate_frames now cmd)) r.

(** ** Replaying *)

Section Load.
Context {W : Type} (run : list bytes -> W -> W).

(** The loop of [aof_load]: the state and [good_offset].  Every round consumes
    a byte, so the length of the buffer is fuel enough. *)
Fixpoint aof_replay (fuel : nat) (buf : bytes) (good_offset : nat) (w : W) : W * nat :=
  match fuel with
  | O => (w, good_offset)
  | S fuel' =>
      if (length buf =? 0)%nat then (w, good_offset)
      else
        let '(consumed, cmd) := parse_resp_request buf in
        if (consumed =? 0) || (consumed <? 0) then (w, good_offset)
        else aof_replay fuel' (drop (Z.to_nat consumed) buf) (good_offset + Z.to_nat consumed) (run cmd w)
  end.

End Load.

Section Replay.
(** The handlers that are not modelled. *)
Context (other : bytes -> Handler).

(** [do_request] under the loader: a superuser, and [g_loading] switches off
    the role, replica, memory, notification and logging steps.  The log holds
    canonical names, found in the table whatever the renames. *)
Definition replay_request (cmd : list bytes) : M () :=
  match cmd with
  | [] => r_err (bs "ERR empty command")
  | name :: args =>
      let name := map tolower name in
      match find_row name cmd_table with
      | None => r_err (bs "ERR unknown command")
      | Some spec =>
          let argc := Z.of_nat (length cmd) in
          if (argc <? min_args spec) || (negb (max_args spec =? -1) && (max_args spec <? argc))
          then r_err (bs "ERR wrong number of arguments")
          else cmd_fn other name (s_copy <$> (name :: args))
      end
  end.

Definition replay_all (cmds : list (list bytes)) (w : World) : World :=
  foldl (fun w cmd => (replay_request cmd w).2) w cmds.

(** One round of the loop: [do_request] into the sink, the count of the error
    replies, and the sink drained. *)
Record Replay := mkReplay { rw : World; replayed : nat; ttl_races : nat; replay_error : nat }.

Definition no_such_key : bytes := bs "-ERR no such key".

Definition replay_one (cmd : list bytes) (st : Replay) : Replay :=
  let w := (replay_request cmd (rw st)).2 in
  let sink := Buffer.content (out w) in
  let is_error := bool_decide (take 1 sink = bs "-") in
  let name := map tolower (nth_arg cmd 0) in
  let ttl_race := (bool_decide (name = bs "rename") || bool_decide (name = bs "renamenx")) &&
    (16 <=? length sink)%nat && bool_decide (take 16 sink = no_such_key) in
  let w := with_out (buf_consume (out w) (buf_size (out w))) w in
  mkReplay w (replayed st + 1) (if is_error && ttl_race then ttl_races st + 1 else ttl_races st)
    (if is_error && negb ttl_race then replay_error st + 1 else replay_error st).

Definition aof_magic : bytes := bs "MYAOFRDB".

(** [aof_load] on the bytes of the file: its result, the server's state, and
    the length the file is trimmed to when its tail is bad.  [uncompress] is
    zlib's, for the preamble. *)
Definition aof_load (uncompress : bytes -> nat -> option bytes) (raw : bytes) (w : World) : bool * World * option nat :=
  let sz := length raw in
  if (sz =? 0)%nat then (true, w, None)
  else
    let replay resp_offset w :=
      let tail := drop resp_offset raw in
      let '(st, good_offset) := aof_replay replay_one (length tail) tail 0
        (mkReplay (with_out (buf_create 4096) w) 0 0 0) in
      let good_total := (resp_offset + good_offset)%nat in
      ((replay_error st =? 0)%nat, with_writes 0 (rw st), if (good_total <? sz)%nat then Some good_total else None) in
    if (16 <=? sz)%nat && bool_decide (take 8 raw = aof_magic) then
      let rdb_len := le_val (slice 8 8 raw) in
      if Z.of_nat sz - 16 <? rdb_len then (false, w, None)
      else
        match rdb_load_buffer uncompress (env w) (slice 16 (Z.to_nat rdb_len) raw) (ks w) with
        | (ROk _, s) => replay (16 + Z.to_nat rdb_len)%nat (with_ks s w)
        | (_, s) => (false, with_ks s w, None)
        end
    else replay 0%nat w.
End Replay.

(** ** The log on disk *)

Lemma bulk_eq a : bulk a = (bs "$" ++ print_u64 (Z.of_nat (length a)) ++ crlf) ++ a ++ crlf.
Proof. unfold bulk. change (bs "$") with [c_dollar]. by rewrite <- !app_assoc. Qed.

Lemma aof_encode_frame dst args : aof_encode dst args = dst ++ frame args.
Proof.
  unfold aof_encode, frame. assert (Hgen : forall l d, foldl (fun dst a => dst ++ (bs "$" ++ print_u64 (Z.of_nat (length a)) ++ crlf) ++ a ++ crlf) d l
    = d ++ concat (bulk <$> l)).
  { induction l as [|a l IH]; intros d; cbn [foldl fmap list_fmap concat]; [by rewrite app_nil_r|].
    by rewrite IH, <- bulk_eq, <- app_assoc. }
  rewrite Hgen. change (bs "*") with [c_star]. by rewrite <- !app_assoc.
Qed.

Definition log_of (cmds : list (list bytes)) : bytes := concat (frame <$> cmds).

Lemma encode_all frames : foldl aof_encode [] frames = log_of frames.
Proof.
  assert (Hgen : forall l d, foldl aof_encode d l = d ++ log_of l).
  { induction l as [|f l IH]; intros d; cbn [foldl]; [unfold log_of; cbn; by rewrite app_nil_r|].
    rewrite IH, aof_encode_frame, <- app_assoc. done. }
  apply Hgen.
Qed.

Lemma frame_positive cmd : (0 < length (frame cmd))%nat.
Proof. unfold frame. cbn. lia. Qed.

Lemma log_of_cons cmd cmds : log_of (cmd :: cmds) = frame cmd ++ log_of cmds.
Proof. done. Qed.

(** Cutting a list of appended pieces. *)
Lemma log_of_app a b : log_of (a ++ b) = log_of a ++ log_of b.
Proof. unfold log_of. by rewrite fmap_app, concat_app. Qed.

Lemma app_cut {A} (p q x y : list A) :
  p ++ q = x ++ y -> (exists p', p = x ++ p' /\ p' ++ q = y) \/ (exists q', x = p ++ q' /\ q' <> []).
Proof.
  revert p. induction x as [|a x IH]; intros p H; [left; by exists p|]. destruct p as [|b p]; [right; by exists (a :: x)|].
  injection H as -> H. destruct (IH p H) as [(p' & -> & Hp)|(q' & -> & Hq)]; [left; by exists p'|right; by exists q'].
Qed.

Lemma replay_prefix {W} (run : list bytes -> W -> W) cmds : forall p q fuel good w,
  Forall args_ok cmds -> p ++ q = log_of cmds -> (length p <= fuel)%nat ->
  exists k, (k <= length cmds)%nat /\
    aof_replay run fuel p good w = (foldl (fun w cmd => run cmd w) w (take k cmds), (good + length (log_of (take k cmds)))%nat) /\
    (length (log_of (take k cmds)) <= length p)%nat /\
    ((k < length cmds)%nat -> (length p < length (log_of (take (S k) cmds)))%nat).
Proof.
  induction cmds as [|cmd cmds IH]; intros p q fuel good w Hok Hpq Hf.
  { apply app_eq_nil in Hpq as [-> ->]. exists 0%nat. split; [cbn; lia|]. split; [|cbn; split; lia].
    rewrite Nat.add_0_r. by destruct fuel. }
  apply Forall_cons in Hok as [Hc Hok]. rewrite log_of_cons in Hpq.
  destruct (app_cut p q (frame cmd) (log_of cmds) Hpq) as [(p' & -> & Hp')|(q' & Hq' & Hne)].
  - pose proof (frame_positive cmd) as Hpos. rewrite length_app in Hf. destruct fuel as [|fuel]; [lia|].
    destruct (IH p' q fuel (good + length (frame cmd))%nat (run cmd w) Hok Hp') as (k & Hk & Hrun & Hle & Hlt); [lia|].
    exists (S k). split; [cbn; lia|]. cbn [take]. rewrite log_of_cons, !length_app. split; [|split].
    + cbn [aof_replay]. rewrite length_app, (parse_frame cmd p' Hc).
      assert ((length (frame cmd) + length p' =? 0)%nat = false) as -> by (apply Nat.eqb_neq; lia).
      assert ((Z.of_nat (length (frame cmd)) =? 0) || (Z.of_nat (length (frame cmd)) <? 0) = false) as -> by lia.
      rewrite Nat2Z.id, drop_app_length, Hrun. cbn [foldl]. by rewrite Nat.add_assoc.
    + lia.
    + cbn [length]. intros Hk'. specialize (Hlt ltac:(lia)). cbn [take] in *. rewrite log_of_cons, length_app. lia.
  - exists 0%nat. split; [lia|]. split; [|split; [cbn; lia|]].
    + cbn [take foldl]. rewrite Nat.add_0_r. destruct fuel as [|fuel]; [done|]. cbn [aof_replay].
      destruct (length p =? 0)%nat; [done|]. pose proof (parse_prefix cmd p q' Hc (eq_sym Hq') Hne) as H0.
      destruct (parse_resp_request p) as [consumed c]. cbn [fst] in H0. by rewrite H0.
    + intros _. cbn [take]. rewrite log_of_cons, length_app. rewrite Hq', length_app.
      destruct q'; [done|]. cbn. lia.
Qed.

(** A log without preamble starts with a star. *)
Lemma log_head n cmds : (0 < n)%nat -> cmds <> [] -> exists t, take n (log_of cmds) = c_star :: t.
Proof. destruct n, cmds; intros; [lia..|done|]. rewrite log_of_cons. by eexists. Qed.

Lemma aof_load_plain other uncompress p w :
  (exists t, p = c_star :: t) ->
  aof_load other uncompress p w =
    let '(st, good) := aof_replay (replay_one other) (length p) p 0 (mkReplay (with_out (buf_create 4096) w) 0 0 0) in
    ((replay_error st =? 0)%nat, with_writes 0 (rw st), if (good <? length p)%nat then Some good else None).
Proof.
  intros [t ->]. unfold aof_load. assert ((length (c_star :: t) =? 0)%nat = false) as -> by done.
  rewrite (bool_decide_eq_false_2 (take 8 _ = aof_magic)) by (cbn; discriminate). by rewrite andb_false_r.
Qed.

(** ** Replaying the commands with a time to live *)

(** The view with deadlines on the wall clock, which all servers share. *)
Definition to_wall (w : World) (x : AVal * option Z) : AVal * option Z :=
  (x.1, (fun t => t - now (env w) + wall (env w)) <$> x.2).
Definition wview (w : World) : gmap bytes (AVal * option Z) := to_wall w <$> view w.

(** What is left of it at wall time [T]. *)
Definition alive (T : Z) (x : AVal * option Z) : option (AVal * option Z) :=
  match x.2 with Some t => if decide (T < t) then Some x else None | None => Some x end.
Definition live_at (T : Z) (m : gmap bytes (AVal * option Z)) : gmap bytes (AVal * option Z) := omap (alive T) m.

Lemma live_at_insert T k x m :
  live_at T (<[k := x]> m) = match alive T x with Some y => <[k := y]> (live_at T m) | None => delete k (live_at T m) end.
Proof.
  unfold live_at. apply map_eq. intros j. rewrite lookup_omap. destruct (decide (j = k)) as [->|Hne].
  - rewrite lookup_insert_eq. cbn. destruct (alive T x); [by rewrite lookup_insert_eq|by rewrite lookup_delete_eq].
  - rewrite lookup_insert_ne by done. destruct (alive T x); [rewrite lookup_insert_ne by done|rewrite lookup_delete_ne by done];
      by rewrite lookup_omap.
Qed.

Lemma live_at_delete T k m : live_at T (delete k m) = delete k (live_at T m).
Proof.
  unfold live_at. apply map_eq. intros j. rewrite lookup_omap. destruct (decide (j = k)) as [->|Hne].
  - by rewrite !lookup_delete_eq.
  - by rewrite !lookup_delete_ne, lookup_omap.
Qed.

(** Every key a server shows is alive there. *)
Lemma wview_live w : live_at (wall (env w)) (wview w) = wview w.
Proof.
  apply map_eq. intros k. unfold live_at. rewrite lookup_omap. unfold wview. rewrite lookup_fmap.
  destruct (view w !! k) as [[v t]|] eqn:E; [|done]. cbn. apply lview_Some in E as (_ & Ht & Hx). unfold expired in Hx.
  rewrite Ht in Hx. destruct t as [t|]; [|done]. unfold alive, to_wall. cbn. rewrite decide_True; [done|]. lia.
Qed.

Lemma leaves_env w w' rep v n : leaves w w' rep v n -> env w' = env w /\ view w' = v.
Proof. intros (_ & Hv & _ & He & _). done. Qed.

(** An absolute deadline [abs] set on two servers that agree on the key. *)
Lemma after_ttl_wall w k ttl :
  (fun x => to_wall w x) <$> after_ttl w k ttl =
  match wview w !! k with
  | None => wview w
  | Some (v, _) => if ttl <=? 0 then delete k (wview w) else <[k := (v, Some (wall (env w) + ttl))]> (wview w)
  end.
Proof.
  unfold after_ttl, wview. rewrite lookup_fmap. destruct (view w !! k) as [[v t]|]; [|done]. cbn.
  destruct (ttl <=? 0); [by rewrite fmap_delete|]. rewrite fmap_insert. do 2 f_equal. unfold to_wall. cbn. do 2 f_equal. lia.
Qed.

Definition span_ok (v : Z) : Prop := - 2 ^ 50 <= v <= 2 ^ 50.

Lemma wall_span w v m : env_ok (env w) -> span_ok v -> (m = 1 \/ m = 1000) ->
  i64 (v * m) = v * m /\ i64 (wall (env w) + v * m) = wall (env w) + v * m /\
  INT64_MIN <= wall (env w) + v * m <= INT64_MAX.
Proof.
  intros [_ Hw] Hv Hm. unfold span_ok in Hv. unfold INT64_MIN, INT64_MAX.
  assert (- 2 ^ 60 <= v * m <= 2 ^ 60) by (destruct Hm as [-> | ->]; lia).
  rewrite !i64_small by (unfold INT64_MIN, INT64_MAX; lia). lia.
Qed.

(** [PEXPIREAT] at the replica, of the deadline the primary computed. *)
Lemma pexpireat_syncs other w r k ttl r' :
  world_ok r -> writes_ok r -> env_ok (env w) -> env_ok (env r) -> wall (env w) <= wall (env r) ->
  INT64_MIN <= wall (env w) + ttl <= INT64_MAX -> - 2 ^ 62 <= wall (env w) + ttl ->
  is_Some (wview r !! k) -> wview r = wview w ->
  (replay_request other [bs "PEXPIREAT"; k; print_i64 (wall (env w) + ttl)] r).2 = r' ->
  world_ok r' /\ writes_ok r' /\ env r' = env r /\
  wview r' = live_at (wall (env r)) (to_wall w <$> after_ttl w k ttl).
Proof.
  intros Hr Hn Hew Her Hle Habs Httl [[v t] Hk] Hsync <-.
  assert (Hrun : replay_request other [bs "PEXPIREAT"; k; print_i64 (wall (env w) + ttl)] r =
    do_pexpireat [s_copy (bs "pexpireat"); s_copy k; s_copy (print_i64 (wall (env w) + ttl))] r) by reflexivity.
  rewrite Hrun. clear Hrun. destruct (do_pexpireat _ r) as [[] r'] eqn:E. cbn [snd].
  pose proof (expireat_generic_leaves _ 1 r r' Hr Hn Her E) as Hl. cbn zeta in Hl.
  change (argd _ 2) with (print_i64 (wall (env w) + ttl)) in Hl. change (argd _ 1) with k in Hl.
  rewrite str2int_complete in Hl by done. rewrite Z.mul_1_r, (i64_small (wall (env w) + ttl)) in Hl by done.
  rewrite i64_small in Hl by (unfold INT64_MIN, INT64_MAX in *; destruct Hew, Her; lia).
  destruct (leaves_ok _ _ _ _ _ Hl) as [W1 W2]. destruct (leaves_env _ _ _ _ _ Hl) as [He Hv].
  split; [done|]. split; [done|]. split; [done|]. unfold wview at 1. rewrite Hv.
  assert (Hto : forall x, to_wall r' x = to_wall r x) by (intros x; unfold to_wall; by rewrite He).
  rewrite (map_fmap_ext _ (to_wall r)) by (intros; apply Hto). rewrite !after_ttl_wall, Hk, <- Hsync, Hk.
  pose proof (wview_live r) as Hlive. destruct (ttl <=? 0) eqn:E1.
  - rewrite live_at_delete, Hlive. assert (wall (env w) + ttl - wall (env r) <=? 0 = true) as -> by lia. done.
  - rewrite live_at_insert, Hlive. unfold alive. cbn [snd]. destruct (decide (wall (env r) < wall (env w) + ttl)) as [Ha|Ha].
    + assert (wall (env w) + ttl - wall (env r) <=? 0 = false) as -> by lia. do 3 f_equal. lia.
    + assert (wall (env w) + ttl - wall (env r) <=? 0 = true) as -> by lia. done.
Qed.

(** The primary ran [fn] on [cmd]; the replica ran what was logged. *)
Definition synced (other : bytes -> Handler) (w r : World) (fn : list sstr -> M ()) (cmd : list bytes) : Prop :=
  let w' := (fn (s_copy <$> cmd) w).2 in
  let r' := replay_all other (propagate_frames (wall (env w)) cmd) r in
  world_ok w' /\ world_ok r' /\ wview r' = live_at (wall (env r)) (wview w').

Record in_sync (w r : World) : Prop := {
  is_w : world_ok w /\ writes_ok w /\ room w /\ env_ok (env w);
  is_r : world_ok r /\ writes_ok r /\ room r /\ env_ok (env r);
  is_wall : wall (env w) <= wall (env r);
  is_view : wview r = wview w;
}.

Lemma wview_after w w' rep v n : leaves w w' rep v n -> wview w' = to_wall w <$> v.
Proof. intros (_ & Hv & _ & He & _). unfold wview. rewrite Hv. apply map_fmap_ext. intros. unfold to_wall. by rewrite He. Qed.

Lemma wview_some w k : is_Some (view w !! k) -> is_Some (wview w !! k).
Proof. intros H. unfold wview. rewrite lookup_fmap. by apply fmap_is_Some. Qed.

(** One absolute deadline, logged and replayed. *)
Lemma deadline_synced other w r fn cmd k ttl w' rep n :
  in_sync w r -> is_Some (view w !! k) -> - 2 ^ 62 <= wall (env w) + ttl -> INT64_MIN <= wall (env w) + ttl <= INT64_MAX ->
  propagate_frames (wall (env w)) cmd = [[bs "PEXPIREAT"; k; print_i64 (wall (env w) + ttl)]] ->
  fn (s_copy <$> cmd) w = ((), w') -> leaves w w' rep (after_ttl w k ttl) n -> synced other w r fn cmd.
Proof.
  intros [(W1 & W2 & W3 & W4) (R1 & R2 & R3 & R4) Hwall Hview] Hk Httl Habs Hframes Hrun Hl. unfold synced. rewrite Hframes, Hrun. cbn [snd].
  split; [apply Hl|]. cbn [replay_all foldl].
  destruct (pexpireat_syncs other w r k ttl (replay_request other [bs "PEXPIREAT"; k; print_i64 (wall (env w) + ttl)] r).2 R1 R2 W4 R4 Hwall Habs Httl)
    as (P1 & P2 & P3 & P4); [rewrite Hview; by apply wview_some|done|done|].
  split; [done|]. rewrite P4. by rewrite (wview_after _ _ _ _ _ Hl).
Qed.

(** A string and its deadline, logged as SET and PEXPIREAT. *)
Lemma setex_synced other w r fn cmd k v ttl w' :
  in_sync w r -> 0 < ttl <= 2 ^ 61 -> wall (env w) + ttl <= INT64_MAX ->
  propagate_frames (wall (env w)) cmd = [[bs "SET"; k; v]; [bs "PEXPIREAT"; k; print_i64 (wall (env w) + ttl)]] ->
  fn (s_copy <$> cmd) w = ((), w') ->
  leaves w w' resp_ok (<[k := (AStr v, Some (now (env w) + ttl))]> (view w)) 1 -> synced other w r fn cmd.
Proof.
  intros [(W1 & W2 & W3 & W4) (R1 & R2 & R3 & R4) Hwall Hview] Httl Habs Hframes Hrun Hl. unfold synced. rewrite Hframes, Hrun. cbn [snd].
  split; [apply Hl|]. cbn [replay_all foldl].
  assert (Hset : forall x, world_ok x -> room x -> env_ok (env x) -> exists x',
    replay_request other [bs "SET"; k; v] x = ((), x') /\ leaves x x' resp_ok (<[k := (AStr v, None)]> (view x)) 1).
  { intros x X1 X2 X3. destruct (replay_request other [bs "SET"; k; v] x) as [[] x'] eqn:E. exists x'. split; [done|].
    apply (do_set_leaves [s_copy (bs "set"); s_copy k; s_copy v] x x' X1 X2 X3); [done|apply s_copy_ok|exact E]. }
  destruct (Hset r R1 R3 R4) as (r1 & -> & Lr). destruct (Hset w W1 W3 W4) as (w1 & _ & Lw). cbn [snd].
  destruct (leaves_ok _ _ _ _ _ Lr) as [R5 R6]. destruct (leaves_env _ _ _ _ _ Lr) as [R7 R8].
  destruct (leaves_env _ _ _ _ _ Lw) as [W7 W8].
  assert (Hv1 : wview r1 = wview w1).
  { rewrite (wview_after _ _ _ _ _ Lr), (wview_after _ _ _ _ _ Lw), !fmap_insert. f_equal. exact Hview. }
  destruct (pexpireat_syncs other w1 r1 k ttl (replay_request other [bs "PEXPIREAT"; k; print_i64 (wall (env w) + ttl)] r1).2 R5 R6)
    as (P1 & P2 & P3 & P4); rewrite ?W7, ?R7; try done.
  - unfold INT64_MIN. destruct W4. lia.
  - destruct W4. lia.
  - apply wview_some. rewrite R8, lookup_insert_eq. by eexists.
  - split; [done|]. rewrite P4, R7, (wview_after _ _ _ _ _ Hl). f_equal.
    rewrite (map_fmap_ext (to_wall w1) (to_wall w)) by (intros; unfold to_wall; by rewrite W7). f_equal.
    unfold after_ttl. rewrite W8, lookup_insert_eq. assert (ttl <=? 0 = false) as -> by lia. by rewrite insert_insert_eq, W7.
Qed.

(** ** Properties *)

Definition no_other (name : bytes) : Handler := fun _ => mret ().

(** C14: What is logged for a command with a time to live has its effect.  A
    replica in step with the primary (same keys, values and wall-clock
    deadlines, its clock not behind), after the commands logged for EXPIRE,
    PEXPIRE or EXPIREAT of a live key, or for SETEX or PSETEX, shows exactly
    what the primary shows that is still alive at the replica's time: relative
    spans do not restart there. *)
Theorem ttl_commands_replicate (other : bytes -> Handler) (w r : World) (k arg v : bytes) (n : Z)
    (Hsync : in_sync w r) (Harg : str2int arg = Some n) (Hspan : span_ok n) :
  (is_Some (view w !! k) ->
     synced other w r do_expire [bs "expire"; k; arg] /\ synced other w r do_pexpire [bs "pexpire"; k; arg] /\
     synced other w r do_expireat [bs "expireat"; k; arg]) /\
  (0 < n -> synced other w r do_setex [bs "setex"; k; arg; v] /\ synced other w r do_psetex [bs "psetex"; k; arg; v]).
Proof.
  pose proof Hsync as [(W1 & W2 & W3 & W4) _ _ _]. pose proof W4 as [_ Hwall]. unfold span_ok in Hspan.
  destruct (wall_span w n 1000 W4 Hspan ltac:(by right)) as (S1 & S2 & S3).
  destruct (wall_span w n 1 W4 Hspan ltac:(by left)) as (T1 & T2 & T3). rewrite Z.mul_1_r in *.
  split.
  - intros Hk. split_and!.
    + destruct (do_expire (s_copy <$> [bs "expire"; k; arg]) w) as [[] w'] eqn:E.
      pose proof (expire_generic_leaves _ 1000 w w' W1 W2 W4 E) as Hl. cbn zeta in Hl.
      change (argd _ 2) with arg in Hl. change (argd _ 1) with k in Hl. rewrite Harg, S1 in Hl.
      eapply (deadline_synced other w r do_expire _ k (n * 1000)); [done|done|lia|done| |done|exact Hl].
      unfold propagate_frames, nth_arg. cbn [lookup list_lookup default from_option id]. cbn. rewrite Harg, S1, S2. done.
    + destruct (do_pexpire (s_copy <$> [bs "pexpire"; k; arg]) w) as [[] w'] eqn:E.
      pose proof (expire_generic_leaves _ 1 w w' W1 W2 W4 E) as Hl. cbn zeta in Hl.
      change (argd _ 2) with arg in Hl. change (argd _ 1) with k in Hl. rewrite Harg, Z.mul_1_r, T1 in Hl.
      eapply (deadline_synced other w r do_pexpire _ k n); [done|done|lia|done| |done|exact Hl].
      unfold propagate_frames, nth_arg. cbn. rewrite Harg, T2. done.
    + destruct (do_expireat (s_copy <$> [bs "expireat"; k; arg]) w) as [[] w'] eqn:E.
      pose proof (expireat_generic_leaves _ 1000 w w' W1 W2 W4 E) as Hl. cbn zeta in Hl.
      change (argd _ 2) with arg in Hl. change (argd _ 1) with k in Hl. rewrite Harg, S1 in Hl.
      rewrite i64_small in Hl by (unfold INT64_MIN, INT64_MAX; lia).
      eapply (deadline_synced other w r do_expireat _ k (n * 1000 - wall (env w))); [done|done|lia|unfold INT64_MIN, INT64_MAX; lia| |done|exact Hl].
      unfold propagate_frames, nth_arg. cbn. rewrite Harg, S1.
      by replace (wall (env w) + (n * 1000 - wall (env w))) with (n * 1000) by lia.
  - intros Hpos. assert (Hd : forall t, 0 < t -> deadline (now (env w)) t = Some (now (env w) + t))
      by (intros t Ht; unfold deadline; by assert (t <? 0 = false) as -> by lia).
    split.
    + destruct (do_setex (s_copy <$> [bs "setex"; k; arg; v]) w) as [[] w'] eqn:E.
      pose proof (setex_generic_leaves (s_copy <$> [bs "setex"; k; arg; v]) 1000 w w' W1 W2 W3 W4 (s_copy_ok v)) as Hl.
      change (argd _ 2) with arg in Hl. change (argd _ 1) with k in Hl. change (argd _ 3) with v in Hl.
      specialize (Hl ltac:(intros t Ht; rewrite Harg in Ht; injection Ht as <-; rewrite S1; lia) E).
      rewrite Harg, S1, Hd in Hl by lia. assert (n <=? 0 = false) as He by lia. rewrite He in Hl.
      eapply (setex_synced other w r do_setex _ k v (n * 1000)); [done|lia|lia| |exact E|exact Hl].
      unfold propagate_frames, nth_arg. cbn. rewrite Harg, S1, S2. done.
    + destruct (do_psetex (s_copy <$> [bs "psetex"; k; arg; v]) w) as [[] w'] eqn:E.
      pose proof (setex_generic_leaves (s_copy <$> [bs "psetex"; k; arg; v]) 1 w w' W1 W2 W3 W4 (s_copy_ok v)) as Hl.
      change (argd _ 2) with arg in Hl. change (argd _ 1) with k in Hl. change (argd _ 3) with v in Hl.
      specialize (Hl ltac:(intros t Ht; rewrite Harg in Ht; injection Ht as <-; rewrite Z.mul_1_r, T1; lia) E).
      rewrite Harg, Z.mul_1_r, T1, Hd in Hl by lia. assert (n <=? 0 = false) as He by lia. rewrite He in Hl.
      eapply (setex_synced other w r do_psetex _ k v n); [done|lia|lia| |exact E|exact Hl].
      unfold propagate_frames, nth_arg. cbn. rewrite Harg, T2. done.
Qed.

Lemma in_sync_w0 : in_sync w0 w0.
Proof. pose proof w0_start as (H1 & H2 & H3). pose proof w0_ok. split; try done. Qed.

Lemma ttl_commands_replicate_witness :
  in_sync w0 w0 /\ str2int (bs "100") = Some 100 /\ span_ok 100 /\
  ((is_Some (view w0 !! bs "k") ->
     synced no_other w0 w0 do_expire [bs "expire"; bs "k"; bs "100"] /\ synced no_other w0 w0 do_pexpire [bs "pexpire"; bs "k"; bs "100"] /\
     synced no_other w0 w0 do_expireat [bs "expireat"; bs "k"; bs "100"]) /\
   (0 < 100 -> synced no_other w0 w0 do_setex [bs "setex"; bs "k"; bs "100"; bs "v"] /\
     synced no_other w0 w0 do_psetex [bs "psetex"; bs "k"; bs "100"; bs "v"])).
Proof.
  split; [apply in_sync_w0|]. split; [vm_compute; reflexivity|]. split; [unfold span_ok; lia|].
  apply (ttl_commands_replicate no_other w0 w0 (bs "k") (bs "100") (bs "v") 100 in_sync_w0); [vm_compute; reflexivity|unfold span_ok; lia].
Defined.

(** A world's clocks moved on by [ms] milliseconds. *)
Definition later (ms : Z) (w : World) : World :=
  let e := env w in
  mkWorld (ks w) (writes w) (rng w) (out w)
    (mkEnv (now e + ms) (wall e + ms) (g_lru_clock e) (maxmemory_policy e) (maxmemory_samples e) (lfu_log_factor e) (lfu_decay_time e)
       (g_reply_proto e)).

(** Time alone removes only what expires. *)
Lemma view_later ms w k v t :
  view w !! k = Some (v, t) -> match t with Some d => now (env w) + ms < d | None => True end ->
  view (later ms w) !! k = Some (v, t).
Proof.
  unfold view. intros (H1 & H2 & _)%lview_Some Ht. apply lview_Some. split; [done|]. split; [done|].
  unfold expired. cbn [ks later env now]. rewrite H2. destruct t; lia.
Qed.

(** A round of the loader whose reply is no error. *)
Record loading (e : Env) (st : Replay) (m : gmap bytes (AVal * option Z)) : Prop := {
  lo_ok : world_ok (rw st); lo_writes : writes_ok (rw st); lo_env : env (rw st) = e; lo_view : view (rw st) = m;
  lo_sink : Buffer.content (out (rw st)) = []; lo_error : replay_error st = 0%nat;
}.

Lemma replay_one_loading other e cmd st m w' rep d m' n :
  loading e st m -> replay_request other cmd (rw st) = ((), w') -> leaves (rw st) w' rep m' n ->
  appends rep d -> take 1 d <> bs "-" -> loading e (replay_one other cmd st) m'.
Proof.
  intros [L1 L2 L3 L4 L5 L6] Hrun Hl Hrep Hd. destruct (leaves_ok _ _ _ _ _ Hl) as [W1 W2].
  destruct Hl as ((K1 & K2 & K3) & Hv & Ho & He & _). unfold replay_one. rewrite Hrun. cbn [snd].
  destruct (buf_consume_spec (out w') (buf_size (out w')) K3) as [C1 C2]; [lia|].
  destruct (Hrep (out (rw st)) (proj2 (proj2 L1))) as [_ Hc]. rewrite L5 in Hc. cbn [app] in Hc.
  rewrite (bool_decide_eq_false_2 (take 1 _ = _)) by (by rewrite Ho, Hc).
  split; cbn [rw replay_error andb]; try done; [by rewrite <- L3|].
  cbn [with_out out]. rewrite C2, drop_ge; [done|]. by rewrite length_content.
Qed.

Lemma loading_set other e st m k v :
  loading e st m -> room (rw st) -> env_ok e ->
  loading e (replay_one other [bs "SET"; k; v] st) (<[k := (AStr v, None)]> m).
Proof.
  intros Hl Hroom He. pose proof Hl as [L1 L2 L3 L4 L5 L6]. destruct (replay_request other [bs "SET"; k; v] (rw st)) as [[] w'] eqn:E.
  eapply replay_one_loading; [done|exact E| |apply appends_resp_ok|done]. rewrite <- L4.
  apply (do_set_leaves [s_copy (bs "set"); s_copy k; s_copy v]); [done|done|by rewrite L3|done|apply s_copy_ok|exact E].
Qed.

(** A deadline that has passed, or for a key that is not there, leaves the key absent. *)
Lemma loading_pexpireat other e st m k abs :
  loading e st m -> env_ok e -> - 2 ^ 62 <= abs < 2 ^ 62 + 2 ^ 61 -> m !! k = None \/ abs <= wall e ->
  exists m', loading e (replay_one other [bs "PEXPIREAT"; k; print_i64 abs] st) m' /\ m' !! k = None.
Proof.
  intros Hl He Habs Hgone. pose proof Hl as [L1 L2 L3 L4 L5 L6].
  destruct (replay_request other [bs "PEXPIREAT"; k; print_i64 abs] (rw st)) as [[] w'] eqn:E.
  pose proof (expireat_generic_leaves [s_copy (bs "pexpireat"); s_copy k; s_copy (print_i64 abs)] 1 (rw st) w' L1 L2) as Hlv.
  rewrite L3 in Hlv. specialize (Hlv He E). cbn zeta in Hlv. change (argd _ 2) with (print_i64 abs) in Hlv. change (argd _ 1) with k in Hlv.
  assert (Hr : INT64_MIN <= abs <= INT64_MAX) by (unfold INT64_MIN, INT64_MAX; lia). rewrite str2int_complete in Hlv by done.
  rewrite Z.mul_1_r, (i64_small abs) in Hlv by done. destruct He as [_ He].
  rewrite i64_small in Hlv by (unfold INT64_MIN, INT64_MAX; lia).
  eexists. split; [eapply replay_one_loading; [done|exact E|exact Hlv|apply appends_resp_int|done]|].
  unfold after_ttl. rewrite L4. destruct (m !! k) as [[x t]|] eqn:Ek; [|done]. destruct Hgone as [|Hp]; [done|].
  assert (abs - wall e <=? 0 = true) as -> by lia. apply lookup_delete_eq.
Qed.

Lemma loading_persist other e st m k :
  loading e st m -> env_ok e -> m !! k = None -> loading e (replay_one other [bs "persist"; k] st) m.
Proof.
  intros Hl He Hk. pose proof Hl as [L1 L2 L3 L4 L5 L6]. destruct (replay_request other [bs "persist"; k] (rw st)) as [[] w'] eqn:E.
  pose proof (do_persist_leaves [s_copy (bs "persist"); s_copy k] (rw st) w' L1 L2) as Hlv. rewrite L3 in Hlv.
  specialize (Hlv He E). cbn zeta in Hlv. change (argd _ 1) with k in Hlv. rewrite L4, Hk in Hlv.
  eapply replay_one_loading; [done|exact E|exact Hlv|apply appends_resp_int|done].
Qed.

(** A whole log without preamble. *)
Lemma replay_whole other cmds w :
  Forall args_ok cmds ->
  aof_replay (replay_one other) (length (log_of cmds)) (log_of cmds) 0 (mkReplay (with_out (buf_create 4096) w) 0 0 0) =
    (foldl (fun st cmd => replay_one other cmd st) (mkReplay (with_out (buf_create 4096) w) 0 0 0) cmds, length (log_of cmds)).
Proof.
  intros Hok. destruct (replay_prefix (replay_one other) cmds (log_of cmds) [] (length (log_of cmds)) 0
    (mkReplay (with_out (buf_create 4096) w) 0 0 0) Hok) as (k & Hk & Hrun & Hle & Hlt); [apply app_nil_r|done|].
  assert (k = length cmds) as ->.
  { destruct (decide (k = length cmds)); [done|]. specialize (Hlt ltac:(lia)).
    pose proof (log_of_app (take (S k) cmds) (drop (S k) cmds)) as Ha. rewrite take_drop in Ha. rewrite Ha, length_app in Hlt. lia. }
  rewrite Hrun, firstn_all. done.
Qed.

Lemma load_whole other uncompress e cmds w m :
  Forall args_ok cmds -> cmds <> [] ->
  loading e (foldl (fun st cmd => replay_one other cmd st) (mkReplay (with_out (buf_create 4096) w) 0 0 0) cmds) m ->
  exists r', aof_load other uncompress (log_of cmds) w = (true, r', None) /\ view r' = m.
Proof.
  intros Hok Hne [L1 L2 L3 L4 L5 L6]. rewrite aof_load_plain
    by (destruct cmds; [done|]; rewrite log_of_cons; by eexists). rewrite replay_whole by done.
  rewrite Nat.ltb_irrefl, L6. eexists. split; [reflexivity|]. exact L4.
Qed.

(** C37: Replay loses a key that is alive.  A key set with SETEX of [n1]
    seconds, whose deadline is then, while it is alive, moved by EXPIRE of [n2]
    seconds or removed by PERSIST, is still shown by the server at any later
    time before the new deadline; but a server that loads the log of the two
    commands once the first deadline has passed does not have it, and
    reports success: the PEXPIREAT of the first deadline deletes the key at
    once, and the command that extended it finds none. *)
Theorem aof_loses_extended_key (other : bytes -> Handler) (uncompress : bytes -> nat -> option bytes) (w r : World) (k v a1 a2 : bytes) (n1 n2 d1 d2 : Z)
    (Hw : world_ok w /\ writes_ok w /\ room w /\ env_ok (env w)) (Hw1 : env_ok (env (later d1 w)))
    (Hr : world_ok r /\ writes_ok r /\ room r /\ env_ok (env r))
    (Ha1 : str2int a1 = Some n1) (Ha2 : str2int a2 = Some n2) (Hs1 : span_ok n1) (Hs2 : span_ok n2)
    (Hd1 : 0 <= d1 < n1 * 1000) (Hd2 : 0 <= d2 < n2 * 1000)
    (Hwall : wall (env r) = wall (env w) + d1 + d2) (Hpast : n1 * 1000 <= d1 + d2)
    (Hk : Forall args_ok [[bs "SET"; k; v]; [bs "PEXPIREAT"; k; print_i64 (wall (env w) + n1 * 1000)];
                          [bs "PEXPIREAT"; k; print_i64 (wall (env w) + d1 + n2 * 1000)]; [bs "persist"; k]]) :
  let first := [bs "setex"; k; a1; v] in
  let at1 := later d1 (do_setex (s_copy <$> first) w).2 in
  let lost fn cmd t :=
    let w2 := (fn (s_copy <$> cmd) at1).2 in
    let log := log_of (propagate_frames (wall (env w)) first ++ propagate_frames (wall (env at1)) cmd) in
    view (later d2 w2) !! k = Some (AStr v, t) /\
    exists r', aof_load other uncompress log r = (true, r', None) /\ view r' !! k = None in
  lost do_expire [bs "expire"; k; a2] (Some (now (env at1) + n2 * 1000)) /\ lost do_persist [bs "persist"; k] None.
Proof.
  destruct Hw as (W1 & W2 & W3 & W4), Hr as (R1 & R2 & R3 & R4). pose proof W4 as [[Wn _] [Ww _]]. pose proof Hw1 as [[_ Hn1] [_ Hl1]].
  cbn [later env now wall] in Hn1, Hl1. unfold span_ok in *.
  destruct (wall_span w n1 1000 W4 Hs1 ltac:(by right)) as (S1 & S2 & _).
  pose proof Hk as [Hk1 [Hk2 [Hk3 [Hk4 _]%Forall_cons]%Forall_cons]%Forall_cons]%Forall_cons.
  cbn zeta. set (w1 := (do_setex (s_copy <$> [bs "setex"; k; a1; v]) w).2).
  assert (Hleft : leaves w w1 resp_ok (<[k := (AStr v, Some (now (env w) + n1 * 1000))]> (view w)) 1).
  { unfold w1. destruct (do_setex _ w) as [[] w'] eqn:E. cbn [snd].
    pose proof (setex_generic_leaves (s_copy <$> [bs "setex"; k; a1; v]) 1000 w w' W1 W2 W3 W4 (s_copy_ok v)) as Hl.
    change (argd _ 2) with a1 in Hl. change (argd _ 1) with k in Hl. change (argd _ 3) with v in Hl.
    specialize (Hl ltac:(intros t Ht; rewrite Ha1 in Ht; injection Ht as <-; rewrite S1; lia) E).
    rewrite Ha1, S1 in Hl. assert (n1 <=? 0 = false) as He by lia. rewrite He in Hl. unfold deadline in Hl.
    by assert (n1 * 1000 <? 0 = false) as He' by lia; rewrite He' in Hl. }
  destruct (leaves_ok _ _ _ _ _ Hleft) as [V1 V2]. destruct (leaves_env _ _ _ _ _ Hleft) as [V3 V4].
  set (at1 := later d1 w1). assert (E1 : env at1 = env (later d1 w)) by (unfold at1, later; cbn; by rewrite V3).
  assert (K1 : view at1 !! k = Some (AStr v, Some (now (env w) + n1 * 1000))).
  { apply view_later; [by rewrite V4, lookup_insert_eq|]. rewrite V3. lia. }
  assert (A1 : world_ok at1 /\ writes_ok at1 /\ env_ok (env at1)) by (by rewrite E1). destruct A1 as (A1 & A2 & A3).
  assert (Wat : wall (env at1) = wall (env w) + d1) by (by rewrite E1).
  assert (Nat1 : now (env at1) = now (env w) + d1) by (by rewrite E1).
  clearbody at1. destruct (wall_span at1 n2 1000 A3 Hs2 ltac:(by right)) as (T1 & T2 & _).
  assert (P1 : propagate_frames (wall (env w)) [bs "setex"; k; a1; v] =
    [[bs "SET"; k; v]; [bs "PEXPIREAT"; k; print_i64 (wall (env w) + n1 * 1000)]])
    by (unfold propagate_frames, nth_arg; cbn; by rewrite Ha1, S1, S2).
  assert (P2 : propagate_frames (wall (env at1)) [bs "expire"; k; a2] = [[bs "PEXPIREAT"; k; print_i64 (wall (env w) + d1 + n2 * 1000)]])
    by (unfold propagate_frames, nth_arg; cbn; by rewrite Ha2, T1, T2, Wat).
  assert (P3 : propagate_frames (wall (env at1)) [bs "persist"; k] = [[bs "persist"; k]]) by done.
  set (r0 := mkReplay (with_out (buf_create 4096) r) 0 0 0).
  assert (L0 : loading (env r) r0 (view r)).
  { destruct R1 as (Ra & Rb & Rc). destruct (buf_create_wf 4096) as [B1 B2]. by split. }
  pose proof (loading_set other _ _ _ k v L0 R3 R4) as L1.
  destruct (loading_pexpireat other _ _ _ k (wall (env w) + n1 * 1000) L1 R4 ltac:(lia) ltac:(right; lia)) as (m1 & L2 & M1).
  split.
  - split.
    + destruct (do_expire (s_copy <$> [bs "expire"; k; a2]) at1) as [[] w2] eqn:E. cbn [snd].
      pose proof (expire_generic_leaves _ 1000 at1 w2 A1 A2 A3 E) as Hl. cbn zeta in Hl.
      change (argd _ 2) with a2 in Hl. change (argd _ 1) with k in Hl. rewrite Ha2, T1 in Hl.
      destruct (leaves_env _ _ _ _ _ Hl) as [X1 X2]. unfold after_ttl in X2. rewrite K1 in X2.
      assert (n2 * 1000 <=? 0 = false) as He by lia. rewrite He in X2.
      apply view_later; [by rewrite X2, lookup_insert_eq|]. rewrite X1. lia.
    + rewrite P1, P2. destruct (loading_pexpireat other _ _ _ k (wall (env w) + d1 + n2 * 1000) L2 R4 ltac:(lia) ltac:(by left)) as (m2 & L3 & M2).
      destruct (load_whole other uncompress (env r) ([[bs "SET"; k; v]; [bs "PEXPIREAT"; k; print_i64 (wall (env w) + n1 * 1000)]] ++
        [[bs "PEXPIREAT"; k; print_i64 (wall (env w) + d1 + n2 * 1000)]]) r m2) as (r' & -> & Hv); [cbn [app]; by repeat (apply (Forall_cons_2 args_ok); [done|])|done|exact L3|].
      exists r'. split; [done|by rewrite Hv].
  - split.
    + destruct (do_persist (s_copy <$> [bs "persist"; k]) at1) as [[] w2] eqn:E. cbn [snd].
      pose proof (do_persist_leaves _ at1 w2 A1 A2 A3 E) as Hl. cbn zeta in Hl. change (argd _ 1) with k in Hl. rewrite K1 in Hl.
      destruct (leaves_env _ _ _ _ _ Hl) as [X1 X2]. apply view_later; [by rewrite X2, lookup_insert_eq|done].
    + rewrite P1, P3. pose proof (loading_persist other _ _ _ k L2 R4 M1) as L3.
      destruct (load_whole other uncompress (env r) ([[bs "SET"; k; v]; [bs "PEXPIREAT"; k; print_i64 (wall (env w) + n1 * 1000)]] ++
        [[bs "persist"; k]]) r m1) as (r' & -> & Hv); [cbn [app]; by repeat (apply (Forall_cons_2 args_ok); [done|])|done|exact L3|].
      exists r'. split; [done|by rewrite Hv].
Qed.

Lemma aof_loses_extended_key_witness :
  let r := later 20000 w0 in
  let at1 := later 5000 (do_setex (s_copy <$> [bs "setex"; bs "k"; bs "10"; bs "v"]) w0).2 in
  let w2 := (do_expire (s_copy <$> [bs "expire"; bs "k"; bs "100"]) at1).2 in
  let log := log_of (propagate_frames (wall (env w0)) [bs "setex"; bs "k"; bs "10"; bs "v"] ++
                     propagate_frames (wall (env at1)) [bs "expire"; bs "k"; bs "100"]) in
  view (later 15000 w2) !! bs "k" = Some (AStr (bs "v"), Some (now (env at1) + 100 * 1000)) /\
  exists r', aof_load no_other (fun _ _ => None) log r = (true, r', None) /\ view r' !! bs "k" = None.
Proof.
  cbn zeta. pose proof w0_start as (H1 & H2 & H3). pose proof w0_ok as H0.
  destruct (aof_loses_extended_key no_other (fun _ _ => None) w0 (later 20000 w0) (bs "k") (bs "v") (bs "10") (bs "100") 10 100 5000 15000) as [H _].
  - done.
  - split; (split; [vm_compute; discriminate|vm_compute; reflexivity]).
  - split; [exact H0|]. split; [done|]. split; [done|]. split; (split; [vm_compute; discriminate|vm_compute; reflexivity]).
  - vm_compute. reflexivity.
  - vm_compute. reflexivity.
  - unfold span_ok. lia.
  - unfold span_ok. lia.
  - lia.
  - lia.
  - vm_compute. reflexivity.
  - lia.
  - repeat constructor; vm_compute; discriminate.
  - cbv zeta beta in H. exact H.
Defined.
