(* ===== verification/AofFile.v ===== *)
(** * The log file: flushing, rewriting, checking
    (src/src/persistence/aof.cpp 85-218, 352-409; src/src/persistence/rdb.cpp 321-330;
    src/src/commands/commands.cpp 3656-3662; src/src/server/server.cpp 781-809)

    The append-only file as the server keeps it: the bytes on disk, the bytes
    not yet written, and during a rewrite the image the child writes and the
    bytes logged since.  The outcomes of the system calls are arguments. *)
From S2P Require Import Prelude Buffer Resp StdString Deque Hashtable HashMap Heap Score ZSet HashSet State World Args Strings Lists Glob Keys Containers Hashes Sets CText CmdTable Handlers Double Crc32 Rdb RdbSpec RdbRound Backlog Aof.

(** ** System calls *)

(** What one [write] does: takes some bytes, is interrupted, or fails. *)
Inductive WriteRes := WTook (n : nat) | WIntr | WFail.

(** The write loops: how far they came, and whether they gave up.  A call
    beyond the list takes what is left. *)
Fixpoint write_loop (rs : list WriteRes) (off len : nat) : nat * bool :=
  if (len <=? off)%nat then (off, false)
  else
    match rs with
    | [] => (len, false)
    | WTook n :: rs' => write_loop rs' (off + min n (len - off)) len
    | WIntr :: rs' => write_loop rs' off len
    | WFail :: _ => (off, true)
    end.

(** ** The state of the log *)

Record AofState := mkAof {
  fd_open : bool;                (* g_aof_fd >= 0 *)
  file : bytes;                  (* what is at aof_path *)
  aof_buf : bytes;               (* g_aof_buf *)
  rewrite_buf : bytes;           (* g_aof_rewrite_buf *)
  child : option bytes;          (* g_aof_child_pid, and the image it writes *)
  current_size : Z; base_size : Z;
  write_err : bool; last_rewrite_ok : bool;
}.

Definition aof0 : AofState := mkAof true [] [] [] None 0 0 false true.

(** The log's part of [propagate]. *)
Definition aof_feed (data : bytes) (a : AofState) : AofState :=
  mkAof (fd_open a) (file a) (aof_buf a ++ data)
    (match child a with Some _ => rewrite_buf a ++ data | None => rewrite_buf a end)
    (child a) (current_size a) (base_size a) (write_err a) (last_rewrite_ok a).

Definition aof_flush (rs : list WriteRes) (a : AofState) : bool * AofState :=
  if negb (fd_open a) || (length (aof_buf a) =? 0)%nat then (false, a)
  else
    let '(off, err) := write_loop rs 0 (length (aof_buf a)) in
    let buf := drop off (aof_buf a) in
    ((0 <? off)%nat,
     mkAof (fd_open a) (file a ++ take off (aof_buf a)) buf (rewrite_buf a) (child a)
       (u64 (current_size a + Z.of_nat off)) (base_size a)
       (if err then true else if write_err a && (length buf =? 0)%nat then false else write_err a)
       (last_rewrite_ok a)).

(** [rdb_build_aof_preamble]: the magic, the length, the image. *)
Definition rdb_build_aof_preamble (img : bytes) : bytes :=
  aof_magic ++ le_bytes 8 (Z.of_nat (length img)) ++ img.

(** [enable], [rdb_busy]: the setting and a running save; [fork_ok]: the fork. *)
Definition aof_rewrite_background (enable rdb_busy fork_ok : bool) (img : bytes) (a : AofState) : AofState :=
  if negb enable then a
  else if bool_decide (child a <> None) || rdb_busy then a
  else
    mkAof (fd_open a) (file a) (aof_buf a) [] (if fork_ok then Some (rdb_build_aof_preamble img) else None)
      (current_size a) (base_size a) (write_err a) (last_rewrite_ok a).

(** The outcomes [aof_rewrite_reap] meets. *)
Record Reap := mkReap {
  exited_ok : bool;        (* the awaited child exited with status 0 *)
  tmp_open : bool;         (* open(tmp) *)
  delta_writes : list WriteRes;
  fsync_ok : bool; rename_ok : bool; reopen_ok : bool;
}.

Definition aof_rewrite_reap (r : Reap) (a : AofState) : AofState :=
  let snap := default [] (child a) in
  let '(off, werr) := write_loop (delta_writes r) 0 (length (rewrite_buf a)) in
  let ok := exited_ok r && tmp_open r && negb (werr || negb (fsync_ok r)) && rename_ok r in
  let swapped := snap ++ take off (rewrite_buf a) in
  let sz := Z.of_nat (length swapped) in
  mkAof (if ok then reopen_ok r else fd_open a) (if ok then swapped else file a) (aof_buf a) [] None
    (if ok && reopen_ok r then sz else current_size a) (if ok && reopen_ok r then sz else base_size a)
    (write_err a) ok.

(** ** Checking a file *)

(** The loop of [aof_check]: the valid length and whether it stopped early. *)
Fixpoint check_loop (fuel : nat) (buf : bytes) (good_offset : nat) : nat * bool :=
  match fuel with
  | O => (good_offset, false)
  | S f =>
      if (length buf =? 0)%nat then (good_offset, false)
      else
        let consumed := (parse_resp_request buf).1 in
        if (consumed =? 0) || (consumed <? 0) then (good_offset, true)
        else check_loop f (drop (Z.to_nat consumed) buf) (good_offset + Z.to_nat consumed)
  end.

(** [aof_check(path, fix)]: its result, and the file it leaves. *)
Definition aof_check (fix_ : bool) (raw : bytes) : bool * bytes :=
  if (length raw =? 0)%nat then (true, raw)
  else
    let '(good_offset, reason) := check_loop (length raw) raw 0 in
    if negb reason then (true, raw)
    else if negb fix_ then (false, raw)
    else (true, take good_offset raw).

(** ** Lemmas *)

Lemma write_loop_spec rs off len :
  (off <= len)%nat -> let '(o, err) := write_loop rs off len in (off <= o <= len)%nat /\ (err = false -> o = len).
Proof.
  revert off. induction rs as [|r rs IH]; intros off H; cbn [write_loop].
  - destruct (len <=? off)%nat eqn:E; [apply Nat.leb_le in E|apply Nat.leb_gt in E]; split; [lia|intros; lia|lia|done].
  - destruct (len <=? off)%nat eqn:E; [apply Nat.leb_le in E; split; [lia|intros; lia]|apply Nat.leb_gt in E].
    destruct r as [n| |].
    + specialize (IH (off + min n (len - off))%nat ltac:(lia)). destruct (write_loop _ _ _). destruct IH. split; [lia|done].
    + by apply IH.
    + split; [lia|done].
Qed.

Lemma flush_keeps rs a : file (aof_flush rs a).2 ++ aof_buf (aof_flush rs a).2 = file a ++ aof_buf a.
Proof.
  unfold aof_flush. destruct (_ || _); [done|]. destruct (write_loop _ _ _) as [off err]. cbn.
  by rewrite <- app_assoc, take_drop.
Qed.

(** A request ends with a line feed, whatever its form. *)
Lemma scan_stops stop l : (scan stop l < length l)%nat -> exists c, l !! scan stop l = Some c /\ stop c = true.
Proof.
  induction l as [|c l IH]; cbn [scan length]; [lia|]. destruct (stop c) eqn:E; intros H; [by exists c|].
  destruct IH as (d & Hd & Hs); [lia|]. by exists d.
Qed.

Lemma read_bulks_lf n : forall data pos cmd r c,
  Z.of_nat (length data) < 2 ^ 31 -> (1 <= pos)%nat -> data !! (pos - 1)%nat = Some c_lf ->
  read_bulks n data pos cmd = (r, c) -> 0 < r -> data !! (Z.to_nat r - 1)%nat = Some c_lf.
Proof.
  induction n as [|n IH]; intros data pos cmd r c Hlen Hpos Hlf H Hr; cbn [read_bulks] in H.
  - injection H as <- <-. apply lookup_lt_Some in Hlf as Hb. rewrite i32_small in * by lia. by rewrite Nat2Z.id.
  - revert H. repeat (case_match_eqn; try (intros [= <- _]; lia)). intros H. bool_facts.
    eapply IH; [done| | |exact H|done]; [lia|].
    match goal with Hb : data !! (_ + 1)%nat = Some c_lf |- _ => rewrite <- Hb; f_equal; lia end.
Qed.

Lemma parse_lf data r c :
  Z.of_nat (length data) < 2 ^ 31 -> parse_resp_request data = (r, c) -> 0 < r -> data !! (Z.to_nat r - 1)%nat = Some c_lf.
Proof.
  intros Hlen H Hr. unfold parse_resp_request in H. destruct data as [|x data]; [by simplify_eq|]. case_match.
  - unfold parse_inline in H. pose proof (scan_le is_lf (x :: data)) as Hs.
    destruct (k_max_inline <? _); [injection H as <- <-; lia|].
    destruct (scan is_lf (x :: data) =? length (x :: data))%nat eqn:E; [injection H as <- <-; lia|]. apply Nat.eqb_neq in E.
    apply (f_equal fst) in H. cbn [fst] in H. subst r. destruct (scan_stops is_lf (x :: data)) as (d & Hd & Hstop); [lia|].
    rewrite i32_small by lia. replace (Z.to_nat _ - 1)%nat with (scan is_lf (x :: data)) by lia. rewrite Hd.
    unfold is_lf in Hstop. by apply bool_decide_eq_true in Hstop as ->.
  - revert H. repeat (case_match_eqn; try (intros [= <- _]; lia)). intros H. bool_facts.
    eapply read_bulks_lf; [done| | |exact H|done]; [lia|].
    match goal with Hb : _ !! (_ + 1)%nat = Some c_lf |- _ => rewrite <- Hb; f_equal; lia end.
Qed.

(** A file found whole ends with a line feed; otherwise something is cut. *)
Lemma check_loop_spec fuel : forall buf good,
  Z.of_nat (length buf) < 2 ^ 31 -> (length buf <= fuel)%nat ->
  let '(o, reason) := check_loop fuel buf good in
  (good <= o)%nat /\ (if reason then (o < good + length buf)%nat else buf = [] \/ last buf = Some c_lf).
Proof.
  induction fuel as [|fuel IH]; intros buf good Hlen Hf; cbn [check_loop]; [destruct buf; [by auto|cbn in Hf; lia]|].
  destruct (length buf =? 0)%nat eqn:E0; [apply Nat.eqb_eq, nil_length_inv in E0; by auto|apply Nat.eqb_neq in E0].
  destruct (parse_resp_request buf) as [r c] eqn:Ep. cbn [fst]. destruct ((r =? 0) || (r <? 0)) eqn:Er; [split; lia|].
  assert (Hr : 0 < r) by lia. pose proof (parse_lf _ _ _ Hlen Ep Hr) as Hlf. pose proof (lookup_lt_Some _ _ _ Hlf) as Hb.
  specialize (IH (drop (Z.to_nat r) buf) (good + Z.to_nat r)%nat). rewrite length_drop in IH. specialize (IH ltac:(lia) ltac:(lia)).
  destruct (check_loop _ _ _) as [o reason]. destruct IH as [Hgo IH]. split; [lia|]. destruct reason; [lia|]. right.
  destruct IH as [IH|IH].
  - apply (f_equal length) in IH. rewrite length_drop in IH. cbn in IH. rewrite last_lookup. rewrite <- Hlf. f_equal. lia.
  - rewrite <- (take_drop (Z.to_nat r) buf), last_app, IH. done.
Qed.

(** ** A running server's log *)

(** What happens to the log: frames are logged, the buffer is flushed, a
    rewrite of the image [img] starts, a child is reaped. *)
Inductive AEvent :=
  | ALog (frames : list (list bytes))
  | AFlush (rs : list WriteRes)
  | ARewrite (rdb_busy fork_ok : bool) (img : bytes)
  | AReap (r : Reap).

Definition aof_event (e : AEvent) (a : AofState) : AofState :=
  match e with
  | ALog frames => aof_feed (foldl aof_encode [] frames) a
  | AFlush rs => (aof_flush rs a).2
  | ARewrite busy ok img => aof_rewrite_background true busy ok img a
  | AReap r => aof_rewrite_reap r a
  end.

Definition aof_run (evs : list AEvent) (a : AofState) : AofState := foldl (fun a e => aof_event e a) a evs.

(** Every frame logged so far. *)
Definition logged (evs : list AEvent) : list (list bytes) :=
  concat ((fun e => match e with ALog fs => fs | _ => [] end) <$> evs).

(** The rewrites asked for so far: how much was logged before, and the image. *)
Fixpoint images (n : nat) (evs : list AEvent) : list (nat * bytes) :=
  match evs with
  | [] => []
  | ALog fs :: evs' => images (n + length fs) evs'
  | ARewrite _ _ img :: evs' => (n, rdb_build_aof_preamble img) :: images n evs'
  | _ :: evs' => images n evs'
  end.

(** A child is reaped only while nothing waits to be written. *)
Fixpoint calm (evs : list AEvent) (a : AofState) : Prop :=
  match evs with
  | [] => True
  | e :: evs' => match e with AReap _ => child a <> None /\ aof_buf a = [] | _ => True end /\ calm evs' (aof_event e a)
  end.

(** The file with the bytes still to be written is an image of the log's past,
    if any, and everything logged after it; during a rewrite the same holds of
    the child's image and the bytes collected for it. *)
Definition log_kept (hist : list (list bytes)) (imgs : list (nat * bytes)) (a : AofState) : Prop :=
  (exists i pre, (i, pre) ∈ (0%nat, []) :: imgs /\ (i <= length hist)%nat /\ file a ++ aof_buf a = pre ++ log_of (drop i hist)) /\
  match child a with
  | Some snap => exists i, (i, snap) ∈ imgs /\ (i <= length hist)%nat /\ rewrite_buf a = log_of (drop i hist)
  | None => True
  end.

Lemma log_kept_event e a hist imgs :
  log_kept hist imgs a -> match e with AReap _ => child a <> None /\ aof_buf a = [] | _ => True end ->
  log_kept (hist ++ logged [e]) (imgs ++ images (length hist) [e]) (aof_event e a).
Proof.
  intros [(i & pre & Hi & Hle & Hf) Hc] He. destruct e as [fs|rs|busy ok img|r]; cbn [aof_event logged images fmap list_fmap concat];
    rewrite ?app_nil_r.
  - assert (Hgrow : forall j, (j <= length hist)%nat -> log_of (drop j (hist ++ fs)) = log_of (drop j hist) ++ log_of fs).
    { intros j Hj. rewrite drop_app_le by done. apply log_of_app. }
    unfold aof_feed. rewrite encode_all. split; cbn [file aof_buf child rewrite_buf].
    + exists i, pre. rewrite length_app. split; [done|]. split; [lia|]. rewrite Hgrow by done. by rewrite app_assoc, Hf, app_assoc.
    + destruct (child a) as [snap|]; [|done]. destruct Hc as (j & Hj & Hlj & ->). exists j. rewrite length_app.
      split; [done|]. split; [lia|]. by rewrite Hgrow.
  - pose proof (flush_keeps rs a) as Hk. split; [exists i, pre; by rewrite Hk|].
    unfold aof_flush in *. destruct (_ || _); [done|]. by destruct (write_loop _ _ _).
  - unfold aof_rewrite_background. cbn [negb]. destruct (bool_decide (child a <> None) || busy) eqn:Eb.
    + split; [|destruct (child a) as [snap|]; [|done]; destruct Hc as (j & Hj & Hrest); exists j; split; [apply elem_of_app; by left|done]].
      exists i, pre. split; [|done]. rewrite app_comm_cons. apply elem_of_app. by left.
    + split; cbn [file aof_buf child rewrite_buf].
      * exists i, pre. split; [|done]. rewrite app_comm_cons. apply elem_of_app. by left.
      * destruct ok; [|done]. exists (length hist). split; [apply elem_of_app; right; by left|]. by rewrite drop_ge.
  - destruct He as [Hch Hbuf]. unfold aof_rewrite_reap. destruct (child a) as [snap|]; [|done].
    destruct Hc as (j & Hj & Hlj & Hrb). cbn [default from_option id].
    pose proof (write_loop_spec (delta_writes r) 0 (length (rewrite_buf a)) ltac:(lia)) as Hw.
    destruct (write_loop _ _ _) as [off werr]. destruct Hw as [_ Hw]. split; [|done]. cbn [file aof_buf].
    destruct (exited_ok r && tmp_open r && negb (werr || negb (fsync_ok r)) && rename_ok r) eqn:Eok; [|by exists i, pre].
    exists j, snap. split; [by right|]. split; [done|]. rewrite Hbuf, app_nil_r, Hrb in *. rewrite take_ge; [done|].
    rewrite Hw; [lia|]. destruct werr; [|done]. exfalso. by rewrite andb_false_r in Eok.
Qed.

Lemma logged_cons e evs : logged (e :: evs) = logged [e] ++ logged evs.
Proof. unfold logged. cbn. by rewrite app_nil_r. Qed.

Lemma images_cons n e evs : images n (e :: evs) = images n [e] ++ images (n + length (logged [e])) evs.
Proof. destruct e; cbn; by rewrite ?app_nil_r, ?Nat.add_0_r. Qed.

Lemma log_kept_run evs : forall a hist imgs,
  log_kept hist imgs a -> calm evs a -> log_kept (hist ++ logged evs) (imgs ++ images (length hist) evs) (aof_run evs a).
Proof.
  induction evs as [|e evs IH]; intros a hist imgs Hk Hc; [cbn; by rewrite !app_nil_r|]. destruct Hc as [He Hc].
  rewrite logged_cons, images_cons, !app_assoc. rewrite <- length_app. apply IH; [|done]. by apply log_kept_event.
Qed.

(** ** Loading what was kept *)

Section Recover.
Context (other : bytes -> Handler) (uncompress : bytes -> nat -> option bytes).

(** The commands replayed one after the other, in a world with a fresh sink. *)
Definition replayed_from (w : World) (cmds : list (list bytes)) : Replay :=
  foldl (fun st cmd => replay_one other cmd st) (mkReplay (with_out (buf_create 4096) w) 0 0 0) cmds.

(** A log whole: the image first, then the commands; nothing to trim. *)
Definition recovered (img : option bytes) (cmds : list (list bytes)) (w : World) : bool * World * option nat :=
  let replay w := let st := replayed_from w cmds in ((replay_error st =? 0)%nat, with_writes 0 (rw st), None) in
  match img with
  | None => match cmds with [] => (true, w, None) | _ => replay w end
  | Some img =>
      match rdb_load_buffer uncompress (env w) img (ks w) with
      | (ROk _, s) => replay (with_ks s w)
      | (_, s) => (false, with_ks s w, None)
      end
  end.

Lemma load_plain_log cmds w : Forall args_ok cmds -> aof_load other uncompress (log_of cmds) w = recovered None cmds w.
Proof.
  intros Hok. destruct cmds as [|c cmds]; [done|].
  rewrite aof_load_plain by (rewrite log_of_cons; by eexists). rewrite (replay_whole other (c :: cmds) w Hok). by rewrite Nat.ltb_irrefl.
Qed.

Lemma load_image_log img cmds w :
  Forall args_ok cmds -> Z.of_nat (length img) < 2 ^ 64 ->
  aof_load other uncompress (rdb_build_aof_preamble img ++ log_of cmds) w = recovered (Some img) cmds w.
Proof.
  intros Hok Himg. set (raw := rdb_build_aof_preamble img ++ log_of cmds).
  assert (Hraw : raw = aof_magic ++ le_bytes 8 (Z.of_nat (length img)) ++ img ++ log_of cmds)
    by (subst raw; unfold rdb_build_aof_preamble; by rewrite <- !app_assoc).
  assert (Hlen : length raw = (16 + length img + length (log_of cmds))%nat).
  { rewrite Hraw, !length_app, le_bytes_length. change (length aof_magic) with 8%nat. lia. }
  assert (H8 : take 8 raw = aof_magic) by (by rewrite Hraw).
  assert (Hd8 : drop 8 raw = le_bytes 8 (Z.of_nat (length img)) ++ img ++ log_of cmds) by (by rewrite Hraw).
  assert (Hd16 : drop 16 raw = img ++ log_of cmds).
  { change 16%nat with (8 + 8)%nat. rewrite <- drop_drop, Hd8, drop_app_length'; [done|by rewrite le_bytes_length]. }
  assert (Hval : le_val (slice 8 8 raw) = Z.of_nat (length img)).
  { unfold slice. rewrite Hd8, take_app_length' by (by rewrite le_bytes_length). rewrite le_val_bytes. apply Z.mod_small. change (256 ^ Z.of_nat 8) with (2 ^ 64). lia. }
  unfold aof_load. rewrite H8, Hval, bool_decide_eq_true_2 by done.
  assert ((length raw =? 0)%nat = false) as -> by (apply Nat.eqb_neq; lia).
  assert ((16 <=? length raw)%nat = true) as -> by (apply Nat.leb_le; lia). cbn [andb].
  assert (Z.of_nat (length raw) - 16 <? Z.of_nat (length img) = false) as -> by lia. rewrite Nat2Z.id.
  assert (slice 16 (length img) raw = img) as -> by (unfold slice; rewrite Hd16; apply take_app_length).
  unfold recovered. destruct (rdb_load_buffer uncompress (env w) img (ks w)) as [[]s]; try done.
  rewrite <- drop_drop, Hd16, drop_app_length, replay_whole by done. fold (replayed_from (with_ks s w) cmds).
  assert ((16 + length img + length (log_of cmds) <? length raw)%nat = false) as -> by (apply Nat.ltb_ge; lia). done.
Qed.

Lemma preamble_length img : length (rdb_build_aof_preamble img) = (16 + length img)%nat.
Proof. unfold rdb_build_aof_preamble. rewrite !length_app, le_bytes_length. change (length aof_magic) with 8%nat. lia. Qed.

(** What the loader reads of a file that starts with an image and is at least
    as long as its header. *)
Lemma image_header img tail o :
  Z.of_nat (length img) < 2 ^ 64 -> (16 <= o)%nat ->
  let raw := take o (rdb_build_aof_preamble img ++ tail) in
  take 8 raw = aof_magic /\ le_val (slice 8 8 raw) = Z.of_nat (length img) /\ drop 16 raw = take (o - 16) (img ++ tail).
Proof.
  intros Himg Ho. cbn zeta. unfold rdb_build_aof_preamble. rewrite <- !app_assoc.
  set (hd := le_bytes 8 (Z.of_nat (length img))). assert (Hhd : length hd = 8%nat) by apply le_bytes_length.
  assert (H16 : take 16 (take o (aof_magic ++ hd ++ img ++ tail)) = aof_magic ++ hd).
  { rewrite take_take, Nat.min_l by lia. rewrite app_assoc, take_app_length'; [done|]. by rewrite length_app, Hhd. }
  split_and!.
  - replace (take 8 (take o _)) with (take 8 (take 16 (take o (aof_magic ++ hd ++ img ++ tail)))) by (by rewrite take_take). by rewrite H16.
  - unfold slice. rewrite take_drop_commute. change (8 + 8)%nat with 16%nat. rewrite H16. change (drop 8 (aof_magic ++ hd)) with hd.
    unfold hd. rewrite le_val_bytes. apply Z.mod_small. change (256 ^ Z.of_nat 8) with (2 ^ 64). lia.
  - rewrite skipn_firstn_comm. f_equal.
Qed.

(** A file cut inside its image is refused. *)
Lemma load_cut_image img tail o w :
  Z.of_nat (length img) < 2 ^ 64 -> (16 <= o < 16 + length img)%nat ->
  aof_load other uncompress (take o (rdb_build_aof_preamble img ++ tail)) w = (false, w, None).
Proof.
  intros Himg Ho. destruct (image_header img tail o Himg ltac:(lia)) as (H8 & Hs & _). unfold aof_load. rewrite H8, Hs.
  rewrite length_take, length_app, preamble_length, Nat.min_l by lia. rewrite bool_decide_eq_true_2 by done.
  assert ((o =? 0)%nat = false) as -> by (apply Nat.eqb_neq; lia).
  assert ((16 <=? o)%nat = true) as -> by (apply Nat.leb_le; lia). cbn [andb].
  by assert (Z.of_nat o - 16 <? Z.of_nat (length img) = true) as -> by lia.
Qed.

(** ** Cut files *)

Definition preamble (img : option bytes) : bytes := default [] (rdb_build_aof_preamble <$> img).

(** The image restored, if there is one, and the rest of the file handled as [f] says. *)
Definition restored (img : option bytes) (w : World) (f : World -> bool * World * option nat) : bool * World * option nat :=
  match img with
  | None => f w
  | Some img =>
      match rdb_load_buffer uncompress (env w) img (ks w) with
      | (ROk _, s) => f (with_ks s w)
      | (_, s) => (false, with_ks s w, None)
      end
  end.

(** The commands of the pieces that are whole, replayed; the file trimmed
    behind the last of them when bytes are left. *)
Definition replayed_to (cmds : list (list bytes)) (good size : nat) (w : World) : bool * World * option nat :=
  let st := replayed_from w cmds in
  ((replay_error st =? 0)%nat, with_writes 0 (rw st), if (good <? size)%nat then Some good else None).

(** The commands whose frames end within the first [n] bytes of the log. *)
Lemma cut_unique cmds n k k' :
  (length (log_of (take k' cmds)) <= n)%nat -> (k' <= length cmds)%nat ->
  ((k < length cmds)%nat -> (n < length (log_of (take (S k) cmds)))%nat) -> (k' <= k)%nat.
Proof.
  intros Hle Hk' Hlt. destruct (decide (k' <= k)%nat); [done|]. specialize (Hlt ltac:(lia)).
  pose proof (log_of_app (take (S k) (take k' cmds)) (drop (S k) (take k' cmds))) as Ha. rewrite take_drop in Ha.
  rewrite take_take, Nat.min_l in Ha by lia. rewrite Ha, length_app in Hle. lia.
Qed.

Lemma replay_cut cmds n :
  Forall args_ok cmds ->
  let p := take n (log_of cmds) in
  exists k, (k <= length cmds)%nat /\
    (length (log_of (take k cmds)) <= n)%nat /\ ((k < length cmds)%nat -> (n < length (log_of (take (S k) cmds)))%nat) /\
    forall w, aof_replay (replay_one other) (length p) p 0 (mkReplay (with_out (buf_create 4096) w) 0 0 0) =
      (replayed_from w (take k cmds), length (log_of (take k cmds))).
Proof.
  intros Hok. cbn zeta. set (p := take n (log_of cmds)).
  assert (Hone : forall w, exists k, (k <= length cmds)%nat /\
    aof_replay (replay_one other) (length p) p 0 (mkReplay (with_out (buf_create 4096) w) 0 0 0) =
      (replayed_from w (take k cmds), length (log_of (take k cmds))) /\
    (length (log_of (take k cmds)) <= n)%nat /\ ((k < length cmds)%nat -> (n < length (log_of (take (S k) cmds)))%nat)).
  { intros w. destruct (replay_prefix (replay_one other) cmds p (drop n (log_of cmds)) (length p) 0
      (mkReplay (with_out (buf_create 4096) w) 0 0 0) Hok) as (k & Hk & Hrun & Hle & Hlt); [apply take_drop|done|].
    exists k. split; [done|]. split; [exact Hrun|]. unfold p in Hle, Hlt. rewrite length_take in Hle, Hlt. split; [lia|].
    intros Hk'. specialize (Hlt Hk').
    pose proof (log_of_app (take (S k) cmds) (drop (S k) cmds)) as Ha. rewrite take_drop in Ha. rewrite Ha, length_app in Hlt. lia. }
  destruct (Hone World.w0) as (k & Hk & _ & Hle & Hlt). exists k. split_and!; [done..|]. intros w.
  destruct (Hone w) as (k' & Hk' & Hrun & Hle' & Hlt'). assert (k' = k) as <-; [|done].
  pose proof (cut_unique cmds n k k' Hle' Hk' Hlt). pose proof (cut_unique cmds n k' k Hle Hk Hlt'). lia.
Qed.

Lemma load_cut_log img cmds n w :
  Forall args_ok cmds -> match img with Some i => Z.of_nat (length i) < 2 ^ 64 | None => True end ->
  let p := take n (preamble img ++ log_of cmds) in
  let start := length (preamble img) in
  p <> [] -> (start <= n)%nat ->
  exists k, (k <= length cmds)%nat /\
    let good := (start + length (log_of (take k cmds)))%nat in
    aof_load other uncompress p w = restored img w (replayed_to (take k cmds) good (length p)) /\
    (good <= n)%nat /\ ((k < length cmds)%nat -> (n < start + length (log_of (take (S k) cmds)))%nat).
Proof.
  intros Hok Himg. cbn zeta. intros Hp Hn. set (start := length (preamble img)) in *.
  destruct img as [img|]; cbn [preamble fmap option_fmap option_map default from_option id restored] in *.
  - assert (Hst : start = (16 + length img)%nat) by apply preamble_length.
    set (p := take n (rdb_build_aof_preamble img ++ log_of cmds)) in *.
    destruct (image_header img (log_of cmds) n Himg ltac:(lia)) as (H8 & Hs & Hd). fold p in H8, Hs, Hd.
    assert (Hlp : length p = Nat.min n (start + length (log_of cmds)))
      by (unfold p; rewrite length_take, length_app, preamble_length, Hst; done).
    rewrite take_app, (take_ge img) in Hd by lia.
    destruct (replay_cut cmds (n - start) Hok) as (k & Hk & Hle & Hlt & Hrun). exists k. split; [done|]. split; [|split; [lia|intros; specialize (Hlt ltac:(done)); lia]].
    unfold aof_load. rewrite H8, Hs, bool_decide_eq_true_2 by done.
    assert ((length p =? 0)%nat = false) as -> by (apply Nat.eqb_neq; lia).
    assert ((16 <=? length p)%nat = true) as -> by (apply Nat.leb_le; lia). cbn [andb].
    assert (Z.of_nat (length p) - 16 <? Z.of_nat (length img) = false) as -> by lia. rewrite Nat2Z.id.
    assert (slice 16 (length img) p = img) as -> by (unfold slice; rewrite Hd; apply take_app_length).
    destruct (rdb_load_buffer uncompress (env w) img (ks w)) as [[]s]; try done.
    rewrite <- drop_drop, Hd, drop_app_length. replace (n - 16 - length img)%nat with (n - start)%nat by lia.
    rewrite Hrun. unfold replayed_to. by rewrite Hst.
  - rewrite app_nil_l in *. destruct (replay_cut cmds n Hok) as (k & Hk & Hle & Hlt & Hrun). exists k. split; [done|].
    split; [|done]. rewrite aof_load_plain.
    + rewrite Hrun. done.
    + destruct n; [done|]. destruct cmds; [done|]. apply log_head; [lia|done].
Qed.
(** A file cut inside the 16 bytes before the image is read as a log. *)
Lemma replay_error_grows cmd st : (replay_error st <= replay_error (replay_one other cmd st))%nat.
Proof. unfold replay_one. cbn [replay_error]. case_match; lia. Qed.

Lemma aof_replay_error_grows fuel : forall buf good st,
  (replay_error st <= replay_error (aof_replay (replay_one other) fuel buf good st).1)%nat.
Proof.
  induction fuel as [|fuel IH]; intros buf good st; cbn [aof_replay]; [done|]. case_match; [done|].
  destruct (parse_resp_request buf) as [n cmd]. case_match; [done|]. etransitivity; [apply (replay_error_grows cmd)|apply IH].
Qed.

Lemma magic_unknown name : take 8 name = aof_magic -> find_row (map tolower name) cmd_table = None.
Proof.
  intros H. apply find_row_None. intros Hin.
  assert (Ht : take 8 (map tolower name) = bs "myaofrdb") by (rewrite firstn_map, H; reflexivity).
  assert (Hno : Forall (fun n => take 8 n <> bs "myaofrdb") cmd_table.*1) by (apply (bool_decide_unpack _); vm_compute; exact I).
  rewrite Forall_forall in Hno. by apply Hno in Hin.
Qed.

Lemma magic_refused name args st :
  take 8 name = aof_magic -> wf (out (rw st)) -> Buffer.content (out (rw st)) = [] -> replay_error st = 0%nat ->
  (0 < replay_error (replay_one other (name :: args) st))%nat.
Proof.
  intros Hn Hwf Hc H0. unfold replay_one. cbn [replay_error]. unfold replay_request. rewrite magic_unknown by done.
  cbn [snd r_err reply modify with_out out]. destruct (appends_resp_err (bs "ERR unknown command") (out (rw st)) Hwf) as [_ Hrep].
  rewrite Hc in Hrep. cbn [app] in Hrep. unfold r_err, reply, modify. cbn [snd with_out out]. rewrite Hrep.
  rewrite H0. unfold nth_arg. cbn [lookup list_lookup default from_option id].
  rewrite (bool_decide_eq_true_2 (take 1 _ = _)) by done.
  assert (Hr : forall s, take 8 (bs s) <> bs "myaofrdb" -> bool_decide (map tolower name = bs s) = false).
  { intros s Hs. apply bool_decide_eq_false. intros E. apply Hs. rewrite <- E, firstn_map, Hn. reflexivity. }
  rewrite !Hr by (vm_compute; discriminate). cbn. lia.
Qed.

Lemma scan_none stop l : Forall (fun c => stop c = false) l -> scan stop l = length l.
Proof. induction 1 as [|c l Hc Hl IH]; [done|]. cbn. by rewrite Hc, IH. Qed.

Lemma scan_pos stop l c : c ∈ l -> stop c = true -> (scan stop l < length l)%nat.
Proof. intros Hin Hc. induction Hin as [c l|c x l Hin IH]; cbn; [rewrite Hc; lia|]. case_match; [lia|]. specialize (IH Hc). lia. Qed.

Lemma scan_app_none stop l r : Forall (fun c => stop c = false) l -> scan stop (l ++ r) = (length l + scan stop r)%nat.
Proof. induction 1 as [|c l Hc Hl IH]; [done|]. cbn. by rewrite Hc, IH. Qed.

(** An inline request that starts with the magic. *)
Lemma parse_magic p' :
  (length p' < 8)%nat -> c_lf ∈ p' ->
  exists n name args, parse_resp_request (aof_magic ++ p') = (n, name :: args) /\ 0 < n /\ take 8 name = aof_magic.
Proof.
  intros Hlen Hin. pose proof (scan_pos is_lf p' c_lf Hin eq_refl) as Hlt. set (e := scan is_lf p') in *.
  assert (Hp : parse_resp_request (aof_magic ++ p') = parse_inline (aof_magic ++ p')) by reflexivity.
  rewrite Hp. unfold parse_inline.
  assert (He : scan is_lf (aof_magic ++ p') = (8 + e)%nat) by (apply (scan_app_none is_lf aof_magic p'); by repeat constructor).
  rewrite He, length_app. change (length aof_magic) with 8%nat.
  clearbody e. assert (k_max_inline <? Z.of_nat (8 + e) = false) as -> by (apply Z.ltb_ge; unfold k_max_inline; lia).
  assert ((8 + e =? 8 + length p')%nat = false) as -> by (apply Nat.eqb_neq; lia).
  match goal with |- context [split_blank (S ?x)] => set (le := x) end.
  assert (Hle : (8 <= le)%nat).
  { unfold le. destruct (_ && _) eqn:E; [|lia]. apply andb_true_iff in E as [_ E]. apply bool_decide_eq_true in E.
    destruct (decide (e = 0%nat)) as [E0|E0]; [|lia]. rewrite E0 in E. discriminate E. }
  assert (Ht : take le (aof_magic ++ p') = aof_magic ++ take (le - 8) p') by (rewrite take_app, take_ge; [done|exact Hle]).
  rewrite Ht. eexists _, _, _. split; [reflexivity|]. split; [rewrite i32_small; lia|].
  assert (Hs : scan is_blank (aof_magic ++ take (le - 8) p') = (8 + scan is_blank (take (le - 8) p'))%nat)
    by (apply (scan_app_none is_blank aof_magic); by repeat constructor).
  match goal with |- context [scan is_blank ?x] => change x with (aof_magic ++ take (le - 8) p') end.
  rewrite Hs, take_take, Nat.min_l by lia. reflexivity.
Qed.

Lemma load_cut_header img tail n w :
  (0 < n < 16)%nat ->
  let p := take n (rdb_build_aof_preamble img ++ tail) in
  if decide (c_lf ∈ p) then (aof_load other uncompress p w).1.1 = false
  else aof_load other uncompress p w = (true, with_writes 0 (with_out (buf_create 4096) w), Some 0%nat).
Proof.
  intros Hn. cbn zeta. set (p := take n _).
  assert (Hlen : length p = n) by (unfold p; rewrite length_take, length_app, preamble_length; lia).
  assert (Hload : aof_load other uncompress p w =
    let '(st, good) := aof_replay (replay_one other) (length p) p 0 (mkReplay (with_out (buf_create 4096) w) 0 0 0) in
    ((replay_error st =? 0)%nat, with_writes 0 (rw st), if (good <? length p)%nat then Some good else None)).
  { unfold aof_load. assert ((length p =? 0)%nat = false) as -> by (apply Nat.eqb_neq; lia).
    assert ((16 <=? length p)%nat = false) as -> by (apply Nat.leb_gt; lia). done. }
  rewrite Hload, Hlen. clear Hload. destruct n as [|n]; [lia|]. cbn [aof_replay]. rewrite Hlen. change (S n =? 0)%nat with false. cbv iota.
  assert (Hm : p = take (S n) aof_magic ++ take (S n - 8) (le_bytes 8 (Z.of_nat (length img)) ++ img ++ tail))
    by (unfold p, rdb_build_aof_preamble; rewrite <- !app_assoc; apply take_app).
  destruct (decide (c_lf ∈ p)) as [Hlf|Hlf].
  - assert (H8 : (8 <= S n)%nat).
    { destruct (decide (8 <= S n)%nat); [done|]. replace (S n - 8)%nat with 0%nat in Hm by lia. rewrite take_0, app_nil_r in Hm. rewrite Hm in Hlf.
      apply elem_of_take in Hlf as (i & Hi & _). assert (Hno : c_lf ∉ aof_magic) by (apply (bool_decide_unpack _); vm_compute; exact I).
      exfalso. apply Hno. by eapply list_elem_of_lookup_2. }
    rewrite (take_ge aof_magic) in Hm by exact H8.
    destruct (parse_magic (take (S n - 8) (le_bytes 8 (Z.of_nat (length img)) ++ img ++ tail))) as (k & name & args & Hp & Hk & Hname).
    { rewrite length_take. lia. }
    { rewrite Hm in Hlf. apply elem_of_app in Hlf as [Hx|]; [|done].
      assert (Hno : c_lf ∉ aof_magic) by (apply (bool_decide_unpack _); vm_compute; exact I). done. }
    rewrite <- Hm in Hp. rewrite Hp. assert ((k =? 0) || (k <? 0) = false) as -> by lia.
    match goal with |- context [aof_replay _ n ?b ?g ?st] =>
      pose proof (aof_replay_error_grows n b g st) as Hg; destruct (aof_replay (replay_one other) n b g st) as [st' g'] end.
    destruct (buf_create_wf 4096) as [B1 B2].
    pose proof (magic_refused name args (mkReplay (with_out (buf_create 4096) w) 0 0 0) Hname B1 B2 eq_refl) as Hpos.
    cbn [fst] in *. apply Nat.eqb_neq. lia.
  - assert (Hp : parse_resp_request p = (0, [])); [|by rewrite Hp].
    assert (Hi : parse_resp_request p = parse_inline p) by (rewrite Hm; reflexivity). rewrite Hi. unfold parse_inline.
    rewrite scan_none, Hlen, Nat.eqb_refl.
    + assert (k_max_inline <? Z.of_nat (S n) = false) as -> by (apply Z.ltb_ge; unfold k_max_inline; lia). done.
    + apply Forall_forall. intros c Hc. unfold is_lf. apply bool_decide_eq_false. by intros ->.
Qed.
End Recover.

Lemma images_are n evs i pre :
  (i, pre) ∈ images n evs -> exists busy ok img, ARewrite busy ok img ∈ evs /\ pre = rdb_build_aof_preamble img.
Proof.
  revert n. induction evs as [|e evs IH]; intros n H; [by apply not_elem_of_nil in H|].
  assert (Hcase : (exists busy ok img, e = ARewrite busy ok img /\ pre = rdb_build_aof_preamble img) \/ exists m, (i, pre) ∈ images m evs).
  { destruct e as [fs|rs|busy ok img|r]; cbn in H; [eauto..| |eauto]. apply elem_of_cons in H as [[= -> ->]|H]; [|eauto]. left. eauto. }
  destruct Hcase as [(busy & ok & img & -> & ->)|[m Hm]]; [exists busy, ok, img; split; [by left|done]|].
  destruct (IH m Hm) as (busy & ok & img & Hin & ->). exists busy, ok, img. split; [by right|done].
Qed.

(** ** Claims *)

(** C12: The log survives a crash at any byte.  A file is a log of commands,
    behind an image if it was rewritten ([preamble]), cut after [n] bytes.
    - Cut behind the image: the loader restores the image (or refuses it as
      [rdb_load_buffer] does, touching nothing else), replays exactly the
      commands whose frames are complete, in order, and trims the file behind
      the last of them; it reports success when none of them was answered with
      an error.
    - Cut inside the image: the load fails, the dataset and the file are as
      they were, and nothing is replayed or trimmed.
    - Cut inside the 16 bytes before the image: what is left is taken for a
      log; without a line feed nothing is replayed and the file is trimmed to
      nothing, with one the load fails. *)
Theorem aof_truncation_safe (other : bytes -> Handler) (uncompress : bytes -> nat -> option bytes) (img : option bytes) (cmds : list (list bytes)) (n : nat) (w : World)
    (Hok : Forall args_ok cmds) (Himg : match img with Some i => Z.of_nat (length i) < 2 ^ 64 | None => True end)
    (Hp : take n (preamble img ++ log_of cmds) <> []) :
  let p := take n (preamble img ++ log_of cmds) in
  let start := length (preamble img) in
  ((start <= n)%nat -> exists k, (k <= length cmds)%nat /\
     let good := (start + length (log_of (take k cmds)))%nat in
     aof_load other uncompress p w = restored uncompress img w (replayed_to other (take k cmds) good (length p)) /\
     (good <= n)%nat /\ ((k < length cmds)%nat -> (n < start + length (log_of (take (S k) cmds)))%nat)) /\
  ((16 <= n < start)%nat -> aof_load other uncompress p w = (false, w, None)) /\
  ((n < 16)%nat -> (n < start)%nat ->
     if decide (c_lf ∈ p) then (aof_load other uncompress p w).1.1 = false
     else aof_load other uncompress p w = (true, with_writes 0 (with_out (buf_create 4096) w), Some 0%nat)).
Proof.
  cbn zeta. split; [intros Hn; by apply load_cut_log|]. destruct img as [img|]; cbn [preamble fmap option_fmap option_map default from_option id] in *.
  - rewrite preamble_length. split; [intros Hn; by apply load_cut_image|]. intros H16 _. apply load_cut_header.
    destruct n; [done|lia].
  - cbn [length]. split; intros; lia.
Qed.

Lemma aof_truncation_safe_witness :
  let cmds := [[bs "SET"; bs "a"; bs "1"]; [bs "DEL"; bs "a"]] in
  let img := Some (bs "image") in
  let start := length (preamble img) in
  let p := take 60 (preamble img ++ log_of cmds) in
  aof_load no_other (fun _ _ => None) (take 18 (preamble img ++ log_of cmds)) w0 = (false, w0, None) /\
  exists k, (k <= length cmds)%nat /\
    let good := (start + length (log_of (take k cmds)))%nat in
    aof_load no_other (fun _ _ => None) p w0 = restored (fun _ _ => None) img w0 (replayed_to no_other (take k cmds) good (length p)) /\
    (good <= 60)%nat /\ ((k < length cmds)%nat -> (60 < start + length (log_of (take (S k) cmds)))%nat).
Proof.
  intros cmds img start p. assert (Hok : Forall args_ok cmds) by (repeat constructor; vm_compute; discriminate).
  assert (Hi : Z.of_nat (length (bs "image")) < 2 ^ 64) by (vm_compute; reflexivity).
  destruct (aof_truncation_safe no_other (fun _ _ => None) img cmds 18 w0 Hok Hi) as (_ & H & _); [discriminate|].
  destruct (aof_truncation_safe no_other (fun _ _ => None) img cmds 60 w0 Hok Hi) as (H' & _); [discriminate|].
  split; [apply H; vm_compute; lia|]. apply H'. vm_compute. lia.
Defined.

(** C13: A rewrite loses and repeats nothing.  Whatever was logged, flushed in
    whatever pieces, and however often the log was rewritten, successfully or
    not, as long as no bytes wait in the buffer when a child is reaped: once
    the buffer is flushed, loading the file restores one of the images taken
    (or starts empty) and replays exactly the commands logged after that image,
    in order, and trims nothing. *)
Theorem aof_rewrite_safe (other : bytes -> Handler) (uncompress : bytes -> nat -> option bytes) (evs : list AEvent) (w : World)
    (Hcalm : calm evs aof0) (Hargs : Forall args_ok (logged evs))
    (Himg : forall busy ok img, ARewrite busy ok img ∈ evs -> Z.of_nat (length img) < 2 ^ 64)
    (Hflushed : aof_buf (aof_run evs aof0) = []) :
  exists i img, (i <= length (logged evs))%nat /\
    match img with None => i = 0%nat | Some img => (i, rdb_build_aof_preamble img) ∈ images 0 evs end /\
    aof_load other uncompress (file (aof_run evs aof0)) w = recovered other uncompress img (drop i (logged evs)) w.
Proof.
  destruct (log_kept_run evs aof0 [] []) as [(i & pre & Hi & Hle & Hf) _]; [split; [exists 0%nat, []; split; [by left|done]|done]|done|].
  cbn [app length] in *. rewrite Hflushed, app_nil_r in Hf. rewrite Hf.
  assert (Hargs' : Forall args_ok (drop i (logged evs))) by (by apply Forall_drop).
  apply elem_of_cons in Hi as [[= -> ->]|Hi].
  - exists 0%nat, None. split; [done|]. split; [done|]. by apply load_plain_log.
  - destruct (images_are _ _ _ _ Hi) as (busy & ok & img & Hin & ->). exists i, (Some img). split; [done|]. split; [done|].
    apply load_image_log; [done|]. by eapply Himg.
Qed.

Definition fr (l : list string) : list bytes := bs <$> l.
Definition good_reap : Reap := mkReap true true [] true true true.

Definition demo_run : list AEvent :=
  [ALog [fr ["SET"; "a"; "1"]]; AFlush [WTook 3; WIntr; WTook 4]; ARewrite false true (bs "image"); ALog [fr ["INCR"; "a"]]; AFlush [];
   AReap good_reap; ALog [fr ["DEL"; "a"]]; AFlush []].

Lemma aof_rewrite_safe_witness :
  (exists i img, (i <= length (logged demo_run))%nat /\
    match img with None => i = 0%nat | Some img => (i, rdb_build_aof_preamble img) ∈ images 0 demo_run end /\
    aof_load no_other (fun _ _ => None) (file (aof_run demo_run aof0)) w0 = recovered no_other (fun _ _ => None) img (drop i (logged demo_run)) w0) /\
  file (aof_run demo_run aof0) = rdb_build_aof_preamble (bs "image") ++ log_of [fr ["INCR"; "a"]; fr ["DEL"; "a"]].
Proof.
  split; [|vm_compute; reflexivity]. apply (aof_rewrite_safe no_other (fun _ _ => None) demo_run w0).
  - vm_compute. intuition discriminate.
  - repeat constructor; vm_compute; discriminate.
  - intros busy ok img Hin. unfold demo_run in Hin. repeat (apply elem_of_cons in Hin as [Hin|Hin]; [try discriminate Hin|]).
    + injection Hin as _ _ ->. vm_compute. reflexivity.
    + by apply not_elem_of_nil in Hin.
  - vm_compute. reflexivity.
Defined.

(** The checker does not know the image.  For a log just rewritten, an
    image with nothing after it, and any image that does not end in a line
    feed: the loader restores it, the checker reports it as damaged, and with
    the repair asked for it cuts the file short inside the image, after which
    the loader refuses what is left of it. *)
Theorem aof_check_cuts_image (other : bytes -> Handler) (uncompress : bytes -> nat -> option bytes) (img : bytes) (w : World)
    (Hlen : Z.of_nat (length img) + 16 < 2 ^ 31) (Himg : img <> []) (Hlast : last img <> Some c_lf) :
  let raw := rdb_build_aof_preamble img in
  aof_load other uncompress raw w = recovered other uncompress (Some img) [] w /\
  aof_check false raw = (false, raw) /\
  exists p, aof_check true raw = (true, p) /\ (length p < length raw)%nat /\
    ((16 <= length p)%nat -> aof_load other uncompress p w = (false, w, None)).
Proof.
  cbn zeta. set (raw := rdb_build_aof_preamble img). pose proof (preamble_length img) as Hraw. fold raw in Hraw.
  split; [rewrite <- (app_nil_r raw); apply (load_image_log other uncompress img []); [constructor|lia]|].
  unfold aof_check. rewrite Hraw. change (16 + length img =? 0)%nat with false. cbv iota.
  pose proof (check_loop_spec (16 + length img) raw 0 ltac:(lia) ltac:(lia)) as Hc.
  destruct (check_loop _ _ _) as [o reason]. destruct Hc as [_ Hc]. destruct reason; cbn [negb].
  - split; [done|]. exists (take o raw). split; [done|]. rewrite length_take. split; [lia|]. intros H16.
    rewrite <- (app_nil_r raw). apply load_cut_image; lia.
  - exfalso. destruct Hc as [Hc|Hc]; [by rewrite Hc in Hraw|]. apply Hlast. rewrite <- Hc. unfold raw, rdb_build_aof_preamble.
    rewrite app_assoc, last_app. by destruct (last img) eqn:E; [|apply last_None in E].
Qed.

Lemma aof_check_cuts_image_witness :
  let img := Buffer.content (rdb_build_image toy_compress (env_at 1000 5000) ks_demo (buf_create 64)) in
  let raw := rdb_build_aof_preamble img in
  aof_load no_other toy_uncompress raw w0 = recovered no_other toy_uncompress (Some img) [] w0 /\
  aof_check false raw = (false, raw) /\
  exists p, aof_check true raw = (true, p) /\ (length p < length raw)%nat /\
    ((16 <= length p)%nat -> aof_load no_other toy_uncompress p w0 = (false, w0, None)).
Proof.
  apply (aof_check_cuts_image no_other toy_uncompress (Buffer.content (rdb_build_image toy_compress (env_at 1000 5000) ks_demo (buf_create 64))) w0).
  - vm_compute. reflexivity.
  - vm_compute. discriminate.
  - vm_compute. discriminate.
Defined.

(** What waits in the buffer when the rewrite ends is written twice: once with
    the bytes collected for the child and again by the next flush.  Here the
    write of an INCR fails, the rewrite completes, and the log replays the
    INCR twice. *)
Example pending_bytes_twice :
  let run := [ARewrite false true []; ALog [fr ["SET"; "n"; "1"]]; AFlush []; ALog [fr ["INCR"; "n"]]; AFlush [WFail]; AReap good_reap; AFlush []] in
  file (aof_run run aof0) = rdb_build_aof_preamble [] ++ log_of [fr ["SET"; "n"; "1"]; fr ["INCR"; "n"]; fr ["INCR"; "n"]].
Proof. vm_compute. reflexivity. Qed.
