(* ===== verification/ReplicaLink.v ===== *)
(** * The replica's side of replication (src/src/server/server.cpp 159-189, 203-277, 357-540)

    A replica dials its master, asks to continue where it stopped or for
    everything ([repl_start]), and then reads the master's answer, the image
    and the stream of commands through one state machine, in whatever pieces
    the socket delivers them ([repl_master_data]). *)
From S2P Require Import Prelude Buffer Resp StdString Deque Hashtable HashMap Heap Score ZSet HashSet State World Args Strings Lists Glob Keys Containers Hashes Sets CText CmdTable Handlers Double Crc32 Rdb Backlog Aof AofFile.

Inductive ReplState := NONE | HANDSHAKE | RDB_LEN | RDB_BODY | STREAMING.
Inductive FailoverState := FO_NONE | FO_WAIT_FOR_SYNC | FO_IN_PROGRESS.

#[global] Instance FailoverState_eq_dec : EqDecision FailoverState.
Proof. solve_decision. Defined.

(** The replica's part of [GlobalData], and the link's [Conn]; the buffers are
    their live bytes. *)
Record Link := mkLink {
  repl_state : ReplState;
  replica_mode : bool;
  master_link : bool;
  incoming : bytes;
  link_out : bytes;
  want_close : bool;
  repl_rdb_left : Z;
  repl_rdb_buf : bytes;
  failover_state : FailoverState;
  rep : Repl;
  lw : World;
}.

Definition with_state (x : ReplState) (l : Link) : Link :=
  mkLink x (replica_mode l) (master_link l) (incoming l) (link_out l) (want_close l) (repl_rdb_left l) (repl_rdb_buf l) (failover_state l) (rep l) (lw l).
Definition with_incoming (x : bytes) (l : Link) : Link :=
  mkLink (repl_state l) (replica_mode l) (master_link l) x (link_out l) (want_close l) (repl_rdb_left l) (repl_rdb_buf l) (failover_state l) (rep l) (lw l).
Definition closing (l : Link) : Link :=
  mkLink (repl_state l) (replica_mode l) (master_link l) (incoming l) (link_out l) true (repl_rdb_left l) (repl_rdb_buf l) (failover_state l) (rep l) (lw l).
Definition with_rdb (left : Z) (buf : bytes) (l : Link) : Link :=
  mkLink (repl_state l) (replica_mode l) (master_link l) (incoming l) (link_out l) (want_close l) left buf (failover_state l) (rep l) (lw l).
Definition with_rep (x : Repl) (l : Link) : Link :=
  mkLink (repl_state l) (replica_mode l) (master_link l) (incoming l) (link_out l) (want_close l) (repl_rdb_left l) (repl_rdb_buf l) (failover_state l) x (lw l).
Definition with_lw (x : World) (l : Link) : Link :=
  mkLink (repl_state l) (replica_mode l) (master_link l) (incoming l) (link_out l) (want_close l) (repl_rdb_left l) (repl_rdb_buf l) (failover_state l) (rep l) x.

(** [failover_reset]: the hand-over is over (the writes parked during it are
    then answered by the dispatcher). *)
Definition failover_reset (l : Link) : Link :=
  mkLink (repl_state l) (replica_mode l) (master_link l) (incoming l) (link_out l) (want_close l) (repl_rdb_left l) (repl_rdb_buf l) FO_NONE (rep l) (lw l).

(** ** Dialling *)

Definition repl_link_lost (l : Link) : Link :=
  if master_link l
  then mkLink NONE (replica_mode l) false [] [] false 0 [] (failover_state l) (rep l) (lw l)
  else l.

Definition repl_stop (l : Link) : Link :=
  mkLink NONE false false [] [] false 0 [] (failover_state l) (rep l) (lw l).

(** The handshake, queued at once. *)
Definition handshake (masterauth : bytes) (port : Z) (l : Link) : list (list bytes) :=
  let in_progress := bool_decide (failover_state l = FO_IN_PROGRESS) in
  let have_history := (replica_mode l || in_progress) && negb (bool_decide (repl_id (rep l) = [])) in
  let hist_id := repl_id (rep l) in
  let psync_off := print_u64 (u64 (master_repl_offset (rep l) + 1)) in
  (if bool_decide (masterauth = []) then [] else [[bs "AUTH"; masterauth]]) ++
  [[bs "REPLCONF"; bs "listening-port"; print_i64 port];
   if in_progress then [bs "PSYNC"; hist_id; psync_off; bs "FAILOVER"]
   else if have_history then [bs "PSYNC"; hist_id; psync_off]
   else [bs "PSYNC"; bs "?"; bs "-1"]].

(** [dialled]: the address is valid and the connection is under way. *)
Definition repl_start (dialled : bool) (masterauth : bytes) (port : Z) (l : Link) : bool * Link :=
  if negb dialled then (false, l)
  else
    let hs := foldl aof_encode [] (handshake masterauth port l) in
    let l := repl_stop l in
    (true, mkLink HANDSHAKE true true [] hs false (repl_rdb_left l) (repl_rdb_buf l) (failover_state l) (rep l) (lw l)).

(** ** Reading *)

(** The first line of the buffer and what follows it. *)
Fixpoint repl_take_line (s : bytes) : option (bytes * bytes) :=
  match s with
  | c :: t =>
      match t with
      | d :: u =>
          if bool_decide (c = c_cr) && bool_decide (d = c_lf) then Some ([], u)
          else '(line, rest) ← repl_take_line t; Some (c :: line, rest)
      | [] => None
      end
  | [] => None
  end.

Definition c_space : ascii := chr 32.

(** [line.find(' ', from)]. *)
Definition find_space (from : nat) (line : bytes) : option nat :=
  let i := (from + scan (fun c => bool_decide (c = c_space)) (drop from line))%nat in
  if (i <? length line)%nat then Some i else None.

(** [strtoull] with the tests of the length header on [errno] and the end
    pointer. *)
Definition parse_u64_strict (s : bytes) : option Z :=
  let t := skip_space (c_str s) in
  let '(neg, t) := match t with
                   | c :: t' => if bool_decide (c = chr 45) then (true, t')
                                else if bool_decide (c = chr 43) then (false, t') else (false, t)
                   | [] => (false, [])
                   end in
  let '(digits, rest) := span_digits t in
  let v := digits_val 0 digits in
  if (length digits =? 0)%nat || negb (length rest =? 0)%nat || (UINT64_MAX <? v) then None
  else Some (if (neg : bool) then u64 (- v) else v).

Section Read.
Context (other : bytes -> Handler) (uncompress : bytes -> nat -> option bytes).

(** A command of the master, through the dispatcher as the log loader uses it. *)
Definition repl_apply (cmd : list bytes) (w : World) : World :=
  with_out (out w) (replay_request other cmd (with_out (buf_create 256) w)).2.

(** One round of the loop: whether it goes on, and the state. *)
Definition link_step (l : Link) : bool * Link :=
  match repl_state l with
  | NONE => (false, l)
  | HANDSHAKE =>
      match repl_take_line (incoming l) with
      | None => (false, l)
      | Some (line, rest) =>
          let l := with_incoming rest l in
          if (length line =? 0)%nat then (true, l)
          else if bool_decide (line !! 0%nat = Some (chr 45)) then (false, closing l)
          else if bool_decide (take 9 line = bs "+CONTINUE") then
            let newid := match find_space 9 line with Some sp => drop (sp + 1) line | None => [] end in
            let r := if bool_decide (newid = []) || bool_decide (newid = repl_id (rep l)) then rep l else with_ids newid [] 0 (rep l) in
            (true, failover_reset (with_state STREAMING (with_rep r l)))
          else if negb (bool_decide (take 12 line = bs "+FULLRESYNC ")) then (true, l)
          else
            match find_space 12 line with
            | None => (false, closing l)
            | Some sp =>
                let r := adopt_history (slice 12 (sp - 12) line) (strtoull (drop (sp + 1) line)) (rep l) in
                (true, failover_reset (with_state RDB_LEN (with_rep r l)))
            end
      end
  | RDB_LEN =>
      match repl_take_line (incoming l) with
      | None => (false, l)
      | Some (line, rest) =>
          let l := with_incoming rest l in
          if negb (bool_decide (line !! 0%nat = Some c_dollar)) then (false, closing l)
          else
            match parse_u64_strict (drop 1 line) with
            | None => (false, closing l)
            | Some len => (true, with_state RDB_BODY (with_rdb len [] l))
            end
      end
  | RDB_BODY =>
      let have := length (incoming l) in
      let n := if repl_rdb_left l <=? Z.of_nat have then Z.to_nat (repl_rdb_left l) else have in
      let left := repl_rdb_left l - Z.of_nat n in
      let img := repl_rdb_buf l ++ take n (incoming l) in
      let l := with_rdb left img (with_incoming (drop n (incoming l)) l) in
      if negb (left =? 0) then (false, l)
      else
        let w := repl_apply [bs "flushall"] (lw l) in
        let l := with_rdb 0 [] l in
        match rdb_load_buffer uncompress (env w) img (ks w) with
        | (ROk _, s) => (true, with_state STREAMING (with_lw (with_ks s w) l))
        | (_, s) => (false, closing (with_lw (with_ks s w) l))
        end
  | STREAMING =>
      let '(consumed, cmd) := parse_resp_request (incoming l) in
      if consumed =? 0 then (false, l)
      else if consumed <? 0 then (false, closing l)
      else
        let n := Z.to_nat consumed in
        let l := with_incoming (drop n (incoming l)) (with_rep (repl_backlog_feed (take n (incoming l)) (rep l)) l) in
        (true, if (length cmd =? 0)%nat then l else with_lw (repl_apply cmd (lw l)) l)
  end.

(** Every round that goes on takes a byte or ends the image. *)
Definition rounds (l : Link) : nat := 2 * length (incoming l) + match repl_state l with RDB_BODY => 1 | _ => 0 end.

Fixpoint drain (fuel : nat) (l : Link) : Link :=
  match fuel with
  | O => l
  | S f => let '(go, l') := link_step l in if go then drain f l' else l'
  end.

Definition repl_master_data (l : Link) : Link := drain (S (rounds l)) l.

(** The master's part of [handle_read]: one chunk from the socket; a link that
    is closing reads no more. *)
Definition link_read (data : bytes) (l : Link) : Link :=
  if want_close l || (length data =? 0)%nat then l
  else repl_master_data (with_incoming (incoming l ++ data) l).

(** ** The loop ends by itself *)

Lemma take_line_length s line rest : repl_take_line s = Some (line, rest) -> length s = (length line + 2 + length rest)%nat.
Proof.
  revert line. induction s as [|c s IH]; intros line H; [done|]. cbn [repl_take_line] in H. destruct s as [|d u]; [done|].
  destruct (_ && _) eqn:E; [injection H as <- <-; cbn; lia|].
  destruct (repl_take_line (d :: u)) as [[line' rest']|]; [|done]. cbn in H. injection H as <- <-. specialize (IH line' eq_refl).
  cbn [length] in *. lia.
Qed.

Lemma step_rounds l l' : link_step l = (true, l') -> (rounds l' < rounds l)%nat.
Proof.
  unfold link_step, rounds. destruct (repl_state l) eqn:Hs; [done|..].
  - destruct (repl_take_line (incoming l)) as [[line rest]|] eqn:El; [|done]. apply take_line_length in El.
    repeat (case_match_eqn; try done); intros [= <-]; cbn; rewrite ?Hs; lia.
  - destruct (repl_take_line (incoming l)) as [[line rest]|] eqn:El; [|done]. apply take_line_length in El.
    repeat (case_match_eqn; try done); intros [= <-]; cbn; lia.
  - destruct (negb _); [done|]. destruct (rdb_load_buffer _ _ _ _) as [[] s]; try done. intros [= <-]. cbn. rewrite length_drop. lia.
  - destruct (parse_resp_request (incoming l)) as [r cmd] eqn:Ep. destruct (r =? 0) eqn:E0; [done|]. destruct (r <? 0) eqn:E1; [done|].
    assert (incoming l <> []) by (intros Hi; rewrite Hi in Ep; cbn in Ep; injection Ep as <- <-; lia).
    intros [= <-]. destruct (length cmd =? 0)%nat; cbn [rounds incoming with_incoming with_lw repl_state with_rep]; rewrite Hs, length_drop;
      destruct (incoming l); cbn [length] in *; done || lia.
Qed.

Lemma drain_enough n : forall l, (rounds l < n)%nat -> drain n l = repl_master_data l.
Proof.
  unfold repl_master_data. induction n as [n IH] using lt_wf_ind. intros l Hn. destruct n as [|n]; [lia|]. cbn [drain].
  destruct (link_step l) as [[] l'] eqn:E; [|done]. apply step_rounds in E.
  rewrite (IH n) by lia. destruct (decide (rounds l = n)) as [->|Hne]; [symmetry; apply IH; lia|]. symmetry. apply IH; lia.
Qed.

Lemma master_data_step l :
  repl_master_data l = let '(go, l') := link_step l in if go then repl_master_data l' else l'.
Proof.
  unfold repl_master_data at 1. cbn [drain]. destruct (link_step l) as [[] l'] eqn:E; [|done]. apply drain_enough.
  by apply step_rounds.
Qed.

(** ** More bytes behind *)

Definition more (b : bytes) (l : Link) : Link := with_incoming (incoming l ++ b) l.

Lemma take_line_app s b line rest : repl_take_line s = Some (line, rest) -> repl_take_line (s ++ b) = Some (line, rest ++ b).
Proof.
  revert line. induction s as [|c s IH]; intros line H; [done|]. cbn [repl_take_line app] in *. destruct s as [|d u]; [done|].
  cbn [app]. destruct (_ && _); [by injection H as <- <-|].
  destruct (repl_take_line (d :: u)) as [[line' rest']|]; [|done]. cbn in H. injection H as <- <-.
  change (d :: u ++ b) with ((d :: u) ++ b). by rewrite (IH line' eq_refl).
Qed.

Lemma i32_le n : i32 (Z.of_nat n) <= Z.of_nat n.
Proof. unfold i32. pose proof (Z.mod_le (Z.of_nat n + 2 ^ 31) (2 ^ 32)). lia. Qed.

(** The count never passes the buffer, even where it is narrowed to 32 bits. *)
Lemma read_bulks_le n data : forall pos cmd r c,
  (pos <= length data)%nat -> read_bulks n data pos cmd = (r, c) -> r <= Z.of_nat (length data).
Proof.
  induction n as [|n IH]; intros pos cmd r c Hpos; cbn [read_bulks].
  { intros [= <- _]. pose proof (i32_le pos). lia. }
  repeat (case_match_eqn; try (intros [= <- _]; lia)). apply IH. bool_facts.
  match goal with H : data !! _ = Some c_lf |- _ => apply lookup_lt_Some in H end. lia.
Qed.

Lemma parse_le data r c : parse_resp_request data = (r, c) -> r <= Z.of_nat (length data).
Proof.
  unfold parse_resp_request. destruct data as [|x data]; [intros [= <- _]; cbn; lia|]. case_match.
  - unfold parse_inline. pose proof (scan_le is_lf (x :: data)) as Hs.
    destruct (k_max_inline <? _); [intros [= <- _]; lia|].
    destruct (_ =? _)%nat eqn:E2; [intros [= <- _]; lia|]. intros Hp. apply (f_equal fst) in Hp. cbn [fst] in Hp. subst r. bool_facts.
    pose proof (i32_le (scan is_lf (x :: data) + 1)) as Hi. rewrite Nat2Z.inj_add in Hi. change (Z.of_nat 1) with 1 in Hi. lia.
  - repeat (case_match_eqn; try (intros [= <- _]; lia)). apply read_bulks_le. bool_facts. lia.
Qed.

Lemma step_more l l' b : link_step l = (true, l') -> link_step (more b l) = (true, more b l').
Proof.
  unfold link_step, more. cbn [repl_state with_incoming incoming]. destruct (repl_state l) eqn:Hs; [done|..].
  - destruct (repl_take_line (incoming l)) as [[line rest]|] eqn:El; [|done]. rewrite (take_line_app _ b _ _ El).
    cbn [rep with_incoming]. repeat (case_match_eqn; try done); by intros [= <-].
  - destruct (repl_take_line (incoming l)) as [[line rest]|] eqn:El; [|done]. rewrite (take_line_app _ b _ _ El).
    repeat (case_match_eqn; try done); by intros [= <-].
  - cbn [repl_rdb_left repl_rdb_buf with_incoming lw]. destruct (repl_rdb_left l <=? Z.of_nat (length (incoming l))) eqn:Ele.
    + apply Z.leb_le in Ele. rewrite length_app.
      rewrite (proj2 (Z.leb_le (repl_rdb_left l) (Z.of_nat (length (incoming l) + length b)))) by lia.
      rewrite take_app_le, drop_app_le by lia. destruct (negb _); [done|]. cbn [lw with_rdb with_incoming].
      destruct (rdb_load_buffer _ _ _ _) as [[] s]; try done. by intros [= <-].
    + apply Z.leb_gt in Ele. rewrite (proj2 (Z.eqb_neq _ _)) by lia. done.
  - destruct (parse_resp_request (incoming l)) as [r cmd] eqn:Ep. destruct (r =? 0) eqn:E0; [done|]. destruct (r <? 0) eqn:E1; [done|].
    apply Z.eqb_neq in E0. rewrite (parse_stable _ b _ _ Ep E0), E1, (proj2 (Z.eqb_neq _ _) E0). pose proof (parse_le _ _ _ Ep) as Hle.
    rewrite take_app_le, drop_app_le by lia. intros [= <-]. by destruct (length cmd =? 0)%nat.
Qed.

Lemma step_keeps_open l l' : link_step l = (true, l') -> want_close l' = want_close l.
Proof.
  unfold link_step. repeat (case_match_eqn; try done); by intros [= <-].
Qed.

(** Part of the image, and the rest of it later. *)
Lemma body_more l b : repl_state l = RDB_BODY -> Z.of_nat (length (incoming l)) < repl_rdb_left l ->
  let have := length (incoming l) in
  let l' := with_rdb (repl_rdb_left l - Z.of_nat have) (repl_rdb_buf l ++ take have (incoming l)) (with_incoming (drop have (incoming l)) l) in
  link_step (more b l') = link_step (more b l).
Proof.
  intros Hs Hlt. cbn zeta. unfold link_step, more. cbn [repl_state with_rdb with_incoming incoming repl_rdb_left repl_rdb_buf lw].
  rewrite Hs, !length_app, drop_all, firstn_all. cbn [app length Nat.add]. set (have := length (incoming l)) in *.
  set (n' := if repl_rdb_left l - Z.of_nat have <=? Z.of_nat (length b) then Z.to_nat (repl_rdb_left l - Z.of_nat have) else length b).
  set (n := if repl_rdb_left l <=? Z.of_nat (have + length b) then Z.to_nat (repl_rdb_left l) else (have + length b)%nat).
  assert (Hn : n = (have + n')%nat).
  { unfold n, n'. destruct (Z.leb_spec (repl_rdb_left l) (Z.of_nat (have + length b))), (Z.leb_spec (repl_rdb_left l - Z.of_nat have) (Z.of_nat (length b))); lia. }
  assert (repl_rdb_left l - Z.of_nat have - Z.of_nat n' = repl_rdb_left l - Z.of_nat n) as -> by lia.
  assert ((repl_rdb_buf l ++ incoming l) ++ take n' b = repl_rdb_buf l ++ take n (incoming l ++ b)) as ->.
  { by rewrite <- app_assoc, Hn; unfold have; rewrite take_app_add. }
  assert (drop n' b = drop n (incoming l ++ b)) as -> by (rewrite Hn; unfold have; by rewrite drop_app_add). done.
Qed.

(** Where the loop stops, it is closing, or the bytes it keeps are read again
    with those that come. *)
Lemma stop_more l l' b : link_step l = (false, l') -> want_close l = false ->
  if want_close l' then link_step (more b l) = (false, more b l') else repl_master_data (more b l') = repl_master_data (more b l).
Proof.
  intros H Ho. destruct (repl_state l) eqn:Hs.
  - unfold link_step in H. rewrite Hs in H. injection H as <-. by rewrite Ho.
  - unfold link_step at 1 in H. unfold link_step, more. cbn [repl_state with_incoming incoming]. rewrite Hs in *.
    destruct (repl_take_line (incoming l)) as [[line rest]|] eqn:El; [|injection H as <-; by rewrite Ho]. rewrite (take_line_app _ b _ _ El).
    cbn [rep with_incoming] in *. revert H. repeat (case_match_eqn; try done); by intros [= <-].
  - unfold link_step at 1 in H. unfold link_step, more. cbn [repl_state with_incoming incoming]. rewrite Hs in *.
    destruct (repl_take_line (incoming l)) as [[line rest]|] eqn:El; [|injection H as <-; by rewrite Ho]. rewrite (take_line_app _ b _ _ El).
    revert H. repeat (case_match_eqn; try done); by intros [= <-].
  - destruct (decide (Z.of_nat (length (incoming l)) < repl_rdb_left l)) as [Hlt|Hge].
    + assert (l' = with_rdb (repl_rdb_left l - Z.of_nat (length (incoming l))) (repl_rdb_buf l ++ take (length (incoming l)) (incoming l))
        (with_incoming (drop (length (incoming l)) (incoming l)) l)) as ->.
      { unfold link_step in H. rewrite Hs, (proj2 (Z.leb_gt _ _)), (proj2 (Z.eqb_neq _ _)) in H by lia. by injection H as <-. }
      cbn [want_close with_rdb with_incoming]. rewrite Ho. rewrite !(master_data_step (more b _)). by rewrite body_more.
    + unfold link_step at 1 in H. unfold link_step, more. cbn [repl_state with_incoming incoming repl_rdb_left repl_rdb_buf lw].
      rewrite Hs in *. rewrite (proj2 (Z.leb_le _ _)) in H by lia. rewrite length_app, (proj2 (Z.leb_le _ _)) by lia.
      rewrite take_app_le, drop_app_le by lia. destruct (negb _) eqn:En.
      { injection H as <-. bool_facts. replace (Z.to_nat (repl_rdb_left l)) with 0%nat by lia. rewrite take_0, drop_0, app_nil_r, Z.sub_0_r.
        cbn [want_close with_rdb with_incoming]. by rewrite Ho. }
      cbn [lw with_rdb with_incoming] in *. destruct (rdb_load_buffer _ _ _ _) as [[] s]; [done|by injection H as <-..].
  - unfold link_step at 1 in H. unfold link_step, more. cbn [repl_state with_incoming incoming]. rewrite Hs in *.
    destruct (parse_resp_request (incoming l)) as [r cmd] eqn:Ep. destruct (r =? 0) eqn:E0; [injection H as <-; by rewrite Ho|].
    destruct (r <? 0) eqn:E1; [|done]. injection H as <-. cbn [want_close closing]. apply Z.eqb_neq in E0.
    by rewrite (parse_stable _ b _ _ Ep E0), E1, (proj2 (Z.eqb_neq _ _) E0).
Qed.
Lemma more_more a b l : more b (more a l) = more (a ++ b) l.
Proof. unfold more, with_incoming. cbn. by rewrite app_assoc. Qed.

Lemma more_nil l : more [] l = l.
Proof. destruct l. unfold more, with_incoming. cbn. by rewrite app_nil_r. Qed.

Lemma drain_more n : forall l b, (rounds l < n)%nat -> want_close l = false ->
  let l1 := repl_master_data l in
  if want_close l1 then repl_master_data (more b l) = more b l1 else repl_master_data (more b l1) = repl_master_data (more b l).
Proof.
  induction n as [|n IH]; intros l b Hn Ho; [lia|]. cbn zeta. rewrite (master_data_step l).
  destruct (link_step l) as [[] l'] eqn:E.
  - pose proof (step_rounds _ _ E). rewrite (master_data_step (more b l)), (step_more _ _ b E).
    apply IH; [lia|]. by rewrite (step_keeps_open _ _ E).
  - pose proof (stop_more _ _ b E Ho) as Hb. destruct (want_close l') eqn:Ec; [|done]. by rewrite master_data_step, Hb.
Qed.

(** What remains of a link that is closing is discarded with it. *)
Definition settled (l : Link) : Link := if want_close l then with_incoming [] l else l.

Lemma settled_close a b : settled a = settled b -> want_close a = want_close b.
Proof. unfold settled. intros H. apply (f_equal want_close) in H. destruct (want_close a) eqn:Ea, (want_close b) eqn:Eb; cbn in H; congruence. Qed.

Lemma settled_open a b : settled a = settled b -> want_close b = false -> a = b.
Proof. intros H Hb. pose proof (settled_close a b H) as Ha. unfold settled in H. by rewrite Ha, Hb in H. Qed.

Lemma read_chunks chunks : forall l, want_close l = false ->
  settled (foldl (fun l d => link_read d l) l chunks) = settled (link_read (concat chunks) l).
Proof.
  assert (Hclosed : forall chunks l, want_close l = true -> foldl (fun l d => link_read d l) l chunks = l).
  { induction chunks0 as [|d ds IH]; intros l Hl; [done|]. cbn [foldl]. unfold link_read at 2. rewrite Hl. by apply IH. }
  induction chunks as [|d ds IH]; intros l Ho; cbn [foldl concat].
  { unfold link_read. by rewrite Ho. }
  destruct d as [|c d]; [unfold link_read at 2; rewrite Ho; by apply IH|]. set (data := c :: d).
  assert (H1 : link_read data l = repl_master_data (more data l)) by (unfold link_read; by rewrite Ho).
  assert (H2 : link_read (data ++ concat ds) l = repl_master_data (more (concat ds) (more data l)))
    by (unfold link_read; rewrite Ho, more_more; done).
  rewrite H2. pose proof (drain_more _ (more data l) (concat ds) (Nat.lt_succ_diag_r _) Ho) as Hd. cbn zeta in Hd. rewrite <- H1 in Hd.
  destruct (want_close (link_read data l)) eqn:Ec.
  - rewrite Hclosed, Hd by done. unfold settled. cbn. by rewrite Ec.
  - rewrite IH by done. f_equal. unfold link_read at 1. rewrite Ec. cbn [orb]. destruct (concat ds) as [|x t]; [|done].
    by rewrite more_nil.
Qed.

(** ** What the master sends, read at once *)

Definition plain (s : bytes) : Prop := Forall (fun c => c <> c_cr) s.

Ltac plain_text := repeat (apply Forall_cons; split; [discriminate|]); by apply Forall_nil.

Lemma take_line_plain line rest : plain line -> repl_take_line (line ++ crlf ++ rest) = Some (line, rest).
Proof.
  induction 1 as [|c line Hc Hp IH]; [done|]. cbn [app repl_take_line]. rewrite (bool_decide_eq_false_2 (c = c_cr)) by done. cbn [andb].
  rewrite IH. by destruct line.
Qed.

Lemma plain_digits n : 0 <= n < 2 ^ 64 -> plain (print_u64 n).
Proof.
  intros Hn. eapply Forall_impl; [apply (print_u64_digits n Hn)|]. intros c Hd ->. by vm_compute in Hd.
Qed.

Lemma find_space_at from a rest : Forall (fun c => c <> c_space) (drop from a) -> (from <= length a)%nat ->
  find_space from (a ++ c_space :: rest) = Some (length a).
Proof.
  intros Ha Hle. unfold find_space. rewrite drop_app_le by done. rewrite scan_at.
  - rewrite length_drop, length_app. replace (from + (length a - from))%nat with (length a) by lia. cbn [length].
    by rewrite (proj2 (Nat.ltb_lt _ _)) by lia.
  - eapply Forall_impl; [exact Ha|]. intros c Hc. by apply bool_decide_eq_false_2.
  - by apply bool_decide_eq_true_2.
Qed.

Lemma parse_u64_print n : 0 <= n < 2 ^ 64 -> parse_u64_strict (print_u64 n) = Some n.
Proof.
  intros Hn. unfold parse_u64_strict. rewrite c_str_id by (apply digits_no_zero, print_u64_all; lia).
  pose proof (print_u64_nonempty n) as He. pose proof (print_u64_all n Hn) as Hd. pose proof (print_u64_val n Hn) as Hv.
  destruct (print_u64 n) as [|c d] eqn:El; [done|]. pose proof Hd as Hd'. cbn [forallb] in Hd'. apply andb_true_iff in Hd' as [Hc _].
  destruct (digit_plain c Hc) as (Hs & H1 & H2 & _). cbn [skip_space]. rewrite Hs, !bool_decide_eq_false_2 by done.
  rewrite span_digits_all by done. rewrite Hv. unfold UINT64_MAX. cbn [length Nat.eqb negb orb]. by assert (2 ^ 64 - 1 <? n = false) as -> by lia.
Qed.

Definition ok_line : bytes := bs "+OK" ++ crlf.

Lemma acks_read n rest l : repl_state l = HANDSHAKE -> incoming l = concat (replicate n ok_line) ++ rest ->
  repl_master_data l = repl_master_data (with_incoming rest l).
Proof.
  revert l. induction n as [|n IH]; intros l Hs Hi; [destruct l; cbn in Hi; by rewrite Hi|].
  rewrite master_data_step. unfold link_step. rewrite Hs, Hi. cbn [replicate concat]. unfold ok_line at 1. rewrite <- !app_assoc.
  rewrite (take_line_plain (bs "+OK")) by plain_text. cbn [length Nat.eqb].
  rewrite !bool_decide_eq_false_2 by done. cbn [negb].
  by apply (IH (with_incoming (concat (replicate n ok_line) ++ rest) l)).
Qed.

(** An identity as it is minted: no space, no line end. *)
Definition word (s : bytes) : Prop := Forall (fun c => c <> c_cr /\ c <> c_space) s.

(** The dataset after the image. *)
Definition resynced (img : bytes) (w : World) : option World :=
  let w := repl_apply [bs "flushall"] w in
  match rdb_load_buffer uncompress (env w) img (ks w) with (ROk _, s) => Some (with_ks s w) | _ => None end.

Definition streaming (rest : bytes) (r : Repl) (w : World) (l : Link) : Link :=
  mkLink STREAMING (replica_mode l) (master_link l) rest (link_out l) false 0 [] FO_NONE r w.

Lemma header_step r rest l :
  repl_state l = HANDSHAKE -> word (repl_id r) -> 0 <= master_repl_offset r < 2 ^ 64 ->
  incoming l = (bs "+FULLRESYNC " ++ repl_id r ++ bs " " ++ print_u64 (master_repl_offset r) ++ crlf) ++ rest ->
  link_step l = (true, failover_reset (with_state RDB_LEN (with_rep (adopt_history (repl_id r) (master_repl_offset r) (rep l)) (with_incoming rest l)))).
Proof.
  intros Hs Hw Hoff Hi. set (hdr := bs "+FULLRESYNC " ++ repl_id r ++ c_space :: print_u64 (master_repl_offset r)).
  assert (Hin : incoming l = hdr ++ crlf ++ rest).
  { rewrite Hi. unfold hdr. rewrite <- !app_assoc. by cbn [app]. }
  assert (Hhdr : plain hdr).
  { unfold hdr, plain. apply Forall_app. split; [plain_text|]. apply Forall_app. split; [eapply Forall_impl; [exact Hw|]; by intros c []|].
    apply Forall_cons. split; [discriminate|]. by apply plain_digits. }
  assert (Hsp : find_space 12 hdr = Some (12 + length (repl_id r))%nat).
  { unfold hdr. rewrite app_assoc. rewrite find_space_at; [by rewrite length_app| |rewrite length_app; cbn; lia].
    change 12%nat with (length (bs "+FULLRESYNC ")). rewrite drop_app_length. eapply Forall_impl; [exact Hw|]. by intros c []. }
  assert (H12 : forall n, (n <= 12)%nat -> take n hdr = take n (bs "+FULLRESYNC ")) by (intros n Hn; unfold hdr; by rewrite take_app_le).
  assert (H0 : hdr !! 0%nat = Some (chr 43)) by done.
  assert (Hid : slice 12 (12 + length (repl_id r) - 12) hdr = repl_id r).
  { unfold slice, hdr. change 12%nat with (length (bs "+FULLRESYNC ")) at 3. rewrite drop_app_length.
    replace (12 + length (repl_id r) - 12)%nat with (length (repl_id r)) by lia. apply take_app_length. }
  assert (Hnum : drop (12 + length (repl_id r) + 1) hdr = print_u64 (master_repl_offset r)).
  { unfold hdr. rewrite <- !drop_drop. change 12%nat with (length (bs "+FULLRESYNC ")) at 1. by rewrite drop_app_length, drop_app_length. }
  unfold link_step. rewrite Hs, Hin, take_line_plain by done. cbv zeta. rewrite Hsp, H0, (H12 9%nat), (H12 12%nat), Hid, Hnum by lia.
  assert ((length hdr =? 0)%nat = false) as -> by done. rewrite strtoull_print by done. by rewrite !bool_decide_eq_false_2 by done.
Qed.

Lemma length_step (img rest : bytes) l :
  repl_state l = RDB_LEN -> Z.of_nat (length img) < 2 ^ 64 ->
  incoming l = (bs "$" ++ print_u64 (Z.of_nat (length img)) ++ crlf) ++ rest ->
  link_step l = (true, with_state RDB_BODY (with_rdb (Z.of_nat (length img)) [] (with_incoming rest l))).
Proof.
  intros Hs Himg Hi. unfold link_step. rewrite Hs, Hi. rewrite <- app_assoc. rewrite <- app_assoc.
  rewrite (app_assoc (bs "$")), take_line_plain.
  - cbv zeta. rewrite bool_decide_eq_true_2 by done. cbn [negb].
    change (drop 1 (bs "$" ++ ?x)) with x. by rewrite parse_u64_print by lia.
  - apply Forall_app. split; [plain_text|]. apply plain_digits. lia.
Qed.

Lemma body_step img rest l :
  repl_state l = RDB_BODY -> repl_rdb_left l = Z.of_nat (length img) -> repl_rdb_buf l = [] -> incoming l = img ++ rest ->
  link_step l =
    match resynced img (lw l) with
    | Some w => (true, with_state STREAMING (with_lw w (with_rdb 0 [] (with_incoming rest l))))
    | None => (false, closing (with_lw (let w := repl_apply [bs "flushall"] (lw l) in
                with_ks (rdb_load_buffer uncompress (env w) img (ks w)).2 w) (with_rdb 0 [] (with_incoming rest l))))
    end.
Proof.
  intros Hs Hl Hb Hi. unfold link_step, resynced. rewrite Hs, Hl, Hb, Hi, length_app, (proj2 (Z.leb_le _ _)) by lia.
  rewrite Nat2Z.id, Z.sub_diag, take_app_length, drop_app_length. cbn [Z.eqb negb app lw with_rdb with_incoming].
  by destruct (rdb_load_buffer _ _ _ _) as [[] s].
Qed.

Lemma full_read r img rest l :
  repl_state l = HANDSHAKE -> incoming l = full_sync_bytes r img ++ rest -> want_close l = false -> word (repl_id r) ->
  0 <= master_repl_offset r < 2 ^ 64 -> Z.of_nat (length img) < 2 ^ 64 ->
  match resynced img (lw l) with
  | Some w => repl_master_data l = repl_master_data (streaming rest (adopt_history (repl_id r) (master_repl_offset r) (rep l)) w l)
  | None => want_close (repl_master_data l) = true
  end.
Proof.
  intros Hs Hi Ho Hw Hoff Himg. unfold full_sync_bytes in Hi. rewrite <- (app_assoc _ _ rest) in Hi.
  rewrite master_data_step, (header_step r _ l Hs Hw Hoff Hi). rewrite master_data_step.
  erewrite (length_step img (img ++ rest)); [|done|done|cbn; by rewrite <- app_assoc]. rewrite master_data_step.
  erewrite (body_step img rest); [|done|done|done|done]. cbn [lw with_state with_rdb with_incoming failover_reset with_rep].
  destruct (resynced img (lw l)); [|done]. unfold streaming. rewrite <- Ho. done.
Qed.

Lemma continue_read id rest l :
  repl_state l = HANDSHAKE -> incoming l = (bs "+CONTINUE " ++ id ++ crlf) ++ rest -> want_close l = false ->
  repl_rdb_left l = 0 -> repl_rdb_buf l = [] -> plain id -> id <> [] ->
  repl_master_data l =
    repl_master_data (streaming rest (if bool_decide (id = repl_id (rep l)) then rep l else with_ids id [] 0 (rep l)) (lw l) l).
Proof.
  intros Hs Hi Ho Hl Hb Hp Hid. rewrite master_data_step. unfold link_step. rewrite Hs, Hi. rewrite <- !app_assoc.
  rewrite (app_assoc (bs "+CONTINUE ")), take_line_plain by (apply Forall_app; split; [plain_text|done]). cbv zeta.
  assert (Hsp : find_space 9 (bs "+CONTINUE " ++ id) = Some 9%nat) by done. rewrite Hsp. cbn [Nat.add app drop take length Nat.eqb].
  rewrite bool_decide_eq_false_2 by done. rewrite bool_decide_eq_true_2 by done. rewrite (bool_decide_eq_false_2 (id = [])) by done.
  cbn [orb rep with_incoming]. unfold streaming. rewrite <- Hl, <- Hb, <- Ho. done.
Qed.

(** The stream, command by command. *)
Lemma stream_read cmds : forall l, repl_state l = STREAMING -> Forall args_ok cmds -> incoming l = log_of cmds ->
  let l' := repl_master_data l in
  repl_state l' = STREAMING /\ incoming l' = [] /\ want_close l' = want_close l /\
  rep l' = foldl (fun r cmd => repl_backlog_feed (frame cmd) r) (rep l) cmds /\
  lw l' = foldl (fun w cmd => repl_apply cmd w) (lw l) cmds.
Proof.
  induction cmds as [|cmd cmds IH]; intros l Hs Hok Hi; cbn zeta.
  { rewrite master_data_step. unfold link_step. rewrite Hs, Hi. cbn. by rewrite Hi. }
  apply Forall_cons in Hok as [Hc Hok]. rewrite log_of_cons in Hi. rewrite master_data_step. unfold link_step. rewrite Hs, Hi, parse_frame by done.
  pose proof (frame_positive cmd) as Hpos. rewrite (proj2 (Z.eqb_neq _ _)), (proj2 (Z.ltb_ge _ _)) by lia.
  rewrite Nat2Z.id, take_app_length, drop_app_length.
  assert ((length cmd =? 0)%nat = false) as -> by (destruct Hc; apply Nat.eqb_neq; lia). cbn [foldl].
  match goal with |- context [repl_master_data ?x] => destruct (IH x) as (H1 & H2 & H3 & H4 & H5); [done|done|done|] end.
  split_and!; [exact H1|exact H2|exact H3|exact H4|exact H5].
Qed.

(** What a replica asks for, unless it hands over. *)
Definition asked (l : Link) : bytes * bytes :=
  if replica_mode l && negb (bool_decide (repl_id (rep l) = [])) then (repl_id (rep l), print_u64 (u64 (master_repl_offset (rep l) + 1)))
  else (bs "?", bs "-1").

Lemma handshake_asks masterauth port l : failover_state l <> FO_IN_PROGRESS ->
  last (handshake masterauth port l) = Some [bs "PSYNC"; (asked l).1; (asked l).2].
Proof.
  intros Hf. unfold handshake, asked. rewrite (bool_decide_eq_false_2 (_ = FO_IN_PROGRESS)), orb_false_r, last_app by done.
  by destruct (replica_mode l && _).
Qed.

(** The dataset the stream is applied to: the replica's own, or the image. *)
Definition resync_base (r : Repl) (img : bytes) (l : Link) : option World :=
  match continue_from r (asked l).1 (asked l).2 with Some _ => Some (lw l) | None => resynced img (lw l) end.

Lemma feed_frames cmds : forall base S r,
  stream_ok base S r -> base + Z.of_nat (length S) + Z.of_nat (length (log_of cmds)) < 2 ^ 64 - 1 ->
  let r' := foldl (fun r cmd => repl_backlog_feed (frame cmd) r) r cmds in
  stream_ok base (S ++ log_of cmds) r' /\ repl_id r' = repl_id r.
Proof.
  induction cmds as [|cmd cmds IH]; intros base S r Hs Hlt; cbn [foldl].
  { split; [by rewrite app_nil_r|done]. }
  rewrite log_of_cons in *. rewrite length_app in Hlt. destruct Hs as [Hb Ho Hr Hc Hp Hh Hring] eqn:E.
  destruct (feed_fields (frame cmd) r) as (_ & _ & _ & _ & Hid); [lia|lia|lia|]. clear E.
  destruct (IH base (S ++ frame cmd) (repl_backlog_feed (frame cmd) r)) as [H1 H2]; [apply feed_stream; [done|lia]|rewrite length_app; lia|].
  rewrite app_assoc. split; [done|]. by rewrite H2, Hid.
Qed.

(** In the stream of its master, with nothing left to read. *)
Definition in_step (id : bytes) (off : Z) (w : World) (l : Link) : Prop :=
  repl_state l = STREAMING /\ incoming l = [] /\ want_close l = false /\
  repl_id (rep l) = id /\ master_repl_offset (rep l) = off /\ lw l = w.

Lemma stream_in_step cmds l b0 S0 r w :
  stream_ok b0 S0 r -> b0 + Z.of_nat (length S0) + Z.of_nat (length (log_of cmds)) < 2 ^ 64 - 1 -> Forall args_ok cmds ->
  in_step (repl_id r) (master_repl_offset r + Z.of_nat (length (log_of cmds))) (foldl (fun w cmd => repl_apply cmd w) w cmds)
    (repl_master_data (streaming (log_of cmds) r w l)).
Proof.
  intros Hs Hlt Hok. destruct (stream_read cmds (streaming (log_of cmds) r w l)) as (H1 & H2 & H3 & H4 & H5); [done..|].
  destruct (feed_frames cmds b0 S0 r Hs Hlt) as [F1 F2]. split_and!; [done|done|by rewrite H3|by rewrite H4|rewrite H4|by rewrite H5].
  cbn [rep streaming]. rewrite (so_offset _ _ _ F1), (so_offset _ _ _ Hs), length_app. lia.
Qed.

Lemma adopted_stream b0 S0 id off r : stream_ok b0 S0 r -> 0 <= off < 2 ^ 64 - 1 -> stream_ok off [] (adopt_history id off r).
Proof.
  intros [Hb Ho Hr Hc Hp Hh Hring] Hoff. split; cbn; try done; try lia.
  - destruct (repl_backlog r); [by right|left; cbn; lia].
  - unfold lastn. rewrite Nat.sub_0_r. apply drop_all.
Qed.

Lemma renamed_stream b0 S0 id r : stream_ok b0 S0 r ->
  let r' := if bool_decide (id = repl_id r) then r else with_ids id [] 0 r in stream_ok b0 S0 r' /\ repl_id r' = id.
Proof. intros []. case_bool_decide; [by split|]. split; [by split|done]. Qed.

(** Where a replica that is continued stands. *)
Lemma continue_at base S r l want :
  stream_ok base S r -> 0 <= master_repl_offset (rep l) < 2 ^ 63 - 1 -> continue_from r (asked l).1 (asked l).2 = Some want ->
  want = master_repl_offset (rep l) + 1 /\ base <= master_repl_offset (rep l) <= base + Z.of_nat (length S).
Proof.
  intros [Hb Ho Hr Hc Hp Hh Hring] Hoff Hcf. unfold asked, continue_from in Hcf. destruct (replica_mode l && _); cbn [fst snd] in Hcf; [|done].
  rewrite u64_small in Hcf by lia.
  assert (Hp64 : print_u64 (master_repl_offset (rep l) + 1) = print_i64 (master_repl_offset (rep l) + 1)).
  { unfold print_i64. by rewrite (proj2 (Z.ltb_ge _ _)) by lia. }
  rewrite Hp64, parse_print in Hcf by (unfold INT64_MIN, INT64_MAX; lia). destruct (_ && _) eqn:E; [|done]. injection Hcf as <-.
  bool_facts. split; [done|]. lia.
Qed.

Lemma continue_now r : 0 <= master_repl_offset r < 2 ^ 63 - 1 -> repl_id r <> bs "?" -> repl_backlog r <> [] ->
  continue_from r (repl_id r) (print_u64 (master_repl_offset r + 1)) = Some (master_repl_offset r + 1).
Proof.
  intros Hoff Hq Hb. unfold continue_from.
  assert (Hp64 : print_u64 (master_repl_offset r + 1) = print_i64 (master_repl_offset r + 1)).
  { unfold print_i64. by rewrite (proj2 (Z.ltb_ge _ _)) by lia. }
  rewrite Hp64, parse_print by (unfold INT64_MIN, INT64_MAX; lia). rewrite (bool_decide_eq_false_2 (_ = bs "?")), (bool_decide_eq_true_2 (repl_id r = _)) by done.
  rewrite (proj2 (Nat.eqb_neq _ _)) by (intros H; by apply length_zero_iff_nil in H).
  rewrite Z.leb_refl, Z.sub_diag, (proj2 (Z.ltb_lt 0 _)), (proj2 (Z.leb_le 0 _)) by lia. done.
Qed.

Lemma replica_reads base S r img later missed l n o :
  stream_ok base S r -> base + Z.of_nat (length S) + Z.of_nat (length (log_of later)) < 2 ^ 64 - 1 ->
  word (repl_id r) -> repl_id r <> [] -> Z.of_nat (length img) < 2 ^ 64 -> Forall args_ok (missed ++ later) ->
  (exists b0 S0, stream_ok b0 S0 (rep l)) -> 0 <= master_repl_offset (rep l) < 2 ^ 63 - 1 ->
  match continue_from r (asked l).1 (asked l).2 with
  | Some want => drop (Z.to_nat (want - 1 - base)) S = log_of missed
  | None => missed = []
  end ->
  let l1 := mkLink HANDSHAKE true true [] o false 0 [] (failover_state l) (rep l) (lw l) in
  let sync := match continue_from r (asked l).1 (asked l).2 with
              | Some want => (bs "+CONTINUE " ++ repl_id r ++ crlf) ++ log_of (missed ++ later)
              | None => full_sync_bytes r img ++ log_of later
              end in
  match resync_base r img l with
  | Some w => in_step (repl_id r) (base + Z.of_nat (length S) + Z.of_nat (length (log_of later)))
                (foldl (fun w cmd => repl_apply cmd w) w (missed ++ later)) (link_read (concat (replicate n ok_line) ++ sync) l1)
  | None => want_close (link_read (concat (replicate n ok_line) ++ sync) l1) = true
  end.
Proof.
  intros Hs Hlt Hw Hne Himg Hargs (b0 & S0 & Hs0) Hoff Hmissed l1 sync.
  assert (Hread : link_read (concat (replicate n ok_line) ++ sync) l1 = repl_master_data (with_incoming sync l1)).
  { unfold link_read. cbn [want_close l1 orb]. rewrite length_app. rewrite (proj2 (Nat.eqb_neq _ _)).
    - by rewrite (acks_read n sync).
    - assert (0 < length sync)%nat; [|lia]. unfold sync. destruct (continue_from _ _ _); rewrite length_app; [cbn|unfold full_sync_bytes; cbn]; lia. }
  rewrite Hread. clear Hread. unfold resync_base. pose proof (so_offset _ _ _ Hs) as Ho. pose proof (so_offset _ _ _ Hs0) as Ho0.
  pose proof (so_base _ _ _ Hs). pose proof (so_base _ _ _ Hs0). pose proof (so_range _ _ _ Hs).
  destruct (continue_from r (asked l).1 (asked l).2) as [want|] eqn:Ec.
  - destruct (continue_at base S r l want Hs Hoff Ec) as [-> Hin].
    assert (Hm : base + Z.of_nat (length S) = master_repl_offset (rep l) + Z.of_nat (length (log_of missed))).
    { rewrite <- Hmissed, length_drop. lia. }
    unfold sync. erewrite (continue_read (repl_id r)); [|done|done|done|done|done| |done].
    2: { eapply Forall_impl; [exact Hw|]. by intros c []. }
    destruct (renamed_stream b0 S0 (repl_id r) (rep l) Hs0) as [R1 R2].
    pose proof (so_offset _ _ _ R1) as Ho1.
    match goal with |- in_step _ _ _ (repl_master_data (streaming _ ?r1 ?w ?x)) =>
      pose proof (stream_in_step (missed ++ later) x b0 S0 r1 w R1) as Hst end.
    cbn [rep with_incoming l1] in Hst |- *. rewrite R2, Ho1, (f_equal length (log_of_app missed later)), length_app in Hst.
    replace (base + Z.of_nat (length S) + Z.of_nat (length (log_of later)))
      with (b0 + Z.of_nat (length S0) + Z.of_nat (length (log_of missed) + length (log_of later))) by lia.
    apply Hst; [lia|done].
  - subst missed. cbn [app] in *. unfold sync.
    pose proof (full_read r img (log_of later) (with_incoming (full_sync_bytes r img ++ log_of later) l1)) as Hf.
    cbn [lw with_incoming l1] in Hf. specialize (Hf eq_refl eq_refl eq_refl Hw ltac:(lia) Himg).
    destruct (resynced img (lw l)) as [w|]; [|done]. rewrite Hf.
    pose proof (stream_in_step later (with_incoming (full_sync_bytes r img ++ log_of later) l1) (master_repl_offset r) []
      (adopt_history (repl_id r) (master_repl_offset r) (rep l)) w) as Hst.
    cbn [adopt_history with_ring with_offset with_ids repl_id master_repl_offset] in Hst. rewrite Ho in Hst |- *. apply Hst; [|cbn; lia|done].
    apply (adopted_stream b0 S0); [done|lia].
Qed.

(** An answer cut inside the image: the identity is adopted, the dataset is not. *)
Lemma partial_read r (img part : bytes) l :
  repl_state l = HANDSHAKE -> word (repl_id r) -> 0 <= master_repl_offset r < 2 ^ 64 -> Z.of_nat (length img) < 2 ^ 64 ->
  (length part < length img)%nat ->
  incoming l = (bs "+FULLRESYNC " ++ repl_id r ++ bs " " ++ print_u64 (master_repl_offset r) ++ crlf) ++
               (bs "$" ++ print_u64 (Z.of_nat (length img)) ++ crlf) ++ part ->
  let l' := repl_master_data l in
  rep l' = adopt_history (repl_id r) (master_repl_offset r) (rep l) /\ lw l' = lw l /\ want_close l' = want_close l /\
  replica_mode l' = replica_mode l /\ master_link l' = master_link l /\ failover_state l' = FO_NONE.
Proof.
  intros Hs Hw Hoff Himg Hpart Hi. cbn zeta. rewrite master_data_step, (header_step r _ l Hs Hw Hoff Hi). rewrite master_data_step.
  erewrite (length_step img part); [|done|done|done]. rewrite master_data_step. unfold link_step.
  cbn [repl_state with_state with_rdb with_incoming failover_reset with_rep repl_rdb_left incoming].
  rewrite (proj2 (Z.leb_gt _ _)), (proj2 (Z.eqb_neq _ _)) by lia. done.
Qed.

End Read.

(** ** Claims *)

(** C9: A replica ends up in step with its master.  It asks for the history it
    has, or for everything; the master answers with [psync_resync] and then
    writes further commands; the bytes reach the replica after any number of
    acknowledgements and in any pieces.  The replica then streams under the
    master's identity at the master's offset, with nothing left unread, and
    has applied, in order, exactly the commands it missed and those written
    since to its own dataset, or those written since to the image; an image
    that does not load closes the link. *)
Theorem replica_follows (other : bytes -> Handler) (uncompress : bytes -> nat -> option bytes) (base : Z) (S : bytes) (r : Repl)
    (c : nat) (k : RConn) (img : bytes) (l0 : Link) (masterauth : bytes) (port : Z) (n : nat) (missed later : list (list bytes))
    (Hs : stream_ok base S r) (Hk : conns r !! c = Some k) (Hwf : Buffer.wf (outgoing k))
    (Hacks : Buffer.content (outgoing k) = concat (replicate n ok_line))
    (Hid : (length (repl_id r) <= 40)%nat) (Hword : word (repl_id r)) (Hne : repl_id r <> [])
    (Himg : Z.of_nat (length img) < 2 ^ 64) (Hargs : Forall args_ok (missed ++ later))
    (Htotal : base + Z.of_nat (length S) + Z.of_nat (length (log_of later)) < 2 ^ 64 - 1)
    (Hring : exists b0 S0, stream_ok b0 S0 (rep l0)) (Hoff : 0 <= master_repl_offset (rep l0) < 2 ^ 63 - 1)
    (Hfo : failover_state l0 <> FO_IN_PROGRESS)
    (Hmissed : match continue_from r (asked l0).1 (asked l0).2 with
               | Some want => drop (Z.to_nat (want - 1 - base)) S = log_of missed
               | None => missed = []
               end) :
  let l1 := (repl_start true masterauth port l0).2 in
  link_out l1 = log_of (handshake masterauth port l0) /\
  last (handshake masterauth port l0) = Some [bs "PSYNC"; (asked l0).1; (asked l0).2] /\
  exists r' got, psync_resync (asked l0).1 (asked l0).2 c img r = Some r' /\
    let r'' := foldl (fun r f => propagate f r) r' (frame <$> later) in
    attached r'' c got /\
    forall chunks, concat chunks = got ->
      let l2 := foldl (fun l d => link_read other uncompress d l) l1 chunks in
      match resync_base other uncompress r img l0 with
      | Some w => in_step (repl_id r) (master_repl_offset r'') (foldl (fun w cmd => repl_apply other cmd w) w (missed ++ later)) l2
      | None => want_close l2 = true
      end.
Proof.
  cbn zeta. split; [cbn; apply encode_all|]. split; [by apply handshake_asks|].
  destruct (psync_spec base S r c k (asked l0).1 (asked l0).2 img Hs Hk Hwf Hid) as (r' & Hr & Hs' & Ha).
  destruct (propagate_all base S (frame <$> later) r' Hs') as [H1 H2]; [exact Htotal|].
  exists r'. eexists. split; [done|]. split; [by apply H2|]. intros chunks Hc.
  set (l1 := (repl_start true masterauth port l0).2).
  pose proof (read_chunks other uncompress chunks l1 eq_refl) as Hch. rewrite Hc, Hacks in Hch.
  pose proof (replica_reads other uncompress base S r img later missed l0 n (link_out l1) Hs Htotal Hword Hne Himg Hargs Hring Hoff Hmissed) as Hrd.
  assert (Hsync : match continue_from r (asked l0).1 (asked l0).2 with
      | Some _ => (bs "+CONTINUE " ++ repl_id r ++ crlf) ++ log_of (missed ++ later)
      | None => full_sync_bytes r img ++ log_of later end = sync_bytes base S r (asked l0).1 (asked l0).2 img ++ log_of later).
  { unfold sync_bytes. destruct (continue_from _ _ _); [|done]. by rewrite Hmissed, log_of_app, !app_assoc. }
  cbn zeta in Hrd. rewrite Hsync, (so_offset _ _ _ H1), length_app in *. change (concat (frame <$> later)) with (log_of later) in *.
  rewrite <- app_assoc in Hch. rewrite <- Z.add_assoc, <- Nat2Z.inj_add in Hrd. destruct (resync_base other uncompress r img l0) as [w|].
  - rewrite (settled_open _ _ Hch); [exact Hrd|]. by destruct Hrd as (_ & _ & ? & _).
  - rewrite (settled_close _ _ Hch). exact Hrd.
Qed.

Definition cmd_a : list bytes := fr ["SET"; "a"; "1"].
Definition cmd_b : list bytes := fr ["INCR"; "a"].
Definition cmd_c : list bytes := fr ["DEL"; "a"].
Definition demo_master : Repl := propagate (frame cmd_b) (propagate (frame cmd_a) (repl0 64)).
Definition demo_replica : Link := mkLink NONE true false [] [] false 0 [] FO_NONE (repl_backlog_feed (frame cmd_a) (repl0 64)) w0.

Lemma demo_stream : stream_ok 0 (frame cmd_a ++ frame cmd_b) demo_master.
Proof.
  apply (propagate_stream 0 (frame cmd_a) (frame cmd_b)); [|vm_compute; reflexivity].
  apply (propagate_stream 0 [] (frame cmd_a)); [apply repl0_stream; lia|vm_compute; reflexivity].
Qed.

Lemma replica_follows_witness :
  exists r' got, psync_resync (repl_id demo_master) (bs "28") 1 (bs "image") demo_master = Some r' /\
    attached (propagate (frame cmd_c) r') 1 got /\
    forall chunks, concat chunks = got ->
      in_step (repl_id demo_master) (master_repl_offset (propagate (frame cmd_c) r'))
        (foldl (fun w cmd => repl_apply no_other cmd w) w0 [cmd_b; cmd_c])
        (foldl (fun l d => link_read no_other (fun _ _ => None) d l) (repl_start true [] 1234 demo_replica).2 chunks).
Proof.
  destruct (replica_follows no_other (fun _ _ => None) 0 (frame cmd_a ++ frame cmd_b) demo_master 1 (mkRConn (buf_create 16) false false)
    (bs "image") demo_replica [] 1234 0 [cmd_b] [cmd_c]) as (_ & _ & r' & got & H).
  - exact demo_stream.
  - vm_compute. reflexivity.
  - apply buf_create_wf.
  - reflexivity.
  - vm_compute. lia.
  - unfold word. vm_compute. repeat (apply List.Forall_cons; [split; discriminate|]). apply List.Forall_nil.
  - vm_compute. discriminate.
  - vm_compute. reflexivity.
  - repeat constructor; vm_compute; discriminate.
  - vm_compute. reflexivity.
  - exists 0, (frame cmd_a). apply (feed_stream 0 [] (frame cmd_a)); [apply repl0_stream; lia|vm_compute; reflexivity].
  - vm_compute. split; [discriminate|reflexivity].
  - discriminate.
  - vm_compute. reflexivity.
  - exists r', got. exact H.
Defined.

(** C39: An interrupted full resync is forgotten.  The link is lost after the
    header and before the end of the image; the replica has already taken the
    master's identity and offset, so it asks to continue from there, the master
    agrees, and from then on the replica counts as in step although it applies
    the stream to the dataset it had before. *)
Theorem interrupted_resync_diverges (other : bytes -> Handler) (uncompress : bytes -> nat -> option bytes) (base : Z) (S : bytes) (r : Repl)
    (img part : bytes) (l0 : Link) (masterauth : bytes) (port : Z) (later : list (list bytes))
    (Hs : stream_ok base S r) (Hring : repl_backlog r <> []) (Hword : word (repl_id r)) (Hne : repl_id r <> []) (Hq : repl_id r <> bs "?")
    (Himg : Z.of_nat (length img) < 2 ^ 64) (Hpart : (length part < length img)%nat) (Hargs : Forall args_ok later)
    (Htotal : base + Z.of_nat (length S) + Z.of_nat (length (log_of later)) < 2 ^ 63 - 1)
    (Hl0 : repl_state l0 = HANDSHAKE /\ incoming l0 = [] /\ want_close l0 = false /\ replica_mode l0 = true /\ master_link l0 = true)
    (Hring0 : exists b0 S0, stream_ok b0 S0 (rep l0)) :
  let answer := (bs "+FULLRESYNC " ++ repl_id r ++ bs " " ++ print_u64 (master_repl_offset r) ++ crlf) ++
                (bs "$" ++ print_u64 (Z.of_nat (length img)) ++ crlf) in
  let l1 := repl_link_lost (link_read other uncompress (answer ++ part) l0) in
  let l2 := (repl_start true masterauth port l1).2 in
  asked l1 = (repl_id r, print_u64 (master_repl_offset r + 1)) /\
  continue_from r (repl_id r) (print_u64 (master_repl_offset r + 1)) = Some (master_repl_offset r + 1) /\
  in_step (repl_id r) (master_repl_offset r + Z.of_nat (length (log_of later))) (foldl (fun w cmd => repl_apply other cmd w) (lw l0) later)
    (link_read other uncompress ((bs "+CONTINUE " ++ repl_id r ++ crlf) ++ log_of later) l2).
Proof.
  destruct Hl0 as (H1 & H2 & H3 & H4 & H5). destruct Hring0 as (b0 & S0 & Hs0). cbn zeta.
  pose proof Hs as [Hb Ho Hr Hc Hp Hh Hrg].
  set (l1 := repl_link_lost _).
  assert (Hl1 : l1 = mkLink NONE true false [] [] false 0 [] FO_NONE (adopt_history (repl_id r) (master_repl_offset r) (rep l0)) (lw l0)).
  { unfold l1, link_read. rewrite H3, H2, app_nil_l. rewrite (proj2 (Nat.eqb_neq _ _)) by (cbn; lia). cbn [orb].
    match goal with |- repl_link_lost (repl_master_data _ _ ?x) = _ =>
      destruct (partial_read other uncompress r img part x) as (R1 & R2 & R3 & R4 & R5 & R6); [done|done|lia|done|done|by rewrite <- app_assoc|] end.
    unfold repl_link_lost. rewrite R5, R4, R6, R1, R2. cbn. by rewrite H5, H4. }
  assert (Hasked : asked l1 = (repl_id r, print_u64 (master_repl_offset r + 1))).
  { rewrite Hl1. unfold asked. cbn. rewrite bool_decide_eq_false_2, u64_small by (done || lia). done. }
  assert (Hcont : continue_from r (repl_id r) (print_u64 (master_repl_offset r + 1)) = Some (master_repl_offset r + 1)).
  { apply continue_now; [lia|done..]. }
  split; [done|]. split; [done|].
  pose proof (replica_reads other uncompress base S r img later [] l1 0 (link_out (repl_start true masterauth port l1).2) Hs ltac:(lia) Hword Hne Himg Hargs) as Hrd.
  assert (Hrep : rep l1 = adopt_history (repl_id r) (master_repl_offset r) (rep l0)) by (by rewrite Hl1).
  cbn zeta in Hrd. unfold resync_base in Hrd. rewrite Hasked in Hrd. cbn [fst snd] in Hrd. rewrite Hcont, <- Ho in Hrd.
  assert (Hlw : lw l0 = lw l1) by (by rewrite Hl1). rewrite Hlw. apply Hrd.
  - exists (master_repl_offset r), []. rewrite Hrep. apply (adopted_stream b0 S0); [done|lia].
  - rewrite Hrep. cbn. lia.
  - rewrite drop_ge by lia. done.
Qed.

Definition demo_dialling : Link := (repl_start true [] 1234 (mkLink NONE true false [] [] false 0 [] FO_NONE (repl0 64) w0)).2.

Lemma interrupted_resync_diverges_witness :
  let answer := (bs "+FULLRESYNC " ++ repl_id demo_master ++ bs " " ++ print_u64 (master_repl_offset demo_master) ++ crlf) ++
                (bs "$" ++ print_u64 (Z.of_nat (length (bs "image"))) ++ crlf) in
  let l1 := repl_link_lost (link_read no_other (fun _ _ => None) (answer ++ bs "im") demo_dialling) in
  let l2 := (repl_start true [] 1234 l1).2 in
  asked l1 = (repl_id demo_master, print_u64 (master_repl_offset demo_master + 1)) /\
  continue_from demo_master (repl_id demo_master) (print_u64 (master_repl_offset demo_master + 1)) = Some (master_repl_offset demo_master + 1) /\
  in_step (repl_id demo_master) (master_repl_offset demo_master + Z.of_nat (length (log_of [cmd_c])))
    (foldl (fun w cmd => repl_apply no_other cmd w) (lw demo_dialling) [cmd_c])
    (link_read no_other (fun _ _ => None) ((bs "+CONTINUE " ++ repl_id demo_master ++ crlf) ++ log_of [cmd_c]) l2).
Proof.
  apply (interrupted_resync_diverges no_other (fun _ _ => None) 0 (frame cmd_a ++ frame cmd_b) demo_master (bs "image") (bs "im")
    demo_dialling [] 1234 [cmd_c]).
  - exact demo_stream.
  - vm_compute. discriminate.
  - unfold word. vm_compute. repeat (apply List.Forall_cons; [split; discriminate|]). apply List.Forall_nil.
  - vm_compute. discriminate.
  - vm_compute. discriminate.
  - vm_compute. reflexivity.
  - vm_compute. lia.
  - repeat constructor; vm_compute; discriminate.
  - vm_compute. reflexivity.
  - by vm_compute.
  - exists 0, []. apply repl0_stream. lia.
Defined.

(** ** Handing over *)

Lemma gen_id_word draws : word (repl_gen_id draws).
Proof.
  unfold word, repl_gen_id. rewrite Forall_fmap. apply Forall_forall. intros d _. unfold compose.
  assert (Hx : Forall (fun c => c <> c_cr /\ c <> c_space) hx) by (vm_compute; repeat (apply List.Forall_cons; [split; discriminate|]); apply List.Forall_nil).
  pose proof (Z.mod_pos_bound d 16 eq_refl) as Hd.
  destruct (lookup_lt_is_Some_2 hx (Z.to_nat (d `mod` 16))) as [x E]; [change (length hx) with 16%nat; lia|].
  rewrite E. cbn [default from_option id]. by apply (Forall_lookup_1 _ _ _ _ Hx E).
Qed.

Lemma gen_id_length draws : (length (repl_gen_id draws) <= 40)%nat.
Proof. unfold repl_gen_id. rewrite length_fmap, length_take. lia. Qed.

(** A promoted server still serves the history it had, up to the promotion. *)
Lemma continue_shifted draws r : 0 <= master_repl_offset r < 2 ^ 63 - 1 -> repl_id r <> bs "?" -> repl_id r <> [] -> repl_backlog r <> [] ->
  continue_from (repl_shift_id draws r) (repl_id r) (print_u64 (master_repl_offset r + 1)) = Some (master_repl_offset r + 1).
Proof.
  intros Hoff Hq Hne Hb. unfold continue_from.
  assert (Hp64 : print_u64 (master_repl_offset r + 1) = print_i64 (master_repl_offset r + 1)).
  { unfold print_i64. by rewrite (proj2 (Z.ltb_ge _ _)) by lia. }
  rewrite Hp64, parse_print by (unfold INT64_MIN, INT64_MAX; lia).
  cbn [repl_shift_id repl_new_id with_ids repl_id repl_id2 second_repl_offset master_repl_offset repl_backlog repl_backlog_histlen].
  rewrite (bool_decide_eq_false_2 (repl_id r = bs "?")), (bool_decide_eq_false_2 (repl_id r = [])), (bool_decide_eq_true_2 (repl_id r = repl_id r)) by done.
  rewrite (proj2 (Nat.eqb_neq _ _)) by (intros H; by apply length_zero_iff_nil in H). rewrite (u64_small (master_repl_offset r + 1)) by lia.
  rewrite Z.leb_refl, Z.sub_diag, (proj2 (Z.ltb_lt 0 _)), (proj2 (Z.leb_le 0 _)) by lia. cbn [negb andb]. by rewrite orb_true_r.
Qed.

(** What passes between the two servers once the target has promoted itself. *)
Lemma handover_stream (other : bytes -> Handler) (uncompress : bytes -> nat -> option bytes) (base : Z) (S : bytes) (r : Repl) (draws : list Z)
    (c : nat) (k : RConn) (img : bytes) (l0 : Link) (masterauth : bytes) (port : Z) (n : nat) (later : list (list bytes))
    (Hs : stream_ok base S r) (Hk : conns r !! c = Some k) (Hwf : Buffer.wf (outgoing k))
    (Hacks : Buffer.content (outgoing k) = concat (replicate n ok_line)) (Hdraws : draws <> []) (Hback : repl_backlog r <> [])
    (Hid : repl_id r <> bs "?" /\ repl_id r <> []) (Himg : Z.of_nat (length img) < 2 ^ 64) (Hargs : Forall args_ok later)
    (Htotal : base + Z.of_nat (length S) + Z.of_nat (length (log_of later)) < 2 ^ 63 - 1)
    (Hring : exists b0 S0, stream_ok b0 S0 (rep l0)) (Hfo : failover_state l0 = FO_IN_PROGRESS)
    (Hsame : repl_id (rep l0) = repl_id r) (Hsynced : master_repl_offset (rep l0) = master_repl_offset r) :
  let l1 := (repl_start true masterauth port l0).2 in
  let off := print_u64 (master_repl_offset r + 1) in
  let r1 := repl_shift_id draws r in
  last (handshake masterauth port l0) = Some [bs "PSYNC"; repl_id r; off; bs "FAILOVER"] /\
  exists r' got, psync_resync (repl_id r) off c img r1 = Some r' /\
    let r'' := foldl (fun r f => propagate f r) r' (frame <$> later) in
    attached r'' c got /\
    forall chunks, concat chunks = got ->
      in_step (repl_id r1) (master_repl_offset r'') (foldl (fun w cmd => repl_apply other cmd w) (lw l0) later)
        (foldl (fun l d => link_read other uncompress d l) l1 chunks).
Proof.
  destruct Hid as [Hq Hne]. pose proof Hs as [Hb Ho Hr Hc Hp Hh Hrg]. cbn zeta. split.
  { unfold handshake. rewrite Hfo, (bool_decide_eq_true_2 (FO_IN_PROGRESS = FO_IN_PROGRESS)), last_app, Hsame, Hsynced, u64_small by (done || lia). done. }
  set (r1 := repl_shift_id draws r). assert (Hs1 : stream_ok base S r1) by (by split).
  assert (Hid1 : repl_id r1 <> []) by (by destruct draws).
  assert (Hcont : continue_from r1 (repl_id r) (print_u64 (master_repl_offset r + 1)) = Some (master_repl_offset r + 1))
    by (apply continue_shifted; [lia|done..]).
  destruct (psync_spec base S r1 c k (repl_id r) (print_u64 (master_repl_offset r + 1)) img Hs1 Hk Hwf (gen_id_length draws)) as (r' & Hr' & Hs' & Ha).
  destruct (propagate_all base S (frame <$> later) r' Hs') as [H1 H2]; [change (total (frame <$> later)) with (Z.of_nat (length (log_of later))); lia|].
  exists r'. eexists. split; [done|]. split; [by apply H2|]. intros chunks Hch.
  set (l1 := (repl_start true masterauth port l0).2). pose proof (read_chunks other uncompress chunks l1 eq_refl) as Hread.
  rewrite Hch, Hacks in Hread. unfold sync_bytes in Hread. rewrite Hcont in Hread.
  set (l := mkLink NONE true false [] [] false 0 [] (failover_state l0) (rep l0) (lw l0)).
  assert (Hasked : asked l = (repl_id r, print_u64 (master_repl_offset r + 1))).
  { unfold asked. cbn. rewrite Hsame, Hsynced, bool_decide_eq_false_2, u64_small by (done || lia). done. }
  pose proof (replica_reads other uncompress base S r1 img later [] l n (link_out l1) Hs1 ltac:(lia) (gen_id_word draws) Hid1 Himg Hargs Hring) as Hrd.
  cbn zeta in Hrd. unfold resync_base in Hrd. rewrite Hasked in Hrd. cbn [fst snd] in Hrd. rewrite Hcont in Hrd.
  cbn [rep l] in Hrd. rewrite Hsynced in Hrd.
  assert (Hd : drop (Z.to_nat (master_repl_offset r + 1 - 1 - base)) S = []) by (apply drop_ge; lia). rewrite Hd in *.
  specialize (Hrd ltac:(lia) eq_refl).
  rewrite (so_offset _ _ _ H1), length_app. change (concat (frame <$> later)) with (log_of later) in *.
  rewrite Nat2Z.inj_add, Z.add_assoc.
  rewrite app_nil_r, <- app_assoc in Hread. rewrite (settled_open _ _ Hread); [exact Hrd|]. by destruct Hrd as (_ & _ & ? & _).
Qed.
