(* ===== verification/Loop.v ===== *)
(** * Connections (src/src/server/server.cpp 953-985, 1005-1103)

    The read and write paths of a client connection: bytes are collected until
    they make a request, requests are dispatched one after the other, and the
    replies leave in order.  The dispatcher is an argument: [exec c cmd s] is
    [do_request] for connection [c] on the whole server state.  The buffers are
    their live bytes. *)
From S2P Require Import Prelude Buffer Resp Args CText Aof.

Definition k_max_incoming : Z := 2 * k_max_msg.

(** What the read and write paths keep of a [Conn]; [sent] are the bytes the
    transport has taken so far. *)
Record LConn := mkLConn {
  incoming : bytes; outgoing : bytes; sent : bytes;
  want_read : bool; want_write : bool; want_close : bool;
  auth_pending : bool; wait_pending : bool; fo_write_pending : bool;
}.

(** A connection just accepted. *)
Definition lc0 : LConn := mkLConn [] [] [] true false false false false false.

(** Nothing runs with the identity, or before the answer, that is still due. *)
Definition pending (k : LConn) : bool := auth_pending k || wait_pending k || fo_write_pending k.

Definition with_in (x : bytes) (k : LConn) : LConn := mkLConn x (outgoing k) (sent k) (want_read k) (want_write k) (want_close k) (auth_pending k) (wait_pending k) (fo_write_pending k).
Definition with_outg (x : bytes) (k : LConn) : LConn := mkLConn (incoming k) x (sent k) (want_read k) (want_write k) (want_close k) (auth_pending k) (wait_pending k) (fo_write_pending k).
Definition wants (r w : bool) (k : LConn) : LConn := mkLConn (incoming k) (outgoing k) (sent k) r w (want_close k) (auth_pending k) (wait_pending k) (fo_write_pending k).
Definition closed (k : LConn) : LConn := mkLConn (incoming k) (outgoing k) (sent k) (want_read k) (want_write k) true (auth_pending k) (wait_pending k) (fo_write_pending k).

(** [IoResult] with the bytes moved. *)
Inductive IoResult := IO_OK | IO_WANT_READ | IO_WANT_WRITE | IO_PEER_CLOSED | IO_ERR.

(** The server: its connections ([fd2conn]), [g_total_commands] and the rest. *)
Record LS (G : Type) := mkLS { lconns : gmap nat LConn; total_commands : Z; rest : G }.
Arguments mkLS {G} _ _ _.
Arguments lconns {G} _.
Arguments total_commands {G} _.
Arguments rest {G} _.

Section Paths.
Context {G : Type} (exec : nat -> list bytes -> LS G -> LS G) (forget : nat -> G -> G).

Definition conn (c : nat) (s : LS G) : option LConn := lconns s !! c.
Definition set_conn (c : nat) (k : LConn) (s : LS G) : LS G := mkLS (<[c := k]> (lconns s)) (total_commands s) (rest s).
Definition count_command (s : LS G) : LS G := mkLS (lconns s) (u64 (total_commands s + 1)) (rest s).

(** [conn_destroy]: [forget] drops the connection from the other components. *)
Definition conn_destroy (c : nat) (s : LS G) : LS G := mkLS (delete c (lconns s)) (total_commands s) (forget c (rest s)).

Definition on_conn (c : nat) (f : LConn -> LConn) (s : LS G) : LS G := match conn c s with Some k => set_conn c (f k) s | None => s end.

(** One request, if the buffer holds one: whether another may follow. *)
Definition try_one_request (c : nat) (s : LS G) : bool * LS G :=
  match conn c s with
  | None => (false, s)
  | Some k =>
      if pending k then (false, s)
      else
        let '(consumed, cmd) := parse_resp_request (incoming k) in
        if consumed =? 0 then (false, s)
        else if consumed <? 0 then
          (false, set_conn c (closed (with_outg (outgoing k ++ bs "-ERR Protocol error" ++ crlf) k)) s)
        else if (length cmd =? 0)%nat then (true, set_conn c (with_in (drop (Z.to_nat consumed) (incoming k)) k) s)
        else
          let s := exec c cmd (count_command s) in
          let s := on_conn c (fun k => with_in (drop (Z.to_nat consumed) (incoming k)) k) s in
          match conn c s with
          | Some k => if pending k then (false, set_conn c (wants false false k) s) else (true, set_conn c (wants false true k) s)
          | None => (false, s)
          end
  end.

(** [while (try_one_request(conn)) {}] *)
Fixpoint serve (fuel : nat) (c : nat) (s : LS G) : LS G :=
  match fuel with
  | O => s
  | S f => let '(go, s) := try_one_request c s in if go then serve f c s else s
  end.

(** [took]: what the transport answers and how many bytes it took. *)
Definition handle_write (took : IoResult * nat) (c : nat) (s : LS G) : LS G :=
  match conn c s with
  | None => s
  | Some k =>
      match took.1 with
      | IO_WANT_READ | IO_WANT_WRITE => s
      | IO_OK =>
          let n := took.2 in
          let k := mkLConn (incoming k) (drop n (outgoing k)) (sent k ++ take n (outgoing k)) (want_read k) (want_write k) (want_close k) (auth_pending k) (wait_pending k) (fo_write_pending k) in
          set_conn c (if (length (outgoing k) =? 0)%nat then wants true false k else k) s
      | _ => set_conn c (closed k) s
      end
  end.

(** The draining loop of [handle_read]: each read gives some bytes, an
    outcome, and whether the transport holds more; [None] when the connection
    is to be closed. *)
Fixpoint read_loop (reads : list (bytes * IoResult * bool)) (k : LConn) : LConn * bool :=
  match reads with
  | [] => (k, true)
  | (data, r, has_pending) :: reads' =>
      let k := with_in (incoming k ++ data) k in
      if k_max_incoming <? Z.of_nat (length (incoming k))
      then (closed (with_outg (outgoing k ++ bs "-ERR Protocol error: input buffer exceeded" ++ crlf) k), false)
      else
        match r with
        | IO_OK => if (has_pending : bool) then read_loop reads' k else (k, true)
        | IO_WANT_READ | IO_WANT_WRITE => (k, true)
        | _ => (closed k, false)
        end
  end.

(** The tail both paths share: answer at once, or wait for more. *)
Definition flush_or_wait (took : IoResult * nat) (c : nat) (s : LS G) : LS G :=
  match conn c s with
  | None => s
  | Some k =>
      if (0 <? length (outgoing k))%nat then handle_write took c (set_conn c (wants false true k) s)
      else set_conn c (wants true false k) s
  end.

Definition buffered (c : nat) (s : LS G) : nat := match conn c s with Some k => length (incoming k) | None => 0 end.

Definition handle_read (reads : list (bytes * IoResult * bool)) (took : IoResult * nat) (c : nat) (s : LS G) : LS G :=
  match conn c s with
  | None => s
  | Some k =>
      let '(k, go) := read_loop reads k in
      let s := set_conn c k s in
      if (go : bool) then flush_or_wait took c (serve (S (buffered c s)) c s) else s
  end.

Definition conn_resume (took : IoResult * nat) (c : nat) (s : LS G) : LS G :=
  let s := if bool_decide (want_close <$> conn c s = Some false) then serve (S (buffered c s)) c s else s in
  let s := flush_or_wait took c s in
  if bool_decide (want_close <$> conn c s = Some true) then conn_destroy c s else s.
End Paths.

(** ** The event loop's part for one connection *)

(** Ready for reading or writing; [reads] and [took] are what the transport
    does if it is asked. *)
Definition client_ready {G} (exec : nat -> list bytes -> LS G -> LS G) (reads : list (bytes * IoResult * bool)) (took : IoResult * nat)
    (c : nat) (s : LS G) : LS G :=
  match conn c s with
  | Some k => if want_read k then handle_read exec reads took c s else if want_write k then handle_write took c s else s
  | None => s
  end.

(** ** A session of ordinary commands *)

Section Session.
Context {G : Type} (h : list bytes -> G -> bytes * G).

(** A command that answers its connection and changes only the data. *)
Definition ordinary (c : nat) (cmd : list bytes) (s : LS G) : LS G :=
  let '(reply, g) := h cmd (rest s) in
  mkLS (alter (fun k => with_outg (outgoing k ++ reply) k) c (lconns s)) (total_commands s) g.

Definition run_one (st : bytes * G) (cmd : list bytes) : bytes * G := let '(r, g) := h cmd st.2 in (st.1 ++ r, g).
Definition run_all (st : bytes * G) (cmds : list (list bytes)) : bytes * G := foldl run_one st cmds.

(** One wake-up: the chunks that can be read, and what the transport takes. *)
Definition Wake : Type := list bytes * (IoResult * nat).

Definition wake (e : Wake) (c : nat) (s : LS G) : LS G := client_ready ordinary ((fun d => (d, IO_OK, true)) <$> e.1) e.2 c s.

(** A sequence of wake-ups, and the bytes read during it. *)
Fixpoint session (evs : list Wake) (c : nat) (s : LS G) : bytes * LS G :=
  match evs with
  | [] => ([], s)
  | e :: evs' =>
      let got := if bool_decide (want_read <$> conn c s = Some true) then concat e.1 else [] in
      let '(d, s') := session evs' c (wake e c s) in (got ++ d, s')
  end.

(** After [D]: the complete requests are answered, in order; the rest waits. *)
Definition served (cmds : list (list bytes)) (g0 : G) (c : nat) (D : bytes) (s : LS G) : Prop :=
  exists k j, conn c s = Some k /\ (j <= length cmds)%nat /\ D = log_of (take j cmds) ++ incoming k /\
    (parse_resp_request (incoming k)).1 = 0 /\ Z.of_nat (length (incoming k)) <= k_max_msg /\
    run_all ([], g0) (take j cmds) = (sent k ++ outgoing k, rest s) /\
    want_close k = false /\ pending k = false /\
    want_write k = negb (length (outgoing k) =? 0)%nat /\ want_read k = negb (want_write k).

Definition small (cmd : list bytes) : Prop := args_ok cmd /\ Z.of_nat (length (frame cmd)) <= k_max_msg.

Lemma small_ok cmds : Forall small cmds -> Forall args_ok cmds.
Proof. intros H. eapply Forall_impl; [exact H|]. by intros x []. Qed.

Lemma prefix_split cmds : forall p q, Forall small cmds -> p ++ q = log_of cmds ->
  exists m p', (m <= length cmds)%nat /\ p = log_of (take m cmds) ++ p' /\ (parse_resp_request p').1 = 0 /\ Z.of_nat (length p') <= k_max_msg.
Proof.
  induction cmds as [|cmd cmds IH]; intros p q Hok Hpq.
  { apply app_eq_nil in Hpq as [-> ->]. exists 0%nat, []. done. }
  apply Forall_cons in Hok as [[Hc Hsm] Hok]. rewrite log_of_cons in Hpq.
  destruct (app_cut p q (frame cmd) (log_of cmds) Hpq) as [(p' & -> & Hp')|(q' & Hq' & Hne)].
  - destruct (IH p' q Hok Hp') as (m & p'' & Hm & -> & H0). exists (S m), p''. cbn [take length]. rewrite log_of_cons, app_assoc. split; [lia|done].
  - exists 0%nat, p. split; [lia|]. split; [done|]. split; [by apply (parse_prefix cmd p q')|]. rewrite Hq', length_app in Hsm. lia.
Qed.

Lemma run_all_fst st cmds : run_all st cmds = (st.1 ++ (run_all ([], st.2) cmds).1, (run_all ([], st.2) cmds).2).
Proof.
  revert st. induction cmds as [|cmd cmds IH]; intros [o g]; unfold run_all in *; cbn [foldl fst snd]; [by rewrite app_nil_r|].
  rewrite (IH (run_one (o, g) cmd)), (IH (run_one ([], g) cmd)). unfold run_one. cbn [fst snd]. destruct (h cmd g) as [r g']. cbn [fst snd app].
  by rewrite app_assoc.
Qed.

Lemma run_all_app st a b : run_all st (a ++ b) = run_all (run_all st a) b.
Proof. apply foldl_app. Qed.

Lemma try_ordinary c s k cmd x r g :
  conn c s = Some k -> pending k = false -> args_ok cmd -> incoming k = frame cmd ++ x -> h cmd (rest s) = (r, g) ->
  try_one_request ordinary c s =
    (true, mkLS (<[c := wants false true (with_in x (with_outg (outgoing k ++ r) k))]> (lconns s)) (u64 (total_commands s + 1)) g).
Proof.
  intros Hk Hp Hc Hin Hh. pose proof (frame_positive cmd) as Hpos. unfold try_one_request. rewrite Hk, Hp, Hin, parse_frame by done.
  rewrite (proj2 (Z.eqb_neq _ _)), (proj2 (Z.ltb_ge _ _)) by lia.
  assert ((length cmd =? 0)%nat = false) as -> by (destruct Hc; apply Nat.eqb_neq; lia).
  unfold ordinary. cbn [rest count_command]. rewrite Hh. unfold conn in Hk. unfold on_conn, conn. cbn [lconns count_command].
  rewrite !lookup_alter_eq, Hk. cbn [fmap option_fmap option_map]. unfold set_conn. cbn [lconns]. rewrite lookup_insert_eq.
  change (pending (with_in _ (with_outg _ k))) with (pending k). rewrite Hp. cbn [incoming with_outg lconns total_commands rest].
  rewrite Hin, Nat2Z.id, drop_app_length, insert_insert_eq. do 2 f_equal. apply map_eq. intros i.
  destruct (decide (i = c)) as [->|Hne]; [by rewrite !lookup_insert_eq|]. by rewrite !lookup_insert_ne, lookup_alter_ne by done.
Qed.

(** The loop answers every complete request. *)
Lemma serve_all cmds : forall fuel c s k p,
  conn c s = Some k -> pending k = false -> Forall args_ok cmds -> incoming k = log_of cmds ++ p -> (parse_resp_request p).1 = 0 ->
  (length (incoming k) < fuel)%nat ->
  let s' := serve ordinary fuel c s in
  rest s' = (run_all ([], rest s) cmds).2 /\
  exists k', conn c s' = Some k' /\ incoming k' = p /\ outgoing k' = outgoing k ++ (run_all ([], rest s) cmds).1 /\ sent k' = sent k /\
    want_close k' = want_close k /\ pending k' = false.
Proof.
  induction cmds as [|cmd cmds IH]; intros fuel c s k p Hk Hp Hok Hin Hstop Hf; cbn zeta; (destruct fuel as [|fuel]; [lia|]); cbn [serve].
  - unfold try_one_request. rewrite Hk, Hp. change (log_of []) with (@nil ascii) in Hin. cbn [app] in Hin. rewrite Hin.
    destruct (parse_resp_request p) as [r cm]. cbn [fst] in Hstop. subst r. rewrite Z.eqb_refl. split; [done|]. exists k. cbn. by rewrite app_nil_r.
  - apply Forall_cons in Hok as [Hc Hok]. rewrite log_of_cons, <- app_assoc in Hin. pose proof (frame_positive cmd) as Hpos.
    destruct (h cmd (rest s)) as [r g] eqn:Eh. rewrite (try_ordinary c s k cmd (log_of cmds ++ p) r g) by done.
    match goal with |- context [serve ordinary fuel c ?x] => set (s1 := x) end.
    set (k1 := wants false true (with_in (log_of cmds ++ p) (with_outg (outgoing k ++ r) k))) in *.
    destruct (IH fuel c s1 k1 p) as (IH1 & k' & IH2 & IH3 & IH4 & IH5 & IH6 & IH7); [|done|done|done|done| |].
    { unfold s1, conn. cbn [lconns]. by rewrite lookup_insert_eq. }
    { rewrite Hin, length_app in Hf. cbn. lia. }
    unfold run_all. cbn [foldl]. change (foldl run_one ?st cmds) with (run_all st cmds). rewrite (run_all_fst (run_one ([], rest s) cmd)).
    unfold run_one. cbn [fst snd]. rewrite Eh. cbn [fst snd app]. split; [done|]. exists k'. split_and!; try done.
    rewrite IH4. cbn [outgoing k1 wants with_in with_outg rest s1]. by rewrite app_assoc.
Qed.

Definition no_error (took : IoResult * nat) : Prop := took.1 = IO_OK \/ took.1 = IO_WANT_READ \/ took.1 = IO_WANT_WRITE.

(** The flags say whether a reply waits. *)
Definition flags_ok (k : LConn) : Prop := want_write k = negb (length (outgoing k) =? 0)%nat /\ want_read k = negb (want_write k).

Lemma handle_write_ok took c (s : LS G) k :
  conn c s = Some k -> no_error took -> want_write k = true -> want_read k = false -> outgoing k <> [] ->
  let s' := handle_write took c s in
  rest s' = rest s /\ exists k', conn c s' = Some k' /\ incoming k' = incoming k /\ sent k' ++ outgoing k' = sent k ++ outgoing k /\
    want_close k' = want_close k /\ pending k' = pending k /\ flags_ok k'.
Proof.
  intros Hk Herr Hw Hr Ho. cbn zeta. unfold handle_write. rewrite Hk. destruct took as [res n]. cbn [fst snd].
  assert (Hflags : flags_ok k) by (split; [rewrite Hw; by destruct (outgoing k)|by rewrite Hr, Hw]).
  destruct Herr as [Herr|[Herr|Herr]]; cbn [fst] in Herr; subst res; [|split; [done|by exists k]..].
  set (k1 := mkLConn _ _ _ _ _ _ _ _ _). split; [by destruct (_ =? _)%nat|].
  exists (if (length (outgoing k1) =? 0)%nat then wants true false k1 else k1). unfold conn, set_conn. cbn [lconns]. rewrite lookup_insert_eq.
  split; [done|]. destruct (length (outgoing k1) =? 0)%nat eqn:E; cbn [incoming sent outgoing want_close k1 wants];
    rewrite <- app_assoc, take_drop; split_and!; try done; split; cbn [want_write want_read wants outgoing k1] in *; by rewrite ?E, ?Hr, ?Hw.
Qed.

Lemma flush_ok took c (s : LS G) k :
  conn c s = Some k -> no_error took ->
  let s' := flush_or_wait took c s in
  rest s' = rest s /\ exists k', conn c s' = Some k' /\ incoming k' = incoming k /\ sent k' ++ outgoing k' = sent k ++ outgoing k /\
    want_close k' = want_close k /\ pending k' = pending k /\ flags_ok k'.
Proof.
  intros Hk Herr. cbn zeta. unfold flush_or_wait. rewrite Hk. destruct (0 <? length (outgoing k))%nat eqn:E.
  - apply Nat.ltb_lt in E.
    destruct (handle_write_ok took c (set_conn c (wants false true k) s) (wants false true k)) as (H1 & k' & H2 & H3); [|done|done|done| |].
    { unfold conn, set_conn. cbn [lconns]. by rewrite lookup_insert_eq. }
    { intros Hn. cbn in Hn. rewrite Hn in E. cbn in E. lia. }
    split; [by rewrite H1|]. by exists k'.
  - split; [done|]. exists (wants true false k). unfold conn, set_conn. cbn [lconns]. rewrite lookup_insert_eq. apply Nat.ltb_ge in E.
    split_and!; try done. split; [|done]. cbn. rewrite (proj2 (Nat.eqb_eq _ _)) by lia. done.
Qed.

Lemma read_all chunks : forall k, Z.of_nat (length (incoming k) + length (concat chunks)) <= k_max_incoming ->
  read_loop ((fun d => (d, IO_OK, true)) <$> chunks) k = (with_in (incoming k ++ concat chunks) k, true).
Proof.
  induction chunks as [|d ds IH]; intros k Hk; cbn [fmap list_fmap read_loop concat].
  { rewrite app_nil_r. by destruct k. }
  cbn [concat] in Hk. rewrite length_app in Hk. cbn [incoming with_in].
  rewrite (proj2 (Z.ltb_ge _ _)) by (rewrite length_app; lia). cbn [concat]. rewrite IH; [cbn; by rewrite app_assoc|]. cbn. rewrite length_app. lia.
Qed.

Lemma served_wake cmds g0 c D s e :
  Forall small cmds -> served cmds g0 c D s -> no_error e.2 -> Z.of_nat (length (concat e.1)) <= k_max_msg ->
  let got := if bool_decide (want_read <$> conn c s = Some true) then concat e.1 else [] in
  (exists q, (D ++ got) ++ q = log_of cmds) -> served cmds g0 c (D ++ got) (wake e c s).
Proof.
  intros Hok (k & j & Hk & Hj & HD & H0 & Hsm & Hrun & Hcl & Hp & Hw & Hr) Herr Hchunk got [q Hq]. unfold wake, client_ready. rewrite Hk. subst got.
  rewrite Hk in *. cbn [fmap option_fmap option_map] in *. destruct (want_read k) eqn:Er.
  - rewrite bool_decide_eq_true_2 in * by done. assert (Ho : outgoing k = []).
    { rewrite Hw in Hr. destruct (outgoing k); [done|]. by cbn in Hr. }
    unfold handle_read. rewrite Hk, read_all by (unfold k_max_incoming; lia).
    set (k1 := with_in (incoming k ++ concat e.1) k). set (s1 := set_conn c k1 s).
    assert (Hk1 : conn c s1 = Some k1) by (unfold s1, conn, set_conn; cbn [lconns]; by rewrite lookup_insert_eq).
    assert (Hb : buffered c s1 = length (incoming k1)) by (unfold buffered; by rewrite Hk1). rewrite Hb.
    assert (Hdrop : (incoming k ++ concat e.1) ++ q = log_of (drop j cmds)).
    { rewrite HD in Hq. rewrite <- (take_drop j cmds) in Hq at 2. rewrite log_of_app, <- !app_assoc in Hq. apply app_inv_head in Hq. by rewrite <- app_assoc. }
    destruct (prefix_split (drop j cmds) _ q (Forall_drop _ _ _ Hok) Hdrop) as (m & p & Hm & Hin & Hp0 & Hps).
    destruct (serve_all (take m (drop j cmds)) (S (length (incoming k1))) c s1 k1 p) as (R1 & k2 & R2 & R3 & R4 & R5 & R6 & R7);
      [done|done|by apply Forall_take, small_ok, Forall_drop|done|done|lia|].
    destruct (flush_ok e.2 c _ k2 R2 Herr) as (F1 & k3 & F2 & F3 & F4 & F5 & F6 & F7 & F8).
    exists k3, (j + m)%nat. split; [done|]. rewrite length_drop in Hm. split; [lia|].
    rewrite <- take_take_drop, log_of_app, F3, R3, F4, F5, F6, F1, R1, R4, R5, R6, R7.
    assert (Hrun' : run_all ([], g0) (take j cmds ++ take m (drop j cmds)) =
      (sent k1 ++ outgoing k1 ++ (run_all ([], rest s1) (take m (drop j cmds))).1, (run_all ([], rest s1) (take m (drop j cmds))).2)).
    { rewrite run_all_app, Hrun, run_all_fst. cbn [fst snd]. by rewrite app_assoc. }
    rewrite Hrun'. split_and!; try done; [|by destruct F8..]. rewrite HD, <- !app_assoc. f_equal. by rewrite <- Hin.
  - rewrite bool_decide_eq_false_2 in * by done. rewrite app_nil_r. assert (Hww : want_write k = true) by (destruct (want_write k); done).
    rewrite Hww. destruct (handle_write_ok e.2 c s k) as (H1 & k' & H2 & H3 & H4 & H5 & H6 & H7 & H8); [done..| |].
    { intros Hn. rewrite Hw, Hn in Hww. done. }
    exists k', j. rewrite H3, H4, H5, H6, H1. done.
Qed.
End Session.

(** ** Claims *)

(** C11: A connection answers its requests in order, whatever the network
    does.  For any requests sent one behind the other, any way the bytes are
    split over wake-ups and reads, and any partial or refused writes: at every
    moment the requests that have arrived whole have been executed, each once
    and in order, the bytes sent so far followed by those still to send are
    exactly their replies, the unfinished request is kept, and the connection
    waits for writing exactly when a reply waits to be sent. *)
Theorem session_in_order {G : Type} (h : list bytes -> G -> bytes * G) (cmds : list (list bytes)) (evs : list Wake) (c : nat) (s0 : LS G) (q : bytes)
    (Hc : conn c s0 = Some lc0) (Hcmds : Forall small cmds)
    (Hevs : Forall (fun e : Wake => no_error e.2 /\ Z.of_nat (length (concat e.1)) <= k_max_msg) evs)
    (Hq : (session h evs c s0).1 ++ q = log_of cmds) :
  served h cmds (rest s0) c (session h evs c s0).1 (session h evs c s0).2.
Proof.
  assert (Hgen : forall evs D s, Forall (fun e : Wake => no_error e.2 /\ Z.of_nat (length (concat e.1)) <= k_max_msg) evs ->
    served h cmds (rest s0) c D s -> (exists q, (D ++ (session h evs c s).1) ++ q = log_of cmds) ->
    served h cmds (rest s0) c (D ++ (session h evs c s).1) (session h evs c s).2).
  { clear evs q Hevs Hq. induction evs as [|e evs IH]; intros D s Hevs Hs [q Hq]; [cbn; by rewrite app_nil_r|].
    apply Forall_cons in Hevs as [[He1 He2] Hevs]. cbn [session] in *.
    set (got := if bool_decide (want_read <$> conn c s = Some true) then concat e.1 else []) in *.
    destruct (session h evs c (wake h e c s)) as [d s'] eqn:Es. cbn [fst snd] in *.
    specialize (IH (D ++ got) (wake h e c s) Hevs). rewrite Es in IH. cbn [fst snd] in IH. rewrite <- app_assoc in IH. apply IH.
    - apply served_wake; [done..|]. exists (d ++ q). fold got. rewrite <- !app_assoc in Hq. by rewrite <- !app_assoc.
    - by exists q. }
  apply (Hgen evs [] s0); [done| |by exists q]. exists lc0, 0%nat. split_and!; try done. cbn. lia.
Qed.

(** A counter: INCR adds one and answers it, anything else answers an error. *)
Definition count_h (cmd : list bytes) (g : Z) : bytes * Z :=
  if bool_decide (cmd = [bs "INCR"]) then (bs ":" ++ print_i64 (g + 1) ++ crlf, g + 1) else (bs "-ERR" ++ crlf, g).

Lemma session_in_order_witness :
  let cmds := [[bs "INCR"]; [bs "X"]; [bs "INCR"]] in
  let evs := [([take 5 (log_of cmds)], (IO_OK, 9%nat)); ([take 20 (drop 5 (log_of cmds)); bs ""], (IO_OK, 2%nat)); ([bs "never read"], (IO_WANT_WRITE, 0%nat));
              ([], (IO_OK, 9%nat)); ([drop 25 (log_of cmds)], (IO_OK, 3%nat))] in
  let s0 := mkLS {[1%nat := lc0]} 0 0 in
  (session count_h evs 1 s0).1 = log_of cmds /\
  served count_h cmds 0 1 (session count_h evs 1 s0).1 (session count_h evs 1 s0).2.
Proof.
  cbn zeta. split; [vm_compute; reflexivity|].
  match goal with |- served _ ?cmds _ _ (session _ ?evs _ ?s0).1 _ => apply (session_in_order count_h cmds evs 1 s0 []) end.
  - reflexivity.
  - repeat (apply Forall_cons; split; [split; [repeat constructor; vm_compute; discriminate|vm_compute; discriminate]|]). apply Forall_nil. exact I.
  - repeat (apply Forall_cons; split; [split; [first [by left|by right; left|by right; right]|vm_compute; discriminate]|]). apply Forall_nil. exact I.
  - vm_compute. reflexivity.
Defined.
