(* ===== verification/Handover.v ===== *)
(** * Acknowledgements, WAIT and FAILOVER
    (src/src/commands/commands.cpp 3609-3638, 3669-3756, 3852-3962, 5571-5596;
    src/src/core/state.cpp replica_by_addr; src/src/server/server.cpp 191-201, 281-400)

    Replicas report how far they are; WAIT holds a client until enough of them
    have everything written so far; FAILOVER holds every write until one
    replica has everything and then hands over to it.  Finishing a held client
    resumes its connection, which may run further requests of it: the
    definitions take the dispatcher as an argument and [wait_request] ties the
    knot, with fuel for the depth of the nesting. *)
From S2P Require Import Prelude Buffer Resp Args CText Aof ReplicaLink Loop.

(** What these parts keep of a [Conn]; the flags are in [LConn]. *)
Record HX := mkHX {
  peer : bytes; replica_port : Z; ack_offset : Z; ack_time_ms : Z;
  wait_target : Z; wait_numreplicas : Z; wait_deadline_ms : Z; in_exec : bool; fo_cmd : list bytes;
}.

Definition hx0 : HX := mkHX [] 0 0 0 0 0 0 false [].

Record HRest := mkH {
  hx : gmap nat HX;
  h_replicas : gset nat; waiters : gset nat; fo_paused : gset nat;
  h_offset : Z;                      (* master_repl_offset *)
  h_now : Z;                         (* get_monotonic_msec() *)
  h_replica_mode : bool; g_loading : bool;
  fo_state : FailoverState; failover_host : bytes; failover_port : Z; failover_deadline_ms : Z; failover_force : bool;
  min_replicas_max_lag : Z;
}.

Definition Srv : Type := LS HRest.

Definition on_rest (f : HRest -> HRest) (s : Srv) : Srv := mkLS (lconns s) (total_commands s) (f (rest s)).
Definition with_sets (ws ps : gset nat) (r : HRest) : HRest :=
  mkH (hx r) (h_replicas r) ws ps (h_offset r) (h_now r) (h_replica_mode r) (g_loading r) (fo_state r) (failover_host r) (failover_port r)
    (failover_deadline_ms r) (failover_force r) (min_replicas_max_lag r).
Definition with_hx (m : gmap nat HX) (r : HRest) : HRest :=
  mkH m (h_replicas r) (waiters r) (fo_paused r) (h_offset r) (h_now r) (h_replica_mode r) (g_loading r) (fo_state r) (failover_host r) (failover_port r)
    (failover_deadline_ms r) (failover_force r) (min_replicas_max_lag r).
Definition with_failover (st : FailoverState) (host : bytes) (port deadline : Z) (force : bool) (r : HRest) : HRest :=
  mkH (hx r) (h_replicas r) (waiters r) (fo_paused r) (h_offset r) (h_now r) (h_replica_mode r) (g_loading r) st host port deadline force
    (min_replicas_max_lag r).

Definition hx_of (c : nat) (s : Srv) : HX := default hx0 (hx (rest s) !! c).

(** [conn->wait_pending] and [conn->fo_write_pending] *)
Definition set_waiting (b : bool) (k : LConn) : LConn :=
  mkLConn (incoming k) (outgoing k) (sent k) (want_read k) (want_write k) (want_close k) (auth_pending k) b (fo_write_pending k).
Definition set_parked (b : bool) (k : LConn) : LConn :=
  mkLConn (incoming k) (outgoing k) (sent k) (want_read k) (want_write k) (want_close k) (auth_pending k) (wait_pending k) b.

(** The replies, as bytes of the connection's output. *)
Definition reply (c : nat) (data : bytes) (s : Srv) : Srv := on_conn c (fun k => with_outg (outgoing k ++ data) k) s.
Definition int_line (n : Z) : bytes := bs ":" ++ print_i64 n ++ crlf.
Definition err_line (msg : bytes) : bytes := bs "-" ++ msg ++ crlf.
Definition ok_reply : bytes := bs "+OK" ++ crlf.

(** ** Counting replicas *)

(** [now - t] is on [uint64_t]. *)
Definition good_replicas (now : Z) (s : Srv) : nat :=
  let max_lag_ms := u64 (min_replicas_max_lag (rest s) * 1000) in
  size (filter (fun c => max_lag_ms = 0 \/ (ack_time_ms (hx_of c s) <> 0 /\ u64 (now - ack_time_ms (hx_of c s)) <= max_lag_ms)) (h_replicas (rest s))).

Definition replicas_acked (offset : Z) (s : Srv) : nat :=
  size (filter (fun c => offset <= ack_offset (hx_of c s)) (h_replicas (rest s))).

(** The address before the colon, and the port the replica reported. *)
Definition host_of (x : HX) : bytes := take (scan (fun c => bool_decide (c = chr 58)) (peer x)) (peer x).

Definition replica_by_addr (host : bytes) (port : Z) (s : Srv) : option nat :=
  head (filter (fun c => replica_port (hx_of c s) = port /\ host_of (hx_of c s) = host) (elements (h_replicas (rest s)))).

Section Parts.
(** The dispatcher, and [conn_resume] over it. *)
Context (do_request : nat -> list bytes -> Srv -> Srv) (resume : nat -> Srv -> Srv).

(** ** WAIT *)

Definition wait_finish (c : nat) (reached : nat) (s : Srv) : Srv :=
  let s := on_conn c (set_waiting false) s in
  let s := on_rest (fun r => with_sets (waiters r ∖ {[c]}) (fo_paused r) r) s in
  resume c (reply c (int_line (Z.of_nat reached)) s).

(** Ready to be answered: enough replicas ([wait_numreplicas] is an [int],
    compared as [size_t]), or the deadline has passed. *)
Definition wait_done (s : Srv) (c : nat) : bool :=
  let x := hx_of c s in
  (u64 (wait_numreplicas x) <=? Z.of_nat (replicas_acked (wait_target x) s)) ||
  (negb (wait_deadline_ms x =? 0) && (wait_deadline_ms x <=? h_now (rest s))).

Definition wait_try_resume (s : Srv) : Srv :=
  let done := filter (fun c => wait_done s c = true) (elements (waiters (rest s))) in
  foldl (fun s c => wait_finish c (replicas_acked (wait_target (hx_of c s)) s) s) s done.

Definition wait_remove_conn (c : nat) (s : Srv) : Srv :=
  if bool_decide (wait_pending <$> conn c s = Some true)
  then on_rest (fun r => with_sets (waiters r ∖ {[c]}) (fo_paused r) r) (on_conn c (set_waiting false) s)
  else s.

Definition do_wait (c : nat) (a1 a2 : bytes) (s : Srv) : Srv :=
  match parse_int_strict a1 with
  | Some num =>
      if num <? 0 then reply c (err_line (bs "ERR value is not an integer or out of range")) s
      else
        match parse_int_strict a2 with
        | Some tmo =>
            if tmo <? 0 then reply c (err_line (bs "ERR timeout is not an integer or out of range")) s
            else
              let target := h_offset (rest s) in
              let reached := replicas_acked target s in
              if (num <=? Z.of_nat reached) || in_exec (hx_of c s) || g_loading (rest s) then reply c (int_line (Z.of_nat reached)) s
              else
                let x := hx_of c s in
                let x := mkHX (peer x) (replica_port x) (ack_offset x) (ack_time_ms x) target (i32 num)
                           (if tmo =? 0 then 0 else u64 (h_now (rest s) + tmo)) (in_exec x) (fo_cmd x) in
                on_rest (fun r => with_sets ({[c]} ∪ waiters r) (fo_paused r) (with_hx (<[c := x]> (hx r)) r)) (on_conn c (set_waiting true) s)
        | None => reply c (err_line (bs "ERR timeout is not an integer or out of range")) s
        end
  | None => reply c (err_line (bs "ERR value is not an integer or out of range")) s
  end.

(** ** REPLCONF *)

Definition do_replconf (c : nat) (cmd : list bytes) (s : Srv) : Srv :=
  let a i := default [] (cmd !! i) in
  let x := hx_of c s in
  if (2 <=? length cmd)%nat && arg_ieq (a 1%nat) (bs "ack") then
    match (if (3 <=? length cmd)%nat then parse_int_strict (a 2%nat) else None) with
    | Some off =>
        if off <? 0 then s
        else wait_try_resume (on_rest (fun r => with_hx (<[c := mkHX (peer x) (replica_port x) off (h_now r) (wait_target x) (wait_numreplicas x)
                                                     (wait_deadline_ms x) (in_exec x) (fo_cmd x)]> (hx r)) r) s)
    | None => s
    end
  else
    let s :=
      if (3 <=? length cmd)%nat && arg_ieq (a 1%nat) (bs "listening-port") then
        match parse_int_strict (a 2%nat) with
        | Some p =>
            if (0 <? p) && (p <? 65536)
            then on_rest (fun r => with_hx (<[c := mkHX (peer x) p (ack_offset x) (ack_time_ms x) (wait_target x) (wait_numreplicas x)
                                              (wait_deadline_ms x) (in_exec x) (fo_cmd x)]> (hx r)) r) s
            else s
        | None => s
        end
      else s in
    reply c ok_reply s.

(** ** Writes held during a hand-over *)

Definition fo_paused_remove_conn (c : nat) (s : Srv) : Srv :=
  if bool_decide (fo_write_pending <$> conn c s = Some true)
  then
    let x := hx_of c s in
    on_rest (fun r => with_sets (waiters r) (fo_paused r ∖ {[c]})
               (with_hx (<[c := mkHX (peer x) (replica_port x) (ack_offset x) (ack_time_ms x) (wait_target x) (wait_numreplicas x)
                                  (wait_deadline_ms x) (in_exec x) []]> (hx r)) r))
      (on_conn c (set_parked false) s)
  else s.

Definition resume_parked (c : nat) (s : Srv) : Srv :=
  let x := hx_of c s in
  let s := on_conn c (set_parked false) s in
  let s := on_rest (fun r => with_hx (<[c := mkHX (peer x) (replica_port x) (ack_offset x) (ack_time_ms x) (wait_target x) (wait_numreplicas x)
                                               (wait_deadline_ms x) (in_exec x) []]> (hx r)) r) s in
  if bool_decide (want_close <$> conn c s = Some true) then s else resume c (do_request c (fo_cmd x) s).

Definition fo_resume_paused_writes (s : Srv) : Srv :=
  let parked := elements (fo_paused (rest s)) in
  foldl (fun s c => resume_parked c s) (on_rest (fun r => with_sets (waiters r) ∅ r) s) parked.

Definition failover_reset (s : Srv) : Srv := fo_resume_paused_writes (on_rest (with_failover FO_NONE [] 0 0 false) s).

(** ** FAILOVER *)

(** The options: host, port, whether a target is named, timeout, FORCE, ABORT. *)
Record FoOpts := mkFo { o_host : bytes; o_port : Z; have_to : bool; o_timeout : Z; o_force : bool; want_abort : bool }.

Fixpoint fo_opts (args : list bytes) (o : FoOpts) : bytes + FoOpts :=
  match args with
  | [] => inr o
  | a :: rest_ =>
      if arg_ieq a (bs "abort") then fo_opts rest_ (mkFo (o_host o) (o_port o) (have_to o) (o_timeout o) (o_force o) true)
      else if arg_ieq a (bs "force") then fo_opts rest_ (mkFo (o_host o) (o_port o) (have_to o) (o_timeout o) true (want_abort o))
      else if arg_ieq a (bs "to") then
        match rest_ with
        | h :: p :: rest' =>
            match parse_int_strict p with
            | Some port =>
                if (port <? 1) || (65535 <? port) then inl (bs "ERR invalid FAILOVER target port")
                else fo_opts rest' (mkFo h port true (o_timeout o) (o_force o) (want_abort o))
            | None => inl (bs "ERR invalid FAILOVER target port")
            end
        | _ => inl (bs "ERR FAILOVER TO needs a host and a port")
        end
      else if arg_ieq a (bs "timeout") then
        match rest_ with
        | t :: rest' =>
            match parse_int_strict t with
            | Some tmo => if tmo <? 0 then inl (bs "ERR invalid FAILOVER TIMEOUT")
                          else fo_opts rest' (mkFo (o_host o) (o_port o) (have_to o) tmo (o_force o) (want_abort o))
            | None => inl (bs "ERR invalid FAILOVER TIMEOUT")
            end
        | [] => inl (bs "ERR invalid FAILOVER TIMEOUT")
        end
      else inl (bs "ERR syntax error")
  end.

(** The replica with a known port that is furthest, the first of equals. *)
Definition best_replica (s : Srv) : option nat :=
  foldl (fun best c =>
    if negb (replica_port (hx_of c s) =? 0) &&
       match best with None => true | Some b => ack_offset (hx_of b s) <? ack_offset (hx_of c s) end
    then Some c else best) None (elements (h_replicas (rest s))).

Definition do_failover (c : nat) (cmd : list bytes) (s : Srv) : Srv :=
  let fail msg := reply c (err_line msg) s in
  match fo_opts (drop 1 cmd) (mkFo [] 0 false 0 false false) with
  | inl msg => fail msg
  | inr o =>
      let r := rest s in
      if want_abort o then
        match fo_state r with
        | FO_NONE => fail (bs "ERR No failover in progress")
        | FO_IN_PROGRESS => fail (bs "ERR Failover already in progress, cannot abort")
        | FO_WAIT_FOR_SYNC => fo_resume_paused_writes (reply c ok_reply (on_rest (with_failover FO_NONE [] 0 0 false) s))
        end
      else if h_replica_mode r then fail (bs "ERR FAILOVER requires being a master")
      else if negb (bool_decide (fo_state r = FO_NONE)) then fail (bs "ERR Failover already in progress")
      else if o_force o && negb (have_to o) then fail (bs "ERR FAILOVER with FORCE requires TO <host> <port>")
      else if o_force o && (o_timeout o =? 0) then fail (bs "ERR FAILOVER with FORCE requires TIMEOUT")
      else if bool_decide (h_replicas r = ∅) then fail (bs "ERR FAILOVER requires connected replicas")
      else
        let begin host port :=
          reply c ok_reply (on_rest (with_failover FO_WAIT_FOR_SYNC host port
            (if o_timeout o =? 0 then 0 else u64 (h_now r + o_timeout o)) (o_force o)) s) in
        if have_to o then
          match replica_by_addr (o_host o) (o_port o) s with
          | Some _ => begin (o_host o) (o_port o)
          | None => fail (bs "ERR FAILOVER target is not a connected replica")
          end
        else
          match best_replica s with
          | Some b => begin (host_of (hx_of b s)) (replica_port (hx_of b s))
          | None => fail (bs "ERR no replica has reported a listening-port yet")
          end
  end.

(** [destroy] is [conn_destroy]; [start host port] is [repl_start], whether it
    could dial and what it leaves. *)
Definition failover_cron (destroy : nat -> Srv -> Srv) (start : bytes -> Z -> Srv -> bool * Srv) (now : Z) (s : Srv) : Srv :=
  let r := rest s in
  if negb (bool_decide (fo_state r = FO_WAIT_FOR_SYNC)) then s
  else
    match replica_by_addr (failover_host r) (failover_port r) s with
    | None => failover_reset s
    | Some t =>
        let synced := h_offset r <=? ack_offset (hx_of t s) in
        let expired := negb (failover_deadline_ms r =? 0) && (failover_deadline_ms r <=? now) in
        if negb synced && negb expired then s
        else if negb synced && negb (failover_force r) then failover_reset s
        else
          let s := on_rest (with_failover FO_IN_PROGRESS (failover_host r) (failover_port r) (failover_deadline_ms r) (failover_force r)) s in
          let s := foldl (fun s c => destroy c s) s (elements (h_replicas r)) in
          let '(ok, s) := start (failover_host r) (failover_port r) s in
          if (ok : bool) then s else failover_reset s
    end.
End Parts.

(** ** The knot *)

Section Knot.
(** The other commands, what the transport takes, and what else forgets a
    connection that is torn down. *)
Context (other : nat -> list bytes -> Srv -> Srv) (took : nat -> IoResult * nat) (forget : nat -> HRest -> HRest).

Fixpoint wait_request (fuel : nat) (c : nat) (cmd : list bytes) (s : Srv) : Srv :=
  match fuel with
  | O => s
  | S f =>
      let resume c s := conn_resume (wait_request f) forget (took c) c s in
      let name := map tolower (default [] (cmd !! 0%nat)) in
      if bool_decide (name = bs "replconf") then do_replconf resume c cmd s
      else if bool_decide (name = bs "wait") then do_wait c (default [] (cmd !! 1%nat)) (default [] (cmd !! 2%nat)) s
      else if bool_decide (name = bs "failover") then do_failover (wait_request f) resume c cmd s
      else other c cmd s
  end.
End Knot.

(** ** Finishing waiters *)

(** A client held by WAIT with nothing sent behind it. *)
Definition quiet (c : nat) (s : Srv) : Prop :=
  exists k, conn c s = Some k /\ incoming k = [] /\ want_close k = false /\ auth_pending k = false /\ fo_write_pending k = false.

(** Its answer: one integer behind what it was sent. *)
Definition answered (c n : nat) (s s' : Srv) : Prop :=
  exists k k', conn c s = Some k /\ conn c s' = Some k' /\ wait_pending k' = false /\ incoming k' = [] /\ want_close k' = false /\
    sent k' ++ outgoing k' = sent k ++ outgoing k ++ int_line (Z.of_nat n).

Section Finish.
Context (exec : nat -> list bytes -> Srv -> Srv) (took : nat -> IoResult * nat) (forget : nat -> HRest -> HRest) (Htook : forall c, no_error (took c)).

Abbreviation resume := (fun c s => conn_resume exec forget (took c) c s).

Lemma conn_set_eq c k (s : Srv) : conn c (set_conn c k s) = Some k.
Proof. unfold conn, set_conn. cbn [lconns]. apply lookup_insert_eq. Qed.

Lemma conn_set_ne c c' k (s : Srv) : c' <> c -> conn c' (set_conn c k s) = conn c' s.
Proof. intros H. unfold conn, set_conn. cbn [lconns]. by apply lookup_insert_ne. Qed.

(** Resuming a connection without input only sends what waits. *)
Lemma flush_others t c c' (s : Srv) : c' <> c -> conn c' (flush_or_wait t c s) = conn c' s.
Proof.
  intros Hne. unfold flush_or_wait, handle_write.
  repeat (case_match_eqn; rewrite ?conn_set_ne by done; try done).
Qed.

Lemma resume_quiet c (s : Srv) k :
  conn c s = Some k -> incoming k = [] -> want_close k = false -> pending k = false ->
  let s' := conn_resume exec forget (took c) c s in
  rest s' = rest s /\ (forall c', c' <> c -> conn c' s' = conn c' s) /\
  exists k', conn c s' = Some k' /\ incoming k' = [] /\ sent k' ++ outgoing k' = sent k ++ outgoing k /\ want_close k' = false /\ pending k' = false.
Proof.
  intros Hk Hin Hcl Hp. cbn zeta. unfold conn_resume. rewrite Hk. cbn [fmap option_fmap option_map]. rewrite Hcl, (bool_decide_eq_true_2 (Some false = Some false)) by done.
  assert (Hserve : forall n, serve exec (S n) c s = s).
  { intros n. cbn [serve]. unfold try_one_request. by rewrite Hk, Hp, Hin. }
  rewrite Hserve. destruct (flush_ok (took c) c s k Hk (Htook c)) as (F1 & k' & F2 & F3 & F4 & F5 & F6 & _).
  rewrite F2. cbn [fmap option_fmap option_map]. rewrite F5, Hcl, (bool_decide_eq_false_2 (Some false = Some true)) by done.
  split; [done|]. split; [by intros; apply flush_others|]. exists k'. by rewrite F3, F4, F5, F6.
Qed.

Lemma finish_one c n (s : Srv) : quiet c s ->
  let s' := wait_finish resume c n s in
  rest s' = with_sets (waiters (rest s) ∖ {[c]}) (fo_paused (rest s)) (rest s) /\ (forall c', c' <> c -> conn c' s' = conn c' s) /\ answered c n s s'.
Proof.
  intros (k & Hk & Hin & Hcl & Ha & Hf). cbn zeta. unfold wait_finish.
  set (s1 := reply c _ _).
  assert (Hs1 : s1 = mkLS (<[c := with_outg (outgoing k ++ int_line (Z.of_nat n)) (set_waiting false k)]> (lconns s)) (total_commands s)
                       (with_sets (waiters (rest s) ∖ {[c]}) (fo_paused (rest s)) (rest s))).
  { unfold s1, reply, on_conn, on_rest. rewrite Hk. unfold conn at 1. cbn [lconns set_conn rest total_commands]. rewrite lookup_insert_eq.
    unfold set_conn. cbn [lconns total_commands rest]. by rewrite insert_insert_eq. }
  destruct (resume_quiet c s1 (with_outg (outgoing k ++ int_line (Z.of_nat n)) (set_waiting false k))) as (R1 & R2 & k' & R3 & R4 & R5 & R6 & R7).
  { rewrite Hs1. unfold conn. cbn [lconns]. apply lookup_insert_eq. }
  { done. } { done. } { unfold pending. cbn. by rewrite Ha, Hf. }
  split; [by rewrite R1, Hs1|]. split.
  - intros c' Hne. rewrite R2 by done. rewrite Hs1. unfold conn. cbn [lconns]. by rewrite lookup_insert_ne.
  - exists k, k'. split_and!; try done. unfold pending in R7. by destruct (wait_pending k'); rewrite ?orb_true_r in R7.
Qed.

Lemma acked_sets o ws ps (s s' : Srv) : rest s' = with_sets ws ps (rest s) -> replicas_acked o s' = replicas_acked o s /\ forall c, hx_of c s' = hx_of c s.
Proof. intros H. unfold replicas_acked, hx_of. by rewrite H. Qed.

Lemma finish_all l : forall s : Srv, NoDup l -> (forall c, c ∈ l -> quiet c s) ->
  let s' := foldl (fun s c => wait_finish resume c (replicas_acked (wait_target (hx_of c s)) s) s) s l in
  rest s' = with_sets (waiters (rest s) ∖ list_to_set l) (fo_paused (rest s)) (rest s) /\
  (forall c, c ∉ l -> conn c s' = conn c s) /\
  forall c, c ∈ l -> answered c (replicas_acked (wait_target (hx_of c s)) s) s s'.
Proof.
  induction l as [|c l IH]; intros s Hnd Hq; cbn [foldl list_to_set].
  { split; [|split; [done|by intros c ?%not_elem_of_nil]]. destruct s as [cs n []]. unfold with_sets. cbn. f_equal. symmetry. apply difference_empty_L. }
  apply NoDup_cons in Hnd as [Hc Hnd]. destruct (finish_one c (replicas_acked (wait_target (hx_of c s)) s) s) as (F1 & F2 & F3); [apply Hq; by left|].
  set (s1 := wait_finish resume c _ s) in *. destruct (acked_sets 0 _ _ s s1 F1) as [_ Hx].
  assert (Hacked : forall o, replicas_acked o s1 = replicas_acked o s) by (intros o; by apply (acked_sets o _ _ s s1 F1)).
  destruct (IH s1 Hnd) as (I1 & I2 & I3).
  { intros c' Hc'. assert (c' <> c) by (by intros ->). destruct (Hq c') as (k & Hk & Hrest); [by right|]. exists k. by rewrite F2. }
  split; [rewrite I1, F1; unfold with_sets; cbn [hx h_replicas waiters fo_paused h_offset h_now h_replica_mode g_loading fo_state failover_host failover_port failover_deadline_ms failover_force min_replicas_max_lag]; by rewrite difference_difference_l_L|]. split.
  - intros c' Hc'. apply not_elem_of_cons in Hc' as [Hne Hn]. by rewrite I2, F2.
  - intros c' Hc'. apply elem_of_cons in Hc' as [->|Hc'].
    + destruct F3 as (k & k' & A1 & A2 & A3). exists k, k'. rewrite I2 by done. done.
    + assert (c' <> c) by (by intros ->). destruct (I3 c' Hc') as (k & k' & A1 & A2 & A3). exists k, k'. rewrite F2 in A1 by done.
      rewrite Hacked, Hx in A3. done.
Qed.
End Finish.

(** ** Claims *)

(** C33: WAIT is answered when it is due, once, as long as no waiting client
    has sent anything behind its WAIT (with such bytes a client can be answered
    twice: [wait_answered_twice]), no socket write fails, and the number asked
    for is not negative.  When the acknowledgements or the clock have moved,
    exactly the clients that are due leave the waiting set; each of them is
    sent one integer, the number of replicas that have reached its offset,
    which is at least the number it asked for unless its time is up; nothing
    else on the server changes, and nobody who is due is left waiting. *)
Theorem wait_settles (exec : nat -> list bytes -> Srv -> Srv) (took : nat -> IoResult * nat) (forget : nat -> HRest -> HRest) (s : Srv)
    (Htook : forall c, no_error (took c)) (Hquiet : forall c, c ∈ waiters (rest s) -> quiet c s)
    (Hnum : forall c, 0 <= wait_numreplicas (hx_of c s) < 2 ^ 31) :
  let s' := wait_try_resume (fun c s => conn_resume exec forget (took c) c s) s in
  rest s' = with_sets (filter (fun c => wait_done s c = false) (waiters (rest s))) (fo_paused (rest s)) (rest s) /\
  (forall c, wait_done s c = false \/ c ∉ waiters (rest s) -> conn c s' = conn c s) /\
  forall c, c ∈ waiters (rest s) -> wait_done s c = true ->
    let n := replicas_acked (wait_target (hx_of c s)) s in
    answered c n s s' /\
    (wait_numreplicas (hx_of c s) <= Z.of_nat n \/ (wait_deadline_ms (hx_of c s) <> 0 /\ wait_deadline_ms (hx_of c s) <= h_now (rest s))).
Proof.
  cbn zeta. unfold wait_try_resume. set (done_ := filter _ (elements (waiters (rest s)))).
  assert (Hin : forall c, c ∈ done_ <-> c ∈ waiters (rest s) /\ wait_done s c = true).
  { intros c. unfold done_. rewrite list_elem_of_filter, elem_of_elements. tauto. }
  destruct (finish_all exec took forget Htook done_ s) as (F1 & F2 & F3).
  { apply NoDup_filter, NoDup_elements. }
  { intros c Hc. apply Hquiet. by apply Hin. }
  split; [|split].
  - rewrite F1. f_equal. apply leibniz_equiv. intros c. rewrite elem_of_difference, elem_of_filter, elem_of_list_to_set, Hin.
    destruct (wait_done s c); intuition done.
  - intros c Hc. apply F2. rewrite Hin. intros [H1 H2]. destruct Hc as [Hc|Hc]; [by rewrite H2 in Hc|done].
  - intros c Hw Hd. split; [by apply F3, Hin|]. unfold wait_done in Hd. specialize (Hnum c).
    rewrite u64_small in Hd by lia. apply orb_true_iff in Hd as [Hd|Hd]; [left; lia|right]. apply andb_true_iff in Hd as [H1 H2].
    apply negb_true_iff, Z.eqb_neq in H1. apply Z.leb_le in H2. done.
Qed.

(** Two clients and a replica; the second client waits as well. *)
Definition wait_srv (behind1 : bytes) : Srv :=
  mkLS (list_to_map [(1%nat, set_waiting true lc0); (2%nat, with_in behind1 (set_waiting true lc0)); (3%nat, lc0)]) 0
    (mkH (list_to_map [(1%nat, mkHX (bs "c:1") 0 0 0 10 1 0 false []); (2%nat, mkHX (bs "c:2") 0 0 0 10 1 0 false []);
                       (3%nat, mkHX (bs "h:1") 7 10 5 0 0 0 false [])])
       {[3%nat]} {[1%nat; 2%nat]} ∅ 10 5 false false FO_NONE [] 0 0 false 10).
Definition took_all (c : nat) : IoResult * nat := (IO_OK, 1000%nat).
Definition keep (c : nat) (r : HRest) : HRest := r.
Definition silent (c : nat) (cmd : list bytes) (s : Srv) : Srv := s.

Lemma wait_settles_witness :
  let s := wait_srv [] in
  let s' := wait_try_resume (fun c s => conn_resume silent keep (took_all c) c s) s in
  answered 1 1 s s' /\ answered 2 1 s s' /\ waiters (rest s') = ∅.
Proof.
  cbn zeta. destruct (wait_settles silent took_all keep (wait_srv [])) as (H1 & H2 & H3).
  - intros c. by left.
  - intros c Hc. apply elem_of_union in Hc as [Hc|Hc]; apply elem_of_singleton in Hc as ->; (eexists; split; [reflexivity|done]).
  - intros c. unfold hx_of. cbn [rest hx wait_srv].
    destruct (_ !! c) as [x|] eqn:E; [|vm_compute; split; [discriminate|reflexivity]].
    apply elem_of_list_to_map_2 in E. repeat (apply elem_of_cons in E as [E|E]; [injection E as -> ->; vm_compute; split; [discriminate|reflexivity]|]).
    by apply not_elem_of_nil in E.
  - split; [apply (H3 1%nat); [set_solver|vm_compute; reflexivity]|]. split; [apply (H3 2%nat); [set_solver|vm_compute; reflexivity]|].
    rewrite H1. vm_compute. reflexivity.
Defined.

(** A WAIT can be answered twice.  Two clients wait for the same
    acknowledgement and one of them has sent REPLCONF ACK behind its WAIT:
    resuming that client settles the other one too, and then the outer loop,
    which had collected it before, answers it again.  And a number of replicas
    beyond 32 bits is cut: WAIT for 2^32 replicas is answered at the next
    occasion as if it had asked for none. *)
Theorem wait_answered_twice :
  let req := wait_request silent took_all keep 9 in
  let s := wait_try_resume (fun c s => conn_resume req keep (took_all c) c s) (wait_srv (frame [bs "REPLCONF"; bs "ACK"; bs "0"])) in
  sent <$> conn 1 s = Some (int_line 1 ++ int_line 1) /\ sent <$> conn 2 s = Some (int_line 1) /\
  let w := do_wait 3 (bs "4294967296") (bs "0") (mkLS (lconns s) 0 (with_hx (hx (rest s)) (rest s))) in
  conn 3 w <> None /\ 3%nat ∈ waiters (rest w) /\ wait_done w 3 = true.
Proof. vm_compute. split_and!; [reflexivity..|discriminate|set_solver|reflexivity]. Qed.
