(* ===== verification/DList.v ===== *)
(** * Intrusive lists (src/src/ds/list.h)

    Circular doubly linked lists threaded through nodes that live elsewhere:
    the timers of the connections.  The pointers are two maps from nodes to
    nodes; several lists share them.  The theorems relate the pointer
    operations to lists of nodes. *)
From S2P Require Import Prelude.

(** The [prev] and [next] fields of every node; a dangling pointer is [None]. *)
Record DHeap := mkDH { next : gmap nat nat; prev : gmap nat nat }.

Definition dlist_init (node : nat) (m : DHeap) : DHeap := mkDH (<[node := node]> (next m)) (<[node := node]> (prev m)).

Definition dlist_empty (node : nat) (m : DHeap) : option bool := n ← next m !! node; Some (bool_decide (n = node)).

Definition dlist_detach (node : nat) (m : DHeap) : option DHeap :=
  p ← prev m !! node;
  n ← next m !! node;
  Some (mkDH (<[p := n]> (next m)) (<[n := p]> (prev m))).

Definition dlist_insert_before (target rookie : nat) (m : DHeap) : option DHeap :=
  p ← prev m !! target;
  let m := mkDH (<[p := rookie]> (next m)) (prev m) in
  let m := mkDH (next m) (<[rookie := p]> (prev m)) in
  let m := mkDH (<[rookie := target]> (next m)) (prev m) in
  Some (mkDH (next m) (<[target := rookie]> (prev m))).

(** ** Chains of links *)

(** Each node of the list points to the one behind it, and back. *)
Fixpoint chain (m : DHeap) (l : list nat) : Prop :=
  match l with
  | a :: l' => match l' with b :: _ => next m !! a = Some b /\ prev m !! b = Some a | [] => True end /\ chain m l'
  | [] => True
  end.

(** The list with anchor [hd] holds the nodes [xs], in order. *)
Definition dlist (m : DHeap) (hd : nat) (xs : list nat) : Prop := NoDup (hd :: xs) /\ chain m (hd :: xs ++ [hd]).

Lemma chain_app m l1 x l2 : chain m (l1 ++ x :: l2) <-> chain m (l1 ++ [x]) /\ chain m (x :: l2).
Proof.
  induction l1 as [|a l1 IH]; [cbn; tauto|]. destruct l1 as [|b l1]; cbn [app chain] in *; [tauto|]. rewrite IH. tauto.
Qed.

(** Only the pointers of the chain matter: [next] of all but the last, [prev]
    of all but the first. *)
Lemma chain_frame m m' l :
  (forall a, a ∈ removelast l -> next m' !! a = next m !! a) -> (forall b, b ∈ tail l -> prev m' !! b = prev m !! b) ->
  chain m l -> chain m' l.
Proof.
  induction l as [|a l IH]; [done|]. intros Hn Hp [H1 H2]. destruct l as [|b l]; [done|]. cbn [removelast tail] in *. split.
  - rewrite Hn, Hp by (by left). done.
  - apply IH; [|intros x Hx; apply Hp; by right|done]. intros x Hx. apply Hn. by right.
Qed.

Lemma removelast_snoc {A} (l : list A) x : removelast (l ++ [x]) = l.
Proof. apply removelast_last. Qed.

(** The nodes of the list [hd], its anchor included. *)
Definition nodes (hd : nat) (xs : list nat) : list nat := hd :: xs.

Lemma dlist_frame m m' hd xs :
  (forall a, a ∈ nodes hd xs -> next m' !! a = next m !! a /\ prev m' !! a = prev m !! a) -> dlist m hd xs -> dlist m' hd xs.
Proof.
  intros Hf [Hnd Hc]. split; [done|]. eapply chain_frame; [| |exact Hc].
  - intros a Ha. rewrite app_comm_cons, removelast_snoc in Ha. by apply Hf.
  - intros b Hb. cbn [tail] in Hb. apply Hf. apply elem_of_app in Hb as [Hb|Hb]; [by right|]. apply list_elem_of_singleton in Hb as ->. by left.
Qed.

(** The neighbours of a node of the list. *)
Lemma dlist_split m hd l1 x l2 : dlist m hd (l1 ++ x :: l2) ->
  exists p n, prev m !! x = Some p /\ next m !! x = Some n /\ p = List.last (hd :: l1) hd /\ n = List.hd hd (l2 ++ [hd]) /\
    chain m (hd :: l1) /\ chain m (l2 ++ [hd]).
Proof.
  intros [_ Hc]. rewrite <- app_assoc in Hc. cbn [app] in Hc.
  destruct (exists_last (l := hd :: l1) ltac:(done)) as (l0 & p & Hl0).
  change (hd :: l1 ++ x :: l2 ++ [hd]) with ((hd :: l1) ++ x :: l2 ++ [hd]) in Hc. rewrite Hl0, <- app_assoc in Hc. cbn [app] in Hc.
  apply chain_app in Hc as [Hc1 Hc2]. destruct Hc2 as [[Hn Hp] Hc2]. destruct (l2 ++ [hd]) as [|n l3] eqn:E; [by destruct l2|].
  destruct Hc2 as [[Hn2 Hp2] Hc3]. exists p, n. rewrite Hl0, last_last. done.
Qed.

(** ** The operations *)

Definition same_at (m m' : DHeap) (a : nat) : Prop := next m' !! a = next m !! a /\ prev m' !! a = prev m !! a.

Lemma init_spec m x : dlist (dlist_init x m) x [] /\ forall a, a <> x -> same_at m (dlist_init x m) a.
Proof.
  unfold dlist_init. split.
  - split; [apply NoDup_singleton|]. cbn. by rewrite !lookup_insert_eq.
  - intros a Ha. split; cbn; by rewrite lookup_insert_ne.
Qed.

Lemma empty_spec m hd xs : dlist m hd xs -> dlist_empty hd m = Some (bool_decide (xs = [])).
Proof.
  intros [Hnd Hc]. unfold dlist_empty. destruct xs as [|x xs]; cbn [app chain] in Hc; destruct Hc as [[-> _] _]; cbn.
  - by rewrite !bool_decide_eq_true_2.
  - apply NoDup_cons in Hnd as [Hx _]. rewrite !bool_decide_eq_false_2; [done..|intros ->; apply Hx; by left].
Qed.

Lemma front_spec m hd x xs : dlist m hd (x :: xs) -> next m !! hd = Some x.
Proof. intros [_ Hc]. cbn in Hc. by destruct Hc as [[? _] _]. Qed.

Lemma detach_spec m hd l1 x l2 : dlist m hd (l1 ++ x :: l2) ->
  exists m', dlist_detach x m = Some m' /\ dlist m' hd (l1 ++ l2) /\ forall a, a ∉ nodes hd (l1 ++ x :: l2) -> same_at m m' a.
Proof.
  intros Hd. destruct (dlist_split m hd l1 x l2 Hd) as (p & n & Hp & Hn & Hpe & Hne & Hc1 & Hc2). destruct Hd as [Hnd _].
  unfold dlist_detach. rewrite Hp, Hn. cbn. eexists. split; [done|].
  rewrite NoDup_cons, NoDup_app, NoDup_cons, not_elem_of_app, not_elem_of_cons in Hnd. destruct Hnd as ((Hh1 & _ & Hh2) & Hnd1 & Hdis & Hx & Hnd2).
  assert (Hpin : p ∈ hd :: l1).
  { subst p. destruct (exists_last (l := hd :: l1) ltac:(done)) as (l0 & y & ->). rewrite last_last. apply elem_of_app. right. by left. }
  assert (Hnin : n ∈ l2 ++ [hd]) by (subst n; destruct l2; by left).
  assert (Hp2 : p ∉ l2).
  { intros Hin. apply elem_of_cons in Hpin as [->|Hpin]; [done|]. apply (Hdis p Hpin). by right. }
  assert (Hn1 : n ∉ l1).
  { intros Hin. apply elem_of_app in Hnin as [Hnin|Hnin]; [by apply (Hdis n Hin); right|]. by apply list_elem_of_singleton in Hnin as ->. }
  split; [split|].
  - apply NoDup_cons. split; [by apply not_elem_of_app|]. apply NoDup_app. split; [done|]. split; [|done].
    intros y Hy1 Hy2. apply (Hdis y Hy1). by right.
  - rewrite <- app_assoc. change (hd :: l1 ++ l2 ++ [hd]) with ((hd :: l1) ++ l2 ++ [hd]).
    assert (Hnd1' : NoDup (hd :: l1)) by (by apply NoDup_cons). assert (Hnd2' : NoDup (l2 ++ [hd])).
    { apply NoDup_app. split; [done|]. split; [|apply NoDup_singleton]. intros y Hy ->%list_elem_of_singleton. done. }
    destruct (exists_last (l := hd :: l1) ltac:(done)) as (l0 & y & Hl0). rewrite Hl0, last_last in *. subst y.
    destruct (l2 ++ [hd]) as [|y l3] eqn:E; [by destruct l2|]. cbn [List.hd] in Hne. subst y. rewrite <- app_assoc. cbn [app].
    apply chain_app. split; [|split; [cbn; by rewrite !lookup_insert_eq|]].
    + eapply chain_frame; [| |exact Hc1]; cbn [next prev].
      * intros a Ha. rewrite removelast_snoc in Ha. apply NoDup_app in Hnd1' as (_ & Hd0 & _).
        rewrite lookup_insert_ne; [done|]. intros ->. apply (Hd0 a Ha). by left.
      * intros b Hb. rewrite <- Hl0 in Hb. cbn [tail] in Hb. rewrite lookup_insert_ne; [done|]. by intros ->.
    + eapply chain_frame; [| |exact Hc2]; cbn [next prev].
      * intros a Ha. rewrite <- E, removelast_snoc in Ha. rewrite lookup_insert_ne; [done|]. by intros ->.
      * intros b Hb. cbn [tail] in Hb. apply NoDup_cons in Hnd2' as [Hd0 _]. rewrite lookup_insert_ne; [done|]. by intros ->.
  - intros a Ha. unfold nodes in Ha. rewrite not_elem_of_cons, not_elem_of_app, not_elem_of_cons in Ha. destruct Ha as (Ha0 & Ha1 & Hax & Ha2).
    split; cbn; rewrite lookup_insert_ne; try done.
    + intros ->. apply elem_of_cons in Hpin as [->|Hpin]; done.
    + intros ->. apply elem_of_app in Hnin as [Hnin|Hnin]; [done|]. by apply list_elem_of_singleton in Hnin as ->.
Qed.

Lemma insert_spec m hd xs x : dlist m hd xs -> x ∉ nodes hd xs ->
  exists m', dlist_insert_before hd x m = Some m' /\ dlist m' hd (xs ++ [x]) /\ forall a, a ∉ nodes hd (xs ++ [x]) -> same_at m m' a.
Proof.
  intros [Hnd Hc] Hx. unfold nodes in *. destruct (exists_last (l := hd :: xs) ltac:(done)) as (l0 & p & Hl0).
  assert (Hpin : p ∈ hd :: xs) by (rewrite Hl0; apply elem_of_app; right; by left).
  change (hd :: xs ++ [hd]) with ((hd :: xs) ++ [hd]) in Hc. rewrite Hl0, <- app_assoc in Hc. cbn [app] in Hc.
  apply chain_app in Hc as [Hc1 [[Hn Hp] _]]. unfold dlist_insert_before. rewrite Hp. cbn. eexists. split; [done|].
  assert (Hpx : p <> x) by (by intros ->). assert (Hhx : hd <> x) by (intros ->; apply Hx; by left).
  split; [split|].
  - change (hd :: xs ++ [x]) with ((hd :: xs) ++ [x]). apply NoDup_app. split; [done|]. split; [|apply NoDup_singleton].
    intros y Hy ->%list_elem_of_singleton. done.
  - rewrite <- app_assoc. change (hd :: xs ++ [x] ++ [hd]) with ((hd :: xs) ++ [x; hd]). rewrite Hl0, <- app_assoc. cbn [app].
    apply chain_app. split; [|cbn; rewrite !lookup_insert_eq, (lookup_insert_ne _ x p), (lookup_insert_ne _ hd x), !lookup_insert_eq by done; done].
    eapply chain_frame; [| |exact Hc1]; cbn [next prev].
    + intros a Ha. rewrite removelast_snoc in Ha. pose proof Hnd as Hnd'. rewrite Hl0 in Hnd'. apply NoDup_app in Hnd' as (_ & Hd0 & _).
      rewrite !lookup_insert_ne; [done|intros ->; apply (Hd0 a Ha); by left|intros ->; apply Hx; rewrite Hl0; apply elem_of_app; by left].
    + intros b Hb. rewrite <- Hl0 in Hb. cbn [tail] in Hb. apply NoDup_cons in Hnd as [Hd0 _].
      rewrite !lookup_insert_ne; [done|intros ->; apply Hx; by right|by intros ->].
  - intros a Ha. rewrite not_elem_of_cons, not_elem_of_app, not_elem_of_cons in Ha. destruct Ha as (Ha0 & Ha1 & Hax & _).
    split; cbn; rewrite !lookup_insert_ne; try done. intros ->. apply elem_of_cons in Hpin as [->|Hpin]; done.
Qed.
