(* ===== verification/Timers.v ===== *)
(** * Connection timers and the sleep of the event loop
    (src/src/server/server.cpp 685-779, 820-857, 928-951; src/src/core/state.h 86-90)

    Every client connection sits in one of three lists, in the order in which
    it was last active, so that only the front of a list has to be looked at:
    the loop sleeps until the earliest deadline and then closes from the front
    what has expired.  The lists are the pointer lists of [DList]. *)
From Stdlib Require Import Sorted.
From S2P Require Import Prelude DList.

Inductive ConnTimer := IDLE | IO | HANDSHAKE.
#[global] Instance ConnTimer_eq_dec : EqDecision ConnTimer.
Proof. solve_decision. Defined.

Definition k_idle_timeout_ms : Z := 30 * 1000.
Definition k_io_timeout_ms : Z := 30 * 1000.

(** [exempt]: the link to the master, or a replica. *)
Record TimedConn := mkTimed { timer_type : ConnTimer; last_active_ms : Z; exempt : bool }.

(** The pointers and the connections; the anchors are [g_data]'s three lists,
    [node c] is the [idle_node] of connection [c]. *)
Record TimerState := mkTimers { dh : DHeap; tconns : gmap nat TimedConn }.

Definition anchor (ty : ConnTimer) : nat := match ty with IDLE => 0 | IO => 1 | HANDSHAKE => 2 end.
Definition node (c : nat) : nat := c + 3.

Definition ts0 : TimerState := mkTimers (dlist_init 0 (dlist_init 1 (dlist_init 2 (mkDH ∅ ∅)))) ∅.

Definition conn_set_timer (now : Z) (c : nat) (type : ConnTimer) (t : TimerState) : option TimerState :=
  k ← tconns t !! c;
  if exempt k then
    m ← dlist_detach (node c) (dh t);
    Some (mkTimers (dlist_init (node c) m) (tconns t))
  else
    m ← dlist_detach (node c) (dh t);
    m ← dlist_insert_before (anchor type) (node c) m;
    Some (mkTimers m (<[c := mkTimed type now (exempt k)]> (tconns t))).

(** The timer's part of [handle_accept], of [conn_destroy], of becoming a
    replica, and of a wake-up of the connection. *)
Definition timer_accept (now : Z) (c : nat) (is_tls : bool) (t : TimerState) : option TimerState :=
  m ← dlist_insert_before (anchor IO) (node c) (dh t);
  let t := mkTimers m (<[c := mkTimed IO now false]> (tconns t)) in
  if is_tls then conn_set_timer now c HANDSHAKE t else Some t.

Definition timer_destroy (c : nat) (t : TimerState) : option TimerState :=
  m ← dlist_detach (node c) (dh t);
  Some (mkTimers m (delete c (tconns t))).

Definition timer_exempt (c : nat) (t : TimerState) : option TimerState :=
  k ← tconns t !! c; Some (mkTimers (dh t) (<[c := mkTimed (timer_type k) (last_active_ms k) true]> (tconns t))).

Definition timer_active (now : Z) (c : nat) (t : TimerState) : option TimerState :=
  k ← tconns t !! c; if bool_decide (timer_type k = HANDSHAKE) then Some t else conn_set_timer now c (timer_type k) t.

(** One of the three loops of [process_timers]: close from the front what has
    expired; [fuel] bounds the number of connections closed. *)
Fixpoint reap (fuel : nat) (now timeout : Z) (ty : ConnTimer) (t : TimerState) : option (list nat * TimerState) :=
  match fuel with
  | O => Some ([], t)
  | S f =>
      e ← dlist_empty (anchor ty) (dh t);
      if (e : bool) then Some ([], t)
      else
        n ← next (dh t) !! anchor ty;
        let c := (n - 3)%nat in
        k ← tconns t !! c;
        if now <? u64 (last_active_ms k + timeout) then Some ([], t)
        else
          t ← timer_destroy c t;
          '(closed, t) ← reap f now timeout ty t;
          Some (c :: closed, t)
  end.

Definition timeout_of (tls_handshake_timeout_ms : Z) (ty : ConnTimer) : Z :=
  match ty with IDLE => k_idle_timeout_ms | IO => k_io_timeout_ms | HANDSHAKE => tls_handshake_timeout_ms end.

(** The three loops, one after the other. *)
Definition reap_all (now tls : Z) (t : TimerState) : option (list nat * TimerState) :=
  let run ty t := reap (S (size (tconns t))) now (timeout_of tls ty) ty t in
  '(a, t) ← run IDLE t;
  '(b, t) ← run IO t;
  '(c, t) ← run HANDSHAKE t;
  Some (a ++ b ++ c, t).

(** ** The invariant *)

Definition last_of (t : TimerState) (c : nat) : Z := default 0 (last_active_ms <$> tconns t !! c).

(** [xs ty] are the connections of the list [ty], front first. *)
Record timers_ok (now : Z) (t : TimerState) (xs : ConnTimer -> list nat) : Prop := {
  to_list : forall ty, dlist (dh t) (anchor ty) (node <$> xs ty);
  to_conn : forall ty c, c ∈ xs ty -> exists k, tconns t !! c = Some k /\ timer_type k = ty;
  to_sorted : forall ty, StronglySorted (fun a b => last_of t a <= last_of t b) (xs ty);
  to_past : forall c k, tconns t !! c = Some k -> 0 <= last_active_ms k <= now;
  to_all : forall c k, tconns t !! c = Some k ->
    c ∈ xs (timer_type k) \/ (exempt k = true /\ dlist (dh t) (node c) [] /\ forall ty, c ∉ xs ty);
}.

Lemma node_inj a b : node a = node b -> a = b.
Proof. unfold node. lia. Qed.

Lemma node_anchor c ty : node c <> anchor ty.
Proof. unfold node, anchor. destruct ty; lia. Qed.

Lemma anchor_inj a b : anchor a = anchor b -> a = b.
Proof. destruct a, b; done. Qed.

Lemma in_nodes c hd xs : node c ∈ nodes hd (node <$> xs) <-> node c = hd \/ c ∈ xs.
Proof.
  unfold nodes. rewrite elem_of_cons, list_elem_of_fmap. split; intros [H|H]; [by left|right|by left|right].
  - destruct H as (y & Hy & Hin). apply node_inj in Hy as ->. done.
  - by exists c.
Qed.

(** No node is in two lists. *)
Lemma lists_apart now t xs ty ty' a : timers_ok now t xs -> ty <> ty' -> a ∈ nodes (anchor ty) (node <$> xs ty) ->
  a ∉ nodes (anchor ty') (node <$> xs ty').
Proof.
  intros Hok Hne Ha Ha'. unfold nodes in *. apply elem_of_cons in Ha as [->|Ha]; apply elem_of_cons in Ha' as [He|Ha'].
  - by apply anchor_inj in He.
  - apply list_elem_of_fmap in Ha' as (y & Hy & _). by apply (node_anchor y ty).
  - subst a. apply list_elem_of_fmap in Ha as (y & Hy & _). by apply (node_anchor y ty').
  - apply list_elem_of_fmap in Ha as (y & -> & Hy). apply list_elem_of_fmap in Ha' as (z & Hz & Hz'). apply node_inj in Hz as <-.
    destruct (to_conn _ _ _ Hok ty y Hy) as (k & Hk & Ht). destruct (to_conn _ _ _ Hok ty' y Hz') as (k' & Hk' & Ht'). congruence.
Qed.

Definition rm (c : nat) (l : list nat) : list nat := filter (fun x => x <> c) l.

Lemma rm_notin c l : c ∉ l -> rm c l = l.
Proof.
  intros H. unfold rm. induction l as [|x l IH]; [done|]. apply not_elem_of_cons in H as [Hx Hl]. rewrite filter_cons_True by done. by rewrite IH.
Qed.

Lemma rm_split c l1 l2 : c ∉ l1 -> c ∉ l2 -> rm c (l1 ++ c :: l2) = l1 ++ l2.
Proof.
  intros H1 H2. unfold rm. rewrite filter_app, filter_cons_False by (intros []; done). fold (rm c l1). fold (rm c l2). by rewrite !rm_notin.
Qed.

Lemma elem_of_rm c x l : x ∈ rm c l <-> x <> c /\ x ∈ l.
Proof. unfold rm. by rewrite list_elem_of_filter. Qed.

Lemma sorted_rm (R : nat -> nat -> Prop) c l : StronglySorted R l -> StronglySorted R (rm c l).
Proof.
  induction 1 as [|x l Hs IH Hall]; [constructor|]. unfold rm in *. destruct (decide (x <> c)); [rewrite filter_cons_True by done|by rewrite filter_cons_False].
  constructor; [done|]. apply Forall_forall. intros y Hy. apply list_elem_of_filter in Hy as [_ Hy]. by rewrite Forall_forall in Hall; apply Hall.
Qed.

(** A node of its own: linked to itself and in no list. *)
Definition alone (t : TimerState) (xs : ConnTimer -> list nat) (c : nat) : Prop := dlist (dh t) (node c) [] /\ forall ty, c ∉ xs ty.

Lemma detach_conn now t xs c k : timers_ok now t xs -> tconns t !! c = Some k ->
  exists m, dlist_detach (node c) (dh t) = Some m /\ (forall ty, dlist m (anchor ty) (node <$> rm c (xs ty))) /\
    forall c', c' <> c -> alone t xs c' -> dlist m (node c') [].
Proof.
  intros Hok Hk. destruct (to_all _ _ _ Hok c k Hk) as [Hin|(_ & [_ Hself] & Hno)].
  - apply list_elem_of_split in Hin as (l1 & l2 & Hl). pose proof (to_list _ _ _ Hok (timer_type k)) as Hd. rewrite Hl, fmap_app in Hd. cbn in Hd.
    destruct (detach_spec _ _ _ _ _ Hd) as (m & Hm & Hd' & Hfr). exists m. split; [done|].
    assert (Hnd : NoDup (l1 ++ c :: l2)).
    { destruct Hd as [Hnd _]. apply NoDup_cons in Hnd as [_ Hnd]. change (node c :: (node <$> l2)) with (node <$> c :: l2) in Hnd. rewrite <- fmap_app in Hnd.
      by apply NoDup_fmap_1 in Hnd. }
    apply NoDup_app in Hnd as (_ & Hdis & Hnd2). apply NoDup_cons in Hnd2 as [Hc2 _].
    assert (Hc1 : c ∉ l1) by (intros H; apply (Hdis c H); by left). split.
    + intros ty. destruct (decide (ty = timer_type k)) as [->|Hne]; [by rewrite Hl, rm_split, fmap_app by done|].
      rewrite rm_notin. 2: { intros H. destruct (to_conn _ _ _ Hok ty c H) as (k' & Hk' & Ht). congruence. }
      eapply dlist_frame; [|apply (to_list _ _ _ Hok ty)]. intros a Ha. apply Hfr. intros Ha'.
      apply (lists_apart now t xs ty (timer_type k) a Hok Hne Ha). rewrite Hl, fmap_app. done.
    + intros c' Hne [Hself Hno]. eapply dlist_frame; [|exact Hself]. intros a Ha. apply list_elem_of_singleton in Ha as ->. apply Hfr. intros Ha.
      change (node c :: (node <$> l2)) with (node <$> c :: l2) in Ha. rewrite <- fmap_app, <- Hl in Ha. apply in_nodes in Ha as [Ha|Ha]; [by apply node_anchor in Ha|].
      by apply (Hno (timer_type k)).
  - cbn in Hself. destruct Hself as [[Hn Hp] _]. unfold dlist_detach. rewrite Hn, Hp. cbn. eexists. split; [done|]. rewrite !insert_id by done.
    assert (Hdh : mkDH (next (dh t)) (prev (dh t)) = dh t) by (by destruct (dh t)). rewrite Hdh.
    split; [intros ty; rewrite rm_notin by done; apply (to_list _ _ _ Hok ty)|]. by intros c' _ [? _].
Qed.

Lemma sorted_mono (R R' : nat -> nat -> Prop) l :
  StronglySorted R l -> (forall a b, a ∈ l -> b ∈ l -> R a b -> R' a b) -> StronglySorted R' l.
Proof.
  induction 1 as [|x l Hs IH Hall]; intros Himp; constructor.
  - apply IH. intros a b Ha Hb. apply Himp; by right.
  - apply Forall_forall. intros y Hy. rewrite Forall_forall in Hall. apply Himp; [by left|by right|by apply Hall].
Qed.

Lemma timers_later now now' t xs : timers_ok now t xs -> now <= now' -> timers_ok now' t xs.
Proof. intros [H1 H2 H3 H4 H5] Hle. split; try done. intros c k Hk. specialize (H4 c k Hk). lia. Qed.

(** Writing down the lists without [c] and the connections without [c]. *)
Lemma without_ok now t xs c m : timers_ok now t xs -> (forall ty, dlist m (anchor ty) (node <$> rm c (xs ty))) ->
  (forall c', c' <> c -> alone t xs c' -> dlist m (node c') []) -> timers_ok now (mkTimers m (delete c (tconns t))) (fun ty => rm c (xs ty)).
Proof.
  intros Hok Hm Hal. split; cbn [dh tconns].
  - done.
  - intros ty x Hx. apply elem_of_rm in Hx as [Hne Hx]. rewrite lookup_delete_ne by done. by apply (to_conn _ _ _ Hok).
  - intros ty. eapply sorted_mono; [apply sorted_rm, (to_sorted _ _ _ Hok)|]. intros a b Ha Hb. apply elem_of_rm in Ha as [Ha _]. apply elem_of_rm in Hb as [Hb _].
    unfold last_of. cbn [tconns]. by rewrite !lookup_delete_ne.
  - intros x k Hx. apply lookup_delete_Some in Hx as [_ Hx]. by apply (to_past _ _ _ Hok x).
  - intros x k Hx. apply lookup_delete_Some in Hx as [Hne Hx]. destruct (to_all _ _ _ Hok x k Hx) as [Hin|(He & Hself & Hno)].
    + left. by apply elem_of_rm.
    + right. split; [done|]. split; [by apply Hal|]. intros ty Hin. apply elem_of_rm in Hin as [_ Hin]. by apply (Hno ty).
Qed.

Lemma destroy_ok now t xs c k : timers_ok now t xs -> tconns t !! c = Some k ->
  exists t', timer_destroy c t = Some t' /\ tconns t' = delete c (tconns t) /\ timers_ok now t' (fun ty => rm c (xs ty)).
Proof.
  intros Hok Hk. destruct (detach_conn now t xs c k Hok Hk) as (m & Hm & Hd & Hal). unfold timer_destroy. rewrite Hm. cbn.
  eexists. split; [done|]. split; [done|]. by apply without_ok.
Qed.

Lemma sorted_snoc (R : nat -> nat -> Prop) l x : StronglySorted R l -> (forall y, y ∈ l -> R y x) -> StronglySorted R (l ++ [x]).
Proof.
  induction 1 as [|a l Hs IH Hall]; intros Hx; cbn [app]; [constructor; constructor|]. constructor.
  - apply IH. intros y Hy. apply Hx. by right.
  - apply Forall_app. split; [done|]. apply Forall_singleton. apply Hx. by left.
Qed.

(** A connection joins a list at the back. *)
Lemma join_ok now t xs c ty e :
  timers_ok now t xs -> tconns t !! c = None -> 0 <= now ->
  exists m, dlist_insert_before (anchor ty) (node c) (dh t) = Some m /\
    timers_ok now (mkTimers m (<[c := mkTimed ty now e]> (tconns t))) (fun ty' => xs ty' ++ if bool_decide (ty' = ty) then [c] else []).
Proof.
  intros Hok Hc Hnow. assert (Hno : forall ty', c ∉ xs ty').
  { intros ty' Hin. destruct (to_conn _ _ _ Hok ty' c Hin) as (k & Hk & _). congruence. }
  destruct (insert_spec (dh t) (anchor ty) (node <$> xs ty) (node c)) as (m & Hm & Hd & Hfr).
  { apply (to_list _ _ _ Hok). } { intros Hin. apply in_nodes in Hin as [Hin|Hin]; [by apply node_anchor in Hin|by apply (Hno ty)]. }
  exists m. split; [done|]. split; cbn [dh tconns].
  - intros ty'. destruct (decide (ty' = ty)) as [->|Hne]; [rewrite bool_decide_eq_true_2 by done; by rewrite fmap_app|].
    rewrite bool_decide_eq_false_2, app_nil_r by done. eapply dlist_frame; [|apply (to_list _ _ _ Hok ty')]. intros a Ha. apply Hfr.
    intros Ha'. change [node c] with (node <$> [c]) in Ha'. rewrite <- fmap_app in Ha'. unfold nodes in Ha'. rewrite fmap_app in Ha'.
    rewrite app_comm_cons in Ha'. apply elem_of_app in Ha' as [Ha'|Ha']; [by apply (lists_apart now t xs ty' ty a Hok Hne Ha)|].
    apply list_elem_of_singleton in Ha' as ->. apply in_nodes in Ha as [Ha|Ha]; [by apply node_anchor in Ha|by apply (Hno ty')].
  - intros ty' x Hx. apply elem_of_app in Hx as [Hx|Hx].
    + rewrite lookup_insert_ne by (intros ->; by apply (Hno ty')). by apply (to_conn _ _ _ Hok).
    + case_bool_decide; [|by apply not_elem_of_nil in Hx]. subst. apply list_elem_of_singleton in Hx as ->. rewrite lookup_insert_eq. eauto.
  - intros ty'. assert (Hold : StronglySorted (fun a b => last_of (mkTimers m (<[c:=mkTimed ty now e]> (tconns t))) a <=
        last_of (mkTimers m (<[c:=mkTimed ty now e]> (tconns t))) b) (xs ty')).
    { eapply sorted_mono; [apply (to_sorted _ _ _ Hok)|]. intros a b Ha Hb. unfold last_of. cbn [tconns].
      rewrite !lookup_insert_ne by (intros ->; by eapply Hno). done. }
    case_bool_decide; [|by rewrite app_nil_r]. apply sorted_snoc; [done|]. intros x Hx. unfold last_of. cbn [tconns]. rewrite lookup_insert_eq.
    rewrite lookup_insert_ne by (intros ->; by apply (Hno ty')). destruct (to_conn _ _ _ Hok ty' x Hx) as (k & Hk & _). rewrite Hk. cbn.
    by apply (to_past _ _ _ Hok x).
  - intros x k Hx. apply lookup_insert_Some in Hx as [[-> <-]|[_ Hx]]; [cbn; lia|]. by apply (to_past _ _ _ Hok x).
  - intros x k Hx. apply lookup_insert_Some in Hx as [[-> <-]|[Hne Hx]].
    + left. cbn. rewrite bool_decide_eq_true_2 by done. apply elem_of_app. right. by left.
    + destruct (to_all _ _ _ Hok x k Hx) as [Hin|(He & Hself & Hn)]; [left; apply elem_of_app; by left|right].
      split; [done|]. split.
      * eapply dlist_frame; [|exact Hself]. intros a Ha. apply list_elem_of_singleton in Ha as ->. apply Hfr. intros Ha.
        change [node c] with (node <$> [c]) in Ha. rewrite <- fmap_app in Ha. apply in_nodes in Ha as [Ha|Ha]; [by apply node_anchor in Ha|].
        apply elem_of_app in Ha as [Ha|Ha]; [by apply (Hn ty)|]. by apply list_elem_of_singleton in Ha.
      * intros ty' Hin. apply elem_of_app in Hin as [Hin|Hin]; [by apply (Hn ty')|]. case_bool_decide; [|by apply not_elem_of_nil in Hin].
        by apply list_elem_of_singleton in Hin.
Qed.

Lemma set_timer_ok now now' t xs c k ty : timers_ok now t xs -> now <= now' -> 0 <= now' -> tconns t !! c = Some k ->
  exists t' xs', conn_set_timer now' c ty t = Some t' /\ timers_ok now' t' xs' /\
    tconns t' = if exempt k then tconns t else <[c := mkTimed ty now' false]> (tconns t).
Proof.
  intros Hok Hle Hpos Hk. apply (timers_later _ now') in Hok; [|done]. destruct (detach_conn now' t xs c k Hok Hk) as (m & Hm & Hd & Hal).
  unfold conn_set_timer. rewrite Hk. cbn [mbind option_bind]. rewrite Hm. cbn [mbind option_bind].
  pose proof (without_ok now' t xs c m Hok Hd Hal) as Hw. destruct (exempt k) eqn:Ee.
  - exists (mkTimers (dlist_init (node c) m) (tconns t)), (fun ty => rm c (xs ty)). split; [done|]. split; [|done].
    destruct (init_spec m (node c)) as [Hself Hfr]. split; cbn [dh tconns].
    + intros ty'. eapply dlist_frame; [|apply Hd]. intros a Ha. apply Hfr. intros ->. apply in_nodes in Ha as [Ha|Ha]; [by apply node_anchor in Ha|].
      by apply elem_of_rm in Ha as [].
    + intros ty' x Hx. apply elem_of_rm in Hx as [_ Hx]. by apply (to_conn _ _ _ Hok).
    + intros ty'. apply sorted_rm, (to_sorted _ _ _ Hok).
    + apply (to_past _ _ _ Hok).
    + intros x k' Hx. destruct (decide (x = c)) as [->|Hne].
      * right. assert (k' = k) as -> by congruence. split; [done|]. split; [done|]. intros ty' Hin. by apply elem_of_rm in Hin as [].
      * destruct (to_all _ _ _ Hok x k' Hx) as [Hin|(He & Hs & Hn)]; [left; by apply elem_of_rm|right].
        split; [done|]. split; [|intros ty' Hin; apply elem_of_rm in Hin as [_ Hin]; by apply (Hn ty')].
        eapply dlist_frame; [|apply Hal; [done|by split]]. intros a Ha. apply list_elem_of_singleton in Ha as ->. apply Hfr. intros He'. by apply node_inj in He'.
  - destruct (join_ok now' _ _ c ty false Hw) as (m' & Hm' & Hok'); [apply lookup_delete_eq|done|]. cbn [dh tconns] in *. rewrite Hm'. cbn [mbind option_bind].
    eexists _, _. split; [done|]. rewrite insert_delete_eq in Hok'. by split.
Qed.

(** ** What happens to connections *)

Inductive TEvent := TAccept (c : nat) (is_tls : bool) | TDestroy (c : nat) | TExempt (c : nat) | TActive (c : nat) | TSet (c : nat) (ty : ConnTimer).

(** At time [now]; a connection that is not there does nothing, one that is
    there is not accepted again. *)
Definition t_event (now : Z) (e : TEvent) (t : TimerState) : option TimerState :=
  match e with
  | TAccept c tls => if bool_decide (tconns t !! c = None) then timer_accept now c tls t else Some t
  | TDestroy c => if bool_decide (tconns t !! c = None) then Some t else timer_destroy c t
  | TExempt c => if bool_decide (tconns t !! c = None) then Some t else timer_exempt c t
  | TActive c => if bool_decide (tconns t !! c = None) then Some t else timer_active now c t
  | TSet c ty => if bool_decide (tconns t !! c = None) then Some t else conn_set_timer now c ty t
  end.

Fixpoint t_run (evs : list (Z * TEvent)) (t : TimerState) : option TimerState :=
  match evs with [] => Some t | (now, e) :: evs' => t ← t_event now e t; t_run evs' t end.

Lemma exempt_ok now t xs c k : timers_ok now t xs -> tconns t !! c = Some k ->
  timers_ok now (mkTimers (dh t) (<[c := mkTimed (timer_type k) (last_active_ms k) true]> (tconns t))) xs.
Proof.
  intros Hok Hk. assert (Hlast : forall x, last_of (mkTimers (dh t) (<[c := mkTimed (timer_type k) (last_active_ms k) true]> (tconns t))) x = last_of t x).
  { intros x. unfold last_of. cbn [tconns]. destruct (decide (x = c)) as [->|Hne]; [by rewrite lookup_insert_eq, Hk|by rewrite lookup_insert_ne]. }
  split; cbn [dh tconns].
  - apply (to_list _ _ _ Hok).
  - intros ty x Hx. destruct (to_conn _ _ _ Hok ty x Hx) as (k' & Hk' & Ht). destruct (decide (x = c)) as [->|Hne]; [|rewrite lookup_insert_ne by done; eauto].
    rewrite lookup_insert_eq. eexists. split; [done|]. cbn. congruence.
  - intros ty. eapply sorted_mono; [apply (to_sorted _ _ _ Hok)|]. intros a b _ _. by rewrite !Hlast.
  - intros x k' Hx. apply lookup_insert_Some in Hx as [[-> <-]|[_ Hx]]; [cbn; by apply (to_past _ _ _ Hok x)|by apply (to_past _ _ _ Hok x)].
  - intros x k' Hx. apply lookup_insert_Some in Hx as [[-> <-]|[_ Hx]]; [|by apply (to_all _ _ _ Hok)]. cbn.
    destruct (to_all _ _ _ Hok x k Hk) as [Hin|(_ & ? & ?)]; [by left|by right].
Qed.

Lemma event_ok now now' e t xs : timers_ok now t xs -> now <= now' -> 0 <= now' ->
  exists t' xs', t_event now' e t = Some t' /\ timers_ok now' t' xs'.
Proof.
  intros Hok Hle Hpos. pose proof (timers_later _ now' _ _ Hok Hle) as Hok'.
  assert (Hskip : exists t' xs', Some t = Some t' /\ timers_ok now' t' xs') by (by exists t, xs).
  destruct e as [c tls|c|c|c|c ty]; unfold t_event; case_bool_decide as Hn; try done;
    try (destruct (tconns t !! c) as [k|] eqn:Hk; [clear Hn|done]).
  - unfold timer_accept. destruct (join_ok now' t xs c IO false Hok' Hn Hpos) as (m & Hm & Hj). rewrite Hm. cbn [mbind option_bind].
    destruct tls; [|by eexists _, _]. destruct (set_timer_ok now' now' _ _ c (mkTimed IO now' false) HANDSHAKE Hj) as (t' & xs' & H1 & H2 & _);
      [done|done|cbn; apply lookup_insert_eq|]. by exists t', xs'.
  - destruct (destroy_ok now' t xs c k Hok' Hk) as (t' & H1 & _ & H2). by eexists t', _.
  - unfold timer_exempt. rewrite Hk. cbn [mbind option_bind]. eexists _, xs. split; [done|]. by apply exempt_ok.
  - unfold timer_active. rewrite Hk. cbn [mbind option_bind]. case_bool_decide; [by exists t, xs|].
    destruct (set_timer_ok now now' t xs c k (timer_type k) Hok Hle Hpos Hk) as (t' & xs' & H1 & H2 & _). by exists t', xs'.
  - destruct (set_timer_ok now now' t xs c k ty Hok Hle Hpos Hk) as (t' & xs' & H1 & H2 & _). by exists t', xs'.
Qed.

(** Times that do not go back. *)
Fixpoint forward (now : Z) (evs : list (Z * TEvent)) : Prop := match evs with [] => True | (n, _) :: evs' => now <= n /\ forward n evs' end.

Definition end_time (now : Z) (evs : list (Z * TEvent)) : Z := foldl (fun _ p => p.1) now evs.

Lemma run_ok evs : forall now t xs, 0 <= now -> timers_ok now t xs -> forward now evs ->
  exists t' xs', t_run evs t = Some t' /\ timers_ok (end_time now evs) t' xs' /\ now <= end_time now evs.
Proof.
  induction evs as [|[n e] evs IH]; intros now t xs Hpos Hok Hf; [exists t, xs; split; [done|]; split; [done|cbn; lia]|].
  destruct Hf as [Hn Hf]. cbn [t_run end_time foldl fst]. destruct (event_ok now n e t xs Hok) as (t1 & xs1 & He & Hok1); [lia|lia|].
  rewrite He. cbn [mbind option_bind]. destruct (IH n t1 xs1) as (t' & xs' & H1 & H2 & H3); [lia|done|done|]. exists t', xs'. unfold end_time in *. split; [done|]. split; [done|lia].
Qed.

Lemma ts0_ok : timers_ok 0 ts0 (fun _ => []).
Proof.
  split; try (intros; by (set_solver || done)).
  - intros ty. split; [apply NoDup_singleton|]. destruct ty; vm_compute; done.
  - intros ty. constructor.
Qed.

(** ** Closing what has expired *)

Lemma reap_ok now timeout ty fuel : forall t xs,
  timers_ok now t xs -> (length (xs ty) < fuel)%nat -> 0 <= timeout -> now + timeout < 2 ^ 64 ->
  exists closed t' xs', reap fuel now timeout ty t = Some (closed, t') /\ timers_ok now t' xs' /\
    (forall c, c ∈ closed <-> c ∈ xs ty /\ last_of t c + timeout <= now) /\
    (forall c, tconns t' !! c = if decide (c ∈ closed) then None else tconns t !! c) /\
    (forall ty' c, ty' <> ty -> c ∈ xs' ty' <-> c ∈ xs ty').
Proof.
  induction fuel as [|fuel IH]; intros t xs Hok Hf Ht Hw; [lia|]. cbn [reap].
  rewrite (empty_spec _ _ _ (to_list _ _ _ Hok ty)). cbn [mbind option_bind].
  destruct (xs ty) as [|c l] eqn:Hx.
  { cbn. exists [], t, xs. split; [done|]. split; [done|]. split; [set_solver|]. done. }
  cbn [fmap list_fmap]. rewrite bool_decide_eq_false_2 by done. pose proof (to_list _ _ _ Hok ty) as Hd. rewrite Hx in Hd. cbn [fmap list_fmap] in Hd.
  rewrite (front_spec _ _ _ _ Hd). cbn [mbind option_bind]. replace (node c - 3)%nat with c by (unfold node; lia).
  destruct (to_conn _ _ _ Hok ty c) as (k & Hk & Hty); [rewrite Hx; by left|]. rewrite Hk. cbn [mbind option_bind].
  pose proof (to_past _ _ _ Hok c k Hk) as Hpast. rewrite u64_small by lia. pose proof (to_sorted _ _ _ Hok ty) as Hs. rewrite Hx in Hs.
  apply StronglySorted_inv in Hs as [_ Hall]. assert (Hlc : last_of t c = last_active_ms k) by (unfold last_of; by rewrite Hk).
  destruct (now <? last_active_ms k + timeout) eqn:E.
  - apply Z.ltb_lt in E. exists [], t, xs. split; [done|]. split; [done|]. split; [|done]. intros y. split; [set_solver|].
    intros [Hy Hle]. apply elem_of_cons in Hy as [->|Hy]; [lia|]. rewrite Forall_forall in Hall. specialize (Hall y Hy). cbn in Hall. lia.
  - apply Z.ltb_ge in E. destruct (destroy_ok now t xs c k Hok Hk) as (t1 & H1 & Hc1 & Hok1). rewrite H1. cbn [mbind option_bind].
    assert (Hcl : c ∉ l).
    { destruct Hd as [Hnd _]. apply NoDup_cons in Hnd as [_ Hnd]. change (node c :: (node <$> l)) with (node <$> c :: l) in Hnd.
      apply NoDup_fmap_1 in Hnd. by apply NoDup_cons in Hnd as []. }
    assert (Hrm : rm c (xs ty) = l) by (rewrite Hx; change (c :: l) with ([] ++ c :: l); rewrite rm_split; set_solver).
    destruct (IH t1 _ Hok1) as (closed & t' & xs' & R1 & R2 & R3 & R4 & R5); [cbn; rewrite Hrm; cbn in Hf; lia|done|done|].
    rewrite R1. cbn [mbind option_bind]. exists (c :: closed), t', xs'. split; [done|]. split; [done|]. cbn beta in R3, R5. rewrite Hrm in R3.
    assert (Hlast : forall y, y <> c -> last_of t1 y = last_of t y) by (intros y Hy; unfold last_of; by rewrite Hc1, lookup_delete_ne).
    assert (Hcc : c ∉ closed) by (intros Hin; apply R3 in Hin as [Hin _]; done). split; [|split].
    + intros y. rewrite !elem_of_cons. destruct (decide (y = c)) as [->|Hne]; [split; [intros _; split; [by left|lia]|by left]|].
      rewrite R3, Hlast by done. tauto.
    + intros y. rewrite R4, Hc1. destruct (decide (y = c)) as [->|Hne].
      * rewrite lookup_delete_eq. rewrite (decide_True (P := c ∈ c :: closed)) by (by left). by case_decide.
      * rewrite lookup_delete_ne by done. destruct (decide (y ∈ closed)) as [Hy|Hy]; [rewrite decide_True by (by right); done|].
        rewrite decide_False; [done|]. by apply not_elem_of_cons.
    + intros ty' y Hne. rewrite R5 by done. rewrite elem_of_rm. split; [by intros []|]. intros Hin. split; [|done]. intros ->.
      destruct (to_conn _ _ _ Hok ty' c Hin) as (k' & Hk' & Ht'). congruence.
Qed.

Lemma list_fits now t xs ty : timers_ok now t xs -> (length (xs ty) < S (size (tconns t)))%nat.
Proof.
  intros Hok. apply Nat.lt_succ_r. rewrite <- (size_dom (D := gset nat)). rewrite <- (size_list_to_set (C := gset nat) (xs ty)).
  - apply subseteq_size. intros c Hc. apply elem_of_list_to_set in Hc. destruct (to_conn _ _ _ Hok ty c Hc) as (k & Hk & _). apply elem_of_dom. by exists k.
  - destruct (to_list _ _ _ Hok ty) as [Hnd _]. apply NoDup_cons in Hnd as [_ Hnd]. by apply NoDup_fmap_1 in Hnd.
Qed.

(** One loop after another. *)
Lemma reap_all_ok now tls t xs : timers_ok now t xs -> 0 <= tls < 2 ^ 31 -> now < 2 ^ 63 ->
  exists closed t', reap_all now tls t = Some (closed, t') /\
    (forall c k, tconns t !! c = Some k -> exempt k = false -> c ∈ closed <-> last_active_ms k + timeout_of tls (timer_type k) <= now) /\
    (forall c, tconns t' !! c = if decide (c ∈ closed) then None else tconns t !! c).
Proof.
  intros Hok Htls Hnow. unfold reap_all.
  destruct (reap_ok now (timeout_of tls IDLE) IDLE (S (size (tconns t))) t xs Hok (list_fits _ _ _ _ Hok)) as (c1 & t1 & xs1 & A1 & A2 & A3 & A4 & A5);
    [cbn; unfold k_idle_timeout_ms; lia|cbn; unfold k_idle_timeout_ms; lia|]. rewrite A1. cbn [mbind option_bind].
  destruct (reap_ok now (timeout_of tls IO) IO (S (size (tconns t1))) t1 xs1 A2 (list_fits _ _ _ _ A2)) as (c2 & t2 & xs2 & B1 & B2 & B3 & B4 & B5);
    [cbn; unfold k_io_timeout_ms; lia|cbn; unfold k_io_timeout_ms; lia|]. rewrite B1. cbn [mbind option_bind].
  destruct (reap_ok now (timeout_of tls HANDSHAKE) HANDSHAKE (S (size (tconns t2))) t2 xs2 B2 (list_fits _ _ _ _ B2)) as (c3 & t3 & xs3 & D1 & D2 & D3 & D4 & D5);
    [cbn; lia|cbn; lia|]. rewrite D1. cbn [mbind option_bind]. eexists _, t3. split; [done|].
  assert (Hmem : forall c k, tconns t !! c = Some k -> forall ty, c ∈ xs ty -> ty = timer_type k).
  { intros c k Hk ty Hin. destruct (to_conn _ _ _ Hok ty c Hin) as (k' & Hk' & Ht). congruence. }
  assert (N1 : forall c, c ∈ xs1 IO <-> c ∈ xs IO) by (intros; by apply A5).
  assert (N2 : forall c, c ∈ xs2 HANDSHAKE <-> c ∈ xs HANDSHAKE) by (intros; rewrite B5 by done; by apply A5).
  assert (L1 : forall c, c ∈ xs IO -> last_of t1 c = last_of t c).
  { intros c Hc. unfold last_of. rewrite A4. rewrite decide_False; [done|]. intros Hin. apply A3 in Hin as [Hin _].
    destruct (to_conn _ _ _ Hok _ _ Hc) as (k & Hk & _). pose proof (Hmem c k Hk _ Hin). pose proof (Hmem c k Hk _ Hc). congruence. }
  assert (L2 : forall c, c ∈ xs HANDSHAKE -> last_of t2 c = last_of t c).
  { intros c Hc. destruct (to_conn _ _ _ Hok _ _ Hc) as (k & Hk & _). pose proof (Hmem c k Hk _ Hc) as Hty. unfold last_of. rewrite B4.
    rewrite decide_False. 2: { intros Hin. apply B3 in Hin as [Hin _]. apply N1 in Hin. pose proof (Hmem c k Hk _ Hin). congruence. }
    rewrite A4, decide_False; [done|]. intros Hin. apply A3 in Hin as [Hin _]. pose proof (Hmem c k Hk _ Hin). congruence. }
  split.
  - intros c k Hk He. destruct (to_all _ _ _ Hok c k Hk) as [Hin|[He' _]]; [|congruence].
    assert (Hl : last_of t c = last_active_ms k) by (unfold last_of; by rewrite Hk). rewrite !elem_of_app, A3, B3, D3, N1, N2.
    pose proof (Hmem c k Hk) as Hm. destruct (timer_type k) eqn:Ety.
    + split; [|intros; left; split; [done|lia]]. intros [[_ H]|[[H _]|[H _]]]; [lia|by apply Hm in H|by apply Hm in H].
    + split; [|intros; right; left; split; [done|rewrite L1 by done; lia]]. intros [[H _]|[[Hi H]|[H _]]]; [by apply Hm in H|rewrite L1 in H by done; lia|by apply Hm in H].
    + split; [|intros; right; right; split; [done|rewrite L2 by done; lia]]. intros [[H _]|[[H _]|[Hi H]]]; [by apply Hm in H|by apply Hm in H|rewrite L2 in H by done; lia].
  - intros c. rewrite D4, B4, A4. repeat case_decide; try done; set_solver.
Qed.

(** ** How long to sleep *)

(** What [next_timer_ms] looks at. *)
Record Sleep := mkSleep {
  g_evict_pending : bool; z_now : Z;
  z_conns : TimerState; tls_handshake_timeout_ms : Z;
  heap_top : option Z;                                     (* heap[0].val *)
  writes_since_save : Z; z_saves : list (Z * Z); last_save_ms : Z;   (* save_conditions: seconds, changes *)
  child_running : bool;
  z_replica_mode : bool; z_master_link : bool; repl_retry_at_ms : Z; master_last_io_ms : Z; repl_timeout_ms : Z;
  z_streaming : bool; repl_ack_at_ms : Z;
  replica_acks : list Z; repl_ping_period_ms : Z; repl_ping_at_ms : Z;
  failover_running : bool; z_failover_deadline_ms : Z;
  wait_deadlines : list Z;
}.

Definition front_deadline (t : TimerState) (ty : ConnTimer) (timeout : Z) : list Z :=
  match dlist_empty (anchor ty) (dh t), next (dh t) !! anchor ty with
  | Some false, Some n => match tconns t !! (n - 3)%nat with Some k => [u64 (last_active_ms k + timeout)] | None => [] end
  | _, _ => []
  end.

Definition save_deadlines (z : Sleep) : list Z :=
  if 0 <? writes_since_save z
  then (fun sc => u64 (last_save_ms z + u64 (sc.1 * 1000))) <$> filter (fun sc => sc.2 <= writes_since_save z) (z_saves z) else [].

Definition link_deadlines (z : Sleep) : list Z :=
  if z_replica_mode z then
    if negb (z_master_link z) then [repl_retry_at_ms z]
    else (if 0 <? repl_timeout_ms z then [u64 (master_last_io_ms z + repl_timeout_ms z)] else []) ++
         (if z_streaming z then [repl_ack_at_ms z] else [])
  else [].

Definition replica_deadlines (z : Sleep) : list Z :=
  (if negb (length (replica_acks z) =? 0)%nat && (0 <? repl_ping_period_ms z) then [repl_ping_at_ms z] else []) ++
  (if 0 <? repl_timeout_ms z then (fun a => u64 (a + repl_timeout_ms z)) <$> filter (fun a => a <> 0) (replica_acks z) else []).

Definition candidates (z : Sleep) : list Z :=
  front_deadline (z_conns z) IDLE k_idle_timeout_ms ++ front_deadline (z_conns z) IO k_io_timeout_ms ++
  front_deadline (z_conns z) HANDSHAKE (tls_handshake_timeout_ms z) ++
  (match heap_top z with Some v => [v] | None => [] end) ++ save_deadlines z ++
  (if child_running z then [u64 (z_now z + 100)] else []) ++ link_deadlines z ++ replica_deadlines z ++
  (if failover_running z && negb (z_failover_deadline_ms z =? 0) then [z_failover_deadline_ms z] else []) ++
  filter (fun d => d <> 0) (wait_deadlines z).

Definition INT32_MAX : Z := 2 ^ 31 - 1.

(** The code keeps the minimum in [next_ms] as it goes. *)
Definition next_timer_ms (z : Sleep) : Z :=
  if g_evict_pending z then 0
  else
    let next_ms := foldl Z.min UINT64_MAX (candidates z) in
    if next_ms =? UINT64_MAX then -1
    else if next_ms <=? z_now z then 0
    else
      let wait := next_ms - z_now z in
      if INT32_MAX <? wait then INT32_MAX else wait.

(** ** The periodic jobs of [process_timers] *)

(** The save that is due: the first condition met, as long as no child runs. *)
Definition save_due (rdb_child : bool) (now writes last_save : Z) (saves : list (Z * Z)) : bool :=
  negb rdb_child && (0 <? writes) &&
  existsb (fun sc => (sc.2 <=? writes) && (u64 (sc.1 * 1000) <=? u64 (now - last_save))) saves.

(** appendfsync everysec: whether a job is queued, and [g_aof_last_fsync_ms],
    [g_aof_fsync_pending] afterwards. *)
Definition fsync_tick (everysec : bool) (now last_fsync : Z) (pending : bool) : bool * Z * bool :=
  if everysec && (1000 <=? u64 (now - last_fsync)) then (negb pending, now, true) else (false, last_fsync, pending).

(** The automatic rewrite; [growth] is a [long long]. *)
Definition rewrite_due (enable child : bool) (now check_ms cur base min_size perc : Z) : bool :=
  enable && negb child && (1000 <=? u64 (now - check_ms)) && (min_size <=? cur) &&
  (perc <=? (if base =? 0 then 100 else i64 (u64 (u64 (cur - base) * 100) / base))).

(** ** What becomes ready while the loop sleeps *)

(** What [process_timers] reads beside [Sleep]: the log's clocks and whether
    each child runs. *)
Record LogTimers := mkLogTimers {
  z_aof_enable : bool; z_everysec : bool; g_aof_last_fsync_ms : Z; g_aof_check_ms : Z; z_rdb_child : bool; z_aof_child : bool }.

(** The jobs of [process_timers], and the look at a finished child that the
    loop takes at every turn. *)
Inductive Job :=
  | JClose (c : nat) | JExpire | JSave | JPoll | JWait (d : Z) | JPing | JDropReplica (ack : Z) | JDropLink | JAck | JRetry | JFailover
  | JFsync | JRewriteCheck.

(** The job is done when [process_timers] runs at time [T] and nothing else
    happened since; the differences are the code's [uint64_t] ones. *)
Definition ready (z : Sleep) (a : LogTimers) (T : Z) (j : Job) : bool :=
  match j with
  | JClose c =>
      match tconns (z_conns z) !! c with
      | Some k => negb (exempt k) && (u64 (last_active_ms k + timeout_of (tls_handshake_timeout_ms z) (timer_type k)) <=? T)
      | None => false
      end
  | JExpire => match heap_top z with Some v => v <=? T | None => false end
  | JSave => save_due (z_rdb_child a) T (writes_since_save z) (last_save_ms z) (z_saves z)
  | JPoll => child_running z && (u64 (z_now z + 100) <=? T)
  | JWait d => bool_decide (d ∈ wait_deadlines z) && negb (d =? 0) && (d <=? T)
  | JPing => negb (length (replica_acks z) =? 0)%nat && (0 <? repl_ping_period_ms z) && (repl_ping_at_ms z <=? T)
  | JDropReplica ack =>
      bool_decide (ack ∈ replica_acks z) && (0 <? repl_timeout_ms z) && negb (ack =? 0) && (repl_timeout_ms z <? u64 (T - ack))
  | JDropLink => z_replica_mode z && z_master_link z && (0 <? repl_timeout_ms z) && (repl_timeout_ms z <? u64 (T - master_last_io_ms z))
  | JAck => z_replica_mode z && z_master_link z && z_streaming z && (repl_ack_at_ms z <=? T)
  | JRetry => z_replica_mode z && negb (z_master_link z) && (repl_retry_at_ms z <=? T)
  | JFailover => failover_running z && negb (z_failover_deadline_ms z =? 0) && (z_failover_deadline_ms z <=? T)
  | JFsync => z_aof_enable a && (fsync_tick (z_everysec a) T (g_aof_last_fsync_ms a) false).1.1
  | JRewriteCheck => z_aof_enable a && negb (z_aof_child a) && negb (z_rdb_child a) && (1000 <=? u64 (T - g_aof_check_ms a))
  end.

(** The two jobs of the log, which [next_timer_ms] does not look at. *)
Definition of_log (j : Job) : bool := match j with JFsync | JRewriteCheck => true | _ => false end.

(** Times that were read from the clock are past, and settings are in range. *)
Record past (z : Sleep) : Prop := {
  pa_save : 0 <= last_save_ms z <= z_now z;
  pa_saves : Forall (fun sc => 0 <= sc.1 * 1000 < 2 ^ 64) (z_saves z);
  pa_acks : Forall (fun a => 0 <= a <= z_now z) (replica_acks z);
  pa_io : 0 <= master_last_io_ms z <= z_now z;
  pa_timeout : repl_timeout_ms z < 2 ^ 31;
}.

(** ** Claims *)

(** The deadlines the sleep has to meet: those of every connection in a list,
    not only of the front ones. *)
Definition due (z : Sleep) : list Z :=
  ((fun p : nat * TimedConn => u64 (last_active_ms p.2 + timeout_of (tls_handshake_timeout_ms z) (timer_type p.2))) <$>
     filter (fun p : nat * TimedConn => exempt p.2 = false) (map_to_list (tconns (z_conns z)))) ++
  (match heap_top z with Some v => [v] | None => [] end) ++ save_deadlines z ++ (if child_running z then [u64 (z_now z + 100)] else []) ++
  link_deadlines z ++ replica_deadlines z ++
  (if failover_running z && negb (z_failover_deadline_ms z =? 0) then [z_failover_deadline_ms z] else []) ++
  filter (fun d => d <> 0) (wait_deadlines z).

Lemma foldl_min l : forall a, foldl Z.min a l <= a /\ (forall d, d ∈ l -> foldl Z.min a l <= d) /\ (foldl Z.min a l = a \/ foldl Z.min a l ∈ l).
Proof.
  induction l as [|x l IH]; intros a; cbn [foldl]; [split; [lia|split; [set_solver|by left]]|].
  destruct (IH (Z.min a x)) as (H1 & H2 & H3). split; [lia|]. split.
  - intros d Hd. apply elem_of_cons in Hd as [->|Hd]; [lia|by apply H2].
  - destruct H3 as [H3|H3]; [|right; by right]. rewrite H3. destruct (Z.min_spec a x) as [[_ ->]|[_ ->]]; [by left|right; by left].
Qed.

(** The front of a list has the earliest deadline of the list. *)
Lemma front_first now t xs ty timeout c k :
  timers_ok now t xs -> tconns t !! c = Some k -> exempt k = false -> timer_type k = ty -> 0 <= timeout -> now + timeout < 2 ^ 64 ->
  exists d, d ∈ front_deadline t ty timeout /\ d <= u64 (last_active_ms k + timeout).
Proof.
  intros Hok Hk He Hty Ht Hw. destruct (to_all _ _ _ Hok c k Hk) as [Hin|[He' _]]; [|congruence]. rewrite Hty in Hin. unfold front_deadline.
  pose proof (to_list _ _ _ Hok ty) as Hd. rewrite (empty_spec _ _ _ Hd). destruct (xs ty) as [|x l] eqn:Hx; [by apply not_elem_of_nil in Hin|].
  cbn [fmap list_fmap] in Hd |- *. rewrite bool_decide_eq_false_2 by done. rewrite (front_spec _ _ _ _ Hd). replace (node x - 3)%nat with x by (unfold node; lia).
  destruct (to_conn _ _ _ Hok ty x) as (k' & Hk' & _); [rewrite Hx; by left|]. rewrite Hk'. eexists. split; [by left|].
  pose proof (to_past _ _ _ Hok x k' Hk'). pose proof (to_past _ _ _ Hok c k Hk). rewrite !u64_small by lia.
  pose proof (to_sorted _ _ _ Hok ty) as Hs. rewrite Hx in Hs. apply StronglySorted_inv in Hs as [_ Hall]. apply elem_of_cons in Hin as [->|Hin].
  - assert (k' = k) as -> by congruence. lia.
  - rewrite Forall_forall in Hall. specialize (Hall c Hin). unfold last_of in Hall. rewrite Hk, Hk' in Hall. cbn in Hall. lia.
Qed.

Lemma due_covered z xs d : timers_ok (z_now z) (z_conns z) xs -> 0 <= tls_handshake_timeout_ms z < 2 ^ 31 -> 0 <= z_now z < 2 ^ 63 -> d ∈ due z ->
  exists d', d' ∈ candidates z /\ d' <= d.
Proof.
  intros Hok Htls Hnow Hd. unfold due in Hd. apply elem_of_app in Hd as [Hd|Hd].
  - apply list_elem_of_fmap in Hd as ([c k] & -> & Hin). apply list_elem_of_filter in Hin as [He Hin]. apply elem_of_map_to_list in Hin. cbn [snd] in *.
    destruct (front_first (z_now z) (z_conns z) xs (timer_type k) (timeout_of (tls_handshake_timeout_ms z) (timer_type k)) c k) as (d' & Hd' & Hle);
      [done..|destruct (timer_type k); cbn; unfold k_idle_timeout_ms, k_io_timeout_ms; lia|destruct (timer_type k); cbn; unfold k_idle_timeout_ms, k_io_timeout_ms; lia|].
    exists d'. split; [|done]. unfold candidates. rewrite !elem_of_app. destruct (timer_type k); [by left|right; by left|right; right; by left].
  - exists d. split; [|lia]. unfold candidates. rewrite !elem_of_app in *. tauto.
Qed.

(** Timers close exactly the connections that have expired.  After any
    accepts, wake-ups, changes of list, hand-overs to replication and closes,
    at times that do not go back, the pointer lists are never broken, and the
    sweep at a later time closes exactly the client connections whose last
    activity lies their list's timeout or more in the past, and leaves every
    other one alone. *)
Theorem timers_close_expired (evs : list (Z * TEvent)) (now tls : Z)
    (Hevs : forward 0 evs) (Hnow : end_time 0 evs <= now < 2 ^ 63) (Htls : 0 <= tls < 2 ^ 31) :
  exists t closed t', t_run evs ts0 = Some t /\ reap_all now tls t = Some (closed, t') /\
    (forall c k, tconns t !! c = Some k -> exempt k = false -> c ∈ closed <-> last_active_ms k + timeout_of tls (timer_type k) <= now) /\
    (forall c, tconns t' !! c = if decide (c ∈ closed) then None else tconns t !! c).
Proof.
  destruct (run_ok evs 0 ts0 (fun _ => [])) as (t & xs & Hrun & Hok & Hge); [lia|apply ts0_ok|done|].
  apply (timers_later _ now) in Hok; [|lia]. destruct (reap_all_ok now tls t xs Hok Htls) as (closed & t' & H1 & H2 & H3); [lia|].
  by exists t, closed, t'.
Qed.

Definition demo_timers : list (Z * TEvent) :=
  [(1000, TAccept 1 false); (2000, TAccept 2 true); (3000, TAccept 3 false); (9000, TActive 1); (9500, TSet 2 IO); (9600, TExempt 3); (9700, TActive 3)].

Lemma timers_close_expired_witness :
  (exists t closed t', t_run demo_timers ts0 = Some t /\ reap_all 39200 10000 t = Some (closed, t') /\
    (forall c k, tconns t !! c = Some k -> exempt k = false -> c ∈ closed <-> last_active_ms k + timeout_of 10000 (timer_type k) <= 39200) /\
    (forall c, tconns t' !! c = if decide (c ∈ closed) then None else tconns t !! c)) /\
  (t ← t_run demo_timers ts0; '(closed, _) ← reap_all 39200 10000 t; Some closed) = Some [1%nat].
Proof.
  split; [|vm_compute; reflexivity]. apply (timers_close_expired demo_timers 39200 10000).
  - vm_compute. intuition discriminate.
  - vm_compute. split; [discriminate|reflexivity].
  - lia.
Defined.

Lemma sleep_meets_due (z : Sleep) (xs : ConnTimer -> list nat) :
  timers_ok (z_now z) (z_conns z) xs -> 0 <= tls_handshake_timeout_ms z < 2 ^ 31 -> 0 <= z_now z < 2 ^ 63 ->
  let r := next_timer_ms z in
  -1 <= r <= INT32_MAX /\
  (r = -1 -> forall d, d ∈ due z -> UINT64_MAX <= d) /\
  (0 <= r -> forall d, d ∈ due z -> z_now z + r <= Z.max (z_now z) d) /\
  (0 < r < INT32_MAX -> (z_now z + r) ∈ candidates z).
Proof.
  intros Hok Htls Hnow. cbn zeta. unfold next_timer_ms. destruct (g_evict_pending z); [unfold INT32_MAX; split_and!; try lia; intros; lia|].
  destruct (foldl_min (candidates z) UINT64_MAX) as (M1 & M2 & M3). set (m := foldl Z.min UINT64_MAX (candidates z)) in *.
  assert (Hmin : forall d, d ∈ due z -> m <= d).
  { intros d Hd. destruct (due_covered z xs d Hok Htls Hnow Hd) as (d' & Hd' & Hle). specialize (M2 d' Hd'). lia. }
  destruct (m =? UINT64_MAX) eqn:E1; [apply Z.eqb_eq in E1; unfold INT32_MAX; split_and!; try lia; intros Hr d Hd; specialize (Hmin d Hd); lia|].
  apply Z.eqb_neq in E1. destruct (m <=? z_now z) eqn:E2; [unfold INT32_MAX; split_and!; try lia; intros; lia|]. apply Z.leb_gt in E2.
  destruct (INT32_MAX <? m - z_now z) eqn:E3.
  - apply Z.ltb_lt in E3. unfold INT32_MAX in *. split_and!; try lia. intros _ d Hd. specialize (Hmin d Hd). lia.
  - apply Z.ltb_ge in E3. unfold INT32_MAX in *. split_and!; try lia; [intros _ d Hd; specialize (Hmin d Hd); lia|].
    intros _. replace (z_now z + (m - z_now z)) with m by lia. by destruct M3.
Qed.

(** A job that becomes ready had its time among the deadlines. *)
Lemma ready_due z a T j :
  past z -> z_now z <= T < 2 ^ 63 -> of_log j = false -> ready z a T j = true -> exists d, d ∈ due z /\ d <= T.
Proof.
  intros [P1 P2 P3 P4 P5] HT Hj H. unfold due. destruct j as [c| | | |d| |ack| | | | | |]; cbn [ready] in H; try done.
  - destruct (tconns (z_conns z) !! c) as [k|] eqn:Ek; [|done]. apply andb_true_iff in H as [He Hle]. apply negb_true_iff in He. apply Z.leb_le in Hle.
    eexists. split; [|exact Hle]. rewrite !elem_of_app. left. apply list_elem_of_fmap. exists (c, k). split; [done|].
    apply list_elem_of_filter. split; [done|]. by apply elem_of_map_to_list.
  - destruct (heap_top z) as [v|]; [|done]. apply Z.leb_le in H. exists v. split; [|done]. rewrite !elem_of_app. right. left. by left.
  - unfold save_due in H. apply andb_true_iff in H as [[_ Hw]%andb_true_iff H]. apply existsb_exists in H as (sc & Hin & Hc).
    apply list_elem_of_In in Hin. apply andb_true_iff in Hc as [Hc1 Hc2]. apply Z.leb_le in Hc1, Hc2.
    rewrite Forall_forall in P2. specialize (P2 sc Hin). rewrite (u64_small (sc.1 * 1000)), (u64_small (T - _)) in Hc2 by lia.
    exists (u64 (last_save_ms z + u64 (sc.1 * 1000))). split; [|rewrite (u64_small (sc.1 * 1000)), u64_small by lia; lia].
    rewrite !elem_of_app. do 2 right. left. unfold save_deadlines. rewrite Hw. apply list_elem_of_fmap. exists sc. split; [done|].
    by apply list_elem_of_filter.
  - apply andb_true_iff in H as [Hc H]. apply Z.leb_le in H. eexists. split; [|exact H]. rewrite !elem_of_app, Hc. do 3 right. left. by left.
  - apply andb_true_iff in H as [[Hin Hz]%andb_true_iff H]. apply bool_decide_eq_true in Hin. apply negb_true_iff, Z.eqb_neq in Hz. apply Z.leb_le in H.
    exists d. split; [|done]. rewrite !elem_of_app. do 7 right. by apply list_elem_of_filter.
  - apply andb_true_iff in H as [Hc H]. apply Z.leb_le in H. eexists. split; [|exact H]. rewrite !elem_of_app. do 5 right. left.
    unfold replica_deadlines. rewrite Hc. apply elem_of_app. left. by left.
  - apply andb_true_iff in H as [[[Hin Ht]%andb_true_iff Hz]%andb_true_iff H]. apply bool_decide_eq_true in Hin. apply negb_true_iff, Z.eqb_neq in Hz.
    apply Z.ltb_lt in H. rewrite Forall_forall in P3. specialize (P3 ack Hin). rewrite u64_small in H by lia. pose proof (proj1 (Z.ltb_lt _ _) Ht).
    exists (u64 (ack + repl_timeout_ms z)). split; [|rewrite u64_small by lia; lia]. rewrite !elem_of_app. do 5 right. left.
    unfold replica_deadlines. rewrite Ht. apply elem_of_app. right. apply list_elem_of_fmap. exists ack. split; [done|]. by apply list_elem_of_filter.
  - apply andb_true_iff in H as [[[Hr Hl]%andb_true_iff Ht]%andb_true_iff H]. apply Z.ltb_lt in H. rewrite u64_small in H by lia.
    pose proof (proj1 (Z.ltb_lt _ _) Ht). exists (u64 (master_last_io_ms z + repl_timeout_ms z)). split; [|rewrite u64_small by lia; lia].
    rewrite !elem_of_app. do 4 right. left. unfold link_deadlines. rewrite Hr, Hl, Ht. apply elem_of_app. left. by left.
  - apply andb_true_iff in H as [[[Hr Hl]%andb_true_iff Hs]%andb_true_iff H]. apply Z.leb_le in H. exists (repl_ack_at_ms z). split; [|done].
    rewrite !elem_of_app. do 4 right. left. unfold link_deadlines. rewrite Hr, Hl, Hs. apply elem_of_app. right. by left.
  - apply andb_true_iff in H as [[Hr Hl]%andb_true_iff H]. apply Z.leb_le in H. exists (repl_retry_at_ms z). split; [|done].
    rewrite !elem_of_app. do 4 right. left. unfold link_deadlines. rewrite Hr, Hl. by left.
  - apply andb_true_iff in H as [Hc H]. apply Z.leb_le in H. exists (z_failover_deadline_ms z). split; [|done].
    rewrite !elem_of_app. do 6 right. left. rewrite Hc. by left.
Qed.

(** C19: The loop does not oversleep, the log's jobs apart.  With the lists as
    the timers leave them, take the sleep computed from the fronts alone.  Any
    job of [process_timers] that becomes ready at a time [T] while nothing
    else happens (closing a connection, expiring a key, saving, polling a
    child, answering a WAIT, pinging or dropping a replica, the link to the
    master, a failover) is not slept through: the sleep is limited and ends at
    [T] or before.  The everysec fsync and the check for a rewrite of the log
    are excepted: the sleep does not depend on them, and
    [everysec_fsync_unscheduled] shows the fsync put off without limit.  When
    the sleep is not cut off at the largest [int] it ends at a deadline. *)
Theorem sleep_never_late (z : Sleep) (xs : ConnTimer -> list nat)
    (Hok : timers_ok (z_now z) (z_conns z) xs) (Htls : 0 <= tls_handshake_timeout_ms z < 2 ^ 31) (Hnow : 0 <= z_now z < 2 ^ 63) (Hpast : past z) :
  let r := next_timer_ms z in
  -1 <= r <= INT32_MAX /\
  (forall a T j, z_now z <= T < 2 ^ 63 -> of_log j = false -> ready z a T j = true -> 0 <= r /\ z_now z + r <= T) /\
  (0 < r < INT32_MAX -> (z_now z + r) ∈ candidates z).
Proof.
  destruct (sleep_meets_due z xs Hok Htls Hnow) as (H1 & H2 & H3 & H4). cbn zeta in *. split; [done|]. split; [|done].
  intros a T j HT Hj Hr. destruct (ready_due z a T j Hpast HT Hj Hr) as (d & Hd & Hle).
  destruct (decide (next_timer_ms z = -1)) as [E|E]; [specialize (H2 E d Hd); unfold UINT64_MAX in H2; lia|].
  assert (Hr0 : 0 <= next_timer_ms z) by lia. specialize (H3 Hr0 d Hd). lia.
Qed.

(** Two idle clients, a key that expires, a client held by WAIT. *)
Definition demo_sleep : Sleep :=
  mkSleep false 9700 (default ts0 (t_run demo_timers ts0)) 10000 (Some 20000) 1 [(60, 10); (10, 1)] 4000 false false false 0 0 60000 false 0
    [] 10000 0 false 0 [0; 15000].

Lemma sleep_never_late_witness :
  next_timer_ms demo_sleep = 4300 /\
  ready demo_sleep (mkLogTimers true true 9000 9000 false false) 14000 JSave = true /\
  (forall a T j, z_now demo_sleep <= T < 2 ^ 63 -> of_log j = false -> ready demo_sleep a T j = true ->
     0 <= next_timer_ms demo_sleep /\ z_now demo_sleep + next_timer_ms demo_sleep <= T).
Proof.
  split; [vm_compute; reflexivity|]. split; [vm_compute; reflexivity|].
  destruct (run_ok demo_timers 0 ts0 (fun _ => [])) as (t & xs & Hrun & Hok & _); [lia|apply ts0_ok|vm_compute; intuition discriminate|].
  apply (sleep_never_late demo_sleep xs).
  - unfold demo_sleep. cbn [z_conns z_now]. rewrite Hrun. exact Hok.
  - vm_compute. split; [discriminate|reflexivity].
  - vm_compute. split; [discriminate|reflexivity].
  - split; cbn; try lia; [repeat constructor; cbn; lia|constructor].
Defined.

(** A second's fsync can wait for ever.  After a write less than a second
    behind the last fsync the everysec job is not queued and nothing reminds
    the loop of it: with no save points and no client left the loop sleeps
    without a limit, so the log's bytes stay unsynced until something else
    happens. *)
Theorem everysec_fsync_unscheduled (now last : Z) (pending : bool) (Hnow : 0 <= now < 2 ^ 63) (Hlast : now - 1000 < last <= now) :
  fsync_tick true now last pending = (false, last, pending) /\
  next_timer_ms (mkSleep false now ts0 10000 None 1 [] 0 false false false 0 0 60000 false 0 [] 10000 0 false 0 []) = -1.
Proof.
  split; [|vm_compute; reflexivity]. unfold fsync_tick. rewrite u64_small by lia. by rewrite (proj2 (Z.leb_gt _ _)) by lia.
Qed.

Lemma everysec_fsync_unscheduled_witness :
  fsync_tick true 5000 4600 false = (false, 4600, false) /\
  next_timer_ms (mkSleep false 5000 ts0 10000 None 1 [] 0 false false false 0 0 60000 false 0 [] 10000 0 false 0 []) = -1.
Proof. apply (everysec_fsync_unscheduled 5000 4600 false); lia. Defined.
