(* ===== verification/PubSub.v ===== *)
(** * Publish and subscribe (src/src/commands/commands.cpp 5237-5482)

    Channel and pattern subscriptions: the registry from names to connections,
    the set each connection holds of its own, and PUBLISH, which writes into
    the subscribers' output buffers.  The order in which the hash sets and
    maps of the C++ library are walked is not specified: it is an argument,
    known only to be a permutation. *)
From S2P Require Import Prelude Buffer Resp Args Glob StdString Deque Hashtable HashMap Heap Score ZSet HashSet State World Strings Lists Keys CText CmdTable Acl.

(** One family of subscriptions: [buckets] is [g_data.channels] (or
    [patterns]), [mine] the [sub_channels] (or [sub_patterns]) of every
    connection. *)
Record Reg := mkReg { buckets : gmap bytes (gset nat); mine : gmap nat (gset bytes) }.

Inductive Kind := Channels | Patterns.

(** What publishing needs of a [Conn]. *)
Record PConn := mkPConn { p_out : Buffer; p_write : bool; p_proto : Z; p_user : option User }.

Record PS := mkPS { pconns : gmap nat PConn; chans : Reg; pats : Reg }.

Definition reg_of (k : Kind) (s : PS) : Reg := match k with Channels => chans s | Patterns => pats s end.
Definition set_reg (k : Kind) (r : Reg) (s : PS) : PS :=
  match k with Channels => mkPS (pconns s) r (pats s) | Patterns => mkPS (pconns s) (chans s) r end.
Definition on_pconn (c : nat) (f : PConn -> PConn) (s : PS) : PS := mkPS (alter f c (pconns s)) (chans s) (pats s).
Definition subs (r : Reg) (c : nat) : gset bytes := default ∅ (mine r !! c).

(** ** The registry *)

(** [if (set.insert(x).second) registry\[x\].insert(conn);] *)
Definition reg_join (c : nat) (x : bytes) (r : Reg) : Reg :=
  if bool_decide (x ∈ subs r c) then r
  else mkReg (<[x := {[c]} ∪ default ∅ (buckets r !! x)]> (buckets r)) (<[c := {[x]} ∪ subs r c]> (mine r)).

(** [pubsub_unlink] and [pubsub_punlink] *)
Definition pubsub_unlink (x : bytes) (c : nat) (r : Reg) : Reg :=
  match buckets r !! x with
  | None => r
  | Some b => let b' := b ∖ {[c]} in mkReg (if bool_decide (b' = ∅) then delete x (buckets r) else <[x := b']> (buckets r)) (mine r)
  end.

Definition reg_erase (c : nat) (x : bytes) (r : Reg) : Reg := mkReg (buckets r) (<[c := subs r c ∖ {[x]}]> (mine r)).

(** [if (set.erase(x)) unlink(x, conn);] *)
Definition reg_leave (c : nat) (x : bytes) (r : Reg) : Reg :=
  if bool_decide (x ∈ subs r c) then pubsub_unlink x c (reg_erase c x r) else r.

Definition pubsub_count (c : nat) (s : PS) : nat := base.size (subs (chans s) c) + base.size (subs (pats s) c).

(** ** Replies *)

Definition say (c : nat) (f : Z -> Buffer -> Buffer) (s : PS) : PS :=
  on_pconn c (fun k => mkPConn (f (p_proto k) (p_out k)) (p_write k) (p_proto k) (p_user k)) s.

Definition pubsub_confirm (kind : bytes) (chan : option bytes) (count : nat) (proto : Z) (out : Buffer) : Buffer :=
  let out := resp_str (resp_push_n out 3 proto) kind in
  let out := match chan with Some ch => resp_str out ch | None => resp_nil proto out end in
  resp_int out (Z.of_nat count).

Definition kind_word (k : Kind) (un : bool) : bytes :=
  match k, un with
  | Channels, false => bs "subscribe" | Channels, true => bs "unsubscribe"
  | Patterns, false => bs "psubscribe" | Patterns, true => bs "punsubscribe"
  end.

Definition confirm (k : Kind) (un : bool) (chan : option bytes) (c : nat) (s : PS) : PS :=
  say c (pubsub_confirm (kind_word k un) chan (pubsub_count c s)) s.

(** ** The commands *)

Section Commands.
Context (str_order : gset bytes -> list bytes) (conn_order : gset nat -> list nat) (map_order : gmap bytes (gset nat) -> list (bytes * gset nat)).

Definition user_of (c : nat) (s : PS) : option User := pconns s !! c ≫= p_user.

(** The verdict on the arguments, in order: the first that is not allowed. *)
Fixpoint scan_args (u : option User) (args : list bytes) (literal : bool) : Verdict :=
  match args with
  | [] => Allowed
  | a :: args' => match acl_channel_check u a literal with Allowed => scan_args u args' literal | v => v end
  end.

(** [do_subscribe] and [do_psubscribe]; [None] where a pattern match left its
    subject. *)
Definition do_subscribe (k : Kind) (args : list bytes) (c : nat) (s : PS) : option PS :=
  match scan_args (user_of c s) args (match k with Channels => false | Patterns => true end) with
  | Undefined => None
  | Denied msg => Some (say c (fun _ out => resp_err out msg) s)
  | Allowed => Some (foldl (fun s x => confirm k false (Some x) c (set_reg k (reg_join c x (reg_of k s)) s)) s args)
  end.

(** [do_unsubscribe] and [do_punsubscribe] *)
Definition do_unsubscribe (k : Kind) (args : list bytes) (c : nat) (s : PS) : PS :=
  match args with
  | [] =>
      if bool_decide (subs (reg_of k s) c = ∅) then confirm k true None c s
      else foldl (fun s x => confirm k true (Some x) c (set_reg k (reg_erase c x (pubsub_unlink x c (reg_of k s))) s)) s
             (str_order (subs (reg_of k s) c))
  | _ => foldl (fun s x => confirm k true (Some x) c (set_reg k (reg_leave c x (reg_of k s)) s)) s args
  end.

Definition do_psubscribe : list bytes -> nat -> PS -> option PS := do_subscribe Patterns.
Definition do_punsubscribe : list bytes -> nat -> PS -> PS := do_unsubscribe Patterns.

(** A message into one subscriber's output. *)
Definition deliver (f : Z -> Buffer -> Buffer) (c : nat) (s : PS) : PS :=
  on_pconn c (fun k => mkPConn (f (p_proto k) (p_out k)) true (p_proto k) (p_user k)) s.

Definition message (chan msg : bytes) (proto : Z) (out : Buffer) : Buffer :=
  resp_str (resp_str (resp_str (resp_push_n out 3 proto) (bs "message")) chan) msg.

Definition pmessage (pat chan msg : bytes) (proto : Z) (out : Buffer) : Buffer :=
  resp_str (resp_str (resp_str (resp_str (resp_push_n out 4 proto) (bs "pmessage")) pat) chan) msg.

Definition deliver_all (f : Z -> Buffer -> Buffer) (l : list nat) (n : nat) (s : PS) : nat * PS :=
  (n + length l, foldl (fun s c => deliver f c s) s l)%nat.

Fixpoint publish_patterns (chan msg : bytes) (l : list (bytes * gset nat)) (n : nat) (s : PS) : option (nat * PS) :=
  match l with
  | [] => Some (n, s)
  | (pat, cs) :: l' =>
      match glob pat chan with
      | GDone true => let '(n, s) := deliver_all (pmessage pat chan msg) (conn_order cs) n s in publish_patterns chan msg l' n s
      | GDone false => publish_patterns chan msg l' n s
      | _ => None
      end
  end.

Definition pubsub_publish (chan msg : bytes) (s : PS) : option (nat * PS) :=
  let '(n, s1) := match buckets (chans s) !! chan with
                  | Some cs => deliver_all (message chan msg) (conn_order cs) 0 s
                  | None => (0%nat, s)
                  end in
  publish_patterns chan msg (map_order (buckets (pats s1))) n s1.

Definition do_publish (chan msg : bytes) (c : nat) (s : PS) : option PS :=
  match acl_channel_check (user_of c s) chan false with
  | Undefined => None
  | Denied m => Some (say c (fun _ out => resp_err out m) s)
  | Allowed => '(n, s) ← pubsub_publish chan msg s; Some (say c (fun _ out => resp_int out (Z.of_nat n)) s)
  end.

(** ** Key-space notifications *)

Definition notify_keyspace_event (flags type : Z) (event key : bytes) (s : PS) : option PS :=
  if Z.land flags type =? 0 then Some s
  else
    s ← (if Z.land flags NOTIFY_KEYSPACE =? 0 then Some s
         else '(_, s) ← pubsub_publish (bs "__keyspace@0__:" ++ key) event s; Some s);
    if Z.land flags NOTIFY_KEYEVENT =? 0 then Some s
    else '(_, s) ← pubsub_publish (bs "__keyevent@0__:" ++ event) key s; Some s.

(** ** Teardown *)

Definition reg_drop (c : nat) (r : Reg) : Reg :=
  let r := foldl (fun r x => pubsub_unlink x c r) r (str_order (subs r c)) in mkReg (buckets r) (<[c := ∅]> (mine r)).

Definition pubsub_remove_conn (c : nat) (s : PS) : PS := mkPS (pconns s) (reg_drop c (chans s)) (reg_drop c (pats s)).

(** [conn_destroy], as far as it matters here. *)
Definition pubsub_destroy (c : nat) (s : PS) : PS :=
  let s := pubsub_remove_conn c s in
  mkPS (delete c (pconns s)) (mkReg (buckets (chans s)) (delete c (mine (chans s)))) (mkReg (buckets (pats s)) (delete c (mine (pats s)))).

Definition pubsub_accept (c : nat) (u : option User) (s : PS) : PS :=
  mkPS (<[c := mkPConn (buf_create 65536) false 2 u]> (pconns s)) (mkReg (buckets (chans s)) (<[c := ∅]> (mine (chans s))))
    (mkReg (buckets (pats s)) (<[c := ∅]> (mine (pats s)))).
End Commands.

(** ** The registry mirrors the connections' own sets *)

Definition bucket (r : Reg) (x : bytes) : gset nat := default ∅ (buckets r !! x).

Record reg_ok (r : Reg) : Prop := {
  ro_full : forall x, buckets r !! x <> Some ∅;
  ro_mirror : forall x c, c ∈ bucket r x <-> x ∈ subs r c;
}.

Lemma unlink_bucket x c r y : bucket (pubsub_unlink x c r) y = if decide (y = x) then bucket r x ∖ {[c]} else bucket r y.
Proof.
  unfold pubsub_unlink, bucket. destruct (buckets r !! x) as [b|] eqn:E.
  - cbn [buckets default]. case_bool_decide as He; destruct (decide (y = x)) as [->|Hne].
    + rewrite lookup_delete_eq. cbn. by rewrite He.
    + by rewrite lookup_delete_ne.
    + by rewrite lookup_insert_eq.
    + by rewrite lookup_insert_ne.
  - destruct (decide (y = x)) as [->|Hne]; [|done]. rewrite E. cbn. set_solver.
Qed.

Lemma unlink_full x c r : (forall y, buckets r !! y <> Some ∅) -> forall y, buckets (pubsub_unlink x c r) !! y <> Some ∅.
Proof.
  intros Hf y. unfold pubsub_unlink. destruct (buckets r !! x) as [b|] eqn:E; [|done]. cbn [buckets]. case_bool_decide as He.
  - destruct (decide (y = x)) as [->|Hne]; [by rewrite lookup_delete_eq|by rewrite lookup_delete_ne].
  - destruct (decide (y = x)) as [->|Hne]; [rewrite lookup_insert_eq; congruence|by rewrite lookup_insert_ne].
Qed.

Lemma unlink_mine x c r : mine (pubsub_unlink x c r) = mine r.
Proof. unfold pubsub_unlink. by destruct (buckets r !! x). Qed.

Lemma subs_unlink x c r c' : subs (pubsub_unlink x c r) c' = subs r c'.
Proof. unfold subs. by rewrite unlink_mine. Qed.

Lemma subs_erase c x r c' : subs (reg_erase c x r) c' = if decide (c' = c) then subs r c ∖ {[x]} else subs r c'.
Proof.
  unfold subs, reg_erase. cbn [mine]. destruct (decide (c' = c)) as [->|Hne]; [by rewrite lookup_insert_eq|by rewrite lookup_insert_ne].
Qed.

Lemma subs_join c x r c' : subs (reg_join c x r) c' = if decide (c' = c) then {[x]} ∪ subs r c else subs r c'.
Proof.
  unfold reg_join. case_bool_decide as Hx.
  - destruct (decide (c' = c)) as [->|]; [|done]. set_solver.
  - unfold subs at 1. cbn [mine]. destruct (decide (c' = c)) as [->|Hne]; [by rewrite lookup_insert_eq|by rewrite lookup_insert_ne].
Qed.

Lemma pub_join_ok c x r : reg_ok r -> reg_ok (reg_join c x r).
Proof.
  intros [Hf Hm]. unfold reg_join. case_bool_decide as Hx; [by split|]. split.
  - intros y. cbn [buckets]. destruct (decide (y = x)) as [->|Hne]; [rewrite lookup_insert_eq; intros [= He]; set_solver|by rewrite lookup_insert_ne].
  - intros y c'. assert (Hs : subs (mkReg (<[x:={[c]} ∪ default ∅ (buckets r !! x)]> (buckets r)) (<[c:={[x]} ∪ subs r c]> (mine r))) c' =
      if decide (c' = c) then {[x]} ∪ subs r c else subs r c').
    { unfold subs at 1. cbn [mine]. destruct (decide (c' = c)) as [->|Hne]; [by rewrite lookup_insert_eq|by rewrite lookup_insert_ne]. }
    rewrite Hs. unfold bucket. cbn [buckets]. specialize (Hm y c') as Hm'. unfold bucket in Hm'. destruct (decide (y = x)) as [->|Hne].
    + rewrite lookup_insert_eq. cbn [default from_option id]. destruct (decide (c' = c)) as [->|Hc]; [set_solver|].
      rewrite elem_of_union, elem_of_singleton, Hm'. naive_solver.
    + rewrite lookup_insert_ne by done. destruct (decide (c' = c)) as [->|Hc]; [|done]. rewrite Hm', elem_of_union, elem_of_singleton. naive_solver.
Qed.

(** Both orders of removing one subscription. *)
Lemma remove_ok c x r r' : reg_ok r -> buckets r' = buckets (pubsub_unlink x c r) -> (forall c', subs r' c' = if decide (c' = c) then subs r c ∖ {[x]} else subs r c') ->
  reg_ok r'.
Proof.
  intros [Hf Hm] Hb Hs. split; [intros y; rewrite Hb; by apply unlink_full|]. intros y c'.
  assert (Hbk : bucket r' y = bucket (pubsub_unlink x c r) y) by (unfold bucket; by rewrite Hb). rewrite Hbk, unlink_bucket, Hs.
  destruct (decide (y = x)) as [->|Hne], (decide (c' = c)) as [->|Hc]; rewrite ?elem_of_difference, ?elem_of_singleton, ?Hm; naive_solver.
Qed.

Lemma erase_unlink_ok c x r : reg_ok r -> reg_ok (reg_erase c x (pubsub_unlink x c r)).
Proof.
  intros H. apply (remove_ok c x r); [done|done|]. intros c'. rewrite subs_erase, !subs_unlink. done.
Qed.

Lemma leave_ok c x r : reg_ok r -> reg_ok (reg_leave c x r).
Proof.
  intros H. unfold reg_leave. case_bool_decide; [|done]. apply (remove_ok c x r); [done| |].
  - unfold pubsub_unlink, reg_erase. cbn [buckets mine]. by destruct (buckets r !! x).
  - intros c'. by rewrite subs_unlink, subs_erase.
Qed.

Lemma leave_subs c x r c' : subs (reg_leave c x r) c' = if decide (c' = c) then subs r c ∖ {[x]} else subs r c'.
Proof.
  unfold reg_leave. case_bool_decide as Hx; [by rewrite subs_unlink, subs_erase|]. destruct (decide (c' = c)) as [->|]; [|done]. set_solver.
Qed.

(** ** Every operation keeps it *)

Record ps_ok (s : PS) : Prop := {
  po_reg : forall k, reg_ok (reg_of k s);
  po_live : forall k c x, x ∈ subs (reg_of k s) c -> is_Some (pconns s !! c);
}.

Lemma on_pconn_ok c f s : ps_ok s -> ps_ok (on_pconn c f s).
Proof.
  intros [Hr Hl]. split; [intros []; [apply (Hr Channels)|apply (Hr Patterns)]|]. intros k c' x Hx. unfold on_pconn. cbn [pconns].
  assert (is_Some (pconns s !! c')) as [p Hp] by (apply (Hl k c' x); by destruct k).
  destruct (decide (c' = c)) as [->|Hne]; [rewrite lookup_alter_eq, Hp|rewrite lookup_alter_ne, Hp by done]; by eexists.
Qed.

Lemma set_reg_ok k r s : ps_ok s -> reg_ok r -> (forall c x, x ∈ subs r c -> is_Some (pconns s !! c)) -> ps_ok (set_reg k r s).
Proof.
  intros [Hr Hl] Hok Hlive. split.
  - intros k'. destruct k, k'; cbn; try done; [apply (Hr Patterns)|apply (Hr Channels)].
  - intros k' c x. destruct k, k'; cbn; try apply Hlive; [apply (Hl Patterns)|apply (Hl Channels)].
Qed.

Lemma reg_set_eq k r s : reg_of k (set_reg k r s) = r.
Proof. by destruct k. Qed.

Lemma pconns_set k r s : pconns (set_reg k r s) = pconns s.
Proof. by destruct k. Qed.

(** A loop that changes one connection's subscriptions and confirms each. *)
Lemma confirm_loop_ok (step : bytes -> Reg -> Reg) (un : bool) k c l :
  (forall x r, reg_ok r -> reg_ok (step x r)) ->
  (forall x r c' y, y ∈ subs (step x r) c' -> y ∈ subs r c' \/ c' = c) ->
  forall s, ps_ok s -> is_Some (pconns s !! c) ->
  ps_ok (foldl (fun s x => confirm k un (Some x) c (set_reg k (step x (reg_of k s)) s)) s l).
Proof.
  intros Hstep Hsub. induction l as [|x l IH]; intros s Hs Hc; [done|]. cbn [foldl]. apply IH.
  - unfold confirm, say. apply on_pconn_ok, set_reg_ok; [done|apply Hstep, (po_reg _ Hs)|]. intros c' y Hy. apply Hsub in Hy as [Hy| ->]; [|done].
    by apply (po_live _ Hs k c' y).
  - unfold confirm, say, on_pconn. cbn [pconns]. rewrite pconns_set. destruct Hc as [p Hp]. rewrite lookup_alter_eq, Hp. by eexists.
Qed.

Section Keep.
Context (str_order : gset bytes -> list bytes) (conn_order : gset nat -> list nat) (map_order : gmap bytes (gset nat) -> list (bytes * gset nat)).
Context (Hstr : forall X, str_order X ≡ₚ base.elements X).

Lemma subscribe_ok k args c s s' : ps_ok s -> is_Some (pconns s !! c) -> do_subscribe k args c s = Some s' -> ps_ok s'.
Proof.
  intros Hs Hc. unfold do_subscribe. destruct (scan_args _ _ _); [|intros [= <-]; by apply on_pconn_ok|done]. intros [= <-].
  apply (confirm_loop_ok (fun x r => reg_join c x r)); [intros; by apply pub_join_ok| |done|done].
  intros x r c' y. rewrite subs_join. destruct (decide (c' = c)); [by right|by left].
Qed.

Lemma unsubscribe_ok k args c s : ps_ok s -> is_Some (pconns s !! c) -> ps_ok (do_unsubscribe str_order k args c s).
Proof.
  intros Hs Hc. unfold do_unsubscribe. destruct args as [|a args].
  - case_bool_decide; [by apply on_pconn_ok|]. apply (confirm_loop_ok (fun x r => reg_erase c x (pubsub_unlink x c r))); [intros; by apply erase_unlink_ok| |done|done].
    intros x r c' y. rewrite subs_erase, !subs_unlink. destruct (decide (c' = c)); [by right|by left].
  - apply (confirm_loop_ok (fun x r => reg_leave c x r)); [intros; by apply leave_ok| |done|done].
    intros x r c' y. rewrite leave_subs. destruct (decide (c' = c)); [by right|by left].
Qed.

Lemma deliver_all_ok f l n s : ps_ok s -> ps_ok (deliver_all f l n s).2.
Proof. intros Hs. cbn. revert s Hs. induction l as [|c l IH]; intros s Hs; [done|]. cbn. by apply IH, on_pconn_ok. Qed.

Lemma deliver_all_regs f l n s : chans (deliver_all f l n s).2 = chans s /\ pats (deliver_all f l n s).2 = pats s.
Proof. cbn. revert s. induction l as [|c l IH]; intros s; [done|]. cbn. by destruct (IH (deliver f c s)) as [-> ->]. Qed.

Lemma publish_patterns_ok chan msg l : forall n s r, ps_ok s -> publish_patterns conn_order chan msg l n s = Some r -> ps_ok r.2.
Proof.
  induction l as [|[pat cs] l IH]; intros n s r Hs H; cbn [publish_patterns] in H; [by injection H as <-|].
  destruct (glob pat chan) as [[]| |]; try done; [|by eapply IH]. destruct (deliver_all (pmessage pat chan msg) (conn_order cs) n s) as [n' s'] eqn:E.
  eapply IH; [|exact H]. pose proof (deliver_all_ok (pmessage pat chan msg) (conn_order cs) n s Hs) as Hd. by rewrite E in Hd.
Qed.

Lemma publish_ok chan msg s r : ps_ok s -> pubsub_publish conn_order map_order chan msg s = Some r -> ps_ok r.2.
Proof.
  intros Hs. unfold pubsub_publish. destruct (buckets (chans s) !! chan) as [cs|]; [|by apply publish_patterns_ok].
  destruct (deliver_all _ _ _ _) as [n s1] eqn:E. apply publish_patterns_ok.
  pose proof (deliver_all_ok (message chan msg) (conn_order cs) 0 s Hs) as Hd. by rewrite E in Hd.
Qed.

Lemma do_publish_ok chan msg c s s' : ps_ok s -> do_publish conn_order map_order chan msg c s = Some s' -> ps_ok s'.
Proof.
  intros Hs. unfold do_publish. destruct (acl_channel_check _ _ _); [|intros [= <-]; by apply on_pconn_ok|done].
  destruct (pubsub_publish _ _ _ _ _) as [[n s1]|] eqn:E; [|done]. cbn. intros [= <-]. apply on_pconn_ok. by apply (publish_ok _ _ _ _ Hs E).
Qed.

Lemma notify_ok flags type event key s s' : ps_ok s -> notify_keyspace_event conn_order map_order flags type event key s = Some s' -> ps_ok s'.
Proof.
  intros Hs. unfold notify_keyspace_event. destruct (_ =? 0); [by intros [= <-]|].
  destruct (Z.land flags NOTIFY_KEYSPACE =? 0); cbn.
  - destruct (_ =? 0); [by intros [= <-]|]. destruct (pubsub_publish _ _ _ _ _) as [[n s1]|] eqn:E; [|done]. cbn. intros [= <-]. by apply (publish_ok _ _ _ _ Hs E).
  - destruct (pubsub_publish _ _ _ event s) as [[n s1]|] eqn:E; [|done]. cbn. apply (publish_ok _ _ _ _ Hs) in E as H1. cbn in H1.
    destruct (_ =? 0); [by intros [= <-]|]. destruct (pubsub_publish _ _ _ key s1) as [[n2 s2]|] eqn:E2; [|done]. cbn. intros [= <-]. by apply (publish_ok _ _ _ _ H1 E2).
Qed.

Lemma pub_unlink_all l c r : (forall y, buckets r !! y <> Some ∅) ->
  let r' := foldl (fun r x => pubsub_unlink x c r) r l in
  mine r' = mine r /\ (forall y, buckets r' !! y <> Some ∅) /\ forall y, bucket r' y = if decide (y ∈ l) then bucket r y ∖ {[c]} else bucket r y.
Proof.
  revert r. induction l as [|x l IH]; intros r Hf; cbn zeta; cbn [foldl]; [split; [done|split; [done|intros y; by rewrite decide_False by set_solver]]|].
  destruct (IH (pubsub_unlink x c r)) as (H1 & H2 & H3); [by apply unlink_full|]. rewrite unlink_mine in H1. split; [done|]. split; [done|].
  intros y. rewrite H3, unlink_bucket. destruct (decide (y = x)) as [->|Hne].
  - rewrite (decide_True (P := x ∈ x :: l)) by (by left). case_decide; [set_solver|done].
  - destruct (decide (y ∈ l)); [rewrite decide_True by (by right); done|]. rewrite decide_False; [done|set_solver].
Qed.

Lemma drop_ok c r : reg_ok r -> reg_ok (reg_drop str_order c r) /\ (forall c', subs (reg_drop str_order c r) c' = if decide (c' = c) then ∅ else subs r c').
Proof.
  intros [Hf Hm]. unfold reg_drop. destruct (pub_unlink_all (str_order (subs r c)) c r Hf) as (H1 & H2 & H3).
  set (r1 := foldl _ _ _) in *. assert (Hs : forall c', subs (mkReg (buckets r1) (<[c:=∅]> (mine r1))) c' = if decide (c' = c) then ∅ else subs r c').
  { intros c'. unfold subs. cbn [mine]. rewrite H1. destruct (decide (c' = c)) as [->|Hne]; [by rewrite lookup_insert_eq|by rewrite lookup_insert_ne]. }
  split; [|done]. split; [done|]. intros x c'. rewrite Hs. unfold bucket. cbn [buckets]. change (default ∅ (buckets r1 !! x)) with (bucket r1 x). rewrite H3.
  assert (Hin : x ∈ str_order (subs r c) <-> x ∈ subs r c) by (by rewrite Hstr, elem_of_elements).
  destruct (decide (c' = c)) as [->|Hne]; case_decide as Hx; rewrite ?elem_of_difference, ?elem_of_singleton, ?Hm.
  - split; [by intros []|]. intros H. by apply elem_of_empty in H.
  - split; [intros H; by apply Hin in H|]. intros H. by apply elem_of_empty in H.
  - split; [by intros []|by intros].
  - done.
Qed.

Lemma pub_destroy_ok c s : ps_ok s -> ps_ok (pubsub_destroy str_order c s) /\ forall k x, c ∉ bucket (reg_of k (pubsub_destroy str_order c s)) x.
Proof.
  intros [Hr Hl].
  assert (Hdel : forall r, reg_ok r -> let r' := mkReg (buckets (reg_drop str_order c r)) (delete c (mine (reg_drop str_order c r))) in
    reg_ok r' /\ (forall c', subs r' c' = if decide (c' = c) then ∅ else subs r c')).
  { intros r Hok. destruct (drop_ok c r Hok) as [[Hf Hm] Hs]. cbn zeta.
    assert (Hs' : forall c', subs (mkReg (buckets (reg_drop str_order c r)) (delete c (mine (reg_drop str_order c r)))) c' = if decide (c' = c) then ∅ else subs r c').
    { intros c'. unfold subs at 1. cbn [mine]. destruct (decide (c' = c)) as [->|Hne]; [by rewrite lookup_delete_eq|].
      rewrite lookup_delete_ne by done. specialize (Hs c'). by rewrite decide_False in Hs. }
    split; [|done]. split; [done|]. intros x c'. rewrite Hs', <- Hs. apply Hm. }
  destruct (Hdel (chans s) (Hr Channels)) as [Hc1 Hc2]. destruct (Hdel (pats s) (Hr Patterns)) as [Hp1 Hp2].
  assert (Hok : ps_ok (pubsub_destroy str_order c s)).
  { split; [by intros []|]. intros k c' x Hx. unfold pubsub_destroy. cbn [pconns pubsub_remove_conn].
    assert (Hx' : c' <> c /\ x ∈ subs (reg_of k s) c').
    { destruct k; cbn [reg_of pubsub_destroy chans pats pubsub_remove_conn] in Hx; [rewrite Hc2 in Hx|rewrite Hp2 in Hx]; case_decide; set_solver. }
    destruct Hx' as [Hne Hx']. rewrite lookup_delete_ne by done. by apply (Hl k c' x). }
  split; [done|]. intros k x Hin. apply (ro_mirror _ (po_reg _ Hok k)) in Hin.
  destruct k; cbn [reg_of pubsub_destroy chans pats pubsub_remove_conn] in Hin; [rewrite Hc2 in Hin|rewrite Hp2 in Hin]; rewrite decide_True in Hin by done; set_solver.
Qed.

Lemma accept_ok c u s : ps_ok s -> pconns s !! c = None -> ps_ok (pubsub_accept c u s).
Proof.
  intros [Hr Hl] Hc.
  assert (Hno : forall k, subs (reg_of k s) c = ∅).
  { intros k. apply leibniz_equiv. intros x. split; [|set_solver]. intros Hx. apply Hl in Hx as [p Hp]. congruence. }
  assert (Hs : forall k c', subs (reg_of k (pubsub_accept c u s)) c' = subs (reg_of k s) c').
  { intros k c'. destruct (decide (c' = c)) as [->|Hne]; [rewrite Hno|]; destruct k; unfold subs; cbn; rewrite ?lookup_insert_eq, ?lookup_insert_ne by done; done. }
  split.
  - intros k. destruct (Hr k) as [Hf Hm]. split; [destruct k; done|]. intros x c'. rewrite Hs, <- Hm. by destruct k.
  - intros k c' x. rewrite Hs. intros Hx. apply Hl in Hx as [p Hp]. unfold pubsub_accept. cbn [pconns].
    destruct (decide (c' = c)) as [->|Hne]; [rewrite lookup_insert_eq; by eexists|rewrite lookup_insert_ne by done; by eexists].
Qed.
End Keep.

(** ** What a publication delivers *)

Definition push_header (n proto : Z) : bytes := (if 3 <=? proto then bs ">" else bs "*") ++ print_u64 n ++ crlf.
Definition message_bytes (proto : Z) (chan msg : bytes) : bytes := push_header 3 proto ++ bulk (bs "message") ++ bulk chan ++ bulk msg.
Definition pmessage_bytes (proto : Z) (pat chan msg : bytes) : bytes :=
  push_header 4 proto ++ bulk (bs "pmessage") ++ bulk pat ++ bulk chan ++ bulk msg.

Lemma appends_push n proto : appends (fun b => resp_push_n b n proto) (push_header n proto).
Proof. unfold resp_push_n, push_header. destruct (3 <=? proto); rewrite ?app_assoc; apply appends_buf. Qed.

Lemma appends_message chan msg proto : appends (message chan msg proto) (message_bytes proto chan msg).
Proof.
  unfold message, message_bytes. rewrite !app_assoc. repeat (apply (appends_comp _ (fun b => resp_str b _)); [|apply appends_resp_str]). apply appends_push.
Qed.

Lemma appends_pmessage pat chan msg proto : appends (pmessage pat chan msg proto) (pmessage_bytes proto pat chan msg).
Proof.
  unfold pmessage, pmessage_bytes. rewrite !app_assoc. repeat (apply (appends_comp _ (fun b => resp_str b _)); [|apply appends_resp_str]). apply appends_push.
Qed.

Definition upd (f : Z -> Buffer -> Buffer) (k : PConn) : PConn := mkPConn (f (p_proto k) (p_out k)) true (p_proto k) (p_user k).

Lemma deliver_conn f l n s c : NoDup l ->
  pconns (deliver_all f l n s).2 !! c = if decide (c ∈ l) then upd f <$> pconns s !! c else pconns s !! c.
Proof.
  unfold deliver_all. cbn [snd]. revert s. induction l as [|x l IH]; intros s Hnd; cbn [foldl]; [by rewrite decide_False by set_solver|].
  apply NoDup_cons in Hnd as [Hx Hnd]. rewrite IH by done. unfold deliver, on_pconn. cbn [pconns]. destruct (decide (c = x)) as [->|Hne].
  - rewrite decide_False by done. rewrite decide_True by (by left). by rewrite lookup_alter_eq.
  - rewrite lookup_alter_ne by done. destruct (decide (c ∈ l)); [rewrite decide_True by (by right); done|]. rewrite decide_False; [done|set_solver].
Qed.

Section Publish.
Context (conn_order : gset nat -> list nat) (map_order : gmap bytes (gset nat) -> list (bytes * gset nat)).
Context (Hconn : forall X, conn_order X ≡ₚ base.elements X) (Hmap : forall m, map_order m ≡ₚ map_to_list m).
Context (chan msg : bytes) (hit : bytes -> bool).

(** The patterns of the list that reach [c]. *)
Definition reaching (c : nat) (l : list (bytes * gset nat)) : list bytes :=
  fst <$> filter (fun p => hit p.1 = true /\ c ∈ p.2) l.

Definition receive (k : PConn) (pat : bytes) : PConn := upd (pmessage pat chan msg) k.

Lemma patterns_conn l : forall n s, (forall p, p ∈ l -> glob p.1 chan = GDone (hit p.1)) ->
  exists n' s', publish_patterns conn_order chan msg l n s = Some (n', s') /\ chans s' = chans s /\ pats s' = pats s /\
    n' = (n + sum_list ((fun p => base.size p.2) <$> filter (fun p => hit p.1 = true) l))%nat /\
    forall c, pconns s' !! c = (fun k => foldl receive k (reaching c l)) <$> pconns s !! c.
Proof.
  induction l as [|[pat cs] l IH]; intros n s Hg; cbn [publish_patterns].
  { exists n, s. split; [done|]. split; [done|]. split; [done|]. split; [cbn; lia|]. intros c. unfold reaching. cbn. by rewrite option_fmap_id. }
  pose proof (Hg (pat, cs) ltac:(by left)) as Hp. cbn [fst] in Hp. rewrite Hp. destruct (hit pat) eqn:Eh.
  - destruct (IH (n + length (conn_order cs))%nat (deliver_all (pmessage pat chan msg) (conn_order cs) n s).2) as (n' & s' & I1 & I2 & I3 & I4 & I5);
      [intros p Hin; apply Hg; by right|]. exists n', s'. destruct (deliver_all_regs (pmessage pat chan msg) (conn_order cs) n s) as [R1 R2].
    split; [done|]. split; [by rewrite I2, R1|]. split; [by rewrite I3, R2|]. rewrite filter_cons_True by done. cbn [fmap list_fmap sum_list snd].
    assert (Hlen : length (conn_order cs) = base.size cs) by (by rewrite (Permutation_length (Hconn cs))).
    split; [rewrite I4, Hlen; cbn; lia|].
    intros c. rewrite I5, deliver_conn by (rewrite Hconn; apply NoDup_elements). unfold reaching.
    destruct (decide (c ∈ cs)) as [Hin|Hin].
    + rewrite decide_True by (by rewrite Hconn, elem_of_elements). rewrite filter_cons_True by done. cbn [fmap list_fmap foldl fst].
      by rewrite <- option_fmap_compose.
    + rewrite decide_False by (by rewrite Hconn, elem_of_elements). by rewrite filter_cons_False by (cbn; tauto).
  - destruct (IH n s) as (n' & s' & I1 & I2 & I3 & I4 & I5); [intros p Hin; apply Hg; by right|]. exists n', s'. split; [done|]. split; [done|]. split; [done|].
    rewrite filter_cons_False by (cbn; congruence). split; [done|]. intros c. rewrite I5. unfold reaching. by rewrite filter_cons_False by (cbn; intros []; congruence).
Qed.

Lemma receive_all ps : forall k, Buffer.wf (p_out k) ->
  let k' := foldl receive k ps in
  Buffer.wf (p_out k') /\ Buffer.content (p_out k') = Buffer.content (p_out k) ++ concat ((fun p => pmessage_bytes (p_proto k) p chan msg) <$> ps) /\
  p_proto k' = p_proto k /\ p_user k' = p_user k /\ p_write k' = p_write k || negb (length ps =? 0)%nat.
Proof.
  induction ps as [|p ps IH]; intros k Hw; cbn zeta; cbn [foldl fmap list_fmap concat].
  { by rewrite app_nil_r, orb_false_r. }
  destruct (appends_pmessage p chan msg (p_proto k) (p_out k) Hw) as [Hw1 Hc1]. destruct (IH (receive k p)) as (I1 & I2 & I3 & I4 & I5); [done|].
  split; [done|]. cbn [receive upd p_out p_proto p_user p_write] in *. rewrite I2, Hc1, <- app_assoc. split_and!; try done. rewrite I5. by rewrite orb_true_r.
Qed.

(** The patterns that reach [c] are those it subscribed to and that match. *)
Lemma reaching_subs r c : reg_ok r -> reaching c (map_order (buckets r)) ≡ₚ base.elements (filter (fun p => hit p = true) (subs r c)).
Proof.
  intros [Hf Hm]. apply list.NoDup_Permutation.
  - unfold reaching. eapply (NoDup_fmap_fst).
    + intros x y1 y2 H1 H2. apply list_elem_of_filter in H1 as [_ H1]. apply list_elem_of_filter in H2 as [_ H2]. rewrite Hmap in H1, H2.
      apply elem_of_map_to_list in H1. apply elem_of_map_to_list in H2. congruence.
    + apply NoDup_filter. rewrite Hmap. apply NoDup_map_to_list.
  - apply NoDup_elements.
  - intros x. rewrite elem_of_elements, elem_of_filter. unfold reaching. rewrite list_elem_of_fmap. split.
    + intros ([p cs] & -> & Hin). apply list_elem_of_filter in Hin as [[Hh Hc] Hin]. rewrite Hmap in Hin. apply elem_of_map_to_list in Hin. cbn [fst snd] in *.
      split; [done|]. apply Hm. unfold bucket. by rewrite Hin.
    + intros [Hh Hs]. apply Hm in Hs. unfold bucket in Hs. destruct (buckets r !! x) as [cs|] eqn:E; [|cbn in Hs; set_solver]. exists (x, cs). split; [done|].
      apply list_elem_of_filter. split; [done|]. rewrite Hmap. by apply elem_of_map_to_list.
Qed.
End Publish.

(** ** Claims *)

(** What happens: connections come and go, subscribe, unsubscribe, publish;
    the server publishes key-space events.  An event of a connection that is
    not there does nothing. *)
Inductive PEvent :=
  | PAccept (c : nat) (u : option User)
  | PSubscribe (k : Kind) (args : list bytes) (c : nat)
  | PUnsubscribe (k : Kind) (args : list bytes) (c : nat)
  | PPublish (chan msg : bytes) (c : nat)
  | PNotify (flags type : Z) (event key : bytes)
  | PDestroy (c : nat).

Definition p_event (so : gset bytes -> list bytes) (co : gset nat -> list nat) (mo : gmap bytes (gset nat) -> list (bytes * gset nat))
    (e : PEvent) (s : PS) : option PS :=
  let here c := bool_decide (is_Some (pconns s !! c)) in
  match e with
  | PAccept c u => Some (if here c then s else pubsub_accept c u s)
  | PSubscribe k args c => if here c then (match k with Channels => do_subscribe Channels | Patterns => do_psubscribe end) args c s else Some s
  | PUnsubscribe k args c => Some (if here c then (match k with Channels => do_unsubscribe so Channels | Patterns => do_punsubscribe so end) args c s else s)
  | PPublish chan msg c => if here c then do_publish co mo chan msg c s else Some s
  | PNotify flags type event key => notify_keyspace_event co mo flags type event key s
  | PDestroy c => Some (if here c then pubsub_destroy so c s else s)
  end.

Fixpoint p_run so co mo (evs : list PEvent) (s : PS) : option PS :=
  match evs with [] => Some s | e :: evs' => s ← p_event so co mo e s; p_run so co mo evs' s end.

Definition ps0 : PS := mkPS ∅ (mkReg ∅ ∅) (mkReg ∅ ∅).

Lemma ps0_ok : ps_ok ps0.
Proof.
  split; [intros []; split|]; [intros x H; cbn in H; by rewrite lookup_empty in H| |intros x H; cbn in H; by rewrite lookup_empty in H| |].
  1,2: intros x c; unfold bucket, subs; cbn; rewrite !lookup_empty; cbn; set_solver.
  intros [] c x H; unfold subs in H; cbn in H; rewrite lookup_empty in H; cbn in H; set_solver.
Qed.

Lemma pub_event_ok so co mo e s s' : (forall X, so X ≡ₚ base.elements X) -> ps_ok s -> p_event so co mo e s = Some s' -> ps_ok s'.
Proof.
  intros Hso Hs. destruct e as [c u|k args c|k args c|chan msg c|flags type event key|c]; cbn; try case_bool_decide as Hc; try (by intros [= <-]).
  - intros [= <-]. apply (accept_ok so); [done..|]. by apply eq_None_not_Some.
  - destruct k; by apply subscribe_ok.
  - intros [= <-]. destruct k; by apply (unsubscribe_ok so).
  - by apply do_publish_ok.
  - by apply notify_ok.
  - intros [= <-]. by apply (pub_destroy_ok so).
Qed.

(** C30: The subscription registry is always exact.  After any connections,
    subscriptions, publications and teardowns, in whatever order the hash sets
    are walked, a connection stands in the bucket of a channel or pattern
    exactly when it holds that subscription and is still there, and no bucket
    is empty: a publication never reaches a connection that is gone. *)
Theorem pubsub_registry_exact (so : gset bytes -> list bytes) (co : gset nat -> list nat) (mo : gmap bytes (gset nat) -> list (bytes * gset nat))
    (evs : list PEvent) (s : PS) (Hso : forall X, so X ≡ₚ base.elements X) (Hrun : p_run so co mo evs ps0 = Some s) :
  forall k, (forall x, buckets (reg_of k s) !! x <> Some ∅) /\
    forall x c, c ∈ bucket (reg_of k s) x <-> x ∈ subs (reg_of k s) c /\ is_Some (pconns s !! c).
Proof.
  assert (Hok : ps_ok s).
  { revert Hrun. generalize ps0_ok. generalize ps0. induction evs as [|e evs IH]; intros s0 Hs0 Hrun; cbn [p_run] in Hrun; [by injection Hrun as <-|].
    destruct (p_event so co mo e s0) as [s1|] eqn:E; [|done]. cbn in Hrun. apply (IH s1); [by eapply pub_event_ok|done]. }
  intros k. destruct (po_reg _ Hok k) as [Hf Hm]. split; [done|]. intros x c. rewrite Hm. split; [|by intros []].
  intros Hx. split; [done|]. by apply (po_live _ Hok k c x).
Qed.

(** ** Publishing *)

(** Messages written for the channel and for the patterns that are hit. *)
Lemma publish_delivers (co : gset nat -> list nat) (mo : gmap bytes (gset nat) -> list (bytes * gset nat)) (chan msg : bytes) (hit : bytes -> bool) (s : PS)
    (Hco : forall X, co X ≡ₚ base.elements X) (Hmo : forall m, mo m ≡ₚ map_to_list m) (Hok : ps_ok s)
    (Hwf : forall c k, pconns s !! c = Some k -> Buffer.wf (p_out k))
    (Hglob : forall p, is_Some (buckets (pats s) !! p) -> glob p chan = GDone (hit p)) :
  exists n s' all, pubsub_publish co mo chan msg s = Some (n, s') /\ chans s' = chans s /\ pats s' = pats s /\
    all ≡ₚ filter (fun p => hit p.1 = true) (map_to_list (buckets (pats s))) /\
    n = (base.size (bucket (chans s) chan) + sum_list ((fun p => base.size p.2) <$> all))%nat /\
    (forall c, pconns s !! c = None -> pconns s' !! c = None) /\
    forall c k, pconns s !! c = Some k -> exists k' ps, pconns s' !! c = Some k' /\
      ps ≡ₚ base.elements (filter (fun p => hit p = true) (subs (pats s) c)) /\
      Buffer.content (p_out k') = Buffer.content (p_out k) ++
        (if decide (chan ∈ subs (chans s) c) then message_bytes (p_proto k) chan msg else []) ++
        concat ((fun p => pmessage_bytes (p_proto k) p chan msg) <$> ps) /\
      p_proto k' = p_proto k /\ p_user k' = p_user k /\
      p_write k' = p_write k || bool_decide (chan ∈ subs (chans s) c) || negb (length ps =? 0)%nat /\ Buffer.wf (p_out k').
Proof.
  unfold pubsub_publish.
  set (st1 := match buckets (chans s) !! chan with Some cs => deliver_all (message chan msg) (co cs) 0 s | None => (0%nat, s) end).
  assert (H1 : st1.1 = base.size (bucket (chans s) chan) /\ chans st1.2 = chans s /\ pats st1.2 = pats s /\
    forall c, pconns st1.2 !! c = if decide (chan ∈ subs (chans s) c) then upd (message chan msg) <$> pconns s !! c else pconns s !! c).
  { unfold st1, bucket. destruct (buckets (chans s) !! chan) as [cs|] eqn:E.
    - destruct (deliver_all_regs (message chan msg) (co cs) 0 s) as [R1 R2]. cbn [default from_option id fst].
      split; [cbn; by rewrite (Permutation_length (Hco cs))|]. split; [done|]. split; [done|]. intros c.
      rewrite deliver_conn by (rewrite Hco; apply NoDup_elements).
      assert (Hin : c ∈ co cs <-> chan ∈ subs (chans s) c).
      { rewrite Hco, elem_of_elements, <- (ro_mirror _ (po_reg _ Hok Channels)). unfold bucket. cbn [reg_of]. by rewrite E. }
      destruct (decide (c ∈ co cs)) as [Hc|Hc]; [rewrite decide_True by (by apply Hin); done|rewrite decide_False by (by rewrite <- Hin); done].
    - split; [done|]. split; [done|]. split; [done|]. intros c. rewrite decide_False; [done|]. intros Hin.
      apply (ro_mirror _ (po_reg _ Hok Channels)) in Hin. unfold bucket in Hin. cbn [reg_of] in Hin. rewrite E in Hin. set_solver. }
  destruct st1 as [n1 s1]. cbn [fst snd] in H1. destruct H1 as (-> & C1 & C2 & C3).
  destruct (patterns_conn co Hco chan msg hit (mo (buckets (pats s1))) (base.size (bucket (chans s) chan)) s1) as (n' & s' & I1 & I2 & I3 & I4 & I5).
  { intros [p cs] Hp. rewrite Hmo, C2 in Hp. apply elem_of_map_to_list in Hp. apply Hglob. cbn. by eexists. }
  exists n', s', (filter (fun p => hit p.1 = true) (mo (buckets (pats s)))). rewrite C2 in *. split; [done|]. split; [congruence|]. split; [done|].
  split; [by rewrite Hmo|]. split; [done|]. split.
  - intros c Hc. rewrite I5, C3, Hc. by destruct (decide _).
  - intros c k Hk. rewrite I5, C3, Hk.
    pose proof (reaching_subs co mo Hco Hmo hit (pats s) c (po_reg _ Hok Patterns)) as Hps.
    set (ps := reaching hit c (mo (buckets (pats s)))) in *.
    set (k1 := if decide (chan ∈ subs (chans s) c) then upd (message chan msg) k else k).
    assert (Hk1 : (if decide (chan ∈ subs (chans s) c) then upd (message chan msg) <$> Some k else Some k) = Some k1) by (unfold k1; by destruct (decide _)).
    rewrite Hk1. cbn [fmap option_fmap option_map]. exists (foldl (receive chan msg) k1 ps), ps. split; [done|]. split; [done|].
    destruct (appends_message chan msg (p_proto k) (p_out k) (Hwf c k Hk)) as [W1 W2].
    assert (Hk1w : Buffer.wf (p_out k1) /\ Buffer.content (p_out k1) = Buffer.content (p_out k) ++ (if decide (chan ∈ subs (chans s) c) then message_bytes (p_proto k) chan msg else []) /\
      p_proto k1 = p_proto k /\ p_user k1 = p_user k /\ p_write k1 = p_write k || bool_decide (chan ∈ subs (chans s) c)).
    { unfold k1. destruct (decide _) as [Hd|Hd].
      - rewrite bool_decide_eq_true_2, orb_true_r by done. done.
      - rewrite bool_decide_eq_false_2, orb_false_r, app_nil_r by done. split; [by apply (Hwf c)|done]. }
    destruct Hk1w as (V1 & V2 & V3 & V4 & V5). destruct (receive_all chan msg ps k1 V1) as (R1 & R2 & R3 & R4 & R5).
    rewrite R2, V2, V3, R3, R4, R5, V4, V5. rewrite <- app_assoc. split_and!; done.
Qed.

(** The code takes the channel for one that matches the pattern. *)
Definition hits (chan p : bytes) : bool := match glob p chan with GDone b => b | _ => false end.
Definition decided (chan p : bytes) : bool := match glob p chan with GDone _ => true | _ => false end.

Lemma patterns_decided co chan msg l : forall n s, bool_decide (is_Some (publish_patterns co chan msg l n s)) = forallb (fun p => decided chan p.1) l.
Proof.
  induction l as [|[p cs] l IH]; intros n s; cbn [publish_patterns forallb fst]; [done|]. unfold decided at 1. destruct (glob p chan) as [[]| |]; try done.
  destruct (deliver_all _ _ n s) as [n' s']. apply IH.
Qed.

Lemma hits_meaning chan p : short chan -> (matches p chan -> decided chan p = true -> hits chan p = true) /\ (tame p -> decided chan p = true /\ (hits chan p = true <-> matches p chan)).
Proof.
  intros Hc. pose proof (glob_answers p chan Hc) as Hg. unfold hits, decided. destruct (glob p chan) as [[]| |].
  - split; [done|]. intros Ht. split; [done|]. split; [by intros; apply Hg|done].
  - split; [done|]. intros Ht. split; [done|]. split; [done|done].
  - split; [done|]. intros Ht. by destruct Hg.
  - split; [done|]. intros Ht. by destruct Hg.
Qed.

(** C29: PUBLISH reaches every subscriber, once per subscription, and nobody
    else, and only if its sender may publish there.  On a consistent registry:
    - if the sender's rules refuse the channel, it is answered with the error
      and nobody is sent anything;
    - otherwise the command has no defined outcome exactly when [glob_match]
      reads beyond the channel for a registered pattern, which happens only
      for patterns with a star before their end;
    - and when it has one, each connection is sent one message if it holds the
      channel and one pattern message for each pattern it holds that
      [glob_match] accepts, in some order, appended whole behind what it was
      already owed; it is woken exactly if something was sent; the sender is
      answered behind that with the number of messages; subscriptions stay as
      they are.
    [glob_match] accepts every matching pattern, and for patterns with no star
    but at their end exactly the matching ones. *)
Theorem publish_exact (co : gset nat -> list nat) (mo : gmap bytes (gset nat) -> list (bytes * gset nat)) (chan msg : bytes) (c0 : nat) (s : PS)
    (Hco : forall X, co X ≡ₚ base.elements X) (Hmo : forall m, mo m ≡ₚ map_to_list m) (Hok : ps_ok s)
    (Hwf : forall c k, pconns s !! c = Some k -> Buffer.wf (p_out k)) (Hchan : short chan) :
  (match acl_channel_check (user_of c0 s) chan false with
   | Undefined => do_publish co mo chan msg c0 s = None
   | Denied m => do_publish co mo chan msg c0 s = Some (say c0 (fun _ out => resp_err out m) s)
   | Allowed =>
       (do_publish co mo chan msg c0 s = None <-> exists p, is_Some (buckets (pats s) !! p) /\ decided chan p = false) /\
       forall s', do_publish co mo chan msg c0 s = Some s' -> chans s' = chans s /\ pats s' = pats s /\
         exists n all, all ≡ₚ filter (fun p => hits chan p.1 = true) (map_to_list (buckets (pats s))) /\
           n = (base.size (bucket (chans s) chan) + sum_list ((fun p => base.size p.2) <$> all))%nat /\
           (forall c, pconns s !! c = None -> pconns s' !! c = None) /\
           forall c k, pconns s !! c = Some k -> exists k' ps, pconns s' !! c = Some k' /\
             ps ≡ₚ base.elements (filter (fun p => hits chan p = true) (subs (pats s) c)) /\
             Buffer.content (p_out k') = (Buffer.content (p_out k) ++
               (if decide (chan ∈ subs (chans s) c) then message_bytes (p_proto k) chan msg else []) ++
               concat ((fun p => pmessage_bytes (p_proto k) p chan msg) <$> ps)) ++
               (if decide (c = c0) then bs ":" ++ print_i64 (Z.of_nat n) ++ crlf else []) /\
             p_proto k' = p_proto k /\ p_user k' = p_user k /\
             p_write k' = p_write k || bool_decide (chan ∈ subs (chans s) c) || negb (length ps =? 0)%nat
   end) /\
  forall p, (matches p chan -> decided chan p = true -> hits chan p = true) /\ (tame p -> decided chan p = true /\ (hits chan p = true <-> matches p chan)).
Proof.
  split; [|intros p; by apply hits_meaning]. unfold do_publish. destruct (acl_channel_check (user_of c0 s) chan false); [|done..].
  set (st1 := match buckets (chans s) !! chan with Some cs => deliver_all (message chan msg) (co cs) 0 s | None => (0%nat, s) end).
  assert (Hst : pats st1.2 = pats s) by (unfold st1; destruct (buckets (chans s) !! chan); [apply deliver_all_regs|done]).
  assert (Hdec : bool_decide (is_Some (pubsub_publish co mo chan msg s)) = forallb (fun p => decided chan p.1) (mo (buckets (pats s)))).
  { unfold pubsub_publish. fold st1. destruct st1 as [n1 s1]. cbn [snd] in Hst. rewrite <- Hst. apply patterns_decided. }
  assert (Hin : forall p, is_Some (buckets (pats s) !! p) <-> exists cs, (p, cs) ∈ mo (buckets (pats s))).
  { intros p. unfold is_Some. split; intros [cs Hcs]; exists cs; [rewrite Hmo; by apply elem_of_map_to_list|rewrite Hmo in Hcs; by apply elem_of_map_to_list in Hcs]. }
  split.
  - destruct (pubsub_publish co mo chan msg s) as [[n s']|] eqn:E; cbn [mbind option_bind].
    + split; [done|]. intros (p & Hp & Hd). apply Hin in Hp as [cs Hp]. rewrite bool_decide_eq_true_2 in Hdec by by eexists. symmetry in Hdec.
      rewrite forallb_forall in Hdec. specialize (Hdec (p, cs)). rewrite <- list_elem_of_In in Hdec. specialize (Hdec Hp). cbn in Hdec. congruence.
    + split; [|done]. intros _. rewrite bool_decide_eq_false_2 in Hdec by (by intros []). symmetry in Hdec.
      assert (Hex : existsb (fun p : bytes * gset nat => negb (decided chan p.1)) (mo (buckets (pats s))) = true).
      { revert Hdec. generalize (mo (buckets (pats s))). clear. induction l as [|p l IH]; cbn; [done|]. destruct (decided chan p.1); cbn; [exact IH|done]. }
      apply existsb_exists in Hex as ([p cs] & Hp & Hd). apply list_elem_of_In in Hp. exists p. split; [apply Hin; by exists cs|]. by apply negb_true_iff in Hd.
  - intros s' Hs'. destruct (pubsub_publish co mo chan msg s) as [[n s1]|] eqn:E; [|done]. cbn [mbind option_bind] in Hs'. injection Hs' as <-.
    rewrite bool_decide_eq_true_2 in Hdec by by eexists. symmetry in Hdec. rewrite forallb_forall in Hdec.
    destruct (publish_delivers co mo chan msg (hits chan) s Hco Hmo Hok Hwf) as (n' & s2 & all & H1 & H2 & H3 & H4 & H5 & H6 & H7).
    { intros p Hp. apply Hin in Hp as [cs Hp]. specialize (Hdec (p, cs)). rewrite <- list_elem_of_In in Hdec. specialize (Hdec Hp). cbn in Hdec.
      unfold decided, hits in *. by destruct (glob p chan). }
    rewrite E in H1. injection H1 as -> ->. split; [done|]. split; [done|]. exists n', all. split; [done|]. split; [done|].
    unfold say, on_pconn. cbn [pconns]. split.
    + intros c Hc. destruct (decide (c0 = c)) as [->|Hne]; [rewrite lookup_alter_eq|rewrite lookup_alter_ne by done]; by rewrite H6.
    + intros c k Hk. destruct (H7 c k Hk) as (k' & ps & K1 & K2 & K3 & K4 & K5 & K6 & Hw). rewrite lookup_alter. destruct (decide (c0 = c)) as [->|Hne].
      * rewrite K1. cbn [fmap option_fmap option_map]. eexists _, ps. split; [done|]. split; [done|]. cbn [p_out p_proto p_user p_write].
        destruct (decide (c = c)) as [_|]; [|done]. split; [|by split_and!]. rewrite <- K3.
        by destruct (appends_resp_int (Z.of_nat n') (p_out k') Hw) as [_ ->].
      * exists k', ps. destruct (decide (c = c0)) as [->|_]; [done|]. rewrite app_nil_r. split_and!; done.
Qed.

(** Two connections, a channel and a pattern; one leaves and is torn down. *)
Definition pubsub_story : list PEvent :=
  [PAccept 1 None; PAccept 2 None; PSubscribe Channels [bs "news"; bs "sport"] 1; PSubscribe Patterns [bs "ne?s"] 2;
   PSubscribe Channels [bs "news"] 2; PPublish (bs "news") (bs "hi") 1; PUnsubscribe Channels [bs "sport"] 1;
   PNotify 7 4 (bs "set") (bs "k"); PUnsubscribe Channels [] 1; PDestroy 2].

Lemma pubsub_registry_exact_witness :
  exists s, p_run base.elements base.elements map_to_list pubsub_story ps0 = Some s /\
    forall k, (forall x, buckets (reg_of k s) !! x <> Some ∅) /\
      forall x c, c ∈ bucket (reg_of k s) x <-> x ∈ subs (reg_of k s) c /\ is_Some (pconns s !! c).
Proof.
  assert (Hrun : bool_decide (is_Some (p_run base.elements base.elements map_to_list pubsub_story ps0)) = true) by (vm_compute; reflexivity).
  destruct (p_run base.elements base.elements map_to_list pubsub_story ps0) as [s|] eqn:E; [|by apply bool_decide_eq_true, is_Some_None in Hrun]. clear Hrun.
  exists s. split; [reflexivity|].
  exact (pubsub_registry_exact base.elements base.elements map_to_list pubsub_story s (fun X => reflexivity _) E).
Defined.

(** One connection, of a user with all channels, that holds the channel and a pattern that matches it. *)
Definition pub_user : User := mkUser 0 ∅ [] [] [] (bs "ann") true false true.
Definition pub_two : PS :=
  set_reg Patterns (reg_join 1 (bs "ne?s") (pats (pubsub_accept 1 (Some pub_user) ps0)))
    (set_reg Channels (reg_join 1 (bs "news") (chans (pubsub_accept 1 (Some pub_user) ps0))) (pubsub_accept 1 (Some pub_user) ps0)).

Lemma pub_two_ok : ps_ok pub_two.
Proof.
  assert (H0 : ps_ok (pubsub_accept 1 (Some pub_user) ps0)) by (apply (accept_ok base.elements); [done|apply ps0_ok|reflexivity]).
  assert (Hone : forall k x c y, y ∈ subs (reg_join 1 x (reg_of k (pubsub_accept 1 (Some pub_user) ps0))) c -> is_Some (pconns (pubsub_accept 1 (Some pub_user) ps0) !! c)).
  { intros k x c y Hy. rewrite subs_join in Hy. case_decide as Hc; [subst c; by eexists|by apply (po_live _ H0 k c y)]. }
  unfold pub_two. apply set_reg_ok; [apply set_reg_ok; [done|apply pub_join_ok, (po_reg _ H0 Channels)|apply (Hone Channels)]| |].
  - apply pub_join_ok, (po_reg _ H0 Patterns).
  - intros c x Hx. rewrite pconns_set. by apply (Hone Patterns _ _ _ Hx).
Qed.

Lemma publish_exact_witness :
  exists s', do_publish base.elements map_to_list (bs "news") (bs "hi") 1 pub_two = Some s' /\ chans s' = chans pub_two /\ pats s' = pats pub_two.
Proof.
  destruct (publish_exact base.elements map_to_list (bs "news") (bs "hi") 1 pub_two) as [H _]; [reflexivity|reflexivity|apply pub_two_ok| |reflexivity|].
  - intros c k Hk. unfold pub_two in Hk. rewrite !pconns_set in Hk. unfold pubsub_accept, ps0 in Hk. cbn [pconns] in Hk.
    apply lookup_insert_Some in Hk as [[_ <-]|[_ Hk]]; [apply buf_create_wf|by rewrite lookup_empty in Hk].
  - assert (Ha : acl_channel_check (user_of 1 pub_two) (bs "news") false = Allowed) by (vm_compute; reflexivity). rewrite Ha in H. destruct H as [_ H].
    assert (Hrun : bool_decide (is_Some (do_publish base.elements map_to_list (bs "news") (bs "hi") 1 pub_two)) = true) by (vm_compute; reflexivity).
    destruct (do_publish base.elements map_to_list (bs "news") (bs "hi") 1 pub_two) as [s'|]; [|by apply bool_decide_eq_true, is_Some_None in Hrun].
    exists s'. split; [reflexivity|]. destruct (H s' eq_refl) as (H1 & H2 & _). exact (conj H1 H2).
Defined.
