(* ===== verification/ThreadPool.v ===== *)
(** * The thread pool (src/src/server/thread_pool.cpp)

    Workers around one queue, one mutex and one condition variable; the event
    loop's thread is the only one that queues work and that shuts the pool
    down.  The steps are those a scheduler can interleave: one per lock,
    test, wait, signal and unlock.  A condition variable may wake a thread for
    no reason, and a signal wakes some waiting thread, not a chosen one. *)
From S2P Require Import Prelude.

Section Pool.
(** A [Work]: a function and its argument. *)
Context {W : Type}.

(** Where a worker stands in its loop. *)
Inductive WPC :=
  | WTop                (* about to lock *)
  | WTest               (* holds the mutex, at the test of the waiting loop *)
  | WSleep              (* in pthread_cond_wait, the mutex released *)
  | WWoken              (* woken, about to take the mutex back *)
  | WGot (w : W)        (* holds the mutex, the job taken off the queue *)
  | WRun (w : W)        (* running the job *)
  | WQuit               (* holds the mutex, about to return *)
  | WDone.

(** Where the event loop's thread stands in [thread_pool_queue] or
    [thread_pool_destroy]. *)
Inductive MPC :=
  | MIdle
  | MPush (w : W) | MSignal | MUnlock
  | MStop | MBroadcast | MRelease
  | MJoin (i : nat) | MGone.

Inductive Tid := MainT | WorkerT (i : nat).

(** [queued], [started] and [finished] are history: the jobs queued, taken
    and returned from, in the order that happened. *)
Record Pool := mkPool {
  pqueue : list W; pstop : bool; pmu : option Tid; workers : list WPC; pmain : MPC;
  queued : list W; started : list W; finished : list W }.

Definition go (i : nat) (pc : WPC) (mu : option Tid) (s : Pool) : Pool :=
  mkPool (pqueue s) (pstop s) mu (<[i := pc]> (workers s)) (pmain s) (queued s) (started s) (finished s).
Definition mgo (pc : MPC) (mu : option Tid) (s : Pool) : Pool :=
  mkPool (pqueue s) (pstop s) mu (workers s) pc (queued s) (started s) (finished s).

(** [queue.front(); queue.pop_front();] *)
Definition take (i : nat) (w : W) (q : list W) (s : Pool) : Pool :=
  mkPool q (pstop s) (pmu s) (<[i := WGot w]> (workers s)) (pmain s) (queued s) (started s ++ [w]) (finished s).
Definition ran (i : nat) (w : W) (s : Pool) : Pool :=
  mkPool (pqueue s) (pstop s) (pmu s) (<[i := WTop]> (workers s)) (pmain s) (queued s) (started s) (finished s ++ [w]).
Definition push (w : W) (s : Pool) : Pool :=
  mkPool (pqueue s ++ [w]) (pstop s) (pmu s) (workers s) MSignal (queued s ++ [w]) (started s) (finished s).
Definition wake_one (i : nat) (s : Pool) : Pool :=
  mkPool (pqueue s) (pstop s) (pmu s) (<[i := WWoken]> (workers s)) MUnlock (queued s) (started s) (finished s).
Definition wake (pc : WPC) : WPC := match pc with WSleep => WWoken | _ => pc end.
Definition wake_all (s : Pool) : Pool :=
  mkPool (pqueue s) (pstop s) (pmu s) (wake <$> workers s) MRelease (queued s) (started s) (finished s).
Definition set_stop (s : Pool) : Pool :=
  mkPool (pqueue s) true (pmu s) (workers s) MBroadcast (queued s) (started s) (finished s).

(** [thread_pool_init] *)
Definition thread_pool_init (num_threads : nat) : Pool := mkPool [] false None (replicate num_threads WTop) MIdle [] [] [].

(** The steps of [worker]. *)
Inductive worker_step (s : Pool) : Pool -> Prop :=
  | W_lock i : workers s !! i = Some WTop -> pmu s = None -> worker_step s (go i WTest (Some (WorkerT i)) s)
  | W_relock i : workers s !! i = Some WWoken -> pmu s = None -> worker_step s (go i WTest (Some (WorkerT i)) s)
  | W_wait i : workers s !! i = Some WTest -> pqueue s = [] -> pstop s = false -> worker_step s (go i WSleep None s)
  | W_leave i : workers s !! i = Some WTest -> pqueue s = [] -> pstop s = true -> worker_step s (go i WQuit (pmu s) s)
  | W_take i w q : workers s !! i = Some WTest -> pqueue s = w :: q -> worker_step s (take i w q s)
  | W_unlock i w : workers s !! i = Some (WGot w) -> worker_step s (go i (WRun w) None s)
  | W_ran i w : workers s !! i = Some (WRun w) -> worker_step s (ran i w s)
  | W_quit i : workers s !! i = Some WQuit -> worker_step s (go i WDone None s)
  | W_spurious i : workers s !! i = Some WSleep -> worker_step s (go i WWoken (pmu s) s).

(** The steps of [thread_pool_queue]. *)
Inductive queue_step (s : Pool) : Pool -> Prop :=
  | Q_lock w : pmain s = MIdle -> pmu s = None -> queue_step s (mgo (MPush w) (Some MainT) s)
  | Q_push w : pmain s = MPush w -> queue_step s (push w s)
  | Q_signal i : pmain s = MSignal -> workers s !! i = Some WSleep -> queue_step s (wake_one i s)
  | Q_signal_none : pmain s = MSignal -> WSleep ∉ workers s -> queue_step s (mgo MUnlock (pmu s) s)
  | Q_unlock : pmain s = MUnlock -> queue_step s (mgo MIdle None s).

(** The steps of [thread_pool_destroy]. *)
Inductive destroy_step (s : Pool) : Pool -> Prop :=
  | D_lock : pmain s = MIdle -> pmu s = None -> destroy_step s (mgo MStop (Some MainT) s)
  | D_stop : pmain s = MStop -> destroy_step s (set_stop s)
  | D_broadcast : pmain s = MBroadcast -> destroy_step s (wake_all s)
  | D_unlock : pmain s = MRelease -> destroy_step s (mgo (MJoin 0) None s)
  | D_join i : pmain s = MJoin i -> workers s !! i = Some WDone -> destroy_step s (mgo (MJoin (S i)) (pmu s) s)
  | D_end : pmain s = MJoin (length (workers s)) -> destroy_step s (mgo MGone (pmu s) s).

Definition pool_step (s s' : Pool) : Prop := worker_step s s' \/ queue_step s s' \/ destroy_step s s'.

(** ** Counting workers *)

Definition tally (f : WPC -> nat) (l : list WPC) : nat := sum_list_with f l.

Lemma tally_set f l i a b : l !! i = Some a -> (tally f (<[i := b]> l) + f a = tally f l + f b)%nat.
Proof.
  unfold tally. revert i. induction l as [|x l IH]; intros [|i] H; [done|done|injection H as ->; cbn; lia|].
  specialize (IH i H). change (<[S i := b]> (x :: l)) with (x :: <[i := b]> l). cbn [sum_list_with]. lia.
Qed.

Lemma tally_zero f l : tally f l = 0%nat <-> forall i a, l !! i = Some a -> f a = 0%nat.
Proof.
  unfold tally. induction l as [|x l IH]; cbn; [split; [intros _ i a H; by rewrite lookup_nil in H|done]|]. split.
  - intros H [|i] a Ha; cbn in Ha; [injection Ha as ->; lia|]. apply (proj1 IH) with i; [lia|done].
  - intros H. rewrite (H 0%nat x eq_refl). apply IH. intros i a Ha. by apply (H (S i)).
Qed.

Lemma tally_pos f l : (0 < tally f l)%nat -> exists i a, l !! i = Some a /\ (0 < f a)%nat.
Proof.
  unfold tally. induction l as [|x l IH]; cbn; [lia|]. intros H. destruct (decide (f x = 0%nat)) as [E|E].
  - destruct IH as (i & a & Hi & Ha); [lia|]. by exists (S i), a.
  - exists 0%nat, x. split; [done|lia].
Qed.

Definition jobs (pc : WPC) : list W := match pc with WGot w | WRun w => [w] | _ => [] end.
Definition running (l : list WPC) : list W := concat (jobs <$> l).

Lemma running_set l i a b : l !! i = Some a -> running (<[i := b]> l) ++ jobs a ≡ₚ running l ++ jobs b.
Proof.
  unfold running. revert i. induction l as [|x l IH]; intros [|i] H; try done; cbn in *.
  - injection H as ->. rewrite <- !app_assoc. rewrite (Permutation_app_comm (concat _) (jobs a)). solve_Permutation.
  - rewrite <- !app_assoc. by rewrite (IH i H).
Qed.

Definition holds (pc : WPC) : bool := match pc with WTest | WGot _ | WQuit => true | _ => false end.
Definition mholds (pc : MPC) : bool := match pc with MPush _ | MSignal | MUnlock | MStop | MBroadcast | MRelease => true | _ => false end.
Definition stopping (pc : MPC) : bool := match pc with MBroadcast | MRelease | MJoin _ | MGone => true | _ => false end.
Definition sleeps (pc : WPC) : nat := match pc with WSleep => 1 | _ => 0 end.
(** On the way to the test of the waiting loop, without a job. *)
Definition seeks (pc : WPC) : nat := match pc with WTop | WTest | WWoken => 1 | _ => 0 end.
Definition leaves (pc : WPC) : bool := match pc with WQuit | WDone => true | _ => false end.
End Pool.
Arguments WPC : clear implicits.
Arguments MPC : clear implicits.
Arguments Pool : clear implicits.

(** ** The invariant *)

Section Inv.
Context {W : Type}.
Implicit Types s : Pool W.

Inductive reachable (n : nat) : Pool W -> Prop :=
  | reach_init : reachable n (thread_pool_init n)
  | reach_step s s' : reachable n s -> pool_step s s' -> reachable n s'.

Record pool_ok (n : nat) (s : Pool W) : Prop := {
  ok_size : length (workers s) = n;
  ok_worker : forall i, pmu s = Some (WorkerT i) <-> exists pc, workers s !! i = Some pc /\ holds pc = true;
  ok_main : pmu s = Some MainT <-> mholds (pmain s) = true;
  ok_fifo : started s ++ pqueue s = queued s;
  ok_jobs : started s ≡ₚ finished s ++ running (workers s);
  ok_wake : pstop s = false -> (0 < tally sleeps (workers s))%nat ->
    (length (pqueue s) <= tally seeks (workers s) + match pmain s with MSignal => 1 | _ => 0 end)%nat;
  ok_stop : pstop s = stopping (pmain s);
  ok_leave : forall i pc, workers s !! i = Some pc -> leaves pc = true -> pstop s = true /\ pqueue s = [];
  ok_awake : pstop s = true -> pmain s <> MBroadcast -> tally sleeps (workers s) = 0%nat;
  ok_join : forall i, pmain s = MJoin i -> (i <= n)%nat /\ forall j, (j < i)%nat -> workers s !! j = Some WDone;
  ok_gone : pmain s = MGone -> forall j, (j < n)%nat -> workers s !! j = Some WDone;
}.

Lemma lookup_set (l : list (WPC W)) i a b j pc : l !! i = Some a -> <[i := b]> l !! j = Some pc -> (j = i /\ pc = b) \/ (j <> i /\ l !! j = Some pc).
Proof.
  intros Ha H. apply lookup_lt_Some in Ha. destruct (decide (j = i)) as [->|Hne].
  - rewrite list_lookup_insert_eq in H by done. left. split; congruence.
  - rewrite list_lookup_insert_ne in H by done. by right.
Qed.

Lemma set_self (l : list (WPC W)) i a b : l !! i = Some a -> <[i := b]> l !! i = Some b.
Proof. intros H. apply list_lookup_insert_eq. by apply lookup_lt_Some in H. Qed.

(** One worker moves and the mutex goes to [mu]: who holds it is still right. *)
Lemma owner_moves n s i a b mu : pool_ok n s -> workers s !! i = Some a ->
  (holds a = true /\ mu = (if holds b then pmu s else None) \/ holds a = false /\ if holds b then pmu s = None /\ mu = Some (WorkerT i) else mu = pmu s) ->
  (forall j, mu = Some (WorkerT j) <-> exists pc, <[i := b]> (workers s) !! j = Some pc /\ holds pc = true) /\
  (mu = Some MainT <-> mholds (pmain s) = true).
Proof.
  intros Hok Ha Hmu. destruct Hok as [_ Hw Hm _ _ _ _ _ _ _ _].
  assert (Hown : forall j pc, workers s !! j = Some pc -> holds pc = true -> pmu s = Some (WorkerT j)) by (intros j pc ??; apply Hw; by exists pc).
  assert (Hset : forall j, (exists pc, <[i := b]> (workers s) !! j = Some pc /\ holds pc = true) <->
    (j = i /\ holds b = true) \/ (j <> i /\ exists pc, workers s !! j = Some pc /\ holds pc = true)).
  { intros j. split.
    - intros (pc & H1 & H2). destruct (lookup_set _ _ _ _ _ _ Ha H1) as [[-> ->]|[Hne Hj]]; [by left|right; split; [done|by exists pc]].
    - intros [[-> Hb]|(Hne & pc & H1 & H2)]; [exists b; split; [by eapply set_self|done]|exists pc; by rewrite list_lookup_insert_ne]. }
  destruct Hmu as [[Hh ->]|[Hh Hmu]].
  - pose proof (Hown i a Ha Hh) as Hi. split.
    + intros j. rewrite Hset. destruct (holds b).
      * rewrite Hi. split; [intros [= <-]; by left|]. intros [[-> _]|(Hne & pc & H1 & H2)]; [done|]. rewrite <- Hi. by apply (Hown j pc).
      * split; [done|]. intros [[_ H]|(Hne & pc & H1 & H2)]; [done|]. pose proof (Hown j pc H1 H2). congruence.
    + destruct (holds b); [by rewrite Hm|]. split; [done|]. intros H. apply Hm in H. congruence.
  - destruct (holds b) eqn:Hb.
    + destruct Hmu as [Hn ->]. split.
      * intros j. rewrite Hset. split; [intros [= <-]; by left|]. intros [[-> _]|(Hne & pc & H1 & H2)]; [done|]. pose proof (Hown j pc H1 H2). congruence.
      * split; [done|]. intros H. apply Hm in H. congruence.
    + subst mu. split; [|done]. intros j. rewrite Hset, Hw. split.
      * intros (pc & H1 & H2). destruct (decide (j = i)) as [->|Hne]; [congruence|]. right. split; [done|by exists pc].
      * intros [[_ H]|(Hne & pc & H1 & H2)]; [done|by exists pc].
Qed.

(** One worker moves from [a] to [b]; queue and histories as given. *)
Lemma worker_moves n s i a b mu q st fin : pool_ok n s -> workers s !! i = Some a ->
  (holds a = true /\ mu = (if holds b then pmu s else None) \/ holds a = false /\ if holds b then pmu s = None /\ mu = Some (WorkerT i) else mu = pmu s) ->
  st ++ q = queued s -> st ++ jobs a ++ finished s ≡ₚ started s ++ jobs b ++ fin ->
  (pstop s = false -> (0 < sleeps b)%nat -> q = []) ->
  (length q + seeks a <= length (pqueue s) + seeks b)%nat \/ q = [] ->
  (pqueue s = [] -> q = []) ->
  (leaves b = true -> pstop s = true /\ q = []) ->
  (pstop s = true -> sleeps b = 0%nat) -> a <> WDone ->
  pool_ok n (mkPool q (pstop s) mu (<[i := b]> (workers s)) (pmain s) (queued s) st fin).
Proof.
  intros Hok Ha Hmu Hq Hj Hslp Hseek Hempty Hlv Hst Hnd. destruct (owner_moves n s i a b mu Hok Ha Hmu) as [O1 O2].
  pose proof (tally_set sleeps _ _ _ b Ha) as Ts. pose proof (tally_set seeks _ _ _ b Ha) as Tk.
  destruct Hok as [H1 H2 H3 H4 H5 H6 H7 H8 H9 H10 H11]. split; cbn [pqueue pstop pmu workers pmain queued started finished]; try done.
  - by rewrite length_insert.
  - pose proof (running_set _ _ _ b Ha) as R. apply (Permutation_app_inv_r (jobs a)).
    rewrite <- app_assoc, R. apply (Permutation_app_inv_r (finished s)). rewrite <- app_assoc, Hj, H5. clear. solve_Permutation.
  - intros Hs Hpos. destruct Hseek as [Hseek| ->]; [|cbn; lia]. destruct (decide (sleeps b = 0%nat)) as [E|E].
    + specialize (H6 Hs ltac:(lia)). lia.
    + rewrite (Hslp Hs) by lia. cbn. lia.
  - intros j pc Hpc Hl. destruct (lookup_set _ _ _ _ _ _ Ha Hpc) as [[-> ->]|[Hne Hpc']]; [by apply Hlv|]. destruct (H8 j pc Hpc' Hl) as [? ?]. by split; [|apply Hempty].
  - intros Hs Hm. specialize (H9 Hs Hm). specialize (Hst Hs). lia.
  - intros k Hk. destruct (H10 k Hk) as [J1 J2]. split; [done|]. intros j Hjk. specialize (J2 j Hjk).
    rewrite list_lookup_insert_ne; [done|]. intros <-. congruence.
  - intros Hg j Hjn. specialize (H11 Hg j Hjn). rewrite list_lookup_insert_ne; [done|]. intros <-. congruence.
Qed.

Lemma worker_step_ok n s s' : pool_ok n s -> worker_step s s' -> pool_ok n s'.
Proof.
  intros Hok Hstep.
  assert (Hhold : forall i pc, workers s !! i = Some pc -> holds pc = true -> pmu s = Some (WorkerT i)) by (intros i pc ??; apply (ok_worker _ _ Hok); by exists pc).
  destruct Hstep as [i Hi Hm|i Hi Hm|i Hi Hq Hs|i Hi Hq Hs|i w q Hi Hq|i w Hi|i w Hi|i Hi|i Hi].
  all: eapply worker_moves; [exact Hok|exact Hi|cbn; auto|..]; cbn [jobs sleeps seeks leaves]; try done; try (by apply (ok_fifo _ _ Hok)); try lia; try (by intros; split).
  all: try (by rewrite Permutation_app_comm); try (clear; solve_Permutation).
  all: try (by right).
  - congruence.
  - rewrite <- app_assoc. cbn. rewrite <- Hq. apply (ok_fifo _ _ Hok).
  - left. rewrite Hq. cbn. lia.
  - congruence.
  - intros _. by apply (ok_leave _ _ Hok i WQuit).
Qed.

(** The main thread moves, the workers stay. *)
Lemma main_moves n s q pc mu qd : pool_ok n s -> stopping pc = pstop s ->
  (forall j, mu = Some (WorkerT j) <-> pmu s = Some (WorkerT j)) -> (mu = Some MainT <-> mholds pc = true) ->
  started s ++ q = qd ->
  (pstop s = false -> (0 < tally sleeps (workers s))%nat -> (length q <= tally seeks (workers s) + match pc with MSignal => 1 | _ => 0 end)%nat) ->
  (pstop s = true -> q = pqueue s) -> (pmain s = MBroadcast -> pc = MBroadcast) ->
  (forall i, pc = MJoin i -> (i <= n)%nat /\ forall j, (j < i)%nat -> workers s !! j = Some WDone) ->
  (pc = MGone -> forall j, (j < n)%nat -> workers s !! j = Some WDone) ->
  pool_ok n (mkPool q (pstop s) mu (workers s) pc qd (started s) (finished s)).
Proof.
  intros [H1 H2 H3 H4 H5 H6 H7 H8 H9 H10 H11] Hs Hw Hm Hf Hq He Hb Hj Hg. split; cbn [pqueue pstop pmu workers pmain queued started finished]; try done.
  - intros i. by rewrite Hw, H2.
  - intros i p Hp Hl. destruct (H8 i p Hp Hl) as [E1 E2]. split; [done|]. by rewrite He.
  - intros Hstop Hne. apply H9; [done|]. intros E. by apply Hne, Hb.
Qed.

Lemma queue_step_ok n s s' : pool_ok n s -> queue_step s s' -> pool_ok n s'.
Proof.
  intros Hok Hstep.
  assert (Hstop : forall pc, pmain s = pc -> stopping pc = pstop s) by (intros pc <-; symmetry; apply (ok_stop _ _ Hok)).
  assert (Hmain : mholds (pmain s) = true -> pmu s = Some MainT) by apply (ok_main _ _ Hok).
  pose proof (ok_fifo _ _ Hok) as Hf. pose proof (ok_wake _ _ Hok) as Hw.
  destruct Hstep as [w Hm Hmu|w Hm|i Hm Hi|Hm Hno|Hm]; rewrite Hm in Hmain, Hw; pose proof (Hstop _ Hm) as Hst; cbn in Hst.
  - apply main_moves; try done; try congruence. intros j; by rewrite Hmu.
  - specialize (Hmain eq_refl). apply main_moves; try done; try congruence. 
    + by rewrite app_assoc, Hf. 
    + intros ? Hp. specialize (Hw ltac:(done) Hp). rewrite length_app. cbn. lia.
  - specialize (Hmain eq_refl). assert (Hok' : pool_ok n (go i WWoken (pmu s) s)) by (apply worker_step_ok with s; [done|by constructor]).
    pose proof (main_moves n _ (pqueue s) MUnlock (pmu s) (queued s) Hok') as M. cbn [go pstop pmu workers pmain started finished pqueue] in M.
    apply M; try done; try congruence. intros Hs _. pose proof (tally_set seeks _ _ _ WWoken Hi) as T. cbn in T. pose proof (tally_set sleeps _ _ _ WWoken Hi) as T'. cbn in T'.
    specialize (Hw Hs ltac:(lia)). lia.
  - specialize (Hmain eq_refl). apply main_moves; try done; try congruence. intros _ Hp. exfalso.
    apply tally_pos in Hp as (j & pc & Hj & Hp). destruct pc; cbn in Hp; try lia. destruct Hno. by apply list_elem_of_lookup_2 in Hj.
  - specialize (Hmain eq_refl). apply main_moves; try done; try congruence; by rewrite Hmain.
Qed.

Lemma sleeps_wake (l : list (WPC W)) : tally sleeps (wake <$> l) = 0%nat.
Proof. apply tally_zero. intros i a Ha. apply list_lookup_fmap_Some in Ha as (x & -> & _). by destruct x. Qed.

Lemma running_wake (l : list (WPC W)) : running (wake <$> l) = running l.
Proof. unfold running. rewrite <- list_fmap_compose. f_equal. apply list_fmap_ext. intros i [] _; reflexivity. Qed.

Lemma destroy_step_ok n s s' : pool_ok n s -> destroy_step s s' -> pool_ok n s'.
Proof.
  intros Hok Hstep.
  assert (Hstop : forall pc, pmain s = pc -> stopping pc = pstop s) by (intros pc <-; symmetry; apply (ok_stop _ _ Hok)).
  assert (Hmain : mholds (pmain s) = true -> pmu s = Some MainT) by apply (ok_main _ _ Hok).
  assert (Hmain' : pmu s = Some MainT -> mholds (pmain s) = true) by apply (ok_main _ _ Hok).
  pose proof (ok_fifo _ _ Hok) as Hf. pose proof (ok_wake _ _ Hok) as Hw.
  destruct Hstep as [Hm Hmu|Hm|Hm|Hm|i Hm Hi|Hm]; rewrite Hm in Hmain, Hmain', Hw; pose proof (Hstop _ Hm) as Hst; cbn in Hst.
  - apply main_moves; try done; try congruence. intros j; by rewrite Hmu.
  - destruct Hok as [H1 H2 H3 H4 H5 H6 H7 H8 H9 H10 H11]. split; cbn [set_stop pqueue pstop pmu workers pmain queued started finished]; try done.
    intros i pc Hi Hl. destruct (H8 i pc Hi Hl); congruence.
  - destruct Hok as [H1 H2 H3 H4 H5 H6 H7 H8 H9 H10 H11]. split; cbn [wake_all pqueue pstop pmu workers pmain queued started finished]; try done; try congruence.
    + by rewrite length_fmap.
    + intros i. rewrite H2. setoid_rewrite list_lookup_fmap. split.
      * intros (pc & Hi & Hh). exists pc. rewrite Hi. split; [by destruct pc|done].
      * intros (pc & Hi & Hh). destruct (workers s !! i) as [p|]; [|done]. exists p. cbn in Hi. injection Hi as <-. split; [done|]. by destruct p.
    + by rewrite running_wake.
    + intros i pc Hi Hl. apply list_lookup_fmap_Some in Hi as (p & -> & Hi). apply (H8 i p Hi). by destruct p.
    + intros _ _. apply sleeps_wake.
  - specialize (Hmain eq_refl). apply main_moves; try done; try congruence; [by rewrite Hmain|]. intros i [= <-]. split; [lia|]. intros j Hj. lia.
  - apply main_moves; try done; try congruence. intros k [= <-]. destruct (ok_join _ _ Hok i Hm) as [J1 J2].
    apply lookup_lt_Some in Hi as Hlt. rewrite (ok_size _ _ Hok) in Hlt. split; [lia|]. intros j Hj. destruct (decide (j = i)) as [->|]; [done|]. apply J2. lia.
  - destruct (ok_join _ _ Hok _ Hm) as [J1 J2]. apply main_moves; try done; try congruence. intros _ j Hj. apply J2. by rewrite (ok_size _ _ Hok).
Qed.

Lemma pool_init_ok n : pool_ok n (thread_pool_init n).
Proof.
  assert (Hr : forall i pc, replicate n (@WTop W) !! i = Some pc -> pc = WTop) by (intros i pc H; by apply lookup_replicate in H as [-> _]).
  assert (Hrun : running (replicate n (@WTop W)) = []) by (clear; induction n as [|n IH]; [done|exact IH]).
  split; cbn [thread_pool_init pqueue pstop pmu workers pmain queued started finished]; try done; try (by intros ? pc H%Hr; subst pc).
  - by rewrite length_replicate.
  - intros i. split; [done|]. intros (pc & H%Hr & Hh). by subst pc.
  - by rewrite Hrun.
  - cbn. lia.
Qed.

Lemma reachable_ok n s : reachable n s -> pool_ok n s.
Proof.
  induction 1 as [|s s' _ IH [H|[H|H]]]; [apply pool_init_ok|by eapply worker_step_ok|by eapply queue_step_ok|by eapply destroy_step_ok].
Qed.

(** ** Progress *)

(** Whoever holds the mutex can go on. *)
Lemma holder_steps n s i : pool_ok n s -> pmu s = Some (WorkerT i) -> exists s', worker_step s s'.
Proof.
  intros Hok (pc & Hi & Hh)%(ok_worker _ _ Hok). destruct pc as [| | | |w|w| |]; try done.
  - destruct (pqueue s) as [|w q] eqn:Eq; [destruct (pstop s) eqn:Es|]; eexists; [by eapply W_leave|by eapply W_wait|by eapply W_take].
  - eexists. by eapply W_unlock.
  - eexists. by eapply W_quit.
Qed.

(** With the mutex free, a worker that neither sleeps nor is done can go on. *)
Lemma awake_steps s i pc : pmu s = None -> workers s !! i = Some pc -> holds pc = false -> pc <> WSleep -> pc <> WDone -> exists s', worker_step s s'.
Proof.
  intros Hmu Hi Hh Hs Hd. destruct pc as [| | | |w|w| |]; try done; eexists; [by eapply W_lock|by eapply W_relock|by eapply W_ran].
Qed.

(** The main thread inside the mutex can go on. *)
Lemma main_steps s : mholds (pmain s) = true -> exists s', (queue_step s s' \/ destroy_step s s') /\ pmain s <> MIdle.
Proof.
  destruct (pmain s) as [|w| | | | | |i|] eqn:E; try done; intros _.
  - eexists. split; [left; by eapply Q_push|done].
  - destruct (decide (0 < tally sleeps (workers s))%nat) as [Hp|Hz].
    + apply tally_pos in Hp as (j & pc & Hj & Hp). destruct pc; cbn in Hp; try lia. eexists. split; [left; by eapply Q_signal|done].
    + eexists. split; [left; apply Q_signal_none; [done|]|done]. intros Hin. apply list_elem_of_lookup in Hin as [j Hj].
      assert (Hall : tally sleeps (workers s) = 0%nat) by lia. rewrite tally_zero in Hall. by specialize (Hall j _ Hj).
  - eexists. split; [left; by eapply Q_unlock|done].
  - eexists. split; [right; by eapply D_stop|done].
  - eexists. split; [right; by eapply D_broadcast|done].
  - eexists. split; [right; by eapply D_unlock|done].
Qed.

Lemma worker_step_main s s' : worker_step s s' -> pmain s' = pmain s.
Proof. by destruct 1. Qed.

(** Steps left once the pool is being stopped. *)
Definition wcost (pc : WPC W) : nat := match pc with WTop | WWoken => 3 | WTest => 2 | WSleep => 4 | WGot _ => 5 | WRun _ => 4 | WQuit => 1 | WDone => 0 end.
Definition mcost (n : nat) (pc : MPC W) : nat := match pc with MBroadcast => n + 3 | MRelease => n + 2 | MJoin i => n + 1 - i | _ => 0 end.
Definition pool_measure (s : Pool W) : nat := 4 * length (pqueue s) + tally wcost (workers s) + mcost (length (workers s)) (pmain s).

Lemma wcost_wake (l : list (WPC W)) : (tally wcost (wake <$> l) <= tally wcost l)%nat.
Proof. induction l as [|x l IH]; [done|]. cbn. unfold tally in IH. destruct x; cbn; lia. Qed.

Lemma measure_decreases n s s' : pool_ok n s -> pstop s = true -> pool_step s s' ->
  (pool_measure s' < pool_measure s)%nat /\ pstop s' = true /\ queued s' = queued s.
Proof.
  intros Hok Hstop Hstep. pose proof (ok_stop _ _ Hok) as Hst. rewrite Hstop in Hst.
  destruct Hstep as [H|[H|H]].
  - destruct H as [i Hi Hm|i Hi Hm|i Hi Hq Hs|i Hi Hq Hs|i w q Hi Hq|i w Hi|i w Hi|i Hi|i Hi]; unfold pool_measure; cbn [go take ran pqueue pstop workers pmain queued]; rewrite length_insert.
    all: try congruence.
    all: match goal with Hj : workers _ !! ?j = Some _ |- context [<[?j := ?b]> _] => pose proof (tally_set wcost _ _ _ b Hj) as T; cbn [wcost] in T end.
    all: rewrite ?Hq; cbn [length]; split; [lia|done].
  - destruct H as [w Hm|w Hm|i Hm|Hm|Hm]; rewrite Hm in Hst; done.
  - destruct H as [Hm|Hm|Hm|Hm|i Hm Hi|Hm]; rewrite Hm in Hst; try done; unfold pool_measure; cbn [mgo wake_all pqueue pstop workers pmain queued]; rewrite Hm.
    + rewrite length_fmap. cbn [mcost]. pose proof (wcost_wake (workers s)). split; [lia|done].
    + cbn [mcost]. split; [lia|done].
    + apply lookup_lt_Some in Hi. cbn [mcost]. split; [lia|done].
    + cbn [mcost]. split; [lia|done].
Qed.

Lemma stopping_steps n s : pool_ok n s -> pstop s = true -> pmain s <> MGone -> exists s', pool_step s s'.
Proof.
  intros Hok Hstop Hg. destruct (pmu s) as [[|i]|] eqn:Emu.
  - destruct (main_steps s) as (s' & Hs & _); [by apply (ok_main _ _ Hok)|]. exists s'. destruct Hs; unfold pool_step; auto.
  - destruct (holder_steps n s i Hok Emu) as [s' Hs]. exists s'. by left.
  - pose proof (ok_stop _ _ Hok) as Hst. rewrite Hstop in Hst.
    assert (Hnm : mholds (pmain s) = false) by (destruct (mholds (pmain s)) eqn:E; [apply (ok_main _ _ Hok) in E; congruence|done]).
    destruct (pmain s) as [|w| | | | | |i|] eqn:Em; try done.
    destruct (ok_join _ _ Hok i Em) as [J1 J2]. destruct (decide (i = n)) as [->|Hne].
    + eexists. right. right. apply D_end. by rewrite (ok_size _ _ Hok).
    + destruct (lookup_lt_is_Some_2 (workers s) i) as [pc Hi]; [rewrite (ok_size _ _ Hok); lia|].
      destruct (decide (wcost pc = 0%nat)) as [E|E].
      * eexists. right. right. eapply D_join; [done|]. destruct pc; cbn in E; try lia. done.
      * assert (Hs : sleeps pc = 0%nat) by (pose proof (ok_awake _ _ Hok Hstop ltac:(congruence)) as Z; rewrite tally_zero in Z; by apply (Z i)).
        destruct (awake_steps s i pc) as [s' Hs']; try done; [|by intros ->|by intros ->|by exists s'; left].
        destruct (holds pc) eqn:Eh; [|done]. assert (pmu s = Some (WorkerT i)) by (apply (ok_worker _ _ Hok); by exists pc). congruence.
Qed.

(** While work is left some thread can move, without a new call. *)
Lemma work_steps n s : pool_ok n s -> (0 < n)%nat -> pqueue s <> [] \/ running (workers s) <> [] ->
  exists s', pool_step s s' /\ (pmain s = MIdle -> pmain s' = MIdle).
Proof.
  intros Hok Hn Hwork. destruct (pmu s) as [[|i]|] eqn:Emu.
  - destruct (main_steps s) as (s' & Hs & Hi); [by apply (ok_main _ _ Hok)|]. exists s'. split; [destruct Hs; unfold pool_step; auto|done].
  - destruct (holder_steps n s i Hok Emu) as [s' Hs]. exists s'. split; [by left|]. by rewrite (worker_step_main _ _ Hs).
  - set (idle := fun pc : WPC W => match pc with WSleep | WDone => 0%nat | _ => 1%nat end).
    destruct (decide (0 < tally idle (workers s))%nat) as [Hp|Hz].
    + apply tally_pos in Hp as (i & pc & Hi & Hp). destruct (awake_steps s i pc) as [s' Hs]; [done|done| |intros ->; cbn in Hp; lia|intros ->; cbn in Hp; lia|].
      * destruct (holds pc) eqn:Eh; [|done]. assert (pmu s = Some (WorkerT i)) by (apply (ok_worker _ _ Hok); by exists pc). congruence.
      * exists s'. split; [by left|]. by rewrite (worker_step_main _ _ Hs).
    + exfalso. assert (Hall : tally idle (workers s) = 0%nat) by lia. rewrite tally_zero in Hall.
      assert (Hrun : running (workers s) = []).
      { unfold running. apply concat_nil_Forall, Forall_fmap, Forall_lookup_2. intros i pc Hi. specialize (Hall i pc Hi). by destruct pc. }
      destruct Hwork as [Hq|]; [|done].
      destruct (lookup_lt_is_Some_2 (workers s) 0) as [pc Hpc]; [rewrite (ok_size _ _ Hok); lia|].
      assert (Hsl : (0 < tally sleeps (workers s))%nat).
      { pose proof (Hall _ _ Hpc) as Hi. pose proof (ok_leave _ _ Hok 0 pc Hpc) as Hl.
        destruct pc; cbn in Hi, Hl; try lia; [|by destruct (Hl eq_refl)].
        destruct (decide (tally sleeps (workers s) = 0%nat)) as [Z|]; [|lia]. rewrite tally_zero in Z. by specialize (Z _ _ Hpc). }
      assert (Hseek : tally seeks (workers s) = 0%nat) by (apply tally_zero; intros i p Hi; specialize (Hall i p Hi); by destruct p).
      assert (Hnm : mholds (pmain s) = false) by (destruct (mholds (pmain s)) eqn:E; [apply (ok_main _ _ Hok) in E; congruence|done]).
      destruct (pstop s) eqn:Es.
      * rewrite (ok_awake _ _ Hok Es) in Hsl; [lia|]. intros E. by rewrite E in Hnm.
      * pose proof (ok_wake _ _ Hok Es Hsl) as L. rewrite Hseek in L. destruct (pqueue s); [done|]. destruct (pmain s); cbn in L, Hnm; lia || done.
Qed.
End Inv.

(** ** Claims *)

(** C26: The pool loses no work, takes nothing twice and leaves no job behind
    a sleeping worker.  Whatever the interleaving, at most one thread is
    inside the mutex; the jobs taken are the jobs queued, in that order, each
    once; a job taken is being run by one worker or was run; and while the
    pool is up, if any worker sleeps then every job still waiting has a worker
    of its own on its way to the queue (but for the one job just pushed and
    not yet signalled).  While a job is unfinished some thread can move. *)
Theorem pool_jobs_exact {W : Type} (n : nat) (s : Pool W) (Hn : (0 < n)%nat) (Hr : reachable n s) :
  (forall i j pc pc', workers s !! i = Some pc -> workers s !! j = Some pc' -> holds pc = true -> holds pc' = true -> i = j) /\
  (forall i pc, mholds (pmain s) = true -> workers s !! i = Some pc -> holds pc = false) /\
  started s ++ pqueue s = queued s /\
  started s ≡ₚ finished s ++ running (workers s) /\
  (pstop s = false -> WSleep ∈ workers s ->
    (length (pqueue s) <= tally seeks (workers s) + match pmain s with MSignal => 1 | _ => 0 end)%nat) /\
  (pqueue s <> [] \/ running (workers s) <> [] -> exists s', pool_step s s' /\ (pmain s = MIdle -> pmain s' = MIdle)).
Proof.
  pose proof (reachable_ok n s Hr) as Hok. pose proof (work_steps n s Hok Hn) as Hgo. destruct Hok as [H1 H2 H3 H4 H5 H6 H7 H8 H9 H10 H11]. split; [|split; [|split; [done|split; [done|split; [|exact Hgo]]]]].
  - intros i j pc pc' Hi Hj Hh Hh'. assert (pmu s = Some (WorkerT i)) by (apply H2; by exists pc). assert (pmu s = Some (WorkerT j)) by (apply H2; by exists pc'). congruence.
  - intros i pc Hm Hi. destruct (holds pc) eqn:E; [|done]. assert (pmu s = Some (WorkerT i)) by (apply H2; by exists pc). apply H3 in Hm. congruence.
  - intros Hs Hin. apply H6; [done|]. apply list_elem_of_lookup in Hin as [j Hj].
    destruct (decide (tally sleeps (workers s) = 0%nat)) as [Z|]; [|lia]. rewrite tally_zero in Z. by specialize (Z j _ Hj).
Qed.

(** C27: [thread_pool_destroy] drains the queue and returns.  Once the stop
    flag is set, however the threads are scheduled, only a bounded number of
    steps is left, and the pool can always take one until the call has
    returned; then every worker has exited, the queue is empty and every job
    ever queued has run. *)
Theorem pool_shutdown {W : Type} (n k : nat) (s s' : Pool W) (Hn : (0 < n)%nat) (Hr : reachable n s) (Hstop : pstop s = true) (Hk : nsteps pool_step k s s') :
  (k + pool_measure s' <= pool_measure s)%nat /\
  ((exists s'', pool_step s' s'') \/
   pmain s' = MGone /\ (forall i, (i < n)%nat -> workers s' !! i = Some WDone) /\ pqueue s' = [] /\ queued s' = queued s /\ finished s' ≡ₚ queued s).
Proof.
  assert (H : reachable n s' /\ pstop s' = true /\ queued s' = queued s /\ (k + pool_measure s' <= pool_measure s)%nat).
  { induction Hk as [s|k s s1 s' H1 Hk IH]; [done|]. destruct (measure_decreases n s s1 (reachable_ok _ _ Hr) Hstop H1) as (M1 & M2 & M3).
    destruct IH as (I1 & I2 & I3 & I4); [by eapply reach_step|done|]. split; [done|]. split; [done|]. split; [congruence|lia]. }
  destruct H as (Hr' & Hs' & Hq & Hm). split; [done|]. pose proof (reachable_ok n s' Hr') as Hok.
  destruct (decide (mcost n (pmain s') = 0%nat)) as [Hz|Hz]; [|left; apply (stopping_steps n s' Hok Hs'); intros E; by rewrite E in Hz].
  pose proof (ok_stop _ _ Hok) as Hst. rewrite Hs' in Hst. destruct (pmain s') as [|w| | | | | |i|] eqn:Em; cbn in Hz, Hst; try done; try lia.
  - destruct (ok_join _ _ Hok i Em). lia.
  - right. pose proof (ok_gone _ _ Hok Em) as Hd. split; [done|]. split; [done|].
    assert (Hrun : running (workers s') = []).
    { unfold running. apply concat_nil_Forall, Forall_fmap, Forall_lookup_2. intros i pc Hi. apply lookup_lt_Some in Hi as Hlt. rewrite (ok_size _ _ Hok) in Hlt.
      rewrite (Hd i Hlt) in Hi. by injection Hi as <-. }
    destruct (ok_leave _ _ Hok 0 WDone (Hd 0%nat Hn) eq_refl) as [_ He]. split; [done|]. split; [done|].
    pose proof (ok_fifo _ _ Hok) as Hf. rewrite He, app_nil_r in Hf. pose proof (ok_jobs _ _ Hok) as Hj. rewrite Hrun, app_nil_r in Hj. by rewrite <- Hj, Hf, Hq.
Qed.

(** One worker goes to sleep; a job is queued, and the signal wakes it. *)
Definition pool_woken : Pool nat := mkPool [7%nat] false (Some MainT) [WWoken] MUnlock [7%nat] [] [].

Lemma pool_woken_reachable : reachable 1 pool_woken.
Proof.
  eapply reach_step; [|right; left; by apply (Q_signal (mkPool [7%nat] false (Some MainT) [WSleep] MSignal [7%nat] [] []) 0)].
  eapply reach_step; [|right; left; by apply (Q_push (mkPool [] false (Some MainT) [WSleep] (MPush 7%nat) [] [] []) 7%nat)].
  eapply reach_step; [|right; left; by apply (Q_lock (mkPool [] false None [WSleep] MIdle [] [] []) 7%nat)].
  eapply reach_step; [|left; by apply (W_wait (mkPool [] false (Some (WorkerT 0)) [WTest] MIdle [] [] []) 0)].
  eapply reach_step; [|left; by apply (W_lock (thread_pool_init 1) 0)]. apply reach_init.
Qed.

Lemma pool_jobs_exact_witness : started pool_woken ++ pqueue pool_woken = queued pool_woken /\ exists s', pool_step pool_woken s'.
Proof.
  destruct (pool_jobs_exact 1 pool_woken ltac:(lia) pool_woken_reachable) as (_ & _ & H & _ & _ & G). split; [exact H|].
  destruct G as (s' & Hs & _); [left; discriminate|]. by exists s'.
Defined.

(** The pool is stopped with a job still queued. *)
Definition pool_stopped : Pool nat := mkPool [7%nat] true (Some MainT) [WWoken] MBroadcast [7%nat] [] [].

Lemma pool_stopped_reachable : reachable 1 pool_stopped.
Proof.
  eapply reach_step; [|right; right; by apply (D_stop (mkPool [7%nat] false (Some MainT) [WWoken] MStop [7%nat] [] []))].
  eapply reach_step; [|right; right; by apply (D_lock (mkPool [7%nat] false None [WWoken] MIdle [7%nat] [] []))].
  eapply reach_step; [|right; left; by apply (Q_unlock pool_woken)]. apply pool_woken_reachable.
Qed.

Lemma pool_shutdown_witness : exists s', nsteps pool_step 1 pool_stopped s' /\ (1 + pool_measure s' <= 11)%nat.
Proof.
  assert (H1 : nsteps pool_step 1 pool_stopped (wake_all pool_stopped)) by (apply nsteps_once; right; right; by apply D_broadcast).
  exists (wake_all pool_stopped). split; [exact H1|].
  exact (proj1 (pool_shutdown 1 1 pool_stopped (wake_all pool_stopped) ltac:(lia) pool_stopped_reachable eq_refl H1)).
Defined.
