(* ===== verification/Evict.v ===== *)
(** * Making room under maxmemory (src/src/commands/commands.cpp 4647-4714)

    [free_memory_if_needed] and [evict_tick] over the random choice of a
    victim of World: each victim is logged as a DEL, announced, reported to
    the watchers of its key and removed. *)
From S2P Require Import Prelude Buffer Resp StdString Deque Hashtable HashMap Heap Score ZSet HashSet State World CmdTable.

(** What eviction touches beside the keyspace: the pending flag, the counter
    of evicted keys, the keys whose DEL was propagated and the keys reported
    to [watch_touch]. *)
Record Evict := mkEvict { ew : World; g_evict_pending : bool; evicted_keys : Z; dels : list bytes; touched : list bytes }.

Definition set_pending (b : bool) (st : Evict) : Evict := mkEvict (ew st) b (evicted_keys st) (dels st) (touched st).

(** One round of the loop, past the choice of the victim. *)
Definition evict_one (propagate_enabled : bool) (k : bytes) (st : Evict) : Evict :=
  let w := ew st in
  let s := notify_keyspace_event NOTIFY_EVICTED (bs "evicted") k (ks w) in
  let s := entry_del (now (env w)) k (db_unlink k s) in
  mkEvict (with_writes (u32 (writes w + 1)) (with_ks s w)) (g_evict_pending st) (u64 (evicted_keys st + 1))
    (if propagate_enabled then dels st ++ [k] else dels st) (touched st ++ [k]).

(** [while (used_memory > maxmemory && --attempts > 0)]; [false] if no victim
    was found. *)
Fixpoint evict_loop (propagate_enabled : bool) (maxmemory : Z) (attempts : nat) (st : Evict) : bool * Evict :=
  if used_memory (ks (ew st)) <=? maxmemory then (true, st)
  else
    match attempts with
    | O => (true, st)
    | S a =>
        if (a =? 0)%nat then (true, st)
        else
          match evict_pick_victim (ew st) with
          | (None, w) => (false, mkEvict w (g_evict_pending st) (evicted_keys st) (dels st) (touched st))
          | (Some k, w) => evict_loop propagate_enabled maxmemory a (evict_one propagate_enabled k (mkEvict w (g_evict_pending st) (evicted_keys st) (dels st) (touched st)))
          end
    end.

Definition free_memory_if_needed (propagate_enabled loading : bool) (maxmemory : Z) (st : Evict) : bool * Evict :=
  if maxmemory =? 0 then (true, set_pending false st)
  else if loading then (true, st)
  else if used_memory (ks (ew st)) <=? maxmemory then (true, set_pending false st)
  else if bool_decide (maxmemory_policy (env (ew st)) = NOEVICTION) then (false, set_pending false st)
  else
    let '(found, st) := evict_loop propagate_enabled maxmemory 100 st in
    if negb found then (false, set_pending false st)
    else if used_memory (ks (ew st)) <=? maxmemory then (true, set_pending false st)
    else (true, set_pending true st).

Definition evict_tick (propagate_enabled loading : bool) (maxmemory : Z) (st : Evict) : Evict :=
  if g_evict_pending st then (free_memory_if_needed propagate_enabled loading maxmemory st).2 else st.

(** ** The random choice *)

Section Random.
Context {A : Type}.
Implicit Types t : HTab A.

Lemma chain_in t i n : n ∈ chain t i -> n ∈ elements t.
Proof.
  unfold chain, elements. destruct (tab t !! i) as [c|] eqn:E; cbn; [|intros H; by inversion H]. intros Hn.
  apply list_elem_of_lookup_2 in E. apply list_elem_of_In. apply in_concat. exists c. by rewrite <- !list_elem_of_In.
Qed.

Lemma nonempty_chain t : elements t <> [] -> exists i, (i < length (tab t))%nat /\ chain t i <> [].
Proof.
  unfold elements, chain. induction (tab t) as [|c l IH]; [done|]. cbn. destruct c as [|x c].
  - intros H. destruct (IH H) as (i & Hi & Hc). exists (S i). split; [cbn; lia|done].
  - intros _. exists 0%nat. split; [cbn; lia|done].
Qed.

(** The probe walks every bucket once, whatever its start. *)
Lemma probe_reaches m k start i : S m = (2 ^ k)%nat -> (i <= m)%nat -> exists d, (d <= m)%nat /\ h_pos m (Z.of_nat (start + d)) = i.
Proof.
  intros Hk Hi.
  assert (Hm : Z.of_nat m = Z.ones (Z.of_nat k)).
  { rewrite Z.ones_equiv. assert (Z.of_nat (S m) = 2 ^ Z.of_nat k) by (rewrite Hk, Nat2Z.inj_pow; done). lia. }
  assert (Hpos : forall x, h_pos m (Z.of_nat x) = (x mod (S m))%nat).
  { intros x. unfold h_pos. rewrite Hm, Z.land_ones by lia. rewrite Hk, <- (Nat2Z.id (x mod 2 ^ k)), Nat2Z.inj_mod, Nat2Z.inj_pow. done. }
  set (r := (start mod S m)%nat). assert (Hr : (r < S m)%nat) by (apply Nat.mod_upper_bound; lia).
  exists (if decide (r <= i)%nat then i - r else i + S m - r)%nat. split; [destruct (decide _); lia|].
  rewrite Hpos, <- Nat.Div0.add_mod_idemp_l. fold r. destruct (decide (r <= i)%nat).
  - replace (r + (i - r))%nat with i by lia. apply Nat.mod_small. lia.
  - replace (r + (i + S m - r))%nat with (i + 1 * S m)%nat by lia. rewrite Nat.Div0.mod_add. apply Nat.mod_small. lia.
Qed.

Lemma hm_random_probe_spec t start pick : tab_ok t -> elements t <> [] ->
  exists n, n ∈ elements t /\ hm_random_probe t start pick = Some (item n).
Proof.
  intros Hok Hne. assert (Hnn : tab t <> []) by (intros E; unfold elements in Hne; by rewrite E in Hne).
  destruct (ok_pow2 t Hok Hnn) as (k & _ & Hk). pose proof (ok_length t Hok Hnn) as Hlen.
  destruct (nonempty_chain t Hne) as (i & Hi & Hc). destruct (probe_reaches (mask t) k start i Hk) as (d & Hd & Hpos); [lia|].
  unfold hm_random_probe. set (go := fix go (fuel probe : nat) : option A := _).
  assert (Hgo : forall fuel probe, (probe <= d < probe + fuel)%nat -> exists n, n ∈ elements t /\ go fuel probe = Some (item n)).
  { induction fuel as [|fuel IH]; intros probe Hf; [lia|]. cbn [go]. destruct (chain t (h_pos (mask t) (Z.of_nat (start + probe)))) as [|x c] eqn:Ec.
    - apply IH. destruct (decide (probe = d)) as [->|]; [|lia]. rewrite Hpos in Ec. congruence.
    - destruct (lookup_lt_is_Some_2 (x :: c) (pick mod length (x :: c))%nat) as [n Hn]; [apply Nat.mod_upper_bound; cbn; lia|].
      rewrite Hn. exists n. split; [|done]. apply list_elem_of_lookup_2 in Hn. rewrite <- Ec in Hn. by apply chain_in in Hn. }
  apply (Hgo (S (mask t)) 0%nat). lia.
Qed.

(** [hm_random] finds an element of any table that has one. *)
Lemma hm_random_spec (h : HMap A) r0 r1 r2 : hm_ok h ->
  match hm_random h r0 r1 r2 with Some x => exists n, n ∈ hm_elements h /\ x = item n | None => hm_elements h = [] end.
Proof.
  intros [Hn Ho _ _]. unfold hm_random, hm_elements. pose proof (ok_size _ Hn) as Sn. pose proof (ok_size _ Ho) as So.
  assert (Hdead : forall t, tab_ok t -> bool_decide (tab t = []) || (size t =? 0)%nat = bool_decide (elements t = [])).
  { intros t Ht. pose proof (ok_size t Ht) as Hs. destruct (elements t) as [|x l] eqn:E.
    - cbn in Hs. rewrite Hs. rewrite (bool_decide_eq_true_2 ([] = [])) by done. apply orb_true_r.
    - rewrite (bool_decide_eq_false_2 (tab t = [])), (bool_decide_eq_false_2 (_ :: _ = [])); [|done|].
      + cbn in Hs. by rewrite Hs.
      + intros Et. unfold elements in E. by rewrite Et in E. }
  destruct (size (newer h) + size (older h) =? 0)%nat eqn:E0.
  { rewrite Sn, So, Nat.eqb_eq in E0. destruct (elements (newer h)), (elements (older h)); done. }
  assert (Hany : elements (newer h) <> [] \/ elements (older h) <> []).
  { rewrite Sn, So, Nat.eqb_neq in E0. destruct (elements (newer h)), (elements (older h)); auto. }
  cbn zeta. set (first := (_ <? _)%nat). set (t1 := if first then newer h else older h). set (t2 := if first then older h else newer h).
  assert (H1 : tab_ok t1) by (unfold t1; by destruct first). assert (H2 : tab_ok t2) by (unfold t2; by destruct first).
  assert (Hin : forall n, n ∈ elements t1 \/ n ∈ elements t2 -> n ∈ elements (newer h) ++ elements (older h)).
  { intros n. rewrite elem_of_app. unfold t1, t2. destruct first; tauto. }
  assert (Hany' : elements t1 <> [] \/ elements t2 <> []) by (unfold t1, t2; destruct first; tauto).
  rewrite (Hdead t1 H1). destruct (bool_decide (elements t1 = [])) eqn:E1; cbv iota; [apply bool_decide_eq_true in E1|apply bool_decide_eq_false in E1].
  - rewrite (Hdead t2 H2). rewrite bool_decide_eq_false_2 by tauto.
    destruct (hm_random_probe_spec t2 (r1 mod (mask t2 + 1)) r2 H2 ltac:(tauto)) as (n & Hn' & ->). exists n. auto.
  - rewrite (Hdead t1 H1). rewrite bool_decide_eq_false_2 by done.
    destruct (hm_random_probe_spec t1 (r1 mod (mask t1 + 1)) r2 H1 E1) as (n & Hn' & ->). exists n. auto.
Qed.
End Random.

(** ** The victim *)

Definition volatile_policy (p : MaxmemoryPolicy) : bool :=
  match p with VOLATILE_LRU | VOLATILE_LFU | VOLATILE_RANDOM | VOLATILE_TTL => true | _ => false end.

(** Only the random source moves. *)
Definition only_rng (w w' : World) : Prop := ks w' = ks w /\ writes w' = writes w /\ out w' = out w /\ env w' = env w.

Lemma only_rng_trans a b c : only_rng a b -> only_rng b c -> only_rng a c.
Proof. unfold only_rng. intuition congruence. Qed.

Lemma db_random_spec w r w' : ks_ok (ks w) -> db_random_entry w = (r, w') ->
  only_rng w w' /\ match r with Some k => is_Some (ents (ks w) !! k) | None => ents (ks w) = ∅ end.
Proof.
  intros Hs. unfold db_random_entry. intros [= <- <-]. split; [done|].
  pose proof (hm_random_spec (db (ks w)) (Z.to_nat (default 0 (rng w !! 0%nat))) (Z.to_nat (default 0 (rng w !! 1%nat))) (Z.to_nat (default 0 (rng w !! 2%nat)))
    (keyed_ok (ks_keyed _ Hs))) as Hr.
  pose proof (ks_index _ Hs) as Hi. destruct (hm_random _ _ _ _) as [x|].
  - destruct Hr as (n & Hn & ->). specialize (Hi (item n)).
    destruct (ents (ks w) !! item n) as [e|]; [by eexists|]. cbn in Hi. exfalso. unfold to_map in Hi. apply not_elem_of_list_to_map_2 in Hi. apply Hi.
    apply list_elem_of_fmap. exists (item n, item n). split; [done|]. apply list_elem_of_fmap. by exists n.
  - apply map_eq. intros k. specialize (Hi k). unfold to_map in Hi. rewrite Hr in Hi. cbn in Hi. rewrite lookup_empty. by destruct (ents (ks w) !! k).
Qed.

Lemma timer_entry s x : ks_ok s -> x ∈ heap s -> is_Some (ents s !! ref x) /\ ttls s !! ref x = Some (val x).
Proof.
  intros Hs Hx. destruct (ks_timers _ Hs) as [(Ho & Hr & Hnd) Ht]. split; [|by apply ttl_map_Some].
  apply list_elem_of_lookup in Hx as [i Hi]. specialize (Hr i x Hi). cbn in Hr. destruct (ents s !! ref x); [by eexists|done].
Qed.

Lemma ttls_empty s : heap s = [] -> ttls s = ∅.
Proof. unfold ttls. by intros ->. Qed.

Lemma volatile_random_spec w r w' : ks_ok (ks w) -> volatile_random_entry w = (r, w') ->
  only_rng w w' /\ match r with Some k => is_Some (ents (ks w) !! k) /\ is_Some (ttls (ks w) !! k) | None => ttls (ks w) = ∅ end.
Proof.
  intros Hs. unfold volatile_random_entry, gets, mbind. cbn. destruct (heap (ks w)) as [|y h] eqn:Eh.
  - intros [= <- <-]. split; [done|]. by apply ttls_empty.
  - unfold rand_idx. cbn [fst snd]. intros [= <- <-]. split; [done|]. set (i := match rng w with [] => 0 | r :: _ => r mod _ end).
    assert (Hi : (Z.to_nat i < length (y :: h))%nat).
    { unfold i. destruct (rng w) as [|d l]; [cbn; lia|]. pose proof (Z.mod_pos_bound d (Z.of_nat (length (y :: h))) ltac:(cbn; lia)) as B. cbn in B |- *. lia. }
    destruct (lookup_lt_is_Some_2 _ _ Hi) as [x Hx]. rewrite Hx. cbn. apply list_elem_of_lookup_2 in Hx. rewrite <- Eh in Hx.
    destruct (timer_entry _ _ Hs Hx) as [H1 H2]. split; [done|by eexists].
Qed.

(** What a choice may answer: an entry, with a deadline under a volatile
    policy; nothing only if there is none. *)
Definition choice_ok (vol : bool) (s : Keyspace) (r : option bytes) : Prop :=
  match r with
  | Some k => is_Some (ents s !! k) /\ (vol = true -> is_Some (ttls s !! k))
  | None => if vol then ttls s = ∅ else ents s = ∅
  end.

Lemma draw_spec (vol : bool) w r w' : ks_ok (ks w) -> (if vol then volatile_random_entry else db_random_entry) w = (r, w') ->
  only_rng w w' /\ choice_ok vol (ks w) r.
Proof.
  intros Hs H. destruct vol.
  - destruct (volatile_random_spec w r w' Hs H) as [H1 H2]. split; [done|]. destruct r; [|done]. destruct H2. by split.
  - destruct (db_random_spec w r w' Hs H) as [H1 H2]. split; [done|]. destruct r; [|done]. by split.
Qed.

Lemma sample_loop_spec vol n : forall best sc w r w', ks_ok (ks w) -> (match best with Some k => choice_ok vol (ks w) (Some k) | None => True end) ->
  sample_loop n vol best sc w = (r, w') -> only_rng w w' /\ match r with Some k => choice_ok vol (ks w) (Some k) | None => best = None /\ (n = 0%nat \/ choice_ok vol (ks w) None) end.
Proof.
  induction n as [|n IH]; intros best sc w r w' Hs Hb; cbn [sample_loop].
  { intros [= <- <-]. split; [done|]. destruct best; [done|]. split; [done|by left]. }
  unfold mbind, state_bind. destruct ((if vol then volatile_random_entry else db_random_entry) w) as [e w1] eqn:E.
  destruct (draw_spec vol w e w1 Hs E) as [R1 R2]. pose proof R1 as (Ek & _). destruct e as [k|].
  - unfold gets, entry_at, gets. cbn. rewrite Ek.
    assert (Hgo : forall b sc', (match b with Some k => choice_ok vol (ks w) (Some k) | None => True end) -> b <> None ->
      sample_loop n vol b sc' w1 = (r, w') -> only_rng w w' /\ match r with Some k => choice_ok vol (ks w) (Some k) | None => best = None /\ (S n = 0%nat \/ choice_ok vol (ks w) None) end).
    { intros b sc' Hb' Hne Hl. apply IH in Hl; [|by rewrite Ek|by rewrite Ek]. destruct Hl as [L1 L2]. split; [by eapply only_rng_trans|].
      rewrite Ek in L2. destruct r; [done|]. by destruct L2. }
    case_bool_decide as Hbn; cbn [orb]; [by apply Hgo|]. destruct (sc <? _); by apply Hgo.
  - intros [= <- <-]. split; [done|]. destruct best; [done|]. split; [done|by right].
Qed.

Lemma pick_victim_spec w r w' : ks_ok (ks w) -> 1 <= maxmemory_samples (env w) -> maxmemory_policy (env w) <> NOEVICTION ->
  evict_pick_victim w = (r, w') -> only_rng w w' /\ choice_ok (volatile_policy (maxmemory_policy (env w))) (ks w) r.
Proof.
  intros Hs Hn Hp. unfold evict_pick_victim, mbind, state_bind, gets.
  assert (Hsample : forall vol, sample_loop (Z.to_nat (maxmemory_samples (env w))) vol None 0 w = (r, w') -> only_rng w w' /\ choice_ok vol (ks w) r).
  { intros vol H. apply sample_loop_spec in H; [|done|done]. destruct H as [H1 H2]. split; [done|]. destruct r; [done|]. destruct H2 as [_ [?|?]]; [lia|done]. }
  destruct (maxmemory_policy (env w)) eqn:E; cbn [volatile_policy]; try done; try apply Hsample.
  - apply (draw_spec false w r w' Hs).
  - apply (draw_spec true w r w' Hs).
  - intros [= <- <-]. split; [done|]. destruct (heap (ks w)) as [|x h] eqn:Eh; [by apply ttls_empty|]. cbn.
    destruct (timer_entry (ks w) x Hs) as [H1 H2]; [rewrite Eh; by left|]. split; [done|]. intros _. by eexists.
Qed.

(** ** One eviction *)

Lemma evict_one_spec b k st : world_ok (ew st) -> is_Some (ents (ks (ew st)) !! k) ->
  let st' := evict_one b k st in
  world_ok (ew st') /\ env (ew st') = env (ew st) /\ out (ew st') = out (ew st) /\ writes (ew st') = u32 (writes (ew st) + 1) /\
  vals (ks (ew st')) = delete k (vals (ks (ew st))) /\ ttls (ks (ew st')) = delete k (ttls (ks (ew st))) /\
  events (ks (ew st')) = events (ks (ew st)) ++ [(NOTIFY_EVICTED, bs "evicted", k)] /\ dom (ents (ks (ew st'))) = dom (ents (ks (ew st))) ∖ {[k]}.
Proof.
  intros (Hs & Ha & Ho) Hk. cbn zeta. unfold evict_one. cbn [ew env out writes ks with_writes with_ks].
  set (s1 := notify_keyspace_event _ _ _ _).
  destruct (ks_ok_notify (ks (ew st)) NOTIFY_EVICTED (bs "evicted") k) as (N1 & N2 & N3 & N4).
  destruct (remove_key_spec s1 (now (env (ew st))) k) as (R1 & R2 & R3 & R4 & R5 & R6); [by apply N1|done|].
  unfold remove_key in *. split; [split; [done|split; [apply R5, accounted_weaken, N4, Ha|done]]|]. done.
Qed.

(** ** A batch *)

(** The keys [gone] were evicted, in that order, and nothing else happened. *)
Record evicted (b : bool) (st st' : Evict) (gone : list bytes) : Prop := {
  ev_world : world_ok (ew st');
  ev_env : env (ew st') = env (ew st) /\ out (ew st') = out (ew st);
  ev_nodup : NoDup gone;
  ev_vals : forall k, vals (ks (ew st')) !! k = if decide (k ∈ gone) then None else vals (ks (ew st)) !! k;
  ev_ttls : forall k, ttls (ks (ew st')) !! k = if decide (k ∈ gone) then None else ttls (ks (ew st)) !! k;
  ev_held : forall k, k ∈ gone -> is_Some (vals (ks (ew st)) !! k);
  ev_volatile : volatile_policy (maxmemory_policy (env (ew st))) = true -> forall k, k ∈ gone -> is_Some (ttls (ks (ew st)) !! k);
  ev_events : events (ks (ew st')) = events (ks (ew st)) ++ ((fun k => (NOTIFY_EVICTED, bs "evicted", k)) <$> gone);
  ev_dels : dels st' = dels st ++ (if b then gone else []);
  ev_touched : touched st' = touched st ++ gone;
  ev_writes : u32 (writes (ew st')) = u32 (writes (ew st) + Z.of_nat (length gone));
  ev_count : u64 (evicted_keys st') = u64 (evicted_keys st + Z.of_nat (length gone));
}.

Lemma evicted_nil b st st' : world_ok (ew st) -> only_rng (ew st) (ew st') -> dels st' = dels st -> touched st' = touched st -> evicted_keys st' = evicted_keys st -> evicted b st st' [].
Proof.
  intros Hw (Ek & Ewr & Eo & Ee) E2 E3 E4. assert (Hw' : world_ok (ew st')) by (unfold world_ok; by rewrite Ek, Eo).
  split; rewrite ?Ek, ?Ewr, ?Ee, ?Eo, ?E2, ?E3, ?E4; cbn [fmap list_fmap length]; rewrite ?app_nil_r, ?Z.add_0_r; try done.
  all: try (by destruct b; rewrite app_nil_r); try (by constructor); intros; match goal with H : _ ∈ [] |- _ => by inversion H end.
Qed.

Lemma vals_ents s k : is_Some (vals s !! k) <-> is_Some (ents s !! k).
Proof. unfold vals. rewrite lookup_fmap. by rewrite fmap_is_Some. Qed.

(** The choice moves the random source; the victim goes; then the rest. *)
Lemma evicted_cons b k st w st' gone : world_ok (ew st) -> only_rng (ew st) w -> choice_ok (volatile_policy (maxmemory_policy (env (ew st)))) (ks (ew st)) (Some k) ->
  evicted b (evict_one b k (mkEvict w (g_evict_pending st) (evicted_keys st) (dels st) (touched st))) st' gone -> evicted b st st' (k :: gone).
Proof.
  intros Hw (Ek & Ewr & Eo & Ee) [Hk Hv] H. set (st0 := mkEvict w _ _ _ _) in *.
  assert (Hw0 : world_ok (ew st0)) by (unfold world_ok; cbn; by rewrite Ek, Eo).
  destruct (evict_one_spec b k st0 Hw0) as (S1 & S2 & S3 & S4 & S5 & S6 & S7 & S8); [by cbn; rewrite Ek|].
  destruct H as [H1 [H2 H2'] H3 H4 H5 H6 H7 H8 H9 H10 H11 H12]. cbn [ew] in *. rewrite ?S2, ?S3, ?S4, ?S5, ?S6, ?S7 in *. unfold st0 in *. cbn [ew dels touched evicted_keys evict_one] in *.
  rewrite ?Ek, ?Ewr, ?Eo, ?Ee in *.
  assert (Hnot : k ∉ gone) by (intros Hin; apply H6 in Hin; rewrite lookup_delete_eq in Hin; by destruct Hin).
  assert (Hsame : forall (A : Type) (m : gmap bytes A) j, (if decide (j ∈ gone) then None else delete k m !! j) = if decide (j ∈ k :: gone) then None else m !! j).
  { intros A m j. destruct (decide (j = k)) as [->|Hne].
    - rewrite decide_False by done. rewrite decide_True by (by left). by rewrite lookup_delete_eq.
    - rewrite lookup_delete_ne by done. destruct (decide (j ∈ gone)); [rewrite decide_True by (by right)|rewrite decide_False; [|set_solver]]; done. }
  split; try done.
  - by constructor.
  - intros j. by rewrite H4, Hsame.
  - intros j. by rewrite H5, Hsame.
  - intros j Hj. apply elem_of_cons in Hj as [->|Hj]; [by apply vals_ents|]. apply H6 in Hj as [v Hj]. apply lookup_delete_Some in Hj as [_ Hj]. by eexists.
  - intros Hvol j Hj. apply elem_of_cons in Hj as [->|Hj]; [by apply Hv|]. apply (H7 Hvol) in Hj as [v Hj]. apply lookup_delete_Some in Hj as [_ Hj]. by eexists.
  - rewrite H8. by rewrite <- app_assoc.
  - rewrite H9. destruct b; [by rewrite <- app_assoc|done].
  - rewrite H10. by rewrite <- app_assoc.
  - rewrite H11. cbn [length]. unfold u32. rewrite Zplus_mod_idemp_l. f_equal. lia.
  - rewrite H12. cbn [length]. unfold u64. rewrite Zplus_mod_idemp_l. f_equal. lia.
Qed.

Lemma evict_loop_spec b max attempts : forall st found st', world_ok (ew st) -> 1 <= maxmemory_samples (env (ew st)) ->
  maxmemory_policy (env (ew st)) <> NOEVICTION -> evict_loop b max attempts st = (found, st') ->
  exists gone, evicted b st st' gone /\ (length gone <= attempts - 1)%nat /\
    if found then used_memory (ks (ew st')) <= max \/ (length gone = attempts - 1)%nat
    else max < used_memory (ks (ew st')) /\ choice_ok (volatile_policy (maxmemory_policy (env (ew st)))) (ks (ew st')) None.
Proof.
  induction attempts as [|a IH]; intros st found st' Hw Hn Hp H; cbn [evict_loop] in H.
  { exists []. destruct (used_memory _ <=? max) eqn:Eu; injection H as <- <-; (split; [by apply evicted_nil|]; split; [cbn; lia|]); [left; lia|by right]. }
  destruct (used_memory (ks (ew st)) <=? max) eqn:Eu.
  { injection H as <- <-. exists []. split; [by apply evicted_nil|]. split; [cbn; lia|left; lia]. }
  destruct (a =? 0)%nat eqn:Ea.
  { injection H as <- <-. exists []. split; [by apply evicted_nil|]. apply Nat.eqb_eq in Ea. subst a. split; [cbn; lia|by right]. }
  destruct (evict_pick_victim (ew st)) as [r w] eqn:Er. destruct (pick_victim_spec _ _ _ (proj1 Hw) Hn Hp Er) as [Hr Hc]. pose proof Hr as (Ek & Ewr & Eo & Ee).
  destruct r as [k|].
  - set (st0 := mkEvict w _ _ _ _) in H. destruct (evict_one_spec b k st0) as (S1 & S2 & S3 & S4 & S5 & S6 & S7 & S8);
      [unfold world_ok; cbn; by rewrite Ek, Eo|by cbn; rewrite Ek; apply Hc|].
    cbn [ew st0] in S2. destruct (IH _ _ _ S1 ltac:(by rewrite S2, Ee) ltac:(by rewrite S2, Ee) H) as (gone & G1 & G2 & G3).
    apply Nat.eqb_neq in Ea. exists (k :: gone). split; [by eapply evicted_cons|]. cbn [length]. split; [lia|]. rewrite S2, Ee in G3. destruct found; [|done]. destruct G3 as [G3|G3]; [by left|right; lia].
  - injection H as <- <-. exists []. split; [|split; [cbn; lia|]].
    + by apply evicted_nil.
    + cbn [ew]. rewrite Ek. split; [lia|done].
Qed.

Lemma set_pending_evicted b st st' gone p : evicted b st st' gone -> evicted b st (set_pending p st') gone.
Proof. intros [H1 H2 H3 H4 H5 H6 H7 H8 H9 H10 H11 H12]. by split. Qed.

Lemma no_entry_no_memory s : ks_ok s -> ents s = ∅ -> used_memory s = 0.
Proof. intros Hs He. rewrite (ks_mem _ Hs), He. reflexivity. Qed.

(** ** Claims *)

(** C25: Eviction removes only what the policy allows, tells everyone, and
    refuses a write only when nothing may be evicted.  A call takes some
    distinct keys, at most 99, each present before and, under a volatile
    policy, with a deadline; exactly these are logged as deleted, announced,
    reported to their watchers, counted as writes and as evictions, and every
    other key keeps value and deadline.  It succeeds only if there is no limit,
    the server is loading, memory is back under the limit, or the batch is
    full and a later tick is asked to go on; it fails only if memory is over
    the limit and either the policy forbids eviction or no key with a deadline
    is left under a volatile policy. *)
Theorem eviction_exact (b loading : bool) (max : Z) (st : Evict) (ok : bool) (st' : Evict)
    (Hw : world_ok (ew st)) (Hn : 1 <= maxmemory_samples (env (ew st))) (Hmax : 0 <= max)
    (Hrun : free_memory_if_needed b loading max st = (ok, st')) :
  exists gone, evicted b st st' gone /\ (length gone <= 99)%nat /\
    if ok then max = 0 \/ loading = true \/ used_memory (ks (ew st')) <= max \/ (length gone = 99%nat /\ g_evict_pending st' = true)
    else max < used_memory (ks (ew st')) /\ g_evict_pending st' = false /\
      (maxmemory_policy (env (ew st)) = NOEVICTION /\ gone = [] \/
       volatile_policy (maxmemory_policy (env (ew st))) = true /\ ttls (ks (ew st')) = ∅).
Proof.
  assert (Hnil : forall p, evicted b st (set_pending p st) []) by (intros p; by apply evicted_nil).
  assert (Hnil' : evicted b st st []) by (by apply evicted_nil).
  unfold free_memory_if_needed in Hrun.
  destruct (max =? 0) eqn:E0; [injection Hrun as <- <-; exists []; split; [done|]; split; [cbn; lia|left; lia]|].
  destruct loading; [injection Hrun as <- <-; exists []; split; [done|]; split; [cbn; lia|auto]|].
  destruct (used_memory (ks (ew st)) <=? max) eqn:Eu; [injection Hrun as <- <-; exists []; split; [done|]; split; [cbn; lia|right; right; left; cbn; lia]|].
  case_bool_decide as Hp; [injection Hrun as <- <-; exists []; split; [done|]; split; [cbn; lia|]; cbn; split; [lia|auto]|].
  destruct (evict_loop b max 100 st) as [found st1] eqn:El. destruct (evict_loop_spec b max 100 st found st1 Hw Hn Hp El) as (gone & G1 & G2 & G3).
  exists gone. destruct found; cbn [negb] in Hrun.
  - destruct (used_memory (ks (ew st1)) <=? max) eqn:E1; injection Hrun as <- <-; (split; [by apply set_pending_evicted|]; split; [lia|]); cbn [set_pending ew g_evict_pending].
    + right; right; left. lia.
    + right; right; right. destruct G3; [lia|done].
  - injection Hrun as <- <-. split; [by apply set_pending_evicted|]. split; [lia|]. cbn [set_pending ew g_evict_pending]. destruct G3 as [G3 G4]. split; [done|]. split; [done|].
    destruct (volatile_policy _) eqn:Ev; [by right|]. exfalso. cbn in G4.
    pose proof (no_entry_no_memory _ (proj1 (ev_world _ _ _ _ G1)) G4). lia.
Qed.

(** A world over its limit, one key with a deadline. *)
Definition evict_demo : Evict :=
  mkEvict (mkWorld (mem_reaccount (bs "k") ks_timed_key) 0 [] (buf_create 16) (mkEnv 1000 1700000000000 0 VOLATILE_TTL 5 10 1 2)) false 0 [] [].

Lemma evict_demo_ok : world_ok (ew evict_demo).
Proof.
  assert (Ha : accounted_but (bs "k") ks_timed_key) by (unfold accounted_but; apply (bool_decide_eq_true_1 _); vm_compute; reflexivity).
  split; [apply (mem_reaccount_spec _ (bs "k") ks_timed_key_ok)|]. split; [apply mem_reaccount_accounted, Ha; apply ks_timed_key_ok|apply buf_create_wf].
Qed.

Lemma eviction_exact_witness :
  exists gone st', free_memory_if_needed true false 10 evict_demo = (true, st') /\ evicted true evict_demo st' gone /\ (length gone <= 99)%nat /\ dels st' = [bs "k"].
Proof.
  destruct (free_memory_if_needed true false 10 evict_demo) as [ok st'] eqn:E.
  assert (Hd : ok = true /\ dels st' = [bs "k"]).
  { assert (Hc : bool_decide (((free_memory_if_needed true false 10 evict_demo).1, dels (free_memory_if_needed true false 10 evict_demo).2) = (true, [bs "k"])) = true)
      by (vm_compute; reflexivity). apply bool_decide_eq_true_1 in Hc. rewrite E in Hc. by injection Hc as -> ->. }
  destruct Hd as [-> Hd].
  destruct (eviction_exact true false 10 evict_demo true st' evict_demo_ok ltac:(cbn; lia) ltac:(lia) E) as (gone & G1 & G2 & _).
  by exists gone, st'.
Defined.
