(* ===== verification/Dispatch.v ===== *)
(** * The dispatcher (src/src/commands/commands.cpp 5794-5836 and 5941-6190)

    [do_request] in two parts.  [route] is the cascade of gates a command
    passes before anything runs: which of them answers, or which part of the
    program the command goes to.  [run_command] is what follows for a plain
    command: the checks of the log and of the memory, the handler, and what is
    told to the watchers, the log and the subscribers afterwards. *)
From S2P Require Import Prelude Buffer Resp StdString Deque Hashtable HashMap Heap Score ZSet HashSet State World Args Strings Lists Glob Keys Containers Hashes Sets CText CmdTable Handlers Acl Double Crc32 Rdb Txn Backlog Aof Evict.

(** What the gates read of the server and of the connection; [good] is
    [good_replicas] at this moment, [failing_over] whether the failover state
    is not NONE. *)
Record Gate := mkGate {
  g_dispatch : gmap bytes DispatchEntry; g_loading : bool; failing_over : bool; replica_mode : bool;
  min_replicas_to_write : Z; good : nat }.
Record Client := mkClient { cl_user : option User; cl_proto : Z; cl_subscribed : bool; cl_multi : bool; cl_exec : bool }.

Definition in_set (l : list string) (name : bytes) : bool := bool_decide (name ∈ (bs <$> l)).

Definition cmd_can_grow_memory : bytes -> bool := fun name => negb (in_set
  ["del"; "unlink"; "flushall"; "flushdb"; "expire"; "pexpire"; "expireat"; "pexpireat"; "persist"; "getdel"; "getex"; "lpop";
   "rpop"; "lrem"; "ltrim"; "spop"; "srem"; "hdel"; "zrem"; "zpopmin"; "rename"; "renamenx"; "zremrangebyscore"; "zremrangebyrank"]%string name).

Definition cmd_ok_in_subscribe : bytes -> bool :=
  in_set ["subscribe"; "unsubscribe"; "psubscribe"; "punsubscribe"; "ping"; "quit"; "reset"]%string.

(** Where a command goes.  [RError true] is [resp_err_txn], which poisons an
    open transaction; [RConn] are the handlers that take the connection;
    [RUndefined] is a pattern match that left its subject. *)
Inductive Route :=
  | RError (poisons : bool) (msg : bytes)
  | RAuth | RHello
  | RPark
  | RTxn (name : bytes)
  | RNoQueue | RQueue
  | RConn (name : bytes)
  | RRun (name : bytes) (sp : CmdSpec)
  | RUndefined.

Definition with_conn : bytes -> bool :=
  in_set ["acl"; "client"; "subscribe"; "unsubscribe"; "publish"; "psubscribe"; "punsubscribe"; "replconf"; "psync"; "wait"]%string.

(** [spec.min_args], [spec.max_args] *)
Definition arity_ok (sp : CmdSpec) (cmd : list bytes) : bool :=
  let argc := Z.of_nat (length cmd) in negb ((argc <? min_args sp) || (negb (max_args sp =? -1) && (max_args sp <? argc))).

(** The part of [do_request] behind the identity, name and permission checks. *)
Definition route_checked (g : Gate) (c : Client) (name : bytes) (sp : CmdSpec) : Route :=
  let writes := is_write sp && negb (g_loading g) in
  if failing_over g && writes then
    (if cl_multi c || cl_exec c then RError true (bs "FAILOVER Failover in progress, writes are paused") else RPark)
  else if replica_mode g && writes then RError true (bs "READONLY You can't write against a read only replica")
  else if negb (replica_mode g) && (0 <? min_replicas_to_write g) && writes && (Z.of_nat (good g) <? min_replicas_to_write g)
  then RError true (bs "NOREPLICAS Not enough good replicas to write.")
  else if is_control name then RTxn name
  else if cl_multi c then (if cmd_no_queue name then RNoQueue else RQueue)
  else if with_conn name then RConn name
  else RRun name sp.

Definition NOAUTH : bytes := bs "NOAUTH authentication required".
Definition SUBMODE : bytes := bs "ERR only (P)SUBSCRIBE / (P)UNSUBSCRIBE / PING / QUIT / RESET are allowed in subscribe mode".

(** The typed name against the live map: the canonical name and the row, if
    there is one. *)
Definition resolve_name (g : Gate) (typed : bytes) : bytes * option CmdSpec :=
  match g_dispatch g !! typed with
  | Some e => (canonical e, Some (spec e))
  | None => (typed, if g_loading g then find_row typed cmd_table else None)
  end.

Definition route (g : Gate) (c : Client) (cmd : list bytes) : Route :=
  match cmd with
  | [] => RError false (bs "ERR empty command")
  | typed :: args =>
      let typed := map tolower typed in
      if bool_decide (typed = bs "auth") then RAuth
      else if bool_decide (typed = bs "hello") then RHello
      else
        let '(name, found) := resolve_name g typed in
        if bool_decide (is_Some found) && bool_decide (name = bs "auth") then RAuth
        else
          match cl_user c with
          | None => RError false NOAUTH
          | Some u =>
              if (cl_proto c <? 3) && cl_subscribed c && negb (cmd_ok_in_subscribe name) then RError false SUBMODE
              else
                match found with
                | None => RError true (bs "ERR unknown command")
                | Some sp =>
                    match acl_check (Some u) name sp (typed :: args) with
                    | Undefined => RUndefined
                    | Denied msg => RError true msg
                    | Allowed =>
                        if arity_ok sp (typed :: args) then route_checked g c name sp
                        else RError true (bs "ERR wrong number of arguments")
                    end
                end
          end
  end.

(** ** A plain command *)

(** What running reads of the server beside the gates. *)
Record RunEnv := mkRunEnv { aof_enable : bool; g_aof_write_err : bool; maxmemory : Z; notify_flags : Z; watched : bool; propagate_enabled : bool }.

Definition say_err (msg : bytes) (st : Evict) : Evict :=
  mkEvict (with_out (resp_err (out (ew st)) msg) (ew st)) (g_evict_pending st) (evicted_keys st) (dels st) (touched st).

(** The answer is the state after, and the bytes propagated for the command
    itself.  [raw] is the client's request where the caller has it. *)
Definition run_command (other : bytes -> Handler) (g : Gate) (e : RunEnv) (raw : option bytes) (typed : bytes) (args : list bytes)
    (name : bytes) (sp : CmdSpec) (st : Evict) : Evict * bytes :=
  let cmd := typed :: args in
  if is_write sp && aof_enable e && g_aof_write_err e && negb (g_loading g)
  then (say_err (bs "MISCONF Errors writing to the AOF file, can't accept writes") st, [])
  else
    let '(room, st) := if is_write sp && cmd_can_grow_memory name
                       then free_memory_if_needed (propagate_enabled e) (g_loading g) (maxmemory e) st else (true, st) in
    if negb room then (say_err (bs "OOM commands not allowed when used memory > 'maxmemory'") st, [])
    else
      let dirty_before := writes (ew st) in
      let may_notify := negb (notify_class sp =? 0) && negb (notify_flags e =? 0) && negb (g_loading g) in
      let notify_key := if may_notify then nth_arg cmd 1 else [] in
      let may_watch := is_write sp && watched e && negb (g_loading g) in
      let watch_keys := if may_watch then cmd_collect_keys sp cmd else [] in
      let may_log := propagate_enabled e && is_write sp && negb (aof_self sp) in
      let renamed := negb (bool_decide (typed = name)) in
      let reencode := aof_rewrite sp || renamed || bool_decide (raw = None) || ((3 <? length cmd)%nat && bool_decide (name = bs "set")) in
      let w := (cmd_fn other name (s_copy <$> cmd) (ew st)).2 in
      let changed := negb (writes w =? dirty_before) in
      let touches := if may_watch && changed then watch_keys else [] in
      let logged := if may_log && changed
                    then (if reencode then foldl aof_encode [] (propagate_frames (wall (env w)) (name :: args)) else default [] raw)
                    else [] in
      let w := if may_notify && negb (bool_decide (notify_key = [])) && changed
               then with_ks (notify_keyspace_event (notify_class sp) name notify_key (ks w)) w else w in
      (mkEvict w (g_evict_pending st) (evicted_keys st) (dels st) (touched st ++ touches), logged).

(** ** The gates *)

(** The command has passed the gates: it goes to a handler, the queue of its
    transaction, or the clients held by a failover.  [RNoQueue] counts here: the
    command passed every gate, and inside MULTI the queue refuses it. *)
Definition reaches (r : Route) : bool := match r with RError _ _ | RUndefined | RAuth | RHello => false | _ => true end.

(** A write that the role of the server refuses now. *)
Definition write_refused (g : Gate) (c : Client) : bool :=
  if failing_over g then cl_multi c || cl_exec c
  else replica_mode g || ((0 <? min_replicas_to_write g) && (Z.of_nat (good g) <? min_replicas_to_write g)).

(** What [do_request] asks of a command before it lets it through. *)
Record admitted (g : Gate) (c : Client) (typed : bytes) (args : list bytes) (u : User) (name : bytes) (sp : CmdSpec) : Prop := {
  ad_user : cl_user c = Some u;
  ad_name : resolve_name g typed = (name, Some sp);
  ad_plain : typed <> bs "auth" /\ typed <> bs "hello" /\ name <> bs "auth";
  ad_mode : cl_proto c < 3 -> cl_subscribed c = true -> cmd_ok_in_subscribe name = true;
  ad_acl : acl_check (Some u) name sp (typed :: args) = Allowed;
  ad_arity : arity_ok sp (typed :: args) = true;
  ad_role : is_write sp = true -> g_loading g = false -> write_refused g c = false;
}.

(** Where an admitted command goes. *)
Definition destination (g : Gate) (c : Client) (name : bytes) (sp : CmdSpec) : Route :=
  if failing_over g && is_write sp && negb (g_loading g) then RPark
  else if is_control name then RTxn name
  else if cl_multi c then (if cmd_no_queue name then RNoQueue else RQueue)
  else if with_conn name then RConn name
  else RRun name sp.

Lemma route_checked_exact g c name sp r : route_checked g c name sp = r ->
  reaches r = true <-> (is_write sp = true -> g_loading g = false -> write_refused g c = false) /\ r = destination g c name sp.
Proof.
  intros <-. unfold route_checked, destination, write_refused. destruct (is_write sp), (g_loading g), (failing_over g), (replica_mode g); cbn [andb negb orb].
  all: try (destruct (cl_multi c), (cl_exec c); cbn; intuition congruence).
  all: destruct (is_control name), (cl_multi c), (cmd_no_queue name), (with_conn name); cbn [reaches]; try (intuition congruence).
  all: destruct ((0 <? min_replicas_to_write g)), (Z.of_nat (good g) <? min_replicas_to_write g); cbn; intuition congruence.
Qed.

(** ** Claims *)

(** C21: A command gets past the dispatcher exactly when it should.  It
    reaches a handler, the queue of its transaction or the clients held by a
    failover if and only if the connection has an identity, the typed name
    stands for a command, that command is allowed in subscribe mode when the
    connection is in it, the user's rules allow the command with these keys,
    the number of arguments fits, and, for a write outside loading, the server
    may take writes; and then it goes where the state of the connection says.
    Without an identity nothing but AUTH and HELLO does anything. *)
Theorem dispatch_exact (g : Gate) (c : Client) (typed : bytes) (args : list bytes) :
  let r := route g c (typed :: args) in
  (reaches r = true <-> exists u name sp, admitted g c (map tolower typed) args u name sp /\ r = destination g c name sp) /\
  (cl_user c = None -> r = RAuth \/ r = RHello \/ r = RError false NOAUTH).
Proof.
  cbn zeta. unfold route. set (t := map tolower typed).
  case_bool_decide as H1; [split; [split; [done|intros (u & n & sp & [_ _ (X & _) _ _ _ _] & _); by destruct X]|auto]|].
  case_bool_decide as H2; [split; [split; [done|intros (u & n & sp & [_ _ (_ & X & _) _ _ _ _] & _); by destruct X]|auto]|].
  destruct (resolve_name g t) as [name found] eqn:Er.
  assert (Hname : forall u n sp, admitted g c t args u n sp -> n = name /\ found = Some sp) by (intros u n sp [_ E _ _ _ _ _]; rewrite Er in E; by injection E as -> ->).
  destruct (bool_decide (is_Some found) && bool_decide (name = bs "auth")) eqn:Ea.
  { apply andb_true_iff in Ea as [_ Ea]. apply bool_decide_eq_true in Ea. split; [split; [done|]|auto].
    intros (u & n & sp & Ad & _). destruct (Hname _ _ _ Ad) as [-> _]. by destruct Ad as [_ _ (_ & _ & X) _ _ _ _]. }
  destruct (cl_user c) as [u|] eqn:Eu; [|split; [split; [done|intros (u & n & sp & [X _ _ _ _ _ _] & _); by rewrite Eu in X]|auto]].
  split; [|done].
  assert (Huser : forall u' n sp, admitted g c t args u' n sp -> u' = u) by (intros u' n sp [E _ _ _ _ _ _]; rewrite Eu in E; by injection E as ->).
  destruct ((cl_proto c <? 3) && cl_subscribed c && negb (cmd_ok_in_subscribe name)) eqn:Em.
  { split; [done|]. intros (u' & n & sp & Ad & _). destruct (Hname _ _ _ Ad) as [-> _]. destruct Ad as [_ _ _ X _ _ _].
    apply andb_true_iff in Em as [[E1 E2]%andb_true_iff E3]. rewrite X in E3; [done|lia|done]. }
  destruct found as [sp|]; [|split; [done|intros (u' & n & sp & Ad & _); by destruct (Hname _ _ _ Ad)]].
  destruct (acl_check (Some u) name sp (t :: args)) eqn:Eacl.
  2, 3: split; [done|]; intros (u' & n & sp' & Ad & _); destruct (Hname _ _ _ Ad) as [-> [= <-]]; rewrite (Huser _ _ _ Ad) in Ad; destruct Ad as [_ _ _ _ X _ _]; congruence.
  destruct (arity_ok sp (t :: args)) eqn:Ear.
  2: split; [done|]; intros (u' & n & sp' & Ad & _); destruct (Hname _ _ _ Ad) as [-> [= <-]]; destruct Ad as [_ _ _ _ _ X _]; congruence.
  rewrite (route_checked_exact g c name sp _ eq_refl). split.
  - intros [Hw Hd]. exists u, name, sp. split; [|done]. split; try done.
    + split; [done|]. split; [done|]. intros ->. by rewrite bool_decide_eq_true_2 in Ea by by eexists.
    + intros Hp Hs. destruct (cmd_ok_in_subscribe name); [done|]. rewrite Hs in Em. assert (cl_proto c <? 3 = true) as Hlt by lia. by rewrite Hlt in Em.
  - intros (u' & n & sp' & Ad & Hd). destruct (Hname _ _ _ Ad) as [-> [= <-]]. destruct Ad as [_ _ _ _ _ _ X]. done.
Qed.

(** ** What is logged *)

Lemma table_forall (P : bytes -> CmdSpec -> bool) : forallb (fun p => P p.1 p.2) cmd_table = true ->
  forall n sp, find_row n cmd_table = Some sp -> P n sp = true.
Proof. intros H n sp Hf. apply find_row_Some in Hf. rewrite forallb_forall in H. apply (H (n, sp)). by apply list_elem_of_In. Qed.

(** Names in the table are in lower case, and the ones [propagate_cmd]
    translates are flagged, SET with options apart. *)
Definition rewritten : bytes -> bool := in_set ["expire"; "pexpire"; "expireat"; "setex"; "psetex"; "getex"]%string.

Lemma table_lower n sp : find_row n cmd_table = Some sp -> map tolower n = n.
Proof. intros H. apply (table_forall (fun n _ => bool_decide (map tolower n = n))) in H; [by apply bool_decide_eq_true in H|vm_compute; reflexivity]. Qed.

Lemma table_rewritten n sp : find_row n cmd_table = Some sp -> aof_rewrite sp = false -> rewritten n = false.
Proof.
  intros H Hr. apply (table_forall (fun n sp => aof_rewrite sp || negb (rewritten n))) in H; [|vm_compute; reflexivity]. rewrite Hr in H. by destruct (rewritten n).
Qed.

Lemma frames_verbatim now n args sp : find_row n cmd_table = Some sp -> aof_rewrite sp = false -> (n = bs "set" -> (length args <= 2)%nat) ->
  propagate_frames now (n :: args) = [n :: args].
Proof.
  intros Hf Hr Hset. apply (table_rewritten n sp Hf) in Hr. unfold rewritten, in_set in Hr. apply bool_decide_eq_false in Hr. rewrite list_elem_of_fmap in Hr.
  assert (Hne : forall s, s ∈ ["expire"; "pexpire"; "expireat"; "setex"; "psetex"; "getex"]%string -> bool_decide (n = bs s) = false).
  { intros s Hs. apply bool_decide_eq_false_2. intros ->. apply Hr. by exists s. }
  unfold propagate_frames. change (nth_arg (n :: args) 0) with n. cbn zeta. 
  rewrite (Hne "expire"%string), (Hne "pexpire"%string), (Hne "expireat"%string), (Hne "setex"%string), (Hne "psetex"%string), (Hne "getex"%string) by (by apply (bool_decide_eq_true_1 _)).
  cbn [orb andb].
  case_bool_decide as Hs; [|done]. specialize (Hset Hs). cbn [length andb].
  assert ((3 <? S (length args))%nat = false) as -> by (apply Nat.ltb_ge; lia). done.
Qed.

Lemma replay_same other n args sp : find_row n cmd_table = Some sp -> arity_ok sp (n :: args) = true ->
  forall typed, map tolower typed = n -> replay_request other (typed :: args) = cmd_fn other n (s_copy <$> (n :: args)).
Proof.
  intros Hf Ha typed <-. unfold replay_request. cbn zeta. rewrite Hf. unfold arity_ok in Ha. cbn [length] in *.
  by destruct ((Z.of_nat (S (length args)) <? min_args sp) || (negb (max_args sp =? -1) && (max_args sp <? Z.of_nat (S (length args))))).
Qed.


(** SET typed in capitals, with a log. *)
Definition log_env : RunEnv := mkRunEnv true false 0 0 true true.
Definition log_gate : Gate := mkGate ∅ false false false 0 0.
Definition log_st : Evict := mkEvict w0 false 0 [] [].
Definition set_row : CmdSpec := default (mkSpec 0 0 false false false 0 KNONE None 0) (find_row (bs "set") cmd_table).
Definition silent : bytes -> Handler := fun _ _ => mret ().

