(* ===== verification/Session.v ===== *)
(** * Requests (src/src/commands/commands.cpp 5941-6190, src/src/server/server.cpp 408-418)

    [do_request] as a whole: the cascade of gates ([route] of Dispatch), the
    transaction commands and the queue of MULTI (Txn), and the plain commands
    ([run_command] of Dispatch), over the connections and the registry of
    watchers they share.  Beside the requests of clients there are the commands
    a replica applies from its master, the ticks of the eviction, and accepts
    and teardowns. *)
From S2P Require Import Prelude Buffer Resp StdString Deque Hashtable HashMap Heap Score ZSet HashSet State World Args Strings Lists Glob Keys Containers Hashes Sets CText CmdTable Handlers Acl Double Crc32 Rdb Txn Backlog Aof Evict Dispatch.

(** What the gates read of the role of the server, of its configuration, and
    of a connection. *)
Record Role := mkRole { ro_failing_over : bool; ro_replica : bool; ro_min_replicas : Z; ro_good : nat }.
Record Conf := mkConf { cf_aof : bool; cf_aof_err : bool; cf_maxmemory : Z; cf_notify : Z; cf_propagate : bool }.
Record Peer := mkPeer { pe_user : option User; resp_proto : Z; pe_subscribed : bool }.

(** [fed] are the bytes propagated so far. *)
Record Host := mkHost { role : Role; conf : Conf; peers : gmap nat Peer; store : Evict; fed : bytes }.

(** What has run, kept for the theorems: a command with its row, whether it
    was replicated, the keys evicted to make room for it and whether its
    handler moved the dirty counter; and a tick of the eviction. *)
Inductive Ran :=
  | RanCommand (name : bytes) (sp : CmdSpec) (cmd : list bytes) (replicated : bool) (evicted : list bytes) (changed : bool)
  | RanTick (evicted : list bytes).

Definition flushes : bytes -> bool := in_set ["flushall"; "flushdb"]%string.

Definition lowered (cmd : list bytes) : list bytes := match cmd with [] => [] | n :: args => map tolower n :: args end.

Abbreviation SS := (TS (Host * list Ran)).

Definition peer (c : nat) (st : SS) : Peer := default (mkPeer None 2 false) (peers (data st).1 !! c).
Definition client_of (c : nat) (st : SS) : Client :=
  let p := peer c st in let t := conn c st in mkClient (pe_user p) (resp_proto p) (pe_subscribed p) (in_multi t) (in_exec t).

(** The store as a command finds it: the output is that of the connection it
    is run for, and nothing has been reported yet. *)
Definition opened (st : SS) : Evict :=
  let v := store (data st).1 in mkEvict (with_out (tout st) (ew v)) (g_evict_pending v) (evicted_keys v) (dels v) [].

Section Session.
(** The live command map is built once, at boot ([dispatch_build]).  [other]
    are the handlers not modelled, [conn_fn] those that take the connection
    (AUTH, HELLO, parking a write, ACL, CLIENT, the pub/sub commands, REPLCONF,
    PSYNC, WAIT), and [settings] what a command such as CONFIG SET, REPLICAOF or
    FAILOVER changes of the role and the configuration. *)
Context (dispatch : gmap bytes DispatchEntry) (other : bytes -> Handler)
  (conn_fn : Route -> nat -> list bytes -> Host -> Host * (Buffer -> Buffer))
  (settings : bytes -> list bytes -> Role * Conf -> Role * Conf).
Implicit Types st : SS.

Definition gate (loading : bool) (s : Host) : Gate :=
  let r := role s in mkGate dispatch loading (ro_failing_over r) (ro_replica r) (ro_min_replicas r) (ro_good r).
Definition run_env (loading : bool) (st : SS) : RunEnv :=
  let k := conf (data st).1 in
  mkRunEnv (cf_aof k) (cf_aof_err k) (cf_maxmemory k) (cf_notify k) (negb (bool_decide (watchers st = ∅))) (cf_propagate k && negb loading).

(** ** Running a command *)

(** The store when the handler starts, or when the command is refused. *)
Definition room_made (g : Gate) (e : RunEnv) (name : bytes) (sp : CmdSpec) (v : Evict) : Evict :=
  if is_write sp && aof_enable e && g_aof_write_err e && negb (g_loading g) then v
  else if is_write sp && cmd_can_grow_memory name then (free_memory_if_needed (propagate_enabled e) (g_loading g) (maxmemory e) v).2 else v.

(** [run_command] with the calls of [watch_touch] it makes, and the
    [watch_touch_all] of FLUSHALL; that handler moves the counter whenever it
    runs. *)
Definition run_plain (loading : bool) (raw : option bytes) (cmd : list bytes) (name : bytes) (sp : CmdSpec) (st : SS) : SS :=
  let '(s, ran) := data st in
  let g := gate loading s in
  let e := run_env loading st in
  let '(v, logged) := run_command other g e raw (hd [] cmd) (tl cmd) name sp (opened st) in
  let v0 := room_made g e name sp (opened st) in
  let changed := negb (writes (ew v) =? writes (ew v0)) in
  let '(r, k) := settings name cmd (role s, conf s) in
  let s := mkHost r k (peers s) v (fed s ++ logged) in
  let st := mkTS (tconns st) (watchers st) (out (ew v)) (s, ran ++ [RanCommand name sp cmd loading (touched v0) changed]) in
  let st := touch (TKeys (touched v)) st in
  if flushes name && changed then touch TAll st else st.

(** A handler that takes the connection; none of them reports a key. *)
Definition run_conn (r : Route) (c : nat) (cmd : list bytes) (st : SS) : SS :=
  let '(s, rep) := conn_fn r c cmd (data st).1 in mkTS (tconns st) (watchers st) (rep (tout st)) (s, (data st).2).

(** The transaction commands. *)
Definition run_txn (again : list bytes -> SS -> SS) (name : bytes) (c : nat) (cmd : list bytes) (st : SS) : SS :=
  if bool_decide (name = bs "multi") then do_multi c st
  else if bool_decide (name = bs "discard") then do_discard c st
  else if bool_decide (name = bs "exec") then do_exec (resp_proto (peer c st)) again c st
  else if bool_decide (name = bs "watch") then do_watch cmd c st
  else do_unwatch c st.

Definition poison (t : TConn) : TConn := set_multi (in_multi t) true (queue_cmds t) t.
Definition enqueue (cmd : list bytes) (t : TConn) : TConn := set_multi (in_multi t) (multi_dirty t) (queue_cmds t ++ [cmd]) t.

(** The name behind the typed one, and the message for a command that may not
    be queued. *)
Definition named (cmd : list bytes) : bytes := (resolve_name (mkGate dispatch false false false 0 0) (hd [] (lowered cmd))).1.
Definition no_queue_msg (cmd : list bytes) : bytes := bs "ERR " ++ named cmd ++ bs " is not allowed in transactions".

(** [do_request].  The batch of EXEC is dispatched again, with [depth] levels
    of it left. *)
Fixpoint request (depth : nat) (c : nat) (raw : option bytes) (cmd : list bytes) (st : SS) : SS :=
  match depth with
  | O => st
  | S depth' =>
      match route (gate false (data st).1) (client_of c st) cmd with
      | RError true msg => resp_err_txn c msg st
      | RError false msg => say (fun b => resp_err b msg) st
      | RTxn name => run_txn (fun cmd st => request depth' c None cmd st) name c (lowered cmd) st
      | RNoQueue => say (fun b => resp_err b (no_queue_msg cmd)) (on_conn c poison st)
      | RQueue => say (fun b => resp_simple b (bs "QUEUED")) (on_conn c (enqueue (lowered cmd)) st)
      | RRun name sp => run_plain false raw (lowered cmd) name sp st
      | r => run_conn r c (lowered cmd) st
      end
  end.

(** No transaction command is ever queued, so that one level is enough: with
    more of them EXEC does the same ([transaction_correct]). *)
Definition do_request : nat -> option bytes -> list bytes -> SS -> SS := request 2.

(** [repl_apply]: a command of the master, as a user who may do everything,
    with [g_loading] set and the reply thrown away.  The stream of a master
    holds plain writes. *)
Definition apply_replicated (everyone : User) (cmd : list bytes) (st : SS) : SS :=
  match route (gate true (data st).1) (mkClient (Some everyone) 2 false false false) cmd with
  | RRun name sp =>
      let st' := run_plain true None (lowered cmd) name sp st in mkTS (tconns st') (watchers st') (tout st) (data st')
  | _ => st
  end.

(** [evict_tick], between the requests. *)
Definition tick (st : SS) : SS :=
  let '(s, ran) := data st in
  let e := run_env false st in
  let v := evict_tick (propagate_enabled e) false (maxmemory e) (opened st) in
  touch (TKeys (touched v))
    (mkTS (tconns st) (watchers st) (tout st) (mkHost (role s) (conf s) (peers s) v (fed s), ran ++ [RanTick (touched v)])).

(** ** Runs of the server *)

(** [ELocal] is anything else that changes the server without telling the
    watchers: timers that expire keys, a full resynchronisation, a login that
    completes, a change of role. *)
Inductive Event :=
  | EReq (c : nat) (raw : option bytes) (cmd : list bytes)
  | EApply (everyone : User) (cmd : list bytes)
  | ETick
  | ELocal (f : Host -> Host)
  | EOpen (c : nat)
  | EClose (c : nat).

Definition server_step (st : SS) (e : Event) : SS :=
  match e with
  | EReq c raw cmd => match tconns st !! c with Some _ => do_request c raw cmd st | None => st end
  | EApply u cmd => apply_replicated u cmd st
  | ETick => tick st
  | ELocal f => mkTS (tconns st) (watchers st) (tout st) (f (data st).1, (data st).2)
  | EOpen c => conn_open c st
  | EClose c => conn_close c st
  end.

(** Did what ran reach a set of watched keys?  An eviction does by the keys it
    removed; a command whose handler moved the counter does by its own keys,
    unless it was replicated, and by every key when it is FLUSHALL. *)
Definition among (W : gset bytes) (keys : list bytes) : bool := bool_decide (Exists (fun k => k ∈ W) keys).

Definition reached (W : gset bytes) (r : Ran) : bool :=
  match r with
  | RanTick evicted => among W evicted
  | RanCommand name sp cmd replicated evicted changed =>
      among W evicted ||
      changed && (is_write sp && negb replicated && among W (cmd_collect_keys sp cmd) || flushes name && negb (bool_decide (W = ∅)))
  end.

(** ** The connections and the registry *)

Lemma touches_spec ts : forall st, registry st ->
  let st' := foldl (fun st t => touch t st) st ts in
  registry st' /\ watchers st' = watchers st /\ data st' = data st /\ tout st' = tout st /\
  forall c, tconns st' !! c = (fun k => set_watch (watch_dirty k || existsb (touches (watched_keys k)) ts) (watched_keys k) k) <$> tconns st !! c.
Proof.
  induction ts as [|t ts IH]; intros st Hr; cbn [foldl].
  { split_and!; try done. intros c. destruct (tconns st !! c) as [k|]; [cbn|done]. rewrite orb_false_r. by destruct k. }
  destruct (touch_spec t st Hr) as (T1 & T2 & T3). destruct (touch_other_fields t st) as [F1 F2].
  destruct (IH (touch t st) T1) as (I1 & I2 & I3 & I4 & I5). rewrite I2, I3, I4, F1, F2, T2. split_and!; try done.
  intros c. rewrite I5, T3. destruct (tconns st !! c) as [k|]; [|done]. cbn [fmap option_fmap option_map]. f_equal.
  rewrite touch_conn_fields. cbn [set_watch watch_dirty watched_keys in_multi multi_dirty in_exec queue_cmds existsb]. by rewrite orb_assoc.
Qed.

(** The reports of a plain command: the evicted keys, and the keys of the
    command when the counter moved. *)
Lemma run_touched g e raw cmd name sp v :
  let v' := (run_command other g e raw (hd [] cmd) (tl cmd) name sp v).1 in
  let v0 := room_made g e name sp v in
  touched v' = touched v0 ++
    (if is_write sp && watched e && negb (g_loading g) && negb (writes (ew v') =? writes (ew v0)) then cmd_collect_keys sp (hd [] cmd :: tl cmd) else []).
Proof.
  cbn zeta. unfold run_command, room_made. destruct (is_write sp && aof_enable e && g_aof_write_err e && negb (g_loading g)).
  { cbn [fst say_err touched ew with_out writes]. by rewrite Z.eqb_refl, andb_false_r, app_nil_r. }
  destruct (if is_write sp && cmd_can_grow_memory name then free_memory_if_needed (propagate_enabled e) (g_loading g) (maxmemory e) v else (true, v)) as [room v0] eqn:E.
  assert (E0 : (if is_write sp && cmd_can_grow_memory name then (free_memory_if_needed (propagate_enabled e) (g_loading g) (maxmemory e) v).2 else v) = v0).
  { destruct (is_write sp && cmd_can_grow_memory name); [by rewrite E|by injection E]. }
  rewrite E0. destruct room; cbn [negb]; [|cbn [fst say_err touched ew with_out writes]; by rewrite Z.eqb_refl, andb_false_r, app_nil_r].
  cbn [fst touched ew]. set (w := (cmd_fn other name _ (ew v0)).2).
  match goal with |- context [writes (if ?b then with_ks ?k w else w)] => replace (writes (if b then with_ks k w else w)) with (writes w) by (by destruct b) end.
  destruct (is_write sp && watched e && negb (g_loading g)); [|done]. cbn [andb]. done.
Qed.
Lemma among_app W l1 l2 : among W (l1 ++ l2) = among W l1 || among W l2.
Proof.
  unfold among. apply eq_iff_eq_true. rewrite orb_true_iff, !bool_decide_eq_true. apply Exists_app.
Qed.

(** A plain command leaves the connections alone but for its reports, which
    are what [reached] tells. *)
Lemma run_plain_spec loading raw cmd name sp st : cmd <> [] ->
  exists s o evicted changed ts,
    let r := RanCommand name sp cmd loading evicted changed in
    run_plain loading raw cmd name sp st = foldl (fun st t => touch t st) (mkTS (tconns st) (watchers st) o (s, (data st).2 ++ [r])) ts /\
    forall W, (W <> ∅ -> watchers st <> ∅) -> existsb (touches W) ts = reached W r.
Proof.
  intros Hcmd. unfold run_plain. destruct (data st) as [s ran] eqn:Ed. cbn [snd].
  pose proof (run_touched (gate loading s) (run_env loading st) raw cmd name sp (opened st)) as Ht. cbn zeta in Ht.
  destruct (run_command _ _ _ _ _ _ _ _ _) as [v logged]. cbn [fst] in Ht.
  set (v0 := room_made _ _ _ _ _) in *. set (changed := negb (writes (ew v) =? writes (ew v0))) in *.
  destruct (settings name cmd (role s, conf s)) as [r k].
  exists (mkHost r k (peers s) v (fed s ++ logged)), (out (ew v)), (touched v0), changed,
    (TKeys (touched v) :: if flushes name && changed then [TAll] else []).
  cbn zeta. split; [by destruct (flushes name && changed)|]. intros W HW. cbn [existsb touches reached]. fold (among W (touched v)).
  rewrite Ht, among_app, <- orb_assoc. f_equal. replace (hd [] cmd :: tl cmd) with cmd by (by destruct cmd).
  cbn [run_env watched gate g_loading].
  destruct (bool_decide (W = ∅)) eqn:EW.
  - apply bool_decide_eq_true in EW as ->. assert (Hno : forall l, among ∅ l = false).
    { intros l. apply bool_decide_eq_false_2. rewrite Exists_exists. intros (x & _ & Hx). by apply not_elem_of_empty in Hx. }
    rewrite !Hno. destruct (flushes name && changed), (flushes name), changed; cbn; by rewrite ?andb_false_r, ?andb_true_r.
  - apply bool_decide_eq_false in EW. rewrite (bool_decide_eq_false_2 (watchers st = ∅)) by auto. cbn [negb]. rewrite andb_true_r.
    destruct (is_write sp), loading, changed, (flushes name); cbn [andb negb orb existsb touches];
      rewrite ?(bool_decide_eq_false_2 (W = ∅)) by done; cbn; rewrite ?orb_true_r, ?orb_false_r; done.
Qed.

Lemma route_nonempty g c cmd name sp : route g c cmd = RRun name sp -> lowered cmd <> [].
Proof. by destruct cmd. Qed.

Lemma same_touches ts : forall st, same_conns st (foldl (fun st t => touch t st) st ts).
Proof. apply same_fold. intros. apply same_touch. Qed.

Lemma same_run_plain loading raw cmd name sp st : cmd <> [] -> same_conns st (run_plain loading raw cmd name sp st).
Proof.
  intros Hcmd. destruct (run_plain_spec loading raw cmd name sp st Hcmd) as (s & o & ev & ch & ts & -> & _).
  exact (same_touches ts (mkTS (tconns st) (watchers st) o _)).
Qed.

Lemma same_run_txn again name c cmd st : (forall cmd st, same_conns st (again cmd st)) -> same_conns st (run_txn again name c cmd st).
Proof.
  intros Ha. unfold run_txn. repeat case_bool_decide.
  - unfold do_multi. destruct (in_multi _); [done|apply (same_on_conn c)].
  - unfold do_discard. destruct (negb _); [done|].
    eapply same_conns_trans; [apply (same_on_conn c (set_multi false false []))|apply (same_clear c (on_conn c _ st))].
  - by apply same_exec.
  - unfold do_watch. destruct (in_multi _); [done|apply (same_watch c)].
  - apply (same_clear c).
Qed.

Lemma same_run_conn r c cmd st : same_conns st (run_conn r c cmd st).
Proof. unfold run_conn. by destruct (conn_fn r c cmd _). Qed.

Lemma same_refused c msg st : same_conns st (resp_err_txn c msg st).
Proof. unfold resp_err_txn. destruct (in_multi _); [apply (same_on_conn c)|done]. Qed.

Lemma same_request depth c : forall raw cmd st, same_conns st (request depth c raw cmd st).
Proof.
  induction depth as [|depth IH]; intros raw cmd st; cbn [request]; [done|].
  destruct (route _ _ cmd) as [[]| | | | | | | | |] eqn:E; try apply same_run_conn.
  - apply same_refused.
  - done.
  - apply same_run_txn. intros. apply IH.
  - apply (same_on_conn c).
  - apply (same_on_conn c).
  - apply same_run_plain. by eapply route_nonempty.
Qed.

Lemma registry_run_plain loading raw cmd name sp st : cmd <> [] -> registry st -> registry (run_plain loading raw cmd name sp st).
Proof.
  intros Hcmd Hr. destruct (run_plain_spec loading raw cmd name sp st Hcmd) as (s & o & ev & ch & ts & -> & _).
  by apply (touches_spec ts (mkTS _ _ _ _)).
Qed.

Lemma registry_run_txn again name c cmd st :
  is_Some (tconns st !! c) ->
  (forall cmd st, is_Some (tconns st !! c) -> registry st -> registry (again cmd st) /\ is_Some (tconns (again cmd st) !! c)) ->
  registry st -> registry (run_txn again name c cmd st).
Proof.
  intros Hs Ha Hr. unfold run_txn. repeat case_bool_decide.
  - unfold do_multi. destruct (in_multi _); [done|]. by apply (registry_on_conn c).
  - unfold do_discard. destruct (negb _); [done|]. apply watch_clear_spec. by apply registry_on_conn.
  - by apply registry_exec.
  - unfold do_watch. destruct (in_multi _); [done|]. by apply (registry_watch c (drop 1 cmd) st).
  - by apply watch_clear_spec.
Qed.

Lemma registry_request depth c : forall raw cmd st,
  is_Some (tconns st !! c) -> registry st -> registry (request depth c raw cmd st).
Proof.
  induction depth as [|depth IH]; intros raw cmd st Hs Hr; cbn [request]; [done|].
  destruct (route _ _ cmd) as [[]| | | | | | | | |] eqn:E; try (unfold run_conn; by destruct (conn_fn _ c _ _)).
  - unfold resp_err_txn. destruct (in_multi _); [by apply (registry_on_conn c)|done].
  - done.
  - apply registry_run_txn; [done| |done]. intros cmd' st' Hs' Hr'. split; [by apply IH|by apply same_request].
  - by apply (registry_on_conn c).
  - by apply (registry_on_conn c).
  - apply registry_run_plain; [by eapply route_nonempty|done].
Qed.

Lemma registry_tick st : registry st -> registry (tick st).
Proof. intros Hr. unfold tick. destruct (data st). by apply (touch_spec (TKeys _) (mkTS _ _ _ _)). Qed.

Lemma registry_apply u cmd st : registry st -> registry (apply_replicated u cmd st).
Proof.
  intros Hr. unfold apply_replicated. destruct (route _ _ cmd) eqn:E; try done.
  apply (registry_run_plain true None (lowered cmd) name sp st); [by eapply route_nonempty|done].
Qed.

Lemma registry_event e st : registry st -> registry (server_step st e).
Proof.
  intros Hr. destruct e as [c raw cmd|u cmd| |f|c|c]; cbn [server_step].
  - destruct (tconns st !! c) eqn:E; [|done]. apply registry_request; [by eexists|done].
  - by apply registry_apply.
  - by apply registry_tick.
  - done.
  - by apply registry_open.
  - by apply registry_close.
Qed.

(** The registry is exact at all times: after any run of the server a bucket
    holds exactly the live connections that watch its key, and no bucket is
    empty. *)
Theorem watch_registry_ok (s : Host) (events : list Event) :
  registry (foldl server_step (ts_init (s, [])) events).
Proof.
  assert (H : forall st, registry st -> registry (foldl server_step st events)).
  { induction events as [|e events IH]; intros st Hr; [done|]. cbn [foldl]. by apply IH, registry_event. }
  apply H, registry_init.
Qed.
(** ** What a watching connection sees *)

(** Connection [c] watches [W], and is dirty exactly when something that ran
    since the [n]-th reached it. *)
Definition tracks (c : nat) (W : gset bytes) (n : nat) (st : SS) : Prop :=
  registry st /\ (n <= length (data st).2)%nat /\
  exists t, tconns st !! c = Some t /\ watched_keys t = W /\ watch_dirty t = existsb (reached W) (drop n (data st).2).

Lemma tracks_say c W n f st : tracks c W n st -> tracks c W n (say f st).
Proof. done. Qed.

Lemma tracks_on_conn c W n c' f st :
  (forall t, watched_keys (f t) = watched_keys t /\ watch_dirty (f t) = watch_dirty t) ->
  tracks c W n st -> tracks c W n (on_conn c' f st).
Proof.
  intros Hf (H1 & H2 & t & Ht & HW & Hd). split; [apply registry_on_conn; [apply Hf|done]|]. split; [done|]. cbn.
  destruct (decide (c = c')) as [<-|].
  - exists (f t). rewrite lookup_alter_eq, Ht. destruct (Hf t) as [-> ->]. done.
  - exists t. by rewrite lookup_alter_ne.
Qed.

Lemma tracks_clear c W n c' st : c' <> c -> tracks c W n st -> tracks c W n (watch_clear_conn c' st).
Proof.
  intros Hne (H1 & H2 & t & Ht & HW & Hd). destruct (watch_clear_spec c' st H1) as (R1 & R2 & R3 & R4 & _).
  split; [done|]. rewrite R4. split; [done|]. exists t. rewrite R2, lookup_alter_ne by done. done.
Qed.

Lemma tracks_watch c W n c' keys : c' <> c -> forall st,
  is_Some (tconns st !! c') -> tracks c W n st -> tracks c W n (foldl (watch_one c') st keys).
Proof.
  intros Hne. induction keys as [|k keys IH]; intros st [t' Ht'] (H1 & H2 & t & Ht & HW & Hd); cbn [foldl]; [by split; [|split; [|exists t]]|].
  destruct (watch_one_spec c' st k t' H1 Ht') as (R1 & R2 & R3 & R4). apply IH.
  - rewrite R4, lookup_insert_eq. by eexists.
  - split; [done|]. rewrite R3. split; [done|]. exists t. by rewrite R4, lookup_insert_ne.
Qed.

(** One more thing ran, with its reports. *)
Lemma tracks_ran c W n st s o r ts :
  ((W <> ∅ -> watchers st <> ∅) -> existsb (touches W) ts = reached W r) -> tracks c W n st ->
  tracks c W n (foldl (fun st t => touch t st) (mkTS (tconns st) (watchers st) o (s, (data st).2 ++ [r])) ts).
Proof.
  intros Hts (H1 & H2 & t & Ht & HW & Hd). set (st1 := mkTS _ _ _ _).
  destruct (touches_spec ts st1 H1) as (T1 & T2 & T3 & T4 & T5). split; [done|]. rewrite T3. cbn [st1 data snd]. rewrite length_app.
  split; [lia|]. eexists. rewrite T5. cbn [st1 tconns]. rewrite Ht. split; [done|]. cbn [set_watch watched_keys watch_dirty]. split; [done|].
  rewrite drop_app_le, existsb_app by done. cbn [existsb]. rewrite orb_false_r, Hd, HW, Hts; [done|].
  intros Hne%set_choose_L Hw. destruct Hne as [k Hk]. destruct H1 as [_ H1].
  assert (Hin : c ∈ default ∅ (watchers st !! k)) by (apply H1; exists t; by rewrite HW).
  rewrite Hw, lookup_empty in Hin. by apply not_elem_of_empty in Hin.
Qed.

Lemma tracks_run_plain c W n loading raw cmd name sp st :
  cmd <> [] -> tracks c W n st -> tracks c W n (run_plain loading raw cmd name sp st).
Proof.
  intros Hcmd Ht. destruct (run_plain_spec loading raw cmd name sp st Hcmd) as (s & o & ev & ch & ts & -> & Hts).
  apply tracks_ran; [apply Hts|done].
Qed.

Lemma tracks_exec c W n c' proto again st :
  c' <> c -> is_Some (tconns st !! c') ->
  (forall cmd st, is_Some (tconns st !! c') -> tracks c W n st -> tracks c W n (again cmd st) /\ is_Some (tconns (again cmd st) !! c')) ->
  tracks c W n st -> tracks c W n (do_exec proto again c' st).
Proof.
  intros Hne Hsome Hreq Ht. unfold do_exec. destruct (negb _); [done|].
  destruct (multi_dirty _); [by apply tracks_say, tracks_on_conn|].
  destruct (watch_dirty _); [apply tracks_say, tracks_clear; [done|]; by apply tracks_on_conn|].
  apply tracks_on_conn; [done|]. set (st1 := say _ _).
  assert (H1 : tracks c W n st1).
  { apply tracks_say, tracks_on_conn; [done|]. apply tracks_clear; [done|]. by apply tracks_on_conn. }
  assert (H2 : is_Some (tconns st1 !! c')).
  { apply (same_on_conn c' (set_exec true)), (same_clear c'), (same_on_conn c' (set_multi false false [])). done. }
  revert H1 H2. generalize st1, (queue_cmds (conn c' st)). clear Ht st1. intros st1 batch. revert st1.
  induction batch as [|cmd batch IH]; intros st1 H1 H2; cbn [foldl]; [done|]. destruct (Hreq cmd st1 H2 H1) as [H3 H4]. by apply IH.
Qed.

(** Where a command can go, by the flag of the connection and the name. *)
Lemma route_kind g cl cmd :
  let name := (resolve_name g (hd [] (lowered cmd))).1 in
  match route g cl cmd with
  | RTxn n => n = name /\ is_control name = true
  | RQueue | RNoQueue => cl_multi cl = true /\ is_control name = false
  | RRun _ _ | RConn _ => cl_multi cl = false /\ is_control name = false
  | _ => True
  end.
Proof.
  unfold route. destruct cmd as [|typed args]; [done|]. cbn [lowered hd]. repeat (case_bool_decide; [done|]).
  destruct (resolve_name g _) as [nm found]. cbn [fst]. destruct (_ && _); [done|]. destruct (cl_user cl) as [u|]; [|done].
  destruct (_ && negb _); [done|]. destruct found as [sp|]; [|done]. destruct (acl_check _ _ _ _); [|done..]. destruct (arity_ok _ _); [|done].
  unfold route_checked. cbn zeta. destruct (_ && (_ && _)); [by destruct (_ || _)|]. destruct (_ && (_ && _)); [done|]. destruct (_ && _ && _ && _); [done|].
  destruct (is_control nm) eqn:Ec; [done|]. destruct (cl_multi cl); [by destruct (cmd_no_queue _)|]. by destruct (with_conn _).
Qed.

Lemma route_txn s cl cmd name : route (gate false s) cl cmd = RTxn name -> name = named cmd /\ is_control name = true.
Proof. intros E. pose proof (route_kind (gate false s) cl cmd) as H. cbn zeta in H. rewrite E in H. destruct H as [-> H]. by split. Qed.

(** A request of another connection, or one of [c] that is not a transaction
    command. *)
Lemma tracks_request c W n c' depth : forall raw cmd st,
  c' <> c \/ is_control (named cmd) = false -> is_Some (tconns st !! c') ->
  tracks c W n st -> tracks c W n (request depth c' raw cmd st).
Proof.
  induction depth as [|depth IH]; intros raw cmd st Hc Hsome Ht; cbn [request]; [done|].
  destruct (route _ _ cmd) as [[]| | | | | | | | |] eqn:E; try (unfold run_conn; by destruct (conn_fn _ c' _ _)).
  - unfold resp_err_txn. destruct (in_multi _); apply tracks_say; [|done]. by apply tracks_on_conn.
  - done.
  - apply route_txn in E as [-> E]. destruct Hc as [Hc|Hc]; [|congruence]. unfold run_txn. repeat case_bool_decide.
    + unfold do_multi. destruct (in_multi _); [done|]. by apply tracks_say, tracks_on_conn.
    + unfold do_discard. destruct (negb _); [done|]. apply tracks_say, tracks_clear; [done|]. by apply tracks_on_conn.
    + apply tracks_exec; [done..| |done]. intros cmd' st' Hs' Ht'. split; [by apply IH; [left|..]|]. by apply same_request.
    + unfold do_watch. destruct (in_multi _); [done|]. by apply tracks_say, tracks_watch.
    + by apply tracks_say, tracks_clear.
  - apply tracks_say. by apply tracks_on_conn.
  - apply tracks_say. by apply tracks_on_conn.
  - apply tracks_run_plain; [by eapply route_nonempty|done].
Qed.

(** Everything but a transaction command of [c] and its teardown. *)
Definition foreign (c : nat) (e : Event) : Prop :=
  match e with
  | EReq c' _ cmd => c' <> c \/ is_control (named cmd) = false
  | EClose c' => c' <> c
  | _ => True
  end.

Lemma tracks_event c W n e st : foreign c e -> tracks c W n st -> tracks c W n (server_step st e).
Proof.
  intros Hf Ht. destruct e as [c' raw cmd|u cmd| |f|c'|c']; cbn [server_step foreign] in *.
  - destruct (tconns st !! c') eqn:E; [|done]. apply tracks_request; [done|by eexists|done].
  - unfold apply_replicated. destruct (route _ _ cmd) eqn:E; try done.
    apply (tracks_run_plain c W n true None (lowered cmd) name sp st); [by eapply route_nonempty|done].
  - unfold tick. destruct (data st) as [s ran] eqn:Ed. cbn zeta. set (v := evict_tick _ _ _ _).
    assert (H := tracks_ran c W n st (mkHost (role s) (conf s) (peers s) v (fed s)) (tout st) (RanTick (touched v)) [TKeys (touched v)]).
    rewrite Ed in H. apply H; [|done]. intros _. cbn [existsb touches reached]. by rewrite orb_false_r.
  - done.
  - destruct Ht as (H1 & H2 & t & Ht & HW & Hd). split; [by apply registry_open|]. unfold conn_open.
    destruct (tconns st !! c') eqn:E; (split; [done|]); exists t; [done|]. cbn. rewrite lookup_insert_ne; [done|congruence].
  - destruct Ht as (H1 & H2 & t & Ht & HW & Hd). destruct (registry_close c' st H1) as [R1 R2].
    destruct (watch_clear_spec c' st H1) as (_ & _ & _ & R4 & _). split; [done|].
    assert (Hdata : data (conn_close c' st) = data st) by exact R4. rewrite Hdata. split; [done|]. exists t.
    by rewrite R2, lookup_delete_ne.
Qed.
(** ** Inside MULTI *)

(** What an open transaction adds up to: the server, the replies, the queue
    and whether an error was given. *)
Record Held := mkHeld { h_server : Host; h_out : Buffer; h_queue : list (list bytes); h_bad : bool }.

(** One command that is no transaction command, in a connection whose flag
    [in_exec] is [ex]: an error of the gates, which mostly poisons the
    transaction; a refusal to queue, which does; the queue; and AUTH and HELLO,
    which run at once. *)
Definition held_step (c : nat) (ex : bool) (h : Held) (cmd : list bytes) : Held :=
  let p := default (mkPeer None 2 false) (peers (h_server h) !! c) in
  match route (gate false (h_server h)) (mkClient (pe_user p) (resp_proto p) (pe_subscribed p) true ex) cmd with
  | RError poisons msg => mkHeld (h_server h) (resp_err (h_out h) msg) (h_queue h) (h_bad h || poisons)
  | RNoQueue => mkHeld (h_server h) (resp_err (h_out h) (no_queue_msg cmd)) (h_queue h) true
  | RQueue => mkHeld (h_server h) (resp_simple (h_out h) (bs "QUEUED")) (h_queue h ++ [lowered cmd]) (h_bad h)
  | r => let '(s, rep) := conn_fn r c (lowered cmd) (h_server h) in mkHeld s (rep (h_out h)) (h_queue h) (h_bad h)
  end.

(** A command of the batch, dispatched again. *)
Definition redispatch (c : nat) (st : SS) (cmd : list bytes) : SS :=
  match route (gate false (data st).1) (client_of c st) cmd with
  | RError _ msg => say (fun b => resp_err b msg) st
  | RRun name sp => run_plain false None (lowered cmd) name sp st
  | r => run_conn r c (lowered cmd) st
  end.

Lemma tolower_twice n : map tolower (map tolower n) = map tolower n.
Proof. induction n as [|b n IH]; [done|]. cbn [map]. rewrite IH. f_equal. destruct b as [[] [] [] [] [] [] [] []]; vm_compute; reflexivity. Qed.

Lemma named_lowered cmd : named (lowered cmd) = named cmd.
Proof. unfold named. destruct cmd as [|n args]; [done|]. cbn [lowered hd]. by rewrite tolower_twice. Qed.

(** A command that is no transaction command, outside MULTI. *)
Lemma request_redispatch depth c cmd st :
  is_control (named cmd) = false -> in_multi (conn c st) = false -> request (S depth) c None cmd st = redispatch c st cmd.
Proof.
  intros Hn Hm. cbn [request]. unfold redispatch. pose proof (route_kind (gate false (data st).1) (client_of c st) cmd) as Hk. cbn zeta in Hk.
  destruct (route _ _ cmd) as [[]| | | | | | | | |]; try done.
  - unfold resp_err_txn. by rewrite Hm.
  - destruct Hk as [_ Hk]. change (is_control (named cmd) = true) in Hk. congruence.
  - destruct Hk as [Hk _]. cbn in Hk. congruence.
  - destruct Hk as [Hk _]. cbn in Hk. congruence.
Qed.

Lemma redispatch_conn c st cmd u :
  registry st -> tconns st !! c = Some u -> watched_keys u = ∅ -> registry (redispatch c st cmd) /\ tconns (redispatch c st cmd) !! c = Some u.
Proof.
  intros Hr Hu Hw. unfold redispatch. destruct (route _ _ cmd) eqn:E; try (unfold run_conn; by destruct (conn_fn _ c _ _)); [done|].
  split; [apply registry_run_plain; [by eapply route_nonempty|done]|].
  destruct (run_plain_spec false None (lowered cmd) name sp st) as (s & o & ev & ch & ts & -> & _); [by eapply route_nonempty|].
  destruct (touches_spec ts (mkTS (tconns st) (watchers st) o (s, (data st).2 ++ [RanCommand name sp (lowered cmd) false ev ch])) Hr) as (_ & _ & _ & _ & ->).
  cbn [tconns]. rewrite Hu. cbn [fmap option_fmap option_map]. rewrite Hw.
  replace (existsb (touches ∅) ts) with false; [rewrite orb_false_r, <- Hw; by destruct u|].
  symmetry. apply not_true_iff_false. rewrite existsb_exists. intros ([keys|] & _ & Ht); [|by apply negb_true_iff, bool_decide_eq_false in Ht].
  cbn [touches] in Ht. apply bool_decide_eq_true, Exists_exists in Ht as (k & _ & Hk). by apply not_elem_of_empty in Hk.
Qed.

(** The batch of EXEC is its commands dispatched again, one by one. *)
Lemma batch_run depth c cmds u : forall st,
  Forall (fun cmd => is_control (named cmd) = false) cmds -> registry st -> tconns st !! c = Some u -> in_multi u = false -> watched_keys u = ∅ ->
  let st' := foldl (redispatch c) st cmds in
  foldl (fun st cmd => request (S depth) c None cmd st) st cmds = st' /\ registry st' /\ tconns st' !! c = Some u.
Proof.
  induction cmds as [|cmd cmds IH]; intros st Hq Hr Hu Hm Hw; cbn [foldl]; [done|]. apply Forall_cons in Hq as [Hc Hq].
  rewrite request_redispatch; [|done|unfold conn; by rewrite Hu].
  destruct (redispatch_conn c st cmd u Hr Hu Hw) as [H1 H2]. by apply IH.
Qed.

(** EXEC of a clean transaction. *)
Lemma exec_run depth proto c st u :
  registry st -> tconns st !! c = Some u -> in_multi u = true -> multi_dirty u = false -> watch_dirty u = false ->
  Forall (fun cmd => is_control (named cmd) = false) (queue_cmds u) ->
  exists st0, registry st0 /\ data st0 = data st /\ tout st0 = resp_arr (tout st) (u32 (Z.of_nat (length (queue_cmds u)))) /\
    tconns st0 = <[c := mkTConn false false true false ∅ []]> (tconns st) /\
    let st' := foldl (redispatch c) st0 (queue_cmds u) in
    do_exec proto (fun cmd st => request (S depth) c None cmd st) c st = on_conn c (set_exec false) st' /\
    tconns (on_conn c (set_exec false) st') !! c = Some TConn_new.
Proof.
  intros Hr Hu Hm Hp Hd Hq. unfold do_exec, conn. rewrite Hu. cbn [from_option id]. rewrite Hm, Hp, Hd. cbn [negb].
  destruct (watch_clear_spec c (on_conn c (set_multi false false []) st)) as (W1 & W2 & W3 & W4 & _); [by apply registry_on_conn|].
  set (st2 := watch_clear_conn c _) in *. set (st0 := say _ _).
  assert (H0 : tconns st0 = <[c := mkTConn false false true false ∅ []]> (tconns st)).
  { cbn [st0 say tconns on_conn with_tconns]. rewrite W2. cbn [on_conn with_tconns tconns]. apply map_eq. intros j.
    destruct (decide (j = c)) as [->|]; [by rewrite !lookup_alter_eq, Hu, lookup_insert_eq|by rewrite !lookup_alter_ne, lookup_insert_ne]. }
  assert (R0 : registry st0) by (by apply (registry_on_conn c)).
  destruct (batch_run depth c (queue_cmds u) (mkTConn false false true false ∅ []) st0 Hq R0) as (B1 & B2 & B3); [by rewrite H0, lookup_insert_eq|done|done|].
  exists st0. split; [done|]. split; [exact W4|]. split; [cbn [st0 say tout on_conn with_tconns]; by rewrite W3|]. split; [done|]. cbn zeta. rewrite B1.
  split; [done|]. cbn [on_conn with_tconns tconns]. by rewrite lookup_alter_eq, B3.
Qed.

Lemma request_txn depth c raw cmd st name :
  route (gate false (data st).1) (client_of c st) cmd = RTxn name ->
  request (S depth) c raw cmd st = run_txn (fun cmd st => request depth c None cmd st) name c (lowered cmd) st.
Proof. intros E. cbn [request]. by rewrite E. Qed.

Lemma alter_set c (f : TConn -> TConn) (m : gmap nat TConn) t : m !! c = Some t -> alter f c m = <[c := f t]> m.
Proof.
  intros Ht. apply map_eq. intros j. destruct (decide (j = c)) as [->|]; [by rewrite lookup_alter_eq, Ht, lookup_insert_eq|by rewrite lookup_alter_ne, lookup_insert_ne].
Qed.

(** The state of an open transaction. *)
Definition holds (c : nat) (t : TConn) (st0 : SS) (h : Held) (st : SS) : Prop :=
  (data st).1 = h_server h /\ (data st).2 = (data st0).2 /\ tout st = h_out h /\ watchers st = watchers st0 /\
  tconns st = <[c := set_multi true (h_bad h) (h_queue h) t]> (tconns st0).

Lemma held_step_one depth c t raw cmd st0 h st :
  is_control (named cmd) = false -> holds c t st0 h st -> holds c t st0 (held_step c (in_exec t) h cmd) (request (S depth) c raw cmd st).
Proof.
  intros Hn (H1 & H2 & H3 & H4 & H5).
  assert (Hc : tconns st !! c = Some (set_multi true (h_bad h) (h_queue h) t)) by (rewrite H5; apply lookup_insert_eq).
  assert (Hset : forall m, tconns st = <[c := m]> (tconns st0) -> forall f, alter f c (tconns st) = <[c := f m]> (tconns st0)).
  { intros m Hm f. rewrite (alter_set c f (tconns st) m), Hm by (rewrite Hm; apply lookup_insert_eq). apply insert_insert_eq. }
  cbn [request]. unfold held_step, client_of, peer, conn. rewrite Hc, H1. cbn [from_option id set_multi in_multi in_exec].
  set (p := default _ _). set (cl := mkClient _ _ _ _ _).
  pose proof (route_kind (gate false (h_server h)) cl cmd) as Hk. cbn zeta in Hk.
  destruct (route _ cl cmd) as [[] msg| | | |nm| | |nm|nm sp|] eqn:E; cbn [h_server h_out h_queue h_bad].
  3, 4, 5, 9, 11: unfold run_conn; rewrite H1; destruct (conn_fn _ c _ _) as [s rep]; split_and!; cbn [data fst snd tout watchers tconns h_server h_out h_queue h_bad]; congruence.
  - unfold resp_err_txn, conn. rewrite Hc. cbn [from_option id set_multi in_multi]. split_and!; try done.
    + cbn. by rewrite H3.
    + cbn [say tconns on_conn with_tconns]. rewrite (Hset _ H5). by rewrite orb_true_r.
  - split_and!; try done; [cbn; by rewrite H3|]. cbn [say tconns]. by rewrite H5, orb_false_r.
  - destruct Hk as [_ Hk]. change (is_control (named cmd) = true) in Hk. congruence.
  - split_and!; try done; [cbn; by rewrite H3|]. cbn [say tconns on_conn with_tconns]. by rewrite (Hset _ H5).
  - split_and!; try done; [cbn; by rewrite H3|]. cbn [say tconns on_conn with_tconns]. by rewrite (Hset _ H5).
  - destruct Hk as [Hk _]. done.
Qed.

(** Only commands that are no transaction commands are queued. *)
Lemma held_step_queue c ex cmds : forall h,
  Forall (fun cmd => is_control (named cmd) = false) cmds -> Forall (fun cmd => is_control (named cmd) = false) (h_queue h) ->
  Forall (fun cmd => is_control (named cmd) = false) (h_queue (foldl (held_step c ex) h cmds)).
Proof.
  induction cmds as [|cmd cmds IH]; intros h Hc Hh; [done|]. apply Forall_cons in Hc as [Hn Hc]. cbn [foldl]. apply IH; [done|].
  unfold held_step. destruct (route _ _ cmd); try (destruct (conn_fn _ c _ _)); cbn [h_queue]; try done.
  apply Forall_app. split; [done|]. by rewrite Forall_singleton, named_lowered.
Qed.
(** ** Claims *)


End Session.

(** ** A server with two clients *)

Definition live : gmap bytes DispatchEntry := dispatch_build cmd_table [].
Definition root_user : User := mkUser (-1) ∅ [] [] [] (bs "root") true true true.
Definition quiet_conn : Route -> nat -> list bytes -> Host -> Host * (Buffer -> Buffer) := fun _ _ _ s => (s, id).
Definition quiet_set : bytes -> list bytes -> Role * Conf -> Role * Conf := fun _ _ x => x.
Definition host0 : Host :=
  mkHost (mkRole false false 0 0) (mkConf false false 0 0 false)
    (list_to_map [(1%nat, mkPeer (Some root_user) 2 false); (2%nat, mkPeer (Some root_user) 2 false)]) log_st [].

Definition step := server_step live silent quiet_conn quiet_set.
Definition watching : SS :=
  foldl step (ts_init (host0, [])) [EOpen 1; EOpen 2; EReq 1 None [bs "WATCH"; bs "k"]; EReq 1 None [bs "multi"]].
Definition t_watching : TConn := mkTConn true false false false {[bs "k"]} [].

(** Connection 1 reads [k] inside its transaction, a replicated write and then
    connection 2 write it. *)
Definition story : list Event :=
  [EReq 1 None [bs "get"; bs "k"]; EApply root_user [bs "set"; bs "k"; bs "r"]; EReq 2 None [bs "SET"; bs "k"; bs "v"]].


Definition idle : SS := foldl step (ts_init (host0, [])) [EOpen 1; EOpen 2].
Definition ask (st : SS) (rc : option bytes * list bytes) : SS := request live silent quiet_conn quiet_set 2 1 rc.1 rc.2 st.
Definition good_cmds : list (option bytes * list bytes) := [(None, [bs "SET"; bs "k"; bs "v"]); (None, [bs "get"; bs "k"])].
Definition bad_cmds : list (option bytes * list bytes) := [(None, [bs "set"; bs "k"; bs "v"]); (None, [bs "nosuch"]); (None, [bs "get"])].
Definition held_after (cmds : list (option bytes * list bytes)) : Held :=
  foldl (held_step live quiet_conn 1 (in_exec TConn_new)) (mkHeld (data idle).1 (resp_ok (tout idle)) [] false) (snd <$> cmds).
Definition good_held : Held := held_after good_cmds.
Definition bad_held : Held := held_after bad_cmds.

