(* ===== verification/Auth.v ===== *)
(** * Authentication and the ACL command (src/src/commands/commands.cpp 1759-1925, 5059-5222 and 5847-5940, src/src/core/state.cpp 54-83)

    AUTH and HELLO hand the password to a worker and answer when its verdict
    comes back to the event loop; ACL changes the users meanwhile.  A
    connection's [User *] is the name of the entry in the registry of users it
    points to: the entries do not move, and DELUSER is the only one to erase
    one. *)
From S2P Require Import Prelude Buffer Resp StdString Deque Hashtable HashMap Heap Score ZSet HashSet State World Args Strings Lists Glob Keys Containers Hashes Sets CText CmdTable Handlers Acl Double Crc32 Rdb Txn Backlog Aof Evict Dispatch.

Record AuthJob := mkJob {
  j_fd : nat; j_conn : Z; j_uname : bytes; j_pass : bytes; j_hashes : list bytes; j_known : bool;
  j_ok : bool; j_matched : bytes; j_rehashed : bytes }.

(** What matters here of a [Conn]; [ac_hello] is [hello_pending_proto]. *)
Record AConn := mkAConn {
  ac_id : Z; ac_user : option bytes; ac_pending : bool; ac_hello : Z; ac_proto : Z; ac_failed : Z; ac_close : bool;
  ac_name : bytes; ac_out : Buffer }.

(** History: a password a connection offered, with the credentials the named
    user had then. *)
Record Offer := mkOffer { o_conn : Z; o_uname : bytes; o_pass : bytes; o_hashes : list bytes }.

(** [jobs] are with the thread pool, [posted] are the verdicts on their way
    back to the loop; [offers] and [opened] (connections let in at accept) are
    history. *)
Record AS := mkAS {
  users : gmap bytes User; password : bytes; aconns : gmap nat AConn; g_auth_inflight : Z;
  jobs : list AuthJob; posted : list AuthJob; next_conn_id : Z; as_replica : bool;
  offers : list Offer; opened : list Z }.

Definition with_users (u : gmap bytes User) (pw : bytes) (st : AS) : AS :=
  mkAS u pw (aconns st) (g_auth_inflight st) (jobs st) (posted st) (next_conn_id st) (as_replica st) (offers st) (opened st).
Definition with_aconns (m : gmap nat AConn) (st : AS) : AS :=
  mkAS (users st) (password st) m (g_auth_inflight st) (jobs st) (posted st) (next_conn_id st) (as_replica st) (offers st) (opened st).
Definition with_jobs (n : Z) (js ps : list AuthJob) (st : AS) : AS :=
  mkAS (users st) (password st) (aconns st) n js ps (next_conn_id st) (as_replica st) (offers st) (opened st).
Definition on_aconn (fd : nat) (f : AConn -> AConn) (st : AS) : AS := with_aconns (alter f fd (aconns st)) st.

Definition set_out (f : Buffer -> Buffer) (c : AConn) : AConn :=
  mkAConn (ac_id c) (ac_user c) (ac_pending c) (ac_hello c) (ac_proto c) (ac_failed c) (ac_close c) (ac_name c) (f (ac_out c)).
Definition set_cname (n : bytes) (c : AConn) : AConn :=
  mkAConn (ac_id c) (ac_user c) (ac_pending c) (ac_hello c) (ac_proto c) (ac_failed c) (ac_close c) n (ac_out c).
Definition set_proto (p : Z) (c : AConn) : AConn :=
  mkAConn (ac_id c) (ac_user c) (ac_pending c) (ac_hello c) p (ac_failed c) (ac_close c) (ac_name c) (ac_out c).
Definition set_wait (pending : bool) (hello : Z) (c : AConn) : AConn :=
  mkAConn (ac_id c) (ac_user c) pending hello (ac_proto c) (ac_failed c) (ac_close c) (ac_name c) (ac_out c).
Definition set_identity (u : option bytes) (failed : Z) (close : bool) (c : AConn) : AConn :=
  mkAConn (ac_id c) u (ac_pending c) (ac_hello c) (ac_proto c) failed close (ac_name c) (ac_out c).

Definition answer (fd : nat) (f : Buffer -> Buffer) (st : AS) : AS := on_aconn fd (set_out f) st.
Definition fail (fd : nat) (msg : string) (st : AS) : AS := answer fd (fun b => resp_err b (bs msg)) st.

Definition k_max_auth_inflight : Z := 4.
Definition k_max_failed_auth : Z := 3.
Definition default_name : bytes := bs "default".

(** ** The registry of users *)

Definition acl_bootstrap_default (st : AS) : AS :=
  let pw := password st in
  match users st !! default_name with
  | Some u =>
      if bool_decide (pw_hashes u = []) && negb (bool_decide (pw = [])) then with_users (<[default_name := set_pw [pw] u]> (users st)) pw st else st
  | None =>
      with_users (<[default_name := mkUser CAT_ALL ∅ (if bool_decide (pw = []) then [] else [pw]) [] [] default_name true true true]> (users st)) pw st
  end.

Definition acl_initial_user (st : AS) : option bytes :=
  match users st !! default_name with
  | Some u => if enable u && bool_decide (pw_hashes u = []) then Some default_name else None
  | None => None
  end.

Section Auth.
Context (cred_verify : bytes -> bytes -> bool) (cred_needs_rehash : bytes -> bool) (cred_hash_new : bytes -> bytes) (cred_dummy : bytes).

(** ** Asking *)

(** The credentials to try, of a user that exists, is enabled and has some. *)
Definition known_hashes (uname : bytes) (st : AS) : option (list bytes) :=
  match users st !! uname with Some u => if enable u && negb (bool_decide (pw_hashes u = [])) then Some (pw_hashes u) else None | None => None end.

Definition auth_queue (uname pass : bytes) (fd : nat) (c : AConn) (st : AS) : AS :=
  if k_max_auth_inflight <=? g_auth_inflight st then fail fd "BUSY too many pending AUTH attempts, try again" st
  else
    let known := known_hashes uname st in
    let job := mkJob fd (ac_id c) uname pass (default [cred_dummy] known) (bool_decide (is_Some known)) false [] [] in
    let st := on_aconn fd (set_wait true (ac_hello c)) st in
    mkAS (users st) (password st) (aconns st) (g_auth_inflight st + 1) (jobs st ++ [job]) (posted st) (next_conn_id st) (as_replica st)
      (match known with Some hs => offers st ++ [mkOffer (ac_id c) uname pass hs] | None => offers st end) (opened st).

Definition do_auth (cmd : list bytes) (fd : nat) (c : AConn) (st : AS) : AS :=
  match cmd with
  | [_; pass] => auth_queue default_name pass fd c st
  | [_; uname; pass] => auth_queue uname pass fd c st
  | _ => fail fd "ERR wrong number of arguments for 'auth' command" st
  end.

Definition hello_emit_map (id : Z) (replica : bool) (proto : Z) (out : Buffer) : Buffer :=
  let s b w := resp_str b (bs w) in
  let b := resp_map proto out 7 in
  let b := s (s (s (s b "server") "myred") "version") "1.0.0" in
  let b := resp_int (s b "proto") proto in
  let b := resp_int (s b "id") (i64 id) in
  let b := s (s (s b "mode") "standalone") "role" in
  let b := s b (if replica then "replica" else "master") in
  resp_arr (s b "modules") 0.

Definition client_name_valid (name : bytes) : bool := forallb (fun ch => negb ((code ch <? 33) || (126 <? code ch))) name.

(** The options of HELLO: positions of AUTH and SETNAME, 0 if absent. *)
Fixpoint hello_opts (fuel : nat) (cmd : list bytes) (i auth_at name_at : nat) : option (nat * nat) :=
  match fuel with
  | O => Some (auth_at, name_at)
  | S f =>
      if (length cmd <=? i)%nat then Some (auth_at, name_at)
      else
        let opt := map tolower (nth_arg cmd i) in
        if bool_decide (opt = bs "auth") && (i + 2 <? length cmd)%nat then hello_opts f cmd (i + 3) i name_at
        else if bool_decide (opt = bs "setname") && (i + 1 <? length cmd)%nat then hello_opts f cmd (i + 2) auth_at i
        else None
  end.

Definition do_hello (cmd : list bytes) (fd : nat) (c : AConn) (st : AS) : AS :=
  let parsed := match cmd with
                | _ :: v :: _ => match str2int v with
                                 | None => inl "ERR Protocol version is not an integer or out of range"%string
                                 | Some v => if (v =? 2) || (v =? 3) then inr v else inl "NOPROTO unsupported protocol version"%string
                                 end
                | _ => inr (ac_proto c)
                end in
  match parsed with
  | inl msg => fail fd msg st
  | inr want =>
      match hello_opts (length cmd) cmd 2 0 0 with
      | None => fail fd "ERR Syntax error in HELLO option" st
      | Some (auth_at, name_at) =>
          if negb (name_at =? 0)%nat && negb (client_name_valid (nth_arg cmd (name_at + 1)))
          then fail fd "ERR client names cannot contain spaces, newlines or special characters" st
          else
            let st := if (name_at =? 0)%nat then st else on_aconn fd (set_cname (nth_arg cmd (name_at + 1))) st in
            if negb (auth_at =? 0)%nat then
              let st := do_auth [bs "auth"; nth_arg cmd (auth_at + 1); nth_arg cmd (auth_at + 2)] fd c st in
              on_aconn fd (fun c => if ac_pending c then set_wait true want c else c) st
            else if bool_decide (ac_user c = None) then
              fail fd "NOAUTH HELLO must be called with the client already authenticated, otherwise the HELLO <proto> AUTH <user> <pass> option can be used to authenticated the client and select the RESP protocol version." st
            else on_aconn fd (fun c => set_out (hello_emit_map (ac_id c) (as_replica st) want) (set_proto want c)) st
      end
  end.

(** ** The verdict *)

(** [auth_verify_job] on a worker: the first credential that verifies, and
    what replaces it if it is weak ([rehash], empty on failure). *)
Definition auth_verify_job (rehash : bytes) (job : AuthJob) : AuthJob :=
  match find (fun stored => cred_verify (j_pass job) stored) (j_hashes job) with
  | None => job
  | Some stored =>
      let up := j_known job && cred_needs_rehash stored in
      mkJob (j_fd job) (j_conn job) (j_uname job) (j_pass job) (j_hashes job) (j_known job) true
        (if up then stored else j_matched job) (if up then rehash else j_rehashed job)
  end.

(** [std::find] and the assignment to the slot *)
Fixpoint replace_first (old new : bytes) (l : list bytes) : list bytes :=
  match l with [] => [] | x :: l' => if bool_decide (x = old) then new :: l' else x :: replace_first old new l' end.

Definition rehash_user (job : AuthJob) (u : User) (st : AS) : AS :=
  if bool_decide (j_rehashed job = []) || negb (bool_decide (j_matched job ∈ pw_hashes u)) then st
  else
    with_users (<[j_uname job := set_pw (replace_first (j_matched job) (j_rehashed job) (pw_hashes u)) u]> (users st))
      (if bool_decide (j_uname job = default_name) && bool_decide (password st = j_matched job) then j_rehashed job else password st) st.

Definition auth_grant (uname : bytes) (replica : bool) (c : AConn) : AConn :=
  let hello := ac_hello c in
  let c := set_identity (Some uname) 0 (ac_close c) (set_wait false 0 c) in
  if hello =? 0 then set_out resp_ok c else set_out (hello_emit_map (ac_id c) replica hello) (set_proto hello c).

Definition auth_reject (c : AConn) : AConn :=
  let n := u32 (ac_failed c + 1) in
  set_out (fun b => resp_err b (bs "WRONGPASS invalid username-password pair or user is disable"))
    (set_identity (ac_user c) n (ac_close c || (k_max_failed_auth <=? n)) (set_wait false 0 c)).

Definition auth_complete (job : AuthJob) (st : AS) : AS :=
  let st := with_jobs (g_auth_inflight st - 1) (jobs st) (posted st) st in
  match aconns st !! j_fd job with
  | None => st
  | Some c =>
      if negb (ac_id c =? j_conn job) then st
      else
        match users st !! j_uname job with
        | Some u =>
            if j_ok job && j_known job && enable u
            then on_aconn (j_fd job) (auth_grant (j_uname job) (as_replica st)) (rehash_user job u st)
            else on_aconn (j_fd job) auth_reject st
        | None => on_aconn (j_fd job) auth_reject st
        end
  end.

(** ** CLIENT and ACL *)

Definition do_client (cmd : list bytes) (fd : nat) (c : AConn) (st : AS) : AS :=
  let sub s := bool_decide (map tolower (nth_arg cmd 1) = bs s) in
  let n := length cmd in
  if (n <? 2)%nat then fail fd "ERR wrong number of arguments for 'client command" st
  else if sub "id" && (n =? 2)%nat then answer fd (fun b => resp_int b (i64 (ac_id c))) st
  else if sub "getname" && (n =? 2)%nat then
    answer fd (fun b => if bool_decide (ac_name c = []) then resp_nil (ac_proto c) b else resp_str b (ac_name c)) st
  else if sub "setname" && (n =? 3)%nat then
    if negb (client_name_valid (nth_arg cmd 2)) then fail fd "ERR Client names cannot contain spaces, newlines or special characteres." st
    else answer fd resp_ok (on_aconn fd (set_cname (nth_arg cmd 2)) st)
  else if sub "setinfo" && (n =? 4)%nat then answer fd resp_ok st
  else fail fd "ERR Unknown CLIENT subcommand or wrong number of arguments" st.

(** ACL SETUSER: the rules are applied to a copy. *)
Definition acl_setuser (cmd : list bytes) (fd : nat) (st : AS) : AS :=
  let name := nth_arg cmd 2 in
  if (length cmd <? 3)%nat then fail fd "ERR wrong number of arguments for 'acl|setuser'" st
  else if negb (acl_token_ok name) then fail fd "ERR ACL username contains a space or control byte" st
  else
    let named u := if bool_decide (user_name u = []) then set_name name u else u in
    let staged := named (default fresh_user (users st !! name)) in
    match apply_rules cred_hash_new cred_verify staged (drop 3 cmd) with
    | (_, Some bad) => answer fd (fun b => resp_err b (bs "ERR Error in ACL SETUSER modificer '" ++ bad ++ bs "'")) st
    | (u, None) => answer fd resp_ok (with_users (<[name := named u]> (users st)) (password st) st)
    end.

Definition drop_identity (victim : bytes) (c : AConn) : AConn :=
  if bool_decide (ac_user c = Some victim) then set_identity None (ac_failed c) true c else c.

Definition acl_deluser (cmd : list bytes) (fd : nat) (st : AS) : AS :=
  let name := nth_arg cmd 2 in
  if (length cmd <? 3)%nat then fail fd "ERR wrong number of arguments for 'acl|deluser'" st
  else if bool_decide (name = default_name) then fail fd "ERR the 'default' user cannot be removed" st
  else
    match users st !! name with
    | None => answer fd (fun b => resp_int b 0) st
    | Some _ => answer fd (fun b => resp_int b 1) (with_users (delete name (users st)) (password st) (with_aconns (drop_identity name <$> aconns st) st))
    end.

(** The reports.  The order of an [unordered_map] and the random digits of
    GENPASS (none on failure) are arguments. *)
Context (user_order : gmap bytes User -> list (bytes * User)) (rule_order : gmap bytes bool -> list (bytes * bool)) (cred_random_hex : nat -> bytes).

Definition joined (words : list bytes) : bytes := match words with [] => [] | w :: ws => w ++ concat (cons (chr 32) <$> ws) end.

Definition acl_getuser (u : User) (out : Buffer) : Buffer :=
  let s b w := resp_str b (bs w) in
  let cmds := (if allow_cats u =? CAT_ALL then bs "+@all" else if negb (allow_cats u =? 0) then bs "+<cats>" else bs "-@all") ++
    concat (cons (chr 32) <$> (override_rule <$> rule_order (cmd_overrides u))) in
  let b := s (s (resp_arr out 8) "flags") (if enable u then "on" else "off") in
  let b := resp_str (s b "commands") cmds in
  let b := resp_str (s b "keys") (joined ((if all_keys u then [bs "~*"] else []) ++ (cons (chr 126) <$> key_patterns u))) in
  resp_str (s b "channels") (joined ((if all_channels u then [bs "&*"] else []) ++ (cons (chr 38) <$> channel_patterns u))).

Definition acl_genpass (cmd : list bytes) (out : Buffer) : Buffer :=
  let bits := match cmd with
              | _ :: _ :: b :: _ => match str2int b with Some b => if (b <? 1) || (4096 <? b) then None else Some b | None => None end
              | _ => Some 256
              end in
  match bits with
  | None => resp_err out MSG_SYNTAX
  | Some bits =>
      let s := cred_random_hex (Z.to_nat ((bits + 3) / 4)) in
      if bool_decide (s = []) then resp_err out (bs "ERR fail to generate a secure password") else resp_str out s
  end.

Definition cat_list : list string := ["read"; "write"; "keyspace"; "admin"; "dangerous"; "fast"; "slow"; "connection"; "transaction"]%string.

Definition do_acl (cmd : list bytes) (fd : nat) (c : AConn) (st : AS) : AS :=
  let sub s := bool_decide (map tolower (nth_arg cmd 1) = bs s) in
  let count b := resp_arr b (u32 (Z.of_nat (base.size (users st)))) in
  if sub "whoami" then
    answer fd (fun b => resp_str b (match ac_user c ≫= (fun n => users st !! n) with Some u => user_name u | None => [] end)) st
  else if sub "users" then answer fd (fun b => foldl (fun b p => resp_str b p.1) (count b) (user_order (users st))) st
  else if sub "cat" then answer fd (fun b => foldl (fun b w => resp_str b (bs w)) (resp_arr b 9) cat_list) st
  else if sub "genpass" then answer fd (acl_genpass cmd) st
  else if sub "setuser" then acl_setuser cmd fd st
  else if sub "deluser" then acl_deluser cmd fd st
  else if sub "getuser" then
    if (length cmd <? 3)%nat then fail fd "ERR wrong number og arguments for 'acl|getuser'" st
    else match users st !! nth_arg cmd 2 with
         | None => answer fd (resp_nil (ac_proto c)) st
         | Some u => answer fd (acl_getuser u) st
         end
  else if sub "list" then
    answer fd (fun b => foldl (fun b p => resp_str b (acl_format_user rule_order p.1 p.2 false)) (count b) (user_order (users st))) st
  else fail fd "ERR Unknown ACL subcommand or wrong number of arguments" st.

(** ** A run *)

(** A new connection, a request (with the state of the connection that the
    dispatcher asks about and that is kept elsewhere), a worker done with the
    job at some place of the queue, a verdict taken by the loop, a changed
    requirepass, a connection closed.  The order is the scheduler's. *)
Inductive AEvent :=
  | AAccept (fd : nat)
  | ARequest (fd : nat) (cmd : list bytes) (subscribed multi exec : bool)
  | AVerify (i : nat) (rehash : bytes)
  | AComplete
  | ARequirepass (pw : bytes)
  | AClose (fd : nat).

(** The size of a new connection's buffers. *)
Definition conn_buffer : nat := Z.to_nat 65536.
Arguments conn_buffer : simpl never.

Definition accept_conn (fd : nat) (st : AS) : AS :=
  let u := acl_initial_user st in
  mkAS (users st) (password st) (<[fd := mkAConn (next_conn_id st) u false 0 2 0 false [] (buf_create conn_buffer)]> (aconns st)) (g_auth_inflight st) (jobs st) (posted st)
    (next_conn_id st + 1) (as_replica st) (offers st) (match u with Some _ => next_conn_id st :: opened st | None => opened st end).

Definition set_requirepass (pw : bytes) (st : AS) : AS :=
  with_users (alter (set_pw (if bool_decide (pw = []) then [] else [pw])) default_name (users st)) pw st.

Definition auth_request (g : Gate) (fd : nat) (cmd : list bytes) (subscribed multi exec : bool) (c : AConn) (st : AS) : AS :=
  match route g (mkClient (ac_user c ≫= fun n => users st !! n) (ac_proto c) subscribed multi exec) cmd with
  | RAuth => do_auth cmd fd c st
  | RHello => do_hello cmd fd c st
  | RConn name => if bool_decide (name = bs "acl") then do_acl cmd fd c st
                  else if bool_decide (name = bs "client") then do_client cmd fd c st else st
  | RError _ msg => answer fd (fun b => resp_err b msg) st
  | _ => st
  end.

Definition a_event (g : Gate) (e : AEvent) (st : AS) : AS :=
  match e with
  | AAccept fd => match aconns st !! fd with None => accept_conn fd st | Some _ => st end
  | ARequest fd cmd subscribed multi exec =>
      match aconns st !! fd with
      | Some c => if ac_pending c then st else auth_request g fd cmd subscribed multi exec c st
      | None => st
      end
  | AVerify i rehash =>
      match jobs st !! i with
      | Some job => with_jobs (g_auth_inflight st) (delete i (jobs st)) (posted st ++ [auth_verify_job rehash job]) st
      | None => st
      end
  | AComplete =>
      match posted st with
      | job :: rest => auth_complete job (with_jobs (g_auth_inflight st) (jobs st) rest st)
      | [] => st
      end
  | ARequirepass pw => set_requirepass pw st
  | AClose fd => with_aconns (delete fd (aconns st)) st
  end.

Definition a_run (g : Gate) (evs : list AEvent) (st : AS) : AS := foldl (fun st e => a_event g e st) st evs.
End Auth.

(** ** The invariant *)

Section Inv.
Context (cred_verify : bytes -> bytes -> bool) (cred_needs_rehash : bytes -> bool) (cred_hash_new : bytes -> bytes) (cred_dummy : bytes).
Context (user_order : gmap bytes User -> list (bytes * User)) (rule_order : gmap bytes bool -> list (bytes * bool)) (cred_random_hex : nat -> bytes).

Definition outstanding (st : AS) : list AuthJob := jobs st ++ posted st.

(** Why connection [id] may be user [n]: it came in while the default user
    needed no password, or it offered a password that one of the user's
    credentials of that moment verifies. *)
Definition justified (st : AS) (id : Z) (n : bytes) : Prop :=
  n = default_name /\ id ∈ opened st \/
  exists o, o ∈ offers st /\ o_conn o = id /\ o_uname o = n /\ exists h, h ∈ o_hashes o /\ cred_verify (o_pass o) h = true.

Record job_ok (st : AS) (j : AuthJob) : Prop := {
  jk_offer : j_known j = true -> mkOffer (j_conn j) (j_uname j) (j_pass j) (j_hashes j) ∈ offers st;
  jk_ok : j_ok j = true -> exists h, h ∈ j_hashes j /\ cred_verify (j_pass j) h = true;
  jk_id : j_conn j < next_conn_id st;
  jk_fd : forall fd c, aconns st !! fd = Some c -> ac_id c = j_conn j -> j_fd j = fd;
}.

Record auth_ok (st : AS) : Prop := {
  ao_live : forall fd c n, aconns st !! fd = Some c -> ac_user c = Some n -> is_Some (users st !! n);
  ao_just : forall fd c n, aconns st !! fd = Some c -> ac_user c = Some n -> justified st (ac_id c) n;
  ao_job : forall j, j ∈ outstanding st -> job_ok st j;
  ao_flight : g_auth_inflight st = Z.of_nat (length (outstanding st)) /\ g_auth_inflight st <= k_max_auth_inflight;
  ao_id : forall fd c, aconns st !! fd = Some c -> ac_id c < next_conn_id st;
  ao_distinct : forall fd fd' c c', aconns st !! fd = Some c -> aconns st !! fd' = Some c' -> ac_id c = ac_id c' -> fd = fd';
  ao_nodup : NoDup (j_conn <$> outstanding st);
  ao_pending : forall fd c, aconns st !! fd = Some c -> ac_pending c = true <-> exists j, j ∈ outstanding st /\ j_conn j = ac_id c;
}.

(** A change of the connections that leaves who they are and what they wait
    for, and of the users. *)
Record calm (st st' : AS) : Prop := {
  cm_jobs : jobs st' = jobs st /\ posted st' = posted st /\ g_auth_inflight st' = g_auth_inflight st;
  cm_hist : next_conn_id st' = next_conn_id st /\ offers st' = offers st /\ opened st' = opened st;
  cm_conns : forall fd c', aconns st' !! fd = Some c' ->
    exists c, aconns st !! fd = Some c /\ ac_id c' = ac_id c /\ ac_pending c' = ac_pending c /\ (ac_user c' = ac_user c \/ ac_user c' = None);
}.

Definition live (st : AS) : Prop := forall fd c n, aconns st !! fd = Some c -> ac_user c = Some n -> is_Some (users st !! n).

Lemma calm_refl st : calm st st.
Proof. split; [done|done|]. intros fd c H. exists c. auto. Qed.

Lemma calm_trans a b c : calm a b -> calm b c -> calm a c.
Proof.
  intros [H1 H2 H3] [G1 G2 G3]. split; [intuition congruence|intuition congruence|]. intros fd x (y & Hy & Y1 & Y2 & Y3)%G3. destruct (H3 fd y Hy) as (z & Hz & Z1 & Z2 & Z3).
  exists z. split; [done|]. split; [congruence|]. split; [congruence|]. destruct Y3 as [->|]; [|by right]. done.
Qed.

Lemma calm_ok st st' : auth_ok st -> calm st st' -> live st' -> auth_ok st'.
Proof.
  intros [H1 H2 H3 H4 H5 H6 H7 H8] [(C1 & C2 & C3) (C4 & C5 & C6) C7] Hl.
  assert (Ho : outstanding st' = outstanding st) by (unfold outstanding; congruence).
  split; rewrite ?Ho, ?C3, ?C4; try done.
  - intros fd c' n Hc Hu. destruct (C7 fd c' Hc) as (c & Hc0 & E1 & _ & E3). destruct E3 as [E3|E3]; [|congruence].
    unfold justified. rewrite C5, C6, E1. apply (H2 fd c n Hc0). congruence.
  - intros j Hj. destruct (H3 j Hj) as [J1 J2 J3 J4]. split; rewrite ?C4, ?C5; try done.
    intros fd c' Hc Hid. destruct (C7 fd c' Hc) as (c & Hc0 & E1 & _). apply (J4 fd c Hc0). congruence.
  - intros fd c' Hc. destruct (C7 fd c' Hc) as (c & Hc0 & -> & _). by apply (H5 fd).
  - intros fd fd' c1 c2 Hc1 Hc2 Hid. destruct (C7 fd c1 Hc1) as (d1 & D1 & E1 & _). destruct (C7 fd' c2 Hc2) as (d2 & D2 & E2 & _). apply (H6 fd fd' d1 d2 D1 D2). congruence.
  - intros fd c' Hc. destruct (C7 fd c' Hc) as (c & Hc0 & -> & -> & _). by apply (H8 fd).
Qed.

(** A change of one connection that keeps its identity. *)
Lemma calm_conn fd f st : (forall c, ac_id (f c) = ac_id c /\ ac_pending (f c) = ac_pending c /\ ac_user (f c) = ac_user c) -> calm st (on_aconn fd f st) /\ (live st -> live (on_aconn fd f st)).
Proof.
  intros Hf. assert (Hget : forall fd' c', aconns (on_aconn fd f st) !! fd' = Some c' -> exists c, aconns st !! fd' = Some c /\ (c' = c \/ c' = f c)).
  { intros fd' c' H. cbn in H. destruct (decide (fd' = fd)) as [->|Hne]; [rewrite lookup_alter_eq in H|rewrite lookup_alter_ne in H by done; eauto].
    destruct (aconns st !! fd) as [c|]; [|done]. cbn in H. injection H as <-. eauto. }
  split; [split; [done|done|]|].
  - intros fd' c' H. destruct (Hget fd' c' H) as (c & Hc & [->| ->]); exists c; destruct (Hf c) as (E1 & E2 & E3); auto.
  - intros Hl fd' c' n H Hu. destruct (Hget fd' c' H) as (c & Hc & [->| ->]); apply (Hl fd' c n Hc); [done|]. by rewrite <- Hu, (proj2 (proj2 (Hf c))).
Qed.

Lemma conn_keeps fd f st : (forall c, ac_id (f c) = ac_id c /\ ac_pending (f c) = ac_pending c /\ ac_user (f c) = ac_user c) -> auth_ok st -> auth_ok (on_aconn fd f st).
Proof. intros Hf Hok. destruct (calm_conn fd f st Hf) as [C L]. eapply calm_ok; [done|exact C|]. exact (L (ao_live _ Hok)). Qed.

Lemma answer_ok fd f st : auth_ok st -> auth_ok (answer fd f st).
Proof. by apply conn_keeps. Qed.

Lemma fail_ok fd msg st : auth_ok st -> auth_ok (fail fd msg st).
Proof. apply answer_ok. Qed.

(** Users may be added or changed at will. *)
Lemma users_ok st us pw : auth_ok st -> (forall n, is_Some (users st !! n) -> is_Some (us !! n)) -> auth_ok (with_users us pw st).
Proof.
  intros Hok Hus. apply (calm_ok st); [done|split; [done|done|intros fd c H; by exists c; auto]|].
  intros fd c n Hc Hu. apply Hus. by apply (ao_live _ Hok fd c n).
Qed.

Lemma insert_keeps {V} (m : gmap bytes V) k v n : is_Some (m !! n) -> is_Some (<[k := v]> m !! n).
Proof. intros H. destruct (decide (n = k)) as [->|]; [rewrite lookup_insert_eq; by eexists|by rewrite lookup_insert_ne]. Qed.

(** ** Every step keeps it *)

Lemma queue_job_ok fd c st hello uname pass hs known :
  auth_ok st -> aconns st !! fd = Some c -> ac_pending c = false -> g_auth_inflight st < k_max_auth_inflight ->
  auth_ok (mkAS (users st) (password st) (alter (set_wait true hello) fd (aconns st)) (g_auth_inflight st + 1)
    (jobs st ++ [mkJob fd (ac_id c) uname pass hs known false [] []]) (posted st) (next_conn_id st) (as_replica st)
    (if known then offers st ++ [mkOffer (ac_id c) uname pass hs] else offers st) (opened st)).
Proof.
  intros [H1 H2 H3 [H4 H4'] H5 H6 H7 H8] Hc Hp Hlt. set (job := mkJob _ _ _ _ _ _ _ _ _).
  assert (Hperm : (jobs st ++ [job]) ++ posted st ≡ₚ job :: outstanding st) by (unfold outstanding; solve_Permutation).
  assert (Hget : forall fd' c', alter (set_wait true hello) fd (aconns st) !! fd' = Some c' ->
    exists c0, aconns st !! fd' = Some c0 /\ ac_id c' = ac_id c0 /\ ac_user c' = ac_user c0 /\ (fd' = fd /\ ac_pending c' = true \/ fd' <> fd /\ c' = c0)).
  { intros fd' c' H. destruct (decide (fd' = fd)) as [->|Hne]; [rewrite lookup_alter_eq, Hc in H; injection H as <-; exists c; auto 6|rewrite lookup_alter_ne in H by done; exists c'; auto 6]. }
  assert (Hoff : forall o, o ∈ offers st -> o ∈ (if known then offers st ++ [mkOffer (ac_id c) uname pass hs] else offers st)) by (intros o Ho; destruct known; [apply elem_of_app; by left|done]).
  split; unfold outstanding; cbn [users aconns jobs posted g_auth_inflight next_conn_id].
  - intros fd' c' n Hc' Hu. destruct (Hget fd' c' Hc') as (c0 & G1 & _ & G3 & _). apply (H1 fd' c0 n G1). congruence.
  - intros fd' c' n Hc' Hu. destruct (Hget fd' c' Hc') as (c0 & G1 & G2 & G3 & _). rewrite G2. destruct (H2 fd' c0 n G1) as [?|(o & O1 & O2)]; [congruence|by left|right; exists o; cbn; auto].
  - intros j Hj. rewrite Hperm in Hj. apply elem_of_cons in Hj as [->|Hj].
    + split; cbn; [intros ->; apply elem_of_app; right; by left|done|by apply (H5 fd)|]. intros fd' c' Hc' Hid. destruct (Hget fd' c' Hc') as (c0 & G1 & G2 & _). apply (H6 fd fd' c c0 Hc G1). congruence.
    + destruct (H3 j Hj) as [J1 J2 J3 J4]. split; cbn; [auto|done|done|]. intros fd' c' Hc' Hid. destruct (Hget fd' c' Hc') as (c0 & G1 & G2 & _). apply (J4 fd' c0 G1). congruence.
  - rewrite Hperm. cbn [length]. lia.
  - intros fd' c' Hc'. destruct (Hget fd' c' Hc') as (c0 & G1 & -> & _). by apply (H5 fd').
  - intros fd1 fd2 c1 c2 Hc1 Hc2 Hid. destruct (Hget fd1 c1 Hc1) as (d1 & D1 & E1 & _). destruct (Hget fd2 c2 Hc2) as (d2 & D2 & E2 & _). apply (H6 fd1 fd2 d1 d2 D1 D2). congruence.
  - rewrite Hperm. cbn [fmap list_fmap]. apply NoDup_cons. split; [|done]. intros Hin. apply list_elem_of_fmap in Hin as (j & Ej & Hj). cbn in Ej.
    assert (ac_pending c = true) by (apply (H8 fd c Hc); by exists j). congruence.
  - intros fd' c' Hc'. destruct (Hget fd' c' Hc') as (c0 & G1 & -> & _ & [[-> Gp]|[Hne ->]]).
    + rewrite Hc in G1. injection G1 as <-. rewrite Gp. split; [|done]. intros _. exists job. rewrite Hperm. split; [by left|done].
    + rewrite (H8 fd' c0 G1). split; intros (j & Hj & Ej); [exists j; rewrite Hperm; split; [by right|done]|]. rewrite Hperm in Hj. apply elem_of_cons in Hj as [->|Hj]; [|by exists j].
      cbn in Ej. destruct Hne. by apply (H6 fd' fd c0 c).
Qed.

Lemma do_auth_ok cmd fd c c1 st : auth_ok st -> aconns st !! fd = Some c1 -> ac_id c1 = ac_id c -> ac_pending c1 = false -> auth_ok (do_auth cred_dummy cmd fd c st).
Proof.
  intros Hok Hc Hid Hp. unfold do_auth.
  assert (Hq : forall uname pass, auth_ok (auth_queue cred_dummy uname pass fd c st)).
  { intros uname pass. unfold auth_queue. destruct (k_max_auth_inflight <=? g_auth_inflight st) eqn:E; [by apply fail_ok|]. cbn zeta.
    cbn [on_aconn with_aconns users password aconns g_auth_inflight jobs posted next_conn_id as_replica offers opened].
    rewrite <- Hid. destruct (known_hashes uname st) as [hs|].
    - rewrite bool_decide_eq_true_2 by (by eexists). apply (queue_job_ok fd c1 st (ac_hello c) uname pass hs true); [done..|lia].
    - rewrite bool_decide_eq_false_2 by (by intros [? ?]). apply (queue_job_ok fd c1 st (ac_hello c) uname pass [cred_dummy] false); [done..|lia]. }
  destruct cmd as [|a [|b [|d [|x l]]]]; try apply Hq; by apply fail_ok.
Qed.

Lemma do_hello_ok cmd fd c st : auth_ok st -> aconns st !! fd = Some c -> ac_pending c = false -> auth_ok (do_hello cred_dummy cmd fd c st).
Proof.
  intros Hok Hc Hp. unfold do_hello. destruct (match cmd with [] => _ | _ => _ end) as [msg|want]; [by apply fail_ok|].
  destruct (hello_opts _ _ _ _ _) as [[auth_at name_at]|]; [|by apply fail_ok].
  destruct (negb (name_at =? 0)%nat && _); [by apply fail_ok|]. cbn zeta. set (st1 := if (name_at =? 0)%nat then st else _).
  assert (Hok1 : auth_ok st1) by (unfold st1; destruct (name_at =? 0)%nat; [done|by apply conn_keeps]).
  destruct (negb (auth_at =? 0)%nat).
  - assert (Hc1 : exists c1, aconns st1 !! fd = Some c1 /\ ac_id c1 = ac_id c /\ ac_pending c1 = false).
    { unfold st1. destruct (name_at =? 0)%nat; [by exists c|]. cbn. rewrite lookup_alter_eq, Hc. cbn. eexists. by split. }
    destruct Hc1 as (c1 & G1 & G2 & G3). apply conn_keeps; [intros x; by destruct (ac_pending x) eqn:E|]. by eapply do_auth_ok.
  - case_bool_decide; [by apply fail_ok|]. by apply conn_keeps.
Qed.

(** The branches of a command that only answers. *)
Ltac auth_walk Hok :=
  repeat match goal with
         | |- auth_ok (if ?b then _ else _) => destruct b
         | |- auth_ok (match ?x with Some _ => _ | None => _ end) => destruct x
         | |- auth_ok (answer _ _ ?s) => is_var s; exact (answer_ok _ _ _ Hok)
         | |- auth_ok (fail _ _ _) => exact (fail_ok _ _ _ Hok)
         end.

Lemma do_client_ok cmd fd c st : auth_ok st -> auth_ok (do_client cmd fd c st).
Proof. intros Hok. unfold do_client. cbn zeta. auth_walk Hok. by apply answer_ok, conn_keeps. Qed.

Lemma acl_deluser_ok cmd fd st : auth_ok st -> auth_ok (acl_deluser cmd fd st).
Proof.
  intros Hok. unfold acl_deluser. cbn zeta. destruct (length cmd <? 3)%nat; [by apply fail_ok|]. case_bool_decide as Hd; [by apply fail_ok|].
  set (name := nth_arg cmd 2) in *. destruct (users st !! name) as [u|] eqn:E; [|by apply answer_ok]. apply answer_ok.
  assert (Hget : forall fd' c', (drop_identity name <$> aconns st) !! fd' = Some c' -> exists c, aconns st !! fd' = Some c /\ c' = drop_identity name c).
  { intros fd' c' H. rewrite lookup_fmap in H. destruct (aconns st !! fd') as [c|]; [|done]. injection H as <-. by exists c. }
  apply (calm_ok st); [done|split; [done|done|]|].
  - intros fd' c' H. destruct (Hget fd' c' H) as (c & Hc & ->). exists c. split; [done|]. unfold drop_identity. case_bool_decide; cbn; auto.
  - intros fd' c' n H Hu. cbn in H |- *. destruct (Hget fd' c' H) as (c & Hc & ->). unfold drop_identity in Hu. case_bool_decide as Hv; cbn in Hu; [done|].
    rewrite lookup_delete_ne; [by apply (ao_live _ Hok fd' c n)|]. intros <-. by destruct Hv.
Qed.

Lemma acl_setuser_ok cmd fd st : auth_ok st -> auth_ok (acl_setuser cred_verify cred_hash_new cmd fd st).
Proof.
  intros Hok. unfold acl_setuser. cbn zeta. case_match; [by apply fail_ok|]. case_match; [by apply fail_ok|].
  destruct (apply_rules _ _ _ _) as [u [bad|]]; [by apply answer_ok|]. apply answer_ok, users_ok; [done|]. intros n. apply insert_keeps.
Qed.

Lemma do_acl_ok cmd fd c st : auth_ok st -> auth_ok (do_acl cred_verify cred_hash_new user_order rule_order cred_random_hex cmd fd c st).
Proof.
  intros Hok. unfold do_acl. cbn zeta. auth_walk Hok; [by apply acl_setuser_ok|by apply acl_deluser_ok].
Qed.

Lemma verify_ok i rehash job st : auth_ok st -> jobs st !! i = Some job ->
  auth_ok (with_jobs (g_auth_inflight st) (delete i (jobs st)) (posted st ++ [auth_verify_job cred_verify cred_needs_rehash rehash job]) st).
Proof.
  intros [H1 H2 H3 H4 H5 H6 H7 H8] Hi. set (job' := auth_verify_job _ _ _ _).
  assert (Hold : outstanding st ≡ₚ job :: (delete i (jobs st) ++ posted st)) by (unfold outstanding; rewrite (delete_Permutation _ _ _ Hi) at 1; done).
  assert (Hnew : delete i (jobs st) ++ posted st ++ [job'] ≡ₚ job' :: (delete i (jobs st) ++ posted st)) by solve_Permutation.
  assert (Hj' : j_conn job' = j_conn job /\ j_fd job' = j_fd job /\ j_uname job' = j_uname job /\ j_pass job' = j_pass job /\ j_hashes job' = j_hashes job /\ j_known job' = j_known job /\
    (j_ok job' = true -> j_ok job = true \/ exists h, h ∈ j_hashes job /\ cred_verify (j_pass job) h = true)).
  { unfold job', auth_verify_job. destruct (find _ _) as [h|] eqn:E; [|by auto 10]. cbn. split_and!; try done. intros _. right. apply find_some in E as [E1 E2]. exists h. split; [by apply list_elem_of_In|done]. }
  destruct Hj' as (E1 & E2 & E3 & E4 & E5 & E6 & E7). destruct (H3 job ltac:(rewrite Hold; by left)) as [J1 J2 J3 J4].
  split; unfold outstanding; cbn [with_jobs users aconns jobs posted g_auth_inflight next_conn_id offers opened]; try done.
  - intros j Hj. rewrite Hnew in Hj. apply elem_of_cons in Hj as [->|Hj]; [|destruct (H3 j ltac:(rewrite Hold; by right)); by split].
    split; rewrite ?E1, ?E2, ?E3, ?E4, ?E5, ?E6; try done. intros Hk. destruct (E7 Hk) as [E|E]; [exact (J2 E)|exact E].
  - destruct H4 as [H4 H4']. rewrite (Permutation_length Hold) in H4. rewrite (Permutation_length Hnew). cbn [length] in *. done.
  - rewrite Hnew. rewrite Hold in H7. cbn [fmap list_fmap] in *. by rewrite E1.
  - intros fd c Hc. rewrite (H8 fd c Hc). split; intros (j & Hj & Ej).
    + rewrite Hold in Hj. apply elem_of_cons in Hj as [->|Hj]; [exists job'|exists j]; rewrite Hnew; (split; [|congruence]); [by left|by right].
    + rewrite Hnew in Hj. apply elem_of_cons in Hj as [->|Hj]; [exists job|exists j]; rewrite Hold; (split; [|congruence]); [by left|by right].
Qed.

(** A verdict leaves the queue: what remains, with its connection no longer
    waiting, whatever it became. *)
Lemma settle_ok job rest f st : auth_ok st -> posted st = job :: rest ->
  (forall c, aconns st !! j_fd job = Some c -> ac_id c = j_conn job ->
    ac_id (f c) = ac_id c /\ ac_pending (f c) = false /\ (forall n, ac_user (f c) = Some n -> ac_user c = Some n \/ (is_Some (users st !! n) /\ justified st (ac_id c) n))) ->
  let st1 := with_jobs (g_auth_inflight st - 1) (jobs st) rest st in
  auth_ok (match aconns st !! j_fd job with
           | Some c => if negb (ac_id c =? j_conn job) then st1 else on_aconn (j_fd job) f st1
           | None => st1
           end).
Proof.
  intros [H1 H2 H3 H4 H5 H6 H7 H8] Hp Hf. cbn zeta. set (st1 := with_jobs _ _ _ _).
  assert (Hold : outstanding st ≡ₚ job :: (jobs st ++ rest)) by (unfold outstanding; rewrite Hp; solve_Permutation).
  assert (Hin : forall j, j ∈ jobs st ++ rest -> j ∈ outstanding st) by (intros j Hj; rewrite Hold; by right).
  rewrite Hold in H7. cbn [fmap list_fmap] in H7. apply NoDup_cons in H7 as [Hnot H7].
  assert (Hmine : forall j, j ∈ jobs st ++ rest -> j_conn j <> j_conn job) by (intros j Hj E; apply Hnot, list_elem_of_fmap; by exists j).
  assert (Hflight : g_auth_inflight st - 1 = Z.of_nat (length (jobs st ++ rest)) /\ g_auth_inflight st - 1 <= k_max_auth_inflight).
  { destruct H4 as [H4 H4']. rewrite (Permutation_length Hold) in H4. cbn [length] in H4. lia. }
  assert (Hother : forall fd c, aconns st !! fd = Some c -> ac_id c <> j_conn job -> ac_pending c = true <-> exists j, j ∈ jobs st ++ rest /\ j_conn j = ac_id c).
  { intros fd c Hc Hne. rewrite (H8 fd c Hc). split; intros (j & Hj & Ej); [|exists j; auto]. rewrite Hold in Hj. apply elem_of_cons in Hj as [->|Hj]; [congruence|by exists j]. }
  assert (Hquiet : (forall fd c, aconns st !! fd = Some c -> ac_id c <> j_conn job) -> auth_ok st1).
  { intros Hno. split; unfold outstanding; cbn; try done; [intros j Hj; destruct (H3 j (Hin j Hj)); by split|]. intros fd c Hc. by apply (Hother fd c Hc), (Hno fd). }
  pose proof (H3 job ltac:(rewrite Hold; by left)) as [_ _ _ Jfd].
  destruct (aconns st !! j_fd job) as [c|] eqn:Ec.
  2: { apply Hquiet. intros fd c Hc E. pose proof (Jfd fd c Hc E) as Efd. congruence. }
  destruct (ac_id c =? j_conn job) eqn:Eid; cbn [negb].
  2: { apply Hquiet. intros fd c' Hc E. pose proof (Jfd fd c' Hc E) as <-. assert (c' = c) by congruence. subst. lia. }
  apply Z.eqb_eq in Eid. destruct (Hf c eq_refl Eid) as (F1 & F2 & F3).
  assert (Hget : forall fd' c', aconns (on_aconn (j_fd job) f st1) !! fd' = Some c' -> fd' = j_fd job /\ c' = f c \/ fd' <> j_fd job /\ aconns st !! fd' = Some c').
  { intros fd' c' H. cbn in H. destruct (decide (fd' = j_fd job)) as [->|Hne]; [rewrite lookup_alter_eq, Ec in H; injection H as <-; by left|rewrite lookup_alter_ne in H by done; by right]. }
  assert (Hids : forall fd' c', aconns (on_aconn (j_fd job) f st1) !! fd' = Some c' -> exists c0, aconns st !! fd' = Some c0 /\ ac_id c' = ac_id c0).
  { intros fd' c' H. destruct (Hget fd' c' H) as [[-> ->]|[_ G]]; [by exists c|by exists c']. }
  split; unfold outstanding; cbn [on_aconn with_aconns st1 with_jobs users jobs posted g_auth_inflight next_conn_id]; try done.
  - intros fd' c' n Hc Hu. destruct (Hget fd' c' Hc) as [[-> ->]|[_ G]]; [|by apply (H1 fd' c')]. destruct (F3 n Hu) as [Hu'|[? _]]; [by apply (H1 (j_fd job) c)|done].
  - intros fd' c' n Hc Hu. destruct (Hget fd' c' Hc) as [[-> ->]|[_ G]]; [|by apply (H2 fd' c')]. rewrite F1. destruct (F3 n Hu) as [Hu'|[_ ?]]; [by apply (H2 (j_fd job) c)|done].
  - intros j Hj. destruct (H3 j (Hin j Hj)) as [J1 J2 J3 J4]. split; try done. intros fd' c' Hc E. destruct (Hids fd' c' Hc) as (c0 & G1 & G2). apply (J4 fd' c0 G1). congruence.
  - intros fd' c' Hc. destruct (Hids fd' c' Hc) as (c0 & G1 & ->). by apply (H5 fd').
  - intros f1 f2 c1 c2 G1 G2 E. destruct (Hids f1 c1 G1) as (d1 & D1 & E1). destruct (Hids f2 c2 G2) as (d2 & D2 & E2). apply (H6 f1 f2 d1 d2 D1 D2). congruence.
  - intros fd' c' Hc. destruct (Hget fd' c' Hc) as [[-> ->]|[Hne G]].
    + rewrite F2. split; [done|]. intros (j & Hj & Ej). destruct (Hmine j Hj). congruence.
    + apply (Hother fd' c' G). intros E. apply Hne. apply (H6 fd' (j_fd job) c' c G Ec). congruence.
Qed.

Lemma complete_ok job rest st : auth_ok st -> posted st = job :: rest -> auth_ok (auth_complete job (with_jobs (g_auth_inflight st) (jobs st) rest st)).
Proof.
  intros Hok Hp. pose proof (ao_job _ Hok job) as Hj. unfold outstanding in Hj. rewrite Hp in Hj. specialize (Hj ltac:(apply elem_of_app; right; by left)).
  destruct Hj as [J1 J2 _ _].
  set (st1 := with_jobs (g_auth_inflight st - 1) (jobs st) rest st).
  assert (Hreject : forall c, ac_id (auth_reject c) = ac_id c /\ ac_pending (auth_reject c) = false /\
    (forall n, ac_user (auth_reject c) = Some n -> ac_user c = Some n \/ (is_Some (users st !! n) /\ justified st (ac_id c) n))) by (intros c; unfold auth_reject; cbn; auto).
  unfold auth_complete. cbn zeta. cbn [with_jobs g_auth_inflight jobs posted aconns users as_replica]. fold st1.
  destruct (users st !! j_uname job) as [u|] eqn:Eu.
  2: { apply (settle_ok job rest auth_reject st Hok Hp). auto. }
  destruct (j_ok job && j_known job && enable u) eqn:Eg.
  2: { apply (settle_ok job rest auth_reject st Hok Hp). auto. }
  apply andb_true_iff in Eg as [[Gok Gk]%andb_true_iff _].
  assert (Hgrant : forall c, ac_id c = j_conn job -> ac_id (auth_grant (j_uname job) (as_replica st) c) = ac_id c /\ ac_pending (auth_grant (j_uname job) (as_replica st) c) = false /\
    (forall n, ac_user (auth_grant (j_uname job) (as_replica st) c) = Some n -> ac_user c = Some n \/ (is_Some (users st !! n) /\ justified st (ac_id c) n))).
  { intros c Hid. unfold auth_grant. destruct (ac_hello c =? 0); cbn; (split; [done|]; split; [done|]; intros n [= <-]; right; split; [by eexists|right; exists (mkOffer (j_conn job) (j_uname job) (j_pass job) (j_hashes job)); cbn; auto]). }
  pose proof (settle_ok job rest (auth_grant (j_uname job) (as_replica st)) st Hok Hp ltac:(auto)) as Hs. cbn zeta in Hs. fold st1 in Hs.
  destruct (aconns st !! j_fd job) as [c|] eqn:Ec; [|done]. destruct (negb (ac_id c =? j_conn job)) eqn:Eid; [done|].
  unfold rehash_user. case_match; [exact Hs|].
  match goal with |- auth_ok (on_aconn ?fd ?f (with_users ?us ?pw ?s)) => change (auth_ok (with_users us pw (on_aconn fd f s))) end.
  apply users_ok; [exact Hs|]. intros n. apply insert_keeps.
Qed.

Lemma accept_conn_ok fd st : auth_ok st -> aconns st !! fd = None -> auth_ok (accept_conn fd st).
Proof.
  intros [H1 H2 H3 H4 H5 H6 H7 H8] Hn. set (new := mkAConn (next_conn_id st) (acl_initial_user st) false 0 2 0 false [] (buf_create conn_buffer)).
  assert (Hget : forall fd' c', aconns (accept_conn fd st) !! fd' = Some c' -> fd' = fd /\ c' = new \/ fd' <> fd /\ aconns st !! fd' = Some c').
  { intros fd' c' H. cbn in H. apply lookup_insert_Some in H as [[-> <-]|[Hne H]]; auto. }
  assert (Hopen : forall x, x ∈ opened st -> x ∈ opened (accept_conn fd st)) by (intros x Hx; cbn; destruct (acl_initial_user st); [by right|done]).
  assert (Hout : outstanding (accept_conn fd st) = outstanding st) by done.
  assert (Hold : forall id n, justified st id n -> justified (accept_conn fd st) id n) by (intros id n [[-> Ho]|Ho]; [left; auto|right; exact Ho]).
  assert (Hfresh : forall j, j ∈ outstanding st -> j_conn j <> next_conn_id st) by (intros j Hj E; destruct (H3 j Hj) as [_ _ J _]; lia).
  split; rewrite ?Hout; try done.
  - intros fd' c' n Hc Hu. destruct (Hget fd' c' Hc) as [[-> ->]|[_ G]]; [|by apply (H1 fd' c')]. cbn in Hu. unfold acl_initial_user in Hu.
    destruct (users st !! default_name) as [u|] eqn:E; [|done]. destruct (enable u && _); [|done]. injection Hu as <-. exists u. exact E.
  - intros fd' c' n Hc Hu. destruct (Hget fd' c' Hc) as [[-> ->]|[_ G]]; [|by apply Hold, (H2 fd' c')]. cbn in Hu |- *. left. cbn. rewrite Hu. unfold acl_initial_user in Hu.
    destruct (users st !! default_name) as [u|]; [|done]. destruct (enable u && _); [|done]. injection Hu as <-. split; [done|by left].
  - intros j Hj. destruct (H3 j Hj) as [J1 J2 J3 J4]. split; try done; [cbn; lia|]. intros fd' c' Hc E. destruct (Hget fd' c' Hc) as [[-> ->]|[_ G]]; [|by apply (J4 fd' c')].
    cbn in E. by destruct (Hfresh j Hj).
  - intros fd' c' Hc. cbn. destruct (Hget fd' c' Hc) as [[-> ->]|[_ G]]; [cbn; lia|]. specialize (H5 fd' c' G). lia.
  - intros f1 f2 c1 c2 G1 G2 E. destruct (Hget f1 c1 G1) as [[-> ->]|[N1 D1]], (Hget f2 c2 G2) as [[-> ->]|[N2 D2]]; [done| | |by apply (H6 f1 f2 c1 c2)].
    + specialize (H5 f2 c2 D2). cbn in E. lia.
    + specialize (H5 f1 c1 D1). cbn in E. lia.
  - intros fd' c' Hc. destruct (Hget fd' c' Hc) as [[-> ->]|[_ G]]; [|by apply (H8 fd')]. cbn. split; [done|]. intros (j & Hj & E). by destruct (Hfresh j Hj).
Qed.

Lemma close_ok fd st : auth_ok st -> auth_ok (with_aconns (delete fd (aconns st)) st).
Proof.
  intros Hok. apply (calm_ok st); [done|split; [done|done|]|].
  - intros fd' c' H. cbn in H. apply lookup_delete_Some in H as [_ H]. exists c'. auto.
  - intros fd' c' n H Hu. cbn in H |- *. apply lookup_delete_Some in H as [_ H]. by apply (ao_live _ Hok fd' c').
Qed.

Lemma a_event_ok g e st : auth_ok st -> auth_ok (a_event cred_verify cred_needs_rehash cred_hash_new cred_dummy user_order rule_order cred_random_hex g e st).
Proof.
  intros Hok. destruct e as [fd|fd cmd sub multi exec|i rehash| |pw|fd]; cbn [a_event].
  - destruct (aconns st !! fd) eqn:E; [done|by apply accept_conn_ok].
  - destruct (aconns st !! fd) as [c|] eqn:Ec; [|done]. destruct (ac_pending c) eqn:Ep; [done|]. unfold auth_request. destruct (route _ _ _); try done.
    + by apply answer_ok.
    + by eapply do_auth_ok.
    + by apply do_hello_ok.
    + case_bool_decide; [by apply do_acl_ok|]. case_bool_decide; [by apply do_client_ok|done].
  - destruct (jobs st !! i) as [job|] eqn:E; [|done]. by apply verify_ok.
  - destruct (posted st) as [|job rest] eqn:E; [done|]. by apply complete_ok.
  - apply users_ok; [done|]. intros n [u Hu]. destruct (decide (n = default_name)) as [->|Hne]; [rewrite lookup_alter_eq, Hu|rewrite lookup_alter_ne, Hu by done]; by eexists.
  - by apply close_ok.
Qed.

Lemma a_run_ok g evs : forall st, auth_ok st -> auth_ok (a_run cred_verify cred_needs_rehash cred_hash_new cred_dummy user_order rule_order cred_random_hex g evs st).
Proof. induction evs as [|e evs IH]; intros st Hok; [done|]. cbn. by apply IH, a_event_ok. Qed.
End Inv.

(** ** Claims *)

(** The server before its first connection. *)
Definition auth_start (us : gmap bytes User) (pw : bytes) (replica : bool) : AS := mkAS us pw ∅ 0 [] [] 1 replica [] [].

Lemma auth_start_ok verify us pw replica : auth_ok verify (auth_start us pw replica).
Proof.
  split; cbn; try done; try (intros; match goal with H : ∅ !! _ = Some _ |- _ => by rewrite lookup_empty in H end).
  - intros j Hj. by inversion Hj.
  - constructor.
Qed.

Lemma filter_none {A} (P : A -> Prop) `{forall x, Decision (P x)} (l : list A) : (forall x, x ∈ l -> ~ P x) -> filter P l = [].
Proof. induction l as [|x l IH]; intros Hn; [done|]. rewrite filter_cons_False by (apply Hn; by left). apply IH. intros y Hy. apply Hn. by right. Qed.

(** C20: Nobody is let in without a password that was right when it was
    offered.  Whatever the order of connections, requests, verdicts of the
    workers, changes of users and closed connections: a connection acts as a
    user only if that user still exists and either the connection came in
    while the default user was enabled without a password, or it offered, in
    AUTH or HELLO, a password that one of the credentials the user had at
    that moment verifies.  At most four verifications are under way and the
    counter is exact; a connection that waits has exactly one of them, and no
    other connection has any. *)
Theorem auth_sound (cred_verify : bytes -> bytes -> bool) (cred_needs_rehash : bytes -> bool) (cred_hash_new : bytes -> bytes) (cred_dummy : bytes)
    (user_order : gmap bytes User -> list (bytes * User)) (rule_order : gmap bytes bool -> list (bytes * bool)) (cred_random_hex : nat -> bytes)
    (g : Gate) (us : gmap bytes User) (pw : bytes) (replica : bool) (evs : list AEvent) :
  let st := a_run cred_verify cred_needs_rehash cred_hash_new cred_dummy user_order rule_order cred_random_hex g evs (auth_start us pw replica) in
  (forall fd c n, aconns st !! fd = Some c -> ac_user c = Some n -> is_Some (users st !! n) /\ justified cred_verify st (ac_id c) n) /\
  g_auth_inflight st = Z.of_nat (length (outstanding st)) /\ g_auth_inflight st <= k_max_auth_inflight /\
  (forall fd c, aconns st !! fd = Some c ->
    length (filter (fun j => j_conn j = ac_id c) (outstanding st)) = if ac_pending c then 1%nat else 0%nat).
Proof.
  cbn zeta. set (st := a_run _ _ _ _ _ _ _ _ _ _).
  assert (Hok : auth_ok cred_verify st) by (apply a_run_ok, auth_start_ok). destruct Hok as [H1 H2 H3 [H4 H4'] H5 H6 H7 H8]. split_and!; try done.
  - intros fd c n Hc Hu. split; [by apply (H1 fd c)|by apply (H2 fd c)].
  - intros fd c Hc. pose proof (H8 fd c Hc) as Hp. destruct (ac_pending c).
    + destruct (proj1 Hp eq_refl) as (j & Hj & Ej). revert H7 Hj. generalize (outstanding st). clear - Ej. intros l. induction l as [|x l IH]; intros Hnd Hj; [by inversion Hj|].
      cbn in Hnd. apply NoDup_cons in Hnd as [Hx Hnd]. rewrite filter_cons. apply elem_of_cons in Hj as [<-|Hj].
      * rewrite decide_True by done. cbn. f_equal. apply length_zero_iff_nil, filter_none. intros y Hy E. apply Hx, list_elem_of_fmap. exists y. split; [congruence|done].
      * rewrite decide_False; [by apply IH|]. intros E. apply Hx, list_elem_of_fmap. exists j. split; [congruence|done].
    + apply length_zero_iff_nil, filter_none. intros j Hj E. by discriminate (proj2 Hp (ex_intro _ j (conj Hj E))).
Qed.

(** A password check that only compares, and a gate with every command. *)
Definition plain_verify (pass stored : bytes) : bool := bool_decide (pass = stored).
Definition open_gate : Gate := mkGate (dispatch_build cmd_table []) false false false 0 0.
Definition alice : User := mkUser CAT_READ ∅ [bs "old"] [] [] (bs "alice") true true true.
Definition root : User := mkUser CAT_ALL ∅ [] [] [] default_name true true true.
Definition two_users : AS := auth_start (<[bs "alice" := alice]> {[default_name := root]}) [] false.

(** Alice's old password is being checked while the administrator replaces it. *)
Definition revoked_run : list AEvent :=
  [AAccept 1; AAccept 2; ARequest 2 [bs "AUTH"; bs "alice"; bs "old"] false false false;
   ARequest 1 [bs "ACL"; bs "SETUSER"; bs "alice"; bs "resetpass"; bs ">new"] false false false; AVerify 0 []; AComplete].

(** A password revoked while it is being checked still lets its owner in.
    AUTH takes the user's credentials when the job is queued; the verdict is
    applied after looking the user up again, for it may have been deleted or
    disabled meanwhile, but not whether the credential that matched is still
    one of its own.  In this run the connection ends up as alice although
    none of alice's credentials accepts the password it offered. *)
Theorem revoked_password_accepted :
  let st := a_run plain_verify (fun _ => false) id [] map_to_list map_to_list (fun _ => []) open_gate revoked_run two_users in
  exists c u, aconns st !! 2%nat = Some c /\ ac_user c = Some (bs "alice") /\ users st !! bs "alice" = Some u /\
    pw_hashes u = [bs "new"] /\ forallb (fun h => negb (plain_verify (bs "old") h)) (pw_hashes u) = true.
Proof.
  cbn zeta. set (st := a_run _ _ _ _ _ _ _ _ _ _).
  assert (H : (ac_user <$> aconns st !! 2%nat) = Some (Some (bs "alice")) /\ (pw_hashes <$> users st !! bs "alice") = Some [bs "new"]) by (split; vm_compute; reflexivity).
  clearbody st. destruct H as [Hc Hu]. destruct (aconns st !! 2%nat) as [c|]; [|done]. destruct (users st !! bs "alice") as [u|]; [|done]. exists c, u.
  injection Hc as Hc. injection Hu as Hu. rewrite Hu. split_and!; try done.
Qed.
