(* ===== verification/Sha256Spec.v ===== *)
(** * SHA-256 as the standard defines it (FIPS 180-4)

    A reference definition that owes nothing to the program: words are read
    bit by bit, the constants are computed from the prime numbers they come
    from, and the padding is the least one that fills the last block.  It is
    executable and checked on the standard's examples; Cred proves that the
    program computes it. *)
From S2P Require Import Prelude.

Module Fips.

(** ** Words of 32 bits *)

Definition bit (x : Z) (i : nat) : bool := Z.testbit x (Z.of_nat i).

(** The word whose bit [i] is [f i]. *)
Fixpoint of_bits (n : nat) (f : nat -> bool) : Z :=
  match n with O => 0 | S n' => 2 * of_bits n' (fun i => f (S i)) + Z.b2z (f 0%nat) end.
Definition word (f : nat -> bool) : Z := of_bits 32 f.

Definition plus (l : list Z) : Z := foldr Z.add 0 l mod 2 ^ 32.

Definition ROTR (n : nat) (x : Z) : Z := word (fun i => bit x ((i + n) mod 32)).
Definition SHR (n : nat) (x : Z) : Z := word (fun i => (i + n <? 32)%nat && bit x (i + n)).
Definition Ch (x y z : Z) : Z := word (fun i => if bit x i then bit y i else bit z i).
Definition Maj (x y z : Z) : Z := word (fun i => (bit x i && bit y i) || (bit x i && bit z i) || (bit y i && bit z i)).
Definition parity (x y z : Z) : Z := word (fun i => xorb (bit x i) (xorb (bit y i) (bit z i))).

Definition Sigma0 (x : Z) : Z := parity (ROTR 2 x) (ROTR 13 x) (ROTR 22 x).
Definition Sigma1 (x : Z) : Z := parity (ROTR 6 x) (ROTR 11 x) (ROTR 25 x).
Definition sigma0 (x : Z) : Z := parity (ROTR 7 x) (ROTR 18 x) (SHR 3 x).
Definition sigma1 (x : Z) : Z := parity (ROTR 17 x) (ROTR 19 x) (SHR 10 x).

(** ** Constants *)

Definition prime (n : nat) : bool := (2 <=? n)%nat && forallb (fun d => negb (n mod d =? 0)%nat) (seq 2 (n - 2)).

(** The first 64 primes end at 311. *)
Definition primes : list Z := Z.of_nat <$> filter (fun n => prime n = true) (seq 0 312).

(** The largest [r] below 2^40 with [r^3 <= n], bit by bit. *)
Definition cube_root (n : Z) : Z :=
  foldl (fun r i => if (r + 2 ^ i) ^ 3 <=? n then r + 2 ^ i else r) 0 (reverse (Z.of_nat <$> seq 0 40)).

(** The first 32 bits of the fractional parts of the cube roots of the primes,
    and of the square roots of the first eight. *)
Definition K : list Z := (fun p => cube_root (p * 2 ^ 96) mod 2 ^ 32) <$> primes.
Definition H0 : list Z := (fun p => Z.sqrt (p * 2 ^ 64) mod 2 ^ 32) <$> take 8 primes.

Example constants_counted : length K = 64%nat /\ length H0 = 8%nat.
Proof. vm_compute. done. Qed.

Example cube_roots_exact :
  forallb (fun p => let r := cube_root (p * 2 ^ 96) in (r ^ 3 <=? p * 2 ^ 96) && (p * 2 ^ 96 <? (r + 1) ^ 3)) primes = true.
Proof. vm_compute. reflexivity. Qed.

(** ** Padding *)

(** The least number of zero bytes after the byte 0x80 that leaves room for the
    eight bytes of the length in the last block. *)
Definition zeros (len : nat) : nat := default 0%nat (snd <$> list_find (fun z => (len + 1 + z) mod 64 = 56)%nat (seq 0 64)).

Definition length_bytes (len : nat) : list Z := (fun k => (8 * Z.of_nat len / 256 ^ k) mod 256) <$> [7; 6; 5; 4; 3; 2; 1; 0].

Definition padded (m : list Z) : list Z := m ++ 0x80 :: replicate (zeros (length m)) 0 ++ length_bytes (length m).

(** ** Hashing *)

(** Pieces of [n] elements; the length is fuel enough. *)
Fixpoint pieces (fuel n : nat) (l : list Z) : list (list Z) :=
  match fuel, l with
  | S fuel', _ :: _ => take n l :: pieces fuel' n (drop n l)
  | _, _ => []
  end.

Definition from_bytes (l : list Z) : Z := foldl (fun a b => 256 * a + b) 0 l.
Definition message_words (block : list Z) : list Z := from_bytes <$> pieces 16 4 block.

(** The schedule, newest word first: [W_t] from the words 2, 7, 15 and 16 back. *)
Definition back (l : list Z) (i : nat) : Z := default 0 (l !! (i - 1)%nat).
Definition extend (l : list Z) : list Z := plus [sigma1 (back l 2); back l 7; sigma0 (back l 15); back l 16] :: l.
Definition schedule (block : list Z) : list Z := reverse (Nat.iter 48 extend (reverse (message_words block))).

(** The working variables a to h, as one list. *)
Definition round (v : list Z) (kw : Z * Z) : list Z :=
  match v with
  | [a; b; c; d; e; f; g; h] =>
      let T1 := plus [h; Sigma1 e; Ch e f g; kw.1; kw.2] in
      let T2 := plus [Sigma0 a; Maj a b c] in
      [plus [T1; T2]; a; b; c; plus [d; T1]; e; f; g]
  | _ => v
  end.

Definition compress (H : list Z) (block : list Z) : list Z :=
  zip_with (fun x y => plus [x; y]) H (foldl round H (zip K (schedule block))).

Definition hash (m : list Z) : list Z := foldl compress H0 (pieces (length (padded m)) 64 (padded m)).

(** The digest in lower-case hexadecimal, most significant digit first. *)
Definition hexadecimal (d : Z) : ascii := if d <? 10 then chr (48 + d) else chr (87 + d).
Definition hex_of (w : Z) : bytes := (fun k => hexadecimal ((w / 16 ^ k) mod 16)) <$> [7; 6; 5; 4; 3; 2; 1; 0].
Definition sha256 (m : list Z) : bytes := concat (hex_of <$> hash m).

(** The standard's examples. *)
Example sha256_abc : sha256 (code <$> bs "abc") = bs "ba7816bf8f01cfea414140de5dae2223b00361a396177a9cb410ff61f20015ad".
Proof. vm_compute. reflexivity. Qed.
Example sha256_two_blocks : sha256 (code <$> bs "abcdbcdecdefdefgefghfghighijhijkijkljklmklmnlmnomnopnopq") =
  bs "248d6a61d20638b8e5c026930c3e6039a33ce45964ff2167f6ecedd419db06c1".
Proof. vm_compute. reflexivity. Qed.

(** ** Bits *)

Lemma bit_of_bits n : forall f i, bit (of_bits n f) i = (i <? n)%nat && f i.
Proof.
  induction n as [|n IH]; intros f i; cbn [of_bits]; [unfold bit; by rewrite Z.bits_0|].
  destruct i as [|i]; unfold bit in *; [by rewrite Z.testbit_0_r|].
  rewrite Nat2Z.inj_succ, Z.testbit_succ_r, IH by lia. done.
Qed.

Lemma bit_high x i : 0 <= x < 2 ^ 32 -> (32 <= i)%nat -> bit x i = false.
Proof. intros Hx Hi. unfold bit. rewrite <- (Z.mod_small x (2 ^ 32)) by done. apply Z.mod_pow2_bits_high. lia. Qed.

Lemma eq_word x f : (forall i, bit x i = (i <? 32)%nat && f i) -> x = word f.
Proof.
  intros H. apply Z.bits_inj'. intros n Hn. rewrite <- (Z2Nat.id n) by done. change (bit x (Z.to_nat n) = bit (word f) (Z.to_nat n)).
  unfold word. by rewrite bit_of_bits.
Qed.

Lemma word_range f : 0 <= word f < 2 ^ 32.
Proof.
  unfold word. assert (H : forall n f, 0 <= of_bits n f < 2 ^ Z.of_nat n); [|apply (H 32%nat f)].
  clear. induction n as [|n IH]; intros f; cbn [of_bits]; [lia|]. specialize (IH (fun i => f (S i))).
  rewrite Nat2Z.inj_succ, Z.pow_succ_r by lia. destruct (f 0%nat); cbn [Z.b2z]; lia.
Qed.

Lemma plus_range l : 0 <= plus l < 2 ^ 32.
Proof. apply Z.mod_pos_bound. lia. Qed.

End Fips.
