(* ===== verification/Cred.v ===== *)
(** * Stored credentials (src/src/auth/sha256.h, src/src/auth/cred.cpp)

    SHA-256 as the program computes it, byte by byte through one block that
    is reused, the comparison that takes the same time for every digest, and
    the two self-describing forms of a stored credential.  Argon2 is a
    library: its two functions are arguments. *)
From S2P Require Import Prelude Resp CText Acl Sha256Spec.

(** ** One block *)

(** [(value >> bits) | (value << (32 - bits))] on [uint32_t] *)
Definition rotate_right (value bits : Z) : Z := Z.lor (Z.shiftr value bits) (u32 (Z.shiftl value (32 - bits))).

(** Four to a row, as the source writes the table. *)
Definition row4 (a b c d : Z) : list Z := [a; b; c; d].

Definition round_constants : list Z :=
  row4 0x428a2f98 0x71374491 0xb5c0fbcf 0xe9b5dba5 ++ row4 0x3956c25b 0x59f111f1 0x923f82a4 0xab1c5ed5 ++
  row4 0xd807aa98 0x12835b01 0x243185be 0x550c7dc3 ++ row4 0x72be5d74 0x80deb1fe 0x9bdc06a7 0xc19bf174 ++
  row4 0xe49b69c1 0xefbe4786 0x0fc19dc6 0x240ca1cc ++ row4 0x2de92c6f 0x4a7484aa 0x5cb0a9dc 0x76f988da ++
  row4 0x983e5152 0xa831c66d 0xb00327c8 0xbf597fc7 ++ row4 0xc6e00bf3 0xd5a79147 0x06ca6351 0x14292967 ++
  row4 0x27b70a85 0x2e1b2138 0x4d2c6dfc 0x53380d13 ++ row4 0x650a7354 0x766a0abb 0x81c2c92e 0x92722c85 ++
  row4 0xa2bfe8a1 0xa81a664b 0xc24b8b70 0xc76c51a3 ++ row4 0xd192e819 0xd6990624 0xf40e3585 0x106aa070 ++
  row4 0x19a4c116 0x1e376c08 0x2748774c 0x34b0bcb5 ++ row4 0x391c0cb3 0x4ed8aa4a 0x5b9cca4f 0x682e6ff3 ++
  row4 0x748f82ee 0x78a5636f 0x84c87814 0x8cc70208 ++ row4 0x90befffa 0xa4506ceb 0xbef9a3f7 0xc67178f2.

Definition at_ (l : list Z) (i : nat) : Z := default 0 (l !! i).

(** The first sixteen words, big endian. *)
Definition load_word (block : list Z) (i : nat) : Z :=
  let b j := at_ block (4 * i + j) in
  Z.lor (Z.lor (Z.lor (u32 (Z.shiftl (b 0%nat) 24)) (u32 (Z.shiftl (b 1%nat) 16))) (u32 (Z.shiftl (b 2%nat) 8))) (b 3%nat).

Definition next_word (schedule : list Z) : Z :=
  let i := length schedule in
  let w15 := at_ schedule (i - 15) in
  let w2 := at_ schedule (i - 2) in
  let sigma0 := Z.lxor (Z.lxor (rotate_right w15 7) (rotate_right w15 18)) (Z.shiftr w15 3) in
  let sigma1 := Z.lxor (Z.lxor (rotate_right w2 17) (rotate_right w2 19)) (Z.shiftr w2 10) in
  u32 (at_ schedule (i - 16) + sigma0 + at_ schedule (i - 7) + sigma1).

Definition schedule_of (block : list Z) : list Z :=
  Nat.iter 48 (fun s => s ++ [next_word s]) (load_word block <$> seq 0 16).

Record Sha := mkSha { sa : Z; sb : Z; sc : Z; sd : Z; se : Z; sf : Z; sg : Z; sh : Z }.

(** [~e] on [uint32_t] *)
Definition not32 (x : Z) : Z := u32 (Z.lnot x).

Definition sha_round (s : Sha) (kw : Z * Z) : Sha :=
  let '(mkSha a b c d e f g h) := s in
  let big_sigma1 := Z.lxor (Z.lxor (rotate_right e 6) (rotate_right e 11)) (rotate_right e 25) in
  let choose := Z.lxor (Z.land e f) (Z.land (not32 e) g) in
  let temp1 := u32 (h + big_sigma1 + choose + kw.1 + kw.2) in
  let big_sigma0 := Z.lxor (Z.lxor (rotate_right a 2) (rotate_right a 13)) (rotate_right a 22) in
  let majority := Z.lxor (Z.lxor (Z.land a b) (Z.land a c)) (Z.land b c) in
  let temp2 := u32 (big_sigma0 + majority) in
  mkSha (u32 (temp1 + temp2)) a b c (u32 (d + temp1)) e f g.

Definition transform (state : Sha) (block : list Z) : Sha :=
  let '(mkSha a b c d e f g h) := foldl sha_round state (zip round_constants (schedule_of block)) in
  mkSha (u32 (sa state + a)) (u32 (sb state + b)) (u32 (sc state + c)) (u32 (sd state + d))
    (u32 (se state + e)) (u32 (sf state + f)) (u32 (sg state + g)) (u32 (sh state + h)).

(** ** The message *)

Definition sha_iv : Sha := mkSha 0x6a09e667 0xbb67ae85 0x3c6ef372 0xa54ff53a 0x510e527f 0x9b05688c 0x1f83d9ab 0x5be0cd19.

(** The locals of [sha256_hex]: [st], [data], [len], [bitlen]. *)
Record Feed := mkFeed { st : Sha; data : list Z; len : nat; bitlen : Z }.

Definition feed_byte (f : Feed) (ch : ascii) : Feed :=
  let data := <[len f := code ch]> (data f) in
  if (S (len f) =? 64)%nat then mkFeed (transform (st f) data) data 0 (u64 (bitlen f + 512)) else mkFeed (st f) data (S (len f)) (bitlen f).

(** [while (i < n){ data\[i++\] = 0; }] *)
Definition zero_fill (i n : nat) (data : list Z) : list Z := foldl (fun d k => <[k := 0]> d) data (seq i (n - i)).

(** The length into the last eight bytes. *)
Definition put_length (bitlen : Z) (data : list Z) : list Z :=
  foldl (fun d k => <[(63 - k)%nat := u8 (Z.shiftr bitlen (8 * Z.of_nat k))]> d) data (seq 0 8).

Definition finish (f : Feed) : Sha :=
  let d := <[len f := 128]> (data f) in
  let i := S (len f) in
  let '(s, d) := if (len f <? 56)%nat then (st f, zero_fill i 56 d)
                 else let d := zero_fill i 64 d in (transform (st f) d, zero_fill 0 56 d) in
  transform s (put_length (u64 (bitlen f + u64 (Z.of_nat (len f) * 8))) d).

Definition hex_digit (n : Z) : ascii := default (chr 0) (bs "0123456789abcdef" !! Z.to_nat n).

Definition hex_word (w : Z) : bytes :=
  concat ((fun k => let b := u8 (Z.shiftr w (8 * k)) in [hex_digit (Z.shiftr b 4); hex_digit (Z.land b 15)]) <$> [3; 2; 1; 0]).

Definition words (s : Sha) : list Z := [sa s; sb s; sc s; sd s; se s; sf s; sg s; sh s].

(** [junk] is what the uninitialised block held. *)
Definition sha256_hex (junk : list Z) (msg : bytes) : bytes :=
  concat (hex_word <$> words (finish (foldl feed_byte (mkFeed sha_iv junk 0 0) msg))).

(** ** Comparing *)

Definition ct_equal (a b : bytes) : bool :=
  if negb (length a =? length b)%nat then false
  else foldl (fun diff p => Z.lor diff (Z.lxor (code p.1) (code p.2))) 0 (zip a b) =? 0.

Definition junk0 : list Z := replicate 64 0.
Example sha_empty : sha256_hex junk0 [] = bs "e3b0c44298fc1c149afbf4c8996fb92427ae41e4649b934ca495991b7852b855".
Proof. vm_compute. reflexivity. Qed.
Example sha_abc : sha256_hex junk0 (bs "abc") = bs "ba7816bf8f01cfea414140de5dae2223b00361a396177a9cb410ff61f20015ad".
Proof. vm_compute. reflexivity. Qed.
Example sha_two_blocks : sha256_hex junk0 (bs "abcdbcdecdefdefgefghfghighijhijkijkljklmklmnlmnomnopnopq") =
  bs "248d6a61d20638b8e5c026930c3e6039a33ce45964ff2167f6ecedd419db06c1".
Proof. vm_compute. reflexivity. Qed.

(** ** The message in blocks *)

(** What the code's blocks hold: the message, one bit, zeros, and the length in
    bits as 64 bits. *)
Definition be64 (n : Z) : list Z := (fun k => u8 (Z.shiftr n (8 * Z.of_nat (7 - k)))) <$> seq 0 8.
Definition pad (m : list Z) : list Z :=
  m ++ [128] ++ replicate ((119 - length m mod 64) mod 64) 0 ++ be64 (8 * Z.of_nat (length m)).
Definition blocks (n : nat) (l : list Z) : list (list Z) := (fun i => take 64 (drop (64 * i) l)) <$> seq 0 n.

Lemma blocks_snoc n l : blocks (S n) l = blocks n l ++ [take 64 (drop (64 * n) l)].
Proof. unfold blocks. rewrite seq_S, fmap_app. done. Qed.

Lemma blocks_app n l l' : (64 * n <= length l)%nat -> blocks n (l ++ l') = blocks n l.
Proof.
  induction n as [|n IH]; intros H; [done|]. rewrite !blocks_snoc, IH by lia. do 2 f_equal. rewrite drop_app_le by lia.
  rewrite take_app_le; [done|]. rewrite length_drop. lia.
Qed.

Lemma zero_fill_spec i n d : (i <= n <= length d)%nat -> zero_fill i n d = take i d ++ replicate (n - i) 0 ++ drop n d.
Proof.
  unfold zero_fill. intros H. remember (n - i)%nat as k eqn:Ek. revert d i Ek H. induction k as [|k IH]; intros d i Ek H.
  - cbn. assert (i = n) as -> by lia. by rewrite take_drop.
  - cbn [seq foldl]. rewrite IH by (rewrite ?length_insert; lia). cbn [replicate]. rewrite drop_insert_lt by lia.
    replace (0 :: replicate k 0) with ([0] ++ replicate k 0) by done. rewrite <- (app_assoc [0]), (app_assoc (take i d)). f_equal.
    rewrite (take_S_r _ _ 0); [|apply list_lookup_insert_eq; lia]. f_equal. by apply take_insert_ge.
Qed.

Lemma put_length_spec b d : length d = 64%nat -> put_length b d = take 56 d ++ be64 b.
Proof.
  intros H. rewrite <- (take_drop 56 d) at 1. assert (Ht : length (take 56 d) = 56%nat) by (rewrite length_take; lia).
  assert (Hd : length (drop 56 d) = 8%nat) by (rewrite length_drop; lia). revert Ht Hd. generalize (take 56 d) (drop 56 d). clear. intros t r Ht Hr.
  destruct r as [|x0 [|x1 [|x2 [|x3 [|x4 [|x5 [|x6 [|x7 [|]]]]]]]]]; try discriminate Hr. clear Hr.
  unfold put_length, be64. cbn [seq foldl fmap list_fmap].
  rewrite (insert_app_r_alt t) by (rewrite Ht; lia). rewrite !(insert_app_r_alt t) by (rewrite Ht; lia). rewrite Ht. reflexivity.
Qed.

(** ** The stream *)

(** After the bytes [p]: whole blocks transformed, the rest in the block. *)
Record fed (p : list Z) (f : Feed) : Prop := {
  fd_size : length (data f) = 64%nat;
  fd_len : len f = (length p mod 64)%nat;
  fd_st : st f = foldl transform sha_iv (blocks (length p / 64) p);
  fd_rest : take (len f) (data f) = drop (64 * (length p / 64)) p;
  fd_bits : bitlen f = u64 (512 * Z.of_nat (length p / 64));
}.

Lemma fed_step p f ch : fed p f -> fed (p ++ [code ch]) (feed_byte f ch).
Proof.
  intros [H1 H2 H3 H4 H5]. unfold feed_byte. set (q := (length p / 64)%nat) in *. set (r := (length p mod 64)%nat) in *.
  assert (Hp : length p = (64 * q + r)%nat) by (apply Nat.div_mod; lia). assert (Hr : (r < 64)%nat) by (apply Nat.mod_upper_bound; lia).
  assert (Hl : length (p ++ [code ch]) = (64 * q + S r)%nat) by (rewrite length_app; cbn [length]; lia).
  set (d := <[len f := code ch]> (data f)). assert (Hd : length d = 64%nat) by (unfold d; by rewrite length_insert).
  assert (Htake : take (S r) d = drop (64 * q) (p ++ [code ch])).
  { rewrite drop_app_le by lia. rewrite <- H4. unfold d. rewrite (take_S_r _ _ (code ch)); rewrite H2 in *; [|apply list_lookup_insert_eq; lia]. f_equal. by apply take_insert_ge. }
  destruct (S (len f) =? 64)%nat eqn:E; [apply Nat.eqb_eq in E|apply Nat.eqb_neq in E]; rewrite H2 in E.
  - assert (Hq : (length (p ++ [code ch]) / 64 = S q)%nat) by (rewrite Hl; symmetry; apply (Nat.div_unique _ _ _ 0); lia).
    assert (Hm : (length (p ++ [code ch]) mod 64 = 0)%nat) by (rewrite Hl; symmetry; apply (Nat.mod_unique _ _ (S q)); lia).
    split; cbn [data len st bitlen]; rewrite ?Hq, ?Hm; try done.
    + rewrite blocks_snoc, foldl_app, blocks_app, <- H3 by lia. cbn [foldl]. f_equal. rewrite <- Htake, E, take_take, take_ge by lia. done.
    + rewrite drop_ge by lia. done.
    + rewrite H5. unfold u64. rewrite Zplus_mod_idemp_l. f_equal. lia.
  - assert (Hq : (length (p ++ [code ch]) / 64 = q)%nat) by (rewrite Hl; symmetry; apply (Nat.div_unique _ _ _ (S r)); lia).
    assert (Hm : (length (p ++ [code ch]) mod 64 = S r)%nat) by (rewrite Hl; symmetry; apply (Nat.mod_unique _ _ q); lia).
    split; cbn [data len st bitlen]; rewrite ?Hq, ?Hm, ?H2; try done. by rewrite blocks_app, H3 by lia.
Qed.

Lemma fed_all junk msg : length junk = 64%nat -> fed (code <$> msg) (foldl feed_byte (mkFeed sha_iv junk 0 0) msg).
Proof.
  intros Hj. induction msg as [|c msg IH] using rev_ind; [by split|]. rewrite foldl_app, fmap_app. cbn [foldl fmap list_fmap]. by apply fed_step.
Qed.

(** The last one or two blocks. *)
Lemma finish_spec m f : fed m f -> Z.of_nat (length m) < 2 ^ 61 -> finish f = foldl transform sha_iv (blocks (length (pad m) / 64) (pad m)).
Proof.
  intros [H1 H2 H3 H4 H5] Hsz. set (q := (length m / 64)%nat) in *. set (r := (length m mod 64)%nat) in *.
  assert (Hm : length m = (64 * q + r)%nat) by (apply Nat.div_mod; lia). assert (Hr : (r < 64)%nat) by (apply Nat.mod_upper_bound; lia).
  assert (Hbits : u64 (bitlen f + u64 (Z.of_nat (len f) * 8)) = 8 * Z.of_nat (length m)).
  { rewrite H5, H2. unfold u64. rewrite <- Zplus_mod. rewrite Z.mod_small; lia. }
  unfold finish. rewrite Hbits. set (n := 8 * Z.of_nat (length m)) in *. set (d := <[len f := 128]> (data f)).
  assert (Hd : length d = 64%nat) by (unfold d; by rewrite length_insert).
  assert (Htake : take (S (len f)) d = drop (64 * q) m ++ [128]).
  { rewrite <- H4. unfold d. rewrite (take_S_r _ _ 128); [|apply list_lookup_insert_eq; rewrite H2; lia]. f_equal. by apply take_insert_ge. }
  set (z := ((119 - r) mod 64)%nat). assert (Hpad : pad m = m ++ ([128] ++ replicate z 0 ++ be64 n)) by done.
  assert (Hb : length (be64 n) = 8%nat) by done.
  assert (Hcut : drop (64 * q) (pad m) = drop (64 * q) m ++ [128] ++ replicate z 0 ++ be64 n) by (rewrite Hpad, drop_app_le by lia; done).
  assert (Hdl : length (drop (64 * q) m) = r) by (rewrite length_drop; lia).
  assert (Hlen : length (pad m) = (64 * q + (r + 1 + z + 8))%nat) by (rewrite Hpad, !length_app, length_replicate, Hb; cbn [length]; lia).
  assert (Hfirst : foldl transform sha_iv (blocks q (pad m)) = st f) by (rewrite Hpad, blocks_app, H3 by lia; done).
  destruct (len f <? 56)%nat eqn:E; [apply Nat.ltb_lt in E|apply Nat.ltb_ge in E]; rewrite H2 in E.
  - assert (Hz : z = (55 - r)%nat) by (unfold z; symmetry; apply (Nat.mod_unique _ _ 1); lia).
    assert (Hq : (length (pad m) / 64 = S q)%nat) by (rewrite Hlen; symmetry; apply (Nat.div_unique _ _ _ 0); lia).
    rewrite Hq, blocks_snoc, foldl_app, Hfirst. cbn [foldl]. f_equal. rewrite put_length_spec by (rewrite zero_fill_spec, !length_app, length_replicate, length_take, length_drop by lia; lia).
    rewrite zero_fill_spec by lia. rewrite Htake. rewrite Hcut, (take_ge (drop (64 * q) m ++ [128] ++ replicate z 0 ++ be64 n)) by (rewrite !length_app, length_replicate, Hdl, Hb; cbn [length]; lia).
    rewrite (app_assoc (_ ++ [128])), take_app_length' by (rewrite !length_app, length_replicate, Hdl; cbn [length]; lia).
    rewrite H2, Hz, <- !app_assoc. replace (56 - S r)%nat with (55 - r)%nat by lia. done.
  - assert (Hz : z = (63 - r + 56)%nat) by (unfold z; rewrite Nat.mod_small by lia; lia).
    assert (Hq : (length (pad m) / 64 = S (S q))%nat) by (rewrite Hlen; symmetry; apply (Nat.div_unique _ _ _ 0); lia).
    set (last := (drop (64 * q) m ++ [128]) ++ replicate (63 - r) 0). assert (Hlast : length last = 64%nat) by (unfold last; rewrite !length_app, length_replicate, Hdl; cbn [length]; lia).
    assert (Hcut' : drop (64 * q) (pad m) = last ++ replicate 56 0 ++ be64 n) by (rewrite Hcut, Hz, replicate_add; unfold last; by rewrite <- !app_assoc).
    assert (Hfill : zero_fill (S (len f)) 64 d = last).
    { rewrite zero_fill_spec by lia. rewrite Htake, (drop_ge d 64), app_nil_r, H2 by lia. unfold last. by replace (64 - S r)%nat with (63 - r)%nat by lia. }
    rewrite Hq, !blocks_snoc, !foldl_app, Hfirst. cbn [foldl]. rewrite Hfill. f_equal.
    + rewrite Hcut'. by rewrite take_app_length' by done.
    + rewrite zero_fill_spec by lia. rewrite put_length_spec by (rewrite !length_app, length_replicate, length_drop, length_take, Hlast; lia).
      replace (64 * S q)%nat with (64 * q + 64)%nat by lia. rewrite <- drop_drop, Hcut', drop_app_length' by done.
      rewrite (take_ge (replicate 56 0 ++ be64 n)) by (rewrite length_app, length_replicate, Hb; lia). change (56 - 0)%nat with 56%nat. change (take 0 last) with (@nil Z). rewrite app_nil_l, (take_app_length' (replicate 56 0)) by done. done.
Qed.

Lemma hex_word_digits w : Forall (fun c => c ∈ bs "0123456789abcdef") (hex_word w).
Proof.
  unfold hex_word. cbn [fmap list_fmap concat]. assert (Hd : forall x, 0 <= x < 16 -> hex_digit x ∈ bs "0123456789abcdef").
  { intros x Hx. unfold hex_digit. destruct (lookup_lt_is_Some_2 (bs "0123456789abcdef") (Z.to_nat x)) as [c Hc]; [change (length _) with 16%nat; lia|]. rewrite Hc. by apply list_elem_of_lookup_2 in Hc. }
  assert (Hb : forall y, let b := u8 y in 0 <= Z.shiftr b 4 < 16 /\ 0 <= Z.land b 15 < 16).
  { intros y b. assert (0 <= b < 256) by (apply Z.mod_pos_bound; lia). rewrite Z.shiftr_div_pow2 by lia. change 15 with (Z.ones 4). rewrite Z.land_ones by lia.
    split; [split; [apply Z.div_pos; lia|apply Z.div_lt_upper_bound; lia]|apply Z.mod_pos_bound; lia]. }
  repeat (apply Forall_app; split); try apply Forall_nil_2; repeat (apply Forall_cons_2; [apply Hd, Hb|]); apply Forall_nil_2.
Qed.

Lemma digest_digits junk msg : length (sha256_hex junk msg) = 64%nat /\ Forall (fun c => c ∈ bs "0123456789abcdef") (sha256_hex junk msg).
Proof. unfold sha256_hex. generalize (finish (foldl feed_byte (mkFeed sha_iv junk 0 0) msg)). intros s. split; [done|]. apply Forall_concat, Forall_fmap, Forall_true. intros w. apply hex_word_digits. Qed.

(** ** The code's words against the standard's *)

Definition w32 (x : Z) : Prop := 0 <= x < 2 ^ 32.

Lemma u32_bit x i : Fips.bit (u32 x) i = (i <? 32)%nat && Fips.bit x i.
Proof.
  unfold Fips.bit, u32. destruct (i <? 32)%nat eqn:E; [apply Nat.ltb_lt in E; apply Z.mod_pow2_bits_low; lia|].
  apply Nat.ltb_ge in E. apply Z.mod_pow2_bits_high. lia.
Qed.

Lemma low_bit x i : w32 x -> Fips.bit x i = (i <? 32)%nat && Fips.bit x i.
Proof. intros Hx. rewrite <- u32_bit. unfold u32. by rewrite Z.mod_small. Qed.

Lemma rotate_right_spec x n b : b = Z.of_nat n -> (0 < n < 32)%nat -> w32 x -> rotate_right x b = Fips.ROTR n x.
Proof.
  intros -> Hn Hx. apply Fips.eq_word. intros i. unfold rotate_right.
  change (Fips.bit (Z.lor ?a ?c) i) with (Z.testbit (Z.lor a c) (Z.of_nat i)). rewrite Z.lor_spec. change (Z.testbit ?a (Z.of_nat i)) with (Fips.bit a i).
  rewrite u32_bit. unfold Fips.bit at 1 2. rewrite Z.shiftr_spec, Z.shiftl_spec by lia.
  rewrite <- Nat2Z.inj_add. change (Z.testbit x (Z.of_nat (i + n))) with (Fips.bit x (i + n)).
  destruct (Nat.ltb_spec i 32); cbn [andb].
  - destruct (Nat.ltb_spec (i + n) 32) as [Hlt|Hge].
    + rewrite (Z.testbit_neg_r x) by lia. by rewrite orb_false_r, Nat.mod_small.
    + rewrite (Fips.bit_high x (i + n)) by done. cbn [orb]. unfold Fips.bit. f_equal.
      rewrite <- (Nat.mod_unique (i + n) 32 1 (i + n - 32)) by lia. lia.
  - by rewrite Fips.bit_high by (done || lia).
Qed.

Lemma shiftr_word x n b : b = Z.of_nat n -> w32 x -> Z.shiftr x b = Fips.SHR n x.
Proof.
  intros -> Hx. apply Fips.eq_word. intros i. unfold Fips.bit at 1. rewrite Z.shiftr_spec, <- Nat2Z.inj_add by lia.
  change (Z.testbit x (Z.of_nat (i + n))) with (Fips.bit x (i + n)). rewrite (low_bit x (i + n) Hx) at 1.
  destruct (Nat.ltb_spec (i + n) 32), (Nat.ltb_spec i 32); try done; lia.
Qed.

Lemma xor_parity x y z : w32 x -> w32 y -> w32 z -> Z.lxor (Z.lxor x y) z = Fips.parity x y z.
Proof.
  intros Hx Hy Hz. apply Fips.eq_word. intros i. unfold Fips.bit at 1. rewrite !Z.lxor_spec. change (Z.testbit ?a (Z.of_nat i)) with (Fips.bit a i).
  rewrite xorb_assoc, (low_bit x i Hx), (low_bit y i Hy), (low_bit z i Hz). by destruct (i <? 32)%nat.
Qed.

Lemma choose_spec e f g : w32 e -> w32 f -> w32 g -> Z.lxor (Z.land e f) (Z.land (not32 e) g) = Fips.Ch e f g.
Proof.
  intros He Hf Hg. apply Fips.eq_word. intros i. unfold Fips.bit at 1. rewrite Z.lxor_spec, !Z.land_spec. change (Z.testbit ?a (Z.of_nat i)) with (Fips.bit a i).
  unfold not32. rewrite u32_bit. unfold Fips.bit at 3. rewrite Z.lnot_spec by lia. change (Z.testbit e (Z.of_nat i)) with (Fips.bit e i).
  rewrite (low_bit f i Hf), (low_bit g i Hg). destruct (i <? 32)%nat; cbn [andb]; [|by rewrite andb_false_r].
  by destruct (Fips.bit e i), (Fips.bit f i), (Fips.bit g i).
Qed.

Lemma majority_spec a b c : w32 a -> w32 b -> w32 c -> Z.lxor (Z.lxor (Z.land a b) (Z.land a c)) (Z.land b c) = Fips.Maj a b c.
Proof.
  intros Ha Hb Hc. apply Fips.eq_word. intros i. unfold Fips.bit at 1. rewrite !Z.lxor_spec, !Z.land_spec. change (Z.testbit ?x (Z.of_nat i)) with (Fips.bit x i).
  rewrite (low_bit a i Ha), (low_bit b i Hb), (low_bit c i Hc). destruct (i <? 32)%nat; cbn [andb]; [|done].
  by destruct (Fips.bit a i), (Fips.bit b i), (Fips.bit c i).
Qed.

Lemma parity_range x y z : w32 (Fips.parity x y z).
Proof. apply Fips.word_range. Qed.

(** ** The schedule *)

Lemma lor_byte x y : 0 <= y < 256 -> Z.lor (x * 256) y = 256 * x + y.
Proof.
  intros Hy. rewrite <- Z.add_nocarry_lor; [lia|]. apply Z.bits_inj'. intros n Hn. rewrite Z.land_spec, Z.bits_0.
  change 256 with (2 ^ 8). destruct (decide (n < 8)); [by rewrite Z.mul_pow2_bits_low|].
  rewrite <- (Z.mod_small y (2 ^ 8)) by (cbn; lia). rewrite (Z.mod_pow2_bits_high y 8 n) by lia. apply andb_false_r.
Qed.

Lemma word_of_bytes a b c d : 0 <= a < 256 -> 0 <= b < 256 -> 0 <= c < 256 -> 0 <= d < 256 ->
  Z.lor (Z.lor (Z.lor (u32 (Z.shiftl a 24)) (u32 (Z.shiftl b 16))) (u32 (Z.shiftl c 8))) d = Fips.from_bytes [a; b; c; d].
Proof.
  intros Ha Hb Hc Hd. unfold Fips.from_bytes. cbn [foldl]. rewrite !Z.shiftl_mul_pow2 by lia. unfold u32. rewrite !Z.mod_small by lia.
  replace (a * 2 ^ 24) with ((a * 256 * 256) * 256) by lia. replace (b * 2 ^ 16) with ((b * 256) * 256) by lia.
  assert (Hl : forall x y, Z.lor (x * 256) (y * 256) = Z.lor x y * 256).
  { intros x y. change 256 with (2 ^ 8). rewrite <- !Z.shiftl_mul_pow2 by lia. symmetry. apply Z.shiftl_lor. }
  rewrite (Hl (a * 256 * 256) (b * 256)), (Hl (a * 256) b), (lor_byte a) by done.
  change (c * 2 ^ 8) with (c * 256). rewrite (Hl _ c). rewrite (lor_byte (256 * a + b)) by done.
  rewrite lor_byte by done. lia.
Qed.

Definition byte_ok (x : Z) : Prop := 0 <= x < 256.

Lemma load_words block : length block = 64%nat -> Forall byte_ok block ->
  load_word block <$> seq 0 16 = Fips.message_words block /\ Forall w32 (Fips.message_words block).
Proof.
  intros Hl Hb. do 64 (destruct block as [|? block]; [discriminate Hl|]). destruct block; [clear Hl|discriminate Hl].
  repeat (apply Forall_cons in Hb as [? Hb]). unfold byte_ok in *. unfold Fips.message_words.
  cbn [Fips.pieces take drop fmap list_fmap seq]. unfold load_word. cbn [Nat.mul Nat.add at_ lookup list_lookup default from_option id].
  split; [rewrite !word_of_bytes by done; reflexivity|].
  repeat (apply Forall_cons_2; [unfold Fips.from_bytes, w32; cbn [foldl]; lia|]). apply Forall_nil_2.
Qed.

Lemma back_spec s k : (0 < k <= length s)%nat -> at_ s (length s - k) = Fips.back (reverse s) k.
Proof. intros Hk. unfold at_, Fips.back. rewrite reverse_lookup by lia. do 3 f_equal. lia. Qed.

Lemma at_range s i : Forall w32 s -> w32 (at_ s i).
Proof.
  intros Hs. unfold at_. destruct (s !! i) as [x|] eqn:E; [by apply (Forall_lookup_1 _ _ _ _ Hs E)|]. split; cbn; lia.
Qed.

Lemma next_word_spec s : (16 <= length s)%nat -> Forall w32 s -> reverse (s ++ [next_word s]) = Fips.extend (reverse s).
Proof.
  intros Hl Hs. rewrite reverse_snoc. unfold Fips.extend. f_equal. unfold next_word. rewrite !back_spec by lia.
  pose proof (at_range s (length s - 15) Hs) as H15. pose proof (at_range s (length s - 2) Hs) as H2. rewrite back_spec in H15, H2 by lia.
  rewrite (rotate_right_spec _ 7), (rotate_right_spec _ 18), (shiftr_word _ 3), (rotate_right_spec _ 17), (rotate_right_spec _ 19), (shiftr_word _ 10) by (done || lia).
  rewrite !xor_parity by apply Fips.word_range. unfold u32, Fips.plus, Fips.sigma0, Fips.sigma1. cbn [foldr]. f_equal. lia.
Qed.

Lemma schedule_spec block : length block = 64%nat -> Forall byte_ok block ->
  schedule_of block = Fips.schedule block /\ Forall w32 (schedule_of block).
Proof.
  intros Hl Hb. destruct (load_words block Hl Hb) as [E Hw]. unfold schedule_of, Fips.schedule. rewrite E.
  assert (Hlen : length (Fips.message_words block) = 16%nat) by (rewrite <- E, length_fmap; apply length_seq).
  assert (Hn : forall n, let s := Nat.iter n (fun s => s ++ [next_word s]) (Fips.message_words block) in
    Forall w32 s /\ (16 <= length s)%nat /\ reverse s = Nat.iter n Fips.extend (reverse (Fips.message_words block))).
  { induction n as [|n (I1 & I2 & I3)]; cbn zeta in *; [split_and!; [done|change (16 <= length (Fips.message_words block))%nat; lia|done]|]. cbn [Nat.iter nat_rect].
    change (nat_rect _ ?a (fun _ => ?f) n) with (Nat.iter n f a). rewrite <- I3. split_and!.
    - apply Forall_app_2; [done|]. apply Forall_singleton. apply u32_range.
    - rewrite length_app. lia.
    - by apply next_word_spec. }
  destruct (Hn 48%nat) as (H1 & _ & H3). split; [|done]. rewrite <- H3. by rewrite reverse_involutive.
Qed.

(** ** The rounds *)

Definition sha_ok (s : Sha) : Prop := Forall w32 (words s).

Lemma constants_spec : round_constants = Fips.K /\ words sha_iv = Fips.H0.
Proof. split; vm_compute; reflexivity. Qed.

Lemma iv_ok : sha_ok sha_iv.
Proof. repeat (apply Forall_cons_2; [split; vm_compute; congruence|]). apply Forall_nil_2. Qed.

Lemma round_spec s kw : sha_ok s -> words (sha_round s kw) = Fips.round (words s) kw /\ sha_ok (sha_round s kw).
Proof.
  destruct s as [a b c d e f g h]. unfold sha_ok, words. cbn [sa sb sc sd se sf sg sh]. intros Hs. repeat (apply Forall_cons in Hs as [? Hs]).
  cbn [sha_round sa sb sc sd se sf sg sh Fips.round]. split.
  - rewrite (rotate_right_spec e 6), (rotate_right_spec e 11), (rotate_right_spec e 25), (rotate_right_spec a 2), (rotate_right_spec a 13),
      (rotate_right_spec a 22) by (done || lia).
    rewrite !xor_parity by apply Fips.word_range. rewrite choose_spec, majority_spec by done. unfold u32, Fips.plus, Fips.Sigma0, Fips.Sigma1. cbn [foldr].
    rewrite !Z.add_0_r, !Z.add_assoc. done.
  - repeat (apply Forall_cons_2; [done || apply u32_range|]). apply Forall_nil_2.
Qed.

Lemma rounds_spec l : forall s, sha_ok s -> words (foldl sha_round s l) = foldl Fips.round (words s) l /\ sha_ok (foldl sha_round s l).
Proof.
  induction l as [|kw l IH]; intros s Hs; [done|]. cbn [foldl]. destruct (round_spec s kw Hs) as [<- Hk]. by apply IH.
Qed.

Lemma transform_spec s block : sha_ok s -> length block = 64%nat -> Forall byte_ok block ->
  words (transform s block) = Fips.compress (words s) block /\ sha_ok (transform s block).
Proof.
  intros Hs Hl Hb. unfold transform, Fips.compress. destruct (schedule_spec block Hl Hb) as [<- _]. rewrite <- (proj1 constants_spec).
  destruct (rounds_spec (zip round_constants (schedule_of block)) s Hs) as [<- _].
  destruct (foldl sha_round s _) as [a b c d e f g h]. unfold sha_ok, words. cbn [sa sb sc sd se sf sg sh zip_with]. split.
  - unfold u32, Fips.plus. cbn [foldr]. by rewrite !Z.add_0_r.
  - repeat (apply Forall_cons_2; [apply u32_range|]). apply Forall_nil_2.
Qed.

Lemma transforms_spec l : forall s, sha_ok s -> Forall (fun b => length b = 64%nat /\ Forall byte_ok b) l ->
  words (foldl transform s l) = foldl Fips.compress (words s) l.
Proof.
  induction l as [|b l IH]; intros s Hs Hl; [done|]. apply Forall_cons in Hl as [[H1 H2] Hl]. cbn [foldl].
  destruct (transform_spec s b Hs H1 H2) as [<- Hk]. by apply IH.
Qed.

(** ** Padding, blocks and digits *)

Lemma zeros_spec len : Fips.zeros len = ((119 - len mod 64) mod 64)%nat.
Proof.
  unfold Fips.zeros. set (z0 := ((119 - len mod 64) mod 64)%nat). pose proof (Nat.mod_upper_bound len 64 ltac:(lia)) as Hr.
  pose proof (Nat.div_mod len 64 ltac:(lia)) as Hd. set (r := (len mod 64)%nat) in *. set (q := (len / 64)%nat) in *.
  assert (Hz : z0 = if decide (r < 56)%nat then (55 - r)%nat else (119 - r)%nat).
  { unfold z0. case_decide; [symmetry; apply (Nat.mod_unique _ _ 1); lia|apply Nat.mod_small; lia]. }
  assert (Huniq : forall z, (z < 64)%nat -> ((len + 1 + z) mod 64 = 56)%nat <-> z = z0).
  { intros z Hlt. rewrite Hd. replace (64 * q + r + 1 + z)%nat with (r + 1 + z + q * 64)%nat by lia. rewrite Nat.Div0.mod_add.
    rewrite Hz. split.
    - intros Hm. destruct (decide (r + 1 + z < 64)%nat); [rewrite Nat.mod_small in Hm by lia; case_decide; lia|].
      rewrite <- (Nat.mod_unique (r + 1 + z) 64 1 (r + 1 + z - 64)) in Hm by lia. case_decide; lia.
    - intros ->. case_decide; symmetry; [apply (Nat.mod_unique _ _ 0)|apply (Nat.mod_unique _ _ 1)]; lia. }
  assert (Hin : z0 ∈ seq 0 64) by (apply elem_of_seq; rewrite Hz; case_decide; lia).
  destruct (list_find (fun z => (len + 1 + z) mod 64 = 56)%nat (seq 0 64)) as [[i z]|] eqn:E.
  - apply list_find_Some in E as (Hi & Hm & _). apply list_elem_of_lookup_2, elem_of_seq in Hi. cbn. apply Huniq; [lia|done].
  - apply list_find_None in E. rewrite Forall_forall in E. exfalso. apply (E z0 Hin). apply Huniq; [|done]. apply elem_of_seq in Hin. lia.
Qed.

Lemma length_bytes_spec n : be64 (8 * Z.of_nat n) = Fips.length_bytes n.
Proof.
  unfold be64, Fips.length_bytes. cbn [seq fmap list_fmap]. unfold u8.
  assert (H : forall k, 0 <= k -> Z.shiftr (8 * Z.of_nat n) (8 * k) = 8 * Z.of_nat n / 256 ^ k).
  { intros k Hk. rewrite Z.shiftr_div_pow2 by lia. f_equal. change 256 with (2 ^ 8). by rewrite Z.pow_mul_r by lia. }
  rewrite <- !H by lia. done.
Qed.

Lemma padded_spec m : pad m = Fips.padded m.
Proof. unfold pad, Fips.padded. by rewrite zeros_spec, length_bytes_spec. Qed.

Lemma blocks_cons n l : blocks (S n) l = take 64 l :: blocks n (drop 64 l).
Proof.
  unfold blocks. cbn [seq fmap list_fmap]. f_equal. rewrite <- fmap_S_seq, <- list_fmap_compose. apply list_fmap_ext. intros _ i _.
  unfold compose. cbn beta. rewrite drop_drop. do 2 f_equal. lia.
Qed.

Lemma pieces_spec n : forall l fuel, length l = (64 * n)%nat -> (n <= fuel)%nat -> blocks n l = Fips.pieces fuel 64 l.
Proof.
  induction n as [|n IH]; intros l fuel Hl Hf; [destruct l; [by destruct fuel|cbn in Hl; lia]|]. destruct fuel as [|fuel]; [lia|].
  rewrite blocks_cons. destruct l as [|x l]; [cbn in Hl; lia|]. cbn [Fips.pieces]. f_equal. apply IH; [rewrite length_drop; lia|lia].
Qed.

Lemma blocks_shape n : forall l, length l = (64 * n)%nat -> Forall byte_ok l -> Forall (fun b => length b = 64%nat /\ Forall byte_ok b) (blocks n l).
Proof.
  induction n as [|n IH]; intros l Hl Hb; [apply Forall_nil_2|]. rewrite blocks_cons. apply Forall_cons_2.
  - split; [rewrite length_take; lia|by apply Forall_take].
  - apply IH; [rewrite length_drop; lia|by apply Forall_drop].
Qed.

Lemma pad_length m : exists n, length (pad m) = (64 * n)%nat.
Proof.
  unfold pad. rewrite !length_app, length_replicate. change (length (be64 _)) with 8%nat. change (length [128]) with 1%nat.
  pose proof (Nat.div_mod (length m) 64 ltac:(lia)) as Hd. pose proof (Nat.mod_upper_bound (length m) 64 ltac:(lia)) as Hr.
  set (r := (length m mod 64)%nat) in *. set (q := (length m / 64)%nat) in *. destruct (decide (r < 56)%nat).
  - exists (S q). rewrite <- (Nat.mod_unique (119 - r) 64 1 (55 - r)) by lia. lia.
  - exists (S (S q)). rewrite Nat.mod_small by lia. lia.
Qed.

Lemma hex_digit_standard d : 0 <= d < 16 -> hex_digit d = Fips.hexadecimal d.
Proof.
  intros Hd. assert (Hall : Forall (fun d => hex_digit d = Fips.hexadecimal d) (Z.of_nat <$> seq 0 16)) by (apply (bool_decide_unpack _); vm_compute; exact I).
  rewrite Forall_forall in Hall. apply Hall. apply list_elem_of_fmap. exists (Z.to_nat d). split; [lia|]. apply elem_of_seq. lia.
Qed.

Lemma hex_word_spec w : hex_word w = Fips.hex_of w.
Proof.
  assert (Hb : forall k, 0 <= k -> let b := u8 (Z.shiftr w (8 * k)) in
    hex_digit (Z.shiftr b 4) = Fips.hexadecimal ((w / 16 ^ (2 * k + 1)) mod 16) /\ hex_digit (Z.land b 15) = Fips.hexadecimal ((w / 16 ^ (2 * k)) mod 16)).
  { intros k Hk. cbn zeta. unfold u8. rewrite !Z.shiftr_div_pow2 by lia.
    assert (E : w / 2 ^ (8 * k) = w / 16 ^ (2 * k)) by (change 16 with (2 ^ 4); rewrite <- Z.pow_mul_r by lia; do 2 f_equal; lia). rewrite E.
    set (x := w / 16 ^ (2 * k)). assert (E1 : w / 16 ^ (2 * k + 1) = x / 16) by (unfold x; rewrite Z.pow_add_r, <- Z.div_div by lia; done). rewrite E1.
    assert (E2 : x mod 2 ^ 8 = x mod 16 + 16 * ((x / 16) mod 16)) by (change (2 ^ 8) with (16 * 16); apply Z.rem_mul_r; lia). rewrite E2.
    pose proof (Z.mod_pos_bound x 16 ltac:(lia)) as H1. pose proof (Z.mod_pos_bound (x / 16) 16 ltac:(lia)) as H2. split.
    - change (2 ^ 4) with 16. rewrite (Z.mul_comm 16), Z.div_add, Z.div_small, Z.add_0_l by lia. by apply hex_digit_standard.
    - change 15 with (Z.ones 4). rewrite Z.land_ones by lia. change (2 ^ 4) with 16.
      rewrite (Z.mul_comm 16), Z.mod_add, Z.mod_mod by lia. by apply hex_digit_standard. }
  unfold hex_word, Fips.hex_of. cbn [fmap list_fmap concat app].
  destruct (Hb 3 ltac:(lia)) as [-> ->]. destruct (Hb 2 ltac:(lia)) as [-> ->]. destruct (Hb 1 ltac:(lia)) as [-> ->]. destruct (Hb 0 ltac:(lia)) as [-> ->]. done.
Qed.

Lemma pad_bytes m : Forall byte_ok m -> Forall byte_ok (pad m).
Proof.
  intros Hm. unfold pad, be64. rewrite !Forall_app. split_and!; [done|repeat constructor; lia|apply Forall_replicate; split; lia|].
  apply Forall_fmap, Forall_true. intros k. apply Z.mod_pos_bound. lia.
Qed.

(** C24: [sha256_hex] is SHA-256.  Feeding the message byte by byte through
    one block that is never cleared, with the padding written over it, gives
    for every message of less than 2^61 bytes the digest that [Fips.sha256],
    the standard's definition with its own constants, bit operations,
    schedule, padding and printing, defines, whatever the block held before:
    sixty-four lower case hexadecimal digits. *)
Theorem sha256_standard (junk : list Z) (msg : bytes) (Hj : length junk = 64%nat) (Hm : Z.of_nat (length msg) < 2 ^ 61) :
  sha256_hex junk msg = Fips.sha256 (code <$> msg) /\ length (sha256_hex junk msg) = 64%nat /\ Forall (fun c => c ∈ bs "0123456789abcdef") (sha256_hex junk msg).
Proof.
  split; [|apply digest_digits]. unfold sha256_hex, Fips.sha256, Fips.hash. set (m := code <$> msg).
  rewrite (finish_spec m) by (first [by apply fed_all | by unfold m; rewrite length_fmap]).
  destruct (pad_length m) as [n Hn]. assert (Hb : Forall byte_ok (pad m)).
  { apply pad_bytes. unfold m. apply Forall_fmap, Forall_true. intros c. apply code_range. }
  rewrite Hn, (Nat.mul_comm 64), Nat.div_mul by lia.
  rewrite transforms_spec by (apply iv_ok || by apply blocks_shape). rewrite (proj2 constants_spec), padded_spec in *.
  rewrite (pieces_spec n (Fips.padded m) (length (Fips.padded m))) by lia. f_equal. apply list_fmap_ext. intros _ w _. apply hex_word_spec.
Qed.

Lemma sha256_standard_witness : sha256_hex junk0 (bs "abc") = Fips.sha256 (code <$> bs "abc").
Proof. apply (sha256_standard junk0 (bs "abc")); [reflexivity|vm_compute; reflexivity]. Defined.

(** ** Stored credentials *)

Lemma ct_equal_spec a b : ct_equal a b = bool_decide (a = b).
Proof.
  unfold ct_equal. destruct (length a =? length b)%nat eqn:E; cbn [negb]; [apply Nat.eqb_eq in E|rewrite bool_decide_eq_false_2; [done|intros ->; by rewrite Nat.eqb_refl in E]].
  assert (H : forall d, 0 <= d -> (foldl (fun diff p => Z.lor diff (Z.lxor (code p.1) (code p.2))) d (zip a b) =? 0) = (d =? 0) && bool_decide (a = b)).
  { revert b E. induction a as [|x a IH]; intros [|y b] E d Hd; try discriminate E; [cbn; by rewrite andb_true_r|]. cbn [zip zip_with foldl fst snd].
    assert (Hx : 0 <= Z.lxor (code x) (code y)) by (apply Z.lxor_nonneg; pose proof (code_range x); pose proof (code_range y); lia).
    rewrite IH; [|by injection E|apply Z.lor_nonneg; lia]. destruct (decide (x = y)) as [->|Hne].
    - rewrite Z.lxor_nilpotent, Z.lor_0_r. f_equal. apply bool_decide_ext. split; [by intros ->|intros H; by injection H].
    - assert (Hc : (Z.lor d (Z.lxor (code x) (code y)) =? 0) = false).
      { apply Z.eqb_neq. intros Hz. apply Z.lor_eq_0_iff in Hz; destruct Hz as [_ Hz]. apply Z.lxor_eq in Hz. apply Hne. by apply code_inj. }
      rewrite Hc. rewrite (bool_decide_eq_false_2 (x :: a = y :: b)) by congruence. by rewrite andb_false_r. }
  by rewrite H.
Qed.

Section Stored.
(** Whether the program was built with Argon2; [argon2id_verify stored plain],
    and [argon2id_hash salt plain], [None] on failure. *)
Context (have_argon2 : bool) (argon2id_verify : bytes -> bytes -> bool) (argon2id_hash : list Z -> bytes -> option bytes) (junk : list Z).

(** [salt] is what [fill_random] gave, [None] without entropy. *)
Definition cred_hash_new (salt : option (list Z)) (plain : bytes) : bytes :=
  if have_argon2 then match salt with Some salt => default [] (argon2id_hash salt plain) | None => [] end
  else sha256_hex junk plain.

Definition cred_verify (plain stored : bytes) : bool :=
  if starts_with "$argon2id$" stored then have_argon2 && argon2id_verify stored plain
  else if (length stored =? 64)%nat then ct_equal (sha256_hex junk plain) stored
  else false.

(** [%u] of [sscanf]: [strtoul], cut to an [unsigned]. *)
Definition scan_u (s : bytes) : option (Z * bytes) :=
  let s := skip_space s in
  let body := match s with c :: s' => if (code c =? 43) || (code c =? 45) then s' else s | [] => s end in
  match span_digits body with
  | ([], _) => None
  | (_, rest) => Some (u32 (strtoull s), rest)
  end.

Definition scan_lit (lit : string) (s : bytes) : option bytes :=
  if starts_with lit s then Some (drop (length (bs lit)) s) else None.

(** [sscanf(s, "$argon2id$v=%*u$m=%u,t=%u,p=%u$", ...)] when it fills all
    three. *)
Definition scan_params (s : bytes) : option (Z * Z * Z) :=
  s ← scan_lit "$argon2id$v=" (c_str s); '(_, s) ← scan_u s;
  s ← scan_lit "$m=" s; '(m, s) ← scan_u s;
  s ← scan_lit ",t=" s; '(t, s) ← scan_u s;
  s ← scan_lit ",p=" s; '(p, _) ← scan_u s;
  Some (m, t, p).

Definition k_m_cost : Z := 19456.
Definition k_t_cost : Z := 2.
Definition k_par : Z := 1.

Definition cred_needs_rehash (stored : bytes) : bool :=
  if negb have_argon2 then false
  else if negb (starts_with "$argon2id$" stored) then true
  else match scan_params stored with
       | None => true
       | Some (m, t, p) => (m <? k_m_cost) || (t <? k_t_cost) || (p <? k_par)
       end.

(** [rand] are the random bytes, [None] without entropy. *)
Definition cred_random_hex (rand : option (list Z)) (nhex : nat) : bytes :=
  match rand with
  | None => []
  | Some buf => (fun i => let b := u8 (at_ buf (i / 2)) in hex_digit (if (i mod 2 =? 0)%nat then Z.shiftr b 4 else Z.land b 15)) <$> seq 0 nhex
  end.

Definition cred_dummy (rand salt : option (list Z)) : bytes :=
  let plain := match cred_random_hex rand 32 with [] => replicate 32 (chr 120) | p => p end in
  match cred_hash_new salt plain with [] => replicate 64 (chr 48) | h => h end.

(** A digest does not look like an Argon2 string. *)
Lemma digest_not_phc msg : starts_with "$argon2id$" (sha256_hex junk msg) = false.
Proof.
  destruct (starts_with "$argon2id$" (sha256_hex junk msg)) eqn:E; [|done]. unfold starts_with in E. apply bool_decide_eq_true in E.
  destruct (digest_digits junk msg) as [_ Hf].
  apply (Forall_take _ 10) in Hf. change (length (bs "$argon2id$")) with 10%nat in E. rewrite E in Hf. apply Forall_inv in Hf.
  exfalso. revert Hf. apply (bool_decide_eq_false_1 _). reflexivity.
Qed.

(** What is stored for a password verifies that password: an Argon2 string
    by the library's own promise, a digest by comparison, in either build;
    and what a build without Argon2 stores is never asked to be replaced. *)
Theorem cred_roundtrip (salt : option (list Z)) (plain : bytes)
    (Hargon : forall s p h, argon2id_hash s p = Some h -> starts_with "$argon2id$" h = true /\ argon2id_verify h p = true) :
  let stored := cred_hash_new salt plain in
  stored <> [] -> cred_verify plain stored = true /\ (have_argon2 = false -> cred_needs_rehash stored = false).
Proof.
  cbn zeta. unfold cred_hash_new, cred_verify, cred_needs_rehash. destruct have_argon2.
  - destruct salt as [s|]; [|done]. destruct (argon2id_hash s plain) as [h|] eqn:E; [|done]. cbn [default from_option id]. intros _. destruct (Hargon s plain h E) as [-> ->]. done.
  - intros _. rewrite digest_not_phc. rewrite (proj1 (digest_digits junk plain)). cbn [Nat.eqb]. rewrite ct_equal_spec, bool_decide_eq_true_2 by done. done.
Qed.

(** A digest of a password is only accepted for a password with that digest. *)
Lemma cred_verify_digest plain stored : starts_with "$argon2id$" stored = false -> cred_verify plain stored = true <-> sha256_hex junk plain = stored.
Proof.
  intros Hs. unfold cred_verify. rewrite Hs. destruct (length stored =? 64)%nat eqn:E.
  - rewrite ct_equal_spec. apply bool_decide_eq_true.
  - split; [done|]. intros <-. by rewrite (proj1 (digest_digits junk plain)) in E.
Qed.
End Stored.
