(* ===== verification/SaveFile.v ===== *)
(** * Saving and finding the snapshot
    (src/src/persistence/rdb.cpp 332-412, 904-998; src/src/commands/commands.cpp 1923-1955;
    src/src/server/server.cpp 1170-1190, 1394-1402)

    The files around a snapshot: SAVE, the forked child of BGSAVE, its reaping,
    the last save of a shutdown, and what the next start finds.  The disk is a
    map from paths to contents with a mark for what fsync has forced out; the
    outcomes of the system calls are arguments.  A crash keeps the contents that
    were forced out.  The program never syncs the directory, so a crash may also
    lose the newest creations, renames and deletions: what is found is the
    directory at some earlier moment.  The one assumption is that directory
    updates reach the disk in the order in which they were made, as a
    journalling file system does. *)
From S2P Require Import Prelude Buffer Resp StdString Deque Hashtable HashMap Heap Score ZSet HashSet State World Args Strings Lists Glob Keys Containers Hashes Sets CText CmdTable Handlers Double Crc32 Rdb RdbSpec RdbRound Backlog Aof.

(** ** The disk *)

Record File := mkFile { fdata : bytes; durable : bool }.

Abbreviation Disk := (gmap bytes File).

(** [rename]: atomic; nothing happens when the source is missing. *)
Definition rename (a b : bytes) (d : Disk) : Disk :=
  match d !! a with Some f => <[b := f]> (delete a d) | None => d end.

Definition fsync (a : bytes) (d : Disk) : Disk := alter (fun f => mkFile (fdata f) true) a d.

(** What the machine finds after a crash, when [d] was the last state of the
    directory to reach the disk: contents that were not forced out by then may
    be anything.  A file that was forced out is never written again under any
    name, so its contents are there whatever happened after [d]. *)
Definition crash (d d' : Disk) : Prop :=
  forall p, match d !! p with
            | Some f => exists f', d' !! p = Some f' /\ (durable f = true -> fdata f' = fdata f)
            | None => d' !! p = None
            end.

(** [snprintf] into an array of 256 bytes. *)
Definition path256 (s : bytes) : bytes := take 255 s.
Definition tmp_path (filename : bytes) (pid : Z) : bytes := path256 (filename ++ bs ".tmp." ++ print_i64 pid).
Definition bak_path (filename : bytes) : bytes := path256 (filename ++ bs ".bak").

(** ** The state of saving *)

(** Where the child stands in [rdb_write_snapshot]. *)
Inductive Phase := POpen | PWrite (off : nat) | PRename | PExit (status : Z) | PKilled.

Record Child := mkChild { c_pid : Z; c_buf : bytes; c_phase : Phase }.

Record Saver := mkSaver {
  ks_now : Keyspace;
  since_save : Z;          (* g_writes_since_save *)
  dirty_at_save : Z;       (* g_dirty_at_save *)
  last_save_ok : bool;     (* g_last_save_ok *)
  last_save_ms : Z;        (* g_last_save_ms *)
  last_save_size : Z;      (* g_last_save_size_bytes *)
  child : option Child;    (* g_rdb_child_pid and the process *)
  disk : Disk;
}.

Definition with_disk (d : Disk) (s : Saver) : Saver :=
  mkSaver (ks_now s) (since_save s) (dirty_at_save s) (last_save_ok s) (last_save_ms s) (last_save_size s) (child s) d.
Definition with_dirty (n : Z) (s : Saver) : Saver :=
  mkSaver (ks_now s) (since_save s) n (last_save_ok s) (last_save_ms s) (last_save_size s) (child s) (disk s).
Definition with_child (c : option Child) (s : Saver) : Saver :=
  mkSaver (ks_now s) (since_save s) (dirty_at_save s) (last_save_ok s) (last_save_ms s) (last_save_size s) c (disk s).
Definition with_ok (b : bool) (s : Saver) : Saver :=
  mkSaver (ks_now s) (since_save s) (dirty_at_save s) b (last_save_ms s) (last_save_size s) (child s) (disk s).

Definition rdb_on_save_complete (v : Env) (filename : bytes) (s : Saver) : Saver :=
  let size := match disk s !! filename with Some f => Z.of_nat (length (fdata f)) | None => last_save_size s end in
  let since := if dirty_at_save s <=? since_save s then u32 (since_save s - dirty_at_save s) else 0 in
  mkSaver (ks_now s) since 0 true (now v) size (child s) (disk s).

(** The outcomes of the calls of one [rdb_save]. *)
Record Calls := mkCalls {
  getpid : Z;
  fopen_ok : bool;
  fwrite_n : nat;        (* bytes taken *)
  fflush_ok : bool;
  fsync_ok : bool;
  rotate_ok : bool;      (* rename of the old file to .bak *)
  rename_ok : bool;
}.

Definition save_cap : nat := Z.to_nat 65536.
Arguments save_cap : simpl never.

Section Save.
Context (compress2 : bytes -> option bytes) (dump_path : bytes).

(** The bytes of a snapshot of the keyspace. *)
Definition image (v : Env) (s : Keyspace) : bytes := Buffer.content (rdb_serialize compress2 v s (buf_create save_cap)).

(** [rdb_save]: the result, the state, and the disk after each call, in order. *)
Definition rdb_save (v : Env) (c : Calls) (filename : bytes) (s : Saver) : bool * Saver * list Disk :=
  let s := with_dirty (since_save s) s in
  let data := image v (ks_now s) in
  let tmp := tmp_path filename (getpid c) in
  if negb (fopen_ok c) then (false, with_dirty 0 s, [disk s])
  else
    let d1 := <[tmp := mkFile [] false]> (disk s) in
    let abandon d tr := (false, with_dirty 0 (with_disk (delete tmp d) s), tr ++ [delete tmp d]) in
    if negb (min (fwrite_n c) (length data) =? length data)%nat then abandon d1 [d1]
    else
      let d2 := <[tmp := mkFile data false]> d1 in
      if negb (fflush_ok c) then abandon d2 [d1; d2]
      else if negb (fsync_ok c) then abandon d2 [d1; d2]
      else
        let d3 := fsync tmp d2 in
        let d4 := if rotate_ok c then rename filename (bak_path filename) d3 else d3 in
        if negb (rename_ok c) then abandon d4 [d1; d2; d3; d4]
        else
          let d5 := rename tmp filename d4 in
          (true, rdb_on_save_complete v filename (with_disk d5 s), [d1; d2; d3; d4; d5]).

(** One call of the child; [o] is its outcome (any length for a call that is not
    a write). *)
Inductive Outcome := OOk (n : nat) | OIntr | OFail.

Definition rdb_write_snapshot (o : Outcome) (filename : bytes) (c : Child) (d : Disk) : Child * Disk :=
  let tmp := tmp_path filename (c_pid c) in
  let at_ p := mkChild (c_pid c) (c_buf c) p in
  let quit := (at_ (PExit 1), delete tmp d) in
  match c_phase c with
  | POpen =>
      match o with
      | OOk _ => (at_ (PWrite 0), <[tmp := mkFile [] false]> d)
      | _ => (at_ (PExit 1), d)
      end
  | PWrite off =>
      if (off <? length (c_buf c))%nat then
        match o with
        | OOk n =>
            let off := (off + min n (length (c_buf c) - off))%nat in
            (at_ (PWrite off), <[tmp := mkFile (take off (c_buf c)) false]> d)
        | OIntr => (c, d)
        | OFail => quit
        end
      else
        match o with
        | OOk _ => (at_ PRename, fsync tmp d)
        | _ => quit
        end
  | PRename =>
      match o with
      | OOk _ => (at_ (PExit 0), rename tmp filename d)
      | _ => quit
      end
  | _ => (c, d)
  end.

(** [rdb_save_background]; [pid] is what fork returned, if it did. *)
Definition rdb_save_background (v : Env) (pid : option Z) (s : Saver) : Saver :=
  match child s with
  | Some _ => s
  | None =>
      let s := with_dirty (since_save s) s in
      match pid with
      | None => with_dirty 0 s
      | Some p => with_child (Some (mkChild p (image v (ks_now s)) POpen)) s
      end
  end.

(** [rdb_check_background_save]; [gone] when waitpid knows no such child. *)
Definition rdb_check_background_save (v : Env) (gone : bool) (s : Saver) : Saver :=
  match child s with
  | None => s
  | Some c =>
      if gone then with_child None s
      else
        match c_phase c with
        | PExit 0 => with_child None (rdb_on_save_complete v dump_path s)
        | PExit _ | PKilled => with_child None (with_ok false s)
        | _ => s
        end
  end.

Inductive SaveReply := SaveBusy | SaveOk | SaveFailed.

Definition do_save (v : Env) (gone : bool) (c : Calls) (s : Saver) : SaveReply * Saver * list Disk :=
  let s := rdb_check_background_save v gone s in
  match child s with
  | Some _ => (SaveBusy, s, [disk s])
  | None =>
      let '(ok, s, tr) := rdb_save v c dump_path s in
      ((if ok then SaveOk else SaveFailed), s, tr)
  end.

Definition do_bgsave (v : Env) (pid : option Z) (s : Saver) : bool * Saver :=
  match child s with
  | Some _ => (false, s)
  | None => (true, rdb_save_background v pid s)
  end.

(** The end of [main]: wait for the child, then save.  [None] while the wait
    blocks. *)
Definition save_and_exit (v : Env) (c : Calls) (s : Saver) : option (Saver * list Disk) :=
  let blocked := match child s with
                 | Some ch => match c_phase ch with PExit _ | PKilled => false | _ => true end
                 | None => false
                 end in
  if blocked then None
  else let '(_, s, tr) := rdb_save v c dump_path (with_child None s) in Some (s, tr).

(** ** Runs *)

Inductive SEvent :=
| EChange (s : Keyspace) (n : Z)                     (* a command that counts n writes *)
| ESave (v : Env) (gone : bool) (c : Calls)
| EBgsave (v : Env) (pid : option Z)                 (* BGSAVE or a save point *)
| EChild (o : Outcome)                               (* the child makes a call *)
| EKill                                              (* the child is killed *)
| EReap (v : Env) (gone : bool)                      (* the check of the loop *)
| EExit (v : Env) (c : Calls).

(** The state after the event, and the disks on the way. *)
Definition save_event (e : SEvent) (s : Saver) : Saver * list Disk :=
  match e with
  | EChange k n =>
      (mkSaver k (u32 (since_save s + n)) (dirty_at_save s) (last_save_ok s) (last_save_ms s) (last_save_size s) (child s) (disk s), [disk s])
  | ESave v g c => let '(_, s', tr) := do_save v g c s in (s', tr)
  | EBgsave v pid => let s' := rdb_save_background v pid s in (s', [disk s'])
  | EChild o =>
      match child s with
      | Some ch => let '(ch, d) := rdb_write_snapshot o dump_path ch (disk s) in (with_disk d (with_child (Some ch) s), [d])
      | None => (s, [disk s])
      end
  | EKill =>
      match child s with
      | Some ch =>
          match c_phase ch with
          | PExit _ => (s, [disk s])
          | _ => (with_child (Some (mkChild (c_pid ch) (c_buf ch) PKilled)) s, [disk s])
          end
      | None => (s, [disk s])
      end
  | EReap v g => let s' := rdb_check_background_save v g s in (s', [disk s'])
  | EExit v c => match save_and_exit v c s with Some r => r | None => (s, [disk s]) end
  end.

Definition save_run (evs : list SEvent) (s : Saver) : Saver := foldl (fun s e => (save_event e s).1) s evs.

(** The writes counted by a run. *)
Fixpoint changes (evs : list SEvent) : Z :=
  match evs with
  | EChange _ n :: evs => n + changes evs
  | _ :: evs => changes evs
  | [] => 0
  end.
End Save.

(** ** The next start *)

(** The choice of [main]: the log when it is enabled and there, else the dump,
    else nothing.  [None] is the refusal to serve. *)
Definition startup (other : bytes -> Handler) (uncompress : bytes -> nat -> option bytes) (aof_enable : bool) (aof_path dump_path : bytes)
    (d : Disk) (w : World) : option World :=
  let file p := fdata <$> d !! p in
  match (if aof_enable then file aof_path else None) with
  | Some raw => match aof_load other uncompress raw w with (true, w', _) => Some w' | _ => None end
  | None =>
      match file dump_path with
      | Some img => Some (with_ks (rdb_load uncompress (env w) (Some img) (file (dump_path ++ bs ".bak")) (ks w)).2 w)
      | None => Some w
      end
  end.

(** ** Paths and calls *)

Create HintDb save.

Section Proofs.
Context (compress2 : bytes -> option bytes) (dump : bytes) (Hpath : (length dump + 5 <= 255)%nat).

Definition bak : bytes := dump ++ bs ".bak".

Lemma path256_id s : (length s <= 255)%nat -> path256 s = s.
Proof. intros H. unfold path256. by rewrite take_ge. Qed.

Lemma bak_path_eq : bak_path dump = bak.
Proof. unfold bak_path, bak. apply path256_id. rewrite length_app. cbn. lia. Qed.

Lemma bak_not_dump : bak <> dump.
Proof. intros H. apply (f_equal length) in H. unfold bak in H. rewrite length_app in H. cbn in H. lia. Qed.

Lemma tmp_path_split pid : exists r, tmp_path dump pid = dump ++ bs ".tmp." ++ r.
Proof.
  unfold tmp_path, path256. exists (take (255 - length dump - 5) (print_i64 pid)).
  rewrite !take_app, !take_ge by (cbn; lia). done.
Qed.

Lemma tmp_not_dump pid : tmp_path dump pid <> dump.
Proof. destruct (tmp_path_split pid) as [r ->]. intros H. apply (f_equal length) in H. rewrite length_app in H. cbn in H. lia. Qed.

Lemma tmp_not_bak pid : tmp_path dump pid <> bak.
Proof. destruct (tmp_path_split pid) as [r ->]. unfold bak. intros H%app_inv_head. discriminate H. Qed.

(** The loader finds [x]: in the dump, or in the backup when there is no dump. *)
Definition holds (d : Disk) (x : bytes) : Prop :=
  d !! dump = Some (mkFile x true) \/ (d !! dump = None /\ d !! bak = Some (mkFile x true)).

Lemma holds_frame d d' x : d' !! dump = d !! dump -> d' !! bak = d !! bak -> holds d x -> holds d' x.
Proof. unfold holds. by intros -> ->. Qed.

Lemma holds_insert_tmp pid f d x : holds d x -> holds (<[tmp_path dump pid := f]> d) x.
Proof. apply holds_frame; apply lookup_insert_ne; [apply tmp_not_dump|apply tmp_not_bak]. Qed.

Lemma holds_delete_tmp pid d x : holds d x -> holds (delete (tmp_path dump pid) d) x.
Proof. apply holds_frame; apply lookup_delete_ne; [apply tmp_not_dump|apply tmp_not_bak]. Qed.

Lemma holds_fsync_tmp pid d x : holds d x -> holds (fsync (tmp_path dump pid) d) x.
Proof. apply holds_frame; apply lookup_alter_ne; [apply tmp_not_dump|apply tmp_not_bak]. Qed.

Lemma holds_rotate d x : holds d x -> holds (rename dump (bak_path dump) d) x.
Proof.
  rewrite bak_path_eq. unfold holds, rename. intros [H|[H1 H2]].
  - rewrite H. right. rewrite lookup_insert_ne by apply bak_not_dump. by rewrite lookup_delete_eq, lookup_insert_eq.
  - rewrite H1. by right.
Qed.

Lemma rename_target a b d f : d !! a = Some f -> rename a b d !! b = Some f.
Proof. unfold rename. intros ->. apply lookup_insert_eq. Qed.

Lemma rotate_keeps_tmp pid d : rename dump (bak_path dump) d !! tmp_path dump pid = d !! tmp_path dump pid.
Proof.
  rewrite bak_path_eq. unfold rename. destruct (d !! dump); [|done].
  rewrite lookup_insert_ne by (intros E; by apply (tmp_not_bak pid)).
  apply lookup_delete_ne. intros E. by apply (tmp_not_dump pid).
Qed.

#[local] Hint Resolve holds_insert_tmp holds_delete_tmp holds_fsync_tmp holds_rotate : save.

(** The branches of [rdb_save] that give up leave what the loader finds. *)
Ltac gives_up :=
  cbn; repeat match goal with |- _ /\ _ => split | |- Forall _ _ => constructor end; auto with save.

(** What [rdb_save] guarantees, at every call and at the end. *)
Lemma rdb_save_spec v c s x :
  holds (disk s) x -> 0 <= since_save s < 2 ^ 32 ->
  let '(ok, s', tr) := rdb_save compress2 v c dump s in
  Forall (fun d => holds d x \/ d !! dump = Some (mkFile (image compress2 v (ks_now s)) true)) tr /\
  ks_now s' = ks_now s /\ child s' = child s /\
  if ok then disk s' !! dump = Some (mkFile (image compress2 v (ks_now s)) true) /\ since_save s' = 0
  else holds (disk s') x /\ since_save s' = since_save s.
Proof.
  intros Hh Hn. unfold rdb_save. cbn [with_dirty ks_now disk since_save]. set (data := image _ _ _).
  set (tmp := tmp_path dump (getpid c)).
  assert (Htmp : forall f d, holds d x -> holds (<[tmp := f]> d) x) by (intros; unfold tmp; auto with save).
  assert (Hdel : forall d, holds d x -> holds (delete tmp d) x) by (intros; unfold tmp; auto with save).
  assert (Hrot : forall d, rename dump (bak_path dump) d !! tmp = d !! tmp) by (intros; apply rotate_keeps_tmp).
  assert (Hsyn : forall d, holds d x -> holds (fsync tmp d) x) by (intros; unfold tmp; auto with save).
  clearbody data tmp.
  destruct (fopen_ok c); cbn [negb]; [|by gives_up].
  set (d1 := <[tmp := mkFile [] false]> (disk s)). assert (H1 : holds d1 x) by (unfold d1; auto).
  destruct (min _ _ =? _)%nat; cbn [negb];
    [|by gives_up].
  set (d2 := <[tmp := mkFile data false]> d1). assert (H2 : holds d2 x) by (unfold d2; auto).
  destruct (fflush_ok c); cbn [negb];
    [|by gives_up].
  destruct (fsync_ok c); cbn [negb];
    [|by gives_up].
  set (d3 := fsync tmp d2). assert (H3 : holds d3 x) by (unfold d3; auto).
  set (d4 := if rotate_ok c then _ else d3). assert (H4 : holds d4 x) by (unfold d4; destruct (rotate_ok c); auto with save).
  assert (Ht : d4 !! tmp = Some (mkFile data true)).
  { assert (d3 !! tmp = Some (mkFile data true)) as E
      by (unfold d3, fsync, d2; rewrite lookup_alter_eq, lookup_insert_eq; done).
    unfold d4. destruct (rotate_ok c); [by rewrite Hrot|done]. }
  destruct (rename_ok c); cbn [negb];
    [|by gives_up].
  pose proof (rename_target tmp dump d4 _ Ht) as H5.
  split_and!; [|done..|exact H5|].
  - by gives_up.
  - cbn. rewrite (proj2 (Z.leb_le _ _)) by lia. rewrite Z.sub_diag. done.
Qed.

(** ** The invariant of a run *)

Section Invariant.
Context (s0 : Saver) (good : Env -> Prop).

Definition event_ok (e : SEvent) : Prop :=
  match e with
  | EChange _ n => 0 <= n
  | ESave v _ _ | EBgsave v _ | EReap v _ | EExit v _ => good v
  | _ => True
  end.

(** [k] was the keyspace at a moment of the run after which [n] writes were
    counted. *)
Definition moment (evs : list SEvent) (k : Keyspace) (n : Z) : Prop :=
  exists e1 e2, evs = e1 ++ e2 /\ k = ks_now (save_run compress2 dump e1 s0) /\ n = changes e2.

(** [x] is the image of such a moment. *)
Definition image_of (evs : list SEvent) (x : bytes) (n : Z) : Prop :=
  exists k v, moment evs k n /\ good v /\ x = image compress2 v k.

Definition child_ok (evs : list SEvent) (s : Saver) (c : Child) : Prop :=
  (exists n, image_of evs (c_buf c) n /\ 0 <= n <= since_save s /\ dirty_at_save s = since_save s - n) /\
  match c_phase c with
  | PWrite off => (off <= length (c_buf c))%nat /\ disk s !! tmp_path dump (c_pid c) = Some (mkFile (take off (c_buf c)) false)
  | PRename => disk s !! tmp_path dump (c_pid c) = Some (mkFile (c_buf c) true)
  | PExit 0 => disk s !! dump = Some (mkFile (c_buf c) true)
  | _ => True
  end.

Record save_inv (evs : list SEvent) (s : Saver) : Prop := {
  si_since : 0 <= since_save s <= changes evs;
  si_ks : ks_now s = ks_now (save_run compress2 dump evs s0);
  si_found : exists x n, holds (disk s) x /\ image_of evs x n /\ 0 <= n <= since_save s;
  si_child : match child s with Some c => child_ok evs s c | None => True end;
}.

Lemma changes_app e1 e2 : changes (e1 ++ e2) = changes e1 + changes e2.
Proof. clear Hpath. induction e1 as [|e e1 IH]; [done|]. destruct e; cbn [app changes]; lia. Qed.

Lemma save_run_snoc evs e s : save_run compress2 dump (evs ++ [e]) s = (save_event compress2 dump e (save_run compress2 dump evs s)).1.
Proof. unfold save_run. by rewrite foldl_app. Qed.

Lemma moment_snoc evs e k n : moment evs k n -> moment (evs ++ [e]) k (n + changes [e]).
Proof. intros (e1 & e2 & -> & -> & ->). exists e1, (e2 ++ [e]). by rewrite changes_app, app_assoc. Qed.

Lemma image_of_snoc evs e x n : image_of evs x n -> image_of (evs ++ [e]) x (n + changes [e]).
Proof. intros (k & v & H1 & H2 & H3). exists k, v. eauto using moment_snoc. Qed.

Lemma image_of_quiet evs e x n : changes [e] = 0 -> image_of evs x n -> image_of (evs ++ [e]) x n.
Proof. intros Hq H. rewrite <- (Z.add_0_r n), <- Hq. by apply image_of_snoc. Qed.

Lemma image_of_now evs v : good v -> image_of evs (image compress2 v (ks_now (save_run compress2 dump evs s0))) 0.
Proof. intros Hv. exists (ks_now (save_run compress2 dump evs s0)), v. split_and!; [|done..]. exists evs, []. by rewrite app_nil_r. Qed.

(** An event that changes no key only lengthens the run. *)
Lemma save_inv_quiet evs e s' :
  changes [e] = 0 -> s' = (save_event compress2 dump e (save_run compress2 dump evs s0)).1 ->
  save_inv evs s' -> save_inv (evs ++ [e]) s'.
Proof.
  intros Hq Hs' [H1 H2 (x & n & Hx & Hi & Hn) H4]. split.
  - rewrite changes_app, Hq. lia.
  - by rewrite save_run_snoc, <- Hs'.
  - exists x, n. split_and!; [done|by apply image_of_quiet|lia..].
  - destruct (child s') as [c|]; [|done]. destruct H4 as [(m & Hm & Hmn & Hd) Hp]. split; [|done].
    exists m. split_and!; [by apply image_of_quiet|lia..].
Qed.

(** A counted write. *)
Lemma save_inv_change evs k n s :
  s = save_run compress2 dump evs s0 -> 0 <= n -> changes evs + n < 2 ^ 32 -> save_inv evs s ->
  save_inv (evs ++ [EChange k n]) (save_event compress2 dump (EChange k n) s).1.
Proof.
  intros Hs Hn Hlt [H1 H2 (x & m & Hx & Hi & Hm) H4].
  assert (E : u32 (since_save s + n) = since_save s + n) by (apply Z.mod_small; lia).
  assert (Hc : changes [EChange k n] = n) by (cbn; lia). split; cbn [save_event fst since_save].
  - rewrite E, changes_app, Hc. lia.
  - by rewrite save_run_snoc, <- Hs.
  - exists x, (m + n). rewrite E. split_and!; [done| |lia..]. rewrite <- Hc at 2. by apply image_of_snoc.
  - cbn [child]. destruct (child s) as [c|]; [|done]. destruct H4 as [(j & Hj & Hjn & Hd) Hp]. split; [|done].
    cbn [since_save dirty_at_save]. rewrite E. exists (j + n). split_and!; [|lia..]. rewrite <- Hc at 2. by apply image_of_snoc.
Qed.

Lemma reap_inv evs v gone s : changes evs < 2 ^ 32 -> save_inv evs s -> save_inv evs (rdb_check_background_save dump v gone s).
Proof.
  intros Hlt [H1 H2 H3 H4]. unfold rdb_check_background_save. destruct (child s) as [c|] eqn:Ec; [|by split; rewrite ?Ec].
  destruct gone; [by split|].
  assert (Hfail : save_inv evs (with_child None (with_ok false s))) by (by split).
  assert (Hsame : save_inv evs s) by (split; rewrite ?Ec; done).
  destruct H4 as [(m & Hm & Hmn & Hd) Hp]. destruct (c_phase c) as [| | |[|p|p]|]; try done.
  assert (E : since_save (rdb_on_save_complete v dump s) = m).
  { cbn. rewrite Hd, (proj2 (Z.leb_le _ _)) by lia. replace (since_save s - (since_save s - m)) with m by lia.
    apply Z.mod_small. lia. }
  split; cbn [with_child since_save ks_now disk child]; [rewrite E; lia|done| |done].
  exists (c_buf c), m. rewrite E. split_and!; [by left|done|lia..].
Qed.

Lemma rdb_save_inv evs v c s :
  changes evs < 2 ^ 32 -> good v -> child s = None -> save_inv evs s ->
  let '(_, s', tr) := rdb_save compress2 v c dump s in
  save_inv evs s' /\ Forall (fun d => exists x n, holds d x /\ image_of evs x n /\ 0 <= n <= since_save s) tr.
Proof.
  intros Hlt Hv Hc [H1 H2 (x & n & Hx & Hi & Hn) _]. pose proof (rdb_save_spec v c s x Hx ltac:(lia)) as H.
  destruct (rdb_save _ _ _ _ _) as [[ok s'] tr]. destruct H as (Htr & Hk & Hch & Hok).
  pose proof (image_of_now evs v Hv) as Hnow. rewrite <- H2 in Hnow. split.
  - destruct ok; destruct Hok as [Hd Hs]; (split; [lia|by rewrite Hk| |by rewrite Hch, Hc]).
    + exists (image compress2 v (ks_now s)), 0. split_and!; [by left|done|lia..].
    + exists x, n. split_and!; [done|done|lia..].
  - eapply Forall_impl; [exact Htr|]. intros d [Hd|Hd]; [by exists x, n|].
    exists (image compress2 v (ks_now s)), 0. split_and!; [by left|done|lia..].
Qed.

Lemma bgsave_inv evs v pid s : good v -> save_inv evs s -> save_inv evs (rdb_save_background compress2 v pid s).
Proof.
  intros Hv [H1 H2 H3 H4]. unfold rdb_save_background. destruct (child s) as [c|] eqn:Ec; [split; rewrite ?Ec; done|].
  pose proof (image_of_now evs v Hv) as Hnow. rewrite <- H2 in Hnow.
  cbn [with_dirty ks_now]. revert Hnow. generalize (image compress2 v (ks_now s)) as data. intros data Hnow.
  destruct pid as [p|]; (split; [done..|]); cbn; [|by rewrite Ec]. split; [|done]. exists 0. cbn. by split_and!; [|lia..].
Qed.

(** A call of the child leaves what the loader finds, or puts its own image
    there. *)
Lemma child_inv evs o c s :
  child s = Some c -> save_inv evs s ->
  let '(c', d) := rdb_write_snapshot o dump c (disk s) in save_inv evs (with_disk d (with_child (Some c') s)).
Proof.
  intros Ec [H1 H2 (x & n & Hx & Hi & Hn) H4]. rewrite Ec in H4. destruct H4 as [Hb Hp].
  assert (Hkeep : forall c' d, c_pid c' = c_pid c -> c_buf c' = c_buf c -> holds d x ->
    child_ok evs (with_disk d (with_child (Some c') s)) c' -> save_inv evs (with_disk d (with_child (Some c') s))).
  { intros c' d _ _ Hd Hc'. split; [done..|by exists x, n|done]. }
  assert (Hquit : save_inv evs (with_disk (delete (tmp_path dump (c_pid c)) (disk s)) (with_child (Some (mkChild (c_pid c) (c_buf c) (PExit 1))) s))).
  { apply Hkeep; auto with save. by split. }
  unfold rdb_write_snapshot. destruct (c_phase c) as [|off| |st|] eqn:Ep.
  - destruct o; (apply Hkeep; auto with save; split; [done|]); cbn; [|done..]. split; [lia|apply lookup_insert_eq].
  - destruct Hp as [Ho Ht]. destruct (Nat.ltb_spec off (length (c_buf c))) as [Hlt|Hge].
    + destruct o as [k| |]; [| |done].
      * apply Hkeep; auto with save. split; [done|]. cbn. split; [lia|apply lookup_insert_eq].
      * apply Hkeep; auto. split; [done|]. rewrite Ep. done.
    + destruct o as [k| |]; [|done..]. apply Hkeep; auto with save. split; [done|]. cbn.
      unfold fsync. rewrite lookup_alter_eq, Ht. cbn. by rewrite take_ge by lia.
  - destruct o as [k| |]; [|done..]. destruct Hb as (m & Hm & Hmn & Hd).
    pose proof (rename_target _ dump _ _ Hp) as Hr. split; [done..| |].
    + exists (c_buf c), m. split_and!; [by left|done|cbn; lia..].
    + split; [by exists m|done].
  - apply Hkeep; auto. split; [done|]. by rewrite Ep.
  - apply Hkeep; auto. split; [done|]. by rewrite Ep.
Qed.

(** Every disk an event passes through holds an image no more than the counter
    behind. *)
Definition fresh (evs : list SEvent) (most : Z) (d : Disk) : Prop :=
  exists x n, holds d x /\ image_of evs x n /\ 0 <= n <= most.

Lemma inv_fresh evs s : save_inv evs s -> fresh evs (since_save s) (disk s).
Proof. by intros [_ _ H _]. Qed.

Lemma fresh_le evs m m' d : m <= m' -> fresh evs m d -> fresh evs m' d.
Proof. intros Hm (x & n & H1 & H2 & H3). exists x, n. split_and!; [done|done|lia..]. Qed.

Lemma reap_since evs v gone s : changes evs < 2 ^ 32 -> save_inv evs s -> since_save (rdb_check_background_save dump v gone s) <= since_save s.
Proof.
  intros Hlt [H1 _ _ H4]. unfold rdb_check_background_save. destruct (child s) as [c|] eqn:Ec; [|lia].
  destruct gone; [cbn; lia|]. destruct H4 as [(m & Hm & Hmn & Hd) Hp].
  destruct (c_phase c) as [| | |[|p|p]|]; cbn; try lia.
  rewrite Hd, (proj2 (Z.leb_le _ _)) by lia. unfold u32. rewrite Z.mod_small; lia.
Qed.

Lemma reap_disk v gone s : disk (rdb_check_background_save dump v gone s) = disk s.
Proof. unfold rdb_check_background_save. destruct (child s) as [c|]; [|done]. destruct gone; [done|]. by destruct (c_phase c) as [| | |[|p|p]|]. Qed.

Lemma do_save_inv evs v gone c s :
  changes evs < 2 ^ 32 -> good v -> save_inv evs s ->
  let '(_, s', tr) := do_save compress2 dump v gone c s in save_inv evs s' /\ Forall (fresh evs (since_save s)) tr.
Proof.
  intros Hlt Hv Hi. pose proof (reap_inv evs v gone s Hlt Hi) as H1. pose proof (reap_since evs v gone s Hlt Hi) as Hle.
  unfold do_save. set (s1 := rdb_check_background_save _ _ _ _) in *. destruct (child s1) as [ch|] eqn:Ec.
  - split; [done|]. constructor; [|done]. eapply fresh_le; [exact Hle|by apply inv_fresh].
  - pose proof (rdb_save_inv evs v c s1 Hlt Hv Ec H1) as H. destruct (rdb_save _ _ _ _ _) as [[ok s'] tr].
    destruct H as [H2 H3]. split; [done|]. eapply Forall_impl; [exact H3|]. intros d Hd. by eapply fresh_le.
Qed.

Lemma exit_inv evs v c s :
  changes evs < 2 ^ 32 -> good v -> save_inv evs s ->
  let r := save_event compress2 dump (EExit v c) s in save_inv evs r.1 /\ Forall (fresh evs (since_save s)) r.2.
Proof.
  intros Hlt Hv Hi. cbn [save_event]. unfold save_and_exit.
  destruct (match child s with Some ch => _ | None => false end).
  - cbn. split; [done|]. constructor; [by apply inv_fresh|done].
  - assert (H1 : save_inv evs (with_child None s)) by (destruct Hi; by split).
    pose proof (rdb_save_inv evs v c (with_child None s) Hlt Hv eq_refl H1) as H. by destruct (rdb_save _ _ _ _ _) as [[ok s'] tr].
Qed.

Lemma kill_inv evs s : save_inv evs s ->
  let r := save_event compress2 dump EKill s in save_inv evs r.1 /\ r.2 = [disk s].
Proof.
  intros Hi. cbn [save_event]. destruct (child s) as [c|] eqn:Ec; [|done].
  assert (H : save_inv evs (with_child (Some (mkChild (c_pid c) (c_buf c) PKilled)) s)).
  { destruct Hi as [H1 H2 H3 H4]. rewrite Ec in H4. destruct H4 as [Hb _]. by split. }
  by destruct (c_phase c).
Qed.

(** Every event keeps the invariant and passes through fresh disks only. *)
Lemma event_inv evs e s :
  s = save_run compress2 dump evs s0 -> event_ok e -> changes evs < 2 ^ 32 -> changes (evs ++ [e]) < 2 ^ 32 -> save_inv evs s ->
  save_inv (evs ++ [e]) (save_event compress2 dump e s).1 /\ Forall (fresh evs (since_save s)) (save_event compress2 dump e s).2.
Proof.
  intros Hs He Hlt Hlt' Hi. pose proof (inv_fresh evs s Hi) as Hf.
  assert (Hone : forall d, fresh evs (since_save s) d -> Forall (fresh evs (since_save s)) [d]) by (by repeat constructor).
  assert (Hquiet : changes [e] = 0 -> save_inv evs (save_event compress2 dump e s).1 ->
    save_inv (evs ++ [e]) (save_event compress2 dump e s).1) by (intros; apply save_inv_quiet; subst; done).
  destruct e as [k n|v g c|v pid|o| |v g|v c]; cbn [event_ok] in He.
  - split; [|by apply Hone]. apply save_inv_change; try done. rewrite changes_app in Hlt'. cbn in Hlt'. lia.
  - pose proof (do_save_inv evs v g c s Hlt He Hi) as H. cbn [save_event] in *.
    destruct (do_save _ _ _ _ _ _) as [[r s'] tr]. destruct H as [H1 H2]. split; [by apply Hquiet|done].
  - pose proof (bgsave_inv evs v pid s He Hi) as H. split; [by apply Hquiet|]. apply Hone. cbn.
    replace (disk (rdb_save_background compress2 v pid s)) with (disk s); [done|].
    unfold rdb_save_background. by destruct (child s), pid.
  - cbn [save_event] in *. destruct (child s) as [c|] eqn:Ec; [|split; [by apply Hquiet|by apply Hone]].
    pose proof (child_inv evs o c s Ec Hi) as H. destruct (rdb_write_snapshot _ _ _ _) as [c' d]. split; [by apply Hquiet|].
    apply Hone. exact (inv_fresh _ _ H).
  - destruct (kill_inv evs s Hi) as [H1 H2]. rewrite H2. split; [by apply Hquiet|by apply Hone].
  - pose proof (reap_inv evs v g s Hlt Hi) as H. split; [by apply Hquiet|]. apply Hone. cbn. by rewrite reap_disk.
  - destruct (exit_inv evs v c s Hlt He Hi) as [H1 H2]. split; [by apply Hquiet|done].
Qed.

Lemma changes_nonneg evs : Forall event_ok evs -> 0 <= changes evs.
Proof. clear Hpath. induction 1 as [|e evs He _ IH]; [done|]. destruct e; cbn [changes event_ok] in *; lia. Qed.

Lemma run_inv evs :
  save_inv [] s0 -> Forall event_ok evs -> changes evs < 2 ^ 32 -> save_inv evs (save_run compress2 dump evs s0).
Proof.
  intros H0. induction evs as [|e evs IH] using rev_ind; [done|]. intros [Hev [He _]%Forall_cons]%Forall_app Hlt.
  assert (changes evs < 2 ^ 32).
  { rewrite changes_app in Hlt. pose proof (changes_nonneg [e] ltac:(by constructor)). lia. }
  rewrite save_run_snoc. by apply event_inv; auto.
Qed.
End Invariant.
End Proofs.

(** ** What a restart finds *)

Definition saveable (k : Keyspace) : Prop :=
  ks_ok k /\ ks_fits k /\ ttls_ok k /\ forall v, Z.of_nat (length (enc_payload v k)) < 2 ^ 32.

(** The loader's clocks are not behind the writer's. *)
Definition before (v' v : Env) : Prop := clock_ok v /\ wall v <= wall v'.

Definition run_ok (v' : Env) (e : SEvent) : Prop :=
  event_ok (before v') e /\ match e with EChange k _ => saveable k | _ => True end.

Lemma rdb_save_ks compress2 v c f s : ks_now (rdb_save compress2 v c f s).1.2 = ks_now s.
Proof.
  unfold rdb_save. destruct (fopen_ok c), (fflush_ok c), (fsync_ok c), (rename_ok c); cbn [negb]; try done;
    by destruct (min _ _ =? _)%nat.
Qed.

Lemma reap_ks f v g s : ks_now (rdb_check_background_save f v g s) = ks_now s.
Proof. unfold rdb_check_background_save. destruct (child s) as [c|]; [|done]. destruct g; [done|]. by destruct (c_phase c) as [| | |[|p|p]|]. Qed.

(** Only a command changes the keyspace. *)
Lemma save_event_ks compress2 f e s :
  ks_now (save_event compress2 f e s).1 = match e with EChange k _ => k | _ => ks_now s end.
Proof.
  destruct e as [k n|v g c|v pid|o| |v g|v c]; cbn [save_event]; [done|..].
  - unfold do_save. pose proof (reap_ks f v g s) as Hr. destruct (child _); [done|].
    pose proof (rdb_save_ks compress2 v c f (rdb_check_background_save f v g s)) as H.
    destruct (rdb_save _ _ _ _ _) as [[ok s'] tr]. cbn in *. by rewrite H.
  - unfold rdb_save_background. by destruct (child s), pid.
  - destruct (child s) as [c|]; [|done]. by destruct (rdb_write_snapshot _ _ _ _).
  - destruct (child s) as [c|]; [|done]. by destruct (c_phase c).
  - apply reap_ks.
  - unfold save_and_exit. pose proof (rdb_save_ks compress2 v c f (with_child None s)) as H.
    destruct (rdb_save _ _ _ _ _) as [[ok s'] tr]. by destruct (match child s with Some ch => _ | None => false end).
Qed.

Lemma run_saveable compress2 f v' evs s :
  saveable (ks_now s) -> Forall (run_ok v') evs -> saveable (ks_now (save_run compress2 f evs s)).
Proof.
  revert s. induction evs as [|e evs IH]; intros s Hs Hev; [done|]. apply Forall_cons in Hev as [[_ He] Hev]. cbn.
  apply IH; [|done]. rewrite save_event_ks. by destruct e.
Qed.

(** The image of a keyspace loads. *)
Lemma image_loads (compress2 : bytes -> option bytes) (uncompress : bytes -> nat -> option bytes) v v' k :
  (forall x z, compress2 x = Some z -> uncompress z (length x) = Some x) ->
  (forall x z, compress2 x = Some z -> Z.of_nat (length x) <= Z.of_nat (length z) * 1032 + 4096) ->
  saveable k -> before v' v -> clock_ok v' ->
  exists s', rdb_load_file uncompress v' (Some (image compress2 v k)) ks_empty = (ROk (), s') /\ ks_ok s' /\
    lview (now v') s' = omap (survive v v') (lview (now v) k).
Proof.
  intros Hz1 Hz2 (Hs & Hf & Ht & Hsz) (Hv & Hw) Hv'. unfold image. destruct (buf_create_wf save_cap) as [W0 C0].
  pose proof (load_image compress2 uncompress v v' k (buf_create save_cap) Hz1 Hz2 Hs Hf W0 C0 (Hsz v)) as E.
  destruct (parse_payload v v' k Hs Hf Ht Hv Hv') as (s1 & R1 & R2 & R3 & R4).
  revert E. generalize (Buffer.content (rdb_serialize compress2 v k (buf_create save_cap))) as img. intros img E.
  exists s1. split_and!; [|done|by apply restored_live]. cbn [rdb_load_file]. rewrite E, R1.
  destruct (rdb_header_ok img) eqn:Eh; [done|]. unfold rdb_load_buffer in E. rewrite Eh in E. cbn [negb] in E.
  by rewrite R1 in E.
Qed.

(** What the loader finds survives a crash. *)
Lemma holds_crash dump d d' x : holds dump d x -> crash d d' ->
  (fdata <$> d' !! dump = Some x) \/ (d' !! dump = None /\ fdata <$> d' !! (dump ++ bs ".bak") = Some x).
Proof.
  intros [H|[H1 H2]] Hc; [left|right].
  - specialize (Hc dump). rewrite H in Hc. destruct Hc as (f & -> & Hd). cbn. f_equal. by apply Hd.
  - pose proof (Hc dump) as Hd. rewrite H1 in Hd. specialize (Hc (bak dump)). rewrite H2 in Hc.
    destruct Hc as (f & Ef & Hdf). unfold bak in Ef. rewrite Ef. cbn. split; [done|]. f_equal. by apply Hdf.
Qed.

(** The moment found when nothing behind [d] was lost. *)
Lemma crash_point_safe (compress2 : bytes -> option bytes) (uncompress : bytes -> nat -> option bytes)
    (zlib_inverse : forall x z, compress2 x = Some z -> uncompress z (length x) = Some x)
    (zlib_ratio : forall x z, compress2 x = Some z -> Z.of_nat (length x) <= Z.of_nat (length z) * 1032 + 4096)
    (dump : bytes) (Hpath : (length dump + 5 <= 255)%nat) (v0 v' : Env) (s0 : Saver) (evs : list SEvent) (e : SEvent) (d d' : Disk)
    (Hdump : disk s0 !! dump = Some (mkFile (image compress2 v0 (ks_now s0)) true)) (Hsince : since_save s0 = 0)
    (Hchild : child s0 = None) (Hv0 : before v' v0) (Hv' : clock_ok v') (Hks : saveable (ks_now s0))
    (Hev : Forall (run_ok v') (evs ++ [e])) (Hcount : changes (evs ++ [e]) < 2 ^ 32)
    (Hd : d ∈ (save_event compress2 dump e (save_run compress2 dump evs s0)).2) (Hcrash : crash d d') :
  exists e1 e2 v s', evs = e1 ++ e2 /\ changes e2 <= since_save (save_run compress2 dump evs s0) /\
    rdb_load uncompress v' (fdata <$> d' !! dump) (fdata <$> d' !! (dump ++ bs ".bak")) ks_empty = (ROk (), s') /\ ks_ok s' /\
    lview (now v') s' = omap (survive v v') (lview (now v) (ks_now (save_run compress2 dump e1 s0))).
Proof.
  assert (H0 : save_inv compress2 dump s0 (before v') [] s0).
  { split; [cbn; lia|done| |by rewrite Hchild]. exists (image compress2 v0 (ks_now s0)), 0. split_and!; [by left| |lia..].
    by apply (image_of_now compress2 dump s0 (before v') []). }
  assert (Hok : Forall (event_ok (before v')) (evs ++ [e])) by (eapply Forall_impl; [exact Hev|]; by intros ? []).
  apply Forall_app in Hev as [Hev _]. pose proof (proj1 (Forall_app _ _ _) Hok) as [Hok1 Hok2].
  assert (Hnn : 0 <= changes [e]) by (eapply changes_nonneg; eassumption).
  assert (Hc1 : changes evs < 2 ^ 32) by (rewrite changes_app in Hcount; lia).
  pose proof (run_inv compress2 dump Hpath s0 (before v') evs H0 Hok1 Hc1) as Hi.
  apply Forall_cons in Hok2 as [He _].
  destruct (event_inv compress2 dump Hpath s0 (before v') evs e _ eq_refl He Hc1 Hcount Hi) as [_ Hfr].
  rewrite Forall_forall in Hfr. destruct (Hfr d Hd) as (x & n & Hx & (k & v & (e1 & e2 & E1 & Ek & En) & Hg & Ex) & Hn).
  destruct (image_loads compress2 uncompress v v' k zlib_inverse zlib_ratio) as (s' & L1 & L2 & L3); [|done..|].
  { rewrite Ek. apply (run_saveable _ _ v'); [done|]. rewrite E1 in Hev. by apply Forall_app in Hev as [? _]. }
  exists e1, e2, v, s'. rewrite <- Ek. split_and!; [done|lia| |done..]. rewrite <- Ex in L1. unfold rdb_load.
  destruct (holds_crash dump d d' x Hx Hcrash) as [->|[-> ->]]; [by rewrite L1|]. cbn [fmap option_fmap option_map]. by rewrite L1.
Qed.

(** C5: A crash loses a bounded part of the run and nothing else.  Take any run
    of commands, SAVE, BGSAVE and save points, calls of the forked child and
    its death, reaping and the last save of a shutdown, any of whose system
    calls may fail, and let the machine stop.  The directory is not synced by
    the program; assuming its updates reach the disk in order, let [d], a state
    between two calls of the event [e], be the last that did: everything done
    to the directory later, in [e] and in the events [lost], is gone.  Loading
    what is left, the dump or else the backup, succeeds and restores exactly
    the live keys and values of a moment of the run, after which no more writes
    were counted than g_writes_since_save showed before [e] plus those since.
    With nothing lost that is the counter alone, and none after a save that was
    acknowledged and whose rename is on the disk. *)
Theorem snapshot_crash_safe (compress2 : bytes -> option bytes) (uncompress : bytes -> nat -> option bytes)
    (zlib_inverse : forall x z, compress2 x = Some z -> uncompress z (length x) = Some x)
    (zlib_ratio : forall x z, compress2 x = Some z -> Z.of_nat (length x) <= Z.of_nat (length z) * 1032 + 4096)
    (dump : bytes) (Hpath : (length dump + 5 <= 255)%nat) (v0 v' : Env) (s0 : Saver) (evs : list SEvent) (e : SEvent) (lost : list SEvent) (d d' : Disk)
    (Hdump : disk s0 !! dump = Some (mkFile (image compress2 v0 (ks_now s0)) true)) (Hsince : since_save s0 = 0)
    (Hchild : child s0 = None) (Hv0 : before v' v0) (Hv' : clock_ok v') (Hks : saveable (ks_now s0))
    (Hev : Forall (run_ok v') (evs ++ e :: lost)) (Hcount : changes (evs ++ e :: lost) < 2 ^ 32)
    (Hd : d ∈ (save_event compress2 dump e (save_run compress2 dump evs s0)).2) (Hcrash : crash d d') :
  exists e1 e2 v s', evs ++ e :: lost = e1 ++ e2 /\
    changes e2 <= since_save (save_run compress2 dump evs s0) + changes (e :: lost) /\
    rdb_load uncompress v' (fdata <$> d' !! dump) (fdata <$> d' !! (dump ++ bs ".bak")) ks_empty = (ROk (), s') /\ ks_ok s' /\
    lview (now v') s' = omap (survive v v') (lview (now v) (ks_now (save_run compress2 dump e1 s0))).
Proof.
  replace (evs ++ e :: lost) with ((evs ++ [e]) ++ lost) in * by (by rewrite <- app_assoc).
  apply Forall_app in Hev as [Hev Hlost].
  assert (Hok : Forall (event_ok (before v')) lost) by (eapply Forall_impl; [exact Hlost|]; by intros ? []).
  pose proof (changes_nonneg (before v') lost Hok) as Hnn. rewrite changes_app in Hcount.
  destruct (crash_point_safe compress2 uncompress zlib_inverse zlib_ratio dump Hpath v0 v' s0 evs e d d' Hdump Hsince Hchild Hv0 Hv' Hks Hev
    ltac:(lia) Hd Hcrash) as (e1 & e2 & v & s' & E & Hle & Hload).
  exists e1, (e2 ++ e :: lost), v, s'. split; [rewrite E, <- !app_assoc; done|]. split; [rewrite changes_app; lia|done].
Qed.

Lemma crash_refl d : crash d d.
Proof. intros p. destruct (d !! p) as [f|] eqn:E; [|done]. by exists f. Qed.

Definition all_well : Calls := mkCalls 41 true (Z.to_nat 65536) true true true true.
Arguments all_well : simpl never.
Definition demo_dump : bytes := bs "dump.rdb".
Definition saver0 : Saver :=
  mkSaver ks_empty 0 0 true 0 0 None {[demo_dump := mkFile (image toy_compress (env_at 1 1) ks_empty) true]}.
(** A key is written and SAVE runs; the disk between its two renames. *)
Definition demo_save : SEvent := ESave (env_at 20 30) false all_well.
Definition demo_save_run : list SEvent := [EChange ks_one_key 1].
Definition rotated : Disk :=
  default ∅ ((save_event toy_compress demo_dump demo_save (save_run toy_compress demo_dump demo_save_run saver0)).2 !! 3%nat).

Lemma ks_one_key_saveable : saveable ks_one_key.
Proof.
  split_and!; [apply ks_one_key_ok| | |intros v; vm_compute; reflexivity].
  - split; [|vm_compute; reflexivity]. apply (bool_decide_unpack _). vm_compute. exact I.
  - apply (bool_decide_unpack _). vm_compute. exact I.
Qed.

Lemma ks_empty_saveable : saveable ks_empty.
Proof.
  split_and!; [apply ks_empty_ok| | |intros v; vm_compute; reflexivity].
  - split; [|vm_compute; reflexivity]. apply (bool_decide_unpack _). vm_compute. exact I.
  - apply (bool_decide_unpack _). vm_compute. exact I.
Qed.

(** The same run goes on; nothing behind the first rename reached the disk. *)
Definition demo_lost : list SEvent := [EChange ks_one_key 2].

Lemma snapshot_crash_safe_witness :
  exists e1 e2 v s', demo_save_run ++ demo_save :: demo_lost = e1 ++ e2 /\
    changes e2 <= since_save (save_run toy_compress demo_dump demo_save_run saver0) + changes (demo_save :: demo_lost) /\
    rdb_load toy_uncompress (env_at 7 5100) (fdata <$> rotated !! demo_dump) (fdata <$> rotated !! (demo_dump ++ bs ".bak")) ks_empty = (ROk (), s') /\
    ks_ok s' /\ lview 7 s' = omap (survive v (env_at 7 5100)) (lview (now v) (ks_now (save_run toy_compress demo_dump e1 saver0))).
Proof.
  apply (snapshot_crash_safe toy_compress toy_uncompress) with (v0 := env_at 1 1) (e := demo_save) (d := rotated).
  - intros x z H. apply toy_zlib in H as ->. done.
  - intros x z H. apply toy_zlib in H as ->. rewrite length_app. cbn. lia.
  - vm_compute. lia.
  - apply lookup_singleton_eq.
  - done.
  - done.
  - split; [split; cbn; lia|cbn; lia].
  - split; cbn; lia.
  - apply ks_empty_saveable.
  - constructor; [split; [cbn; lia|apply ks_one_key_saveable]|]. constructor; [split; [|done]; split; [split; cbn; lia|cbn; lia]|].
    constructor; [split; [cbn; lia|apply ks_one_key_saveable]|done].
  - vm_compute. reflexivity.
  - apply (list_elem_of_lookup_2 _ 3%nat). vm_compute. reflexivity.
  - apply crash_refl.
Defined.

(** C38: The rotation of SAVE and of the shutdown opens a window in which a
    restart forgets everything.  Whenever the image is written and the old dump
    has been renamed to .bak, there is a moment without a dump at which the
    whole old image is in the backup, yet main, which looks only for the dump
    before it calls rdb_load, starts as it is, with nothing loaded; and when
    the second rename fails that is how the files stay. *)
Theorem rotation_starts_empty (compress2 : bytes -> option bytes) (uncompress : bytes -> nat -> option bytes) (other : bytes -> Handler)
    (dump aof_path : bytes) (Hpath : (length dump + 5 <= 255)%nat) (v : Env) (c : Calls) (s : Saver) (old : File)
    (Hold : disk s !! dump = Some old) (Hopen : fopen_ok c = true) (Hwrite : (length (image compress2 v (ks_now s)) <= fwrite_n c)%nat)
    (Hflush : fflush_ok c = true) (Hsync : fsync_ok c = true) (Hrotate : rotate_ok c = true) :
  let '(ok, s', tr) := rdb_save compress2 v c dump s in
  let forgotten d := d !! dump = None /\ d !! (dump ++ bs ".bak") = Some old /\
    forall w, startup other uncompress false aof_path dump d w = Some w in
  (exists d, d ∈ tr /\ forgotten d) /\ ok = rename_ok c /\ (rename_ok c = false -> forgotten (disk s')).
Proof.
  unfold rdb_save. cbn [with_dirty ks_now disk since_save]. revert Hwrite.
  generalize (image compress2 v (ks_now s)) as data. intros data Hwrite. set (tmp := tmp_path dump (getpid c)).
  rewrite Hopen, Hflush, Hsync, Hrotate, Nat.min_r, Nat.eqb_refl by done. cbn [negb].
  set (d3 := fsync tmp _). set (d4 := rename dump (bak_path dump) d3).
  assert (Ed : d3 !! dump = Some old).
  { unfold d3, fsync. rewrite lookup_alter_ne, !lookup_insert_ne by apply (tmp_not_dump dump Hpath). done. }
  assert (H1 : d4 !! dump = None).
  { unfold d4, rename. rewrite Ed, (bak_path_eq dump Hpath), lookup_insert_ne by (by apply bak_not_dump). apply lookup_delete_eq. }
  assert (H2 : d4 !! bak dump = Some old).
  { unfold d4, rename. rewrite Ed, (bak_path_eq dump Hpath). apply lookup_insert_eq. }
  assert (Hf : forall d, d !! dump = None -> d !! bak dump = Some old -> d !! dump = None /\ d !! (dump ++ bs ".bak") = Some old /\
    forall w, startup other uncompress false aof_path dump d w = Some w).
  { intros d E1 E2. split_and!; [done|done|]. intros w. unfold startup. cbn. by rewrite E1. }
  destruct (rename_ok c); cbn [negb]; (split_and!; [|done|]).
  - exists d4. split; [set_solver|by apply Hf].
  - done.
  - exists d4. split; [cbn; set_solver|by apply Hf].
  - intros _. cbn. apply Hf; (rewrite lookup_delete_ne; [done|]);
      [apply (tmp_not_dump dump Hpath)|apply (tmp_not_bak dump Hpath)].
Qed.

Definition rename_fails : Calls := mkCalls 41 true (Z.to_nat 65536) true true true false.
Arguments rename_fails : simpl never.

Lemma rotation_starts_empty_witness :
  let s := save_run toy_compress demo_dump demo_save_run saver0 in
  let '(ok, s', tr) := rdb_save toy_compress (env_at 20 30) rename_fails demo_dump s in
  let forgotten d := d !! demo_dump = None /\ d !! (demo_dump ++ bs ".bak") = Some (mkFile (image toy_compress (env_at 1 1) ks_empty) true) /\
    forall w, startup no_other toy_uncompress false (bs "appendonly.aof") demo_dump d w = Some w in
  (exists d, d ∈ tr /\ forgotten d) /\ ok = rename_ok rename_fails /\ (rename_ok rename_fails = false -> forgotten (disk s')).
Proof.
  cbv zeta. apply (rotation_starts_empty toy_compress toy_uncompress no_other).
  - vm_compute. lia.
  - apply lookup_singleton_eq.
  - done.
  - apply Nat.leb_le. vm_compute. reflexivity.
  - done.
  - done.
  - done.
Defined.
