(* ===== verification/Client.v ===== *)
(** * The console client (src/src/client/client.cpp)

    The client sends a command as an array of bulk strings and prints the reply
    it reads.  The socket is the bytes sent and the bytes still to come, after
    which reads answer end of file; [write]'s outcomes are an argument. *)
From S2P Require Import Prelude Buffer Resp Args CText.

(** ** Sending *)

(** What one [write] returns: a number of bytes taken, at most what was asked,
    or nothing. *)
Inductive CWrite := CTook (n : nat) | CFail.

(** [write_all]: the bytes that went out and the result.  A call beyond the
    list takes everything. *)
Fixpoint write_all (ws : list CWrite) (buf : bytes) : bytes * Z :=
  match buf with
  | [] => ([], 0)
  | _ =>
      match ws with
      | [] => (buf, 0)
      | CFail :: _ => ([], -1)
      | CTook n :: ws' =>
          let n := min n (length buf) in
          if (n =? 0)%nat then ([], -1)
          else let '(sent, r) := write_all ws' (drop n buf) in (take n buf ++ sent, r)
      end
  end.

Definition to_string (n : nat) : bytes := print_u64 (Z.of_nat n).

(** The request [send_cmd] builds, piece by piece. *)
Definition build_req (cmd : list bytes) : bytes :=
  foldl (fun req s => req ++ bs "$" ++ to_string (length s) ++ crlf ++ s ++ crlf)
        (bs "*" ++ to_string (length cmd) ++ crlf) cmd.

Definition send_cmd (ws : list CWrite) (cmd : list bytes) : bytes := (write_all ws (build_req cmd)).1.

(** ** Reading *)

(** [read_line]: up to a carriage return, and the byte after it, whatever it is. *)
Fixpoint read_line (inp : bytes) : bytes * bytes :=
  match inp with
  | [] => ([], [])
  | c :: r =>
      if bool_decide (c = c_cr) then ([], drop 1 r)
      else let '(line, r') := read_line r in (c :: line, r')
  end.

Definition INT_MAX : Z := 2147483647.
Definition INT_MIN : Z := -2147483648.

Definition parse_reply_int (s : bytes) : option Z :=
  v ← parse_int_strict s;
  if (INT_MAX <? v) || (v <? INT_MIN) then None else Some v.

(** The loop that fills [val]: at end of file the rest stays zero. *)
Definition read_bulk (len : nat) (inp : bytes) : bytes * bytes :=
  let got := take len inp in
  (got ++ replicate (len - length got) c_zero, drop len inp).

(** The loop over the elements of an array, given how one is read. *)
Fixpoint read_items (rd : bytes -> option (bytes * bytes)) (count i todo : nat) (inp : bytes) : option (bytes * bytes) :=
  match todo with
  | O => Some ([], inp)
  | S todo' =>
      '(x, inp) ← rd inp;
      '(xs, inp) ← read_items rd count (S i) todo' inp;
      Some (to_string (S i) ++ bs ") " ++ x ++ (if (S i <? count)%nat then [c_lf] else []) ++ xs, inp)
  end.

(** [read_response]: the text, and what is left to read.  The fuel bounds the
    nesting of arrays; [None] is not enough of it. *)
Fixpoint read_response (fuel : nat) (inp : bytes) : option (bytes * bytes) :=
  match fuel with
  | O => None
  | S fuel =>
      let '(line, inp) := read_line inp in
      match line with
      | [] => Some (bs "(error) empty response", inp)
      | type :: data =>
          if bool_decide (type = chr 43) then Some (data, inp)
          else if bool_decide (type = chr 45) then Some (bs "(error) " ++ data, inp)
          else if bool_decide (type = chr 58) then Some (bs "(integer) " ++ data, inp)
          else if bool_decide (type = c_dollar) then
            match parse_reply_int data with
            | None => Some (bs "(error) malformed bulk length", inp)
            | Some len =>
                if len <? 0 then Some (bs "(nil)", inp)
                else let '(val, inp) := read_bulk (Z.to_nat len) inp in Some (val, (read_line inp).2)
            end
          else if bool_decide (type = c_star) then
            match parse_reply_int data with
            | None => Some (bs "(error) malformed array length", inp)
            | Some count =>
                if count <? 0 then Some (bs "(nil)", inp)
                else read_items (read_response fuel) (Z.to_nat count) 0 (Z.to_nat count) inp
            end
          else Some (bs "(error) unknown type " ++ line, inp)
      end
  end.

Definition reply_fuel (inp : bytes) : nat := S (length inp).

(** ** The program *)

(** [iss >> token]: words between white space. *)
Fixpoint words (fuel : nat) (s : bytes) : list bytes :=
  match fuel with
  | O => []
  | S fuel =>
      match skip_space s with
      | [] => []
      | t => let n := scan isspace t in take n t :: words fuel (drop n t)
      end
  end.

Definition parse_line (line : bytes) : list bytes := words (length line) line.

(** The socket and the terminal; [wouts] holds the outcomes of [write], a list
    for each request. *)
Record Term := mkTerm { sent : bytes; coming : bytes; printed : list bytes; wouts : list (list CWrite) }.

(** A request and its reply. *)
Definition exchange (cmd : list bytes) (t : Term) : bytes * Term :=
  match read_response (reply_fuel (coming t)) (coming t) with
  | Some (resp, rest) => (resp, mkTerm (sent t ++ send_cmd (hd [] (wouts t)) cmd) rest (printed t) (tl (wouts t)))
  | None => ([], t)
  end.

(** [printf("%s\n", x.c_str())]: the text up to its first NUL. *)
Definition print_line (x : bytes) (t : Term) : Term := mkTerm (sent t) (coming t) (printed t ++ [c_str x]) (wouts t).

Definition starts_with (p s : bytes) : bool := bool_decide (take (length p) s = p).

(** [do_auth]: [None] is an unset REDIS_PASSWORD. *)
Definition do_auth (password : option bytes) (t : Term) : bool * Term :=
  match password with
  | None | Some [] => (true, t)
  | Some p => let '(resp, t) := exchange [bs "auth"; p] t in (negb (starts_with (bs "(error)") resp), t)
  end.

(** The interactive loop over the lines typed. *)
Fixpoint repl (lines : list bytes) (t : Term) : Term :=
  match lines with
  | [] => t
  | line :: lines =>
      if bool_decide (line = bs "quit") || bool_decide (line = bs "exit") then t
      else
        match parse_line line with
        | [] => repl lines t
        | cmd => let '(resp, t) := exchange cmd t in repl lines (print_line resp t)
        end
  end.

(** [main] once connected: the exit status and the terminal. *)
Definition client_main (password : option bytes) (args lines : list bytes) (t : Term) : Z * Term :=
  let '(ok, t) := do_auth password t in
  if negb ok then (1, t)
  else
    match args with
    | [] => (0, repl lines t)
    | _ => let '(resp, t) := exchange args t in (0, print_line resp t)
    end.

(** ** Replies of the server *)

(** What a handler may answer a client that has not asked for the third version
    of the protocol. *)
Inductive Reply :=
| RSimple (s : bytes) | RErr (s : bytes) | RInt (z : Z) | RBulk (s : bytes) | RNil | RNilArr | RArr (l : list Reply).

(** The server's calls for it. *)
Fixpoint emit (r : Reply) (b : Buffer) : Buffer :=
  match r with
  | RSimple s => resp_simple b s
  | RErr s => resp_err b s
  | RInt z => resp_int b z
  | RBulk s => resp_str b s
  | RNil => resp_nil 2 b
  | RNilArr => resp_nil_arr 2 b
  | RArr l => foldl (fun b r => emit r b) (resp_arr b (Z.of_nat (length l))) l
  end.

(** How the client shows it. *)
Fixpoint shown (r : Reply) : bytes :=
  let items := fix items count i (l : list Reply) :=
    match l with
    | [] => []
    | x :: l => to_string (S i) ++ bs ") " ++ shown x ++ (if (S i <? count)%nat then [c_lf] else []) ++ items count (S i) l
    end in
  match r with
  | RSimple s => s
  | RErr s => bs "(error) " ++ s
  | RInt z => bs "(integer) " ++ print_i64 z
  | RBulk s => s
  | RNil | RNilArr => bs "(nil)"
  | RArr l => items (length l) 0%nat l
  end.

(** One line holds no carriage return and no zero byte; lengths fit an [int]. *)
Fixpoint reply_ok (r : Reply) : Prop :=
  match r with
  | RSimple s | RErr s => Forall (fun c => c <> c_cr /\ c <> c_zero) s
  | RInt z => INT64_MIN <= z <= INT64_MAX
  | RBulk s => Z.of_nat (length s) <= INT_MAX
  | RNil | RNilArr => True
  | RArr l => Z.of_nat (length l) <= INT_MAX /\ foldr (fun x P => reply_ok x /\ P) True l
  end.

Example nested_shown :
  shown (RArr [RInt 7; RArr [RBulk (bs "a"); RNil]; RErr (bs "ERR x")]) =
  bs "1) (integer) 7" ++ [c_lf] ++ bs "2) 1) a" ++ [c_lf] ++ bs "2) (nil)" ++ [c_lf] ++ bs "3) (error) ERR x".
Proof. vm_compute. reflexivity. Qed.

Example nested_read :
  let r := RArr [RInt 7; RArr [RBulk (bs "a"); RNil]; RErr (bs "ERR x")] in
  let inp := Buffer.content (emit r (buf_create 4)) in
  read_response (reply_fuel inp) (inp ++ bs "+OK") = Some (shown r, bs "+OK").
Proof. vm_compute. reflexivity. Qed.

(** ** Requests *)

Lemma write_all_sent ws buf : (write_all ws buf).2 = 0 -> (write_all ws buf).1 = buf.
Proof.
  revert buf. induction ws as [|[n|] ws IH]; intros [|c buf]; try done. cbn [write_all].
  destruct (min n (length (c :: buf)) =? 0)%nat eqn:E; [done|]. specialize (IH (drop (min n (length (c :: buf))) (c :: buf))).
  destruct (write_all ws _) as [out r]. cbn in IH |- *. intros H. rewrite IH by done. apply take_drop.
Qed.

Lemma build_req_frame cmd : build_req cmd = frame cmd.
Proof.
  unfold build_req, frame. assert (Hgen : forall l d,
    foldl (fun req s => req ++ bs "$" ++ to_string (length s) ++ crlf ++ s ++ crlf) d l = d ++ concat (bulk <$> l)).
  { induction l as [|a l IH]; intros d; cbn [foldl fmap list_fmap concat]; [by rewrite app_nil_r|].
    rewrite IH, <- app_assoc. done. }
  rewrite Hgen. unfold to_string. change (bs "*") with [c_star]. cbn [app]. by rewrite <- !app_assoc.
Qed.

(** ** Replies *)

(** Induction over nested arrays. *)
Lemma Reply_nested (P : Reply -> Prop) :
  (forall s, P (RSimple s)) -> (forall s, P (RErr s)) -> (forall z, P (RInt z)) -> (forall s, P (RBulk s)) ->
  P RNil -> P RNilArr -> (forall l, Forall P l -> P (RArr l)) -> forall r, P r.
Proof.
  intros H1 H2 H3 H4 H5 H6 H7. fix IH 1. intros [s|s|z|s| | |l]; [done..|]. apply H7.
  induction l as [|x l IHl]; constructor; [apply IH|exact IHl].
Qed.

(** The bytes of a reply. *)
Fixpoint enc (r : Reply) : bytes :=
  match r with
  | RSimple s => (bs "+" ++ c_str s) ++ crlf
  | RErr s => (bs "-" ++ c_str s) ++ crlf
  | RInt z => bs ":" ++ print_i64 z ++ crlf
  | RBulk s => bulk s
  | RNil => bs "$-1" ++ crlf
  | RNilArr => bs "*-1" ++ crlf
  | RArr l => (bs "*" ++ print_u64 (Z.of_nat (length l)) ++ crlf) ++ concat (map enc l)
  end.

Lemma appends_emit r : appends (emit r) (enc r).
Proof.
  induction r as [s|s|z|s| | |l IH] using Reply_nested; cbn [emit enc].
  - apply appends_resp_simple.
  - apply appends_resp_err.
  - apply appends_resp_int.
  - apply appends_resp_str.
  - apply (appends_resp_nil 2).
  - apply appends_buf.
  - apply (appends_comp (fun b => resp_arr b _) (fun b => foldl (fun b r => emit r b) b l)); [apply appends_resp_arr|].
    induction IH as [|x l Hx _ IHl]; cbn [foldl map concat].
    + intros b Hb. cbn. by rewrite app_nil_r.
    + by apply (appends_comp (emit x) (fun b => foldl (fun b r => emit r b) b l)).
Qed.

Lemma read_line_spec line rest : Forall (fun c => c <> c_cr) line -> read_line (line ++ crlf ++ rest) = (line, rest).
Proof.
  induction 1 as [|c line Hc _ IH]; [done|]. cbn [read_line app]. rewrite bool_decide_eq_false_2 by done.
  change ([c_cr; c_lf] ++ rest) with (crlf ++ rest) in *. by rewrite IH.
Qed.

Lemma read_line_length inp : (length (read_line inp).2 <= length inp)%nat /\ ((read_line inp).1 <> [] -> length (read_line inp).2 < length inp)%nat.
Proof.
  induction inp as [|c r IH]; [done|]. cbn [read_line]. case_bool_decide; cbn; [rewrite length_drop; split; [lia|done]|].
  destruct (read_line r) as [line r']. cbn in *. lia.
Qed.

(** ** The fuel is enough *)

Lemma read_items_total rd count n :
  (forall inp, (length inp <= n)%nat -> exists x rest, rd inp = Some (x, rest) /\ (length rest <= length inp)%nat) ->
  forall todo i inp, (length inp <= n)%nat ->
  exists x rest, read_items rd count i todo inp = Some (x, rest) /\ (length rest <= length inp)%nat.
Proof.
  intros Hrd. induction todo as [|todo IH]; intros i inp Hn; cbn [read_items]; [by exists [], inp|].
  destruct (Hrd inp Hn) as (x & r1 & -> & L1). cbn. destruct (IH (S i) r1 ltac:(lia)) as (y & r2 & -> & L2). cbn.
  eexists _, r2. split; [done|lia].
Qed.

(** However the bytes lie, a response is read to its end. *)
Lemma read_response_total fuel inp : (length inp < fuel)%nat ->
  exists x rest, read_response fuel inp = Some (x, rest) /\ (length rest <= length inp)%nat.
Proof.
  revert inp. induction fuel as [|fuel IH]; intros inp Hf; [lia|]. cbn [read_response].
  destruct (read_line_length inp) as [L1 L2]. destruct (read_line inp) as [line r]. cbn in L1, L2.
  destruct line as [|t data]; [by eexists _, r|]. specialize (L2 ltac:(done)).
  do 3 (case_bool_decide; [by eexists _, r|]). case_bool_decide.
  { destruct (parse_reply_int data) as [len|]; [|by eexists _, r]. destruct (len <? 0); [by eexists _, r|].
    eexists _, _. split; [reflexivity|]. destruct (read_line_length (drop (Z.to_nat len) r)) as [L3 _].
    rewrite length_drop in L3. lia. }
  case_bool_decide; [|by eexists _, r]. destruct (parse_reply_int data) as [len|]; [|by eexists _, r].
  destruct (len <? 0); [by eexists _, r|].
  destruct (read_items_total (read_response fuel) (Z.to_nat len) (length r)) with (todo := Z.to_nat len) (i := 0%nat) (inp := r)
    as (x & r2 & -> & L3); [|done|].
  - intros inp' H'. apply IH. lia.
  - exists x, r2. split; [done|lia].
Qed.

(** ** Reading what the server wrote *)

Lemma parse_reply_len n : 0 <= n <= INT_MAX -> parse_reply_int (print_u64 n) = Some n.
Proof.
  unfold INT_MAX. intros Hn. unfold parse_reply_int.
  pose proof (parse_print n ltac:(unfold INT64_MIN, INT64_MAX; lia)) as E. unfold print_i64 in E.
  rewrite (proj2 (Z.ltb_ge _ _)) in E by lia. rewrite E. cbn. unfold INT_MIN, INT_MAX.
  rewrite (proj2 (Z.ltb_ge 2147483647 n)), (proj2 (Z.ltb_ge n _)) by lia. done.
Qed.

Lemma digits_no_cr n : 0 <= n < 2 ^ 64 -> Forall (fun c => c <> c_cr) (print_u64 n).
Proof.
  intros Hn. eapply Forall_impl; [apply digits_not_cr, print_u64_digits, Hn|]. cbn. intros c H ->. discriminate H.
Qed.

Lemma print_i64_no_cr z : INT64_MIN <= z <= INT64_MAX -> Forall (fun c => c <> c_cr) (print_i64 z).
Proof.
  unfold INT64_MIN, INT64_MAX, print_i64. intros Hz. destruct (Z.ltb_spec z 0); [|apply digits_no_cr; lia].
  constructor; [done|]. apply digits_no_cr. lia.
Qed.

Lemma line_text s : Forall (fun c => c <> c_cr /\ c <> c_zero) s -> c_str s = s /\ Forall (fun c => c <> c_cr) s.
Proof. intros H. split; [apply c_str_id|]; (eapply Forall_impl; [exact H|]); cbn; tauto. Qed.

(** Reading a line that [t] begins. *)
Lemma read_head t line rest : t <> c_cr -> Forall (fun c => c <> c_cr) line ->
  read_line (t :: line ++ crlf ++ rest) = (t :: line, rest).
Proof. intros Ht Hl. apply (read_line_spec (t :: line)). by constructor. Qed.

Fixpoint shown_items (count i : nat) (l : list Reply) : bytes :=
  match l with
  | [] => []
  | x :: l => to_string (S i) ++ bs ") " ++ shown x ++ (if (S i <? count)%nat then [c_lf] else []) ++ shown_items count (S i) l
  end.

Lemma shown_arr l : shown (RArr l) = shown_items (length l) 0 l.
Proof. cbn [shown]. generalize (length l) at 1 2 as n. generalize 0%nat as i. induction l as [|x l IH]; intros i n; [done|]. cbn. by rewrite IH. Qed.

Definition readable (r : Reply) : Prop :=
  forall fuel rest, (length (enc r) <= fuel)%nat -> read_response fuel (enc r ++ rest) = Some (shown r, rest).

Lemma read_items_spec fuel count rest : forall l i,
  Forall readable l -> (length (concat (map enc l)) <= fuel)%nat ->
  read_items (read_response fuel) count i (length l) (concat (map enc l) ++ rest) = Some (shown_items count i l, rest).
Proof.
  induction l as [|x l IH]; intros i Hl Hf; [done|]. apply Forall_cons in Hl as [Hx Hl].
  cbn [map concat length read_items shown_items] in *. rewrite length_app in Hf. rewrite <- app_assoc, Hx by lia. cbn [mbind option_bind].
  rewrite IH by (done || lia). done.
Qed.

Lemma reads_reply r : reply_ok r -> readable r.
Proof.
  induction r as [s|s|z|s| | |l IH] using Reply_nested; intros Hok fuel rest Hf; cbn [enc] in *.
  all: (destruct fuel as [|fuel]; [rewrite ?length_app in Hf; cbn in Hf; lia|]).
  - destruct (line_text s Hok) as [E Hs]. rewrite E, <- app_assoc. change (bs "+") with [chr 43]. cbn [read_response app].
    rewrite read_head by done. done.
  - destruct (line_text s Hok) as [E Hs]. rewrite E, <- app_assoc. change (bs "-") with [chr 45]. cbn [read_response app].
    rewrite read_head by done. done.
  - rewrite <- app_assoc. change (bs ":") with [chr 58]. cbn [read_response app]. rewrite <- app_assoc.
    rewrite read_head by (done || by apply print_i64_no_cr). done.
  - cbn in Hok. assert (Hn : 0 <= Z.of_nat (length s) <= INT_MAX) by lia. unfold INT_MAX in Hok.
    unfold bulk. cbn [read_response app]. rewrite <- !app_assoc. rewrite read_head by (done || (apply digits_no_cr; lia)).
    rewrite !(bool_decide_eq_false_2 (c_dollar = _)) by done. rewrite bool_decide_eq_true_2 by done.
    rewrite parse_reply_len by done. rewrite (proj2 (Z.ltb_ge _ _)) by lia. rewrite Nat2Z.id. unfold read_bulk.
    rewrite take_app_length, drop_app_length, Nat.sub_diag. cbn [replicate]. rewrite app_nil_r.
    done.
  - done.
  - done.
  - destruct Hok as [Hlen Hok]. assert (Hn : 0 <= Z.of_nat (length l) <= INT_MAX) by lia. unfold INT_MAX in Hlen.
    change (bs "*") with [c_star] in *. rewrite !length_app in Hf. cbn in Hf.
    rewrite <- !app_assoc. cbn [read_response app]. rewrite read_head by (done || (apply digits_no_cr; lia)).
    rewrite !(bool_decide_eq_false_2 (c_star = _)) by done. rewrite bool_decide_eq_true_2 by done.
    rewrite parse_reply_len by done. rewrite (proj2 (Z.ltb_ge _ _)) by lia. rewrite Nat2Z.id, shown_arr.
    apply read_items_spec; [|lia]. clear Hn Hlen Hf. induction IH as [|x l Hx _ IHl]; [done|]. destruct Hok. constructor; auto.
Qed.

(** ** A session *)

(** The first [n] requests the server's parser takes from the bytes sent. *)
Fixpoint received (n : nat) (data : bytes) : list (list bytes) :=
  match n with
  | O => []
  | S n => let '(used, cmd) := parse_resp_request data in cmd :: received n (drop (Z.to_nat used) data)
  end.

Lemma received_frames cmds rest : Forall args_ok cmds -> received (length cmds) (concat (map frame cmds) ++ rest) = cmds.
Proof.
  induction 1 as [|cmd cmds Hc _ IH]; [done|]. cbn [length received map concat]. rewrite <- app_assoc, parse_frame by done.
  by rewrite Nat2Z.id, drop_app_length, IH.
Qed.

Lemma exchange_reads cmd r rest t ws wss :
  reply_ok r -> coming t = enc r ++ rest -> wouts t = ws :: wss -> (write_all ws (build_req cmd)).2 = 0 ->
  exchange cmd t = (shown r, mkTerm (sent t ++ frame cmd) rest (printed t) wss).
Proof.
  intros Hr Hc Hw Hs. unfold exchange, reply_fuel. rewrite Hc, (reads_reply r Hr) by (rewrite length_app; lia).
  rewrite Hw. cbn [hd tl]. unfold send_cmd. by rewrite (write_all_sent ws _ Hs), build_req_frame.
Qed.

(** The commands of the lines typed: blank lines send nothing, and nothing is
    read after quit or exit. *)
Fixpoint typed (lines : list bytes) : list (list bytes) :=
  match lines with
  | [] => []
  | line :: lines =>
      if bool_decide (line = bs "quit") || bool_decide (line = bs "exit") then []
      else match parse_line line with [] => typed lines | cmd => cmd :: typed lines end
  end.

Lemma repl_spec lines : forall rs wss t rest,
  Forall reply_ok rs -> length rs = length (typed lines) -> Forall2 (fun ws cmd => (write_all ws (build_req cmd)).2 = 0) wss (typed lines) ->
  coming t = concat (map enc rs) ++ rest -> wouts t = wss ->
  repl lines t = mkTerm (sent t ++ concat (map frame (typed lines))) rest (printed t ++ map (fun r => c_str (shown r)) rs) [].
Proof.
  assert (Hend : forall rs wss t rest, length rs = 0%nat -> Forall2 (fun ws cmd => (write_all ws (build_req cmd)).2 = 0) wss [] ->
    coming t = concat (map enc rs) ++ rest -> wouts t = wss -> t = mkTerm (sent t ++ []) rest (printed t ++ map (fun r => c_str (shown r)) rs) []).
  { intros rs wss t rest Hl Hw Hc Ht. destruct rs; [|done]. inversion Hw; subst. destruct t. cbn in *. subst. by rewrite !app_nil_r. }
  induction lines as [|line lines IH]; intros rs wss t rest Hrs Hl Hw Hc Ht; cbn [repl typed] in *; [by eapply Hend|].
  destruct (_ || _); [by eapply Hend|]. destruct (parse_line line) as [|a cmd]; [by apply (IH rs wss)|].
  destruct rs as [|r rs]; [done|]. apply Forall_cons in Hrs as [Hr Hrs].
  destruct wss as [|ws wss]; [inversion Hw|]. apply Forall2_cons in Hw as [Hws Hw].
  cbn [map concat] in *. rewrite <- app_assoc in Hc. rewrite (exchange_reads _ r _ t ws wss Hr Hc Ht Hws).
  cbn in Hl. rewrite (IH rs wss _ rest) by (done || lia). cbn [print_line sent printed]. by rewrite <- !app_assoc.
Qed.

(** C31: Client and server stay in step.  Whatever lines are typed (blank lines
    among them, and quit or exit, after which nothing is read), as long as
    each command is within the protocol's limits; however the socket splits
    the writes, as long as none fails; and whatever the server answers in
    protocol version 2, nested arrays and arbitrary bulk strings included: the
    server's parser receives exactly the typed commands in order, and the
    client prints exactly one text for each, in order, reading not one byte
    more than the server wrote.  The text is the reply's, up to its first NUL
    byte, where [printf] stops. *)
Theorem client_session (lines : list bytes) (rs : list Reply) (wss : list (list CWrite)) (b : Buffer) (rest : bytes)
    (Hlimits : Forall args_ok (typed lines)) (Hwrites : Forall2 (fun ws cmd => (write_all ws (build_req cmd)).2 = 0) wss (typed lines))
    (Hreplies : Forall reply_ok rs) (Hlen : length rs = length (typed lines)) (Hb : wf b) (Hempty : Buffer.content b = []) :
  let t := repl lines (mkTerm [] (Buffer.content (foldl (fun b r => emit r b) b rs) ++ rest) [] wss) in
  received (length (typed lines)) (sent t) = typed lines /\ printed t = map (fun r => c_str (shown r)) rs /\ coming t = rest.
Proof.
  assert (Happ : appends (fun b => foldl (fun b r => emit r b) b rs) (concat (map enc rs))).
  { clear. induction rs as [|r rs IH]; [intros b Hb; cbn; by rewrite app_nil_r|].
    apply (appends_comp (emit r) (fun b => foldl (fun b r => emit r b) b rs)); [apply appends_emit|done]. }
  destruct (Happ b Hb) as [_ E]. cbn zeta. rewrite E, Hempty.
  rewrite (repl_spec lines rs wss _ rest) by done.
  cbn [sent printed coming app]. split_and!; [|done..]. rewrite <- (app_nil_r (concat _)). by apply received_frames.
Qed.

Lemma client_session_witness :
  let lines := [bs " get  k"; bs "  "; bs "lrange l 0 -1"; bs "quit"; bs "get k"] in
  let rs := [RBulk [chr 97; chr 0; chr 98]; RArr [RBulk (bs "a"); RInt 2]] in
  let t := repl lines (mkTerm [] (Buffer.content (foldl (fun b r => emit r b) (buf_create 8) rs) ++ bs "+X") [] [[CTook 3; CTook 9]; []]) in
  received 2 (sent t) = [[bs "get"; bs "k"]; [bs "lrange"; bs "l"; bs "0"; bs "-1"]] /\
  printed t = [bs "a"; bs "1) a" ++ [c_lf] ++ bs "2) (integer) 2"] /\ coming t = bs "+X".
Proof.
  cbv zeta. destruct (client_session [bs " get  k"; bs "  "; bs "lrange l 0 -1"; bs "quit"; bs "get k"]
    [RBulk [chr 97; chr 0; chr 98]; RArr [RBulk (bs "a"); RInt 2]] [[CTook 3; CTook 9]; []] (buf_create 8) (bs "+X")) as (H1 & H2 & H3).
  - repeat constructor; vm_compute; congruence.
  - repeat constructor.
  - repeat constructor; vm_compute; congruence.
  - vm_compute. reflexivity.
  - apply buf_create_wf.
  - apply buf_create_wf.
  - split; [exact H1|]. split; [etransitivity; [exact H2|vm_compute; reflexivity]|exact H3].
Defined.
