(* ===== verification/Admin.v ===== *)
(** * Introspection commands (src/src/commands/commands.cpp 1957-1976, 2135-2176, 4317-4561)

    UNLINK, PING, ECHO, CONFIG, MEMORY, OBJECT, and the choice of sections of
    INFO.  The section printers of INFO are an argument; Info gives them. *)
From S2P Require Import Prelude Buffer Resp StdString Deque Hashtable HashMap Heap Score ZSet HashSet State World Args Strings Lists Scan Glob Keys CText CmdTable Acl Config Client.

(** ** UNLINK, PING, ECHO *)

(** The deferred free of [entry_del] is immediate. *)
Definition do_asyncdel (cmd : list sstr) : M () :=
  hnode ← ks_get (fun _ => db_lookup (argd cmd 1));
  match hnode with
  | None => r_int 0
  | Some ent => remove ent ;; dirty 1 ;; r_int 1
  end.

Definition do_ping (cmd : list sstr) : M () :=
  if (2 <=? length cmd)%nat then r_str (argd cmd 1) else r_simple (bs "PONG").

Definition do_echo (cmd : list sstr) : M () := r_str (argd cmd 1).

(** ** OBJECT *)

(** [lookup_any] is the probe [find_live]. *)
Definition lookup_any (key : bytes) : M (option bytes) := find_live key.

Definition object_encoding (e : Entry) : bytes :=
  match eval e with
  | VStr s => match str2int (s_data s) with Some _ => bs "int" | None => bs "raw" end
  | VList _ => bs "deque"
  | VHash _ | VSet _ => bs "hashtable"
  | VZSet _ => bs "skiplist"
  end.

Definition msg_no_idle : bytes := bs "ERR an LFU maxmemory policy is selected, idle time not tracked".
Definition msg_no_freq : bytes := bs "ERR An LFU maxmemory policy is not selected, access frequency not tracked.".

(** The reply for an entry that was found. *)
Definition object_answer (sub : bytes) (v : Env) (e : Entry) : Buffer -> Buffer :=
  if bool_decide (sub = bs "encoding") then fun b => resp_str b (object_encoding e)
  else if bool_decide (sub = bs "idletime") then
    if policy_is_lfu v then fun b => resp_err b msg_no_idle
    else fun b => resp_int b (Z.land (u32 (g_lru_clock v - lru e)) LRU_CLOCK_MAX)
  else if bool_decide (sub = bs "freq") then
    if negb (policy_is_lfu v) then fun b => resp_err b msg_no_freq
    else fun b => resp_int b (Z.land (lru e) 255)
  else if bool_decide (sub = bs "refcount") then fun b => resp_int b 1
  else fun b => resp_err b (bs "ERR unknown object subcommand").

Definition do_object (cmd : list sstr) : M () :=
  if (length cmd <? 3)%nat then r_err (bs "ERR wrong nubmer of arguments")
  else
    let sub := map tolower (argd cmd 1) in
    ent ← lookup_any (argd cmd 2);
    match ent with
    | None => r_err (bs "ERR no such key")
    | Some k =>
        e ← entry_at k;
        v ← gets env;
        match e with
        | Some e => reply (object_answer sub v e)
        | None => r_err (bs "ERR no such key")
        end
    end.

(** ** MEMORY *)

Definition cb_mem_sweep (s : Keyspace) (sweep : Z) (k : bytes) : Z :=
  match ents s !! k with Some e => u64 (sweep + entry_mem_usage e) | None => sweep end.

Definition mem_sweep (s : Keyspace) : Z := foldl (cb_mem_sweep s) 0 (hm_foreach (db s)).

(** Both texts are shorter than the 192 bytes of the array. *)
Definition doctor_text (counter sweep : Z) : bytes :=
  if sweep =? counter then
    bs "Can't find any memory problem. used_memory=" ++ print_u64 counter ++ bs " matches a full sweep."
  else
    bs "Accounting drift detected: counter=" ++ print_u64 counter ++ bs " sweep=" ++ print_u64 sweep ++
    bs " (delta=" ++ print_i64 (i64 (i64 sweep - i64 counter)) ++ bs ") - a write handler is likely a missing a mem_reaccount.".

Section Memory.
Context (maxmemory : Z) (evicted_keys : Z).

(** The result is [None] when the handler reads past the end of the command. *)
Definition memory_usage (cmd : list sstr) : M (option ()) :=
  let bad_option :=
    (4 <=? length cmd)%nat &&
    (negb (bool_decide (map tolower (argd cmd 3) = bs "samples")) || (length cmd <? 5)%nat ||
     match str2int (argd cmd 4) with Some n => n <? 0 | None => true end) in
  if bad_option then r_err MSG_SYNTAX ;; mret (Some ())
  else if (length cmd <? 3)%nat then mret None
  else
    ent ← lookup_any (argd cmd 2);
    match ent with
    | None => r_nil ;; mret (Some ())
    | Some k =>
        e ← entry_at k;
        (match e with Some e => r_int (i64 (entry_mem_usage e)) | None => r_nil end) ;; mret (Some ())
    end.

Definition memory_doctor : M () :=
  s ← gets ks;
  r_str (doctor_text (used_memory s) (mem_sweep s)).

Definition memory_stats : M () :=
  s ← gets ks;
  v ← gets env;
  r_arr 10 ;;
  r_str (bs "used_memory") ;; r_int (i64 (used_memory s)) ;;
  r_str (bs "keys.count") ;; r_int (Z.of_nat (hm_size (db s))) ;;
  r_str (bs "maxmemory") ;; r_int (i64 maxmemory) ;;
  r_str (bs "maxmemory.policy") ;; r_str (maxmemory_policy_name (maxmemory_policy v)) ;;
  r_str (bs "evicted.keys") ;; r_int (i64 evicted_keys).

Definition do_memory (cmd : list sstr) : M (option ()) :=
  let sub := map tolower (argd cmd 1) in
  if bool_decide (sub = bs "usage") then memory_usage cmd
  else if bool_decide (sub = bs "doctor") then memory_doctor ;; mret (Some ())
  else if bool_decide (sub = bs "stats") then memory_stats ;; mret (Some ())
  else r_err (bs "ERR unknown MEMORY subcommand") ;; mret (Some ()).
End Memory.

(** ** CONFIG *)

Section ConfigCommand.
(** The arguments of the directive table, and of the file: its path, and
    whether it can be written. *)
Context (cred_hash_new : bytes -> bytes) (cred_verify : bytes -> bytes -> bool).
Context (tr_tls_reload : Config -> option bytes).
Context (order : gmap bytes bool -> list (bytes * bool)) (user_order : gmap bytes User -> list (bytes * User)).
Context (now : Z) (role : option (bytes * Z)).
Context (config_path : bytes) (can_write : bool) (proto : Z).

Local Abbreviation get_value := (config_get_value cred_hash_new cred_verify tr_tls_reload order user_order now role).
Local Abbreviation names := (config_all_names cred_hash_new cred_verify tr_tls_reload order user_order now role).
Local Abbreviation rewrite_text := (config_rewrite cred_hash_new cred_verify tr_tls_reload order user_order now role).
Local Abbreviation set_value := (config_set cred_hash_new cred_verify tr_tls_reload order user_order now role).

(** The pairs a pattern selects; [None] when a match leaves its subject. *)
Definition config_matches (pattern : bytes) (c : Config) : option (list (bytes * bytes)) :=
  match keys_collect pattern names with
  | None => None
  | Some hits => Some (omap (fun n : bytes => (fun v => (n, v)) <$> get_value n c) hits)
  end.

Definition emit_pairs (kv : list (bytes * bytes)) (b : Buffer) : Buffer :=
  foldl (fun b p => resp_str (resp_str b p.1) p.2) (resp_map proto b (u32 (Z.of_nat (length kv)))) kv.

(** The reply, the configuration, and the file when it was written; [None] when
    the glob matcher has no defined outcome. *)
Definition do_config (cmd : list sstr) (c : Config) : option ((Buffer -> Buffer) * Config * option bytes) :=
  let sub := map tolower (argd cmd 1) in
  let err m := Some ((fun b => resp_err b (bs m)), c, None) in
  if bool_decide (sub = bs "rewrite") then
    if bool_decide (config_path = []) then err "ERR the server is running without a config file"
    else
      match (if can_write then rewrite_text c else None) with
      | Some text => Some (resp_ok, c, Some text)
      | None => err "ERR rewriting config failed"
      end
  else if bool_decide (sub = bs "get") then
    if (length cmd <? 3)%nat then err "ERR wrong number of arguments for 'config|get'"
    else
      match config_matches (map tolower (argd cmd 2)) c with
      | None => None
      | Some kv => Some (emit_pairs kv, c, None)
      end
  else if bool_decide (sub = bs "set") then
    if (length cmd <? 4)%nat then err "ERR wrong number of arguments of 'config|set'"
    else let '(rep, c') := set_value (argd cmd 2) (argd cmd 3) c in Some (rep, c', None)
  else if bool_decide (sub = bs "resetstat") then Some (resp_ok, c, None)
  else err "ERR Unknown CONFIG subcommand".
End ConfigCommand.

(** ** INFO *)

Definition info_names : list bytes :=
  bs <$> ["server"; "clients"; "memory"; "stats"; "keyspace"; "persistence"; "replication"].

Definition info_all (a : bytes) : bool := arg_ieq a (bs "all") || arg_ieq a (bs "everything") || arg_ieq a (bs "default").

(** The loop over the arguments: [all] and the marks of the sections. *)
Fixpoint info_want (args : list bytes) (all : bool) (want : list bool) : bool * list bool :=
  match args with
  | [] => (all, want)
  | a :: args =>
      if info_all a then info_want args true want
      else
        match list_find (fun n => arg_ieq a n = true) info_names with
        | Some (s, _) => info_want args all (<[s := true]> want)
        | None => info_want args all want
        end
  end.

(** [emits] holds what each printer appends. *)
Definition do_info (emits : list bytes) (proto : Z) (cmd : list bytes) (b : Buffer) : Buffer :=
  let '(all, want) := info_want (tail cmd) (length cmd =? 1)%nat (replicate 7 false) in
  resp_verbatim proto b (concat (zip_with (fun (w : bool) (t : bytes) => if all || w then t else []) want emits)).

(** ** Proofs *)

(** The probe leaves every entry as it is when it finds one. *)
Lemma lookup_any_ok w k r w' :
  world_ok w -> lookup_any k w = (r, w') ->
  world_ok w' /\ quiet w w' /\ view w' = view w /\
  match r with
  | Some k' => k' = k /\ exists e, ents (ks w) !! k = Some e /\ ents (ks w') !! k = Some e /\ exists t, view w !! k = Some (aval (eval e), t)
  | None => view w !! k = None
  end.
Proof.
  intros Hw H. destruct (find_live_ok w k r w' Hw H) as (H1 & H2 & H3 & H4). split_and!; [done..|].
  destruct r as [k'|]; [|apply H4]. destruct H4 as [-> (e & He & Hv)]. split; [done|]. exists e. split_and!; [|done|].
  - unfold lookup_any, find_live, mbind, state_bind, ks_get in H. destruct (db_lookup k (ks w)) as [node s1] eqn:E1.
    destruct (db_lookup_spec _ _ _ _ (proj1 Hw) E1) as (Hok1 & He1 & _ & _ & _ & ->).
    destruct (ents (ks w) !! k) as [e0|] eqn:Ek; [|done]. cbn in H.
    destruct (expire_if_needed _ k s1) as [b s2] eqn:E2. unfold expire_if_needed in E2. rewrite He1, Ek in E2.
    destruct (negb (entry_has_ttl e0)); [|destruct (_ <? _)]; injection E2 as <- <-; try done; injection H as <-; cbn in He; congruence.
  - by eexists.
Qed.

Lemma wf_object_answer sub v e b : wf b -> wf (object_answer sub v e b).
Proof. intros Hb. unfold object_answer. repeat (case_bool_decide || case_match); auto with myred. Qed.

Lemma do_object_leaves cmd w w' :
  world_ok w -> writes_ok w -> (3 <= length cmd)%nat -> do_object cmd w = ((), w') ->
  match ents (ks w) !! argd cmd 2, view w !! argd cmd 2 with
  | Some e, Some _ => leaves w w' (object_answer (map tolower (argd cmd 1)) (env w) e) (view w) 0 /\ ents (ks w') !! argd cmd 2 = Some e
  | _, _ => leaves w w' (fun b => resp_err b (bs "ERR no such key")) (view w) 0
  end.
Proof.
  intros Hw Hn Hl H. unfold do_object in H. rewrite (proj2 (Nat.ltb_ge _ _)) in H by lia.
  unfold mbind, state_bind in H. destruct (lookup_any _ w) as [r w1] eqn:E.
  destruct (lookup_any_ok _ _ _ _ Hw E) as (H1 & H2 & H3 & H4). pose proof H1 as (_ & _ & Hwf).
  assert (Hmiss : leaves w (with_out (resp_err (out w1) (bs "ERR no such key")) w1) (fun b => resp_err b (bs "ERR no such key")) (view w) 0).
  { apply (leaves_reply w w1 (fun b => resp_err b (bs "ERR no such key"))); auto with myred. }
  destruct r as [k|].
  - destruct H4 as [-> (e & He & He1 & t & Hv)]. rewrite He. cbn in H. rewrite He1 in H. injection H as <-.
    rewrite Hv. destruct H2 as (Q1 & Q2 & Q3). rewrite Q3. split; [|done].
    apply (leaves_reply w w1 (object_answer (map tolower (argd cmd 1)) (env w) e)); [done..|]. by apply wf_object_answer.
  - injection H as <-. rewrite H4. by destruct (ents (ks w) !! argd cmd 2).
Qed.

(** ** The sweep *)

Lemma foreach_entries s : ks_ok s -> omap (fun k => ents s !! k) (hm_foreach (db s)) ≡ₚ (map_to_list (ents s)).*2.
Proof.
  intros Hs. destruct (db_foreach_keys s Hs) as [Hnd Hin].
  assert (Hp : hm_foreach (db s) ≡ₚ (map_to_list (ents s)).*1).
  { apply list.NoDup_Permutation; [exact Hnd|apply NoDup_fst_map_to_list|]. intros k. rewrite Hin, elem_of_dom, list_elem_of_fmap. split.
    - intros [e He]. exists (k, e). by rewrite elem_of_map_to_list.
    - intros ([k' e] & -> & He%elem_of_map_to_list). by eexists. }
  rewrite Hp. clear. pose proof (fun k e => proj1 (elem_of_map_to_list (ents s) k e)) as Hl.
  induction (map_to_list (ents s)) as [|[k e] l IH]; [done|]. cbn.
  rewrite (Hl k e) by constructor. constructor. apply IH. intros k' e' H. apply Hl. by constructor.
Qed.

Lemma sweep_sum s l acc :
  foldl (cb_mem_sweep s) acc l = match omap (fun k => ents s !! k) l with [] => acc | es => u64 (acc + foldr (fun e n => entry_mem_usage e + n) 0 es) end.
Proof.
  revert acc. induction l as [|k l IH]; intros acc; [done|]. cbn [foldl omap list_omap]. rewrite IH. unfold cb_mem_sweep.
  destruct (ents s !! k) as [e|]; [|done]. cbn [foldr]. unfold u64. destruct (omap _ l) as [|e' es]; cbn [foldr].
  - by rewrite Z.add_0_r.
  - rewrite Zplus_mod_idemp_l. f_equal. lia.
Qed.

(** In a consistent keyspace the counter is the sum over a full walk. *)
Lemma sweep_is_counter s : ks_ok s -> accounted s -> mem_sweep s = used_memory s.
Proof.
  intros Hs Ha. unfold mem_sweep. rewrite sweep_sum, (ks_mem s Hs). unfold msum. pose proof (foreach_entries s Hs) as Hp.
  assert (E : foldr (fun e n => entry_mem_usage e + n) 0 (omap (fun k => ents s !! k) (hm_foreach (db s))) =
    foldr (fun e n => State.mem e + n) 0 (map_to_list (ents s)).*2).
  { rewrite (sum_perm entry_mem_usage _ _ Hp). clear Hp. pose proof (fun k e => proj1 (elem_of_map_to_list (ents s) k e)) as Hl.
    induction (map_to_list (ents s)) as [|[k e] l IH]; [done|]. cbn. rewrite IH by (intros k' e' H; apply Hl; by constructor).
    by rewrite (Ha k e) by (apply Hl; constructor). }
  rewrite <- E. by destruct (omap _ (hm_foreach (db s))).
Qed.

Lemma memory_usage_leaves cmd w r w' :
  world_ok w -> writes_ok w -> length cmd = 3%nat -> memory_usage cmd w = (r, w') ->
  r = Some () /\
  leaves w w' (match ents (ks w) !! argd cmd 2, view w !! argd cmd 2 with
               | Some e, Some _ => fun b => resp_int b (i64 (State.mem e))
               | _, _ => resp_nil (g_reply_proto (env w))
               end) (view w) 0.
Proof.
  intros Hw Hn Hl H. unfold memory_usage in H. rewrite Hl in H. cbn [Nat.leb Nat.ltb andb] in H.
  unfold mbind, state_bind in H. destruct (lookup_any _ w) as [r' w1] eqn:E.
  destruct (lookup_any_ok _ _ _ _ Hw E) as (H1 & H2 & H3 & H4). pose proof H1 as (_ & Hacc & Hwf). destruct r' as [k|].
  - destruct H4 as [-> (e & He & He1 & t & Hv)]. rewrite He, Hv. cbn in H. rewrite He1 in H. injection H as <- <-. split; [done|].
    rewrite (Hacc _ _ He1). apply (leaves_reply w w1 (fun b => resp_int b (i64 (entry_mem_usage e)))); auto with myred.
  - destruct H2 as (Q1 & Q2 & Q3). injection H as <- <-. split; [done|]. rewrite H4, Q3.
    assert (leaves w (with_out (resp_nil (g_reply_proto (env w)) (out w1)) w1) (resp_nil (g_reply_proto (env w))) (view w) 0)
      by (apply (leaves_reply w w1 (resp_nil (g_reply_proto (env w)))); auto with myred; done).
    by destruct (ents (ks w) !! argd cmd 2).
Qed.

Lemma do_asyncdel_leaves cmd w w' :
  world_ok w -> writes_ok w -> do_asyncdel cmd w = ((), w') ->
  let n := if decide (is_Some (ents (ks w) !! argd cmd 1)) then 1 else 0 in
  leaves w w' (fun b => resp_int b n) (delete (argd cmd 1) (view w)) n.
Proof.
  intros Hw Hn H. pose proof Hw as (Hok & Hacc & Hwf). unfold do_asyncdel, mbind, state_bind, ks_get in H.
  destruct (db_lookup _ (ks w)) as [node s1] eqn:E1. destruct (db_lookup_spec _ _ _ _ Hok E1) as (Hok1 & He1 & Hh1 & _ & _ & ->).
  assert (Hv1 : lview (World.now (env w)) s1 = view w) by (apply lview_same; unfold vals, ttls; congruence).
  assert (Hacc1 : accounted s1) by (unfold accounted; by rewrite He1).
  cbn zeta. destruct (decide _) as [[e He]|Hnone].
  - rewrite He in H. cbn in H. injection H as <-.
    destruct (view_remove (with_ks s1 w) (argd cmd 1) Hok1 Hacc1) as (R1 & R2 & R3); [cbn; rewrite He1; by eexists|].
    apply (leaves_intro w (with_writes (u32 (writes w + 1)) (with_ks (remove_key (World.now (env w)) (argd cmd 1) s1) w)) (fun b => resp_int b 1));
      cbn; try done; auto with myred. cbn in R3. unfold view. cbn. rewrite R3. unfold view. cbn. by rewrite Hv1.
  - apply eq_None_not_Some in Hnone. rewrite Hnone in H. cbn in H. injection H as <-.
    rewrite delete_id by (apply lview_None; left; unfold vals; by rewrite lookup_fmap, Hnone).
    apply (leaves_intro w (with_ks s1 w) (fun b => resp_int b 0)); cbn; try done; auto with myred.
    by rewrite Z.add_0_r.
Qed.

(** Introspection tells the truth and changes nothing.  In every consistent
    server: MEMORY DOCTOR finds no drift, because the counter is the sum over
    a walk of the table; MEMORY USAGE answers the bytes the key is charged
    with, or nil; OBJECT answers from the entry found and leaves its access
    clock alone, whichever subcommand, and an expired key does not exist for
    either.  None of them changes the client's view or counts a write.  UNLINK
    removes its key and counts one write if the table held it. *)
Theorem introspection_exact (maxmemory evicted_keys : Z) (w : World) (Hw : world_ok w) (Hn : writes_ok w) :
  (forall w', memory_doctor w = ((), w') ->
     leaves w w' (fun b => resp_str b (bs "Can't find any memory problem. used_memory=" ++ print_u64 (used_memory (ks w)) ++
                                       bs " matches a full sweep.")) (view w) 0) /\
  (forall usage key r w', map tolower (s_data usage) = bs "usage" ->
     do_memory maxmemory evicted_keys [s_copy (bs "memory"); usage; key] w = (r, w') ->
     r = Some () /\
     leaves w w' (match ents (ks w) !! s_data key, view w !! s_data key with
                  | Some e, Some _ => fun b => resp_int b (i64 (State.mem e))
                  | _, _ => resp_nil (g_reply_proto (env w))
                  end) (view w) 0) /\
  (forall sub key rest w', do_object (s_copy (bs "object") :: sub :: key :: rest) w = ((), w') ->
     match ents (ks w) !! s_data key, view w !! s_data key with
     | Some e, Some _ => leaves w w' (object_answer (map tolower (s_data sub)) (env w) e) (view w) 0 /\ ents (ks w') !! s_data key = Some e
     | _, _ => leaves w w' (fun b => resp_err b (bs "ERR no such key")) (view w) 0
     end) /\
  (forall key w', do_asyncdel [s_copy (bs "unlink"); key] w = ((), w') ->
     let n := if decide (is_Some (ents (ks w) !! s_data key)) then 1 else 0 in
     leaves w w' (fun b => resp_int b n) (delete (s_data key) (view w)) n).
Proof.
  split_and!.
  - intros w' H. injection H as <-. destruct Hw as (H1 & H2 & H3). rewrite (sweep_is_counter _ H1 H2). unfold doctor_text. rewrite Z.eqb_refl.
    apply (leaves_reply w w (fun b => resp_str b _)); try done. by apply wf_resp_str.
  - intros usage key r w' Hu H. unfold do_memory in H. change (argd [s_copy (bs "memory"); usage; key] 1) with (s_data usage) in H.
    rewrite Hu, bool_decide_eq_true_2 in H by done. exact (memory_usage_leaves [s_copy (bs "memory"); usage; key] _ _ _ Hw Hn eq_refl H).
  - intros sub key rest w' H. apply (do_object_leaves _ _ _ Hw Hn) in H; [exact H|cbn; lia].
  - intros key w' H. exact (do_asyncdel_leaves _ _ _ Hw Hn H).
Qed.

Lemma introspection_exact_witness :
  forall w', memory_doctor w0 = ((), w') ->
    leaves w0 w' (fun b => resp_str b (bs "Can't find any memory problem. used_memory=" ++ print_u64 (used_memory (ks w0)) ++
                                       bs " matches a full sweep.")) (view w0) 0.
Proof. apply (introspection_exact 0 0 w0 w0_ok eq_refl). Defined.

(** ** A reply that is two *)

Lemma tolower_cr : tolower c_cr = c_cr.
Proof. reflexivity. Qed.

Lemma not_cr_word s : forallb (fun c => negb (bool_decide (c = c_cr))) s = true -> c_cr ∉ s.
Proof. rewrite forallb_forall. intros H Hin%list_elem_of_In. by specialize (H _ Hin). Qed.

Lemma no_directive_cr hn cv tls ord uord now role name :
  c_cr ∈ name -> find_directive name (k_config_table hn cv tls ord uord now role) = None.
Proof.
  intros Hin. assert (Hn : Forall (fun d => forallb (fun c => negb (bool_decide (c = c_cr))) (d_name d) = true)
    (k_config_table hn cv tls ord uord now role)) by (repeat constructor).
  induction Hn as [|d l Hd _ IH]; [done|]. cbn [find_directive]. rewrite bool_decide_eq_false_2; [done|].
  intros ->. by apply not_cr_word in Hd.
Qed.

(** An unknown parameter is repeated in the error without regard for line
    ends, so its author writes the replies that follow.  For any texts without
    carriage returns and zero bytes, CONFIG SET of the parameter
    x CR LF + forged is answered once by the server, but a client reads the
    error up to x and then a second reply, the forged text, which it takes for
    the answer to its next command. *)
Theorem config_reply_split (hn : bytes -> bytes) (cv : bytes -> bytes -> bool) (tls : Config -> option bytes)
    (ord : gmap bytes bool -> list (bytes * bool)) (uord : gmap bytes User -> list (bytes * User)) (now : Z) (role : option (bytes * Z))
    (path : bytes) (can_write : bool) (proto : Z) (x forged value rest : bytes) (c : Config) (b : Buffer)
    (Hx : Forall (fun c => c <> c_cr /\ c <> c_zero) x) (Hf : Forall (fun c => c <> c_cr /\ c <> c_zero) forged)
    (Hb : wf b) (Hempty : Buffer.content b = []) :
  let name := x ++ crlf ++ bs "+" ++ forged in
  exists rep, do_config hn cv tls ord uord now role path can_write proto (s_copy <$> [bs "config"; bs "set"; name; value]) c = Some (rep, c, None) /\
    let inp := Buffer.content (rep b) ++ rest in
    exists later, read_response (reply_fuel inp) inp = Some (bs "(error) ERR Unknown config parameter '" ++ x, later) /\
      read_response (reply_fuel later) later = Some (forged ++ bs "'", rest).
Proof.
  cbn zeta. set (name := x ++ crlf ++ bs "+" ++ forged). set (msg := bs "ERR Unknown config parameter '" ++ name ++ bs "'").
  assert (Hcr : c_cr ∈ map tolower name).
  { apply list_elem_of_fmap. exists c_cr. split; [done|]. unfold name. set_solver. }
  exists (fun b => resp_err b msg). split.
  - set (cmd := s_copy <$> _). assert (E1 : argd cmd 1 = bs "set") by reflexivity. assert (E2 : argd cmd 2 = name) by reflexivity.
    unfold do_config, config_set. change (length cmd) with 4%nat. rewrite E1, E2. clearbody cmd.
    change (map tolower (bs "set")) with (bs "set"). do 2 rewrite bool_decide_eq_false_2 by done. rewrite bool_decide_eq_true_2 by done.
    cbn [Nat.ltb Nat.leb]. rewrite bool_decide_eq_false_2 by (intros E; rewrite E in Hcr; revert Hcr; apply not_cr_word; reflexivity).
    unfold config_is_boot_only, config_apply. by rewrite !no_directive_cr by done.
  - destruct (line_text x Hx) as [Zx Hx1]. destruct (line_text forged Hf) as [Zf Hf1].
    assert (Hz : c_str msg = msg).
    { apply c_str_id. unfold msg, name, no_zero. rewrite !Forall_app.
      split_and!; try (apply (bool_decide_unpack _); vm_compute; exact I); (eapply Forall_impl; [first [exact Hx|exact Hf]|]); cbn; tauto. }
    destruct (appends_resp_err msg b Hb) as [_ Ec]. rewrite Ec, Hempty, Hz. cbn [app].
    assert (Einp : ((bs "-" ++ msg) ++ crlf) ++ rest =
      chr 45 :: (bs "ERR Unknown config parameter '" ++ x) ++ crlf ++ chr 43 :: (forged ++ bs "'") ++ crlf ++ rest).
    { unfold msg, name. change (bs "-") with [chr 45]. change (bs "+") with [chr 43]. cbn [app]. by rewrite <- !app_assoc. }
    rewrite Einp. exists (chr 43 :: (forged ++ bs "'") ++ crlf ++ rest). unfold reply_fuel. cbn [read_response].
    rewrite !read_head; [done|done| |done|]; apply Forall_app; (split; [try done|try done]);
      apply (bool_decide_unpack _); vm_compute; exact I.
Qed.

Lemma config_reply_split_witness :
  let name := bs "x" ++ crlf ++ bs "+" ++ bs "OK" in
  exists rep, do_config id (fun _ _ => true) (fun _ => None) map_to_list map_to_list 0 None [] true 2
      (s_copy <$> [bs "config"; bs "set"; name; bs "1"]) config_default = Some (rep, config_default, None) /\
    let inp := Buffer.content (rep (buf_create 8)) ++ bs ":7" ++ crlf in
    exists later, read_response (reply_fuel inp) inp = Some (bs "(error) ERR Unknown config parameter '" ++ bs "x", later) /\
      read_response (reply_fuel later) later = Some (bs "OK" ++ bs "'", bs ":7" ++ crlf).
Proof.
  apply (config_reply_split id (fun _ _ => true) (fun _ => None) map_to_list map_to_list 0 None [] true 2 (bs "x") (bs "OK") (bs "1") (bs ":7" ++ crlf)
    config_default (buf_create 8)).
  - apply (bool_decide_unpack _). vm_compute. exact I.
  - apply (bool_decide_unpack _). vm_compute. exact I.
  - apply buf_create_wf.
  - apply buf_create_wf.
Defined.
