(* ===== verification/AuditLog.v ===== *)
(** * The audit log (src/src/commands/commands.cpp 1699-1758 and the callers of audit_event)

    One line per event: pairs key=value between spaces, hostile bytes escaped.
    A reader that splits the file at newlines, each line at spaces, each field
    at its first equals sign and undoes the escapes is written here to state
    what the log promises; the timestamp is an argument. *)
From S2P Require Import Prelude Resp CText.

Definition hex_digit (n : Z) : ascii := if n <? 10 then chr (48 + n) else chr (87 + n).

Definition audit_escape_char (c : ascii) : bytes :=
  if code c =? 10 then bs "\n"
  else if code c =? 13 then bs "\r"
  else if code c =? 9 then bs "\t"
  else if code c =? 92 then bs "\\"
  else if code c =? 32 then bs "\s"
  else if (code c <? 32) || (127 <=? code c) then bs "\x" ++ [hex_digit (code c / 16); hex_digit (code c mod 16)]
  else [c].

Definition audit_escape (s : bytes) : bytes := concat (map audit_escape_char s).

(** ** Events, one constructor per call *)

Inductive AuditEvent :=
| AReject (peer reason : bytes)                       (* audit_reject: maxclients, allowlist, protected-mode *)
| AHandshakeTimeout (peer user : bytes)
| AHandshakeFail (peer user why : bytes)              (* why: tr_tls_error() *)
| ACredRehash (peer user target : bytes)
| AAuthSuccess (peer user : bytes)
| AAuthFail (peer user target : bytes)
| ASetUser (peer user target : bytes) (rules : Z)
| ADelUser (peer user target : bytes)
| ADenyChannel (peer user cmd : bytes)                (* subscribe, psubscribe *)
| ADenyPublish (peer user : bytes)
| ADenyCommand (peer user canonical : bytes) (key : bool)
| ASensitive (peer user canonical : bytes) (admin : bool).

(** The name, the peer, the user and the [extra] text of the call; [user] is the
    name of the connection's user, or "-" without one. *)
Definition audit_parts (e : AuditEvent) : bytes * bytes * bytes * bytes :=
  match e with
  | AReject p r => (bs "accept_reject", p, bs "-", bs " reason=" ++ r)
  | AHandshakeTimeout p u => (bs "tls_handshake_timeout", p, u, [])
  | AHandshakeFail p u w => (bs "tls_handshake_fail", p, u, bs " reason=" ++ w)
  | ACredRehash p u t => (bs "cred_rehash", p, u, bs " target=" ++ audit_escape t)
  | AAuthSuccess p u => (bs "auth_success", p, u, [])
  | AAuthFail p u t => (bs "auth_fail", p, u, bs " target=" ++ audit_escape t ++ bs " result=wrongpass")
  | ASetUser p u t n => (bs "acl_change", p, u, bs " sub=setuser target=" ++ audit_escape t ++ bs " rules=" ++ print_u64 n ++ bs " result=ok")
  | ADelUser p u t => (bs "acl_change", p, u, bs " sub=deluser target=" ++ audit_escape t ++ bs " result=ok")
  | ADenyChannel p u c => (bs "acl_deny", p, u, bs " cmd=" ++ c ++ bs " reaseon=channel")
  | ADenyPublish p u => (bs "acl_deny", p, u, bs " cmd=publish reason=channel")
  | ADenyCommand p u c k => (bs "acl_deny", p, u, bs " cmd=" ++ c ++ bs " reason=" ++ (if k then bs "key" else bs "command"))
  | ASensitive p u c a => ((if a then bs "admin_command" else bs "dangerous_command"), p, u, bs " cmd=" ++ c)
  end.

Definition audit_line (ts event peer user extra : bytes) : bytes :=
  bs "ts=" ++ ts ++ bs " event=" ++ event ++ bs " peer=" ++ audit_escape peer ++ bs " user=" ++ audit_escape user ++ extra ++ [c_lf].

(** What [write] returns: an error, or the number of bytes taken, which may be
    fewer than asked. *)
Inductive Wrote := WFailed | WWrote (n : nat).

(** [audit_write] on the file: nothing while it is closed; a failed write leaves
    it and records the error; a short write is not noticed and leaves a part of
    the line. *)
Record AuditFile := mkAudit { audit_open : bool; audit_text : bytes; audit_error : bool }.

Definition audit_write (ts : bytes) (rv : Wrote) (e : AuditEvent) (f : AuditFile) : AuditFile :=
  let '(event, peer, user, extra) := audit_parts e in
  if negb (audit_open f) then f
  else match rv with
       | WFailed => mkAudit true (audit_text f) true
       | WWrote n => mkAudit true (audit_text f ++ take n (audit_line ts event peer user extra)) (audit_error f)
       end.

(** ** What a record says *)

Definition audit_fields (ts : bytes) (e : AuditEvent) : list (bytes * bytes) :=
  let head ev p u := [(bs "ts", ts); (bs "event", bs ev); (bs "peer", p); (bs "user", u)] in
  match e with
  | AReject p r => head "accept_reject"%string p (bs "-") ++ [(bs "reason", r)]
  | AHandshakeTimeout p u => head "tls_handshake_timeout"%string p u
  | AHandshakeFail p u w => head "tls_handshake_fail"%string p u ++ [(bs "reason", w)]
  | ACredRehash p u t => head "cred_rehash"%string p u ++ [(bs "target", t)]
  | AAuthSuccess p u => head "auth_success"%string p u
  | AAuthFail p u t => head "auth_fail"%string p u ++ [(bs "target", t); (bs "result", bs "wrongpass")]
  | ASetUser p u t n => head "acl_change"%string p u ++ [(bs "sub", bs "setuser"); (bs "target", t); (bs "rules", print_u64 n); (bs "result", bs "ok")]
  | ADelUser p u t => head "acl_change"%string p u ++ [(bs "sub", bs "deluser"); (bs "target", t); (bs "result", bs "ok")]
  | ADenyChannel p u c => head "acl_deny"%string p u ++ [(bs "cmd", c); (bs "reaseon", bs "channel")]
  | ADenyPublish p u => head "acl_deny"%string p u ++ [(bs "cmd", bs "publish"); (bs "reason", bs "channel")]
  | ADenyCommand p u c k => head "acl_deny"%string p u ++ [(bs "cmd", c); (bs "reason", if k then bs "key" else bs "command")]
  | ASensitive p u c a => head (if a then "admin_command" else "dangerous_command")%string p u ++ [(bs "cmd", c)]
  end.

(** ** The reader *)

Fixpoint split_at (sep : ascii) (s : bytes) : list bytes :=
  match s with
  | [] => [[]]
  | c :: s' =>
      if bool_decide (c = sep) then [] :: split_at sep s'
      else match split_at sep s' with w :: ws => (c :: w) :: ws | [] => [[c]] end
  end.

Fixpoint cut_eq (s : bytes) : bytes * bytes :=
  match s with
  | [] => ([], [])
  | c :: s' => if bool_decide (c = chr 61) then ([], s') else let '(k, v) := cut_eq s' in (c :: k, v)
  end.

Definition hex_val (c : ascii) : Z := if code c <? 58 then code c - 48 else code c - 87.

Definition unescape_letter (x : ascii) : ascii :=
  if bool_decide (x = "n"%char) then c_lf else if bool_decide (x = "r"%char) then c_cr
  else if bool_decide (x = "t"%char) then chr 9 else if bool_decide (x = "s"%char) then chr 32 else x.

Fixpoint audit_unescape (s : bytes) : bytes :=
  match s with
  | [] => []
  | b :: s1 =>
      if bool_decide (b = c_back) then
        match s1 with
        | [] => [b]
        | x :: s2 =>
            if bool_decide (x = "x"%char) then
              match s2 with
              | h :: l :: s3 => chr (hex_val h * 16 + hex_val l) :: audit_unescape s3
              | _ => s2
              end
            else unescape_letter x :: audit_unescape s2
        end
      else b :: audit_unescape s1
  end.

Definition read_field (f : bytes) : bytes * bytes := let '(k, v) := cut_eq f in (k, audit_unescape v).

(** Every complete line of the file, as its fields. *)
Definition read_audit (text : bytes) : list (list (bytes * bytes)) :=
  map (fun l => map read_field (split_at (chr 32) l)) (removelast (split_at c_lf text)).

Example escape_hostile : audit_escape (bs "a b" ++ [c_lf] ++ bs "user=x" ++ [chr 255]) = bs "a\sb\nuser=x\xff".
Proof. vm_compute. reflexivity. Qed.

(** ** Escaping *)

(** A byte that can stand in a field: printable, and no space. *)
Definition visible (c : ascii) : Prop := 33 <= code c <= 126.

Lemma hex_digit_spec n : 0 <= n < 16 -> hex_val (hex_digit n) = n /\ visible (hex_digit n).
Proof.
  intros Hn. unfold hex_val, hex_digit, visible. destruct (Z.ltb_spec n 10); rewrite code_chr by lia.
  - rewrite (proj2 (Z.ltb_lt _ _)) by lia. lia.
  - rewrite (proj2 (Z.ltb_ge _ _)) by lia. lia.
Qed.

(** One byte comes back, whatever follows, and is written with visible bytes. *)
Lemma escape_char_spec c rest :
  Forall visible (audit_escape_char c) /\ audit_unescape (audit_escape_char c ++ rest) = c :: audit_unescape rest.
Proof.
  pose proof (code_range c) as Hc.
  assert (Hall : forall b, code c = b -> 0 <= b < 256 -> c = chr b) by (intros b <- _; by rewrite chr_code).
  unfold audit_escape_char. destruct (Z.eqb_spec (code c) 10) as [E|?]; [by rewrite (Hall _ E) by lia; split; [repeat constructor; cbn|]|].
  destruct (Z.eqb_spec (code c) 13) as [E|?]; [by rewrite (Hall _ E) by lia; split; [repeat constructor; cbn|]|].
  destruct (Z.eqb_spec (code c) 9) as [E|?]; [by rewrite (Hall _ E) by lia; split; [repeat constructor; cbn|]|].
  destruct (Z.eqb_spec (code c) 92) as [E|?]; [by rewrite (Hall _ E) by lia; split; [repeat constructor; cbn|]|].
  destruct (Z.eqb_spec (code c) 32) as [E|?]; [by rewrite (Hall _ E) by lia; split; [repeat constructor; cbn|]|].
  destruct ((code c <? 32) || (127 <=? code c)) eqn:E.
  - destruct (hex_digit_spec (code c / 16)) as [H1 H2]; [split; [apply Z.div_pos; lia|apply Z.div_lt_upper_bound; lia]|].
    destruct (hex_digit_spec (code c mod 16)) as [H3 H4]; [apply Z.mod_pos_bound; lia|]. split.
    + do 2 (constructor; [vm_compute; split; congruence|]). apply Forall_cons. split; [exact H2|]. apply Forall_cons. by split; [exact H4|].
    + cbn [audit_unescape app bs String.list_ascii_of_string]. cbn. rewrite H1, H3.
      rewrite Z.mul_comm, <- Z.div_mod, chr_code by lia. done.
  - apply orb_false_iff in E as [E1 E2]. split; [constructor; [unfold visible; lia|done]|]. cbn [app audit_unescape].
    rewrite bool_decide_eq_false_2; [done|]. intros ->. done.
Qed.

Lemma unescape_escape s : audit_unescape (audit_escape s) = s.
Proof.
  induction s as [|c s IH]; [done|]. unfold audit_escape in *. cbn [map concat].
  by rewrite (proj2 (escape_char_spec c _)), IH.
Qed.

Lemma escape_visible s : Forall visible (audit_escape s).
Proof.
  induction s as [|c s IH]; [constructor|]. unfold audit_escape in *. cbn [map concat]. apply Forall_app. split; [|done].
  apply (escape_char_spec c []).
Qed.

(** ** Splitting *)

Lemma split_at_head sep w rest : Forall (fun c => c <> sep) w -> split_at sep (w ++ sep :: rest) = w :: split_at sep rest.
Proof.
  induction 1 as [|c w Hc _ IH]; cbn [app split_at]; [by rewrite bool_decide_eq_true_2|].
  by rewrite bool_decide_eq_false_2, IH by done.
Qed.

Lemma split_at_some sep s : split_at sep s <> [].
Proof. destruct s as [|c s]; [done|]. cbn [split_at]. case_bool_decide; [done|]. by destruct (split_at sep s). Qed.

Lemma split_at_last sep w : Forall (fun c => c <> sep) w -> split_at sep w = [w].
Proof. induction 1 as [|c w Hc _ IH]; [done|]. cbn [split_at]. by rewrite bool_decide_eq_false_2, IH by done. Qed.

Fixpoint join (ws : list bytes) : bytes :=
  match ws with [] => [] | [w] => w | w :: ws => w ++ chr 32 :: join ws end.

Lemma split_join w ws : Forall (Forall (fun c => c <> chr 32)) (w :: ws) -> split_at (chr 32) (join (w :: ws)) = w :: ws.
Proof.
  revert w. induction ws as [|w' ws IH]; intros w [Hw Hws]%Forall_cons; [by apply split_at_last|].
  cbn [join]. rewrite split_at_head by done. f_equal. by apply IH.
Qed.

Lemma cut_field k v : Forall (fun c => c <> chr 61) k -> cut_eq (k ++ chr 61 :: v) = (k, v).
Proof.
  induction 1 as [|c k Hc _ IH]; cbn [app cut_eq]; [by rewrite bool_decide_eq_true_2|].
  by rewrite bool_decide_eq_false_2, IH by done.
Qed.

(** ** A record *)

(** Text that stands for itself. *)
Definition plain (s : bytes) : Prop := Forall (fun c => visible c /\ c <> c_back) s.

Lemma plain_visible s : plain s -> Forall visible s.
Proof. intros H. eapply Forall_impl; [exact H|]. cbn. tauto. Qed.

Lemma unescape_plain s : plain s -> audit_unescape s = s.
Proof. induction 1 as [|c s [_ Hc] _ IH]; [done|]. cbn. by rewrite bool_decide_eq_false_2, IH by done. Qed.

(** A field as it is written: a key that stands for itself, and a text that reads
    back as the value. *)
Record written (f : bytes) (kv : bytes * bytes) : Prop := {
  wr_visible : Forall visible f;
  wr_reads : read_field f = kv;
}.

Lemma written_intro k t v :
  plain k -> Forall (fun c => c <> chr 61) k -> Forall visible t -> audit_unescape t = v -> written (k ++ chr 61 :: t) (k, v).
Proof.
  intros Hk He Ht Hv. split.
  - apply Forall_app. split; [by apply plain_visible|]. constructor; [vm_compute; split; congruence|done].
  - unfold read_field. by rewrite cut_field, Hv.
Qed.

Lemma written_escaped k v : plain k -> Forall (fun c => c <> chr 61) k -> written (k ++ chr 61 :: audit_escape v) (k, v).
Proof. intros Hk He. apply written_intro; [done..|apply escape_visible|apply unescape_escape]. Qed.

Lemma written_plain k v : plain k -> Forall (fun c => c <> chr 61) k -> plain v -> written (k ++ chr 61 :: v) (k, v).
Proof. intros Hk He Hv. apply written_intro; [done..|by apply plain_visible|by apply unescape_plain]. Qed.

Lemma visible_no_sep f : Forall visible f -> Forall (fun c => c <> chr 32) f /\ Forall (fun c => c <> c_lf) f.
Proof. intros H. split; (eapply Forall_impl; [exact H|]); cbn; intros c Hc ->; vm_compute in Hc; by destruct Hc. Qed.

Lemma written_line fs kvs : Forall2 written fs kvs -> fs <> [] ->
  Forall (fun c => c <> c_lf) (join fs) /\ map read_field (split_at (chr 32) (join fs)) = kvs.
Proof.
  intros H Hne. assert (Hv : Forall (Forall visible) fs) by (clear Hne; induction H as [|? ? ? ? [? _]]; by constructor).
  split.
  - clear H Hne. induction Hv as [|f fs Hf Hfs IH]; [constructor|]. apply visible_no_sep in Hf as [_ Hf].
    destruct fs as [|f' fs]; [done|]. cbn [join] in *. apply Forall_app. split; [done|]. by constructor.
  - destruct fs as [|f fs]; [done|]. rewrite split_join by (eapply Forall_impl; [exact Hv|]; intros; by apply visible_no_sep).
    clear Hv Hne. induction H as [|? ? ? ? [_ E] _ IH]; [done|]. cbn [map]. by rewrite E, IH.
Qed.

(** What the callers pass without escaping: fixed words, names of the command
    table, and the text of the TLS library. *)
Definition event_plain (e : AuditEvent) : Prop :=
  match e with
  | AReject _ t | AHandshakeFail _ _ t | ADenyChannel _ _ t | ADenyCommand _ _ t _ | ASensitive _ _ t _ => plain t
  | ASetUser _ _ _ n => 0 <= n < 2 ^ 64
  | _ => True
  end.

Definition fld (k : string) (t : bytes) : bytes := bs k ++ chr 61 :: t.

(** The fields of a record as they are written. *)
Definition event_words (ts : bytes) (e : AuditEvent) : list bytes :=
  let head ev p u := [fld "ts" ts; fld "event" (bs ev); fld "peer" (audit_escape p); fld "user" (audit_escape u)] in
  match e with
  | AReject p r => head "accept_reject"%string p (bs "-") ++ [fld "reason" r]
  | AHandshakeTimeout p u => head "tls_handshake_timeout"%string p u
  | AHandshakeFail p u w => head "tls_handshake_fail"%string p u ++ [fld "reason" w]
  | ACredRehash p u t => head "cred_rehash"%string p u ++ [fld "target" (audit_escape t)]
  | AAuthSuccess p u => head "auth_success"%string p u
  | AAuthFail p u t => head "auth_fail"%string p u ++ [fld "target" (audit_escape t); fld "result" (bs "wrongpass")]
  | ASetUser p u t n => head "acl_change"%string p u ++ [fld "sub" (bs "setuser"); fld "target" (audit_escape t); fld "rules" (print_u64 n); fld "result" (bs "ok")]
  | ADelUser p u t => head "acl_change"%string p u ++ [fld "sub" (bs "deluser"); fld "target" (audit_escape t); fld "result" (bs "ok")]
  | ADenyChannel p u c => head "acl_deny"%string p u ++ [fld "cmd" c; fld "reaseon" (bs "channel")]
  | ADenyPublish p u => head "acl_deny"%string p u ++ [fld "cmd" (bs "publish"); fld "reason" (bs "channel")]
  | ADenyCommand p u c k => head "acl_deny"%string p u ++ [fld "cmd" c; fld "reason" (if k then bs "key" else bs "command")]
  | ASensitive p u c a => head (if a then "admin_command" else "dangerous_command")%string p u ++ [fld "cmd" c]
  end.

Lemma plain_dec s : forallb (fun c => (33 <=? code c) && (code c <=? 126) && negb (bool_decide (c = c_back))) s = true -> plain s.
Proof.
  intros H. apply Forall_forall. intros c Hc. rewrite forallb_forall in H. specialize (H c). rewrite <- list_elem_of_In in H.
  specialize (H Hc). apply andb_true_iff in H as [[H1 H2]%andb_true_iff H3]. unfold visible. split; [lia|].
  intros ->. discriminate H3.
Qed.

Lemma key_dec s : forallb (fun c => negb (bool_decide (c = chr 61))) s = true -> Forall (fun c => c <> chr 61) s.
Proof.
  intros H. apply Forall_forall. intros c Hc. rewrite forallb_forall in H. specialize (H c). rewrite <- list_elem_of_In in H.
  intros ->. discriminate (H Hc).
Qed.

Lemma audit_digits n : 0 <= n < 2 ^ 64 -> plain (print_u64 n).
Proof.
  intros Hn. eapply Forall_impl; [apply print_u64_digits, Hn|]. cbn. unfold is_digit. intros c Hc%Is_true_true.
  apply andb_true_iff in Hc. unfold visible. split; [lia|]. intros ->. vm_compute in Hc. by destruct Hc.
Qed.

Ltac solve_field :=
  first [ apply written_escaped | apply written_plain ];
  try (apply plain_dec; vm_compute; reflexivity); try (apply key_dec; vm_compute; reflexivity);
  try done; try (by apply audit_digits).

Lemma event_words_written ts e : plain ts -> event_plain e -> Forall2 written (event_words ts e) (audit_fields ts e).
Proof.
  intros Hts He. assert (Hdash : audit_escape (bs "-") = bs "-") by reflexivity.
  destruct e as [p r|p u|p u w|p u t|p u|p u t|p u t n|p u t|p u c|p u|p u c k|p u c a]; cbn [event_words audit_fields event_plain app] in *;
    try destruct k; try destruct a; unfold fld; repeat apply Forall2_cons_2; try apply Forall2_nil_2; solve_field.
Qed.

Lemma audit_line_words ts e :
  let '(ev, p, u, extra) := audit_parts e in audit_line ts ev p u extra = join (event_words ts e) ++ [c_lf].
Proof.
  destruct e as [p r|p u|p u w|p u t|p u|p u t|p u t n|p u t|p u c|p u|p u c k|p u c a]; try destruct k; try destruct a;
    cbn [audit_parts event_words app join]; unfold audit_line, fld; cbn [app bs String.list_ascii_of_string];
    repeat (progress (rewrite <- ?app_assoc; cbn [app])); reflexivity.
Qed.

(** ** The lines of the file *)

(** An unescaped text may break its own record into fields, but not into lines:
    the TLS library's text has no newline. *)
Definition event_line (e : AuditEvent) : Prop :=
  match e with AHandshakeFail _ _ w => Forall (fun c => c <> c_lf) w | _ => event_plain e end.

(** A record without its newline. *)
Definition record_text (ts : bytes) (e : AuditEvent) : bytes := join (event_words ts e).

Lemma join_no_lf ws : Forall (Forall (fun c => c <> c_lf)) ws -> Forall (fun c => c <> c_lf) (join ws).
Proof.
  induction 1 as [|w ws Hw Hws IH]; [constructor|]. destruct ws as [|w' ws]; [done|]. cbn [join] in *. apply Forall_app. split; [done|]. by constructor.
Qed.

Lemma record_no_lf ts e : plain ts -> event_line e -> Forall (fun c => c <> c_lf) (record_text ts e).
Proof.
  intros Hts He.
  assert (Hwords : forall e, event_plain e -> Forall (Forall (fun c => c <> c_lf)) (event_words ts e)).
  { intros e' He'. pose proof (event_words_written ts e' Hts He') as H. clear -H. induction H as [|? ? ? ? [Hv _] _ IH]; [constructor|].
    constructor; [by apply visible_no_sep|done]. }
  apply join_no_lf. destruct e; try (apply Hwords; exact He). specialize (Hwords (AHandshakeFail peer user []) ltac:(constructor)).
  cbn [event_words app event_line] in *. repeat (apply Forall_cons in Hwords as [? Hwords]). repeat (apply Forall_cons_2; [done|]). apply Forall_singleton.
  unfold fld. apply Forall_app. split; [apply (bool_decide_unpack _); vm_compute; exact I|]. constructor; [discriminate|done].
Qed.

(** The complete lines, each with the parts of earlier records that short
    writes left before it. *)
Fixpoint records (carry : bytes) (evs : list (bytes * Wrote * AuditEvent)) : list (bytes * bytes * AuditEvent) :=
  match evs with
  | [] => []
  | (_, WFailed, _) :: evs' => records carry evs'
  | (ts, WWrote n, e) :: evs' =>
      if (length (record_text ts e) <? n)%nat then (carry, ts, e) :: records [] evs'
      else records (carry ++ take n (record_text ts e)) evs'
  end.

Lemma text_lines evs : forall f carry, audit_open f = true -> Forall (fun c => c <> c_lf) carry ->
  Forall (fun x => plain x.1.1 /\ event_line x.2) evs ->
  forall before, audit_text f = before ++ carry ->
  exists rest, Forall (fun c => c <> c_lf) rest /\
    audit_text (foldl (fun f x => audit_write x.1.1 x.1.2 x.2 f) f evs) =
    before ++ concat (map (fun x => (x.1.1 ++ record_text x.1.2 x.2) ++ [c_lf]) (records carry evs)) ++ rest.
Proof.
  induction evs as [|[[ts rv] e] evs IH]; intros f carry Hf Hc Hev before Ht.
  { exists carry. split; [done|]. by cbn. }
  apply Forall_cons in Hev as [[Hts He] Hev]. cbn [foldl fst snd records] in *. pose proof (record_no_lf ts e Hts He) as Hlf.
  unfold audit_write at 2. pose proof (audit_line_words ts e) as El. destruct (audit_parts e) as [[[ev p] u] x]. rewrite Hf, El. cbn [negb].
  fold (record_text ts e). destruct rv as [|n]; [by apply (IH _ carry)|]. destruct (Nat.ltb_spec (length (record_text ts e)) n).
  - rewrite take_ge by (rewrite length_app; cbn; lia).
    destruct (IH (mkAudit true (audit_text f ++ record_text ts e ++ [c_lf]) (audit_error f)) [] eq_refl ltac:(constructor) Hev
      (audit_text f ++ record_text ts e ++ [c_lf]) ltac:(by rewrite app_nil_r)) as (rest & Hr & ->).
    exists rest. split; [done|]. cbn [map concat fst snd]. rewrite Ht, <- !app_assoc. done.
  - rewrite take_app_le by done. apply (IH _ (carry ++ take n (record_text ts e))); [done| |done|by rewrite app_assoc; cbn; rewrite Ht].
    apply Forall_app. split; [done|by apply Forall_take].
Qed.

Lemma split_lines ls : forall rest, Forall (Forall (fun c => c <> c_lf)) ls -> Forall (fun c => c <> c_lf) rest ->
  removelast (split_at c_lf (concat (map (fun l => l ++ [c_lf]) ls) ++ rest)) = ls.
Proof.
  induction ls as [|l ls IH]; intros rest Hls Hr; cbn [map concat]; [cbn [app]; by rewrite split_at_last|]. apply Forall_cons in Hls as [Hl Hls].
  rewrite <- !app_assoc. cbn [app]. rewrite split_at_head by done. specialize (IH rest Hls Hr).
  destruct (split_at c_lf (concat _ ++ rest)) as [|y ys] eqn:E; [by apply split_at_some in E|]. cbn [removelast] in *. by rewrite IH.
Qed.

Lemma records_in evs : forall carry x, x ∈ records carry evs -> exists rv, (x.1.2, rv, x.2) ∈ evs.
Proof.
  induction evs as [|[[ts rv] e] evs IH]; intros carry x Hx; cbn [records] in Hx; [by apply not_elem_of_nil in Hx|].
  assert (Hrest : forall c, x ∈ records c evs -> exists rv', (x.1.2, rv', x.2) ∈ (ts, rv, e) :: evs).
  { intros c Hc. destruct (IH c x Hc) as [rv' H]. exists rv'. by right. }
  destruct rv as [|n]; [by eapply Hrest|]. case_match; [|by eapply Hrest]. apply elem_of_cons in Hx as [->|Hx]; [|by eapply Hrest].
  exists (WWrote n). by left.
Qed.

Lemma records_carry evs : forall carry x, Forall (fun c => c <> c_lf) carry -> Forall (fun x => plain x.1.1 /\ event_line x.2) evs ->
  x ∈ records carry evs -> Forall (fun c => c <> c_lf) x.1.1.
Proof.
  induction evs as [|[[ts rv] e] evs IH]; intros carry x Hc Hev Hx; cbn [records] in Hx; [by apply not_elem_of_nil in Hx|].
  apply Forall_cons in Hev as [[Hts He] Hev]. destruct rv as [|n]; [by eapply IH|]. case_match.
  - apply elem_of_cons in Hx as [->|Hx]; [done|]. by apply (IH [] x).
  - eapply IH; [|done|exact Hx]. apply Forall_app. split; [done|]. by apply Forall_take, record_no_lf.
Qed.

(** C32: The audit log cannot be forged.  Whatever bytes peers, user names and
    targets hold (newlines, spaces, equals signs, backslashes), and whether a
    write fails, takes the whole line or a part of it, the file has exactly
    one line for each record written whole, in order; its text is the record,
    behind the parts of earlier records that short writes left there and the
    code does not notice.  A record with no such part before it, read back by
    splitting at spaces and at the first equals sign and undoing the escapes,
    has exactly its fields with their original values.  The reason of
    [tls_handshake_fail] is written without escapes: that record keeps its line
    but its fields are exact only if the reason has no space or backslash. *)
Theorem audit_log_faithful (evs : list (bytes * Wrote * AuditEvent)) (Hev : Forall (fun x => plain x.1.1 /\ event_line x.2) evs) :
  let f := foldl (fun f x => audit_write x.1.1 x.1.2 x.2 f) (mkAudit true [] false) evs in
  removelast (split_at c_lf (audit_text f)) = map (fun x => x.1.1 ++ record_text x.1.2 x.2) (records [] evs) /\
  read_audit (audit_text f) = map (fun x => map read_field (split_at (chr 32) (x.1.1 ++ record_text x.1.2 x.2))) (records [] evs) /\
  forall ts e, ([], ts, e) ∈ records [] evs -> event_plain e ->
    map read_field (split_at (chr 32) (record_text ts e)) = audit_fields ts e.
Proof.
  cbn zeta. destruct (text_lines evs (mkAudit true [] false) [] eq_refl ltac:(constructor) Hev [] eq_refl) as (rest & Hr & Ht).
  assert (Hlines : removelast (split_at c_lf (audit_text (foldl (fun f x => audit_write x.1.1 x.1.2 x.2 f) (mkAudit true [] false) evs))) =
    map (fun x => x.1.1 ++ record_text x.1.2 x.2) (records [] evs)).
  { rewrite Ht. cbn [app]. rewrite <- (map_map (fun x => x.1.1 ++ record_text x.1.2 x.2) (fun l => l ++ [c_lf])). apply split_lines; [|done].
    apply Forall_forall. intros l Hl. apply list_elem_of_fmap in Hl as (x & -> & Hx). apply Forall_app. split; [by eapply records_carry in Hx; [|constructor|]|].
    destruct (records_in _ _ _ Hx) as [rv Hin]. rewrite Forall_forall in Hev. destruct (Hev _ Hin). by apply record_no_lf. }
  split; [done|]. split; [unfold read_audit; rewrite Hlines, map_map; done|].
  intros ts e Hx He. destruct (records_in _ _ _ Hx) as [rv Hin]. rewrite Forall_forall in Hev. destruct (Hev _ Hin) as [Hts _].
  apply written_line; [by apply event_words_written|]. by destruct e.
Qed.

(** A forged name, a write that takes ten bytes, and a record behind it. *)
Definition audit_story : list (bytes * Wrote * AuditEvent) :=
  [(bs "2026-01-01T00:00:00Z", WWrote 200, AAuthFail (bs "10.0.0.1:80") (bs "-") (bs "x" ++ [c_lf] ++ bs "ts=0 event=auth_success"));
   (bs "2026-01-01T00:00:01Z", WFailed, AAuthSuccess (bs "p") (bs "u")); (bs "2026-01-01T00:00:01Z", WWrote 10, AAuthSuccess (bs "p") (bs "u"));
   (bs "2026-01-01T00:00:02Z", WWrote 200, ADelUser [] (bs "a b") (bs "\"))].

Lemma audit_log_faithful_witness :
  let f := foldl (fun f x => audit_write x.1.1 x.1.2 x.2 f) (mkAudit true [] false) audit_story in
  removelast (split_at c_lf (audit_text f)) =
    [record_text (bs "2026-01-01T00:00:00Z") (AAuthFail (bs "10.0.0.1:80") (bs "-") (bs "x" ++ [c_lf] ++ bs "ts=0 event=auth_success"));
     bs "ts=2026-01" ++ record_text (bs "2026-01-01T00:00:02Z") (ADelUser [] (bs "a b") (bs "\"))].
Proof.
  cbn zeta. destruct (audit_log_faithful audit_story) as [H _].
  - repeat (apply Forall_cons; split); [..|done]; (split; [apply plain_dec; vm_compute; reflexivity|done]).
  - etransitivity; [exact H|]. vm_compute. reflexivity.
Defined.
