(* ===== verification/Accept.v ===== *)
(** * Accepting connections and the transport
    (src/src/server/server.cpp 104-118, 228-248, 558-655, 992-1008, 1300-1376;
    src/src/server/transport.cpp)

    The table of connections by descriptor, the gates a new connection passes,
    the TLS handshake, what the loop polls a connection for and what it runs
    when it is ready.  Results of system and OpenSSL calls are arguments; the
    read and write paths themselves are in Loop. *)
From S2P Require Import Prelude Buffer Resp Args CText CmdTable Acl Config Aof Loop DList Timers.

(** ** A connection as transport and loop see it *)

Record NConn := mkN {
  n_id : Z; n_peer : bytes;
  n_ssl : bool;                         (* ssl is not null *)
  n_handshaking : bool;                 (* tls_handshaking *)
  n_want_read : bool; n_want_write : bool; n_want_close : bool;
  tr_want_read : bool; tr_want_write : bool;
  n_timer : option ConnTimer;           (* None: in no list, the link to a master *)
  n_active : Z;                         (* last_active_ms *)
}.

Definition demand (r w : bool) (c : NConn) : NConn :=
  mkN (n_id c) (n_peer c) (n_ssl c) (n_handshaking c) (n_want_read c) (n_want_write c) (n_want_close c) r w (n_timer c) (n_active c).
Definition intend (r w x : bool) (c : NConn) : NConn :=
  mkN (n_id c) (n_peer c) (n_ssl c) (n_handshaking c) r w x (tr_want_read c) (tr_want_write c) (n_timer c) (n_active c).
Definition shaking (b : bool) (c : NConn) : NConn :=
  mkN (n_id c) (n_peer c) (n_ssl c) b (n_want_read c) (n_want_write c) (n_want_close c) (tr_want_read c) (tr_want_write c) (n_timer c) (n_active c).
Definition attach (c : NConn) : NConn :=
  mkN (n_id c) (n_peer c) true (n_handshaking c) (n_want_read c) (n_want_write c) (n_want_close c) (tr_want_read c) (tr_want_write c) (n_timer c) (n_active c).

(** [conn_set_timer], as far as the connection's own fields go: the link to the
    master is left alone. *)
Definition set_timer (now : Z) (ty : ConnTimer) (c : NConn) : NConn :=
  match n_timer c with
  | None => c
  | Some _ => mkN (n_id c) (n_peer c) (n_ssl c) (n_handshaking c) (n_want_read c) (n_want_write c) (n_want_close c)
                (tr_want_read c) (tr_want_write c) (Some ty) now
  end.

(** ** The transport *)

(** What a socket call returns, and what OpenSSL's call and [SSL_get_error] do. *)
Inductive SysRet := SysBytes (n : nat) | SysAgain | SysErr.
Inductive SslRet := SslBytes (n : nat) | SslWantRead | SslWantWrite | SslZeroReturn | SslErr.

Definition ssl_result (o : SslRet) (c : NConn) : IoResult * nat * NConn :=
  match o with
  | SslBytes n => (IO_OK, n, c)
  | SslWantRead => (IO_WANT_READ, 0%nat, demand true false c)
  | SslWantWrite => (IO_WANT_WRITE, 0%nat, demand false true c)
  | SslZeroReturn => (IO_PEER_CLOSED, 0%nat, c)
  | SslErr => (IO_ERR, 0%nat, c)
  end.

Definition tr_read (sys : SysRet) (ssl : SslRet) (c : NConn) : IoResult * nat * NConn :=
  let c := demand false false c in
  if n_ssl c then ssl_result ssl c
  else
    match sys with
    | SysBytes O => (IO_PEER_CLOSED, 0%nat, c)
    | SysBytes n => (IO_OK, n, c)
    | SysAgain => (IO_WANT_READ, 0%nat, demand true false c)
    | SysErr => (IO_ERR, 0%nat, c)
    end.

Definition tr_write (sys : SysRet) (ssl : SslRet) (c : NConn) : IoResult * nat * NConn :=
  let c := demand false false c in
  if n_ssl c then ssl_result ssl c
  else
    match sys with
    | SysBytes n => (IO_OK, n, c)
    | SysAgain => (IO_WANT_WRITE, 0%nat, demand false true c)
    | SysErr => (IO_ERR, 0%nat, c)
    end.

(** The length asked of [SSL_write]. *)
Definition tls_chunk (len : Z) : Z := if INT32_MAX <? len then INT32_MAX else len.

Definition tr_has_pending (ssl_has_pending : bool) (c : NConn) : bool := if n_ssl c then ssl_has_pending else false.

Definition tr_handshake (ssl : SslRet) (c : NConn) : IoResult * NConn :=
  let c := demand false false c in
  match ssl with
  | SslBytes _ => (IO_OK, c)
  | SslWantRead => (IO_WANT_READ, demand true false c)
  | SslWantWrite => (IO_WANT_WRITE, demand false true c)
  | SslZeroReturn | SslErr => (IO_ERR, c)
  end.

Definition handle_tls_handshake (now : Z) (ssl : SslRet) (c : NConn) : NConn :=
  let '(r, c) := tr_handshake ssl c in
  match r with
  | IO_WANT_READ | IO_WANT_WRITE => c
  | IO_OK => set_timer now IO (intend true false (n_want_close c) (shaking false c))
  | _ => intend (n_want_read c) (n_want_write c) true c
  end.

(** ** The TLS context *)

(** Outcomes of the library calls of [tls_ctx_build], in order; a failure gives
    the library's text. *)
Record CtxCalls := mkCtx {
  ctx_new : option bytes; min_proto : option bytes; use_cert : option bytes; use_key : option bytes;
  key_matches : bool; load_ca : option bytes;
}.

Inductive VerifyMode := VERIFY_NONE | VERIFY_PEER | VERIFY_REQUIRED.

Definition tls_ctx_build (k : CtxCalls) (t : CTls) : VerifyMode + bytes :=
  if bool_decide (tls_cert_file t = []) || bool_decide (tls_key_file t = []) then
    inr (bs "tls-port is set but tls_cert_file/tls_key_file are missing")
  else if match tls_auth_clients t with TLS_NO => false | _ => bool_decide (tls_ca_cert_file t = []) end then
    inr (bs "tls_auth_clients needs tls_ca_cert_file to verify client certs")
  else
    match ctx_new k, min_proto k, use_cert k, use_key k with
    | Some e, _, _, _ => inr (bs "SSL_CTX_new: " ++ e)
    | None, Some e, _, _ => inr (bs "SSL_CTX_set_min_proto_version: " ++ e)
    | None, None, Some e, _ => inr (bs "loading tls-cert-file '" ++ tls_cert_file t ++ bs "': " ++ e)
    | None, None, None, Some e => inr (bs "loading tls-key-file '" ++ tls_key_file t ++ bs "': " ++ e)
    | None, None, None, None =>
        if negb (key_matches k) then inr (bs "tls-key-file does not match tls-cert-file")
        else
          match (if bool_decide (tls_ca_cert_file t = []) then None else load_ca k) with
          | Some e => inr (bs "loading tls-ca-cert-file '" ++ tls_ca_cert_file t ++ bs "': " ++ e)
          | None =>
              inl (match tls_auth_clients t with TLS_YES => VERIFY_REQUIRED | TLS_OPTIONAL => VERIFY_PEER | TLS_NO => VERIFY_NONE end)
          end
    end.

(** [g_tls_ctx] is what the last successful build left. *)
Definition tr_tls_init (k : CtxCalls) (t : CTls) : option VerifyMode + bytes :=
  if tls_port t =? 0 then inl None
  else match tls_ctx_build k t with inl m => inl (Some m) | inr e => inr e end.

Definition tr_tls_reload (k : CtxCalls) (t : CTls) (ctx : option VerifyMode) : option VerifyMode * option bytes :=
  match ctx with
  | None => (None, None)
  | Some _ => match tls_ctx_build k t with inl m => (Some m, None) | inr e => (ctx, Some e) end
  end.

(** ** The table of connections *)

(** What an observer sees. *)
Inductive Obs :=
| OAdmit (id host : Z) (tls : bool)
| ODial (id : Z)                        (* the link to a master *)
| ORefuse (peer : bytes) (reason : bytes) (told : bytes)
| OHandshook (id : Z)
| OServe (id : Z)                       (* handle_read or handle_write runs *)
| OClose (id : Z).

Record NetState := mkNS {
  fd2conn : list (option NConn);
  connected_clients : Z;                (* uint32_t *)
  total_connections : Z;
  next_conn_id : Z;
  trace : list Obs;
}.

Definition note (o : Obs) (s : NetState) : NetState :=
  mkNS (fd2conn s) (connected_clients s) (total_connections s) (next_conn_id s) (trace s ++ [o]).

Definition slot (fd : nat) (t : list (option NConn)) : option NConn := mjoin (t !! fd).
Definition at_fd (fd : nat) (s : NetState) : option NConn := slot fd (fd2conn s).

(** [resize] when the descriptor is beyond the end. *)
Definition table_put (fd : nat) (c : NConn) (t : list (option NConn)) : list (option NConn) :=
  <[fd := Some c]> (if (length t <=? fd)%nat then t ++ replicate (fd + 1 - length t) None else t).

Definition put_conn (fd : nat) (c : NConn) (s : NetState) : NetState :=
  mkNS (table_put fd c (fd2conn s)) (connected_clients s) (total_connections s) (next_conn_id s) (trace s).

(** [conn_destroy]; the other components forget the connection too. *)
Definition conn_destroy (fd : nat) (s : NetState) : NetState :=
  match at_fd fd s with
  | None => s
  | Some c => mkNS (<[fd := None]> (fd2conn s)) (u32 (connected_clients s - 1)) (total_connections s) (next_conn_id s)
                (trace s ++ [OClose (n_id c)])
  end.

Definition dotted (host port : Z) : bytes :=
  let o n := print_u64 (Z.land (Z.shiftr host n) 255) in
  o 24 ++ bs "." ++ o 16 ++ bs "." ++ o 8 ++ bs "." ++ o 0 ++ bs ":" ++ print_u64 port.

Definition msg_full : bytes := bs "-ERR max number of clients reached" ++ crlf.
Definition msg_denied : bytes :=
  bs "-DENIED MYRED is in protected mode with no password set. Connect from localhost, set 'requirepass', or 'protected-mode no'." ++ crlf.

(** [handle_accept] with what [accept4] returned, whether the TLS object could
    be attached, and the clock.  [None]: the assertion on the slot fails. *)
Definition handle_accept (cfg : Config) (now : Z) (is_tls attach_ok : bool) (a : option (nat * Z * Z)) (s : NetState) : option (Z * NetState) :=
  match a with
  | None => Some (-1, s)
  | Some (connfd, host, port) =>
      let peer := dotted host port in
      if u32 (maxclients (net cfg)) <=? connected_clients s then Some (0, note (ORefuse peer (bs "maxclients") msg_full) s)
      else if negb (ip_allowed (allowlist (net cfg)) host) then Some (0, note (ORefuse peer (bs "allowlist") []) s)
      else if protected_mode (net cfg) && bool_decide (password (sec cfg) = []) && negb (ip_is_loopback host) then
        Some (0, note (ORefuse peer (bs "protected-mode") msg_denied) s)
      else
        let c := mkN (next_conn_id s) peer false false true false false false false (Some IO) now in
        match at_fd connfd s with
        | Some _ => None
        | None =>
            let s := mkNS (table_put connfd c (fd2conn s)) (u32 (connected_clients s + 1)) (u64 (total_connections s + 1))
                       (u64 (next_conn_id s + 1)) (trace s ++ [OAdmit (n_id c) host is_tls]) in
            if negb is_tls then Some (0, s)
            else if negb attach_ok then Some (0, conn_destroy connfd s)
            else
              let c := demand true (tr_want_write c) (intend false (n_want_write c) (n_want_close c) (shaking true (attach c))) in
              Some (0, put_conn connfd (set_timer now HANDSHAKE c) s)
        end
  end.

(** The end of [repl_start]: the connection to the master enters the table. *)
Definition dial (fd : nat) (peer : bytes) (s : NetState) : option NetState :=
  match at_fd fd s with
  | Some _ => None
  | None =>
      let c := mkN (next_conn_id s) peer false false true true false false false None 0 in
      Some (mkNS (table_put fd c (fd2conn s)) (u32 (connected_clients s + 1)) (total_connections s) (u64 (next_conn_id s + 1))
              (trace s ++ [ODial (n_id c)]))
  end.

(** ** The loop *)

(** [pfd.events] beside POLLERR: input, output. *)
Definition poll_events (c : NConn) : bool * bool := (n_want_read c || tr_want_read c, n_want_write c || tr_want_write c).

(** A connection whose events are [rin], [rout] and [rerr]; [ssl] is what the
    handshake call would return and [path] what the read or write path leaves
    of the connection's flags. *)
Definition conn_ready (now : Z) (rin rout rerr : bool) (ssl : SslRet) (path : NConn -> NConn) (fd : nat) (s : NetState) : NetState :=
  match at_fd fd s with
  | None => s
  | Some c =>
      let c := match n_timer c with Some HANDSHAKE | None => c | Some ty => set_timer now ty c end in
      if n_handshaking c then
        let c' := if rin || rout then handle_tls_handshake now ssl c else c in
        let s := put_conn fd c' s in
        let s := if n_handshaking c' then s else note (OHandshook (n_id c)) s in
        if rerr || n_want_close c' then conn_destroy fd s else s
      else
        let runs := (rin || rout) && (n_want_read c || n_want_write c) in
        let c' := if runs then path c else c in
        let s := put_conn fd c' s in
        let s := if runs then note (OServe (n_id c)) s else s in
        if rerr || n_want_close c' then conn_destroy fd s else s
  end.

Inductive NEvent :=
| NAccept (now : Z) (is_tls attach_ok : bool) (a : option (nat * Z * Z))
| NDial (fd : nat) (peer : bytes)
| NReady (now : Z) (rin rout rerr : bool) (ssl : SslRet) (path : NConn -> NConn) (fd : nat)
| NClose (fd : nat).                    (* a timeout, CLIENT KILL, a role change, the end *)

Definition net_event (cfg : Config) (e : NEvent) (s : NetState) : option NetState :=
  match e with
  | NAccept now t ok a => snd <$> handle_accept cfg now t ok a s
  | NDial fd p => dial fd p s
  | NReady now i o r ssl path fd => Some (conn_ready now i o r ssl path fd s)
  | NClose fd => Some (conn_destroy fd s)
  end.

Fixpoint net_run (cfg : Config) (evs : list NEvent) (s : NetState) : option NetState :=
  match evs with
  | [] => Some s
  | e :: evs => match net_event cfg e s with Some s => net_run cfg evs s | None => None end
  end.

Definition net0 : NetState := mkNS [] 0 0 1 [].

(** ** The table *)

Fixpoint live (t : list (option NConn)) : Z :=
  match t with [] => 0 | Some _ :: t => 1 + live t | None :: t => live t end.

Definition one (o : option NConn) : Z := match o with Some _ => 1 | None => 0 end.

Lemma live_app t u : live (t ++ u) = live t + live u.
Proof. induction t as [|[c|] t IH]; cbn [app live]; lia. Qed.

Lemma live_none n : live (replicate n None) = 0.
Proof. induction n as [|n IH]; [done|]. cbn [replicate live]. done. Qed.

Lemma live_insert t fd o : (fd < length t)%nat ->
  live (<[fd := o]> t) = live t - one (slot fd t) + one o.
Proof.
  revert fd. induction t as [|x t IH]; intros fd Hf; [cbn in Hf; lia|]. destruct fd as [|fd].
  - change (slot 0 (x :: t)) with x. destruct x, o; cbn; lia.
  - change (slot (S fd) (x :: t)) with (slot fd t). change (<[S fd := o]> (x :: t)) with (x :: <[fd := o]> t).
    cbn in Hf. destruct x; cbn [live]; rewrite IH by lia; lia.
Qed.

Lemma live_bounds t : 0 <= live t <= Z.of_nat (length t).
Proof. induction t as [|[c|] t IH]; cbn [live length]; lia. Qed.

Definition slots (fd : nat) (t : list (option NConn)) : list (option NConn) :=
  if (length t <=? fd)%nat then t ++ replicate (fd + 1 - length t) None else t.

Lemma slots_spec fd t : (fd < length (slots fd t))%nat /\ live (slots fd t) = live t /\
  (length (slots fd t) = Nat.max (length t) (fd + 1))%nat /\ forall fd', slot fd' (slots fd t) = slot fd' t.
Proof.
  unfold slots. destruct (Nat.leb_spec (length t) fd) as [Hle|Hlt]; [|split_and!; try done; lia].
  rewrite length_app, length_replicate, live_app, live_none. split_and!; [lia|lia|lia|]. intros fd'. unfold slot.
  destruct (decide (fd' < length t)%nat) as [H|H]; [by rewrite lookup_app_l|].
  rewrite lookup_app_r by lia. rewrite (lookup_ge_None_2 t fd') by lia. cbn.
  destruct (replicate _ None !! (fd' - length t)%nat) as [o|] eqn:E; [|done]. apply lookup_replicate in E as [-> _]. done.
Qed.

Lemma table_put_spec fd c t :
  live (table_put fd c t) = live t + (1 - one (slot fd t)) /\
  (length (table_put fd c t) = Nat.max (length t) (fd + 1))%nat /\
  forall fd', slot fd' (table_put fd c t) = if decide (fd' = fd) then Some c else slot fd' t.
Proof.
  destruct (slots_spec fd t) as (S1 & S2 & S3 & S4). unfold table_put. fold (slots fd t). split_and!.
  - rewrite live_insert by done. rewrite S2, S4. unfold one; destruct (slot fd t); lia.
  - by rewrite length_insert.
  - intros fd'. unfold slot. destruct (decide (fd' = fd)) as [->|Hne]; [by rewrite list_lookup_insert_eq|].
    rewrite list_lookup_insert_ne by done. apply (S4 fd').
Qed.

(** ** What the trace promises *)

Fixpoint opened (t : list Obs) : Z :=
  match t with
  | [] => 0
  | (OAdmit _ _ _ | ODial _) :: t => 1 + opened t
  | OClose _ :: t => opened t - 1
  | _ :: t => opened t
  end.

Lemma opened_app t u : opened (t ++ u) = opened t + opened u.
Proof. induction t as [|[] t IH]; cbn [app opened]; lia. Qed.

(** The gates for a remote host. *)
Definition admissible (cfg : Config) (host : Z) : Prop :=
  ip_allowed (allowlist (net cfg)) host = true /\
  (protected_mode (net cfg) = true -> password (sec cfg) = [] -> ip_is_loopback host = true).

Definition allowed_next (cfg : Config) (t : list Obs) (o : Obs) : Prop :=
  match o with
  | OAdmit _ host _ => admissible cfg host /\ opened t < u32 (maxclients (net cfg))
  | OServe id => forall host, OAdmit id host true ∈ t -> OHandshook id ∈ t
  | _ => True
  end.

Definition trace_ok (cfg : Config) (t : list Obs) : Prop := forall t1 o t2, t = t1 ++ o :: t2 -> allowed_next cfg t1 o.

Lemma trace_ok_snoc cfg t o : trace_ok cfg t -> allowed_next cfg t o -> trace_ok cfg (t ++ [o]).
Proof.
  intros Ht Ho t1 o' t2 E. destruct t2 as [|y t2 _] using rev_ind.
  - apply app_inj_tail in E as [-> ->]. done.
  - rewrite app_comm_cons, app_assoc in E. apply app_inj_tail in E as [-> _]. by eapply Ht.
Qed.

Record conn_ok (s : NetState) (c : NConn) : Prop := {
  ck_id : n_id c < next_conn_id s;
  ck_tls : forall host tls, OAdmit (n_id c) host tls ∈ trace s -> tls = n_ssl c;
  ck_hs : n_handshaking c = true -> n_ssl c = true /\ n_timer c = Some HANDSHAKE /\ n_want_read c = false /\ n_want_write c = false;
  ck_shook : n_ssl c = true -> n_handshaking c = false -> OHandshook (n_id c) ∈ trace s;
}.

Record net_inv (cfg : Config) (s : NetState) : Prop := {
  ni_count : connected_clients s = live (fd2conn s);
  ni_opened : opened (trace s) = live (fd2conn s);
  ni_len : Z.of_nat (length (fd2conn s)) <= 2 ^ 31;
  ni_conns : forall fd c, at_fd fd s = Some c -> conn_ok s c;
  ni_ids : forall id host tls, OAdmit id host tls ∈ trace s -> id < next_conn_id s;
  ni_trace : trace_ok cfg (trace s);
}.

Lemma conn_ok_more s s' c :
  conn_ok s c -> next_conn_id s <= next_conn_id s' ->
  (forall o, o ∈ trace s -> o ∈ trace s') ->
  (forall host tls, OAdmit (n_id c) host tls ∈ trace s' -> OAdmit (n_id c) host tls ∈ trace s) -> conn_ok s' c.
Proof. intros [H1 H2 H3 H4] Hn Ht Ha. split; [lia|eauto|done|eauto]. Qed.

(** ** Every event keeps the invariant *)

Lemma at_fd_length fd s c : at_fd fd s = Some c -> (fd < length (fd2conn s))%nat.
Proof. unfold at_fd, slot. intros H. apply lookup_lt_is_Some. destruct (fd2conn s !! fd); [by eexists|done]. Qed.

Lemma destroy_inv cfg fd s : net_inv cfg s -> net_inv cfg (conn_destroy fd s).
Proof.
  intros [H1 H2 H3 H4 H5 H6]. unfold conn_destroy. destruct (at_fd fd s) as [c|] eqn:E; [|done].
  pose proof (at_fd_length _ _ _ E) as Hl. pose proof (live_insert (fd2conn s) fd None Hl) as L.
  pose proof (live_bounds (fd2conn s)) as B. pose proof (live_bounds (<[fd := None]> (fd2conn s))) as B'.
  unfold at_fd in E. rewrite E in L. cbn [one] in L. split; cbn [connected_clients fd2conn trace next_conn_id].
  - rewrite L, H1. unfold u32. rewrite Z.mod_small; lia.
  - rewrite opened_app. cbn [opened]. lia.
  - by rewrite length_insert.
  - intros fd' c' Hc'. unfold at_fd, slot in Hc'. cbn in Hc'. destruct (decide (fd' = fd)) as [->|Hne].
    { by rewrite list_lookup_insert_eq in Hc'. }
    rewrite list_lookup_insert_ne in Hc' by done. apply (conn_ok_more s); [by apply (H4 fd')|done| |]; cbn; set_solver.
  - set_solver.
  - by apply trace_ok_snoc.
Qed.

(** A connection changes, and at most one thing is noted that opens or closes
    nothing. *)
Lemma renew_inv cfg fd c c' os s :
  net_inv cfg s -> at_fd fd s = Some c -> n_id c' = n_id c -> n_ssl c' = n_ssl c ->
  (os = [] \/ os = [OHandshook (n_id c)] \/ os = [OServe (n_id c)] /\ n_handshaking c = false) ->
  (n_handshaking c' = true -> n_timer c' = Some HANDSHAKE /\ n_want_read c' = false /\ n_want_write c' = false /\ n_ssl c = true) ->
  (n_handshaking c' = false -> n_handshaking c = false \/ os = [OHandshook (n_id c)]) ->
  net_inv cfg (mkNS (table_put fd c' (fd2conn s)) (connected_clients s) (total_connections s) (next_conn_id s) (trace s ++ os)).
Proof.
  intros [H1 H2 H3 H4 H5 H6] Ec Hid Hssl Hos Hhs Hdone. destruct (table_put_spec fd c' (fd2conn s)) as (L1 & L2 & L3).
  pose proof (at_fd_length _ _ _ Ec) as Hl. pose proof (H4 _ _ Ec) as [K1 K2 K3 K4].
  unfold at_fd in Ec. rewrite Ec in L1. cbn [one] in L1.
  assert (Hadm : forall id h t, OAdmit id h t ∈ trace s ++ os -> OAdmit id h t ∈ trace s) by (destruct Hos as [->|[->|[-> _]]]; set_solver).
  assert (Hopen : opened os = 0) by (by destruct Hos as [->|[->|[-> _]]]).
  split; cbn [connected_clients fd2conn trace next_conn_id].
  - lia.
  - rewrite opened_app. lia.
  - lia.
  - intros fd' x Hx. unfold at_fd in Hx. cbn in Hx. rewrite L3 in Hx. destruct (decide (fd' = fd)) as [->|Hne].
    + injection Hx as <-. split; cbn; rewrite ?Hid; [done| | |].
      * intros h t Ht. rewrite Hssl. eauto.
      * intros Hx. rewrite Hssl. by destruct (Hhs Hx) as (? & ? & ? & ?).
      * intros Hx Hy. rewrite Hssl in Hx. destruct (Hdone Hy) as [Hc| ->]; set_solver.
    + apply (conn_ok_more s); [by apply (H4 fd')|done|cbn; set_solver|cbn; eauto].
  - eauto.
  - destruct Hos as [->|[->|[-> Hn]]]; [by rewrite app_nil_r|by apply trace_ok_snoc|]. apply trace_ok_snoc; [done|].
    intros h Hh. pose proof (K2 _ _ Hh) as E. by apply K4.
Qed.

Lemma note_put o fd c s : note o (put_conn fd c s) =
  mkNS (table_put fd c (fd2conn s)) (connected_clients s) (total_connections s) (next_conn_id s) (trace s ++ [o]).
Proof. done. Qed.

Lemma put_nil fd c s : put_conn fd c s =
  mkNS (table_put fd c (fd2conn s)) (connected_clients s) (total_connections s) (next_conn_id s) (trace s ++ []).
Proof. unfold put_conn. by rewrite app_nil_r. Qed.

(** A connection that enters the table. *)
Lemma enter_inv cfg fd c o s total :
  net_inv cfg s -> at_fd fd s = None -> Z.of_nat fd < 2 ^ 31 -> next_conn_id s < 2 ^ 64 - 1 -> 0 <= next_conn_id s ->
  n_id c = next_conn_id s -> opened [o] = 1 -> allowed_next cfg (trace s) o ->
  (forall id h t, OAdmit id h t ∈ [o] -> id = next_conn_id s /\ t = n_ssl c) ->
  (n_handshaking c = true -> n_ssl c = true /\ n_timer c = Some HANDSHAKE /\ n_want_read c = false /\ n_want_write c = false) ->
  (n_ssl c = true -> n_handshaking c = true) ->
  net_inv cfg (mkNS (table_put fd c (fd2conn s)) (u32 (connected_clients s + 1)) total (u64 (next_conn_id s + 1)) (trace s ++ [o])).
Proof.
  intros [H1 H2 H3 H4 H5 H6] Ec Hfd Hn Hn0 Hid Hop Hal Hadm Hhs Hssl. destruct (table_put_spec fd c (fd2conn s)) as (L1 & L2 & L3).
  pose proof (live_bounds (fd2conn s)) as B. unfold at_fd in Ec. rewrite Ec in L1. cbn [one] in L1.
  assert (Eid : u64 (next_conn_id s + 1) = next_conn_id s + 1) by (apply Z.mod_small; lia).
  split; cbn [connected_clients fd2conn trace next_conn_id]; rewrite ?Eid.
  - unfold u32. rewrite Z.mod_small; lia.
  - rewrite opened_app. lia.
  - lia.
  - intros fd' x Hx. unfold at_fd in Hx. cbn in Hx. rewrite L3 in Hx. destruct (decide (fd' = fd)) as [->|Hne].
    + injection Hx as <-. split; cbn; rewrite ?Eid, ?Hid; [lia| |done|].
      * intros h t [Ht|Ht]%elem_of_app; [apply H5 in Ht; lia|]. by destruct (Hadm _ _ _ Ht).
      * intros Hs Hf. rewrite Hssl in Hf by done. done.
    + pose proof (H4 _ _ Hx) as K. apply (conn_ok_more s); [done|cbn; lia|cbn; set_solver|]. cbn.
      intros h t [Ht|Ht]%elem_of_app; [done|]. destruct (Hadm _ _ _ Ht) as [E _]. pose proof (ck_id _ _ K). lia.
  - intros id h t [Ht|Ht]%elem_of_app; [apply H5 in Ht; lia|]. destruct (Hadm _ _ _ Ht). lia.
  - by apply trace_ok_snoc.
Qed.

Lemma table_put_again fd c c' t : table_put fd c' (table_put fd c t) = table_put fd c' t.
Proof.
  destruct (table_put_spec fd c t) as (_ & L & _). unfold table_put at 1. rewrite L, (proj2 (Nat.leb_gt _ _)) by lia.
  unfold table_put. by rewrite list_insert_insert_eq.
Qed.

(** A connection that is closed at once: only its number matters. *)
Lemma destroy_same fd c c' t a b n tr : n_id c = n_id c' ->
  conn_destroy fd (mkNS (table_put fd c t) a b n tr) = conn_destroy fd (mkNS (table_put fd c' t) a b n tr).
Proof.
  intros E. destruct (table_put_spec fd c t) as (_ & _ & L). destruct (table_put_spec fd c' t) as (_ & _ & L').
  unfold conn_destroy, at_fd. cbn [fd2conn]. rewrite L, L', !decide_True by done. cbn. rewrite E. f_equal.
  unfold table_put. by rewrite !list_insert_insert_eq.
Qed.

Lemma accept_inv cfg now is_tls ok a s r s' :
  net_inv cfg s -> (forall fd h p, a = Some (fd, h, p) -> Z.of_nat fd < 2 ^ 31) -> 0 <= next_conn_id s < 2 ^ 64 - 1 ->
  handle_accept cfg now is_tls ok a s = Some (r, s') -> net_inv cfg s'.
Proof.
  intros Hi Hfd Hn H. unfold handle_accept in H. destruct a as [[[fd host] port]|]; [|by injection H as <- <-].
  specialize (Hfd _ _ _ eq_refl).
  assert (Href : forall p w t, net_inv cfg (note (ORefuse p w t) s)).
  { intros p w t. destruct Hi as [H1 H2 H3 H4 H5 H6]. split; cbn; [done| |done| | |].
    - rewrite opened_app. cbn. lia.
    - intros fd' c Hc. apply (conn_ok_more s); [by apply (H4 fd')|done|cbn; set_solver|cbn; set_solver].
    - set_solver.
    - by apply trace_ok_snoc. }
  destruct (u32 _ <=? _) eqn:Em; [injection H as <- <-; apply Href|]. destruct (ip_allowed _ _) eqn:Ei; cbn [negb] in H; [|injection H as <- <-; apply Href].
  destruct (protected_mode _ && _ && _) eqn:Ep; [injection H as <- <-; apply Href|].
  destruct (at_fd fd s) eqn:Ef; [done|]. cbn [n_id] in H.
  assert (Hal : forall t, allowed_next cfg (trace s) (OAdmit (next_conn_id s) host t)).
  { intros t. split; [split; [done|]|].
    - intros Hp Hw. rewrite Hp, Hw in Ep. cbn in Ep. by destruct (ip_is_loopback host).
    - rewrite (ni_opened _ _ Hi), <- (ni_count _ _ Hi). apply Z.leb_gt in Em. lia. }
  set (c := mkN _ _ _ _ _ _ _ _ _ _ _) in H.
  set (c2 := set_timer now HANDSHAKE (demand true (tr_want_write c) (intend false (n_want_write c) (n_want_close c) (shaking true (attach c))))) in H.
  destruct is_tls; cbn [negb] in H.
  - assert (Hin : net_inv cfg (mkNS (table_put fd c2 (fd2conn s)) (u32 (connected_clients s + 1)) (u64 (total_connections s + 1))
                                (u64 (next_conn_id s + 1)) (trace s ++ [OAdmit (next_conn_id s) host true]))).
    { apply enter_inv; try done; [lia|lia|]. intros id h t Ht. apply list_elem_of_singleton in Ht. by injection Ht as -> _ ->. }
    destruct ok; cbn [negb] in H; injection H as <- <-.
    + unfold put_conn. cbn [fd2conn connected_clients total_connections next_conn_id trace]. by rewrite table_put_again.
    + rewrite (destroy_same fd c c2) by done. by apply destroy_inv.
  - injection H as <- <-. apply enter_inv; try done; [lia|lia|]. intros id h t Ht. apply list_elem_of_singleton in Ht. by injection Ht as -> _ ->.
Qed.

Lemma dial_inv cfg fd peer s s' :
  net_inv cfg s -> Z.of_nat fd < 2 ^ 31 -> 0 <= next_conn_id s < 2 ^ 64 - 1 -> dial fd peer s = Some s' -> net_inv cfg s'.
Proof.
  intros Hi Hfd Hn H. unfold dial in H. destruct (at_fd fd s) eqn:Ef; [done|]. injection H as <-.
  apply enter_inv; try done; [lia|lia|]. intros id h t Ht. by apply list_elem_of_singleton in Ht.
Qed.

(** What the data path may do to a connection's own fields. *)
Definition path_ok (path : NConn -> NConn) : Prop :=
  forall c, n_id (path c) = n_id c /\ n_ssl (path c) = n_ssl c /\ n_handshaking (path c) = n_handshaking c.

Lemma set_timer_same now ty c : n_id (set_timer now ty c) = n_id c /\ n_ssl (set_timer now ty c) = n_ssl c /\ n_handshaking (set_timer now ty c) = n_handshaking c.
Proof. unfold set_timer. by destruct (n_timer c). Qed.

(** The handshake: done, or still gated with the deadline untouched. *)
Lemma handshake_spec now ssl c :
  n_handshaking c = true -> n_timer c = Some HANDSHAKE -> n_want_read c = false -> n_want_write c = false ->
  let c' := handle_tls_handshake now ssl c in
  n_id c' = n_id c /\ n_ssl c' = n_ssl c /\
  (n_handshaking c' = true -> n_timer c' = Some HANDSHAKE /\ n_active c' = n_active c /\ n_want_read c' = false /\ n_want_write c' = false) /\
  (n_handshaking c' = true \/ exists n, ssl = SslBytes n).
Proof.
  intros Hh Ht Hr Hw. unfold handle_tls_handshake, tr_handshake, set_timer. destruct ssl; cbn; rewrite ?Hh, ?Ht, ?Hr, ?Hw; cbn; split_and!; try done; auto.
  right. by eexists.
Qed.

Lemma ready_inv cfg now rin rout rerr ssl path fd s :
  net_inv cfg s -> path_ok path -> net_inv cfg (conn_ready now rin rout rerr ssl path fd s).
Proof.
  intros Hi Hp. unfold conn_ready. destruct (at_fd fd s) as [c0|] eqn:Ec; [|done].
  set (c := match n_timer c0 with Some HANDSHAKE | None => c0 | Some ty => set_timer now ty c0 end).
  assert (Hc : n_id c = n_id c0 /\ n_ssl c = n_ssl c0 /\ n_handshaking c = n_handshaking c0).
  { unfold c. destruct (n_timer c0) as [[]|]; try done; apply set_timer_same. }
  assert (Hsame : n_handshaking c0 = true -> c = c0).
  { intros Hh. destruct (ck_hs _ _ (ni_conns _ _ Hi _ _ Ec) Hh) as (_ & Ht & _). unfold c. by rewrite Ht. }
  destruct Hc as (C1 & C2 & C3). clearbody c.
  assert (Hfin : forall b s1, net_inv cfg s1 -> net_inv cfg (if b : bool then conn_destroy fd s1 else s1)).
  { intros [] s1 H1; [by apply destroy_inv|done]. }
  rewrite C3. destruct (n_handshaking c0) eqn:Eh.
  - rewrite (Hsame eq_refl) in *. destruct (ck_hs _ _ (ni_conns _ _ Hi _ _ Ec) Eh) as (K1 & K2 & K3 & K4). apply Hfin.
    destruct (rin || rout).
    + destruct (handshake_spec now ssl c0 Eh K2 K3 K4) as (S1 & S2 & S3 & _). cbn zeta in *.
      set (c' := handle_tls_handshake now ssl c0) in *. clearbody c'. destruct (n_handshaking c') eqn:Eh'.
      * rewrite put_nil. apply (renew_inv cfg fd c0); auto; [|congruence]. intros _. destruct (S3 eq_refl) as (? & ? & ? & ?). done.
      * rewrite note_put. apply (renew_inv cfg fd c0); auto. congruence.
    + rewrite Eh. rewrite put_nil. apply (renew_inv cfg fd c0); auto; congruence.
  - apply Hfin. set (runs := (rin || rout) && _). destruct runs.
    + destruct (Hp c) as (P1 & P2 & P3). rewrite note_put, C1.
      apply (renew_inv cfg fd c0); auto; congruence.
    + rewrite put_nil. apply (renew_inv cfg fd c0); auto; congruence.
Qed.

Definition event_ok (e : NEvent) : Prop :=
  match e with
  | NAccept _ _ _ (Some (fd, _, _)) | NDial fd _ => Z.of_nat fd < 2 ^ 31
  | NReady _ _ _ _ _ path _ => path_ok path
  | _ => True
  end.

Lemma destroy_next fd s : next_conn_id (conn_destroy fd s) = next_conn_id s.
Proof. unfold conn_destroy. by destruct (at_fd fd s). Qed.

Lemma event_next cfg e s s' : net_event cfg e s = Some s' -> next_conn_id s' = next_conn_id s \/ next_conn_id s' = u64 (next_conn_id s + 1).
Proof.
  destruct e as [now t ok a|fd p|now i o r ssl path fd|fd]; cbn [net_event]; intros H.
  - destruct (handle_accept cfg now t ok a s) as [[r s1]|] eqn:E; [|done]. injection H as <-. cbn.
    unfold handle_accept in E. destruct a as [[[fd host] port]|]; [|injection E as <- <-; by left].
    destruct (u32 _ <=? _); [injection E as <- <-; by left|]. destruct (negb (ip_allowed _ _)); [injection E as <- <-; by left|].
    destruct (_ && _ && _); [injection E as <- <-; by left|]. destruct (at_fd fd s); [done|]. right.
    destruct (negb t); [by injection E as <- <-|]. destruct (negb ok); injection E as <- <-; [by rewrite destroy_next|done].
  - unfold dial in H. destruct (at_fd fd s); [done|]. injection H as <-. by right.
  - injection H as <-. left. unfold conn_ready. destruct (at_fd fd s) as [c|]; [|done].
    assert (Hfin : forall (b : bool) s1, next_conn_id (if b then conn_destroy fd s1 else s1) = next_conn_id s1).
    { intros [] s1; [apply destroy_next|done]. }
    destruct (n_handshaking _); rewrite Hfin.
    + by destruct (n_handshaking _).
    + by destruct (_ && _).
  - injection H as <-. left. apply destroy_next.
Qed.

Lemma run_net_inv cfg evs : forall s s',
  net_inv cfg s -> Forall event_ok evs -> 0 <= next_conn_id s -> next_conn_id s + Z.of_nat (length evs) < 2 ^ 64 - 1 ->
  net_run cfg evs s = Some s' -> net_inv cfg s'.
Proof.
  induction evs as [|e evs IH]; intros s s' Hi Hev H0 Hn H; [by injection H as <-|].
  apply Forall_cons in Hev as [He Hev]. cbn [net_run length] in H, Hn. destruct (net_event cfg e s) as [s1|] eqn:E; [|done].
  assert (Hnext : next_conn_id s <= next_conn_id s1 <= next_conn_id s + 1).
  { destruct (event_next _ _ _ _ E) as [->| ->]; [lia|]. unfold u64. rewrite Z.mod_small; lia. }
  apply (IH s1); [|done|lia|lia|done]. destruct e as [now t ok a|fd p|now i o r ssl path fd|fd]; cbn [net_event event_ok] in *.
  - destruct (handle_accept cfg now t ok a s) as [[r s2]|] eqn:Ea; [|done]. injection E as <-.
    apply (accept_inv cfg now t ok a s r s2); [done| |lia|done]. intros fd h p ->. done.
  - apply (dial_inv cfg fd p s); [done..|lia|done].
  - injection E as <-. by apply ready_inv.
  - injection E as <-. by apply destroy_inv.
Qed.

(** C23: The gates of a connection.  Whatever sequence of accepts on plain and
    TLS sockets, links to masters, readiness events with any outcome of the
    handshake and of the read and write paths, and closings: the client
    counter is the number of connections in the table; every client that was
    let in came from an allowed address, not from outside while protected
    mode is on without a password, and found fewer than maxclients
    connections open; and no request of a TLS connection is read before its
    handshake has finished, until which it is polled for what the handshake
    asks and nothing else, under the deadline set when it was accepted. *)
Theorem connection_gates (cfg : Config) (evs : list NEvent) (s : NetState)
    (Hev : Forall event_ok evs) (Hlen : Z.of_nat (length evs) < 2 ^ 63) (Hrun : net_run cfg evs net0 = Some s) :
  connected_clients s = live (fd2conn s) /\
  (forall t1 id host tls t2, trace s = t1 ++ OAdmit id host tls :: t2 ->
     ip_allowed (allowlist (net cfg)) host = true /\
     (protected_mode (net cfg) = true -> password (sec cfg) = [] -> ip_is_loopback host = true) /\
     opened t1 < u32 (maxclients (net cfg))) /\
  (forall t1 id t2 host, trace s = t1 ++ OServe id :: t2 -> OAdmit id host true ∈ t1 -> OHandshook id ∈ t1) /\
  (forall fd c, at_fd fd s = Some c -> n_handshaking c = true ->
     poll_events c = (tr_want_read c, tr_want_write c) /\ n_timer c = Some HANDSHAKE /\
     forall now rin rout ssl path, let s' := conn_ready now rin rout false ssl path fd s in
       forall c', at_fd fd s' = Some c' -> n_handshaking c' = true -> n_active c' = n_active c).
Proof.
  assert (H0 : net_inv cfg net0).
  { split; cbn; try done; try set_solver. intros t1 o t2 E. by destruct t1. }
  pose proof (run_net_inv cfg evs net0 s H0 Hev ltac:(cbn; lia) ltac:(cbn; lia) Hrun) as Hi. split_and!.
  - apply Hi.
  - intros t1 id host tls t2 E. destruct (ni_trace _ _ Hi _ _ _ E) as [[G1 G2] G3]. done.
  - intros t1 id t2 host E. apply (ni_trace _ _ Hi _ _ _ E).
  - intros fd c Ec Hh. destruct (ck_hs _ _ (ni_conns _ _ Hi _ _ Ec) Hh) as (K1 & K2 & K3 & K4). split_and!.
    + unfold poll_events. by rewrite K3, K4.
    + done.
    + cbn zeta. intros now rin rout ssl path c' Hc' Hh'. unfold conn_ready in Hc'. rewrite Ec, K2, Hh in Hc'. cbn [orb] in Hc'.
      set (d := if rin || rout then _ else c) in Hc'.
      assert (Hd : n_handshaking d = true -> n_active d = n_active c).
      { unfold d. destruct (rin || rout); [|done]. by apply (handshake_spec now ssl c Hh K2 K3 K4). }
      clearbody d. destruct (table_put_spec fd d (fd2conn s)) as (_ & _ & L). specialize (L fd). rewrite decide_True in L by done.
      assert (Hd' : d = c').
      { destruct (n_handshaking d), (n_want_close d); unfold conn_destroy, at_fd in Hc'; cbn [note put_conn fd2conn] in Hc';
          rewrite L in Hc'; cbn in Hc'; try (by injection Hc'); unfold slot in Hc'; rewrite list_lookup_insert_eq in Hc'; try done;
          destruct (table_put_spec fd d (fd2conn s)) as (_ & Ln & _); rewrite Ln; lia. }
      subst. by apply Hd.
Qed.

(** A plain client and a TLS client from the local machine: the second is ready
    before and after its handshake; a third is refused from outside. *)
Definition demo_net : list NEvent :=
  [NAccept 10 false true (Some (7%nat, 2130706433, 5000)); NAccept 11 true true (Some (8%nat, 2130706433, 5001));
   NReady 12 true false false SslWantWrite id 8; NReady 13 false true false (SslBytes 1) id 8; NReady 14 true false false SslErr id 8;
   NAccept 15 false true (Some (9%nat, 134744072, 5002)); NReady 16 true false false SslErr id 7; NClose 7].
Definition demo_net_end : NetState := default net0 (net_run config_default demo_net net0).

Example demo_net_trace : trace demo_net_end =
  [OAdmit 1 2130706433 false; OAdmit 2 2130706433 true; OHandshook 2; OServe 2;
   ORefuse (bs "8.8.8.8:5002") (bs "protected-mode") msg_denied; OServe 1; OClose 1].
Proof. vm_compute. reflexivity. Qed.

Lemma connection_gates_witness :
  connected_clients demo_net_end = live (fd2conn demo_net_end) /\
  (forall t1 id host tls t2, trace demo_net_end = t1 ++ OAdmit id host tls :: t2 ->
     ip_allowed (allowlist (net config_default)) host = true /\
     (protected_mode (net config_default) = true -> password (sec config_default) = [] -> ip_is_loopback host = true) /\
     opened t1 < u32 (maxclients (net config_default))) /\
  (forall t1 id t2 host, trace demo_net_end = t1 ++ OServe id :: t2 -> OAdmit id host true ∈ t1 -> OHandshook id ∈ t1).
Proof.
  destruct (connection_gates config_default demo_net demo_net_end) as (H1 & H2 & H3 & _).
  - repeat (apply Forall_cons; split); try done; cbn; lia.
  - cbn. lia.
  - vm_compute. reflexivity.
  - split_and!; [exact H1|exact H2|exact H3].
Defined.

(** ** Certificates *)

(** A reload either keeps the context in use, or replaces it by one built from
    the configuration: with a certificate and its own key, and asking clients
    for certificates exactly as configured. *)
Lemma tls_reload_exact k t m :
  match tr_tls_reload k t (Some m) with
  | (ctx, Some _) => ctx = Some m
  | (ctx, None) =>
      tls_cert_file t <> [] /\ tls_key_file t <> [] /\ key_matches k = true /\
      ctx = Some (match tls_auth_clients t with TLS_YES => VERIFY_REQUIRED | TLS_OPTIONAL => VERIFY_PEER | TLS_NO => VERIFY_NONE end) /\
      (tls_auth_clients t <> TLS_NO -> tls_ca_cert_file t <> [] /\ load_ca k = None)
  end.
Proof.
  unfold tr_tls_reload, tls_ctx_build. case_bool_decide as H1; [done|]. case_bool_decide as H2; [done|]. cbn [orb].
  destruct (tls_auth_clients t) eqn:Ea; (try case_bool_decide as H3); try done;
    destruct (ctx_new k), (min_proto k), (use_cert k), (use_key k); try done; destruct (key_matches k); try done; cbn [negb];
    (try case_bool_decide); try done; destruct (load_ca k) eqn:El; try done; by split_and!.
Qed.
