(* ===== verification/Mailbox.v ===== *)
(** * Handing work back to the loop (src/src/server/server.cpp 121-143, 1325-1338)

    Worker threads push a completion under a mutex and then write to an
    eventfd; the loop, woken by it, reads the counter back to zero, swaps the
    queue out under the mutex and runs what it took.  The push and the swap are
    the critical sections and are one step each; everything else interleaves. *)
From S2P Require Import Prelude.

(** Where the main thread stands: in poll, before and after the read of the
    eventfd, and running the jobs it took. *)
Inductive MainPc := MPoll | MRead | MSwap | MRun.

Record Mail := mkMail {
  pc : MainPc;
  efd : Z;                      (* the counter of the eventfd *)
  g_loop_jobs : list nat;
  jobs : list nat;              (* the local vector of loop_drain *)
  writers : list nat;           (* workers between the unlock and the write, by job *)
  posted : list nat;            (* every job posted, in the order of the mutex *)
  ran : list nat;               (* every job run, in order *)
}.

Definition mail0 : Mail := mkMail MPoll 0 [] [] [] [] [].

Inductive mstep : Mail -> Mail -> Prop :=
(* loop_post: push_back under the lock *)
| m_push p e q l ws po ra j : mstep (mkMail p e q l ws po ra) (mkMail p e (q ++ [j]) l (ws ++ [j]) (po ++ [j]) ra)
(* loop_post: write(g_loop_efd, 1), by any worker that has pushed *)
| m_write p e q l ws1 j ws2 po ra : mstep (mkMail p e q l (ws1 ++ j :: ws2) po ra) (mkMail p (e + 1) q l (ws1 ++ ws2) po ra)
(* poll returns with POLLIN on the eventfd *)
| m_wake e q ws po ra : 0 < e -> mstep (mkMail MPoll e q [] ws po ra) (mkMail MRead e q [] ws po ra)
(* poll returns for another reason: the turn of the loop passes *)
| m_turn e q ws po ra : mstep (mkMail MPoll e q [] ws po ra) (mkMail MPoll e q [] ws po ra)
(* loop_drain: read clears the counter *)
| m_read e q ws po ra : mstep (mkMail MRead e q [] ws po ra) (mkMail MSwap 0 q [] ws po ra)
(* loop_drain: swap under the lock *)
| m_swap e q ws po ra : mstep (mkMail MSwap e q [] ws po ra) (mkMail MRun e [] q ws po ra)
(* loop_drain: one job after the other, outside the lock *)
| m_run e q j l ws po ra : mstep (mkMail MRun e q (j :: l) ws po ra) (mkMail MRun e q l ws po (ra ++ [j]))
| m_done e q ws po ra : mstep (mkMail MRun e q [] ws po ra) (mkMail MPoll e q [] ws po ra).

Definition reachable : Mail -> Prop := rtc mstep mail0.

(** The queue holds something the loop has not been told of only while it is
    between its read and its swap. *)
Record mail_inv (s : Mail) : Prop := {
  mi_efd : 0 <= efd s;
  mi_order : posted s = ran s ++ jobs s ++ g_loop_jobs s;
  mi_idle : pc s <> MRun -> jobs s = [];
  mi_awake : pc s = MRead -> 0 < efd s;
  mi_told : pc s <> MSwap -> g_loop_jobs s <> [] -> 0 < efd s \/ writers s <> [];
}.

Lemma mail_inv_step s s' : mail_inv s -> mstep s s' -> mail_inv s'.
Proof.
  intros [H1 H2 H3 H5 H4] Hs. destruct Hs; cbn in *.
  - split; cbn; [done|by rewrite H2, <- !app_assoc|done|done|]. intros _ _. right. by destruct ws.
  - split; cbn; [lia|done|done|lia|]. intros _ _. left. lia.
  - split; cbn; auto; done.
  - by split.
  - split; cbn; try done; lia.
  - split; cbn; [done|by rewrite H2, app_nil_r|done|done|done].
  - split; cbn; [done|by rewrite H2, <- !app_assoc|done|done|]. intros _. by apply H4.
  - split; cbn; auto; done.
Qed.

Lemma mail_inv_reachable s : reachable s -> mail_inv s.
Proof.
  intros H. assert (Hinit : mail_inv mail0) by (split; cbn; try done; lia).
  unfold reachable in H. induction H as [|x y z Hxy _ IH]; [done|]. apply IH. by eapply mail_inv_step.
Qed.

(** ** Nothing stays behind *)

(** A step that posts nothing new and is not an idle turn of the loop. *)
Definition quiet_step (s s' : Mail) : Prop := mstep s s' /\ posted s' = posted s /\ s' <> s.

(** The work left when nothing more is posted. *)
Definition left_work (s : Mail) : nat :=
  5 * length (writers s) + (if 0 <? efd s then 4 else 0) + 2 * length (g_loop_jobs s) +
  match pc s with MPoll => 3 | MRead => 2 | MSwap => 5 | MRun => 4 + length (jobs s) end.

Lemma quiet_work s s' : mail_inv s -> quiet_step s s' -> (left_work s' < left_work s)%nat.
Proof.
  intros [H1 _ _ H5 _] (Hs & Hp & Hne). unfold left_work. destruct Hs; cbn [pc efd g_loop_jobs jobs writers posted] in *.
  - exfalso. apply (f_equal length) in Hp. rewrite length_app in Hp. cbn in Hp. lia.
  - rewrite !length_app. cbn [length]. rewrite (proj2 (Z.ltb_lt 0 (e + 1))) by lia. destruct (0 <? e); lia.
  - lia.
  - done.
  - rewrite (proj2 (Z.ltb_lt 0 e)) by auto. cbn. lia.
  - cbn. lia.
  - cbn. lia.
  - cbn. lia.
Qed.

(** While anything is left, somebody can go on. *)
Lemma quiet_progress s : mail_inv s -> (exists s', quiet_step s s') \/ ran s = posted s.
Proof.
  intros [H1 H2 H3 _ H4]. destruct s as [p e q l ws po ra]. cbn in *. destruct ws as [|j ws].
  2:{ left. eexists. split; [apply (m_write p e q l [] j ws)|]. split; [done|]. intros E. injection E. lia. }
  destruct p.
  - destruct (Z.ltb_spec 0 e).
    + left. rewrite H3 by done. eexists. by split; [apply m_wake|].
    + right. rewrite H2, H3 by done. destruct q as [|x q]; [by rewrite app_nil_r|]. destruct H4; [done|done|lia|done].
  - left. rewrite H3 by done. eexists. by split; [apply m_read|].
  - left. rewrite H3 by done. eexists. by split; [apply m_swap|].
  - left. destruct l as [|j l]; eexists; (split; [first [apply m_done|apply m_run]|]); [by split|]. split; [done|].
    intros E. injection E as E _. apply (f_equal length) in E. cbn in E. lia.
Qed.

(** C28: No completion is lost or run twice on its way from a worker to the loop.
    Under any interleaving of posting workers and the loop, the jobs run so
    far are a prefix of the jobs in the order they were posted; when the loop
    sleeps and no worker is about to write, everything posted has run, so no
    wake-up is missed; and once nothing more is posted, every schedule ends
    after a bounded number of steps with everything run. *)
Theorem loop_jobs_exact (s : Mail) (Hs : reachable s) :
  ran s `prefix_of` posted s /\
  (pc s = MPoll -> efd s = 0 -> writers s = [] -> ran s = posted s) /\
  (forall n s', nsteps quiet_step n s s' -> (n <= left_work s)%nat /\ ((exists s'', quiet_step s' s'') \/ ran s' = posted s)).
Proof.
  pose proof (mail_inv_reachable s Hs) as Hi. split_and!.
  - destruct Hi as [_ -> _ _ _]. by eexists.
  - intros Hp He Hw. destruct Hi as [H1 H2 H3 _ H4]. rewrite H2, H3 by (by rewrite Hp). cbn.
    destruct (g_loop_jobs s) as [|x q]; [by rewrite app_nil_r|]. destruct H4; [by rewrite Hp|done|lia|done].
  - intros n. clear Hs. revert s Hi. induction n as [|n IH]; intros s Hi s' H.
    + inversion H; subst. split; [lia|]. by apply quiet_progress.
    + inversion H as [|? x y z Hxy Hyz]; subst. pose proof (quiet_work _ _ Hi Hxy) as Hlt. destruct Hxy as (Hm & Hp & _).
      destruct (IH y (mail_inv_step _ _ Hi Hm) s' Hyz) as [I1 I2]. split; [lia|]. by rewrite <- Hp.
Qed.

Lemma loop_jobs_exact_witness :
  let s := mkMail MRun 1 [9%nat] [8%nat] [] [8%nat; 9%nat] [] in
  ran s `prefix_of` posted s /\ (pc s = MPoll -> efd s = 0 -> writers s = [] -> ran s = posted s) /\
  (forall n s', nsteps quiet_step n s s' -> (n <= left_work s)%nat /\ ((exists s'', quiet_step s' s'') \/ ran s' = posted s)).
Proof.
  apply loop_jobs_exact. unfold reachable.
  eapply rtc_l; [apply (m_push _ _ _ _ _ _ _ 8%nat)|]. eapply rtc_l; [apply (m_write _ _ _ _ [])|].
  eapply rtc_l; [by apply m_wake|]. eapply rtc_l; [apply m_read|]. eapply rtc_l; [apply m_swap|].
  eapply rtc_l; [apply (m_push _ _ _ _ _ _ _ 9%nat)|]. eapply rtc_l; [apply (m_write _ _ _ _ [])|]. apply rtc_refl.
Defined.
