(* ===== verification/Startup.v ===== *)
(** * The start of the server (src/src/server/server.cpp 1106-1165, 1205-1255)

    The command line, the environment variables that override the configuration
    file, and the limit on clients taken from the limit on descriptors.  The
    choice of the data files is in SaveFile. *)
From S2P Require Import Prelude Buffer Resp StdString State World Args CText CmdTable Acl Config.

(** ** The command line *)

Inductive Mode := MCheckAof (fix_ : bool) (path : bytes) | MServe (config : option bytes).

(** The words after --check-aof: --fix, and otherwise the path, the last one
    given. *)
Definition check_args (args : list bytes) : bool * bytes :=
  foldl (fun st a => if bool_decide (a = bs "--fix") then (true, st.2) else (st.1, a)) (false, bs "appendonly.aof") args.

Fixpoint find_check (args : list bytes) : option (list bytes) :=
  match args with
  | [] => None
  | a :: args => if bool_decide (a = bs "--check-aof") then Some args else find_check args
  end.

(** [args] without the program's name; MYRED_CONFIG unless a word without a
    leading dash is given. *)
Definition command_line (env_config : option bytes) (args : list bytes) : Mode :=
  match find_check args with
  | Some rest => let '(f, p) := check_args rest in MCheckAof f p
  | None =>
      MServe (match list_find (fun a => negb (bool_decide (head a = Some (chr 45))) = true) args with
              | Some (_, a) => Some a
              | None => env_config
              end)
  end.

(** ** Reading numbers from a stream *)

(** [iss >> x] for an unsigned type of maximum [most]: white space, a sign,
    digits; a value that does not fit fails, a minus sign wraps. *)
Definition extract_unsigned (most : Z) (s : bytes) : option (Z * bytes) :=
  let t := skip_space s in
  let '(neg, t) := match t with
                   | c :: t' => if bool_decide (c = chr 45) then (true, t') else if bool_decide (c = chr 43) then (false, t') else (false, t)
                   | [] => (false, [])
                   end in
  let '(d, rest) := span_digits t in
  if (length d =? 0)%nat then None
  else
    let v := digits_val 0 d in
    if most <? v then None else Some ((if (neg : bool) then (- v) mod (most + 1) else v), rest).

Fixpoint save_points (fuel : nat) (s : bytes) : list (Z * Z) :=
  match fuel with
  | O => []
  | S fuel =>
      match extract_unsigned UINT64_MAX s with
      | None => []
      | Some (sec, s) =>
          match extract_unsigned (2 ^ 32 - 1) s with
          | None => []
          | Some (ch, s) => (sec, ch) :: save_points fuel s
          end
      end
  end.

(** ** The environment *)

Record EnvVars := mkVars {
  MYRED_PASSWORD : option bytes; MYRED_PORT : option bytes; MYRED_AOF : option bytes; MYRED_SAVE : option bytes;
  MYRED_AOF_FSYNC : option bytes; MYRED_AOF_REWRITE_MIN : option bytes; MYRED_AOF_REWRITE_PERC : option bytes;
  MYRED_MAXMEMORY : option bytes; MYRED_MAXMEMORY_POLICY : option bytes;
}.

(** A variable that is set and reads as a value is applied; a bad one is ignored
    with a warning. *)
Definition override {A} (var : option bytes) (read : bytes -> option A) (put : A -> Config -> Config) (c : Config) : Config :=
  match var with
  | None => c
  | Some e => match read e with Some v => put v c | None => c end
  end.

Definition read_port (e : bytes) : option Z :=
  match parse_int_strict e with Some p => if (0 <? p) && (p <? 65536) then Some p else None | None => None end.
Definition read_positive (e : bytes) : option Z :=
  match parse_int_strict e with Some v => if 0 <? v then Some v else None | None => None end.
Definition read_aof (e : bytes) : option bool :=
  Some (match e with c :: _ => bool_decide (c = "1"%char) || bool_decide (c = "y"%char) | [] => false end).
Definition read_fsync (e : bytes) : option Aoffsync :=
  Some (if bool_decide (e = bs "always") then FS_ALWAYS else if bool_decide (e = bs "no") then FS_NO else FS_EVERYSEC).
Definition read_saves (e : bytes) : option (list (Z * Z)) := Some (save_points (length e) e).

(** Before the data is loaded. *)
Definition early_env (cred_hash_new : bytes -> bytes) (v : EnvVars) (c : Config) : Config :=
  override (MYRED_AOF v) read_aof set_aof_enable
    (override (MYRED_PORT v) read_port set_port
      (override (MYRED_PASSWORD v) (fun e => Some (cred_hash_new e)) set_password c)).

(** After it. *)
Definition late_env (v : EnvVars) (c : Config) : Config :=
  override (MYRED_MAXMEMORY_POLICY v) parse_maxmemory_policy set_policy
    (override (MYRED_MAXMEMORY v) parse_memory_size set_maxmemory
      (override (MYRED_AOF_REWRITE_PERC v) read_positive (fun n => set_rewrite_perc (i32 n))
        (override (MYRED_AOF_REWRITE_MIN v) read_positive set_rewrite_min
          (override (MYRED_AOF_FSYNC v) read_fsync set_fsync
            (override (MYRED_SAVE v) read_saves set_save c))))).

(** The limit on clients: 32 descriptors are kept back; [None] when the limit
    cannot be read. *)
Definition clamp_maxclients (rlim_cur : option Z) (c : Config) : Config :=
  match rlim_cur with
  | None => c
  | Some r =>
      let usable := i32 (i32 r - 32) in
      let usable := if usable <? 1 then 1 else usable in
      if usable <? maxclients (net c) then set_maxclients usable c else c
  end.

Definition start_config (cred_hash_new : bytes -> bytes) (v : EnvVars) (rlim : option Z) (c : Config) : Config :=
  late_env v (clamp_maxclients rlim (early_env cred_hash_new v c)).

(** ** What the start leaves *)

(** A property that every value read preserves survives an override. *)
Lemma override_ok {A} (P : Config -> Prop) var (read : bytes -> option A) put c :
  (forall e v, read e = Some v -> P c -> P (put v c)) -> P c -> P (override var read put c).
Proof. intros Hp Hc. unfold override. destruct var as [e|]; [|done]. destruct (read e) as [v|] eqn:E; [by eapply Hp|done]. Qed.

Lemma read_port_range e p : read_port e = Some p -> 1 <= p <= 65535.
Proof. unfold read_port. destruct (parse_int_strict e) as [n|]; [|done]. destruct (0 <? n) eqn:E1, (n <? 65536) eqn:E2; cbn; intros H; try done. injection H as <-. lia. Qed.

Lemma read_positive_range e n : read_positive e = Some n -> 1 <= n.
Proof. unfold read_positive. destruct (parse_int_strict e) as [v|]; [|done]. destruct (0 <? v) eqn:E; intros H; [|done]. injection H as <-. lia. Qed.

(** What no variable touches. *)
Definition kept (c c' : Config) : Prop :=
  tls c' = tls c /\ repl c' = repl c /\ users (sec c') = users (sec c) /\ renames (sec c') = renames (sec c) /\
  allowlist (net c') = allowlist (net c) /\ protected_mode (net c') = protected_mode (net c) /\ binds (net c') = binds (net c) /\
  dump_path (disk c') = dump_path (disk c) /\ aof_path (disk c') = aof_path (disk c).

Lemma clamp_spec rlim c : 1 <= maxclients (net c) < 2 ^ 31 ->
  kept c (clamp_maxclients rlim c) /\ port (net (clamp_maxclients rlim c)) = port (net c) /\
  1 <= maxclients (net (clamp_maxclients rlim c)) <= maxclients (net c) /\
  (forall r, rlim = Some r -> 32 < r < 2 ^ 31 -> maxclients (net (clamp_maxclients rlim c)) + 32 <= r).
Proof.
  intros Hm. unfold clamp_maxclients. destruct rlim as [r|]; [|by split_and!; try lia].
  set (u := i32 (i32 r - 32)). set (v := if u <? 1 then 1 else u).
  assert (Hv : 1 <= v) by (unfold v; destruct (Z.ltb_spec u 1); lia).
  assert (Hr : 32 < r < 2 ^ 31 -> v = r - 32).
  { intros Hr. assert (E : i32 r = r) by (apply i32_small; lia). unfold v, u. rewrite E, i32_small by lia.
    rewrite (proj2 (Z.ltb_ge _ _)) by lia. done. }
  clearbody v. destruct (Z.ltb_spec v (maxclients (net c))) as [Hlt|Hge]; cbn; split_and!; try done; try lia;
    intros r' [= <-] Hr'; rewrite (Hr Hr') in *; lia.
Qed.

(** Starting up never leaves the server with a port or a number of clients it
    cannot serve: the port stays valid whatever the environment says, the
    number of clients is at least one, at most what was configured, and leaves
    32 descriptors free under any limit an [int] holds; the other settings are
    the file's. *)
Lemma start_config_ok (hash : bytes -> bytes) (v : EnvVars) (rlim : option Z) (c : Config) :
  1 <= port (net c) <= 65535 -> 1 <= maxclients (net c) < 2 ^ 31 ->
  let c' := start_config hash v rlim c in
  kept c c' /\ 1 <= port (net c') <= 65535 /\ 1 <= maxclients (net c') <= maxclients (net c) /\
  (forall r, rlim = Some r -> 32 < r < 2 ^ 31 -> maxclients (net c') + 32 <= r).
Proof.
  intros Hp Hm. cbn zeta. unfold start_config.
  assert (He : kept c (early_env hash v c) /\ 1 <= port (net (early_env hash v c)) <= 65535 /\
    maxclients (net (early_env hash v c)) = maxclients (net c)).
  { unfold early_env. set (P := fun x => kept c x /\ 1 <= port (net x) <= 65535 /\ maxclients (net x) = maxclients (net c)).
    apply (override_ok P); [by intros|]. apply (override_ok P).
    - intros e p Hr%read_port_range (K & _ & M). split; [exact K|]. split; [cbn; lia|exact M].
    - apply (override_ok P); [by intros|]. by split_and!; try lia. }
  destruct He as (K1 & P1 & M1). set (c1 := early_env hash v c) in *. clearbody c1.
  destruct (clamp_spec rlim c1 ltac:(lia)) as (K2 & P2 & M2 & R2). set (c2 := clamp_maxclients rlim c1) in *. clearbody c2.
  assert (Hl : kept c2 (late_env v c2) /\ port (net (late_env v c2)) = port (net c2) /\ maxclients (net (late_env v c2)) = maxclients (net c2)).
  { unfold late_env. set (P := fun x => kept c2 x /\ port (net x) = port (net c2) /\ maxclients (net x) = maxclients (net c2)).
    repeat (apply (override_ok P); [by intros|]). by split_and!. }
  destruct Hl as (K3 & P3 & M3). rewrite P3, M3, P2. split_and!; [|lia..|].
  - unfold kept in *. intuition congruence.
  - intros r Hr Hr'. apply R2; auto.
Qed.

(** A limit of RLIM_INFINITY does not fit an [int]: the server is left with one
    client. *)
Lemma unlimited_clamps_to_one c : 1 < maxclients (net c) -> maxclients (net (clamp_maxclients (Some (2 ^ 64 - 1)) c)) = 1.
Proof.
  intros Hm. unfold clamp_maxclients. change (i32 (i32 (2 ^ 64 - 1) - 32)) with (-33).
  change (if -33 <? 1 then 1 else -33) with 1. rewrite (proj2 (Z.ltb_lt _ _)) by lia. done.
Qed.
