(* ===== verification/ReplCron.v ===== *)
(** * Keeping replication alive (src/src/server/server.cpp 279-351, src/src/commands/commands.cpp 3948-3970)

    The periodic work of both sides: the master pings its replicas and drops
    the silent ones; a replica drops a silent master, reports how far it is,
    and dials again with a growing delay.  REPLICAOF changes the role. *)
From S2P Require Import Prelude Buffer Resp StdString Deque Hashtable HashMap Heap Score ZSet HashSet State World Args Strings Lists Glob Keys Containers Hashes Sets CText CmdTable Handlers Double Crc32 Rdb Backlog Aof AofFile ReplicaLink.

Definition k_repl_retry_min_ms : Z := 1000.
Definition k_repl_retry_max_ms : Z := 8000.
Definition k_repl_ack_period_ms : Z := 1000.

(** The server's part beside the link; [ack_times] are the [ack_time_ms] of the
    replicas, 0 for one never heard of. *)
Record Cron := mkCron {
  cl : Link;
  master_host : bytes; master_port : Z;
  master_last_io_ms : Z;
  repl_retry_delay_ms : Z; repl_retry_at_ms : Z;
  repl_ack_at_ms : Z; repl_ping_at_ms : Z;
  ack_times : gmap nat Z;
}.

Definition with_link (l : Link) (k : Cron) : Cron :=
  mkCron l (master_host k) (master_port k) (master_last_io_ms k) (repl_retry_delay_ms k) (repl_retry_at_ms k) (repl_ack_at_ms k)
    (repl_ping_at_ms k) (ack_times k).
Definition with_retry (d at_ : Z) (k : Cron) : Cron :=
  mkCron (cl k) (master_host k) (master_port k) (master_last_io_ms k) d at_ (repl_ack_at_ms k) (repl_ping_at_ms k) (ack_times k).
Definition with_ack_at (t : Z) (k : Cron) : Cron :=
  mkCron (cl k) (master_host k) (master_port k) (master_last_io_ms k) (repl_retry_delay_ms k) (repl_retry_at_ms k) t (repl_ping_at_ms k) (ack_times k).

(** The promotion REPLICAOF NO ONE and PSYNC FAILOVER share. *)
Definition promote (draws : list Z) (k : Cron) : Cron :=
  let l := repl_stop (cl k) in
  mkCron (with_rep (repl_shift_id draws (rep l)) l) [] 0 (master_last_io_ms k) (repl_retry_delay_ms k) (repl_retry_at_ms k)
    (repl_ack_at_ms k) (repl_ping_at_ms k) (ack_times k).

Section Settings.
Context (repl_timeout_ms repl_ping_period_ms : Z) (masterauth : bytes) (port : Z).

Definition ping_due (now : Z) (k : Cron) : Cron :=
  if negb (bool_decide (replicas (rep (cl k)) = ∅)) && (0 <? repl_ping_period_ms) && (repl_ping_at_ms k <=? now) then
    mkCron (with_rep (repl_ping_replicas (rep (cl k))) (cl k)) (master_host k) (master_port k) (master_last_io_ms k)
      (repl_retry_delay_ms k) (repl_retry_at_ms k) (repl_ack_at_ms k) (u64 (now + repl_ping_period_ms)) (ack_times k)
  else k.

(** [now_ms - r->ack_time_ms > timeout_ms] in unsigned arithmetic. *)
Definition silent_for (now t : Z) : bool := negb (t =? 0) && (repl_timeout_ms <? u64 (now - t)).

(** [conn_destroy] of a replica. *)
Definition drop_replica (k : Cron) (c : nat) : Cron :=
  mkCron (with_rep (repl_remove_conn c (rep (cl k))) (cl k)) (master_host k) (master_port k) (master_last_io_ms k)
    (repl_retry_delay_ms k) (repl_retry_at_ms k) (repl_ack_at_ms k) (repl_ping_at_ms k) (delete c (ack_times k)).

Definition drop_silent (now : Z) (k : Cron) : Cron :=
  if 0 <? repl_timeout_ms then
    foldl drop_replica k (filter (fun c => silent_for now (default 0 (ack_times k !! c)) = true) (base.elements (replicas (rep (cl k)))))
  else k.

Definition ack_frame (off : Z) : bytes := aof_encode [] [bs "REPLCONF"; bs "ACK"; print_u64 off].

(** The report of a replica on a healthy link. *)
Definition report (now : Z) (k : Cron) : Cron :=
  match repl_state (cl k) with
  | STREAMING =>
      let k := with_retry 0 (repl_retry_at_ms k) k in
      if repl_ack_at_ms k <=? now then
        let l := cl k in
        with_ack_at (u64 (now + k_repl_ack_period_ms))
          (with_link (mkLink (repl_state l) (replica_mode l) (master_link l) (incoming l) (link_out l ++ ack_frame (master_repl_offset (rep l)))
                        (want_close l) (repl_rdb_left l) (repl_rdb_buf l) (failover_state l) (rep l) (lw l)) k)
      else k
  | _ => k
  end.

(** [repl_start] to the address [h], [p] as the cron and REPLICAOF call it. *)
Definition start_to (now : Z) (dialled : bool) (h : bytes) (p : Z) (k : Cron) : bool * Cron :=
  let '(ok, l) := repl_start dialled masterauth port (cl k) in
  (ok, if ok then mkCron l h p now (repl_retry_delay_ms k) (repl_retry_at_ms k) (repl_ack_at_ms k) (repl_ping_at_ms k) (ack_times k) else k).

Definition next_delay (d : Z) : Z := if d =? 0 then k_repl_retry_min_ms else Z.min (u32 (d * 2)) k_repl_retry_max_ms.

Definition repl_cron (now : Z) (dialled : bool) (k : Cron) : Cron :=
  let k := drop_silent now (ping_due now k) in
  if negb (replica_mode (cl k)) then k
  else if master_link (cl k) then
    if (0 <? repl_timeout_ms) && (repl_timeout_ms <? u64 (now - master_last_io_ms k)) then with_link (repl_link_lost (cl k)) k
    else report now k
  else if now <? repl_retry_at_ms k then k
  else
    let d := next_delay (repl_retry_delay_ms k) in
    let k := with_retry d (u64 (now + d)) k in
    (start_to now dialled (master_host k) (master_port k) k).2.

(** REPLICAOF; [draws] feed a new identity, [why] is the error of a failed
    dial. *)
Definition do_replicaof (now : Z) (dialled : bool) (why : bytes) (draws : list Z) (a1 a2 : bytes) (k : Cron) : (Buffer -> Buffer) * Cron :=
  if arg_ieq a1 (bs "no") && arg_ieq a2 (bs "one") then
    (resp_ok,
     if replica_mode (cl k) then promote draws k else k)
  else
    match parse_int_strict a2 with
    | Some p =>
        if (p <=? 0) || (65535 <? p) then ((fun b => resp_err b (bs "ERR invalid master port")), k)
        else
          let '(ok, k') := start_to now dialled a1 p k in
          if ok then (resp_ok, k') else ((fun b => resp_err b (bs "ERR" ++ why)), k')
    | None => ((fun b => resp_err b (bs "ERR invalid master port")), k)
    end.
End Settings.

(** A reply on connection [c]. *)
Definition say (c : nat) (f : Buffer -> Buffer) (k : Cron) : Cron :=
  let r := rep (cl k) in
  match conns r !! c with
  | Some x => with_link (with_rep (with_conns (<[c := mkRConn (f (outgoing x)) (is_replica x) (want_write x)]> (conns r)) (replicas r) r) (cl k)) k
  | None => k
  end.

(** PSYNC on connection [c]; [third] is the fourth word of the command, [img]
    the image a full resync sends.  [None]: a line does not fit its array. *)
Definition do_psync (loading : bool) (draws : list Z) (id off : bytes) (third : option bytes) (c : nat) (img : bytes) (k : Cron) : option Cron :=
  let err m := Some (say c (fun b => resp_err b (bs m)) k) in
  let resync k := (fun r => with_link (with_rep r (cl k)) k) <$> psync_resync id off c img (rep (cl k)) in
  if loading then err "ERR PSYNC is not valid during loading"
  else if match conns (rep (cl k)) !! c with Some x => is_replica x | None => false end then err "ERR this connections is already a replica"
  else
    match third with
    | None => resync k
    | Some x =>
        if negb (arg_ieq x (bs "failover")) then err "ERR syntax error"
        else if negb (replica_mode (cl k)) then err "ERR PSYNC FAILOVER but this server is not a replica"
        else resync (promote draws k)
    end.

(** ** Nobody listens to a replica: nothing is pinged or dropped *)

Lemma quiet_front tmo period now k : replicas (rep (cl k)) = ∅ -> drop_silent tmo now (ping_due period now k) = k.
Proof.
  intros Hr. unfold ping_due. rewrite Hr, bool_decide_eq_true_2 by done. cbn [negb andb]. unfold drop_silent.
  destruct (0 <? tmo); [|done]. rewrite Hr. by rewrite elements_empty.
Qed.

(** The delays between two dials: one second, doubled up to eight. *)
Definition delay_ok (d : Z) : Prop := d = 0 \/ k_repl_retry_min_ms <= d <= k_repl_retry_max_ms.

Lemma next_delay_ok d : delay_ok d -> k_repl_retry_min_ms <= next_delay d <= k_repl_retry_max_ms.
Proof.
  unfold delay_ok, next_delay, k_repl_retry_min_ms, k_repl_retry_max_ms. intros [->|H]; [cbn; lia|].
  rewrite (proj2 (Z.eqb_neq _ _)) by lia. unfold u32. rewrite Z.mod_small by lia. lia.
Qed.

(** One pass without a link. *)
Lemma cron_without_link tmo period auth port now dialled k :
  replicas (rep (cl k)) = ∅ -> replica_mode (cl k) = true -> master_link (cl k) = false -> delay_ok (repl_retry_delay_ms k) ->
  0 <= now < 2 ^ 63 ->
  let k' := repl_cron tmo period auth port now dialled k in
  if now <? repl_retry_at_ms k then k' = k
  else
    repl_retry_delay_ms k' = next_delay (repl_retry_delay_ms k) /\ repl_retry_at_ms k' = now + next_delay (repl_retry_delay_ms k) /\
    master_host k' = master_host k /\ master_port k' = master_port k /\
    cl k' = (repl_start dialled auth port (cl k)).2.
Proof.
  intros Hr Hm Hl Hd Hn. cbn zeta. unfold repl_cron. rewrite (quiet_front tmo period now k Hr), Hm, Hl. cbn [negb].
  destruct (Z.ltb_spec now (repl_retry_at_ms k)); [done|]. unfold start_to. cbn [with_retry cl master_host master_port].
  pose proof (next_delay_ok _ Hd) as Hnd. unfold k_repl_retry_max_ms, k_repl_retry_min_ms in Hnd.
  destruct dialled; cbn; rewrite u64_small by lia; done.
Qed.

(** ** Dialling again *)

(** A replica that lost its link never gives up and never forgets: whenever the
    timers run at or after the time of the next attempt it dials, asking for
    its own history from the byte after the last it has; a failed attempt
    changes nothing but the time of the next, at most eight seconds on. *)
Lemma redial_continues tmo period auth port now dialled k :
  replicas (rep (cl k)) = ∅ -> replica_mode (cl k) = true -> master_link (cl k) = false -> delay_ok (repl_retry_delay_ms k) ->
  failover_state (cl k) = FO_NONE -> repl_id (rep (cl k)) <> [] -> 0 <= master_repl_offset (rep (cl k)) < 2 ^ 64 - 1 ->
  0 <= now < 2 ^ 63 -> repl_retry_at_ms k <= now ->
  let k' := repl_cron tmo period auth port now dialled k in
  repl_retry_at_ms k < repl_retry_at_ms k' <= now + k_repl_retry_max_ms /\ delay_ok (repl_retry_delay_ms k') /\
  rep (cl k') = rep (cl k) /\
  if dialled then
    repl_state (cl k') = HANDSHAKE /\
    last (handshake auth port (cl k)) = Some [bs "PSYNC"; repl_id (rep (cl k)); print_u64 (master_repl_offset (rep (cl k)) + 1)] /\
    link_out (cl k') = foldl aof_encode [] (handshake auth port (cl k))
  else cl k' = cl k.
Proof.
  intros Hr Hm Hl Hd Hf Hid Ho Hn Hat. pose proof (cron_without_link tmo period auth port now dialled k Hr Hm Hl Hd Hn) as H. cbn zeta in *.
  rewrite (proj2 (Z.ltb_ge _ _)) in H by lia. destruct H as (H1 & H2 & _ & _ & H5). pose proof (next_delay_ok _ Hd) as Hnd.
  set (k' := repl_cron _ _ _ _ _ _ _) in *. clearbody k'. split; [unfold k_repl_retry_min_ms in Hnd; lia|].
  split; [right; rewrite H1; done|]. rewrite H5. destruct dialled; cbn; [|done]. split_and!; try done.
  rewrite handshake_asks by (by rewrite Hf). unfold asked. rewrite Hm, bool_decide_eq_false_2 by done. cbn. by rewrite u64_small by lia.
Qed.

(** ** A replica with replicas of its own *)

Definition ping_frame : bytes := bs "*1" ++ crlf ++ bs "$4" ++ crlf ++ bs "PING" ++ crlf.

Lemma feed_replicas_same b r :
  master_repl_offset (repl_feed_replicas b r) = master_repl_offset r /\ repl_id (repl_feed_replicas b r) = repl_id r.
Proof. done. Qed.

Lemma ping_moves_offset base S r : stream_ok base S r -> master_repl_offset r < 2 ^ 63 -> replicas r <> ∅ ->
  master_repl_offset (repl_ping_replicas r) = master_repl_offset r + 14 /\ repl_id (repl_ping_replicas r) = repl_id r.
Proof.
  intros [Hb Ho Hr Hc Hp Hh Hring] Hlt Hne. unfold repl_ping_replicas. rewrite bool_decide_eq_false_2 by done. fold ping_frame.
  destruct (feed_replicas_same ping_frame (repl_backlog_feed ping_frame r)) as [-> ->].
  destruct (feed_fields ping_frame r) as (F1 & _ & _ & _ & F5); [lia|cbn; lia|lia|]. by rewrite F1, F5.
Qed.

Lemma report_keeps now k : rep (cl (report now k)) = rep (cl k) /\ replica_mode (cl (report now k)) = replica_mode (cl k) /\
  master_link (cl (report now k)) = master_link (cl k) /\ failover_state (cl (report now k)) = failover_state (cl k).
Proof. unfold report. destruct (repl_state (cl k)); try done. by destruct (_ <=? now). Qed.

(** Asking for a byte the master's ring still holds. *)
Lemma continue_held base S r want : stream_ok base S r -> repl_backlog r <> [] -> repl_id r <> bs "?" -> 0 < want -> want <= master_repl_offset r + 1 ->
  master_repl_offset r + 1 - want <= Z.of_nat (repl_backlog_histlen r) -> master_repl_offset r < 2 ^ 63 - 1 ->
  continue_from r (repl_id r) (print_u64 want) = Some want.
Proof.
  intros Hs Hb Hq H0 H1 H2 H3. unfold continue_from.
  assert (Hp : print_u64 want = print_i64 want) by (unfold print_i64; by rewrite (proj2 (Z.ltb_ge _ _)) by lia).
  rewrite Hp, parse_print by (unfold INT64_MIN, INT64_MAX; lia). rewrite (bool_decide_eq_false_2 (_ = bs "?")), (bool_decide_eq_true_2 (repl_id r = _)) by done.
  rewrite (proj2 (Nat.eqb_neq _ _)) by (intros H; by apply length_zero_iff_nil in H).
  rewrite (proj2 (Z.ltb_lt 0 _)), (proj2 (Z.leb_le want (_ + 1))), (proj2 (Z.leb_le (_ - want) _)) by lia. done.
Qed.

(** C40: A replica that has replicas of its own loses part of its master's stream.
    Its timers ping those replicas through its own backlog, which moves the
    offset it keeps for its master by the 14 bytes of the ping although it
    received nothing.  When the link drops and it dials again it asks for the
    stream 14 bytes too late, the master, whose ring holds it all, agrees, and
    the 14 bytes in between are never sent. *)
Theorem chained_replica_skips (period : Z) (auth : bytes) (port now : Z) (base b0 : Z) (S0 T S1 : bytes) (r : Repl) (k : Cron) (img : bytes)
    (Hmaster : stream_ok base (S0 ++ T) r) (Hring : repl_backlog r <> []) (Hq : repl_id r <> bs "?") (Hne : repl_id r <> [])
    (Hheld : (length T <= repl_backlog_histlen r)%nat) (Hlong : (14 <= length T)%nat) (Hlt : base + Z.of_nat (length (S0 ++ T)) < 2 ^ 63 - 1)
    (Hrep : stream_ok b0 S1 (rep (cl k))) (Hoff : master_repl_offset (rep (cl k)) = base + Z.of_nat (length S0)) (Hid : repl_id (rep (cl k)) = repl_id r)
    (Hmode : replica_mode (cl k) = true) (Hlink : master_link (cl k) = true)
    (Hsub : replicas (rep (cl k)) <> ∅) (Hperiod : 0 < period) (Hdue : repl_ping_at_ms k <= now) :
  let k1 := repl_cron 0 period auth port now true k in
  let l2 := repl_link_lost (cl k1) in
  incoming (cl k1) = incoming (cl k) /\ master_repl_offset (rep (cl k1)) = master_repl_offset (rep (cl k)) + 14 /\
  asked l2 = (repl_id r, print_u64 (base + Z.of_nat (length S0) + 14 + 1)) /\
  sync_bytes base (S0 ++ T) r (asked l2).1 (asked l2).2 img = (bs "+CONTINUE " ++ repl_id r ++ crlf) ++ drop 14 T.
Proof.
  cbn zeta. pose proof Hmaster as [Mb Mo Mr Mc Mp Mh Mg]. rewrite length_app in Hlt, Mo, Mh.
  destruct (ping_moves_offset b0 S1 _ Hrep ltac:(lia) Hsub) as [P1 P2].
  set (l1 := with_rep (repl_ping_replicas (rep (cl k))) (cl k)).
  assert (Hcron : exists k0, cl k0 = l1 /\ repl_cron 0 period auth port now true k = report now k0).
  { unfold repl_cron, ping_due. rewrite bool_decide_eq_false_2, (proj2 (Z.ltb_lt _ _)), (proj2 (Z.leb_le _ _)) by done.
    cbn [negb andb]. unfold drop_silent. rewrite Z.ltb_irrefl. cbn [cl with_rep replica_mode master_link]. rewrite Hmode, Hlink. cbn [negb andb].
    eexists. split; [|reflexivity]. done. }
  destruct Hcron as (k0 & Ek0 & ->). destruct (report_keeps now k0) as (R1 & R2 & R3 & R4). rewrite Ek0 in R1, R2, R3, R4.
  assert (Hin : incoming (cl (report now k0)) = incoming (cl k)).
  { unfold report. rewrite Ek0. destruct (repl_state l1); try (by rewrite Ek0). destruct (_ <=? now); cbn; by rewrite Ek0. }
  assert (Hask : asked (repl_link_lost (cl (report now k0))) = (repl_id r, print_u64 (base + Z.of_nat (length S0) + 14 + 1))).
  { unfold asked, repl_link_lost. rewrite R3. cbn [l1 with_rep master_link]. rewrite Hlink. cbn [replica_mode rep]. rewrite R1, R2.
    cbn [l1 with_rep replica_mode rep]. rewrite Hmode, P1, P2, Hid, Hoff, bool_decide_eq_false_2 by done. cbn [negb andb].
    by rewrite u64_small by lia. }
  rewrite R1. cbn [l1 with_rep rep]. split_and!; [done|done|done|]. rewrite Hask. cbn [fst snd]. unfold sync_bytes.
  rewrite (continue_held base (S0 ++ T) r) by (done || lia). f_equal.
  replace (Z.to_nat (base + Z.of_nat (length S0) + 14 + 1 - 1 - base)) with (length S0 + 14)%nat by lia.
  rewrite <- drop_drop. by rewrite drop_app_length.
Qed.

(** A replica in step after the first command, with a replica of its own. *)
Definition chained : Cron :=
  mkCron (mkLink STREAMING true true [] [] false 0 [] FO_NONE (attach 1 (buf_create 4) (repl_backlog_feed (frame cmd_a) (repl0 64))) w0)
    (bs "10.0.0.1") 6379 0 0 0 5000 0 ∅.

Lemma chained_replica_skips_witness :
  let k1 := repl_cron 0 1000 [] 1234 10 true chained in
  let l2 := repl_link_lost (cl k1) in
  incoming (cl k1) = incoming (cl chained) /\ master_repl_offset (rep (cl k1)) = master_repl_offset (rep (cl chained)) + 14 /\
  asked l2 = (repl_id demo_master, print_u64 (0 + Z.of_nat (length (frame cmd_a)) + 14 + 1)) /\
  sync_bytes 0 (frame cmd_a ++ frame cmd_b) demo_master (asked l2).1 (asked l2).2 [] =
    (bs "+CONTINUE " ++ repl_id demo_master ++ crlf) ++ drop 14 (frame cmd_b).
Proof.
  apply (chained_replica_skips 1000 [] 1234 10 0 0 (frame cmd_a) (frame cmd_b) (frame cmd_a) demo_master chained []).
  - exact demo_stream.
  - discriminate.
  - vm_compute. discriminate.
  - vm_compute. discriminate.
  - apply Nat.leb_le. vm_compute. reflexivity.
  - apply Nat.leb_le. vm_compute. reflexivity.
  - vm_compute. reflexivity.
  - apply attach_spec with (got := []); [|apply buf_create_wf|apply buf_create_wf].
    apply (feed_stream 0 [] (frame cmd_a)); [apply repl0_stream; lia|vm_compute; reflexivity].
  - vm_compute. reflexivity.
  - vm_compute. reflexivity.
  - reflexivity.
  - reflexivity.
  - vm_compute. discriminate.
  - lia.
  - cbn. lia.
Defined.

(** ** Handing over *)

Lemma psync_keeps_ids id off c img r r' :
  psync_resync id off c img r = Some r' -> repl_id r' = repl_id r /\ repl_id2 r' = repl_id2 r.
Proof.
  assert (Hfull : forall r, psync_full c img r = Some r' -> repl_id r' = repl_id r /\ repl_id2 r' = repl_id2 r).
  { intros x. unfold psync_full. destruct (line128 _); [|done]. cbn. by intros [= <-]. }
  unfold psync_resync. destruct (_ || _); [apply Hfull|]. destruct (_ && _); [|intros H; by apply Hfull in H].
  destruct (line128 _); [|done]. cbn. by intros [= <-].
Qed.

(** C10: A hand-over loses nothing and copies nothing.  The old master, all of
    whose stream the replica [t] has, dials it and sends PSYNC FAILOVER on
    connection [c].  Running that command on the target promotes it: it is no
    longer a replica, its link to the old master is gone, its dataset is as it
    was, it has a new identity and keeps the old one beside it; and it answers
    that the old history continues.  However the answer and the target's later
    commands arrive, the old master ends up in step with it under the new
    identity, with its own dataset and exactly the later commands applied. *)
Theorem handover_continuous (other : bytes -> Handler) (uncompress : bytes -> nat -> option bytes) (base : Z) (S : bytes) (t : Cron) (draws : list Z)
    (c : nat) (k : RConn) (img : bytes) (l0 : Link) (masterauth : bytes) (port : Z) (n : nat) (later : list (list bytes))
    (Ht : replica_mode (cl t) = true) (Hs : stream_ok base S (rep (cl t))) (Hk : conns (rep (cl t)) !! c = Some k) (Hnew : is_replica k = false)
    (Hwf : Buffer.wf (outgoing k)) (Hacks : Buffer.content (outgoing k) = concat (replicate n ok_line)) (Hdraws : draws <> [])
    (Hback : repl_backlog (rep (cl t)) <> []) (Hid : repl_id (rep (cl t)) <> bs "?" /\ repl_id (rep (cl t)) <> [])
    (Himg : Z.of_nat (length img) < 2 ^ 64) (Hargs : Forall args_ok later)
    (Htotal : base + Z.of_nat (length S) + Z.of_nat (length (log_of later)) < 2 ^ 63 - 1)
    (Hring : exists b0 S0, stream_ok b0 S0 (rep l0)) (Hfo : failover_state l0 = FO_IN_PROGRESS)
    (Hsame : repl_id (rep l0) = repl_id (rep (cl t))) (Hsynced : master_repl_offset (rep l0) = master_repl_offset (rep (cl t))) :
  let l1 := (repl_start true masterauth port l0).2 in
  let id := repl_id (rep (cl t)) in
  let off := print_u64 (master_repl_offset (rep (cl t)) + 1) in
  last (handshake masterauth port l0) = Some [bs "PSYNC"; id; off; bs "FAILOVER"] /\
  exists t' got, do_psync false draws id off (Some (bs "FAILOVER")) c img t = Some t' /\
    replica_mode (cl t') = false /\ master_link (cl t') = false /\ repl_state (cl t') = NONE /\ lw (cl t') = lw (cl t) /\
    repl_id (rep (cl t')) = repl_gen_id draws /\ repl_id2 (rep (cl t')) = id /\
    let r'' := foldl (fun r f => propagate f r) (rep (cl t')) (frame <$> later) in
    attached r'' c got /\
    forall chunks, concat chunks = got ->
      in_step (repl_id (rep (cl t'))) (master_repl_offset r'') (foldl (fun w cmd => repl_apply other cmd w) (lw l0) later)
        (foldl (fun l d => link_read other uncompress d l) l1 chunks).
Proof.
  destruct (handover_stream other uncompress base S (rep (cl t)) draws c k img l0 masterauth port n later Hs Hk Hwf Hacks Hdraws Hback Hid Himg
    Hargs Htotal Hring Hfo Hsame Hsynced) as (H1 & r' & got & H2 & H3 & H4). cbn zeta in *. split; [done|].
  destruct (psync_keeps_ids _ _ _ _ _ _ H2) as [I1 I2].
  exists (with_link (with_rep r' (cl (promote draws t))) (promote draws t)), got. split.
  - unfold do_psync. rewrite Hk, Hnew, Ht. change (arg_ieq (bs "FAILOVER") (bs "failover")) with true. cbn [negb].
    change (rep (cl (promote draws t))) with (repl_shift_id draws (rep (cl t))). by rewrite H2.
  - cbn [cl with_link with_rep rep replica_mode master_link repl_state lw]. rewrite I1, I2. split_and!; done.
Qed.

(** A replica that has both commands, and the connection of its old master. *)
Definition handover_target : Cron :=
  mkCron (mkLink STREAMING true true [] [] false 0 [] FO_NONE demo_master w0) (bs "10.0.0.1") 6379 0 0 0 5000 0 ∅.

Definition handover_source : Link := mkLink NONE false false [] [] false 0 [] FO_IN_PROGRESS demo_master w0.

Lemma handover_continuous_witness :
  let t := handover_target in
  let off := print_u64 (master_repl_offset (rep (cl t)) + 1) in
  exists t' got, do_psync false (replicate 40 9) (repl_id (rep (cl t))) off (Some (bs "FAILOVER")) 1 (bs "image") t = Some t' /\
    replica_mode (cl t') = false /\
    let r'' := foldl (fun r f => propagate f r) (rep (cl t')) (frame <$> [cmd_c]) in
    attached r'' 1 got /\
    forall chunks, concat chunks = got ->
      in_step (repl_id (rep (cl t'))) (master_repl_offset r'') (foldl (fun w cmd => repl_apply no_other cmd w) (lw handover_source) [cmd_c])
        (foldl (fun l d => link_read no_other (fun _ _ => None) d l) (repl_start true [] 1234 handover_source).2 chunks).
Proof.
  cbn zeta.
  destruct (handover_continuous no_other (fun _ _ => None) 0 (frame cmd_a ++ frame cmd_b) handover_target (replicate 40 9) 1 (mkRConn (buf_create 16) false false)
    (bs "image") handover_source [] 1234 0 [cmd_c]) as (_ & t' & got & H1 & H2 & _ & _ & _ & _ & _ & H3 & H4).
  - reflexivity.
  - exact demo_stream.
  - vm_compute. reflexivity.
  - reflexivity.
  - apply buf_create_wf.
  - reflexivity.
  - discriminate.
  - vm_compute. discriminate.
  - split; vm_compute; discriminate.
  - vm_compute. reflexivity.
  - repeat constructor; vm_compute; discriminate.
  - vm_compute. reflexivity.
  - exists 0, (frame cmd_a ++ frame cmd_b). exact demo_stream.
  - reflexivity.
  - vm_compute. reflexivity.
  - vm_compute. reflexivity.
  - exists t', got. split; [exact H1|]. split; [exact H2|]. split; [exact H3|exact H4].
Defined.
