(* ===== verification/Info.v ===== *)
(** * INFO (src/src/commands/commands.cpp 1980-2176)

    The seven printers of INFO over the states of the components, and a reader
    of the report.  A printer appends lines through [info_add], which keeps the
    first 511 bytes of each.  The clock is read once; the resident size comes
    from /proc and is an argument, and so is the order in which the C++ set
    yields the replicas. *)
From S2P Require Import Prelude Buffer Resp Score Hashtable Heap State World Args Strings Lists Glob Keys Config CText CFloat Backlog Aof AofFile ReplicaLink Loop Handover SaveFile Accept ReplCron Admin.

(** ** The printers *)

(** What INFO reads of [g_data], [g_config] and the operating system. *)
Record Server := mkServer {
  i_net : NetState;            (* connected_clients, g_total_connections *)
  i_saver : Saver;             (* the keyspace and the last snapshot *)
  i_aof : AofState;
  i_srv : Srv;                 (* commands served, replicas, failover, the clock *)
  i_cron : Cron;               (* the link to a master, the backlog *)
  i_cfg : Config;
  i_start_ms : Z;              (* g_server_start_ms *)
  i_evicted : Z;               (* evicted_keys *)
  i_rss : Z;                   (* get_memory_usage() *)
  i_order : list nat;          (* the replicas as the loop meets them *)
}.

Definition i_now (v : Server) : Z := h_now (rest (i_srv v)).
Definition i_ks (v : Server) : Keyspace := ks_now (i_saver v).
Definition i_rep (v : Server) : Repl := rep (cl (i_cron v)).

Definition info_add (o line : bytes) : bytes := o ++ take 511 line.

(** [printf("%.2f", v)] of a number that is not negative. *)
Definition fixed2 (v : score) : bytes :=
  match v with
  | S754_finite _ m e =>
      let n := round_div (Zpos m * 2 ^ Z.max 0 e * 100) (2 ^ Z.max 0 (- e)) in
      let frac := print_big (n mod 100) in
      print_big (n / 100) ++ bs "." ++ replicate (2 - length frac) (chr 48) ++ frac
  | _ => bs "0.00"
  end.

(** [(double)n] of a [size_t]. *)
Definition to_double (n : Z) : score := scale false 10 n 0.
Definition div_double (a b : score) : score := SFdiv 53 1024 a b.

Definition flag (b : bool) : bytes := print_i64 (if b then 1 else 0).

Definition info_server (v : Server) (o : bytes) : bytes :=
  let uptime_s := u64 (i_now v - i_start_ms v) / 1000 in
  let o := o ++ bs "# Server" ++ crlf in
  let o := o ++ bs "version:1.0.0" ++ crlf in
  let o := info_add o (bs "uptime_seconds:" ++ print_u64 uptime_s ++ crlf) in
  let o := info_add o (bs "uptime_minutes:" ++ print_u64 (uptime_s / 60) ++ crlf) in
  let o := info_add o (bs "uptime_hours:" ++ print_u64 (uptime_s / 3600) ++ crlf) in
  o ++ crlf.

Definition info_clients (v : Server) (o : bytes) : bytes :=
  let o := o ++ bs "# Clients" ++ crlf in
  let o := info_add o (bs "connected_clients:" ++ print_u64 (connected_clients (i_net v)) ++ crlf) in
  let o := info_add o (bs "total_connections:" ++ print_u64 (total_connections (i_net v)) ++ crlf) in
  o ++ crlf.

Definition info_memory (v : Server) (o : bytes) : bytes :=
  let used := used_memory (i_ks v) in
  let o := o ++ bs "# Memory" ++ crlf in
  let o := info_add o (bs "used_memory:" ++ print_u64 used ++ crlf) in
  let o := info_add o (bs "used_memory_human:" ++ (fixed2 (div_double (to_double used) (to_double 1048576)) ++ bs "M") ++ crlf) in
  let o := info_add o (bs "used_memory_rss:" ++ print_u64 (i_rss v) ++ crlf) in
  let o := info_add o (bs "mem_fragmentation_ratio:" ++
             fixed2 (if used =? 0 then S754_zero false else div_double (to_double (i_rss v)) (to_double used)) ++ crlf) in
  let o := info_add o (bs "maxmemory:" ++ print_u64 (maxmemory (mem (i_cfg v))) ++ crlf) in
  let o := info_add o (bs "maxmemory_policy:" ++ maxmemory_policy_name (cfg_policy (mem (i_cfg v))) ++ crlf) in
  let o := info_add o (bs "evicted_keys:" ++ print_u64 (i_evicted v) ++ crlf) in
  o ++ crlf.

Definition info_stats (v : Server) (o : bytes) : bytes :=
  let o := o ++ bs "# Stats" ++ crlf in
  let o := info_add o (bs "total_commands:" ++ print_u64 (total_commands (i_srv v)) ++ crlf) in
  let o := info_add o (bs "sync_full:" ++ print_u64 (sync_full (i_rep v)) ++ crlf) in
  let o := info_add o (bs "sync_partial_ok:" ++ print_u64 (sync_partial_ok (i_rep v)) ++ crlf) in
  let o := info_add o (bs "sync_partial_err:" ++ print_u64 (sync_partial_err (i_rep v)) ++ crlf) in
  o ++ crlf.

Definition info_keyspace (v : Server) (o : bytes) : bytes :=
  let '(total, with_ttl) := get_keys_stats (i_ks v) in
  let o := o ++ bs "# Keyspace" ++ crlf in
  let o := info_add o (bs "keys_total:" ++ print_u64 total ++ crlf) in
  let o := info_add o (bs "keys_with_ttl:" ++ print_u64 with_ttl ++ crlf) in
  let o := info_add o (bs "keys_no_ttl:" ++ print_u64 (u32 (total - with_ttl)) ++ crlf) in
  o ++ crlf.

Definition info_persistence (v : Server) (o : bytes) : bytes :=
  let s := i_saver v in
  let a := i_aof v in
  let o := o ++ bs "# Persistence" ++ crlf in
  let o := info_add o (bs "rdb_last_save_time:" ++ print_u64 (last_save_ms s / 1000) ++ crlf) in
  let o := info_add o (bs "rdb_changes_since_save:" ++ print_u64 (since_save s) ++ crlf) in
  let o := info_add o (bs "rdb_last_save_ok:" ++ flag (last_save_ok s) ++ crlf) in
  let o := info_add o (bs "rdb_last_save_size_bytes:" ++ print_u64 (last_save_size s) ++ crlf) in
  let o := info_add o (bs "aof_enabled:" ++ flag (aof_enable (i_rep v)) ++ crlf) in
  let o := info_add o (bs "aof_current_size:" ++ print_u64 (current_size a) ++ crlf) in
  let o := info_add o (bs "aof_base_size:" ++ print_u64 (base_size a) ++ crlf) in
  let o := info_add o (bs "aof_pending_rewrite:" ++ flag (bool_decide (is_Some (AofFile.child a))) ++ crlf) in
  let o := info_add o (bs "aof_last_write_status:" ++ (if write_err a then bs "err" else bs "ok") ++ crlf) in
  let o := info_add o (bs "aof_last_bgrewrite_status:" ++ (if last_rewrite_ok a then bs "ok" else bs "err") ++ crlf) in
  o ++ crlf.

(** One line of the loop over the replicas. *)
Definition slave_line (v : Server) (i : nat) (r : nat) : bytes :=
  let x := hx_of r (i_srv v) in
  let lag := if ack_time_ms x =? 0 then 0 else u64 (i_now v - ack_time_ms x) / 1000 in
  bs "slave" ++ print_u64 (Z.of_nat i) ++ bs ":ip=" ++ c_str (host_of x) ++ bs ",port=" ++ print_i64 (replica_port x) ++
  bs ",state=" ++ (if ack_time_ms x =? 0 then bs "sync" else bs "online") ++
  bs ",offset=" ++ print_u64 (ack_offset x) ++ bs ",lag=" ++ print_u64 lag ++ crlf.

Fixpoint slave_lines (v : Server) (i : nat) (rs : list nat) (o : bytes) : bytes :=
  match rs with [] => o | r :: rs => slave_lines v (S i) rs (info_add o (slave_line v i r)) end.

Definition failover_name (f : FailoverState) : bytes :=
  match f with
  | FO_WAIT_FOR_SYNC => bs "waiting-for-sync"
  | FO_IN_PROGRESS => bs "failover-in-progress"
  | FO_NONE => bs "no-failover"
  end.

Definition streaming (s : ReplState) : bool := match s with STREAMING => true | _ => false end.

Definition last_io (v : Server) : Z :=
  if master_link (cl (i_cron v)) then i64 (u64 (i_now v - master_last_io_ms (i_cron v)) / 1000) else -1.

Definition second_id (r : Repl) : bytes := if bool_decide (repl_id2 r = []) then replicate 40 (chr 48) else repl_id2 r.
Definition second_offset (r : Repl) : Z := if bool_decide (repl_id2 r = []) then -1 else i64 (second_repl_offset r).

Definition info_replication (v : Server) (o : bytes) : bytes :=
  let replica := replica_mode (cl (i_cron v)) in
  let r := i_rep v in
  let o := o ++ bs "# Replication" ++ crlf in
  let o := info_add o (bs "role:" ++ (if replica then bs "slave" else bs "master") ++ crlf) in
  let o :=
    if replica then
      let o := info_add o (bs "master_host:" ++ c_str (master_host (i_cron v)) ++ crlf) in
      let o := info_add o (bs "master_port:" ++ print_i64 (master_port (i_cron v)) ++ crlf) in
      let o := info_add o (bs "master_link_status:" ++ (if streaming (repl_state (cl (i_cron v))) then bs "up" else bs "down") ++ crlf) in
      info_add o (bs "master_last_io_seconds_ago:" ++ print_i64 (last_io v) ++ crlf)
    else o in
  let o := info_add o (bs "failover_state:" ++ failover_name (fo_state (rest (i_srv v))) ++ crlf) in
  let o := info_add o (bs "master_replid:" ++ c_str (repl_id r) ++ crlf) in
  let o := info_add o (bs "master_replid2:" ++ c_str (second_id r) ++ crlf) in
  let o := info_add o (bs "second_repl_offset:" ++ print_i64 (second_offset r) ++ crlf) in
  let o := info_add o (bs "connected_slaves:" ++ print_u64 (Z.of_nat (base.size (h_replicas (rest (i_srv v))))) ++ crlf) in
  let o := slave_lines v 0 (i_order v) o in
  let o := info_add o (bs "master_repl_offset:" ++ print_u64 (master_repl_offset r) ++ crlf) in
  let o := info_add o (bs "repl_backlog_active:" ++ flag (bool_decide (repl_backlog r <> [])) ++ crlf) in
  let o := info_add o (bs "repl_backlog_size:" ++ print_u64 (Z.of_nat (length (repl_backlog r))) ++ crlf) in
  let o := info_add o (bs "repl_backlog_first_byte_offset:" ++ print_u64 (repl_backlog_start_offset r) ++ crlf) in
  let o :=
    if negb replica then info_add o (bs "min_slaves_good_slaves:" ++ print_u64 (Z.of_nat (good_replicas (i_now v) (i_srv v))) ++ crlf)
    else o in
  let o := info_add o (bs "repl_backlog_histlen:" ++ print_u64 (Z.of_nat (repl_backlog_histlen r)) ++ crlf) in
  o ++ crlf.

(** [k_info_sections], each printer run on its own. *)
Definition info_emits (v : Server) : list bytes :=
  (fun f : Server -> bytes -> bytes => f v []) <$>
  [info_server; info_clients; info_memory; info_stats; info_keyspace; info_persistence; info_replication].

(** ** The report, and a reader of it *)

(** A field is a number, unsigned or signed, or a text. *)
Inductive Value := VNat (n : Z) | VInt (n : Z) | VText (t : bytes).

Definition show (x : Value) : bytes := match x with VNat n => print_u64 n | VInt n => print_i64 n | VText t => t end.

Definition num (name : string) (n : Z) : bytes * Value := (bs name, VNat n).
Definition int (name : string) (n : Z) : bytes * Value := (bs name, VInt n).
Definition txt (name : string) (t : bytes) : bytes * Value := (bs name, VText t).
Definition bit (name : string) (b : bool) : bytes * Value := int name (if b then 1 else 0).

Definition slave_field (v : Server) (i r : nat) : bytes * Value :=
  let x := hx_of r (i_srv v) in
  (bs "slave" ++ print_u64 (Z.of_nat i),
   VText (bs "ip=" ++ host_of x ++ bs ",port=" ++ print_i64 (replica_port x) ++
          bs ",state=" ++ (if ack_time_ms x =? 0 then bs "sync" else bs "online") ++ bs ",offset=" ++ print_u64 (ack_offset x) ++
          bs ",lag=" ++ print_u64 (if ack_time_ms x =? 0 then 0 else u64 (i_now v - ack_time_ms x) / 1000))).

Fixpoint slave_fields (v : Server) (i : nat) (rs : list nat) : list (bytes * Value) :=
  match rs with [] => [] | r :: rs => slave_field v i r :: slave_fields v (S i) rs end.

(** What the sections say, by title. *)
Definition info_report (v : Server) : list (bytes * list (bytes * Value)) :=
  let up := u64 (i_now v - i_start_ms v) / 1000 in
  let used := used_memory (i_ks v) in
  let s := i_saver v in
  let a := i_aof v in
  let r := i_rep v in
  let replica := replica_mode (cl (i_cron v)) in
  [(bs "Server", [txt "version" (bs "1.0.0"); num "uptime_seconds" up; num "uptime_minutes" (up / 60); num "uptime_hours" (up / 3600)]);
   (bs "Clients", [num "connected_clients" (connected_clients (i_net v)); num "total_connections" (total_connections (i_net v))]);
   (bs "Memory",
    [num "used_memory" used; txt "used_memory_human" (fixed2 (div_double (to_double used) (to_double 1048576)) ++ bs "M");
     num "used_memory_rss" (i_rss v);
     txt "mem_fragmentation_ratio" (fixed2 (if used =? 0 then S754_zero false else div_double (to_double (i_rss v)) (to_double used)));
     num "maxmemory" (maxmemory (mem (i_cfg v))); txt "maxmemory_policy" (maxmemory_policy_name (cfg_policy (mem (i_cfg v))));
     num "evicted_keys" (i_evicted v)]);
   (bs "Stats",
    [num "total_commands" (total_commands (i_srv v)); num "sync_full" (sync_full r); num "sync_partial_ok" (sync_partial_ok r);
     num "sync_partial_err" (sync_partial_err r)]);
   (bs "Keyspace",
    [num "keys_total" (get_keys_stats (i_ks v)).1; num "keys_with_ttl" (get_keys_stats (i_ks v)).2;
     num "keys_no_ttl" (u32 ((get_keys_stats (i_ks v)).1 - (get_keys_stats (i_ks v)).2))]);
   (bs "Persistence",
    [num "rdb_last_save_time" (last_save_ms s / 1000); num "rdb_changes_since_save" (since_save s); bit "rdb_last_save_ok" (last_save_ok s);
     num "rdb_last_save_size_bytes" (last_save_size s); bit "aof_enabled" (aof_enable r); num "aof_current_size" (current_size a);
     num "aof_base_size" (base_size a); bit "aof_pending_rewrite" (bool_decide (is_Some (AofFile.child a)));
     txt "aof_last_write_status" (if write_err a then bs "err" else bs "ok");
     txt "aof_last_bgrewrite_status" (if last_rewrite_ok a then bs "ok" else bs "err")]);
   (bs "Replication",
    [txt "role" (if replica then bs "slave" else bs "master")] ++
    (if replica then
       [txt "master_host" (master_host (i_cron v)); int "master_port" (master_port (i_cron v));
        txt "master_link_status" (if streaming (repl_state (cl (i_cron v))) then bs "up" else bs "down");
        int "master_last_io_seconds_ago" (last_io v)]
     else []) ++
    [txt "failover_state" (failover_name (fo_state (rest (i_srv v)))); txt "master_replid" (repl_id r); txt "master_replid2" (second_id r);
     int "second_repl_offset" (second_offset r); num "connected_slaves" (Z.of_nat (base.size (h_replicas (rest (i_srv v)))))] ++
    slave_fields v 0 (i_order v) ++
    [num "master_repl_offset" (master_repl_offset r); bit "repl_backlog_active" (bool_decide (repl_backlog r <> []));
     num "repl_backlog_size" (Z.of_nat (length (repl_backlog r))); num "repl_backlog_first_byte_offset" (repl_backlog_start_offset r)] ++
    (if negb replica then [num "min_slaves_good_slaves" (Z.of_nat (good_replicas (i_now v) (i_srv v)))] else []) ++
    [num "repl_backlog_histlen" (Z.of_nat (repl_backlog_histlen r))])].

(** The lines of a text, each ended by CR LF. *)
Fixpoint crlf_lines (s : bytes) : list bytes :=
  match s with
  | [] => []
  | c :: s' =>
      match s' with
      | d :: s'' =>
          if bool_decide (c = c_cr /\ d = c_lf) then [] :: crlf_lines s''
          else match crlf_lines s' with w :: ws => (c :: w) :: ws | [] => [[c]] end
      | [] => [[c]]
      end
  end.

Fixpoint cut_colon (s : bytes) : bytes * bytes :=
  match s with
  | [] => ([], [])
  | c :: s' => if bool_decide (c = chr 58) then ([], s') else let '(k, t) := cut_colon s' in (c :: k, t)
  end.

(** Titles open sections, blank lines close them, the rest are fields. *)
Definition read_line_of (l : bytes) (st : list (bytes * list (bytes * bytes)) * list (bytes * bytes)) :=
  let '(secs, cur) := st in
  match l with
  | [] => (secs, cur)
  | c :: t => if bool_decide (c = chr 35) then ((drop 1 t, cur) :: secs, []) else (secs, cut_colon l :: cur)
  end.
Definition read_info (s : bytes) : list (bytes * list (bytes * bytes)) := (foldr read_line_of ([], []) (crlf_lines s)).1.

Definition read_number (t : bytes) : Z :=
  match t with c :: ds => if bool_decide (c = chr 45) then - digits_val 0 ds else digits_val 0 t | [] => 0 end.

(** A client that asks for a number gets it, one that asks for a text too. *)
Definition reads (t : bytes) (x : Value) : Prop := match x with VNat n | VInt n => read_number t = n | VText s => t = s end.

(** The sections a command asks for. *)
Definition asked (args : list bytes) (name : bytes) : bool :=
  (length args =? 0)%nat || existsb info_all args || existsb (fun a => arg_ieq a name) args.

(** What [info_add] keeps whole, and a client can take apart: numbers in their
    machine ranges, texts without carriage returns and zero bytes. *)
Definition value_ok (x : Value) : Prop :=
  match x with
  | VNat n => 0 <= n < 2 ^ 64
  | VInt n => - 2 ^ 63 <= n < 2 ^ 63
  | VText t => Forall (fun c => c <> c_cr) t /\ no_zero t
  end.
Definition field_ok (f : bytes * Value) : Prop := value_ok f.2 /\ (length f.1 + length (show f.2) + 3 <= 511)%nat.
Definition report_ok (v : Server) : Prop :=
  Forall (fun sec => Forall field_ok sec.2) (info_report v) /\ Z.of_nat (length (i_order v)) < 2 ^ 64.

(** ** Proofs *)

Definition field_line (f : bytes * Value) : bytes := f.1 ++ bs ":" ++ show f.2.
Definition section_text (sec : bytes * list (bytes * Value)) : bytes :=
  bs "# " ++ sec.1 ++ crlf ++ concat ((fun f => field_line f ++ crlf) <$> sec.2) ++ crlf.

Lemma info_add_field o l f : field_ok f -> l = field_line f ++ crlf -> info_add o l = o ++ field_line f ++ crlf.
Proof.
  intros [_ H] ->. unfold info_add, field_line. f_equal. apply take_ge. rewrite !length_app. cbn [length bs String.list_ascii_of_string crlf]. lia.
Qed.

Lemma slave_lines_text v rs i o :
  Forall field_ok (slave_fields v i rs) -> slave_lines v i rs o = o ++ concat ((fun f => field_line f ++ crlf) <$> slave_fields v i rs).
Proof.
  revert i o. induction rs as [|r rs IH]; intros i o H; [by rewrite app_nil_r|].
  cbn [slave_fields slave_lines] in *. apply Forall_cons in H as [Hr H]. rewrite fmap_cons. cbn [concat].
  rewrite IH by done. rewrite (info_add_field o _ (slave_field v i r)), <- !app_assoc; [done..|].
  unfold slave_line, slave_field, field_line. cbn [fst snd show]. rewrite c_str_id, <- !app_assoc; [done|].
  destruct Hr as [[_ Hz] _]. cbn [slave_field snd] in Hz. rewrite app_assoc in Hz. apply Forall_app in Hz as [Hz _].
  by apply Forall_app in Hz as [_ Hz].
Qed.

(** A printer as a loop over the fields. *)
Definition emit_section (sec : bytes * list (bytes * Value)) : bytes :=
  foldl (fun o f => info_add o (field_line f ++ crlf)) (bs "# " ++ sec.1 ++ crlf) sec.2 ++ crlf.

Lemma emit_fields_text fs o :
  Forall field_ok fs -> foldl (fun o f => info_add o (field_line f ++ crlf)) o fs = o ++ concat ((fun f => field_line f ++ crlf) <$> fs).
Proof.
  intros H. revert o. induction H as [|f fs Hf _ IH]; intros o; [by rewrite app_nil_r|].
  rewrite fmap_cons. cbn [foldl concat]. rewrite (info_add_field o _ f Hf eq_refl), IH. by rewrite <- !app_assoc.
Qed.

Lemma emit_section_text sec : Forall field_ok sec.2 -> emit_section sec = section_text sec.
Proof. intros H. unfold emit_section, section_text. rewrite emit_fields_text by done. by rewrite <- !app_assoc. Qed.

(** The six sections without loops are their printers. *)
Lemma plain_sections v :
  take 6 (info_emits v) = emit_section <$> take 6 (info_report v).
Proof. reflexivity. Qed.

Lemma foldl_slaves v i rs o :
  Forall field_ok (slave_fields v i rs) -> slave_lines v i rs o = foldl (fun o f => info_add o (field_line f ++ crlf)) o (slave_fields v i rs).
Proof. intros H. by rewrite slave_lines_text, emit_fields_text. Qed.

Lemma replication_section v :
  report_ok v -> info_replication v [] = emit_section (info_report v !!! 6%nat).
Proof.
  intros [H _]. pose proof H as Hall. unfold info_report in H. do 6 apply Forall_cons in H as [_ H]. apply Forall_cons in H as [H _]. cbn [snd] in H.
  unfold info_replication, emit_section. cbn [info_report lookup_total list_lookup_total fst snd].
  rewrite !foldl_app.
  apply Forall_app in H as [_ H]. apply Forall_app in H as [Hm H]. apply Forall_app in H as [Ht H]. apply Forall_app in H as [Hsl _].
  rewrite (foldl_slaves _ _ _ _ Hsl).
  apply Forall_cons in Ht as [_ Ht]. apply Forall_cons in Ht as [[[_ Hid] _] Ht]. apply Forall_cons in Ht as [[[_ Hid2] _] _]. cbn [txt snd] in Hid, Hid2.
  rewrite (c_str_id _ Hid), (c_str_id _ Hid2).
  destruct (replica_mode (cl (i_cron v))).
  - apply Forall_cons in Hm as [[[_ Hh] _] _]. cbn [txt snd] in Hh. rewrite (c_str_id _ Hh). reflexivity.
  - reflexivity.
Qed.

(** *** Taking the report apart *)

Lemma crlf_lines_line w s : Forall (fun c => c <> c_cr) w -> crlf_lines (w ++ crlf ++ s) = w :: crlf_lines s.
Proof.
  induction 1 as [|c w Hc _ IH]; [reflexivity|]. cbn [app crlf_lines].
  destruct (w ++ crlf ++ s) as [|d u] eqn:E; [by destruct w|].
  rewrite bool_decide_eq_false_2 by (intros [? _]; done). by rewrite IH.
Qed.

(** A name that a reader takes for a name. *)
Definition name_ok (k : bytes) : bool :=
  negb (bool_decide (k = [])) && forallb (fun c => negb (bool_decide (c = chr 58 \/ c = c_cr \/ c = chr 35))) k.

Lemma name_ok_chars k : name_ok k = true -> k <> [] /\ Forall (fun c => c <> chr 58 /\ c <> c_cr /\ c <> chr 35) k.
Proof.
  unfold name_ok. intros [Hk H]%andb_prop. split; [by apply negb_true_iff, bool_decide_eq_false_1 in Hk|].
  apply Is_true_true_2, forallb_True in H. eapply Forall_impl; [exact H|].
  intros c Hc. apply Is_true_true_1, negb_true_iff, bool_decide_eq_false_1 in Hc. naive_solver.
Qed.

Lemma cut_colon_field k t : Forall (fun c => c <> chr 58) k -> cut_colon (k ++ bs ":" ++ t) = (k, t).
Proof. induction 1 as [|c k Hc _ IH]; [done|]. cbn [app cut_colon]. by rewrite bool_decide_eq_false_2, IH. Qed.

Lemma print_u64_no_cr n : 0 <= n < 2 ^ 64 -> Forall (fun c => c <> c_cr) (print_u64 n).
Proof. intros H. eapply Forall_impl; [by apply print_u64_digits|]. intros c Hc ->. by vm_compute in Hc. Qed.

Lemma show_no_cr x : value_ok x -> Forall (fun c => c <> c_cr) (show x).
Proof.
  destruct x as [n|n|t]; cbn [value_ok show]; intros H; [by apply print_u64_no_cr| |by destruct H].
  unfold print_i64. case_match; bool_facts; [constructor; [done|]|]; apply print_u64_no_cr; lia.
Qed.

Lemma show_reads x : value_ok x -> reads (show x) x.
Proof.
  assert (Hu : forall n, 0 <= n < 2 ^ 64 -> read_number (print_u64 n) = n).
  { intros n Hn. rewrite <- (print_u64_val n Hn) at 2. pose proof (print_u64_digits n Hn) as Hd. unfold read_number.
    destruct (print_u64 n) as [|c ds]; [done|]. apply Forall_cons in Hd as [Hc _].
    rewrite bool_decide_eq_false_2; [done|]. intros ->. by vm_compute in Hc. }
  destruct x as [n|n|t]; cbn [value_ok show reads]; intros H; [by apply Hu| |done].
  unfold print_i64. case_match; bool_facts; [|apply Hu; lia].
  cbn [read_number]. rewrite bool_decide_eq_true_2 by done. rewrite print_u64_val by lia. lia.
Qed.

(** A section in order, its title and its names included. *)
Definition section_ok (sec : bytes * list (bytes * Value)) : Prop :=
  Forall (fun c => c <> c_cr) sec.1 /\ Forall (fun f => name_ok f.1 = true /\ value_ok f.2) sec.2.

Definition shown_fields (fs : list (bytes * Value)) : list (bytes * bytes) := (fun f => (f.1, show f.2)) <$> fs.

Lemma read_fields fs s st :
  Forall (fun f => name_ok f.1 = true /\ value_ok f.2) fs ->
  foldr read_line_of st (crlf_lines (concat ((fun f => field_line f ++ crlf) <$> fs) ++ s)) =
  let '(secs, cur) := foldr read_line_of st (crlf_lines s) in (secs, shown_fields fs ++ cur).
Proof.
  induction 1 as [|[k x] fs [Hk Hx] _ IH]; [cbn [fmap list_fmap concat app shown_fields]; by destruct (foldr read_line_of st (crlf_lines s))|].
  destruct (name_ok_chars k Hk) as [Hne Hch]. cbn [fst snd] in *. rewrite fmap_cons. cbn [concat]. rewrite <- !app_assoc.
  unfold field_line at 1. cbn [fst snd]. rewrite crlf_lines_line.
  2:{ apply Forall_app; split; [eapply Forall_impl; [done|]; naive_solver|]. apply Forall_app; split; [by repeat constructor|by apply show_no_cr]. }
  cbn [foldr]. rewrite IH. destruct (foldr read_line_of st (crlf_lines s)) as [secs cur].
  destruct k as [|c k]; [done|]. apply Forall_cons in Hch as Hc. destruct Hc as [(_ & _ & Hc) _].
  unfold read_line_of. cbn [app]. rewrite bool_decide_eq_false_2 by done. change (c :: k ++ bs ":" ++ show x) with ((c :: k) ++ bs ":" ++ show x).
  rewrite cut_colon_field; [done|]. eapply Forall_impl; [done|]. naive_solver.
Qed.

Lemma read_sections secs :
  Forall section_ok secs -> foldr read_line_of ([], []) (crlf_lines (concat (section_text <$> secs))) = ((fun sec => (sec.1, shown_fields sec.2)) <$> secs, []).
Proof.
  induction 1 as [|[t fs] secs [Ht Hf] _ IH]; [done|]. cbn [fst snd] in *. rewrite !fmap_cons. cbn [concat]. unfold section_text at 1. cbn [fst snd].
  rewrite <- !app_assoc. rewrite (app_assoc (bs "# ") t). rewrite crlf_lines_line by (apply Forall_app; split; [by repeat constructor|done]).
  cbn [foldr]. rewrite read_fields by done. change (crlf ++ concat (section_text <$> secs)) with ([] ++ crlf ++ concat (section_text <$> secs)).
  rewrite crlf_lines_line by done. cbn [foldr]. rewrite IH. cbn. by rewrite app_nil_r.
Qed.

(** *** The choice of the sections *)

Definition wanted {A} (args : list bytes) (l : list A) : list A :=
  snd <$> filter (fun p => p.1 = true) (zip (asked args <$> info_names) l).

(** The marks after the loop over the arguments. *)
Lemma info_want_spec args all want :
  length want = 7%nat ->
  info_want args all want =
    (all || existsb info_all args,
     zip_with (fun w n => w || existsb (fun a => negb (info_all a) && arg_ieq a n) args) want info_names).
Proof.
  revert all want. induction args as [|a args IH]; intros all want Hl.
  { cbn [info_want existsb]. rewrite orb_false_r. f_equal. do 8 (destruct want as [|[] want]; try done). }
  cbn [info_want existsb]. destruct (info_all a) eqn:Ea.
  { rewrite IH by done. by rewrite orb_true_r. }
  cbn [negb andb orb]. destruct (list_find _ info_names) as [[s n]|] eqn:Ef.
  - apply list_find_Some in Ef as (Hs & Hn & _). rewrite IH by by rewrite length_insert. f_equal. apply list_eq. intros i.
    rewrite !lookup_zip_with. destruct (decide (i = s)) as [->|Hi].
    + rewrite list_lookup_insert_eq by (rewrite Hl; by apply lookup_lt_Some in Hs). rewrite Hs. destruct (lookup_lt_is_Some_2 want s) as [w E]; [rewrite Hl; by apply lookup_lt_Some in Hs|]. rewrite E. simpl. rewrite Hn. by destruct w.
    + rewrite list_lookup_insert_ne by done. destruct (want !! i) as [w|]; [simpl|done]. destruct (info_names !! i) as [m|] eqn:Em; [simpl|done].
      replace (arg_ieq a m) with false; [done|]. symmetry. apply bool_decide_eq_false_2. apply bool_decide_eq_true_1 in Hn. rewrite Hn. intros ->.
      apply Hi. eapply NoDup_lookup; [|done..]. by apply (bool_decide_unpack _), Is_true_true_2; vm_compute.
  - apply list_find_None in Ef. rewrite IH by done. f_equal. apply list_eq. intros i. rewrite !lookup_zip_with.
    destruct (want !! i) as [w|]; [simpl|done]. destruct (info_names !! i) as [m|] eqn:Em; [simpl|done].
    replace (arg_ieq a m) with false; [done|]. symmetry. apply not_true_is_false. eapply Forall_forall in Ef; [done|]. by eapply list_elem_of_lookup_2.
Qed.

(** What do_info's selection is, argument by argument. *)
Lemma info_marks args :
  let '(all, want) := info_want args (length args =? 0)%nat (replicate 7 false) in (fun w => all || w) <$> want = asked args <$> info_names.
Proof.
  rewrite info_want_spec by done. unfold asked. cbn [replicate info_names fmap list_fmap zip_with orb].
  destruct (length args =? 0)%nat eqn:E; [done|]. cbn [orb]. destruct (existsb info_all args) eqn:Ea; [done|].
  assert (Hall : forall n, existsb (fun a => negb (info_all a) && arg_ieq a n) args = existsb (fun a => arg_ieq a n) args).
  { intros n. clear E. induction args as [|a args IH]; [done|]. cbn [existsb] in *. apply orb_false_iff in Ea as [-> Ea]. by rewrite IH. }
  cbn [orb]. by rewrite !Hall.
Qed.

Lemma concat_marked {A} (f : A -> bytes) ws l :
  concat (zip_with (fun (w : bool) (t : bytes) => if w then t else []) ws (f <$> l)) = concat (f <$> (snd <$> filter (fun p => p.1 = true) (zip ws l))).
Proof.
  revert l. induction ws as [|[] ws IH]; intros [|x l]; try done; rewrite fmap_cons; cbn [zip_with zip concat].
  - rewrite filter_cons_True by done. rewrite !fmap_cons. cbn [concat snd]. by rewrite IH.
  - rewrite filter_cons_False by done. by rewrite IH.
Qed.

Lemma do_info_wanted v proto cmd args b :
  info_emits v = section_text <$> info_report v ->
  do_info (info_emits v) proto (cmd :: args) b = resp_verbatim proto b (concat (section_text <$> wanted args (info_report v))).
Proof.
  intros ->. unfold do_info, wanted. cbn [tail length]. change (S (length args) =? 1)%nat with (length args =? 0)%nat.
  pose proof (info_marks args) as H. destruct (info_want args _ _) as [all want]. rewrite <- H, <- concat_marked. f_equal. f_equal.
  by rewrite zip_with_fmap_l.
Qed.

(** *** The whole report *)

Lemma slave_names v rs i : Z.of_nat i + Z.of_nat (length rs) <= 2 ^ 64 -> Forall (fun f => name_ok f.1 = true) (slave_fields v i rs).
Proof.
  revert i. induction rs as [|r rs IH]; intros i Hi; cbn [slave_fields length] in *; constructor; [|apply IH; lia].
  unfold slave_field, name_ok. cbn [fst]. rewrite forallb_app. rewrite bool_decide_eq_false_2 by done. cbn [negb andb].
  apply andb_true_intro; split; [by vm_compute|]. apply forallb_forall. intros c Hc%list_elem_of_In.
  pose proof (print_u64_digits (Z.of_nat i) ltac:(lia)) as Hd. rewrite Forall_forall in Hd. specialize (Hd c Hc).
  rewrite bool_decide_eq_false_2; [done|]. intros [-> | [-> | ->]]; by vm_compute in Hd.
Qed.

Lemma report_names v :
  Z.of_nat (length (i_order v)) < 2 ^ 64 ->
  Forall (fun sec => Forall (fun c => c <> c_cr) sec.1 /\ Forall (fun f => name_ok f.1 = true) sec.2) (info_report v).
Proof.
  intros Ho. unfold info_report. do 6 (constructor; [split; [by repeat constructor|by repeat (constructor; [by vm_compute|])]|]).
  constructor; [|constructor]. split; [by repeat constructor|]. cbn [snd].
  repeat (apply Forall_app; split); try (by repeat (constructor; [by vm_compute|])); [..|apply slave_names; lia|];
    destruct (replica_mode _); by repeat (constructor; [by vm_compute|]).
Qed.

Lemma report_sections v : report_ok v -> Forall section_ok (info_report v).
Proof.
  intros [H Ho]. pose proof (report_names v Ho) as Hn. rewrite Forall_forall in *. intros sec Hs. destruct (Hn sec Hs) as [Ht Hk]. split; [done|].
  specialize (H sec Hs). rewrite Forall_forall in *. intros f Hf. split; [by apply Hk|by apply H].
Qed.

Lemma info_emits_text v : report_ok v -> info_emits v = section_text <$> info_report v.
Proof.
  intros Hv. transitivity (emit_section <$> info_report v).
  - rewrite <- (take_drop 6 (info_emits v)), <- (take_drop 6 (info_report v)), plain_sections, fmap_app. f_equal.
    change (drop 6 (info_emits v)) with [info_replication v []]. rewrite replication_section by done. reflexivity.
  - apply list_fmap_ext. intros i sec Hi. apply emit_section_text. destruct Hv as [H _]. rewrite Forall_forall in H. apply H.
    by eapply list_elem_of_lookup_2.
Qed.

(** INFO tells each component's state as it is.  Whatever sections are asked
    for, by name, by a collective name or by no name, in any order, the reply
    splits at line ends into exactly those sections in the order of the table,
    each with exactly its fields, and each number reads back as the counter it
    stands for, as long as the texts hold no carriage return and no line
    reaches the 511 bytes of [info_add]. *)
Theorem info_report_exact (v : Server) (proto : Z) (cmd : bytes) (args : list bytes) (b : Buffer) (Hv : report_ok v) :
  exists body, do_info (info_emits v) proto (cmd :: args) b = resp_verbatim proto b body /\
    Forall2 (fun sec spec => sec.1 = spec.1 /\ Forall2 (fun f g => f.1 = g.1 /\ reads f.2 g.2) sec.2 spec.2)
      (read_info body) (wanted args (info_report v)).
Proof.
  eexists. split; [by apply do_info_wanted, info_emits_text|].
  assert (Hw : Forall section_ok (wanted args (info_report v))).
  { pose proof (report_sections v Hv) as H. rewrite Forall_forall in *. intros sec Hs. unfold wanted in Hs.
    apply list_elem_of_fmap in Hs as ([w sec'] & -> & Hs). apply list_elem_of_filter in Hs as [_ Hs]. apply H. by apply elem_of_zip_r in Hs. }
  unfold read_info. rewrite read_sections by done. cbn [fst]. apply Forall2_fmap_l. apply Forall_Forall2_diag.
  eapply Forall_impl; [exact Hw|]. intros [t fs] [_ Hf]. cbn [fst snd] in *. split; [done|]. unfold shown_fields. apply Forall2_fmap_l, Forall_Forall2_diag.
  eapply Forall_impl; [exact Hf|]. intros [k x] [_ Hx]. cbn [fst snd] in *. split; [done|by apply show_reads].
Qed.

(** ** A replica with a replica of its own *)

#[local] Instance value_ok_dec x : Decision (value_ok x).
Proof. destruct x; cbn [value_ok]; unfold no_zero; apply _. Defined.
#[local] Instance field_ok_dec f : Decision (field_ok f).
Proof. unfold field_ok. apply _. Defined.
#[local] Instance report_ok_dec v : Decision (report_ok v).
Proof. unfold report_ok. apply _. Defined.

Definition demo_server : Server :=
  let ks := mkKS (db ks_empty) ∅ [] 1610612736 [] in
  let saver := mkSaver ks 7 0 true 61000 512 None ∅ in
  let x := mkHX (bs "10.0.0.7:41000") 6380 120 59000 0 0 0 false [] in
  let srv := mkLS ∅ 42 (mkH {[1%nat := x]} {[1%nat]} ∅ ∅ 134 61500 true false FO_NONE [] 0 0 false 10) in
  mkServer (mkNS [] 2 9 10 []) saver aof0 srv chained config_default 1500 3 805306368 [1%nat].

Example demo_info :
  read_info (concat (info_emits demo_server)) !! 2%nat =
    Some (bs "Memory",
      [(bs "used_memory", bs "1610612736"); (bs "used_memory_human", bs "1536.00M"); (bs "used_memory_rss", bs "805306368");
       (bs "mem_fragmentation_ratio", bs "0.50"); (bs "maxmemory", bs "0"); (bs "maxmemory_policy", bs "noeviction");
       (bs "evicted_keys", bs "3")]) /\
  (read_info (concat (info_emits demo_server)) !!! 6%nat).2 !! 10%nat =
    Some (bs "slave0", bs "ip=10.0.0.7,port=6380,state=online,offset=120,lag=2").
Proof. vm_compute. split; reflexivity. Qed.

Lemma info_report_exact_witness :
  exists body, do_info (info_emits demo_server) 2 [bs "INFO"; bs "Clients"; bs "SERVER"] (buf_create 64) = resp_verbatim 2 (buf_create 64) body /\
    Forall2 (fun sec spec => sec.1 = spec.1 /\ Forall2 (fun f g => f.1 = g.1 /\ reads f.2 g.2) sec.2 spec.2)
      (read_info body) (take 2 (info_report demo_server)).
Proof. apply (info_report_exact demo_server 2 (bs "INFO") [bs "Clients"; bs "SERVER"]). by apply (bool_decide_unpack _); vm_compute. Defined.
